(* ===== verification/_CoqProject ===== *)
-Q . S2P
Prelude.v
Protocol.v
Agreement.v
Errors.v
Layout.v
Tags.v
Payload.v
Router.v
Exchange.v
Stream.v
P2p.v
CollectiveLoop.v
Ring.v
Operation.v
HostReduction.v
Comp.v
Device.v
InProcess.v
InProcessReduction.v
TensorDevice.v
InProcessExchange.v
InProcessTheorems.v
Topology.v
ShortestPath.v
RingSearch.v
Hierarchy.v
TopologyText.v
Planner.v
Tuning.v
Autotune.v
TuningInvariant.v
PlanTheorems.v
Environment.v
FloatBackend.v
LocalReduce.v
LocalStrategies.v
LocalRing.v
CollectiveConfig.v
LocalOps.v
LocalServer.v
LocalTheorems.v
VectorBackend.v
LocalProperties.v
Processes.v
Orchestrator.v
OrchestratorInvariant.v
OrchestratorTheorems.v
OrchestratorProperties.v
GlobalNode.v
GlobalTree.v
GlobalRooted.v
GlobalAllReduce.v
GlobalRing.v
GlobalProperties.v
SyncService.v
SyncProperties.v
GlobalWorker.v
RankDevice.v
P2pClient.v
Peer.v
Session.v
SessionRounds.v
DeviceCollective.v
DeviceRing.v
RingCollectives.v
RingShards.v
RingProperties.v
TensorRank.v
RingExample.v
HostExchange.v
DirectCollectives.v
DirectTheorems.v
ChunkedBroadcast.v
DirectExample.v
Native.v
WorkQueue.v
Probe.v
ProbeTheorems.v
