(* ===== verification/Prelude.v ===== *)
(** * ruCCL: a verification development

    ruCCL is a library of collective operations (all-reduce, all-gather,
    broadcast, ...) for tensors that live on several devices or machines.  This
    development models the parts of it that carry its own logic and proves what
    makes them correct.

    ** The program and the files that model it

    Ranks of a group talk to a coordinator, to each other, or share a process.

    - The wire (src/src/rank/protocol.rs, error.rs, tags.rs, layout.rs,
      payload.rs).  [Protocol] has the opcodes, the 80-byte frame header, its
      validation, and frames; [Errors] the error types; [Tags] the families of
      message tags; [Layout] the partitions of a buffer; [Payload] the length
      checks and the counts prefix of host payloads.
    - The coordinator (src/src/rank/network.rs).  [Agreement] is the
      [CollectiveAgreement] of protocol.rs, with an abstract specification and
      a refinement; [Router] is [validate_and_route] and the routing of every
      collective; [Exchange] relates the routing of a variable all-to-all to
      the client that decodes it, and says which requests of any opcode are
      answered; [Stream] has [write_frame], [read_frame] and
      the reader threads over byte streams with short writes and failures;
      [P2p] and [CollectiveLoop] are the event loops [run_p2p_loop] and
      [run_collective_loop] over arbitrary [FrameSink]s.
    - Collectives inside one process (src/src/in_process, src/src/tensor_device).
      [Comp] is the monad of stateful, fallible code; [Device] the interface of
      a device as a class with laws; [InProcess], [InProcessReduction] and
      [InProcessExchange] are the communicator and its collectives over any
      such device; [TensorDevice] is the device on a tensor backend and the
      proof that it keeps the laws; [InProcessTheorems] has the theorems and an
      instance.  [Ring] holds the ring schedules that the reducing and the
      copying collectives share.  [Native] is the communicator of native devices
      (in_process/native.rs): its generations as steps of the calling threads,
      the ring on a device executor as a record of operations with laws, and the
      theorems about both.
    - Reductions on the host (src/src/rank/host/reduction.rs, operation.rs) are
      [HostReduction] and [Operation].
    - The planner (src/src/rank/topology.rs).  [Topology] is the graph of links,
      rails and aggregate bandwidths; [ShortestPath] the route search;
      [RingSearch] the search for closed rings; [Hierarchy] the inference of
      two-level groups; [Planner] the cost estimates; [Tuning] policies,
      fingerprints, autotune profiles and the plan of a collective;
      [TopologyText] and [Environment] the configuration from environment
      variables and a profile file; [Autotune], [TuningInvariant] and
      [PlanTheorems] the theorems about profiles, tunings and plans.

    - Collectives of tensors among the peers of one process (src/src/local,
      config.rs, api.rs).  [FloatBackend] is the interface of a tensor backend
      as a class with laws, and hash maps with the order their hasher decides;
      [LocalReduce] the strategies (centralized, tree, ring), [LocalStrategies]
      and [LocalRing] their results; [CollectiveConfig] the configuration;
      [LocalOps] the operations in progress and the replies to their callbacks;
      [LocalServer] the messages of the server and what a client waits for;
      [LocalTheorems] what a message, a round of messages and any sequence of
      messages do; [LocalProperties] the theorems, applied to the backend of [VectorBackend].  The recursion of the
      tree strategies carries the number of tensors plus one as fuel, enough for
      any positive arity.  The node of the global level is an interface there.
    - Collectives among nodes (src/src/global).  [Orchestrator] is the state of
      the orchestrator (orchestrator/state.rs, base.rs, shared.rs) as a step on
      events, [OrchestratorInvariant] its invariant, [OrchestratorTheorems] a
      transition system of a group it refines, [OrchestratorProperties] the
      theorems.  [Processes] has networks of processes that post, wait and meet
      at barriers, and the theorem that one schedule stands for all when the
      operations on the mail commute.  [GlobalNode] has the operations of a node
      (node/base.rs, rooted.rs, tree.rs, centralized.rs, ring.rs) as such
      processes over the data service; [GlobalTree], [GlobalRooted],
      [GlobalAllReduce] and [GlobalRing] run them, [GlobalProperties] states what
      all schedules end in.  [SyncService] is the barrier (node/sync.rs) with
      registration, its messages and the notifications of the loop that waits,
      [SyncProperties] its theorems; [GlobalWorker] the failure
      policy and the control worker (policy.rs, node/worker.rs).

    - Ranks on their own machines (src/src/rank/network.rs, peer.rs, device.rs,
      device_collective, host/exchange.rs, work.rs).  [P2pClient] is the
      point-to-point connection to the coordinator: calls of many threads, the
      reader that pairs responses with them, timeouts and failure, as steps, and
      what holds in every reachable state.  [Peer] does the same for the mesh of
      streams between all ranks (DirectPeerMesh).  [Session] has the operations
      of the client session over both data planes, as programs of [Processes]
      whose mail is the transport: messages under way on the rails, and
      collective rounds answered by the coordinator of [Router];
      [SessionRounds] runs the round of all ranks.  [Probe] has the probing of
      the links of a session, with the time of a sample as a parameter, and
      [ProbeTheorems] what all ranks find.  [WorkQueue] is the queue and the
      threads on which collectives run in the background, with its theorems.
      [RankDevice] is the interface of a device as a class with laws;
      [DeviceCollective] the ring collectives (ring.rs, reduce_scatter.rs,
      all_gather.rs, reduction.rs) as programs of a rank and of its threads,
      [DirectCollectives] those through the coordinator (direct.rs,
      reduce_dispatch.rs, point_to_point.rs, bounded_broadcast.rs) and
      [HostExchange] those of host payloads.  [DeviceRing], [RingCollectives] and
      [RingShards] run the threads of all ranks,
      [RingProperties] their start and what every schedule ends in; [DirectTheorems] and
      [ChunkedBroadcast] do so for the direct collectives.  The loop of a
      chunked broadcast carries the number of elements as fuel, enough as every
      chunk has one.  [TensorRank] is the tensor device in this role, with the
      proof of the laws; [RingExample] and [DirectExample] are three ranks with
      tensors of bytes.

    [Prelude] (this file) has what all share: the monad [outcome] of Rust
    results and panics, machine integers, little-endian bytes, and the lemmas
    and hints on them.

    ** How code is translated

    A function is a Rocq function with the same name.  A call that can fail
    returns [outcome]: [Ok], [Err], or [Panic] for an index out of range, an
    overflow that is not checked or wrapped by the code, and an [unwrap] of a
    missing value; that code does not panic is a theorem, never assumed.  Code that
    mutates shared state takes and returns the state, on errors too.  Integers
    are [Z] with their width written out ([wrap], [checked_add],
    [saturating_add], [arith]); indices, ranks and rails are [nat]; [usize] has
    64 bits.  Functions that return an [Option] and may also panic are written
    with [Err tt] for [None].  Error messages keep the literal or the format
    string of the source; interpolated values are left out.

    Code outside the repository is a parameter: the CRC of [crc32fast]
    ([Crc32Hash]), the arithmetic of floats, the tensor backend, the kernel's
    short writes and stream failures, the order in which a loop's channel
    delivers events, the environment, the file system and the JSON parser, the
    order of a hash map, the order in which concurrent downloads complete, the
    wire form of an element and the synchronization of a device, the text of an
    error in an abort frame, the time that a probe takes.  Of the data service of the nodes a store of
    exposed tensors is assumed ([data_service] of [GlobalNode]), and of the
    notifications of tokio that [notify_waiters] wakes the waiter that is
    enabled ([SyncService]).

    The threads that a rank starts for the channels of a ring collective share
    its buffers.  In the model each starts with the memory of its rank, and the
    theorems state what it leaves in its own part of the buffer (for the
    all-reduce also that it changes nothing else); the interleaving of the
    threads' device operations is not modelled, that of their messages is.

    Loops that are not structural carry fuel.  The route search takes one
    iteration per rank, as in the source; the flooding of a component takes the
    world size, which bounds the ranks it can push; the ring search recurses
    once per rank still missing.  That this fuel is enough is part of the
    theorems, which state that a result is returned.

    ** What is proved

    - Round trips: frames and headers encode and decode; transmitted frames
      arrive whole whatever the split of the writes; a variable all-to-all
      delivers every block; two all-to-alls are the identity.
    - The coordinator: agreement refines its specification, admits exactly the
      matching requests, and the routed responses are the specified results;
      both event loops keep their invariants for every sequence of events: a
      point-to-point message is answered exactly once and no matching pair is
      left waiting, and collective rounds stay in lockstep.
    - In-process collectives: each leaves in every rank's buffer the exact
      result of the operation, in the exact order of the additions, on every
      device with the laws, and errors leave buffers as stated.  On the native
      communicator every call gets the answer of its rank in the one round that
      has its submission, under any interleaving and any device failures.
    - The planner: topologies and tunings are well formed however they are
      built, from code or from the environment; routes are the cheapest walks;
      ring orders are closed rings, the best one up to nine ranks; inferred
      groups partition the ranks; profile entries are unambiguous; a plan
      always exists and is the cheapest under the automatic policy.

    - Local collectives: a round of calls answers every peer once, on its own
      device, with the specified result, by any strategy that can end (trees of
      positive arity, rings whose slices fit the tensor); no sequence of
      messages answers a callback twice.
    - Global collectives: the orchestrator keeps its invariant, refines the
      abstract group, and answers all members of a round alike; a lost member
      fails the calls in progress.  When all nodes run an operation at once,
      every schedule ends, after as many steps, in one state with the specified
      tensors and nothing exposed that is not taken.  The barrier separates its
      generations and, when all nodes are registered before one enters, releases
      all of them: no message and no wake-up is lost.  The worker answers each
      request once.

    - Device collectives over a transport: when all ranks start one, every
      schedule ends, the coordinator has answered one round, nothing stays under
      way, and the parts of the buffers hold the reduction (one result for all
      ranks) or the elements of all ranks in rank order.  On a point-to-point
      connection no two calls in flight share a sequence number, a call returns
      the response with its own opcode and number or a failure, and a failure
      is final.  On the mesh of the peers messages arrive whole and, under each
      tag, in the order of their sends, and a send that returns has arrived.
    - Probing: in every schedule all ranks end with the same well-formed and
      complete topology, with bounds on how far it departs from what was
      measured.  Work queue: tasks run in order, each once, one at a time; each
      caller gets the outcome of its own task, and all that is submitted ends.

    ** Not modelled

    Sockets, threads and timeouts beyond what [Stream], [P2p],
    [CollectiveLoop], [P2pClient], [Peer], [Orchestrator] and [GlobalWorker] take
    as events: the set-up of a rendezvous and of a mesh, the heartbeats, timeouts
    and the abort of a whole session in network.rs, the [Leave] frames of a mesh
    that is dropped (peer.rs), the trace of a transport (transport.rs) and the
    communicator handle.  The hierarchical, pairwise and streaming collectives of src/src/rank/device_collective, the abort after a failed
    channel, the all-gather-matmul and bounded variants of
    src/src/tensor_device, the
    channels and the runtime of the local server, the cancellation of a whole
    operation of a node, and torch-bridge, which binds the library to PyTorch
    and CUDA.  The display of errors and the serialisation that [serde]
    derives are not modelled either. *)

From stdpp Require Export base tactics list option gmap strings.
From Stdlib Require Export ZArith Lia.

#[global] Open Scope Z_scope.

(** ** Results of Rust code

    A Rust call that can fail returns [Ok], returns [Err], or panics (an index
    out of range, an arithmetic overflow with overflow checks, an [unwrap] of
    a missing value).  All fallible code of the development is written in this
    monad, so that the absence of panics is a theorem and not an assumption. *)
Inductive outcome (E A : Type) : Type :=
  | Ok (a : A)
  | Err (e : E)
  | Panic.
Arguments Ok {E A} a.
Arguments Err {E A} e.
Arguments Panic {E A}.

Declare Scope rust_scope.
Delimit Scope rust_scope with rust.

#[export] Instance outcome_ret E : MRet (outcome E) := fun A a => Ok a.

#[export] Instance outcome_bind E : MBind (outcome E) :=
  fun A B f m =>
    match m with
    | Ok a => f a
    | Err e => Err e
    | Panic => Panic
    end.

#[export] Instance outcome_fmap E : FMap (outcome E) :=
  fun A B f m =>
    match m with
    | Ok a => Ok (f a)
    | Err e => Err e
    | Panic => Panic
    end.

#[export] Instance outcome_eq_dec {E A} `{EqDecision E, EqDecision A} :
  EqDecision (outcome E A).
Proof. solve_decision. Defined.

(** [m.map_err(f)], [option.ok_or(e)], [if bad { return Err(e) }], [v[i]]. *)
Definition map_err {E F A} (f : E -> F) (m : outcome E A) : outcome F A :=
  match m with
  | Ok a => Ok a
  | Err e => Err (f e)
  | Panic => Panic
  end.

Definition ok_or {E A} (o : option A) (e : E) : outcome E A :=
  match o with Some a => Ok a | None => Err e end.

Definition expect {E A} (o : option A) : outcome E A :=
  match o with Some a => Ok a | None => Panic end.

Definition fail_if {E} (bad : bool) (e : E) : outcome E unit :=
  if bad then Err e else Ok tt.

Definition index {E A} (l : list A) (i : nat) : outcome E A := expect (l !! i).

(** [&l[start..stop]]. *)
Definition slice_range {E A} (l : list A) (start stop : nat) : outcome E (list A) :=
  if (start <=? stop)%nat && (stop <=? length l)%nat
  then Ok (take (stop - start) (drop start l))
  else Panic.

Definition is_ok {E A} (m : outcome E A) : bool :=
  match m with Ok _ => true | _ => false end.

Definition is_panic {E A} (m : outcome E A) : bool :=
  match m with Panic => true | _ => false end.

Abbreviation no_panic m := (is_panic m = false).

(** A loop [for x in l { body }] whose body updates [s] and may fail. *)
Fixpoint foldM {E A S} (f : S -> A -> outcome E S) (s : S) (l : list A) : outcome E S :=
  match l with
  | [] => Ok s
  | x :: l' => s' ← f s x; foldM f s' l'
  end.

Section outcome_lemmas.
Context {E : Type}.

Lemma bind_Ok {A B} (m : outcome E A) (f : A -> outcome E B) b :
  (m ≫= f) = Ok b <-> exists a, m = Ok a /\ f a = Ok b.
Proof. destruct m; cbn; naive_solver. Qed.

Lemma bind_no_panic {A B} (m : outcome E A) (f : A -> outcome E B) :
  no_panic m -> (forall a, m = Ok a -> no_panic (f a)) -> no_panic (m ≫= f).
Proof. destruct m; cbn; naive_solver. Qed.

Lemma map_err_Ok {F A} (f : E -> F) (m : outcome E A) a :
  map_err f m = Ok a <-> m = Ok a.
Proof. destruct m; cbn; naive_solver. Qed.

Lemma map_err_no_panic {F A} (f : E -> F) (m : outcome E A) :
  no_panic (map_err f m) <-> no_panic m.
Proof. by destruct m. Qed.

Lemma ok_or_Ok {A} (o : option A) (e : E) a : ok_or o e = Ok a <-> o = Some a.
Proof. destruct o; cbn; naive_solver. Qed.

Lemma ok_or_no_panic {A} (o : option A) (e : E) : no_panic (ok_or o e).
Proof. by destruct o. Qed.

Lemma fail_if_Ok b (e : E) u : fail_if b e = Ok u <-> b = false.
Proof. destruct b, u; cbn; naive_solver. Qed.

Lemma fail_if_no_panic b (e : E) : no_panic (fail_if b e).
Proof. by destruct b. Qed.

Lemma index_Ok {A} (l : list A) i a : index (E:=E) l i = Ok a <-> l !! i = Some a.
Proof. unfold index, expect. destruct (l !! i); naive_solver. Qed.

Lemma index_no_panic {A} (l : list A) i :
  (i < length l)%nat -> no_panic (index (E:=E) l i).
Proof. intros [x Hx]%lookup_lt_is_Some. unfold index. by rewrite Hx. Qed.

Lemma slice_range_Ok {A} (l : list A) i j :
  (i <= j <= length l)%nat ->
  slice_range (E:=E) l i j = Ok (take (j - i) (drop i l)).
Proof.
  intros [??]. unfold slice_range.
  rewrite (proj2 (Nat.leb_le i j)), (proj2 (Nat.leb_le j (length l))) by done.
  done.
Qed.

Lemma slice_range_inv {A} (l : list A) i j r :
  slice_range (E:=E) l i j = Ok r ->
  (i <= j <= length l)%nat /\ r = take (j - i) (drop i l).
Proof.
  unfold slice_range. destruct (_ && _) eqn:Hb; [|done].
  apply andb_prop in Hb as [?%Nat.leb_le ?%Nat.leb_le]. naive_solver.
Qed.

Lemma slice_range_no_panic {A} (l : list A) i j :
  (i <= j <= length l)%nat -> no_panic (slice_range (E:=E) l i j).
Proof. intros. by rewrite slice_range_Ok. Qed.

Lemma mapM_Ok {A B} (f : A -> outcome E B) l k :
  mapM f l = Ok k <-> Forall2 (fun x y => f x = Ok y) l k.
Proof.
  split.
  - revert k. induction l as [|x l IH]; intros k; cbn.
    + intros [= <-]. constructor.
    + rewrite bind_Ok. intros (y & Hy & (ys & Hys & [= <-])%bind_Ok).
      constructor; auto.
  - induction 1 as [|x y l k Hx _ IH]; cbn; [done|].
    rewrite Hx; cbn. by rewrite IH.
Qed.

Lemma mapM_no_panic {A B} (f : A -> outcome E B) l :
  Forall (fun x => no_panic (f x)) l -> no_panic (mapM f l).
Proof.
  induction 1 as [|x l Hx _ IH]; cbn; [done|].
  apply bind_no_panic; [done|]. intros y _.
  apply bind_no_panic; done.
Qed.

(** [(0..n).map(f).collect::<Result<Vec<_>, _>>()] *)
Lemma mapM_seq_Ok {B} (f : nat -> outcome E B) n k :
  mapM f (seq 0 n) = Ok k <->
    length k = n /\ forall i y, k !! i = Some y -> f i = Ok y.
Proof.
  rewrite mapM_Ok, Forall2_lookup. split.
  - intros Hf. assert (Hlen : length k = n).
    { symmetry. apply Forall2_lookup, Forall2_length in Hf. by rewrite length_seq in Hf. }
    split; [done|]. intros i y Hy. pose proof (lookup_lt_Some _ _ _ Hy).
    specialize (Hf i). rewrite Hy, lookup_seq_lt in Hf by lia. by inversion Hf.
  - intros [Hlen Hf] i. destruct (k !! i) as [y|] eqn:Hy.
    + pose proof (lookup_lt_Some _ _ _ Hy). rewrite lookup_seq_lt by lia.
      constructor. by apply Hf.
    + apply lookup_ge_None in Hy. rewrite lookup_seq_ge by lia. constructor.
Qed.

Lemma mapM_seq_no_panic {B} (f : nat -> outcome E B) n :
  (forall i, (i < n)%nat -> no_panic (f i)) -> no_panic (mapM f (seq 0 n)).
Proof. intros Hf. apply mapM_no_panic, Forall_forall. intros i Hi%elem_of_seq. apply Hf. lia. Qed.

Lemma mapM_is_Ok {A B} (f : A -> outcome E B) l :
  (exists k, mapM f l = Ok k) <-> Forall (fun x => exists y, f x = Ok y) l.
Proof.
  split.
  - intros [k Hk%mapM_Ok]. induction Hk; constructor; eauto.
  - induction 1 as [|x l [y Hy] _ [k Hk]]; cbn; [eauto|]. rewrite Hy. cbn. rewrite Hk. cbn. eauto.
Qed.

(** A loop that appends one piece per element. *)
Lemma foldM_append {A B} (f : A -> outcome E (list B)) acc l r :
  foldM (fun acc x => s ← f x; Ok (acc ++ s)) acc l = Ok r <->
    exists ss, mapM f l = Ok ss /\ r = acc ++ concat ss.
Proof.
  revert acc r. induction l as [|x l IH]; intros acc r.
  - cbn. split.
    + intros [= <-]. exists []. by rewrite app_nil_r.
    + intros (ss & [= <-] & ->). by rewrite app_nil_r.
  - cbn [foldM mapM]. destruct (f x) as [s|e|]; cbn [mbind outcome_bind];
      [|by naive_solver..]. rewrite IH. split.
    + intros (ss & Hss & ->). exists (s :: ss). rewrite Hss. cbn. by rewrite app_assoc.
    + intros (ss & Hss & ->). apply bind_Ok in Hss as (ss' & Hss' & [= <-]).
      exists ss'. cbn. by rewrite app_assoc.
Qed.

Lemma foldM_no_panic {A S} (P : S -> Prop) (f : S -> A -> outcome E S) s l :
  P s -> (forall s x, P s -> x ∈ l -> no_panic (f s x) /\ forall s', f s x = Ok s' -> P s') ->
  no_panic (foldM f s l).
Proof.
  revert s. induction l as [|x l IH]; intros s Hs Hf; cbn [foldM]; [done|].
  destruct (Hf s x Hs ltac:(by left)) as [Hn Hp].
  apply bind_no_panic; [done|]. intros s' Hs'. apply IH; [by apply Hp|].
  intros t y Ht Hy. apply Hf; [done|by right].
Qed.

Lemma foldM_app {A S} (f : S -> A -> outcome E S) s l k :
  foldM f s (l ++ k) = (s' ← foldM f s l; foldM f s' k).
Proof.
  revert s. induction l as [|x l IH]; intros s; cbn; [done|].
  destruct (f s x); cbn; auto.
Qed.

(** A loop keeps an invariant of its state, and finishes when every step does. *)
Lemma foldM_invariant {A S} (P : S -> Prop) (f : S -> A -> outcome E S) s l s' :
  P s -> (forall s x s', P s -> x ∈ l -> f s x = Ok s' -> P s') -> foldM f s l = Ok s' -> P s'.
Proof.
  revert s. induction l as [|x l IH]; intros s Hs Hf Hl; cbn [foldM] in Hl; [by injection Hl as <-|].
  apply bind_Ok in Hl as (s1 & Hs1 & Hl).
  eapply IH; [eapply Hf; [exact Hs|left|exact Hs1]| |exact Hl].
  intros s0 x0 s2 Hp Hx. eapply Hf; [done|by right].
Qed.

Lemma foldM_total {A S} (P : S -> Prop) (f : S -> A -> outcome E S) s l :
  P s -> (forall s x, P s -> x ∈ l -> exists s', f s x = Ok s' /\ P s') -> exists s', foldM f s l = Ok s' /\ P s'.
Proof.
  revert s. induction l as [|x l IH]; intros s Hs Hf; cbn [foldM]; [by exists s|].
  destruct (Hf s x Hs ltac:(by left)) as (s' & -> & Hs'). cbn [mbind outcome_bind].
  apply IH; [done|]. intros s0 x0 H0 Hx. apply Hf; [done|by right].
Qed.

Lemma mapM_total {A B} (f : A -> outcome E B) l :
  (forall x, x ∈ l -> exists y, f x = Ok y) -> exists k, mapM f l = Ok k.
Proof. intros Hf. apply mapM_is_Ok. by apply Forall_forall. Qed.

Lemma mapM_pure {A B} (f : A -> outcome E B) (g : A -> B) l :
  (forall x, x ∈ l -> f x = Ok (g x)) -> mapM f l = Ok (map g l).
Proof.
  intros Hf. apply mapM_Ok. rewrite <- (map_id l) at 1. apply Forall2_fmap, Forall_Forall2_diag.
  apply Forall_forall. done.
Qed.
End outcome_lemmas.

Create HintDb rust.
#[export] Hint Resolve ok_or_no_panic fail_if_no_panic : rust.
#[export] Hint Resolve index_no_panic slice_range_no_panic : rust.

(** Split every hypothesis [m >>= f = Ok _] into its successful steps. *)
Ltac inv_ok :=
  repeat match goal with
  | H : Ok _ = Ok _ |- _ => injection H as H; subst
  | H : Ok _ = Err _ |- _ => discriminate H
  | H : Err _ = Ok _ |- _ => discriminate H
  | H : Panic = Ok _ |- _ => discriminate H
  | H : mret _ = Ok _ |- _ => injection H as H; subst
  | H : (_ ≫= _) = Ok _ |- _ =>
      let x := fresh "v" in let H1 := fresh "Hv" in
      apply bind_Ok in H as (x & H1 & H); cbv beta in H
  | H : ok_or _ _ = Ok _ |- _ => apply ok_or_Ok in H
  | H : map_err _ _ = Ok _ |- _ => apply map_err_Ok in H
  | H : fail_if _ _ = Ok _ |- _ => apply fail_if_Ok in H
  | H : index _ _ = Ok _ |- _ => apply index_Ok in H
  end.

(** ** Machine integers

    An unsigned integer of width [w] is a [Z] in [[0, 2^w)].  [usize] has 64
    bits. *)
Definition in_width (w x : Z) : Prop := 0 <= x < 2 ^ w.
Definition in_widthb (w x : Z) : bool := (0 <=? x) && (x <? 2 ^ w).

Definition wrap (w x : Z) : Z := x mod 2 ^ w.

Definition checked (w x : Z) : option Z := if in_widthb w x then Some x else None.
Definition checked_add (w a b : Z) : option Z := checked w (a + b).
Definition checked_mul (w a b : Z) : option Z := checked w (a * b).

(** [a + b], [a - b] and [a * b] with overflow checks. *)
Definition arith {E} (w x : Z) : outcome E Z := expect (checked w x).

Definition saturate (w x : Z) : Z := Z.max 0 (Z.min x (2 ^ w - 1)).
Definition saturating_add (w a b : Z) : Z := saturate w (a + b).
Definition saturating_sub (w a b : Z) : Z := saturate w (a - b).
Definition saturating_mul (w a b : Z) : Z := saturate w (a * b).

(** [a.div_ceil(b)] of unsigned integers; division by zero panics. *)
Definition div_ceil {E} (a b : Z) : outcome E Z := if b =? 0 then Panic else Ok ((a + b - 1) / b).

Abbreviation usize_bits := 64.
Definition USIZE_MAX : Z := 2 ^ 64 - 1.
Definition U64_MAX : Z := 2 ^ 64 - 1.
Definition U32_MAX : Z := 2 ^ 32 - 1.

Definition Zlen {A} (l : list A) : Z := Z.of_nat (length l).

(** [n.is_multiple_of(m)]: zero is the only multiple of zero. *)
Definition is_multiple_of (n m : Z) : bool :=
  if m =? 0 then n =? 0 else n mod m =? 0.

Section integer_lemmas.
Lemma in_widthb_spec w x : in_widthb w x = true <-> in_width w x.
Proof. unfold in_widthb, in_width. rewrite andb_true_iff, Z.leb_le, Z.ltb_lt. done. Qed.

Lemma checked_Some w x y : checked w x = Some y <-> y = x /\ in_width w x.
Proof.
  unfold checked. rewrite <- in_widthb_spec.
  destruct (in_widthb w x); naive_solver.
Qed.

Lemma checked_in w x : in_width w x -> checked w x = Some x.
Proof. intros. by apply checked_Some. Qed.

Lemma arith_in {E} w x : in_width w x -> arith (E:=E) w x = Ok x.
Proof. intros. unfold arith. by rewrite checked_in. Qed.

Lemma saturate_in w x : in_width w x -> saturate w x = x.
Proof. unfold saturate, in_width. lia. Qed.

Lemma saturate_range w x : 0 <= w -> in_width w (saturate w x).
Proof.
  intros Hw. unfold saturate, in_width.
  pose proof (Z.pow_pos_nonneg 2 w ltac:(lia) Hw). lia.
Qed.

Lemma wrap_in w x : in_width w x -> wrap w x = x.
Proof. intros. by apply Z.mod_small. Qed.

Lemma wrap_range w x : 0 <= w -> in_width w (wrap w x).
Proof.
  intros Hw. apply Z.mod_pos_bound, Z.pow_pos_nonneg; lia.
Qed.

Lemma Zlen_nonneg {A} (l : list A) : 0 <= Zlen l.
Proof. unfold Zlen. lia. Qed.

Lemma is_multiple_of_spec n m :
  0 < m -> is_multiple_of n m = true <-> n = (n / m) * m.
Proof.
  intros Hm. unfold is_multiple_of.
  rewrite (proj2 (Z.eqb_neq m 0)), Z.eqb_eq by lia.
  pose proof (Z.div_mod n m ltac:(lia)). lia.
Qed.
End integer_lemmas.

#[export] Hint Resolve saturate_range wrap_range Zlen_nonneg : rust.

(** ** Bytes and little-endian integers *)
Definition is_byte (b : Z) : Prop := 0 <= b < 256.

Fixpoint to_le (n : nat) (x : Z) : list Z :=
  match n with
  | O => []
  | S n' => x mod 256 :: to_le n' (x / 256)
  end.

Fixpoint of_le (bs : list Z) : Z :=
  match bs with
  | [] => 0
  | b :: bs' => b + 256 * of_le bs'
  end.

Section le_lemmas.
Lemma pow256_S n : 256 ^ Z.of_nat (S n) = 256 * 256 ^ Z.of_nat n.
Proof. rewrite Nat2Z.inj_succ, Z.pow_succ_r by lia. done. Qed.

Lemma pow256_pos n : 0 < 256 ^ Z.of_nat n.
Proof. apply Z.pow_pos_nonneg; lia. Qed.

Lemma length_to_le n x : length (to_le n x) = n.
Proof. revert x. induction n; intros; cbn; auto. Qed.

Lemma to_le_bytes n x : Forall is_byte (to_le n x).
Proof.
  revert x. induction n; intros x; cbn; constructor; auto.
  apply Z.mod_pos_bound. lia.
Qed.

Lemma of_to_le n x : of_le (to_le n x) = x mod 256 ^ Z.of_nat n.
Proof.
  revert x. induction n as [|n IH]; intros x; cbn [of_le to_le].
  - by rewrite Z.mod_1_r.
  - rewrite IH, pow256_S, Z.rem_mul_r by (pose proof (pow256_pos n); lia). done.
Qed.

Lemma of_to_le_id n x : 0 <= x < 256 ^ Z.of_nat n -> of_le (to_le n x) = x.
Proof. intros. by rewrite of_to_le, Z.mod_small. Qed.

Lemma of_le_range bs : Forall is_byte bs -> 0 <= of_le bs < 256 ^ Zlen bs.
Proof.
  unfold Zlen. induction 1 as [|b bs Hb _ IH]; cbn [of_le length]; [cbn; lia|].
  rewrite pow256_S. unfold is_byte in Hb. lia.
Qed.

Lemma to_of_le bs : Forall is_byte bs -> to_le (length bs) (of_le bs) = bs.
Proof.
  induction 1 as [|b bs Hb _ IH]; cbn [of_le to_le length]; [done|].
  unfold is_byte in Hb. f_equal.
  - rewrite Z.mul_comm, Z.mod_add, Z.mod_small by lia. done.
  - rewrite Z.mul_comm, Z.div_add, Z.div_small, Z.add_0_l by lia. done.
Qed.
End le_lemmas.

(** ** Windows of a list

    [sub off n l] is the window [l[off..off+n]]; [put off bs l] is
    [l[off..off+bs.len()].copy_from_slice(bs)]. *)
Definition sub {A} (off n : nat) (l : list A) : list A := take n (drop off l).

Definition put {A} (off : nat) (bs l : list A) : list A :=
  take off l ++ bs ++ drop (off + length bs) l.

Section window_lemmas.
Context {A : Type}.
Implicit Types l bs : list A.

Lemma length_sub off n l :
  (off + n <= length l)%nat -> length (sub off n l) = n.
Proof. intros. unfold sub. rewrite length_take, length_drop. lia. Qed.

Lemma length_put off bs l :
  (off + length bs <= length l)%nat -> length (put off bs l) = length l.
Proof.
  intros. unfold put. rewrite !length_app, length_take, length_drop. lia.
Qed.

Lemma lookup_put off bs l i :
  (off + length bs <= length l)%nat ->
  put off bs l !! i =
    if decide (off <= i < off + length bs)%nat then bs !! (i - off)%nat else l !! i.
Proof.
  intros Hlen. unfold put.
  destruct (decide (i < off)%nat) as [Hi|Hi].
  { rewrite decide_False by lia.
    rewrite lookup_app_l by (rewrite length_take; lia).
    by rewrite lookup_take_lt. }
  rewrite lookup_app_r by (rewrite length_take; lia).
  rewrite length_take, Nat.min_l by lia.
  case_decide as Hd.
  - by rewrite lookup_app_l by lia.
  - rewrite lookup_app_r by lia. rewrite lookup_drop. f_equal. lia.
Qed.

Lemma lookup_sub off n l i :
  sub off n l !! i = if decide (i < n)%nat then l !! (off + i)%nat else None.
Proof.
  unfold sub. case_decide.
  - rewrite lookup_take_lt by done. by rewrite lookup_drop.
  - apply lookup_take_ge. lia.
Qed.

Lemma sub_put_eq off bs l :
  (off + length bs <= length l)%nat -> sub off (length bs) (put off bs l) = bs.
Proof.
  intros. apply list_eq. intros i. rewrite lookup_sub, lookup_put by done.
  case_decide.
  - rewrite decide_True by lia. f_equal. lia.
  - symmetry. apply lookup_ge_None. lia.
Qed.

Lemma sub_put_ne off n off' bs l :
  (off' + length bs <= length l)%nat ->
  (off + n <= off' \/ off' + length bs <= off)%nat ->
  sub off n (put off' bs l) = sub off n l.
Proof.
  intros. apply list_eq. intros i. rewrite !lookup_sub.
  case_decide; [|done]. rewrite lookup_put by done. by rewrite decide_False by lia.
Qed.

Lemma put_sub off n l :
  (off + n <= length l)%nat -> put off (sub off n l) l = l.
Proof.
  intros. apply list_eq. intros i. rewrite lookup_put, length_sub by (rewrite ?length_sub; lia).
  case_decide; [|done]. rewrite lookup_sub, decide_True by lia. f_equal. lia.
Qed.

Lemma slice_range_sub {E} l off n :
  (off + n <= length l)%nat ->
  slice_range (E:=E) l off (off + n) = Ok (sub off n l).
Proof.
  intros. rewrite slice_range_Ok by lia. unfold sub. do 2 f_equal. lia.
Qed.

Lemma Forall_sub (P : A -> Prop) off n l : Forall P l -> Forall P (sub off n l).
Proof. intros. unfold sub. by apply Forall_take, Forall_drop. Qed.
End window_lemmas.

(** ** Iterators with captured state

    [iter.map(|x| { ... state = ...; y })]: the closure updates a captured
    variable. *)
Fixpoint map_accum {S A B} (f : S -> A -> S * B) (s : S) (l : list A) : list B :=
  match l with
  | [] => []
  | x :: l' => let '(s', y) := f s x in y :: map_accum f s' l'
  end.

(** Sums and maxima of natural numbers and of integers. *)
Definition sum_Z (l : list Z) : Z := foldr Z.add 0 l.
Definition max_Z (d : Z) (l : list Z) : Z := foldr Z.max d l.

Section iterator_lemmas.

Lemma length_map_accum {S A B} (f : S -> A -> S * B) s l :
  length (map_accum f s l) = length l.
Proof.
  revert s. induction l as [|x l IH]; intros s; cbn; [done|].
  destruct (f s x); cbn. by rewrite IH.
Qed.

Lemma sum_Z_app l k : sum_Z (l ++ k) = sum_Z l + sum_Z k.
Proof. induction l; cbn; [done|]. unfold sum_Z in *. lia. Qed.

Lemma sum_Z_nonneg l : Forall (fun x => 0 <= x) l -> 0 <= sum_Z l.
Proof. unfold sum_Z. induction 1; cbn; lia. Qed.

Lemma length_concat_Z {A} (ll : list (list A)) : Zlen (concat ll) = sum_Z (map Zlen ll).
Proof.
  unfold Zlen, sum_Z. induction ll as [|l ll IH]; cbn; [done|].
  rewrite length_app, Nat2Z.inj_add, IH. done.
Qed.

Lemma length_concat_const {A} (ll : list (list A)) n :
  Forall (fun l => Zlen l = n) ll -> Zlen (concat ll) = Z.of_nat (length ll) * n.
Proof.
  intros Hall. rewrite length_concat_Z. induction Hall as [|l ll Hl _ IH]; cbn; [done|].
  unfold sum_Z in *. rewrite IH, Hl. lia.
Qed.

End iterator_lemmas.

(** [bytes.chunks_exact(n)] *)
Definition chunks_exact {A} (n : nat) (l : list A) : list (list A) :=
  map (fun i => sub (i * n) n l) (seq 0 (length l / n)).

(** [iter.try_fold(0_usize, |sum, x| sum.checked_add(x))] *)
Definition try_sum (l : list Z) : option Z :=
  foldl (fun acc x => acc ≫= fun sum => checked_add usize_bits sum x) (Some 0) l.

Section chunk_lemmas.

Lemma chunks_exact_concat {A} n (ll : list (list A)) :
  (0 < n)%nat -> Forall (fun l => length l = n) ll -> chunks_exact n (concat ll) = ll.
Proof.
  intros Hn Hll. unfold chunks_exact.
  assert (Hlen : length (concat ll) = (length ll * n)%nat).
  { induction Hll as [|l ll Hl _ IH]; cbn; [done|]. rewrite length_app, IH. lia. }
  rewrite Hlen, Nat.div_mul by lia. clear Hlen.
  induction Hll as [|l ll Hl _ IH]; cbn [length seq map concat]; [done|].
  f_equal.
  - unfold sub. cbn. by apply take_app_length'.
  - rewrite <- seq_shift, map_map. etransitivity; [|exact IH].
    apply map_ext. intros i. unfold sub. f_equal.
    cbn [concat Nat.mul].
    rewrite <- drop_drop. by rewrite (drop_app_length' l).
Qed.

(** Consecutive windows of one length. *)
Lemma concat_subs {A} n (l : list A) k :
  (k * n <= length l)%nat ->
  concat (map (fun i => sub (i * n) n l) (seq 0 k)) = take (k * n) l.
Proof.
  induction k as [|k IH]; intros Hk; [done|].
  rewrite seq_S, map_app. rewrite concat_app, IH by lia. cbn.
  rewrite app_nil_r. unfold sub. rewrite Nat.add_comm.
  by rewrite take_take_drop.
Qed.

Lemma sub_concat {A} n (ll : list (list A)) i l :
  Forall (fun l => length l = n) ll -> ll !! i = Some l -> sub (i * n) n (concat ll) = l.
Proof.
  intros Hll. revert i. induction Hll as [|l' ll Hl' _ IH]; intros [|i]; cbn; [done|done| |].
  - intros [= ->]. unfold sub. cbn. by apply take_app_length'.
  - intros Hi. unfold sub in *. rewrite <- drop_drop, drop_app_length' by done. by apply IH.
Qed.

Lemma concat_chunks_exact {A} n (l : list A) :
  (0 < n)%nat -> (length l mod n = 0)%nat -> concat (chunks_exact n l) = l.
Proof.
  intros Hn Hm. unfold chunks_exact.
  pose proof (Nat.div_mod_eq (length l) n) as Hd. rewrite Hm, Nat.add_0_r in Hd.
  rewrite concat_subs by lia. rewrite take_ge by lia. done.
Qed.

Lemma length_chunk {A} n (l : list A) c :
  c ∈ chunks_exact n l -> length c = n.
Proof.
  unfold chunks_exact. rewrite list_elem_of_fmap. intros (i & -> & Hi%elem_of_seq).
  apply length_sub. destruct (decide (n = 0)%nat) as [->|]; [cbn in Hi; lia|].
  pose proof (Nat.div_mod_eq (length l) n). nia.
Qed.

Lemma try_sum_spec l s :
  Forall (fun x => 0 <= x) l ->
  try_sum l = Some s <-> s = sum_Z l /\ s < 2 ^ 64.
Proof.
  intros Hl. unfold try_sum.
  assert (Hgen : forall acc, 0 <= acc < 2 ^ 64 ->
    foldl (fun acc x => acc ≫= fun sum => checked_add usize_bits sum x) (Some acc) l = Some s
    <-> s = acc + sum_Z l /\ s < 2 ^ 64).
  { induction Hl as [|x l Hx Hl IH]; intros acc Hacc; unfold sum_Z in *; cbn.
    { split; [intros [= <-]; lia|intros [-> _]; f_equal; lia]. }
    unfold checked_add. destruct (checked 64 (acc + x)) as [y|] eqn:Hc.
    - apply checked_Some in Hc as [-> Hin]. rewrite IH by apply Hin. split; intros [? ?]; lia.
    - assert (Hnone : forall k, foldl (fun acc x => acc ≫= fun sum =>
        checked 64 (sum + x)) None k = (None : option Z)) by (by induction k).
      rewrite Hnone. split; [done|]. intros [-> Hlt]. exfalso.
      pose proof (sum_Z_nonneg _ Hl) as Hs. unfold sum_Z in Hs.
      rewrite checked_in in Hc; [done|]. unfold in_width. lia. }
  rewrite (Hgen 0) by lia. by rewrite Z.add_0_l.
Qed.

End chunk_lemmas.
