(* ===== verification/Protocol.v ===== *)
(** * The wire contract: src/src/rank/protocol.rs

    Opcodes, element types, the 80-byte frame header, its validation, and the
    encoding and decoding of headers and frames.  The CRC-32 of the
    [crc32fast] crate is the class [Crc32Hash]. *)
From S2P Require Import Prelude.

(** ** Constants *)
Definition PROTOCOL_MAGIC : list Z := [71; 88; 67; 76]. (* b"GXCL" *)
Definition PROTOCOL_VERSION : Z := 3.
Definition FRAME_HEADER_BYTES : nat := 80.
Definition MAX_FRAME_PAYLOAD_BYTES : Z := Z.shiftl 1 30.
Definition ANY_RANK : Z := U32_MAX.
Definition FLAG_PAYLOAD : Z := 1.
Definition FLAG_COUNTS_PREFIX : Z := Z.shiftl 1 1.
Definition FLAG_P2P_CHANNEL : Z := Z.shiftl 1 2.

(** ** Opcodes *)
Module Opcode.
Inductive Opcode : Type :=
  | Join | Ready | Broadcast | AllGather | Gather | Scatter | Reduce
  | AllReduce | ReduceScatter | AllToAll | AllToAllV | Barrier | Send
  | Receive | Abort | Heartbeat | Leave | SetTimeout | PeerEndpoint.

#[export] Instance Opcode_eq_dec : EqDecision Opcode.
Proof. solve_decision. Defined.

(** [opcode as u8] *)
Definition opcode_code (o : Opcode) : Z :=
  match o with
  | Join => 1 | Ready => 2 | Broadcast => 3 | AllGather => 4 | Gather => 5
  | Scatter => 6 | Reduce => 7 | AllReduce => 8 | ReduceScatter => 9
  | AllToAll => 10 | AllToAllV => 11 | Barrier => 12 | Send => 13
  | Receive => 14 | Abort => 15 | Heartbeat => 16 | Leave => 17
  | SetTimeout => 18 | PeerEndpoint => 19
  end.
End Opcode.
Export (hints) Opcode.
Abbreviation Opcode := Opcode.Opcode.

(** ** Element types *)
Module ElementType.
Inductive ElementType : Type :=
  | None | U8 | U32 | I32 | F32 | F16 | BF16 | Bool | I8 | I16 | I64 | F64
  | U16 | U64 | Complex64 | Complex128 | F8E4M3Fn | F8E5M2 | F8E4M3Fnuz
  | F8E5M2Fnuz | F8E8M0Fnu | F4E2M1FnX2.

#[export] Instance ElementType_eq_dec : EqDecision ElementType.
Proof. solve_decision. Defined.

(** [element_type as u8] *)
Definition element_code (e : ElementType) : Z :=
  match e with
  | None => 0 | U8 => 1 | U32 => 2 | I32 => 3 | F32 => 4 | F16 => 5
  | BF16 => 6 | Bool => 7 | I8 => 8 | I16 => 9 | I64 => 10 | F64 => 11
  | U16 => 12 | U64 => 13 | Complex64 => 14 | Complex128 => 15
  | F8E4M3Fn => 16 | F8E5M2 => 17 | F8E4M3Fnuz => 18 | F8E5M2Fnuz => 19
  | F8E8M0Fnu => 20 | F4E2M1FnX2 => 21
  end.

Definition byte_width (e : ElementType) : Z :=
  match e with
  | None => 0
  | U8 | Bool | I8 | F8E4M3Fn | F8E5M2 | F8E4M3Fnuz | F8E5M2Fnuz
  | F8E8M0Fnu | F4E2M1FnX2 => 1
  | F16 | BF16 | I16 | U16 => 2
  | U32 | I32 | F32 => 4
  | I64 | F64 | U64 | Complex64 => 8
  | Complex128 => 16
  end.

Definition is_low_precision_storage (e : ElementType) : bool :=
  match e with
  | F8E4M3Fn | F8E5M2 | F8E4M3Fnuz | F8E5M2Fnuz | F8E8M0Fnu | F4E2M1FnX2 => true
  | _ => false
  end.
End ElementType.
Export (hints) ElementType.
Abbreviation ElementType := ElementType.ElementType.
Abbreviation byte_width := ElementType.byte_width.

(** ** Operation descriptors and errors *)
Record OperationDescriptor := mkDescriptor {
  od_opcode : Opcode;
  od_element_type : ElementType;
  od_root_rank : Z;
  od_element_count : Z;
  od_layout_hash : Z;
}.

#[export] Instance OperationDescriptor_eq_dec : EqDecision OperationDescriptor.
Proof. solve_decision. Defined.

(** [OperationDescriptor::new] and [with_layout_hash] *)
Definition descriptor_new (opcode : Opcode) (element_type : ElementType)
    (root_rank element_count : Z) : OperationDescriptor :=
  mkDescriptor opcode element_type root_rank element_count 0.

Definition with_layout_hash (d : OperationDescriptor) (layout_hash : Z)
    : OperationDescriptor :=
  mkDescriptor d.(od_opcode) d.(od_element_type) d.(od_root_rank)
    d.(od_element_count) layout_hash.

Inductive ProtocolError : Type :=
  | TruncatedHeader (actual : Z)
  | BadMagic (actual : list Z)
  | UnsupportedVersion (version : Z)
  | UnsupportedHeaderLength (length : Z)
  | UnknownOpcode (code : Z)
  | UnknownElementType (code : Z)
  | UnknownFlags (flags : Z)
  | UnexpectedCountsPrefix (opcode : Opcode)
  | UnexpectedP2pChannelFlag (opcode : Opcode)
  | EmptyWorld
  | RankOutOfRange (name : string) (rank world_size : Z)
  | PayloadTooLarge (bytes : Z)
  | PayloadFlagMismatch
  | ElementLengthMismatch
  | PayloadLengthMismatch (declared actual : Z)
  | FrameLengthMismatch (declared actual : Z)
  | ChecksumMismatch (declared actual : Z)
  | SequenceMismatch (expected actual : Z)
  | DuplicateSubmission (rank : nat) (sequence : Z)
  | CollectiveMismatch (sequence : Z) (expected actual : OperationDescriptor)
  | SequenceOverflow.

#[export] Instance ProtocolError_eq_dec : EqDecision ProtocolError.
Proof. solve_decision. Defined.

Abbreviation presult := (outcome ProtocolError).

(** [Opcode::try_from] and [ElementType::try_from] *)
Definition opcode_try_from (value : Z) : presult Opcode :=
  match value with
  | 1 => Ok Opcode.Join
  | 2 => Ok Opcode.Ready
  | 3 => Ok Opcode.Broadcast
  | 4 => Ok Opcode.AllGather
  | 5 => Ok Opcode.Gather
  | 6 => Ok Opcode.Scatter
  | 7 => Ok Opcode.Reduce
  | 8 => Ok Opcode.AllReduce
  | 9 => Ok Opcode.ReduceScatter
  | 10 => Ok Opcode.AllToAll
  | 11 => Ok Opcode.AllToAllV
  | 12 => Ok Opcode.Barrier
  | 13 => Ok Opcode.Send
  | 14 => Ok Opcode.Receive
  | 15 => Ok Opcode.Abort
  | 16 => Ok Opcode.Heartbeat
  | 17 => Ok Opcode.Leave
  | 18 => Ok Opcode.SetTimeout
  | 19 => Ok Opcode.PeerEndpoint
  | _ => Err (UnknownOpcode value)
  end.

Definition element_type_try_from (value : Z) : presult ElementType :=
  match value with
  | 0 => Ok ElementType.None
  | 1 => Ok ElementType.U8
  | 2 => Ok ElementType.U32
  | 3 => Ok ElementType.I32
  | 4 => Ok ElementType.F32
  | 5 => Ok ElementType.F16
  | 6 => Ok ElementType.BF16
  | 7 => Ok ElementType.Bool
  | 8 => Ok ElementType.I8
  | 9 => Ok ElementType.I16
  | 10 => Ok ElementType.I64
  | 11 => Ok ElementType.F64
  | 12 => Ok ElementType.U16
  | 13 => Ok ElementType.U64
  | 14 => Ok ElementType.Complex64
  | 15 => Ok ElementType.Complex128
  | 16 => Ok ElementType.F8E4M3Fn
  | 17 => Ok ElementType.F8E5M2
  | 18 => Ok ElementType.F8E4M3Fnuz
  | 19 => Ok ElementType.F8E5M2Fnuz
  | 20 => Ok ElementType.F8E8M0Fnu
  | 21 => Ok ElementType.F4E2M1FnX2
  | _ => Err (UnknownElementType value)
  end.

(** ** The CRC-32 of the crc32fast crate

    [crc32fast::hash] is third-party code: a function from byte strings to
    [u32].  The development uses nothing else about it. *)
Class Crc32Hash := {
  crc32_hash : list Z -> Z;
  crc32_hash_u32 : forall bytes, in_width 32 (crc32_hash bytes);
}.

Definition checksum `{Crc32Hash} (bytes : list Z) : Z := crc32_hash bytes.

(** ** Headers and frames *)
Record FrameHeader := mkHeader {
  opcode : Opcode;
  element_type : ElementType;
  flags : Z;
  source_rank : Z;
  destination_rank : Z;
  root_rank : Z;
  world_size : Z;
  sequence : Z;
  tag : Z;
  element_count : Z;
  payload_bytes : Z;
  unique_id : list Z;
  payload_checksum : Z;
}.

#[export] Instance FrameHeader_eq_dec : EqDecision FrameHeader.
Proof. solve_decision. Defined.

Record Frame := mkFrame { header : FrameHeader; payload : list Z }.

#[export] Instance Frame_eq_dec : EqDecision Frame.
Proof. solve_decision. Defined.

(** What the field types of [FrameHeader] and [Frame] guarantee. *)
Record header_typed (h : FrameHeader) : Prop := {
  flags_u16 : in_width 16 h.(flags);
  source_rank_u32 : in_width 32 h.(source_rank);
  destination_rank_u32 : in_width 32 h.(destination_rank);
  root_rank_u32 : in_width 32 h.(root_rank);
  world_size_u32 : in_width 32 h.(world_size);
  sequence_u64 : in_width 64 h.(sequence);
  tag_u64 : in_width 64 h.(tag);
  element_count_u64 : in_width 64 h.(element_count);
  payload_bytes_u64 : in_width 64 h.(payload_bytes);
  unique_id_length : length h.(unique_id) = 16%nat;
  unique_id_bytes : Forall is_byte h.(unique_id);
  payload_checksum_u32 : in_width 32 h.(payload_checksum);
}.

Record frame_typed (f : Frame) : Prop := {
  frame_header_typed : header_typed f.(header);
  frame_payload_bytes : Forall is_byte f.(payload);
}.

(** Record update, [header.field = value]. *)
Definition set_flags (h : FrameHeader) (v : Z) : FrameHeader :=
  mkHeader h.(opcode) h.(element_type) v h.(source_rank) h.(destination_rank)
    h.(root_rank) h.(world_size) h.(sequence) h.(tag) h.(element_count)
    h.(payload_bytes) h.(unique_id) h.(payload_checksum).
Definition set_destination_rank (h : FrameHeader) (v : Z) : FrameHeader :=
  mkHeader h.(opcode) h.(element_type) h.(flags) h.(source_rank) v
    h.(root_rank) h.(world_size) h.(sequence) h.(tag) h.(element_count)
    h.(payload_bytes) h.(unique_id) h.(payload_checksum).
Definition set_tag (h : FrameHeader) (v : Z) : FrameHeader :=
  mkHeader h.(opcode) h.(element_type) h.(flags) h.(source_rank)
    h.(destination_rank) h.(root_rank) h.(world_size) h.(sequence) v
    h.(element_count) h.(payload_bytes) h.(unique_id) h.(payload_checksum).

(** [!mask] on [u16] *)
Definition not_u16 (mask : Z) : Z := Z.lxor (2 ^ 16 - 1) mask.

Definition validate_rank (name : string) (rank world : Z) (allow_any : bool)
    : presult unit :=
  if (allow_any && (rank =? ANY_RANK)) || (rank <? world) then Ok tt
  else Err (RankOutOfRange name rank world).

(** [usize::try_from(u64)] *)
Definition usize_try_from_u64 (x : Z) : option Z := checked usize_bits x.

Section protocol.
Context `{Crc32Hash}.

Definition validate (h : FrameHeader) (payload : option (list Z)) : presult unit :=
  let unknown_flags :=
    Z.land h.(flags)
      (not_u16 (Z.lor (Z.lor FLAG_PAYLOAD FLAG_COUNTS_PREFIX) FLAG_P2P_CHANNEL)) in
  _ ← fail_if (negb (unknown_flags =? 0)) (UnknownFlags unknown_flags);
  let has_counts_prefix := negb (Z.land h.(flags) FLAG_COUNTS_PREFIX =? 0) in
  _ ← fail_if (has_counts_prefix && negb (bool_decide (h.(opcode) = Opcode.AllToAllV)))
        (UnexpectedCountsPrefix h.(opcode));
  _ ← fail_if (negb (Z.land h.(flags) FLAG_P2P_CHANNEL =? 0)
               && negb (bool_decide (h.(opcode) = Opcode.Join)
                        || bool_decide (h.(opcode) = Opcode.Ready)))
        (UnexpectedP2pChannelFlag h.(opcode));
  _ ← fail_if (h.(world_size) =? 0) EmptyWorld;
  _ ← validate_rank "source" h.(source_rank) h.(world_size) false;
  _ ← validate_rank "destination" h.(destination_rank) h.(world_size) true;
  _ ← validate_rank "root" h.(root_rank) h.(world_size) true;
  payload_len ← ok_or (usize_try_from_u64 h.(payload_bytes)) (PayloadTooLarge USIZE_MAX);
  _ ← fail_if (MAX_FRAME_PAYLOAD_BYTES <? payload_len) (PayloadTooLarge payload_len);
  let has_payload := negb (Z.land h.(flags) FLAG_PAYLOAD =? 0) in
  _ ← fail_if (negb (eqb has_payload (negb (h.(payload_bytes) =? 0))))
        PayloadFlagMismatch;
  _ ← (if bool_decide (h.(element_type) = ElementType.None) then
         fail_if (negb (h.(element_count) =? 0) || negb (h.(payload_bytes) =? 0))
           ElementLengthMismatch
       else if has_payload then
         element_bytes ← ok_or (checked_mul 64 h.(element_count) (byte_width h.(element_type)))
                           ElementLengthMismatch;
         prefix_bytes ← (if has_counts_prefix
                         then ok_or (checked_mul 64 h.(world_size) 8) ElementLengthMismatch
                         else Ok 0);
         expected ← ok_or (checked_add 64 element_bytes prefix_bytes) ElementLengthMismatch;
         fail_if (negb (expected =? h.(payload_bytes))) ElementLengthMismatch
       else Ok tt);
  match payload with
  | Some payload =>
      _ ← fail_if (negb (Zlen payload =? payload_len))
            (PayloadLengthMismatch payload_len (Zlen payload));
      let actual := checksum payload in
      fail_if (negb (actual =? h.(payload_checksum)))
        (ChecksumMismatch h.(payload_checksum) actual)
  | None => Ok tt
  end.

(** [FrameHeader::collective] *)
Definition collective (uid : list Z) (op : Opcode) (et : ElementType)
    (source root world seq count : Z) : FrameHeader :=
  {| opcode := op; element_type := et; flags := 0; source_rank := source;
     destination_rank := ANY_RANK; root_rank := root; world_size := world;
     sequence := seq; tag := 0; element_count := count; payload_bytes := 0;
     unique_id := uid; payload_checksum := checksum [] |}.

Definition with_payload (h : FrameHeader) (payload : list Z) : presult FrameHeader :=
  _ ← fail_if (MAX_FRAME_PAYLOAD_BYTES <? Zlen payload) (PayloadTooLarge (Zlen payload));
  let h' := mkHeader h.(opcode) h.(element_type) (Z.lor h.(flags) FLAG_PAYLOAD)
              h.(source_rank) h.(destination_rank) h.(root_rank) h.(world_size)
              h.(sequence) h.(tag) h.(element_count) (Zlen payload) h.(unique_id)
              (checksum payload) in
  _ ← validate h' None;
  Ok h'.

Definition put_u16 (bytes : list Z) (offset : nat) (value : Z) := put offset (to_le 2 value) bytes.
Definition put_u32 (bytes : list Z) (offset : nat) (value : Z) := put offset (to_le 4 value) bytes.
Definition put_u64 (bytes : list Z) (offset : nat) (value : Z) := put offset (to_le 8 value) bytes.

Definition get_u16 (bytes : list Z) (offset : nat) : presult Z :=
  of_le <$> slice_range bytes offset (offset + 2).
Definition get_u32 (bytes : list Z) (offset : nat) : presult Z :=
  of_le <$> slice_range bytes offset (offset + 4).
Definition get_u64 (bytes : list Z) (offset : nat) : presult Z :=
  of_le <$> slice_range bytes offset (offset + 8).

(** [FrameHeader::encode] *)
Definition header_encode (h : FrameHeader) : presult (list Z) :=
  _ ← validate h None;
  let bytes := replicate FRAME_HEADER_BYTES 0 in
  let bytes := put 0 PROTOCOL_MAGIC bytes in
  let bytes := put_u16 bytes 4 PROTOCOL_VERSION in
  let bytes := put_u16 bytes 6 (Z.of_nat FRAME_HEADER_BYTES) in
  let bytes := put 8 [Opcode.opcode_code h.(opcode)] bytes in
  let bytes := put 9 [ElementType.element_code h.(element_type)] bytes in
  let bytes := put_u16 bytes 10 h.(flags) in
  let bytes := put_u32 bytes 12 h.(source_rank) in
  let bytes := put_u32 bytes 16 h.(destination_rank) in
  let bytes := put_u32 bytes 20 h.(root_rank) in
  let bytes := put_u32 bytes 24 h.(world_size) in
  let bytes := put_u64 bytes 28 h.(sequence) in
  let bytes := put_u64 bytes 36 h.(tag) in
  let bytes := put_u64 bytes 44 h.(element_count) in
  let bytes := put_u64 bytes 52 h.(payload_bytes) in
  let bytes := put 60 h.(unique_id) bytes in
  let bytes := put_u32 bytes 76 h.(payload_checksum) in
  Ok bytes.

(** [FrameHeader::decode] *)
Definition header_decode (bytes : list Z) : presult FrameHeader :=
  _ ← fail_if (length bytes <? FRAME_HEADER_BYTES)%nat (TruncatedHeader (Zlen bytes));
  magic ← slice_range bytes 0 4;
  _ ← fail_if (negb (bool_decide (magic = PROTOCOL_MAGIC))) (BadMagic magic);
  version ← get_u16 bytes 4;
  _ ← fail_if (negb (version =? PROTOCOL_VERSION)) (UnsupportedVersion version);
  header_bytes ← get_u16 bytes 6;
  _ ← fail_if (negb (header_bytes =? Z.of_nat FRAME_HEADER_BYTES))
        (UnsupportedHeaderLength header_bytes);
  b8 ← index bytes 8;
  op ← opcode_try_from b8;
  b9 ← index bytes 9;
  et ← element_type_try_from b9;
  fl ← get_u16 bytes 10;
  src ← get_u32 bytes 12;
  dst ← get_u32 bytes 16;
  root ← get_u32 bytes 20;
  world ← get_u32 bytes 24;
  seq ← get_u64 bytes 28;
  tg ← get_u64 bytes 36;
  count ← get_u64 bytes 44;
  pbytes ← get_u64 bytes 52;
  uid ← slice_range bytes 60 76;
  crc ← get_u32 bytes 76;
  let h := mkHeader op et fl src dst root world seq tg count pbytes uid crc in
  _ ← validate h None;
  Ok h.

(** [Frame::new], [Frame::encode], [Frame::encode_transport_header] and
    [Frame::decode] *)
Definition frame_new (h : FrameHeader) (payload : list Z) : presult Frame :=
  h' ← (match payload with
        | [] => _ ← validate h (Some payload); Ok h
        | _ => with_payload h payload
        end);
  Ok (mkFrame h' payload).

Definition frame_encode (f : Frame) : presult (list Z) :=
  _ ← validate f.(header) (Some f.(payload));
  bytes ← header_encode f.(header);
  Ok (bytes ++ f.(payload)).

Definition encode_transport_header (f : Frame) : presult (list Z) :=
  declared ← ok_or (usize_try_from_u64 f.(header).(payload_bytes)) (PayloadTooLarge USIZE_MAX);
  _ ← fail_if (negb (Zlen f.(payload) =? declared))
        (PayloadLengthMismatch declared (Zlen f.(payload)));
  header_encode f.(header).

Definition frame_decode (bytes : list Z) : presult Frame :=
  h ← header_decode bytes;
  payload_len ← ok_or (usize_try_from_u64 h.(payload_bytes)) (PayloadTooLarge USIZE_MAX);
  expected ← ok_or (checked_add usize_bits (Z.of_nat FRAME_HEADER_BYTES) payload_len)
               (PayloadTooLarge payload_len);
  _ ← fail_if (negb (Zlen bytes =? expected)) (FrameLengthMismatch expected (Zlen bytes));
  payload ← slice_range bytes FRAME_HEADER_BYTES (length bytes);
  _ ← validate h (Some payload);
  Ok (mkFrame h payload).
End protocol.

(** ** Enumerations and their codes *)
Lemma opcode_code_byte o : is_byte (Opcode.opcode_code o).
Proof. destruct o; unfold is_byte; cbn; lia. Qed.

Lemma element_code_byte e : is_byte (ElementType.element_code e).
Proof. destruct e; unfold is_byte; cbn; lia. Qed.

Lemma opcode_try_from_code o : opcode_try_from (Opcode.opcode_code o) = Ok o.
Proof. by destruct o. Qed.

Lemma element_type_try_from_code e :
  element_type_try_from (ElementType.element_code e) = Ok e.
Proof. by destruct e. Qed.

Lemma opcode_try_from_inv v o : opcode_try_from v = Ok o -> v = Opcode.opcode_code o.
Proof.
  unfold opcode_try_from. intros Hv.
  repeat case_match; try discriminate; by injection Hv as <-.
Qed.

Lemma element_type_try_from_inv v e :
  element_type_try_from v = Ok e -> v = ElementType.element_code e.
Proof.
  unfold element_type_try_from. intros Hv.
  repeat case_match; try discriminate; by injection Hv as <-.
Qed.

Lemma opcode_try_from_no_panic v : no_panic (opcode_try_from v).
Proof. unfold opcode_try_from. by repeat case_match. Qed.

Lemma element_type_try_from_no_panic v : no_panic (element_type_try_from v).
Proof. unfold element_type_try_from. by repeat case_match. Qed.

Lemma validate_rank_no_panic name r w b : no_panic (validate_rank name r w b).
Proof. unfold validate_rank. by case_match. Qed.

Lemma validate_rank_Ok name r w b u :
  validate_rank name r w b = Ok u <-> (b = true /\ r = ANY_RANK) \/ r < w.
Proof.
  unfold validate_rank. destruct u.
  destruct (_ || _) eqn:Hb; split; intros Hr; try done.
  - apply orb_true_iff in Hb as [[-> ->%Z.eqb_eq]%andb_prop|?%Z.ltb_lt]; auto.
  - apply orb_false_iff in Hb as [Hb Hw%Z.ltb_ge].
    destruct Hr as [[-> ->]|?]; [by rewrite Z.eqb_refl in Hb|lia].
Qed.

#[export] Hint Resolve opcode_try_from_no_panic element_type_try_from_no_panic
  validate_rank_no_panic : rust.

(** Walk through a monadic computation that must not panic. *)
Ltac solve_no_panic :=
  repeat first
    [ progress cbv beta zeta
    | apply bind_no_panic; [|intros ? ?]
    | solve [auto with rust]
    | match goal with
      | |- is_panic (if ?b then _ else _) = false => destruct b eqn:?
      | |- is_panic (match ?x with _ => _ end) = false => destruct x eqn:?
      end
    | reflexivity ].

(** ** Headers *)
Section header_facts.
Context `{Crc32Hash}.

Lemma validate_no_panic h p : no_panic (validate h p).
Proof. unfold validate. solve_no_panic. Qed.

(** Validation of a frame is validation of its header followed by the two
    payload checks. *)
Lemma validate_Some h p :
  in_width 64 h.(payload_bytes) ->
  validate h (Some p) = Ok tt <->
    validate h None = Ok tt /\ Zlen p = h.(payload_bytes)
    /\ checksum p = h.(payload_checksum).
Proof.
  intros Hw. unfold validate, usize_try_from_u64.
  rewrite (checked_in 64 _ Hw). cbn [ok_or mbind outcome_bind].
  repeat match goal with
  | |- context [fail_if ?b _ ≫= _] => destruct b; cbn [fail_if mbind outcome_bind]; [naive_solver|]
  | |- context [validate_rank ?n ?r ?w ?b ≫= _] =>
      destruct (validate_rank n r w b); cbn [mbind outcome_bind]; [|naive_solver..]
  end.
  match goal with |- context [(if ?b then ?x else ?y) ≫= _] =>
    destruct (if b then x else y) as [[]|e|] end; cbn [mbind outcome_bind];
    [|naive_solver..].
  destruct (Zlen p =? _) eqn:Hl; cbn;
    [apply Z.eqb_eq in Hl|apply Z.eqb_neq in Hl; naive_solver].
  destruct (checksum p =? _) eqn:Hc; cbn;
    [apply Z.eqb_eq in Hc; naive_solver|apply Z.eqb_neq in Hc; naive_solver].
Qed.

(** A payload of the declared length with another checksum. *)
Lemma validate_checksum h p :
  validate h None = Ok tt -> in_width 64 h.(payload_bytes) ->
  Zlen p = h.(payload_bytes) -> checksum p <> h.(payload_checksum) ->
  validate h (Some p) = Err (ChecksumMismatch h.(payload_checksum) (checksum p)).
Proof.
  intros HvN Hw Hl Hc. unfold validate, usize_try_from_u64 in *.
  rewrite (checked_in 64 _ Hw) in *. cbn [ok_or mbind outcome_bind] in *.
  repeat match goal with
  | |- context [fail_if ?b _ ≫= _] => destruct b; cbn [fail_if mbind outcome_bind] in *; [discriminate HvN|]
  | |- context [validate_rank ?n ?r ?w ?b ≫= _] =>
      destruct (validate_rank n r w b); cbn [mbind outcome_bind] in *; [|discriminate HvN..]
  | _ => progress cbn [fail_if mbind outcome_bind] in *
  end.
  match goal with |- context [(if ?b then ?x else ?y) ≫= _] =>
    destruct (if b then x else y) as [[]|e|] end; cbn [mbind outcome_bind] in *;
    [|discriminate HvN..].
  rewrite (proj2 (Z.eqb_eq _ _) Hl), (proj2 (Z.eqb_neq _ _) Hc). done.
Qed.

(** The 80 bytes that [header_encode] lays out. *)
Definition header_layout (h : FrameHeader) : list Z :=
  PROTOCOL_MAGIC ++ to_le 2 PROTOCOL_VERSION ++ to_le 2 80
  ++ [Opcode.opcode_code h.(opcode)] ++ [ElementType.element_code h.(element_type)]
  ++ to_le 2 h.(flags) ++ to_le 4 h.(source_rank) ++ to_le 4 h.(destination_rank)
  ++ to_le 4 h.(root_rank) ++ to_le 4 h.(world_size) ++ to_le 8 h.(sequence)
  ++ to_le 8 h.(tag) ++ to_le 8 h.(element_count) ++ to_le 8 h.(payload_bytes)
  ++ h.(unique_id) ++ to_le 4 h.(payload_checksum).

(** A list of known length as explicit cells. *)
Ltac explode l Hl :=
  repeat (destruct l as [|? l]; [discriminate Hl|]);
  destruct l; [clear Hl|discriminate Hl].

Lemma header_encode_layout h :
  length h.(unique_id) = 16%nat ->
  header_encode h = (_ ← validate h None; Ok (header_layout h)).
Proof.
  intros Hu. unfold header_encode. destruct (validate h None) as [[]|e|]; cbn; try done.
  destruct h as [? ? ? ? ? ? ? ? ? ? ? uid ?]. cbn in Hu. explode uid Hu. reflexivity.
Qed.

Lemma length_header_layout h :
  length h.(unique_id) = 16%nat -> length (header_layout h) = FRAME_HEADER_BYTES.
Proof.
  intros Hu. unfold header_layout. rewrite !length_app, !length_to_le, Hu. done.
Qed.

Lemma header_layout_bytes h : header_typed h -> Forall is_byte (header_layout h).
Proof.
  intros Ht. unfold header_layout.
  repeat (apply Forall_app; split);
    try apply to_le_bytes; try apply (unique_id_bytes _ Ht);
    repeat constructor; unfold is_byte; try lia;
    apply opcode_code_byte || apply element_code_byte.
Qed.

(** The window of the layout that holds each field. *)
Lemma header_layout_fields h rest :
  length h.(unique_id) = 16%nat ->
  let bytes := header_layout h ++ rest in
  let field off n := slice_range (E:=ProtocolError) bytes off (off + n) in
  field 0%nat 4%nat = Ok PROTOCOL_MAGIC /\ field 4%nat 2%nat = Ok (to_le 2 PROTOCOL_VERSION)
  /\ field 6%nat 2%nat = Ok (to_le 2 80)
  /\ index (E:=ProtocolError) bytes 8 = Ok (Opcode.opcode_code h.(opcode))
  /\ index (E:=ProtocolError) bytes 9 = Ok (ElementType.element_code h.(element_type))
  /\ field 10%nat 2%nat = Ok (to_le 2 h.(flags)) /\ field 12%nat 4%nat = Ok (to_le 4 h.(source_rank))
  /\ field 16%nat 4%nat = Ok (to_le 4 h.(destination_rank))
  /\ field 20%nat 4%nat = Ok (to_le 4 h.(root_rank)) /\ field 24%nat 4%nat = Ok (to_le 4 h.(world_size))
  /\ field 28%nat 8%nat = Ok (to_le 8 h.(sequence)) /\ field 36%nat 8%nat = Ok (to_le 8 h.(tag))
  /\ field 44%nat 8%nat = Ok (to_le 8 h.(element_count))
  /\ field 52%nat 8%nat = Ok (to_le 8 h.(payload_bytes)) /\ field 60%nat 16%nat = Ok h.(unique_id)
  /\ field 76%nat 4%nat = Ok (to_le 4 h.(payload_checksum)).
Proof.
  intros Hu. destruct h as [? ? ? ? ? ? ? ? ? ? ? uid ?]. cbn in Hu. explode uid Hu.
  repeat split.
Qed.

#[global] Arguments header_layout : simpl never.

(** Decoding the layout, whatever follows it, gives the header back. *)
Lemma header_decode_layout h rest :
  header_typed h ->
  header_decode (header_layout h ++ rest) = (_ ← validate h None; Ok h).
Proof.
  intros Ht. pose proof (unique_id_length _ Ht) as Hu.
  destruct (header_layout_fields h rest Hu)
    as (F0 & F4 & F6 & F8 & F9 & F10 & F12 & F16 & F20 & F24 & F28 & F36 & F44 & F52 & F60 & F76).
  destruct Ht as [Hfl Hsr Hdr Hrr Hws Hsq Htg Hec Hpb _ _ Hpc].
  unfold header_decode, get_u16, get_u32, get_u64.
  rewrite (proj2 (Nat.ltb_ge _ _))
    by (rewrite (length_app (header_layout h)), length_header_layout by done; lia).
  cbn [Nat.add] in *.
  rewrite F0, F4, F6, F8, F9, F10, F12, F16, F20, F24, F28, F36, F44, F52, F60, F76.
  cbn [fail_if mbind outcome_bind fmap outcome_fmap].
  rewrite bool_decide_true by done.
  cbn [fail_if negb mbind outcome_bind].
  change (negb (of_le (to_le 2 PROTOCOL_VERSION) =? PROTOCOL_VERSION)) with false.
  change (negb (of_le (to_le 2 80) =? Z.of_nat FRAME_HEADER_BYTES)) with false.
  cbn [fail_if mbind outcome_bind].
  rewrite opcode_try_from_code; cbn [mbind outcome_bind].
  rewrite element_type_try_from_code; cbn [mbind outcome_bind].
  rewrite !of_to_le_id by first [assumption | done].
  by destruct h.
Qed.

(** An integer window determines its bytes. *)
Lemma to_le_window n bytes off v :
  Forall is_byte bytes ->
  (of_le <$> slice_range (E:=ProtocolError) bytes off (off + n)) = Ok v ->
  sub off n bytes = to_le n v /\ in_width (8 * Z.of_nat n) v.
Proof.
  intros Hb Hs.
  destruct (slice_range bytes off (off + n)) as [l|e|] eqn:Hl; try discriminate.
  injection Hs as <-. apply slice_range_inv in Hl as [Hle ->].
  replace (off + n - off)%nat with n by lia. fold (sub off n bytes).
  assert (Hn : length (sub off n bytes) = n) by (apply length_sub; lia).
  pose proof (Forall_sub _ off n _ Hb) as Hsb.
  pose proof (to_of_le _ Hsb) as Heq. rewrite Hn in Heq. split; [done|].
  pose proof (of_le_range _ Hsb) as Hr. unfold Zlen in Hr. rewrite Hn in Hr.
  unfold in_width. by rewrite Z.pow_mul_r by lia.
Qed.

Lemma sub_split (l : list Z) off n m :
  sub off (n + m) l = sub off n l ++ sub (off + n) m l.
Proof. unfold sub. by rewrite <- take_take_drop, drop_drop. Qed.

Lemma sub_one (l : list Z) i x : l !! i = Some x -> sub i 1 l = [x].
Proof.
  intros Hx. unfold sub. by rewrite (drop_S l x i Hx).
Qed.

(** Whatever [header_decode] accepts starts with the layout of the header
    that it returns. *)
Lemma header_decode_inv bytes h :
  Forall is_byte bytes ->
  header_decode bytes = Ok h ->
  header_typed h /\ validate h None = Ok tt
  /\ (FRAME_HEADER_BYTES <= length bytes)%nat
  /\ sub 0 FRAME_HEADER_BYTES bytes = header_layout h.
Proof.
  intros Hb Hd. unfold header_decode in Hd. inv_ok.
  unfold get_u16, get_u32, get_u64 in *.
  repeat match goal with
  | Hw : (of_le <$> slice_range bytes ?o (?o' + ?n)) = Ok _ |- _ =>
      apply (to_le_window _ _ _ _ Hb) in Hw as [? ?]
  end.
  repeat match goal with
  | Hw : bytes !! _ = Some _ |- _ => apply sub_one in Hw
  | Hw : slice_range bytes _ _ = Ok _ |- _ =>
      apply slice_range_inv in Hw as [? ?]
  end.
  subst. cbn [Nat.sub] in *.
  repeat match goal with
  | Hw : negb (bool_decide _) = false |- _ =>
      apply negb_false_iff, bool_decide_eq_true in Hw
  | Hw : negb (_ =? _) = false |- _ => apply negb_false_iff, Z.eqb_eq in Hw; subst
  | Hw : opcode_try_from _ = Ok _ |- _ => apply opcode_try_from_inv in Hw; subst
  | Hw : element_type_try_from _ = Ok _ |- _ => apply element_type_try_from_inv in Hw; subst
  | Hw : (_ <? _)%nat = false |- _ => apply Nat.ltb_ge in Hw
  end.
  destruct v21. split; [|split; [done|split; [done|]]].
  - split; cbn; try done.
    + apply (length_sub 60 16). unfold FRAME_HEADER_BYTES in *. lia.
    + by apply (Forall_sub _ 60 16).
  - unfold header_layout. cbn [opcode element_type flags source_rank destination_rank
      root_rank world_size sequence tag element_count payload_bytes unique_id payload_checksum].
    change FRAME_HEADER_BYTES with (4+(2+(2+(1+(1+(2+(4+(4+(4+(4+(8+(8+(8+(8+(16+4)))))))))))))))%nat.
    rewrite !sub_split. cbn [Nat.add].
    fold (sub 0 4 bytes) (sub 60 16 bytes) in *.
    change (Z.of_nat FRAME_HEADER_BYTES) with 80 in *. congruence.
Qed.

(** *** Frames *)
Lemma header_decode_no_panic bytes : no_panic (header_decode bytes).
Proof.
  unfold header_decode. apply bind_no_panic; [apply fail_if_no_panic|].
  intros _ Hl%fail_if_Ok%Nat.ltb_ge. unfold FRAME_HEADER_BYTES in Hl.
  assert (Hget : forall n off, (off + n <= 80)%nat ->
            no_panic (of_le <$> slice_range (E:=ProtocolError) bytes off (off + n))).
  { intros n off Hn. by rewrite slice_range_sub by lia. }
  pose proof (Hget 2%nat) as Hget2. pose proof (Hget 4%nat) as Hget4.
  pose proof (Hget 8%nat) as Hget8.
  unfold get_u16, get_u32, get_u64.
  repeat first
    [ apply validate_no_panic | apply bind_no_panic; [|intros ? ?]
    | apply Hget2; lia | apply Hget4; lia | apply Hget8; lia
    | apply slice_range_no_panic; lia | apply index_no_panic; lia
    | solve [auto with rust] | reflexivity ].
Qed.

Lemma frame_encode_Ok f bytes :
  frame_typed f ->
  frame_encode f = Ok bytes <->
    validate f.(header) (Some f.(payload)) = Ok tt
    /\ bytes = header_layout f.(header) ++ f.(payload).
Proof.
  intros [Ht _]. unfold frame_encode.
  rewrite header_encode_layout by apply Ht.
  destruct (validate _ (Some _)) as [[]|e|] eqn:Hv; cbn; [|naive_solver..].
  apply validate_Some in Hv as [-> _]; [|apply Ht]. cbn. naive_solver.
Qed.

Lemma payload_len_bound h :
  validate h None = Ok tt -> 0 <= h.(payload_bytes) <= MAX_FRAME_PAYLOAD_BYTES.
Proof.
  intros Hv. unfold validate in Hv. inv_ok.
  match goal with Hc : usize_try_from_u64 _ = Some _ |- _ =>
    apply checked_Some in Hc as [-> [? ?]] end.
  match goal with Hc : (MAX_FRAME_PAYLOAD_BYTES <? _) = false |- _ =>
    apply Z.ltb_ge in Hc end.
  done.
Qed.

Lemma payload_bytes_usize h :
  validate h None = Ok tt ->
  usize_try_from_u64 h.(payload_bytes) = Some h.(payload_bytes)
  /\ checked_add usize_bits (Z.of_nat FRAME_HEADER_BYTES) h.(payload_bytes)
     = Some (Z.of_nat FRAME_HEADER_BYTES + h.(payload_bytes)).
Proof.
  intros Hb%payload_len_bound. change MAX_FRAME_PAYLOAD_BYTES with 1073741824 in Hb.
  split; apply checked_in; unfold in_width, FRAME_HEADER_BYTES; lia.
Qed.
End header_facts.

(** ** Validity, declaratively

    What a header of the wire contract must satisfy, with flags read as bits
    and without the order of the checks. *)
Record header_valid (h : FrameHeader) : Prop := {
  hv_flags : h.(flags) < 8;
  hv_counts : Z.testbit h.(flags) 1 = true -> h.(opcode) = Opcode.AllToAllV;
  hv_p2p : Z.testbit h.(flags) 2 = true ->
    h.(opcode) = Opcode.Join \/ h.(opcode) = Opcode.Ready;
  hv_world : h.(world_size) <> 0;
  hv_source : h.(source_rank) < h.(world_size);
  hv_destination : h.(destination_rank) = ANY_RANK \/ h.(destination_rank) < h.(world_size);
  hv_root : h.(root_rank) = ANY_RANK \/ h.(root_rank) < h.(world_size);
  hv_size : h.(payload_bytes) <= 2 ^ 30;
  hv_payload : Z.testbit h.(flags) 0 = negb (h.(payload_bytes) =? 0);
  hv_none : h.(element_type) = ElementType.None ->
    h.(element_count) = 0 /\ h.(payload_bytes) = 0;
  hv_length : h.(element_type) <> ElementType.None -> h.(payload_bytes) <> 0 ->
    h.(payload_bytes) =
      h.(element_count) * byte_width h.(element_type)
      + (if Z.testbit h.(flags) 1 then 8 * h.(world_size) else 0);
}.

Section validity.
Context `{Crc32Hash}.

Lemma land_bit x i : 0 <= i -> (Z.land x (Z.shiftl 1 i) =? 0) = negb (Z.testbit x i).
Proof.
  intros Hi. rewrite Z.shiftl_1_l. apply eq_true_iff_eq.
  rewrite Z.eqb_eq, negb_true_iff. split.
  - intros Hz. pose proof (f_equal (fun y => Z.testbit y i) Hz) as Ht. cbv beta in Ht.
    rewrite Z.land_spec, Z.pow2_bits_true, andb_true_r, Z.bits_0 in Ht by done. done.
  - intros Ht. apply Z.bits_inj_iff'. intros j Hj.
    rewrite Z.land_spec, Z.bits_0, Z.pow2_bits_eqb by done.
    destruct (Z.eqb_spec i j) as [<-|]; [by rewrite Ht|by rewrite andb_false_r].
Qed.

Lemma unknown_flags_spec f :
  in_width 16 f -> Z.land f 65528 = 0 <-> f < 8.
Proof.
  intros [Hf0 Hf]. split.
  - intros Hz. assert (Heq : f = Z.land f (Z.ones 3)).
    { apply Z.bits_inj_iff'. intros j Hj. rewrite Z.land_spec.
      destruct (decide (j < 3)).
      { rewrite Z.ones_spec_low by lia. by rewrite andb_true_r. }
      rewrite Z.ones_spec_high, andb_false_r by lia.
      destruct (decide (j < 16)).
      - pose proof (f_equal (fun y => Z.testbit y j) Hz) as Ht. cbv beta in Ht.
        rewrite Z.land_spec, Z.bits_0 in Ht.
        assert (Hj1 : Z.testbit 65528 j = true).
        { change 65528 with (Z.shiftl (Z.ones 13) 3).
          rewrite Z.shiftl_spec, Z.ones_spec_low by lia. done. }
        by rewrite Hj1, andb_true_r in Ht.
      - destruct (decide (f = 0)) as [->|]; [by rewrite Z.bits_0|].
        apply Z.bits_above_log2; [lia|].
        apply Z.log2_lt_pow2; [lia|]. eapply Z.lt_le_trans; [apply Hf|].
        apply Z.pow_le_mono_r; lia. }
    rewrite Z.land_ones in Heq by lia. rewrite Heq. apply Z.mod_pos_bound. lia.
  - intros Hlt. assert (Hin : In f [0; 1; 2; 3; 4; 5; 6; 7]) by (cbn; lia).
    cbn in Hin. by repeat destruct Hin as [<-|Hin].
Qed.

Lemma bind_unit_Ok {A} (m : presult unit) (k : unit -> presult A) a :
  (m ≫= k) = Ok a <-> m = Ok tt /\ k tt = Ok a.
Proof. destruct m as [[]|e|]; cbn; naive_solver. Qed.

(** The check of the element count against the payload length. *)
Lemma element_length_check h :
  header_typed h ->
  h.(payload_bytes) <= 2 ^ 30 ->
  (element_bytes ← ok_or (checked_mul 64 h.(element_count) (byte_width h.(element_type)))
                     ElementLengthMismatch;
   prefix_bytes ← (if Z.testbit h.(flags) 1
                   then ok_or (checked_mul 64 h.(world_size) 8) ElementLengthMismatch
                   else Ok 0);
   expected ← ok_or (checked_add 64 element_bytes prefix_bytes) ElementLengthMismatch;
   fail_if (negb (expected =? h.(payload_bytes))) ElementLengthMismatch) = Ok tt <->
  h.(payload_bytes) =
    h.(element_count) * byte_width h.(element_type)
    + (if Z.testbit h.(flags) 1 then 8 * h.(world_size) else 0).
Proof.
  intros Ht Hsize. destruct (element_count_u64 _ Ht) as [Hc _].
  destruct (world_size_u32 _ Ht) as [Hw0 Hw].
  assert (Hbw : 0 <= byte_width h.(element_type)) by (destruct (element_type h); cbn; lia).
  assert (Hprod : 0 <= h.(element_count) * byte_width h.(element_type)) by nia.
  assert (Hpre : 0 <= (if Z.testbit h.(flags) 1 then 8 * h.(world_size) else 0) < 2 ^ 36)
    by (destruct (Z.testbit _ _); lia).
  assert (Hprefix : (if Z.testbit h.(flags) 1
                   then ok_or (E:=ProtocolError) (checked_mul 64 h.(world_size) 8) ElementLengthMismatch
                   else Ok 0) = Ok (if Z.testbit h.(flags) 1 then 8 * h.(world_size) else 0)).
  { destruct (Z.testbit _ _); [|done]. unfold checked_mul.
    rewrite checked_in by (unfold in_width; lia). cbn. by rewrite Z.mul_comm. }
  rewrite Hprefix. set (pre := if Z.testbit _ _ then _ else _) in *.
  unfold checked_mul, checked_add. split.
  - intros Hok. inv_ok.
    repeat match goal with Hx : checked _ _ = Some _ |- _ => apply checked_Some in Hx as [-> ?] end.
    match goal with Hx : negb _ = false |- _ => apply negb_false_iff, Z.eqb_eq in Hx end. lia.
  - intros Heq. rewrite checked_in by (unfold in_width; lia). cbn.
    rewrite checked_in by (unfold in_width; lia). cbn.
    by rewrite Heq, Z.eqb_refl.
Qed.

Lemma validate_iff h :
  header_typed h -> validate h None = Ok tt <-> header_valid h.
Proof.
  intros Ht. unfold validate.
  change (not_u16 _) with 65528. change FLAG_PAYLOAD with (Z.shiftl 1 0).
  unfold FLAG_COUNTS_PREFIX, FLAG_P2P_CHANNEL.
  rewrite !land_bit by lia. rewrite !negb_involutive.
  unfold usize_try_from_u64. rewrite (checked_in 64 _ (payload_bytes_u64 _ Ht)).
  cbn [ok_or mbind outcome_bind].
  rewrite !bind_unit_Ok, !fail_if_Ok, !validate_rank_Ok, !andb_false_iff,
    !negb_false_iff, Z.eqb_eq, unknown_flags_spec by apply Ht.
  rewrite Z.ltb_ge, Z.eqb_neq, eqb_true_iff, orb_true_iff, !bool_decide_eq_true.
  change MAX_FRAME_PAYLOAD_BYTES with (2 ^ 30).
  rewrite <- !not_true_iff_false.
  split.
  - intros (Hf & Hc & Hp & Hw & Hs & Hd & Hr & Hsz & Hpay & Hlen & _).
    split; [done| | |done| | | |done|done| |].
    + intros Hb. by destruct Hc as [Hc|Hc]; [rewrite Hb in Hc|].
    + intros Hb. by destruct Hp as [Hp|Hp]; [rewrite Hb in Hp|].
    + by destruct Hs as [[??]|?].
    + by destruct Hd as [[_ ?]|?]; auto.
    + by destruct Hr as [[_ ?]|?]; auto.
    + intros Hn. rewrite bool_decide_true in Hlen by done.
      apply fail_if_Ok, orb_false_iff in Hlen as [?%negb_false_iff ?%negb_false_iff]. lia.
    + intros Hn Hz. rewrite bool_decide_false in Hlen by done.
      rewrite Hpay, (proj2 (Z.eqb_neq _ _) Hz) in Hlen.
      by apply element_length_check.
  - intros [Hf Hc Hp Hw Hs Hd Hr Hsz Hpay Hn Hl].
    split; [done|]. split; [destruct (Z.testbit (flags h) 1); auto|].
    split; [destruct (Z.testbit (flags h) 2); auto|].
    split; [done|]. split; [auto|]. split; [destruct Hd; auto|].
    split; [destruct Hr; auto|]. split; [done|]. split; [done|]. split; [|done].
    case_bool_decide as He.
    { by destruct (Hn He) as [-> ->]. }
    rewrite Hpay. destruct (Z.eqb_spec (payload_bytes h) 0) as [|Hnz]; [done|].
    apply (element_length_check h Ht Hsz), (Hl He Hnz).
Qed.
(** Header validation accepts exactly the valid headers of the wire
    contract, for every header with the field ranges of its Rust type. *)
Theorem validate_spec h :
  header_typed h -> validate h None = Ok tt <-> header_valid h.
Proof. apply validate_iff. Qed.
End validity.

(** ** A concrete CRC-32

    The reflected CRC-32 of the value the source's test names; witnesses
    instantiate [Crc32Hash] with it. *)
Module Crc32Ieee.
Definition crc_bit (c : Z) : Z :=
  if Z.odd c then Z.lxor (Z.shiftr c 1) 0xEDB88320 else Z.shiftr c 1.
Definition crc_byte (c b : Z) : Z := Nat.iter 8 crc_bit (Z.lxor c b).
Definition crc32 (bytes : list Z) : Z :=
  wrap 32 (Z.lxor (foldl crc_byte U32_MAX bytes) U32_MAX).

#[export] Instance crc32_ieee : Crc32Hash.
Proof. refine {| crc32_hash := crc32 |}. intros. by apply wrap_range. Defined.

(** [checksum(b"123456789") == 0xcbf4_3926] in the source's tests. *)
Example crc32_check : crc32 [49; 50; 51; 52; 53; 54; 55; 56; 57] = 0xcbf43926.
Proof. reflexivity. Qed.
End Crc32Ieee.

Section frames.
Context `{Crc32Hash}.

(** C27: Encoding and decoding are inverse to each other: a frame with the
    field ranges of its Rust type encodes to a byte string exactly when that
    byte string decodes to the frame.  So decoding an encoded frame gives the
    frame back, and no two byte strings decode to the same frame. *)
Theorem frame_codec f bytes :
  Forall is_byte bytes -> frame_typed f ->
  frame_encode f = Ok bytes <-> frame_decode bytes = Ok f.
Proof.
  intros Hb Hf. rewrite frame_encode_Ok by done. destruct f as [h p]; cbn.
  destruct Hf as [Ht Hp]; cbn in *. unfold frame_decode. split.
  - intros [Hv ->]. rewrite header_decode_layout by done.
    pose proof (proj1 (validate_Some _ _ (payload_bytes_u64 _ Ht)) Hv) as (HvN & Hl & Hc).
    destruct (payload_bytes_usize _ HvN) as [Hu Ha].
    rewrite HvN; cbn [mbind outcome_bind]. rewrite Hu; cbn [ok_or mbind outcome_bind].
    rewrite Ha; cbn [ok_or mbind outcome_bind].
    pose proof (length_header_layout h (unique_id_length _ Ht)) as Hhl.
    unfold Zlen in *. rewrite length_app, Hhl.
    rewrite (proj2 (Z.eqb_eq _ _)) by (unfold FRAME_HEADER_BYTES; lia).
    cbn [negb fail_if mbind outcome_bind].
    rewrite slice_range_Ok by (rewrite length_app; lia). cbn [mbind outcome_bind].
    rewrite <- Hhl, drop_app_length, take_ge by lia. by rewrite Hv.
  - intros Hd. inv_ok.
    match goal with Hx : header_decode _ = Ok _ |- _ =>
      apply header_decode_inv in Hx as (_ & HvN & Hlen & Hlay); [|done] end.
    match goal with Hx : slice_range _ _ _ = Ok _ |- _ => apply slice_range_inv in Hx as [_ ->] end.
    match goal with Hx : validate _ (Some _) = Ok ?u |- _ => destruct u; split; [exact Hx|] end.
    rewrite take_ge by (rewrite length_drop; lia).
    rewrite <- Hlay. unfold sub. rewrite drop_0. by rewrite take_drop.
Qed.

(** Decoding never panics, whatever bytes arrive: every slice of the
    decoder is inside the buffer when it is reached. *)
Theorem frame_decode_no_panic bytes : no_panic (frame_decode bytes).
Proof.
  unfold frame_decode. apply bind_no_panic; [apply header_decode_no_panic|].
  intros h Hh. solve_no_panic; try apply validate_no_panic.
  apply slice_range_no_panic. unfold header_decode in Hh. inv_ok.
  match goal with Hx : (_ <? _)%nat = false |- _ => apply Nat.ltb_ge in Hx end. lia.
Qed.

Lemma frame_decode_typed bytes f :
  Forall is_byte bytes -> frame_decode bytes = Ok f ->
  frame_typed f /\ validate f.(header) (Some f.(payload)) = Ok tt.
Proof.
  intros Hb Hd. unfold frame_decode in Hd. inv_ok.
  match goal with Hx : header_decode _ = Ok _ |- _ =>
    apply header_decode_inv in Hx as (Ht & HvN & Hlen & Hlay); [|done] end.
  match goal with Hx : slice_range _ _ _ = Ok _ |- _ => apply slice_range_inv in Hx as [_ ->] end.
  match goal with Hx : validate _ (Some _) = Ok ?u |- _ => destruct u; split; [|exact Hx] end.
  split; cbn; [done|]. by apply Forall_take, Forall_drop.
Qed.

(** Damage to a payload is detected: if the payload part of an encoded
    frame is replaced by different bytes of the same length whose CRC-32
    differs, decoding reports the checksum mismatch. *)
Theorem frame_decode_detects_damage f bytes damaged :
  frame_typed f ->
  frame_encode f = Ok bytes ->
  length damaged = length f.(payload) ->
  checksum damaged <> checksum f.(payload) ->
  frame_decode (take FRAME_HEADER_BYTES bytes ++ damaged) =
    Err (ChecksumMismatch (checksum f.(payload)) (checksum damaged)).
Proof.
  intros Hf He Hlen Hne. apply frame_encode_Ok in He as [Hv ->]; [|done].
  destruct f as [h p]; destruct Hf as [Ht _]; cbn [header payload] in *.
  pose proof (length_header_layout h (unique_id_length _ Ht)) as Hhl.
  rewrite <- Hhl, take_app_length.
  unfold frame_decode. rewrite header_decode_layout by done.
  apply validate_Some in Hv as (HvN & Hpl & Hc); [|apply Ht].
  destruct (payload_bytes_usize _ HvN) as [Hu Ha].
  rewrite HvN; cbn [mbind outcome_bind]. rewrite Hu; cbn [ok_or mbind outcome_bind].
  rewrite Ha; cbn [ok_or mbind outcome_bind].
  unfold Zlen in *. rewrite length_app, Hhl, (proj2 (Z.eqb_eq _ _))
    by (unfold FRAME_HEADER_BYTES; lia).
  cbn [negb fail_if mbind outcome_bind].
  rewrite slice_range_Ok by (rewrite length_app; lia). cbn [mbind outcome_bind].
  rewrite <- Hhl, drop_app_length, take_ge by lia.
  rewrite (validate_checksum h damaged) by first [done | apply Ht | unfold Zlen; lia | congruence].
  cbn. by rewrite Hc.
Qed.

(** The header that [Frame::new] puts in front of a payload. *)
Definition sealed (h : FrameHeader) (payload : list Z) : FrameHeader :=
  match payload with
  | [] => h
  | _ => mkHeader h.(opcode) h.(element_type) (Z.lor h.(flags) FLAG_PAYLOAD)
           h.(source_rank) h.(destination_rank) h.(root_rank) h.(world_size)
           h.(sequence) h.(tag) h.(element_count) (Zlen payload) h.(unique_id)
           (checksum payload)
  end.

Lemma lor_u16 f g : in_width 16 f -> in_width 16 g -> in_width 16 (Z.lor f g).
Proof.
  intros [??] [??]. split; [by apply Z.lor_nonneg|].
  destruct (decide (Z.lor f g = 0)) as [->|]; [lia|].
  apply Z.log2_lt_pow2; [pose proof (proj2 (Z.lor_nonneg f g)); lia|].
  rewrite Z.log2_lor by lia.
  assert (Hlog : forall x, 0 <= x < 2 ^ 16 -> Z.log2 x < 16).
  { intros x Hx. destruct (decide (x = 0)) as [->|]; [done|]. apply Z.log2_lt_pow2; lia. }
  pose proof (Hlog f). pose proof (Hlog g). lia.
Qed.

Lemma frame_new_inv h p f :
  header_typed h -> frame_new h p = Ok f ->
  f = mkFrame (sealed h p) p /\ header_typed (sealed h p)
  /\ validate (sealed h p) (Some p) = Ok tt.
Proof.
  intros Ht Hn. unfold frame_new in Hn. destruct p as [|b p]; inv_ok.
  { cbn. destruct v0. done. }
  unfold with_payload in *. inv_ok.
  match goal with Hx : (MAX_FRAME_PAYLOAD_BYTES <? _) = false |- _ =>
    apply Z.ltb_ge in Hx; rename Hx into Hmax end.
  change MAX_FRAME_PAYLOAD_BYTES with 1073741824 in Hmax.
  match goal with Hx : validate _ None = Ok ?u |- _ => destruct u; rename Hx into HvN end.
  assert (Hts : header_typed (sealed h (b :: p))).
  { destruct Ht. split; cbn; try done.
    - by apply lor_u16.
    - unfold in_width, Zlen in *. cbn in *. lia.
    - apply crc32_hash_u32. }
  split; [done|]. split; [done|].
  apply validate_Some; [apply Hts|]. by split_and!.
Qed.

Lemma sealed_typed h p :
  header_typed h -> Zlen p <= MAX_FRAME_PAYLOAD_BYTES -> header_typed (sealed h p).
Proof.
  change MAX_FRAME_PAYLOAD_BYTES with 1073741824.
  intros Ht Hmax. destruct p as [|b p]; [done|]. destruct Ht. split; cbn; try done.
  - by apply lor_u16.
  - unfold in_width, Zlen in *. cbn in *. lia.
  - apply crc32_hash_u32.
Qed.

(** What [Frame::new] and [Frame::decode] guarantee of a frame. *)
Record sendable (f : Frame) : Prop := {
  sendable_typed : frame_typed f;
  sendable_valid : validate f.(header) (Some f.(payload)) = Ok tt;
}.

Lemma frame_new_sendable_ok h p f :
  header_typed h -> Forall is_byte p -> frame_new h p = Ok f -> sendable f.
Proof. intros Ht Hp Hn. by destruct (frame_new_inv _ _ _ Ht Hn) as (-> & Hts & Hv). Qed.

Definition frame_bytes (f : Frame) : list Z := header_layout f.(header) ++ f.(payload).

Lemma frame_bytes_bytes f : frame_typed f -> Forall is_byte (frame_bytes f).
Proof. intros [Ht Hp]. apply Forall_app. split; [by apply header_layout_bytes|done]. Qed.

(** [Frame::new] succeeds exactly on a payload within the limit whose sealed
    header is valid; an empty payload needs a header that declares none. *)
Lemma frame_new_iff h p f :
  header_typed h -> (p = [] -> h.(payload_bytes) = 0 /\ h.(payload_checksum) = checksum []) ->
  frame_new h p = Ok f <->
    f = mkFrame (sealed h p) p /\ Zlen p <= MAX_FRAME_PAYLOAD_BYTES /\ header_valid (sealed h p).
Proof.
  intros Ht He. split.
  - intros Hn. destruct (frame_new_inv _ _ _ Ht Hn) as (-> & Hts & Hv).
    apply validate_Some in Hv as (HvN & Hl & _); [|apply Hts].
    split; [done|]. split; [|by apply validate_iff].
    rewrite Hl. by apply payload_len_bound.
  - intros (-> & Hmax & Hv). pose proof (sealed_typed h p Ht Hmax) as Hts.
    apply validate_iff in Hv; [|done]. unfold frame_new. destruct p as [|b p].
    + cbn [sealed] in *. destruct (He eq_refl) as [Hb Hc].
      rewrite (proj2 (validate_Some h [] (payload_bytes_u64 _ Ht))); [done|].
      by rewrite Hb, Hc.
    + unfold with_payload. rewrite (proj2 (Z.ltb_ge _ _)) by done.
      cbn [fail_if mbind outcome_bind]. cbn [sealed] in Hv. by rewrite Hv.
Qed.

Lemma frame_new_no_panic h p : no_panic (frame_new h p).
Proof.
  unfold frame_new, with_payload.
  destruct p; solve_no_panic; apply validate_no_panic.
Qed.

(** [Frame::new] only builds frames that can be sent: the result of a
    successful call carries the payload unchanged under a header that differs
    only in payload flag, length and checksum, it encodes, and the receiver
    that decodes the bytes gets the same frame. *)
Theorem frame_new_sendable h p f :
  header_typed h -> Forall is_byte p ->
  frame_new h p = Ok f ->
  f = mkFrame (sealed h p) p /\
  exists bytes, frame_encode f = Ok bytes /\ frame_decode bytes = Ok f.
Proof.
  intros Ht Hb Hn. destruct (frame_new_inv _ _ _ Ht Hn) as (-> & Hts & Hv).
  split; [done|]. set (f := mkFrame _ _).
  assert (Hf : frame_typed f) by done.
  assert (He : frame_encode f = Ok (header_layout (sealed h p) ++ p))
    by (by apply frame_encode_Ok).
  eexists. split; [exact He|]. apply frame_codec; [|done|done].
  apply Forall_app. split; [by apply header_layout_bytes|done].
Qed.
End frames.

Section witnesses.
Import Crc32Ieee.

(** The frame of the source's round-trip test. *)
Definition test_header : FrameHeader :=
  set_tag (set_destination_rank
    (collective (replicate 16 7) Opcode.Send ElementType.U32 1 ANY_RANK 4 9 3) 2) 44.
Definition test_payload : list Z := [1; 0; 0; 0; 2; 0; 0; 0; 3; 0; 0; 0].
Definition test_frame : Frame := mkFrame (sealed test_header test_payload) test_payload.

Lemma test_header_typed : header_typed test_header.
Proof. split; unfold in_width; first [done | cbn; lia | repeat constructor; cbn; lia]. Qed.

Lemma test_frame_typed : frame_typed test_frame.
Proof.
  assert (Hn : frame_new test_header test_payload = Ok test_frame)
    by (vm_compute; reflexivity).
  apply (frame_new_inv _ _ _ test_header_typed) in Hn as (_ & Ht & _).
  split; [exact Ht|]. repeat constructor; cbn; lia.
Qed.

Definition test_bytes : list Z := header_layout (header test_frame) ++ test_payload.

Lemma test_bytes_bytes : Forall is_byte test_bytes.
Proof.
  apply Forall_app. split; [apply header_layout_bytes, test_frame_typed|].
  repeat constructor; cbn; lia.
Qed.

Lemma frame_codec_witness :
  frame_encode test_frame = Ok test_bytes /\ frame_decode test_bytes = Ok test_frame.
Proof.
  split; [vm_compute; reflexivity|].
  apply (frame_codec test_frame test_bytes test_bytes_bytes test_frame_typed).
  vm_compute. reflexivity.
Defined.

Lemma frame_decode_detects_damage_witness :
  frame_decode (take FRAME_HEADER_BYTES test_bytes ++ replicate 12 1) =
    Err (ChecksumMismatch (checksum test_payload) (checksum (replicate 12 1))).
Proof.
  apply (frame_decode_detects_damage test_frame test_bytes (replicate 12 1) test_frame_typed);
    [vm_compute; reflexivity | done | vm_compute; discriminate].
Defined.

Lemma frame_new_sendable_witness :
  exists bytes, frame_encode test_frame = Ok bytes /\ frame_decode bytes = Ok test_frame.
Proof.
  apply (frame_new_sendable test_header test_payload test_frame test_header_typed);
    [repeat constructor; cbn; lia | vm_compute; reflexivity].
Defined.

Lemma validate_spec_witness : header_valid (header test_frame).
Proof.
  apply (validate_spec (header test_frame) (frame_header_typed _ test_frame_typed)).
  vm_compute. reflexivity.
Defined.
End witnesses.
