(* ===== verification/Agreement.v ===== *)
(** * Sequence agreement: CollectiveAgreement of src/src/rank/protocol.rs

    The coordinator's record of who submitted what: an operation becomes ready
    only when every rank submitted the same descriptor for the current
    sequence number.  [pending] is the source's [BTreeMap]; [submit] returns
    the state that the [&mut self] method leaves behind, on error too. *)
From S2P Require Import Prelude Protocol.

Record CollectiveAgreement := mkAgreement {
  ag_world_size : nat;
  next_sequence : Z;
  pending : gmap Z (list (option OperationDescriptor));
}.

(** [CollectiveAgreement::new] *)
Definition agreement_new (world : nat) : presult CollectiveAgreement :=
  _ ← fail_if (world =? 0)%nat EmptyWorld;
  Ok (mkAgreement world 0 ∅).

(** [ranks.iter().flatten().next()] *)
Fixpoint first_submitted (ranks : list (option OperationDescriptor))
    : option OperationDescriptor :=
  match ranks with
  | [] => None
  | Some d :: _ => Some d
  | None :: ranks' => first_submitted ranks'
  end.

Definition all_submitted (ranks : list (option OperationDescriptor)) : bool :=
  forallb (fun r => bool_decide (is_Some r)) ranks.

Definition submit (ag : CollectiveAgreement) (rank : nat) (seq : Z)
    (descriptor : OperationDescriptor) : CollectiveAgreement * presult bool :=
  if (ag.(ag_world_size) <=? rank)%nat then
    (ag, Err (RankOutOfRange "source" (wrap 32 (Z.of_nat rank))
                (wrap 32 (Z.of_nat ag.(ag_world_size)))))
  else if negb (seq =? ag.(next_sequence)) then
    (ag, Err (SequenceMismatch ag.(next_sequence) seq))
  else
    let ranks := default (replicate ag.(ag_world_size) None) (ag.(pending) !! seq) in
    let with_ranks r := mkAgreement ag.(ag_world_size) ag.(next_sequence)
                          (<[seq := r]> ag.(pending)) in
    match ranks !! rank with
    | None => (with_ranks ranks, Panic)
    | Some (Some _) => (with_ranks ranks, Err (DuplicateSubmission rank seq))
    | Some None =>
        let mismatch :=
          match first_submitted ranks with
          | Some expected => if bool_decide (expected = descriptor) then None else Some expected
          | None => None
          end in
        match mismatch with
        | Some expected => (with_ranks ranks, Err (CollectiveMismatch seq expected descriptor))
        | None =>
            let ranks' := <[rank := Some descriptor]> ranks in
            if all_submitted ranks' then
              let closed := delete seq ag.(pending) in
              match checked_add 64 ag.(next_sequence) 1 with
              | Some next => (mkAgreement ag.(ag_world_size) next closed, Ok true)
              | None => (mkAgreement ag.(ag_world_size) ag.(next_sequence) closed,
                         Err SequenceOverflow)
              end
            else (with_ranks ranks', Ok false)
        end
    end.

(** ** The contract, abstractly

    A round is the current sequence number, the operation that the first
    submitter fixed, and the set of ranks that have joined. *)
Module Round.
Record Round := mkRound {
  round_sequence : Z;
  round_operation : option OperationDescriptor;
  round_ranks : gset nat;
}.

Definition join (world : nat) (r : Round) (rank : nat) (seq : Z)
    (d : OperationDescriptor) : Round * presult bool :=
  if decide (world <= rank)%nat then
    (r, Err (RankOutOfRange "source" (wrap 32 (Z.of_nat rank)) (wrap 32 (Z.of_nat world))))
  else if decide (seq <> r.(round_sequence)) then
    (r, Err (SequenceMismatch r.(round_sequence) seq))
  else if decide (rank ∈ r.(round_ranks)) then (r, Err (DuplicateSubmission rank seq))
  else if decide (r.(round_operation) <> None /\ r.(round_operation) <> Some d) then
    (r, Err (CollectiveMismatch seq (default d r.(round_operation)) d))
  else if decide (set_seq 0 world ⊆ {[rank]} ∪ r.(round_ranks)) then
    if decide (r.(round_sequence) < U64_MAX)
    then (mkRound (r.(round_sequence) + 1) None ∅, Ok true)
    else (mkRound r.(round_sequence) None ∅, Err SequenceOverflow)
  else (mkRound r.(round_sequence) (Some d) ({[rank]} ∪ r.(round_ranks)), Ok false).
End Round.

(** The vector of the current sequence number, and the round it stands for. *)
Definition current_ranks (ag : CollectiveAgreement) : list (option OperationDescriptor) :=
  default (replicate ag.(ag_world_size) None) (ag.(pending) !! ag.(next_sequence)).

Definition submitters (ranks : list (option OperationDescriptor)) : gset nat :=
  list_to_set (filter (fun i => is_Some (mjoin (ranks !! i))) (seq 0 (length ranks))).

Definition abstract (ag : CollectiveAgreement) : Round.Round :=
  Round.mkRound ag.(next_sequence) (first_submitted (current_ranks ag))
    (submitters (current_ranks ag)).

(** The state invariant: only the current sequence number is pending, with one
    slot per rank, one common descriptor, and some rank still missing. *)
Record agreement_ok (ag : CollectiveAgreement) : Prop := {
  ok_world : (0 < ag.(ag_world_size))%nat;
  ok_sequence : in_width 64 ag.(next_sequence);
  ok_pending : forall k ranks, ag.(pending) !! k = Some ranks ->
    k = ag.(next_sequence) /\ length ranks = ag.(ag_world_size)
    /\ (forall i j d d', ranks !! i = Some (Some d) -> ranks !! j = Some (Some d') -> d = d')
    /\ all_submitted ranks = false;
}.

(** The submissions [rank: descriptor] of one sequence number, in order. *)
Fixpoint submit_all (ag : CollectiveAgreement) (seq : Z) (d : OperationDescriptor)
    (ranks : list nat) : CollectiveAgreement * list (presult bool) :=
  match ranks with
  | [] => (ag, [])
  | rank :: ranks' =>
      let '(ag1, r) := submit ag rank seq d in
      let '(ag2, rs) := submit_all ag1 seq d ranks' in
      (ag2, r :: rs)
  end.

(** ** Facts about slot vectors *)
Section slots.
Implicit Types (ranks : list (option OperationDescriptor)) (d : OperationDescriptor).

Lemma elem_of_submitters ranks i :
  i ∈ submitters ranks <-> exists d, ranks !! i = Some (Some d).
Proof.
  unfold submitters. rewrite elem_of_list_to_set, list_elem_of_filter, elem_of_seq.
  split.
  - intros [[d Hd] _]. destruct (ranks !! i) as [[]|]; naive_solver.
  - intros [d Hd]. rewrite Hd. split; [eauto|].
    apply lookup_lt_Some in Hd. lia.
Qed.

Lemma all_submitted_spec ranks :
  all_submitted ranks = true <-> set_seq 0 (length ranks) ⊆ submitters ranks.
Proof.
  unfold all_submitted. rewrite forallb_forall. split.
  - intros Hall i Hi%elem_of_set_seq. apply elem_of_submitters.
    destruct (lookup_lt_is_Some_2 ranks i) as [o Ho]; [lia|].
    assert (Ho' : In o ranks) by (apply list_elem_of_In, list_elem_of_lookup; eauto).
    apply Hall, bool_decide_eq_true in Ho' as [d ->]. eauto.
  - intros Hsub o Ho%list_elem_of_In. apply list_elem_of_lookup in Ho as [i Hi].
    assert (Hin : i ∈ submitters ranks).
    { apply Hsub, elem_of_set_seq. apply lookup_lt_Some in Hi. lia. }
    apply elem_of_submitters in Hin as [d Hd]. rewrite Hi in Hd. injection Hd as ->.
    apply bool_decide_eq_true. eauto.
Qed.

Lemma first_submitted_Some ranks d :
  first_submitted ranks = Some d -> exists i, ranks !! i = Some (Some d).
Proof.
  induction ranks as [|[d'|] ranks IH]; cbn; [done| |].
  - intros [= ->]. by exists 0%nat.
  - intros [i Hi]%IH. by exists (S i).
Qed.

Lemma first_submitted_None ranks :
  first_submitted ranks = None <-> submitters ranks = ∅.
Proof.
  split.
  - intros Hn. apply set_eq. intros i. rewrite elem_of_submitters.
    split; [|set_solver]. intros [d Hd]. exfalso. revert i Hd Hn.
    induction ranks as [|[d'|] ranks IH]; intros [|i]; cbn; try done. eauto.
  - intros He. destruct (first_submitted ranks) as [d|] eqn:Hf; [|done].
    apply first_submitted_Some in Hf as [i Hi].
    assert (Hin : i ∈ submitters ranks) by (apply elem_of_submitters; eauto).
    rewrite He in Hin. set_solver.
Qed.

Lemma submitters_insert ranks rank d :
  (rank < length ranks)%nat ->
  submitters (<[rank := Some d]> ranks) = {[rank]} ∪ submitters ranks.
Proof.
  intros Hlt. apply set_eq. intros i.
  rewrite elem_of_union, elem_of_singleton, !elem_of_submitters.
  destruct (decide (i = rank)) as [->|Hne].
  - rewrite list_lookup_insert_eq by done. naive_solver.
  - rewrite list_lookup_insert_ne by done. naive_solver.
Qed.

Lemma submitters_replicate n : submitters (replicate n None) = ∅.
Proof.
  apply set_eq. intros i. rewrite elem_of_submitters.
  split; [|set_solver]. intros [d Hd%lookup_replicate]. naive_solver.
Qed.
End slots.

Section agreement.
Implicit Types (ag : CollectiveAgreement) (d : OperationDescriptor).

(** What the invariant says about the current vector, pending or fresh. *)
Lemma current_ranks_ok ag :
  agreement_ok ag ->
  length (current_ranks ag) = ag.(ag_world_size)
  /\ (forall i j d d', current_ranks ag !! i = Some (Some d) ->
        current_ranks ag !! j = Some (Some d') -> d = d')
  /\ all_submitted (current_ranks ag) = false.
Proof.
  intros [Hw _ Hp]. unfold current_ranks.
  destruct (pending ag !! next_sequence ag) as [ranks|] eqn:Hr; cbn.
  { by destruct (Hp _ _ Hr) as (_ & ? & ? & ?). }
  split; [apply length_replicate|]. split.
  - intros i j d d' Hi%lookup_replicate. naive_solver.
  - by destruct (ag_world_size ag); [lia|].
Qed.

Lemma pending_only ag ranks k r :
  agreement_ok ag -> <[next_sequence ag := ranks]> (pending ag) !! k = Some r ->
  k = next_sequence ag /\ r = ranks.
Proof.
  intros Hok [[<- ->]|[Hne Hk]]%lookup_insert_Some; [done|].
  by destruct (ok_pending _ Hok _ _ Hk) as [-> _].
Qed.

Lemma pending_closed ag : agreement_ok ag -> delete (next_sequence ag) (pending ag) = ∅.
Proof.
  intros Hok. apply map_eq. intros k. rewrite lookup_empty.
  destruct (delete _ _ !! k) as [r|] eqn:Hk; [|done].
  apply lookup_delete_Some in Hk as [Hne Hk].
  by destruct (ok_pending _ Hok _ _ Hk) as [-> _].
Qed.

(** A submission that passes the three guards. *)
Lemma submit_accept ag rank d :
  agreement_ok ag -> (rank < ag.(ag_world_size))%nat ->
  rank ∉ submitters (current_ranks ag) ->
  (first_submitted (current_ranks ag) = None
   \/ first_submitted (current_ranks ag) = Some d) ->
  submit ag rank ag.(next_sequence) d =
    let ranks' := <[rank := Some d]> (current_ranks ag) in
    if all_submitted ranks' then
      match checked_add 64 ag.(next_sequence) 1 with
      | Some next => (mkAgreement ag.(ag_world_size) next ∅, Ok true)
      | None => (mkAgreement ag.(ag_world_size) ag.(next_sequence) ∅, Err SequenceOverflow)
      end
    else (mkAgreement ag.(ag_world_size) ag.(next_sequence)
            (<[ag.(next_sequence) := ranks']> ag.(pending)), Ok false).
Proof.
  intros Hok Hlt Hnin Hfirst. unfold submit.
  rewrite (proj2 (Nat.leb_gt _ _)) by lia. rewrite Z.eqb_refl. cbn [negb].
  fold (current_ranks ag).
  destruct (current_ranks_ok _ Hok) as (Hlen & _ & _).
  destruct (lookup_lt_is_Some_2 (current_ranks ag) rank) as [o Ho]; [lia|].
  rewrite Ho. destruct o as [d'|].
  { destruct Hnin. apply elem_of_submitters. eauto. }
  assert (Hm : match first_submitted (current_ranks ag) with
               | Some expected => if bool_decide (expected = d) then None else Some expected
               | None => None end = None).
  { destruct Hfirst as [->| ->]; [done|]. by rewrite bool_decide_true. }
  rewrite Hm. by rewrite pending_closed.
Qed.

(** The vector after an accepted submission is again uniform. *)
Lemma uniform_insert ag rank d i j e e' :
  agreement_ok ag ->
  (first_submitted (current_ranks ag) = None
   \/ first_submitted (current_ranks ag) = Some d) ->
  <[rank := Some d]> (current_ranks ag) !! i = Some (Some e) ->
  <[rank := Some d]> (current_ranks ag) !! j = Some (Some e') -> e = e'.
Proof.
  intros Hok Hfirst. destruct (current_ranks_ok _ Hok) as (_ & Huni & _).
  assert (Hd : forall k x, current_ranks ag !! k = Some (Some x) -> x = d).
  { intros k x Hk. destruct Hfirst as [Hn|Hs].
    - apply first_submitted_None in Hn.
      assert (Hin : k ∈ submitters (current_ranks ag)) by (apply elem_of_submitters; eauto).
      rewrite Hn in Hin. set_solver.
    - apply first_submitted_Some in Hs as [k' Hk']. eauto. }
  intros Hi Hj.
  apply list_lookup_insert_Some in Hi as [(_ & [= <-] & _)|[_ Hi]];
  apply list_lookup_insert_Some in Hj as [(_ & [= <-] & _)|[_ Hj]]; eauto.
  symmetry. eauto.
Qed.

(** Every branch of [submit], for a state that satisfies the invariant. *)
Lemma submit_cases ag rank seq d :
  agreement_ok ag ->
  let ranks := current_ranks ag in
  ((ag.(ag_world_size) <= rank)%nat /\
     submit ag rank seq d =
       (ag, Err (RankOutOfRange "source" (wrap 32 (Z.of_nat rank))
                   (wrap 32 (Z.of_nat ag.(ag_world_size))))))
  \/ ((rank < ag.(ag_world_size))%nat /\ seq <> ag.(next_sequence) /\
     submit ag rank seq d = (ag, Err (SequenceMismatch ag.(next_sequence) seq)))
  \/ ((rank < ag.(ag_world_size))%nat /\ seq = ag.(next_sequence) /\
     (rank ∈ submitters ranks) /\ submit ag rank seq d = (ag, Err (DuplicateSubmission rank seq)))
  \/ (exists expected, (rank < ag.(ag_world_size))%nat /\ seq = ag.(next_sequence) /\
     (rank ∉ submitters ranks) /\ first_submitted ranks = Some expected /\ expected <> d /\
     submit ag rank seq d = (ag, Err (CollectiveMismatch seq expected d)))
  \/ ((rank < ag.(ag_world_size))%nat /\ seq = ag.(next_sequence) /\
     (rank ∉ submitters ranks) /\
     (first_submitted ranks = None \/ first_submitted ranks = Some d)).
Proof.
  intros Hok ranks.
  destruct (decide (ag.(ag_world_size) <= rank)%nat) as [Hr|Hr].
  { left. split; [done|]. unfold submit. by rewrite (proj2 (Nat.leb_le _ _)). }
  right. destruct (decide (seq = ag.(next_sequence))) as [->|Hs].
  2: { left. split_and!; [lia|done|]. unfold submit.
       rewrite (proj2 (Nat.leb_gt _ _)) by lia. by rewrite (proj2 (Z.eqb_neq _ _)). }
  right. destruct (current_ranks_ok _ Hok) as (Hlen & _ & _).
  destruct (lookup_lt_is_Some_2 ranks rank) as [o Ho]; [unfold ranks; lia|].
  (* an error after the lookup puts back the vector that was already there *)
  assert (Hsame : submitters ranks <> ∅ ->
    mkAgreement ag.(ag_world_size) ag.(next_sequence)
      (<[ag.(next_sequence) := ranks]> ag.(pending)) = ag).
  { unfold ranks, current_ranks. destruct (pending ag !! next_sequence ag) eqn:Hp; cbn [from_option id].
    - intros _. rewrite insert_id by done. by destruct ag.
    - intros Hne. by rewrite submitters_replicate in Hne. }
  destruct o as [d'|].
  { left. assert (Hin : rank ∈ submitters ranks) by (apply elem_of_submitters; eauto).
    split_and!; [lia|done|done|]. unfold submit.
    rewrite (proj2 (Nat.leb_gt _ _)) by lia. rewrite Z.eqb_refl. cbn [negb].
    fold (current_ranks ag) ranks. rewrite Ho, Hsame by set_solver. done. }
  assert (Hnin : rank ∉ submitters ranks).
  { rewrite elem_of_submitters. intros [d' Hd']. naive_solver. }
  right. destruct (first_submitted ranks) as [expected|] eqn:Hf.
  2: { right. split_and!; auto. lia. }
  destruct (decide (expected = d)) as [->|Hne].
  { right. split_and!; auto. lia. }
  left. exists expected. split_and!; [lia|done|done|done|done|]. unfold submit.
  rewrite (proj2 (Nat.leb_gt _ _)) by lia. rewrite Z.eqb_refl. cbn [negb].
  fold (current_ranks ag) ranks. rewrite Ho, Hf, bool_decide_false, Hsame; [done| |done].
  intros He%first_submitted_None. congruence.
Qed.

Lemma first_submitted_insert ag rank d :
  agreement_ok ag -> (rank < ag.(ag_world_size))%nat ->
  (first_submitted (current_ranks ag) = None
   \/ first_submitted (current_ranks ag) = Some d) ->
  first_submitted (<[rank := Some d]> (current_ranks ag)) = Some d.
Proof.
  intros Hok Hlt Hfirst. destruct (current_ranks_ok _ Hok) as (Hlen & _ & _).
  assert (Hr : <[rank := Some d]> (current_ranks ag) !! rank = Some (Some d))
    by (apply list_lookup_insert_eq; lia).
  destruct (first_submitted (<[rank := Some d]> _)) as [e|] eqn:Hf.
  - apply first_submitted_Some in Hf as [i Hi]. f_equal.
    by eapply uniform_insert.
  - apply first_submitted_None in Hf.
    assert (Hin : rank ∈ submitters (<[rank := Some d]> (current_ranks ag)))
      by (apply elem_of_submitters; eauto).
    rewrite Hf in Hin. set_solver.
Qed.

Lemma checked_succ n :
  in_width 64 n ->
  (n < U64_MAX /\ checked_add 64 n 1 = Some (n + 1) /\ in_width 64 (n + 1))
  \/ (~ n < U64_MAX /\ checked_add 64 n 1 = None).
Proof.
  unfold in_width, U64_MAX, checked_add. intros Hn.
  destruct (decide (n < 2 ^ 64 - 1)); [left|right].
  - split_and!; [done| |lia|lia]. apply checked_in. unfold in_width. lia.
  - split; [done|]. destruct (checked 64 (n + 1)) eqn:Hc; [|done].
    apply checked_Some in Hc as [_ Hc]. unfold in_width in Hc. lia.
Qed.

(** The three outcomes of an accepted submission. *)
Lemma submit_accept_cases ag rank d :
  agreement_ok ag -> (rank < ag.(ag_world_size))%nat ->
  rank ∉ submitters (current_ranks ag) ->
  (first_submitted (current_ranks ag) = None
   \/ first_submitted (current_ranks ag) = Some d) ->
  let ranks' := <[rank := Some d]> (current_ranks ag) in
  let full := set_seq 0 ag.(ag_world_size) ⊆ {[rank]} ∪ submitters (current_ranks ag) in
  submit ag rank ag.(next_sequence) d =
    if decide full then
      if decide (ag.(next_sequence) < U64_MAX)
      then (mkAgreement ag.(ag_world_size) (ag.(next_sequence) + 1) ∅, Ok true)
      else (mkAgreement ag.(ag_world_size) ag.(next_sequence) ∅, Err SequenceOverflow)
    else (mkAgreement ag.(ag_world_size) ag.(next_sequence)
            (<[ag.(next_sequence) := ranks']> ag.(pending)), Ok false).
Proof.
  intros Hok Hlt Hnin Hfirst ranks' full. rewrite submit_accept by done.
  destruct (current_ranks_ok _ Hok) as (Hlen & _ & _).
  assert (Hfull : all_submitted ranks' = true <-> full).
  { unfold ranks', full. rewrite all_submitted_spec, length_insert, Hlen.
    by rewrite submitters_insert by lia. }
  fold ranks'. cbv zeta.
  destruct (all_submitted ranks') eqn:Ha.
  - rewrite decide_True by (by apply Hfull).
    destruct (checked_succ _ (ok_sequence _ Hok)) as [(Hn & -> & _)|(Hn & ->)].
    + by rewrite decide_True.
    + by rewrite decide_False.
  - rewrite decide_False; [done|]. intros Hf%Hfull. congruence.
Qed.

Lemma abstract_closed world n :
  abstract (mkAgreement world n ∅) = Round.mkRound n None ∅.
Proof.
  unfold abstract, current_ranks. cbn [pending next_sequence ag_world_size].
  rewrite lookup_empty. cbn [from_option id].
  rewrite submitters_replicate. f_equal. by apply first_submitted_None, submitters_replicate.
Qed.

Lemma abstract_open ag ranks :
  abstract (mkAgreement ag.(ag_world_size) ag.(next_sequence)
              (<[ag.(next_sequence) := ranks]> ag.(pending)))
  = Round.mkRound ag.(next_sequence) (first_submitted ranks) (submitters ranks).
Proof.
  unfold abstract, current_ranks. cbn [pending next_sequence ag_world_size].
  by rewrite lookup_insert_eq.
Qed.

(** C29: [submit] implements the round contract: under the state invariant it
    returns the same result as [Round.join] on the round that the state
    stands for, on every branch, errors and sequence overflow included, and
    leaves the state of the joined round. *)
Theorem submit_refines ag rank seq d :
  agreement_ok ag ->
  let '(ag', r) := submit ag rank seq d in
  Round.join ag.(ag_world_size) (abstract ag) rank seq d = (abstract ag', r).
Proof.
  intros Hok. unfold Round.join. cbn [Round.round_sequence Round.round_operation
    Round.round_ranks abstract].
  destruct (submit_cases ag rank seq d Hok)
    as [(Hr & ->)|[(Hr & Hs & ->)|[(Hr & -> & Hin & ->)|[(e & Hr & -> & Hin & Hf & Hne & ->)|
        (Hr & -> & Hin & Hf)]]]].
  - by rewrite decide_True.
  - by rewrite decide_False, decide_True by lia.
  - by rewrite decide_False, decide_False, decide_True by (lia || naive_solver).
  - rewrite decide_False, decide_False, decide_False, decide_True
      by (lia || done || naive_solver congruence).
    by rewrite Hf.
  - rewrite decide_False by lia. rewrite decide_False by (intros Hx; by apply Hx).
    rewrite decide_False by done.
    rewrite decide_False by (destruct Hf as [Hf|Hf]; rewrite Hf; intros [??]; congruence).
    rewrite submit_accept_cases by done.
    destruct (current_ranks_ok _ Hok) as (Hlen & _ & _).
    case_decide; [case_decide|].
    + by rewrite abstract_closed.
    + by rewrite abstract_closed.
    + rewrite abstract_open, first_submitted_insert, submitters_insert by (done || lia). done.
Qed.

Lemma submit_invariant_step ag rank seq d :
  agreement_ok ag -> agreement_ok (submit ag rank seq d).1.
Proof.
  intros Hok.
  destruct (submit_cases ag rank seq d Hok)
    as [(Hr & ->)|[(Hr & Hs & ->)|[(Hr & -> & Hin & ->)|[(e & Hr & -> & Hin & Hf & Hne & ->)|
        (Hr & -> & Hin & Hf)]]]]; cbn [fst]; try done.
  rewrite submit_accept_cases by done.
  destruct (current_ranks_ok _ Hok) as (Hlen & _ & _). destruct Hok as [Hw Hs Hp].
  case_decide as Hfull; [case_decide|]; cbn [fst]; split; cbn; try done.
  - unfold in_width, U64_MAX in *. lia.
  - intros k l Hk. destruct (pending_only ag _ k l ltac:(by split) Hk) as [-> ->].
    split; [done|]. split; [by rewrite length_insert|]. split.
    + intros i j x y. by apply uniform_insert.
    + apply not_true_iff_false. rewrite all_submitted_spec, length_insert, Hlen.
      by rewrite submitters_insert by lia.
Qed.

(** The state invariant is kept by every submission, accepted or not. *)
Theorem submit_invariant ag rank seq d :
  agreement_ok ag -> agreement_ok (submit ag rank seq d).1.
Proof. apply submit_invariant_step. Qed.

(** A refused submission has no effect: after any error other than the
    exhaustion of sequence numbers the state is exactly what it was. *)
Theorem submit_error_unchanged ag rank seq d e :
  agreement_ok ag ->
  (submit ag rank seq d).2 = Err e -> e <> SequenceOverflow ->
  (submit ag rank seq d).1 = ag.
Proof.
  intros Hok.
  destruct (submit_cases ag rank seq d Hok)
    as [(Hr & ->)|[(Hr & Hs & ->)|[(Hr & -> & Hin & ->)|[(x & Hr & -> & Hin & Hf & Hne & ->)|
        (Hr & -> & Hin & Hf)]]]]; try done.
  rewrite submit_accept_cases by done.
  case_decide; [case_decide|]; cbn; congruence.
Qed.

(** Any order of the missing ranks closes the round with the last one. *)
Lemma submit_all_rest rest ag d :
  agreement_ok ag -> ag.(next_sequence) < U64_MAX ->
  (first_submitted (current_ranks ag) = None
   \/ first_submitted (current_ranks ag) = Some d) ->
  rest <> [] -> NoDup rest ->
  (forall i, i ∈ rest <-> (i < ag.(ag_world_size))%nat /\ (i ∉ submitters (current_ranks ag))) ->
  submit_all ag ag.(next_sequence) d rest =
    (mkAgreement ag.(ag_world_size) (ag.(next_sequence) + 1) ∅,
     replicate (length rest - 1) (Ok false) ++ [Ok true]).
Proof.
  revert ag. induction rest as [|rank rest IH]; intros ag Hok Hn Hfirst Hne Hnd Hrest; [done|].
  apply NoDup_cons in Hnd as [Hnin Hnd].
  destruct (proj1 (Hrest rank) ltac:(by left)) as [Hlt Hns]. cbn [submit_all].
  destruct (current_ranks_ok _ Hok) as (Hlen & _ & _).
  pose proof (submit_invariant_step ag rank (next_sequence ag) d Hok) as Hok'.
  rewrite submit_accept_cases in * by done.
  destruct (decide (set_seq 0 _ ⊆ _)) as [Hfull|Hopen].
  - rewrite decide_True by done. destruct rest as [|r2 rest]; [done|]. exfalso.
    destruct (proj1 (Hrest r2) ltac:(by right; left)) as [Hlt2 Hns2].
    assert (Hin : r2 ∈ ({[rank]} ∪ submitters (current_ranks ag) : gset nat))
      by (apply Hfull, elem_of_set_seq; lia).
    set_solver.
  - cbn [fst snd] in *. set (ag1 := mkAgreement _ _ _) in *.
    assert (Hc : current_ranks ag1 = <[rank := Some d]> (current_ranks ag)).
    { unfold current_ranks at 1, ag1. cbn. by rewrite lookup_insert_eq. }
    change (next_sequence ag) with (next_sequence ag1).
    change (ag_world_size ag) with (ag_world_size ag1).
    rewrite (IH ag1); try done.
    + destruct rest as [|r2 rest]; cbn; [|by rewrite Nat.sub_0_r].
      exfalso. apply Hopen. intros i Hi%elem_of_set_seq.
      destruct (decide (i ∈ submitters (current_ranks ag))); [set_solver|].
      assert (Hir : i ∈ [rank]) by (apply Hrest; split; [lia|done]). set_solver.
    + right. rewrite Hc. by apply first_submitted_insert.
    + intros ->. apply Hopen. intros i Hi%elem_of_set_seq.
      destruct (decide (i ∈ submitters (current_ranks ag))); [set_solver|].
      assert (Hir : i ∈ [rank]) by (apply Hrest; split; [lia|done]). set_solver.
    + intros i. rewrite Hc, submitters_insert by lia. cbn [ag_world_size ag1].
      specialize (Hrest i). set_solver.
Qed.

(** Agreement is reached: from a state where nobody has joined the current
    round, the ranks of the world may submit one descriptor in any order; all
    but the last are told to wait, the last one is told that the operation is
    ready, and the next sequence number opens with nothing pending. *)
Theorem submit_all_completes ag d ranks :
  agreement_ok ag -> ag.(next_sequence) < U64_MAX ->
  ag.(pending) !! ag.(next_sequence) = None ->
  ranks ≡ₚ seq 0 ag.(ag_world_size) ->
  submit_all ag ag.(next_sequence) d ranks =
    (mkAgreement ag.(ag_world_size) (ag.(next_sequence) + 1) ∅,
     replicate (ag.(ag_world_size) - 1) (Ok false) ++ [Ok true]).
Proof.
  intros Hok Hn Hp Hperm.
  assert (Hc : current_ranks ag = replicate ag.(ag_world_size) None)
    by (unfold current_ranks; by rewrite Hp).
  rewrite (submit_all_rest ranks); try done.
  - by rewrite Hperm, length_seq.
  - left. rewrite Hc. apply first_submitted_None, submitters_replicate.
  - intros ->. apply Permutation_nil in Hperm. pose proof (ok_world _ Hok).
    apply (f_equal length) in Hperm. rewrite length_seq in Hperm. cbn in Hperm. lia.
  - rewrite Hperm. apply NoDup_seq.
  - intros i. rewrite Hperm, elem_of_seq, Hc, submitters_replicate.
    split; [intros; split; [lia|set_solver]|lia].
Qed.

(** No premature agreement: when [submit] reports that the operation is
    ready, every other rank of the world had already submitted this very
    descriptor under this sequence number. *)
Theorem submit_ready_sound ag rank seq d :
  agreement_ok ag ->
  (submit ag rank seq d).2 = Ok true ->
  seq = ag.(next_sequence) /\
  forall other, (other < ag.(ag_world_size))%nat -> other <> rank ->
    current_ranks ag !! other = Some (Some d).
Proof.
  intros Hok.
  destruct (submit_cases ag rank seq d Hok)
    as [(Hr & ->)|[(Hr & Hs & ->)|[(Hr & -> & Hin & ->)|[(x & Hr & -> & Hin & Hf & Hne & ->)|
        (Hr & -> & Hin & Hf)]]]]; try done.
  rewrite submit_accept_cases by done. intros Ho. split; [done|].
  case_decide as Hfull; [|done]. intros other Hlt Hne.
  assert (Hos : other ∈ submitters (current_ranks ag)).
  { assert (Hx : other ∈ ({[rank]} ∪ submitters (current_ranks ag) : gset nat))
      by (apply Hfull, elem_of_set_seq; lia). set_solver. }
  apply elem_of_submitters in Hos as [e He]. rewrite He. do 2 f_equal.
  destruct (current_ranks_ok _ Hok) as (Hlen & _ & _).
  eapply (uniform_insert ag rank d other rank); [done|done| |].
  - by rewrite list_lookup_insert_ne by done.
  - apply list_lookup_insert_eq. lia.
Qed.
End agreement.

(** ** Witnesses: the three ranks of the source's test *)
Section witnesses.
Definition test_operation : OperationDescriptor :=
  descriptor_new Opcode.AllReduce ElementType.BF16 ANY_RANK 1024.
Definition test_agreement : CollectiveAgreement := mkAgreement 3 0 ∅.

Lemma test_agreement_ok : agreement_ok test_agreement.
Proof. split; cbn; [lia|unfold in_width; lia|]. intros k l Hk. by rewrite lookup_empty in Hk. Qed.

Definition test_agreement_2 : CollectiveAgreement :=
  (submit (submit test_agreement 2 0 test_operation).1 0 0 test_operation).1.

Lemma test_agreement_2_ok : agreement_ok test_agreement_2.
Proof. do 2 apply submit_invariant_step. apply test_agreement_ok. Qed.

Lemma submit_refines_witness :
  Round.join 3 (abstract test_agreement_2) 1 0 test_operation
    = (abstract (mkAgreement 3 1 ∅), Ok true).
Proof. apply (submit_refines test_agreement_2 1 0 test_operation test_agreement_2_ok). Defined.

Lemma submit_invariant_witness :
  agreement_ok (submit test_agreement_2 1 0 test_operation).1.
Proof. apply (submit_invariant test_agreement_2 1 0 test_operation test_agreement_2_ok). Defined.

Lemma submit_error_unchanged_witness :
  (submit test_agreement_2 1 0 (descriptor_new Opcode.AllGather ElementType.BF16 ANY_RANK 1024)).1
    = test_agreement_2.
Proof.
  apply (submit_error_unchanged test_agreement_2 1 0 _
    (CollectiveMismatch 0 test_operation
       (descriptor_new Opcode.AllGather ElementType.BF16 ANY_RANK 1024)) test_agreement_2_ok);
    [vm_compute; reflexivity|discriminate].
Defined.

Lemma submit_all_completes_witness :
  submit_all test_agreement 0 test_operation [2; 0; 1]%nat
    = (mkAgreement 3 1 ∅, [Ok false; Ok false; Ok true]).
Proof.
  apply (submit_all_completes test_agreement test_operation [2; 0; 1]%nat test_agreement_ok);
    [done|done|]. exact (Permutation_middle [0; 1]%nat [] 2%nat).
Defined.

Lemma submit_ready_sound_witness :
  current_ranks test_agreement_2 !! 0%nat = Some (Some test_operation).
Proof.
  apply (submit_ready_sound test_agreement_2 1 0 test_operation test_agreement_2_ok);
    [vm_compute; reflexivity|vm_compute; lia|lia].
Defined.
End witnesses.
