(* ===== verification/Errors.v ===== *)
(** * Error types: NetworkError of src/src/rank/network.rs and RankError of
    src/src/rank/error.rs

    An [InvalidConfiguration] message is the source's literal or format
    string; the values that the source interpolates into it are left out. *)
From S2P Require Import Prelude Protocol.

(** What the development distinguishes of [std::io::Error]. *)
Inductive IoError : Type := UnexpectedEof | OtherIo.

#[export] Instance IoError_eq_dec : EqDecision IoError.
Proof. solve_decision. Defined.

Module NetworkError.

(** [RemoteAbort] holds the fixed part of the message and the bytes that the
    peer sent. *)
Inductive NetworkError : Type :=
  | Io (error : IoError)
  | Protocol (error : ProtocolError)
  | InvalidConfiguration (message : string)
  | RankAlreadyJoined (rank : Z)
  | WrongSession
  | WrongDestination (expected actual : Z)
  | RemoteAbort (message : string) (sent : list Z)
  | Timeout (operation : string)
  | ChannelClosed
  | Poisoned.

#[export] Instance NetworkError_eq_dec : EqDecision NetworkError.
Proof. solve_decision. Defined.

End NetworkError.
Export (hints) NetworkError.
Abbreviation NetworkError := NetworkError.NetworkError.
Abbreviation InvalidConfiguration := NetworkError.InvalidConfiguration.

Module RankError.

Inductive RankError : Type :=
  | RankOutOfRange (rank world_size : Z)
  | InvalidLength (what : string)
  | Overflow (what : string)
  | Network (error : NetworkError).

#[export] Instance RankError_eq_dec : EqDecision RankError.
Proof. solve_decision. Defined.

End RankError.
Export (hints) RankError.
Abbreviation RankError := RankError.RankError.

Abbreviation nresult := (outcome NetworkError).
Abbreviation rresult := (outcome RankError).

(** [?] on a [ProtocolError] where a [NetworkError] is returned, and on a
    [NetworkError] where a [RankError] is returned. *)
Definition lift_protocol {A} (m : presult A) : nresult A := map_err NetworkError.Protocol m.
Definition lift_network {A} (m : nresult A) : rresult A := map_err RankError.Network m.

Lemma lift_protocol_Ok {A} (m : presult A) a : lift_protocol m = Ok a <-> m = Ok a.
Proof. apply map_err_Ok. Qed.

Lemma lift_network_Ok {A} (m : nresult A) a : lift_network m = Ok a <-> m = Ok a.
Proof. apply map_err_Ok. Qed.

Lemma lift_protocol_no_panic {A} (m : presult A) : no_panic m -> no_panic (lift_protocol m).
Proof. apply map_err_no_panic. Qed.

Lemma lift_network_no_panic {A} (m : nresult A) : no_panic m -> no_panic (lift_network m).
Proof. apply map_err_no_panic. Qed.

#[export] Hint Resolve lift_protocol_no_panic lift_network_no_panic : rust.
