(* ===== verification/Layout.v ===== *)
(** * Partitions of a buffer: src/src/rank/layout.rs

    The balanced split into ranges ([ring_chunks] of
    src/src/in_process/collective/mod.rs is the same split, see InProcess.v),
    prefix offsets and the step count of a hierarchical collective. *)
From S2P Require Import Prelude Protocol Errors.

Abbreviation range := (nat * nat)%type (only parsing).
Definition range_len (r : nat * nat) : nat := (r.2 - r.1)%nat.

(** ** Definitions *)

(** Division by zero panics. *)
Definition balanced_ranges {E} (length partitions : nat) : outcome E (list (nat * nat)) :=
  if (partitions =? 0)%nat then Panic else
  let base := (length / partitions)%nat in
  let remainder := (length mod partitions)%nat in
  Ok (map_accum
        (fun start partition =>
           let part_length := (base + Nat.b2n (partition <? remainder))%nat in
           ((start + part_length)%nat, (start, start + part_length)%nat))
        0%nat (seq 0 partitions)).

Fixpoint prefix_offsets_from (total : Z) (counts : list Z) : rresult (list Z) :=
  match counts with
  | [] => Ok []
  | count :: counts' =>
      total' ← ok_or (checked_add usize_bits total count) (RankError.Overflow "pairwise count prefix");
      offsets ← prefix_offsets_from total' counts';
      Ok (total :: offsets)
  end.

Definition prefix_offsets (counts : list Z) : rresult (list Z) :=
  prefix_offsets_from 0 counts.

Definition hierarchy_steps {A} (groups : list (list A)) (inter_steps : Z) : Z :=
  let local_steps :=
    max_Z 0 (map (fun group => saturating_sub usize_bits (Zlen group) 1) groups) in
  let steps :=
    saturating_add usize_bits (saturating_mul usize_bits local_steps 2) inter_steps in
  if in_widthb 32 steps then steps else U32_MAX.

(** ** Balanced splits *)

(** The closed form: where part [k] of a balanced split starts. *)
Definition part_start (length partitions k : nat) : nat :=
  (k * (length / partitions) + k `min` (length mod partitions))%nat.

Arguments part_start : simpl never.

Section balanced.
Implicit Types length partitions k : nat.

Lemma part_start_0 length partitions : part_start length partitions 0 = 0%nat.
Proof. done. Qed.

Lemma part_start_S length partitions k :
  part_start length partitions (S k) =
    (part_start length partitions k
     + (length / partitions + Nat.b2n (k <? length mod partitions)))%nat.
Proof.
  unfold part_start. destruct (Nat.ltb_spec k (length mod partitions)); cbn [Nat.b2n]; lia.
Qed.

Lemma part_start_all length partitions :
  (0 < partitions)%nat -> part_start length partitions partitions = length.
Proof.
  intros Hp. unfold part_start.
  pose proof (Nat.div_mod_eq length partitions).
  pose proof (Nat.mod_upper_bound length partitions ltac:(lia)). lia.
Qed.

Lemma part_start_mono length partitions j k :
  (j <= k)%nat -> (part_start length partitions j <= part_start length partitions k)%nat.
Proof.
  intros Hjk. unfold part_start.
  pose proof (Nat.mul_le_mono_r j k (length / partitions) Hjk). lia.
Qed.

Lemma part_end_le length partitions k :
  (k < partitions)%nat -> (part_start length partitions (S k) <= length)%nat.
Proof.
  intros Hk. rewrite <- (part_start_all length partitions) at 2 by lia.
  apply part_start_mono. lia.
Qed.

Lemma balanced_ranges_from length partitions start n :
  map_accum
    (fun start partition =>
       let part_length :=
         (length / partitions + Nat.b2n (partition <? length mod partitions))%nat in
       ((start + part_length)%nat, (start, start + part_length)%nat))
    (part_start length partitions start) (seq start n)
  = map (fun k => (part_start length partitions k, part_start length partitions (S k)))
      (seq start n).
Proof.
  revert start. induction n as [|n IH]; intros start; cbn [seq map map_accum]; [done|].
  rewrite <- part_start_S. f_equal. apply IH.
Qed.

Lemma balanced_ranges_Ok {E} length partitions :
  (0 < partitions)%nat ->
  balanced_ranges (E:=E) length partitions =
    Ok (map (fun k => (part_start length partitions k, part_start length partitions (S k)))
          (seq 0 partitions)).
Proof.
  intros Hp. unfold balanced_ranges. rewrite (proj2 (Nat.eqb_neq _ _)) by lia.
  f_equal. apply (balanced_ranges_from length partitions 0).
Qed.

(** Two different parts of a split do not overlap. *)
Lemma part_disjoint length partitions j k :
  (j <> k)%nat ->
  (part_start length partitions (S j) <= part_start length partitions k
   \/ part_start length partitions (S k) <= part_start length partitions j)%nat.
Proof.
  intros Hne. destruct (decide (j < k)%nat).
  - left. apply part_start_mono. lia.
  - right. apply part_start_mono. lia.
Qed.

(** Every index belongs to some part. *)
Lemma part_find length partitions i :
  (0 < partitions)%nat -> (i < length)%nat ->
  exists k, (k < partitions)%nat /\
    (part_start length partitions k <= i < part_start length partitions (S k))%nat.
Proof.
  intros Hp Hi.
  assert (Hex : forall n, (i < part_start length partitions n)%nat ->
    exists k, (k < n)%nat /\
      (part_start length partitions k <= i < part_start length partitions (S k))%nat).
  { induction n as [|n IH]; [rewrite part_start_0; lia|]. intros Hn.
    destruct (decide (i < part_start length partitions n)%nat) as [Hlt|Hge].
    - destruct (IH Hlt) as (k & ? & ?). exists k. split; [lia|done].
    - exists n. lia. }
  apply Hex. by rewrite part_start_all.
Qed.

End balanced.

Section layout_theorems.
Context {E : Type}.

(** The balanced split is a partition: it returns one range per part, in
    order and without gaps, every index of the buffer lies in exactly one of
    them, and the lengths differ by at most one, longer parts first. *)
Theorem balanced_ranges_partition (length partitions : nat) :
  (0 < partitions)%nat ->
  exists ranges,
    balanced_ranges (E:=E) length partitions = Ok ranges /\
    List.length ranges = partitions /\
    (forall i, (i < length)%nat -> exists k, (exists r, ranges !! k = Some r /\ (r.1 <= i < r.2)%nat)
       /\ forall k' r', ranges !! k' = Some r' -> (r'.1 <= i < r'.2)%nat -> k' = k) /\
    (forall k r, ranges !! k = Some r -> (r.1 <= r.2 <= length)%nat /\
       range_len r = (length / partitions + Nat.b2n (k <? length mod partitions))%nat) /\
    (forall k r r', ranges !! k = Some r -> ranges !! S k = Some r' -> r'.1 = r.2).
Proof.
  intros Hp. rewrite balanced_ranges_Ok by done. eexists. split; [reflexivity|].
  assert (Hlk : forall k r,
    map (fun k => (part_start length partitions k, part_start length partitions (S k)))
      (seq 0 partitions) !! k = Some r ->
    (k < partitions)%nat /\ r = (part_start length partitions k, part_start length partitions (S k))).
  { intros k r Hk. rewrite list_lookup_fmap in Hk.
    apply fmap_Some in Hk as (x & [-> ?]%lookup_seq & ->). done. }
  split; [by rewrite length_map, length_seq|]. split_and!.
  - intros i Hi. destruct (part_find length partitions i Hp Hi) as (k & Hk & Hin).
    exists k. split.
    + exists (part_start length partitions k, part_start length partitions (S k)).
      split; [|exact Hin].
      rewrite list_lookup_fmap, lookup_seq_lt by done. done.
    + intros k' r' [Hk' ->]%Hlk Hin'. cbn in Hin'.
      destruct (decide (k' = k)) as [|Hne]; [done|].
      pose proof (part_disjoint length partitions k' k Hne). lia.
  - intros k r [Hk ->]%Hlk. cbn [fst snd].
    pose proof (part_start_S length partitions k). pose proof (part_end_le length partitions k Hk).
    unfold range_len; cbn [fst snd]. split; lia.
  - by intros k r r' [_ ->]%Hlk [_ ->]%Hlk.
Qed.

End layout_theorems.

(** ** Prefix offsets *)
Lemma prefix_offsets_from_Ok total counts offsets :
  Forall (fun c => 0 <= c) counts -> 0 <= total ->
  prefix_offsets_from total counts = Ok offsets <->
    (counts = [] \/ total + sum_Z counts < 2 ^ 64) /\
    offsets = map (fun k => total + sum_Z (take k counts)) (seq 0 (length counts)).
Proof.
  revert total offsets. induction counts as [|c counts IH]; intros total offsets Hc Ht; cbn.
  { naive_solver. }
  apply Forall_cons in Hc as [Hc Hcs]. pose proof (sum_Z_nonneg _ Hcs) as Hnn.
  unfold checked_add. unfold sum_Z in *. cbn [foldr]. split.
  - intros Hok. inv_ok.
    match goal with H : checked _ _ = Some _ |- _ => apply checked_Some in H as [-> [? Hlt]] end.
    match goal with H : prefix_offsets_from _ _ = _ |- _ => apply IH in H as [Hs ->] end; [|done|lia].
    split; [right; destruct Hs as [->|]; cbn; lia|].
    rewrite Z.add_0_r. f_equal. rewrite <- seq_shift, map_map. apply map_ext.
    intros k. cbn. lia.
  - intros [[|Hlt] ->]; [done|]. rewrite checked_in by (unfold in_width; lia).
    cbn [ok_or mbind outcome_bind].
    assert (Hrest : prefix_offsets_from (total + c) counts =
      Ok (map (fun k => total + c + foldr Z.add 0 (take k counts)) (seq 0 (length counts)))).
    { apply IH; [done|lia|]. split; [right; lia|done]. }
    rewrite Hrest. cbn. f_equal. rewrite Z.add_0_r. f_equal.
    rewrite <- seq_shift, map_map. apply map_ext. intros k. cbn. lia.
Qed.

(** [prefix_offsets] succeeds exactly when the counts sum to a [usize], and
    then offset [k] is the sum of the counts before [k]. *)
Theorem prefix_offsets_spec counts offsets :
  Forall (fun c => 0 <= c) counts ->
  prefix_offsets counts = Ok offsets <->
    sum_Z counts < 2 ^ 64 /\
    offsets = map (fun k => sum_Z (take k counts)) (seq 0 (length counts)).
Proof.
  intros Hc. unfold prefix_offsets. rewrite prefix_offsets_from_Ok by (done || lia).
  split; intros [Hs ->]; (split; [|done]).
  - by destruct Hs as [->|].
  - by right.
Qed.

(** ** Witnesses *)
Section witnesses.

Lemma balanced_ranges_partition_witness :
  exists ranges, balanced_ranges (E:=RankError) 10 4 = Ok ranges /\ List.length ranges = 4%nat.
Proof.
  destruct (balanced_ranges_partition (E:=RankError) 10 4 ltac:(lia)) as (ranges & Hr & Hl & _).
  exists ranges. split; [exact Hr|exact Hl].
Defined.

Lemma prefix_offsets_spec_witness : prefix_offsets [3; 0; 2] = Ok [0; 3; 3].
Proof.
  apply (prefix_offsets_spec [3; 0; 2] [0; 3; 3]); [repeat constructor; lia|].
  split; reflexivity.
Defined.

End witnesses.
