(* ===== verification/Tags.v ===== *)
(** * Message tags: src/src/rank/tags.rs

    Tags keep the messages of concurrent collectives apart.  Ring data tags
    are bit fields under a 16-bit prefix, hierarchy data tags and topology
    probe tags (src/src/rank/network.rs) are FNV-1a hashes under prefixes of
    their own, and agreement tags are plain FNV-1a hashes. *)
From S2P Require Import Prelude.

(** ** FNV-1a *)
Definition FNV_OFFSET : Z := 0xcbf29ce484222325.
Definition FNV_PRIME : Z := 0x00000100000001b3.

(** [hash ^= u64::from(byte); hash = hash.wrapping_mul(FNV_PRIME)] *)
Definition fnv_step (hash byte : Z) : Z := wrap 64 (Z.lxor hash byte * FNV_PRIME).
Definition fnv (hash : Z) (bytes : list Z) : Z := foldl fnv_step hash bytes.

(** ** Tags *)
Definition INTERNAL_RING_TAG_PREFIX : Z := 0x4758000000000000.
Definition INTERNAL_HIERARCHY_TAG_PREFIX : Z := 0x4759000000000000.
Definition TOPOLOGY_PROBE_TAG_PREFIX : Z := 0x475a000000000000.

(** [ExchangeOptions] of src/src/rank/network.rs *)
Record ExchangeOptions := mkExchangeOptions {
  eo_root_rank : Z;
  eo_element_count : Z;
  eo_flags : Z;
  eo_tag : Z;
}.

Definition reduction_exchange_options (root_rank element_count operation : Z)
    : ExchangeOptions :=
  mkExchangeOptions root_rank element_count 0 (operation + 1).

(** The bytes of one ring or group: its length and its ranks. *)
Definition ring_bytes (ring : list Z) : list Z :=
  to_le 8 (Zlen ring) ++ concat (map (to_le 4) ring).

Definition ring_agreement_tag (operation length : Z) (rings : list (list Z))
    (discriminator channels : Z) (channel_rails : list Z) : Z :=
  let hash := fnv FNV_OFFSET
    (to_le 8 operation ++ to_le 8 length ++ to_le 4 discriminator ++ to_le 8 channels) in
  let hash := foldl (fun hash ring => fnv hash (ring_bytes ring)) hash rings in
  foldl (fun hash rail => fnv hash (to_le 8 rail)) hash channel_rails.

Definition ring_data_tag (operation phase channel step : Z) : Z :=
  Z.lor (Z.lor (Z.lor (Z.lor INTERNAL_RING_TAG_PREFIX
    (Z.shiftl (Z.land operation 0x00ffffff) 24))
    (Z.shiftl (Z.land phase 0x0f) 20))
    (Z.shiftl (Z.land channel 0xff) 12))
    (Z.land step 0x0fff).

Definition hierarchy_agreement_tag (operation length : Z) (groups : list (list Z))
    (discriminator ring_channels : Z) (channel_rails : list Z) : Z :=
  let hash := fnv FNV_OFFSET
    (to_le 8 operation ++ to_le 8 length ++ to_le 4 discriminator ++ to_le 8 ring_channels) in
  let hash := foldl (fun hash group => fnv hash (ring_bytes group)) hash groups in
  foldl (fun hash rail => fnv hash (to_le 8 rail)) hash channel_rails.

Definition hierarchy_data_tag (operation phase index : Z) : Z :=
  let hash := fnv FNV_OFFSET (to_le 8 operation ++ to_le 4 phase ++ to_le 4 index) in
  Z.lor INTERNAL_HIERARCHY_TAG_PREFIX (Z.land hash 0x0000ffffffffffff).

Definition hierarchy_ring_data_tag (operation phase channel step : Z) : Z :=
  let hash := fnv FNV_OFFSET
    (to_le 8 operation ++ to_le 4 phase ++ to_le 8 channel ++ to_le 8 step) in
  Z.lor INTERNAL_HIERARCHY_TAG_PREFIX (Z.land hash 0x0000ffffffffffff).

Definition topology_probe_tag (first_rank second_rank rail direction kind : Z) : Z :=
  let hash := fnv FNV_OFFSET
    (to_le 4 first_rank ++ to_le 4 second_rank ++ to_le 8 rail ++ to_le 8 direction
     ++ to_le 8 kind) in
  Z.lor TOPOLOGY_PROBE_TAG_PREFIX (Z.land hash 0x0000ffffffffffff).

(** ** Bit fields as sums *)
Section fields.

Lemma lor_shiftl_add a b k :
  0 <= k -> 0 <= b < 2 ^ k -> Z.lor (a * 2 ^ k) b = a * 2 ^ k + b.
Proof.
  intros Hk Hb.
  assert (Hz : Z.land (a * 2 ^ k) b = 0).
  { apply Z.bits_inj_iff'. intros i Hi. rewrite Z.land_spec, Z.bits_0.
    destruct (decide (i < k)).
    - by rewrite Z.mul_pow2_bits_low by lia.
    - replace (Z.testbit b i) with false; [by rewrite andb_false_r|].
      destruct (decide (b = 0)) as [->|]; [by rewrite Z.bits_0|].
      symmetry. apply Z.bits_above_log2; [lia|]. apply Z.log2_lt_pow2; [lia|].
      eapply Z.lt_le_trans; [apply Hb|]. apply Z.pow_le_mono_r; lia. }
  rewrite Z.add_nocarry_lxor, Z.lxor_lor by done. done.
Qed.

Lemma lor_field a b k w :
  0 <= k -> 0 <= w -> 0 <= b < 2 ^ w ->
  Z.lor (a * 2 ^ (k + w)) (Z.shiftl b k) = (a * 2 ^ w + b) * 2 ^ k.
Proof.
  intros Hk Hw Hb. rewrite Z.shiftl_mul_pow2 by done.
  pose proof (Z.pow_pos_nonneg 2 k ltac:(lia) Hk).
  rewrite lor_shiftl_add; rewrite ?Z.pow_add_r by lia; nia.
Qed.

Lemma ring_data_tag_sum operation phase channel step :
  ring_data_tag operation phase channel step =
    0x4758 * 2 ^ 48 + (operation mod 2 ^ 24) * 2 ^ 24 + (phase mod 2 ^ 4) * 2 ^ 20
    + (channel mod 2 ^ 8) * 2 ^ 12 + step mod 2 ^ 12.
Proof.
  unfold ring_data_tag. change INTERNAL_RING_TAG_PREFIX with (0x4758 * 2 ^ (24 + 24)).
  change 0x00ffffff with (Z.ones 24). change 0x0f with (Z.ones 4).
  change 0xff with (Z.ones 8). change 0x0fff with (Z.ones 12).
  rewrite !Z.land_ones by lia.
  rewrite (lor_field _ _ 24 24) by (first [lia | apply Z.mod_pos_bound; lia]).
  rewrite (lor_field _ _ 20 4) by (first [lia | apply Z.mod_pos_bound; lia]).
  rewrite (lor_field _ _ 12 8) by (first [lia | apply Z.mod_pos_bound; lia]).
  rewrite lor_shiftl_add by (first [lia | apply Z.mod_pos_bound; lia]). lia.
Qed.

(** A hashed tag carries its 16-bit prefix and is a [u64]. *)
Lemma hashed_tag p hash :
  0 <= p < 2 ^ 16 ->
  let tag := Z.lor (p * 2 ^ 48) (Z.land hash 0x0000ffffffffffff) in
  Z.shiftr tag 48 = p /\ in_width 64 tag.
Proof.
  intros Hp. cbv zeta. change 0x0000ffffffffffff with (Z.ones 48). rewrite Z.land_ones by lia.
  pose proof (Z.mod_pos_bound hash (2 ^ 48) ltac:(lia)).
  rewrite lor_shiftl_add by lia. rewrite Z.shiftr_div_pow2 by lia. split.
  - rewrite Z.div_add_l, Z.div_small by lia. lia.
  - unfold in_width. lia.
Qed.

End fields.

(** A ring data tag identifies its message up to the widths of its fields:
    two tags are equal exactly when operation, phase, channel and step agree
    modulo 2^24, 2^4, 2^8 and 2^12.  So within those bounds no two messages of
    the ring collectives share a tag, and beyond them (operation number 2^24,
    4096 ring steps) the tags repeat. *)
Theorem ring_data_tag_unique operation phase channel step operation' phase' channel' step' :
  ring_data_tag operation phase channel step = ring_data_tag operation' phase' channel' step' <->
    operation mod 2 ^ 24 = operation' mod 2 ^ 24 /\ phase mod 2 ^ 4 = phase' mod 2 ^ 4 /\
    channel mod 2 ^ 8 = channel' mod 2 ^ 8 /\ step mod 2 ^ 12 = step' mod 2 ^ 12.
Proof.
  rewrite !ring_data_tag_sum. split; [|by intros (-> & -> & -> & ->)].
  intros Heq.
  pose proof (Z.mod_pos_bound operation (2 ^ 24) ltac:(lia)).
  pose proof (Z.mod_pos_bound operation' (2 ^ 24) ltac:(lia)).
  pose proof (Z.mod_pos_bound phase (2 ^ 4) ltac:(lia)).
  pose proof (Z.mod_pos_bound phase' (2 ^ 4) ltac:(lia)).
  pose proof (Z.mod_pos_bound channel (2 ^ 8) ltac:(lia)).
  pose proof (Z.mod_pos_bound channel' (2 ^ 8) ltac:(lia)).
  pose proof (Z.mod_pos_bound step (2 ^ 12) ltac:(lia)).
  pose proof (Z.mod_pos_bound step' (2 ^ 12) ltac:(lia)).
  lia.
Qed.

(** The tag families never meet: every ring data tag, hierarchy tag and
    probe tag is a [u64] whose top 16 bits are the family's own prefix. *)
Theorem tag_families operation phase channel step index first second rail direction kind :
  (Z.shiftr (ring_data_tag operation phase channel step) 48 = 0x4758
   /\ in_width 64 (ring_data_tag operation phase channel step)) /\
  (Z.shiftr (hierarchy_data_tag operation phase index) 48 = 0x4759
   /\ in_width 64 (hierarchy_data_tag operation phase index)) /\
  (Z.shiftr (hierarchy_ring_data_tag operation phase channel step) 48 = 0x4759
   /\ in_width 64 (hierarchy_ring_data_tag operation phase channel step)) /\
  (Z.shiftr (topology_probe_tag first second rail direction kind) 48 = 0x475a
   /\ in_width 64 (topology_probe_tag first second rail direction kind)).
Proof.
  unfold hierarchy_data_tag, hierarchy_ring_data_tag, topology_probe_tag. cbv zeta.
  change INTERNAL_HIERARCHY_TAG_PREFIX with (0x4759 * 2 ^ 48).
  change TOPOLOGY_PROBE_TAG_PREFIX with (0x475a * 2 ^ 48).
  split; [|split; [apply hashed_tag; lia|split; apply hashed_tag; lia]].
  rewrite ring_data_tag_sum.
  pose proof (Z.mod_pos_bound operation (2 ^ 24) ltac:(lia)).
  pose proof (Z.mod_pos_bound phase (2 ^ 4) ltac:(lia)).
  pose proof (Z.mod_pos_bound channel (2 ^ 8) ltac:(lia)).
  pose proof (Z.mod_pos_bound step (2 ^ 12) ltac:(lia)).
  rewrite Z.shiftr_div_pow2 by lia. split; [|unfold in_width; lia].
  symmetry. apply (Z.div_unique_pos _ _ _ ((operation mod 2 ^ 24) * 2 ^ 24
    + (phase mod 2 ^ 4) * 2 ^ 20 + (channel mod 2 ^ 8) * 2 ^ 12 + step mod 2 ^ 12)); lia.
Qed.
