(* ===== verification/Payload.v ===== *)
(** * Host payloads: src/src/rank/payload.rs

    Length checks of reduction payloads, typed decoding, and the counts
    prefix of a variable all-to-all. *)
From S2P Require Import Prelude Protocol Errors.

(** ** Definitions *)
Definition validate_host_reduction_payload (et : ElementType) (element_count : Z)
    (payload : list Z) : rresult Z :=
  let element_bytes := byte_width et in
  _ ← fail_if (element_bytes =? 0)
        (RankError.InvalidLength "host reduction requires a tensor element type");
  expected ← ok_or (checked_mul usize_bits element_count element_bytes)
               (RankError.Overflow "host reduction payload bytes");
  _ ← fail_if (negb (Zlen payload =? expected))
        (RankError.Network (InvalidConfiguration "host reduction payload has {} bytes, expected {expected}"));
  Ok expected.

Definition validate_host_reduction_response (payload : list Z) (expected : Z) : rresult unit :=
  fail_if (negb (Zlen payload =? expected))
    (RankError.Network (InvalidConfiguration "host {operation} response has {} bytes, expected {expected}")).

(** The error type [E: From<RankError>] is the parameter [from]. *)
Definition decode_exact {T E} (from : RankError -> E) (payload : list Z)
    (expected_elements element_bytes : Z) (decode : list Z -> outcome E (list T))
    : outcome E (list T) :=
  expected_bytes ← ok_or (checked_mul usize_bits expected_elements element_bytes)
                     (from (RankError.Overflow "TCP decoded payload bytes"));
  _ ← fail_if (negb (Zlen payload =? expected_bytes))
        (from (RankError.Network
          (InvalidConfiguration "TCP response has {} bytes, expected {expected_bytes}")));
  decode payload.

Definition encode_counts (counts : list Z) : rresult (list Z) :=
  words ← mapM (fun count => ok_or (checked 64 count) (RankError.Overflow "TCP all-to-all-v count"))
            counts;
  Ok (concat (map (to_le 8) words)).

Definition decode_counts_response (response : Frame) (world : Z) (element_bytes : Z)
    : rresult (list Z * list Z) :=
  _ ← fail_if (Z.land response.(header).(flags) FLAG_COUNTS_PREFIX =? 0)
        (RankError.Network (InvalidConfiguration "TCP all-to-all-v response is missing counts"));
  prefix_bytes ← ok_or (checked_mul usize_bits world 8)
                   (RankError.Overflow "TCP all-to-all-v counts prefix");
  _ ← fail_if (Zlen response.(payload) <? prefix_bytes)
        (RankError.Network (InvalidConfiguration "TCP all-to-all-v counts prefix is truncated"));
  prefix ← slice_range response.(payload) 0 (Z.to_nat prefix_bytes);
  counts ← mapM (fun bytes => ok_or (usize_try_from_u64 (of_le bytes))
                                (RankError.Overflow "TCP all-to-all-v receive count"))
             (chunks_exact 8 prefix);
  total ← ok_or (try_sum counts) (RankError.Overflow "TCP all-to-all-v receive count");
  _ ← fail_if (negb (total =? response.(header).(element_count)))
        (RankError.Network
          (InvalidConfiguration "TCP all-to-all-v counts sum to {total}, header declares {}"));
  data ← slice_range response.(payload) (Z.to_nat prefix_bytes) (length response.(payload));
  expected ← ok_or (checked_mul usize_bits total element_bytes)
               (RankError.Overflow "TCP all-to-all-v data");
  _ ← fail_if (negb (Zlen data =? expected))
        (RankError.Network
          (InvalidConfiguration "TCP all-to-all-v data has {} bytes, expected {expected}"));
  Ok (counts, data).

(** ** Counts as words *)
Definition count_words (counts : list Z) : list Z := concat (map (to_le 8) counts).

Section count_words.

Lemma length_count_words counts : length (count_words counts) = (8 * length counts)%nat.
Proof.
  unfold count_words. induction counts as [|c counts IH]; [done|].
  cbn [map concat]. rewrite length_app, length_to_le, IH. cbn. lia.
Qed.

Lemma count_words_bytes counts : Forall is_byte (count_words counts).
Proof.
  unfold count_words. induction counts as [|c counts IH]; cbn [map concat]; [constructor|].
  apply Forall_app. split; [apply to_le_bytes|done].
Qed.

Lemma chunks_count_words counts : chunks_exact 8 (count_words counts) = map (to_le 8) counts.
Proof.
  apply chunks_exact_concat; [lia|]. apply Forall_map, Forall_true.
  intros c. apply length_to_le.
Qed.

Lemma mapM_checked {E A} (f : A -> Z) (e : E) (l : list A) :
  Forall (fun x => in_width 64 (f x)) l ->
  mapM (fun x => ok_or (checked 64 (f x)) e) l = Ok (map f l).
Proof.
  intros Hl. apply mapM_Ok. induction Hl; cbn; constructor; [|done].
  by rewrite checked_in.
Qed.

Lemma encode_counts_Ok counts :
  Forall (in_width 64) counts -> encode_counts counts = Ok (count_words counts).
Proof.
  intros Hc. unfold encode_counts.
  rewrite (mapM_checked (fun c => c)) by done. cbn. by rewrite map_id.
Qed.

Lemma of_to_words counts :
  Forall (in_width 64) counts -> map of_le (map (to_le 8) counts) = counts.
Proof.
  intros Hc. rewrite map_map. induction Hc as [|c counts Hc _ IH]; cbn [map]; [done|].
  by rewrite IH, of_to_le_id.
Qed.

(** A byte string of whole words is the encoding of the words it decodes to. *)
Lemma count_words_of_bytes bytes :
  Forall is_byte bytes -> (length bytes mod 8 = 0)%nat ->
  count_words (map of_le (chunks_exact 8 bytes)) = bytes
  /\ Forall (in_width 64) (map of_le (chunks_exact 8 bytes)).
Proof.
  intros Hb Hm.
  assert (Hchunk : forall c, c ∈ chunks_exact 8 bytes -> Forall is_byte c /\ length c = 8%nat).
  { intros c Hc. split; [|by eapply length_chunk].
    unfold chunks_exact in Hc. apply list_elem_of_fmap in Hc as (i & -> & _). by apply Forall_sub. }
  split.
  - unfold count_words. rewrite map_map.
    rewrite <- (concat_chunks_exact 8 bytes) at 2 by (done || lia). f_equal.
    rewrite <- (map_id (chunks_exact 8 bytes)) at 2. apply map_ext_in.
    intros c Hc%list_elem_of_In. destruct (Hchunk c Hc) as [Hcb Hcl].
    pose proof (to_of_le c Hcb) as Heq. by rewrite Hcl in Heq.
  - apply Forall_map, Forall_forall. intros c Hc.
    destruct (Hchunk c Hc) as [Hcb Hcl].
    pose proof (of_le_range c Hcb) as Hr. unfold Zlen in Hr. rewrite Hcl in Hr.
    exact Hr.
Qed.

End count_words.

(** A response with [counts] in front of [data]. *)
Definition counts_frame (f : Frame) (counts data : list Z) : Prop :=
  f.(payload) = count_words counts ++ data /\ Forall (in_width 64) counts.

Lemma decode_counts_response_iff (f : Frame) (world : nat) element_bytes counts data :
  frame_typed f -> 0 <= element_bytes -> 8 * Z.of_nat world < 2 ^ 64 ->
  decode_counts_response f (Z.of_nat world) element_bytes = Ok (counts, data) <->
    Z.testbit f.(header).(flags) 1 = true /\
    counts_frame f counts data /\ length counts = world /\
    sum_Z counts = f.(header).(element_count) /\
    Zlen data = sum_Z counts * element_bytes /\ sum_Z counts * element_bytes < 2 ^ 64.
Proof.
  intros Hf He Hworld. unfold decode_counts_response, counts_frame.
  unfold FLAG_COUNTS_PREFIX. rewrite land_bit by lia.
  assert (Hpre : checked_mul usize_bits (Z.of_nat world) 8 = Some (Z.of_nat world * 8))
    by (apply checked_in; unfold in_width; lia).
  rewrite Hpre.
  cbn [ok_or mbind outcome_bind].
  replace (Z.to_nat (Z.of_nat world * 8)) with (8 * world)%nat by lia.
  unfold usize_try_from_u64. split.
  - intros Hok. inv_ok.
    match goal with H : (Zlen _ <? _) = false |- _ => apply Z.ltb_ge in H; rename H into Hlen end.
    repeat match goal with
    | H : slice_range _ _ _ = Ok _ |- _ => apply slice_range_inv in H as [_ ->]
    | H : negb _ = false |- _ => apply negb_false_iff in H
    | H : (_ =? _) = true |- _ => apply Z.eqb_eq in H
    end.
    rewrite Nat.sub_0_r, drop_0 in *. unfold Zlen in Hlen.
    set (prefix := take (8 * world) (payload f)) in *.
    assert (Hpl : length prefix = (8 * world)%nat) by (unfold prefix; rewrite length_take; lia).
    destruct (count_words_of_bytes prefix) as [Hwords Hin];
      [by apply Forall_take, Hf|by rewrite Hpl, Nat.mul_comm, Nat.Div0.mod_mul|].
    pose proof (proj1 (Forall_map _ _ _) Hin) as Hin'.
    match goal with H : mapM _ _ = Ok _ |- _ =>
      rewrite (mapM_checked of_le _ _ Hin') in H; injection H as <- end.
    match goal with H : try_sum _ = Some _ |- _ => apply try_sum_spec in H as [-> Hs] end.
    2: { eapply Forall_impl; [exact Hin|]. unfold in_width. lia. }
    match goal with H : checked_mul _ _ _ = Some _ |- _ =>
      apply checked_Some in H as [-> [_ Hm]] end.
    rewrite take_ge in * by (rewrite length_drop; lia).
    split_and!; try done.
    + rewrite Hwords. symmetry. apply take_drop.
    + unfold chunks_exact. rewrite !length_map, length_seq, Hpl, Nat.mul_comm.
      by rewrite Nat.div_mul.
  - intros (Hflag & [Hp Hc] & Hlen & Hsum & Hdl & Hlt).
    rewrite Hflag, Hp. cbn [negb fail_if mbind outcome_bind].
    assert (Hwl : length (count_words counts) = (8 * world)%nat)
      by (rewrite length_count_words; lia).
    unfold Zlen in *. rewrite length_app, Hwl.
    rewrite (proj2 (Z.ltb_ge _ _)) by lia. cbn [fail_if mbind outcome_bind].
    rewrite (slice_range_Ok _ 0) by (rewrite length_app; lia).
    rewrite Nat.sub_0_r, drop_0, take_app_length' by done. cbn [mbind outcome_bind].
    rewrite chunks_count_words, (mapM_checked of_le), of_to_words by
      (first [done | apply Forall_map; eapply Forall_impl; [exact Hc|];
              intros c Hci; cbv beta; by rewrite of_to_le_id]).
    cbn [mbind outcome_bind].
    assert (Hnn : Forall (fun x => 0 <= x) counts)
      by (eapply Forall_impl; [exact Hc|]; unfold in_width; lia).
    assert (Hs : try_sum counts = Some (sum_Z counts)).
    { apply try_sum_spec; [done|]. split; [done|].
      rewrite Hsum. apply (element_count_u64 _ (frame_header_typed _ Hf)). }
    rewrite Hs. cbn [ok_or mbind outcome_bind]. rewrite Hsum, Z.eqb_refl. cbn [negb fail_if ok_or mbind outcome_bind].
    rewrite slice_range_Ok by (rewrite length_app; lia).
    rewrite drop_app_length' by done. rewrite take_ge by lia.
    cbn [mbind outcome_bind]. rewrite <- Hsum. unfold checked_mul.
    rewrite checked_in by (pose proof (sum_Z_nonneg _ Hnn); unfold in_width; nia).
    cbn [ok_or mbind outcome_bind]. by rewrite Hdl, Z.eqb_refl.
Qed.

(** The counts prefix is parsed exactly: a response decodes to [counts] and
    [data] if and only if it is flagged, its payload is the little-endian words
    of one count per rank followed by the data, the counts sum to the declared
    element count, and the data has that many elements.  (The world size is
    small enough for its prefix to be a [usize].) *)
Theorem decode_counts_response_spec (f : Frame) (world : nat) element_bytes counts data :
  frame_typed f -> 0 <= element_bytes -> 8 * Z.of_nat world < 2 ^ 64 ->
  decode_counts_response f (Z.of_nat world) element_bytes = Ok (counts, data) <->
    Z.testbit f.(header).(flags) 1 = true /\
    counts_frame f counts data /\ length counts = world /\
    sum_Z counts = f.(header).(element_count) /\
    Zlen data = sum_Z counts * element_bytes /\ sum_Z counts * element_bytes < 2 ^ 64.
Proof. apply decode_counts_response_iff. Qed.

(** ** Witness: two ranks, one and two elements *)
Section witnesses.
Import Crc32Ieee.

Definition counts_payload : list Z := count_words [1; 2] ++ [9; 8; 7].
Definition counts_header : FrameHeader :=
  set_flags (collective (replicate 16 7) Opcode.AllToAllV ElementType.U8 0 ANY_RANK 2 0 3) 2.
Definition counts_example : Frame := mkFrame (sealed counts_header counts_payload) counts_payload.

Lemma counts_example_typed : frame_typed counts_example.
Proof.
  assert (Hh : header_typed counts_header).
  { split; unfold in_width; first [done | cbn; lia | repeat constructor; cbn; lia]. }
  assert (Hn : frame_new counts_header counts_payload = Ok counts_example)
    by (vm_compute; reflexivity).
  apply (frame_new_inv _ _ _ Hh) in Hn as (_ & Ht & _).
  split; [exact Ht|]. apply Forall_app. split; [apply count_words_bytes|].
  repeat constructor; cbn; lia.
Qed.

Lemma decode_counts_response_spec_witness :
  Z.testbit counts_example.(header).(flags) 1 = true /\
  counts_frame counts_example [1; 2] [9; 8; 7] /\ length [1; 2] = 2%nat.
Proof.
  pose proof (decode_counts_response_spec counts_example 2 1 [1; 2] [9; 8; 7]
    counts_example_typed ltac:(lia) ltac:(lia)) as [H _].
  destruct H as (? & ? & ? & _); [vm_compute; reflexivity|]. done.
Defined.

End witnesses.
