(* ===== verification/Router.v ===== *)
(** * The collective coordinator: request routing of src/src/rank/network.rs

    Once every rank has submitted a request for the current sequence number,
    the coordinator checks that the requests agree and computes one response
    per rank.  [validate_and_route] and the functions it calls are translated
    whole; it returns the agreement state that the [&mut] argument is left
    with, beside its result. *)
From S2P Require Import Prelude Protocol Agreement Errors Payload.

Section definitions.
Context `{Crc32Hash}.

(** ** Response frames *)
Definition response_header (uid : list Z) (op : Opcode) (et : ElementType) (seq : Z)
    (destination world : nat) (count : Z) : FrameHeader :=
  set_destination_rank
    (collective uid op et 0 ANY_RANK (wrap 32 (Z.of_nat world)) seq count)
    (wrap 32 (Z.of_nat destination)).

Definition data_response (requests : list Frame) (uid : list Z) (seq : Z) (op : Opcode)
    (et : ElementType) (destination : nat) (count : Z) (payload : list Z) : nresult Frame :=
  lift_protocol
    (frame_new (response_header uid op et seq destination (length requests) count) payload).

Definition control_frame (uid : list Z) (op : Opcode) (seq destination world : Z)
    : nresult Frame :=
  lift_protocol
    (frame_new
       (set_destination_rank (collective uid op ElementType.None 0 ANY_RANK world seq 0)
          destination) []).

Definition abort_frame (uid : list Z) (seq destination world : Z) (message : list Z)
    : nresult Frame :=
  lift_protocol
    (frame_new
       (set_destination_rank
          (collective uid Opcode.Abort ElementType.U8 0 ANY_RANK world seq (Zlen message))
          destination) message).

(** ** Checks on the requests *)
Definition required_root (root : option nat) (world : nat) : nresult nat :=
  match root with
  | Some root =>
      if (root <? world)%nat then Ok root
      else Err (InvalidConfiguration "rooted collective requires a valid root rank")
  | None => Err (InvalidConfiguration "rooted collective requires a valid root rank")
  end.

Definition require_all_payloads (requests : list Frame) (bytes : Z) : nresult unit :=
  fail_if (existsb (fun request => negb (Zlen request.(payload) =? bytes)) requests)
    (InvalidConfiguration "rank {rank} payload has {actual} bytes, expected {bytes}").

Definition require_only_root_payload (requests : list Frame) (root : nat) (bytes : Z)
    : nresult unit :=
  foldM (fun _ '(rank, request) =>
           let expected := if (rank =? root)%nat then bytes else 0 in
           fail_if (negb (Zlen request.(payload) =? expected))
             (InvalidConfiguration "rank {rank} payload has {} bytes, expected {expected}"))
    tt (imap pair requests).

Definition concatenate_payloads (requests : list Frame) : nresult (list Z) :=
  _ ← ok_or (try_sum (map (fun request => Zlen request.(payload)) requests))
        (InvalidConfiguration "response payload overflow");
  Ok (concat (map payload requests)).

(** ** One response per rank *)
Definition route_empty (requests : list Frame) (uid : list Z) (sequence : Z) (op : Opcode)
    : nresult (list Frame) :=
  _ ← fail_if (existsb (fun request => negb (bool_decide (request.(payload) = []))) requests)
        (InvalidConfiguration "{opcode:?} cannot carry a payload");
  mapM (fun rank =>
          lift_protocol
            (frame_new (response_header uid op ElementType.None sequence rank
                          (length requests) 0) []))
    (seq 0 (length requests)).

Definition route_same_payload (requests : list Frame) (uid : list Z) (sequence : Z)
    (op : Opcode) (et : ElementType) (count : Z) (payload : list Z) : nresult (list Frame) :=
  mapM (fun rank => data_response requests uid sequence op et rank count payload)
    (seq 0 (length requests)).

Definition route_root_payload (requests : list Frame) (uid : list Z) (sequence : Z)
    (op : Opcode) (et : ElementType) (root : nat) (count : Z) (payload : list Z)
    : nresult (list Frame) :=
  mapM (fun rank =>
          if (rank =? root)%nat then
            data_response requests uid sequence op et rank count payload
          else
            lift_protocol
              (frame_new (response_header uid op ElementType.None sequence rank
                            (length requests) 0) []))
    (seq 0 (length requests)).

(** [start = index * shard_bytes; &payload[start..start + shard_bytes]] *)
Definition shard (payload : list Z) (index : nat) (shard_bytes : Z) : nresult (list Z) :=
  start ← arith usize_bits (Z.of_nat index * shard_bytes);
  stop ← arith usize_bits (start + shard_bytes);
  slice_range payload (Z.to_nat start) (Z.to_nat stop).

(** The shard of every request that is meant for one destination, appended in
    rank order. *)
Definition gather_shards (requests : list Frame) (destination : nat) (shard_bytes : Z)
    : nresult (list Z) :=
  foldM (fun acc request =>
           s ← shard request.(payload) destination shard_bytes;
           Ok (acc ++ s))
    [] requests.

Definition decode_counts_payload (frame : Frame) (world : Z) (element_bytes : Z)
    : nresult (list Z * list Z) :=
  _ ← fail_if (Z.land frame.(header).(flags) FLAG_COUNTS_PREFIX =? 0)
        (InvalidConfiguration "all-to-all-v frame is missing its counts prefix");
  prefix_bytes ← ok_or (checked_mul usize_bits world 8)
                   (InvalidConfiguration "all-to-all-v prefix size overflow");
  _ ← fail_if (Zlen frame.(payload) <? prefix_bytes)
        (InvalidConfiguration "all-to-all-v counts prefix is truncated");
  prefix ← slice_range frame.(payload) 0 (Z.to_nat prefix_bytes);
  counts ← mapM (fun bytes => ok_or (usize_try_from_u64 (of_le bytes))
                                (InvalidConfiguration "all-to-all-v count exceeds host usize"))
             (chunks_exact 8 prefix);
  total ← ok_or (try_sum counts) (InvalidConfiguration "all-to-all-v count sum overflow");
  _ ← fail_if (negb (total =? frame.(header).(element_count)))
        (InvalidConfiguration "all-to-all-v counts sum to {total}, header declares {}");
  expected_data ← ok_or (checked_mul usize_bits total element_bytes)
                    (InvalidConfiguration "all-to-all-v data size overflow");
  data ← slice_range frame.(payload) (Z.to_nat prefix_bytes) (length frame.(payload));
  _ ← fail_if (negb (Zlen data =? expected_data))
        (InvalidConfiguration "all-to-all-v data has {} bytes, expected {expected_data}");
  Ok (counts, data).

(** [encode_counts] of network.rs *)
Definition encode_counts_network (counts : list Z) : nresult (list Z) :=
  words ← mapM (fun count => ok_or (checked 64 count)
                               (InvalidConfiguration "all-to-all-v count exceeds protocol u64"))
            counts;
  Ok (concat (map (to_le 8) words)).

(** One source row's data for a destination. *)
Definition row_shard (row : list Z * list Z) (destination : nat) (element_bytes : Z)
    : nresult (list Z) :=
  let '(counts, data) := row in
  before ← slice_range counts 0 destination;
  start_elements ← ok_or (try_sum before)
                     (InvalidConfiguration "all-to-all-v source offset overflow");
  start ← ok_or (checked_mul usize_bits start_elements element_bytes)
            (InvalidConfiguration "all-to-all-v byte offset overflow");
  count ← index counts destination;
  bytes ← ok_or (checked_mul usize_bits count element_bytes)
            (InvalidConfiguration "all-to-all-v shard size overflow");
  stop ← arith usize_bits (start + bytes);
  slice_range data (Z.to_nat start) (Z.to_nat stop).

Definition route_all_to_all_v (requests : list Frame) (uid : list Z) (sequence : Z)
    (et : ElementType) (element_bytes : Z) : nresult (list Frame) :=
  _ ← fail_if (bool_decide (et = ElementType.None) || (element_bytes =? 0))
        (InvalidConfiguration "all-to-all-v requires a concrete element type");
  let world := length requests in
  rows ← mapM (fun request => decode_counts_payload request (Z.of_nat world) element_bytes)
           requests;
  mapM (fun destination =>
    receive_counts ← mapM (fun row => index row.1 destination) rows;
    receive_total ← ok_or (try_sum receive_counts)
                      (InvalidConfiguration "all-to-all-v receive count overflow");
    prefix ← encode_counts_network receive_counts;
    _ ← ok_or (checked_mul usize_bits receive_total element_bytes)
          (InvalidConfiguration "all-to-all-v response size overflow");
    payload ← foldM (fun acc row =>
                 s ← row_shard row destination element_bytes;
                 Ok (acc ++ s)) prefix rows;
    let h := response_header uid Opcode.AllToAllV et sequence destination world receive_total in
    lift_protocol (frame_new (set_flags h (Z.lor h.(flags) FLAG_COUNTS_PREFIX)) payload))
    (seq 0 world).

(** The operation that a request asks for; a variable exchange may have
    another count on every rank. *)
Definition request_descriptor (h : FrameHeader) : OperationDescriptor :=
  let variable := bool_decide (h.(opcode) = Opcode.AllToAllV) in
  with_layout_hash
    (descriptor_new h.(opcode) h.(element_type) h.(root_rank)
       (if variable then 0 else h.(element_count)))
    (if variable then 0 else h.(tag)).

(** ** Agreement on the requests

    The loop over the requests: each must belong to the session and to its
    connection, and its descriptor is submitted to the agreement. *)
Fixpoint agree_requests (ag : CollectiveAgreement) (uid : list Z) (sequence : Z)
    (world rank : nat) (requests : list Frame) : CollectiveAgreement * nresult unit :=
  match requests with
  | [] => (ag, Ok tt)
  | request :: requests' =>
      let h := request.(header) in
      if negb (bool_decide (h.(unique_id) = uid)) then (ag, Err NetworkError.WrongSession)
      else if negb (h.(source_rank) =? Z.of_nat rank) || negb (h.(world_size) =? Z.of_nat world)
      then (ag, Err (InvalidConfiguration
              "connection rank {rank} submitted source rank {} and world size {}"))
      else
        match submit ag rank sequence (request_descriptor h) with
        | (ag', Ok _) => agree_requests ag' uid sequence world (S rank) requests'
        | (ag', Err e) => (ag', Err (NetworkError.Protocol e))
        | (ag', Panic) => (ag', Panic)
        end
  end.

(** ** Routing *)
Definition route (uid : list Z) (sequence : Z) (requests : list Frame) : nresult (list Frame) :=
  let world := length requests in
  request0 ← index requests 0;
  let first := request0.(header) in
  let element_bytes := byte_width first.(element_type) in
  count ← ok_or (usize_try_from_u64 first.(element_count))
            (InvalidConfiguration "collective element count exceeds usize");
  rank_payload_bytes ← ok_or (checked_mul usize_bits count element_bytes)
                         (InvalidConfiguration "collective payload size overflow");
  let root := if first.(root_rank) =? ANY_RANK then None
              else Some (Z.to_nat first.(root_rank)) in
  let times_world what :=
    ok_or (checked_mul usize_bits count (Z.of_nat world)) (InvalidConfiguration what) in
  match first.(opcode) with
  | Opcode.Barrier => route_empty requests uid sequence Opcode.Barrier
  | Opcode.SetTimeout =>
      _ ← fail_if (negb (bool_decide (first.(element_type) = ElementType.None))
                   || negb (first.(root_rank) =? ANY_RANK) || (first.(tag) =? 0))
            (InvalidConfiguration
               "SET_TIMEOUT requires an empty control frame and non-zero millisecond tag");
      route_empty requests uid sequence Opcode.SetTimeout
  | Opcode.Broadcast =>
      root ← required_root root world;
      _ ← require_only_root_payload requests root rank_payload_bytes;
      request ← index requests root;
      route_same_payload requests uid sequence first.(opcode) first.(element_type) count
        request.(payload)
  | Opcode.AllGather =>
      _ ← require_all_payloads requests rank_payload_bytes;
      payload ← concatenate_payloads requests;
      total ← times_world "all-gather count overflow";
      route_same_payload requests uid sequence first.(opcode) first.(element_type) total payload
  | Opcode.Gather | Opcode.Reduce =>
      root ← required_root root world;
      _ ← require_all_payloads requests rank_payload_bytes;
      payload ← concatenate_payloads requests;
      total ← times_world "rooted collective count overflow";
      route_root_payload requests uid sequence first.(opcode) first.(element_type) root total
        payload
  | Opcode.Scatter =>
      root ← required_root root world;
      _ ← require_only_root_payload requests root rank_payload_bytes;
      _ ← fail_if (negb (is_multiple_of count (Z.of_nat world)))
            (InvalidConfiguration "scatter total element count is not divisible by world size");
      let shard_count := count / Z.of_nat world in
      shard_bytes ← arith usize_bits (shard_count * element_bytes);
      mapM (fun rank =>
              request ← index requests root;
              piece ← shard request.(payload) rank shard_bytes;
              data_response requests uid sequence first.(opcode) first.(element_type) rank
                shard_count piece)
        (seq 0 world)
  | Opcode.AllReduce =>
      _ ← require_all_payloads requests rank_payload_bytes;
      payload ← concatenate_payloads requests;
      total ← times_world "all-reduce count overflow";
      route_same_payload requests uid sequence first.(opcode) first.(element_type) total payload
  | Opcode.ReduceScatter =>
      _ ← require_all_payloads requests rank_payload_bytes;
      _ ← fail_if (negb (is_multiple_of count (Z.of_nat world)))
            (InvalidConfiguration "reduce-scatter count is not divisible by world size");
      let shard_count := count / Z.of_nat world in
      shard_bytes ← arith usize_bits (shard_count * element_bytes);
      mapM (fun destination =>
              _ ← arith usize_bits (shard_bytes * Z.of_nat world);
              payload ← gather_shards requests destination shard_bytes;
              total ← arith usize_bits (shard_count * Z.of_nat world);
              data_response requests uid sequence first.(opcode) first.(element_type) destination
                total payload)
        (seq 0 world)
  | Opcode.AllToAll =>
      _ ← require_all_payloads requests rank_payload_bytes;
      _ ← fail_if (negb (is_multiple_of count (Z.of_nat world)))
            (InvalidConfiguration "all-to-all count is not divisible by world size");
      let shard_count := count / Z.of_nat world in
      shard_bytes ← arith usize_bits (shard_count * element_bytes);
      mapM (fun destination =>
              payload ← gather_shards requests destination shard_bytes;
              data_response requests uid sequence first.(opcode) first.(element_type) destination
                count payload)
        (seq 0 world)
  | Opcode.AllToAllV =>
      route_all_to_all_v requests uid sequence first.(element_type) element_bytes
  | Opcode.Join | Opcode.Ready | Opcode.PeerEndpoint | Opcode.Send | Opcode.Receive
  | Opcode.Abort | Opcode.Heartbeat | Opcode.Leave =>
      Err (InvalidConfiguration "opcode {:?} is not a coordinator collective request")
  end.

Definition validate_and_route (ag : CollectiveAgreement) (uid : list Z) (sequence : Z)
    (requests : list Frame) : CollectiveAgreement * nresult (list Frame) :=
  let '(ag', agreed) := agree_requests ag uid sequence (length requests) 0 requests in
  (ag', _ ← agreed; route uid sequence requests).

(** The client's check of a response (src/src/rank/network.rs). *)
Definition validate_response (frame : Frame) (uid : list Z) (rank world sequence : Z)
    : nresult unit :=
  let h := frame.(header) in
  _ ← fail_if (negb (bool_decide (h.(unique_id) = uid)) || negb (h.(world_size) =? world))
        NetworkError.WrongSession;
  _ ← fail_if (negb (h.(destination_rank) =? rank))
        (NetworkError.WrongDestination rank h.(destination_rank));
  fail_if (negb (h.(Protocol.sequence) =? sequence))
    (NetworkError.Protocol (SequenceMismatch sequence h.(Protocol.sequence))).

End definitions.

(** ** What each rank is owed

    The contract of the coordinator, per opcode: the bytes that the response
    to rank [destination] carries, as a function of the requests. *)
Definition piece_bytes (h : FrameHeader) (world : nat) : nat :=
  Z.to_nat (h.(element_count) / Z.of_nat world * byte_width h.(element_type)).

Definition piece (h : FrameHeader) (world i : nat) (payload : list Z) : list Z :=
  sub (i * piece_bytes h world) (piece_bytes h world) payload.

Definition delivered (first : FrameHeader) (payloads : list (list Z)) (destination : nat)
    : list Z :=
  let world := length payloads in
  let root := Z.to_nat first.(root_rank) in
  let root_payload := default [] (payloads !! root) in
  match first.(opcode) with
  | Opcode.Broadcast => root_payload
  | Opcode.AllGather | Opcode.AllReduce => concat payloads
  | Opcode.Gather | Opcode.Reduce => if (destination =? root)%nat then concat payloads else []
  | Opcode.Scatter => piece first world destination root_payload
  | Opcode.ReduceScatter | Opcode.AllToAll => concat (map (piece first world destination) payloads)
  | _ => []
  end.

(** A response to rank [destination]: it fits the wire contract, it is
    addressed to that rank in this session and under this sequence number, and
    it carries these bytes. *)
Record answers `{Crc32Hash} (uid : list Z) (sequence : Z) (op : Opcode) (world destination : nat)
    (payload : list Z) (f : Frame) : Prop := {
  answer_payload : f.(Protocol.payload) = payload;
  answer_opcode : f.(header).(opcode) = op;
  answer_uid : f.(header).(unique_id) = uid;
  answer_sequence : f.(header).(Protocol.sequence) = sequence;
  answer_world : f.(header).(world_size) = Z.of_nat world;
  answer_destination : f.(header).(destination_rank) = Z.of_nat destination;
  answer_typed : header_typed f.(header);
  answer_valid : header_valid f.(header);
  answer_checked : validate f.(header) (Some f.(Protocol.payload)) = Ok tt;
}.

(** The session that the coordinator runs: a 16-byte id, a [u64] sequence
    number and a [u32] number of ranks. *)
Record session_ok (uid : list Z) (sequence : Z) (world : nat) : Prop := {
  session_uid_length : length uid = 16%nat;
  session_uid_bytes : Forall is_byte uid;
  session_sequence : in_width 64 sequence;
  session_world : (0 < world)%nat /\ Z.of_nat world < 2 ^ 32;
}.

Section router_lemmas.
Context `{Crc32Hash} (uid : list Z) (sequence : Z) (world : nat)
  (Hs : session_ok uid sequence world).

Lemma response_header_typed op et destination count :
  (destination < world)%nat -> in_width 64 count ->
  header_typed (response_header uid op et sequence destination world count).
Proof using Hs.
  intros Hd Hc. destruct Hs as [? ? ? [? ?]].
  split; cbn; try (unfold in_width, ANY_RANK, U32_MAX in *; lia); try done.
  - by apply wrap_range.
  - by apply wrap_range.
  - apply crc32_hash_u32.
Qed.

Lemma response_world : wrap 32 (Z.of_nat world) = Z.of_nat world.
Proof using Hs. destruct Hs as [? ? ? [? ?]]. apply wrap_in. unfold in_width. lia. Qed.

Lemma response_destination destination :
  (destination < world)%nat -> wrap 32 (Z.of_nat destination) = Z.of_nat destination.
Proof using Hs.
  intros. destruct Hs as [? ? ? [? ?]]. apply wrap_in. unfold in_width. lia.
Qed.

(** A frame built from a response header answers its destination. *)
Lemma response_answers op et destination count p f flags0 :
  (destination < world)%nat -> in_width 64 count -> in_width 16 flags0 ->
  frame_new (set_flags (response_header uid op et sequence destination world count) flags0) p
    = Ok f ->
  answers uid sequence op world destination p f.
Proof using Hs.
  intros Hd Hc Hf Hn. set (h := set_flags _ _) in Hn.
  assert (Ht : header_typed h).
  { destruct (response_header_typed op et destination count Hd Hc). by split. }
  destruct (frame_new_inv _ _ _ Ht Hn) as (-> & Hts & Hv).
  pose proof (proj1 (validate_Some _ _ (payload_bytes_u64 _ Hts)) Hv) as (HvN & _).
  apply validate_iff in HvN; [|done].
  split; cbn [Protocol.payload header]; try done; destruct p; cbn; try done;
    by first [apply response_world | apply response_destination].
Qed.

Lemma data_response_answers requests op et destination count p f :
  length requests = world -> (destination < world)%nat -> in_width 64 count ->
  data_response requests uid sequence op et destination count p = Ok f ->
  answers uid sequence op world destination p f.
Proof using Hs.
  intros Hw Hd Hc Hn%map_err_Ok. rewrite Hw in Hn.
  by apply (response_answers op et destination count p f 0) in Hn.
Qed.

Lemma answers_accepted op destination p f :
  answers uid sequence op world destination p f ->
  validate_response f uid (Z.of_nat destination) (Z.of_nat world) sequence = Ok tt.
Proof.
  intros [_ _ Hu Hq Hw Hd _ _ _]. unfold validate_response. rewrite Hu, Hq, Hw, Hd.
  rewrite bool_decide_true by done. by rewrite !Z.eqb_refl.
Qed.
End router_lemmas.

(** ** The pieces of a response *)
Section pieces.

Lemma require_all_payloads_Ok requests bytes u :
  require_all_payloads requests bytes = Ok u <->
    Forall (fun request => Zlen request.(payload) = bytes) requests.
Proof.
  unfold require_all_payloads. rewrite fail_if_Ok.
  induction requests as [|r requests IH]; cbn [existsb]; [by split|].
  rewrite orb_false_iff, negb_false_iff, Z.eqb_eq, IH. by rewrite Forall_cons.
Qed.

(** Only the root may carry data, and it carries all of it. *)
Lemma require_only_root_payload_Ok requests root bytes u :
  require_only_root_payload requests root bytes = Ok u <->
    forall i request, requests !! i = Some request ->
      Zlen request.(payload) = if (i =? root)%nat then bytes else 0.
Proof.
  unfold require_only_root_payload.
  assert (Hgen : forall k, foldM (E:=NetworkError) (fun _ '(rank, request) =>
      fail_if (negb (Zlen (payload request) =? (if (rank =? root)%nat then bytes else 0)))
        (InvalidConfiguration "rank {rank} payload has {} bytes, expected {expected}"))
      tt (imap (fun i => pair (k + i)%nat) requests) = Ok u <->
    forall i request, requests !! i = Some request ->
      Zlen request.(payload) = if (k + i =? root)%nat then bytes else 0);
    [|apply (Hgen 0%nat)].
  induction requests as [|r requests IH]; intros k; cbn [imap foldM].
  { destruct u. split; [by intros _ i request|done]. }
  rewrite (imap_ext _ (fun i => pair (S k + i)%nat)) by (intros; cbn; f_equal; lia).
  rewrite bind_Ok. rewrite Nat.add_0_r. split.
  - intros ([] & Hr%fail_if_Ok%negb_false_iff%Z.eqb_eq & Hrest) [|i] request; cbn.
    + intros [= <-]. by rewrite Nat.add_0_r.
    + intros Hi. rewrite (proj1 (IH (S k)) Hrest i request Hi).
      by replace (S k + i)%nat with (k + S i)%nat by lia.
  - intros Hall. exists tt. split.
    + apply fail_if_Ok, negb_false_iff, Z.eqb_eq.
      rewrite (Hall 0%nat r eq_refl). by rewrite Nat.add_0_r.
    + apply (IH (S k)). intros i request Hi. rewrite (Hall (S i) request Hi).
      by replace (k + S i)%nat with (S k + i)%nat by lia.
Qed.

Lemma required_root_Ok root world r :
  required_root root world = Ok r <-> root = Some r /\ (r < world)%nat.
Proof.
  unfold required_root. destruct root as [k|]; [|naive_solver].
  destruct (Nat.ltb_spec k world); split; try done.
  - by intros [= <-].
  - by intros [[= <-] _].
  - intros [[= <-] ?]. lia.
Qed.

Lemma concatenate_payloads_Ok requests p :
  concatenate_payloads requests = Ok p <->
    p = concat (map payload requests) /\ Zlen p < 2 ^ 64.
Proof.
  unfold concatenate_payloads. rewrite bind_Ok.
  assert (Hsum : sum_Z (map (fun r => Zlen (payload r)) requests) =
                 Zlen (concat (map payload requests)))
    by (by rewrite length_concat_Z, map_map).
  assert (Hnn : Forall (fun x => 0 <= x) (map (fun r => Zlen (payload r)) requests))
    by (apply Forall_map, Forall_true; intros; apply Zlen_nonneg).
  split.
  - intros (s & Ht%ok_or_Ok & [= <-]). apply try_sum_spec in Ht as [-> Hlt]; [|done].
    by rewrite <- Hsum.
  - intros [-> Hlt]. exists (Zlen (concat (map payload requests))). split; [|done].
    apply ok_or_Ok, try_sum_spec; [done|]. by rewrite Hsum.
Qed.

Lemma shard_Ok payload i n s :
  0 <= n -> shard payload i n = Ok s <->
    s = sub (i * Z.to_nat n) (Z.to_nat n) payload
    /\ (i * Z.to_nat n + Z.to_nat n <= length payload)%nat
    /\ Z.of_nat i * n + n < 2 ^ 64.
Proof.
  intros Hn. unfold shard, arith, expect.
  assert (Hnat : Z.to_nat (Z.of_nat i * n + n) = (i * Z.to_nat n + Z.to_nat n)%nat) by nia.
  assert (Hstart : Z.to_nat (Z.of_nat i * n) = (i * Z.to_nat n)%nat) by nia.
  split.
  - intros Hok. apply bind_Ok in Hok as (a & Ha & Hok).
    destruct (checked 64 (Z.of_nat i * n)) as [a'|] eqn:Hc; [|done]. injection Ha as <-.
    apply checked_Some in Hc as [-> _].
    apply bind_Ok in Hok as (b & Hb & Hok).
    destruct (checked 64 (Z.of_nat i * n + n)) as [b'|] eqn:Hc; [|done]. injection Hb as <-.
    apply checked_Some in Hc as [-> [_ Hlt]].
    rewrite Hnat, Hstart in Hok. apply slice_range_inv in Hok as [Hle ->].
    split; [|split; [lia|done]]. unfold sub. do 2 f_equal. lia.
  - intros (-> & Hle & Hlt).
    rewrite checked_in by (unfold in_width; nia). cbn [mbind outcome_bind].
    rewrite checked_in by (unfold in_width; nia). cbn [mbind outcome_bind].
    rewrite Hnat, Hstart. rewrite slice_range_sub by lia. done.
Qed.

Lemma gather_shards_Ok requests i n p :
  0 <= n -> gather_shards requests i n = Ok p ->
  p = concat (map (fun r => sub (i * Z.to_nat n) (Z.to_nat n) r.(payload)) requests).
Proof.
  intros Hn Hg. unfold gather_shards in Hg.
  apply (foldM_append (fun r => shard (payload r) i n)) in Hg as (ss & Hss & ->).
  apply mapM_Ok in Hss. cbn. f_equal.
  induction Hss as [|r s requests ss Hr _ IH]; cbn; [done|].
  apply shard_Ok in Hr as [-> _]; [|done]. by f_equal.
Qed.

End pieces.

(** ** Routing *)
Section routing.
Context `{Crc32Hash} (uid : list Z) (sequence : Z) (requests : list Frame)
  (Hs : session_ok uid sequence (length requests)).

(** [responses] holds one answer per rank; [owed] gives its payload. *)
Definition all_answered (op : Opcode) (owed : nat -> list Z) (responses : list Frame) : Prop :=
  length responses = length requests /\
  forall d f, responses !! d = Some f ->
    answers uid sequence op (length requests) d (owed d) f.

Lemma all_answered_seq op owed (f : nat -> nresult Frame) responses :
  mapM f (seq 0 (length requests)) = Ok responses ->
  (forall d r, (d < length requests)%nat -> f d = Ok r ->
     answers uid sequence op (length requests) d (owed d) r) ->
  all_answered op owed responses.
Proof.
  intros [Hlen Hf]%mapM_seq_Ok Ha. split; [done|]. intros d r Hd.
  apply Ha; [|by apply Hf]. apply lookup_lt_Some in Hd. lia.
Qed.

Lemma route_empty_answers op responses :
  route_empty requests uid sequence op = Ok responses ->
  all_answered op (fun _ => []) responses.
Proof using Hs.
  unfold route_empty. intros Hr. inv_ok. eapply all_answered_seq; [exact Hr|].
  intros d r Hd Hn%map_err_Ok.
  by apply (response_answers _ _ _ Hs op ElementType.None d 0 [] r 0) in Hn.
Qed.

Lemma route_same_payload_answers op et count p responses :
  route_same_payload requests uid sequence op et count p = Ok responses ->
  in_width 64 count ->
  all_answered op (fun _ => p) responses.
Proof using Hs.
  intros Hr Hc. eapply all_answered_seq; [exact Hr|]. intros d r Hd Hn.
  by apply (data_response_answers _ _ _ Hs) in Hn.
Qed.

Lemma route_root_payload_answers op et root count p responses :
  route_root_payload requests uid sequence op et root count p = Ok responses ->
  in_width 64 count ->
  all_answered op (fun d => if (d =? root)%nat then p else []) responses.
Proof using Hs.
  intros Hr Hc. eapply all_answered_seq; [exact Hr|]. intros d r Hd. cbv beta.
  destruct (d =? root)%nat; intros Hn.
  - by apply (data_response_answers _ _ _ Hs) in Hn.
  - apply map_err_Ok in Hn.
    by apply (response_answers _ _ _ Hs op ElementType.None d 0 [] r 0) in Hn.
Qed.

Lemma all_answered_ext op owed owed' responses :
  (forall d, owed d = owed' d) ->
  all_answered op owed responses -> all_answered op owed' responses.
Proof.
  intros Heq [Hlen Ha]. split; [done|]. intros d f Hf. rewrite <- Heq. auto.
Qed.

Lemma shard_count_width count :
  in_width 64 count -> in_width 64 (count / Z.of_nat (length requests)).
Proof using Hs.
  intros [??]. destruct Hs as [_ _ _ [Hw _]].
  pose proof (Z.div_le_upper_bound count (Z.of_nat (length requests)) count).
  pose proof (Z.div_pos count (Z.of_nat (length requests))). unfold in_width. nia.
Qed.

Lemma arith_Ok {E} w x y : arith (E:=E) w x = Ok y <-> y = x /\ in_width w x.
Proof.
  unfold arith. destruct (checked w x) as [z|] eqn:Hc; cbn.
  - apply checked_Some in Hc as [-> ?]. naive_solver.
  - split; [done|]. intros [_ Hw]. by rewrite checked_in in Hc.
Qed.

Lemma route_answers request0 responses :
  requests !! 0%nat = Some request0 -> in_width 64 request0.(header).(element_count) ->
  request0.(header).(opcode) <> Opcode.AllToAllV ->
  route uid sequence requests = Ok responses ->
  all_answered request0.(header).(opcode)
    (delivered request0.(header) (map payload requests)) responses.
Proof using Hs.
  intros H0 Hc Hv Hr. unfold route in Hr.
  apply bind_Ok in Hr as (q & Hq%index_Ok & Hr). rewrite H0 in Hq. injection Hq as <-.
  set (h := header request0) in *. unfold usize_try_from_u64 in Hr.
  rewrite (checked_in 64 _ Hc) in Hr. cbn [ok_or mbind outcome_bind] in Hr.
  apply bind_Ok in Hr as (bytes & Hbytes%ok_or_Ok & Hr).
  apply checked_Some in Hbytes as [-> Hbytes].
  assert (Htimes : forall n t, checked_mul 64 (element_count h) n = Some t -> in_width 64 t).
  { intros n t Ht. by apply checked_Some in Ht as [-> ?]. }
  assert (Hrootp : forall root r, required_root (if root_rank h =? ANY_RANK then None
      else Some (Z.to_nat (root_rank h))) (length requests) = Ok root ->
      requests !! root = Some r ->
      root = Z.to_nat (root_rank h) /\
      default [] (map payload requests !! Z.to_nat (root_rank h)) = payload r).
  { intros root r [Ho _]%required_root_Ok Hlk.
    destruct (root_rank h =? ANY_RANK); [done|]. injection Ho as <-. split; [done|].
    rewrite list_lookup_fmap, Hlk. done. }
  assert (Hbw : 0 <= byte_width (element_type h)) by (by destruct (element_type h)).
  pose proof (shard_count_width _ Hc) as Hsc.
  cbn [ok_or mbind outcome_bind] in Hr.
  destruct (opcode h) eqn:Hop; try discriminate Hr; try (by destruct Hv);
    (eapply all_answered_ext; [intros d; unfold delivered; rewrite Hop; reflexivity|]);
    rewrite ?length_map; inv_ok;
    repeat match goal with
    | Hx : concatenate_payloads _ = Ok _ |- _ => apply concatenate_payloads_Ok in Hx as [-> _]
    end.
  - eapply all_answered_ext; [|by eapply route_same_payload_answers].
    intros d. by destruct (Hrootp _ _ Hv0 Hv2).
  - eapply route_same_payload_answers; eauto.
  - apply required_root_Ok in Hv0 as [Hroot' Hlt].
    eapply all_answered_ext; [|eapply route_root_payload_answers; eauto].
    intros d. destruct (root_rank h =? ANY_RANK); [done|]. by injection Hroot' as <-.
  - eapply all_answered_seq; [exact Hr|]. intros d r Hd Hd'. cbv beta in Hd'. inv_ok.
    apply arith_Ok in Hv3 as [-> Hsb]. apply shard_Ok in Hv5 as [-> _]; [|apply Hsb].
    destruct (Hrootp _ _ Hv0 Hv4) as [_ ->]. unfold piece, piece_bytes.
    by apply (data_response_answers _ _ _ Hs) in Hd'.
  - apply required_root_Ok in Hv0 as [Hroot' Hlt].
    eapply all_answered_ext; [|eapply route_root_payload_answers; eauto].
    intros d. destruct (root_rank h =? ANY_RANK); [done|]. by injection Hroot' as <-.
  - eapply route_same_payload_answers; eauto.
  - eapply all_answered_seq; [exact Hr|]. intros d r Hd Hd'. cbv beta in Hd'. inv_ok.
    apply arith_Ok in Hv2 as [-> Hsb]. apply gather_shards_Ok in Hv4 as ->; [|apply Hsb].
    apply arith_Ok in Hv5 as [-> Hsc']. rewrite map_map. unfold piece, piece_bytes.
    by apply (data_response_answers _ _ _ Hs) in Hd'.
  - eapply all_answered_seq; [exact Hr|]. intros d r Hd Hd'. cbv beta in Hd'. inv_ok.
    apply arith_Ok in Hv2 as [-> Hsb]. apply gather_shards_Ok in Hv3 as ->; [|apply Hsb].
    rewrite map_map. unfold piece, piece_bytes.
    by apply (data_response_answers _ _ _ Hs) in Hd'.
  - by apply route_empty_answers.
  - by apply route_empty_answers.
Qed.
End routing.

(** ** Agreement *)
Section agreement.
Implicit Types (ag : CollectiveAgreement) (requests : list Frame).

(** A request of the session that came over the connection of [rank]. *)
Record belongs (uid : list Z) (world rank : nat) (request : Frame) : Prop := {
  belongs_uid : request.(header).(unique_id) = uid;
  belongs_source : request.(header).(source_rank) = Z.of_nat rank;
  belongs_world : request.(header).(world_size) = Z.of_nat world;
}.

#[export] Instance belongs_dec uid world rank request : Decision (belongs uid world rank request).
Proof.
  refine (cast_if_and3 (decide (request.(header).(unique_id) = uid))
            (decide (request.(header).(source_rank) = Z.of_nat rank))
            (decide (request.(header).(world_size) = Z.of_nat world)));
    by (split || intros []).
Defined.

(** The requests of one operation: each belongs to its connection and asks for
    the same operation. *)
Definition agreed (uid : list Z) (world rank : nat) (d : OperationDescriptor) requests : Prop :=
  forall i request, requests !! i = Some request ->
    belongs uid world (rank + i) request /\ request_descriptor request.(header) = d.

Lemma agreed_cons uid world rank d request requests :
  agreed uid world rank d (request :: requests) <->
    belongs uid world rank request /\ request_descriptor request.(header) = d
    /\ agreed uid world (S rank) d requests.
Proof.
  unfold agreed. split.
  - intros Ha. destruct (Ha 0%nat request eq_refl) as [Hb Hd]. rewrite Nat.add_0_r in Hb.
    split_and!; try done. intros i r Hi.
    replace (S rank + i)%nat with (rank + S i)%nat by lia. by apply (Ha (S i)).
  - intros (Hb & Hd & Ha) [|i] r; cbn.
    + intros [= <-]. by rewrite Nat.add_0_r.
    + intros Hi. replace (rank + S i)%nat with (S rank + i)%nat by lia. by apply Ha.
Qed.

(** The loop, one request at a time. *)
Lemma agree_requests_cons ag uid sequence world rank request requests :
  (belongs uid world rank request /\
   agree_requests ag uid sequence world rank (request :: requests) =
     match submit ag rank sequence (request_descriptor request.(header)) with
     | (ag', Ok _) => agree_requests ag' uid sequence world (S rank) requests
     | (ag', Err e) => (ag', Err (NetworkError.Protocol e))
     | (ag', Panic) => (ag', Panic)
     end)
  \/ (~ belongs uid world rank request /\
      exists e, agree_requests ag uid sequence world rank (request :: requests) = (ag, Err e)).
Proof.
  destruct (decide (belongs uid world rank request)) as [Hb|Hb]; [left|right]; split; try done.
  - destruct Hb as [Hu Hr Hw]. cbn [agree_requests].
    rewrite bool_decide_true by done. by rewrite Hr, Hw, !Z.eqb_refl.
  - cbn [agree_requests]. case_bool_decide as Hu; cbn [negb]; [|eauto].
    destruct (Z.eqb_spec (source_rank (header request)) (Z.of_nat rank)) as [Hr|]; cbn [negb orb];
      [|eauto].
    destruct (Z.eqb_spec (world_size (header request)) (Z.of_nat world)) as [Hw|]; cbn [negb orb];
      [|eauto].
    by destruct Hb.
Qed.

(** An accepted submission fixes the operation of the round. *)
Lemma submit_Ok_inv ag rank sequence d b ag' :
  agreement_ok ag -> submit ag rank sequence d = (ag', Ok b) ->
  sequence = ag.(next_sequence) /\
  (first_submitted (current_ranks ag) = None \/ first_submitted (current_ranks ag) = Some d) /\
  ((b = true /\ ag'.(next_sequence) = ag.(next_sequence) + 1)
   \/ (b = false /\ ag'.(next_sequence) = ag.(next_sequence) /\
       first_submitted (current_ranks ag') = Some d)).
Proof.
  intros Hok.
  destruct (submit_cases ag rank sequence d Hok)
    as [(Hr & ->)|[(Hr & Hs & ->)|[(Hr & -> & Hin & ->)|[(e & Hr & -> & Hin & Hf & Hne & ->)|
        (Hr & -> & Hin & Hf)]]]]; try done.
  rewrite submit_accept_cases by done. intros Heq. split; [done|]. split; [done|].
  case_decide; [case_decide; [|done]|]; injection Heq as <- <-; [by left|].
  right. split_and!; [done|done|]. unfold current_ranks at 1. cbn.
  rewrite lookup_insert_eq. cbn. by apply first_submitted_insert.
Qed.

Lemma agree_requests_sound requests ag uid sequence world rank ag' :
  agreement_ok ag ->
  agree_requests ag uid sequence world rank requests = (ag', Ok tt) ->
  agreement_ok ag' /\
  exists d, agreed uid world rank d requests /\
    (requests <> [] -> sequence = ag.(next_sequence) /\
       forall d', first_submitted (current_ranks ag) = Some d' -> d' = d).
Proof.
  revert ag rank. induction requests as [|request requests IH]; intros ag rank Hok Hr.
  { injection Hr as <-. split; [done|].
    exists (descriptor_new Opcode.Join ElementType.None 0 0). split; [by intros i r|done]. }
  destruct (agree_requests_cons ag uid sequence world rank request requests)
    as [[Hb Heq]|(_ & e & Heq)]; rewrite Heq in Hr; [|done].
  set (d := request_descriptor (header request)) in *.
  pose proof (submit_invariant_step ag rank sequence d Hok) as Hok1.
  destruct (submit ag rank sequence d) as [ag1 [b|e|]] eqn:Hsub; try done.
  destruct (submit_Ok_inv _ _ _ _ _ _ Hok Hsub) as (Hseq & Hfirst & Hnext).
  destruct (IH ag1 (S rank) Hok1 Hr) as (Hok' & d1 & Ha & Hd1). split; [done|].
  exists d. split; [|intros _; split; [done|]; intros d' Hd'; destruct Hfirst; congruence].
  apply agreed_cons. split_and!; [done|done|].
  destruct requests as [|r2 requests]; [by intros i r|].
  destruct (Hd1 ltac:(done)) as [Hseq1 Hd1'].
  destruct Hnext as [[_ Hn]|(_ & _ & Hf)]; [lia|]. by rewrite (Hd1' d Hf).
Qed.

(** Conversely, agreeing requests are submitted to the end. *)
Lemma agree_requests_complete requests ag uid sequence world rank d :
  agreed uid world rank d requests ->
  Forall (fun r => is_ok r = true) (submit_all ag sequence d (seq rank (length requests))).2 ->
  agree_requests ag uid sequence world rank requests =
    ((submit_all ag sequence d (seq rank (length requests))).1, Ok tt).
Proof.
  revert ag rank. induction requests as [|request requests IH]; intros ag rank Ha Hall; [done|].
  apply agreed_cons in Ha as (Hb & Hd & Ha).
  destruct (agree_requests_cons ag uid sequence world rank request requests)
    as [[_ ->]|[Hn _]]; [|done]. rewrite Hd.
  cbn [length seq submit_all] in *.
  destruct (submit ag rank sequence d) as [ag1 r] eqn:Hsub.
  pose proof (IH ag1 (S rank) Ha) as IH1.
  destruct (submit_all ag1 sequence d (seq (S rank) (length requests))) as [ag2 rs].
  cbn [fst snd] in *. apply Forall_cons in Hall as [Hr Hall].
  destruct r as [b| |]; try discriminate Hr. auto.
Qed.

(** The state of a coordinator between two operations. *)
Record idle ag (world : nat) (sequence : Z) : Prop := {
  idle_ok : agreement_ok ag;
  idle_world : ag.(ag_world_size) = world;
  idle_sequence : ag.(next_sequence) = sequence;
  idle_pending : ag.(pending) = ∅;
}.

Lemma agree_requests_idle requests ag uid d :
  idle ag (length requests) ag.(next_sequence) -> ag.(next_sequence) < U64_MAX ->
  agreed uid (length requests) 0 d requests ->
  agree_requests ag uid ag.(next_sequence) (length requests) 0 requests =
    (mkAgreement (length requests) (ag.(next_sequence) + 1) ∅, Ok tt).
Proof.
  intros [Hok Hw _ Hp] Hn Ha. pose proof (ok_world _ Hok) as Hpos.
  assert (Hc : current_ranks ag = replicate (ag_world_size ag) None)
    by (unfold current_ranks; by rewrite Hp, lookup_empty).
  assert (Hall : submit_all ag (next_sequence ag) d (seq 0 (length requests)) =
    (mkAgreement (ag_world_size ag) (next_sequence ag + 1) ∅,
     replicate (length (seq 0 (length requests)) - 1) (Ok false) ++ [Ok true])).
  { apply submit_all_rest; try done.
    - left. rewrite Hc. apply first_submitted_None, submitters_replicate.
    - intros Hnil. apply (f_equal length) in Hnil. rewrite length_seq in Hnil. cbn in Hnil. lia.
    - apply NoDup_seq.
    - intros i. rewrite elem_of_seq, Hc, submitters_replicate, Hw.
      split; [intros; split; [lia|set_solver]|lia]. }
  rewrite (agree_requests_complete _ _ _ _ _ _ d Ha).
  - rewrite Hall. cbn [fst]. by rewrite Hw.
  - rewrite Hall. cbn [snd]. apply Forall_app. split; [by apply Forall_replicate|].
    by repeat constructor.
Qed.

End agreement.

(** ** Which requests are answered *)
Section admission.
Context `{Crc32Hash} (uid : list Z) (sequence : Z) (requests : list Frame)
  (Hs : session_ok uid sequence (length requests)).

Lemma response_is_Ok op et destination count p :
  op <> Opcode.AllToAllV -> (destination < length requests)%nat -> in_width 64 count ->
  (exists f, lift_protocol (frame_new
     (response_header uid op et sequence destination (length requests) count) p) = Ok f) <->
    Zlen p <= MAX_FRAME_PAYLOAD_BYTES /\
    (et = ElementType.None -> count = 0 /\ p = []) /\
    (p <> [] -> Zlen p = count * byte_width et).
Proof using Hs.
  intros Hop Hd Hc. set (h := response_header _ _ _ _ _ _ _).
  assert (Ht : header_typed h) by (by apply (response_header_typed _ _ _ Hs)).
  pose proof (response_world _ _ _ Hs) as Hworld.
  pose proof (response_destination _ _ _ Hs _ Hd) as Hdest.
  pose proof (session_world _ _ _ Hs) as Hw.
  assert (Hv : Zlen p <= MAX_FRAME_PAYLOAD_BYTES ->
    header_valid (sealed h p) <->
    (et = ElementType.None -> count = 0 /\ p = []) /\
    (p <> [] -> Zlen p = count * byte_width et)).
  { intros Hmax. change MAX_FRAME_PAYLOAD_BYTES with 1073741824 in Hmax. split.
    - intros [_ _ _ _ _ _ _ _ _ Hn Hl]. destruct p as [|b p]; cbn in *.
      + split; [|done]. intros He. by destruct (Hn He).
      + split.
        * intros He. destruct (Hn He). unfold Zlen in *. cbn in *. lia.
        * intros _. rewrite Hl; [apply Z.add_0_r| |unfold Zlen; cbn; lia].
          intros He. destruct (Hn He). unfold Zlen in *. cbn in *. lia.
    - intros [Hn Hl].
      assert (Hpos : p <> [] -> 0 < Zlen p) by (destruct p; [done|unfold Zlen; cbn; lia]).
      destruct p as [|b p]; [|specialize (Hpos ltac:(done)); specialize (Hl ltac:(done))];
        split; cbn [sealed h response_header set_destination_rank collective opcode element_type
          flags source_rank destination_rank root_rank world_size element_count payload_bytes];
        rewrite ?Hworld, ?Hdest; try done; try lia; try (by left); try (by right; lia).
      + intros He. by destruct (Hn He).
      + intros He. by destruct (Hn He).
      + intros _ _. rewrite Hl. symmetry. apply Z.add_0_r. }
  split.
  - intros (f & Hf%map_err_Ok). apply frame_new_iff in Hf as (_ & Hmax & Hval); [|done|done].
    split; [done|]. by apply Hv.
  - intros (Hmax & Hrest). exists (mkFrame (sealed h p) p). apply map_err_Ok.
    apply frame_new_iff; [done|done|]. split_and!; [done|done|]. by apply Hv.
Qed.

(** A payload that a response with this element type and count can carry. *)
Definition fits (et : ElementType) (count : Z) (p : list Z) : Prop :=
  Zlen p <= MAX_FRAME_PAYLOAD_BYTES /\ (et = ElementType.None -> count = 0 /\ p = []) /\
  (p <> [] -> Zlen p = count * byte_width et).

Lemma fits_nil count et : (et = ElementType.None -> count = 0) -> fits et count [].
Proof. intros. split_and!; [done|naive_solver|done]. Qed.

Lemma seq_Ok {A} (f : nat -> nresult A) (P : nat -> Prop) :
  (forall d, (d < length requests)%nat -> (exists y, f d = Ok y) <-> P d) ->
  (exists k, mapM f (seq 0 (length requests)) = Ok k) <->
    forall d, (d < length requests)%nat -> P d.
Proof.
  intros Hf. rewrite mapM_is_Ok, Forall_forall. split.
  - intros Hall d Hd. apply Hf, Hall; [done|]. apply elem_of_seq. lia.
  - intros Hall d Hd%elem_of_seq. apply Hf; [lia|]. apply Hall. lia.
Qed.

Lemma route_empty_is_Ok op :
  op <> Opcode.AllToAllV ->
  (exists rs, route_empty requests uid sequence op = Ok rs) <->
    Forall (fun r => Zlen r.(payload) = 0) requests.
Proof using Hs.
  intros Hop. unfold route_empty.
  assert (Hex : existsb (fun r => negb (bool_decide (payload r = []))) requests = false <->
    Forall (fun r => Zlen r.(payload) = 0) requests).
  { clear Hs. induction requests as [|r l IH]; cbn; [by split|].
    rewrite orb_false_iff, negb_false_iff, bool_decide_eq_true, IH, Forall_cons.
    unfold Zlen. destruct (payload r); cbn; (split; intros [??]; split; solve [done | exfalso; cbn in *; lia]). }
  destruct (existsb _ _); cbn [fail_if mbind outcome_bind].
  - split; [by intros []|]. intros Hf%Hex. done.
  - split; [intros _; by apply Hex|]. intros _.
    apply (seq_Ok _ (fun _ => fits ElementType.None 0 [])); [|by intros; apply fits_nil].
    intros d Hd. by apply response_is_Ok.
Qed.

Lemma route_same_payload_is_Ok op et count p :
  op <> Opcode.AllToAllV -> in_width 64 count ->
  (exists rs, route_same_payload requests uid sequence op et count p = Ok rs) <->
    fits et count p.
Proof using Hs.
  intros Hop Hc. unfold route_same_payload.
  rewrite (seq_Ok _ (fun _ => fits et count p)) by (intros; by apply response_is_Ok).
  destruct (session_world _ _ _ Hs) as [Hpos _]. split; [|done]. intros Hf. by apply (Hf 0%nat).
Qed.

Lemma route_root_payload_is_Ok op et root count p :
  op <> Opcode.AllToAllV -> (root < length requests)%nat -> in_width 64 count ->
  (exists rs, route_root_payload requests uid sequence op et root count p = Ok rs) <->
    fits et count p.
Proof using Hs.
  intros Hop Hr Hc. unfold route_root_payload.
  rewrite (seq_Ok _ (fun d => if (d =? root)%nat then fits et count p else True)).
  - split.
    + intros Hf. specialize (Hf root Hr). by rewrite Nat.eqb_refl in Hf.
    + intros Hf d Hd. by destruct (d =? root)%nat.
  - intros d Hd. destruct (d =? root)%nat; [by apply response_is_Ok|].
    split; [done|]. intros _. apply response_is_Ok; [done|done|done|]. by apply fits_nil.
Qed.

(** The requests that the coordinator can answer: the payload sizes that the
    operation asks for, a root where it needs one, and a response that fits
    in a frame.  A variable all-to-all has its own condition, with its rows, in
    [Exchange]. *)
Definition routable (h : FrameHeader) : Prop :=
  let bytes := h.(element_count) * byte_width h.(element_type) in
  bytes < 2 ^ 64 /\
  let all_carry n := Forall (fun r => Zlen r.(payload) = n) requests in
  let root_carries := forall i r, requests !! i = Some r ->
    Zlen r.(payload) = if (i =? Z.to_nat h.(root_rank))%nat then bytes else 0 in
  let rooted := h.(root_rank) < Z.of_nat (length requests) in
  let divisible := h.(element_count) mod Z.of_nat (length requests) = 0 in
  let gathered := Z.of_nat (length requests) * bytes <= MAX_FRAME_PAYLOAD_BYTES in
  match h.(opcode) with
  | Opcode.Barrier => all_carry 0
  | Opcode.SetTimeout =>
      h.(element_type) = ElementType.None /\ h.(root_rank) = ANY_RANK /\ h.(tag) <> 0 /\ all_carry 0
  | Opcode.Broadcast => rooted /\ root_carries
  | Opcode.AllGather | Opcode.AllReduce => all_carry bytes /\ gathered
  | Opcode.Gather | Opcode.Reduce => rooted /\ all_carry bytes /\ gathered
  | Opcode.Scatter => rooted /\ root_carries /\ divisible
  | Opcode.ReduceScatter | Opcode.AllToAll => all_carry bytes /\ divisible
  | _ => False
  end.

Lemma bind_is_Ok {E A B} (m : outcome E A) (f : A -> outcome E B) :
  (exists b, m ≫= f = Ok b) <-> exists a, m = Ok a /\ exists b, f a = Ok b.
Proof. setoid_rewrite bind_Ok. naive_solver. Qed.

Lemma request_facts request :
  sendable request ->
  in_width 64 request.(header).(element_count) /\
  Zlen request.(payload) <= MAX_FRAME_PAYLOAD_BYTES /\
  0 <= request.(header).(root_rank) /\
  (request.(header).(root_rank) = ANY_RANK
   \/ request.(header).(root_rank) < request.(header).(world_size)) /\
  (request.(header).(element_type) = ElementType.None -> request.(header).(element_count) = 0).
Proof.
  intros [[Ht Hp] Hv]. apply validate_Some in Hv as (HvN & Hl & _); [|apply Ht].
  pose proof (payload_len_bound _ HvN) as Hmax. apply validate_iff in HvN; [|done].
  split_and!; [apply Ht|lia|apply Ht|apply HvN|].
  intros He. by apply (hv_none _ HvN).
Qed.

Variable (request0 : Frame).
Hypothesis (H0 : requests !! 0%nat = Some request0).
Hypothesis (Hreq : Forall sendable requests).
Let h := request0.(header).
Let bytes := h.(element_count) * byte_width h.(element_type).

Lemma request0_facts :
  in_width 64 h.(element_count) /\ 0 <= h.(root_rank) /\ 0 <= bytes /\
  (h.(element_type) = ElementType.None -> h.(element_count) = 0 /\ bytes = 0).
Proof using H0 Hreq.
  destruct (request_facts request0) as (Hc & _ & Hr & _ & Hn).
  { eapply Forall_lookup_1; eauto. }
  fold h in Hc, Hr, Hn. split_and!; try done.
  - unfold bytes, in_width in *. destruct (element_type h); cbn; lia.
  - intros He. unfold bytes. rewrite (Hn He). by rewrite Z.mul_0_l.
Qed.

Lemma length_concat_payloads n :
  Forall (fun r => Zlen r.(payload) = n) requests ->
  Zlen (concat (map payload requests)) = Z.of_nat (length requests) * n.
Proof.
  intros Hall. rewrite (length_concat_const _ n) by (by apply Forall_map).
  by rewrite length_map.
Qed.

(** The whole of all payloads is a fitting response. *)
Lemma fits_gathered :
  Forall (fun r => Zlen r.(payload) = bytes) requests ->
  (exists p, concatenate_payloads requests = Ok p /\
   exists t, checked_mul 64 h.(element_count) (Z.of_nat (length requests)) = Some t /\
     in_width 64 t /\ fits h.(element_type) t p)
  <-> Z.of_nat (length requests) * bytes <= MAX_FRAME_PAYLOAD_BYTES.
Proof using H0 Hreq Hs.
  intros Hall%length_concat_payloads. destruct request0_facts as (Hc & Hr & Hb & Hn).
  destruct (session_world _ _ _ Hs) as [Hpos _].
  change MAX_FRAME_PAYLOAD_BYTES with 1073741824 in *. split.
  - intros (p & [-> _]%concatenate_payloads_Ok & t & _ & _ & [Hmax _]).
    change MAX_FRAME_PAYLOAD_BYTES with 1073741824 in Hmax. lia.
  - intros Hmax. exists (concat (map payload requests)). split.
    { apply concatenate_payloads_Ok. split; [done|]. lia. }
    exists (h.(element_count) * Z.of_nat (length requests)).
    assert (Hbw : element_type h <> ElementType.None -> 1 <= byte_width (element_type h))
      by (by destruct (element_type h)).
    assert (Hw : in_width 64 (h.(element_count) * Z.of_nat (length requests))).
    { unfold in_width in *. destruct (decide (element_type h = ElementType.None)) as [He|He].
      - destruct (Hn He). nia.
      - specialize (Hbw He). unfold bytes in *. nia. }
    split; [by apply checked_in|]. split; [done|]. split_and!.
    + change MAX_FRAME_PAYLOAD_BYTES with 1073741824. lia.
    + intros He. destruct (Hn He) as [Hc0 Hb0]. rewrite Hb0, Z.mul_0_r in Hall.
      split; [lia|]. unfold Zlen in Hall. destruct (concat _); [done|]. cbn in Hall. lia.
    + intros _. rewrite Hall. unfold bytes. lia.
Qed.

(** *** Sharded operations *)
Let shard_count := h.(element_count) / Z.of_nat (length requests).
Let shard_bytes := shard_count * byte_width h.(element_type).

Lemma shard_facts :
  h.(element_count) mod Z.of_nat (length requests) = 0 -> bytes < 2 ^ 64 ->
  in_width 64 shard_count /\ in_width 64 shard_bytes /\
  shard_count * Z.of_nat (length requests) = h.(element_count) /\
  shard_bytes * Z.of_nat (length requests) = bytes.
Proof using H0 Hreq Hs.
  intros Hdiv Hlt. destruct request0_facts as (Hc & Hr & Hb & Hn).
  destruct (session_world _ _ _ Hs) as [Hpos _].
  pose proof (Z.div_exact (element_count h) (Z.of_nat (length requests)) ltac:(lia)) as [_ Hd].
  specialize (Hd Hdiv). fold shard_count in Hd.
  pose proof (shard_count_width _ _ _ Hs _ Hc) as Hsc. fold shard_count in Hsc.
  assert (Heq : shard_bytes * Z.of_nat (length requests) = bytes)
    by (unfold shard_bytes, bytes; rewrite Hd; lia).
  assert (Hbw : 0 <= byte_width (element_type h)) by (by destruct (element_type h)).
  assert (Hsb : 0 <= shard_bytes) by (unfold shard_bytes, in_width in *; nia).
  split_and!; [done| |lia|done]. unfold in_width. nia.
Qed.

Lemma shard_is_Ok payload d :
  h.(element_count) mod Z.of_nat (length requests) = 0 -> bytes < 2 ^ 64 ->
  Zlen payload = bytes -> (d < length requests)%nat ->
  exists s, shard payload d shard_bytes = Ok s /\ Zlen s = shard_bytes.
Proof using H0 Hreq Hs.
  intros Hdiv Hlt Hlen Hd. destruct (shard_facts Hdiv Hlt) as (_ & Hsb & _ & Heq).
  unfold in_width, Zlen in *.
  assert (Hle : Z.of_nat d * shard_bytes + shard_bytes <= bytes) by nia.
  assert (Hnat : (d * Z.to_nat shard_bytes + Z.to_nat shard_bytes <= length payload)%nat) by nia.
  eexists. split; [apply shard_Ok; [lia|split; [reflexivity|split; [done|lia]]]|].
  rewrite length_sub by done. lia.
Qed.

Lemma shard_fits payload d :
  h.(element_count) mod Z.of_nat (length requests) = 0 -> bytes <= MAX_FRAME_PAYLOAD_BYTES ->
  Zlen payload = bytes -> (d < length requests)%nat ->
  exists s, shard payload d shard_bytes = Ok s /\ fits h.(element_type) shard_count s.
Proof using H0 Hreq Hs.
  intros Hdiv Hmax Hlen Hd. pose proof Hmax as Hmax'.
  change MAX_FRAME_PAYLOAD_BYTES with 1073741824 in Hmax'.
  destruct (shard_is_Ok payload d Hdiv ltac:(lia) Hlen Hd) as (s & Hsh & Hsl).
  destruct (shard_facts Hdiv ltac:(lia)) as (_ & Hsb & Hsc & Heq).
  destruct (session_world _ _ _ Hs) as [Hpos _]. destruct request0_facts as (_ & _ & _ & Hn).
  exists s. split; [done|]. split_and!; [unfold in_width in *; nia| |done].
  intros He. destruct (Hn He) as [Hc0 Hb0].
  assert (Hz : shard_bytes = 0) by nia. split; [nia|].
  unfold Zlen in Hsl. destruct s; [done|]. cbn in Hsl. lia.
Qed.

Lemma gather_shards_fits d :
  h.(element_count) mod Z.of_nat (length requests) = 0 ->
  Forall (fun r => Zlen r.(payload) = bytes) requests -> (d < length requests)%nat ->
  exists p, gather_shards requests d shard_bytes = Ok p /\ fits h.(element_type) h.(element_count) p.
Proof using H0 Hreq Hs.
  intros Hdiv Hall Hd. destruct request0_facts as (Hc & _ & _ & Hn).
  assert (Hmax : bytes <= MAX_FRAME_PAYLOAD_BYTES).
  { pose proof (Forall_lookup_1 _ _ _ _ Hall H0) as Hl. cbv beta in Hl. rewrite <- Hl.
    destruct (request_facts request0) as (_ & ? & _); [|done]. eapply Forall_lookup_1; eauto. }
  pose proof Hmax as Hmax'. change MAX_FRAME_PAYLOAD_BYTES with 1073741824 in Hmax'.
  destruct (shard_facts Hdiv ltac:(lia)) as (_ & Hsb & Hsc & Heq).
  assert (Hpieces : exists ss, mapM (fun r => shard r.(payload) d shard_bytes) requests = Ok ss).
  { apply mapM_is_Ok. eapply Forall_impl; [exact Hall|]. intros r Hr. cbv beta in Hr.
    destruct (shard_is_Ok r.(payload) d Hdiv ltac:(lia) Hr Hd) as (s & Hsh & _). eauto. }
  destruct Hpieces as [ss Hss]. exists (concat ss). split.
  { apply (foldM_append (fun r => shard r.(payload) d shard_bytes)). by exists ss. }
  assert (Hl : Zlen (concat ss) = bytes).
  { rewrite <- Heq, Z.mul_comm. apply mapM_Ok in Hss.
    rewrite (Forall2_length _ _ _ Hss). apply length_concat_const.
    apply Forall_forall. intros s Hin. apply list_elem_of_lookup in Hin as [i Hi].
    destruct (Forall2_lookup_r _ _ _ _ _ Hss Hi) as (r & Hri & Hsh).
    destruct (shard_is_Ok r.(payload) d Hdiv ltac:(lia) (Forall_lookup_1 _ _ _ _ Hall Hri) Hd)
      as (s' & Hsh' & Hl). congruence. }
  split_and!; [by rewrite Hl| |intros _; by rewrite Hl].
  intros He. destruct (Hn He) as [Hc0 Hb0]. split; [done|].
  unfold Zlen in Hl. destruct (concat ss); [done|]. cbn in Hl. lia.
Qed.

Lemma payloads_bounded r : r ∈ requests -> Zlen r.(payload) <= MAX_FRAME_PAYLOAD_BYTES.
Proof using Hreq.
  intros Hin. destruct (request_facts r) as (_ & ? & _); [|done].
  by eapply Forall_forall in Hreq.
Qed.

Lemma is_multiple_of_world :
  is_multiple_of h.(element_count) (Z.of_nat (length requests)) = true <->
    h.(element_count) mod Z.of_nat (length requests) = 0.
Proof using Hs.
  destruct (session_world _ _ _ Hs) as [Hpos _]. unfold is_multiple_of.
  rewrite (proj2 (Z.eqb_neq (Z.of_nat (length requests)) 0)) by lia. by rewrite Z.eqb_eq.
Qed.

Lemma required_root_is_Ok (Q : nat -> Prop) :
  (exists root, required_root (if h.(root_rank) =? ANY_RANK then None
      else Some (Z.to_nat h.(root_rank))) (length requests) = Ok root /\ Q root) <->
    h.(root_rank) < Z.of_nat (length requests) /\ Q (Z.to_nat h.(root_rank)).
Proof using H0 Hreq Hs.
  destruct request0_facts as (_ & Hr & _). destruct (session_world _ _ _ Hs) as [_ Hw].
  setoid_rewrite required_root_Ok. unfold ANY_RANK, U32_MAX.
  destruct (Z.eqb_spec (root_rank h) (2 ^ 32 - 1)) as [He|He]; split.
  - by intros (root & [? _] & _).
  - intros [? _]. lia.
  - intros (root & [[= <-] Hlt] & HQ). split; [lia|done].
  - intros [Hlt HQ]. exists (Z.to_nat (root_rank h)). split; [split; [done|lia]|done].
Qed.

Lemma fail_if_is_Ok {E} b (e : E) (P : Prop) :
  (exists a, fail_if b e = Ok a /\ P) <-> b = false /\ P.
Proof. setoid_rewrite fail_if_Ok. split; [naive_solver|]. intros [? ?]. by exists tt. Qed.

Definition all_carry (n : Z) : Prop := Forall (fun r => Zlen r.(payload) = n) requests.
Definition root_carries : Prop :=
  forall i r, requests !! i = Some r ->
    Zlen r.(payload) = if (i =? Z.to_nat h.(root_rank))%nat then bytes else 0.

Lemma all_carry_is_Ok n (P : Prop) :
  (exists u, require_all_payloads requests n = Ok u /\ P) <-> all_carry n /\ P.
Proof. setoid_rewrite require_all_payloads_Ok. split; [naive_solver|]. intros. by exists tt. Qed.

Lemma root_carries_is_Ok (P : Prop) :
  (exists u, require_only_root_payload requests (Z.to_nat h.(root_rank)) bytes = Ok u /\ P) <->
    root_carries /\ P.
Proof.
  setoid_rewrite require_only_root_payload_Ok. split; [naive_solver|]. intros. by exists tt.
Qed.

Lemma whole_fits p : Zlen p = bytes -> bytes <= MAX_FRAME_PAYLOAD_BYTES ->
  fits h.(element_type) h.(element_count) p.
Proof using H0 Hreq.
  intros Hl Hmax. destruct request0_facts as (_ & _ & _ & Hn).
  split_and!; [by rewrite Hl| |done]. intros He. destruct (Hn He) as [Hc0 Hb0].
  split; [done|]. unfold Zlen in Hl. destruct p; [done|]. cbn in Hl. lia.
Qed.

Lemma root_request :
  h.(root_rank) < Z.of_nat (length requests) -> root_carries ->
  exists r, requests !! Z.to_nat h.(root_rank) = Some r /\
    Zlen r.(payload) = bytes /\ bytes <= MAX_FRAME_PAYLOAD_BYTES.
Proof using H0 Hreq.
  intros Hlt Hroot. destruct request0_facts as (_ & Hr & _).
  destruct (lookup_lt_is_Some_2 requests (Z.to_nat (root_rank h))) as [r Hlk]; [lia|].
  exists r. split; [done|]. pose proof (Hroot _ _ Hlk) as Hl. rewrite Nat.eqb_refl in Hl.
  split; [done|]. rewrite <- Hl. apply payloads_bounded. by eapply list_elem_of_lookup_2.
Qed.

(** The tails of [route]: what is left to check once sizes and root agree. *)
Lemma broadcast_is_Ok :
  h.(root_rank) < Z.of_nat (length requests) -> root_carries ->
  exists rs, (request ← index requests (Z.to_nat h.(root_rank));
    route_same_payload requests uid sequence Opcode.Broadcast h.(element_type)
      h.(element_count) request.(payload)) = Ok rs.
Proof using H0 Hreq Hs.
  intros Hlt Hroot. destruct (root_request Hlt Hroot) as (r & Hlk & Hl & Hmax).
  apply bind_is_Ok. exists r. split; [by apply index_Ok|].
  apply route_same_payload_is_Ok; [done|apply request0_facts|by apply whole_fits].
Qed.

Lemma scatter_is_Ok :
  h.(root_rank) < Z.of_nat (length requests) -> root_carries ->
  h.(element_count) mod Z.of_nat (length requests) = 0 ->
  exists rs, (shard_bytes ← arith usize_bits shard_bytes;
    mapM (fun rank =>
            request ← index requests (Z.to_nat h.(root_rank));
            piece ← shard request.(payload) rank shard_bytes;
            data_response requests uid sequence Opcode.Scatter h.(element_type) rank
              shard_count piece) (seq 0 (length requests))) = Ok rs.
Proof using H0 Hreq Hs.
  intros Hlt Hroot Hdiv. destruct (root_request Hlt Hroot) as (r & Hlk & Hl & Hmax).
  pose proof Hmax as Hmax'. change MAX_FRAME_PAYLOAD_BYTES with 1073741824 in Hmax'.
  destruct (shard_facts Hdiv ltac:(lia)) as (Hsc & Hsb & _).
  apply bind_is_Ok. exists shard_bytes. split; [by apply arith_in|].
  apply (seq_Ok _ (fun _ => True)); [|done]. intros d Hd. split; [done|]. intros _.
  apply bind_is_Ok. exists r. split; [by apply index_Ok|].
  destruct (shard_fits r.(payload) d Hdiv Hmax Hl Hd) as (s & Hsh & Hfit).
  apply bind_is_Ok. exists s. split; [done|]. by apply response_is_Ok.
Qed.

(** Everything is concatenated and [answer] sends the whole to some ranks. *)
Lemma gathered_is_Ok (answer : Z -> list Z -> nresult (list Frame)) what :
  all_carry bytes ->
  (forall total p, in_width 64 total ->
     (exists rs, answer total p = Ok rs) <-> fits h.(element_type) total p) ->
  (exists rs, (payload ← concatenate_payloads requests;
     total ← ok_or (checked_mul usize_bits h.(element_count) (Z.of_nat (length requests)))
               (InvalidConfiguration what);
     answer total payload) = Ok rs) <->
    Z.of_nat (length requests) * bytes <= MAX_FRAME_PAYLOAD_BYTES.
Proof using H0 Hreq Hs.
  intros Hall Ha. rewrite <- fits_gathered by done. rewrite bind_is_Ok.
  setoid_rewrite bind_is_Ok. setoid_rewrite ok_or_Ok. split.
  - intros (p & Hp & t & Ht & Hrs). exists p. split; [done|]. exists t. split; [done|].
    apply checked_Some in Ht as [Heq Hw]. subst t. split; [done|]. by apply Ha.
  - intros (p & Hp & t & Ht & Hw & Hfit). exists p. split; [done|]. exists t. split; [done|].
    by apply Ha.
Qed.

Lemma and_under (P Q R : Prop) : (P -> Q <-> R) -> P /\ Q <-> P /\ R.
Proof. tauto. Qed.

Lemma reduce_scatter_is_Ok :
  all_carry bytes -> h.(element_count) mod Z.of_nat (length requests) = 0 -> bytes < 2 ^ 64 ->
  exists rs, (shard_bytes ← arith usize_bits shard_bytes;
    mapM (fun destination =>
            _ ← arith usize_bits (shard_bytes * Z.of_nat (length requests));
            payload ← gather_shards requests destination shard_bytes;
            total ← arith usize_bits (shard_count * Z.of_nat (length requests));
            data_response requests uid sequence Opcode.ReduceScatter h.(element_type) destination
              total payload) (seq 0 (length requests))) = Ok rs.
Proof using H0 Hreq Hs.
  intros Hall Hdiv Hlt. destruct (shard_facts Hdiv Hlt) as (Hsc & Hsb & Hc' & Hb').
  destruct request0_facts as (Hc & _ & Hb & _).
  apply bind_is_Ok. exists shard_bytes. split; [by apply arith_in|].
  apply (seq_Ok _ (fun _ => True)); [|done]. intros d Hd. split; [done|]. intros _.
  rewrite Hb', Hc'. apply bind_is_Ok. exists bytes. split; [by apply arith_in|].
  destruct (gather_shards_fits d Hdiv Hall Hd) as (p & Hp & Hfit).
  apply bind_is_Ok. exists p. split; [done|].
  apply bind_is_Ok. exists (element_count h). split; [by apply arith_in|].
  by apply response_is_Ok.
Qed.

Lemma all_to_all_is_Ok :
  all_carry bytes -> h.(element_count) mod Z.of_nat (length requests) = 0 -> bytes < 2 ^ 64 ->
  exists rs, (shard_bytes ← arith usize_bits shard_bytes;
    mapM (fun destination =>
            payload ← gather_shards requests destination shard_bytes;
            data_response requests uid sequence Opcode.AllToAll h.(element_type) destination
              h.(element_count) payload) (seq 0 (length requests))) = Ok rs.
Proof using H0 Hreq Hs.
  intros Hall Hdiv Hlt. destruct (shard_facts Hdiv Hlt) as (Hsc & Hsb & _).
  destruct request0_facts as (Hc & _).
  apply bind_is_Ok. exists shard_bytes. split; [by apply arith_in|].
  apply (seq_Ok _ (fun _ => True)); [|done]. intros d Hd. split; [done|]. intros _.
  destruct (gather_shards_fits d Hdiv Hall Hd) as (p & Hp & Hfit).
  apply bind_is_Ok. exists p. split; [done|]. by apply response_is_Ok.
Qed.

Lemma route_is_Ok :
  h.(opcode) <> Opcode.AllToAllV ->
  (exists rs, route uid sequence requests = Ok rs) <-> routable h.
Proof using H0 Hreq Hs.
  intros Hv. unfold route, routable. fold bytes.
  assert (Hi : index (E:=NetworkError) requests 0 = Ok request0) by (by apply index_Ok).
  rewrite Hi. cbn [mbind outcome_bind]. fold h.
  destruct request0_facts as (Hc & Hr & Hb & Hn).
  unfold usize_try_from_u64. rewrite (checked_in 64 _ Hc). cbn [ok_or mbind outcome_bind].
  change (checked_mul 64 (element_count h) (byte_width (element_type h))) with (checked 64 bytes).
  destruct (checked 64 bytes) as [b|] eqn:Hbytes; cbn [ok_or mbind outcome_bind].
  2: { split; [by intros [? ?]|]. intros [Hlt _]. rewrite checked_in in Hbytes; [done|].
       unfold in_width. lia. }
  apply checked_Some in Hbytes as [-> [_ Hlt]].
  assert (Hdrop : forall P : Prop, bytes < 2 ^ 64 /\ P <-> P) by (clear -Hlt; tauto).
  rewrite Hdrop. clear Hdrop.
  destruct (opcode h) eqn:Hop; try (by split; [intros [? ?]|]).
  - rewrite bind_is_Ok, required_root_is_Ok, bind_is_Ok, root_carries_is_Ok.
    split; [naive_solver|]. intros [Hlt' Hroot]. split_and!; [done|done|by apply broadcast_is_Ok].
  - rewrite bind_is_Ok, all_carry_is_Ok. apply and_under. intros Hall.
    apply gathered_is_Ok; [done|]. intros t p Ht. by apply route_same_payload_is_Ok.
  - rewrite bind_is_Ok, required_root_is_Ok, bind_is_Ok, all_carry_is_Ok.
    apply and_under. intros Hroot. apply and_under. intros Hall.
    apply gathered_is_Ok; [done|]. intros t p Ht. apply route_root_payload_is_Ok; [done|lia|done].
  - rewrite bind_is_Ok, required_root_is_Ok, bind_is_Ok, root_carries_is_Ok.
    rewrite bind_is_Ok, fail_if_is_Ok, negb_false_iff, is_multiple_of_world.
    apply and_under. intros Hroot. apply and_under. intros Hcarry.
    split; [naive_solver|]. intros Hdiv. split; [done|]. by apply scatter_is_Ok.
  - rewrite bind_is_Ok, required_root_is_Ok, bind_is_Ok, all_carry_is_Ok.
    apply and_under. intros Hroot. apply and_under. intros Hall.
    apply gathered_is_Ok; [done|]. intros t p Ht. apply route_root_payload_is_Ok; [done|lia|done].
  - rewrite bind_is_Ok, all_carry_is_Ok. apply and_under. intros Hall.
    apply gathered_is_Ok; [done|]. intros t p Ht. by apply route_same_payload_is_Ok.
  - rewrite bind_is_Ok, all_carry_is_Ok. apply and_under. intros Hall.
    rewrite bind_is_Ok, fail_if_is_Ok, negb_false_iff, is_multiple_of_world.
    split; [naive_solver|]. intros Hdiv. split; [done|]. by apply reduce_scatter_is_Ok.
  - rewrite bind_is_Ok, all_carry_is_Ok. apply and_under. intros Hall.
    rewrite bind_is_Ok, fail_if_is_Ok, negb_false_iff, is_multiple_of_world.
    split; [naive_solver|]. intros Hdiv. split; [done|]. by apply all_to_all_is_Ok.
  - by apply route_empty_is_Ok.
  - rewrite bind_is_Ok, fail_if_is_Ok. rewrite route_empty_is_Ok by done.
    rewrite !orb_false_iff, !negb_false_iff, bool_decide_eq_true, Z.eqb_eq, Z.eqb_neq. tauto.
Qed.

(** *** No panics *)
Lemma frame_result_no_panic hdr p : no_panic (lift_protocol (frame_new hdr p)).
Proof. apply lift_protocol_no_panic, frame_new_no_panic. Qed.

Lemma data_response_no_panic op et d count p :
  no_panic (data_response requests uid sequence op et d count p).
Proof. apply frame_result_no_panic. Qed.

Lemma is_Ok_no_panic {E A} (m : outcome E A) : (exists a, m = Ok a) -> no_panic m.
Proof. by intros [a ->]. Qed.

Lemma concatenate_payloads_no_panic : no_panic (concatenate_payloads requests).
Proof. unfold concatenate_payloads. solve_no_panic. Qed.

Lemma required_root_no_panic root world : no_panic (required_root root world).
Proof. unfold required_root. by repeat case_match. Qed.

Lemma require_only_root_payload_no_panic root n :
  no_panic (require_only_root_payload requests root n).
Proof.
  unfold require_only_root_payload. apply (foldM_no_panic (fun _ => True)); [done|].
  intros s [i r] _ _. split; [apply fail_if_no_panic|done].
Qed.

Lemma rooted_no_panic {A} (k : nat -> nresult A) :
  (h.(root_rank) < Z.of_nat (length requests) -> no_panic (k (Z.to_nat h.(root_rank)))) ->
  no_panic (root ← required_root (if h.(root_rank) =? ANY_RANK then None
      else Some (Z.to_nat h.(root_rank))) (length requests); k root).
Proof using H0 Hreq Hs.
  intros Hk. apply bind_no_panic; [apply required_root_no_panic|]. intros root Hroot.
  destruct (proj1 (required_root_is_Ok (fun r => r = root))) as [Hlt <-]; [by exists root|].
  by apply Hk.
Qed.

Lemma root_carries_no_panic {A} (k : unit -> nresult A) :
  (root_carries -> no_panic (k tt)) ->
  no_panic (u ← require_only_root_payload requests (Z.to_nat h.(root_rank)) bytes; k u).
Proof.
  intros Hk. apply bind_no_panic; [apply require_only_root_payload_no_panic|].
  intros [] Hr. apply Hk. exact (proj1 (require_only_root_payload_Ok _ _ _ _) Hr).
Qed.

Lemma all_carry_no_panic {A} n (k : unit -> nresult A) :
  (all_carry n -> no_panic (k tt)) -> no_panic (u ← require_all_payloads requests n; k u).
Proof.
  intros Hk. apply bind_no_panic; [apply fail_if_no_panic|].
  intros [] Hr. apply Hk. by apply require_all_payloads_Ok in Hr.
Qed.

Lemma divisible_no_panic {A} e (k : unit -> nresult A) :
  (h.(element_count) mod Z.of_nat (length requests) = 0 -> no_panic (k tt)) ->
  no_panic (u ← fail_if (negb (is_multiple_of h.(element_count) (Z.of_nat (length requests)))) e;
            k u).
Proof using Hs.
  intros Hk. apply bind_no_panic; [apply fail_if_no_panic|].
  intros [] Hr%fail_if_Ok%negb_false_iff%is_multiple_of_world. by apply Hk.
Qed.

Lemma gathered_no_panic (answer : Z -> list Z -> nresult (list Frame)) what :
  (forall total p, no_panic (answer total p)) ->
  no_panic (payload ← concatenate_payloads requests;
     total ← ok_or (checked_mul usize_bits h.(element_count) (Z.of_nat (length requests)))
               (InvalidConfiguration what);
     answer total payload).
Proof.
  intros Ha. apply bind_no_panic; [apply concatenate_payloads_no_panic|]. intros p _.
  apply bind_no_panic; [apply ok_or_no_panic|]. auto.
Qed.

Lemma route_same_payload_no_panic op et count p :
  no_panic (route_same_payload requests uid sequence op et count p).
Proof. apply mapM_seq_no_panic. intros. apply data_response_no_panic. Qed.

Lemma route_root_payload_no_panic op et root count p :
  no_panic (route_root_payload requests uid sequence op et root count p).
Proof.
  apply mapM_seq_no_panic. intros. case_match; [apply data_response_no_panic|].
  apply frame_result_no_panic.
Qed.

Lemma route_empty_no_panic op : no_panic (route_empty requests uid sequence op).
Proof.
  unfold route_empty. apply bind_no_panic; [apply fail_if_no_panic|]. intros _ _.
  apply mapM_seq_no_panic. intros. apply frame_result_no_panic.
Qed.

Lemma route_no_panic :
  h.(opcode) <> Opcode.AllToAllV -> no_panic (route uid sequence requests).
Proof using H0 Hreq Hs.
  intros Hv. unfold route.
  assert (Hi : index (E:=NetworkError) requests 0 = Ok request0) by (by apply index_Ok).
  rewrite Hi. cbn [mbind outcome_bind]. fold h.
  destruct request0_facts as (Hc & Hr & Hb & Hn).
  apply bind_no_panic; [apply ok_or_no_panic|]. intros c Hcc%ok_or_Ok.
  apply checked_Some in Hcc as [-> _].
  apply bind_no_panic; [apply ok_or_no_panic|]. intros b Hbytes%ok_or_Ok.
  apply checked_Some in Hbytes as [-> [_ Hlt]]. fold bytes in Hlt |- *.
  destruct (opcode h) eqn:Hop; try reflexivity; try (by destruct Hv).
  - apply rooted_no_panic. intros Hroot. apply root_carries_no_panic. intros Hcarry.
    by apply is_Ok_no_panic, broadcast_is_Ok.
  - apply all_carry_no_panic. intros _. apply gathered_no_panic. intros.
    apply route_same_payload_no_panic.
  - apply rooted_no_panic. intros _. apply all_carry_no_panic. intros _.
    apply gathered_no_panic. intros. apply route_root_payload_no_panic.
  - apply rooted_no_panic. intros Hroot. apply root_carries_no_panic. intros Hcarry.
    apply divisible_no_panic. intros Hdiv. by apply is_Ok_no_panic, scatter_is_Ok.
  - apply rooted_no_panic. intros _. apply all_carry_no_panic. intros _.
    apply gathered_no_panic. intros. apply route_root_payload_no_panic.
  - apply all_carry_no_panic. intros _. apply gathered_no_panic. intros.
    apply route_same_payload_no_panic.
  - apply all_carry_no_panic. intros Hall. apply divisible_no_panic. intros Hdiv.
    by apply is_Ok_no_panic, reduce_scatter_is_Ok.
  - apply all_carry_no_panic. intros Hall. apply divisible_no_panic. intros Hdiv.
    by apply is_Ok_no_panic, all_to_all_is_Ok.
  - apply route_empty_no_panic.
  - apply bind_no_panic; [apply fail_if_no_panic|]. intros _ _. apply route_empty_no_panic.
Qed.
End admission.

(** ** Theorems *)
Section coordinator.
Context `{Crc32Hash} (uid : list Z) (sequence : Z) (requests : list Frame)
  (Hs : session_ok uid sequence (length requests)).

Lemma agreed_first d request0 :
  requests !! 0%nat = Some request0 -> agreed uid (length requests) 0 d requests ->
  d = request_descriptor request0.(header).
Proof using Type. intros H0 Ha. by destruct (Ha 0%nat request0 H0) as [_ ->]. Qed.

Lemma agree_requests_no_panic ag rank world l :
  agreement_ok ag -> no_panic (agree_requests ag uid sequence world rank l).2.
Proof using Type.
  clear Hs requests. revert ag rank. induction l as [|request l IH]; intros ag rank Hok; [done|].
  destruct (agree_requests_cons ag uid sequence world rank request l)
    as [[_ ->]|(_ & e & ->)]; [|done].
  set (d := request_descriptor (header request)).
  pose proof (submit_invariant_step ag rank sequence d Hok) as Hok1.
  assert (Hnp : no_panic (submit ag rank sequence d).2).
  { destruct (submit_cases ag rank sequence d Hok)
      as [(Hr & ->)|[(Hr & Hseq & ->)|[(Hr & -> & Hin & ->)|[(e & Hr & -> & Hin & Hf & Hne & ->)|
          (Hr & -> & Hin & Hf)]]]]; try done.
    rewrite submit_accept_cases by done. by repeat case_decide. }
  destruct (submit ag rank sequence d) as [ag1 [b|e|]]; try done. by apply IH.
Qed.

(** C2: What a successful collective delivers.  When the coordinator answers,
    every request belonged to the session and to its connection and asked for
    the same operation, and rank [d] gets exactly one response: it carries the
    bytes that the operation owes to [d] (the root's payload for a broadcast,
    everything in rank order for the gathering operations, piece [d] of every
    payload in rank order for the exchanging ones) under a valid header, and
    the client of rank [d] accepts it. *)
Theorem coordinator_delivers ag ag' request0 responses :
  agreement_ok ag -> requests !! 0%nat = Some request0 -> Forall sendable requests ->
  request0.(header).(opcode) <> Opcode.AllToAllV ->
  validate_and_route ag uid sequence requests = (ag', Ok responses) ->
  agreed uid (length requests) 0 (request_descriptor request0.(header)) requests /\
  length responses = length requests /\
  forall d f, responses !! d = Some f ->
    answers uid sequence request0.(header).(opcode) (length requests) d
      (delivered request0.(header) (map payload requests) d) f /\
    validate_response f uid (Z.of_nat d) (Z.of_nat (length requests)) sequence = Ok tt.
Proof using Hs.
  intros Hok H0 Hreq Hv Hr. unfold validate_and_route in Hr.
  destruct (agree_requests ag uid sequence (length requests) 0 requests) as [ag1 r] eqn:Ha.
  injection Hr as <- Hr. apply bind_Ok in Hr as ([] & -> & Hr).
  destruct (agree_requests_sound _ _ _ _ _ _ _ Hok Ha) as (_ & d & Hd & _).
  rewrite (agreed_first _ _ H0 Hd) in Hd. split; [done|].
  destruct (route_answers uid sequence requests Hs request0 responses H0) as [Hlen Hans];
    [|done|done|].
  { by apply (request0_facts requests request0 H0 Hreq). }
  split; [done|]. intros k f Hf. split; [by apply Hans|].
  by eapply answers_accepted, Hans.
Qed.

(** What an idle coordinator answers, given what it routes. *)
Lemma admits_routed ag request0 (routed : Prop) :
  idle ag (length requests) sequence -> sequence < U64_MAX -> requests !! 0%nat = Some request0 ->
  (exists responses, route uid sequence requests = Ok responses) <-> routed ->
  no_panic (route uid sequence requests) ->
  ((exists responses, validate_and_route ag uid sequence requests =
      (mkAgreement (length requests) (sequence + 1) ∅, Ok responses)) <->
   agreed uid (length requests) 0 (request_descriptor request0.(header)) requests /\ routed) /\
  no_panic (validate_and_route ag uid sequence requests).2.
Proof using Hs.
  intros Hidle Hmax H0 Hrouted Hroute.
  pose proof (idle_sequence _ _ _ Hidle) as Hsq. pose proof (idle_ok _ _ _ Hidle) as Hok.
  unfold validate_and_route. split; [split|].
  - intros [rs Hr]. destruct (agree_requests ag uid _ _ 0 requests) as [ag1 r] eqn:Ha.
    injection Hr as -> Hr. apply bind_Ok in Hr as ([] & -> & Hr).
    destruct (agree_requests_sound _ _ _ _ _ _ _ Hok Ha) as (_ & d & Hd & _).
    rewrite (agreed_first _ _ H0 Hd) in Hd. split; [done|]. apply Hrouted. by exists rs.
  - intros [Ha [rs Hrs]%Hrouted].
    pose proof (agree_requests_idle requests ag uid _ ltac:(by rewrite Hsq)
      ltac:(by rewrite Hsq) Ha) as Hall.
    rewrite Hsq in Hall. rewrite Hall. exists rs. by rewrite Hrs.
  - pose proof (agree_requests_no_panic ag 0 (length requests) requests Hok) as Hnp.
    destruct (agree_requests ag uid _ _ 0 requests) as [ag1 r]. cbn [snd] in *.
    by apply bind_no_panic.
Qed.

End coordinator.

(** *** Exchanging twice *)
Section exchange.
Context `{Crc32Hash} (uid : list Z).

(** Piece [d] of what rank [j] received is piece [j] of what rank [d] sent. *)
Lemma pieces_transposed n (payloads : list (list Z)) d j p :
  Forall (fun p => length p = (length payloads * n)%nat) payloads ->
  (d < length payloads)%nat -> payloads !! j = Some p ->
  sub (j * n) n (concat (map (sub (d * n) n) payloads)) = sub (d * n) n p.
Proof using Type.
  intros Hall Hd Hj.
  rewrite (sub_concat _ _ _ (sub (d * n) n p)); [done| |].
  - apply Forall_map. eapply Forall_impl; [exact Hall|]. intros q Hq. cbv beta in Hq |- *.
    apply length_sub. nia.
  - rewrite list_lookup_fmap, Hj. done.
Qed.

Lemma exchange_twice n (payloads : list (list Z)) d p :
  Forall (fun p => length p = (length payloads * n)%nat) payloads -> payloads !! d = Some p ->
  concat (map (fun q => sub (d * n) n q)
    (map (fun j => concat (map (sub (j * n) n) payloads)) (seq 0 (length payloads)))) = p.
Proof using Type.
  intros Hall Hd. pose proof (Forall_lookup_1 _ _ _ _ Hall Hd) as Hp. cbv beta in Hp.
  rewrite map_map. etransitivity; [|apply (take_ge p (length payloads * n)); lia].
  rewrite <- concat_subs by lia. f_equal. apply map_ext_in.
  intros j [_ Hj]%in_seq. apply pieces_transposed; [done|lia|done].
Qed.

(** Exchanging twice restores the data: if every rank sends back, in an
    all-to-all of the same shape, exactly what it received in an all-to-all,
    then every rank ends up with the payload that it sent first. *)
Theorem all_to_all_involutive sequence1 sequence2 requests1 requests2 request1 request2
    responses1 responses2 :
  session_ok uid sequence1 (length requests1) -> session_ok uid sequence2 (length requests2) ->
  Forall sendable requests1 -> Forall sendable requests2 ->
  requests1 !! 0%nat = Some request1 -> requests2 !! 0%nat = Some request2 ->
  request1.(header).(opcode) = Opcode.AllToAll -> request2.(header).(opcode) = Opcode.AllToAll ->
  request2.(header).(element_type) = request1.(header).(element_type) ->
  request2.(header).(element_count) = request1.(header).(element_count) ->
  route uid sequence1 requests1 = Ok responses1 ->
  map payload requests2 = map payload responses1 ->
  route uid sequence2 requests2 = Ok responses2 ->
  map payload responses2 = map payload requests1.
Proof using Type.
  intros Hs1 Hs2 Hq1 Hq2 H1 H2 Ho1 Ho2 Het Hec Hr1 Hmap Hr2.
  destruct (proj1 (route_is_Ok uid sequence1 requests1 Hs1 request1 H1 Hq1 ltac:(by rewrite Ho1)))
    as [Hlt Hroutable]; [by exists responses1|].
  rewrite Ho1 in Hroutable. destruct Hroutable as [Hcarry Hdiv].
  pose proof (shard_facts uid sequence1 requests1 Hs1 request1 H1 Hq1 Hdiv Hlt)
    as (_ & [Hsb _] & _ & Heq).
  assert (Hw : forall (s : Z) (q : Frame) rs r, session_ok uid s (length rs) -> Forall sendable rs ->
    rs !! 0%nat = Some q -> opcode (header q) = Opcode.AllToAll -> route uid s rs = Ok r ->
    length r = length rs /\ forall d f, r !! d = Some f ->
      payload f = concat (map (piece (header q) (length rs) d) (map payload rs))).
  { intros s q rs r Hs Hq H0 Ho Hr.
    destruct (route_answers uid s rs Hs q r H0) as [Hlen Hans]; [|by rewrite Ho|done|].
    { by apply (request0_facts rs q H0 Hq). }
    split; [done|]. intros d f Hf. rewrite (answer_payload _ _ _ _ _ _ _ (Hans d f Hf)).
    unfold delivered. by rewrite Ho, length_map. }
  destruct (Hw _ _ _ _ Hs1 Hq1 H1 Ho1 Hr1) as [Hl1 Hp1].
  destruct (Hw _ _ _ _ Hs2 Hq2 H2 Ho2 Hr2) as [Hl2 Hp2].
  assert (Hlen : length requests2 = length requests1)
    by (apply (f_equal length) in Hmap; rewrite !length_map in Hmap; lia).
  set (n := piece_bytes (header request1) (length requests1)) in *.
  set (payloads := map payload requests1) in *.
  assert (Hpl : length payloads = length requests1) by apply length_map.
  assert (Hall : Forall (fun p => length p = (length payloads * n)%nat) payloads).
  { apply Forall_map. eapply Forall_impl; [exact Hcarry|]. intros r Hr. cbv beta in Hr |- *.
    rewrite Hpl. unfold n, piece_bytes, Zlen in *. nia. }
  assert (Hsent : map payload responses1 =
    map (fun j => concat (map (sub (j * n) n) payloads)) (seq 0 (length payloads))).
  { apply list_eq. intros j. rewrite !list_lookup_fmap.
    destruct (responses1 !! j) as [f|] eqn:Hf; cbn.
    - pose proof (lookup_lt_Some _ _ _ Hf). rewrite lookup_seq_lt by lia. cbn. f_equal.
      by rewrite (Hp1 _ _ Hf).
    - apply lookup_ge_None in Hf. by rewrite lookup_seq_ge by lia. }
  apply list_eq. intros d. fold payloads. rewrite list_lookup_fmap.
  destruct (responses2 !! d) as [f|] eqn:Hf; cbn.
  - pose proof (lookup_lt_Some _ _ _ Hf).
    destruct (lookup_lt_is_Some_2 payloads d) as [p Hp]; [lia|]. rewrite Hp. f_equal.
    rewrite (Hp2 _ _ Hf), Hmap, Hsent.
    unfold piece, piece_bytes. rewrite Het, Hec, Hlen. by apply exchange_twice.
  - apply lookup_ge_None in Hf. symmetry. apply lookup_ge_None. lia.
Qed.
End exchange.

(** ** Witnesses: two ranks exchange and gather bytes *)
Section witnesses.
Import Crc32Ieee.

Definition example_uid : list Z := replicate 16 7.

Definition example_request (op : Opcode) (flags0 : Z) (rank : Z) (p : list Z) (count : Z) : Frame :=
  mkFrame (sealed (set_flags (collective example_uid op ElementType.U8 rank ANY_RANK 2 5 count)
                     flags0) p) p.

Lemma example_request_ok op flags0 rank p count :
  in_width 16 flags0 -> in_width 32 rank -> in_width 64 count -> Forall is_byte p ->
  frame_new (set_flags (collective example_uid op ElementType.U8 rank ANY_RANK 2 5 count) flags0) p
    = Ok (example_request op flags0 rank p count) ->
  sendable (example_request op flags0 rank p count).
Proof.
  intros Hf Hr Hc Hp Hn. apply frame_new_inv in Hn as (_ & Ht & Hv).
  { split; [|exact Hv]. by split. }
  split; cbn; try done; try (unfold in_width, ANY_RANK, U32_MAX; lia).
  repeat constructor; cbn; lia.
Qed.

Ltac example_request :=
  apply example_request_ok;
    [unfold in_width; lia | unfold in_width; lia | unfold in_width; lia
    | repeat constructor; cbn; lia | vm_compute; reflexivity].

Definition gather_requests : list Frame :=
  [example_request Opcode.AllGather 0 0 [1; 2] 2; example_request Opcode.AllGather 0 1 [3; 4] 2].
Definition exchange_requests : list Frame :=
  [example_request Opcode.AllToAll 0 0 [1; 2] 2; example_request Opcode.AllToAll 0 1 [3; 4] 2].
Definition exchange_back : list Frame :=
  [example_request Opcode.AllToAll 0 0 [1; 3] 2; example_request Opcode.AllToAll 0 1 [2; 4] 2].
Ltac all_requests :=
  unfold gather_requests, exchange_requests, exchange_back;
  repeat (apply Forall_cons_2; [example_request|]); apply Forall_nil_2.

Definition example_agreement : CollectiveAgreement := mkAgreement 2 5 ∅.

Lemma example_session n : (n = 2)%nat -> session_ok example_uid 5 n.
Proof.
  intros ->. split; [done|repeat constructor; cbn; lia|unfold in_width; lia|lia].
Qed.

Lemma example_idle : idle example_agreement 2 5.
Proof.
  split; try done. split; cbn; [lia|unfold in_width; lia|].
  intros k l Hk. by rewrite lookup_empty in Hk.
Qed.

Lemma gather_requests_ok : Forall sendable gather_requests.
Proof. all_requests. Qed.

Lemma exchange_requests_ok : Forall sendable exchange_requests /\ Forall sendable exchange_back.
Proof. split; all_requests. Qed.

(** The responses that [route] computes. *)
Definition routed (requests : list Frame) : list Frame :=
  match route example_uid 5 requests with Ok responses => responses | _ => [] end.

Lemma coordinator_delivers_witness :
  exists responses, length responses = 2%nat /\
    forall d f, responses !! d = Some f ->
      answers example_uid 5 Opcode.AllGather 2 d [1; 2; 3; 4] f.
Proof.
  exists (routed gather_requests).
  destruct (coordinator_delivers example_uid 5 gather_requests (example_session 2 eq_refl)
    example_agreement (mkAgreement 2 6 ∅) (example_request Opcode.AllGather 0 0 [1; 2] 2)
    (routed gather_requests)
    (idle_ok _ _ _ example_idle) eq_refl gather_requests_ok ltac:(discriminate)
    ltac:(vm_compute; reflexivity)) as (_ & Hl & Ha).
  split; [exact Hl|]. intros d f Hf. exact (proj1 (Ha d f Hf)).
Defined.

Lemma all_to_all_involutive_witness :
  map payload (routed exchange_back) = [[1; 2]; [3; 4]].
Proof.
  apply (all_to_all_involutive example_uid 5 5 exchange_requests exchange_back
    (example_request Opcode.AllToAll 0 0 [1; 2] 2) (example_request Opcode.AllToAll 0 0 [1; 3] 2)
    (routed exchange_requests) (routed exchange_back)
    (example_session 2 eq_refl) (example_session 2 eq_refl)
    (proj1 exchange_requests_ok) (proj2 exchange_requests_ok) eq_refl eq_refl eq_refl eq_refl
    eq_refl eq_refl); vm_compute; reflexivity.
Defined.
End witnesses.
