(* ===== verification/Exchange.v ===== *)
(** * The variable all-to-all: route_all_to_all_v of src/src/rank/network.rs
    against decode_counts_response of src/src/rank/payload.rs

    The coordinator splits every rank's row of counted blocks into columns;
    the client decodes the column it receives.  The theorem of this file is
    about the two sides together. *)
From S2P Require Import Prelude Protocol Agreement Errors Payload Router.

(** ** Rows and blocks *)

(** The block that a row of [counts] and [data] holds for [destination]. *)
Definition block (element_bytes : Z) (destination : nat) (row : list Z * list Z) : list Z :=
  sub (Z.to_nat (sum_Z (take destination row.1) * element_bytes))
      (Z.to_nat (default 0 (row.1 !! destination) * element_bytes)) row.2.

Definition column (destination : nat) (rows : list (list Z * list Z)) : list Z :=
  map (fun row => default 0 (row.1 !! destination)) rows.

Lemma sum_take_le counts k :
  Forall (fun c => 0 <= c) counts -> 0 <= sum_Z (take k counts) <= sum_Z counts.
Proof.
  intros Hc. rewrite <- (take_drop k counts) at 3. rewrite sum_Z_app.
  pose proof (sum_Z_nonneg _ (Forall_take _ k _ Hc)).
  pose proof (sum_Z_nonneg _ (Forall_drop _ k _ Hc)). lia.
Qed.

Lemma sum_take_S counts k c :
  counts !! k = Some c -> sum_Z (take (S k) counts) = sum_Z (take k counts) + c.
Proof.
  intros Hc. rewrite (take_S_r _ _ _ Hc), sum_Z_app. unfold sum_Z at 2. cbn. lia.
Qed.

Lemma row_shard_Ok counts data element_bytes destination s :
  Forall (in_width 64) counts -> 0 <= element_bytes ->
  row_shard (counts, data) destination element_bytes = Ok s ->
  (destination < length counts)%nat /\ s = block element_bytes destination (counts, data) /\
  Zlen s = default 0 (counts !! destination) * element_bytes.
Proof.
  intros Hc He Hr. unfold row_shard in Hr. inv_ok.
  match goal with Hx : slice_range counts _ _ = Ok _ |- _ =>
    apply slice_range_inv in Hx as [_ ->]; rewrite Nat.sub_0_r, drop_0 in * end.
  assert (Hnn : Forall (fun c => 0 <= c) counts)
    by (eapply Forall_impl; [exact Hc|]; unfold in_width; lia).
  match goal with Hx : try_sum _ = Some _ |- _ =>
    apply try_sum_spec in Hx as [-> _]; [|by apply Forall_take] end.
  repeat match goal with
  | Hx : checked_mul _ _ _ = Some _ |- _ => apply checked_Some in Hx as [-> [? ?]]
  | Hx : arith _ _ = Ok _ |- _ => apply arith_Ok in Hx as [-> [? ?]]
  | Hx : counts !! _ = Some _ |- _ => rename Hx into Hlk
  end.
  apply slice_range_inv in Hr as [Hle ->].
  split; [by eapply lookup_lt_Some|]. unfold block; cbn [fst snd]. rewrite Hlk. cbn [from_option id].
  split.
  - unfold sub. f_equal. lia.
  - unfold Zlen. rewrite length_take, length_drop. lia.
Qed.

(** The two decoders accept the same frames. *)
Lemma bind_Ok_iff {E F A B} (m1 : outcome E A) (m2 : outcome F A)
    (f1 : A -> outcome E B) (f2 : A -> outcome F B) b :
  (forall a, m1 = Ok a <-> m2 = Ok a) -> (forall a, f1 a = Ok b <-> f2 a = Ok b) ->
  m1 ≫= f1 = Ok b <-> m2 ≫= f2 = Ok b.
Proof. intros Hm Hf. rewrite !bind_Ok. split; intros (a & ? & ?); exists a; naive_solver. Qed.

Lemma ok_or_iff {E F A} (o : option A) (e : E) (f : F) a : ok_or o e = Ok a <-> ok_or o f = Ok a.
Proof. by rewrite !ok_or_Ok. Qed.

Lemma fail_if_iff {E F} b (e : E) (f : F) a : fail_if b e = Ok a <-> fail_if b f = Ok a.
Proof. by rewrite !fail_if_Ok. Qed.

Lemma slice_range_iff {E F A} (l : list A) i j r :
  slice_range (E:=E) l i j = Ok r <-> slice_range (E:=F) l i j = Ok r.
Proof. unfold slice_range. destruct (_ && _); split; try done; by intros [= ->]. Qed.

Lemma bind_comm_Ok {E A B C} (m : outcome E A) (n : outcome E B) (f : A -> B -> outcome E C) c :
  (a ← m; b ← n; f a b) = Ok c <-> (b ← n; a ← m; f a b) = Ok c.
Proof. destruct m, n; cbn; split; done. Qed.

Lemma mapM_iff {E F A B} (f : A -> outcome E B) (g : A -> outcome F B) l k :
  (forall x y, f x = Ok y <-> g x = Ok y) -> mapM f l = Ok k <-> mapM g l = Ok k.
Proof. intros Hfg. rewrite !mapM_Ok. split; intros Hl; (eapply Forall2_impl; [exact Hl|naive_solver]). Qed.

Lemma decode_counts_payload_Ok frame world element_bytes r :
  decode_counts_payload frame world element_bytes = Ok r <->
  decode_counts_response frame world element_bytes = Ok r.
Proof.
  unfold decode_counts_payload, decode_counts_response.
  apply bind_Ok_iff; [apply fail_if_iff|intros _].
  apply bind_Ok_iff; [apply ok_or_iff|intros prefix_bytes].
  apply bind_Ok_iff; [apply fail_if_iff|intros _].
  apply bind_Ok_iff; [apply slice_range_iff|intros prefix].
  apply bind_Ok_iff; [intros cs; apply mapM_iff; intros; apply ok_or_iff|intros counts].
  apply bind_Ok_iff; [apply ok_or_iff|intros total].
  apply bind_Ok_iff; [apply fail_if_iff|intros _].
  rewrite bind_comm_Ok.
  apply bind_Ok_iff; [apply slice_range_iff|intros data].
  apply bind_Ok_iff; [apply ok_or_iff|intros expected].
  apply bind_Ok_iff; [apply fail_if_iff|intros _; split; by intros [= <-]].
Qed.

(** ** The round trip through the coordinator *)
Section exchange.
Context `{Crc32Hash} (uid : list Z) (sequence : Z) (requests : list Frame)
  (Hs : session_ok uid sequence (length requests)).

Definition blocks (element_bytes : Z) (destination : nat) (rows : list (list Z * list Z))
    : list Z := concat (map (block element_bytes destination) rows).

(** The rows of the requests, as the coordinator decodes them. *)
Definition decoded (element_bytes : Z) (rows : list (list Z * list Z)) : Prop :=
  Forall2 (fun request row =>
    decode_counts_payload request (Z.of_nat (length requests)) element_bytes = Ok row)
    requests rows.

Definition rows_ok (rows : list (list Z * list Z)) : Prop :=
  Forall (fun row => Forall (in_width 64) row.1 /\ length row.1 = length requests
                     /\ Forall is_byte row.2) rows.

Lemma decoded_widths element_bytes rows :
  Forall sendable requests -> 0 <= element_bytes -> decoded element_bytes rows ->
  rows_ok rows.
Proof using Hs.
  intros Hreq He Hrows. pose proof (session_world _ _ _ Hs) as [_ Hw].
  apply Forall_forall. intros row Hin. apply list_elem_of_lookup in Hin as [j Hj].
  destruct (Forall2_lookup_r _ _ _ _ _ Hrows Hj) as (request & Hq & Hdec).
  destruct row as [counts data]. apply decode_counts_payload_Ok in Hdec.
  pose proof (sendable_typed _ (Forall_lookup_1 _ _ _ _ Hreq Hq)) as Ht.
  apply decode_counts_response_iff in Hdec as (_ & [Hp Hc] & Hl & _); [|done|done|lia].
  split_and!; [done|done|]. pose proof (frame_payload_bytes _ Ht) as Hb.
  rewrite Hp in Hb. by apply Forall_app in Hb as [_ Hb].
Qed.

(** The blocks that the loop over the rows appends. *)
Lemma row_shards_Ok element_bytes destination rows ss :
  rows_ok rows ->
  0 <= element_bytes ->
  mapM (fun row => row_shard row destination element_bytes) rows = Ok ss ->
  concat ss = blocks element_bytes destination rows /\
  Zlen (concat ss) = sum_Z (column destination rows) * element_bytes.
Proof using Type.
  intros Hrows He Hss%mapM_Ok. unfold blocks, column.
  induction Hss as [|[counts data] s rows ss Hr _ IH]; [done|].
  apply Forall_cons in Hrows as [(Hc & _) Hrows]. destruct (IH Hrows) as [Heq Hlen].
  apply row_shard_Ok in Hr as (_ & Hb & Hl); [|done|done].
  cbn [map concat fst]. rewrite <- Heq, <- Hb. split; [done|].
  unfold Zlen, sum_Z in *. cbn [foldr fst]. rewrite length_app, Nat2Z.inj_add, Hlen, Hl. lia.
Qed.

Lemma column_Ok destination (rows : list (list Z * list Z)) cs :
  mapM (fun row => index (E:=NetworkError) row.1 destination) rows = Ok cs ->
  cs = column destination rows /\ length cs = length rows.
Proof using Type.
  intros Hcs%mapM_Ok. unfold column.
  induction Hcs as [|row c rows cs Hr%index_Ok _ [IH1 IH2]]; [done|].
  cbn [map length]. rewrite Hr, IH1. by rewrite length_map.
Qed.

Lemma column_widths destination (rows : list (list Z * list Z)) :
  rows_ok rows ->
  Forall (in_width 64) (column destination rows).
Proof using Type.
  intros Hrows. unfold column. apply Forall_map. eapply Forall_impl; [exact Hrows|].
  intros [counts data] (Hc & _). cbn [fst] in *.
  destruct (counts !! destination) as [c|] eqn:Hk; cbn; [by eapply Forall_lookup_1|done].
Qed.

Lemma blocks_bytes element_bytes destination rows :
  rows_ok rows -> Forall is_byte (blocks element_bytes destination rows).
Proof using Type.
  intros Hrows. unfold blocks. apply Forall_concat, Forall_map.
  eapply Forall_impl; [exact Hrows|]. intros row (_ & _ & Hb). by apply Forall_sub.
Qed.

(** One response of the loop over the destinations. *)
Lemma all_to_all_v_response et destination rows f :
  let element_bytes := byte_width et in
  rows_ok rows ->
  length rows = length requests -> (destination < length requests)%nat ->
  (receive_counts ← mapM (fun row => index row.1 destination) rows;
   receive_total ← ok_or (try_sum receive_counts)
                     (InvalidConfiguration "all-to-all-v receive count overflow");
   prefix ← encode_counts_network receive_counts;
   _ ← ok_or (checked_mul usize_bits receive_total element_bytes)
         (InvalidConfiguration "all-to-all-v response size overflow");
   payload ← foldM (fun acc row => s ← row_shard row destination element_bytes; Ok (acc ++ s))
               prefix rows;
   let h := response_header uid Opcode.AllToAllV et sequence destination (length requests)
              receive_total in
   lift_protocol (frame_new (set_flags h (Z.lor h.(flags) FLAG_COUNTS_PREFIX)) payload)) = Ok f ->
  answers uid sequence Opcode.AllToAllV (length requests) destination
    (count_words (column destination rows) ++ blocks element_bytes destination rows) f /\
  decode_counts_response f (Z.of_nat (length requests)) element_bytes =
    Ok (column destination rows, blocks element_bytes destination rows).
Proof using Hs.
  intros element_bytes Hrows Hlen Hd Hr.
  assert (He : 0 <= element_bytes) by (unfold element_bytes; by destruct et).
  pose proof (column_widths destination rows Hrows) as Hcol.
  assert (Hnn : Forall (fun c => 0 <= c) (column destination rows))
    by (eapply Forall_impl; [exact Hcol|]; unfold in_width; lia).
  apply bind_Ok in Hr as (cs & [-> Hcl]%column_Ok & Hr).
  apply bind_Ok in Hr as (total & Htotal%ok_or_Ok & Hr).
  apply try_sum_spec in Htotal as [-> Htotal]; [|done].
  unfold encode_counts_network in Hr. rewrite (mapM_checked (fun c => c)) in Hr by done.
  cbn [mbind outcome_bind] in Hr. rewrite map_id in Hr. fold (count_words (column destination rows)) in Hr.
  apply bind_Ok in Hr as (bytes & Hbytes%ok_or_Ok & Hr).
  apply checked_Some in Hbytes as [-> [_ Hbytes]].
  apply bind_Ok in Hr as (p & Hp & Hr).
  apply (foldM_append (fun row => row_shard row destination element_bytes)) in Hp as (ss & Hss & ->).
  destruct (row_shards_Ok _ _ _ _ Hrows He Hss) as [Hdata Hdlen]. rewrite Hdata in *.
  cbv zeta in Hr. apply lift_protocol_Ok in Hr.
  assert (Hw : in_width 64 (sum_Z (column destination rows)))
    by (split; [by apply sum_Z_nonneg|done]).
  assert (Hans : answers uid sequence Opcode.AllToAllV (length requests) destination
    (count_words (column destination rows) ++ blocks element_bytes destination rows) f).
  { eapply response_answers; [exact Hs|exact Hd|exact Hw| |exact Hr]. done. }
  split; [exact Hans|].
  assert (Htyped : frame_typed f).
  { split; [apply Hans|]. rewrite (answer_payload _ _ _ _ _ _ _ Hans).
    apply Forall_app. split; [apply count_words_bytes|]. by apply blocks_bytes. }
  apply frame_new_inv in Hr as (Hf & _).
  2: { destruct (response_header_typed _ _ _ Hs Opcode.AllToAllV et destination _ Hd Hw). by split. }
  apply decode_counts_response_iff; [done|done|pose proof (session_world _ _ _ Hs); lia|].
  split_and!; [|split; [by rewrite Hf|done]|lia| |done|done].
  - rewrite Hf. by destruct (count_words _ ++ _).
  - rewrite Hf. by destruct (count_words _ ++ _).
Qed.

(** What a routed variable all-to-all consists of. *)
Lemma all_to_all_v_routed request0 responses :
  requests !! 0%nat = Some request0 -> Forall sendable requests ->
  request0.(header).(opcode) = Opcode.AllToAllV ->
  route uid sequence requests = Ok responses ->
  let element_bytes := byte_width request0.(header).(element_type) in
  exists rows, decoded element_bytes rows /\ rows_ok rows /\
    length responses = length requests /\
    forall d f, responses !! d = Some f ->
      answers uid sequence Opcode.AllToAllV (length requests) d
        (count_words (column d rows) ++ blocks element_bytes d rows) f /\
      decode_counts_response f (Z.of_nat (length requests)) element_bytes =
        Ok (column d rows, blocks element_bytes d rows).
Proof using Hs.
  intros H0 Hreq Hop Hr element_bytes. unfold route in Hr.
  apply bind_Ok in Hr as (q & Hq%index_Ok & Hr). rewrite H0 in Hq. injection Hq as <-.
  apply bind_Ok in Hr as (count & _ & Hr). apply bind_Ok in Hr as (b & _ & Hr).
  rewrite Hop in Hr. unfold route_all_to_all_v in Hr.
  apply bind_Ok in Hr as (u & _ & Hr). apply bind_Ok in Hr as (rows & Hrows%mapM_Ok & Hr).
  apply mapM_seq_Ok in Hr as [Hlen Hf].
  assert (He : 0 <= element_bytes) by (unfold element_bytes; by destruct (element_type _)).
  pose proof (decoded_widths _ _ Hreq He Hrows) as Hrok.
  exists rows. split_and!; [exact Hrows|exact Hrok|done|]. intros d f Hd.
  pose proof (lookup_lt_Some _ _ _ Hd) as Hlt.
  apply (all_to_all_v_response _ d rows f Hrok
    ltac:(symmetry; by eapply Forall2_length) ltac:(lia) (Hf d f Hd)).
Qed.

(** *** Every routed response can be sent *)
Lemma delivered_bytes h payloads d :
  Forall (Forall is_byte) payloads -> Forall is_byte (delivered h payloads d).
Proof using Type.
  intros Hp.
  assert (Hroot : Forall is_byte (default [] (payloads !! Z.to_nat (root_rank h)))).
  { destruct (payloads !! _) as [p|] eqn:Hl; cbn; [by eapply Forall_lookup_1|constructor]. }
  assert (Hall : Forall is_byte (concat payloads)) by (by apply Forall_concat).
  assert (Hpieces : Forall is_byte (concat (map (piece h (length payloads) d) payloads))).
  { apply Forall_concat, Forall_map. eapply Forall_impl; [exact Hp|].
    intros p Hb. by apply Forall_sub. }
  unfold delivered. destruct (opcode h); try done; try (by apply Forall_nil_2).
  - by destruct (d =? _)%nat.
  - by apply Forall_sub.
  - by destruct (d =? _)%nat.
Qed.

Lemma payloads_bytes : Forall sendable requests -> Forall (Forall is_byte) (map payload requests).
Proof using Type.
  intros Hreq. apply Forall_map. eapply Forall_impl; [exact Hreq|].
  intros f Hf. apply (sendable_typed _ Hf).
Qed.

Lemma route_answered responses :
  Forall sendable requests -> route uid sequence requests = Ok responses ->
  length responses = length requests /\
  forall d f, responses !! d = Some f ->
    exists op p, answers uid sequence op (length requests) d p f /\ sendable f.
Proof using Hs.
  intros Hreq Hr. destruct (session_world _ _ _ Hs) as [Hpos _].
  destruct (lookup_lt_is_Some_2 requests 0 Hpos) as [request0 H0].
  assert (Hsend : forall op d p f, Forall is_byte p ->
    answers uid sequence op (length requests) d p f ->
    exists op p, answers uid sequence op (length requests) d p f /\ sendable f).
  { intros op d p f Hp Ha. exists op, p. split; [done|].
    split; [split; [apply Ha|by rewrite (answer_payload _ _ _ _ _ _ _ Ha)]|apply Ha]. }
  destruct (decide (opcode (header request0) = Opcode.AllToAllV)) as [Hop|Hop].
  - destruct (all_to_all_v_routed request0 responses H0 Hreq Hop Hr) as (rows & _ & Hrok & Hlen & Ha).
    split; [done|]. intros d f Hf. destruct (Ha d f Hf) as [Hans _].
    eapply Hsend; [|exact Hans]. apply Forall_app. split; [apply count_words_bytes|by apply blocks_bytes].
  - destruct (route_answers uid sequence requests Hs request0 responses H0) as [Hlen Ha]; [|done|done|].
    { by apply (request0_facts requests request0 H0 Hreq). }
    split; [done|]. intros d f Hf. eapply Hsend; [|by apply Ha].
    by apply delivered_bytes, payloads_bytes.
Qed.

(** *** No panics *)
Lemma decode_counts_payload_no_panic frame w element_bytes :
  0 <= w -> no_panic (decode_counts_payload frame w element_bytes).
Proof using Type.
  intros Hw. unfold decode_counts_payload.
  apply bind_no_panic; [apply fail_if_no_panic|intros _ _].
  apply bind_no_panic; [apply ok_or_no_panic|]. intros prefix [-> [Hpre _]]%ok_or_Ok%checked_Some.
  apply bind_no_panic; [apply fail_if_no_panic|]. intros [] Hlen%fail_if_Ok%Z.ltb_ge.
  unfold Zlen in Hlen. apply bind_no_panic; [apply slice_range_no_panic; lia|]. intros p _.
  apply bind_no_panic; [|intros counts _].
  { apply mapM_no_panic, Forall_true. intros. apply ok_or_no_panic. }
  solve_no_panic. apply slice_range_no_panic. lia.
Qed.

Lemma row_shard_no_panic counts data element_bytes destination :
  Forall (in_width 64) counts -> 0 <= element_bytes -> (destination < length counts)%nat ->
  Zlen data = sum_Z counts * element_bytes -> sum_Z counts * element_bytes < 2 ^ 64 ->
  no_panic (row_shard (counts, data) destination element_bytes).
Proof using Type.
  intros Hc He Hd Hdata Hlt. unfold row_shard.
  assert (Hnn : Forall (fun c => 0 <= c) counts)
    by (eapply Forall_impl; [exact Hc|]; unfold in_width; lia).
  destruct (lookup_lt_is_Some_2 counts destination Hd) as [c Hlk].
  pose proof (sum_take_le counts (S destination) Hnn) as Hle.
  pose proof (sum_take_le counts destination Hnn) as Hle0.
  rewrite (sum_take_S _ _ _ Hlk) in Hle.
  pose proof (Forall_lookup_1 _ _ _ _ Hnn Hlk) as Hc0. cbv beta in Hc0.
  apply bind_no_panic; [apply slice_range_no_panic; lia|]. intros before [_ ->]%slice_range_inv.
  rewrite Nat.sub_0_r, drop_0.
  apply bind_no_panic; [apply ok_or_no_panic|]. intros start_elements Hst%ok_or_Ok.
  apply try_sum_spec in Hst as [-> _]; [|by apply Forall_take].
  apply bind_no_panic; [apply ok_or_no_panic|]. intros start [-> _]%ok_or_Ok%checked_Some.
  apply bind_no_panic; [by apply index_no_panic|]. intros count Hcount%index_Ok.
  assert (count = c) as -> by congruence.
  apply bind_no_panic; [apply ok_or_no_panic|]. intros bytes [-> _]%ok_or_Ok%checked_Some.
  rewrite arith_in by (unfold in_width; nia). cbn [mbind outcome_bind].
  apply slice_range_no_panic. unfold Zlen in Hdata. nia.
Qed.

Lemma route_all_to_all_v_no_panic et :
  Forall sendable requests -> no_panic (route_all_to_all_v requests uid sequence et (byte_width et)).
Proof using Hs.
  intros Hreq. assert (He : 0 <= byte_width et) by (by destruct et).
  unfold route_all_to_all_v. apply bind_no_panic; [apply fail_if_no_panic|intros _ _].
  apply bind_no_panic.
  { apply mapM_no_panic, Forall_true. intros r. apply decode_counts_payload_no_panic. lia. }
  intros rows Hrows%mapM_Ok. pose proof (decoded_widths _ _ Hreq He Hrows) as Hrok.
  assert (Hdata : Forall (fun row => Zlen row.2 = sum_Z row.1 * byte_width et /\
                            sum_Z row.1 * byte_width et < 2 ^ 64) rows).
  { apply Forall_forall. intros row Hin. apply list_elem_of_lookup in Hin as [j Hj].
    destruct (Forall2_lookup_r _ _ _ _ _ Hrows Hj) as (request & Hq & Hdec).
    destruct row as [counts data]. apply decode_counts_payload_Ok in Hdec.
    pose proof (session_world _ _ _ Hs) as [_ Hw].
    pose proof (sendable_typed _ (Forall_lookup_1 _ _ _ _ Hreq Hq)) as Ht.
    by apply decode_counts_response_iff in Hdec as (_ & _ & _ & _ & ? & ?); [|done|done|lia]. }
  apply mapM_seq_no_panic. intros d Hd.
  apply bind_no_panic.
  { apply mapM_no_panic. eapply Forall_impl; [exact Hrok|]. intros row (_ & Hl & _).
    apply index_no_panic. lia. }
  intros cs _. apply bind_no_panic; [apply ok_or_no_panic|intros total _].
  apply bind_no_panic.
  { unfold encode_counts_network. apply bind_no_panic; [|done].
    apply mapM_no_panic, Forall_true. intros. apply ok_or_no_panic. }
  intros prefix _. apply bind_no_panic; [apply ok_or_no_panic|intros _ _].
  apply bind_no_panic; [|intros p _; apply frame_result_no_panic].
  apply (foldM_no_panic (fun _ => True)); [done|]. intros acc row _ Hin. split; [|done].
  apply bind_no_panic; [|done].
  pose proof (proj1 (Forall_forall _ _) Hrok row Hin) as (Hc & Hl & _).
  pose proof (proj1 (Forall_forall _ _) Hdata row Hin) as [Hz Hlt].
  destruct row as [counts data]. apply row_shard_no_panic; try done. cbn in Hl. lia.
Qed.

(** The coordinator's routing never panics. *)
Lemma route_never_panics : Forall sendable requests -> no_panic (route uid sequence requests).
Proof using Hs.
  intros Hreq. destruct (session_world _ _ _ Hs) as [Hpos _].
  destruct (lookup_lt_is_Some_2 requests 0 Hpos) as [request0 H0].
  destruct (decide (opcode (header request0) = Opcode.AllToAllV)) as [Hop|Hop].
  - unfold route. assert (Hi : index (E:=NetworkError) requests 0 = Ok request0) by (by apply index_Ok).
    rewrite Hi. cbn [mbind outcome_bind]. rewrite Hop.
    apply bind_no_panic; [apply ok_or_no_panic|intros c _].
    apply bind_no_panic; [apply ok_or_no_panic|intros b _]. by apply route_all_to_all_v_no_panic.
  - by apply (route_no_panic uid sequence requests Hs request0).
Qed.

Lemma validate_and_route_no_panic ag :
  agreement_ok ag -> Forall sendable requests ->
  no_panic (validate_and_route ag uid sequence requests).2.
Proof using Hs.
  intros Hok Hreq. unfold validate_and_route.
  pose proof (agree_requests_no_panic uid sequence ag 0 (length requests) requests Hok) as Hnp.
  destruct (agree_requests ag uid sequence _ 0 requests) as [ag1 r]. cbn [snd] in *.
  apply bind_no_panic; [done|]. intros _ _. by apply route_never_panics.
Qed.

(** *** Which variable exchanges are answered *)

(** What a request must carry: as many counts as there are ranks, which sum to the count of its header, and as many elements. *)
Definition counted_row (element_bytes : Z) (request : Frame) (row : list Z * list Z) : Prop :=
  Z.testbit request.(header).(flags) 1 = true /\ counts_frame request row.1 row.2 /\
  length row.1 = length requests /\ sum_Z row.1 = request.(header).(element_count) /\
  Zlen row.2 = sum_Z row.1 * element_bytes.

(** The variable exchanges that the coordinator can answer: of a concrete type, with a row in every request, and columns that fit in a frame with their counts. *)
Definition exchangeable (h : FrameHeader) : Prop :=
  h.(element_type) <> ElementType.None /\ h.(element_count) * byte_width h.(element_type) < 2 ^ 64 /\
  exists rows, Forall2 (counted_row (byte_width h.(element_type))) requests rows /\
    forall d, (d < length requests)%nat ->
      8 * Z.of_nat (length requests) + sum_Z (column d rows) * byte_width h.(element_type) <= MAX_FRAME_PAYLOAD_BYTES.

Lemma decoded_rows element_bytes rows : Forall sendable requests -> 0 <= element_bytes ->
  decoded element_bytes rows <-> Forall2 (counted_row element_bytes) requests rows.
Proof using Hs.
  intros Hreq He. pose proof (session_world _ _ _ Hs) as [_ Hw]. unfold decoded. rewrite !Forall2_same_length_lookup.
  assert (Hrow : forall i request row, requests !! i = Some request ->
    decode_counts_payload request (Z.of_nat (length requests)) element_bytes = Ok row <-> counted_row element_bytes request row).
  { intros i request [counts data] Hq. pose proof (Forall_lookup_1 _ _ _ _ Hreq Hq) as Hsend.
    destruct (request_facts request Hsend) as (_ & Hmax & _). change MAX_FRAME_PAYLOAD_BYTES with (2 ^ 30) in Hmax.
    rewrite decode_counts_payload_Ok, decode_counts_response_iff; [|apply (sendable_typed _ Hsend)|done|lia].
    unfold counted_row. cbn [fst snd]. split; [tauto|]. intros (? & [Hp Hc] & ? & ? & Hd). split_and!; try done.
    rewrite <- Hd. rewrite Hp in Hmax. unfold Zlen in *. rewrite length_app in Hmax. lia. }
  split; (intros [Hl Hall]; split; [done|]); intros i request row Hq Hr; specialize (Hall i request row Hq Hr); by apply (Hrow i).
Qed.

Lemma row_shard_total counts data element_bytes destination :
  Forall (in_width 64) counts -> 0 <= element_bytes -> (destination < length counts)%nat ->
  Zlen data = sum_Z counts * element_bytes -> Zlen data < 2 ^ 64 -> sum_Z counts < 2 ^ 64 ->
  row_shard (counts, data) destination element_bytes = Ok (block element_bytes destination (counts, data)).
Proof using Type.
  intros Hc He Hd Hdata Hlt Hsum.
  assert (Hnn : Forall (fun c => 0 <= c) counts) by (eapply Forall_impl; [exact Hc|]; unfold in_width; lia).
  destruct (lookup_lt_is_Some_2 counts destination Hd) as [c Hlk].
  pose proof (sum_take_le counts (S destination) Hnn) as Hle. pose proof (sum_take_le counts destination Hnn) as Hle0.
  rewrite (sum_take_S _ _ _ Hlk) in Hle. pose proof (Forall_lookup_1 _ _ _ _ Hnn Hlk) as Hc0. cbv beta in Hc0.
  assert (Hs' : exists s, row_shard (counts, data) destination element_bytes = Ok s); [|].
  2: { destruct Hs' as [s Hr]. pose proof (row_shard_Ok _ _ _ _ _ Hc He Hr) as (_ & -> & _). exact Hr. }
  unfold row_shard. rewrite slice_range_Ok by lia. cbn [mbind outcome_bind]. rewrite Nat.sub_0_r, drop_0.
  rewrite (proj2 (try_sum_spec (take destination counts) (sum_Z (take destination counts)) ltac:(by apply Forall_take)) ltac:(split; [done|lia])).
  cbn [ok_or mbind outcome_bind]. unfold checked_mul. rewrite checked_in by (unfold in_width; nia). cbn [ok_or mbind outcome_bind].
  rewrite (proj2 (index_Ok counts destination c) Hlk). cbn [mbind outcome_bind].
  rewrite checked_in by (unfold in_width; nia). cbn [ok_or mbind outcome_bind].
  rewrite arith_in by (unfold in_width; nia). cbn [mbind outcome_bind].
  rewrite slice_range_Ok by (unfold Zlen in Hdata; nia). by eexists.
Qed.

(** The response to one destination is built exactly if its column fits in a frame. *)
Lemma all_to_all_v_response_is_Ok et destination rows :
  let element_bytes := byte_width et in
  et <> ElementType.None -> rows_ok rows ->
  Forall (fun row => Zlen row.2 = sum_Z row.1 * element_bytes /\ Zlen row.2 < 2 ^ 64 /\ sum_Z row.1 < 2 ^ 64) rows ->
  length rows = length requests -> (destination < length requests)%nat ->
  (exists f, (receive_counts ← mapM (fun row => index row.1 destination) rows;
   receive_total ← ok_or (try_sum receive_counts)
                     (InvalidConfiguration "all-to-all-v receive count overflow");
   prefix ← encode_counts_network receive_counts;
   _ ← ok_or (checked_mul usize_bits receive_total element_bytes)
         (InvalidConfiguration "all-to-all-v response size overflow");
   payload ← foldM (fun acc row => s ← row_shard row destination element_bytes; Ok (acc ++ s))
               prefix rows;
   let h := response_header uid Opcode.AllToAllV et sequence destination (length requests)
              receive_total in
   lift_protocol (frame_new (set_flags h (Z.lor h.(flags) FLAG_COUNTS_PREFIX)) payload)) = Ok f) <->
  8 * Z.of_nat (length requests) + sum_Z (column destination rows) * element_bytes <= MAX_FRAME_PAYLOAD_BYTES.
Proof using Hs.
  intros element_bytes Het Hrows Hdata Hlen Hd.
  assert (He : 0 < element_bytes) by (unfold element_bytes; destruct et; done).
  pose proof (column_widths destination rows Hrows) as Hcol.
  assert (Hnn : Forall (fun c => 0 <= c) (column destination rows))
    by (eapply Forall_impl; [exact Hcol|]; unfold in_width; lia).
  assert (Hshards : mapM (fun row => row_shard row destination element_bytes) rows = Ok (map (block element_bytes destination) rows)).
  { apply mapM_Ok, Forall2_fmap_r, Forall_Forall2_diag, Forall_forall. intros [counts data] Hin.
    destruct (proj1 (Forall_forall _ _) Hrows _ Hin) as (Hc & Hl & _). destruct (proj1 (Forall_forall _ _) Hdata _ Hin) as (? & ? & ?).
    apply row_shard_total; cbn in *; [done|lia|lia|done..]. }
  destruct (row_shards_Ok element_bytes destination rows _ Hrows ltac:(lia) Hshards) as [_ Hblocks].
  set (p := count_words (column destination rows) ++ concat (map (block element_bytes destination) rows)).
  assert (Hp : Zlen p = 8 * Z.of_nat (length requests) + sum_Z (column destination rows) * element_bytes).
  { unfold p, Zlen in *. rewrite length_app, length_count_words, Nat2Z.inj_add, Hblocks. unfold column. rewrite length_map. lia. }
  split.
  - intros [f Hf]. destruct (all_to_all_v_response et destination rows f Hrows Hlen Hd Hf) as [Hans _].
    fold element_bytes in Hans. rewrite <- Hp. unfold p. fold (blocks element_bytes destination rows). rewrite <- (answer_payload _ _ _ _ _ _ _ Hans).
    pose proof (answer_checked _ _ _ _ _ _ _ Hans) as Hv. apply validate_Some in Hv as (HvN & -> & _); [|apply payload_bytes_u64, Hans].
    by apply payload_len_bound.
  - intros Hmax. change MAX_FRAME_PAYLOAD_BYTES with (2 ^ 30) in Hmax.
    assert (Hsum : 0 <= sum_Z (column destination rows)) by by apply sum_Z_nonneg.
    assert (Hw : in_width 64 (sum_Z (column destination rows))) by (unfold in_width; nia).
    assert (Hcs : mapM (fun row : list Z * list Z => index (E:=NetworkError) row.1 destination) rows = Ok (column destination rows)).
    { apply mapM_Ok, Forall2_fmap_r, Forall_Forall2_diag, Forall_forall. intros row Hin.
      destruct (proj1 (Forall_forall _ _) Hrows _ Hin) as (_ & Hl & _). apply index_Ok.
      destruct (lookup_lt_is_Some_2 row.1 destination) as [c Hc]; [lia|]. by rewrite Hc. }
    rewrite Hcs. cbn [mbind outcome_bind]. rewrite (proj2 (try_sum_spec _ (sum_Z (column destination rows)) Hnn) ltac:(split; [done|apply Hw])).
    cbn [ok_or mbind outcome_bind]. unfold encode_counts_network. rewrite (mapM_checked (fun c => c)) by done. rewrite map_id.
    cbn [mbind outcome_bind]. fold (count_words (column destination rows)). unfold checked_mul.
    rewrite checked_in by (unfold in_width; nia). cbn [ok_or mbind outcome_bind].
    rewrite (proj2 (foldM_append (fun row => row_shard row destination element_bytes) (count_words (column destination rows)) rows p)
      ltac:(exists (map (block element_bytes destination) rows); by split)). cbn [mbind outcome_bind]. cbv zeta.
    set (h := set_flags _ _).
    assert (Ht : header_typed h) by (destruct (response_header_typed _ _ _ Hs Opcode.AllToAllV et destination _ Hd Hw); by split).
    pose proof (response_world _ _ _ Hs) as Hworld. pose proof (response_destination _ _ _ Hs _ Hd) as Hdest. pose proof (session_world _ _ _ Hs) as Hpos.
    exists (mkFrame (sealed h p) p). apply map_err_Ok. apply frame_new_iff; [done|done|]. split; [done|].
    change MAX_FRAME_PAYLOAD_BYTES with (2 ^ 30). split; [lia|].
    assert (Hp0 : 0 < Zlen p) by nia. unfold Zlen in Hp0. destruct p as [|b p'] eqn:Hpeq; [cbn in Hp0; lia|]. 
    split; cbn [sealed h set_flags response_header set_destination_rank collective opcode element_type
          flags source_rank destination_rank root_rank world_size element_count payload_bytes];
        rewrite ?Hworld, ?Hdest; try done; try lia; try (by left); try (by right; lia).
    intros _ _. change (Z.testbit _ 1) with true. cbv iota. rewrite Hp. unfold element_bytes. lia.
Qed.

Lemma decoded_data element_bytes rows : Forall sendable requests -> 0 <= element_bytes -> decoded element_bytes rows ->
  Forall (fun row => Zlen row.2 = sum_Z row.1 * element_bytes /\ Zlen row.2 < 2 ^ 64 /\ sum_Z row.1 < 2 ^ 64) rows.
Proof using Hs.
  intros Hreq He Hrows%(decoded_rows _ _ Hreq He). apply Forall_forall. intros row Hin. apply list_elem_of_lookup in Hin as [j Hj].
  destruct (Forall2_lookup_r _ _ _ _ _ Hrows Hj) as (request & Hq & _ & [Hp _] & _ & Hsum & Hlen).
  destruct (request_facts request (Forall_lookup_1 _ _ _ _ Hreq Hq)) as ([_ Hc] & Hmax & _). change MAX_FRAME_PAYLOAD_BYTES with (2 ^ 30) in Hmax.
  split; [done|]. rewrite Hp in Hmax. unfold Zlen in *. rewrite length_app in Hmax. lia.
Qed.

(** A variable all-to-all is routed exactly if it is exchangeable. *)
Lemma all_to_all_v_is_Ok request0 :
  requests !! 0%nat = Some request0 -> Forall sendable requests ->
  request0.(header).(opcode) = Opcode.AllToAllV ->
  (exists responses, route uid sequence requests = Ok responses) <-> exchangeable request0.(header).
Proof using Hs.
  intros H0 Hreq Hop. set (h := request0.(header)) in *. unfold route, exchangeable.
  assert (He : 0 <= byte_width h.(element_type)) by by destruct (element_type h).
  rewrite (proj2 (index_Ok requests 0 request0) H0). cbn [mbind outcome_bind]. fold h.
  destruct (request0_facts requests request0 H0 Hreq) as (Hc & _). fold h in Hc.
  unfold usize_try_from_u64. rewrite (checked_in 64 _ Hc). cbn [ok_or mbind outcome_bind]. rewrite Hop. unfold checked_mul.
  destruct (checked usize_bits (h.(element_count) * byte_width h.(element_type))) as [bytes|] eqn:Hbytes; cbn [ok_or mbind outcome_bind].
  2: { split; [by intros [? ?]|]. intros (_ & Hlt & _). rewrite checked_in in Hbytes; [done|]. unfold in_width in *. nia. }
  apply checked_Some in Hbytes as [-> [_ Hlt]].
  unfold route_all_to_all_v. rewrite bind_is_Ok, fail_if_is_Ok, orb_false_iff, bool_decide_eq_false, Z.eqb_neq, bind_is_Ok.
  assert (Hrow : forall rows, element_type h <> ElementType.None -> decoded (byte_width (element_type h)) rows ->
    forall d, (d < length requests)%nat -> _) by (intros rows Hne Hrows d Hd;
    exact (all_to_all_v_response_is_Ok (element_type h) d rows Hne (decoded_widths _ _ Hreq He Hrows) (decoded_data _ _ Hreq He Hrows)
      ltac:(symmetry; by eapply Forall2_length) Hd)).
  split.
  - intros ([Hne _] & rows & Hrows%mapM_Ok & Hrs). split; [done|]. split; [done|]. exists rows.
    split; [by apply decoded_rows|]. by apply (seq_Ok requests _ _ (Hrow rows Hne Hrows)).
  - intros (Hne & _ & rows & Hrows%(decoded_rows _ _ Hreq He) & Hcols). split; [split; [done|by destruct (element_type h)]|].
    exists rows. split; [by apply mapM_Ok|]. by apply (seq_Ok requests _ _ (Hrow rows Hne Hrows)).
Qed.

(** Of any operation. *)
Definition answerable (h : FrameHeader) : Prop :=
  match h.(opcode) with Opcode.AllToAllV => exchangeable h | _ => routable requests h end.

Lemma route_answerable request0 :
  requests !! 0%nat = Some request0 -> Forall sendable requests ->
  (exists responses, route uid sequence requests = Ok responses) <-> answerable request0.(header).
Proof using Hs.
  intros H0 Hreq. unfold answerable.
  destruct (decide (opcode (header request0) = Opcode.AllToAllV)) as [Hop|Hop].
  - rewrite Hop. by apply all_to_all_v_is_Ok.
  - rewrite (route_is_Ok uid sequence requests Hs request0 H0 Hreq Hop). by destruct (opcode (header request0)).
Qed.



(** C30: Which collectives are answered, of every opcode.  A coordinator that is
    idle at this sequence number, which is not the last one of 64 bits, answers
    exactly when every request belongs to its connection, all ask for the same
    operation and that operation is answerable: the payload sizes, the root, the
    divisibility and the frame limit that the opcode asks for and, for a variable
    all-to-all, a concrete element type, a row of counts with its elements in
    every request, and columns that fit in a frame.  The next sequence number
    then opens with nothing pending.  It never panics. *)
Theorem coordinator_admits ag request0 :
  idle ag (length requests) sequence -> sequence < U64_MAX ->
  requests !! 0%nat = Some request0 -> Forall sendable requests ->
  ((exists responses, validate_and_route ag uid sequence requests =
      (mkAgreement (length requests) (sequence + 1) ∅, Ok responses)) <->
   agreed uid (length requests) 0 (request_descriptor request0.(header)) requests
   /\ answerable request0.(header)) /\
  no_panic (validate_and_route ag uid sequence requests).2.
Proof using Hs.
  intros Hidle Hmax H0 Hreq. apply (admits_routed uid sequence requests Hs); [done|done|done| |by apply route_never_panics].
  by apply route_answerable.
Qed.

(** C25: A variable all-to-all delivers the transposed blocks.  When the
    coordinator answers one, every request decoded to a row of counts and
    blocks, and what the client of rank [d] decodes from its response is
    column [d]: from every rank, in rank order, the count and the block that
    this rank addressed to [d]. *)
Theorem all_to_all_v_delivers request0 responses :
  requests !! 0%nat = Some request0 -> Forall sendable requests ->
  request0.(header).(opcode) = Opcode.AllToAllV ->
  route uid sequence requests = Ok responses ->
  let element_bytes := byte_width request0.(header).(element_type) in
  exists rows, decoded element_bytes rows /\
    length responses = length requests /\
    forall d f, responses !! d = Some f ->
      validate_response f uid (Z.of_nat d) (Z.of_nat (length requests)) sequence = Ok tt /\
      decode_counts_response f (Z.of_nat (length requests)) element_bytes =
        Ok (column d rows, blocks element_bytes d rows).
Proof using Hs.
  intros H0 Hreq Hop Hr element_bytes.
  destruct (all_to_all_v_routed request0 responses H0 Hreq Hop Hr) as (rows & Hrows & _ & Hlen & Ha).
  exists rows. split_and!; [done|done|]. intros d f Hd. destruct (Ha d f Hd) as [Hans Hdec].
  split; [by eapply answers_accepted|exact Hdec].
Qed.
End exchange.

(** ** Witness: two ranks with rows [1; 2] and [2; 0] *)
Section witnesses.
Import Crc32Ieee.

Definition v_requests : list Frame :=
  [example_request Opcode.AllToAllV FLAG_COUNTS_PREFIX 0 (count_words [1; 2] ++ [11; 12; 13]) 3;
   example_request Opcode.AllToAllV FLAG_COUNTS_PREFIX 1 (count_words [2; 0] ++ [21; 22]) 2].

Lemma v_requests_ok : Forall sendable v_requests.
Proof.
  unfold v_requests. apply Forall_cons_2; [|apply Forall_cons_2; [|apply Forall_nil_2]];
    (apply example_request_ok;
      [vm_compute; split; [discriminate|reflexivity] | unfold in_width; lia | unfold in_width; lia
      | apply Forall_app; split; [apply count_words_bytes|repeat constructor; cbn; lia]
      | vm_compute; reflexivity]).
Qed.

Lemma all_to_all_v_delivers_witness :
  exists rows f, routed v_requests !! 0%nat = Some f /\
    decode_counts_response f 2 1 = Ok (column 0 rows, blocks 1 0 rows).
Proof.
  destruct (all_to_all_v_delivers example_uid 5 v_requests (example_session 2 eq_refl)
    (example_request Opcode.AllToAllV FLAG_COUNTS_PREFIX 0 (count_words [1; 2] ++ [11; 12; 13]) 3)
    (routed v_requests) eq_refl v_requests_ok eq_refl ltac:(vm_compute; reflexivity))
    as (rows & _ & Hl & Hf).
  destruct (lookup_lt_is_Some_2 (routed v_requests) 0) as [f Hlk]; [rewrite Hl; cbn; lia|].
  exists rows, f. split; [exact Hlk|]. exact (proj2 (Hf 0%nat f Hlk)).
Defined.

(** The same requests are answered, and so is a gather. *)
Lemma coordinator_admits_witness :
  (exists responses, validate_and_route example_agreement example_uid 5 v_requests = (mkAgreement 2 6 ∅, Ok responses)) /\
  (exists responses, validate_and_route example_agreement example_uid 5 gather_requests = (mkAgreement 2 6 ∅, Ok responses)).
Proof.
  split.
  - apply (coordinator_admits example_uid 5 v_requests (example_session 2 eq_refl) example_agreement
      (example_request Opcode.AllToAllV FLAG_COUNTS_PREFIX 0 (count_words [1; 2] ++ [11; 12; 13]) 3) example_idle
      ltac:(reflexivity) eq_refl v_requests_ok).
    split; [intros [|[|i]] r; cbn; [intros [= <-]|intros [= <-]|done]; by split|].
    split; [discriminate|]. split; [reflexivity|]. exists [([1; 2], [11; 12; 13]); ([2; 0], [21; 22])]. split.
    + repeat constructor; vm_compute; (discriminate || reflexivity || done).
    + intros [|[|d]] Hd; [vm_compute; discriminate..|cbn in Hd; lia].
  - apply (coordinator_admits example_uid 5 gather_requests (example_session 2 eq_refl)
      example_agreement (example_request Opcode.AllGather 0 0 [1; 2] 2) example_idle
      ltac:(reflexivity) eq_refl gather_requests_ok).
    split; [intros [|[|i]] r; cbn; [intros [= <-]|intros [= <-]|done]; by split|].
    split; [reflexivity|]. split; [repeat constructor|vm_compute; discriminate].
Defined.

(** What rank 0 decodes, computed. *)
Example v_column_0 :
  (f ← ok_or (routed v_requests !! 0%nat) (RankError.Overflow "none");
   decode_counts_response f 2 1) = Ok ([1; 2], [11; 21; 22]).
Proof. vm_compute. reflexivity. Qed.
End witnesses.
