(* ===== verification/Stream.v ===== *)
(** * Frames on a TCP stream: write_frame, read_frame and the reader threads
    of src/src/rank/network.rs

    A [TcpStream] is its two byte streams.  Writing may be short: the first
    [write_vectored] of a frame takes any number of bytes that the kernel
    likes, and the connection may fail after any byte.  Reading sees the bytes
    that the peer wrote, followed by the end of the stream or by an I/O
    error.  [FrameSink] is what the routers need from a stream that they
    write to. *)
From S2P Require Import Prelude Protocol Errors.

(** ** Writing *)

(** [written] has reached the connection, [room] more bytes can before it
    fails ([None]: it never fails), and [short_write n] is how many bytes the
    kernel takes at once when [n] bytes have been written before. *)
Record OutStream := mkOut {
  written : list Z;
  room : option nat;
  short_write : nat -> nat;
}.

Definition push (s : OutStream) (bytes : list Z) : OutStream :=
  mkOut (s.(written) ++ bytes) ((fun r => (r - length bytes)%nat) <$> s.(room)) s.(short_write).

(** [stream.write_all(bytes)] *)
Definition write_all (s : OutStream) (bytes : list Z) : OutStream * nresult unit :=
  match s.(room) with
  | Some r =>
      if (r <? length bytes)%nat then (push s (take r bytes), Err (NetworkError.Io OtherIo))
      else (push s bytes, Ok tt)
  | None => (push s bytes, Ok tt)
  end.

(** [stream.write_vectored(&[header, payload])]: one call takes a prefix of
    the two buffers. *)
Definition write_vectored (s : OutStream) (bytes : list Z) : OutStream * nresult nat :=
  let wanted := (s.(short_write) (length s.(written)) `min` length bytes)%nat in
  match s.(room) with
  | Some O => (s, Err (NetworkError.Io OtherIo))
  | Some r => let n := (wanted `min` r)%nat in (push s (take n bytes), Ok n)
  | None => (push s (take wanted bytes), Ok wanted)
  end.

Section streams.
Context `{Crc32Hash}.

Definition write_frame (s : OutStream) (frame : Frame) : OutStream * nresult unit :=
  match lift_protocol (encode_transport_header frame) with
  | Ok header_bytes =>
      let total := (length header_bytes + length frame.(payload))%nat in
      match write_vectored s (header_bytes ++ frame.(payload)) with
      | (s1, Ok n) =>
          if (n <? length header_bytes)%nat then
            match write_all s1 (drop n header_bytes) with
            | (s2, Ok _) => write_all s2 frame.(payload)
            | (s2, Err e) => (s2, Err e)
            | (s2, Panic) => (s2, Panic)
            end
          else if (n <? total)%nat then
            write_all s1 (drop (n - length header_bytes) frame.(payload))
          else (s1, Ok tt)
      | (s1, Err e) => (s1, Err e)
      | (s1, Panic) => (s1, Panic)
      end
  | Err e => (s, Err e)
  | Panic => (s, Panic)
  end.

(** ** Reading *)
Record InStream := mkIn { incoming : list Z; broken : bool }.

Definition end_of (s : InStream) : NetworkError :=
  NetworkError.Io (if s.(broken) then OtherIo else UnexpectedEof).

(** [stream.read_exact(&mut buffer)] for a buffer of [n] bytes *)
Definition read_exact (s : InStream) (n : nat) : nresult (list Z * InStream) :=
  if (length s.(incoming) <? n)%nat then Err (end_of s)
  else Ok (take n s.(incoming), mkIn (drop n s.(incoming)) s.(broken)).

Definition read_frame (s : InStream) : nresult (option (Frame * InStream)) :=
  match s.(incoming) with
  | [] => if s.(broken) then Err (NetworkError.Io OtherIo) else Ok None
  | first :: rest =>
      '(rest_of_header, s1) ← read_exact (mkIn rest s.(broken)) (FRAME_HEADER_BYTES - 1);
      h ← lift_protocol (header_decode (first :: rest_of_header));
      payload_length ← ok_or (usize_try_from_u64 h.(payload_bytes))
                         (InvalidConfiguration "frame payload length exceeds usize");
      '(p, s2) ← read_exact s1 (Z.to_nat payload_length);
      _ ← lift_protocol (validate h (Some p));
      Ok (Some (mkFrame h p, s2))
  end.

(** Frames written one after the other until a write fails, with the frames
    whose write succeeded. *)
Fixpoint send_all (s : OutStream) (frames : list Frame)
    : OutStream * list Frame * nresult unit :=
  match frames with
  | [] => (s, [], Ok tt)
  | frame :: frames' =>
      match write_frame s frame with
      | (s1, Ok _) => let '(s2, sent, r) := send_all s1 frames' in (s2, frame :: sent, r)
      | (s1, r) => (s1, [], r)
      end
  end.

(** What a reader thread sends: the frames in order, then one last event. *)
Inductive P2pEvent : Type :=
  | FrameArrived (rank : nat) (frame : Frame)
  | Closed (rank : nat)
  | Failed (rank : nat) (error : NetworkError).

(** The reader thread of one rank.  Every frame takes at least a header, so
    the length of the stream is enough fuel. *)
Fixpoint reader (fuel : nat) (rank : nat) (s : InStream) : list P2pEvent :=
  match fuel with
  | O => []
  | S fuel =>
      match read_frame s with
      | Ok (Some (frame, s')) => FrameArrived rank frame :: reader fuel rank s'
      | Ok None => [Closed rank]
      | Err error => [Failed rank error]
      | Panic => []
      end
  end.

Definition run_reader (rank : nat) (s : InStream) : list P2pEvent :=
  reader (S (length s.(incoming))) rank s.

End streams.

(** ** Writing a frame *)
Section write_facts.
Context `{Crc32Hash}.
Implicit Types (s : OutStream) (f : Frame).

(** [s'] is [s] after the connection took a prefix of [bytes]. *)
Definition extends s s' (bytes : list Z) (r : nresult unit) : Prop :=
  exists k, s' = push s (take k bytes) /\
    match r with
    | Ok _ => take k bytes = bytes
    | Err e => e = NetworkError.Io OtherIo /\ (k < length bytes)%nat /\
        exists n, s.(room) = Some n /\ (n < length bytes)%nat
    | Panic => False
    end.

Lemma push_app s b1 b2 : push (push s b1) b2 = push s (b1 ++ b2).
Proof.
  unfold push. cbn. rewrite app_assoc. f_equal.
  destruct (room s); cbn; [|done]. rewrite length_app. f_equal. lia.
Qed.

Lemma push_nil s : push s [] = s.
Proof. destruct s as [w [r|] sw]; unfold push; cbn; rewrite app_nil_r, ?Nat.sub_0_r; done. Qed.

Lemma write_all_extends s bytes :
  extends s (write_all s bytes).1 bytes (write_all s bytes).2.
Proof.
  unfold write_all, extends. destruct (room s) as [r|]; [destruct (Nat.ltb_spec r (length bytes))|];
    cbn [fst snd].
  - exists r. split_and!; [done|done|done|]. by exists r.
  - exists (length bytes). by rewrite take_ge by lia.
  - exists (length bytes). by rewrite take_ge by lia.
Qed.

(** A write in two steps. *)
Lemma extends_app s s1 s2 b1 b2 r :
  extends s s1 b1 (Ok tt) -> extends s1 s2 b2 r -> extends s s2 (b1 ++ b2) r.
Proof.
  intros (k1 & -> & Hk1) (k2 & -> & Hr). rewrite Hk1, push_app.
  exists (length b1 + k2)%nat.
  assert (Htake : take (length b1 + k2) (b1 ++ b2) = b1 ++ take k2 b2).
  { rewrite take_app, take_ge by lia. do 2 f_equal. lia. }
  rewrite Htake. split; [done|].
  destruct r as [u|e|]; [by rewrite Hr| |done].
  destruct Hr as (-> & Hlt2 & n & Hn & Hlt). split; [done|].
  split; [rewrite length_app; lia|]. unfold push in Hn. cbn in Hn. rewrite Hk1 in Hn.
  destruct (room s) as [m|] eqn:Hm; [|done]. injection Hn as <-.
  exists m. rewrite length_app. split; [done|lia].
Qed.

(** A write that failed in its first part. *)
Lemma extends_err s s1 b1 b2 e : extends s s1 b1 (Err e) -> extends s s1 (b1 ++ b2) (Err e).
Proof.
  intros (k & -> & -> & Hk & n & Hn & Hlt). exists (k `min` length b1)%nat.
  rewrite take_app_le by lia. rewrite <- take_take, (take_ge b1 (length b1)) by lia. split; [done|].
  split; [done|]. rewrite length_app. split; [lia|]. exists n. split; [done|lia].
Qed.

Lemma write_vectored_extends s bytes s' r :
  write_vectored s bytes = (s', r) ->
  match r with
  | Ok n => (n <= length bytes)%nat /\ extends s s' (take n bytes) (Ok tt)
  | Err e => s' = s /\ e = NetworkError.Io OtherIo /\ s.(room) = Some 0%nat
  | Panic => False
  end.
Proof.
  assert (Hext : forall n, extends s (push s (take n bytes)) (take n bytes) (Ok tt)).
  { intros n. exists (length (take n bytes)). by rewrite firstn_all. }
  unfold write_vectored. destruct (room s) as [[|m]|] eqn:Hr; intros [= <- <-].
  - by split_and!.
  - split; [lia|apply Hext].
  - split; [lia|apply Hext].
Qed.

(** However the kernel cuts the write, a prefix of the frame's bytes reaches
    the connection, all of them when the write succeeds; it fails only if the
    connection does. *)
Lemma write_frame_extends s f :
  sendable f -> extends s (write_frame s f).1 (frame_bytes f) (write_frame s f).2.
Proof.
  intros [[Ht Hp] Hv]. apply validate_Some in Hv as (HvN & Hl & _); [|apply Ht].
  destruct (payload_bytes_usize _ HvN) as [Hu _].
  unfold write_frame, encode_transport_header. rewrite Hu. cbn [ok_or mbind outcome_bind].
  rewrite Hl, Z.eqb_refl. cbn [negb fail_if mbind outcome_bind].
  rewrite header_encode_layout by apply Ht. rewrite HvN.
  cbn [mbind outcome_bind lift_protocol map_err]. fold (frame_bytes f).
  set (hb := header_layout (header f)).
  destruct (write_vectored s (frame_bytes f)) as [s1 r] eqn:Hw.
  apply write_vectored_extends in Hw. destruct r as [n|e|]; [|cbn [fst snd]|done].
  2: { destruct Hw as (-> & -> & Hr). exists 0%nat. rewrite take_0, push_nil. split; [done|].
       assert (Hpos : (0 < length (frame_bytes f))%nat).
       { unfold frame_bytes. rewrite length_app, length_header_layout by apply Ht.
         unfold FRAME_HEADER_BYTES. lia. }
       split; [done|]. split; [done|]. by exists 0%nat. }
  destruct Hw as [Hn Hext]. pose proof (take_drop n (frame_bytes f)) as Hsplit.
  destruct (Nat.ltb_spec n (length hb)) as [Hlt|Hge].
  - assert (Hrest : drop n (frame_bytes f) = drop n hb ++ payload f)
      by (unfold frame_bytes; fold hb; by rewrite drop_app_le by lia).
    rewrite Hrest in Hsplit. rewrite <- Hsplit.
    pose proof (write_all_extends s1 (drop n hb)) as Hw1.
    destruct (write_all s1 (drop n hb)) as [s2 [[]|e|]]; cbn [fst snd] in *.
    + eapply extends_app; [exact Hext|]. eapply extends_app; [exact Hw1|].
      apply write_all_extends.
    + rewrite app_assoc. apply extends_err. by eapply extends_app.
    + by destruct Hw1 as (? & _ & []).
  - assert (Hrest : drop n (frame_bytes f) = drop (n - length hb) (payload f)).
    { unfold frame_bytes. rewrite drop_app, (drop_ge (header_layout _)) by (unfold hb in *; lia). done. }
    rewrite Hrest in Hsplit.
    destruct (Nat.ltb_spec n (length hb + length (payload f))) as [Hlt|Hall].
    + rewrite <- Hsplit. eapply extends_app; [exact Hext|]. apply write_all_extends.
    + rewrite take_ge in Hext; [exact Hext|].
      unfold frame_bytes. rewrite length_app. unfold hb in *. lia.
Qed.
End write_facts.

(** ** Reading a frame *)
Section read_facts.
Context `{Crc32Hash}.
Implicit Types (s : InStream) (f : Frame).

Lemma read_exact_app b1 b2 n b :
  length b1 = n -> read_exact (mkIn (b1 ++ b2) b) n = Ok (b1, mkIn b2 b).
Proof.
  intros <-. unfold read_exact. cbn [incoming broken].
  rewrite (proj2 (Nat.ltb_ge _ _)) by (rewrite length_app; lia).
  by rewrite take_app_length, drop_app_length.
Qed.

Lemma read_exact_short bytes n b :
  (length bytes < n)%nat -> read_exact (mkIn bytes b) n = Err (end_of (mkIn bytes b)).
Proof. intros Hlt. unfold read_exact. cbn [incoming]. by rewrite (proj2 (Nat.ltb_lt _ _)). Qed.

(** The first byte of a header and the rest of it. *)
Lemma header_layout_first h :
  header_typed h -> exists first rest, header_layout h = first :: rest /\
    length rest = (FRAME_HEADER_BYTES - 1)%nat.
Proof.
  intros Ht. pose proof (length_header_layout h (unique_id_length _ Ht)) as Hl.
  destruct (header_layout h) as [|first rest]; [done|]. exists first, rest.
  cbn in Hl. split; [done|lia].
Qed.

Lemma read_frame_whole f rest b :
  sendable f -> read_frame (mkIn (frame_bytes f ++ rest) b) = Ok (Some (f, mkIn rest b)).
Proof.
  intros [[Ht Hp] Hv]. pose proof Hv as Hvp.
  apply validate_Some in Hv as (HvN & Hl & _); [|apply Ht].
  destruct (payload_bytes_usize _ HvN) as [Hu _].
  destruct (header_layout_first _ Ht) as (first & hrest & Hlay & Hlen).
  unfold read_frame, frame_bytes. rewrite Hlay, <- app_assoc. cbn [app incoming broken].
  rewrite read_exact_app by done. cbn [mbind outcome_bind].
  rewrite <- Hlay. rewrite <- (app_nil_r (header_layout _)), header_decode_layout by done.
  rewrite HvN. cbn [mbind outcome_bind lift_protocol map_err]. rewrite Hu.
  cbn [ok_or mbind outcome_bind].
  rewrite read_exact_app by (unfold Zlen in Hl; lia). cbn [mbind outcome_bind].
  rewrite Hvp. cbn [mbind outcome_bind lift_protocol map_err]. by destruct f.
Qed.

Lemma read_frame_partial f k b :
  sendable f -> (0 < k < length (frame_bytes f))%nat ->
  read_frame (mkIn (take k (frame_bytes f)) b) = Err (end_of (mkIn [] b)).
Proof.
  intros [[Ht Hp] Hv] Hk. apply validate_Some in Hv as (HvN & Hl & _); [|apply Ht].
  destruct (payload_bytes_usize _ HvN) as [Hu _].
  destruct (header_layout_first _ Ht) as (first & hrest & Hlay & Hlen).
  unfold read_frame. unfold frame_bytes in Hk |- *. rewrite length_app, Hlay in Hk.
  cbn [length] in Hk. rewrite Hlay. destruct k as [|k]; [lia|]. cbn [app take incoming broken].
  destruct (decide (k < length hrest)%nat) as [Hshort|Hlong].
  - rewrite read_exact_short; [done|]. rewrite take_app_le, length_take by lia. lia.
  - rewrite take_app, take_ge by lia. rewrite read_exact_app by done. cbn [mbind outcome_bind].
    rewrite <- Hlay. rewrite <- (app_nil_r (header_layout _)), header_decode_layout by done.
    rewrite HvN. cbn [mbind outcome_bind lift_protocol map_err]. rewrite Hu.
    cbn [ok_or mbind outcome_bind]. rewrite read_exact_short; [done|].
    rewrite length_take. unfold Zlen in Hl. lia.
Qed.

(** The last event of a reader whose stream ends in the middle of a frame, or
    between two frames. *)
Definition last_event (rank : nat) (mid_frame broken : bool) : P2pEvent :=
  if broken then Failed rank (NetworkError.Io OtherIo)
  else if mid_frame then Failed rank (NetworkError.Io UnexpectedEof)
  else Closed rank.

Lemma length_frame_bytes f : frame_typed f -> (FRAME_HEADER_BYTES <= length (frame_bytes f))%nat.
Proof.
  intros [Ht _]. unfold frame_bytes. rewrite length_app, length_header_layout by apply Ht. lia.
Qed.

(** What a failed write leaves behind: part of a frame, or nothing. *)
Definition partial (tail : list Z) : Prop :=
  tail = [] \/
  exists f k, sendable f /\ (0 < k < length (frame_bytes f))%nat /\ tail = take k (frame_bytes f).

Lemma reader_frames fuel rank frames tail b :
  Forall sendable frames -> partial tail ->
  let bytes := concat (map frame_bytes frames) ++ tail in
  (length bytes < fuel)%nat ->
  reader fuel rank (mkIn bytes b) =
    map (FrameArrived rank) frames ++ [last_event rank (negb (bool_decide (tail = []))) b].
Proof.
  intros Hfs Ht. revert fuel. induction Hfs as [|g frames Hg _ IH]; intros fuel bytes Hfuel.
  - destruct fuel as [|fuel]; [lia|]. unfold bytes. cbn [concat map app reader].
    destruct Ht as [->|(f & k & Hf & Hk & ->)]; [by destruct b|].
    rewrite read_frame_partial by done. rewrite bool_decide_false; [by destruct b|].
    intros Hnil. apply (f_equal length) in Hnil. rewrite length_take in Hnil. cbn in Hnil. lia.
  - destruct fuel as [|fuel]; [lia|]. unfold bytes. cbn [concat map app reader].
    rewrite <- app_assoc, read_frame_whole by done. f_equal. apply IH.
    pose proof (length_frame_bytes g (sendable_typed _ Hg)) as Hlen.
    unfold bytes in Hfuel. cbn [map concat] in Hfuel. rewrite <- app_assoc, length_app in Hfuel.
    unfold FRAME_HEADER_BYTES in Hlen. lia.
Qed.

End read_facts.

(** ** From the writer to the reader *)
Section transmission.
Context `{Crc32Hash}.

Lemma send_all_written frames (s : OutStream) s' sent r :
  Forall sendable frames -> send_all s frames = (s', sent, r) ->
  sent `prefix_of` frames /\ no_panic r /\ (r = Ok tt -> sent = frames) /\
  exists tail, partial tail /\ (r = Ok tt -> tail = []) /\
    s'.(written) = s.(written) ++ concat (map frame_bytes sent) ++ tail.
Proof.
  intros Hfs. revert s sent. induction Hfs as [|f frames Hf _ IH]; intros s sent Hsend;
    cbn [send_all] in Hsend.
  - injection Hsend as <- <- <-. split_and!; try done. exists [].
    split_and!; [by left|done|by rewrite app_nil_r].
  - pose proof (write_frame_extends s f Hf) as Hext.
    destruct (write_frame s f) as [s1 [[]|e|]]; cbn [fst snd] in Hext.
    + destruct (send_all s1 frames) as [[s2 sent2] r2] eqn:Hs2. injection Hsend as <- <- <-.
      destruct (IH s1 sent2 Hs2) as (Hpre & Hnp & Hall & tail & Ht & Hrt & Hw).
      split; [by apply prefix_cons|]. split; [done|]. split; [intros Hr; by rewrite Hall|].
      exists tail. split_and!; [done|done|]. destruct Hext as (k & -> & Hk).
      rewrite Hw, Hk. cbn [push written map concat]. by rewrite <- !app_assoc.
    + injection Hsend as <- <- <-. split_and!; [apply prefix_nil|done|done|].
      destruct Hext as (k & -> & _ & Hk & _). cbn [push written map concat app].
      exists (take k (frame_bytes f)). split_and!; [|done|done].
      destruct k as [|k]; [by left|]. right. exists f, (S k). split_and!; [done|lia|lia|done].
    + by destruct Hext as (? & _ & []).
Qed.

(** C28: Transmission of frames.  However the kernel cuts the writes and
    wherever the connection fails, the reader at the other end gets exactly the
    frames whose write succeeded, in order and unchanged, and then one last
    event; if no write failed these are all the frames.  Nothing panics. *)
Theorem transmission rank (s : OutStream) frames broken s' sent r :
  s.(written) = [] -> Forall sendable frames ->
  send_all s frames = (s', sent, r) ->
  sent `prefix_of` frames /\ no_panic r /\ (r = Ok tt -> sent = frames) /\
  exists mid_frame, (r = Ok tt -> mid_frame = false) /\
    run_reader rank (mkIn s'.(written) broken) =
      map (FrameArrived rank) sent ++ [last_event rank mid_frame broken].
Proof.
  intros Hw0 Hfs Hsend.
  destruct (send_all_written _ _ _ _ _ Hfs Hsend) as (Hpre & Hnp & Hall & tail & Ht & Hrt & Hw).
  split_and!; try done. exists (negb (bool_decide (tail = []))).
  split; [intros Hr; by rewrite (Hrt Hr)|]. rewrite Hw, Hw0. cbn [app].
  destruct Hpre as [rest ->].
  apply Forall_app in Hfs as [Hfs _]. apply reader_frames; [done|done|]. cbn [incoming]. lia.
Qed.
End transmission.
(** ** The interface of a router to its streams

    [sink_frames] is what the peer will read, [sink_ok] that nothing else is
    in the stream. *)
Class FrameSink `{Crc32Hash} (S : Type) := {
  sink_write : S -> Frame -> S * nresult unit;
  sink_frames : S -> list Frame;
  sink_ok : S -> Prop;
  sink_write_Ok : forall s frame s',
    sink_ok s -> sendable frame -> sink_write s frame = (s', Ok tt) ->
    sink_ok s' /\ sink_frames s' = sink_frames s ++ [frame];
  sink_no_panic : forall s frame, no_panic (sink_write s frame).2;
}.

(** ** TCP streams are frame sinks *)
Section out_stream_sink.
Context `{Crc32Hash}.

(** The frames that the peer of [s] reads. *)
Definition frames_of (s : OutStream) : list Frame :=
  omap (fun event => match event with FrameArrived _ frame => Some frame | _ => None end)
    (run_reader 0 (mkIn s.(written) false)).

(** Whole frames and nothing else have been written. *)
Definition whole_frames (s : OutStream) : Prop :=
  exists frames, Forall sendable frames /\ s.(written) = concat (map frame_bytes frames).

Lemma frames_of_whole s frames :
  Forall sendable frames -> s.(written) = concat (map frame_bytes frames) ->
  frames_of s = frames.
Proof.
  intros Hfs Hw. unfold frames_of, run_reader. rewrite Hw. cbn [incoming].
  pose proof (reader_frames (S (length (concat (map frame_bytes frames)))) 0 frames [] false Hfs
    ltac:(by left)) as Hr.
  cbn zeta in Hr. rewrite app_nil_r in Hr. rewrite Hr by (cbn; lia).
  rewrite omap_app. cbn. rewrite app_nil_r. clear. induction frames; cbn; congruence.
Qed.

Lemma write_frame_whole s frame s' :
  whole_frames s -> sendable frame -> write_frame s frame = (s', Ok tt) ->
  whole_frames s' /\ frames_of s' = frames_of s ++ [frame].
Proof.
  intros (frames & Hfs & Hw) Hf Hs. pose proof (write_frame_extends s frame Hf) as Hext.
  rewrite Hs in Hext. cbn [fst snd] in Hext. destruct Hext as (k & -> & Hk).
  assert (Hfs' : Forall sendable (frames ++ [frame])) by (apply Forall_app; split; [done|by apply Forall_singleton]).
  assert (Hw' : written (push s (take k (frame_bytes frame))) =
    concat (map frame_bytes (frames ++ [frame]))).
  { cbn. rewrite Hk, Hw, map_app, concat_app. cbn. by rewrite app_nil_r. }
  split; [by exists (frames ++ [frame])|].
  by rewrite (frames_of_whole _ _ Hfs' Hw'), (frames_of_whole _ _ Hfs Hw).
Qed.

Lemma write_all_no_panic s bytes : no_panic (write_all s bytes).2.
Proof. unfold write_all. by repeat case_match. Qed.

Lemma write_frame_no_panic s frame : no_panic (write_frame s frame).2.
Proof.
  assert (He : no_panic (lift_protocol (encode_transport_header frame))).
  { apply lift_protocol_no_panic. unfold encode_transport_header, header_encode.
    solve_no_panic; apply validate_no_panic. }
  unfold write_frame. destruct (lift_protocol (encode_transport_header frame)) as [hb|e|]; try done.
  destruct (write_vectored s (hb ++ payload frame)) as [s1 [n|e|]] eqn:Hw; try done.
  - destruct (n <? length hb)%nat;
      [|destruct (n <? length hb + length (payload frame))%nat; [apply write_all_no_panic|done]].
    pose proof (write_all_no_panic s1 (drop n hb)).
    destruct (write_all s1 (drop n hb)) as [s2 [u|e|]]; try done. apply write_all_no_panic.
  - by apply write_vectored_extends in Hw.
Qed.

#[export] Instance out_stream_sink : FrameSink OutStream := {
  sink_write := write_frame;
  sink_frames := frames_of;
  sink_ok := whole_frames;
  sink_write_Ok := write_frame_whole;
  sink_no_panic := write_frame_no_panic;
}.
End out_stream_sink.

(** A sink that records whole frames, for examples. *)
#[export] Instance log_sink `{Crc32Hash} : FrameSink (list Frame).
Proof.
  refine {| sink_write := fun s frame => (s ++ [frame], Ok tt);
            sink_frames := fun s => s; sink_ok := fun _ => True |}.
  - by intros s frame s' _ _ [= <-].
  - done.
Defined.

(** ** Witness: two frames, short writes and a connection that fails *)
Section witnesses.
Import Crc32Ieee.

Lemma test_frame_sendable : sendable test_frame.
Proof. split; [apply test_frame_typed|vm_compute; reflexivity]. Qed.

(** The kernel takes 30 bytes at a time; the connection fails in the second
    frame. *)
Definition example_stream : OutStream := mkOut [] (Some 120%nat) (fun _ => 30%nat).

Definition example_written : list Z :=
  (send_all example_stream [test_frame; test_frame]).1.1.(written).

Lemma transmission_witness :
  exists mid_frame,
    run_reader 1 (mkIn example_written false) =
      [FrameArrived 1 test_frame; last_event 1 mid_frame false].
Proof.
  destruct (transmission 1 example_stream [test_frame; test_frame] false
    (send_all example_stream [test_frame; test_frame]).1.1 [test_frame] (Err (NetworkError.Io OtherIo))
    eq_refl ltac:(repeat (apply Forall_cons_2; [apply test_frame_sendable|]); apply Forall_nil_2)
    ltac:(vm_compute; reflexivity)) as (_ & _ & _ & mid & _ & Hr).
  exists mid. exact Hr.
Defined.
End witnesses.
