(* ===== verification/P2p.v ===== *)
(** * The point-to-point router: run_p2p_loop and route_p2p_request of
    src/src/rank/network.rs

    Sends and receives of all ranks arrive interleaved; the router keeps the
    ones that have no partner yet in two queues and answers a pair as soon as
    it is complete.  The streams it writes to are any [FrameSink]. *)
From S2P Require Import Prelude Protocol Errors Router Stream.

(** ** Requests *)
Definition validate_p2p_request (frame : Frame) (uid : list Z) (world connection_rank : nat)
    : nresult unit :=
  let h := frame.(header) in
  _ ← fail_if (negb (bool_decide (h.(unique_id) = uid))) NetworkError.WrongSession;
  _ ← fail_if (negb (h.(world_size) =? Z.of_nat world)
               || negb (h.(source_rank) =? Z.of_nat connection_rank))
        (InvalidConfiguration
           "point-to-point connection rank {connection_rank} submitted source {} and world {}");
  _ ← fail_if (negb (h.(root_rank) =? ANY_RANK))
        (InvalidConfiguration "point-to-point request cannot declare a collective root");
  let has_payload := negb (bool_decide (frame.(payload) = [])) in
  let not_empty_control :=
    negb (h.(destination_rank) =? ANY_RANK)
    || negb (bool_decide (h.(element_type) = ElementType.None))
    || negb (h.(element_count) =? 0) || has_payload in
  match h.(opcode) with
  | Opcode.Send =>
      fail_if (h.(destination_rank) =? ANY_RANK)
        (InvalidConfiguration "point-to-point send requires a destination rank")
  | Opcode.Receive =>
      fail_if has_payload
        (InvalidConfiguration "point-to-point receive request cannot carry data")
  | Opcode.Abort =>
      fail_if (negb (h.(destination_rank) =? ANY_RANK)
               || negb (bool_decide (h.(element_type) = ElementType.U8)) || negb has_payload)
        (InvalidConfiguration "point-to-point abort requires a non-empty U8 message")
  | Opcode.Heartbeat =>
      fail_if not_empty_control
        (InvalidConfiguration "point-to-point heartbeat must be an empty control frame")
  | Opcode.Leave =>
      fail_if not_empty_control
        (InvalidConfiguration "point-to-point LEAVE must be an empty control frame")
  | _ => Err (InvalidConfiguration "opcode {opcode:?} is invalid on the point-to-point channel")
  end.

Definition p2p_matches (send receive : Frame) : bool :=
  (send.(header).(destination_rank) =? receive.(header).(source_rank))
  && ((receive.(header).(destination_rank) =? ANY_RANK)
      || (receive.(header).(destination_rank) =? send.(header).(source_rank)))
  && (send.(header).(tag) =? receive.(header).(tag)).

(** [queue.iter().position(p)] and [queue.remove(index)] *)
Fixpoint remove_first {A} (p : A -> bool) (l : list A) : option (A * list A) :=
  match l with
  | [] => None
  | x :: l' =>
      if p x then Some (x, l')
      else match remove_first p l' with
           | Some (y, l'') => Some (y, x :: l'')
           | None => None
           end
  end.

Section router.
Context `{Crc32Hash} {S : Type} `{!FrameSink S}.

Definition p2p_send_acknowledgement (send : Frame) (uid : list Z) (world : nat) : nresult Frame :=
  let h := collective uid Opcode.Send ElementType.None send.(header).(source_rank) ANY_RANK
             (wrap 32 (Z.of_nat world)) send.(header).(sequence) 0 in
  lift_protocol
    (frame_new (set_tag (set_destination_rank h send.(header).(source_rank)) send.(header).(tag)) []).

Definition p2p_heartbeat_response (heartbeat : Frame) (uid : list Z) (world : nat)
    : nresult Frame :=
  let h := collective uid Opcode.Heartbeat ElementType.None heartbeat.(header).(source_rank)
             ANY_RANK (wrap 32 (Z.of_nat world)) heartbeat.(header).(sequence) 0 in
  lift_protocol (frame_new (set_destination_rank h heartbeat.(header).(source_rank)) []).

(** [write_frame(&mut streams[index], frame)] *)
Definition write_to (streams : list S) (index : nat) (frame : Frame) : list S * nresult unit :=
  match streams !! index with
  | Some s => let '(s', r) := sink_write s frame in (<[index := s']> streams, r)
  | None => (streams, Panic)
  end.

Definition deliver_p2p_receive (streams : list S) (uid : list Z) (world : nat)
    (send receive : Frame) : list S * nresult unit :=
  if negb (bool_decide (send.(header).(element_type) = receive.(header).(element_type)))
     || negb (send.(header).(element_count) =? receive.(header).(element_count))
  then (streams, Err (InvalidConfiguration
          "point-to-point tag {} contract mismatch: send {:?}/{} receive {:?}/{}"))
  else
    let receiver := Z.to_nat receive.(header).(source_rank) in
    let h := collective uid Opcode.Receive send.(header).(element_type)
               send.(header).(source_rank) ANY_RANK (wrap 32 (Z.of_nat world))
               receive.(header).(sequence) send.(header).(element_count) in
    let h := set_tag (set_destination_rank h receive.(header).(source_rank))
               send.(header).(tag) in
    match lift_protocol (frame_new h send.(payload)) with
    | Ok response => write_to streams receiver response
    | Err e => (streams, Err e)
    | Panic => (streams, Panic)
    end.

(** The streams and queues that the requests share. *)
Record P2pRouter := mkRouter {
  p2p_streams : list S;
  p2p_sends : list Frame;
  p2p_receives : list Frame;
}.

Definition with_streams (st : P2pRouter) (r : list S * nresult unit) : P2pRouter * nresult unit :=
  (mkRouter r.1 st.(p2p_sends) st.(p2p_receives), r.2).

(** [let x = m?; k(x)] in the middle of a state change. *)
Definition and_then {A} (st : P2pRouter) (m : nresult A) (k : A -> P2pRouter * nresult unit)
    : P2pRouter * nresult unit :=
  match m with Ok a => k a | Err e => (st, Err e) | Panic => (st, Panic) end.

Definition route_p2p_request (st : P2pRouter) (uid : list Z) (world connection_rank : nat)
    (frame : Frame) : P2pRouter * nresult unit :=
  and_then st (validate_p2p_request frame uid world connection_rank) (fun _ =>
  match frame.(header).(opcode) with
  | Opcode.Send =>
      let sender := Z.to_nat frame.(header).(source_rank) in
      and_then st (p2p_send_acknowledgement frame uid world) (fun acknowledgement =>
      let '(st1, written) := with_streams st (write_to st.(p2p_streams) sender acknowledgement) in
      and_then st1 written (fun _ =>
      match remove_first (p2p_matches frame) st1.(p2p_receives) with
      | Some (receive, receives) =>
          with_streams (mkRouter st1.(p2p_streams) st1.(p2p_sends) receives)
            (deliver_p2p_receive st1.(p2p_streams) uid world frame receive)
      | None =>
          (mkRouter st1.(p2p_streams) (st1.(p2p_sends) ++ [frame]) st1.(p2p_receives), Ok tt)
      end))
  | Opcode.Receive =>
      match remove_first (fun send => p2p_matches send frame) st.(p2p_sends) with
      | Some (send, sends) =>
          with_streams (mkRouter st.(p2p_streams) sends st.(p2p_receives))
            (deliver_p2p_receive st.(p2p_streams) uid world send frame)
      | None =>
          (mkRouter st.(p2p_streams) st.(p2p_sends) (st.(p2p_receives) ++ [frame]), Ok tt)
      end
  | Opcode.Heartbeat =>
      and_then st (p2p_heartbeat_response frame uid world) (fun response =>
      with_streams st (write_to st.(p2p_streams) connection_rank response))
  | Opcode.Leave => (st, Ok tt)
  | Opcode.Abort =>
      (st, Err (NetworkError.RemoteAbort "rank {connection_rank} aborted: {}" frame.(payload)))
  | _ => (st, Panic)
  end).

(** ** The event loop *)

(** The text of an error, as [Display] renders it, and the message of a remote
    abort with the bytes that the peer sent in it. *)
Variables (error_text : NetworkError -> list Z) (abort_text : string -> list Z -> list Z).

Definition server_failure_text (error : NetworkError) : list Z :=
  match error with
  | NetworkError.RemoteAbort message sent => abort_text message sent
  | _ => error_text error
  end.

(** [publish_server_failure]: the first message stays. *)
Definition publish_server_failure (failure : option (list Z)) (message : list Z)
    : option (list Z) :=
  match failure with Some m => Some m | None => Some message end.

Definition broadcast_p2p_abort (streams : list S) (uid : list Z) (world : nat)
    (message : list Z) : list S :=
  imap (fun rank stream =>
          match abort_frame uid 0 (wrap 32 (Z.of_nat rank)) (wrap 32 (Z.of_nat world)) message with
          | Ok frame => (sink_write stream frame).1
          | _ => stream
          end) streams.

Record P2pLoop := mkLoop {
  loop_router : P2pRouter;
  last_seen : list Z;
  graceful : list bool;
  closed : list bool;
  server_failure : option (list Z);
}.

(** One turn: the event that the channel gave (none when the poll interval
    elapsed), the time at which it was seen and the time of the lease check. *)
Record Turn := mkTurn { turn_event : option P2pEvent; seen_at : Z; checked_at : Z }.

Definition handle_event (st : P2pLoop) (uid : list Z) (world : nat)
    (heartbeat_timeout : option Z) (turn : Turn) : P2pLoop * nresult unit :=
  let close rank message :=
    match st.(graceful) !! rank with
    | None => (st, Panic)
    | Some gone =>
        (mkLoop st.(loop_router) st.(last_seen) st.(graceful) (<[rank := true]> st.(closed))
           st.(server_failure),
         fail_if (bool_decide (is_Some heartbeat_timeout) && negb gone)
           (InvalidConfiguration message))
    end in
  match turn.(turn_event) with
  | Some (FrameArrived rank frame) =>
      let seen := <[rank := turn.(seen_at)]> st.(last_seen) in
      match st.(graceful) !! rank with
      | None => (st, Panic)
      | Some true =>
          (mkLoop st.(loop_router) seen st.(graceful) st.(closed) st.(server_failure),
           Err (InvalidConfiguration "point-to-point rank {rank} sent data after LEAVE"))
      | Some false =>
          let leaving := bool_decide (frame.(header).(opcode) = Opcode.Leave) in
          let '(router, result) := route_p2p_request st.(loop_router) uid world rank frame in
          (mkLoop router seen
             (if is_ok result && leaving then <[rank := true]> st.(graceful) else st.(graceful))
             st.(closed) st.(server_failure), result)
      end
  | Some (Closed rank) => close rank "point-to-point rank {rank} disconnected without LEAVE"
  | Some (Failed rank _) => close rank "point-to-point rank {rank} failed without LEAVE: {message}"
  | None => (st, Ok tt)
  end.

(** The ranks whose heartbeat lease has run out. *)
Definition expired (st : P2pLoop) (timeout now : Z) : list nat :=
  filter (fun rank =>
      default true (st.(closed) !! rank) = false /\ default true (st.(graceful) !! rank) = false
      /\ timeout <= now - default now (st.(last_seen) !! rank))
    (seq 0 (length st.(last_seen))).

Definition fail_loop (st : P2pLoop) (uid : list Z) (world : nat) (error : NetworkError)
    : P2pLoop * option (nresult unit) :=
  let message := server_failure_text error in
  (mkLoop
     (mkRouter (broadcast_p2p_abort st.(loop_router).(p2p_streams) uid world message)
        st.(loop_router).(p2p_sends) st.(loop_router).(p2p_receives))
     st.(last_seen) st.(graceful) st.(closed) (publish_server_failure st.(server_failure) message),
   Some (Err error)).

(** One turn of the loop; [Some result] leaves it. *)
Definition loop_turn (st : P2pLoop) (uid : list Z) (world : nat) (heartbeat_timeout : option Z)
    (turn : Turn) : P2pLoop * option (nresult unit) :=
  match handle_event st uid world heartbeat_timeout turn with
  | (st1, Err error) => fail_loop st1 uid world error
  | (st1, Panic) => (st1, Some Panic)
  | (st1, Ok _) =>
      if forallb (fun c => c) st1.(closed) then (st1, Some (Ok tt))
      else
        match heartbeat_timeout with
        | Some timeout =>
            match expired st1 timeout turn.(checked_at) with
            | [] => (st1, None)
            | rank :: _ => fail_loop st1 uid world (NetworkError.Timeout
                             "heartbeat lease for rank {rank}; last contact {} ms ago")
            end
        | None => (st1, None)
        end
  end.

(** The loop over what the channel delivers; it ends with [Ok] when every
    reader has hung up. *)
Fixpoint run_p2p_loop (st : P2pLoop) (uid : list Z) (world : nat) (heartbeat_timeout : option Z)
    (turns : list Turn) : P2pLoop * nresult unit :=
  match turns with
  | [] => (st, Ok tt)
  | turn :: turns' =>
      match loop_turn st uid world heartbeat_timeout turn with
      | (st', Some result) => (st', result)
      | (st', None) => run_p2p_loop st' uid world heartbeat_timeout turns'
      end
  end.

(** [run_p2p_loop] starts with empty queues and every rank just seen. *)
Definition loop_start (streams : list S) (world : nat) (now : Z) : P2pLoop :=
  mkLoop (mkRouter streams [] []) (replicate world now) (replicate world false)
    (replicate world false) None.
End router.
Arguments P2pRouter : clear implicits.
Arguments P2pLoop : clear implicits.

(** ** Queues *)
Section queues.
Context {A : Type} (p : A -> bool).

Lemma remove_first_Some l x l' :
  remove_first p l = Some (x, l') ->
  exists before after, l = before ++ x :: after /\ l' = before ++ after /\ p x = true /\
    Forall (fun y => p y = false) before.
Proof.
  revert l'. induction l as [|y l IH]; intros l'; cbn; [done|].
  destruct (p y) eqn:Hy; [intros [= <- <-]; by exists [], l|].
  destruct (remove_first p l) as [[z l2]|]; [|done]. intros [= -> <-].
  destruct (IH l2 eq_refl) as (before & after & -> & -> & Hx & Hb).
  exists (y :: before), after. split_and!; [done|done|done|by constructor].
Qed.

Lemma remove_first_None l : remove_first p l = None -> Forall (fun y => p y = false) l.
Proof.
  induction l as [|y l IH]; cbn; [constructor|]. destruct (p y) eqn:Hy; [done|].
  destruct (remove_first p l) as [[z l2]|]; [done|]. intros _. by constructor; auto.
Qed.
End queues.

(** ** Channels

    A channel is a source, a destination and a tag.  [sent_on] are the
    payloads of the send requests on a channel, [received_on] those of the
    responses that its destination got. *)
Record Channel := mkChannel { ch_source : Z; ch_destination : nat; ch_tag : Z }.

Definition on_channel (k : Channel) (op : Opcode) (f : Frame) : bool :=
  bool_decide (f.(header).(opcode) = op) && (f.(header).(source_rank) =? k.(ch_source))
  && (f.(header).(destination_rank) =? Z.of_nat k.(ch_destination))
  && (f.(header).(tag) =? k.(ch_tag)).

Definition payloads_on (k : Channel) (op : Opcode) (fs : list Frame) : list (list Z) :=
  map payload (filter (fun f => on_channel k op f = true) fs).

Lemma payloads_on_app k op fs gs :
  payloads_on k op (fs ++ gs) = payloads_on k op fs ++ payloads_on k op gs.
Proof. unfold payloads_on. by rewrite filter_app, map_app. Qed.

Lemma payloads_on_one k op f :
  payloads_on k op [f] = if on_channel k op f then [f.(payload)] else [].
Proof.
  unfold payloads_on. rewrite filter_cons, filter_nil.
  destruct (on_channel k op f) eqn:Hk; [by rewrite decide_True|by rewrite decide_False].
Qed.

Lemma payloads_on_cons k op f fs :
  payloads_on k op (f :: fs) = payloads_on k op [f] ++ payloads_on k op fs.
Proof. apply (payloads_on_app k op [f] fs). Qed.

Section channels.
Context `{Crc32Hash} {S : Type} `{!FrameSink S} (uid : list Z) (world : nat).

Definition received_on (k : Channel) (streams : list S) : list (list Z) :=
  match streams !! k.(ch_destination) with
  | Some s => payloads_on k Opcode.Receive (sink_frames s)
  | None => []
  end.

(** A send or receive request of this session that passed validation. *)
Record p2p_frame (op : Opcode) (f : Frame) : Prop := {
  p2p_sendable : sendable f;
  p2p_opcode : f.(header).(opcode) = op;
  p2p_uid : f.(header).(unique_id) = uid;
  p2p_source : 0 <= f.(header).(source_rank) < Z.of_nat world;
  p2p_destination : op = Opcode.Send -> 0 <= f.(header).(destination_rank) < Z.of_nat world;
}.

(** The router's invariant: the queues hold validated requests, and no send
    waits beside a receive that it matches. *)
Record router_ok (st : P2pRouter S) : Prop := {
  router_streams : length st.(p2p_streams) = world;
  router_sinks : Forall sink_ok st.(p2p_streams);
  router_sends : Forall (p2p_frame Opcode.Send) st.(p2p_sends);
  router_receives : Forall (p2p_frame Opcode.Receive) st.(p2p_receives);
  router_unmatched : forall send receive,
    send ∈ st.(p2p_sends) -> receive ∈ st.(p2p_receives) -> p2p_matches send receive = false;
}.

Lemma validate_p2p_request_Ok frame rank :
  sendable frame -> validate_p2p_request frame uid world rank = Ok tt ->
  frame.(header).(source_rank) = Z.of_nat rank /\ (rank < world)%nat /\
  (frame.(header).(opcode) = Opcode.Send -> p2p_frame Opcode.Send frame) /\
  (frame.(header).(opcode) = Opcode.Receive -> p2p_frame Opcode.Receive frame) /\
  frame.(header).(opcode) ∈ [Opcode.Send; Opcode.Receive; Opcode.Abort; Opcode.Heartbeat; Opcode.Leave].
Proof.
  intros Hs Hv. pose proof Hs as [[Ht _] Hvalid].
  apply validate_Some in Hvalid as [HvN _]; [|apply Ht]. apply validate_iff in HvN; [|done].
  unfold validate_p2p_request in Hv. inv_ok.
  repeat match goal with
  | Hx : _ || _ = false |- _ => apply orb_false_iff in Hx as [? ?]
  | Hx : negb _ = false |- _ => apply negb_false_iff in Hx
  | Hx : (_ =? _) = true |- _ => apply Z.eqb_eq in Hx
  | Hx : bool_decide _ = true |- _ => apply bool_decide_eq_true in Hx
  end.
  pose proof (hv_source _ HvN). pose proof (hv_destination _ HvN) as Hd.
  pose proof (source_rank_u32 _ Ht) as [? _]. pose proof (destination_rank_u32 _ Ht) as [? _].
  split; [done|]. split; [lia|]. split_and!.
  - intros Hop. rewrite Hop in Hv. apply fail_if_Ok, Z.eqb_neq in Hv.
    split; [done|done|done|lia|]. intros _. destruct Hd; [done|lia].
  - intros Hop. split; [done|done|done|lia|done].
  - destruct (opcode (header frame)); first [discriminate Hv | set_solver].
Qed.

Lemma write_to_Ok streams i frame streams' :
  Forall sink_ok streams -> sendable frame -> write_to streams i frame = (streams', Ok tt) ->
  length streams' = length streams /\ Forall sink_ok streams' /\
  exists s s', streams !! i = Some s /\ streams' = <[i := s']> streams /\
    sink_frames s' = sink_frames s ++ [frame].
Proof.
  intros Hok Hf. unfold write_to. destruct (streams !! i) as [s|] eqn:Hs; [|done].
  destruct (sink_write s frame) as [s' r] eqn:Hw. intros [= <- ->].
  destruct (sink_write_Ok s frame s' (Forall_lookup_1 _ _ _ _ Hok Hs) Hf Hw) as [Hok' Hfs].
  split; [apply length_insert|]. split; [by apply Forall_insert|]. eauto.
Qed.

(** What one more frame in a stream adds to the channels. *)
Lemma received_on_write streams i frame streams' k :
  Forall sink_ok streams -> sendable frame -> write_to streams i frame = (streams', Ok tt) ->
  received_on k streams' = received_on k streams ++
    (if (i =? k.(ch_destination))%nat && on_channel k Opcode.Receive frame
     then [frame.(payload)] else []).
Proof.
  intros Hok Hf Hw. destruct (write_to_Ok _ _ _ _ Hok Hf Hw) as (_ & _ & s & s' & Hs & -> & Hfs).
  unfold received_on. pose proof (lookup_lt_Some _ _ _ Hs).
  destruct (Nat.eqb_spec i (ch_destination k)) as [<-|Hne]; cbn [andb].
  - rewrite list_lookup_insert_eq by done. rewrite Hs, Hfs, payloads_on_app.
    by rewrite payloads_on_one.
  - rewrite list_lookup_insert_ne by done. by rewrite app_nil_r.
Qed.

(** A frame that answers a request of this session. *)
Lemma p2p_response_typed (request : Frame) op et src seq count dest tg :
  header_typed request.(header) -> request.(header).(unique_id) = uid ->
  in_width 32 src -> in_width 64 seq -> in_width 64 count -> in_width 32 dest -> in_width 64 tg ->
  header_typed (set_tag (set_destination_rank
    (collective uid op et src ANY_RANK (wrap 32 (Z.of_nat world)) seq count) dest) tg).
Proof using Type.
  intros Ht <- ? ? ? ? ?. split; cbn; try done; try apply Ht.
  - by apply wrap_range.
  - apply crc32_hash_u32.
Qed.

Lemma on_channel_matched k send receive :
  p2p_matches send receive = true -> on_channel k Opcode.Send send = true ->
  receive.(header).(source_rank) = Z.of_nat k.(ch_destination).
Proof using Type.
  unfold p2p_matches, on_channel. rewrite !andb_true_iff, !Z.eqb_eq. lia.
Qed.

(** All sends of one channel match the same receives. *)
Lemma p2p_matches_channel k send send' receive :
  on_channel k Opcode.Send send = true -> on_channel k Opcode.Send send' = true ->
  p2p_matches send receive = p2p_matches send' receive.
Proof using Type.
  unfold on_channel. rewrite !andb_true_iff, !Z.eqb_eq.
  intros [[[_ Hs] Hd] Ht] [[[_ Hs'] Hd'] Ht']. unfold p2p_matches.
  by rewrite Hs, Hd, Ht, Hs', Hd', Ht'.
Qed.

Lemma deliver_Ok streams send receive streams' :
  Forall sink_ok streams -> p2p_frame Opcode.Send send -> p2p_frame Opcode.Receive receive ->
  p2p_matches send receive = true ->
  deliver_p2p_receive streams uid world send receive = (streams', Ok tt) ->
  length streams' = length streams /\ Forall sink_ok streams' /\
  forall k, received_on k streams' = received_on k streams ++ payloads_on k Opcode.Send [send].
Proof using Type.
  intros Hsinks Hsend Hrecv Hm Hd. unfold deliver_p2p_receive in Hd.
  destruct (_ || _); [done|].
  destruct (lift_protocol _) as [response|e|] eqn:Hresp; [|done|done].
  apply lift_protocol_Ok in Hresp. set (h := set_tag _ _) in Hresp.
  pose proof (sendable_typed _ (p2p_sendable _ _ Hsend)) as [Hst Hsb].
  pose proof (sendable_typed _ (p2p_sendable _ _ Hrecv)) as [Hrt _].
  assert (Ht : header_typed h).
  { apply (p2p_response_typed send); try done; try apply Hst; try apply Hrt.
    by apply (p2p_uid _ _ Hsend). }
  pose proof (frame_new_sendable_ok _ _ _ Ht Hsb Hresp) as Hok.
  destruct (frame_new_inv _ _ _ Ht Hresp) as (-> & _).
  destruct (write_to_Ok _ _ _ _ Hsinks Hok Hd) as (Hlen & Hsinks' & _).
  split; [done|]. split; [done|]. intros k.
  rewrite (received_on_write _ _ _ _ k Hsinks Hok Hd). f_equal.
  rewrite payloads_on_one. cbn [payload].
  assert (Heq : (Z.to_nat (source_rank (header receive)) =? ch_destination k)%nat
    && on_channel k Opcode.Receive (mkFrame (sealed h (payload send)) (payload send))
    = on_channel k Opcode.Send send); [|by rewrite Heq].
  unfold p2p_matches in Hm. rewrite !andb_true_iff, !Z.eqb_eq in Hm. destruct Hm as [[Hdst _] _].
  pose proof (p2p_source _ _ Hrecv) as Hsrc. pose proof (p2p_opcode _ _ Hsend) as Hop.
  unfold on_channel. rewrite Hop. rewrite !bool_decide_true by (by destruct (payload send)).
  assert (Hfields : source_rank (sealed h (payload send)) = source_rank (header send)
    /\ destination_rank (sealed h (payload send)) = source_rank (header receive)
    /\ tag (sealed h (payload send)) = tag (header send)) by (by destruct (payload send)).
  cbn [header]. destruct Hfields as (-> & -> & ->). rewrite Hdst. cbn [andb].
  apply eq_true_iff_eq. rewrite !andb_true_iff, Nat.eqb_eq, !Z.eqb_eq. lia.
Qed.

(** A control response adds nothing to any channel. *)
Lemma control_write_Ok (request frame : Frame) h streams i streams' :
  Forall sink_ok streams -> sendable request -> header_typed h ->
  lift_protocol (frame_new h []) = Ok frame -> h.(opcode) <> Opcode.Receive ->
  write_to streams i frame = (streams', Ok tt) ->
  length streams' = length streams /\ Forall sink_ok streams' /\
  forall k, received_on k streams' = received_on k streams.
Proof using Type.
  intros Hsinks Hreq Ht Hf%lift_protocol_Ok Hop Hw.
  pose proof (frame_new_sendable_ok _ _ _ Ht (Forall_nil_2 _) Hf) as Hok.
  destruct (frame_new_inv _ _ _ Ht Hf) as (-> & _).
  destruct (write_to_Ok _ _ _ _ Hsinks Hok Hw) as (Hlen & Hsinks' & _).
  split_and!; [done|done|]. intros k. rewrite (received_on_write _ _ _ _ k Hsinks Hok Hw).
  unfold on_channel. cbn [header sealed]. rewrite bool_decide_false by done.
  rewrite andb_false_r. by rewrite app_nil_r.
Qed.

(** What is in flight on a channel: delivered, then queued. *)
Definition carried (k : Channel) (st : P2pRouter S) : list (list Z) :=
  received_on k st.(p2p_streams) ++ payloads_on k Opcode.Send st.(p2p_sends).

Lemma payloads_on_none k sends :
  Forall (fun s => on_channel k Opcode.Send s = false) sends ->
  payloads_on k Opcode.Send sends = [].
Proof using Type.
  induction 1 as [|s sends Hs _ IH]; [done|].
  rewrite payloads_on_cons, payloads_on_one, Hs. done.
Qed.

(** Sends that do not match a receive that [send] matches are on other channels. *)
Lemma unmatched_other_channel k send receive sends :
  p2p_matches send receive = true ->
  Forall (fun s => p2p_matches s receive = false) sends ->
  on_channel k Opcode.Send send = true ->
  payloads_on k Opcode.Send sends = [].
Proof using Type.
  intros Hm Hall Hk. apply payloads_on_none.
  eapply Forall_impl; [exact Hall|]. intros s Hs. cbv beta in Hs.
  destruct (on_channel k Opcode.Send s) eqn:Hks; [|done].
  by rewrite (p2p_matches_channel k s send) in Hs; [rewrite Hm in Hs|done|done].
Qed.

(** A new send that finds its receive. *)
Lemma deliver_new_send st send receive receives streams' :
  router_ok st -> p2p_frame Opcode.Send send ->
  remove_first (p2p_matches send) st.(p2p_receives) = Some (receive, receives) ->
  deliver_p2p_receive st.(p2p_streams) uid world send receive = (streams', Ok tt) ->
  router_ok (mkRouter streams' st.(p2p_sends) receives) /\
  forall k, carried k (mkRouter streams' st.(p2p_sends) receives) =
    carried k st ++ payloads_on k Opcode.Send [send].
Proof using Type.
  intros [Hl Hsinks Hsends Hrecvs Hun] Hsend Hrem Hd.
  apply remove_first_Some in Hrem as (before & after & Hq & -> & Hm & _).
  rewrite Hq in Hrecvs, Hun. apply Forall_app in Hrecvs as [Hb Ha].
  apply Forall_cons in Ha as [Hrecv Ha].
  destruct (deliver_Ok _ _ _ _ Hsinks Hsend Hrecv Hm Hd) as (Hlen & Hsinks' & Hk). split.
  - split; cbn; [congruence|done|done|by apply Forall_app|].
    intros s r Hs Hr. apply Hun; [done|]. set_solver.
  - intros k. unfold carried. cbn [p2p_streams p2p_sends]. rewrite Hk.
    rewrite <- !app_assoc. f_equal. rewrite payloads_on_one.
    destruct (on_channel k Opcode.Send send) eqn:Hks; [|by rewrite app_nil_r].
    rewrite (unmatched_other_channel k send receive); [done|done| |done].
    apply Forall_forall. intros s Hs. apply Hun; [done|]. set_solver.
Qed.

(** A new receive that finds its send. *)
Lemma deliver_new_receive st send receive sends streams' :
  router_ok st -> p2p_frame Opcode.Receive receive ->
  remove_first (fun send => p2p_matches send receive) st.(p2p_sends) = Some (send, sends) ->
  deliver_p2p_receive st.(p2p_streams) uid world send receive = (streams', Ok tt) ->
  router_ok (mkRouter streams' sends st.(p2p_receives)) /\
  forall k, carried k (mkRouter streams' sends st.(p2p_receives)) = carried k st.
Proof using Type.
  intros [Hl Hsinks Hsends Hrecvs Hun] Hrecv Hrem Hd.
  apply remove_first_Some in Hrem as (before & after & Hq & -> & Hm & Hbefore).
  rewrite Hq in Hsends, Hun. apply Forall_app in Hsends as [Hb Ha].
  apply Forall_cons in Ha as [Hsend Ha].
  destruct (deliver_Ok _ _ _ _ Hsinks Hsend Hrecv Hm Hd) as (Hlen & Hsinks' & Hk). split.
  - split; cbn; [congruence|done|by apply Forall_app|done|].
    intros s r Hs Hr. apply Hun; [|done]. set_solver.
  - intros k. unfold carried. cbn [p2p_streams p2p_sends]. rewrite Hk, Hq.
    rewrite !payloads_on_app, (payloads_on_cons _ _ send after).
    rewrite <- !app_assoc. f_equal. rewrite payloads_on_one.
    destruct (on_channel k Opcode.Send send) eqn:Hks; [|done].
    by rewrite (unmatched_other_channel k send receive before).
Qed.

Lemma and_then_Ok {A} (st st' : P2pRouter S) (m : nresult A) k :
  and_then st m k = (st', Ok tt) <-> exists a, m = Ok a /\ k a = (st', Ok tt).
Proof using Type. destruct m; cbn; naive_solver. Qed.

(** Acknowledgements and heartbeat responses carry no channel data. *)
Lemma acknowledgement_Ok streams frame ack i streams' :
  Forall sink_ok streams -> sendable frame -> frame.(header).(unique_id) = uid ->
  p2p_send_acknowledgement frame uid world = Ok ack \/
  p2p_heartbeat_response frame uid world = Ok ack ->
  write_to streams i ack = (streams', Ok tt) ->
  length streams' = length streams /\ Forall sink_ok streams' /\
  forall k, received_on k streams' = received_on k streams.
Proof using Type.
  intros Hsinks Hf Hu Hack Hw. pose proof (sendable_typed _ Hf) as [Ht _].
  set (h op := set_destination_rank (collective uid op ElementType.None
      (source_rank (header frame)) ANY_RANK (wrap 32 (Z.of_nat world)) (sequence (header frame)) 0)
      (source_rank (header frame))).
  assert (Hht : forall op t, in_width 64 t -> header_typed (set_tag (h op) t)).
  { intros op t Htag. apply (p2p_response_typed frame); try done; apply Ht. }
  destruct Hack as [Hack|Hack].
  - apply (control_write_Ok frame ack (set_tag (h Opcode.Send) (tag (header frame))) streams i);
      try done. apply Hht, Ht.
  - apply (control_write_Ok frame ack (set_tag (h Opcode.Heartbeat) 0) streams i); try done.
    by apply Hht.
Qed.

Lemma route_step st rank frame st' :
  router_ok st -> sendable frame ->
  route_p2p_request st uid world rank frame = (st', Ok tt) ->
  router_ok st' /\
  forall k, carried k st' = carried k st ++ payloads_on k Opcode.Send [frame].
Proof using Type.
  intros Hok Hf Hr. unfold route_p2p_request in Hr.
  apply and_then_Ok in Hr as ([] & Hv & Hr).
  destruct (validate_p2p_request_Ok _ _ Hf Hv) as (Hsrc & Hrank & Hsend & Hrecv & Hops).
  pose proof (sendable_typed _ Hf) as [Hft _].
  assert (Hu : unique_id (header frame) = uid).
  { unfold validate_p2p_request in Hv. inv_ok.
    match goal with Hx : negb (bool_decide (_ = uid)) = false |- _ =>
      by apply negb_false_iff, bool_decide_eq_true in Hx end. }
  assert (Hother : opcode (header frame) <> Opcode.Send ->
    forall k, payloads_on k Opcode.Send [frame] = []).
  { intros Hne k. rewrite payloads_on_one. unfold on_channel. by rewrite bool_decide_false. }
  destruct (opcode (header frame)) eqn:Hop; try discriminate Hr.
  - (* send: acknowledge, then deliver or queue *)
    specialize (Hsend eq_refl). apply and_then_Ok in Hr as (ack & Hack & Hr).
    destruct (write_to (p2p_streams st) _ ack) as [streams1 r1] eqn:Hw.
    unfold with_streams in Hr. cbn [fst snd] in Hr.
    apply and_then_Ok in Hr as ([] & -> & Hr). destruct Hok as [Hl Hsinks Hsends Hrecvs Hun].
    destruct (acknowledgement_Ok _ _ _ _ _ Hsinks Hf Hu (or_introl Hack) Hw) as (Hlen & Hsinks1 & Hk1).
    set (st1 := mkRouter streams1 (p2p_sends st) (p2p_receives st)) in *.
    assert (Hok1 : router_ok st1) by (split; cbn; try done; congruence).
    assert (Hc1 : forall k, carried k st1 = carried k st)
      by (intros k; unfold carried; cbn; by rewrite Hk1).
    destruct (remove_first (p2p_matches frame) (p2p_receives st1)) as [[receive receives]|] eqn:Hrem.
    + destruct (deliver_p2p_receive (p2p_streams st1) uid world frame receive) as [s2 r2] eqn:Hd.
      cbn [fst snd p2p_sends p2p_receives] in Hr. injection Hr as <- ->.
      destruct (deliver_new_send st1 frame receive receives s2 Hok1 Hsend Hrem Hd) as [Hok2 Hk2].
      split; [exact Hok2|]. intros k. rewrite <- Hc1. apply Hk2.
    + injection Hr as <-. apply remove_first_None in Hrem. split.
      * split; cbn; try done; [congruence|apply Forall_app; split; [done|by apply Forall_singleton]|].
        intros s r [Hs| ->%list_elem_of_singleton]%elem_of_app Hrin; [by apply Hun|].
        by eapply Forall_forall in Hrem.
      * intros k. rewrite <- Hc1. unfold carried. cbn [p2p_streams p2p_sends].
        by rewrite payloads_on_app, app_assoc.
  - (* receive: deliver or queue *)
    specialize (Hrecv eq_refl). setoid_rewrite (Hother ltac:(done)).
    setoid_rewrite app_nil_r.
    destruct (remove_first _ (p2p_sends st)) as [[send sends]|] eqn:Hrem.
    + unfold with_streams in Hr.
      destruct (deliver_p2p_receive (p2p_streams st) uid world send frame) as [s2 r2] eqn:Hd.
      cbn [fst snd p2p_sends p2p_receives] in Hr. injection Hr as <- ->.
      exact (deliver_new_receive st send frame sends s2 Hok Hrecv Hrem Hd).
    + injection Hr as <-. apply remove_first_None in Hrem. destruct Hok as [Hl Hsinks Hsends Hrecvs Hun].
      split; [|done]. split; cbn; try done; [apply Forall_app; split; [done|by apply Forall_singleton]|].
      intros s r Hs [Hrin| ->%list_elem_of_singleton]%elem_of_app; [by apply Hun|].
      eapply Forall_forall in Hrem; [|exact Hs]. done.
  - (* heartbeat *)
    apply and_then_Ok in Hr as (resp & Hresp & Hr). unfold with_streams in Hr.
    destruct (write_to (p2p_streams st) rank resp) as [streams1 r1] eqn:Hw.
    cbn [fst snd] in Hr. injection Hr as <- ->. destruct Hok as [Hl Hsinks Hsends Hrecvs Hun].
    destruct (acknowledgement_Ok _ _ _ _ _ Hsinks Hf Hu (or_intror Hresp) Hw) as (Hlen & Hsinks1 & Hk1).
    split; [split; cbn; try done; congruence|]. intros k. rewrite Hother by done.
    rewrite app_nil_r. unfold carried. cbn. by rewrite Hk1.
  - injection Hr as <-. split; [done|]. intros k. rewrite Hother by done. by rewrite app_nil_r.
Qed.

(** *** No panics *)
Lemma write_to_no_panic streams i frame :
  (i < length streams)%nat -> no_panic (write_to streams i frame).2.
Proof using Type.
  intros Hi. unfold write_to. destruct (lookup_lt_is_Some_2 streams i Hi) as [s ->].
  pose proof (sink_no_panic s frame). by destruct (sink_write s frame).
Qed.

Lemma deliver_no_panic streams send receive :
  (Z.to_nat receive.(header).(source_rank) < length streams)%nat ->
  no_panic (deliver_p2p_receive streams uid world send receive).2.
Proof using Type.
  intros Hr. unfold deliver_p2p_receive. destruct (_ || _); [done|].
  destruct (lift_protocol _) as [response|e|] eqn:He; [by apply write_to_no_panic|done|].
  pose proof (frame_result_no_panic
    (set_tag (set_destination_rank (collective uid Opcode.Receive
      (element_type (header send)) (source_rank (header send)) ANY_RANK
      (wrap 32 (Z.of_nat world)) (sequence (header receive)) (element_count (header send)))
      (source_rank (header receive))) (tag (header send))) (payload send)) as Hnp.
  by rewrite He in Hnp.
Qed.

Lemma and_then_no_panic {A} st (m : nresult A) k :
  no_panic m -> (forall a, m = Ok a -> no_panic (k a).2) ->
  no_panic (@and_then S A st m k).2.
Proof using Type. destruct m; cbn; naive_solver. Qed.

Lemma route_p2p_no_panic st rank frame :
  router_ok st -> sendable frame ->
  no_panic (route_p2p_request st uid world rank frame).2.
Proof using Type.
  intros [Hl Hsinks Hsends Hrecvs Hun] Hf. unfold route_p2p_request.
  apply and_then_no_panic.
  { unfold validate_p2p_request. solve_no_panic. }
  intros [] Hv. destruct (validate_p2p_request_Ok _ _ Hf Hv) as (Hsrc & Hrank & Hsend & Hrecv & Hops).
  destruct (opcode (header frame)) eqn:Hop; try done; try (exfalso; clear -Hops; set_solver).
  - apply and_then_no_panic; [apply frame_result_no_panic|]. intros ack Hack.
    pose proof (write_to_no_panic (p2p_streams st) (Z.to_nat (source_rank (header frame))) ack) as Hw.
    destruct (write_to (p2p_streams st) _ ack) as [streams1 r1] eqn:Hw1. unfold with_streams. cbn [fst snd] in *.
    apply and_then_no_panic; [apply Hw; lia|]. intros [] ->. cbn [p2p_receives p2p_streams].
    assert (Hlen : length streams1 = length (p2p_streams st)).
    { unfold write_to in Hw1. destruct (p2p_streams st !! _); [|by injection Hw1 as <-].
      destruct (sink_write _ _). injection Hw1 as <- _. apply length_insert. }
    destruct (remove_first _ _) as [[receive receives]|] eqn:Hrem; [|done].
    apply deliver_no_panic.
    apply remove_first_Some in Hrem as (before & after & Hq & _). rewrite Hq in Hrecvs.
    apply Forall_app in Hrecvs as [_ [Hr _]%Forall_cons]. pose proof (p2p_source _ _ Hr). lia.
  - destruct (remove_first _ _) as [[send sends]|]; [|done]. apply deliver_no_panic. lia.
  - apply and_then_no_panic; [apply frame_result_no_panic|]. intros resp _.
    apply write_to_no_panic. lia.
Qed.
End channels.

(** ** The event loop *)
Section event_loop.
Context `{Crc32Hash} {S : Type} `{!FrameSink S} (uid : list Z) (world : nat)
  (error_text : NetworkError -> list Z) (abort_text : string -> list Z -> list Z)
  (heartbeat_timeout : option Z).
Implicit Types (st : P2pLoop S) (turn : Turn).

Definition turn_of st turn := loop_turn error_text abort_text st uid world heartbeat_timeout turn.

(** The loop has run through [turns] and goes on. *)
Inductive runs : P2pLoop S -> list Turn -> P2pLoop S -> Prop :=
  | runs_start st : runs st [] st
  | runs_turn st turns st1 turn st2 :
      runs st turns st1 -> turn_of st1 turn = (st2, None) -> runs st (turns ++ [turn]) st2.

(** The requests that arrived, in the order of arrival. *)
Definition arrived (turns : list Turn) : list Frame :=
  omap (fun turn => match turn.(turn_event) with
                    | Some (FrameArrived _ frame) => Some frame
                    | _ => None
                    end) turns.

(** Events come from the readers of this world's ranks. *)
Definition turn_ok turn : Prop :=
  match turn.(turn_event) with
  | Some (FrameArrived rank frame) => (rank < world)%nat /\ sendable frame
  | Some (Closed rank) | Some (Failed rank _) => (rank < world)%nat
  | None => True
  end.

Record loop_ok st : Prop := {
  loop_router_ok : router_ok uid world st.(loop_router);
  loop_seen : length st.(last_seen) = world;
  loop_graceful : length st.(graceful) = world;
  loop_closed : length st.(closed) = world;
}.

Lemma turn_None st turn st' :
  turn_of st turn = (st', None) ->
  exists u, handle_event st uid world heartbeat_timeout turn = (st', Ok u).
Proof.
  unfold turn_of, loop_turn. destruct (handle_event _ _ _ _ turn) as [st1 [u|e|]]; [|done|done].
  destruct (forallb _ _); [done|]. destruct heartbeat_timeout as [timeout|].
  - destruct (expired _ _ _); [intros [= <-]; by exists u|done].
  - intros [= <-]. by exists u.
Qed.

Lemma handle_event_step st turn st' :
  loop_ok st -> turn_ok turn -> handle_event st uid world heartbeat_timeout turn = (st', Ok tt) ->
  loop_ok st' /\
  forall k, carried k st'.(loop_router) =
    carried k st.(loop_router) ++ payloads_on k Opcode.Send (arrived [turn]).
Proof.
  intros [Hr Hs Hg Hc] Hok Hh. unfold handle_event in Hh. unfold turn_ok, arrived in *. cbn [omap list_omap].
  destruct (turn_event turn) as [[rank frame|rank|rank e]|].
  - destruct (graceful st !! rank) as [[]|]; [done| |done].
    destruct (route_p2p_request _ _ _ _ _) as [router r] eqn:Hroute. injection Hh as <- ->.
    destruct (route_step _ _ _ _ _ _ Hr (proj2 Hok) Hroute) as [Hr' Hk]. split; [|exact Hk].
    split; cbn; [done|by rewrite length_insert| |done].
    destruct (bool_decide _); [by rewrite length_insert|done].
  - destruct (graceful st !! rank) as [b|]; [|done]. injection Hh as <- _.
    split; [split; cbn; rewrite ?length_insert; done|]. intros k. by rewrite app_nil_r.
  - destruct (graceful st !! rank) as [b|]; [|done]. injection Hh as <- _.
    split; [split; cbn; rewrite ?length_insert; done|]. intros k. by rewrite app_nil_r.
  - injection Hh as <-. split; [done|]. intros k. by rewrite app_nil_r.
Qed.

Lemma arrived_app turns turns' : arrived (turns ++ turns') = arrived turns ++ arrived turns'.
Proof. apply omap_app. Qed.

Lemma runs_invariant st turns st' :
  runs st turns st' -> loop_ok st -> Forall turn_ok turns ->
  loop_ok st' /\
  forall k, carried k st'.(loop_router) =
    carried k st.(loop_router) ++ payloads_on k Opcode.Send (arrived turns).
Proof.
  induction 1 as [st|st turns st1 turn st2 _ IH Hturn]; intros Hok Hturns.
  - split; [done|]. intros k. by rewrite app_nil_r.
  - apply Forall_app in Hturns as [Hturns Hlast]. rewrite Forall_singleton in Hlast.
    destruct (IH Hok Hturns) as [Hok1 Hk1]. apply turn_None in Hturn as [[] Hh].
    destruct (handle_event_step _ _ _ Hok1 Hlast Hh) as [Hok2 Hk2]. split; [done|].
    intros k. by rewrite Hk2, Hk1, arrived_app, payloads_on_app, app_assoc.
Qed.

(** The streams as [run_p2p_loop] gets them: one per rank, nothing written. *)
Definition fresh (streams : list S) : Prop :=
  length streams = world /\ Forall (fun s => sink_ok s /\ sink_frames s = []) streams.

Lemma loop_start_ok streams now : fresh streams -> loop_ok (loop_start streams world now).
Proof.
  intros [Hl Hs]. split; cbn; rewrite ?length_replicate; try done.
  split; cbn; try done; [|set_solver]. eapply Forall_impl; [exact Hs|]. by intros s [? _].
Qed.

(** C1: Point-to-point delivery is exactly once and in order.  However the
    requests of all ranks interleave, at every moment of the loop and for
    every channel (source, destination, tag) the payloads that the destination
    has received, followed by those still queued, are the payloads that were
    sent on the channel, in the order in which they were sent. *)
Theorem p2p_exactly_once streams now turns st k :
  fresh streams -> Forall turn_ok turns ->
  runs (loop_start streams world now) turns st ->
  received_on k st.(loop_router).(p2p_streams)
    ++ payloads_on k Opcode.Send st.(loop_router).(p2p_sends)
  = payloads_on k Opcode.Send (arrived turns).
Proof.
  intros Hf Hturns Hr.
  destruct (runs_invariant _ _ _ Hr (loop_start_ok _ now Hf) Hturns) as [_ Hk].
  fold (carried k (loop_router st)). rewrite Hk. destruct Hf as [Hl Hs].
  unfold carried, received_on, loop_start. cbn.
  destruct (streams !! ch_destination k) as [s|] eqn:Hlk; [|done].
  by rewrite (proj2 (Forall_lookup_1 _ _ _ _ Hs Hlk)).
Qed.

(** No pair is left waiting: at every moment of the loop no queued send
    matches a queued receive, so a send waits only while its destination has
    not asked for it and a receive only while nothing matching was sent; and
    the queued requests all passed validation. *)
Theorem p2p_no_waiting_pair streams now turns st send receive :
  fresh streams -> Forall turn_ok turns ->
  runs (loop_start streams world now) turns st ->
  send ∈ st.(loop_router).(p2p_sends) -> receive ∈ st.(loop_router).(p2p_receives) ->
  p2p_matches send receive = false /\
  p2p_frame uid world Opcode.Send send /\ p2p_frame uid world Opcode.Receive receive.
Proof.
  intros Hf Hturns Hr Hs Hv.
  destruct (runs_invariant _ _ _ Hr (loop_start_ok _ now Hf) Hturns) as [[[_ _ Hss Hrs Hun] _ _ _] _].
  split; [by apply Hun|]. split; by eapply Forall_forall.
Qed.

(** The loop never panics: whatever the readers of the ranks deliver, no
    stream or rank index is out of range and the unreachable branch of the
    router is not reached. *)
Theorem p2p_loop_no_panic st turns :
  loop_ok st -> Forall turn_ok turns ->
  no_panic (run_p2p_loop error_text abort_text st uid world heartbeat_timeout turns).2.
Proof.
  intros Hok Hturns. revert st Hok. induction Hturns as [|turn turns Hturn _ IH]; intros st Hok; [done|].
  cbn [run_p2p_loop]. unfold loop_turn.
  assert (Hnp : no_panic (handle_event st uid world heartbeat_timeout turn).2).
  { destruct Hok as [Hr Hs Hg Hc]. unfold handle_event, turn_ok in *.
    destruct (turn_event turn) as [[rank frame|rank|rank e]|]; [| | |done].
    - destruct (lookup_lt_is_Some_2 (graceful st) rank) as [[] ->]; [lia|done|].
      pose proof (route_p2p_no_panic _ _ _ rank frame Hr (proj2 Hturn)) as Hnp.
      by destruct (route_p2p_request _ _ _ _ _).
    - destruct (lookup_lt_is_Some_2 (graceful st) rank) as [b ->]; [lia|]. apply fail_if_no_panic.
    - destruct (lookup_lt_is_Some_2 (graceful st) rank) as [b ->]; [lia|]. apply fail_if_no_panic. }
  pose proof (handle_event_step st turn) as Hstep.
  destruct (handle_event st uid world heartbeat_timeout turn) as [st1 [[]|e|]]; [|done|done].
  destruct (Hstep st1 Hok Hturn eq_refl) as [Hok1 _].
  destruct (forallb _ _); [done|]. destruct heartbeat_timeout as [timeout|]; [|by apply IH].
  destruct (expired _ _ _); [by apply IH|done].
Qed.

(** The heartbeat lease.  When the loop goes on after a turn with a lease
    of [timeout], every rank that has neither closed nor left was heard of
    within the lease, at the time of the check. *)
Theorem p2p_lease st turn st' timeout rank seen :
  heartbeat_timeout = Some timeout -> turn_of st turn = (st', None) ->
  st'.(last_seen) !! rank = Some seen ->
  st'.(closed) !! rank = Some false -> st'.(graceful) !! rank = Some false ->
  turn.(checked_at) - seen < timeout.
Proof.
  unfold turn_of, loop_turn. intros -> Ht Hseen Hc Hg.
  destruct (handle_event _ _ _ _ turn) as [st1 [u|e|]]; [|done|done].
  destruct (forallb _ _); [done|]. destruct (expired st1 timeout (checked_at turn)) eqn:He; [|done].
  injection Ht as <-. destruct (decide (checked_at turn - seen < timeout)) as [|Hge]; [done|].
  assert (Hin : rank ∈ expired st1 timeout (checked_at turn)).
  { unfold expired. apply list_elem_of_filter. rewrite Hseen, Hc, Hg. cbn.
    split; [split_and!; [done|done|lia]|]. apply elem_of_seq.
    apply lookup_lt_Some in Hseen. lia. }
  rewrite He in Hin. by apply elem_of_nil in Hin.
Qed.
End event_loop.

(** ** Witnesses: rank 1 receives from any source, then rank 0 sends to it *)
Section witnesses.
Import Crc32Ieee.

Definition p2p_request (op : Opcode) (source destination : Z) (p : list Z) : Frame :=
  let h := set_tag (set_destination_rank
             (collective example_uid op ElementType.U8 source ANY_RANK 2 4 2) destination) 9 in
  mkFrame (sealed h p) p.

Definition p2p_send : Frame := p2p_request Opcode.Send 0 1 [5; 6].
Definition p2p_receive : Frame := p2p_request Opcode.Receive 1 ANY_RANK [].

Lemma p2p_request_sendable op source destination p :
  in_width 32 source -> in_width 32 destination -> Forall is_byte p ->
  frame_new (set_tag (set_destination_rank
    (collective example_uid op ElementType.U8 source ANY_RANK 2 4 2) destination) 9) p
    = Ok (p2p_request op source destination p) ->
  sendable (p2p_request op source destination p).
Proof.
  intros Hs Hd Hp Hn. apply frame_new_sendable_ok in Hn; [done| |done].
  split; cbn; try done; try (unfold in_width, ANY_RANK, U32_MAX; lia).
  repeat constructor; cbn; lia.
Qed.

Definition p2p_turns : list Turn :=
  ([] ++ [mkTurn (Some (FrameArrived 1 p2p_receive)) 1 2])
    ++ [mkTurn (Some (FrameArrived 0 p2p_send)) 3 4].

Lemma p2p_turns_ok : Forall (turn_ok 2) p2p_turns.
Proof.
  assert (Hr : sendable p2p_receive).
  { apply p2p_request_sendable; [unfold in_width; lia| |constructor|vm_compute; reflexivity].
    unfold in_width, ANY_RANK, U32_MAX. lia. }
  assert (Hs : sendable p2p_send).
  { apply p2p_request_sendable; [unfold in_width; lia|unfold in_width; lia| |vm_compute; reflexivity].
    repeat constructor; cbn; lia. }
  repeat (apply Forall_cons_2; [split; [cbn; lia|assumption]|]). apply Forall_nil_2.
Qed.

(** Streams that take ten bytes at a time and do not fail. *)
Definition p2p_out : list OutStream := replicate 2 (mkOut [] None (fun _ => 10%nat)).

Lemma p2p_out_fresh : fresh 2 p2p_out.
Proof.
  split; [done|]. apply Forall_replicate. split; [|reflexivity]. by exists [].
Qed.

Definition no_text (e : NetworkError) : list Z := [].
Definition no_abort_text (m : string) (sent : list Z) : list Z := sent.

Definition p2p_turn (st : P2pLoop OutStream) (turn : Turn) : P2pLoop OutStream :=
  (turn_of example_uid 2 no_text no_abort_text (Some 100) st turn).1.

Definition p2p_state0 : P2pLoop OutStream := loop_start p2p_out 2 0.
Definition p2p_state1 : P2pLoop OutStream :=
  p2p_turn p2p_state0 (mkTurn (Some (FrameArrived 1 p2p_receive)) 1 2).
Definition p2p_state2 : P2pLoop OutStream :=
  p2p_turn p2p_state1 (mkTurn (Some (FrameArrived 0 p2p_send)) 3 4).

Lemma p2p_runs1 :
  runs example_uid 2 no_text no_abort_text (Some 100) p2p_state0
    ([] ++ [mkTurn (Some (FrameArrived 1 p2p_receive)) 1 2]) p2p_state1.
Proof. eapply runs_turn; [apply runs_start|vm_compute; reflexivity]. Qed.

Lemma p2p_runs2 :
  runs example_uid 2 no_text no_abort_text (Some 100) p2p_state0 p2p_turns p2p_state2.
Proof. eapply runs_turn; [apply p2p_runs1|vm_compute; reflexivity]. Qed.

Lemma p2p_exactly_once_witness :
  received_on (mkChannel 0 1 9) p2p_state2.(loop_router).(p2p_streams) = [[5; 6]].
Proof.
  pose proof (p2p_exactly_once example_uid 2 no_text no_abort_text (Some 100) p2p_out 0 p2p_turns
    p2p_state2 (mkChannel 0 1 9) p2p_out_fresh p2p_turns_ok p2p_runs2) as Hk.
  assert (Hq : payloads_on (mkChannel 0 1 9) Opcode.Send p2p_state2.(loop_router).(p2p_sends) = [])
    by (vm_compute; reflexivity).
  rewrite Hq, app_nil_r in Hk. exact Hk.
Defined.

(** A send on another tag waits beside the receive. *)
Definition p2p_other : Frame :=
  let h := set_tag (set_destination_rank
             (collective example_uid Opcode.Send ElementType.U8 0 ANY_RANK 2 4 2) 1) 8 in
  mkFrame (sealed h [7; 7]) [7; 7].

Definition p2p_waiting : list Turn :=
  ([] ++ [mkTurn (Some (FrameArrived 1 p2p_receive)) 1 2])
    ++ [mkTurn (Some (FrameArrived 0 p2p_other)) 3 4].
Definition p2p_state3 : P2pLoop OutStream :=
  p2p_turn p2p_state1 (mkTurn (Some (FrameArrived 0 p2p_other)) 3 4).

Lemma p2p_other_sendable : sendable p2p_other.
Proof.
  apply (frame_new_sendable_ok (set_tag (set_destination_rank
    (collective example_uid Opcode.Send ElementType.U8 0 ANY_RANK 2 4 2) 1) 8) [7; 7]);
    [|repeat constructor; cbn; lia|vm_compute; reflexivity].
  split; cbn; try done; try (unfold in_width, ANY_RANK, U32_MAX; lia).
  repeat constructor; cbn; lia.
Qed.

Lemma p2p_no_waiting_pair_witness : p2p_matches p2p_other p2p_receive = false.
Proof.
  apply (p2p_no_waiting_pair example_uid 2 no_text no_abort_text (Some 100) p2p_out 0 p2p_waiting
    p2p_state3 p2p_other p2p_receive p2p_out_fresh).
  - apply Forall_app. split; [exact (proj1 (proj1 (Forall_app _ _ _) p2p_turns_ok))|].
    apply Forall_cons_2; [split; [cbn; lia|exact p2p_other_sendable]|apply Forall_nil_2].
  - eapply runs_turn; [apply p2p_runs1|vm_compute; reflexivity].
  - vm_compute. left.
  - vm_compute. left.
Defined.

Lemma p2p_loop_no_panic_witness :
  no_panic (run_p2p_loop no_text no_abort_text p2p_state0 example_uid 2 (Some 100) p2p_turns).2.
Proof.
  exact (p2p_loop_no_panic example_uid 2 no_text no_abort_text (Some 100) p2p_state0 p2p_turns
    (loop_start_ok example_uid 2 p2p_out 0 p2p_out_fresh) p2p_turns_ok).
Defined.

Lemma p2p_lease_witness : 4 - 3 < 100.
Proof.
  apply (p2p_lease example_uid 2 no_text no_abort_text (Some 100) p2p_state1
    (mkTurn (Some (FrameArrived 0 p2p_send)) 3 4) p2p_state2 100 0 3 eq_refl);
    vm_compute; reflexivity.
Defined.
End witnesses.
