(* ===== verification/CollectiveLoop.v ===== *)
(** * The coordinator's event loop: run_collective_loop of
    src/src/rank/network.rs

    One request per rank is collected for the next sequence number; when all
    have arrived the round is routed and every rank gets its response.  The
    loop is driven by what its channel, its clock and the shared failure slot
    give it, turn by turn. *)
From S2P Require Import Prelude Protocol Agreement Errors Payload Router Exchange Stream P2p.

(** What one turn of the inner loop sees: the failure that another thread has
    published, the clock, what [recv_timeout] returned, the failure that
    [wait_for_server_failure] saw; and, when the turn completes a round, the
    failure and the clock at the start of the next one. *)
Inductive Received : Type :=
  | Event (event : P2pEvent)
  | NothingYet
  | Disconnected.

Record Poll := mkPoll {
  poll_failure : option (list Z);
  poll_now : Z;
  poll_received : Received;
  poll_late_failure : option (list Z);
  next_failure : option (list Z);
  next_now : Z;
}.

Section collective_loop.
Context `{Crc32Hash} {S : Type} `{!FrameSink S}
  (error_text : NetworkError -> list Z).

Record CollectiveLoop := mkCollective {
  agreement : CollectiveAgreement;
  active_sequence : Z;
  round_timeout : Z;
  requests : list (option Frame);
  deadline : Z;
  streams : list S;
}.

Definition with_requests (st : CollectiveLoop) (r : list (option Frame)) : CollectiveLoop :=
  mkCollective st.(agreement) st.(active_sequence) st.(round_timeout) r st.(deadline) st.(streams).

(** The first loop over the zipped streams and responses. *)
Fixpoint write_responses (streams : list S) (responses : list Frame) : list S * nresult unit :=
  match streams, responses with
  | s :: streams', f :: responses' =>
      match sink_write s f with
      | (s', Ok _) => let '(rest, r) := write_responses streams' responses' in (s' :: rest, r)
      | (s', r) => (s' :: streams', r)
      end
  | _, _ => (streams, Ok tt)
  end.

Definition broadcast_collective_abort (streams : list S) (uid : list Z) (sequence : Z)
    (world : nat) (message : list Z) : list S :=
  imap (fun rank stream =>
          match abort_frame uid sequence (wrap 32 (Z.of_nat rank)) (wrap 32 (Z.of_nat world))
                  message with
          | Ok frame => (sink_write stream frame).1
          | _ => stream
          end) streams.

Definition server_failed (message : list Z) : NetworkError := InvalidConfiguration "{message}".

Definition collective_timeout_error : NetworkError :=
  NetworkError.Timeout "collective sequence {sequence}; missing ranks [{missing}]".

(** The head of the session loop: a fresh round. *)
Definition open_round (st : CollectiveLoop) (world : nat) (failure : option (list Z)) (now : Z)
    : CollectiveLoop * option (nresult unit) :=
  match failure with
  | Some message => (st, Some (Err (server_failed message)))
  | None =>
      (mkCollective st.(agreement) st.(active_sequence) st.(round_timeout)
         (replicate world None) (now + st.(round_timeout)) st.(streams), None)
  end.

(** The tail of the session loop, once every rank has submitted. *)
Definition finish_round (st : CollectiveLoop) (uid : list Z) (world : nat) (p : Poll)
    (round : list Frame) : CollectiveLoop * option (nresult unit) :=
  let sequence := st.(agreement).(next_sequence) in
  let '(ag, routed) := validate_and_route st.(agreement) uid sequence round in
  let with_agreement streams :=
    mkCollective ag st.(active_sequence) st.(round_timeout) st.(requests) st.(deadline) streams in
  match routed with
  | Err error => (with_agreement st.(streams), Some (Err error))
  | Panic => (with_agreement st.(streams), Some Panic)
  | Ok responses =>
      let '(streams', written) := write_responses st.(streams) responses in
      match written with
      | Ok _ =>
          match round !! 0%nat with
          | None => (with_agreement streams', Some Panic)
          | Some first =>
              let timeout :=
                if bool_decide (first.(header).(opcode) = Opcode.SetTimeout)
                then first.(header).(tag) else st.(round_timeout) in
              open_round
                (mkCollective ag ag.(next_sequence) timeout st.(requests) st.(deadline) streams')
                world p.(next_failure) p.(next_now)
          end
      | r => (with_agreement streams', Some r)
      end
  end.

(** One turn of the inner loop; [Some result] leaves the session. *)
Definition collective_turn (st : CollectiveLoop) (uid : list Z) (world : nat) (p : Poll)
    : CollectiveLoop * option (nresult unit) :=
  let late otherwise :=
    match p.(poll_late_failure) with
    | Some message => server_failed message
    | None => InvalidConfiguration otherwise
    end in
  match p.(poll_failure) with
  | Some message => (st, Some (Err (server_failed message)))
  | None =>
      if st.(deadline) <=? p.(poll_now) then (st, Some (Err collective_timeout_error))
      else
        match p.(poll_received) with
        | Event (FrameArrived rank frame) =>
            match st.(requests) !! rank with
            | None => (st, Some Panic)
            | Some (Some _) =>
                (with_requests st (<[rank := Some frame]> st.(requests)),
                 Some (Err (InvalidConfiguration
                   "rank {rank} submitted collective sequence {sequence} twice")))
            | Some None =>
                let st' := with_requests st (<[rank := Some frame]> st.(requests)) in
                match mapM id st'.(requests) with
                | Some round => finish_round st' uid world p round
                | None => (st', None)
                end
            end
        | Event (Closed rank) =>
            if forallb (fun r => bool_decide (r = None)) st.(requests) then (st, Some (Ok tt))
            else (st, Some (Err (late
                   "rank {rank} disconnected during collective sequence {sequence}")))
        | Event (Failed rank _) =>
            (st, Some (Err (late
               "rank {rank} failed during collective sequence {sequence}: {message}")))
        | NothingYet => (st, None)
        | Disconnected => (st, Some (Err NetworkError.ChannelClosed))
        end
  end.

(** The end of the session: on an error every rank is sent an abort. *)
Definition end_session (st : CollectiveLoop) (uid : list Z) (world : nat) (r : nresult unit)
    : CollectiveLoop * nresult unit :=
  match r with
  | Err error =>
      (mkCollective st.(agreement) st.(active_sequence) st.(round_timeout) st.(requests)
         st.(deadline)
         (broadcast_collective_abort st.(streams) uid st.(active_sequence) world
            (error_text error)), Err error)
  | _ => (st, r)
  end.

(** The whole loop over the polls that the environment grants; [None] when it
    is still running after them. *)
Fixpoint collective_rounds (st : CollectiveLoop) (uid : list Z) (world : nat) (polls : list Poll)
    : CollectiveLoop * option (nresult unit) :=
  match polls with
  | [] => (st, None)
  | p :: polls' =>
      match collective_turn st uid world p with
      | (st', Some r) => let '(st'', r') := end_session st' uid world r in (st'', Some r')
      | (st', None) => collective_rounds st' uid world polls'
      end
  end.

Definition run_collective_loop (streams : list S) (uid : list Z) (world : nat) (timeout : Z)
    (failure : option (list Z)) (now : Z) (polls : list Poll)
    : nresult (CollectiveLoop * option (nresult unit)) :=
  ag ← lift_protocol (agreement_new world);
  let st := mkCollective ag ag.(next_sequence) timeout [] 0 streams in
  Ok (match open_round st world failure now with
      | (st', Some r) => let '(st'', r') := end_session st' uid world r in (st'', Some r')
      | (st', None) => collective_rounds st' uid world polls
      end).
End collective_loop.
Arguments CollectiveLoop : clear implicits.

(** ** Writing the responses *)
Section responses.
Context `{Crc32Hash} {S : Type} `{!FrameSink S}.

Lemma write_responses_Ok (ss : list S) fs ss' :
  Forall sink_ok ss -> Forall sendable fs -> length fs = length ss ->
  write_responses ss fs = (ss', Ok tt) ->
  length ss' = length ss /\
  forall r s', ss' !! r = Some s' -> sink_ok s' /\ exists s f,
    ss !! r = Some s /\ fs !! r = Some f /\ sink_frames s' = sink_frames s ++ [f].
Proof.
  intros Hok. revert fs ss'. induction Hok as [|s ss Hs _ IH]; intros fs ss' Hfs Hlen Hw.
  { injection Hw as <-. by split. }
  destruct fs as [|f fs]; [done|]. apply Forall_cons in Hfs as [Hf Hfs].
  cbn [write_responses] in Hw. destruct (sink_write s f) as [s1 [[]|e|]] eqn:Hw1; [|done|done].
  destruct (write_responses ss fs) as [rest r] eqn:Hrest. injection Hw as <- ->.
  destruct (sink_write_Ok s f s1 Hs Hf Hw1) as [Hs1 Hfr].
  destruct (IH fs rest Hfs ltac:(cbn in Hlen; lia) Hrest) as [Hl Ha].
  split; [cbn; lia|]. intros [|r] s' Hlk; cbn in Hlk |- *.
  - injection Hlk as <-. split; [done|]. eauto.
  - by apply Ha.
Qed.

Lemma write_responses_no_panic (ss : list S) fs : no_panic (write_responses ss fs).2.
Proof.
  revert fs. induction ss as [|s ss IH]; intros [|f fs]; cbn; try done.
  pose proof (sink_no_panic s f). destruct (sink_write s f) as [s1 [u|e|]]; cbn in *; try done.
  specialize (IH fs). by destruct (write_responses ss fs).
Qed.

Lemma mapM_id_Some {A} (l : list (option A)) k :
  mapM id l = Some k -> length k = length l /\ forall i x, k !! i = Some x -> l !! i = Some (Some x).
Proof.
  intros Hm%mapM_Some. split; [symmetry; by eapply Forall2_length|].
  intros i x Hx. by destruct (Forall2_lookup_r _ _ _ _ _ Hm Hx) as (y & Hy & Heq);
    unfold id in Heq; subst.
Qed.

End responses.

(** ** Facts about a round *)
Section rounds.
Context `{Crc32Hash} {S : Type} `{!FrameSink S} (uid : list Z) (world : nat)
  (error_text : NetworkError -> list Z).
Hypothesis (Hlength : length uid = 16%nat) (Hbytes : Forall is_byte uid)
  (Hworld : (0 < world)%nat /\ Z.of_nat world < 2 ^ 32).
Implicit Types (st : CollectiveLoop S) (p : Poll).

Lemma session_of n : in_width 64 n -> session_ok uid n world.
Proof using Hlength Hbytes Hworld. intros Hn. by split. Qed.

(** What rank [r] has been sent after [n] rounds. *)
Definition served (n : Z) (r : nat) (s : S) : Prop :=
  sink_ok s /\ Z.of_nat (length (sink_frames s)) = n /\
  forall i f, sink_frames s !! i = Some f ->
    validate_response f uid (Z.of_nat r) (Z.of_nat world) (Z.of_nat i) = Ok tt.

(** The loop's state while it collects the requests of round [n]. *)
Record collecting st (n : Z) : Prop := {
  collecting_idle : idle st.(agreement) world n;
  collecting_active : st.(active_sequence) = n;
  collecting_slots : length st.(requests) = world;
  collecting_requests : forall r f, st.(requests) !! r = Some (Some f) -> sendable f;
  collecting_streams : length st.(streams) = world;
  collecting_served : forall r s, st.(streams) !! r = Some s -> served n r s;
}.

Definition poll_ok p : Prop :=
  match p.(poll_received) with
  | Event (FrameArrived rank frame) => (rank < world)%nat /\ sendable frame
  | Event (Closed rank) | Event (Failed rank _) => (rank < world)%nat
  | _ => True
  end.

(** A routed round leaves the agreement idle at the next sequence number. *)
Lemma routed_idle ag n round ag' responses :
  idle ag world n -> in_width 64 n -> n < U64_MAX -> length round = world -> Forall sendable round ->
  validate_and_route ag uid n round = (ag', Ok responses) ->
  idle ag' world (n + 1) /\ length responses = world /\ Forall sendable responses /\
  forall d f, responses !! d = Some f ->
    validate_response f uid (Z.of_nat d) (Z.of_nat world) n = Ok tt.
Proof using Hlength Hbytes Hworld.
  intros Hidle Hn Hmax Hlen Hround Hr.
  assert (Hs : session_ok uid n (length round)) by (rewrite Hlen; by apply session_of).
  rewrite <- Hlen in Hidle. unfold validate_and_route in Hr.
  destruct (agree_requests ag uid n (length round) 0 round) as [ag1 r] eqn:Ha.
  injection Hr as <- Hr. apply bind_Ok in Hr as ([] & -> & Hr).
  destruct (agree_requests_sound _ _ _ _ _ _ _ (idle_ok _ _ _ Hidle) Ha) as (Hok1 & d & Hd & _).
  pose proof (idle_sequence _ _ _ Hidle) as Hseq.
  pose proof (agree_requests_idle round ag uid d ltac:(by rewrite Hseq) ltac:(by rewrite Hseq) Hd)
    as Hidle'.
  rewrite Hseq in Hidle'. rewrite Hidle' in Ha. injection Ha as <-.
  destruct (route_answered uid n round Hs responses Hround Hr) as [Hl Hans].
  rewrite Hlen in *. split; [by split|]. split; [done|]. split.
  - apply Forall_forall. intros f Hf. apply list_elem_of_lookup in Hf as [d' Hf].
    by destruct (Hans d' f Hf) as (op & q & _ & ?).
  - intros d' f Hf. destruct (Hans d' f Hf) as (op & q & Ha & _). by eapply answers_accepted.
Qed.

(** A completed round: every rank has been sent one more response. *)
Lemma finish_round_step st n p round st' :
  collecting st n -> in_width 64 n -> n < U64_MAX ->
  length round = world -> Forall sendable round ->
  finish_round st uid world p round = (st', None) -> collecting st' (n + 1).
Proof using Hlength Hbytes Hworld.
  intros [Hidle Hact Hsl Hreq Hst Hserved] Hn Hmax Hlen Hround Hf. unfold finish_round in Hf.
  rewrite (idle_sequence _ _ _ Hidle) in Hf.
  destruct (validate_and_route (agreement st) uid n round) as [ag [responses|e|]] eqn:Hr;
    [|done|done].
  destruct (routed_idle _ _ _ _ _ Hidle Hn Hmax Hlen Hround Hr) as (Hidle' & Hl & Hsend & Hacc).
  destruct (write_responses (streams st) responses) as [ss [[]|e|]] eqn:Hw; [|done|done].
  apply write_responses_Ok in Hw as [Hlss Hss]; [|  |done|lia].
  2: { apply Forall_forall. intros s Hs. apply list_elem_of_lookup in Hs as [r Hs].
       by destruct (Hserved r s Hs). }
  destruct (round !! 0%nat); [|done]. unfold open_round in Hf.
  destruct (next_failure p); [done|]. injection Hf as <-.
  split; cbn; [done|by apply Hidle'|apply length_replicate| |lia|].
  - intros r f' Hr'. apply lookup_replicate in Hr' as [? _]. done.
  - intros r s' Hs'. destruct (Hss r s' Hs') as (Hok & s & resp & Hs & Hfs & Hfr).
    destruct (Hserved r s Hs) as (_ & Hcount & Hall). split; [done|]. rewrite Hfr.
    split; [rewrite length_app; cbn; lia|]. intros i g Hg.
    apply lookup_app_Some in Hg as [Hg|[Hge Hg]]; [by apply Hall|].
    destruct (i - length (sink_frames s))%nat as [|m] eqn:Hi; [|discriminate Hg].
    injection Hg as <-. replace (Z.of_nat i) with n by lia. by apply Hacc.
Qed.

Lemma collective_turn_step st n p st' :
  collecting st n -> in_width 64 n -> n < U64_MAX -> poll_ok p ->
  collective_turn st uid world p = (st', None) ->
  collecting st' n \/ collecting st' (n + 1).
Proof using Hlength Hbytes Hworld.
  intros Hc Hn Hmax Hp Ht. unfold collective_turn in Ht. unfold poll_ok in Hp.
  destruct (poll_failure p); [done|]. destruct (deadline st <=? poll_now p); [done|].
  destruct (poll_received p) as [[rank frame|rank|rank e]| |]; try done;
    [| |by injection Ht as <-; left].
  - destruct (requests st !! rank) as [[f|]|] eqn:Hlk; [done| |done].
    set (st1 := with_requests st _) in Ht.
    assert (Hc1 : collecting st1 n).
    { destruct Hc as [Hidle Hact Hsl Hreq Hst Hserved]. split; cbn; try done.
      - by rewrite length_insert.
      - intros r f [(_ & [= <-] & _)|[_ Hr]]%list_lookup_insert_Some; [apply Hp|by eapply Hreq]. }
    destruct (mapM id (requests st1)) as [round|] eqn:Hm; [|injection Ht as <-; by left].
    right. destruct (mapM_id_Some _ _ Hm) as [Hl Hall].
    eapply finish_round_step; [exact Hc1|done|done| | |exact Ht].
    + rewrite Hl. apply Hc1.
    + apply Forall_forall. intros f Hf. apply list_elem_of_lookup in Hf as [i Hf].
      eapply (collecting_requests _ _ Hc1). by apply Hall.
  - destruct (forallb _ _); done.
Qed.

Lemma collective_rounds_step st n polls st' :
  collecting st n -> 0 <= n -> n + Z.of_nat (length polls) < U64_MAX -> Forall poll_ok polls ->
  collective_rounds error_text st uid world polls = (st', None) ->
  exists m, n <= m <= n + Z.of_nat (length polls) /\ collecting st' m.
Proof using Hlength Hbytes Hworld.
  intros Hc Hn Hmax Hp. revert st n Hc Hn Hmax.
  induction Hp as [|p polls Hp _ IH]; intros st n Hc Hn Hmax Hr.
  { injection Hr as <-. exists n. split; [cbn; lia|done]. }
  cbn [collective_rounds] in Hr. cbn [length] in *.
  destruct (collective_turn st uid world p) as [st1 [r|]] eqn:Ht.
  { by destruct (end_session error_text st1 uid world r). }
  unfold U64_MAX in Hmax.
  destruct (collective_turn_step _ _ _ _ Hc ltac:(unfold in_width; lia) ltac:(unfold U64_MAX; lia)
    Hp Ht) as [Hc1|Hc1].
  - destruct (IH st1 n Hc1 Hn ltac:(unfold U64_MAX; lia) Hr) as (m & ? & ?). exists m. split; [lia|done].
  - destruct (IH st1 (n + 1) Hc1 ltac:(lia) ltac:(unfold U64_MAX; lia) Hr) as (m & ? & ?).
    exists m. split; [lia|done].
Qed.

Lemma start_collecting (ss : list S) timeout now ag st :
  fresh world ss -> agreement_new world = Ok ag ->
  open_round (mkCollective ag ag.(next_sequence) timeout [] 0 ss) world None now = (st, None) ->
  collecting st 0.
Proof using Hlength Hbytes Hworld.
  intros [Hl Hs] Ha [= <-]. unfold agreement_new in Ha.
  destruct (world =? 0)%nat eqn:Hz; [done|]. injection Ha as <-.
  split; cbn; try done.
  - split; try done. split; cbn; [lia|unfold in_width; lia|].
    intros k l Hk. by rewrite lookup_empty in Hk.
  - apply length_replicate.
  - intros r f Hr. by apply lookup_replicate in Hr as [? _].
  - intros r s Hr. destruct (Forall_lookup_1 _ _ _ _ Hs Hr) as [Hok Hf]. split; [done|].
    rewrite Hf. split; [done|]. intros i f Hi. by rewrite lookup_nil in Hi.
Qed.

(** C8: The session is in lockstep.  While the collective loop runs, every rank
    has been sent exactly one response per completed round, and the response
    of round [i] is the [i]-th frame in its stream, addressed to it under
    sequence number [i], so that its client accepts it.  (The number of turns
    is smaller than the sequence numbers available.) *)
Theorem collective_lockstep (ss : list S) timeout now polls st rank s :
  fresh world ss -> Forall poll_ok polls -> Z.of_nat (length polls) < U64_MAX ->
  run_collective_loop error_text ss uid world timeout None now polls = Ok (st, None) ->
  st.(streams) !! rank = Some s ->
  Z.of_nat (length (sink_frames s)) = st.(agreement).(next_sequence) /\
  forall i f, sink_frames s !! i = Some f ->
    validate_response f uid (Z.of_nat rank) (Z.of_nat world) (Z.of_nat i) = Ok tt.
Proof using Hlength Hbytes Hworld.
  intros Hfresh Hp Hmax Hrun Hs. unfold run_collective_loop in Hrun.
  apply bind_Ok in Hrun as (ag & Ha%lift_protocol_Ok & Hrun).
  destruct (open_round _ world None now) as [st0 [r|]] eqn:Ho; [done|].
  pose proof (start_collecting ss timeout now ag st0 Hfresh Ha Ho) as Hc0.
  injection Hrun as Hrun.
  destruct (collective_rounds_step st0 0 polls st Hc0 ltac:(lia) ltac:(lia) Hp Hrun)
    as (m & _ & [Hidle _ _ _ _ Hserved]).
  destruct (Hserved rank s Hs) as (_ & Hcount & Hall).
  rewrite (idle_sequence _ _ _ Hidle). by split.
Qed.


(** *** No panics *)
Lemma finish_round_no_panic st n p round :
  collecting st n -> in_width 64 n -> length round = world -> Forall sendable round ->
  (finish_round st uid world p round).2 <> Some Panic.
Proof using Hlength Hbytes Hworld.
  intros [Hidle Hact Hsl Hreq Hst Hserved] Hn Hlen Hround. unfold finish_round.
  rewrite (idle_sequence _ _ _ Hidle).
  assert (Hs : session_ok uid n (length round)) by (rewrite Hlen; by apply session_of).
  pose proof (validate_and_route_no_panic uid n round Hs _ (idle_ok _ _ _ Hidle) Hround) as Hnp.
  destruct (validate_and_route (agreement st) uid n round) as [ag [responses|e|]]; [|done|done].
  pose proof (write_responses_no_panic (streams st) responses) as Hw.
  destruct (write_responses (streams st) responses) as [ss [u|e|]]; [|done|done].
  destruct (lookup_lt_is_Some_2 round 0) as [first ->]; [lia|].
  unfold open_round. by destruct (next_failure p).
Qed.

Lemma collective_turn_no_panic st n p :
  collecting st n -> in_width 64 n -> poll_ok p ->
  (collective_turn st uid world p).2 <> Some Panic.
Proof using Hlength Hbytes Hworld.
  intros Hc Hn Hp. unfold collective_turn, poll_ok in *.
  destruct (poll_failure p); [done|]. destruct (deadline st <=? poll_now p); [done|].
  destruct (poll_received p) as [[rank frame|rank|rank e]| |]; try done.
  - pose proof (collecting_slots _ _ Hc) as Hsl. destruct Hp as [Hr Hf].
    destruct (lookup_lt_is_Some_2 (requests st) rank) as [[g|] Hlk]; [lia|by rewrite Hlk|].
    rewrite Hlk. set (st1 := with_requests st _).
    assert (Hc1 : collecting st1 n).
    { destruct Hc as [Hidle Hact _ Hreq Hst Hserved]. split; cbn; try done.
      - by rewrite length_insert.
      - intros r f [(_ & [= <-] & _)|[_ Hr']]%list_lookup_insert_Some; [done|by eapply Hreq]. }
    destruct (mapM id (requests st1)) as [round|] eqn:Hm; [|done].
    destruct (mapM_id_Some _ _ Hm) as [Hl Hall].
    apply (finish_round_no_panic st1 n p round Hc1 Hn); [rewrite Hl; apply Hc1|].
    apply Forall_forall. intros f Hin. apply list_elem_of_lookup in Hin as [i Hi].
    eapply (collecting_requests _ _ Hc1). by apply Hall.
  - by destruct (forallb _ _).
Qed.

Lemma end_session_no_panic st r st' r' :
  Some r <> Some Panic -> end_session error_text st uid world r = (st', r') -> Some r' <> Some Panic.
Proof using Type. intros Hr. destruct r; cbn; intros [= _ <-]; done. Qed.

Lemma collective_rounds_no_panic st n polls :
  collecting st n -> 0 <= n -> n + Z.of_nat (length polls) < U64_MAX -> Forall poll_ok polls ->
  (collective_rounds error_text st uid world polls).2 <> Some Panic.
Proof using Hlength Hbytes Hworld.
  intros Hc Hn Hmax Hp. revert st n Hc Hn Hmax.
  induction Hp as [|p polls Hp _ IH]; intros st n Hc Hn Hmax; [done|].
  cbn [collective_rounds]. cbn [length] in *. unfold U64_MAX in Hmax.
  pose proof (collective_turn_no_panic st n p Hc ltac:(unfold in_width; lia) Hp) as Hnp.
  destruct (collective_turn st uid world p) as [st1 [r|]] eqn:Ht; cbn [snd] in Hnp.
  - destruct (end_session error_text st1 uid world r) as [st2 r2] eqn:He.
    by eapply end_session_no_panic.
  - destruct (collective_turn_step _ _ _ _ Hc ltac:(unfold in_width; lia)
      ltac:(unfold U64_MAX; lia) Hp Ht) as [Hc1|Hc1].
    + apply (IH st1 n Hc1 Hn). unfold U64_MAX. lia.
    + apply (IH st1 (n + 1) Hc1); [lia|]. unfold U64_MAX. lia.
Qed.

(** The collective loop never panics: whatever its channel, its clock and
    the failure slot give it, and whatever requests the ranks send, each call
    inside the loop returns (an answer or an error). *)
Theorem collective_loop_no_panic (ss : list S) timeout failure now polls st r :
  fresh world ss -> Forall poll_ok polls -> Z.of_nat (length polls) < U64_MAX ->
  run_collective_loop error_text ss uid world timeout failure now polls = Ok (st, r) ->
  r <> Some Panic.
Proof using Hlength Hbytes Hworld.
  intros Hfresh Hp Hmax Hrun. unfold run_collective_loop in Hrun.
  apply bind_Ok in Hrun as (ag & Ha%lift_protocol_Ok & Hrun). injection Hrun as Hrun.
  destruct failure as [message|]; [by injection Hrun as _ <-|].
  destruct (open_round _ world None now) as [st0 [r0|]] eqn:Ho; [done|].
  pose proof (start_collecting ss timeout now ag st0 Hfresh Ha Ho) as Hc0.
  pose proof (collective_rounds_no_panic st0 0 polls Hc0 ltac:(lia) ltac:(lia) Hp) as Hnp.
  by rewrite Hrun in Hnp.
Qed.
End rounds.

(** ** Witnesses: two ranks gather once and are ready for the next round *)
Section witnesses.
Import Crc32Ieee.

Definition frame_poll (rank : nat) (frame : Frame) : Poll :=
  mkPoll None 1 (Event (FrameArrived rank frame)) None None 2.

(** The ranks of [gather_requests], the second one first. *)
Definition gather_polls : list Poll :=
  [frame_poll 1 (example_request Opcode.AllGather 0 1 [3; 4] 2);
   frame_poll 0 (example_request Opcode.AllGather 0 0 [1; 2] 2)].

Lemma gather_polls_ok : Forall (poll_ok 2) gather_polls.
Proof.
  pose proof gather_requests_ok as Hg. unfold gather_requests in Hg.
  apply Forall_cons in Hg as [H0 Hg]. apply Forall_cons in Hg as [H1 _].
  repeat (apply Forall_cons_2; [split; [cbn; lia|assumption]|]). apply Forall_nil_2.
Qed.

Definition gather_run : nresult (CollectiveLoop OutStream * option (nresult unit)) :=
  run_collective_loop (S:=OutStream) no_text p2p_out example_uid 2 1000 None 0 gather_polls.

Definition gather_state : CollectiveLoop OutStream :=
  match gather_run with
  | Ok (st, _) => st
  | _ => mkCollective (mkAgreement 2 0 ∅) 0 0 [] 0 []
  end.

Lemma gather_run_state : gather_run = Ok (gather_state, None).
Proof. vm_compute. reflexivity. Qed.

Definition rank1_stream : OutStream :=
  default (mkOut [] None (fun _ => 10%nat)) (gather_state.(streams) !! 1%nat).

Lemma collective_lockstep_witness : Z.of_nat (length (frames_of rank1_stream)) = 1.
Proof.
  apply (collective_lockstep (S:=OutStream) example_uid 2 no_text eq_refl
    (session_uid_bytes _ _ _ (example_session 2 eq_refl)) ltac:(split; lia)
    p2p_out 1000 0 gather_polls gather_state 1 rank1_stream p2p_out_fresh gather_polls_ok
    ltac:(reflexivity) gather_run_state).
  vm_compute. reflexivity.
Defined.

Lemma collective_loop_no_panic_witness : (None : option (nresult unit)) <> Some Panic.
Proof.
  apply (collective_loop_no_panic (S:=OutStream) example_uid 2 no_text eq_refl
    (session_uid_bytes _ _ _ (example_session 2 eq_refl)) ltac:(split; lia)
    p2p_out 1000 None 0 gather_polls gather_state None p2p_out_fresh gather_polls_ok
    ltac:(reflexivity) gather_run_state).
Defined.
End witnesses.
