(* ===== verification/Ring.v ===== *)
(** * Ring schedules

    The ring algorithms of the program differ in where a chunk starts its way
    and in what a rank does with the chunk it receives.  A ring state is a
    value per rank and chunk; in each step every rank receives one chunk from
    its predecessor, all ranks sending before any of them writes.  The results
    of the reducing and of the copying ring are proved here once, for
    src/src/in_process/collective/reduction.rs, exchange.rs and native.rs. *)
From S2P Require Import Prelude.

Section ring.
Context {V : Type} (w : nat).

(** [(rank + world_size - 1) % world_size] *)
Definition predecessor (r : nat) : nat := ((r + w - 1) mod w)%nat.

(** How many steps after chunk [c] has left its first rank [c + d] it arrives
    at rank [r]. *)
Definition age (d r c : nat) : nat := ((r + w + w - c - d) mod w)%nat.

(** One step: [receives r] is the chunk that rank [r] receives; it becomes
    [combine own incoming]. *)
Definition ring_step (combine : V -> V -> V) (receives : nat -> nat)
    (f : nat -> nat -> V) (r c : nat) : V :=
  if (c =? receives r)%nat then combine (f r c) (f (predecessor r) c) else f r c.

(** What a chunk has become [a] ranks after rank [c + d]. *)
Fixpoint gathered (combine : V -> V -> V) (d : nat) (x : nat -> nat -> V) (c a : nat) : V :=
  match a with
  | O => x ((c + d) mod w)%nat c
  | S a' => combine (x ((c + d + a) mod w)%nat c) (gathered combine d x c a')
  end.

Hypothesis (Hw : (0 < w)%nat).

(** A number between 0 and [2 w] modulo [w]. *)
Lemma mod_once n : (n < 2 * w)%nat -> (n mod w)%nat = if (n <? w)%nat then n else (n - w)%nat.
Proof using Hw.
  intros Hn. destruct (Nat.ltb_spec n w); [by apply Nat.mod_small|].
  replace n with (n - w + 1 * w)%nat at 1 by lia. rewrite Nat.Div0.mod_add.
  apply Nat.mod_small. lia.
Qed.

Lemma mod_twice n : (n < 3 * w)%nat ->
  (n mod w)%nat = if (n <? w)%nat then n else if (n <? 2 * w)%nat then (n - w)%nat else (n - 2 * w)%nat.
Proof using Hw.
  intros Hn. destruct (Nat.ltb_spec n (2 * w)).
  - rewrite mod_once by lia. by destruct (n <? w)%nat.
  - rewrite (proj2 (Nat.ltb_ge n w)) by lia.
    replace n with (n - 2 * w + 2 * w)%nat at 1 by lia. rewrite Nat.Div0.mod_add.
    apply Nat.mod_small. lia.
Qed.

Ltac solve_mod :=
  cbv zeta;
  repeat match goal with
  | |- context [(?a <? ?b)%nat] => destruct (Nat.ltb_spec a b)
  | |- context [(?a =? ?b)%nat] => destruct (Nat.eqb_spec a b)
  end;
  repeat first [rewrite mod_once by lia | rewrite mod_twice by lia];
  repeat match goal with
  | |- context [(?a <? ?b)%nat] => destruct (Nat.ltb_spec a b)
  end; try lia.

Lemma predecessor_lt r : (r < w)%nat -> (predecessor r < w)%nat.
Proof using Hw. intros. unfold predecessor. apply Nat.mod_upper_bound. lia. Qed.

Lemma predecessor_eq r :
  (r < w)%nat -> predecessor r = if (r =? 0)%nat then (w - 1)%nat else (r - 1)%nat.
Proof using Hw. intros Hr. unfold predecessor. solve_mod. Qed.

Lemma age_lt d r c : (age d r c < w)%nat.
Proof using Hw. unfold age. apply Nat.mod_upper_bound. lia. Qed.

Lemma age_eq d r c :
  (r < w)%nat -> (c < w)%nat -> (d <= w)%nat ->
  age d r c = let n := (r + w + w - c - d)%nat in
    if (n <? w)%nat then n else if (n <? 2 * w)%nat then (n - w)%nat else (n - 2 * w)%nat.
Proof using Hw. intros. unfold age. apply mod_twice. lia. Qed.

Lemma age_predecessor d r c :
  (r < w)%nat -> (c < w)%nat -> (d <= w)%nat -> (0 < age d r c)%nat ->
  age d (predecessor r) c = (age d r c - 1)%nat.
Proof using Hw.
  intros Hr Hc Hd. rewrite predecessor_eq by done. rewrite !age_eq by (destruct (r =? 0)%nat; lia).
  destruct (Nat.eqb_spec r 0); solve_mod.
Qed.

Lemma age_rank d r c :
  (r < w)%nat -> (c < w)%nat -> (d <= w)%nat -> ((c + d + age d r c) mod w)%nat = r.
Proof using Hw.
  intros Hr Hc Hd. rewrite age_eq by done. solve_mod.
Qed.

(** The chunk of rank [r] starts its way at the next rank. *)
Lemma age_own r : (r < w)%nat -> age 1 r r = (w - 1)%nat.
Proof using Hw.
  intros Hr. rewrite age_eq by lia. cbv zeta.
  repeat match goal with |- context [(?a <? ?b)%nat] => destruct (Nat.ltb_spec a b) end; lia.
Qed.

(** The schedule [receives] brings chunk [c] to rank [r] at step [age - 1]. *)
Definition follows (d : nat) (receives : nat -> nat -> nat) : Prop :=
  forall s r c, (s < w - 1)%nat -> (r < w)%nat -> (c < w)%nat ->
    c = receives s r <-> age d r c = S s.

(** The state after [n] steps. *)
Fixpoint ring_steps (combine : V -> V -> V) (receives : nat -> nat -> nat)
    (f : nat -> nat -> V) (n : nat) : nat -> nat -> V :=
  match n with
  | O => f
  | S n' => ring_step combine (receives n') (ring_steps combine receives f n')
  end.

Lemma gathered_S combine d f c a :
  gathered combine d f c (S a) =
    combine (f ((c + d + S a) mod w)%nat c) (gathered combine d f c a).
Proof using Type. done. Qed.

(** After [n] steps the chunks that have travelled at most [n] ranks carry what
    they met on the way, the others are untouched. *)
Lemma ring_steps_eq combine d receives f n r c :
  (d <= w)%nat -> follows d receives ->
  (n <= w - 1)%nat -> (r < w)%nat -> (c < w)%nat ->
  ring_steps combine receives f n r c =
    if (age d r c <=? n)%nat then gathered combine d f c (age d r c) else f r c.
Proof using Hw.
  intros Hd Hfol. revert r c. induction n as [|n IH]; intros r c Hn Hr Hc; cbn [ring_steps].
  - destruct (Nat.leb_spec (age d r c) 0) as [Hle|]; [|done].
    assert (Ha : age d r c = 0%nat) by lia. rewrite Ha. cbn [gathered].
    pose proof (age_rank d r c Hr Hc Hd) as Hrank. rewrite Ha, Nat.add_0_r in Hrank.
    by rewrite Hrank.
  - unfold ring_step. pose proof (predecessor_lt r Hr) as Hp.
    destruct (Nat.eqb_spec c (receives n r)) as [Hrecv|Hne].
    + apply Hfol in Hrecv as Ha; [|lia|done|done].
      rewrite !IH by (done || lia). rewrite (age_predecessor d r c) by (done || lia). rewrite Ha.
      rewrite (proj2 (Nat.leb_gt _ _)) by lia.
      rewrite (proj2 (Nat.leb_le (S n - 1) n)), (proj2 (Nat.leb_le (S n) (S n))) by lia.
      rewrite gathered_S. replace (S n - 1)%nat with n by lia. f_equal.
      rewrite <- Ha. by rewrite age_rank.
    + rewrite IH by (done || lia).
      assert (Ha : age d r c <> S n) by (intros Ha; apply Hne; apply Hfol; (done || lia)).
      destruct (Nat.leb_spec (age d r c) n), (Nat.leb_spec (age d r c) (S n)); (done || lia).
Qed.

Lemma ring_step_ext combine receives (f g : nat -> nat -> V) r c :
  (r < w)%nat -> (forall r, (r < w)%nat -> f r c = g r c) ->
  ring_step combine receives f r c = ring_step combine receives g r c.
Proof using Hw.
  intros Hr Hfg. unfold ring_step. by rewrite !Hfg by (done || by apply predecessor_lt).
Qed.

(** At the end of the ring every chunk that rank [r] holds has come all the way
    round from rank [c + d]. *)
Lemma ring_reduced combine d receives f r c :
  (d <= w)%nat -> follows d receives -> (r < w)%nat -> (c < w)%nat ->
  age d r c = (w - 1)%nat ->
  ring_steps combine receives f (w - 1) r c = gathered combine d f c (w - 1).
Proof using Hw.
  intros Hd Hfol Hr Hc Ha. rewrite (ring_steps_eq combine d) by (done || lia).
  rewrite Ha. by rewrite Nat.leb_refl.
Qed.

Lemma gathered_copy d f c a : gathered (fun _ incoming => incoming) d f c a = f ((c + d) mod w)%nat c.
Proof using Type. induction a; done. Qed.

(** The copying ring gives every rank the chunk of its first rank. *)
Lemma ring_copied d receives f r c :
  (d <= w)%nat -> follows d receives -> (r < w)%nat -> (c < w)%nat ->
  ring_steps (fun _ incoming => incoming) receives f (w - 1) r c = f ((c + d) mod w)%nat c.
Proof using Hw.
  intros Hd Hfol Hr Hc. rewrite (ring_steps_eq _ d) by (done || lia).
  pose proof (age_lt d r c). rewrite (proj2 (Nat.leb_le _ _)) by lia. apply gathered_copy.
Qed.

(** The schedules of the program. *)
Lemma follows_reduce : follows 1 (fun s r => (r + w - s - 2) mod w)%nat.
Proof using Hw.
  intros s r c Hs Hr Hc. rewrite age_eq by lia. rewrite mod_once by lia. cbv zeta.
  repeat match goal with |- context [(?a <? ?b)%nat] => destruct (Nat.ltb_spec a b) end; lia.
Qed.

Lemma follows_gather : follows 0 (fun s r => (r + w - s - 1) mod w)%nat.
Proof using Hw.
  intros s r c Hs Hr Hc. rewrite age_eq by lia. rewrite mod_once by lia. cbv zeta.
  repeat match goal with |- context [(?a <? ?b)%nat] => destruct (Nat.ltb_spec a b) end; lia.
Qed.

(** What the predecessor sends is what a rank receives. *)
Lemma send_reduce s r : (s < w - 1)%nat -> (r < w)%nat ->
  ((predecessor r + w - s - 1) mod w = (r + w - s - 2) mod w)%nat.
Proof using Hw.
  intros Hs Hr. rewrite predecessor_eq by done.
  destruct (Nat.eqb_spec r 0); rewrite !mod_once by lia;
    repeat match goal with |- context [(?a <? ?b)%nat] => destruct (Nat.ltb_spec a b) end; lia.
Qed.

Lemma send_gather s r : (s < w - 1)%nat -> (r < w)%nat ->
  ((predecessor r + w - s) mod w = (r + w - s - 1) mod w)%nat.
Proof using Hw.
  intros Hs Hr. rewrite predecessor_eq by done.
  destruct (Nat.eqb_spec r 0); rewrite !mod_once by lia;
    repeat match goal with |- context [(?a <? ?b)%nat] => destruct (Nat.ltb_spec a b) end; lia.
Qed.
End ring.

(** ** The order of a ring reduction

    [gathered] starts with the chunk of rank [c + d] and meets the other ranks
    in ring order.  [reduce_list] is the reduction of a nonempty list; with an
    associative and commutative operation its order does not matter. *)
Definition reduce_list {V} (combine : V -> V -> V) (l : list V) : option V :=
  foldr (fun v acc => Some (match acc with Some a => combine v a | None => v end)) None l.

Definition ring_order (w d c : nat) : list nat :=
  map (fun a => (c + d + a) mod w)%nat (rev (seq 0 w)).

Lemma rev_seq_S n : rev (seq 0 (S n)) = n :: rev (seq 0 n).
Proof. by rewrite seq_S, rev_app_distr. Qed.

Lemma ring_order_perm w d c :
  (c < w)%nat -> (d <= w)%nat -> ring_order w d c ≡ₚ seq 0 w.
Proof.
  intros Hc Hd. symmetry. apply submseteq_length_Permutation.
  - apply NoDup_submseteq; [apply NoDup_seq|]. intros r Hr%elem_of_seq.
    unfold ring_order. apply list_elem_of_fmap. exists (age w d r c).
    split; [symmetry; apply age_rank; lia|]. apply list_elem_of_In.
    rewrite <- in_rev. apply list_elem_of_In, elem_of_seq. pose proof (age_lt w ltac:(lia) d r c). lia.
  - unfold ring_order. rewrite length_map, length_rev, !length_seq. lia.
Qed.

Lemma reduce_list_perm {V} (combine : V -> V -> V) l l' :
  (forall a b c, combine a (combine b c) = combine (combine a b) c) ->
  (forall a b, combine a b = combine b a) ->
  l ≡ₚ l' -> reduce_list combine l = reduce_list combine l'.
Proof.
  intros Hassoc Hcomm. unfold reduce_list.
  induction 1 as [|v l l' _ IH|v v' l|l l' l'' _ IH1 _ IH2]; cbn [foldr].
  - done.
  - by rewrite IH.
  - destruct (foldr _ None l); f_equal.
    + rewrite !Hassoc. f_equal. apply Hcomm.
    + apply Hcomm.
  - congruence.
Qed.

Lemma length_gathered_zip {V} w d (f : V -> V -> V) (x : nat -> nat -> list V) c a n :
  (0 < w)%nat -> (forall r, (r < w)%nat -> length (x r c) = n) ->
  length (gathered w (zip_with f) d x c a) = n.
Proof.
  intros Hw Hx. induction a as [|a IH]; cbn [gathered].
  - apply Hx, Nat.mod_upper_bound. lia.
  - rewrite length_zip_with, IH, Hx; [lia|]. apply Nat.mod_upper_bound. lia.
Qed.

(** One element of an elementwise ring reduction. *)
Lemma gathered_lookup {V} w d (f : V -> V -> V) (x : nat -> nat -> list V) c a i n :
  (0 < w)%nat -> (forall r, (r < w)%nat -> length (x r c) = n) -> (i < n)%nat ->
  gathered w (zip_with f) d x c a !! i =
    reduce_list f (omap (fun r => x r c !! i)
      (map (fun a => (c + d + a) mod w)%nat (rev (seq 0 (S a))))).
Proof.
  intros Hw Hx Hi.
  assert (Hsome : forall m, exists v, x (m mod w)%nat c !! i = Some v).
  { intros m. apply lookup_lt_is_Some_2. rewrite Hx; [done|]. apply Nat.mod_upper_bound. lia. }
  induction a as [|a IH].
  - destruct (Hsome (c + d)%nat) as [v Hv]. cbn. by rewrite Nat.add_0_r, Hv.
  - rewrite rev_seq_S. cbn [map omap list_omap]. destruct (Hsome (c + d + S a)%nat) as [v Hv].
    rewrite gathered_S, lookup_zip_with, Hv. cbn [mbind option_bind].
    rewrite IH. set (rest := omap _ _). unfold reduce_list at 2. cbn [foldr].
    fold (reduce_list f rest). destruct (reduce_list f rest) as [u|] eqn:Hu; [done|].
    exfalso. revert Hu. unfold rest. rewrite rev_seq_S. cbn [map omap list_omap].
    destruct (Hsome (c + d + a)%nat) as [v' Hv']. by rewrite Hv'.
Qed.

(** [result] holds, element by element, the reduction over all ranks. *)
Definition reduces {T} (f : T -> T -> T) (x : nat -> list T) (w : nat) (result : list T) : Prop :=
  forall i, (i < length result)%nat -> exists order, order ≡ₚ seq 0 w /\
    result !! i = reduce_list f (omap (fun r => x r !! i) order).

Lemma reduces_commutative {T} (f : T -> T -> T) x w result i :
  (forall a b c, f a (f b c) = f (f a b) c) -> (forall a b, f a b = f b a) ->
  reduces f x w result -> (i < length result)%nat ->
  result !! i = reduce_list f (omap (fun r => x r !! i) (seq 0 w)).
Proof.
  intros Ha Hc Hr Hi. destruct (Hr i Hi) as (order & Hperm & ->).
  apply reduce_list_perm; [done|done|]. by rewrite Hperm.
Qed.

(** ** Chunks of a buffer

    [start k] is where chunk [k] of a partition into [w] consecutive chunks
    starts. *)
Section parts.
Context {A : Type} (start : nat -> nat) (w : nat).

Definition part_len (k : nat) : nat := (start (S k) - start k)%nat.
Definition part (k : nat) (l : list A) : list A := sub (start k) (part_len k) l.

Hypothesis (Hmono : forall j k, (j <= k)%nat -> (start j <= start k)%nat).

Lemma part_bound k n :
  (k < w)%nat -> (start w <= n)%nat -> (start k + part_len k <= n)%nat.
Proof using Hmono.
  intros Hk Hn. unfold part_len. pose proof (Hmono k (S k) ltac:(lia)).
  pose proof (Hmono (S k) w ltac:(lia)). lia.
Qed.

Lemma length_part k (l : list A) :
  (k < w)%nat -> (start w <= length l)%nat -> length (part k l) = part_len k.
Proof using Hmono. intros Hk Hl. apply length_sub. by apply part_bound. Qed.

Lemma part_put j k v (l : list A) :
  (j < w)%nat -> (k < w)%nat -> (start w <= length l)%nat -> length v = part_len k ->
  part j (put (start k) v l) = if (j =? k)%nat then v else part j l.
Proof using Hmono.
  intros Hj Hk Hl Hv. pose proof (part_bound k _ Hk Hl).
  destruct (Nat.eqb_spec j k) as [->|Hne].
  - unfold part. rewrite <- Hv. apply sub_put_eq. lia.
  - apply sub_put_ne; [lia|]. rewrite Hv. unfold part_len.
    pose proof (Hmono j (S j) ltac:(lia)). pose proof (Hmono k (S k) ltac:(lia)).
    destruct (decide (j < k)%nat).
    + left. pose proof (Hmono (S j) k ltac:(lia)). lia.
    + right. pose proof (Hmono (S k) j ltac:(lia)). lia.
Qed.

Lemma concat_parts_take n (l : list A) :
  start 0 = 0%nat -> concat (map (fun k => part k l) (seq 0 n)) = take (start n) l.
Proof using Hmono.
  intros H0. induction n as [|n IH]; [by rewrite H0|].
  rewrite seq_S, map_app, concat_app, IH. cbn. rewrite app_nil_r.
  pose proof (Hmono n (S n) ltac:(lia)).
  unfold part, sub, part_len. rewrite take_take_drop. f_equal. lia.
Qed.

Lemma concat_parts (l : list A) :
  start 0 = 0%nat -> length l = start w -> concat (map (fun k => part k l) (seq 0 w)) = l.
Proof using Hmono. intros H0 Hl. rewrite concat_parts_take by done. apply take_ge. lia. Qed.

Lemma length_parts (g : nat -> list A) n :
  start 0 = 0%nat -> (forall k, (k < n)%nat -> length (g k) = part_len k) ->
  length (concat (map g (seq 0 n))) = start n.
Proof using Hmono.
  intros H0. induction n as [|n IH]; intros Hg; [done|].
  rewrite seq_S, map_app, concat_app, length_app, IH by auto. cbn.
  rewrite app_nil_r, Hg by lia. pose proof (Hmono n (S n) ltac:(lia)). unfold part_len. lia.
Qed.

Lemma part_concat (g : nat -> list A) k :
  start 0 = 0%nat -> (k < w)%nat -> (forall k, (k < w)%nat -> length (g k) = part_len k) ->
  part k (concat (map g (seq 0 w))) = g k.
Proof using Hmono.
  intros H0 Hk Hg. replace w with (k + S (w - k - 1))%nat at 1 by lia.
  rewrite seq_app, map_app, concat_app. cbn [seq map concat].
  assert (Hlen : length (concat (map g (seq 0 k))) = start k).
  { apply length_parts; [done|]. intros j Hj. apply Hg. lia. }
  unfold part, sub. rewrite drop_app_length' by done.
  apply take_app_length'. symmetry. by apply Hg.
Qed.

(** A rank replaces one chunk of what it holds. *)
Lemma part_ring_step (combine : list A -> list A -> list A) (receives : nat -> nat)
    (x : nat -> list A) r c :
  (forall r, (r < w)%nat -> (start w <= length (x r))%nat) ->
  (forall l l', length l = length l' -> length (combine l l') = length l) ->
  (r < w)%nat -> (c < w)%nat -> (receives r < w)%nat ->
  part c (put (start (receives r))
      (combine (part (receives r) (x r)) (part (receives r) (x (predecessor w r)))) (x r)) =
  ring_step w combine receives (fun r c => part c (x r)) r c.
Proof using Hmono.
  intros Hx Hcombine Hr Hc Hrecv.
  assert (Hp : (predecessor w r < w)%nat) by (apply predecessor_lt; lia).
  assert (Hlen : length (combine (part (receives r) (x r))
    (part (receives r) (x (predecessor w r)))) = part_len (receives r)).
  { rewrite Hcombine; rewrite !length_part; auto. }
  rewrite part_put by auto.
  unfold ring_step. destruct (Nat.eqb_spec c (receives r)) as [->|]; done.
Qed.
End parts.

(** The chunks of a ring reduction, one after another, are the reduction. *)
Section parts_reduced.
Context {T : Type} (start : nat -> nat) (w d n : nat) (f : T -> T -> T) (x : nat -> list T).
Hypothesis (Hmono : forall j k, (j <= k)%nat -> (start j <= start k)%nat).
Hypothesis (H0 : start 0%nat = 0%nat) (Hall : start w = n) (Hw : (0 < w)%nat) (Hd : (d <= w)%nat).
Hypothesis (Hx : forall r, (r < w)%nat -> length (x r) = n).

Definition reduced_part (k : nat) : list T := gathered w (zip_with f) d (fun r k => part start k (x r)) k (w - 1).
Definition reduced_parts : list T := concat (map reduced_part (seq 0 w)).

Lemma parts_find m i : (i < start m)%nat -> exists k, (k < m)%nat /\ (start k <= i < start (S k))%nat.
Proof using All.
  induction m as [|m IH]; intros Hi; [lia|]. destruct (decide (i < start m)%nat) as [Hlt|Hge].
  - destruct (IH Hlt) as (k & Hk & Hb). exists k. split; [lia|done].
  - exists m. lia.
Qed.

Lemma length_own_part r k : (r < w)%nat -> (k < w)%nat -> length (part start k (x r)) = part_len start k.
Proof using All. intros Hr Hk. apply (length_part _ w); [done|done|]. rewrite Hx by done. lia. Qed.

Lemma length_reduced_part k : (k < w)%nat -> length (reduced_part k) = part_len start k.
Proof using All. intros Hk. apply length_gathered_zip; [done|]. intros r Hr. by apply length_own_part. Qed.

Lemma parts_reduced : length reduced_parts = n /\ reduces f x w reduced_parts.
Proof using All.
  assert (Hl : length reduced_parts = n).
  { unfold reduced_parts. rewrite (length_parts start); [done|done|done|]. apply length_reduced_part. }
  split; [done|]. intros i Hi. rewrite Hl, <- Hall in Hi. destruct (parts_find w i Hi) as (k & Hk & Hlo & Hhi).
  exists (ring_order w d k). split; [by apply ring_order_perm|].
  assert (Hin : (i - start k < part_len start k)%nat) by (unfold part_len; lia).
  assert (Hget : forall l : list T, l !! i = part start k l !! (i - start k)%nat).
  { intros l. unfold part. rewrite lookup_sub, decide_True by done. f_equal. lia. }
  rewrite Hget. unfold reduced_parts. rewrite (part_concat start w) by (done || apply length_reduced_part).
  unfold reduced_part. rewrite (gathered_lookup w d f _ k (w - 1) _ (part_len start k)); [|done| |done]; [|intros r Hr; by apply length_own_part].
  unfold ring_order. replace (S (w - 1)) with w by lia. f_equal. apply list_omap_ext.
  apply Forall2_same_length_lookup_2; [done|]. intros j r r' Hr Hr'. rewrite Hr in Hr'. injection Hr' as <-. by rewrite <- Hget.
Qed.
End parts_reduced.
