(* ===== verification/Operation.v ===== *)
(** * Reduction operations: src/src/rank/operation.rs *)
From S2P Require Import Prelude Protocol Errors.

Inductive ReductionOperation :=
  Sum | Product | Minimum | Maximum | BitAnd | BitOr | BitXor.

#[export] Instance ReductionOperation_eq_dec : EqDecision ReductionOperation.
Proof. solve_decision. Defined.

(** [operation as u32] *)
Definition operation_code (op : ReductionOperation) : Z :=
  match op with
  | Sum => 0 | Product => 1 | Minimum => 2 | Maximum => 3
  | BitAnd => 4 | BitOr => 5 | BitXor => 6
  end.

Definition operation_try_from (value : Z) : rresult ReductionOperation :=
  match value with
  | 0 => Ok Sum | 1 => Ok Product | 2 => Ok Minimum | 3 => Ok Maximum
  | 4 => Ok BitAnd | 5 => Ok BitOr | 6 => Ok BitXor
  | _ => Err (RankError.InvalidLength "unknown collective reduction operation")
  end.

(** [matches!(operation, BitAnd | BitOr | BitXor)] *)
Definition bitwise (op : ReductionOperation) : bool :=
  match op with BitAnd | BitOr | BitXor => true | _ => false end.

Lemma operation_roundtrip op : operation_try_from (operation_code op) = Ok op.
Proof. by destruct op. Qed.

Lemma operation_try_from_Ok v op : operation_try_from v = Ok op -> v = operation_code op.
Proof.
  unfold operation_try_from. intros Hv.
  repeat match type of Hv with context [match ?x with _ => _ end] => destruct x; try discriminate end;
  by injection Hv as <-.
Qed.
