(* ===== verification/HostReduction.v ===== *)
(** * Reductions on the host: src/src/rank/host/reduction.rs

    Element types that the device kernels do not reduce are reduced on the
    host, from the concatenated payloads of all ranks.  Integers are kept at
    their width with two's complement and wrapping arithmetic; a float is its
    bit pattern, and its arithmetic is a parameter. *)
From S2P Require Import Prelude Protocol Errors Operation.

(** ** Definitions *)
Class HostReductionElement (T : Type) := {
  SIZE : nat;
  decode : list Z -> outcome string (list T);
  encode : list T -> list Z;
  combine : T -> T -> ReductionOperation -> outcome string T;
}.

(** The value of an integer type of [bits] bits with the bit pattern [x]. *)
Definition int_value (signed : bool) (bits x : Z) : Z :=
  let u := wrap bits x in
  if signed && (2 ^ (bits - 1) <=? u) then u - 2 ^ bits else u.

(** [value.to_le_bytes()] and [from_le_bytes] of an integer of [size] bytes. *)
Definition int_to_le (size : nat) (x : Z) : list Z := to_le size x.
Definition int_from_le (signed : bool) (size : nat) (bs : list Z) : Z :=
  int_value signed (8 * Z.of_nat size) (of_le bs).

Definition chunked_decode {T} (size : nat) (read : list Z -> T) (bs : list Z) : outcome string (list T) :=
  _ ← fail_if (negb (is_multiple_of (Zlen bs) (Z.of_nat size)))
        "host reduction byte length is not divisible by the element size"%string;
  Ok (map read (chunks_exact size bs)).

(** [impl_host_integer_reduction!]: the wrapping operations keep the low bits. *)
Definition host_integer (signed : bool) (size : nat) : HostReductionElement Z := {|
  SIZE := size;
  decode := chunked_decode size (int_from_le signed size);
  encode values := concat (map (int_to_le size) values);
  combine x y op :=
    let value := int_value signed (8 * Z.of_nat size) in
    Ok match op with
    | Sum => value (x + y)
    | Product => value (x * y)
    | Minimum => Z.min x y
    | Maximum => Z.max x y
    | BitAnd => Z.land x y
    | BitOr => Z.lor x y
    | BitXor => Z.lxor x y
    end;
|}.

Definition host_bool : HostReductionElement bool := {|
  SIZE := 1;
  decode := mapM (fun b =>
    if b =? 0 then Ok false else if b =? 1 then Ok true
    else Err "invalid boolean reduction byte"%string);
  encode := map (fun b : bool => Z.b2z b);
  combine x y op :=
    Ok match op with
    | Sum | Maximum | BitOr => x || y
    | Product | Minimum | BitAnd => x && y
    | BitXor => xorb x y
    end;
|}.

Definition bitwise_error : string := "bitwise reductions require an integer or boolean dtype".
Definition complex_order_error : string := "MIN and MAX reductions are not defined for complex dtypes".

(** The arithmetic of a float type, on bit patterns of [float_size] bytes. *)
Class FloatArithmetic := {
  float_add : nat -> Z -> Z -> Z;
  float_sub : nat -> Z -> Z -> Z;
  float_mul : nat -> Z -> Z -> Z;
  float_lt : nat -> Z -> Z -> bool;
  float_width n x y : in_width (8 * Z.of_nat n) (float_add n x y) /\
    in_width (8 * Z.of_nat n) (float_sub n x y) /\ in_width (8 * Z.of_nat n) (float_mul n x y);
}.

Section floats.
Context `{FloatArithmetic}.

Definition host_f64 : HostReductionElement Z := {|
  SIZE := 8;
  decode := chunked_decode 8 of_le;
  encode values := concat (map (to_le 8) values);
  combine x y op :=
    match op with
    | Sum => Ok (float_add 8 x y)
    | Product => Ok (float_mul 8 x y)
    | Minimum => Ok (if float_lt 8 y x then y else x)
    | Maximum => Ok (if float_lt 8 x y then y else x)
    | BitAnd | BitOr | BitXor => Err bitwise_error
    end;
|}.

(** [impl_host_complex_reduction!]: the real and the imaginary component. *)
Definition host_complex (size : nat) : HostReductionElement (Z * Z) := {|
  SIZE := 2 * size;
  decode := chunked_decode (2 * size) (fun chunk =>
    (of_le (take size chunk), of_le (drop size chunk)));
  encode values := concat (map (fun '(real, imaginary) => to_le size real ++ to_le size imaginary) values);
  combine '(a, b) '(c, d) op :=
    match op with
    | Sum => Ok (float_add size a c, float_add size b d)
    | Product =>
        Ok (float_sub size (float_mul size a c) (float_mul size b d),
            float_add size (float_mul size a d) (float_mul size b c))
    | Minimum | Maximum => Err complex_order_error
    | BitAnd | BitOr | BitXor => Err bitwise_error
    end;
|}.

Definition validate_host_reduction_operation (e : ElementType) (op : ReductionOperation) : outcome string unit :=
  let complex := match e with ElementType.Complex64 | ElementType.Complex128 => true | _ => false end in
  let float := match e with ElementType.F64 => true | _ => complex end in
  _ ← fail_if (float && bitwise op) bitwise_error;
  fail_if (complex && match op with Minimum | Maximum => true | _ => false end) complex_order_error.

(** The inner loop: [*destination = destination.combine( *value, operation)?]. *)
Fixpoint combine_rows {T} `{HostReductionElement T} (op : ReductionOperation) (out row : list T) :
    outcome string (list T) :=
  match out, row with
  | x :: out', y :: row' => z ← combine x y op; zs ← combine_rows op out' row'; Ok (z :: zs)
  | _, _ => Ok out
  end.

Definition reduce_host_values (T : Type) `{HostReductionElement T} (payload : list Z)
    (elements_per_rank world_size : Z) (op : ReductionOperation) : outcome string (list Z) :=
  elements ← ok_or (checked_mul usize_bits elements_per_rank world_size)
               "host reduction element count overflow"%string;
  bytes ← ok_or (checked_mul usize_bits elements (Z.of_nat (SIZE (T:=T))))
            "host reduction byte count overflow"%string;
  _ ← fail_if (negb (Zlen payload =? bytes)) "host reduction received bytes, expected bytes"%string;
  if elements_per_rank =? 0 then Ok [] else
  values ← decode (T:=T) payload;
  let n := Z.to_nat elements_per_rank in
  first ← slice_range values 0 n;
  output ← foldM (fun output source =>
    start ← arith usize_bits (Z.of_nat source * elements_per_rank);
    stop ← arith usize_bits (start + elements_per_rank);
    row ← slice_range values (Z.to_nat start) (Z.to_nat stop);
    combine_rows (T:=T) op output row) first (seq 1 (Z.to_nat world_size - 1));
  Ok (encode (T:=T) output).

Definition reduce_host_payload (e : ElementType) (payload : list Z) (elements_per_rank world_size : Z)
    (op : ReductionOperation) : outcome string (list Z) :=
  match e with
  | ElementType.U8 => reduce_host_values Z (H0 := host_integer false 1) payload elements_per_rank world_size op
  | ElementType.U32 => reduce_host_values Z (H0 := host_integer false 4) payload elements_per_rank world_size op
  | ElementType.Bool => reduce_host_values bool (H0 := host_bool) payload elements_per_rank world_size op
  | ElementType.I8 => reduce_host_values Z (H0 := host_integer true 1) payload elements_per_rank world_size op
  | ElementType.I16 => reduce_host_values Z (H0 := host_integer true 2) payload elements_per_rank world_size op
  | ElementType.I64 => reduce_host_values Z (H0 := host_integer true 8) payload elements_per_rank world_size op
  | ElementType.F64 => reduce_host_values Z (H0 := host_f64) payload elements_per_rank world_size op
  | ElementType.U16 => reduce_host_values Z (H0 := host_integer false 2) payload elements_per_rank world_size op
  | ElementType.U64 => reduce_host_values Z (H0 := host_integer false 8) payload elements_per_rank world_size op
  | ElementType.Complex64 => reduce_host_values (Z * Z) (H0 := host_complex 4) payload elements_per_rank world_size op
  | ElementType.Complex128 => reduce_host_values (Z * Z) (H0 := host_complex 8) payload elements_per_rank world_size op
  | _ => Err "element type does not use host reduction"%string
  end.
End floats.

(** ** What an element type promises *)
Class HostElementLaws (T : Type) `{HostReductionElement T} := {
  valid : T -> Prop;
  supports : ReductionOperation -> bool;
  wire : list Z -> Prop;
  law_size : (0 < SIZE (T:=T))%nat;
  law_encode_length l : length (encode l) = (SIZE (T:=T) * length l)%nat;
  law_encode_app l k : encode (l ++ k) = encode l ++ encode k;
  law_decode_encode l : Forall valid l -> decode (encode l) = Ok l;
  law_decode_length bs l : decode (T:=T) bs = Ok l -> length bs = (SIZE (T:=T) * length l)%nat;
  law_decode_wire bs k : wire bs -> length bs = (SIZE (T:=T) * k)%nat ->
    exists l, decode (T:=T) bs = Ok l /\ Forall valid l;
  law_decode_no_panic bs : no_panic (decode (T:=T) bs);
  law_combine x y op : valid x -> valid y -> supports op = true ->
    exists z, combine x y op = Ok z /\ valid z;
  law_combine_unsupported x y op : supports op = false -> exists e, combine x y op = Err e;
}.

(** *** The integer types *)
Lemma int_value_range signed bits x :
  0 < bits -> if signed : bool then - 2 ^ (bits - 1) <= int_value signed bits x < 2 ^ (bits - 1)
              else in_width bits (int_value signed bits x).
Proof.
  intros Hb. pose proof (wrap_range bits x ltac:(lia)) as Hw. unfold in_width in *.
  unfold int_value. assert (2 ^ bits = 2 * 2 ^ (bits - 1)).
  { rewrite <- Z.pow_succ_r by lia. f_equal. lia. }
  destruct signed; cbn [andb]; [|lia]. destruct (Z.leb_spec (2 ^ (bits - 1)) (wrap bits x)); lia.
Qed.

(** The value has the low bits of its argument. *)
Lemma int_value_mod signed bits x : 0 <= bits -> int_value signed bits x mod 2 ^ bits = x mod 2 ^ bits.
Proof.
  intros Hb. pose proof (Z.pow_pos_nonneg 2 bits ltac:(lia) Hb). unfold int_value, wrap.
  destruct (signed && _).
  - rewrite <- (Z.mod_add _ 1) by lia. rewrite Z.mul_1_l, Z.sub_add. by rewrite Z.mod_mod by lia.
  - by rewrite Z.mod_mod by lia.
Qed.

Definition int_valid (signed : bool) (bits x : Z) : Prop :=
  if signed then - 2 ^ (bits - 1) <= x < 2 ^ (bits - 1) else 0 <= x < 2 ^ bits.

Lemma int_valid_value signed bits x : 0 < bits -> int_valid signed bits (int_value signed bits x).
Proof. intros Hb. pose proof (int_value_range signed bits x Hb). by destruct signed. Qed.

Lemma int_value_id signed bits x : 0 < bits -> int_valid signed bits x -> int_value signed bits x = x.
Proof.
  intros Hb Hx. unfold int_valid, int_value, wrap in *.
  assert (Hpow : 2 ^ bits = 2 * 2 ^ (bits - 1)).
  { rewrite <- Z.pow_succ_r by lia. f_equal. lia. }
  destruct signed; cbn [andb]; [|by apply Z.mod_small].
  destruct (decide (0 <= x)).
  - rewrite Z.mod_small by lia. by rewrite (proj2 (Z.leb_gt _ _)) by lia.
  - rewrite <- (Z.mod_add x 1) by lia. rewrite Z.mod_small by lia.
    rewrite (proj2 (Z.leb_le _ _)) by lia. lia.
Qed.

(** In range: nothing but the sign above the value bits. *)
Lemma int_valid_shift signed bits x :
  0 < bits -> int_valid signed bits x <->
  Z.shiftr x (if signed then bits - 1 else bits) = 0 \/
  signed = true /\ Z.shiftr x (if signed then bits - 1 else bits) = -1.
Proof.
  intros Hb. unfold int_valid.
  set (k := if signed then bits - 1 else bits).
  assert (Hk : 0 <= k) by (unfold k; destruct signed; lia).
  pose proof (Z.pow_pos_nonneg 2 k ltac:(lia) Hk) as Hpos.
  rewrite Z.shiftr_div_pow2 by lia. pose proof (Z.div_mod x (2 ^ k) ltac:(lia)).
  pose proof (Z.mod_pos_bound x (2 ^ k) Hpos). destruct signed; unfold k in *; split.
  - intros Hx. assert (x / 2 ^ (bits - 1) = 0 \/ x / 2 ^ (bits - 1) = -1) by nia. naive_solver.
  - intros [Hq|[_ Hq]]; rewrite Hq in *; lia.
  - intros Hx. left. by apply Z.div_small.
  - intros [Hq|[? _]]; [rewrite Hq in *; lia|done].
Qed.

(** The bit operations of two in-range numbers stay in range. *)
Lemma int_valid_bitop signed bits x y (f : Z -> Z -> Z) :
  0 < bits -> (forall n, Z.shiftr (f x y) n = f (Z.shiftr x n) (Z.shiftr y n)) ->
  (forall a b, (a = 0 \/ a = -1) -> (b = 0 \/ b = -1) -> f a b = 0 \/ f a b = -1) -> f 0 0 = 0 ->
  int_valid signed bits x -> int_valid signed bits y -> int_valid signed bits (f x y).
Proof.
  intros Hb Hshift Hclosed Hzero. rewrite !int_valid_shift by done. rewrite Hshift.
  destruct signed; [|intros [->|[? _]] [->|[? _]]; naive_solver].
  intros Hx Hy. destruct (Hclosed (Z.shiftr x (bits - 1)) (Z.shiftr y (bits - 1))); naive_solver.
Qed.

(** *** Elements of a fixed size *)
Lemma length_encode_fixed {T} (enc : T -> list Z) size l :
  (forall x, length (enc x) = size) -> length (concat (map enc l)) = (size * length l)%nat.
Proof.
  intros He. induction l as [|x l IH]; cbn [map concat length]; [lia|].
  rewrite length_app, He, IH. lia.
Qed.

Lemma encode_fixed_app {T} (enc : T -> list Z) l k :
  concat (map enc (l ++ k)) = concat (map enc l) ++ concat (map enc k).
Proof. by rewrite map_app, concat_app. Qed.

Lemma chunked_decode_encode {T} size (enc : T -> list Z) read (P : T -> Prop) l :
  (0 < size)%nat -> (forall x, length (enc x) = size) -> (forall x, P x -> read (enc x) = x) ->
  Forall P l -> chunked_decode size read (concat (map enc l)) = Ok l.
Proof.
  intros Hs He Hr Hl. unfold chunked_decode.
  assert (Hlen : Zlen (concat (map enc l)) = Z.of_nat (length l) * Z.of_nat size).
  { unfold Zlen. rewrite (length_encode_fixed enc size) by done. lia. }
  rewrite (proj2 (is_multiple_of_spec (Zlen (concat (map enc l))) (Z.of_nat size) ltac:(lia)))
    by (rewrite Hlen, Z.div_mul by lia; done).
  cbn [negb fail_if mbind outcome_bind]. f_equal.
  rewrite chunks_exact_concat; [|done|].
  - rewrite map_map. clear Hlen. induction Hl as [|x l Hx _ IH]; cbn [map]; [done|].
    by rewrite Hr, IH.
  - apply Forall_forall. intros c (x & -> & _)%list_elem_of_fmap. apply He.
Qed.

Lemma chunked_decode_length {T} size (read : list Z -> T) bs l :
  (0 < size)%nat -> chunked_decode size read bs = Ok l -> length bs = (size * length l)%nat.
Proof.
  intros Hs Hd. unfold chunked_decode in Hd. inv_ok. apply negb_false_iff in Hv.
  apply is_multiple_of_spec in Hv; [|lia]. unfold chunks_exact.
  rewrite !length_map, length_seq. unfold Zlen in Hv. rewrite <- Nat2Z.inj_div in Hv. nia.
Qed.

Lemma chunked_decode_wire {T} size (read : list Z -> T) (P : T -> Prop) bs k :
  (0 < size)%nat -> (forall c, Forall is_byte c -> length c = size -> P (read c)) ->
  Forall is_byte bs -> length bs = (size * k)%nat ->
  exists l, chunked_decode size read bs = Ok l /\ Forall P l.
Proof.
  intros Hs Hr Hb Hl. unfold chunked_decode. eexists.
  rewrite (proj2 (is_multiple_of_spec (Zlen bs) (Z.of_nat size) ltac:(lia))).
  - split; [done|]. apply Forall_forall. intros x (c & -> & Hc)%list_elem_of_fmap.
    apply Hr; [|by eapply length_chunk]. unfold chunks_exact in Hc.
    apply list_elem_of_fmap in Hc as (i & -> & _). by apply Forall_sub.
  - unfold Zlen. rewrite Hl. replace (Z.of_nat (size * k)) with (Z.of_nat k * Z.of_nat size) by lia.
    by rewrite Z.div_mul by lia.
Qed.

Lemma of_le_width size c : Forall is_byte c -> length c = size -> in_width (8 * Z.of_nat size) (of_le c).
Proof.
  intros Hb <-. pose proof (of_le_range c Hb) as Hr. unfold in_width, Zlen in *.
  by rewrite Z.pow_mul_r by lia.
Qed.

Lemma chunked_decode_no_panic {T} size (read : list Z -> T) bs : no_panic (chunked_decode size read bs).
Proof. unfold chunked_decode, fail_if. by destruct (negb _). Qed.

Definition host_integer_laws signed size (Hsize : (0 < size)%nat) :
  @HostElementLaws Z (host_integer signed size).
Proof.
  set (bits := 8 * Z.of_nat size). assert (Hbits : 0 < bits) by (unfold bits; lia).
  refine {| valid := int_valid signed bits; wire := Forall is_byte; supports _ := true |}.
  - exact Hsize.
  - intros l. apply length_encode_fixed. intros x. apply length_to_le.
  - apply encode_fixed_app.
  - intros l Hl. eapply chunked_decode_encode; [exact Hsize|intros; apply length_to_le| |exact Hl].
    intros x Hx. unfold int_from_le, int_to_le. rewrite of_to_le.
    replace (256 ^ Z.of_nat size) with (2 ^ bits).
    + unfold int_value, wrap. fold bits. rewrite Z.mod_mod by (apply Z.pow_nonzero; lia).
      by apply int_value_id.
    + unfold bits. rewrite Z.pow_mul_r by lia. done.
  - intros bs l. by apply chunked_decode_length.
  - intros bs k. apply chunked_decode_wire; [done|]. intros c _ _. by apply int_valid_value.
  - intros bs. apply chunked_decode_no_panic.
  - intros x y op Hx Hy _. cbn. eexists. split; [done|]. fold bits.
    destruct op; try (by apply int_valid_value).
    + unfold int_valid in *. destruct signed; lia.
    + unfold int_valid in *. destruct signed; lia.
    + apply int_valid_bitop; try done; [intros; apply Z.shiftr_land|].
      intros a b [-> | ->] [-> | ->]; cbn; auto.
    + apply int_valid_bitop; try done; [intros; apply Z.shiftr_lor|].
      intros a b [-> | ->] [-> | ->]; cbn; auto.
    + apply int_valid_bitop; try done; [intros; apply Z.shiftr_lxor|].
      intros a b [-> | ->] [-> | ->]; cbn; auto.
  - done.
Defined.

(** *** bool, f64 and the complex types *)
Definition host_bool_laws : @HostElementLaws bool host_bool.
Proof.
  refine {| valid _ := True; wire := Forall (fun b => b = 0 \/ b = 1); supports _ := true |}.
  - cbn. lia.
  - intros l. cbn. rewrite length_map. lia.
  - intros l k. apply map_app.
  - intros l _. cbn. apply mapM_Ok. induction l as [|[] l IH]; cbn; constructor; done.
  - intros bs l Hd. unfold decode, host_bool in Hd. apply mapM_Ok, Forall2_length in Hd.
    cbn. lia.
  - intros bs k Hw _. unfold decode, host_bool. induction Hw as [|b bs Hb _ [l [Hl _]]].
    + exists []. split; [done|constructor].
    + cbn [mapM]. rewrite Hl. destruct Hb as [-> | ->]; cbn; eexists; (split; [done|]); by apply Forall_true.
  - intros bs. cbn. apply mapM_no_panic, Forall_forall. intros b _.
    destruct (b =? 0); [done|]. by destruct (b =? 1).
  - intros x y op _ _ _. by eexists.
  - done.
Defined.

Section float_laws.
Context `{FloatArithmetic}.

Lemma float_bytes size x : in_width (8 * Z.of_nat size) x -> of_le (to_le size x) = x.
Proof.
  intros Hx. apply of_to_le_id. unfold in_width in Hx.
  replace (256 ^ Z.of_nat size) with (2 ^ (8 * Z.of_nat size)); [done|].
  by rewrite Z.pow_mul_r by lia.
Qed.

Definition host_f64_laws : @HostElementLaws Z host_f64.
Proof.
  refine {| valid := in_width 64; wire := Forall is_byte; supports op := negb (bitwise op) |}.
  - cbn. lia.
  - intros l. apply length_encode_fixed. intros x. apply length_to_le.
  - apply encode_fixed_app.
  - intros l Hl. eapply (chunked_decode_encode 8); [lia|intros; apply length_to_le| |exact Hl].
    intros x Hx. by apply (float_bytes 8).
  - intros bs l. apply (chunked_decode_length 8). lia.
  - intros bs k. apply (chunked_decode_wire 8); [lia|]. intros c Hc Hl. by apply (of_le_width 8).
  - intros bs. apply chunked_decode_no_panic.
  - intros x y op Hx Hy Hop. pose proof (float_width 8 x y) as (Ha & _ & Hm).
    destruct op; try discriminate Hop; eexists; (split; [done|]); try done;
      by destruct (float_lt _ _ _).
  - intros x y op Hop. destruct op; try discriminate Hop; by eexists.
Defined.

Definition host_complex_laws size (Hsize : (0 < size)%nat) : @HostElementLaws (Z * Z) (host_complex size).
Proof.
  refine {| valid p := in_width (8 * Z.of_nat size) p.1 /\ in_width (8 * Z.of_nat size) p.2;
            wire := Forall is_byte;
            supports op := match op with Sum | Product => true | _ => false end |}.
  - cbn. lia.
  - intros l. apply (length_encode_fixed (fun '(real, imaginary) => _)). intros [a b].
    rewrite length_app, !length_to_le. cbn. lia.
  - apply encode_fixed_app.
  - intros l Hl. eapply (chunked_decode_encode (2 * size)); [lia| | |exact Hl].
    + intros [a b]. rewrite length_app, !length_to_le. lia.
    + intros [a b] [Ha Hb]. cbn in Ha, Hb.
      rewrite take_app_length', drop_app_length' by (by rewrite length_to_le).
      by rewrite !float_bytes.
  - intros bs l. apply (chunked_decode_length (2 * size)). lia.
  - intros bs k. apply (chunked_decode_wire (2 * size)); [lia|]. intros c Hc Hl. cbn.
    split; apply of_le_width; try (by apply Forall_take || by apply Forall_drop);
      rewrite ?length_take, ?length_drop; lia.
  - intros bs. apply chunked_decode_no_panic.
  - intros [a b] [c d] op _ _ Hop. destruct op; try discriminate Hop; eexists; (split; [done|]); cbn;
      split; apply float_width.
  - intros [a b] [c d] op Hop. destruct op; try discriminate Hop; by eexists.
Defined.
End float_laws.

(** ** The reduction *)
Lemma mapM_seq_rows {A B} (f : nat -> option B) (g : A -> option B) (l : list A) j :
  (forall k x, l !! k = Some x -> f (j + k)%nat = g x) -> mapM f (seq j (length l)) = mapM g l.
Proof.
  revert j. induction l as [|x l IH]; intros j Hf; cbn [length seq mapM]; [done|].
  rewrite <- (Hf 0%nat x), Nat.add_0_r by done. rewrite IH; [done|].
  intros k y Hk. rewrite <- (Hf (S k) y) by done. f_equal. lia.
Qed.

Lemma mapM_map {A B C} (f : B -> option C) (g : A -> B) l :
  mapM f (map g l) = mapM (fun x => f (g x)) l.
Proof. induction l as [|x l IH]; cbn [map mapM]; [done|]. by rewrite IH. Qed.

Section reduction.
Context {T : Type} {HR : HostReductionElement T} {HL : HostElementLaws T}.

(** One element of the result: the ranks' elements in rank order. *)
Definition fold_combine (op : ReductionOperation) (x : T) (ys : list T) : outcome string T :=
  foldM (fun x y => combine x y op) x ys.

Lemma combine_rows_ok op out row :
  supports op = true -> Forall valid out -> Forall valid row -> length out = length row ->
  exists r, combine_rows op out row = Ok r /\ Forall valid r /\
    Forall2 (fun '(x, y) z => combine x y op = Ok z) (zip out row) r.
Proof using Type.
  intros Hop Hout. revert row. induction Hout as [|x out Hx _ IH]; intros [|y row] Hrow Hlen; try done.
  - exists []. repeat constructor.
  - apply Forall_cons in Hrow as [Hy Hrow]. injection Hlen as Hlen.
    destruct (IH row Hrow Hlen) as (zs & Hzs & Hv & Hf).
    destruct (law_combine x y op Hx Hy Hop) as (z & Hz & Hvz).
    exists (z :: zs). cbn [combine_rows zip zip_with]. rewrite Hz. cbn [mbind outcome_bind]. rewrite Hzs.
    cbn. split; [done|]. split; [by constructor|]. by constructor.
Qed.

Lemma combine_rows_no_panic op out row :
  (forall x y, no_panic (combine x y op)) -> no_panic (combine_rows op out row).
Proof using Type.
  intros Hop. revert row. induction out as [|x out IH]; intros [|y row]; cbn; try done.
  apply bind_no_panic; [apply Hop|]. intros z _. apply bind_no_panic; [apply IH|]. done.
Qed.

(** Reducing rows one after another reduces every column. *)
Lemma fold_rows_ok op first rows :
  supports op = true -> Forall valid first ->
  Forall (fun row => length row = length first /\ Forall valid row) rows ->
  exists out, foldM (combine_rows op) first rows = Ok out /\ Forall valid out /\
    length out = length first /\
    forall i x ys, first !! i = Some x -> mapM (fun row : list T => row !! i) rows = Some ys ->
      exists z, fold_combine op x ys = Ok z /\ out !! i = Some z.
Proof using Type.
  intros Hop Hfirst Hrows. revert first Hfirst Hrows.
  induction rows as [|row rows IH]; intros first Hfirst Hrows.
  - exists first. cbn. repeat split; try done. intros i x ys Hx [= <-]. by exists x.
  - apply Forall_cons in Hrows as [[Hlen Hv] Hrows].
    destruct (combine_rows_ok op first row Hop Hfirst Hv (eq_sym Hlen)) as (r & Hr & Hvr & Hf).
    assert (Hrl : length r = length first).
    { apply Forall2_length in Hf. rewrite length_zip_with in Hf. lia. }
    destruct (IH r Hvr) as (out & Hout & Hvo & Hlo & Hcol); [by rewrite Hrl|].
    exists out. cbn [foldM]. rewrite Hr. cbn [mbind outcome_bind]. repeat split; [done..|lia|].
    intros i x ys Hx Hys. cbn [mapM] in Hys.
    destruct (row !! i) as [y|] eqn:Hy; cbn [mbind option_bind] in Hys; [|done].
    destruct (mapM _ rows) as [ys'|] eqn:Hys'; cbn in Hys; [|done]. injection Hys as <-.
    assert (Hxy : zip first row !! i = Some (x, y)) by (by rewrite lookup_zip_with, Hx; cbn; rewrite Hy).
    destruct (Forall2_lookup_l _ _ _ _ _ Hf Hxy) as (z & Hz & Hc). cbn in Hc.
    destruct (Hcol i z ys' Hz Hys') as (v & Hv' & Hov). exists v. split; [|done].
    unfold fold_combine in *. cbn [foldM]. by rewrite Hc.
Qed.

(** The rows of a decoded payload. *)
Lemma foldM_rows op (values first : list T) n (rows : list (list T)) k :
  values = concat rows -> Forall (fun row => length row = n) rows ->
  (Z.of_nat (length rows) * Z.of_nat n < 2 ^ 64) -> (k <= length rows)%nat ->
  foldM (fun output source =>
    start ← arith usize_bits (Z.of_nat source * Z.of_nat n);
    stop ← arith usize_bits (start + Z.of_nat n);
    row ← slice_range values (Z.to_nat start) (Z.to_nat stop);
    combine_rows op output row) first (seq k (length rows - k)) =
  foldM (combine_rows op) first (drop k rows).
Proof using Type.
  intros -> Hrows Hfit. remember (length rows - k)%nat as m eqn:Hm. revert k first Hm.
  induction m as [|m IH]; intros k first Hm Hk.
  - rewrite drop_ge by lia. done.
  - destruct (lookup_lt_is_Some_2 rows k ltac:(lia)) as [row Hrow].
    rewrite (drop_S _ _ _ Hrow). cbn [seq foldM].
    assert (Hkn : Z.of_nat k * Z.of_nat n + Z.of_nat n <= Z.of_nat (length rows) * Z.of_nat n) by nia.
    rewrite arith_in by (unfold in_width; nia). cbn [mbind outcome_bind].
    rewrite arith_in by (unfold in_width; nia). cbn [mbind outcome_bind].
    replace (Z.to_nat (Z.of_nat k * Z.of_nat n)) with (k * n)%nat by lia.
    replace (Z.to_nat (Z.of_nat k * Z.of_nat n + Z.of_nat n)) with (k * n + n)%nat by lia.
    assert (Hlen : length (concat rows) = (length rows * n)%nat).
    { pose proof (length_concat_const rows (Z.of_nat n)) as Hc. unfold Zlen in Hc. rewrite <- Nat2Z.inj_mul in Hc.
      apply Nat2Z.inj, Hc. eapply Forall_impl; [exact Hrows|]. intros r Hr. cbn in Hr. unfold Zlen. by rewrite Hr. }
    rewrite slice_range_sub by (rewrite Hlen; nia). cbn [mbind outcome_bind].
    rewrite (sub_concat n rows k row Hrows Hrow).
    destruct (combine_rows op first row) as [r|e|]; cbn [mbind outcome_bind]; [|done..].
    apply IH; lia.
Qed.

(** The row of rank [k] in the values of all ranks. *)
Definition rank_rows (n w : nat) (values : list T) : list (list T) :=
  map (fun k => sub (k * n) n values) (seq 0 w).

Lemma reduce_host_values_ok payload n w op :
  (0 < w)%nat -> wire payload -> length payload = (n * w * SIZE (T:=T))%nat ->
  Z.of_nat (n * w * SIZE (T:=T)) < 2 ^ 64 -> supports op = true ->
  exists values out, decode payload = Ok values /\ length values = (n * w)%nat /\
    reduce_host_values T payload (Z.of_nat n) (Z.of_nat w) op = Ok (encode out) /\ length out = n /\
    forall i x ys, (i < n)%nat -> values !! i = Some x ->
      mapM (fun k => values !! (k * n + i)%nat) (seq 1 (w - 1)) = Some ys ->
      exists z, fold_combine op x ys = Ok z /\ out !! i = Some z.
Proof using Type.
  intros Hw Hwire Hlen Hfit Hop. pose proof law_size as Hsize.
  destruct (law_decode_wire payload (n * w) Hwire) as (values & Hdec & Hval); [lia|].
  pose proof (law_decode_length _ _ Hdec) as Hvl.
  assert (Hvn : length values = (n * w)%nat) by nia.
  assert (Hnw : Z.of_nat (n * w) <= Z.of_nat (n * w * SIZE (T:=T))) by nia.
  set (rows := rank_rows n w values).
  assert (Hrl : length rows = w) by (unfold rows, rank_rows; by rewrite length_map, length_seq).
  assert (Hrow : forall k, (k < w)%nat -> rows !! k = Some (sub (k * n) n values)).
  { intros k Hk. unfold rows, rank_rows. by rewrite list_lookup_fmap, lookup_seq_lt. }
  assert (Hrows : Forall (fun row => length row = n) rows).
  { apply Forall_forall. intros r (k & -> & Hk%elem_of_seq)%list_elem_of_fmap. apply length_sub. nia. }
  assert (Hrv : Forall (fun row => length row = n /\ Forall valid row) rows).
  { apply Forall_forall. intros r Hr. split; [by eapply Forall_forall in Hrows|].
    apply list_elem_of_fmap in Hr as (k & -> & _). by apply Forall_sub. }
  assert (Hconcat : values = concat rows).
  { unfold rows, rank_rows. rewrite concat_subs by lia. rewrite take_ge; [done|lia]. }
  destruct rows as [|first rest] eqn:Heq; [cbn in Hrl; lia|]. rewrite <- Heq in *.
  assert (Hfirst : first = sub 0 n values).
  { pose proof (Hrow 0%nat Hw) as H0. rewrite Heq in H0. by injection H0. }
  assert (Hrest : drop 1 rows = rest) by (by rewrite Heq).
  assert (Hfr : length first = n /\ Forall valid first).
  { rewrite Heq in Hrv. by apply Forall_cons in Hrv as [? _]. }
  destruct (fold_rows_ok op first rest Hop) as (out & Hout & Hvo & Hlo & Hcol); [apply Hfr| |].
  { rewrite Heq in Hrv. apply Forall_cons in Hrv as [_ Hrv]. by rewrite (proj1 Hfr). }
  exists values, out. split; [done|]. split; [done|]. split; [|split; [by rewrite Hlo; apply Hfr|]].
  - unfold reduce_host_values, checked_mul.
    rewrite checked_in by (unfold in_width; lia). cbn [ok_or mbind outcome_bind].
    rewrite checked_in by (unfold in_width; lia). cbn [ok_or mbind outcome_bind].
    replace (Zlen payload =? _) with true by (symmetry; apply Z.eqb_eq; unfold Zlen; lia).
    cbn [negb fail_if mbind outcome_bind].
    destruct (Z.eqb_spec (Z.of_nat n) 0) as [Hn0|Hn0].
    { f_equal. symmetry. apply nil_length_inv. rewrite law_encode_length, Hlo, (proj1 Hfr). lia. }
    rewrite Hdec. cbn [mbind outcome_bind]. rewrite !Nat2Z.id.
    rewrite slice_range_Ok by nia. cbn [mbind outcome_bind].
    rewrite Nat.sub_0_r. change (take n (drop 0 values)) with (sub 0 n values). rewrite <- Hfirst.
    pose proof (foldM_rows op values first n rows 1 Hconcat Hrows) as Hfold.
    rewrite Hrl, Hrest in Hfold. rewrite Hfold by lia. by rewrite Hout.
  - intros i x ys Hi Hx Hys. apply Hcol.
    + rewrite Hfirst, lookup_sub, decide_True by done. done.
    + rewrite <- Hys. rewrite <- Hrest. unfold rows, rank_rows.
      rewrite skipn_map, skipn_seq. cbn [plus Nat.add].
      rewrite mapM_map. apply mapM_ext. intros k. by rewrite lookup_sub, decide_True by done.
Qed.

(** An operation the type does not support fails at the first pair. *)
Lemma reduce_host_values_err payload n w op :
  (1 < w)%nat -> (0 < n)%nat -> wire payload -> length payload = (n * w * SIZE (T:=T))%nat ->
  Z.of_nat (n * w * SIZE (T:=T)) < 2 ^ 64 -> supports op = false ->
  exists e, reduce_host_values T payload (Z.of_nat n) (Z.of_nat w) op = Err e.
Proof using Type.
  intros Hw Hn Hwire Hlen Hfit Hop. pose proof law_size as Hsize.
  destruct (law_decode_wire payload (n * w) Hwire) as (values & Hdec & _); [lia|].
  pose proof (law_decode_length _ _ Hdec) as Hvl.
  assert (Hvn : length values = (n * w)%nat) by nia.
  assert (Hnw : Z.of_nat (n * w) <= Z.of_nat (n * w * SIZE (T:=T))) by nia.
  unfold reduce_host_values, checked_mul.
  rewrite checked_in by (unfold in_width; lia). cbn [ok_or mbind outcome_bind].
  rewrite checked_in by (unfold in_width; lia). cbn [ok_or mbind outcome_bind].
  replace (Zlen payload =? _) with true by (symmetry; apply Z.eqb_eq; unfold Zlen; lia).
  cbn [negb fail_if mbind outcome_bind]. rewrite (proj2 (Z.eqb_neq _ _)) by lia.
  rewrite Hdec. cbn [mbind outcome_bind]. rewrite !Nat2Z.id.
  rewrite slice_range_Ok by nia. cbn [mbind outcome_bind].
  replace (w - 1)%nat with (S (w - 2)) by lia. cbn [seq foldM].
  rewrite arith_in by (unfold in_width; nia). cbn [mbind outcome_bind].
  rewrite arith_in by (unfold in_width; nia). cbn [mbind outcome_bind].
  rewrite slice_range_Ok by nia. cbn [mbind outcome_bind].
  assert (H2n : (2 * n <= n * w)%nat) by nia.
  set (out := take _ _). set (row := take _ (drop (Z.to_nat _) values)).
  assert (Ho : length out = n) by (unfold out; rewrite length_take, length_drop; lia).
  assert (Hrow : length row = n) by (unfold row; rewrite length_take, length_drop; lia).
  destruct out as [|x out], row as [|y row]; cbn in Ho, Hrow; [lia..|].
  destruct (law_combine_unsupported x y op Hop) as [e He]. exists e. cbn [combine_rows].
  by rewrite He.
Qed.
End reduction.

(** ** The dispatch on the element type *)
Definition host_type (e : ElementType) : bool :=
  match e with
  | ElementType.U8 | ElementType.U32 | ElementType.Bool | ElementType.I8 | ElementType.I16
  | ElementType.I64 | ElementType.F64 | ElementType.U16 | ElementType.U64
  | ElementType.Complex64 | ElementType.Complex128 => true
  | _ => false
  end.

Definition host_wire (e : ElementType) (payload : list Z) : Prop :=
  match e with
  | ElementType.Bool => Forall (fun b => b = 0 \/ b = 1) payload
  | _ => Forall is_byte payload
  end.

Section dispatch.
Context `{FloatArithmetic}.

(** What one element type contributes to the theorem below. *)
Lemma reduce_dispatch T (HR : HostReductionElement T) (HL : HostElementLaws T) payload n w op b :
  (0 < w)%nat -> wire payload -> length payload = (n * w * b)%nat -> SIZE (T:=T) = b ->
  Z.of_nat (n * w * b) < 2 ^ 64 ->
  (supports op = true -> exists bytes,
    reduce_host_values T payload (Z.of_nat n) (Z.of_nat w) op = Ok bytes /\ length bytes = (n * b)%nat) /\
  (supports op = false -> (0 < n)%nat -> (1 < w)%nat -> exists e,
    reduce_host_values T payload (Z.of_nat n) (Z.of_nat w) op = Err e).
Proof using Type.
  intros Hw Hwire Hlen <- Hfit. split.
  - intros Hop. destruct (reduce_host_values_ok payload n w op Hw Hwire Hlen Hfit Hop)
      as (values & out & _ & _ & Hr & Ho & _). exists (encode out). split; [done|].
    rewrite law_encode_length, Ho. lia.
  - intros Hop Hn Hw1. by apply reduce_host_values_err.
Qed.

(** The validation of a host reduction decides it.  For every element type
    that is reduced on the host and every well-formed payload of [w] ranks,
    [reduce_host_payload] returns one rank's worth of bytes when
    [validate_host_reduction_operation] accepts the operation; when it is
    refused, and there is something to combine, the reduction fails. *)
Theorem host_reduction_validated e op n w payload :
  host_type e = true -> host_wire e payload -> (0 < w)%nat ->
  length payload = (n * w * Z.to_nat (ElementType.byte_width e))%nat ->
  Z.of_nat (length payload) < 2 ^ 64 ->
  match validate_host_reduction_operation e op with
  | Ok _ => exists bytes,
      reduce_host_payload e payload (Z.of_nat n) (Z.of_nat w) op = Ok bytes /\
      length bytes = (n * Z.to_nat (ElementType.byte_width e))%nat
  | _ => (0 < n)%nat -> (1 < w)%nat ->
      exists m, reduce_host_payload e payload (Z.of_nat n) (Z.of_nat w) op = Err m
  end.
Proof using Type.
  intros He Hwire Hw Hlen Hfit. rewrite Hlen in Hfit.
  assert (Hint : forall signed size (Hs : (0 < size)%nat), Forall is_byte payload ->
    length payload = (n * w * size)%nat -> Z.of_nat (n * w * size) < 2 ^ 64 ->
    exists bytes, reduce_host_values Z (H0 := host_integer signed size) payload (Z.of_nat n) (Z.of_nat w) op
      = Ok bytes /\ length bytes = (n * size)%nat).
  { intros signed size Hs Hb Hl Hf.
    by apply (reduce_dispatch Z (host_integer signed size) (host_integer_laws signed size Hs)). }
  pose proof (reduce_dispatch bool host_bool host_bool_laws payload n w op 1 Hw) as Hbool.
  pose proof (reduce_dispatch Z host_f64 host_f64_laws payload n w op 8 Hw) as Hf64.
  pose proof (reduce_dispatch (Z * Z) (host_complex 4) (host_complex_laws 4 ltac:(lia)) payload n w op 8 Hw) as Hc64.
  pose proof (reduce_dispatch (Z * Z) (host_complex 8) (host_complex_laws 8 ltac:(lia)) payload n w op 16 Hw) as Hc128.
  destruct e; try discriminate He; cbn [host_wire ElementType.byte_width] in Hlen, Hfit, Hwire;
    unfold reduce_host_payload; cbn [ElementType.byte_width];
    change (Z.to_nat 1) with 1%nat in *; change (Z.to_nat 2) with 2%nat in *;
    change (Z.to_nat 4) with 4%nat in *; change (Z.to_nat 8) with 8%nat in *;
    change (Z.to_nat 16) with 16%nat in *;
    try (by (apply Hint; [lia|done..])).
  - by apply Hbool.
  - destruct (Hf64 Hwire Hlen eq_refl Hfit) as [Hok Herr]. unfold validate_host_reduction_operation.
    destruct op; cbn [bitwise andb fail_if mbind outcome_bind]; (by apply Hok) || by apply Herr.
  - destruct (Hc64 Hwire Hlen eq_refl Hfit) as [Hok Herr]. unfold validate_host_reduction_operation.
    destruct op; cbn [bitwise andb fail_if mbind outcome_bind]; (by apply Hok) || by apply Herr.
  - destruct (Hc128 Hwire Hlen eq_refl Hfit) as [Hok Herr]. unfold validate_host_reduction_operation.
    destruct op; cbn [bitwise andb fail_if mbind outcome_bind]; (by apply Hok) || by apply Herr.
Qed.
End dispatch.

(** [reduce_host_values] reduces every column of the ranks' payloads, in
    rank order.  For an element type with the codec laws and a supported
    operation, the payload that concatenates the encodings of the ranks' rows
    is reduced to the encoding of a row whose element [i] is the fold of the
    ranks' elements [i], starting with rank 0. *)
Theorem host_reduction_folds (T : Type) (HR : HostReductionElement T) (HL : HostElementLaws T)
    (rows : list (list T)) (n : nat) (op : ReductionOperation) :
  rows <> [] -> Forall (fun row => length row = n /\ Forall valid row) rows ->
  wire (concat (map encode rows)) -> supports op = true ->
  Z.of_nat (n * length rows * SIZE (T:=T)) < 2 ^ 64 ->
  exists out,
    reduce_host_values T (concat (map encode rows)) (Z.of_nat n) (Z.of_nat (length rows)) op
      = Ok (encode out) /\ length out = n /\
    forall i column, (i < n)%nat -> mapM (fun row : list T => row !! i) rows = Some column ->
      exists x ys z, column = x :: ys /\ fold_combine op x ys = Ok z /\ out !! i = Some z.
Proof.
  intros Hne Hrows Hwire Hop Hfit. set (w := length rows).
  assert (Hw : (0 < w)%nat) by (unfold w; destruct rows; [done|cbn; lia]).
  assert (Henc : concat (map encode rows) = encode (concat rows)).
  { clear - HL. induction rows as [|row rows IH]; cbn [map concat].
    - symmetry. apply nil_length_inv. rewrite law_encode_length. cbn. lia.
    - by rewrite IH, law_encode_app. }
  assert (Hlens : Forall (fun row => length row = n) rows).
  { eapply Forall_impl; [exact Hrows|]. by intros row []. }
  assert (Hcl : length (concat rows) = (n * w)%nat).
  { unfold w. clear - HL Hlens. induction Hlens as [|row rows Hr _ IH]; cbn [concat length]; [lia|].
    rewrite length_app, IH, Hr. lia. }
  assert (Hvalid : Forall valid (concat rows)).
  { clear - HL Hrows. induction Hrows as [|row rows [_ Hv] _ IH]; cbn [concat]; [constructor|].
    by apply Forall_app. }
  rewrite Henc in *.
  destruct (reduce_host_values_ok (encode (concat rows)) n w op Hw Hwire) as
    (values & out & Hdec & _ & Hr & Ho & Hcol); [by rewrite law_encode_length, Hcl; lia|done|done|].
  rewrite law_decode_encode in Hdec by done. injection Hdec as <-.
  exists out. split; [exact Hr|]. split; [done|]. intros i column Hi Hc.
  assert (Hat : forall k row, rows !! k = Some row -> concat rows !! (k * n + i)%nat = row !! i).
  { intros k row Hk. pose proof (sub_concat n rows k row Hlens Hk) as Hsub. rewrite <- Hsub.
    by rewrite lookup_sub, decide_True. }
  destruct rows as [|first rest] eqn:Heq; [done|].
  cbn [mapM] in Hc. destruct (first !! i) as [x|] eqn:Hx; cbn [mbind option_bind] in Hc; [|done].
  destruct (mapM _ rest) as [ys|] eqn:Hys; cbn in Hc; [|done]. injection Hc as <-.
  destruct (Hcol i x ys Hi) as (z & Hz & Hoz).
  - by rewrite <- Hx, <- (Hat 0%nat first eq_refl).
  - rewrite <- Hys. unfold w. cbn [length]. rewrite Nat.sub_1_r. cbn [Nat.pred].
    rewrite <- (mapM_seq_rows (fun k => concat (first :: rest) !! (k * n + i)%nat) (fun row => row !! i) rest 1);
      [done|]. intros k row Hk. by apply (Hat (1 + k)%nat).
  - by exists x, ys, z.
Qed.

(** Three ranks of two i8 elements: sums wrap around. *)
Lemma host_reduction_folds_witness :
  exists out, reduce_host_values Z (H0 := host_integer true 1) [100; 255; 100; 2; 0; 253] 2 3 Sum
    = Ok (encode (HostReductionElement := host_integer true 1) out) /\ length out = 2%nat.
Proof.
  destruct (host_reduction_folds Z (host_integer true 1) (host_integer_laws true 1 ltac:(lia))
    [[100; -1]; [100; 2]; [0; -3]] 2 Sum) as (out & Hr & Hl & _).
  - discriminate.
  - repeat (apply Forall_cons_2 || apply Forall_nil_2); cbn; repeat split;
      repeat (apply Forall_cons_2 || apply Forall_nil_2); cbn; lia.
  - cbn. repeat (apply Forall_cons_2 || apply Forall_nil_2); unfold is_byte; vm_compute; split; congruence.
  - reflexivity.
  - vm_compute. reflexivity.
  - exists out. split; [exact Hr|exact Hl].
Defined.

(** A float arithmetic, for examples: the operations of the bit patterns. *)
Definition pattern_arithmetic : FloatArithmetic.
Proof.
  refine {| float_add n x y := wrap (8 * Z.of_nat n) (x + y);
            float_sub n x y := wrap (8 * Z.of_nat n) (x - y);
            float_mul n x y := wrap (8 * Z.of_nat n) (x * y);
            float_lt _ x y := x <? y |}.
  intros n x y. repeat split; apply wrap_range; lia.
Defined.

(** Two ranks of one complex number: the sum is accepted and the maximum is not. *)
Lemma host_reduction_validated_witness :
  (exists bytes, reduce_host_payload (H := pattern_arithmetic) ElementType.Complex64
    [1;0;0;0;2;0;0;0; 3;0;0;0;4;0;0;0] 1 2 Sum = Ok bytes) /\
  (exists m, reduce_host_payload (H := pattern_arithmetic) ElementType.Complex64
    [1;0;0;0;2;0;0;0; 3;0;0;0;4;0;0;0] 1 2 Maximum = Err m).
Proof.
  assert (Hw : host_wire ElementType.Complex64 [1;0;0;0;2;0;0;0; 3;0;0;0;4;0;0;0]).
  { cbn. repeat (apply Forall_cons_2 || apply Forall_nil_2); unfold is_byte; lia. }
  split.
  - destruct (host_reduction_validated (H := pattern_arithmetic) ElementType.Complex64 Sum 1 2 _
      eq_refl Hw ltac:(lia) eq_refl ltac:(cbn; lia)) as (bytes & Hr & _). by exists bytes.
  - exact (host_reduction_validated (H := pattern_arithmetic) ElementType.Complex64 Maximum 1 2 _
      eq_refl Hw ltac:(lia) eq_refl ltac:(cbn; lia) ltac:(lia) ltac:(lia)).
Defined.
