(* ===== verification/Comp.v ===== *)
(** * Computations with state

    Code that mutates shared state and can fail: a computation takes the state
    and returns the new state with a result.  An error or a panic keeps the
    state reached when it happened, as a Rust [?] does.  [wp] is the weakest
    precondition of a computation: it does not panic, an error satisfies
    [err], a value satisfies the postcondition. *)
From S2P Require Import Prelude.

Definition comp (S E A : Type) : Type := S -> S * outcome E A.

#[export] Instance comp_ret S E : MRet (comp S E) := fun A a s => (s, Ok a).

#[export] Instance comp_bind S E : MBind (comp S E) :=
  fun A B f m s =>
    match m s with
    | (s', Ok a) => f a s'
    | (s', Err e) => (s', Err e)
    | (s', Panic) => (s', Panic)
    end.

(** A step that does not touch the state. *)
Definition pure {S E A} (m : outcome E A) : comp S E A := fun s => (s, m).

(** [result.map_err(f)] and the conversion of [?]. *)
Definition comp_map_err {S E F A} (f : E -> F) (m : comp S E A) : comp S F A :=
  fun s => let '(s', r) := m s in (s', map_err f r).

(** [for x in l { a = body(a, x)?; }] *)
Fixpoint loop {S E A B} (body : A -> B -> comp S E A) (a : A) (l : list B) : comp S E A :=
  match l with
  | [] => mret a
  | x :: l' => a' ← body a x; loop body a' l'
  end.

(** [for x in l { body(x)?; }] *)
Definition for_each {S E B} (body : B -> comp S E unit) (l : list B) : comp S E unit :=
  loop (fun _ x => body x) tt l.

(** [l.map(f).collect::<Result<Vec<_>, _>>()] with an effectful [f]. *)
Fixpoint collect {S E A B} (f : A -> comp S E B) (l : list A) : comp S E (list B) :=
  match l with
  | [] => mret []
  | x :: l' => y ← f x; ys ← collect f l'; mret (y :: ys)
  end.

(** [usize] arithmetic with overflow checks. *)
Definition add_usize {E} (a b : nat) : outcome E nat :=
  if Z.of_nat (a + b) <? 2 ^ 64 then Ok (a + b)%nat else Panic.
Definition sub_usize {E} (a b : nat) : outcome E nat :=
  if (b <=? a)%nat then Ok (a - b)%nat else Panic.
Definition mul_usize {E} (a b : nat) : outcome E nat :=
  if Z.of_nat (a * b) <? 2 ^ 64 then Ok (a * b)%nat else Panic.
Definition rem_usize {E} (a b : nat) : outcome E nat :=
  if (b =? 0)%nat then Panic else Ok (a mod b)%nat.
Definition div_usize {E} (a b : nat) : outcome E nat :=
  if (b =? 0)%nat then Panic else Ok (a / b)%nat.
Definition checked_add_usize (a b : nat) : option nat :=
  if Z.of_nat (a + b) <? 2 ^ 64 then Some (a + b)%nat else None.
Definition checked_mul_usize (a b : nat) : option nat :=
  if Z.of_nat (a * b) <? 2 ^ 64 then Some (a * b)%nat else None.
Definition fits_usize (n : nat) : Prop := Z.of_nat n < 2 ^ 64.

Section usize_lemmas.
Context {E : Type}.

Lemma add_usize_ok a b : fits_usize (a + b) -> add_usize (E:=E) a b = Ok (a + b)%nat.
Proof. unfold fits_usize, add_usize. intros. by rewrite (proj2 (Z.ltb_lt _ _)). Qed.

Lemma sub_usize_ok a b : (b <= a)%nat -> sub_usize (E:=E) a b = Ok (a - b)%nat.
Proof. unfold sub_usize. intros. by rewrite (proj2 (Nat.leb_le _ _)). Qed.

Lemma mul_usize_ok a b : fits_usize (a * b) -> mul_usize (E:=E) a b = Ok (a * b)%nat.
Proof. unfold fits_usize, mul_usize. intros. by rewrite (proj2 (Z.ltb_lt _ _)). Qed.

Lemma rem_usize_ok a b : (0 < b)%nat -> rem_usize (E:=E) a b = Ok (a mod b)%nat.
Proof. unfold rem_usize. intros. by rewrite (proj2 (Nat.eqb_neq b 0)) by lia. Qed.

Lemma div_usize_ok a b : (0 < b)%nat -> div_usize (E:=E) a b = Ok (a / b)%nat.
Proof. unfold div_usize. intros. by rewrite (proj2 (Nat.eqb_neq b 0)) by lia. Qed.

Lemma checked_add_usize_Some a b : fits_usize (a + b) -> checked_add_usize a b = Some (a + b)%nat.
Proof. unfold fits_usize, checked_add_usize. intros. by rewrite (proj2 (Z.ltb_lt _ _)). Qed.

Lemma checked_mul_usize_Some a b : fits_usize (a * b) -> checked_mul_usize a b = Some (a * b)%nat.
Proof. unfold fits_usize, checked_mul_usize. intros. by rewrite (proj2 (Z.ltb_lt _ _)). Qed.

Lemma fits_usize_le a b : (a <= b)%nat -> fits_usize b -> fits_usize a.
Proof. unfold fits_usize. lia. Qed.
End usize_lemmas.

(** ** Weakest preconditions *)
Definition wp {S E A} (err : E -> Prop) (m : comp S E A) (Q : A -> S -> Prop) (s : S) : Prop :=
  match m s with
  | (s', Ok a) => Q a s'
  | (_, Err e) => err e
  | (_, Panic) => False
  end.

Section wp.
Context {S E : Type} {err : E -> Prop}.

Lemma wp_ret {A} (a : A) (Q : A -> S -> Prop) s : Q a s -> wp err (mret a) Q s.
Proof. done. Qed.

Lemma wp_bind {A B} (m : comp S E A) (f : A -> comp S E B) (Q : B -> S -> Prop) s :
  wp err m (fun a s' => wp err (f a) Q s') s -> wp err (m ≫= f) Q s.
Proof. unfold wp, mbind, comp_bind. by destruct (m s) as [s' [a|e|]]. Qed.

Lemma wp_mono {A} (m : comp S E A) (P Q : A -> S -> Prop) s :
  wp err m P s -> (forall a s', P a s' -> Q a s') -> wp err m Q s.
Proof. unfold wp. destruct (m s) as [s' [a|e|]]; auto. Qed.

Lemma wp_pure {A} (m : outcome E A) a (Q : A -> S -> Prop) s : m = Ok a -> Q a s -> wp err (pure m) Q s.
Proof. by intros ->. Qed.

Lemma wp_map_err {F A} (err' : F -> Prop) (f : E -> F) (m : comp S E A) Q s :
  (forall e, err e -> err' (f e)) -> wp err m Q s -> wp err' (comp_map_err f m) Q s.
Proof. unfold wp, comp_map_err. intros Hf. destruct (m s) as [s' [a|e|]]; cbn; auto. Qed.

(** A loop over [0..n] keeps an invariant indexed by the iteration. *)
Lemma wp_loop_from {A} (I : nat -> A -> S -> Prop) (body : A -> nat -> comp S E A) n :
  forall i a s, I i a s ->
  (forall j a s, (i <= j < i + n)%nat -> I j a s -> wp err (body a j) (I (j + 1)%nat) s) ->
  wp err (loop body a (seq i n)) (I (i + n)%nat) s.
Proof.
  induction n as [|n IH]; intros i a s Hi Hbody; cbn [loop seq].
  - apply wp_ret. by rewrite Nat.add_0_r.
  - apply wp_bind. eapply wp_mono; [apply Hbody; [lia|done]|].
    intros a' s' Ha. rewrite Nat.add_1_r in Ha. replace (i + Datatypes.S n)%nat with (Datatypes.S i + n)%nat by lia.
    apply IH; [done|]. intros j a'' s'' Hj. apply Hbody. lia.
Qed.

Lemma wp_loop {A} (I : nat -> A -> S -> Prop) (body : A -> nat -> comp S E A) n a s Q :
  I 0%nat a s ->
  (forall j a s, (j < n)%nat -> I j a s -> wp err (body a j) (I (j + 1)%nat) s) ->
  (forall a s, I n a s -> Q a s) ->
  wp err (loop body a (seq 0 n)) Q s.
Proof.
  intros H0 Hbody HQ. eapply wp_mono; [apply (wp_loop_from I body n 0); [done|]|].
  - intros j a' s' Hj. apply Hbody. lia.
  - intros a' s'. apply HQ.
Qed.

Lemma wp_for_each (I : nat -> S -> Prop) (body : nat -> comp S E unit) n s Q :
  I 0%nat s ->
  (forall j s, (j < n)%nat -> I j s -> wp err (body j) (fun _ => I (j + 1)%nat) s) ->
  (forall s, I n s -> Q tt s) ->
  wp err (for_each body (seq 0 n)) Q s.
Proof.
  intros H0 Hbody HQ. apply (wp_loop (fun i _ => I i)); [done| |].
  - intros j _ s' Hj Hs. by apply Hbody.
  - intros [] s' Hs. by apply HQ.
Qed.

(** A loop over the elements of a list. *)
Lemma wp_loop_list {A B} (I : nat -> A -> S -> Prop) (body : A -> B -> comp S E A) (l : list B) a s Q :
  I 0%nat a s ->
  (forall j x a s, l !! j = Some x -> I j a s -> wp err (body a x) (I (j + 1)%nat) s) ->
  (forall a s, I (length l) a s -> Q a s) ->
  wp err (loop body a l) Q s.
Proof.
  revert I a s. induction l as [|x l IH]; intros I a s H0 Hbody HQ; cbn [loop length] in *.
  - apply wp_ret. auto.
  - apply wp_bind. eapply wp_mono; [apply (Hbody 0%nat); done|]. intros a' s' Ha.
    apply (IH (fun i => I (i + 1)%nat)); [done| |].
    + intros j y a'' s'' Hy. apply (Hbody (j + 1)%nat). by rewrite Nat.add_1_r.
    + intros a'' s'' Hl. apply HQ. by rewrite <- Nat.add_1_r.
Qed.

Lemma wp_for_each_list {B} (I : nat -> S -> Prop) (body : B -> comp S E unit) (l : list B) s Q :
  I 0%nat s ->
  (forall j x s, l !! j = Some x -> I j s -> wp err (body x) (fun _ => I (j + 1)%nat) s) ->
  (forall s, I (length l) s -> Q tt s) ->
  wp err (for_each body l) Q s.
Proof.
  intros H0 Hbody HQ. apply (wp_loop_list (fun i _ => I i)); [done| |].
  - intros j x _ s' Hj Hs. by apply Hbody.
  - intros [] s' Hs. by apply HQ.
Qed.

(** A collection whose steps keep an invariant on the values so far. *)
Lemma wp_collect_acc {A B} (I : list B -> S -> Prop) (f : A -> comp S E B) (l : list A) s
    (Q : list B -> S -> Prop) :
  I [] s ->
  (forall x ys s, l !! length ys = Some x -> I ys s ->
    wp err (f x) (fun y s' => I (ys ++ [y]) s') s) ->
  (forall ys s, length ys = length l -> I ys s -> Q ys s) ->
  wp err (collect f l) Q s.
Proof.
  revert I s Q. induction l as [|x l IH]; intros I s Q H0 Hf HQ; cbn [collect length] in *.
  - apply wp_ret. by apply HQ.
  - apply wp_bind. eapply wp_mono; [by apply (Hf x [])|]. intros y s' Hy.
    apply wp_bind. apply (IH (fun ys => I (y :: ys))); [done| |].
    + intros z ys s'' Hz Hys. apply (Hf z (y :: ys)); [done|done].
    + intros ys s'' Hlen Hl. apply wp_ret, HQ; [|done]. cbn. by rewrite Hlen.
Qed.

(** Step [j] yields a value that satisfies [P j]. *)
Lemma wp_collect_list {A B} (I : nat -> S -> Prop) (P : nat -> B -> Prop)
    (f : A -> comp S E B) (l : list A) s (Q : list B -> S -> Prop) :
  I 0%nat s ->
  (forall j x s, l !! j = Some x -> I j s ->
    wp err (f x) (fun y s' => P j y /\ I (j + 1)%nat s') s) ->
  (forall ys s, length ys = length l -> (forall j y, ys !! j = Some y -> P j y) ->
    I (length l) s -> Q ys s) ->
  wp err (collect f l) Q s.
Proof.
  intros H0 Hf HQ.
  apply (wp_collect_acc (fun ys s => (forall j y, ys !! j = Some y -> P j y) /\ I (length ys) s)).
  - split; [|done]. intros j y. by rewrite lookup_nil.
  - intros x ys s' Hx [HP HI]. eapply wp_mono; [by apply Hf|]. intros y s'' [Hy Hs].
    split; [|by rewrite length_app]. intros j z [Hz|[-> ->]]%lookup_snoc_Some; [|done].
    apply HP. apply Hz.
  - intros ys s' Hlen [HP HI]. apply HQ; [done|done|]. by rewrite <- Hlen.
Qed.

Lemma wp_collect {B} (I : nat -> S -> Prop) (P : nat -> B -> Prop)
    (f : nat -> comp S E B) n s Q :
  I 0%nat s ->
  (forall j s, (j < n)%nat -> I j s -> wp err (f j) (fun y s' => P j y /\ I (j + 1)%nat s') s) ->
  (forall ys s, length ys = n -> (forall j y, ys !! j = Some y -> P j y) -> I n s -> Q ys s) ->
  wp err (collect f (seq 0 n)) Q s.
Proof.
  intros H0 Hf HQ. apply (wp_collect_list I P); [done| |].
  - intros j x s' [-> Hj]%lookup_seq. by apply Hf.
  - intros ys s'. rewrite length_seq. apply HQ.
Qed.
End wp.

(** What a weakest precondition says of a run. *)
Lemma wp_run {S E A} err (m : comp S E A) (Q : A -> S -> Prop) s :
  wp err m Q s ->
  (exists a s', m s = (s', Ok a) /\ Q a s') \/ (exists e s', m s = (s', Err e) /\ err e).
Proof. unfold wp. destruct (m s) as [s' [a|e|]]; naive_solver. Qed.

(** [l.iter().enumerate()] *)
Definition enumerate {A} (l : list A) : list (nat * A) := zip (seq 0 (length l)) l.

Lemma lookup_enumerate {A} (l : list A) i p :
  enumerate l !! i = Some p <-> exists x, l !! i = Some x /\ p = (i, x).
Proof.
  unfold enumerate. destruct p as [j x]. rewrite lookup_zip_Some. split.
  - intros [[-> Hi]%lookup_seq Hx]. eauto.
  - intros (y & Hy & [= -> ->]). split; [|done]. apply lookup_seq_lt. by eapply lookup_lt_Some.
Qed.

Lemma length_enumerate {A} (l : list A) : length (enumerate l) = length l.
Proof. unfold enumerate. rewrite length_zip_with, length_seq. lia. Qed.

(** The pure steps of a computation whose results are known. *)
Ltac wp_pure_step :=
  match goal with
  | |- wp _ (pure (add_usize _ _) ≫= _) _ _ =>
      apply wp_bind; eapply wp_pure; [apply add_usize_ok|cbv beta]
  | |- wp _ (pure (sub_usize _ _) ≫= _) _ _ =>
      apply wp_bind; eapply wp_pure; [apply sub_usize_ok|cbv beta]
  | |- wp _ (pure (mul_usize _ _) ≫= _) _ _ =>
      apply wp_bind; eapply wp_pure; [apply mul_usize_ok|cbv beta]
  | |- wp _ (pure (rem_usize _ _) ≫= _) _ _ =>
      apply wp_bind; eapply wp_pure; [apply rem_usize_ok|cbv beta]
  | |- wp _ (pure (div_usize _ _) ≫= _) _ _ =>
      apply wp_bind; eapply wp_pure; [apply div_usize_ok|cbv beta]
  | |- wp _ (pure (index _ _) ≫= _) _ _ =>
      apply wp_bind; eapply wp_pure; [apply index_Ok; eassumption|cbv beta]
  | |- wp _ (mret _) _ _ => apply wp_ret
  | |- wp _ (pure (Ok _) ≫= _) _ _ =>
      apply wp_bind; eapply wp_pure; [reflexivity|cbv beta]
  end.
