(* ===== verification/Device.v ===== *)
(** * The device interface of the in-process collectives

    [InProcessDevice] of src/src/in_process/device.rs: the operations a device
    offers to the collectives, over a store of device buffers, and the laws a
    device promises, in terms of a view of the store that gives every live
    buffer its elements.  A law allows the device to fail with one of its own
    errors; a device whose set of errors is empty is one that never fails.
    Also the statistics a collective returns, src/src/rank/stats.rs. *)
From S2P Require Import Prelude Comp.

(** ** Statistics *)
Inductive CollectiveAlgorithm := Direct | Ring | Pairwise | Hierarchical.

Inductive CollectiveTransport :=
  HostStaged | TcpHostStaged | TcpPeer | PciePeer | Rdma | GxLink.

Record CollectiveStats := {
  algorithm : CollectiveAlgorithm;
  transport : CollectiveTransport;
  steps : Z;
  stats_bytes : Z;
  reduction_kernel_launches : Z;
}.

Definition stats_new (a : CollectiveAlgorithm) : CollectiveStats :=
  {| algorithm := a; transport := HostStaged; steps := 0; stats_bytes := 0;
     reduction_kernel_launches := 0 |}.

(** [stats.steps = n], [stats.transferred_bytes = n] and the [+= 1] of the two
    u32 counters. *)
Definition set_steps (n : Z) (st : CollectiveStats) : CollectiveStats :=
  {| algorithm := algorithm st; transport := transport st; steps := n;
     stats_bytes := stats_bytes st;
     reduction_kernel_launches := reduction_kernel_launches st |}.

Definition set_bytes (n : Z) (st : CollectiveStats) : CollectiveStats :=
  {| algorithm := algorithm st; transport := transport st; steps := steps st;
     stats_bytes := n; reduction_kernel_launches := reduction_kernel_launches st |}.

Definition set_launches (n : Z) (st : CollectiveStats) : CollectiveStats :=
  {| algorithm := algorithm st; transport := transport st; steps := steps st;
     stats_bytes := stats_bytes st; reduction_kernel_launches := n |}.

Definition add_step {E} (st : CollectiveStats) : outcome E CollectiveStats :=
  n ← arith 32 (steps st + 1); Ok (set_steps n st).

Definition add_launch {E} (st : CollectiveStats) : outcome E CollectiveStats :=
  n ← arith 32 (reduction_kernel_launches st + 1); Ok (set_launches n st).

Lemma add_step_ok {E} st :
  0 <= steps st < 2 ^ 32 - 1 -> add_step (E:=E) st = Ok (set_steps (steps st + 1) st).
Proof. intros. unfold add_step. by rewrite arith_in by (unfold in_width; lia). Qed.

Lemma add_launch_ok {E} st :
  0 <= reduction_kernel_launches st < 2 ^ 32 - 1 ->
  add_launch (E:=E) st = Ok (set_launches (reduction_kernel_launches st + 1) st).
Proof. intros. unfold add_launch. by rewrite arith_in by (unfold in_width; lia). Qed.

(** ** Operations *)
Class InProcessDevice (T : Type) := {
  Store : Type;
  DeviceContext : Type;
  Buffer : Type;
  Kernel : Type;
  ReductionLaunch : Type;
  DeviceError : Type;
  ELEMENT_SIZE : nat;
  buffer_len : Buffer -> nat;
  buffer_is_empty : Buffer -> bool;
  alloc : DeviceContext -> nat -> comp Store DeviceError Buffer;
  copy_to_device : DeviceContext -> Buffer -> list T -> comp Store DeviceError unit;
  copy_to_device_at : DeviceContext -> Buffer -> nat -> list T -> comp Store DeviceError unit;
  copy_from_device : DeviceContext -> Buffer -> comp Store DeviceError (list T);
  copy_from_device_at : DeviceContext -> Buffer -> nat -> nat -> comp Store DeviceError (list T);
  prepare_reduction : nat -> nat -> ReductionLaunch;
  launch_reduction :
    DeviceContext -> Kernel -> ReductionLaunch -> Buffer -> Buffer -> comp Store DeviceError unit;
}.

(** ** Laws

    [view s k] is what the store cell [k] holds; [holds s c b l]: buffer [b]
    belongs to context [c] and holds [l]. *)
Class DeviceView (T : Type) `{InProcessDevice T} := {
  Cell : Type;
  Cell_eq_dec :: EqDecision Cell;
  cell : Buffer -> Cell;
  view : Store -> Cell -> option (list T);
  usable : DeviceContext -> Buffer -> Prop;
  allocatable : DeviceContext -> nat -> Prop;
  computes : DeviceContext -> Kernel -> Prop;
  combine : Kernel -> T -> T -> T;
  device_error : DeviceError -> Prop;
}.

Section view.
Context {T : Type} `{DeviceView T}.

Definition updated (s : Store) (k : Cell) (l : list T) (s' : Store) : Prop :=
  forall k', view s' k' = if decide (k' = k) then Some l else view s k'.

Definition unchanged (s s' : Store) : Prop := forall k, view s' k = view s k.

Record holds (s : Store) (c : DeviceContext) (b : Buffer) (l : list T) : Prop := {
  holds_usable : usable c b;
  holds_view : view s (cell b) = Some l;
  holds_length : length l = buffer_len b;
}.
End view.

Class DeviceLaws (T : Type) `{DeviceView T} := {
  law_is_empty b : buffer_is_empty b = (buffer_len b =? 0)%nat;
  law_alloc c n s :
    allocatable c n ->
    wp device_error (alloc c n) (fun b s' =>
      usable c b /\ buffer_len b = n /\ view s (cell b) = None /\
      exists l, length l = n /\ updated s (cell b) l s') s;
  law_copy_to_device c b l values s :
    holds s c b l -> length values = buffer_len b ->
    wp device_error (copy_to_device c b values)
      (fun _ s' => updated s (cell b) values s') s;
  law_copy_to_device_at c b l offset values s :
    holds s c b l -> (offset + length values <= buffer_len b)%nat ->
    wp device_error (copy_to_device_at c b offset values)
      (fun _ s' => updated s (cell b) (put offset values l) s') s;
  law_copy_from_device c b l s :
    holds s c b l ->
    wp device_error (copy_from_device c b) (fun values s' => values = l /\ unchanged s s') s;
  law_copy_from_device_at c b l offset n s :
    holds s c b l -> (offset + n <= buffer_len b)%nat ->
    wp device_error (copy_from_device_at c b offset n)
      (fun values s' => values = sub offset n l /\ unchanged s s') s;
  law_launch_reduction c k n offset src dst lsrc ldst s :
    computes c k -> holds s c src lsrc -> holds s c dst ldst -> cell src <> cell dst ->
    (n <= buffer_len src)%nat -> (offset + n <= buffer_len dst)%nat ->
    wp device_error (launch_reduction c k (prepare_reduction n offset) src dst)
      (fun _ s' => updated s (cell dst)
        (put offset (zip_with (combine k) (sub offset n ldst) (sub 0 n lsrc)) ldst) s') s;
}.

Section view_lemmas.
Context {T : Type} `{DeviceView T}.

Lemma updated_same s k l s' : updated s k l s' -> view s' k = Some l.
Proof. intros Hu. rewrite (Hu k). by rewrite decide_True. Qed.

Lemma updated_other s k l s' k' : updated s k l s' -> k' <> k -> view s' k' = view s k'.
Proof. intros Hu Hne. rewrite (Hu k'). by rewrite decide_False. Qed.

Lemma holds_updated s c b l l' s' :
  holds s c b l -> updated s (cell b) l' s' -> length l' = length l -> holds s' c b l'.
Proof.
  intros [Hc Hv Hl] Hu Hlen. split; [done| |congruence]. by apply (updated_same s).
Qed.

Lemma holds_other s c b l k l' s' :
  holds s c b l -> updated s k l' s' -> cell b <> k -> holds s' c b l.
Proof. intros [Hc Hv Hl] Hu Hne. split; [done| |done]. by rewrite (updated_other _ _ _ _ _ Hu). Qed.

Lemma holds_unchanged s c b l s' : holds s c b l -> unchanged s s' -> holds s' c b l.
Proof. intros [Hc Hv Hl] Hu. split; [done| |done]. by rewrite (Hu _). Qed.
End view_lemmas.
