(* ===== verification/InProcess.v ===== *)
(** * In-process communicator: buffers and memory

    src/src/in_process/{error,buffer,owner}.rs and
    src/src/in_process/collective/{mod,memory}.rs: a communicator over the
    contexts of several devices, the buffers it hands out, their checks, and
    the copies between host and device.  [distributed] says what the ranks of
    a buffer hold; the collectives are specified with it. *)
From S2P Require Import Prelude Protocol Errors Layout Comp Device.

(** ** Definitions *)
Module InProcessError.
Inductive t :=
  | EmptyWorld
  | RankOutOfRange (rank world_size : nat)
  | WrongCommunicator
  | InvalidLength (message : string)
  | Overflow (what : string).
End InProcessError.

(** The error type of a collective, [E: From<D::Error> + From<InProcessError>]. *)
Inductive CollectiveError (D : Type) :=
  | FromDevice (e : D)
  | FromInProcess (e : InProcessError.t).
Arguments FromDevice {D} e.
Arguments FromInProcess {D} e.

(** src/src/in_process/collective/mod.rs [ring_chunks]; the length is a u32. *)
Definition ring_chunks (length world_size : nat) : outcome InProcessError.t (list (nat * nat)) :=
  _ ← fail_if (world_size =? 0)%nat InProcessError.EmptyWorld;
  let base := (length / world_size)%nat in
  let remainder := (length mod world_size)%nat in
  Ok (map_accum
        (fun start rank =>
           let chunk_length := (base + Nat.b2n (rank <? remainder))%nat in
           ((start + chunk_length)%nat, (start, start + chunk_length)%nat))
        0%nat (seq 0 world_size)).

Definition transferred_bytes (transfers elements element_bytes : Z) : outcome InProcessError.t Z :=
  ok_or (checked_mul usize_bits transfers elements ≫= fun value =>
         checked_mul usize_bits value element_bytes)
    (InProcessError.Overflow "transferred bytes").

Section definitions.
Context {T : Type} `{InProcessDevice T}.

Record DistributedBuffer := {
  communicator_id : Z;
  buffers : list Buffer;
  length_per_rank : nat;
}.

Record VariableDistributedBuffer := {
  variable_id : Z;
  variable_buffers : list (option Buffer);
  lengths : list nat;
}.

Record RootedBuffer := {
  rooted_id : Z;
  root : nat;
  buffer : Buffer;
}.

Definition buffer_world_size (b : DistributedBuffer) : nat := length (buffers b).
Definition variable_world_size (b : VariableDistributedBuffer) : nat := length (variable_buffers b).
Definition rank_length (b : VariableDistributedBuffer) (rank : nat) : option nat :=
  lengths b !! rank.
Definition variable_rank_buffer (b : VariableDistributedBuffer) (rank : nat) : option Buffer :=
  mjoin (variable_buffers b !! rank).
Definition rooted_len (b : RootedBuffer) : nat := buffer_len (buffer b).

Record InProcessCollective := {
  id : Z;
  contexts : list DeviceContext;
}.

Definition run (A : Type) : Type := comp Store (CollectiveError DeviceError) A.

(** A device call followed by [?]; an in-process check followed by [?]. *)
Definition on_device {A} (m : comp Store DeviceError A) : run A := comp_map_err FromDevice m.
Definition check {A} (m : outcome InProcessError.t A) : run A := pure (map_err FromInProcess m).

Definition world_size (c : InProcessCollective) : nat := length (contexts c).

Definition context (c : InProcessCollective) (rank : nat) : run DeviceContext :=
  check (ok_or (contexts c !! rank) (InProcessError.RankOutOfRange rank (world_size c))).

Definition validate_buffer (c : InProcessCollective) (b : DistributedBuffer) : run unit :=
  check (fail_if (negb (communicator_id b =? id c) || negb (buffer_world_size b =? world_size c)%nat)
    InProcessError.WrongCommunicator).

Definition validate_rooted_buffer (c : InProcessCollective) (b : RootedBuffer) : run unit :=
  _ ← check (fail_if (negb (rooted_id b =? id c)) InProcessError.WrongCommunicator);
  _ ← context c (root b);
  mret tt.

Definition validate_variable_buffer (c : InProcessCollective) (b : VariableDistributedBuffer) : run unit :=
  check (fail_if (negb (variable_id b =? id c) || negb (variable_world_size b =? world_size c)%nat)
    InProcessError.WrongCommunicator).

(** ** src/src/in_process/collective/memory.rs *)
Definition allocate (c : InProcessCollective) (n : nat) : run DistributedBuffer :=
  bs ← collect (fun context => on_device (alloc context n)) (contexts c);
  mret {| communicator_id := id c; buffers := bs; length_per_rank := n |}.

Definition allocate_rooted (c : InProcessCollective) (root n : nat) : run RootedBuffer :=
  ctx ← context c root;
  b ← on_device (alloc ctx n);
  mret {| rooted_id := id c; root := root; buffer := b |}.

Definition allocate_variable (c : InProcessCollective) (ls : list nat) : run VariableDistributedBuffer :=
  _ ← check (fail_if (negb (length ls =? world_size c)%nat)
        (InProcessError.InvalidLength "variable buffer lengths must contain one entry per rank"));
  bs ← collect (fun '(context, n) =>
         if (n =? 0)%nat then mret None
         else b ← on_device (alloc context n); mret (Some b)) (zip (contexts c) ls);
  mret {| variable_id := id c; variable_buffers := bs; lengths := ls |}.

Definition upload_variable_rank (c : InProcessCollective) (b : VariableDistributedBuffer)
    (rank : nat) (values : list T) : run unit :=
  _ ← validate_variable_buffer c b;
  ctx ← context c rank;
  expected ← check (ok_or (rank_length b rank)
               (InProcessError.RankOutOfRange rank (world_size c)));
  _ ← check (fail_if (negb (length values =? expected)%nat)
        (InProcessError.InvalidLength "variable rank upload length does not match allocation"));
  match variable_rank_buffer b rank with
  | Some rank_buffer => on_device (copy_to_device ctx rank_buffer values)
  | None => mret tt
  end.

Definition download_variable_rank (c : InProcessCollective) (b : VariableDistributedBuffer)
    (rank : nat) : run (list T) :=
  _ ← validate_variable_buffer c b;
  ctx ← context c rank;
  match variable_rank_buffer b rank with
  | Some rank_buffer => on_device (copy_from_device ctx rank_buffer)
  | None =>
      if decide (rank_length b rank = Some 0%nat) then mret []
      else check (Err (InProcessError.RankOutOfRange rank (world_size c)))
  end.

Definition upload_root (c : InProcessCollective) (b : RootedBuffer) (values : list T) : run unit :=
  _ ← validate_rooted_buffer c b;
  ctx ← context c (root b);
  on_device (copy_to_device ctx (buffer b) values).

Definition download_root (c : InProcessCollective) (b : RootedBuffer) : run (list T) :=
  _ ← validate_rooted_buffer c b;
  ctx ← context c (root b);
  on_device (copy_from_device ctx (buffer b)).

Definition upload_rank (c : InProcessCollective) (b : DistributedBuffer) (rank : nat)
    (values : list T) : run unit :=
  _ ← validate_buffer c b;
  ctx ← context c rank;
  rank_buffer ← check (ok_or (buffers b !! rank)
                  (InProcessError.RankOutOfRange rank (world_size c)));
  on_device (copy_to_device ctx rank_buffer values).

Definition download_rank (c : InProcessCollective) (b : DistributedBuffer) (rank : nat) : run (list T) :=
  _ ← validate_buffer c b;
  ctx ← context c rank;
  rank_buffer ← check (ok_or (buffers b !! rank)
                  (InProcessError.RankOutOfRange rank (world_size c)));
  on_device (copy_from_device ctx rank_buffer).

(** ** src/src/in_process/owner.rs

    [NEXT_COMMUNICATOR_ID] is the state of [communicator_new]. *)
Record Communicator := {
  owner_id : Z;
  owner_contexts : list DeviceContext;
}.

Definition fetch_add_id {E} : comp Z E Z := fun next => (wrap 64 (next + 1), Ok next).

Definition communicator_new {K E} (from : InProcessError.t -> E)
    (cs : list DeviceContext) (initialize : DeviceContext -> outcome E K) :
    comp Z E (Communicator * K) :=
  match cs with
  | [] => pure (Err (from InProcessError.EmptyWorld))
  | first :: _ =>
      kernels ← pure (initialize first);
      id ← fetch_add_id;
      mret ({| owner_id := id; owner_contexts := cs |}, kernels)
  end.

Definition owner_world_size (o : Communicator) : nat := length (owner_contexts o).

Definition collective (o : Communicator) : InProcessCollective :=
  {| id := owner_id o; contexts := owner_contexts o |}.

Definition barrier (o : Communicator) : outcome InProcessError.t CollectiveStats :=
  _ ← fail_if (owner_world_size o =? 0)%nat InProcessError.EmptyWorld;
  Ok (set_steps (Z.b2z (1 <? owner_world_size o)%nat) (stats_new Direct)).
End definitions.

(** ** What the ranks of a buffer hold *)
Section theory.
Context {T : Type} `{DeviceLaws T}.
Implicit Types (c : InProcessCollective) (b : DistributedBuffer) (x y : nat -> list T) (s : Store).

(** The only errors of a correct call are the device's own. *)
Definition in_error (e : CollectiveError DeviceError) : Prop :=
  match e with FromDevice d => device_error d | FromInProcess _ => False end.

(** Cells in use before keep their contents, except [mine]. *)
Definition preserves (mine : list Cell) (s s' : Store) : Prop :=
  forall k l, view s k = Some l -> k ∉ mine -> view s' k = Some l.

Definition cells b : list Cell := cell <$> buffers b.
Definition fresh s b : Prop := forall k, k ∈ cells b -> view s k = None.

(** A buffer that communicator [c] handed out. *)
Record member c b : Prop := {
  member_id : communicator_id b = id c;
  member_world : length (buffers b) = world_size c;
  member_distinct : NoDup (cells b);
}.

Record distributed s c b x : Prop := {
  dist_member : member c b;
  dist_holds : forall r ctx bf,
    contexts c !! r = Some ctx -> buffers b !! r = Some bf -> holds s ctx bf (x r);
  dist_length : forall r, (r < world_size c)%nat -> length (x r) = length_per_rank b;
}.

Definition set_rank x (r : nat) (l : list T) : nat -> list T :=
  fun r' => if (r' =? r)%nat then l else x r'.

Lemma distributed_ext s c b x y :
  (forall r, (r < world_size c)%nat -> x r = y r) -> distributed s c b x -> distributed s c b y.
Proof using Type.
  intros Hxy [Hm Hh Hl]. split; [done| |].
  - intros r ctx bf Hctx Hbf. rewrite <- Hxy by by eapply lookup_lt_Some. eauto.
  - intros r Hr. rewrite <- Hxy by done. eauto.
Qed.

Lemma distributed_lookup s c b x r :
  distributed s c b x -> (r < world_size c)%nat ->
  exists ctx bf, contexts c !! r = Some ctx /\ buffers b !! r = Some bf /\
    holds s ctx bf (x r) /\ buffer_len bf = length_per_rank b.
Proof using Type.
  intros [Hm Hh Hl] Hr. destruct (lookup_lt_is_Some_2 (contexts c) r Hr) as [ctx Hctx].
  destruct (lookup_lt_is_Some_2 (buffers b) r) as [bf Hbf]; [by rewrite (member_world _ _ Hm)|].
  pose proof (Hh _ _ _ Hctx Hbf) as Hholds. exists ctx, bf. repeat split; try done; try apply Hholds.
  rewrite <- (holds_length _ _ _ _ Hholds). auto.
Qed.

Lemma distributed_unchanged s s' c b x :
  distributed s c b x -> unchanged s s' -> distributed s' c b x.
Proof using Type.
  intros [Hm Hh Hl] Hu. split; [done| |done]. intros. eapply holds_unchanged; [|done]. eauto.
Qed.

Lemma cells_lookup b r bf : buffers b !! r = Some bf -> cells b !! r = Some (cell bf).
Proof using Type. intros Hr. unfold cells. by rewrite list_lookup_fmap, Hr. Qed.

Lemma cells_elem b r bf : buffers b !! r = Some bf -> cell bf ∈ cells b.
Proof using Type. intros. eapply list_elem_of_lookup_2. by apply cells_lookup. Qed.

Lemma distributed_write s s' c b x r bf l :
  distributed s c b x -> buffers b !! r = Some bf -> updated s (cell bf) l s' ->
  length l = length_per_rank b -> distributed s' c b (set_rank x r l).
Proof using Type.
  intros [Hm Hh Hl] Hbf Hu Hlen. split; [done| |].
  - intros r' ctx bf' Hctx Hbf'. pose proof (Hh _ _ _ Hctx Hbf') as Hr'.
    unfold set_rank. destruct (Nat.eqb_spec r' r) as [->|Hne].
    + rewrite Hbf in Hbf'. injection Hbf' as <-. eapply holds_updated; [done|done|].
      rewrite Hlen. symmetry. apply Hl. by eapply lookup_lt_Some.
    + eapply holds_other; [done|done|]. intros Heq. apply Hne.
      eapply NoDup_lookup; [apply (member_distinct _ _ Hm)|by apply cells_lookup|].
      rewrite Heq. by apply cells_lookup.
  - intros r' Hr'. unfold set_rank. destruct (r' =? r)%nat; [done|auto].
Qed.

Lemma distributed_other s s' c b x k l :
  distributed s c b x -> updated s k l s' -> k ∉ cells b -> distributed s' c b x.
Proof using Type.
  intros [Hm Hh Hl] Hu Hk. split; [done| |done]. intros r ctx bf Hctx Hbf.
  eapply holds_other; [eauto|done|]. intros <-. apply Hk. by eapply cells_elem.
Qed.

Lemma distributed_preserved s s' c b x mine :
  distributed s c b x -> preserves mine s s' -> (forall k, k ∈ cells b -> k ∉ mine) ->
  distributed s' c b x.
Proof using Type.
  intros [Hm Hh Hl] Hp Hk. split; [done| |done]. intros r ctx bf Hctx Hbf.
  destruct (Hh _ _ _ Hctx Hbf) as [Hu Hv Hn]. split; [done| |done].
  apply Hp; [done|]. apply Hk. by eapply cells_elem.
Qed.

Lemma distributed_live s c b x k : distributed s c b x -> k ∈ cells b -> view s k <> None.
Proof using Type.
  intros Hd (r & Hr)%list_elem_of_lookup. unfold cells in Hr.
  rewrite list_lookup_fmap in Hr. destruct (buffers b !! r) as [bf|] eqn:Hbf; [|done].
  injection Hr as <-. destruct (distributed_lookup _ _ _ _ r Hd) as (ctx & bf' & Hctx & Hbf' & Hh & _).
  { rewrite <- (member_world _ _ (dist_member _ _ _ _ Hd)). by eapply lookup_lt_Some. }
  rewrite Hbf in Hbf'. injection Hbf' as <-. by rewrite (holds_view _ _ _ _ Hh).
Qed.

(** A buffer allocated after [s] shares no cell with one that was live. *)
Lemma fresh_disjoint s c b b' x k :
  distributed s c b x -> fresh s b' -> k ∈ cells b' -> k ∉ cells b.
Proof using Type. intros Hd Hf Hk Hk'. eapply distributed_live; [done|done|]. by apply Hf. Qed.

(** The state while the ranks write, [r] of them done. *)
Definition partly x x' (r : nat) : nat -> list T :=
  fun r' => if (r' <? r)%nat then x' r' else x r'.

Lemma partly_write s c b x x' r bf l s' :
  distributed s c b (partly x x' r) -> buffers b !! r = Some bf -> updated s (cell bf) l s' ->
  l = x' r -> length l = length_per_rank b -> distributed s' c b (partly x x' (r + 1)).
Proof using Type.
  intros Hd Hbf Hu -> Hl. eapply distributed_ext; [|by eapply distributed_write].
  intros r' Hr'. unfold partly, set_rank.
  destruct (Nat.eqb_spec r' r) as [->|Hne]; [by rewrite (proj2 (Nat.ltb_lt _ _)) by lia|].
  destruct (Nat.ltb_spec r' r), (Nat.ltb_spec r' (r + 1)); (done || lia).
Qed.

Lemma partly_skip s c b x x' r :
  distributed s c b (partly x x' r) -> x' r = x r -> distributed s c b (partly x x' (r + 1)).
Proof using Type.
  intros Hd Heq. eapply distributed_ext; [|done]. intros r' Hr'. unfold partly.
  destruct (Nat.ltb_spec r' r), (Nat.ltb_spec r' (r + 1)); try done; [lia|].
  by replace r' with r by lia.
Qed.

Lemma partly_at x x' r : partly x x' r r = x r.
Proof using Type. unfold partly. by rewrite Nat.ltb_irrefl. Qed.

Lemma partly_done s c b x x' :
  distributed s c b (partly x x' (world_size c)) -> distributed s c b x'.
Proof using Type.
  intros Hd. eapply distributed_ext; [|done]. intros r Hr. unfold partly.
  by rewrite (proj2 (Nat.ltb_lt _ _)).
Qed.

Lemma partly_none s c b x x' : distributed s c b x -> distributed s c b (partly x x' 0).
Proof using Type. intros Hd. by eapply distributed_ext; [|done]. Qed.

Lemma preserves_refl mine s : preserves mine s s.
Proof using Type. by intros k l. Qed.

Lemma preserves_unchanged mine s s' s'' :
  preserves mine s s' -> unchanged s' s'' -> preserves mine s s''.
Proof using Type. intros Hp Hu k l Hk Hm. rewrite (Hu k). by apply Hp. Qed.

Lemma preserves_updated mine s s' s'' k l :
  preserves mine s s' -> updated s' k l s'' -> k ∈ mine \/ view s k = None ->
  preserves mine s s''.
Proof using Type.
  intros Hp Hu Hk k' l' Hk' Hm. rewrite (updated_other _ _ _ _ _ Hu); [by apply Hp|].
  intros ->. destruct Hk as [Hk|Hk]; [done|]. by rewrite Hk in Hk'.
Qed.

Lemma preserves_trans mine s s' s'' :
  preserves mine s s' -> preserves mine s' s'' -> preserves mine s s''.
Proof using Type. intros Hp Hp' k l Hk Hm. apply Hp'; [|done]. by apply Hp. Qed.

Lemma preserves_fresh mine s s' s'' b :
  preserves [] s s' -> preserves (mine ++ cells b) s' s'' -> fresh s b -> preserves mine s s''.
Proof using Type.
  intros Hp Hp' Hf k l Hk Hm. apply Hp'.
  - apply Hp; [done|]. apply not_elem_of_nil.
  - rewrite elem_of_app. intros [?|Hin]; [done|]. by rewrite (Hf _ Hin) in Hk.
Qed.

(** ** Rules for the operations *)
Lemma wp_on_device {A} (m : comp Store DeviceError A) Q s :
  wp device_error m Q s -> wp in_error (on_device m) Q s.
Proof using Type. apply wp_map_err. done. Qed.

Lemma wp_check {A} (m : outcome InProcessError.t A) a (Q : A -> Store -> Prop) s :
  m = Ok a -> Q a s -> wp in_error (check m) Q s.
Proof using Type. intros ->. done. Qed.

Lemma wp_context c r ctx (Q : DeviceContext -> Store -> Prop) s :
  contexts c !! r = Some ctx -> Q ctx s -> wp in_error (context c r) Q s.
Proof using Type. intros Hctx HQ. unfold context. rewrite Hctx. done. Qed.

Lemma wp_validate_buffer c b (Q : unit -> Store -> Prop) s :
  member c b -> Q tt s -> wp in_error (validate_buffer c b) Q s.
Proof using Type.
  intros [Hid Hw _] HQ. unfold validate_buffer, buffer_world_size.
  rewrite Hid, Hw, Z.eqb_refl, Nat.eqb_refl. done.
Qed.

Lemma wp_download_rank c b x r (Q : list T -> Store -> Prop) s :
  distributed s c b x -> (r < world_size c)%nat ->
  (forall s', unchanged s s' -> Q (x r) s') ->
  wp in_error (download_rank c b r) Q s.
Proof using Type*.
  intros Hd Hr HQ. unfold download_rank. apply wp_bind.
  apply wp_validate_buffer; [apply Hd|]. cbv beta.
  destruct (distributed_lookup _ _ _ _ _ Hd Hr) as (ctx & bf & Hctx & Hbf & Hh & Hlen).
  apply wp_bind. eapply wp_context; [done|]. cbv beta.
  apply wp_bind. eapply wp_check; [by rewrite Hbf|]. cbv beta.
  apply wp_on_device. eapply wp_mono; [by eapply law_copy_from_device|].
  intros v s' [-> Hu]. by apply HQ.
Qed.

(** One buffer per context. *)
Definition as_buffer c (n : nat) (bs : list Buffer) : DistributedBuffer :=
  {| communicator_id := id c; buffers := bs; length_per_rank := n |}.

Lemma wp_alloc_all c n (Q : list Buffer -> Store -> Prop) s :
  (forall ctx, ctx ∈ contexts c -> allocatable ctx n) ->
  (forall bs s' x, distributed s' c (as_buffer c n bs) x -> fresh s (as_buffer c n bs) ->
    preserves [] s s' -> Q bs s') ->
  wp in_error (collect (fun ctx => on_device (alloc ctx n)) (contexts c)) Q s.
Proof using Type*.
  intros Halloc HQ. apply (wp_collect_acc (fun bs s' => preserves [] s s' /\
    NoDup (cell <$> bs) /\ (forall k, k ∈ cell <$> bs -> view s k = None) /\
    (forall bf, bf ∈ bs -> buffer_len bf = n) /\
    (forall r ctx bf, contexts c !! r = Some ctx -> bs !! r = Some bf ->
      exists l, holds s' ctx bf l))).
  - split; [apply preserves_refl|]. split; [constructor|]. cbn.
    repeat split; intros; set_solver.
  - intros ctx bs s' Hctx (Hp & Hnd & Hfr & Hlen & Hh). apply wp_on_device.
    eapply wp_mono; [apply law_alloc, Halloc; by eapply list_elem_of_lookup_2|].
    intros bf s'' (Hu & Hn & Hnew & l & Hl & Hup).
    assert (Hold : view s (cell bf) = None).
    { destruct (view s (cell bf)) as [l'|] eqn:Hv; [|done].
      rewrite (Hp _ _ Hv) in Hnew by set_solver. done. }
    assert (Hnin : cell bf ∉ cell <$> bs).
    { intros (bf' & Heq & Hin)%list_elem_of_fmap. apply list_elem_of_lookup in Hin as [r Hr].
      destruct (lookup_lt_is_Some_2 (contexts c) r) as [ctx' Hctx'].
      { apply lookup_lt_Some in Hr. apply lookup_lt_Some in Hctx. lia. }
      destruct (Hh _ _ _ Hctx' Hr) as [l' Hl']. rewrite Heq in Hnew.
      by rewrite (holds_view _ _ _ _ Hl') in Hnew. }
    rewrite fmap_app. cbn. split; [|split; [|split; [|split]]].
    + eapply preserves_updated; [done|done|by right].
    + apply NoDup_app. repeat split; [done| |apply NoDup_singleton]. set_solver.
    + intros k. rewrite elem_of_app, list_elem_of_singleton. intros [Hk| ->]; auto.
    + intros bf'. rewrite elem_of_app, list_elem_of_singleton. intros [Hk| ->]; auto.
    + intros r ctx' bf' Hctx' [Hr|[-> ->]]%lookup_snoc_Some.
      * destruct (Hh _ _ _ Hctx' (proj2 Hr)) as [l' Hl']. exists l'.
        eapply holds_other; [done|done|]. intros Heq. apply Hnin. rewrite <- Heq.
        apply list_elem_of_fmap_2. eapply list_elem_of_lookup_2. apply Hr.
      * rewrite Hctx in Hctx'. injection Hctx' as ->. exists l. split; [done| |congruence].
        by eapply updated_same.
  - intros bs s' Hlen (Hp & Hnd & Hfr & Hn & Hh).
    apply (HQ bs s' (fun r => match bs !! r with Some bf => default [] (view s' (cell bf)) | None => [] end)); [|done|done].
    assert (Hcell : forall r ctx bf, contexts c !! r = Some ctx -> bs !! r = Some bf ->
      holds s' ctx bf (default [] (view s' (cell bf)))).
    { intros r ctx bf Hctx Hbf. destruct (Hh _ _ _ Hctx Hbf) as [l Hl].
      rewrite (holds_view _ _ _ _ Hl). done. }
    split.
    + by split.
    + intros r ctx bf Hctx Hbf. cbn in Hbf. rewrite Hbf. eauto.
    + intros r Hr. destruct (lookup_lt_is_Some_2 (contexts c) r Hr) as [ctx Hctx].
      destruct (lookup_lt_is_Some_2 bs r) as [bf Hbf]; [by rewrite Hlen|]. rewrite Hbf. cbn.
      rewrite (holds_length _ _ _ _ (Hcell _ _ _ Hctx Hbf)). apply Hn. by eapply list_elem_of_lookup_2.
Qed.

Lemma wp_allocate c n (Q : DistributedBuffer -> Store -> Prop) s :
  (forall ctx, ctx ∈ contexts c -> allocatable ctx n) ->
  (forall b s' x, distributed s' c b x -> length_per_rank b = n -> fresh s b ->
    preserves [] s s' -> Q b s') ->
  wp in_error (allocate c n) Q s.
Proof using Type*.
  intros Halloc HQ. unfold allocate. apply wp_bind, wp_alloc_all; [done|].
  intros bs s' x Hd Hf Hp. apply wp_ret. by eapply HQ.
Qed.

(** The rank's context and buffer, by index. *)
Lemma wp_rank {A} c b x r (m : DeviceContext -> Buffer -> run A) Q s :
  distributed s c b x -> (r < world_size c)%nat ->
  (forall ctx bf, contexts c !! r = Some ctx -> buffers b !! r = Some bf ->
    holds s ctx bf (x r) -> buffer_len bf = length_per_rank b -> wp in_error (m ctx bf) Q s) ->
  wp in_error (ctx ← check (index (contexts c) r); bf ← check (index (buffers b) r); m ctx bf) Q s.
Proof using Type.
  intros Hd Hr Hm. destruct (distributed_lookup _ _ _ _ _ Hd Hr) as (ctx & bf & Hctx & Hbf & Hh & Hl).
  apply wp_bind. eapply wp_check; [by apply index_Ok|]. cbv beta.
  apply wp_bind. eapply wp_check; [by apply index_Ok|]. cbv beta. by apply Hm.
Qed.

(** Writing rank [r] of a loop over the ranks. *)
Lemma wp_write_rank c b x x' r ctx bf s0 s own :
  distributed s c b (partly x x' r) -> preserves own s0 s ->
  contexts c !! r = Some ctx -> buffers b !! r = Some bf -> cell bf ∈ own \/ view s0 (cell bf) = None ->
  length (x' r) = length_per_rank b ->
  wp in_error (on_device (copy_to_device ctx bf (x' r))) (fun _ s' =>
    distributed s' c b (partly x x' (r + 1)) /\ preserves own s0 s' /\
    updated s (cell bf) (x' r) s') s.
Proof using H1.
  intros Hd Hp Hctx Hbf Hown Hl. pose proof (lookup_lt_Some _ _ _ Hctx) as Hr.
  pose proof (dist_holds _ _ _ _ Hd _ _ _ Hctx Hbf) as Hh.
  apply wp_on_device. eapply wp_mono; [eapply law_copy_to_device; [exact Hh|]|].
  - rewrite <- (holds_length _ _ _ _ Hh), (dist_length _ _ _ _ Hd _ Hr). done.
  - intros u s' Hu. split; [|split; [|exact Hu]].
    2: { eapply preserves_updated; [exact Hp|exact Hu|exact Hown]. }
    eapply partly_write; [exact Hd|exact Hbf|exact Hu|done|done].
Qed.

(** ** Buffers at one rank *)
Record rooted s c (rb : RootedBuffer) (ctx : DeviceContext) (l : list T) : Prop := {
  rooted_member : rooted_id rb = id c;
  rooted_context : contexts c !! root rb = Some ctx;
  rooted_holds : holds s ctx (buffer rb) l;
}.

Lemma wp_alloc c r ctx n (Q : Buffer -> Store -> Prop) s :
  contexts c !! r = Some ctx -> allocatable ctx n ->
  (forall bf s' l, holds s' ctx bf l -> length l = n -> buffer_len bf = n ->
    view s (cell bf) = None -> updated s (cell bf) l s' -> Q bf s') ->
  wp in_error (on_device (alloc ctx n)) Q s.
Proof using H1.
  intros Hctx Hn HQ. apply wp_on_device. eapply wp_mono; [by apply law_alloc|].
  intros bf s' (Hu & Hl & Hnew & l & Hlen & Hup). eapply (HQ bf s' l); try done.
  split; [done| |congruence]. by eapply updated_same.
Qed.

Lemma wp_allocate_rooted c r ctx n (Q : RootedBuffer -> Store -> Prop) s :
  contexts c !! r = Some ctx -> allocatable ctx n ->
  (forall rb s' l, rooted s' c rb ctx l -> root rb = r -> length l = n -> buffer_len (buffer rb) = n ->
    view s (cell (buffer rb)) = None -> updated s (cell (buffer rb)) l s' -> Q rb s') ->
  wp in_error (allocate_rooted c r n) Q s.
Proof using H1.
  intros Hctx Hn HQ. unfold allocate_rooted. apply wp_bind. eapply wp_context; [done|].
  apply wp_bind. eapply wp_alloc; [done|done|]. intros bf s' l Hh Hl Hbl Hnew Hu.
  apply wp_ret. by eapply HQ.
Qed.

Lemma cells_fresh_cell s c b x bf : distributed s c b x -> view s (cell bf) = None -> cell bf ∉ cells b.
Proof using Type. intros Hd Hv Hin. by eapply distributed_live. Qed.
End theory.
