(* ===== verification/InProcessReduction.v ===== *)
(** * Ring reductions: src/src/in_process/collective/reduction.rs

    [reduce_sum], [all_reduce_sum] and [reduce_scatter_sum], with the loops,
    the staging and the scratch buffers of the source.  The theorems give the
    exact order of the additions, so they hold for floating-point elements
    too, and prove that every rank ends with the same values. *)
From S2P Require Import Prelude Protocol Errors Layout Ring Comp Device InProcess.

(** ** Definitions *)
Definition gx_kernels : InProcessError.t :=
  InProcessError.InvalidLength "GX kernels use u32 element indices".

Definition u32_try_from {E} (n : nat) (e : E) : outcome E nat :=
  if Z.of_nat n <? 2 ^ 32 then Ok n else Err e.

(** [n as u32] *)
Definition as_u32 (n : nat) : nat := Z.to_nat (wrap 32 (Z.of_nat n)).

(** [(rank + world_size - b1 - b2 - ...) % world_size] *)
Definition ring_index {E} (rank world_size : nat) (backs : list nat) : outcome E nat :=
  sum ← add_usize rank world_size;
  n ← foldM sub_usize sum backs;
  rem_usize n world_size.

Definition max_len (chunks : list (nat * nat)) : nat := foldr Nat.max 0%nat (map range_len chunks).

Section definitions.
Context {T : Type} `{InProcessDevice T}.

(** What every rank sends in one step of a ring. *)
Definition stage_chunks (c : InProcessCollective) (b : DistributedBuffer)
    (chunks : list (nat * nat)) (backs : list nat) : run (list (list T)) :=
  collect (fun rank =>
    send_chunk ← check (ring_index rank (world_size c) backs);
    range ← check (index chunks send_chunk);
    ctx ← check (index (contexts c) rank);
    bf ← check (index (buffers b) rank);
    on_device (copy_from_device_at ctx bf range.1 (range_len range)))
    (seq 0 (world_size c)).

(** One step of the reducing ring, at one rank; [write_scratch] is
    [copy_to_device_at] with offset 0 in [all_reduce_sum] and [copy_to_device]
    in [reduce_scatter_sum]. *)
Definition reduce_rank (write_scratch : DeviceContext -> Buffer -> list T -> comp Store DeviceError unit)
    (c : InProcessCollective) (b : DistributedBuffer) (chunks : list (nat * nat))
    (function : Kernel) (staged : list (list T)) (step : nat) (stats : CollectiveStats)
    (p : nat * Buffer) : run CollectiveStats :=
  let '(rank, scratch_buffer) := p in
  source_rank ← check (ring_index rank (world_size c) [1%nat]);
  receive_chunk ← check (ring_index rank (world_size c) [step; 2%nat]);
  range ← check (index chunks receive_chunk);
  if (range_len range =? 0)%nat then mret stats else
  ctx ← check (index (contexts c) rank);
  values ← check (index staged source_rank);
  _ ← on_device (write_scratch ctx scratch_buffer values);
  let launch := prepare_reduction (as_u32 (range_len range)) (as_u32 range.1) in
  bf ← check (index (buffers b) rank);
  _ ← on_device (launch_reduction ctx function launch scratch_buffer bf);
  check (add_launch stats).

Definition reduce_step (write_scratch : DeviceContext -> Buffer -> list T -> comp Store DeviceError unit)
    (c : InProcessCollective) (b : DistributedBuffer) (chunks : list (nat * nat))
    (scratch : list Buffer) (function : Kernel) (stats : CollectiveStats) (step : nat) :
    run CollectiveStats :=
  staged ← stage_chunks c b chunks [step; 1%nat];
  stats ← loop (reduce_rank write_scratch c b chunks function staged step) stats (enumerate scratch);
  check (add_step stats).

(** One step of the copying ring of [all_reduce_sum]. *)
Definition gather_rank (c : InProcessCollective) (b : DistributedBuffer)
    (chunks : list (nat * nat)) (staged : list (list T)) (step rank : nat) : run unit :=
  source_rank ← check (ring_index rank (world_size c) [1%nat]);
  receive_chunk ← check (ring_index rank (world_size c) [step; 1%nat]);
  range ← check (index chunks receive_chunk);
  if (range_len range =? 0)%nat then mret tt else
  ctx ← check (index (contexts c) rank);
  bf ← check (index (buffers b) rank);
  values ← check (index staged source_rank);
  on_device (copy_to_device_at ctx bf range.1 values).

Definition gather_step (c : InProcessCollective) (b : DistributedBuffer)
    (chunks : list (nat * nat)) (stats : CollectiveStats) (step : nat) : run CollectiveStats :=
  staged ← stage_chunks c b chunks [step];
  _ ← for_each (gather_rank c b chunks staged step) (seq 0 (world_size c));
  check (add_step stats).

Definition all_reduce_sum (c : InProcessCollective) (b : DistributedBuffer) (function : Kernel) :
    run CollectiveStats :=
  _ ← validate_buffer c b;
  let stats := stats_new Ring in
  if (world_size c =? 1)%nat then mret stats else
  length_u32 ← check (u32_try_from (length_per_rank b) gx_kernels);
  chunks ← check (ring_chunks length_u32 (world_size c));
  let max_chunk := max_len chunks in
  scratch ← collect (fun ctx => on_device (alloc ctx (max_chunk `max` 1))) (contexts c);
  n ← check (sub_usize (world_size c) 1);
  stats ← loop (reduce_step (fun ctx bf values => copy_to_device_at ctx bf 0 values)
                  c b chunks scratch function) stats (seq 0 n);
  stats ← loop (gather_step c b chunks) stats (seq 0 n);
  transfers ← check (mul_usize 2 n);
  bytes ← check (transferred_bytes (Z.of_nat transfers) (Z.of_nat (length_per_rank b))
                   (Z.of_nat ELEMENT_SIZE));
  mret (set_bytes bytes stats).

Definition reduce_sum (c : InProcessCollective) (input : DistributedBuffer) (root : nat)
    (function : Kernel) : run (RootedBuffer * CollectiveStats) :=
  _ ← validate_buffer c input;
  root_context ← context c root;
  output ← allocate_rooted c root (length_per_rank input);
  root_values ← download_rank c input root;
  _ ← on_device (copy_to_device root_context (buffer output) root_values);
  if (length_per_rank input =? 0)%nat then mret (output, stats_new Direct) else
  scratch ← on_device (alloc root_context (length_per_rank input));
  length ← check (u32_try_from (length_per_rank input) gx_kernels);
  let launch := prepare_reduction length 0 in
  stats ← loop (fun stats rank =>
    if (rank =? root)%nat then mret stats else
    values ← download_rank c input rank;
    _ ← on_device (copy_to_device root_context scratch values);
    _ ← on_device (launch_reduction root_context function launch scratch (buffer output));
    stats ← check (add_step stats);
    check (add_launch stats)) (stats_new Direct) (seq 0 (world_size c));
  bytes ← check (transferred_bytes (Z.of_nat (world_size c - 1)) (Z.of_nat (length_per_rank input))
                   (Z.of_nat ELEMENT_SIZE));
  mret (output, set_bytes bytes stats).

Definition reduce_scatter_sum (c : InProcessCollective) (input : DistributedBuffer)
    (function : Kernel) : run (DistributedBuffer * CollectiveStats) :=
  _ ← validate_buffer c input;
  _ ← check (fail_if (negb (is_multiple_of (Z.of_nat (length_per_rank input)) (Z.of_nat (world_size c))))
        (InProcessError.InvalidLength "reduce-scatter input length must be divisible by world size"));
  output_length ← check (div_usize (length_per_rank input) (world_size c));
  length_u32 ← check (u32_try_from (length_per_rank input) gx_kernels);
  chunks ← check (ring_chunks length_u32 (world_size c));
  working ← allocate c (length_per_rank input);
  _ ← for_each (fun rank =>
    values ← download_rank c input rank;
    ctx ← check (index (contexts c) rank);
    bf ← check (index (buffers working) rank);
    on_device (copy_to_device ctx bf values)) (seq 0 (world_size c));
  scratch ← collect (fun ctx => on_device (alloc ctx output_length)) (contexts c);
  stats ← loop (reduce_step copy_to_device c working chunks scratch function)
    (stats_new Ring) (seq 0 (world_size c - 1));
  output ← allocate c output_length;
  _ ← for_each (fun '(rank, range) =>
    ctx ← check (index (contexts c) rank);
    bf ← check (index (buffers working) rank);
    reduced ← on_device (copy_from_device_at ctx bf range.1 (range_len range));
    out ← check (index (buffers output) rank);
    on_device (copy_to_device ctx out reduced)) (enumerate chunks);
  bytes ← check (transferred_bytes (Z.of_nat (world_size c - 1)) (Z.of_nat (length_per_rank input))
                   (Z.of_nat ELEMENT_SIZE));
  mret (output, set_bytes bytes stats).
End definitions.

(** ** Index arithmetic and chunks *)
Lemma ring_index_ok {E} rank w backs :
  (0 < w)%nat -> fits_usize (rank + w) -> (list_sum backs <= rank + w)%nat ->
  ring_index (E:=E) rank w backs = Ok ((rank + w - list_sum backs) mod w)%nat.
Proof.
  intros Hw Hfit Hle. unfold ring_index. rewrite add_usize_ok by done. cbn [mbind outcome_bind].
  assert (Hfold : forall n, (list_sum backs <= n)%nat ->
    foldM (E:=E) sub_usize n backs = Ok (n - list_sum backs)%nat).
  { clear Hle. induction backs as [|k backs IH]; intros n Hn; unfold list_sum in *; cbn [fold_right foldM] in *; [by rewrite Nat.sub_0_r|].
    rewrite sub_usize_ok by lia. cbn [mbind outcome_bind]. rewrite IH by lia. by rewrite Nat.sub_add_distr. }
  rewrite Hfold by done. cbn [mbind outcome_bind]. by apply rem_usize_ok.
Qed.

Lemma ring_chunks_ok len w :
  (0 < w)%nat ->
  ring_chunks len w =
    Ok (map (fun k => (part_start len w k, part_start len w (S k))) (seq 0 w)).
Proof.
  intros Hw. unfold ring_chunks. rewrite (proj2 (Nat.eqb_neq w 0)) by lia.
  cbn [fail_if mbind outcome_bind]. f_equal. apply (balanced_ranges_from len w 0).
Qed.

Lemma u32_try_from_ok {E} n (e : E) : Z.of_nat n < 2 ^ 32 -> u32_try_from n e = Ok n.
Proof. intros. unfold u32_try_from. by rewrite (proj2 (Z.ltb_lt _ _)). Qed.

Lemma as_u32_id n : Z.of_nat n < 2 ^ 32 -> as_u32 n = n.
Proof. intros. unfold as_u32. rewrite wrap_in by (unfold in_width; lia). lia. Qed.

Lemma transferred_bytes_ok a b e :
  0 <= a -> 0 <= b -> 0 < e -> a * b * e < 2 ^ 64 -> transferred_bytes a b e = Ok (a * b * e).
Proof.
  intros Ha Hb He Hfit. unfold transferred_bytes, checked_mul.
  assert (0 <= a * b) by nia. assert (a * b <= a * b * e) by nia.
  rewrite checked_in by (unfold in_width; lia). cbn [mbind option_bind].
  rewrite checked_in by (unfold in_width; lia). done.
Qed.

Lemma max_len_le chunks n : Forall (fun r => (range_len r <= n)%nat) chunks -> (max_len chunks <= n)%nat.
Proof. unfold max_len. induction 1; cbn; lia. Qed.

Lemma max_len_ge chunks r : r ∈ chunks -> (range_len r <= max_len chunks)%nat.
Proof.
  unfold max_len. induction 1 as [r chunks|r r' chunks _ IH]; cbn; [lia|]. lia.
Qed.

(** ** A step of the ring *)
Section steps.
Context {T : Type} `{DeviceLaws T}.
Context (c : InProcessCollective) (len : nat).
Let w := world_size c.
Let start := part_start len w.
Let chunks := map (fun k => (start k, start (S k))) (seq 0 w).

(** The sizes for which no counter overflows. *)
Record ring_sizes : Prop := {
  ring_world : (0 < w)%nat;
  ring_counters : Z.of_nat (w * w) < 2 ^ 32;
  ring_len : Z.of_nat len < 2 ^ 32;
}.
Hypothesis (Hsizes : ring_sizes).

Lemma start_mono j k : (j <= k)%nat -> (start j <= start k)%nat.
Proof using Type. apply part_start_mono. Qed.

Lemma start_all : start w = len.
Proof using Hsizes. apply part_start_all, Hsizes. Qed.

Lemma lookup_chunks k : (k < w)%nat -> chunks !! k = Some (start k, start (S k)).
Proof using Type. intros Hk. unfold chunks. by rewrite list_lookup_fmap, lookup_seq_lt. Qed.

Lemma range_len_chunk k : range_len (start k, start (S k)) = part_len start k.
Proof using Type. done. Qed.

Lemma fits_index rank : (rank < w)%nat -> fits_usize (rank + w).
Proof using Hsizes. intros. pose proof (ring_counters Hsizes). unfold fits_usize. nia. Qed.

Lemma mod_world n : (n mod w < w)%nat.
Proof using Hsizes. apply Nat.mod_upper_bound. pose proof (ring_world Hsizes). lia. Qed.

(** What the ranks hold, chunk by chunk. *)
Definition chunk_of (x : nat -> list T) (r k : nat) : list T := part start k (x r).

Lemma wp_stage_chunks b x backs (Q : list (list T) -> Store -> Prop) s :
  distributed s c b x -> length_per_rank b = len -> (list_sum backs <= w)%nat ->
  (forall staged s', length staged = w ->
    (forall r, (r < w)%nat -> staged !! r = Some (chunk_of x r ((r + w - list_sum backs) mod w)%nat)) ->
    unchanged s s' -> Q staged s') ->
  wp in_error (stage_chunks c b chunks backs) Q s.
Proof using Hsizes H1.
  intros Hd Hlen Hbacks HQ. unfold stage_chunks. fold w.
  apply (wp_collect (fun _ s' => unchanged s s')
    (fun r v => v = chunk_of x r ((r + w - list_sum backs) mod w)%nat)); [done| |].
  - intros r s' Hr Hu. pose proof (distributed_unchanged _ _ _ _ _ Hd Hu) as Hd'.
    destruct (distributed_lookup _ _ _ _ r Hd' Hr) as (ctx & bf & Hctx & Hbf & Hh & Hn).
    set (k := ((r + w - list_sum backs) mod w)%nat).
    assert (Hk : (k < w)%nat) by apply mod_world.
    apply wp_bind. eapply wp_check.
    { apply ring_index_ok; [apply Hsizes|by apply fits_index|lia]. }
    cbv beta. fold w k. apply wp_bind. eapply wp_check; [by apply index_Ok, lookup_chunks|]. cbv beta.
    apply wp_bind. eapply wp_check; [by apply index_Ok|]. cbv beta.
    apply wp_bind. eapply wp_check; [by apply index_Ok|]. cbv beta.
    apply wp_on_device. eapply wp_mono; [eapply law_copy_from_device_at; [done|]|].
    { rewrite range_len_chunk, Hn, Hlen, <- start_all. cbn [fst].
      apply (part_bound start w start_mono); [done|lia]. }
    intros v s'' [-> Hu']. split; [done|]. intros k'. by rewrite (Hu' k'), (Hu k').
  - intros ys s' Hys HP Hu. apply HQ; [done| |done]. intros r Hr.
    destruct (lookup_lt_is_Some_2 ys r) as [y Hy]; [lia|]. rewrite Hy. f_equal. by apply HP.
Qed.

(** *** One reducing step *)
Context (b : DistributedBuffer) (n : nat) (scratch : list Buffer) (f : Kernel).
Let sb := as_buffer c n scratch.
Context (write : DeviceContext -> Buffer -> list T -> comp Store DeviceError unit).
Hypothesis (Hblen : length_per_rank b = len)
  (Hdisjoint : forall k, k ∈ cells sb -> k ∉ cells b)
  (Hcomputes : forall ctx, ctx ∈ contexts c -> computes ctx f)
  (Hfit : forall k, (k < w)%nat -> (part_len start k <= n)%nat)
  (Hwrite : forall ctx bf l k values s,
    holds s ctx bf l -> buffer_len bf = n -> (k < w)%nat -> part_len start k <> 0%nat ->
    length values = part_len start k ->
    wp device_error (write ctx bf values) (fun _ s' => exists l',
      length l' = n /\ sub 0 (length values) l' = values /\ updated s (cell bf) l' s') s).

Definition received (step r : nat) : nat := ((r + w - step - 2) mod w)%nat.

(** What rank [r] holds after the step. *)
Definition reduced_rank (x : nat -> list T) (step r : nat) : list T :=
  let k := received step r in
  put (start k) (zip_with (combine f) (chunk_of x r k) (chunk_of x (predecessor w r) k)) (x r).

Definition mine : list Cell := cells b ++ cells sb.

Record step_state (x z : nat -> list T) (s0 s : Store) : Prop := {
  step_buffer : distributed s c b x;
  step_scratch : distributed s c sb z;
  step_preserves : preserves mine s0 s;
}.

Lemma part_fits k : (k < w)%nat -> (start k + part_len start k <= len)%nat.
Proof using Hsizes.
  intros Hk. apply (part_bound start w start_mono); [done|]. by rewrite start_all.
Qed.

Lemma distributed_chunk s x r k :
  distributed s c b x -> (r < w)%nat -> (k < w)%nat ->
  length (chunk_of x r k) = part_len start k.
Proof using Hsizes Hblen.
  intros Hd Hr Hk. apply (length_part start w start_mono); [done|].
  rewrite start_all, (dist_length _ _ _ _ Hd r Hr). lia.
Qed.

Lemma reduced_rank_empty x s step r :
  distributed s c b x -> (r < w)%nat -> part_len start (received step r) = 0%nat ->
  reduced_rank x step r = x r.
Proof using Hsizes Hblen.
  intros Hd Hr Hempty. unfold reduced_rank.
  assert (Hnil : chunk_of x r (received step r) = []).
  { apply nil_length_inv. by rewrite (distributed_chunk _ _ _ (received step r) Hd Hr (mod_world _)). }
  rewrite Hnil. unfold put. cbn. by rewrite Nat.add_0_r, take_drop.
Qed.

Lemma length_reduced s x step r :
  distributed s c b x -> (r < w)%nat -> length (reduced_rank x step r) = len.
Proof using Hsizes Hblen.
  intros Hd Hr. unfold reduced_rank. set (k := received step r).
  assert (Hk : (k < w)%nat) by apply mod_world.
  rewrite length_put, (dist_length _ _ _ _ Hd r Hr); [done|].
  rewrite length_zip_with, (distributed_chunk _ _ _ _ Hd Hr Hk). pose proof (part_fits k Hk).
  rewrite (dist_length _ _ _ _ Hd r Hr). lia.
Qed.

Lemma wp_reduce_rank x z staged step stats r bf s1 s0 s :
  distributed s1 c b x -> (S step < w)%nat ->
  (forall r, (r < w)%nat ->
    staged !! r = Some (chunk_of x r ((r + w - list_sum [step; 1%nat]) mod w)%nat)) ->
  scratch !! r = Some bf -> 0 <= reduction_kernel_launches stats < 2 ^ 32 - 1 ->
  step_state (partly x (reduced_rank x step) r) z s0 s ->
  wp in_error (reduce_rank write c b chunks f staged step stats (r, bf)) (fun stats' s' => exists z' m,
    step_state (partly x (reduced_rank x step) (r + 1)) z' s0 s' /\
    stats' = set_launches m stats /\
    reduction_kernel_launches stats <= m <= reduction_kernel_launches stats + 1) s.
Proof using All.
  intros Hd0 Hstep Hstaged Hscratch Hcount [Hd Hz Hp].
  assert (Hr : (r < w)%nat).
  { replace w with (length (buffers sb)) by apply (member_world _ _ (dist_member _ _ _ _ Hz)).
    by eapply lookup_lt_Some. }
  set (k := received step r). assert (Hk : (k < w)%nat) by apply mod_world.
  assert (Hw : (0 < w)%nat) by apply Hsizes. pose proof (ring_len Hsizes) as Hlen32.
  assert (Hindex : ((r + w - list_sum [step; 2%nat]) mod w)%nat = received step r).
  { unfold received. f_equal. cbn. lia. }
  assert (Hpred : ((r + w - list_sum [1%nat]) mod w)%nat = predecessor w r) by done.
  assert (Hsend : ((predecessor w r + w - list_sum [step; 1%nat]) mod w)%nat = received step r).
  { unfold received. rewrite <- send_reduce by lia. f_equal. cbn. lia. }
  unfold reduce_rank. fold w. apply wp_bind. eapply wp_check.
  { apply ring_index_ok; [done|by apply fits_index|cbn; lia]. }
  cbv beta. apply wp_bind. eapply wp_check.
  { apply ring_index_ok; [done|by apply fits_index|cbn; lia]. }
  cbv beta. rewrite Hindex, Hpred. fold k.
  apply wp_bind. eapply wp_check; [by apply index_Ok, lookup_chunks|]. cbv beta.
  rewrite range_len_chunk. cbn [fst].
  destruct (Nat.eqb_spec (part_len start k) 0) as [Hempty|Hne].
  { apply wp_ret. exists z, (reduction_kernel_launches stats). split; [|split; [by destruct stats|lia]].
    split; [|done|done]. apply partly_skip; [done|]. by eapply reduced_rank_empty. }
  pose proof (part_fits k Hk) as Hkfit.
  destruct (distributed_lookup _ _ _ _ r Hd Hr) as (ctx & dst & Hctx & Hdst & Hhd & Hnd).
  rewrite partly_at in Hhd.
  assert (Hhs : holds s ctx bf (z r)) by by eapply (dist_holds _ _ _ _ Hz).
  assert (Hns : buffer_len bf = n).
  { rewrite <- (holds_length _ _ _ _ Hhs). by apply (dist_length _ _ _ _ Hz). }
  apply wp_bind. eapply wp_check; [by apply index_Ok|]. cbv beta.
  apply wp_bind. eapply wp_check; [apply index_Ok, Hstaged, predecessor_lt; done|]. cbv beta.
  rewrite Hsend. fold k.
  set (v := chunk_of x (predecessor w r) k).
  assert (Hv : length v = part_len start k).
  { eapply distributed_chunk; [done|by apply predecessor_lt|done]. }
  apply wp_bind, wp_on_device. eapply wp_mono; [by eapply (Hwrite _ _ _ k)|].
  intros _ s' (l' & Hl' & Hsub & Hu).
  apply wp_bind. eapply wp_check; [by apply index_Ok|]. cbv beta.
  assert (Hcell : cell dst <> cell bf).
  { intros Heq. apply (Hdisjoint (cell bf)); [by eapply cells_elem|].
    rewrite <- Heq. by eapply cells_elem. }
  pose proof (holds_other _ _ _ _ _ _ _ Hhd Hu Hcell) as Hhd'.
  pose proof (holds_updated _ _ _ _ _ _ Hhs Hu) as Hhs'.
  rewrite !as_u32_id by lia. apply wp_bind, wp_on_device.
  eapply wp_mono; [eapply law_launch_reduction; [|apply Hhs'|exact Hhd'|congruence| |]|].
  - apply Hcomputes. by eapply list_elem_of_lookup_2.
  - rewrite (dist_length _ _ _ _ Hz r Hr). exact Hl'.
  - rewrite Hns. by apply Hfit.
  - rewrite Hnd. lia.
  - intros u s'' Hu'. eapply wp_check; [by apply add_launch_ok|].
    exists (set_rank z r l'), (reduction_kernel_launches stats + 1). split; [|split; [done|lia]].
    rewrite Hv in Hsub. split.
    + eapply partly_write; [|exact Hdst|exact Hu'| |].
      * eapply distributed_other; [exact Hd|done|]. apply Hdisjoint. by eapply cells_elem.
      * by rewrite Hsub.
      * rewrite Hsub. fold v. rewrite Hblen. by eapply (length_reduced s1).
    + eapply distributed_other; [eapply distributed_write; [exact Hz|exact Hscratch|exact Hu|done]|exact Hu'|].
      intros Hin. eapply Hdisjoint; [exact Hin|]. by eapply cells_elem.
    + eapply preserves_updated; [eapply preserves_updated; [exact Hp|exact Hu|]|exact Hu'|]; left.
      * apply elem_of_app. right. by eapply cells_elem.
      * apply elem_of_app. left. by eapply cells_elem.
Qed.

(** A step leaves what [ring_step] says in every chunk. *)
Lemma chunk_reduced s x step r k :
  distributed s c b x -> (r < w)%nat -> (k < w)%nat ->
  chunk_of (reduced_rank x step) r k =
    ring_step w (zip_with (combine f)) (received step) (chunk_of x) r k.
Proof using Hsizes Hblen.
  intros Hd Hr Hk. apply (part_ring_step start w start_mono); try done; [| |by apply mod_world].
  - intros r' Hr'. rewrite start_all, (dist_length _ _ _ _ Hd r' Hr'). lia.
  - intros l l' Hl. rewrite length_zip_with. lia.
Qed.

Lemma wp_reduce_step x z stats step s0 s :
  step_state x z s0 s -> (S step < w)%nat -> 0 <= steps stats < 2 ^ 32 - 1 ->
  0 <= reduction_kernel_launches stats <= Z.of_nat step * Z.of_nat w ->
  wp in_error (reduce_step write c b chunks scratch f stats step) (fun stats' s' => exists x' z' m,
    step_state x' z' s0 s' /\
    stats' = set_steps (steps stats + 1) (set_launches m stats) /\
    0 <= m <= Z.of_nat (step + 1) * Z.of_nat w /\
    forall r k, (r < w)%nat -> (k < w)%nat ->
      chunk_of x' r k = ring_step w (zip_with (combine f)) (received step) (chunk_of x) r k) s.
Proof using All.
  intros [Hd Hz Hp] Hstep Hsteps Hcount. pose proof (ring_counters Hsizes) as Hww.
  assert (Hscr : length scratch = w) by apply (member_world _ _ (dist_member _ _ _ _ Hz)).
  unfold reduce_step. apply wp_bind.
  eapply wp_stage_chunks; [exact Hd|done|cbn; lia|]. intros staged s1 _ Hstaged Hu.
  apply wp_bind.
  apply (wp_loop_list (fun r stats' s' => exists z' m,
    step_state (partly x (reduced_rank x step) r) z' s0 s' /\ stats' = set_launches m stats /\
    reduction_kernel_launches stats <= m <= reduction_kernel_launches stats + Z.of_nat r)).
  - exists z, (reduction_kernel_launches stats). split; [|split; [by destruct stats|lia]]. split.
    + eapply distributed_unchanged; [|done]. eapply distributed_ext; [|done]. done.
    + by eapply distributed_unchanged.
    + by eapply preserves_unchanged.
  - intros j p stats' s' (bf & Hbf & ->)%lookup_enumerate (z' & m & Hst & -> & Hm).
    assert (Hj : (j < w)%nat) by (rewrite <- Hscr; by eapply lookup_lt_Some).
    eapply wp_mono; [eapply wp_reduce_rank; [exact Hd|done|exact Hstaged|done| |done]|].
    { cbn. nia. }
    cbn. intros stats'' s'' (z'' & m' & Hst' & -> & Hm'). exists z'', m'. split; [done|].
    split; [done|]. lia.
  - intros stats' s' (z' & m & [Hd' Hz' Hp'] & -> & Hm). rewrite length_enumerate, Hscr in *.
    eapply wp_check; [by apply add_step_ok|].
    exists (reduced_rank x step), z', m. split; [|split; [done|split; [nia|]]].
    + split; [|done|done]. eapply distributed_ext; [|done]. intros r Hr. unfold partly.
      by rewrite (proj2 (Nat.ltb_lt _ _)).
    + intros r k Hr Hk. by eapply chunk_reduced.
Qed.

(** *** One copying step *)
Definition gathers (step r : nat) : nat := ((r + w - step - 1) mod w)%nat.

Definition gathered_rank (x : nat -> list T) (step r : nat) : list T :=
  let k := gathers step r in put (start k) (chunk_of x (predecessor w r) k) (x r).

Lemma length_gathered s x step r :
  distributed s c b x -> (r < w)%nat -> length (gathered_rank x step r) = len.
Proof using Hsizes Hblen.
  intros Hd Hr. unfold gathered_rank. assert (Hk : (gathers step r < w)%nat) by apply mod_world.
  pose proof (part_fits _ Hk).
  assert (Hp : (predecessor w r < w)%nat) by (apply predecessor_lt; lia).
  rewrite length_put; rewrite (dist_length _ _ _ _ Hd r Hr); [done|].
  rewrite (distributed_chunk _ _ _ _ Hd Hp Hk). lia.
Qed.

Lemma chunk_gathered s x step r k :
  distributed s c b x -> (r < w)%nat -> (k < w)%nat ->
  chunk_of (gathered_rank x step) r k =
    ring_step w (fun _ incoming => incoming) (gathers step) (chunk_of x) r k.
Proof using Hsizes Hblen.
  intros Hd Hr Hk. apply (part_ring_step start w start_mono (fun _ incoming => incoming));
    try done; [|by apply mod_world].
  intros r' Hr'. rewrite start_all, (dist_length _ _ _ _ Hd r' Hr'). lia.
Qed.

Lemma wp_gather_rank x staged step r own s1 s0 s :
  distributed s1 c b x -> (S step < w)%nat -> (r < w)%nat ->
  (forall r, (r < w)%nat ->
    staged !! r = Some (chunk_of x r ((r + w - list_sum [step]) mod w)%nat)) ->
  distributed s c b (partly x (gathered_rank x step) r) ->
  preserves own s0 s -> (forall k, k ∈ cells b -> k ∈ own) ->
  wp in_error (gather_rank c b chunks staged step r) (fun _ s' =>
    distributed s' c b (partly x (gathered_rank x step) (r + 1)) /\ preserves own s0 s') s.
Proof using Hsizes Hblen H1.
  intros Hd1 Hstep Hr Hstaged Hd Hp Hown.
  set (k := gathers step r). assert (Hk : (k < w)%nat) by apply mod_world.
  assert (Hw : (0 < w)%nat) by apply Hsizes.
  assert (Hindex : ((r + w - list_sum [step; 1%nat]) mod w)%nat = gathers step r).
  { unfold gathers. f_equal. cbn. lia. }
  assert (Hpred : ((r + w - list_sum [1%nat]) mod w)%nat = predecessor w r) by done.
  assert (Hsend : ((predecessor w r + w - list_sum [step]) mod w)%nat = gathers step r).
  { unfold gathers. rewrite <- send_gather by lia. f_equal. cbn. lia. }
  unfold gather_rank. fold w. apply wp_bind. eapply wp_check.
  { apply ring_index_ok; [done|by apply fits_index|cbn; lia]. }
  cbv beta. apply wp_bind. eapply wp_check.
  { apply ring_index_ok; [done|by apply fits_index|cbn; lia]. }
  cbv beta. rewrite Hindex, Hpred. fold k.
  apply wp_bind. eapply wp_check; [by apply index_Ok, lookup_chunks|]. cbv beta.
  rewrite range_len_chunk. cbn [fst]. pose proof (part_fits k Hk).
  assert (Hplt : (predecessor w r < w)%nat) by by apply predecessor_lt.
  pose proof (distributed_chunk _ _ _ _ Hd1 Hplt Hk) as Hv.
  destruct (Nat.eqb_spec (part_len start k) 0) as [Hempty|Hne].
  { apply wp_ret. split; [|done]. apply partly_skip; [done|]. unfold gathered_rank. fold k.
    rewrite (nil_length_inv (chunk_of x (predecessor w r) k)) by lia.
    unfold put. cbn. by rewrite Nat.add_0_r, take_drop. }
  destruct (distributed_lookup _ _ _ _ r Hd Hr) as (ctx & dst & Hctx & Hdst & Hhd & Hnd).
  rewrite partly_at in Hhd.
  apply wp_bind. eapply wp_check; [by apply index_Ok|]. cbv beta.
  apply wp_bind. eapply wp_check; [by apply index_Ok|]. cbv beta.
  apply wp_bind. eapply wp_check; [by apply index_Ok, Hstaged|]. cbv beta.
  rewrite Hsend. fold k. apply wp_on_device.
  eapply wp_mono; [eapply law_copy_to_device_at; [exact Hhd|]|].
  { rewrite Hv, Hnd. lia. }
  intros u s' Hu. split.
  - eapply partly_write; [exact Hd|exact Hdst|exact Hu|done|].
    change (length (gathered_rank x step r) = length_per_rank b).
    rewrite Hblen. by eapply length_gathered.
  - eapply preserves_updated; [exact Hp|exact Hu|]. left. apply Hown. by eapply cells_elem.
Qed.

Lemma wp_gather_step x stats step own s0 s :
  distributed s c b x -> preserves own s0 s -> (forall k, k ∈ cells b -> k ∈ own) ->
  (S step < w)%nat -> 0 <= steps stats < 2 ^ 32 - 1 ->
  wp in_error (gather_step c b chunks stats step) (fun stats' s' => exists x',
    distributed s' c b x' /\ preserves own s0 s' /\ stats' = set_steps (steps stats + 1) stats /\
    forall r k, (r < w)%nat -> (k < w)%nat ->
      chunk_of x' r k =
        ring_step w (fun _ incoming => incoming) (gathers step) (chunk_of x) r k) s.
Proof using Hsizes Hblen H1.
  intros Hd Hp Hown Hstep Hsteps. unfold gather_step. apply wp_bind.
  eapply wp_stage_chunks; [exact Hd|done|cbn; lia|]. intros staged s1 _ Hstaged Hu.
  apply wp_bind.
  apply (wp_for_each (fun r s' =>
    distributed s' c b (partly x (gathered_rank x step) r) /\ preserves own s0 s')).
  - split; [|by eapply preserves_unchanged]. eapply distributed_unchanged; [|done].
    eapply distributed_ext; [|done]. done.
  - intros r s' Hr [Hd' Hp']. by eapply wp_gather_rank.
  - intros s' [Hd' Hp']. eapply wp_check; [by apply add_step_ok|].
    exists (gathered_rank x step). split; [|split; [done|split; [done|]]].
    + eapply distributed_ext; [|done]. intros r Hr. unfold partly.
      by rewrite (proj2 (Nat.ltb_lt _ _)).
    + intros r k Hr Hk. by eapply chunk_gathered.
Qed.

(** *** All steps *)
Lemma wp_reduce_ring x z a s0 s :
  step_state x z s0 s ->
  wp in_error (loop (reduce_step write c b chunks scratch f) (stats_new a) (seq 0 (w - 1)))
    (fun stats' s' => exists x' z' m,
      step_state x' z' s0 s' /\
      stats' = set_steps (Z.of_nat (w - 1)) (set_launches m (stats_new a)) /\
      0 <= m <= Z.of_nat (w - 1) * Z.of_nat w /\
      forall r k, (r < w)%nat -> (k < w)%nat ->
        chunk_of x' r k = ring_steps w (zip_with (combine f)) received (chunk_of x) (w - 1) r k) s.
Proof using All.
  intros Hst. pose proof (ring_counters Hsizes) as Hww. pose proof (ring_world Hsizes) as Hw.
  apply (wp_loop (fun step stats' s' => exists x' z' m,
    step_state x' z' s0 s' /\
    stats' = set_steps (Z.of_nat step) (set_launches m (stats_new a)) /\
    0 <= m <= Z.of_nat step * Z.of_nat w /\
    forall r k, (r < w)%nat -> (k < w)%nat ->
      chunk_of x' r k = ring_steps w (zip_with (combine f)) received (chunk_of x) step r k)); [| |done].
  - exists x, z, 0. split; [done|]. split; [done|]. split; [lia|done].
  - intros step stats' s' Hstep (x' & z' & m & Hst' & -> & Hm & Hx').
    eapply wp_mono; [eapply (wp_reduce_step _ _ _ step); [exact Hst'|lia|cbn; nia|cbn; lia]|].
    intros stats'' s'' (x'' & z'' & m' & Hst'' & -> & Hm' & Hx''). exists x'', z'', m'.
    split; [done|]. split; [cbn; by rewrite Nat2Z.inj_add|]. split; [done|].
    intros r k Hr Hk. rewrite Hx'' by done. rewrite Nat.add_1_r. cbn [ring_steps].
    apply ring_step_ext; [done|done|]. intros r' Hr'. by apply Hx'.
Qed.

Lemma wp_gather_ring x stats own s0 s :
  distributed s c b x -> preserves own s0 s -> (forall k, k ∈ cells b -> k ∈ own) ->
  0 <= steps stats <= Z.of_nat w ->
  wp in_error (loop (gather_step c b chunks) stats (seq 0 (w - 1)))
    (fun stats' s' => exists x',
      distributed s' c b x' /\ preserves own s0 s' /\
      stats' = set_steps (steps stats + Z.of_nat (w - 1)) stats /\
      forall r k, (r < w)%nat -> (k < w)%nat ->
        chunk_of x' r k =
          ring_steps w (fun _ incoming => incoming) gathers (chunk_of x) (w - 1) r k) s.
Proof using Hsizes Hblen H1.
  intros Hd Hp Hown Hsteps. pose proof (ring_counters Hsizes) as Hww.
  pose proof (ring_world Hsizes) as Hw.
  apply (wp_loop (fun step stats' s' => exists x',
    distributed s' c b x' /\ preserves own s0 s' /\
    stats' = set_steps (steps stats + Z.of_nat step) stats /\
    forall r k, (r < w)%nat -> (k < w)%nat ->
      chunk_of x' r k =
        ring_steps w (fun _ incoming => incoming) gathers (chunk_of x) step r k)); [| |done].
  - exists x. rewrite Z.add_0_r. by destruct stats.
  - intros step stats' s' Hstep (x' & Hd' & Hp' & -> & Hx').
    assert (Z.of_nat w * 2 <= Z.of_nat (w * w)) by nia.
    eapply wp_mono; [eapply (wp_gather_step _ _ step); [exact Hd'|exact Hp'|exact Hown|lia|cbn; lia]|].
    intros stats'' s'' (x'' & Hd'' & Hp'' & -> & Hx''). exists x''.
    split; [done|]. split; [done|]. split; [cbn; by rewrite Nat2Z.inj_add, Z.add_assoc|].
    intros r k Hr Hk. rewrite Hx'' by done. rewrite Nat.add_1_r. cbn [ring_steps].
    apply ring_step_ext; [done|done|]. intros r' Hr'. by apply Hx'.
Qed.
End steps.

(** ** What the ring computes

    Chunk [k] starts at rank [k + 1] and meets the ranks in ring order; every
    element of the result is one fold over all ranks. *)
Definition ring_sum {T} (f : T -> T -> T) (len w : nat) (x : nat -> list T) : list T :=
  concat (map (fun k =>
    gathered w (zip_with f) 1 (fun r k => part (part_start len w) k (x r)) k (w - 1)) (seq 0 w)).

Section theorems.
Context {T : Type} `{DeviceLaws T}.

Lemma ring_sizes_fits c len : ring_sizes c len -> (0 < world_size c)%nat.
Proof. by intros []. Qed.

(** After the reducing ring the last rank of a chunk has its sum. *)
Lemma chunk_ring_sum c len (f : Kernel) x x' r k :
  ring_sizes c len -> (r < world_size c)%nat -> (k < world_size c)%nat ->
  age (world_size c) 1 r k = (world_size c - 1)%nat ->
  chunk_of c len x' r k =
    ring_steps (world_size c) (zip_with (combine f)) (received c) (chunk_of c len x)
      (world_size c - 1) r k ->
  chunk_of c len x' r k =
    gathered (world_size c) (zip_with (combine f)) 1 (chunk_of c len x) k (world_size c - 1).
Proof using Type.
  intros Hs Hr Hk Hage ->. pose proof (ring_world _ _ Hs) as Hw.
  apply ring_reduced; try done. by apply follows_reduce.
Qed.

(** A rank that holds the sum of every chunk holds the whole sum. *)
Lemma ring_sum_parts c len f x (l : list T) :
  ring_sizes c len -> length l = len ->
  (forall k, (k < world_size c)%nat ->
    part (part_start len (world_size c)) k l =
      gathered (world_size c) (zip_with f) 1 (chunk_of c len x) k (world_size c - 1)) ->
  l = ring_sum f len (world_size c) x.
Proof using Type.
  intros Hs Hl Hk.
  rewrite <- (concat_parts (part_start len (world_size c)) (world_size c)
    (start_mono c len) l (part_start_0 len (world_size c))).
  - unfold ring_sum. f_equal. apply map_ext_in. intros k Hin%in_seq. apply Hk. lia.
  - by rewrite Hl, part_start_all by apply Hs.
Qed.

(** A world of one rank. *)
Lemma ring_sum_one f len (x : nat -> list T) :
  length (x 0%nat) = len -> ring_sum f len 1 x = x 0%nat.
Proof using Type.
  intros Hl. unfold ring_sum. cbn. rewrite app_nil_r. unfold part, sub, part_len.
  rewrite part_start_0. cbn [drop].
  rewrite (part_start_all len 1) by lia. apply take_ge. lia.
Qed.

Lemma write_at_zero n ctx bf (l : list T) values s :
  holds s ctx bf l -> buffer_len bf = n -> (length values <= n)%nat ->
  wp device_error (copy_to_device_at ctx bf 0 values) (fun _ s' => exists l',
    length l' = n /\ sub 0 (length values) l' = values /\ updated s (cell bf) l' s') s.
Proof using H1.
  intros Hh Hn Hv. eapply wp_mono; [eapply law_copy_to_device_at; [exact Hh|lia]|].
  intros u s' Hu. exists (put 0 values l). pose proof (holds_length _ _ _ _ Hh).
  split; [by rewrite length_put; lia|]. split; [by apply sub_put_eq; lia|exact Hu].
Qed.

Lemma wp_all_reduce_sum c b f x s :
  distributed s c b x -> ring_sizes c (length_per_rank b) ->
  2 * Z.of_nat (world_size c - 1) * Z.of_nat (length_per_rank b) * Z.of_nat ELEMENT_SIZE < 2 ^ 64 ->
  (0 < ELEMENT_SIZE)%nat ->
  (forall ctx, ctx ∈ contexts c -> computes ctx f /\
    forall n, (n <= length_per_rank b `max` 1)%nat -> allocatable ctx n) ->
  wp in_error (all_reduce_sum c b f) (fun stats s' =>
    distributed s' c b (fun _ => ring_sum (combine f) (length_per_rank b) (world_size c) x) /\
    preserves (cells b) s s' /\
    algorithm stats = Ring /\ steps stats = 2 * Z.of_nat (world_size c - 1) /\
    stats_bytes stats =
      2 * Z.of_nat (world_size c - 1) * Z.of_nat (length_per_rank b) * Z.of_nat ELEMENT_SIZE) s.
Proof using H1.
  intros Hd Hs Hbytes Hsize Hctx. set (len := length_per_rank b). set (w := world_size c).
  pose proof (ring_world _ _ Hs) as Hw. fold w in Hw.
  pose proof (ring_counters _ _ Hs) as Hww. pose proof (ring_len _ _ Hs) as Hlen32.
  unfold all_reduce_sum. apply wp_bind, wp_validate_buffer; [apply Hd|]. fold w.
  destruct (Nat.eqb_spec w 1) as [H1w|Hne].
  { apply wp_ret. rewrite H1w. split; [|split; [apply preserves_refl|done]].
    eapply distributed_ext; [|done]. intros r Hr. rewrite ring_sum_one.
    - f_equal. fold w in Hr. lia.
    - apply (dist_length _ _ _ _ Hd). fold w. lia. }
  apply wp_bind. eapply wp_check; [by apply u32_try_from_ok|]. cbv beta.
  apply wp_bind. eapply wp_check; [by apply ring_chunks_ok|]. cbv beta.
  set (chunks := map (fun k => (part_start len w k, part_start len w (S k))) (seq 0 w)).
  set (n := (max_len chunks `max` 1)%nat).
  assert (Hpart : forall k, (k < w)%nat -> (part_len (part_start len w) k <= n)%nat).
  { intros k Hk. assert (Hin : (part_start len w k, part_start len w (S k)) ∈ chunks).
    { eapply list_elem_of_lookup_2. by apply (lookup_chunks c len). }
    apply max_len_ge in Hin.
    change (part_len (part_start len w) k <= max_len chunks)%nat in Hin. unfold n. lia. }
  assert (Hn : (n <= len `max` 1)%nat).
  { unfold n. assert (max_len chunks <= len)%nat; [|lia]. apply max_len_le, Forall_forall.
    intros r (k & -> & Hk%elem_of_seq)%list_elem_of_fmap. cbn.
    pose proof (part_end_le len w k). lia. }
  apply wp_bind. eapply wp_alloc_all; [intros ctx Hin; by apply Hctx|].
  intros scratch s1 z Hz Hfresh Hp1. apply wp_bind. eapply wp_check; [apply sub_usize_ok; lia|].
  cbv beta. apply wp_bind.
  assert (Hd1 : distributed s1 c b x).
  { eapply distributed_preserved; [done|done|]. intros k _. apply not_elem_of_nil. }
  eapply wp_mono; [eapply (wp_reduce_ring c len Hs b n scratch f); [done| | | exact Hpart| |]|].
  - intros k Hk. exact (fresh_disjoint _ _ _ _ _ _ Hd Hfresh Hk).
  - intros ctx Hin. by apply Hctx.
  - intros ctx bf l k values s' Hh Hbf Hk _ Hv. eapply write_at_zero; [done|done|].
    rewrite Hv. by apply Hpart.
  - split; [exact Hd1|exact Hz|apply preserves_refl].
  - intros stats s2 (x2 & z2 & m & [Hd2 Hz2 Hp2] & -> & Hm & Hx2). apply wp_bind.
    eapply wp_mono; [eapply (wp_gather_ring c len Hs b); [done|exact Hd2|exact Hp2| |]|].
    { intros k Hk. apply elem_of_app. by left. }
    { cbn. fold w. lia. }
    intros stats s3 (x3 & Hd3 & Hp3 & -> & Hx3).
    apply wp_bind. eapply wp_check; [apply mul_usize_ok; unfold fits_usize; nia|]. cbv beta.
    apply wp_bind. eapply wp_check; [apply transferred_bytes_ok; lia|]. cbv beta.
    apply wp_ret. split; [|split; [|split; [done|split; cbn; [fold w; lia|fold len; lia]]]].
    + eapply distributed_ext; [|exact Hd3]. intros r Hr. fold w in Hr.
      apply ring_sum_parts; [done|by apply (dist_length _ _ _ _ Hd3)|]. fold w. intros k Hk.
      change (chunk_of c len x3 r k = gathered w (zip_with (combine f)) 1 (chunk_of c len x) k (w - 1)).
      rewrite Hx3 by done. rewrite (ring_copied (world_size c) Hw 0) by
        (done || lia || by apply follows_gather).
      rewrite Nat.add_0_r, Nat.mod_small by done.
      eapply chunk_ring_sum; [done|done|done| |by apply Hx2].
      rewrite (age_eq (world_size c) Hw) by (fold w; lia). fold w. cbv zeta.
      repeat match goal with |- context [(?a <? ?b)%nat] => destruct (Nat.ltb_spec a b) end; lia.
    + eapply preserves_fresh; [exact Hp1|exact Hp3|exact Hfresh].
Qed.

(** ** Elements of the sum *)
Lemma length_ring_sum f len w (x : nat -> list T) :
  (0 < w)%nat -> (forall r, (r < w)%nat -> length (x r) = len) -> length (ring_sum f len w x) = len.
Proof using Type.
  intros Hw Hx. unfold ring_sum. rewrite (length_parts (part_start len w)).
  - by apply part_start_all.
  - apply part_start_mono.
  - apply part_start_0.
  - intros k Hk. apply (length_gathered_zip w 1 f); [done|].
    intros r Hr. apply (length_part _ w); [apply part_start_mono|done|].
    by rewrite Hx, part_start_all.
Qed.

(** Every element is the reduction of the ranks' elements, in a ring order. *)
Lemma ring_sum_lookup f len w (x : nat -> list T) i :
  (0 < w)%nat -> (forall r, (r < w)%nat -> length (x r) = len) -> (i < len)%nat ->
  exists order, order ≡ₚ seq 0 w /\
    ring_sum f len w x !! i = reduce_list f (omap (fun r => x r !! i) order).
Proof using Type.
  intros Hw Hx Hi. destruct (parts_reduced (part_start len w) w 1 len f x) as [Hl Hr]; [apply part_start_mono|done|by apply part_start_all|done|lia|done|].
  apply Hr. by rewrite Hl.
Qed.

(** ** reduce_scatter_sum *)
Lemma even_parts len w k :
  (len mod w = 0)%nat -> part_start len w k = (k * (len / w))%nat.
Proof using Type. intros Hm. unfold part_start. rewrite Hm. lia. Qed.

Lemma even_part_len len w k : (len mod w = 0)%nat -> part_len (part_start len w) k = (len / w)%nat.
Proof using Type. intros Hm. unfold part_len. rewrite !even_parts by done. lia. Qed.

(** The copy of every rank's input into the working buffer. *)
Lemma wp_copy_in c b b' x z s0 s (Q : unit -> Store -> Prop) :
  distributed s c b x -> distributed s c b' z -> (forall k, k ∈ cells b' -> k ∉ cells b) ->
  preserves [] s0 s -> fresh s0 b' -> length_per_rank b' = length_per_rank b ->
  (forall s', distributed s' c b x -> distributed s' c b' x -> preserves [] s0 s' -> Q tt s') ->
  wp in_error (for_each (fun rank =>
    values ← download_rank c b rank;
    ctx ← check (index (contexts c) rank);
    bf ← check (index (buffers b') rank);
    on_device (copy_to_device ctx bf values)) (seq 0 (world_size c))) Q s.
Proof using H1.
  intros Hd Hz Hdisj Hp Hfresh Hlen HQ.
  apply (wp_for_each (fun r s' => distributed s' c b x /\ distributed s' c b' (partly z x r) /\
    preserves [] s0 s')).
  - split; [done|]. split; [by apply partly_none|done].
  - intros r s' Hr (Hd' & Hz' & Hp'). apply wp_bind. eapply wp_download_rank; [exact Hd'|done|].
    intros s'' Hu. eapply wp_rank; [eapply distributed_unchanged; [exact Hz'|done]|done|].
    intros ctx bf Hctx Hbf Hh _.
    eapply wp_mono; [eapply (wp_write_rank _ _ z x); [by eapply distributed_unchanged|
      by eapply preserves_unchanged|exact Hctx|exact Hbf| |]|].
    + right. apply Hfresh. by eapply cells_elem.
    + rewrite Hlen. by apply (dist_length _ _ _ _ Hd').
    + intros u s3 (Hz3 & Hp3 & Hu3). split; [|done].
      eapply distributed_other; [by eapply distributed_unchanged|exact Hu3|].
      apply Hdisj. by eapply cells_elem.
  - intros s' (Hd' & Hz' & Hp'). apply HQ; [done| |done]. by eapply partly_done.
Qed.

(** The copy of every rank's reduced chunk into the output. *)
Lemma wp_copy_out c len b b' x z s0 s (Q : unit -> Store -> Prop) :
  ring_sizes c len -> (len mod world_size c = 0)%nat ->
  distributed s c b x -> distributed s c b' z -> (forall k, k ∈ cells b' -> k ∉ cells b) ->
  preserves [] s0 s -> fresh s0 b' -> length_per_rank b = len ->
  length_per_rank b' = (len / world_size c)%nat ->
  (forall s', distributed s' c b' (fun r => chunk_of c len x r r) -> preserves [] s0 s' -> Q tt s') ->
  wp in_error (for_each (fun '(rank, range) =>
    ctx ← check (index (contexts c) rank);
    bf ← check (index (buffers b) rank);
    reduced ← on_device (copy_from_device_at ctx bf range.1 (range_len range));
    out ← check (index (buffers b') rank);
    on_device (copy_to_device ctx out reduced))
    (enumerate (map (fun k => (part_start len (world_size c) k, part_start len (world_size c) (S k)))
      (seq 0 (world_size c))))) Q s.
Proof using H1.
  intros Hs Hmod Hd Hz Hdisj Hp Hfresh Hlen Hlen' HQ.
  assert (Hchunk : forall s r, distributed s c b x -> (r < world_size c)%nat ->
    length (chunk_of c len x r r) = length_per_rank b').
  { intros s1 r Hd1 Hr. rewrite (distributed_chunk c len Hs b Hlen _ _ _ _ Hd1 Hr Hr).
    by rewrite even_part_len. }
  apply (wp_for_each_list (fun r s' => distributed s' c b x /\
    distributed s' c b' (partly z (fun r => chunk_of c len x r r) r) /\ preserves [] s0 s')).
  - split; [done|]. split; [by apply partly_none|done].
  - intros r p s' (range & Hrange & ->)%lookup_enumerate (Hd' & Hz' & Hp').
    rewrite list_lookup_fmap in Hrange.
    destruct (seq 0 (world_size c) !! r) as [k|] eqn:Hr; [|done]. injection Hrange as <-.
    apply lookup_seq in Hr as [-> Hr]. cbn [plus Nat.add].
    destruct (distributed_lookup _ _ _ _ r Hz' Hr) as (ctx' & out & Hctx' & Hout & Hho & _).
    eapply wp_rank; [exact Hd'|done|]. intros ctx bf Hctx Hbf Hh Hl.
    apply wp_bind, wp_on_device. eapply wp_mono; [eapply law_copy_from_device_at; [exact Hh|]|].
    { rewrite Hl, Hlen. apply (part_fits c len Hs r Hr). }
    intros v s'' [-> Hu]. apply wp_bind. eapply wp_check; [by apply index_Ok|]. cbv beta.
    change (sub _ _ (x r)) with (chunk_of c len x r r).
    eapply wp_mono; [eapply (wp_write_rank _ _ z (fun r => chunk_of c len x r r));
      [by eapply distributed_unchanged|by eapply preserves_unchanged|exact Hctx|exact Hout| |]|].
    + right. apply Hfresh. by eapply cells_elem.
    + by eapply Hchunk.
    + intros u s3 (Hz3 & Hp3 & Hu3). split; [|done].
      eapply distributed_other; [by eapply distributed_unchanged|exact Hu3|].
      apply Hdisj. by eapply cells_elem.
  - intros s'. rewrite length_enumerate, length_map, length_seq. intros (Hd' & Hz' & Hp').
    apply HQ; [|done]. by eapply partly_done.
Qed.

Lemma wp_reduce_scatter_sum c b f x s :
  distributed s c b x -> ring_sizes c (length_per_rank b) ->
  (length_per_rank b mod world_size c = 0)%nat ->
  Z.of_nat (world_size c - 1) * Z.of_nat (length_per_rank b) * Z.of_nat ELEMENT_SIZE < 2 ^ 64 ->
  (0 < ELEMENT_SIZE)%nat ->
  (forall ctx, ctx ∈ contexts c -> computes ctx f /\
    forall n, (n <= length_per_rank b)%nat -> allocatable ctx n) ->
  wp in_error (reduce_scatter_sum c b f) (fun '(output, stats) s' =>
    let shard := (length_per_rank b / world_size c)%nat in
    length_per_rank output = shard /\
    distributed s' c output (fun r =>
      sub (r * shard) shard (ring_sum (combine f) (length_per_rank b) (world_size c) x)) /\
    preserves [] s s' /\ fresh s output /\
    steps stats = Z.of_nat (world_size c - 1) /\
    stats_bytes stats =
      Z.of_nat (world_size c - 1) * Z.of_nat (length_per_rank b) * Z.of_nat ELEMENT_SIZE) s.
Proof using H1.
  intros Hd Hs Hmod Hbytes Hsize Hctx. set (len := length_per_rank b) in *. set (w := world_size c) in *.
  pose proof (ring_world _ _ Hs) as Hw. fold w in Hw. pose proof (ring_len _ _ Hs) as Hlen32.
  assert (Hshard : (len / w <= len)%nat) by (apply Nat.Div0.div_le_upper_bound; nia).
  unfold reduce_scatter_sum. apply wp_bind, wp_validate_buffer; [apply Hd|]. fold w len.
  apply wp_bind. eapply (wp_check _ tt).
  { apply fail_if_Ok. apply negb_false_iff, is_multiple_of_spec; [lia|].
    rewrite <- Nat2Z.inj_div. pose proof (Nat.div_mod_eq len w). nia. }
  cbv beta. apply wp_bind. eapply wp_check; [by apply div_usize_ok|]. cbv beta.
  apply wp_bind. eapply wp_check; [by apply u32_try_from_ok|]. cbv beta.
  apply wp_bind. eapply wp_check; [by apply ring_chunks_ok|]. cbv beta.
  apply wp_bind. eapply wp_allocate; [intros ctx Hin; by apply Hctx|].
  intros working s1 z Hz Hwlen Hwfresh Hp1.
  assert (Hdisj : forall k, k ∈ cells working -> k ∉ cells b).
  { intros k Hk. exact (fresh_disjoint _ _ _ _ _ _ Hd Hwfresh Hk). }
  assert (Hd1 : distributed s1 c b x).
  { eapply distributed_preserved; [exact Hd|exact Hp1|]. intros k _. apply not_elem_of_nil. }
  apply wp_bind. eapply wp_copy_in; [exact Hd1|exact Hz|exact Hdisj|exact Hp1|exact Hwfresh|done|].
  intros s2 Hd2 Hz2 Hp2. cbv beta.
  apply wp_bind. eapply wp_alloc_all; [intros ctx Hin; by apply Hctx|].
  intros scratch s3 y Hy Hsfresh Hp3.
  assert (Hz3 : distributed s3 c working x).
  { eapply distributed_preserved; [exact Hz2|exact Hp3|]. intros k _. apply not_elem_of_nil. }
  apply wp_bind.
  eapply wp_mono; [eapply (wp_reduce_ring c len Hs working (len / w) scratch f); [done| | | | |]|].
  - intros k Hk. exact (fresh_disjoint _ _ _ _ _ _ Hz2 Hsfresh Hk).
  - intros ctx Hin. by apply Hctx.
  - intros k Hk. by rewrite even_part_len.
  - intros ctx bf l k values s' Hh Hbf Hk _ Hv. rewrite even_part_len in Hv by done.
    eapply wp_mono; [eapply law_copy_to_device; [exact Hh|rewrite Hbf; exact Hv]|].
    intros u s'' Hu. exists values. split; [done|]. split; [|exact Hu]. by apply take_ge.
  - split; [exact Hz3|exact Hy|apply preserves_refl].
  - intros stats s4 (x4 & y4 & m & [Hz4 Hy4 Hp4] & -> & Hm & Hx4).
    assert (Hp5 : preserves [] s s4).
    { eapply preserves_fresh; [exact Hp2| |exact Hwfresh].
      eapply preserves_fresh; [exact Hp3|exact Hp4|exact Hsfresh]. }
    apply wp_bind. eapply wp_allocate; [intros ctx Hin; by apply Hctx|].
    intros output s5 o Ho Holen Hofresh Hp6.
    assert (Hz5 : distributed s5 c working x4).
    { eapply distributed_preserved; [exact Hz4|exact Hp6|]. intros k _. apply not_elem_of_nil. }
    apply wp_bind. eapply wp_copy_out;
      [exact Hs|exact Hmod|exact Hz5|exact Ho| |exact Hp6|exact Hofresh|exact Hwlen|exact Holen|].
    { intros k Hk. exact (fresh_disjoint _ _ _ _ _ _ Hz4 Hofresh Hk). }
    intros s6 Ho6 Hp7. cbv beta.
    apply wp_bind. eapply wp_check; [apply transferred_bytes_ok; lia|]. cbv beta.
    apply wp_ret. split; [done|]. split; [|split; [by eapply preserves_trans|split; [|done]]].
    + eapply distributed_ext; [|exact Ho6]. intros r Hr. fold w in Hr. cbv beta.
      rewrite (chunk_ring_sum c len f x x4) by (done || by apply age_own || by apply Hx4).
      rewrite <- (even_parts len w r) by done. rewrite <- (even_part_len len w r) by done.
      change (sub _ _ ?l) with (part (part_start len w) r l). unfold ring_sum.
      rewrite part_concat; try done; [by apply part_start_mono|].
      intros k Hk. apply (length_gathered_zip w 1 (combine f)); [done|]. intros r' Hr'.
      by eapply (distributed_chunk c len Hs b).
    + intros k Hk. destruct (view s k) as [l|] eqn:Hv; [|done]. exfalso.
      pose proof (Hp5 k l Hv (not_elem_of_nil _)) as Hv4. by rewrite (Hofresh k Hk) in Hv4.
Qed.

(** ** reduce_sum

    The root adds the other ranks in rank order. *)
Definition other_ranks (root n : nat) : list nat := filter (fun r => r <> root) (seq 0 n).

Definition root_sum (f : T -> T -> T) (root w : nat) (x : nat -> list T) : list T :=
  foldl (fun acc r => zip_with f acc (x r)) (x root) (other_ranks root w).

Lemma root_sum_S f root n (x : nat -> list T) :
  root_sum f root (S n) x =
    if (n =? root)%nat then root_sum f root n x else zip_with f (root_sum f root n x) (x n).
Proof using Type.
  unfold root_sum, other_ranks. rewrite seq_S, filter_app, foldl_app. cbn [plus Nat.add].
  destruct (Nat.eqb_spec n root) as [->|Hne].
  - rewrite filter_cons_False by (intros Hn; by apply Hn). done.
  - by rewrite filter_cons_True by done.
Qed.

Lemma length_root_sum f root n len (x : nat -> list T) :
  length (x root) = len -> (forall r, (r < n)%nat -> length (x r) = len) ->
  length (root_sum f root n x) = len.
Proof using Type.
  intros Hroot. induction n as [|n IH]; intros Hx; [done|]. rewrite root_sum_S.
  destruct (n =? root)%nat; [by apply IH; auto|].
  rewrite length_zip_with, IH, Hx by auto. lia.
Qed.

Lemma length_other_ranks root n :
  length (other_ranks root n) = (n - Nat.b2n (root <? n))%nat.
Proof using Type.
  induction n as [|n IH]; [done|]. unfold other_ranks in *.
  rewrite seq_S, filter_app, length_app, IH. cbn [plus Nat.add].
  destruct (decide (n = root)) as [->|Hne].
  - rewrite filter_cons_False by (intros Hn; by apply Hn).
    rewrite Nat.ltb_irrefl, (proj2 (Nat.ltb_lt root (S root))) by lia. cbn. lia.
  - rewrite filter_cons_True by done.
    destruct (Nat.ltb_spec root n), (Nat.ltb_spec root (S n)); cbn; lia.
Qed.

(** The state of the root's loop. *)
Record root_state c b x (ctx : DeviceContext) (out scratch : Buffer) (acc : list T) (s0 s : Store) : Prop := {
  root_input : distributed s c b x;
  root_output : holds s ctx out acc;
  root_scratch : exists l, holds s ctx scratch l;
  root_preserves : preserves [] s0 s;
}.

Lemma put_zip_all f (acc l : list T) n :
  length acc = n -> length l = n ->
  put 0 (zip_with f (sub 0 n acc) (sub 0 n l)) acc = zip_with f acc l.
Proof using Type.
  intros Hacc Hl.
  assert (Hsub : forall k : list T, length k = n -> sub 0 n k = k).
  { intros k Hk. unfold sub. rewrite drop_0. apply take_ge. lia. }
  rewrite !Hsub by done. unfold put. rewrite take_0, drop_ge by (rewrite length_zip_with; lia).
  cbn [app]. by rewrite app_nil_r.
Qed.

(** The three calls for one rank. *)
Lemma wp_root_step {A} c b x ctx out scratch acc s0 s r f root (k : run A) (Q : A -> Store -> Prop) :
  root_state c b x ctx out scratch acc s0 s -> (r < world_size c)%nat ->
  contexts c !! root = Some ctx -> computes ctx f -> cell scratch <> cell out ->
  view s0 (cell out) = None -> view s0 (cell scratch) = None ->
  cell out ∉ cells b -> cell scratch ∉ cells b ->
  buffer_len out = length_per_rank b -> buffer_len scratch = length_per_rank b ->
  (forall s', root_state c b x ctx out scratch (zip_with (combine f) acc (x r)) s0 s' ->
    wp in_error k Q s') ->
  wp in_error (values ← download_rank c b r;
               _ ← on_device (copy_to_device ctx scratch values);
               _ ← on_device (launch_reduction ctx f
                 (prepare_reduction (length_per_rank b) 0) scratch out);
               k) Q s.
Proof using H1.
  intros [Hd Ho [l Hl] Hp] Hr Hctx Hf Hne Hvo Hvs Hno Hns Hlo Hls HQ.
  apply wp_bind. eapply wp_download_rank; [exact Hd|done|]. intros s1 Hu1.
  pose proof (dist_length _ _ _ _ Hd r Hr) as Hxr.
  apply wp_bind, wp_on_device. eapply wp_mono.
  { eapply law_copy_to_device; [by eapply holds_unchanged|congruence]. }
  intros [] s2 Hu2. apply wp_bind, wp_on_device.
  assert (Ho2 : holds s2 ctx out acc).
  { eapply holds_other; [by eapply holds_unchanged|exact Hu2|congruence]. }
  assert (Hl2 : holds s2 ctx scratch (x r)).
  { eapply holds_updated; [by eapply holds_unchanged|exact Hu2|].
    rewrite (holds_length _ _ _ _ Hl). congruence. }
  eapply wp_mono; [eapply law_launch_reduction; [exact Hf|exact Hl2|exact Ho2|exact Hne|lia|lia]|].
  intros [] s3 Hu3. apply HQ.
  pose proof (holds_length _ _ _ _ Ho) as Hacc.
  assert (Hput : put 0 (zip_with (combine f) (sub 0 (length_per_rank b) acc)
      (sub 0 (length_per_rank b) (x r))) acc = zip_with (combine f) acc (x r)).
  { apply put_zip_all; lia. }
  rewrite Hput in Hu3. split.
  - eapply distributed_other; [|exact Hu3|done]. eapply distributed_other; [|exact Hu2|done].
    by eapply distributed_unchanged.
  - eapply holds_updated; [exact Ho2|exact Hu3|]. rewrite length_zip_with. lia.
  - exists (x r). by eapply holds_other.
  - eapply preserves_updated; [|exact Hu3|by right].
    eapply preserves_updated; [|exact Hu2|by right]. by eapply preserves_unchanged.
Qed.

Lemma wp_reduce_sum c b f root ctx x s :
  distributed s c b x -> contexts c !! root = Some ctx -> computes ctx f ->
  allocatable ctx (length_per_rank b) -> Z.of_nat (length_per_rank b) < 2 ^ 32 ->
  Z.of_nat (world_size c) < 2 ^ 32 ->
  Z.of_nat (world_size c - 1) * Z.of_nat (length_per_rank b) * Z.of_nat ELEMENT_SIZE < 2 ^ 64 ->
  (0 < ELEMENT_SIZE)%nat ->
  wp in_error (reduce_sum c b root f) (fun '(output, stats) s' =>
    rooted s' c output ctx (root_sum (combine f) root (world_size c) x) /\
    InProcess.root output = root /\ preserves [] s s' /\ view s (cell (buffer output)) = None /\
    (length_per_rank b <> 0%nat -> steps stats = Z.of_nat (world_size c - 1))) s.
Proof using H1.
  intros Hd Hctx Hf Halloc Hlen32 Hw32 Hbytes Hsize. set (len := length_per_rank b) in *.
  pose proof (lookup_lt_Some _ _ _ Hctx) as Hroot. fold (world_size c) in Hroot.
  pose proof (dist_length _ _ _ _ Hd root Hroot) as Hxroot.
  unfold reduce_sum. apply wp_bind, wp_validate_buffer; [apply Hd|].
  apply wp_bind. eapply wp_context; [exact Hctx|]. fold len.
  apply wp_bind. eapply wp_allocate_rooted; [exact Hctx|exact Halloc|].
  intros out s1 l1 [Hid Hrc Ho1] Hor Hl1 Hbl1 Hnew1 Hu1.
  assert (Hd1 : distributed s1 c b x).
  { eapply distributed_other; [exact Hd|exact Hu1|]. exact (cells_fresh_cell _ _ _ _ _ Hd Hnew1). }
  apply wp_bind. eapply wp_download_rank; [exact Hd1|done|]. intros s2 Hu2. fold len.
  apply wp_bind, wp_on_device. eapply wp_mono.
  { eapply law_copy_to_device; [by eapply holds_unchanged|]. by rewrite Hxroot. }
  intros [] s3 Hu3.
  assert (Ho3 : holds s3 ctx (buffer out) (x root)).
  { eapply holds_updated; [by eapply holds_unchanged|exact Hu3|]. by rewrite Hl1. }
  assert (Hd3 : distributed s3 c b x).
  { eapply distributed_other; [by eapply distributed_unchanged|exact Hu3|]. exact (cells_fresh_cell _ _ _ _ _ Hd Hnew1). }
  assert (Hp3 : preserves [] s s3).
  { eapply preserves_updated; [|exact Hu3|by right]. eapply preserves_unchanged; [|exact Hu2].
    eapply preserves_updated; [apply preserves_refl|exact Hu1|by right]. }
  destruct (Nat.eqb_spec len 0) as [Hempty|Hne].
  { apply wp_ret. split; [|split; [done|split; [done|split; [done|done]]]]. split; [done|done|].
    assert (Hnil : root_sum (combine f) root (world_size c) x = x root); [|by rewrite Hnil].
    transitivity (@nil T).
    - apply nil_length_inv. rewrite (length_root_sum _ _ _ len); [done|done|].
      intros r Hr. by apply (dist_length _ _ _ _ Hd).
    - symmetry. apply nil_length_inv. by rewrite Hxroot. }
  apply wp_bind. eapply wp_alloc; [exact Hctx|exact Halloc|].
  intros scratch s4 l4 Hs4 Hl4 Hbl4 Hnew4 Hu4.
  assert (Hne4 : cell (buffer out) <> cell scratch).
  { intros Heq. rewrite <- Heq in Hnew4. by rewrite (holds_view _ _ _ _ Ho3) in Hnew4. }
  assert (Hsnew : view s (cell scratch) = None).
  { destruct (view s (cell scratch)) as [l|] eqn:Hv; [|done].
    rewrite (Hp3 _ _ Hv (not_elem_of_nil _)) in Hnew4. done. }
  apply wp_bind. eapply wp_check; [by apply u32_try_from_ok|]. cbv beta zeta.
  apply wp_bind.
  apply (wp_loop (fun r stats s' =>
    root_state c b x ctx (buffer out) scratch (root_sum (combine f) root r x) s s' /\
    stats = set_steps (Z.of_nat (length (other_ranks root r)))
      (set_launches (Z.of_nat (length (other_ranks root r))) (stats_new Direct)))).
  - split; [|done]. split.
    + eapply distributed_other; [exact Hd3|exact Hu4|]. exact (cells_fresh_cell _ _ _ _ _ Hd3 Hnew4).
    + eapply holds_other; [exact Ho3|exact Hu4|done].
    + by exists l4.
    + eapply preserves_updated; [exact Hp3|exact Hu4|by right].
  - intros r stats s' Hr [Hst ->].
    assert (Hcount : (length (other_ranks root r) <= r)%nat).
    { rewrite length_other_ranks. lia. }
    assert (HS : length (other_ranks root (S r)) =
      (length (other_ranks root r) + Nat.b2n (negb (r =? root)))%nat).
    { unfold other_ranks. rewrite seq_S, filter_app, length_app. f_equal. cbn [plus Nat.add].
      destruct (Nat.eqb_spec r root) as [->|Hn].
      - by rewrite filter_cons_False by (intros Hn; by apply Hn).
      - by rewrite filter_cons_True. }
    rewrite Nat.add_1_r, HS, root_sum_S.
    destruct (Nat.eqb_spec r root) as [->|Hn]; cbn [negb Nat.b2n].
    { rewrite Nat.add_0_r. by apply wp_ret. }
    eapply wp_root_step; [exact Hst|exact Hr|exact Hctx|exact Hf|congruence|exact Hnew1|exact Hsnew
      |exact (cells_fresh_cell _ _ _ _ _ Hd Hnew1)|exact (cells_fresh_cell _ _ _ _ _ Hd Hsnew)
      |exact Hbl1|exact Hbl4|].
    intros s5 Hst5. apply wp_bind. eapply wp_check; [apply add_step_ok; cbn; lia|]. cbv beta.
    eapply wp_check; [apply add_launch_ok; cbn; lia|]. split; [done|].
    cbn. by rewrite Nat2Z.inj_add.
  - intros stats s' [[Hd' Ho' _ Hp'] ->].
    apply wp_bind. eapply wp_check; [apply transferred_bytes_ok; lia|]. cbv beta.
    apply wp_ret. split; [by split|]. split; [done|]. split; [done|]. split; [done|].
    intros _. cbn. f_equal. rewrite length_other_ranks.
    rewrite (proj2 (Nat.ltb_lt _ _)) by done. done.
Qed.
End theorems.
