(* ===== verification/TensorDevice.v ===== *)
(** * Collective buffers on a tensor backend

    src/src/tensor_device/{mod,storage,reduction,device,error}.rs: the device
    of the in-process collectives that keeps its buffers as tensors of a
    backend.  The backend (the ruda_tensor crate) is a class of operations and
    a class of laws; a buffer is a shared mutex cell, so the store is a map
    from cells to the lock's state.  The file ends with the instance of
    [DeviceLaws], so every collective theorem holds for this device. *)
From S2P Require Import Prelude Protocol Errors Operation Comp Device.

(** ** The element type and the backend *)
Module DType.
Inductive DType := F32 | F16 | BF16 | I32 | I64 | U8 | U32 | Other.

#[export] Instance DType_eq_dec : EqDecision DType.
Proof. solve_decision. Defined.
End DType.
Export (hints) DType.
Abbreviation DType := DType.DType.

Class TensorElement (T : Type) := {
  dtype : DType;
  size_of : nat;
}.

(** Element types stored as integer tensors. *)
Definition int_dtype (d : DType) : bool :=
  match d with DType.U8 | DType.U32 | DType.I32 | DType.I64 => true | _ => false end.

Class Backend (T : Type) := {
  BDevice : Type;
  BDevice_eq_dec :: EqDecision BDevice;
  FloatTensor : Type;
  IntTensor : Type;
  BoolTensor : Type;
  TensorData : Type;
  ExecutionError : Type;
  DataError : Type;
  supports_dtype : BDevice -> DType -> bool;
  float_empty : nat -> BDevice -> FloatTensor;
  int_empty : nat -> BDevice -> IntTensor;
  float_from_data : list T -> BDevice -> FloatTensor;
  int_from_data : list T -> BDevice -> IntTensor;
  float_slice : FloatTensor -> nat -> nat -> FloatTensor;
  int_slice : IntTensor -> nat -> nat -> IntTensor;
  float_slice_assign : FloatTensor -> nat -> nat -> FloatTensor -> FloatTensor;
  int_slice_assign : IntTensor -> nat -> nat -> IntTensor -> IntTensor;
  float_add : FloatTensor -> FloatTensor -> FloatTensor;
  float_mul : FloatTensor -> FloatTensor -> FloatTensor;
  float_lower : FloatTensor -> FloatTensor -> BoolTensor;
  float_mask_where : FloatTensor -> BoolTensor -> FloatTensor -> FloatTensor;
  int_add : IntTensor -> IntTensor -> IntTensor;
  int_mul : IntTensor -> IntTensor -> IntTensor;
  int_lower : IntTensor -> IntTensor -> BoolTensor;
  int_mask_where : IntTensor -> BoolTensor -> IntTensor -> IntTensor;
  bitwise_and : IntTensor -> IntTensor -> IntTensor;
  bitwise_or : IntTensor -> IntTensor -> IntTensor;
  bitwise_xor : IntTensor -> IntTensor -> IntTensor;
  float_into_data : FloatTensor -> outcome ExecutionError TensorData;
  int_into_data : IntTensor -> outcome ExecutionError TensorData;
  into_vec : TensorData -> outcome DataError (list T);
  float_meta : FloatTensor -> DType * BDevice * list nat;
  int_meta : IntTensor -> DType * BDevice * list nat;
}.

(** ** Definitions *)
Section definitions.
Context {T : Type} `{TensorElement T, Backend T}.

Inductive TensorDeviceError :=
  | UnsupportedDType (d : DType)
  | DTypeMismatch (expected actual : DType)
  | DeviceMismatch
  | InvalidBuffer (message : string)
  | InvalidOperation (message : string)
  | Data (e : DataError)
  | Poisoned
  | Execution (e : ExecutionError).

Inductive Primitive := Float (t : FloatTensor) | Int (t : IntTensor).

(** [Arc<Mutex<Option<Primitive<B>>>>]: the lock and what it guards. *)
Record MutexCell := { poisoned : bool; guarded : option Primitive }.
Abbreviation TensorStore := (gmap positive MutexCell).

Record TensorBuffer := {
  value : positive;
  device : BDevice;
  tensor_length : nat;
}.

Record TensorDevice := { tensor_device : BDevice }.

Record TensorReductionLaunch := {
  launch_length : nat;
  destination_offset : nat;
}.

Abbreviation tresult A := (outcome TensorDeviceError A).
Abbreviation trun A := (comp TensorStore TensorDeviceError A).

(** storage.rs *)
Definition isize_max : Z := 2 ^ 63 - 1.

Definition checked_length (n : nat) : tresult unit :=
  bytes ← ok_or (checked_mul usize_bits (Z.of_nat n) (Z.of_nat size_of))
            (InvalidBuffer "collective buffer byte length overflow");
  fail_if (isize_max <? bytes) (InvalidBuffer "collective buffer exceeds addressable size").

Definition checked_range (total offset n : nat) : tresult (nat * nat) :=
  stop ← ok_or (checked_add_usize offset n)
          (InvalidBuffer "collective element range overflow");
  _ ← fail_if (total <? stop)%nat (InvalidBuffer "collective element range out of bounds");
  Ok (offset, stop).

Definition slice (p : Primitive) (range : nat * nat) : Primitive :=
  match p with
  | Float t => Float (float_slice t range.1 range.2)
  | Int t => Int (int_slice t range.1 range.2)
  end.

(** [None] is the panic of [unreachable!]. *)
Definition assign (p : Primitive) (range : nat * nat) (v : Primitive) : option Primitive :=
  match p, v with
  | Float t, Float u => Some (Float (float_slice_assign t range.1 range.2 u))
  | Int t, Int u => Some (Int (int_slice_assign t range.1 range.2 u))
  | _, _ => None
  end.

(** mod.rs *)
Definition wrap_primitive (d : TensorDevice) (p : Primitive) (n : nat) : trun TensorBuffer :=
  fun s => let k := fresh (dom s) in
    (<[k := {| poisoned := false; guarded := Some p |}]> s,
     Ok {| value := k; device := tensor_device d; tensor_length := n |}).

Definition validate_type (d : TensorDevice) : tresult unit :=
  fail_if (negb (supports_dtype (tensor_device d) dtype)) (UnsupportedDType dtype).

Definition validate_tensor_buffer (d : TensorDevice) (b : TensorBuffer) : tresult unit :=
  fail_if (negb (bool_decide (device b = tensor_device d))) DeviceMismatch.

Definition snapshot (b : TensorBuffer) : trun Primitive :=
  fun s => (s, match s !! value b with
    | None => Panic
    | Some m => if poisoned m then Err Poisoned else ok_or (guarded m) Poisoned
    end).

(** A panic of the closure poisons the lock and leaves it empty. *)
Definition update (b : TensorBuffer) (f : Primitive -> option Primitive) : trun unit :=
  fun s => match s !! value b with
    | None => (s, Panic)
    | Some m =>
        if poisoned m then (s, Err Poisoned) else
        match guarded m with
        | None => (s, Err Poisoned)
        | Some previous =>
            match f previous with
            | Some p => (<[value b := {| poisoned := false; guarded := Some p |}]> s, Ok tt)
            | None => (<[value b := {| poisoned := true; guarded := None |}]> s, Panic)
            end
        end
    end.

Definition allocate_tensor (d : TensorDevice) (n : nat) : trun TensorBuffer :=
  _ ← pure (validate_type d);
  _ ← pure (checked_length n);
  p ← pure (match dtype with
            | DType.F32 | DType.F16 | DType.BF16 => Ok (Float (float_empty n (tensor_device d)))
            | DType.I32 | DType.I64 | DType.U8 | DType.U32 => Ok (Int (int_empty n (tensor_device d)))
            | DType.Other => Panic
            end);
  wrap_primitive d p n.

Definition from_values (d : TensorDevice) (values : list T) : Primitive :=
  if int_dtype dtype then Int (int_from_data values (tensor_device d))
  else Float (float_from_data values (tensor_device d)).

Definition upload (d : TensorDevice) (values : list T) : trun TensorBuffer :=
  _ ← pure (validate_type d);
  _ ← pure (checked_length (length values));
  wrap_primitive d (from_values d values) (length values).

Definition validate_import (d : TensorDevice) (meta : DType * BDevice * list nat) : tresult nat :=
  let '(actual, dev, shape) := meta in
  _ ← fail_if (negb (bool_decide (actual = dtype))) (DTypeMismatch dtype actual);
  _ ← fail_if (negb (bool_decide (dev = tensor_device d))) DeviceMismatch;
  _ ← fail_if (negb (length shape =? 1)%nat)
        (InvalidBuffer "collective tensors must have rank one");
  n ← index shape 0;
  _ ← checked_length n;
  Ok n.

Definition import_float (d : TensorDevice) (t : FloatTensor) : trun TensorBuffer :=
  _ ← pure (fail_if (match dtype with DType.U8 | DType.I32 | DType.I64 => true | _ => false end)
              (InvalidBuffer "integer elements require import_int"));
  _ ← pure (validate_type d);
  n ← pure (validate_import d (float_meta t));
  wrap_primitive d (Float t) n.

Definition import_int (d : TensorDevice) (t : IntTensor) : trun TensorBuffer :=
  _ ← pure (fail_if (negb (int_dtype dtype))
              (InvalidBuffer "floating elements require import_float"));
  _ ← pure (validate_type d);
  n ← pure (validate_import d (int_meta t));
  wrap_primitive d (Int t) n.

Definition write_at (d : TensorDevice) (b : TensorBuffer) (offset : nat) (values : list T) : trun unit :=
  _ ← pure (validate_tensor_buffer d b);
  range ← pure (checked_range (tensor_length b) offset (length values));
  if (range.2 <=? range.1)%nat then mret tt else
  let incoming := from_values d values in
  update b (fun current =>
    if (range.1 =? 0)%nat && (range.2 =? tensor_length b)%nat then Some incoming
    else assign current range incoming).

Definition write (d : TensorDevice) (b : TensorBuffer) (values : list T) : trun unit :=
  _ ← pure (fail_if (negb (length values =? tensor_length b)%nat)
              (InvalidBuffer "collective full write length mismatch"));
  write_at d b 0 values.

Definition into_data (p : Primitive) : tresult TensorData :=
  match p with
  | Float t => map_err Execution (float_into_data t)
  | Int t => map_err Execution (int_into_data t)
  end.

Definition download_at (d : TensorDevice) (b : TensorBuffer) (offset n : nat) : trun (list T) :=
  _ ← pure (validate_tensor_buffer d b);
  range ← pure (checked_range (tensor_length b) offset n);
  if (range.2 <=? range.1)%nat then mret [] else
  p ← snapshot b;
  let p := if negb (range.1 =? 0)%nat || negb (range.2 =? tensor_length b)%nat
           then slice p range else p in
  data ← pure (into_data p);
  pure (map_err Data (into_vec data)).

Definition download (d : TensorDevice) (b : TensorBuffer) : trun (list T) :=
  download_at d b 0 (tensor_length b).

(** reduction.rs *)
Definition reduction_kernel (d : TensorDevice) (op : ReductionOperation) : tresult ReductionOperation :=
  _ ← validate_type d;
  _ ← fail_if (match dtype with DType.I32 | DType.I64 => false | _ => bitwise op end)
        (InvalidOperation "bitwise reductions require I32 or I64 elements");
  Ok op.

Definition prepare (n offset : nat) : tresult TensorReductionLaunch :=
  stop ← ok_or (checked_add_usize offset n)
          (InvalidBuffer "collective reduction range overflow");
  _ ← checked_length stop;
  Ok {| launch_length := n; destination_offset := offset |}.

Definition reduce_values (op : ReductionOperation) (destination source : Primitive) : option Primitive :=
  match destination, source with
  | Float d, Float s =>
      match op with
      | Sum => Some (Float (float_add d s))
      | Product => Some (Float (float_mul d s))
      | Minimum => Some (Float (float_mask_where d (float_lower s d) s))
      | Maximum => Some (Float (float_mask_where d (float_lower d s) s))
      | BitAnd | BitOr | BitXor => None
      end
  | Int d, Int s =>
      Some (Int match op with
      | Sum => int_add d s
      | Product => int_mul d s
      | Minimum => int_mask_where d (int_lower s d) s
      | Maximum => int_mask_where d (int_lower d s) s
      | BitAnd => bitwise_and d s
      | BitOr => bitwise_or d s
      | BitXor => bitwise_xor d s
      end)
  | _, _ => None
  end.

Definition reduce (d : TensorDevice) (op : ReductionOperation) (launch : TensorReductionLaunch)
    (source destination : TensorBuffer) : trun unit :=
  _ ← pure (validate_tensor_buffer d source);
  _ ← pure (validate_tensor_buffer d destination);
  _ ← pure (reduction_kernel d op);
  source_range ← pure (checked_range (tensor_length source) 0 (launch_length launch));
  target_range ← pure (checked_range (tensor_length destination)
                         (destination_offset launch) (launch_length launch));
  if (launch_length launch =? 0)%nat then mret tt else
  let apply current incoming :=
    if (target_range.1 =? 0)%nat && (target_range.2 =? tensor_length destination)%nat
    then reduce_values op current incoming
    else reduced ← reduce_values op (slice current target_range) incoming;
         assign current target_range reduced in
  if (value source =? value destination)%positive then
    update destination (fun current => apply current (slice current source_range))
  else
    incoming ← snapshot source;
    let incoming := if negb (launch_length launch =? tensor_length source)%nat
                    then slice incoming source_range else incoming in
    update destination (fun current => apply current incoming).

(** device.rs: the in-process interface. *)
#[export] Instance tensor_in_process : InProcessDevice T := {
  Store := TensorStore;
  DeviceContext := TensorDevice;
  Buffer := TensorBuffer;
  Kernel := ReductionOperation;
  ReductionLaunch := TensorReductionLaunch;
  DeviceError := TensorDeviceError;
  ELEMENT_SIZE := size_of;
  buffer_len := tensor_length;
  buffer_is_empty b := (tensor_length b =? 0)%nat;
  alloc := allocate_tensor;
  copy_to_device := write;
  copy_to_device_at := write_at;
  copy_from_device := download;
  copy_from_device_at := download_at;
  prepare_reduction n offset := {| launch_length := n; destination_offset := offset |};
  launch_reduction := reduce;
}.
End definitions.

(** ** What the backend promises

    Every tensor of the element type has elements; the operations are
    elementwise, a download returns the elements or an execution error. *)
Class TensorElementLaws (T : Type) `{TensorElement T} := {
  sealed_dtype : dtype <> DType.Other;
  sealed_size : (0 < size_of)%nat;
}.

Class BackendLaws (T : Type) `{TensorElement T, Backend T} := {
  float_elements : FloatTensor -> list T;
  int_elements : IntTensor -> list T;
  bool_elements : BoolTensor -> list bool;
  elem_add : T -> T -> T;
  elem_mul : T -> T -> T;
  elem_and : T -> T -> T;
  elem_or : T -> T -> T;
  elem_xor : T -> T -> T;
  elem_lower : T -> T -> bool;
  float_empty_law n d : length (float_elements (float_empty n d)) = n;
  int_empty_law n d : length (int_elements (int_empty n d)) = n;
  float_from_data_law l d : float_elements (float_from_data l d) = l;
  int_from_data_law l d : int_elements (int_from_data l d) = l;
  float_slice_law t a b : (a <= b <= length (float_elements t))%nat ->
    float_elements (float_slice t a b) = sub a (b - a) (float_elements t);
  int_slice_law t a b : (a <= b <= length (int_elements t))%nat ->
    int_elements (int_slice t a b) = sub a (b - a) (int_elements t);
  float_assign_law t a b u : (a <= b <= length (float_elements t))%nat ->
    length (float_elements u) = (b - a)%nat ->
    float_elements (float_slice_assign t a b u) = put a (float_elements u) (float_elements t);
  int_assign_law t a b u : (a <= b <= length (int_elements t))%nat ->
    length (int_elements u) = (b - a)%nat ->
    int_elements (int_slice_assign t a b u) = put a (int_elements u) (int_elements t);
  float_add_law t u : float_elements (float_add t u) = zip_with elem_add (float_elements t) (float_elements u);
  float_mul_law t u : float_elements (float_mul t u) = zip_with elem_mul (float_elements t) (float_elements u);
  float_lower_law t u : bool_elements (float_lower t u) = zip_with elem_lower (float_elements t) (float_elements u);
  float_mask_law t m u : float_elements (float_mask_where t m u) =
    zip_with (fun b '(x, y) => if b : bool then y else x) (bool_elements m)
      (zip (float_elements t) (float_elements u));
  int_add_law t u : int_elements (int_add t u) = zip_with elem_add (int_elements t) (int_elements u);
  int_mul_law t u : int_elements (int_mul t u) = zip_with elem_mul (int_elements t) (int_elements u);
  int_lower_law t u : bool_elements (int_lower t u) = zip_with elem_lower (int_elements t) (int_elements u);
  int_mask_law t m u : int_elements (int_mask_where t m u) =
    zip_with (fun b '(x, y) => if b : bool then y else x) (bool_elements m)
      (zip (int_elements t) (int_elements u));
  and_law t u : int_elements (bitwise_and t u) = zip_with elem_and (int_elements t) (int_elements u);
  or_law t u : int_elements (bitwise_or t u) = zip_with elem_or (int_elements t) (int_elements u);
  xor_law t u : int_elements (bitwise_xor t u) = zip_with elem_xor (int_elements t) (int_elements u);
  float_into_data_law t :
    (exists e, float_into_data t = Err e) \/
    (exists d, float_into_data t = Ok d /\ into_vec d = Ok (float_elements t));
  int_into_data_law t :
    (exists e, int_into_data t = Err e) \/
    (exists d, int_into_data t = Ok d /\ into_vec d = Ok (int_elements t));
}.

Abbreviation TensorStore := (gmap positive MutexCell).

Section laws.
Context {T : Type} `{HE : TensorElement T} `{HB : Backend T}.
Context `{HL : !TensorElementLaws T} `{HBL : !BackendLaws T}.

Definition elements (p : Primitive) : list T :=
  match p with Float t => float_elements t | Int t => int_elements t end.

Definition typed (p : Primitive) : bool :=
  match p with Float _ => negb (int_dtype dtype) | Int _ => int_dtype dtype end.

(** One element of a reduction: the destination comes first. *)
Definition elem_reduce (op : ReductionOperation) (x y : T) : T :=
  match op with
  | Sum => elem_add x y
  | Product => elem_mul x y
  | Minimum => if elem_lower y x then y else x
  | Maximum => if elem_lower x y then y else x
  | BitAnd => elem_and x y
  | BitOr => elem_or x y
  | BitXor => elem_xor x y
  end.

Definition tensor_view (s : TensorStore) (k : positive) : option (list T) :=
  m ← s !! k;
  if poisoned m then None else
  p ← guarded m;
  if typed p then Some (elements p) else None.

#[export] Instance tensor_device_view : DeviceView T := {
  Cell := positive;
  cell := value;
  view := tensor_view;
  usable d b := device b = tensor_device d /\ fits_usize (tensor_length b);
  allocatable d n := supports_dtype (tensor_device d) dtype = true /\
    Z.of_nat n * Z.of_nat size_of <= isize_max;
  computes d op := supports_dtype (tensor_device d) dtype = true /\
    (bitwise op = true -> dtype = DType.I32 \/ dtype = DType.I64);
  combine := elem_reduce;
  device_error e := exists x, e = Execution x;
}.

(** ** Primitives *)
Lemma view_Some (s : TensorStore) k l :
  tensor_view s k = Some l <->
  exists p, s !! k = Some {| poisoned := false; guarded := Some p |} /\ typed p = true /\ elements p = l.
Proof using Type.
  unfold tensor_view. split.
  - destruct (s !! k) as [[[] [p|]]|]; cbn; try done. destruct (typed p) eqn:Hp; [|done].
    intros [= <-]. eauto.
  - intros (p & -> & Hp & <-). cbn. by rewrite Hp.
Qed.

Lemma slice_typed p range : typed (slice p range) = typed p.
Proof using Type. by destruct p. Qed.

Lemma elements_slice p a b :
  (a <= b <= length (elements p))%nat -> elements (slice p (a, b)) = sub a (b - a) (elements p).
Proof using Type. destruct p; cbn; intros; [by apply float_slice_law|by apply int_slice_law]. Qed.

Lemma assign_ok p a b v :
  typed p = true -> typed v = true -> (a <= b <= length (elements p))%nat ->
  length (elements v) = (b - a)%nat ->
  exists q, assign p (a, b) v = Some q /\ typed q = true /\ elements q = put a (elements v) (elements p).
Proof using Type.
  destruct p as [t|t], v as [u|u]; cbn; intros Hp Hv Hab Hl; try (by rewrite Hp in Hv).
  - eexists. split; [done|]. split; [done|]. by apply float_assign_law.
  - destruct (int_dtype dtype); done.
  - eexists. split; [done|]. split; [done|]. by apply int_assign_law.
Qed.

Lemma from_values_typed d l : typed (from_values d l) = true /\ elements (from_values d l) = l.
Proof using Type.
  unfold from_values. destruct (int_dtype dtype) eqn:Hi; cbn; rewrite Hi; split; try done.
  - apply int_from_data_law.
  - apply float_from_data_law.
Qed.

(** A mask keeps the destination or takes the source. *)
Lemma zip_mask (f : T -> T -> bool) (x y : list T) :
  zip_with (fun b '(u, v) => if b : bool then v else u) (zip_with f x y) (zip x y) =
  zip_with (fun u v => if f u v then v else u) x y.
Proof using Type. revert y. induction x as [|u x IH]; intros [|v y]; cbn; [done..|]. by rewrite IH. Qed.

Lemma zip_mask_flip (f : T -> T -> bool) (x y : list T) :
  zip_with (fun b '(u, v) => if b : bool then v else u) (zip_with f y x) (zip x y) =
  zip_with (fun u v => if f v u then v else u) x y.
Proof using Type. revert y. induction x as [|u x IH]; intros [|v y]; cbn; [done..|]. by rewrite IH. Qed.

Lemma reduce_values_ok op p q :
  typed p = true -> typed q = true ->
  (bitwise op = true -> dtype = DType.I32 \/ dtype = DType.I64) ->
  exists r, reduce_values op p q = Some r /\ typed r = true /\
    elements r = zip_with (elem_reduce op) (elements p) (elements q).
Proof using Type.
  destruct p as [t|t], q as [u|u]; cbn; intros Hp Hq Hop; try (by rewrite Hp in Hq).
  - assert (Hnb : bitwise op = false).
    { destruct (bitwise op); [|done]. destruct Hop as [Hd|Hd]; [done|..]; by rewrite Hd in Hp. }
    destruct op; try discriminate Hnb; eexists; (split; [done|]); (split; [done|]); cbn.
    + apply float_add_law.
    + apply float_mul_law.
    + rewrite float_mask_law, float_lower_law. apply zip_mask_flip.
    + rewrite float_mask_law, float_lower_law. apply zip_mask.
  - destruct (int_dtype dtype); done.
  - eexists. split; [done|]. split; [done|]. destruct op; cbn.
    + apply int_add_law.
    + apply int_mul_law.
    + rewrite int_mask_law, int_lower_law. apply zip_mask_flip.
    + rewrite int_mask_law, int_lower_law. apply zip_mask.
    + apply and_law.
    + apply or_law.
    + apply xor_law.
Qed.

(** ** Checks *)
Lemma validate_tensor_buffer_ok d b : device b = tensor_device d -> validate_tensor_buffer d b = Ok tt.
Proof using Type. intros Hd. unfold validate_tensor_buffer. by rewrite Hd, bool_decide_true. Qed.

Lemma validate_type_ok d : supports_dtype (tensor_device d) dtype = true -> validate_type d = Ok tt.
Proof using Type. intros Hd. unfold validate_type. by rewrite Hd. Qed.

Lemma checked_length_ok n : Z.of_nat n * Z.of_nat size_of <= isize_max -> checked_length n = Ok tt.
Proof using Type.
  intros Hn. unfold isize_max in Hn. unfold checked_length, checked_mul.
  rewrite checked_in by (unfold in_width; lia). cbn [ok_or mbind outcome_bind].
  apply fail_if_Ok. unfold isize_max. lia.
Qed.

Lemma checked_range_ok total offset n :
  fits_usize total -> (offset + n <= total)%nat ->
  checked_range total offset n = Ok (offset, (offset + n)%nat).
Proof using Type.
  intros Hfit Hle. unfold checked_range.
  rewrite checked_add_usize_Some by by eapply fits_usize_le.
  cbn [ok_or mbind outcome_bind]. by rewrite (proj2 (Nat.ltb_ge _ _)) by done.
Qed.

Lemma allocatable_fits n : Z.of_nat n * Z.of_nat size_of <= isize_max -> fits_usize n.
Proof using HL. unfold isize_max, fits_usize. pose proof sealed_size. nia. Qed.

(** ** The store *)
Lemma wrap_wp d p n (Q : TensorBuffer -> TensorStore -> Prop) s :
  typed p = true -> length (elements p) = n ->
  (forall b s', device b = tensor_device d -> tensor_length b = n -> tensor_view s (value b) = None ->
    updated s (value b) (elements p) s' -> Q b s') ->
  wp device_error (wrap_primitive d p n) Q s.
Proof using Type.
  intros Hp Hn HQ. unfold wp, wrap_primitive. apply HQ; cbn; [done|done| |].
  - unfold tensor_view. by rewrite (not_elem_of_dom_1 s _ (is_fresh (dom s))).
  - intros k'. cbn. unfold tensor_view. case_decide as Heq.
    + rewrite Heq, lookup_insert_eq. cbn. by rewrite Hp.
    + by rewrite lookup_insert_ne by congruence.
Qed.

Lemma update_wp d b l f (Q : unit -> TensorStore -> Prop) s :
  holds s d b l ->
  (forall p, typed p = true -> elements p = l ->
    exists q, f p = Some q /\ typed q = true /\
      forall s', updated s (value b) (elements q) s' -> Q tt s') ->
  wp device_error (update b f) Q s.
Proof using Type.
  intros [_ Hv _] Hf. cbn in Hv. apply view_Some in Hv as (p & Hp & Ht & He).
  destruct (Hf p Ht He) as (q & Hq & Htq & HQ). unfold wp, update. rewrite Hp. cbn. rewrite Hq.
  apply HQ. intros k'. cbn. unfold tensor_view. case_decide as Heq.
  - rewrite Heq, lookup_insert_eq. cbn. by rewrite Htq.
  - by rewrite lookup_insert_ne by congruence.
Qed.

Lemma snapshot_wp d b l (Q : Primitive -> TensorStore -> Prop) s :
  holds s d b l -> (forall p, typed p = true -> elements p = l -> Q p s) ->
  wp device_error (snapshot b) Q s.
Proof using Type.
  intros [_ Hv _] HQ. cbn in Hv. apply view_Some in Hv as (p & Hp & Ht & He).
  unfold wp, snapshot. rewrite Hp. cbn. by apply HQ.
Qed.

Lemma updated_refl s k l : tensor_view s k = Some l -> updated s k l s.
Proof using Type. intros Hv k'. cbn. by case_decide; subst. Qed.

(** ** The operations *)
Lemma alloc_wp d n s :
  allocatable d n ->
  wp device_error (allocate_tensor d n) (fun b s' =>
    usable d b /\ tensor_length b = n /\ tensor_view s (value b) = None /\
    exists l, length l = n /\ updated s (value b) l s') s.
Proof using HL.
  intros [Hsup Hn]. unfold allocate_tensor.
  apply wp_bind. eapply wp_pure; [by apply validate_type_ok|]. cbv beta.
  apply wp_bind. eapply wp_pure; [by apply checked_length_ok|]. cbv beta.
  assert (Hp : exists p, typed p = true /\ length (elements p) = n /\
    match dtype with
    | DType.F32 | DType.F16 | DType.BF16 => Ok (Float (float_empty n (tensor_device d)))
    | DType.I32 | DType.I64 | DType.U8 | DType.U32 => Ok (Int (int_empty n (tensor_device d)))
    | DType.Other => Panic
    end = Ok (E:=TensorDeviceError) p).
  { pose proof sealed_dtype as Hs. unfold typed.
    destruct dtype; try done; eexists; (split; [|split; [|done]]);
      cbn; try done; [apply float_empty_law|..]; try apply float_empty_law; apply int_empty_law. }
  destruct Hp as (p & Ht & Hl & Heq).
  apply wp_bind. eapply wp_pure; [exact Heq|]. cbv beta.
  apply wrap_wp; [done|done|]. intros b s' Hd Hb Hv Hu.
  split; [split; [done|rewrite Hb; by apply allocatable_fits]|]. split; [done|]. split; [done|].
  by exists (elements p).
Qed.

Lemma write_at_wp d b l offset values s :
  holds s d b l -> (offset + length values <= tensor_length b)%nat ->
  wp device_error (write_at d b offset values)
    (fun _ s' => updated s (value b) (put offset values l) s') s.
Proof using HL.
  intros Hh Hle. destruct Hh as [[Hdev Hfit] Hv Hl] eqn:HH. clear HH. unfold write_at.
  apply wp_bind. eapply wp_pure; [by apply validate_tensor_buffer_ok|]. cbv beta.
  apply wp_bind. eapply wp_pure; [by apply checked_range_ok|]. cbv beta. cbn [fst snd].
  destruct (Nat.leb_spec (offset + length values) offset) as [Hempty|Hne].
  { apply wp_ret. rewrite (nil_length_inv values) by lia. unfold put. cbn [length app].
    rewrite Nat.add_0_r, take_drop. by apply updated_refl. }
  destruct (from_values_typed d values) as [Hti Hei].
  eapply update_wp; [exact Hh|]. intros p Hp He.
  destruct (Nat.eqb_spec offset 0) as [->|Hoff]; cbn [andb].
  - destruct (Nat.eqb_spec (0 + length values) (tensor_length b)) as [Hfull|Hpart].
    + exists (from_values d values). split; [done|]. split; [done|]. intros s' Hu.
      rewrite Hei in Hu. unfold put. rewrite take_0, drop_ge by (cbn in Hl; lia). cbn [app].
      by rewrite app_nil_r.
    + destruct (assign_ok p 0 (0 + length values) (from_values d values)) as (q & Hq & Htq & Heq);
        [done|done|rewrite He; cbn in Hl; lia|rewrite Hei; lia|].
      exists q. split; [done|]. split; [done|]. intros s' Hu. by rewrite Heq, Hei, He in Hu.
  - destruct (assign_ok p offset (offset + length values) (from_values d values)) as (q & Hq & Htq & Heq);
      [done|done|rewrite He; cbn in Hl; lia|rewrite Hei; lia|].
    exists q. split; [done|]. split; [done|]. intros s' Hu. by rewrite Heq, Hei, He in Hu.
Qed.

(** A write whose arguments are in range cannot fail. *)
Lemma write_at_total d b l offset values s :
  holds s d b l -> (offset + length values <= tensor_length b)%nat ->
  exists s', write_at d b offset values s = (s', Ok tt) /\ updated s (value b) (put offset values l) s'.
Proof using HL.
  intros Hh Hle. pose proof (write_at_wp d b l offset values s Hh Hle) as Hwp.
  pose proof (holds_usable _ _ _ _ Hh) as [Hdev Hfit]. pose proof (holds_view _ _ _ _ Hh) as Hv.
  cbn in Hv. apply view_Some in Hv as (p & Hp & _ & _).
  unfold wp in Hwp. destruct (write_at d b offset values s) as [s' [[]|e|]] eqn:Hrun; [by exists s'| |done].
  exfalso. destruct Hwp as [x ->]. revert Hrun. unfold write_at.
  rewrite validate_tensor_buffer_ok, checked_range_ok by done. unfold mbind, comp_bind, pure. cbn [fst snd].
  destruct (_ <=? _)%nat; [done|]. unfold update. rewrite Hp. cbn [poisoned guarded].
  by match goal with |- context [match ?m with Some _ => _ | None => _ end] => destruct m end.
Qed.

Lemma write_wp d b l values s :
  holds s d b l -> length values = tensor_length b ->
  wp device_error (write d b values) (fun _ s' => updated s (value b) values s') s.
Proof using HL.
  intros Hh Hlen. unfold write. apply wp_bind. eapply (wp_pure _ tt).
  { apply fail_if_Ok. by rewrite Hlen, Nat.eqb_refl. }
  cbv beta. eapply wp_mono; [eapply write_at_wp; [exact Hh|lia]|].
  intros u s' Hu. pose proof (holds_length _ _ _ _ Hh) as Hl. cbn in Hl.
  unfold put in Hu. rewrite take_0, drop_ge in Hu by lia. cbn [app] in Hu.
  by rewrite app_nil_r in Hu.
Qed.

Lemma into_data_wp {A} p (f : TensorData -> comp TensorStore TensorDeviceError A) (Q : A -> TensorStore -> Prop) s :
  (forall data, into_vec data = Ok (elements p) -> wp device_error (f data) Q s) ->
  wp device_error (data ← pure (into_data p); f data) Q s.
Proof using Type.
  intros Hf. apply wp_bind. unfold wp, pure.
  destruct p as [t|t]; cbn.
  - destruct (float_into_data_law t) as [[e He]|[data [He Hv]]]; rewrite He; cbn; [by exists e|by apply Hf].
  - destruct (int_into_data_law t) as [[e He]|[data [He Hv]]]; rewrite He; cbn; [by exists e|by apply Hf].
Qed.

Lemma download_at_wp d b l offset n s :
  holds s d b l -> (offset + n <= tensor_length b)%nat ->
  wp device_error (download_at d b offset n)
    (fun values s' => values = sub offset n l /\ unchanged s s') s.
Proof using HL.
  intros Hh Hle. pose proof (holds_usable _ _ _ _ Hh) as [Hdev Hfit].
  pose proof (holds_length _ _ _ _ Hh) as Hl. cbn in Hl. unfold download_at.
  apply wp_bind. eapply wp_pure; [by apply validate_tensor_buffer_ok|]. cbv beta.
  apply wp_bind. eapply wp_pure; [by apply checked_range_ok|]. cbv beta. cbn [fst snd].
  destruct (Nat.leb_spec (offset + n) offset) as [Hempty|Hne].
  { apply wp_ret. assert (n = 0%nat) as -> by lia. by split. }
  apply wp_bind. eapply snapshot_wp; [exact Hh|]. intros p Hp He. cbv zeta.
  apply into_data_wp. intros data Hdata. eapply wp_pure; [by rewrite Hdata|]. split; [|done].
  subst l. destruct (negb (offset =? 0)%nat || negb (offset + n =? tensor_length b)%nat) eqn:Hwhole.
  - rewrite elements_slice by lia. f_equal. lia.
  - apply orb_false_iff in Hwhole as [Ho%negb_false_iff%Nat.eqb_eq Hf%negb_false_iff%Nat.eqb_eq].
    subst offset. unfold sub. rewrite drop_0, take_ge by lia. done.
Qed.

(** One in-place reduction of the target range. *)
Lemma reduce_apply_ok op p q a n total :
  typed p = true -> typed q = true ->
  (bitwise op = true -> dtype = DType.I32 \/ dtype = DType.I64) ->
  length (elements p) = total -> (a + n <= total)%nat -> length (elements q) = n ->
  exists r,
    (if (a =? 0)%nat && (a + n =? total)%nat then reduce_values op p q
     else reduced ← reduce_values op (slice p (a, (a + n)%nat)) q;
          assign p (a, (a + n)%nat) reduced) = Some r /\
    typed r = true /\
    elements r = put a (zip_with (elem_reduce op) (sub a n (elements p)) (elements q)) (elements p).
Proof using Type.
  intros Hp Hq Hop Hl Ha Hn.
  destruct ((a =? 0)%nat && (a + n =? total)%nat) eqn:Hwhole.
  - apply andb_prop in Hwhole as [->%Nat.eqb_eq Hf%Nat.eqb_eq]. cbn in Hf. subst total.
    destruct (reduce_values_ok op p q Hp Hq Hop) as (r & Hr & Ht & He).
    exists r. split; [done|]. split; [done|]. rewrite He. unfold sub, put.
    rewrite take_0, drop_0, (take_ge (elements p)) by lia.
    rewrite drop_ge by (rewrite length_zip_with; lia). cbn [app]. by rewrite app_nil_r.
  - destruct (reduce_values_ok op (slice p (a, (a + n)%nat)) q) as (r & Hr & Ht & He);
      [by rewrite slice_typed|done|done|].
    rewrite elements_slice in He by lia. replace (a + n - a)%nat with n in He by lia.
    rewrite Hr. cbn [mbind option_bind].
    destruct (assign_ok p a (a + n) r) as (v & Hv & Htv & Hev); [done|done|lia| |].
    { rewrite He, length_zip_with, length_sub by lia. lia. }
    exists v. split; [done|]. split; [done|]. by rewrite Hev, He.
Qed.

Lemma reduce_wp d op n offset src dst lsrc ldst s :
  computes d op -> holds s d src lsrc -> holds s d dst ldst -> value src <> value dst ->
  (n <= tensor_length src)%nat -> (offset + n <= tensor_length dst)%nat ->
  wp device_error (reduce d op {| launch_length := n; destination_offset := offset |} src dst)
    (fun _ s' => updated s (value dst)
      (put offset (zip_with (elem_reduce op) (sub offset n ldst) (sub 0 n lsrc)) ldst) s') s.
Proof using HL.
  intros [Hsup Hop] Hs Hd Hne Hn Ho.
  pose proof (holds_usable _ _ _ _ Hs) as [Hds Hfs]. pose proof (holds_length _ _ _ _ Hs) as Hls.
  pose proof (holds_usable _ _ _ _ Hd) as [Hdd Hfd]. pose proof (holds_length _ _ _ _ Hd) as Hld.
  cbn in Hls, Hld. unfold reduce. cbn [launch_length destination_offset].
  apply wp_bind. eapply wp_pure; [by apply validate_tensor_buffer_ok|]. cbv beta.
  apply wp_bind. eapply wp_pure; [by apply validate_tensor_buffer_ok|]. cbv beta.
  apply wp_bind. eapply (wp_pure _ op).
  { unfold reduction_kernel. rewrite validate_type_ok by done. cbn [mbind outcome_bind].
    destruct (bitwise op) eqn:Hb; [|by destruct dtype].
    by destruct (Hop eq_refl) as [-> | ->]. }
  cbv beta. apply wp_bind. eapply wp_pure; [by apply checked_range_ok|]. cbv beta.
  apply wp_bind. eapply wp_pure; [by apply checked_range_ok|]. cbv beta. cbn [fst snd].
  destruct (Nat.eqb_spec n 0) as [->|Hn0].
  { apply wp_ret. unfold sub. rewrite !take_0. cbn [zip_with]. unfold put. cbn [length app].
    rewrite Nat.add_0_r, take_drop. apply updated_refl. apply (holds_view _ _ _ _ Hd). }
  rewrite (proj2 (Pos.eqb_neq _ _)) by done.
  apply wp_bind. eapply snapshot_wp; [exact Hs|]. intros q Hq Heq. cbv zeta.
  set (incoming := if negb (n =? tensor_length src)%nat then _ else _).
  assert (Hin : typed incoming = true /\ elements incoming = sub 0 n lsrc).
  { unfold incoming. destruct (Nat.eqb_spec n (tensor_length src)) as [->|Hpart]; cbn [negb].
    - split; [done|]. unfold sub. rewrite drop_0, take_ge by lia. done.
    - split; [by rewrite slice_typed|]. cbn [plus Nat.add].
      rewrite elements_slice by (rewrite Heq; lia). rewrite Heq. f_equal. lia. }
  destruct Hin as [Hti Hei]. eapply update_wp; [exact Hd|]. intros p Hp Hep.
  destruct (reduce_apply_ok op p incoming offset n (tensor_length dst)) as (r & Hr & Htr & Her);
    [done|done|done|by rewrite Hep|done|rewrite Hei; apply length_sub; lia|].
  exists r. split; [done|]. split; [done|]. intros s' Hu. by rewrite Her, Hei, Hep in Hu.
Qed.

#[export] Instance tensor_device_laws : DeviceLaws T.
Proof using HL.
  split.
  - done.
  - intros. by apply alloc_wp.
  - intros. by eapply write_wp.
  - intros. by eapply write_at_wp.
  - intros d b l s Hh. eapply wp_mono; [eapply download_at_wp; [exact Hh|cbn; lia]|].
    intros values s' [-> Hu]. split; [|done]. pose proof (holds_length _ _ _ _ Hh) as Hl. cbn in Hl.
    unfold sub. rewrite drop_0. apply take_ge. lia.
  - intros. by eapply download_at_wp.
  - intros. by eapply reduce_wp.
Qed.
End laws.
