(* ===== verification/InProcessExchange.v ===== *)
(** * Moving data between ranks: src/src/in_process/collective/{exchange,all_to_all}.rs

    [broadcast], [all_gather], [gather], [scatter], [send_recv], [all_to_all]
    and [all_to_all_v], with the loops of the source, and what each leaves in
    the buffers of every rank. *)
From S2P Require Import Prelude Protocol Errors Layout Ring Operation Comp Device InProcess.
From S2P Require Import InProcessReduction.

(** ** Definitions *)
Record PointToPointTransfer := {
  source_rank : nat;
  source_range : nat * nat;
  destination_rank : nat;
  destination_offset : nat;
  tag : Z;
}.

(** [a.saturating_mul(b)] of two ranks. *)
Definition rank_pairs (w : nat) : Z :=
  saturating_mul usize_bits (Z.of_nat w) (Z.of_nat (w - 1)).

(** [n as u32] *)
Definition steps_of (n : nat) : Z := wrap 32 (Z.of_nat n).

Section definitions.
Context {T : Type} `{InProcessDevice T}.

(** Read and write a window of one rank's buffer. *)
Definition read_rank_at (c : InProcessCollective) (bs : list Buffer) (rank offset n : nat) : run (list T) :=
  ctx ← check (index (contexts c) rank);
  bf ← check (index bs rank);
  on_device (copy_from_device_at ctx bf offset n).

Definition write_rank_at (c : InProcessCollective) (bs : list Buffer) (rank offset : nat) (values : list T) : run unit :=
  ctx ← check (index (contexts c) rank);
  bf ← check (index bs rank);
  on_device (copy_to_device_at ctx bf offset values).

Definition write_rank (c : InProcessCollective) (bs : list Buffer) (rank : nat) (values : list T) : run unit :=
  ctx ← check (index (contexts c) rank);
  bf ← check (index bs rank);
  on_device (copy_to_device ctx bf values).

Definition broadcast (c : InProcessCollective) (b : DistributedBuffer) (root : nat) : run CollectiveStats :=
  _ ← validate_buffer c b;
  root_values ← download_rank c b root;
  _ ← for_each (fun rank =>
        if (rank =? root)%nat then mret tt else write_rank c (buffers b) rank root_values)
      (seq 0 (world_size c));
  let stats := set_steps (Z.b2z (1 <? world_size c)%nat) (stats_new Direct) in
  bytes ← check (transferred_bytes (Z.of_nat (world_size c - 1)) (Z.of_nat (length_per_rank b))
                   (Z.of_nat ELEMENT_SIZE));
  mret (set_bytes bytes stats).

(** One step of the ring of [all_gather]. *)
Definition gather_send (c : InProcessCollective) (output : DistributedBuffer) (n step rank : nat) : run (list T) :=
  send_rank ← check (ring_index rank (world_size c) [step]);
  offset ← check (mul_usize send_rank n);
  read_rank_at c (buffers output) rank offset n.

Definition gather_receive (c : InProcessCollective) (output : DistributedBuffer) (n : nat)
    (staged : list (list T)) (step rank : nat) : run unit :=
  source_rank ← check (ring_index rank (world_size c) [1%nat]);
  receive_rank ← check (ring_index rank (world_size c) [step; 1%nat]);
  offset ← check (mul_usize receive_rank n);
  values ← check (index staged source_rank);
  write_rank_at c (buffers output) rank offset values.

Definition all_gather (c : InProcessCollective) (input : DistributedBuffer) :
    run (DistributedBuffer * CollectiveStats) :=
  _ ← validate_buffer c input;
  let n := length_per_rank input in
  output_length ← check (ok_or (checked_mul_usize n (world_size c))
                           (InProcessError.Overflow "all-gather output length"));
  output ← allocate c output_length;
  _ ← for_each (fun rank =>
        local ← download_rank c input rank;
        offset ← check (mul_usize rank n);
        write_rank_at c (buffers output) rank offset local) (seq 0 (world_size c));
  _ ← for_each (fun step =>
        staged ← collect (gather_send c output n step) (seq 0 (world_size c));
        for_each (gather_receive c output n staged step) (seq 0 (world_size c)))
      (seq 0 (world_size c - 1));
  let stats := set_steps (steps_of (world_size c - 1)) (stats_new Ring) in
  bytes ← check (transferred_bytes (rank_pairs (world_size c)) (Z.of_nat n) (Z.of_nat ELEMENT_SIZE));
  mret (output, set_bytes bytes stats).

Definition gather (c : InProcessCollective) (input : DistributedBuffer) (root : nat) :
    run (RootedBuffer * CollectiveStats) :=
  _ ← validate_buffer c input;
  let n := length_per_rank input in
  output_length ← check (ok_or (checked_mul_usize n (world_size c))
                           (InProcessError.Overflow "gather output length"));
  output ← allocate_rooted c root output_length;
  root_context ← context c root;
  _ ← for_each (fun rank =>
        values ← download_rank c input rank;
        offset ← check (mul_usize rank n);
        on_device (copy_to_device_at root_context (buffer output) offset values))
      (seq 0 (world_size c));
  let stats := set_steps (Z.b2z (1 <? world_size c)%nat) (stats_new Direct) in
  bytes ← check (transferred_bytes (Z.of_nat (world_size c - 1)) (Z.of_nat n) (Z.of_nat ELEMENT_SIZE));
  mret (output, set_bytes bytes stats).

Definition scatter (c : InProcessCollective) (input : RootedBuffer) :
    run (DistributedBuffer * CollectiveStats) :=
  _ ← validate_rooted_buffer c input;
  _ ← check (fail_if (negb (is_multiple_of (Z.of_nat (rooted_len input)) (Z.of_nat (world_size c))))
        (InProcessError.InvalidLength "scatter input length must be divisible by world size"));
  n ← check (div_usize (rooted_len input) (world_size c));
  output ← allocate c n;
  root_context ← context c (root input);
  _ ← for_each (fun rank =>
        offset ← check (mul_usize rank n);
        values ← on_device (copy_from_device_at root_context (buffer input) offset n);
        write_rank c (buffers output) rank values) (seq 0 (world_size c));
  let stats := set_steps (Z.b2z (1 <? world_size c)%nat) (stats_new Direct) in
  bytes ← check (transferred_bytes (Z.of_nat (world_size c - 1)) (Z.of_nat n) (Z.of_nat ELEMENT_SIZE));
  mret (output, set_bytes bytes stats).

Definition send_recv (c : InProcessCollective) (source destination : DistributedBuffer)
    (transfer : PointToPointTransfer) : run CollectiveStats :=
  _ ← validate_buffer c source;
  _ ← validate_buffer c destination;
  source_context ← context c (source_rank transfer);
  destination_context ← context c (destination_rank transfer);
  let '(first, last) := source_range transfer in
  _ ← check (fail_if ((last <? first)%nat || (length_per_rank source <? last)%nat)
        (InProcessError.InvalidLength "send source range is outside the rank buffer"));
  let n := range_len (source_range transfer) in
  destination_end ← check (ok_or (checked_add_usize (destination_offset transfer) n)
                             (InProcessError.Overflow "send destination range"));
  _ ← check (fail_if (length_per_rank destination <? destination_end)%nat
        (InProcessError.InvalidLength "receive destination range is outside the rank buffer"));
  src ← check (index (buffers source) (source_rank transfer));
  values ← on_device (copy_from_device_at source_context src first n);
  dst ← check (index (buffers destination) (destination_rank transfer));
  _ ← on_device (copy_to_device_at destination_context dst (destination_offset transfer) values);
  let stats := set_steps (Z.b2z (negb (n =? 0)%nat)) (stats_new Direct) in
  bytes ← check (transferred_bytes 1 (Z.of_nat n) (Z.of_nat ELEMENT_SIZE));
  mret (set_bytes bytes stats).

Definition all_to_all (c : InProcessCollective) (input : DistributedBuffer) :
    run (DistributedBuffer * CollectiveStats) :=
  _ ← validate_buffer c input;
  _ ← check (fail_if (negb (is_multiple_of (Z.of_nat (length_per_rank input)) (Z.of_nat (world_size c))))
        (InProcessError.InvalidLength "all-to-all rank length must be divisible by world size"));
  n ← check (div_usize (length_per_rank input) (world_size c));
  output ← allocate c (length_per_rank input);
  _ ← for_each (fun source =>
        for_each (fun destination =>
          from ← check (mul_usize destination n);
          values ← read_rank_at c (buffers input) source from n;
          to ← check (mul_usize source n);
          write_rank_at c (buffers output) destination to values) (seq 0 (world_size c)))
      (seq 0 (world_size c));
  let stats := set_steps (steps_of (world_size c - 1)) (stats_new Direct) in
  bytes ← check (transferred_bytes (rank_pairs (world_size c)) (Z.of_nat n) (Z.of_nat ELEMENT_SIZE));
  mret (output, set_bytes bytes stats).

(** [iter.try_fold(0, |sum, count| sum.checked_add(count))] *)
Definition try_sum_usize (total : nat) (counts : list nat) : option nat :=
  foldl (fun acc count => acc ≫= fun sum => checked_add_usize sum count) (Some total) counts.

(** [total.checked_add(counts[destination])] over the rows. *)
Definition column_total (send_counts : list (list nat)) (destination : nat) :
    outcome InProcessError.t (option nat) :=
  foldM (fun acc counts =>
    match acc with
    | None => Ok None
    | Some total => count ← index counts destination; Ok (checked_add_usize total count)
    end) (Some 0%nat) send_counts.

(** The elements that change rank. *)
Definition remote_elements (send_counts : list (list nat)) : option nat :=
  foldl (fun acc '(source, counts) =>
    acc ≫= fun total =>
      foldl (fun acc '(destination, count) =>
        acc ≫= fun total =>
          if (source =? destination)%nat then Some total else checked_add_usize total count)
        (Some total) (enumerate counts))
    (Some 0%nat) (enumerate send_counts).

(** The copies from one source rank: [offsets] are the receive offsets,
    [start] is where the next block starts. *)
Definition send_block (c : InProcessCollective) (output : VariableDistributedBuffer)
    (counts : list nat) (values : list T) (p : list nat * nat) (destination : nat) :
    run (list nat * nat) :=
  let '(offsets, start) := p in
  count ← check (index counts destination);
  stop ← check (ok_or (checked_add_usize start count)
                  (InProcessError.Overflow "all-to-all-v source range"));
  receive ← check (index offsets destination);
  _ ← (if (count =? 0)%nat then mret tt else
       slot ← check (index (variable_buffers output) destination);
       bf ← check (expect slot);
       ctx ← check (index (contexts c) destination);
       block ← check (slice_range values start stop);
       on_device (copy_to_device_at ctx bf receive block));
  next ← check (ok_or (checked_add_usize receive count)
                  (InProcessError.Overflow "all-to-all-v destination range"));
  mret (<[destination := next]> offsets, stop).

Definition all_to_all_v (c : InProcessCollective) (input : DistributedBuffer)
    (send_counts : list (list nat)) : run (VariableDistributedBuffer * CollectiveStats) :=
  _ ← validate_buffer c input;
  _ ← check (fail_if (negb (length send_counts =? world_size c)%nat
               || existsb (fun counts => negb (length counts =? world_size c)%nat) send_counts)
        (InProcessError.InvalidLength "all-to-all-v send_counts must be a world_size square matrix"));
  _ ← check (foldM (fun _ counts =>
        total ← ok_or (try_sum_usize 0 counts) (InProcessError.Overflow "all-to-all-v send count");
        fail_if (negb (total =? length_per_rank input)%nat)
          (InProcessError.InvalidLength
             "each all-to-all-v send-count row must sum to the input rank length")) tt send_counts);
  columns ← check (mapM (column_total send_counts) (seq 0 (world_size c)));
  receive_lengths ← check (ok_or (mapM (fun o => o) columns)
                             (InProcessError.Overflow "all-to-all-v receive count"));
  output ← allocate_variable c receive_lengths;
  _ ← loop (fun offsets '(source, counts) =>
        values ← download_rank c input source;
        p ← loop (send_block c output counts values) (offsets, 0%nat) (seq 0 (world_size c));
        mret p.1) (repeat 0%nat (world_size c)) (enumerate send_counts);
  remote ← check (ok_or (remote_elements send_counts)
                    (InProcessError.Overflow "all-to-all-v transferred elements"));
  let stats := set_steps (steps_of (world_size c - 1)) (stats_new Direct) in
  bytes ← check (transferred_bytes 1 (Z.of_nat remote) (Z.of_nat ELEMENT_SIZE));
  mret (output, set_bytes bytes stats).
End definitions.

(** ** Rules *)
Section rules.
Context {T : Type} `{DeviceLaws T}.
Implicit Types (c : InProcessCollective) (b : DistributedBuffer) (x : nat -> list T).

Lemma wp_read_rank_at c b x r offset n s (Q : list T -> Store -> Prop) :
  distributed s c b x -> (r < world_size c)%nat -> (offset + n <= length_per_rank b)%nat ->
  (forall s', unchanged s s' -> Q (sub offset n (x r)) s') ->
  wp in_error (read_rank_at c (buffers b) r offset n) Q s.
Proof using H1.
  intros Hd Hr Ho HQ. unfold read_rank_at. eapply wp_rank; [exact Hd|exact Hr|].
  intros ctx bf Hctx Hbf Hh Hl. apply wp_on_device.
  eapply wp_mono; [eapply law_copy_from_device_at; [exact Hh|lia]|].
  intros v s' [-> Hu]. by apply HQ.
Qed.

(** One cell of [b] is written. *)
Definition writes b (s s' : Store) : Prop := exists k l, k ∈ cells b /\ updated s k l s'.

Lemma distributed_writes s s' c b b' x :
  distributed s c b x -> writes b' s s' -> (forall k, k ∈ cells b' -> k ∉ cells b) ->
  distributed s' c b x.
Proof using Type. intros Hd (k & l & Hk & Hu) Hdisj. eapply distributed_other; [done|exact Hu|auto]. Qed.

Lemma preserves_writes mine s s' s'' b :
  preserves mine s s' -> writes b s' s'' ->
  (forall k, k ∈ cells b -> k ∈ mine \/ view s k = None) -> preserves mine s s''.
Proof using Type. intros Hp (k & l & Hk & Hu) Hmine. eapply preserves_updated; [done|exact Hu|auto]. Qed.

Lemma wp_write_rank_at c b x r offset values s (Q : unit -> Store -> Prop) :
  distributed s c b x -> (r < world_size c)%nat ->
  (offset + length values <= length_per_rank b)%nat ->
  (forall s', distributed s' c b (set_rank x r (put offset values (x r))) -> writes b s s' -> Q tt s') ->
  wp in_error (write_rank_at c (buffers b) r offset values) Q s.
Proof using H1.
  intros Hd Hr Ho HQ. unfold write_rank_at. eapply wp_rank; [exact Hd|exact Hr|].
  intros ctx bf Hctx Hbf Hh Hl. apply wp_on_device.
  eapply wp_mono; [eapply law_copy_to_device_at; [exact Hh|lia]|].
  intros [] s' Hu. apply HQ.
  - eapply distributed_write; [exact Hd|exact Hbf|exact Hu|].
    rewrite length_put; by rewrite (dist_length _ _ _ _ Hd r Hr).
  - exists (cell bf), (put offset values (x r)). split; [by eapply cells_elem|done].
Qed.

Lemma wp_write_rank_whole c b x r values s (Q : unit -> Store -> Prop) :
  distributed s c b x -> (r < world_size c)%nat -> length values = length_per_rank b ->
  (forall s', distributed s' c b (set_rank x r values) -> writes b s s' -> Q tt s') ->
  wp in_error (write_rank c (buffers b) r values) Q s.
Proof using H1.
  intros Hd Hr Hlen HQ. unfold write_rank. eapply wp_rank; [exact Hd|exact Hr|].
  intros ctx bf Hctx Hbf Hh Hl. apply wp_on_device.
  eapply wp_mono; [eapply law_copy_to_device; [exact Hh|congruence]|].
  intros [] s' Hu. apply HQ.
  - by eapply distributed_write.
  - exists (cell bf), values. split; [by eapply cells_elem|done].
Qed.

Lemma set_rank_partly x x' r r' :
  set_rank (partly x x' r) r (x' r) r' = partly x x' (r + 1) r'.
Proof using Type.
  unfold partly, set_rank.
  destruct (Nat.eqb_spec r' r) as [->|Hne]; [by rewrite (proj2 (Nat.ltb_lt _ _)) by lia|].
  destruct (Nat.ltb_spec r' r), (Nat.ltb_spec r' (r + 1)); (done || lia).
Qed.

(** ** broadcast *)
Lemma wp_broadcast c b x root s :
  distributed s c b x -> (root < world_size c)%nat ->
  Z.of_nat (world_size c - 1) * Z.of_nat (length_per_rank b) * Z.of_nat ELEMENT_SIZE < 2 ^ 64 ->
  (0 < ELEMENT_SIZE)%nat ->
  wp in_error (broadcast c b root) (fun stats s' =>
    distributed s' c b (fun _ => x root) /\ preserves (cells b) s s' /\
    stats_bytes stats =
      Z.of_nat (world_size c - 1) * Z.of_nat (length_per_rank b) * Z.of_nat ELEMENT_SIZE) s.
Proof using H1.
  intros Hd Hroot Hbytes Hsize. unfold broadcast.
  apply wp_bind, wp_validate_buffer; [apply Hd|].
  apply wp_bind. eapply wp_download_rank; [exact Hd|done|]. intros s1 Hu1.
  pose proof (dist_length _ _ _ _ Hd root Hroot) as Hlen.
  apply wp_bind. apply (wp_for_each (fun r s' =>
    distributed s' c b (partly x (fun _ => x root) r) /\ preserves (cells b) s s')).
  - split; [|by eapply preserves_unchanged; [apply preserves_refl|]].
    apply partly_none. by eapply distributed_unchanged.
  - intros r s' Hr [Hd' Hp']. destruct (Nat.eqb_spec r root) as [->|Hne].
    { apply wp_ret. split; [|done]. by apply partly_skip. }
    eapply wp_write_rank_whole; [exact Hd'|done|done|]. intros s'' Hd'' Hw. split.
    + eapply distributed_ext; [|exact Hd'']. intros r' _. exact (set_rank_partly x (fun _ => x root) r r').
    + eapply preserves_writes; [exact Hp'|exact Hw|by left].
  - intros s' [Hd' Hp']. cbv zeta.
    apply wp_bind. eapply wp_check; [apply transferred_bytes_ok; lia|]. cbv beta.
    apply wp_ret. split; [by eapply partly_done|]. by split.
Qed.

(** ** all_gather *)
Definition block_start (n k : nat) : nat := (k * n)%nat.

Lemma block_mono n j k : (j <= k)%nat -> (block_start n j <= block_start n k)%nat.
Proof using Type. unfold block_start. nia. Qed.

Lemma block_len n k : part_len (block_start n) k = n.
Proof using Type. unfold part_len, block_start. lia. Qed.

(** Every block of [l] is known. *)
Lemma blocks_concat w n (g : nat -> list T) (l : list T) :
  length l = (w * n)%nat -> (forall k, (k < w)%nat -> part (block_start n) k l = g k) ->
  l = concat (map g (seq 0 w)).
Proof using Type.
  intros Hl Hg. rewrite <- (concat_parts (block_start n) w (block_mono n) l); [|done|done].
  f_equal. apply map_ext_in. intros k Hk%in_seq. apply Hg. lia.
Qed.

Section ring.
Context (c : InProcessCollective) (output : DistributedBuffer) (n : nat).
Let w := world_size c.
Hypothesis (Hw : (0 < w)%nat) (Hfit : fits_usize (2 * w))
  (Hlen : length_per_rank output = (w * n)%nat) (Htotal : fits_usize (w * n)).

Definition all_chunk (x : nat -> list T) (r k : nat) : list T := part (block_start n) k (x r).

Lemma block_fits k : (k < w)%nat -> (k * n + n <= w * n)%nat.
Proof using Hw Hfit Hlen Htotal. intros. nia. Qed.

Lemma fits_block k : (k < w)%nat -> fits_usize (k * n).
Proof using Hw Hfit Hlen Htotal. intros. eapply fits_usize_le; [|exact Htotal]. nia. Qed.

Lemma length_all_chunk s x r k :
  distributed s c output x -> (r < w)%nat -> (k < w)%nat -> length (all_chunk x r k) = n.
Proof using Hw Hfit Hlen Htotal.
  intros Hd Hr Hk. unfold all_chunk. rewrite (length_part _ w (block_mono n)); [apply block_len|done|].
  rewrite (dist_length _ _ _ _ Hd r Hr), Hlen. done.
Qed.

Lemma wp_gather_send x step r s (Q : list T -> Store -> Prop) :
  distributed s c output x -> (r < w)%nat -> (step <= w)%nat ->
  (forall s', unchanged s s' -> Q (all_chunk x r ((r + w - step) mod w)%nat) s') ->
  wp in_error (gather_send c output n step r) Q s.
Proof using Hw Hfit Hlen Htotal H1.
  intros Hd Hr Hstep HQ. unfold gather_send. fold w.
  assert (Hk : ((r + w - step) mod w < w)%nat) by (apply Nat.mod_upper_bound; lia).
  apply wp_bind. eapply wp_check.
  { apply ring_index_ok; [done|eapply fits_usize_le; [|exact Hfit]; lia|cbn; lia]. }
  cbv beta. replace (list_sum [step]) with step by (cbn; lia).
  apply wp_bind. eapply wp_check; [by apply mul_usize_ok, fits_block|]. cbv beta.
  eapply wp_read_rank_at; [exact Hd|done|rewrite Hlen; by apply block_fits|].
  intros s' Hu. apply HQ in Hu. unfold all_chunk, part in Hu. by rewrite block_len in Hu.
Qed.

Definition placed (x : nat -> list T) (step r : nat) : list T :=
  let k := ((r + w - step - 1) mod w)%nat in
  put (k * n) (all_chunk x (predecessor w r) k) (x r).

Lemma wp_gather_receive x staged step r s1 s (Q : unit -> Store -> Prop) :
  distributed s1 c output x -> (S step < w)%nat -> (r < w)%nat ->
  (forall r, (r < w)%nat -> staged !! r = Some (all_chunk x r ((r + w - step) mod w)%nat)) ->
  distributed s c output (partly x (placed x step) r) ->
  (forall s', distributed s' c output (partly x (placed x step) (r + 1)) -> writes output s s' -> Q tt s') ->
  wp in_error (gather_receive c output n staged step r) Q s.
Proof using Hw Hfit Hlen Htotal H1.
  intros Hd1 Hstep Hr Hstaged Hd HQ. unfold gather_receive. fold w.
  assert (Hp : (predecessor w r < w)%nat) by (by apply predecessor_lt).
  assert (Hk : ((r + w - step - 1) mod w < w)%nat) by (apply Nat.mod_upper_bound; lia).
  apply wp_bind. eapply wp_check.
  { apply ring_index_ok; [done|eapply fits_usize_le; [|exact Hfit]; lia|cbn; lia]. }
  cbv beta. apply wp_bind. eapply wp_check.
  { apply ring_index_ok; [done|eapply fits_usize_le; [|exact Hfit]; lia|cbn; lia]. }
  cbv beta. replace ((r + w - list_sum [step; 1%nat]) mod w)%nat with ((r + w - step - 1) mod w)%nat
    by (f_equal; cbn; lia).
  change ((r + w - list_sum [1%nat]) mod w)%nat with (predecessor w r).
  apply wp_bind. eapply wp_check; [by apply mul_usize_ok, fits_block|]. cbv beta.
  apply wp_bind. eapply wp_check; [by apply index_Ok, Hstaged|]. cbv beta.
  rewrite (send_gather w Hw step r) by lia.
  eapply wp_write_rank_at; [exact Hd|done| |].
  { rewrite (length_all_chunk _ _ _ _ Hd1 Hp Hk), Hlen. by apply block_fits. }
  rewrite partly_at. intros s' Hd' Hwr. apply HQ; [|done].
  eapply distributed_ext; [|exact Hd']. intros r' _. exact (set_rank_partly x (placed x step) r r').
Qed.

Lemma all_chunk_placed s x step r k :
  distributed s c output x -> (r < w)%nat -> (k < w)%nat ->
  all_chunk (placed x step) r k =
    ring_step w (fun _ incoming => incoming) (fun r => (r + w - step - 1) mod w)%nat (all_chunk x) r k.
Proof using Hw Hfit Hlen Htotal.
  intros Hd Hr Hk. unfold all_chunk, placed.
  apply (part_ring_step (block_start n) w (block_mono n) (fun _ incoming => incoming)
    (fun r => (r + w - step - 1) mod w)%nat); try done.
  - intros r' Hr'. by rewrite (dist_length _ _ _ _ Hd r' Hr'), Hlen.
  - apply Nat.mod_upper_bound. lia.
Qed.

Lemma wp_gather_steps x own s0 s (Q : unit -> Store -> Prop) :
  distributed s c output x -> preserves own s0 s ->
  (forall k, k ∈ cells output -> k ∈ own \/ view s0 k = None) ->
  (forall s' x', distributed s' c output x' -> preserves own s0 s' ->
    (forall r k, (r < w)%nat -> (k < w)%nat -> all_chunk x' r k = all_chunk x k k) -> Q tt s') ->
  wp in_error (for_each (fun step =>
    staged ← collect (gather_send c output n step) (seq 0 w);
    for_each (gather_receive c output n staged step) (seq 0 w)) (seq 0 (w - 1))) Q s.
Proof using Hw Hfit Hlen Htotal H1.
  intros Hd Hp Hown HQ.
  apply (wp_for_each (fun step s' => exists x', distributed s' c output x' /\ preserves own s0 s' /\
    forall r k, (r < w)%nat -> (k < w)%nat -> all_chunk x' r k =
      ring_steps w (fun _ incoming => incoming) (fun s r => (r + w - s - 1) mod w)%nat
        (all_chunk x) step r k)).
  - by exists x.
  - intros step s' Hstep (x' & Hd' & Hp' & Hx'). apply wp_bind.
    apply (wp_collect (fun _ s'' => unchanged s' s'')
      (fun r v => v = all_chunk x' r ((r + w - step) mod w)%nat)); [done| |].
    + intros r s1 Hr Hu. eapply wp_gather_send; [by eapply distributed_unchanged|done|lia|].
      intros s2 Hu2. split; [done|]. intros k. by rewrite (Hu2 k), (Hu k).
    + intros staged s1 Hsl HP Hu. pose proof (distributed_unchanged _ _ _ _ _ Hd' Hu) as Hd1.
      apply (wp_for_each (fun r s2 => distributed s2 c output (partly x' (placed x' step) r) /\
        preserves own s0 s2)).
      * split; [by apply partly_none|by eapply preserves_unchanged].
      * intros r s2 Hr [Hd2 Hp2]. eapply wp_gather_receive; [exact Hd'|lia|done| |exact Hd2|].
        { intros r' Hr'. destruct (lookup_lt_is_Some_2 staged r') as [y Hy]; [lia|].
          rewrite Hy. f_equal. by apply HP. }
        intros s3 Hd3 Hw3. split; [done|]. by eapply preserves_writes.
      * intros s2 [Hd2 Hp2]. exists (placed x' step). split; [by eapply partly_done|]. split; [done|].
        intros r k Hr Hk. rewrite (all_chunk_placed _ _ _ _ _ Hd' Hr Hk), Nat.add_1_r.
        cbn [ring_steps]. apply ring_step_ext; [done|done|]. intros r' Hr'. by apply Hx'.
  - intros s' (x' & Hd' & Hp' & Hx'). eapply HQ; [exact Hd'|done|]. intros r k Hr Hk.
    rewrite Hx' by done. rewrite (ring_copied w Hw 0) by (done || lia || by apply follows_gather).
    by rewrite Nat.add_0_r, Nat.mod_small.
Qed.
End ring.

Lemma rank_pairs_eq w : Z.of_nat (w * w) < 2 ^ 64 -> rank_pairs w = Z.of_nat w * Z.of_nat (w - 1).
Proof using Type.
  intros Hw. unfold rank_pairs, saturating_mul. apply saturate_in. unfold in_width. nia.
Qed.

Lemma steps_of_eq n : Z.of_nat n < 2 ^ 32 -> steps_of n = Z.of_nat n.
Proof using Type. intros Hn. unfold steps_of. apply wrap_in. unfold in_width. lia. Qed.

Lemma fits_world w : Z.of_nat (w * w) < 2 ^ 64 -> fits_usize (2 * w).
Proof using Type. unfold fits_usize. nia. Qed.

Lemma wp_all_gather c b x s :
  let w := world_size c in let n := length_per_rank b in
  distributed s c b x -> (0 < w)%nat -> Z.of_nat (w * w) < 2 ^ 64 -> fits_usize (w * n) ->
  Z.of_nat w * Z.of_nat (w - 1) * Z.of_nat n * Z.of_nat ELEMENT_SIZE < 2 ^ 64 ->
  (0 < ELEMENT_SIZE)%nat -> (forall ctx, ctx ∈ contexts c -> allocatable ctx (w * n)) ->
  wp in_error (all_gather c b) (fun '(output, stats) s' =>
    length_per_rank output = (w * n)%nat /\
    distributed s' c output (fun _ => concat (map x (seq 0 w))) /\
    preserves [] s s' /\ fresh s output /\
    stats_bytes stats = Z.of_nat w * Z.of_nat (w - 1) * Z.of_nat n * Z.of_nat ELEMENT_SIZE) s.
Proof using H1.
  intros w n Hd Hw Hww Hfit Hbytes Hsize Halloc. unfold all_gather. fold n w.
  apply wp_bind, wp_validate_buffer; [apply Hd|]. cbv zeta.
  apply wp_bind. eapply wp_check.
  { rewrite checked_mul_usize_Some; [done|]. by rewrite Nat.mul_comm. }
  cbv beta. rewrite Nat.mul_comm.
  apply wp_bind. eapply wp_allocate; [exact Halloc|]. intros out s1 y Hy Hol Hofresh Hp1.
  assert (Hdisj : forall k, k ∈ cells out -> k ∉ cells b).
  { intros k Hk. exact (fresh_disjoint _ _ _ _ _ _ Hd Hofresh Hk). }
  set (local r := put (r * n) (x r) (y r)).
  apply wp_bind. apply (wp_for_each (fun r s' => distributed s' c b x /\
    distributed s' c out (partly y local r) /\ preserves [] s s')).
  - split; [|split; [by apply partly_none|done]].
    eapply distributed_preserved; [exact Hd|exact Hp1|]. intros k _. apply not_elem_of_nil.
  - intros r s' Hr (Hd' & Hy' & Hp'). apply wp_bind.
    eapply wp_download_rank; [exact Hd'|done|]. intros s2 Hu2.
    pose proof (dist_length _ _ _ _ Hd' r Hr) as Hxr. fold n in Hxr.
    apply wp_bind. eapply wp_check.
    { apply mul_usize_ok. eapply fits_usize_le; [|exact Hfit]. fold w in Hr. nia. }
    cbv beta. eapply wp_write_rank_at; [eapply distributed_unchanged; [exact Hy'|done]|done| |].
    { rewrite Hol, Hxr. fold w in Hr. nia. }
    rewrite partly_at. intros s3 Hy3 Hw3. split; [|split].
    + eapply distributed_writes; [|exact Hw3|done]. by eapply distributed_unchanged.
    + eapply distributed_ext; [|exact Hy3]. intros r' _. exact (set_rank_partly y local r r').
    + eapply preserves_writes; [by eapply preserves_unchanged|exact Hw3|]. intros k Hk. right. by apply Hofresh.
  - intros s2 (_ & Hy2 & Hp2). apply wp_bind.
    eapply (wp_gather_steps c out n Hw (fits_world _ Hww) Hol Hfit);
      [eapply partly_done; exact Hy2|exact Hp2| |].
    { intros k Hk. right. by apply Hofresh. }
    intros s3 x3 Hd3 Hp3 Hx3. cbv zeta.
    apply wp_bind. eapply wp_check.
    { rewrite rank_pairs_eq by done. apply transferred_bytes_ok; [nia|lia|lia|exact Hbytes]. }
    cbv beta. apply wp_ret. split; [done|]. split; [|split; [done|split; [done|done]]].
    eapply distributed_ext; [|exact Hd3]. intros r Hr. fold w in Hr.
    apply (blocks_concat w n); [by rewrite (dist_length _ _ _ _ Hd3 r Hr), Hol|].
    intros k Hk. change (all_chunk n x3 r k = x k). rewrite Hx3 by done.
    unfold all_chunk, local. change (k * n)%nat with (block_start n k).
    rewrite (part_put (block_start n) w (block_mono n)); try done.
    + by rewrite Nat.eqb_refl.
    + by rewrite (dist_length _ _ _ _ Hy k Hk), Hol.
    + rewrite block_len. by apply (dist_length _ _ _ _ Hd).
Qed.

(** ** gather *)
Lemma wp_gather c b x root ctx s :
  let w := world_size c in let n := length_per_rank b in
  distributed s c b x -> contexts c !! root = Some ctx -> fits_usize (w * n) ->
  Z.of_nat (w - 1) * Z.of_nat n * Z.of_nat ELEMENT_SIZE < 2 ^ 64 ->
  (0 < ELEMENT_SIZE)%nat -> allocatable ctx (w * n) ->
  wp in_error (gather c b root) (fun '(output, stats) s' =>
    rooted s' c output ctx (concat (map x (seq 0 w))) /\ InProcess.root output = root /\
    preserves [] s s' /\ view s (cell (buffer output)) = None /\
    stats_bytes stats = Z.of_nat (w - 1) * Z.of_nat n * Z.of_nat ELEMENT_SIZE) s.
Proof using H1.
  intros w n Hd Hctx Hfit Hbytes Hsize Halloc. unfold gather. fold n w.
  pose proof (lookup_lt_Some _ _ _ Hctx) as Hroot. fold (world_size c) w in Hroot.
  apply wp_bind, wp_validate_buffer; [apply Hd|]. cbv zeta.
  apply wp_bind. eapply wp_check.
  { rewrite checked_mul_usize_Some; [done|]. by rewrite Nat.mul_comm. }
  cbv beta. rewrite Nat.mul_comm.
  apply wp_bind. eapply wp_allocate_rooted; [exact Hctx|exact Halloc|].
  intros out s1 l1 [Hid Hrc Ho1] Hor Hl1 Hbl1 Hnew1 Hu1.
  apply wp_bind. eapply wp_context; [exact Hctx|]. cbv beta.
  assert (Hnin : cell (buffer out) ∉ cells b) by exact (cells_fresh_cell _ _ _ _ _ Hd Hnew1).
  apply wp_bind. apply (wp_for_each (fun r s' => distributed s' c b x /\ preserves [] s s' /\
    exists l, holds s' ctx (buffer out) l /\
      forall k, (k < r)%nat -> part (block_start n) k l = x k)).
  - split; [by eapply distributed_other|]. split.
    + eapply preserves_updated; [apply preserves_refl|exact Hu1|by right].
    + exists l1. split; [done|]. lia.
  - intros r s' Hr (Hd' & Hp' & l & Hl & Hparts). fold w in Hr. apply wp_bind.
    eapply wp_download_rank; [exact Hd'|done|]. intros s2 Hu2.
    pose proof (dist_length _ _ _ _ Hd' r Hr) as Hxr. fold n in Hxr.
    pose proof (holds_length _ _ _ _ Hl) as Hll.
    apply wp_bind. eapply wp_check.
    { apply mul_usize_ok. eapply fits_usize_le; [|exact Hfit]. nia. }
    cbv beta. apply wp_on_device. eapply wp_mono.
    { eapply law_copy_to_device_at; [by eapply holds_unchanged|]. rewrite Hxr, Hbl1. nia. }
    intros [] s3 Hu3. split; [|split].
    + eapply distributed_other; [by eapply distributed_unchanged|exact Hu3|done].
    + eapply preserves_updated; [by eapply preserves_unchanged|exact Hu3|by right].
    + exists (put (r * n) (x r) l). split.
      * eapply holds_updated; [by eapply holds_unchanged|exact Hu3|]. apply length_put.
        rewrite Hxr, Hll, Hbl1. nia.
      * intros k Hk. change (r * n)%nat with (block_start n r).
        rewrite (part_put (block_start n) w (block_mono n)); [|lia|done| |by rewrite block_len].
        { destruct (Nat.eqb_spec k r) as [->|]; [done|]. apply Hparts. lia. }
        rewrite Hll, Hbl1. done.
  - intros s' (_ & Hp' & l & Hl & Hparts). cbv zeta.
    apply wp_bind. eapply wp_check; [apply transferred_bytes_ok; lia|]. cbv beta.
    apply wp_ret. split; [|done]. split; [done|done|].
    rewrite <- (blocks_concat w n x l); [done| |done]. by rewrite (holds_length _ _ _ _ Hl).
Qed.

(** ** scatter *)
Lemma wp_scatter c rb ctx l s :
  let w := world_size c in let n := (length l / w)%nat in
  rooted s c rb ctx l -> (length l mod w = 0)%nat -> fits_usize (length l) ->
  Z.of_nat (w - 1) * Z.of_nat n * Z.of_nat ELEMENT_SIZE < 2 ^ 64 ->
  (0 < ELEMENT_SIZE)%nat -> (forall ctx, ctx ∈ contexts c -> allocatable ctx n) ->
  wp in_error (scatter c rb) (fun '(output, stats) s' =>
    length_per_rank output = n /\
    distributed s' c output (fun r => sub (r * n) n l) /\
    preserves [] s s' /\ fresh s output /\
    stats_bytes stats = Z.of_nat (w - 1) * Z.of_nat n * Z.of_nat ELEMENT_SIZE) s.
Proof using H1.
  intros w n [Hid Hctx Hh] Hmod Hfit Hbytes Hsize Halloc. unfold scatter.
  pose proof (lookup_lt_Some _ _ _ Hctx) as Hroot. fold (world_size c) w in Hroot.
  assert (Hlen : rooted_len rb = length l) by (symmetry; apply (holds_length _ _ _ _ Hh)).
  pose proof (Nat.div_mod_eq (length l) w) as Hdm. fold n in Hdm.
  apply wp_bind. unfold validate_rooted_buffer. apply wp_bind. eapply (wp_check _ tt).
  { by rewrite Hid, Z.eqb_refl. }
  cbv beta. apply wp_bind. eapply wp_context; [exact Hctx|]. apply wp_ret. rewrite Hlen. fold w.
  apply wp_bind. eapply (wp_check _ tt).
  { apply fail_if_Ok, negb_false_iff, is_multiple_of_spec; [lia|].
    rewrite <- Nat2Z.inj_div. fold n. nia. }
  cbv beta. apply wp_bind. eapply wp_check; [apply div_usize_ok; lia|]. cbv beta. fold n.
  apply wp_bind. eapply wp_allocate; [exact Halloc|]. intros out s1 y Hy Hol Hofresh Hp1.
  apply wp_bind. eapply wp_context; [exact Hctx|]. cbv beta.
  assert (Hh1 : view s1 (cell (buffer rb)) = Some l).
  { apply Hp1; [apply (holds_view _ _ _ _ Hh)|apply not_elem_of_nil]. }
  assert (Hnin : cell (buffer rb) ∉ cells out).
  { intros Hin. pose proof (holds_view _ _ _ _ Hh) as Hv. by rewrite (Hofresh _ Hin) in Hv. }
  apply wp_bind. apply (wp_for_each (fun r s' => view s' (cell (buffer rb)) = Some l /\
    distributed s' c out (partly y (fun r => sub (r * n) n l) r) /\ preserves [] s s')).
  - split; [done|]. split; [by apply partly_none|done].
  - intros r s' Hr (Hv' & Hd' & Hp'). fold w in Hr.
    apply wp_bind. eapply wp_check.
    { apply mul_usize_ok. eapply fits_usize_le; [|exact Hfit]. nia. }
    cbv beta. apply wp_bind, wp_on_device. eapply wp_mono.
    { eapply law_copy_from_device_at; [split; [apply Hh|exact Hv'|apply Hh]|].
      rewrite <- (holds_length _ _ _ _ Hh). nia. }
    intros v s2 [-> Hu2]. eapply wp_write_rank_whole; [by eapply distributed_unchanged|done| |].
    { rewrite Hol. apply length_sub. nia. }
    intros s3 Hd3 Hw3. split; [|split].
    + destruct Hw3 as (k & l' & Hk & Hu3). rewrite (updated_other _ _ _ _ _ Hu3) by congruence.
      by rewrite (Hu2 _).
    + eapply distributed_ext; [|exact Hd3]. intros r' _.
      exact (set_rank_partly y (fun r => sub (r * n) n l) r r').
    + eapply preserves_writes; [by eapply preserves_unchanged|exact Hw3|]. intros k Hk. right. by apply Hofresh.
  - intros s' (_ & Hd' & Hp'). cbv zeta.
    apply wp_bind. eapply wp_check; [apply transferred_bytes_ok; lia|]. cbv beta.
    apply wp_ret. split; [done|]. split; [by eapply partly_done|done].
Qed.

(** ** all_to_all *)
Record exchanged c (out : DistributedBuffer) (n : nat) x (source dest : nat) (z : nat -> list T) (s0 s : Store) : Prop := {
  exchanged_out : distributed s c out z;
  exchanged_frame : preserves [] s0 s;
  exchanged_done : forall r k, (r < world_size c)%nat -> (k < source)%nat ->
    part (block_start n) k (z r) = part (block_start n) r (x k);
  exchanged_row : forall r, (r < dest)%nat ->
    part (block_start n) source (z r) = part (block_start n) r (x source);
}.

Lemma exchanged_write c out n x source dest z v s0 s s' :
  exchanged c out n x source dest z s0 s ->
  (source < world_size c)%nat -> (dest < world_size c)%nat ->
  length_per_rank out = (world_size c * n)%nat -> v = part (block_start n) dest (x source) ->
  length v = n -> preserves [] s0 s' ->
  distributed s' c out (set_rank z dest (put (source * n) v (z dest))) ->
  exchanged c out n x source (dest + 1) (set_rank z dest (put (source * n) v (z dest))) s0 s'.
Proof using Type.
  intros [Hz _ Hdone Hrow] Hsource Hdest Hol Hv Hvl Hp Hd.
  pose proof (dist_length _ _ _ _ Hz dest Hdest) as Hzl.
  assert (Hput : forall k, (k < world_size c)%nat ->
    part (block_start n) k (put (source * n) v (z dest)) =
      if (k =? source)%nat then v else part (block_start n) k (z dest)).
  { intros k Hk. change (source * n)%nat with (block_start n source).
    rewrite (part_put (block_start n) (world_size c) (block_mono n)); try done.
    - unfold block_start. rewrite Hzl, Hol. done.
    - by rewrite block_len. }
  split; [done|done| |].
  - intros r k Hr Hk. unfold set_rank. destruct (Nat.eqb_spec r dest) as [->|Hne]; [|by apply Hdone].
    rewrite Hput by lia. rewrite (proj2 (Nat.eqb_neq k source)) by lia. by apply Hdone.
  - intros r Hr. unfold set_rank. destruct (Nat.eqb_spec r dest) as [->|Hne]; [|apply Hrow; lia].
    rewrite Hput by lia. by rewrite Nat.eqb_refl.
Qed.

Lemma wp_all_to_all c b x s :
  let w := world_size c in let n := (length_per_rank b / w)%nat in
  distributed s c b x -> (0 < w)%nat -> (length_per_rank b mod w = 0)%nat ->
  Z.of_nat (w * w) < 2 ^ 64 -> fits_usize (length_per_rank b) ->
  Z.of_nat w * Z.of_nat (w - 1) * Z.of_nat n * Z.of_nat ELEMENT_SIZE < 2 ^ 64 ->
  (0 < ELEMENT_SIZE)%nat -> (forall ctx, ctx ∈ contexts c -> allocatable ctx (length_per_rank b)) ->
  wp in_error (all_to_all c b) (fun '(output, stats) s' =>
    length_per_rank output = length_per_rank b /\
    distributed s' c output (fun r => concat (map (fun k => sub (r * n) n (x k)) (seq 0 w))) /\
    preserves [] s s' /\ fresh s output /\
    stats_bytes stats = Z.of_nat w * Z.of_nat (w - 1) * Z.of_nat n * Z.of_nat ELEMENT_SIZE) s.
Proof using H1.
  intros w n Hd Hw Hmod Hww Hfit Hbytes Hsize Halloc. unfold all_to_all. fold w.
  pose proof (Nat.div_mod_eq (length_per_rank b) w) as Hdm. fold n in Hdm.
  assert (Hlen : length_per_rank b = (w * n)%nat) by lia.
  apply wp_bind, wp_validate_buffer; [apply Hd|].
  apply wp_bind. eapply (wp_check _ tt).
  { apply fail_if_Ok, negb_false_iff, is_multiple_of_spec; [lia|]. rewrite <- Nat2Z.inj_div. fold n. nia. }
  cbv beta. apply wp_bind. eapply wp_check; [by apply div_usize_ok|]. cbv beta. fold n.
  apply wp_bind. eapply wp_allocate; [exact Halloc|]. intros out s1 y Hy Hol Hofresh Hp1.
  assert (Hdisj : forall k, k ∈ cells out -> k ∉ cells b).
  { intros k Hk. exact (fresh_disjoint _ _ _ _ _ _ Hd Hofresh Hk). }
  assert (Hnone : forall k, k ∈ cells b -> k ∉ @nil Cell) by (intros k _; apply not_elem_of_nil).
  apply wp_bind. apply (wp_for_each (fun source s' => exists z, exchanged c out n x source 0 z s s')).
  - exists y. split; [done|done|lia|lia].
  - intros source s' Hsource (z & Hz). fold w in Hsource.
    apply (wp_for_each (fun dest s' => exists z, exchanged c out n x source dest z s s')).
    + by exists z.
    + clear z Hz s'. intros dest s' Hdest (z & Hz). fold w in Hdest.
      pose proof (distributed_preserved _ _ _ _ _ _ Hd (exchanged_frame _ _ _ _ _ _ _ _ _ Hz) Hnone) as Hd'.
      apply wp_bind. eapply wp_check.
      { apply mul_usize_ok. eapply fits_usize_le; [|exact Hfit]. nia. }
      cbv beta. apply wp_bind. eapply wp_read_rank_at; [exact Hd'|done|rewrite Hlen; nia|].
      intros s2 Hu2. apply wp_bind. eapply wp_check.
      { apply mul_usize_ok. eapply fits_usize_le; [|exact Hfit]. nia. }
      cbv beta.
      assert (Hv : length (sub (dest * n) n (x source)) = n).
      { apply length_sub. rewrite (dist_length _ _ _ _ Hd source Hsource). nia. }
      eapply wp_write_rank_at; [eapply distributed_unchanged; [apply Hz|done]|done|rewrite Hv; nia|].
      intros s3 Hd3 Hw3. eexists. eapply exchanged_write; [exact Hz|done|done|by rewrite Hol| |done| |exact Hd3].
      * unfold part. by rewrite block_len.
      * eapply preserves_writes; [eapply preserves_unchanged; [apply Hz|done]|exact Hw3|].
        intros k Hk. right. by apply Hofresh.
    + clear z Hz s'. intros s' (z & [Hz Hp Hdone Hrow]). exists z. split; [done|done| |lia].
      intros r k Hr Hk. destruct (decide (k = source)) as [->|Hne]; [by apply Hrow|]. apply Hdone; lia.
  - intros s' (z & [Hz Hp Hdone _]). cbv zeta.
    apply wp_bind. eapply wp_check.
    { rewrite rank_pairs_eq by done. apply transferred_bytes_ok; [nia|lia|lia|exact Hbytes]. }
    cbv beta. apply wp_ret. split; [done|]. split; [|done].
    eapply distributed_ext; [|exact Hz]. intros r Hr.
    apply (blocks_concat w n); [by rewrite (dist_length _ _ _ _ Hz r Hr), Hol|].
    intros k Hk. rewrite Hdone by done. unfold part. by rewrite block_len.
Qed.

(** ** send_recv *)
Lemma wp_send_recv c b b' x y first last dst offset tag r s :
  let n := (last - first)%nat in
  distributed s c b x -> distributed s c b' y ->
  (r < world_size c)%nat -> (dst < world_size c)%nat ->
  (first <= last <= length_per_rank b)%nat -> (offset + n <= length_per_rank b')%nat ->
  fits_usize (length_per_rank b') -> Z.of_nat n * Z.of_nat ELEMENT_SIZE < 2 ^ 64 ->
  (0 < ELEMENT_SIZE)%nat ->
  wp in_error (send_recv c b b' {| source_rank := r; source_range := (first, last);
      destination_rank := dst; destination_offset := offset; tag := tag |}) (fun stats s' =>
    distributed s' c b' (set_rank y dst (put offset (sub first n (x r)) (y dst))) /\
    writes b' s s' /\ stats_bytes stats = Z.of_nat n * Z.of_nat ELEMENT_SIZE) s.
Proof using H1.
  intros n Hd Hd' Hr Hdst Hrange Ho Hfit Hbytes Hsize. unfold send_recv.
  cbn [source_range source_rank destination_rank destination_offset].
  destruct (distributed_lookup _ _ _ _ _ Hd Hr) as (ctx & bf & Hctx & Hbf & Hh & Hl).
  destruct (distributed_lookup _ _ _ _ _ Hd' Hdst) as (ctx' & bf' & Hctx' & Hbf' & Hh' & Hl').
  apply wp_bind, wp_validate_buffer; [apply Hd|]. apply wp_bind, wp_validate_buffer; [apply Hd'|].
  apply wp_bind. eapply wp_context; [exact Hctx|]. apply wp_bind. eapply wp_context; [exact Hctx'|].
  apply wp_bind. eapply (wp_check _ tt).
  { apply fail_if_Ok, orb_false_iff. split; apply Nat.ltb_ge; lia. }
  cbv beta. change (range_len (first, last)) with n.
  apply wp_bind. eapply wp_check.
  { rewrite checked_add_usize_Some; [done|]. by eapply fits_usize_le. }
  cbv beta. apply wp_bind. eapply (wp_check _ tt); [by apply fail_if_Ok, Nat.ltb_ge|]. cbv beta.
  apply wp_bind. eapply wp_check; [by apply index_Ok|]. cbv beta.
  apply wp_bind, wp_on_device. eapply wp_mono; [eapply law_copy_from_device_at; [exact Hh|lia]|].
  intros v s1 [-> Hu1]. apply wp_bind. eapply wp_check; [by apply index_Ok|]. cbv beta.
  assert (Hv : length (sub first n (x r)) = n).
  { apply length_sub. rewrite (dist_length _ _ _ _ Hd r Hr). lia. }
  apply wp_bind, wp_on_device. eapply wp_mono.
  { eapply law_copy_to_device_at; [by eapply holds_unchanged|lia]. }
  intros [] s2 Hu2. cbv zeta.
  apply wp_bind. eapply wp_check; [apply transferred_bytes_ok; lia|]. cbv beta.
  apply wp_ret. split; [|split; [|cbn; lia]].
  - eapply distributed_write; [by eapply distributed_unchanged|exact Hbf'|exact Hu2|].
    rewrite length_put; rewrite (dist_length _ _ _ _ Hd' dst Hdst); lia.
  - exists (cell bf'), (put offset (sub first n (x r)) (y dst)). split; [by eapply cells_elem|].
    intros k. rewrite (Hu2 k). case_decide; [done|]. by rewrite (Hu1 k).
Qed.
End rules.
