(* ===== verification/InProcessTheorems.v ===== *)
(** * Theorems on the in-process collectives

    What the collectives of InProcessReduction.v and InProcessExchange.v do,
    for every device that keeps the laws of Device.v, with an example: three
    tensor devices over a backend whose tensors are lists of integers. *)
From S2P Require Import Prelude Protocol Errors Layout Ring Operation Comp Device InProcess.
From S2P Require Import InProcessReduction TensorDevice InProcessExchange.

(** ** A backend on lists *)
Module ListBackend.

#[export] Instance element : TensorElement Z := { dtype := DType.I64; size_of := 8 }.

#[export] Instance backend : Backend Z := {
  BDevice := nat;
  FloatTensor := list Z;
  IntTensor := list Z;
  BoolTensor := list bool;
  TensorData := list Z;
  ExecutionError := Empty_set;
  DataError := unit;
  supports_dtype _ d := bool_decide (d = DType.I64);
  float_empty n _ := repeat 0 n;
  int_empty n _ := repeat 0 n;
  float_from_data l _ := l;
  int_from_data l _ := l;
  float_slice t a b := sub a (b - a) t;
  int_slice t a b := sub a (b - a) t;
  float_slice_assign t a _ u := put a u t;
  int_slice_assign t a _ u := put a u t;
  float_add := zip_with (fun x y => wrap 64 (x + y));
  float_mul := zip_with (fun x y => wrap 64 (x * y));
  float_lower := zip_with Z.ltb;
  float_mask_where t m u := zip_with (fun b '(x, y) => if b : bool then y else x) m (zip t u);
  int_add := zip_with (fun x y => wrap 64 (x + y));
  int_mul := zip_with (fun x y => wrap 64 (x * y));
  int_lower := zip_with Z.ltb;
  int_mask_where t m u := zip_with (fun b '(x, y) => if b : bool then y else x) m (zip t u);
  bitwise_and := zip_with Z.land;
  bitwise_or := zip_with Z.lor;
  bitwise_xor := zip_with Z.lxor;
  float_into_data t := Ok t;
  int_into_data t := Ok t;
  into_vec d := Ok d;
  float_meta t := (DType.Other, 0%nat, [length t]);
  int_meta t := (DType.I64, 0%nat, [length t]);
}.

#[export] Instance element_laws : TensorElementLaws Z.
Proof. split; [done|cbn; lia]. Qed.

#[export] Instance backend_laws : BackendLaws Z.
Proof.
  refine {| float_elements (t : FloatTensor) := t; int_elements (t : IntTensor) := t;
            bool_elements (t : BoolTensor) := t;
            elem_add x y := wrap 64 (x + y); elem_mul x y := wrap 64 (x * y);
            elem_and := Z.land; elem_or := Z.lor; elem_xor := Z.lxor; elem_lower := Z.ltb |};
    intros; try done; try apply repeat_length; right; by eexists.
Defined.

(** Three devices with a buffer of four elements each. *)
Definition at_device (n : nat) : TensorDevice := {| tensor_device := n |}.

Definition devices : list TensorDevice := map at_device [0; 1; 2]%nat.

Definition group : InProcessCollective := {| id := 7; contexts := devices |}.

Definition tensor (n : nat) : TensorBuffer :=
  {| value := Pos.of_succ_nat n; device := n; tensor_length := 6 |}.

Definition group_buffer : DistributedBuffer :=
  {| communicator_id := 7; buffers := map tensor [0; 1; 2]%nat; length_per_rank := 6 |}.

Definition rank_values (r : nat) : list Z :=
  map (fun k => Z.of_nat (100 * r + k)) (seq 0 6).

Definition store : Store :=
  list_to_map (map (fun n => (Pos.of_succ_nat n,
    {| poisoned := false; guarded := Some (Int (rank_values n)) |})) [0; 1; 2]%nat).

Lemma group_distributed : distributed store group group_buffer rank_values.
Proof.
  split.
  - split; [done|done|]. apply (bool_decide_eq_true_1 (NoDup (cells group_buffer))). vm_compute. reflexivity.
  - intros r ctx bf Hctx Hbf.
    destruct r as [|[|[|r]]]; [| | |by destruct r]; injection Hctx as <-; injection Hbf as <-;
      (split; [split; [reflexivity|unfold fits_usize; cbn; lia]|vm_compute; reflexivity|reflexivity]).
  - intros r Hr. reflexivity.
Qed.

Lemma group_ring_sizes : ring_sizes group 6.
Proof. split; cbn; lia. Qed.

Lemma group_allocates ctx n : (n <= 18)%nat -> allocatable ctx n.
Proof. intros Hn. split; [reflexivity|]. cbn. unfold isize_max. lia. Qed.
End ListBackend.

(** ** Reductions *)
Section reductions.
Context {T : Type} `{DeviceLaws T}.

(** What the reducing collectives need of the ranks. *)
Record reducible (c : InProcessCollective) (b : DistributedBuffer) (f : Kernel) : Prop := {
  reducible_sizes : ring_sizes c (length_per_rank b);
  reducible_element : (0 < ELEMENT_SIZE)%nat;
  reducible_bytes :
    2 * Z.of_nat (world_size c - 1) * Z.of_nat (length_per_rank b) * Z.of_nat ELEMENT_SIZE < 2 ^ 64;
  reducible_contexts : forall ctx, ctx ∈ contexts c -> computes ctx f /\
    forall n, (n <= length_per_rank b `max` 1)%nat -> allocatable ctx n;
}.

Lemma ring_sum_reduces c b f x s :
  distributed s c b x -> ring_sizes c (length_per_rank b) ->
  length (ring_sum f (length_per_rank b) (world_size c) x) = length_per_rank b /\
  reduces f x (world_size c) (ring_sum f (length_per_rank b) (world_size c) x).
Proof using Type.
  intros Hd Hs. pose proof (ring_world _ _ Hs) as Hw.
  pose proof (dist_length _ _ _ _ Hd) as Hx.
  pose proof (length_ring_sum f _ _ x Hw Hx) as Hl. split; [done|].
  intros i Hi. rewrite Hl in Hi. by apply ring_sum_lookup.
Qed.

(** C4: the ring all-reduce.  On a buffer of the communicator,
    [all_reduce_sum] never panics, fails only with an error of a device, and
    otherwise leaves the same vector at every rank: each element is the
    reduction of that element over all ranks, in a ring order (and therefore
    in rank order when the operation is associative and commutative).  No
    other buffer changes. *)
Theorem all_reduce_sum_reduces c b f x s :
  distributed s c b x -> reducible c b f ->
  wp in_error (all_reduce_sum c b f) (fun stats s' => exists result,
    distributed s' c b (fun _ => result) /\ length result = length_per_rank b /\
    reduces (combine f) x (world_size c) result /\ preserves (cells b) s s' /\
    algorithm stats = Ring /\ steps stats = 2 * Z.of_nat (world_size c - 1) /\
    stats_bytes stats =
      2 * Z.of_nat (world_size c - 1) * Z.of_nat (length_per_rank b) * Z.of_nat ELEMENT_SIZE) s.
Proof using H1.
  intros Hd [Hs He Hb Hc]. eapply wp_mono; [by apply wp_all_reduce_sum|].
  intros stats s' (Hd' & Hp & Halg & Hsteps & Hbytes). eexists. split; [exact Hd'|].
  destruct (ring_sum_reduces c b (combine f) x s Hd Hs) as [Hl Hr]. repeat split; done.
Qed.

(** reduce-scatter.  Rank [r] of the result holds shard [r] of the vector
    that the all-reduce would give; the input is unchanged. *)
Theorem reduce_scatter_sum_shards c b f x s :
  distributed s c b x -> reducible c b f -> (length_per_rank b mod world_size c = 0)%nat ->
  wp in_error (reduce_scatter_sum c b f) (fun '(output, stats) s' =>
    let shard := (length_per_rank b / world_size c)%nat in
    exists result, length result = length_per_rank b /\ reduces (combine f) x (world_size c) result /\
    length_per_rank output = shard /\
    distributed s' c output (fun r => sub (r * shard) shard result) /\
    distributed s' c b x /\ steps stats = Z.of_nat (world_size c - 1)) s.
Proof using H1.
  intros Hd [Hs He Hb Hc] Hmod. destruct (ring_sum_reduces c b (combine f) x s Hd Hs) as [Hl Hr].
  eapply wp_mono; [apply wp_reduce_scatter_sum; try done|].
  - nia.
  - intros ctx Hin. destruct (Hc ctx Hin) as [Hf Ha]. split; [done|]. intros n Hn. apply Ha. lia.
  - intros [output stats] s' (Hol & Ho & Hp & Hf & Hsteps & Hbytes). eexists.
    split; [exact Hl|]. split; [exact Hr|]. split; [done|]. split; [done|]. split; [|done].
    eapply distributed_preserved; [exact Hd|exact Hp|]. intros k _. apply not_elem_of_nil.
Qed.

(** reduce to a root.  The root's new buffer holds the elements of the
    root combined with the other ranks' in rank order; every other buffer is
    unchanged. *)
Theorem reduce_sum_at_root c b f root ctx x s :
  distributed s c b x -> contexts c !! root = Some ctx -> computes ctx f ->
  allocatable ctx (length_per_rank b) -> Z.of_nat (length_per_rank b) < 2 ^ 32 ->
  Z.of_nat (world_size c) < 2 ^ 32 ->
  Z.of_nat (world_size c - 1) * Z.of_nat (length_per_rank b) * Z.of_nat ELEMENT_SIZE < 2 ^ 64 ->
  (0 < ELEMENT_SIZE)%nat ->
  wp in_error (reduce_sum c b root f) (fun '(output, stats) s' =>
    rooted s' c output ctx
      (foldl (fun acc r => zip_with (combine f) acc (x r)) (x root)
        (filter (fun r => r <> root) (seq 0 (world_size c)))) /\
    preserves [] s s' /\
    (length_per_rank b <> 0%nat -> steps stats = Z.of_nat (world_size c - 1))) s.
Proof using H1.
  intros Hd Hctx Hf Ha Hl Hw Hb He. eapply wp_mono; [by eapply wp_reduce_sum|].
  intros [output stats] s' (Hr & _ & Hp & _ & Hs). by split.
Qed.
End reductions.

(** ** Moving data *)
Section moves.
Context {T : Type} `{DeviceLaws T}.

(** The sizes for which moving [n] elements per rank does not overflow. *)
Record movable (c : InProcessCollective) (n : nat) : Prop := {
  movable_world : (0 < world_size c)%nat;
  movable_pairs : Z.of_nat (world_size c * world_size c) < 2 ^ 64;
  movable_fits : fits_usize (world_size c * n);
  movable_bytes : Z.of_nat (world_size c) * Z.of_nat (world_size c - 1) * Z.of_nat n
    * Z.of_nat ELEMENT_SIZE < 2 ^ 64;
  movable_element : (0 < ELEMENT_SIZE)%nat;
  movable_contexts : forall ctx, ctx ∈ contexts c -> allocatable ctx n /\ allocatable ctx (world_size c * n);
}.

Lemma movable_root_bytes c n :
  movable c n -> Z.of_nat (world_size c - 1) * Z.of_nat n * Z.of_nat ELEMENT_SIZE < 2 ^ 64.
Proof using Type.
  intros [Hw _ _ Hb _ _]. set (bytes := Z.of_nat (world_size c - 1) * Z.of_nat n * Z.of_nat ELEMENT_SIZE).
  assert (0 <= bytes) by (unfold bytes; repeat apply Z.mul_nonneg_nonneg; lia).
  replace (_ * _ * _ * _) with (Z.of_nat (world_size c) * bytes) in Hb by (unfold bytes; ring). nia.
Qed.

(** the ring all-gather leaves the concatenation of all inputs, in rank
    order, at every rank, and the input as it was. *)
Theorem all_gather_concatenates c b x s :
  distributed s c b x -> movable c (length_per_rank b) ->
  wp in_error (all_gather c b) (fun '(output, stats) s' =>
    distributed s' c output (fun _ => concat (map x (seq 0 (world_size c)))) /\
    distributed s' c b x) s.
Proof using H1.
  intros Hd Hm. destruct Hm as [Hw Hp Hf Hb He Hc]. eapply wp_mono; [apply wp_all_gather; try done|].
  - intros ctx Hin. by apply Hc.
  - intros [output stats] s' (_ & Ho & Hpr & _). split; [done|].
    eapply distributed_preserved; [exact Hd|exact Hpr|]. intros k _. apply not_elem_of_nil.
Qed.

(** A gather followed by a scatter is a copy.  Scattering what was gathered
    at a root gives every rank its own input back. *)
Theorem gather_scatter_copies c b root ctx x s :
  distributed s c b x -> movable c (length_per_rank b) -> contexts c !! root = Some ctx ->
  wp in_error (gathered ← gather c b root; scatter c gathered.1) (fun '(output, stats) s' =>
    length_per_rank output = length_per_rank b /\ distributed s' c output x /\ distributed s' c b x) s.
Proof using H1.
  intros Hd Hm Hctx. pose proof (movable_root_bytes _ _ Hm) as Hroot.
  destruct Hm as [Hw Hp Hf Hb He Hc]. set (n := length_per_rank b) in *. set (w := world_size c) in *.
  apply wp_bind. eapply wp_mono.
  { eapply wp_gather; [exact Hd|exact Hctx|exact Hf|exact Hroot|exact He|].
    eapply Hc, list_elem_of_lookup_2, Hctx. }
  intros [out stats] s1 (Hrooted & _ & Hp1 & _). cbn [fst].
  assert (Hlen : length (concat (map x (seq 0 w))) = (w * n)%nat).
  { pose proof (length_concat_const (map x (seq 0 w)) (Z.of_nat n)) as Hl. unfold Zlen in Hl.
    rewrite length_map, length_seq, <- Nat2Z.inj_mul in Hl. apply Nat2Z.inj, Hl.
    apply Forall_forall. intros l (k & -> & Hk%elem_of_seq)%list_elem_of_fmap. unfold Zlen. f_equal.
    apply (dist_length _ _ _ _ Hd). fold w. lia. }
  assert (Hdiv : (length (concat (map x (seq 0 w))) / w)%nat = n).
  { rewrite Hlen, Nat.mul_comm. apply Nat.div_mul. lia. }
  eapply wp_mono; [eapply wp_scatter; [exact Hrooted| | | |exact He|]|].
  - fold w. rewrite Hlen, Nat.mul_comm. apply Nat.Div0.mod_mul.
  - fold w. by rewrite Hlen.
  - fold w. by rewrite Hdiv.
  - fold w. rewrite Hdiv. intros c' Hin. by apply Hc.
  - intros [output stats'] s' (Hol & Ho & Hp2 & _). fold w in Hol, Ho. rewrite Hdiv in Hol, Ho.
    split; [done|]. split.
    + eapply distributed_ext; [|exact Ho]. intros r Hr. cbv beta. apply sub_concat.
      * apply Forall_forall. intros l (k & -> & Hk%elem_of_seq)%list_elem_of_fmap.
        apply (dist_length _ _ _ _ Hd). fold w. lia.
      * rewrite list_lookup_fmap, lookup_seq_lt by done. done.
    + eapply distributed_preserved; [exact Hd|by eapply preserves_trans|]. intros k _. apply not_elem_of_nil.
Qed.

(** all-to-all transposes, so it is its own inverse.  After two exchanges
    every rank holds its original shards. *)
Theorem all_to_all_twice c b x s :
  distributed s c b x -> movable c (length_per_rank b) -> (length_per_rank b mod world_size c = 0)%nat ->
  wp in_error (first ← all_to_all c b; all_to_all c first.1) (fun '(output, stats) s' =>
    distributed s' c output x /\ distributed s' c b x) s.
Proof using H1.
  intros Hd Hm Hmod.
  destruct Hm as [Hw Hp Hf Hb He Hc]. set (w := world_size c) in *. set (len := length_per_rank b) in *.
  set (n := (len / w)%nat). pose proof (Nat.div_mod_eq len w) as Hdm. fold n in Hdm.
  assert (Hfl : fits_usize len) by (eapply fits_usize_le; [|exact Hf]; nia).
  assert (Hbn : Z.of_nat w * Z.of_nat (w - 1) * Z.of_nat n * Z.of_nat ELEMENT_SIZE < 2 ^ 64).
  { assert (Z.of_nat n <= Z.of_nat len) by nia.
    assert (0 <= Z.of_nat w * Z.of_nat (w - 1)) by nia. nia. }
  apply wp_bind. eapply wp_mono.
  { apply wp_all_to_all; try done. intros ctx Hin. by apply Hc. }
  intros [first stats1] s1 (Hl1 & Hd1 & Hp1 & Hf1 & _). cbn [fst]. fold w len n in Hl1, Hd1.
  eapply wp_mono.
  { eapply wp_all_to_all; rewrite ?Hl1; try done. intros ctx Hin. by apply Hc. }
  intros [output stats2] s2 (Hl2 & Hd2 & Hp2 & Hf2 & _). fold w in Hd2. rewrite Hl1 in Hd2. fold len n in Hd2.
  split.
  - eapply distributed_ext; [|exact Hd2]. intros r Hr. fold w in Hr. cbv beta.
    assert (Hshard : forall k j, (k < w)%nat -> (j < w)%nat -> length (sub (j * n) n (x k)) = n).
    { intros k j Hk Hj. apply length_sub. rewrite (dist_length _ _ _ _ Hd k Hk). fold len. nia. }
    rewrite (map_ext_in _ (fun k => sub (k * n) n (x r))).
    + rewrite concat_subs; [|rewrite (dist_length _ _ _ _ Hd r Hr); fold len; lia].
      apply take_ge. rewrite (dist_length _ _ _ _ Hd r Hr). fold len. lia.
    + intros k Hk%in_seq. apply sub_concat.
      * apply Forall_forall. intros l (j & -> & Hj%elem_of_seq)%list_elem_of_fmap. apply Hshard; lia.
      * rewrite list_lookup_fmap, lookup_seq_lt by done. done.
  - eapply distributed_preserved; [exact Hd|by eapply preserves_trans|]. intros k _. apply not_elem_of_nil.
Qed.

(** A broadcast gives every rank the root's values. *)
Theorem broadcast_copies c b x root s :
  distributed s c b x -> movable c (length_per_rank b) -> (root < world_size c)%nat ->
  wp in_error (broadcast c b root) (fun stats s' =>
    distributed s' c b (fun _ => x root) /\ preserves (cells b) s s') s.
Proof using H1.
  intros Hd Hm Hroot. eapply wp_mono.
  { apply wp_broadcast; [exact Hd|done|by apply movable_root_bytes|by destruct Hm]. }
  intros stats s' (Ho & Hp & _). by split.
Qed.
End moves.

(** ** The tensor device *)
Section tensor.
Context {T : Type} `{HE : TensorElement T} `{HB : Backend T}.
Context `{HL : !TensorElementLaws T} `{HBL : !BackendLaws T}.

(** Writing into a tensor buffer, on every branch.  [write_at] refuses a
    buffer of another device, a range whose end overflows and a range outside
    the buffer, and then the store is unchanged; otherwise it replaces exactly
    the range and touches no other buffer. *)
Theorem tensor_write_at d b l offset (values : list T) s :
  tensor_view s (value b) = Some l -> length l = tensor_length b -> fits_usize (tensor_length b) ->
  (device b <> tensor_device d -> write_at d b offset values s = (s, Err DeviceMismatch)) /\
  (device b = tensor_device d -> 2 ^ 64 <= Z.of_nat (offset + length values) ->
    write_at d b offset values s =
      (s, Err (InvalidBuffer "collective element range overflow"))) /\
  (device b = tensor_device d -> Z.of_nat (offset + length values) < 2 ^ 64 ->
    (tensor_length b < offset + length values)%nat ->
    write_at d b offset values s =
      (s, Err (InvalidBuffer "collective element range out of bounds"))) /\
  (device b = tensor_device d -> (offset + length values <= tensor_length b)%nat ->
    exists s', write_at d b offset values s = (s', Ok tt) /\ updated s (value b) (put offset values l) s').
Proof using HL HBL.
  intros Hv Hl Hf. split; [|split; [|split]].
  - intros Hd. unfold write_at, validate_tensor_buffer. by rewrite bool_decide_false.
  - intros Hd Ho. unfold write_at. rewrite validate_tensor_buffer_ok by done.
    unfold checked_range, checked_add_usize. rewrite (proj2 (Z.ltb_ge _ _)) by done. done.
  - intros Hd Ho Hout. unfold write_at. rewrite validate_tensor_buffer_ok by done.
    unfold checked_range. rewrite checked_add_usize_Some by done. cbn [ok_or mbind outcome_bind].
    rewrite (proj2 (Nat.ltb_lt _ _)) by done. done.
  - intros Hd Ho.
    assert (Hh : holds s d b l) by (split; [by split|exact Hv|exact Hl]).
    pose proof (write_at_total d b l offset values s Hh Ho) as (s' & Hw & Hu). by exists s'.
Qed.
End tensor.

(** ** Examples *)
Section examples.
Import ListBackend.

Lemma group_reducible op : bitwise op = false -> reducible group group_buffer op.
Proof.
  intros Hop. split; [exact group_ring_sizes|cbn; lia|cbn; lia|].
  intros ctx _. split; [split; [reflexivity|by right]|]. intros n Hn. apply (group_allocates ctx). cbn in Hn. lia.
Qed.

Lemma group_movable : movable group 6.
Proof.
  split; cbn; try lia; [unfold fits_usize; lia|].
  intros ctx _. split; apply (group_allocates ctx); lia.
Qed.

Lemma all_reduce_sum_reduces_witness :
  wp in_error (all_reduce_sum group group_buffer Sum) (fun stats _ => steps stats = 4) store.
Proof.
  eapply wp_mono; [exact (all_reduce_sum_reduces _ _ _ _ _ group_distributed (group_reducible Sum eq_refl))|].
  intros stats s' (result & _ & _ & _ & _ & _ & Hs & _). exact Hs.
Defined.

Lemma reduce_scatter_sum_shards_witness :
  wp in_error (reduce_scatter_sum group group_buffer Maximum)
    (fun '(output, _) _ => length_per_rank output = 2%nat) store.
Proof.
  eapply wp_mono; [exact (reduce_scatter_sum_shards _ _ _ _ _ group_distributed
    (group_reducible Maximum eq_refl) eq_refl)|].
  intros [output stats] s' (result & _ & _ & Ho & _). exact Ho.
Defined.

Lemma reduce_sum_at_root_witness :
  wp in_error (reduce_sum group group_buffer 1 Sum) (fun '(output, _) s' =>
    rooted s' group output (at_device 1) [300; 303; 306; 309; 312; 315]) store.
Proof.
  eapply wp_mono.
  { eapply (reduce_sum_at_root group group_buffer Sum 1 (at_device 1));
      [exact group_distributed|reflexivity|split; [reflexivity|by right]
      |apply (group_allocates (at_device 1)); cbn; lia|cbn; lia..]. }
  intros [output stats] s' [Hr _]. exact Hr.
Defined.

Lemma all_gather_concatenates_witness :
  wp in_error (all_gather group group_buffer) (fun '(output, _) s' =>
    distributed s' group output (fun _ => rank_values 0 ++ rank_values 1 ++ rank_values 2)) store.
Proof.
  eapply wp_mono; [exact (all_gather_concatenates _ _ _ _ group_distributed group_movable)|].
  intros [output stats] s' [Ho _]. exact Ho.
Defined.

Lemma gather_scatter_copies_witness :
  wp in_error (gathered ← gather group group_buffer 2; scatter group gathered.1)
    (fun '(output, _) s' => distributed s' group output rank_values) store.
Proof.
  eapply wp_mono; [exact (gather_scatter_copies _ _ 2%nat (at_device 2) _ _
    group_distributed group_movable eq_refl)|].
  intros [output stats] s' (_ & Ho & _). exact Ho.
Defined.

Lemma all_to_all_twice_witness :
  wp in_error (first ← all_to_all group group_buffer; all_to_all group first.1)
    (fun '(output, _) s' => distributed s' group output rank_values) store.
Proof.
  eapply wp_mono; [exact (all_to_all_twice _ _ _ _ group_distributed group_movable eq_refl)|].
  intros [output stats] s' [Ho _]. exact Ho.
Defined.

Lemma broadcast_copies_witness :
  wp in_error (broadcast group group_buffer 1)
    (fun _ s' => distributed s' group group_buffer (fun _ => rank_values 1)) store.
Proof.
  eapply wp_mono; [exact (broadcast_copies _ _ _ 1%nat _ group_distributed group_movable ltac:(cbn; lia))|].
  intros stats s' [Ho _]. exact Ho.
Defined.

Lemma tensor_write_at_witness :
  write_at (at_device 0) (tensor 0) 4 [7; 8; 9] store =
    (store, Err (InvalidBuffer "collective element range out of bounds")).
Proof.
  apply (tensor_write_at (at_device 0) (tensor 0) (rank_values 0));
    [reflexivity|reflexivity|unfold fits_usize; cbn; lia|reflexivity|cbn; lia|cbn; lia].
Defined.
End examples.
