(* ===== verification/Topology.v ===== *)
(** * The topology of a rank group: src/src/rank/topology.rs, the graph

    [CollectiveTopology] holds a symmetric matrix of measured links, one more
    matrix per rail of the point-to-point transport and one of aggregate
    bandwidths.  This file has the graph, its construction, the validation of
    rank orders and groups, the split of a payload over channels and the cost
    of one transfer.

    Ranks, rails and channels are indices ([nat]); bytes, bandwidths and times
    are machine integers ([Z]).  A function that returns an [Option] is written
    in the monad with [Err tt] for [None], so that its panics stay visible. *)
From S2P Require Import Prelude Comp Device.

Abbreviation maybe A := (outcome unit A).

(** [option.ok()] in the other direction: the value as the caller's option. *)
Definition to_option {E A} (m : maybe A) : outcome E (option A) :=
  match m with Ok a => Ok (Some a) | Err _ => Ok None | Panic => Panic end.

Definition DEFAULT_BANDWIDTH_MBPS : Z := 32000.
Definition DEFAULT_LATENCY_NS : Z := 1000.
Definition EXACT_RING_SEARCH_MAX_RANKS : nat := 9.
Definition MAX_RING_CHANNELS : Z := 64.
Definition MAX_P2P_RAILS : Z := 64.

(** ** Data *)
Inductive TopologyError :=
  | EmptyWorld
  | RankOutOfRange (rank world_size : nat)
  | SelfLink (rank : nat)
  | ZeroBandwidth (first_rank second_rank : nat)
  | ZeroDirectBandwidth
  | ProfileRead (path message : string)
  | InvalidProfile (message : string)
  | InvalidRing (message : string)
  | InvalidRingChannels (channels : Z)
  | InvalidP2pRails (rails : Z)
  | InvalidRailOrder (message : string)
  | P2pRailMismatch (tuning session : nat)
  | TransportMismatch (tuning communicator : CollectiveTransport)
  | InvalidHierarchy (message : string)
  | InvalidEnvironment (name value : string).

Abbreviation tresult A := (outcome TopologyError A).

Record LinkCost := mkCost { bandwidth_mbps : Z; latency_ns : Z }.

Record TopologyLink := mkLink {
  first_rank : nat; second_rank : nat; link_bandwidth : Z; link_latency : Z }.

Record TopologyRailLink := mkRailLink {
  rail : nat; rail_first_rank : nat; rail_second_rank : nat;
  rail_bandwidth : Z; rail_latency : Z }.

Record TopologyAggregateLink := mkAggregateLink {
  aggregate_first_rank : nat; aggregate_second_rank : nat; aggregate_bandwidth : Z }.

Record CollectiveTopology := mkTopology {
  world_size : nat;
  links : list (list (option LinkCost));
  rail_links : list (list (list (option LinkCost)));
  aggregate_links : list (list (option Z));
}.

(** ** Square matrices *)
Definition blank {A} (w : nat) : list (list (option A)) := replicate w (replicate w None).

(** [m[i][j]] and [m[i][j] = v]. *)
Definition cell {E A} (m : list (list A)) (i j : nat) : outcome E A :=
  row ← index m i; index row j.

Definition set_cell {E A} (m : list (list A)) (i j : nat) (v : A) : outcome E (list (list A)) :=
  row ← index m i;
  if (j <? length row)%nat then Ok (<[i := <[j := v]> row]> m) else Panic.

(** ** Validation *)
Definition validate_rank (t : CollectiveTopology) (rank : nat) : tresult unit :=
  fail_if (world_size t <=? rank)%nat (RankOutOfRange rank (world_size t)).

Definition validate_ring_channels (channels : Z) : tresult unit :=
  fail_if ((channels =? 0) || (MAX_RING_CHANNELS <? channels)) (InvalidRingChannels channels).

Definition validate_p2p_rails (rails : Z) : tresult unit :=
  fail_if ((rails =? 0) || (MAX_P2P_RAILS <? rails)) (InvalidP2pRails rails).

(** The loop all three validations share: every index is below [limit] and
    none comes twice; [mem::replace(&mut seen[i], true)] tells whether it was
    marked. *)
Definition mark {E} (limit : nat) (outside twice : nat -> E) (seen : list bool) (i : nat) :
    outcome E (list bool) :=
  _ ← fail_if (limit <=? i)%nat (outside i);
  already ← index seen i;
  _ ← fail_if already (twice i);
  Ok (<[i := true]> seen).

Definition validate_ring_order (world_size : nat) (order : list nat) : tresult unit :=
  _ ← fail_if (world_size =? 0)%nat EmptyWorld;
  _ ← fail_if (negb (length order =? world_size)%nat)
        (InvalidRing "contains {} ranks, expected {world_size}");
  _ ← foldM (mark world_size (fun rank => RankOutOfRange rank world_size)
               (fun _ => InvalidRing "rank {rank} appears more than once"))
        (replicate world_size false) order;
  Ok tt.

Definition validate_rail_order (rail_count : nat) (order : list nat) : tresult unit :=
  _ ← fail_if (negb (length order =? rail_count)%nat)
        (InvalidRailOrder "contains {} rails, expected {rail_count}");
  _ ← foldM (mark rail_count
               (fun _ => InvalidRailOrder "rail {rail} is outside configured rail count {rail_count}")
               (fun _ => InvalidRailOrder "rail {rail} appears more than once"))
        (replicate rail_count false) order;
  Ok tt.

Definition validate_hierarchy_groups (world_size : nat) (groups : list (list nat)) : tresult unit :=
  _ ← fail_if (length groups <? 2)%nat (InvalidHierarchy "requires at least two non-empty groups");
  seen ← foldM (fun seen group =>
      _ ← fail_if (length group =? 0)%nat (InvalidHierarchy "group {group_index} is empty");
      foldM (mark world_size (fun rank => RankOutOfRange rank world_size)
               (fun _ => InvalidHierarchy "rank {rank} appears more than once")) seen group)
    (replicate world_size false) groups;
  let missing := filter (fun included : bool => included = false) seen in
  fail_if (negb (length missing =? 0)%nat) (InvalidHierarchy "does not cover ranks [{}]").

(** ** Construction *)
Definition with_links (t : CollectiveTopology) m :=
  mkTopology (world_size t) m (rail_links t) (aggregate_links t).
Definition with_rail_links (t : CollectiveTopology) m :=
  mkTopology (world_size t) (links t) m (aggregate_links t).
Definition with_aggregate_links (t : CollectiveTopology) m :=
  mkTopology (world_size t) (links t) (rail_links t) m.

Definition empty (world_size : nat) : tresult CollectiveTopology :=
  _ ← fail_if (world_size =? 0)%nat EmptyWorld;
  Ok (mkTopology world_size (blank world_size) [] (blank world_size)).

(** The guards of the three kinds of link. *)
Definition check_link (t : CollectiveTopology) (first second : nat) (bandwidth : Z) : tresult unit :=
  _ ← validate_rank t first;
  _ ← validate_rank t second;
  _ ← fail_if (first =? second)%nat (SelfLink first);
  fail_if (bandwidth =? 0) (ZeroBandwidth first second).

(** [m[a][b] = v; m[b][a] = v;] *)
Definition set_both {E A} (m : list (list A)) (a b : nat) (v : A) : outcome E (list (list A)) :=
  m ← set_cell m a b v; set_cell m b a v.

Definition add_link (t : CollectiveTopology) (l : TopologyLink) : tresult CollectiveTopology :=
  _ ← check_link t (first_rank l) (second_rank l) (link_bandwidth l);
  m ← set_both (links t) (first_rank l) (second_rank l)
        (Some (mkCost (link_bandwidth l) (link_latency l)));
  Ok (with_links t m).

(** The matrices a new rail needs are pushed first. *)
Definition grow_rails (w : nat) (rails : list (list (list (option LinkCost)))) (rail : nat) :=
  rails ++ replicate (S rail - length rails) (blank w).

Definition add_rail_link (t : CollectiveTopology) (l : TopologyRailLink) : tresult CollectiveTopology :=
  _ ← validate_p2p_rails (saturating_add usize_bits (Z.of_nat (rail l)) 1);
  _ ← check_link t (rail_first_rank l) (rail_second_rank l) (rail_bandwidth l);
  let rails := grow_rails (world_size t) (rail_links t) (rail l) in
  m ← index rails (rail l);
  m ← set_both m (rail_first_rank l) (rail_second_rank l)
        (Some (mkCost (rail_bandwidth l) (rail_latency l)));
  Ok (with_rail_links t (<[rail l := m]> rails)).

Definition add_aggregate_link (t : CollectiveTopology) (l : TopologyAggregateLink) :
    tresult CollectiveTopology :=
  _ ← check_link t (aggregate_first_rank l) (aggregate_second_rank l) (aggregate_bandwidth l);
  m ← set_both (aggregate_links t) (aggregate_first_rank l) (aggregate_second_rank l)
        (Some (aggregate_bandwidth l));
  Ok (with_aggregate_links t m).

(** [for first in 0..w { for second in first + 1..w { .. } }] *)
Definition rank_pairs (w : nat) : list (nat * nat) :=
  flat_map (fun first => map (pair first) (seq (S first) (w - S first))) (seq 0 w).

Definition uniform (world_size : nat) : tresult CollectiveTopology :=
  _ ← fail_if (world_size =? 0)%nat EmptyWorld;
  topology ← empty world_size;
  foldM (fun t '(first, second) =>
           add_link t (mkLink first second DEFAULT_BANDWIDTH_MBPS DEFAULT_LATENCY_NS))
    topology (rank_pairs world_size).

(** ** Inspection *)
Definition link {E} (t : CollectiveTopology) (first second : nat) : outcome E (option LinkCost) :=
  cell (links t) first second.

Definition link_on_rail {E} (t : CollectiveTopology) (first second rail : nat) :
    outcome E (option LinkCost) :=
  on_rail ← match rail_links t !! rail with
            | Some m => cell m first second
            | None => Ok None
            end;
  match on_rail with Some c => Ok (Some c) | None => link t first second end.

Definition aggregate_bandwidth_mbps {E} (t : CollectiveTopology) (first second : nat) :
    outcome E (option Z) :=
  cell (aggregate_links t) first second.

(** The links of a matrix, each pair once. *)
Definition pairs_of {E A B} (m : list (list (option A))) (w : nat) (f : nat -> nat -> A -> B) :
    outcome E (list B) :=
  found ← mapM (fun '(first, second) =>
                  v ← cell m first second; Ok (option_map (f first second) v)) (rank_pairs w);
  Ok (omap id found).

Definition topology_links {E} (t : CollectiveTopology) : outcome E (list TopologyLink) :=
  pairs_of (links t) (world_size t)
    (fun first second c => mkLink first second (bandwidth_mbps c) (latency_ns c)).

Definition topology_rail_links {E} (t : CollectiveTopology) : outcome E (list TopologyRailLink) :=
  per_rail ← mapM (fun '(rail, m) =>
      pairs_of m (world_size t)
        (fun first second c => mkRailLink rail first second (bandwidth_mbps c) (latency_ns c)))
    (enumerate (rail_links t));
  Ok (concat per_rail).

Definition topology_aggregate_links {E} (t : CollectiveTopology) :
    outcome E (list TopologyAggregateLink) :=
  pairs_of (aggregate_links t) (world_size t) mkAggregateLink.

(** ** Cost of a transfer *)
Definition saturating_u64 (value : Z) : Z := if in_widthb 64 value then value else U64_MAX.

Definition transfer_time_ns_u128 {E} (bytes bandwidth : Z) : outcome E Z :=
  let numerator := saturating_mul 128 bytes 1000 in
  round ← arith 128 (bandwidth - 1);
  Ok (saturating_add 128 numerator round / bandwidth).

Definition transfer_time_ns {E} (bytes bandwidth : Z) : outcome E Z :=
  time ← transfer_time_ns_u128 bytes bandwidth; Ok (saturating_u64 time).

Definition link_transfer_time_ns {E} (c : LinkCost) (bytes : Z) : outcome E Z :=
  time ← transfer_time_ns bytes (bandwidth_mbps c);
  Ok (saturating_add 64 (latency_ns c) time).

Definition balanced_sizes {E} (total : Z) (parts : nat) : outcome E (list Z) :=
  if (parts =? 0)%nat then Panic else
  let base := total / Z.of_nat parts in
  let remainder := total mod Z.of_nat parts in
  Ok (map (fun part => base + (if Z.of_nat part <? remainder then 1 else 0)) (seq 0 parts)).

(** ** Well-formed topologies *)

(** What a matrix holds, [None] outside it. *)
Definition entry {A} (m : list (list (option A))) (i j : nat) : option A :=
  row ← m !! i; v ← row !! j; v.

Record matrix_ok {A} (P : A -> Prop) (w : nat) (m : list (list (option A))) : Prop := {
  matrix_rows : length m = w;
  matrix_columns : Forall (fun row => length row = w) m;
  matrix_symmetric : forall i j, entry m i j = entry m j i;
  matrix_diagonal : forall i, entry m i i = None;
  matrix_values : forall i j v, entry m i j = Some v -> P v;
}.

Definition cost_ok (c : LinkCost) : Prop :=
  0 < bandwidth_mbps c < 2 ^ 64 /\ 0 <= latency_ns c < 2 ^ 64.

Definition bandwidth_ok (b : Z) : Prop := 0 < b < 2 ^ 64.

Record topology_ok (t : CollectiveTopology) : Prop := {
  topology_world : (0 < world_size t)%nat /\ Z.of_nat (world_size t) < 2 ^ 32;
  topology_matrix : matrix_ok cost_ok (world_size t) (links t);
  topology_rails : Forall (matrix_ok cost_ok (world_size t)) (rail_links t);
  topology_rail_count : Z.of_nat (length (rail_links t)) <= MAX_P2P_RAILS;
  topology_aggregate : matrix_ok bandwidth_ok (world_size t) (aggregate_links t);
}.

Section matrix_lemmas.
Context {A : Type} (P : A -> Prop).
Implicit Types (m : list (list (option A))) (w i j : nat).

Lemma cell_ok {E} w m i j :
  length m = w -> Forall (fun row => length row = w) m -> (i < w)%nat -> (j < w)%nat ->
  cell (E:=E) m i j = Ok (entry m i j).
Proof using Type.
  intros Hl Hr Hi Hj. unfold cell, entry, index.
  destruct (lookup_lt_is_Some_2 m i ltac:(lia)) as [row Hrow]. rewrite Hrow. cbn.
  pose proof (proj1 (Forall_lookup _ _) Hr _ _ Hrow) as Hlen. cbn in Hlen.
  destruct (lookup_lt_is_Some_2 row j ltac:(lia)) as [v Hv]. by rewrite Hv.
Qed.

Lemma entry_lt w m i j v :
  length m = w -> Forall (fun row => length row = w) m -> entry m i j = Some v ->
  (i < w)%nat /\ (j < w)%nat.
Proof using Type.
  intros Hl Hr. unfold entry. destruct (m !! i) as [row|] eqn:Hrow; [|done]. cbn.
  destruct (row !! j) as [o|] eqn:Ho; [|done]. intros _.
  apply lookup_lt_Some in Ho. pose proof (proj1 (Forall_lookup _ _) Hr _ _ Hrow) as Hlen.
  apply lookup_lt_Some in Hrow. cbn in Hlen. lia.
Qed.

Lemma entry_blank w i j : entry (A:=A) (blank w) i j = None.
Proof using Type.
  unfold entry, blank. destruct (replicate w _ !! i) as [row|] eqn:Hrow; [|done]. cbn.
  apply lookup_replicate in Hrow as [-> _].
  destruct (replicate w None !! j) as [o|] eqn:Ho; [|done]. cbn.
  by apply lookup_replicate in Ho as [-> _].
Qed.

Lemma blank_ok w : matrix_ok P w (blank w).
Proof using Type.
  split; [apply length_replicate| | | |].
  - apply Forall_replicate, length_replicate.
  - intros. by rewrite !entry_blank.
  - intros. apply entry_blank.
  - intros i j v. by rewrite entry_blank.
Qed.

Lemma set_cell_ok {E} w m i j v :
  length m = w -> Forall (fun row => length row = w) m -> (i < w)%nat -> (j < w)%nat ->
  exists m', set_cell (E:=E) m i j v = Ok m' /\
    length m' = w /\ Forall (fun row => length row = w) m' /\
    forall a b, entry m' a b = if decide (a = i /\ b = j) then v else entry m a b.
Proof using Type.
  intros Hl Hr Hi Hj. unfold set_cell, index.
  destruct (lookup_lt_is_Some_2 m i ltac:(lia)) as [row Hrow]. rewrite Hrow. cbn [expect mbind outcome_bind].
  pose proof (proj1 (Forall_lookup _ _) Hr _ _ Hrow) as Hlen. cbn in Hlen.
  rewrite (proj2 (Nat.ltb_lt _ _)) by lia. eexists. split; [done|]. split_and!.
  - by rewrite length_insert.
  - apply Forall_insert; [done|]. by rewrite length_insert.
  - intros a b. unfold entry. destruct (decide (a = i)) as [->|Ha].
    + rewrite list_lookup_insert_eq by lia. rewrite Hrow. cbn.
      destruct (decide (b = j)) as [->|Hb].
      * rewrite list_lookup_insert_eq by lia. by rewrite decide_True by done.
      * rewrite list_lookup_insert_ne by done. by rewrite decide_False by naive_solver.
    + rewrite list_lookup_insert_ne by done. by rewrite decide_False by naive_solver.
Qed.

(** One link, in both directions. *)
Definition linked_pair (a b i j : nat) : Prop := (i = a /\ j = b) \/ (i = b /\ j = a).

#[export] Instance linked_pair_dec a b i j : Decision (linked_pair a b i j).
Proof using Type. unfold linked_pair. solve_decision. Defined.

Lemma set_both_ok {E} w m a b v :
  matrix_ok P w m -> (a < w)%nat -> (b < w)%nat -> a <> b -> P v ->
  exists m', set_both (E:=E) m a b (Some v) = Ok m' /\ matrix_ok P w m' /\
    forall i j, entry m' i j = if decide (linked_pair a b i j) then Some v else entry m i j.
Proof using Type.
  intros [Hl Hr Hs Hd Hv] Ha Hb Hab HP. unfold set_both.
  destruct (set_cell_ok (E:=E) w m a b (Some v) Hl Hr Ha Hb) as (m1 & -> & Hl1 & Hr1 & He1).
  cbn [mbind outcome_bind].
  destruct (set_cell_ok (E:=E) w m1 b a (Some v) Hl1 Hr1 Hb Ha) as (m2 & -> & Hl2 & Hr2 & He2).
  assert (Hboth : forall i j, entry m2 i j = if decide (linked_pair a b i j) then Some v else entry m i j).
  { intros i j. rewrite He2, He1. unfold linked_pair. repeat case_decide; naive_solver. }
  exists m2. split; [done|]. split; [|exact Hboth]. split; [done|done| | |].
  - intros i j. rewrite !Hboth, Hs. unfold linked_pair. repeat case_decide; naive_solver.
  - intros i. rewrite Hboth, Hd. unfold linked_pair. case_decide; naive_solver.
  - intros i j u. rewrite Hboth. case_decide; [by intros [= <-]|apply Hv].
Qed.
End matrix_lemmas.

(** ** Construction keeps a topology well formed *)

(** Links of the machine's types. *)
Definition metrics_typed (bandwidth latency : Z) : Prop :=
  0 <= bandwidth < 2 ^ 64 /\ 0 <= latency < 2 ^ 64.

(** The topologies the program can build. *)
Inductive built : CollectiveTopology -> Prop :=
  | built_empty w t : Z.of_nat w < 2 ^ 32 -> empty w = Ok t -> built t
  | built_uniform w t : Z.of_nat w < 2 ^ 32 -> uniform w = Ok t -> built t
  | built_link t l t' : built t -> metrics_typed (link_bandwidth l) (link_latency l) ->
      add_link t l = Ok t' -> built t'
  | built_rail_link t l t' : built t -> metrics_typed (rail_bandwidth l) (rail_latency l) ->
      add_rail_link t l = Ok t' -> built t'
  | built_aggregate_link t l t' : built t -> 0 <= aggregate_bandwidth l < 2 ^ 64 ->
      add_aggregate_link t l = Ok t' -> built t'.

Section construction.
Implicit Types t : CollectiveTopology.

(** The guards of a link decide whether it is added. *)
Lemma check_link_Ok t a b bandwidth u :
  check_link t a b bandwidth = Ok u <->
    (a < world_size t)%nat /\ (b < world_size t)%nat /\ a <> b /\ bandwidth <> 0.
Proof.
  unfold check_link, validate_rank. destruct u.
  destruct (Nat.leb_spec (world_size t) a); cbn; [split; [done|lia]|].
  destruct (Nat.leb_spec (world_size t) b); cbn; [split; [done|lia]|].
  destruct (Nat.eqb_spec a b); cbn; [split; [done|lia]|].
  destruct (Z.eqb_spec bandwidth 0); cbn; (split; [done|]); [lia|done].
Qed.

Lemma check_link_no_panic t a b bandwidth : no_panic (check_link t a b bandwidth).
Proof. unfold check_link, validate_rank. repeat (apply bind_no_panic; [auto with rust|intros]). auto with rust. Qed.

Lemma empty_ok w t : Z.of_nat w < 2 ^ 32 -> empty w = Ok t -> topology_ok t.
Proof.
  intros Hw He. unfold empty in He. inv_ok. apply Nat.eqb_neq in Hv. split; cbn.
  - lia.
  - apply blank_ok.
  - constructor.
  - unfold MAX_P2P_RAILS. lia.
  - apply blank_ok.
Qed.

(** Adding a link: refused exactly by its guards, and otherwise the pair holds
    the new cost in both directions and everything else is as it was. *)
Lemma add_link_spec t l :
  topology_ok t -> metrics_typed (link_bandwidth l) (link_latency l) ->
  no_panic (add_link t l) /\
  forall t', add_link t l = Ok t' ->
    topology_ok t' /\ world_size t' = world_size t /\
    rail_links t' = rail_links t /\ aggregate_links t' = aggregate_links t /\
    (forall i j, entry (links t') i j =
      if decide (linked_pair (first_rank l) (second_rank l) i j)
      then Some (mkCost (link_bandwidth l) (link_latency l)) else entry (links t) i j).
Proof.
  intros [Hw Hm Hr Hc Ha] [Hb Hla]. unfold add_link.
  destruct (check_link _ _ _ _) as [u|e|] eqn:Hg; cbn [mbind outcome_bind is_panic].
  - apply check_link_Ok in Hg as (H1 & H2 & Hne & Hz).
    destruct (set_both_ok (E:=TopologyError) cost_ok _ _ _ _
      (mkCost (link_bandwidth l) (link_latency l)) Hm H1 H2 Hne) as (m & -> & Hok & He);
      [unfold cost_ok; cbn; lia|]. cbn. split; [done|]. intros t' [= <-]. split; [by split|]. done.
  - split; [done|]. intros t' [=].
  - exfalso. pose proof (check_link_no_panic t (first_rank l) (second_rank l) (link_bandwidth l)) as Hn.
    by rewrite Hg in Hn.
Qed.

Lemma add_rail_link_spec t l :
  topology_ok t -> metrics_typed (rail_bandwidth l) (rail_latency l) ->
  no_panic (add_rail_link t l) /\
  forall t', add_rail_link t l = Ok t' ->
    topology_ok t' /\ world_size t' = world_size t /\
    links t' = links t /\ aggregate_links t' = aggregate_links t /\ Z.of_nat (rail l) < MAX_P2P_RAILS /\
    length (rail_links t') = (length (rail_links t) `max` S (rail l))%nat /\
    (forall r i j, (r < length (rail_links t'))%nat -> entry (default [] (rail_links t' !! r)) i j =
      if decide (r = rail l /\ linked_pair (rail_first_rank l) (rail_second_rank l) i j)
      then Some (mkCost (rail_bandwidth l) (rail_latency l))
      else entry (default [] (rail_links t !! r)) i j).
Proof.
  intros [Hw Hm Hr Hc Ha] [Hb Hla]. unfold add_rail_link, validate_p2p_rails.
  destruct (_ || _) eqn:Hrail; cbn [fail_if mbind outcome_bind is_panic]; [split; [done|]; intros t' [=]|].
  assert (Hlt : Z.of_nat (rail l) < MAX_P2P_RAILS).
  { apply orb_false_iff in Hrail as [_ Hrail%Z.ltb_ge]. unfold saturating_add, saturate, MAX_P2P_RAILS in *. lia. }
  destruct (check_link _ _ _ _) as [u|e|] eqn:Hg; cbn [mbind outcome_bind is_panic].
  - apply check_link_Ok in Hg as (H1 & H2 & Hne & Hz).
    set (rails := grow_rails _ _ _).
    assert (Hlen : length rails = (length (rail_links t) `max` S (rail l))%nat).
    { unfold rails, grow_rails. rewrite length_app, length_replicate. lia. }
    assert (Hrails : Forall (matrix_ok cost_ok (world_size t)) rails).
    { unfold rails, grow_rails. apply Forall_app. split; [done|]. apply Forall_replicate, blank_ok. }
    assert (Hold : forall r, (r < length rails)%nat -> forall i j,
      entry (default [] (rails !! r)) i j = entry (default [] (rail_links t !! r)) i j).
    { intros r Hlr i j. unfold rails, grow_rails. destruct (decide (r < length (rail_links t))%nat).
      - by rewrite lookup_app_l by done.
      - rewrite lookup_app_r by lia. rewrite (lookup_ge_None_2 (rail_links t)) by lia.
        rewrite lookup_replicate_2 by lia. cbn. rewrite entry_blank. done. }
    unfold index. destruct (lookup_lt_is_Some_2 rails (rail l) ltac:(lia)) as [m0 Hm0]. rewrite Hm0.
    cbn [expect mbind outcome_bind].
    pose proof (proj1 (Forall_lookup _ _) Hrails _ _ Hm0) as Hmok.
    destruct (set_both_ok (E:=TopologyError) cost_ok _ _ _ _
      (mkCost (rail_bandwidth l) (rail_latency l)) Hmok H1 H2 Hne) as (m & -> & Hok & He);
      [unfold cost_ok; cbn; lia|]. cbn. split; [done|]. intros t' [= <-]. cbn.
    split; [|split_and!; try done].
    + split; cbn; try done.
      * by apply Forall_insert.
      * rewrite length_insert, Hlen. lia.
    + by rewrite length_insert.
    + intros r i j Hlr. rewrite length_insert in Hlr. destruct (decide (r = rail l)) as [->|Hr'].
      * rewrite list_lookup_insert_eq by done. cbn. rewrite He.
        rewrite <- Hold, Hm0 by done. cbn. repeat case_decide; naive_solver.
      * rewrite list_lookup_insert_ne by done. rewrite decide_False by naive_solver. by apply Hold.
  - split; [done|]. intros t' [=].
  - exfalso. pose proof (check_link_no_panic t (rail_first_rank l) (rail_second_rank l) (rail_bandwidth l)) as Hn.
    by rewrite Hg in Hn.
Qed.

Lemma add_aggregate_link_spec t l :
  topology_ok t -> 0 <= aggregate_bandwidth l < 2 ^ 64 ->
  no_panic (add_aggregate_link t l) /\
  forall t', add_aggregate_link t l = Ok t' ->
    topology_ok t' /\ world_size t' = world_size t /\
    links t' = links t /\ rail_links t' = rail_links t /\
    (forall i j, entry (aggregate_links t') i j =
      if decide (linked_pair (aggregate_first_rank l) (aggregate_second_rank l) i j)
      then Some (aggregate_bandwidth l) else entry (aggregate_links t) i j).
Proof.
  intros [Hw Hm Hr Hc Ha] Hb. unfold add_aggregate_link.
  destruct (check_link _ _ _ _) as [u|e|] eqn:Hg; cbn [mbind outcome_bind is_panic].
  - apply check_link_Ok in Hg as (H1 & H2 & Hne & Hz).
    destruct (set_both_ok (E:=TopologyError) bandwidth_ok _ _ _ _
      (aggregate_bandwidth l) Ha H1 H2 Hne) as (m & -> & Hok & He);
      [unfold bandwidth_ok; lia|]. cbn. split; [done|]. intros t' [= <-]. split; [by split|]. done.
  - split; [done|]. intros t' [=].
  - exfalso. pose proof (check_link_no_panic t (aggregate_first_rank l) (aggregate_second_rank l)
      (aggregate_bandwidth l)) as Hn. by rewrite Hg in Hn.
Qed.

(** A loop keeps what its body keeps. *)
Lemma uniform_ok w t : Z.of_nat w < 2 ^ 32 -> uniform w = Ok t -> topology_ok t.
Proof.
  intros Hw Hu. unfold uniform in Hu. inv_ok.
  eapply (foldM_invariant topology_ok); [by eapply empty_ok| |exact Hu].
  intros s [a b] s' Hs _ Hadd. eapply add_link_spec; [exact Hs| |exact Hadd].
  unfold metrics_typed, DEFAULT_BANDWIDTH_MBPS, DEFAULT_LATENCY_NS; cbn; lia.
Qed.

Lemma built_ok t : built t -> topology_ok t.
Proof.
  induction 1 as [w t Hw He|w t Hw He|t l t' _ IH Hl Ha|t l t' _ IH Hl Ha|t l t' _ IH Hl Ha].
  - by eapply empty_ok.
  - by eapply uniform_ok.
  - by eapply add_link_spec.
  - by eapply add_rail_link_spec.
  - by eapply add_aggregate_link_spec.
Qed.

(** The type invariant of a topology.  Whatever sequence of constructors and
    links the program builds a topology with, its matrices are square over the
    ranks, symmetric, without self links, and every link has a positive
    bandwidth of 64 bits; there are at most 64 rails. *)
Theorem topology_well_formed t : built t -> topology_ok t.
Proof. apply built_ok. Qed.
End construction.

(** ** Orders and groups *)
Section marking.
Context {E : Type} (limit : nat) (outside twice : nat -> E).

Lemma mark_eq seen i :
  mark limit outside twice seen i =
    if (limit <=? i)%nat then Err (outside i) else
    match seen !! i with
    | Some true => Err (twice i) | Some false => Ok (<[i := true]> seen) | None => Panic
    end.
Proof using Type. unfold mark, index. destruct (limit <=? i)%nat, (seen !! i) as [[]|]; done. Qed.

(** The marking loop accepts the indices below the limit that are not marked
    yet and do not repeat. *)
Lemma mark_Ok seen l seen' :
  length seen = limit ->
  foldM (mark limit outside twice) seen l = Ok seen' <->
    NoDup l /\ Forall (fun i => seen !! i = Some false) l /\
    length seen' = limit /\ (forall i, (i < limit)%nat ->
      seen' !! i = if decide (i ∈ l) then Some true else seen !! i).
Proof using Type.
  revert seen. induction l as [|i l IH]; intros seen Hs; cbn [foldM].
  - split.
    + intros [= <-]. split_and!; [constructor|constructor|done|]. intros i _.
      rewrite decide_False by apply not_elem_of_nil. done.
    + intros (_ & _ & Hl & Heq). f_equal. apply list_eq_same_length with limit; [done|done|].
      intros i x y Hi Hx Hy. specialize (Heq i Hi). rewrite decide_False in Heq by apply not_elem_of_nil.
      congruence.
  - rewrite mark_eq. destruct (Nat.leb_spec limit i) as [Hi|Hi]; cbn [mbind outcome_bind].
    { split; [done|]. intros (_ & [Hx _]%Forall_cons & _). apply lookup_lt_Some in Hx. lia. }
    destruct (lookup_lt_is_Some_2 seen i ltac:(lia)) as [b Hb]. rewrite Hb.
    destruct b; cbn [mbind outcome_bind].
    { split; [done|]. intros (_ & [Hx _]%Forall_cons & _). congruence. }
    rewrite IH by (by rewrite length_insert). rewrite NoDup_cons, Forall_cons, !Forall_forall. split.
    + intros (Hnd & Hall & Hl & Heq). assert (Hni : i ∉ l).
      { intros Hin. specialize (Hall i Hin). cbn in Hall. rewrite list_lookup_insert_eq in Hall by lia. done. }
      split_and!; [done|done|done| |done|].
      * intros x Hx. specialize (Hall x Hx). cbn in Hall.
        rewrite list_lookup_insert_ne in Hall by (by intros ->). done.
      * intros j Hj. rewrite Heq by done. destruct (decide (j = i)) as [->|Hji].
        -- rewrite decide_False by done. rewrite (decide_True (P:=i ∈ i :: l)) by left.
           by rewrite list_lookup_insert_eq by lia.
        -- rewrite list_lookup_insert_ne by done. repeat case_decide; set_solver.
    + intros ([Hni Hnd] & [_ Hall] & Hl & Heq). split_and!; [done| |done|].
      * intros x Hx. rewrite list_lookup_insert_ne by (by intros ->). by apply Hall.
      * intros j Hj. rewrite Heq by done. destruct (decide (j = i)) as [->|Hji].
        -- rewrite decide_True by left. rewrite decide_False by done. by rewrite list_lookup_insert_eq by lia.
        -- rewrite list_lookup_insert_ne by done. repeat case_decide; set_solver.
Qed.

Lemma mark_no_panic seen l : length seen = limit -> no_panic (foldM (mark limit outside twice) seen l).
Proof using Type.
  intros Hs. apply (foldM_no_panic (fun seen => length seen = limit)); [done|]. clear seen Hs.
  intros seen i Hs _. rewrite mark_eq. destruct (Nat.leb_spec limit i); cbn; [done|].
  destruct (lookup_lt_is_Some_2 seen i ltac:(lia)) as [b Hb]. rewrite Hb.
  destruct b; cbn; [done|]. split; [done|]. intros s' [= <-]. by rewrite length_insert.
Qed.

Lemma mark_fresh l :
  (exists seen, foldM (mark limit outside twice) (replicate limit false) l = Ok seen) <->
  NoDup l /\ Forall (fun i => (i < limit)%nat) l.
Proof using Type.
  split.
  - intros [seen (Hnd & Hall & _)%mark_Ok]; [|apply length_replicate]. split; [done|].
    eapply Forall_impl; [exact Hall|]. intros i Hi. by apply lookup_replicate in Hi as [_ ?].
  - intros [Hnd Hall]. destruct (foldM _ _ l) as [seen|e|] eqn:Hf; [by exists seen| |].
    + exfalso. assert (Hok : exists seen, foldM (mark limit outside twice) (replicate limit false) l = Ok seen).
      { exists (map (fun i => bool_decide (i ∈ l)) (seq 0 limit)). apply mark_Ok; [apply length_replicate|].
        split_and!; [done| |by rewrite length_map, length_seq|].
        - eapply Forall_impl; [exact Hall|]. intros i Hi. by apply lookup_replicate_2.
        - intros i Hi. rewrite list_lookup_fmap, lookup_seq_lt by done. cbn.
          rewrite lookup_replicate_2 by done. case_bool_decide; case_decide; done. }
      destruct Hok as [seen Hok]. congruence.
    + exfalso. pose proof (mark_no_panic (replicate limit false) l (length_replicate _ _)) as Hn. by rewrite Hf in Hn.
Qed.
End marking.

(** Distinct indices below their own number are all of them. *)
Lemma NoDup_below_Permutation l n :
  NoDup l -> Forall (fun i => (i < n)%nat) l -> length l = n -> l ≡ₚ seq 0 n.
Proof.
  intros Hnd Hall Hl. apply submseteq_length_Permutation; [|by rewrite length_seq, Hl].
  apply NoDup_submseteq; [done|]. intros x Hx. apply elem_of_seq.
  pose proof (proj1 (Forall_forall _ _) Hall x Hx) as Hlt. cbn in Hlt. lia.
Qed.

Lemma Permutation_seq_below l n :
  l ≡ₚ seq 0 n -> NoDup l /\ Forall (fun i => (i < n)%nat) l /\ length l = n.
Proof.
  intros Hp. split_and!.
  - rewrite Hp. apply NoDup_seq.
  - rewrite Hp. apply Forall_forall. intros i Hi%elem_of_seq. lia.
  - rewrite Hp. apply length_seq.
Qed.

Section orders.

Lemma bind_unit {E A} (m : outcome E A) : (_ ← m; Ok tt) = Ok tt <-> exists a, m = Ok a.
Proof. destruct m; cbn; naive_solver. Qed.

Lemma foldM_mark_order {E} n (outside twice : nat -> E) l :
  length l = n ->
  (exists seen, foldM (mark n outside twice) (replicate n false) l = Ok seen) <-> l ≡ₚ seq 0 n.
Proof.
  intros Hl. rewrite mark_fresh. split.
  - intros [Hnd Hall]. by apply NoDup_below_Permutation.
  - intros Hp%Permutation_seq_below. naive_solver.
Qed.

(** A ring order is accepted exactly when it visits every rank once. *)
Lemma validate_ring_order_Ok w order :
  validate_ring_order w order = Ok tt <-> (0 < w)%nat /\ order ≡ₚ seq 0 w.
Proof.
  unfold validate_ring_order. destruct (Nat.eqb_spec w 0) as [->|Hw]; cbn [fail_if mbind outcome_bind];
    [split; [done|lia]|].
  destruct (Nat.eqb_spec (length order) w) as [Hl|Hl]; cbn [negb fail_if mbind outcome_bind].
  - rewrite <- (foldM_mark_order w (fun rank => RankOutOfRange rank w)
      (fun _ => InvalidRing "rank {rank} appears more than once")) by done.
    rewrite bind_unit. split; [intros Hs; split; [lia|exact Hs]|intros [_ Hs]; exact Hs].
  - split; [done|]. intros [_ Hp%Permutation_seq_below]. naive_solver.
Qed.

Lemma validate_ring_order_no_panic w order : no_panic (validate_ring_order w order).
Proof.
  unfold validate_ring_order. do 2 (apply bind_no_panic; [auto with rust|intros]).
  apply bind_no_panic; [|done]. apply mark_no_panic, length_replicate.
Qed.

Lemma validate_rail_order_Ok n order :
  validate_rail_order n order = Ok tt <-> order ≡ₚ seq 0 n.
Proof.
  unfold validate_rail_order.
  destruct (Nat.eqb_spec (length order) n) as [Hl|Hl]; cbn [negb fail_if mbind outcome_bind].
  - rewrite <- (foldM_mark_order n
      (fun _ => InvalidRailOrder "rail {rail} is outside configured rail count {rail_count}")
      (fun _ => InvalidRailOrder "rail {rail} appears more than once")) by done.
    apply bind_unit.
  - split; [done|]. intros Hp%Permutation_seq_below. naive_solver.
Qed.
End orders.

(** Groups are accepted exactly when they are two or more, non-empty and
    partition the ranks. *)
Definition hierarchy_ok (w : nat) (groups : list (list nat)) : Prop :=
  (2 <= length groups)%nat /\ Forall (fun group => group <> []) groups /\ concat groups ≡ₚ seq 0 w.

Section groups.
Context {E : Type} (w : nat) (empty_group : E) (outside twice : nat -> E).

(** Marking group by group is marking the concatenation. *)
Lemma mark_groups seen groups seen' :
  foldM (fun seen group =>
      _ ← fail_if (length group =? 0)%nat empty_group;
      foldM (mark w outside twice) seen group) seen groups = Ok seen' <->
    Forall (fun group => group <> []) groups /\
    foldM (mark w outside twice) seen (concat groups) = Ok seen'.
Proof using Type.
  revert seen. induction groups as [|group groups IH]; intros seen; cbn [foldM concat].
  { split; [intros ->; by repeat constructor|by intros [_ ->]]. }
  rewrite Forall_cons, foldM_app. destruct group as [|i group].
  { cbn. split; [done|]. by intros [[? _] _]. }
  cbn [length Nat.eqb fail_if mbind outcome_bind]. split.
  - intros (s & Hs & Hf)%bind_Ok. apply IH in Hf as [Hall Hf]. split; [by split|].
    apply bind_Ok. by exists s.
  - intros [[_ Hall] (s & Hs & Hf)%bind_Ok]. apply bind_Ok. exists s. split; [done|]. by apply IH.
Qed.

Lemma mark_groups_no_panic seen groups :
  length seen = w ->
  no_panic (foldM (fun seen group =>
      _ ← fail_if (length group =? 0)%nat empty_group;
      foldM (mark w outside twice) seen group) seen groups).
Proof using Type.
  intros Hs. apply (foldM_no_panic (fun seen => length seen = w)); [done|]. clear seen Hs.
  intros seen group Hs _. destruct group as [|i group]; cbn [length Nat.eqb fail_if mbind outcome_bind]; [done|].
  split; [by apply mark_no_panic|]. intros s' Hs'.
  apply mark_Ok in Hs' as (_ & _ & Hl & _); done.
Qed.
End groups.

Lemma validate_hierarchy_groups_Ok w groups :
  validate_hierarchy_groups w groups = Ok tt <-> hierarchy_ok w groups.
Proof.
  unfold validate_hierarchy_groups, hierarchy_ok.
  destruct (Nat.ltb_spec (length groups) 2); cbn [fail_if mbind outcome_bind]; [split; [done|lia]|].
  rewrite bind_Ok. split.
  - intros (seen & Hf & Hm). apply fail_if_Ok, negb_false_iff, Nat.eqb_eq in Hm. apply nil_length_inv in Hm.
    apply mark_groups in Hf as [Hne Hf]. split; [done|]. split; [done|].
    apply mark_Ok in Hf as (Hnd & Hall & Hl & Heq); [|apply length_replicate].
    apply NoDup_Permutation; [done|apply NoDup_seq|]. intros i. rewrite elem_of_seq. split.
    + intros Hi. rewrite Forall_forall in Hall. specialize (Hall i Hi). cbn in Hall.
      apply lookup_replicate in Hall as [_ ?]. lia.
    + intros [_ Hi]. destruct (decide (i ∈ concat groups)) as [|Hni]; [done|]. exfalso.
      specialize (Heq i Hi). rewrite decide_False, lookup_replicate_2 in Heq by done.
      assert (Hin : false ∈ filter (fun included : bool => included = false) seen).
      { apply list_elem_of_filter. split; [done|]. by apply list_elem_of_lookup_2 in Heq. }
      rewrite Hm in Hin. by apply not_elem_of_nil in Hin.
  - intros (_ & Hne & Hp). pose proof (Permutation_seq_below _ _ Hp) as (Hnd & Hb & _).
    destruct (proj2 (mark_fresh w (fun rank => RankOutOfRange rank w)
      (fun _ => InvalidHierarchy "rank {rank} appears more than once") _) (conj Hnd Hb)) as [seen Hf].
    exists seen. split; [by apply mark_groups|].
    apply fail_if_Ok, negb_false_iff, Nat.eqb_eq.
    apply mark_Ok in Hf as (_ & _ & Hl & Heq); [|apply length_replicate].
    cut (filter (fun included : bool => included = false) seen = []); [by intros ->|].
    apply elem_of_nil_inv. intros b [-> Hin]%list_elem_of_filter. apply list_elem_of_lookup in Hin as [i Hi].
    pose proof (lookup_lt_Some _ _ _ Hi) as Hlt. rewrite Hl in Hlt. rewrite Heq in Hi by done.
    rewrite decide_True in Hi; [done|]. rewrite Hp. apply elem_of_seq. lia.
Qed.

Lemma validate_hierarchy_groups_no_panic w groups : no_panic (validate_hierarchy_groups w groups).
Proof.
  unfold validate_hierarchy_groups. apply bind_no_panic; [auto with rust|intros].
  apply bind_no_panic; [|intros; auto with rust]. apply mark_groups_no_panic, length_replicate.
Qed.

(** ** Transfer times *)

(** The rounded-up division. *)
Definition ceil_div (a b : Z) : Z := (a + b - 1) / b.

(** The exact cost of a transfer, at most [u64::MAX]. *)
Definition transfer_ns (bandwidth bytes : Z) : Z := Z.min U64_MAX (ceil_div (bytes * 1000) bandwidth).
Definition cost_ns (c : LinkCost) (bytes : Z) : Z :=
  Z.min U64_MAX (latency_ns c + ceil_div (bytes * 1000) (bandwidth_mbps c)).

Section transfer.

Lemma ceil_div_nonneg a b : 0 <= a -> 0 < b -> 0 <= ceil_div a b.
Proof. intros. apply Z.div_pos; lia. Qed.

Lemma ceil_div_spec a b : 0 < b -> b * (ceil_div a b - 1) < a <= b * ceil_div a b.
Proof.
  intros Hb. unfold ceil_div. pose proof (Z.div_mod (a + b - 1) b ltac:(lia)).
  pose proof (Z.mod_pos_bound (a + b - 1) b Hb). nia.
Qed.

Lemma saturating_u64_min v : 0 <= v -> saturating_u64 v = Z.min U64_MAX v.
Proof.
  intros Hv. unfold saturating_u64, in_widthb, U64_MAX.
  destruct (Z.leb_spec 0 v), (Z.ltb_spec v (2 ^ 64)); cbn [andb]; lia.
Qed.

Lemma transfer_time_ns_u128_ok {E} bytes bandwidth :
  0 <= bytes < 2 ^ 64 -> bandwidth_ok bandwidth ->
  transfer_time_ns_u128 (E:=E) bytes bandwidth = Ok (ceil_div (bytes * 1000) bandwidth).
Proof.
  intros Hb [Hl Hh]. unfold transfer_time_ns_u128.
  rewrite arith_in by (unfold in_width; lia). cbn [mbind outcome_bind]. f_equal. unfold ceil_div.
  unfold saturating_add, saturating_mul. rewrite (saturate_in 128 (bytes * 1000)) by (unfold in_width; lia).
  rewrite saturate_in by (unfold in_width; lia). f_equal. lia.
Qed.

Lemma transfer_time_ns_ok {E} bytes bandwidth :
  0 <= bytes < 2 ^ 64 -> bandwidth_ok bandwidth ->
  transfer_time_ns (E:=E) bytes bandwidth = Ok (transfer_ns bandwidth bytes).
Proof.
  intros Hb Hw. unfold transfer_time_ns. rewrite transfer_time_ns_u128_ok by done.
  cbn [mbind outcome_bind]. unfold transfer_ns. f_equal. apply saturating_u64_min.
  destruct Hw. apply ceil_div_nonneg; lia.
Qed.

Lemma link_transfer_time_ns_ok {E} c bytes :
  cost_ok c -> 0 <= bytes < 2 ^ 64 ->
  link_transfer_time_ns (E:=E) c bytes = Ok (cost_ns c bytes).
Proof.
  intros [Hb Hl] Hby. unfold link_transfer_time_ns. rewrite transfer_time_ns_ok by done.
  cbn [mbind outcome_bind]. unfold cost_ns, transfer_ns. f_equal.
  pose proof (ceil_div_nonneg (bytes * 1000) (bandwidth_mbps c) ltac:(lia) ltac:(lia)).
  unfold saturating_add, saturate, U64_MAX. lia.
Qed.

Lemma cost_ns_range c bytes : cost_ok c -> 0 <= bytes -> 0 <= cost_ns c bytes <= U64_MAX.
Proof.
  intros [Hb Hl] Hby. unfold cost_ns.
  pose proof (ceil_div_nonneg (bytes * 1000) (bandwidth_mbps c) ltac:(lia) ltac:(lia)).
  unfold U64_MAX. lia.
Qed.

(** The cost of a transfer at machine width.  For a well formed link no
    intermediate value of the 128-bit arithmetic overflows or saturates: the
    time is the latency plus the number of bytes over the bandwidth, rounded
    up, and exactly [u64::MAX] when that does not fit; the division is exact
    to less than one unit. *)
Theorem link_transfer_time_bounds {E} c bytes :
  cost_ok c -> 0 <= bytes < 2 ^ 64 ->
  exists quotient, link_transfer_time_ns (E:=E) c bytes = Ok (Z.min U64_MAX (latency_ns c + quotient)) /\
    bandwidth_mbps c * (quotient - 1) < bytes * 1000 <= bandwidth_mbps c * quotient.
Proof.
  intros Hc Hb. exists (ceil_div (bytes * 1000) (bandwidth_mbps c)).
  rewrite link_transfer_time_ns_ok by done. split; [done|]. apply ceil_div_spec, Hc.
Qed.

(** The split of a payload over the channels loses no byte. *)
Lemma balanced_sizes_ok {E} total parts :
  0 <= total -> (0 < parts)%nat ->
  exists sizes, balanced_sizes (E:=E) total parts = Ok sizes /\
    length sizes = parts /\ sum_Z sizes = total /\
    Forall (fun s => total / Z.of_nat parts <= s <= total / Z.of_nat parts + 1) sizes.
Proof.
  intros Ht Hp. unfold balanced_sizes. rewrite (proj2 (Nat.eqb_neq parts 0)) by lia.
  eexists. split; [done|]. split_and!; [by rewrite length_map, length_seq| |].
  - set (f := fun part : nat => _).
    assert (Hsum : forall k, (k <= parts)%nat -> sum_Z (map f (seq 0 k)) =
      Z.of_nat k * (total / Z.of_nat parts) + Z.min (Z.of_nat k) (total mod Z.of_nat parts)).
    { induction k as [|k IH]; intros Hk.
      - cbn [seq map]. pose proof (Z.mod_pos_bound total (Z.of_nat parts) ltac:(lia)). unfold sum_Z; cbn. lia.
      - rewrite seq_S, map_app, sum_Z_app, IH by lia. cbn [map]. unfold sum_Z; cbn [foldr]. unfold f.
        destruct (Z.ltb_spec (Z.of_nat (0 + k)) (total mod Z.of_nat parts)); lia. }
    rewrite Hsum by done. pose proof (Z.mod_pos_bound total (Z.of_nat parts) ltac:(lia)).
    pose proof (Z.div_mod total (Z.of_nat parts) ltac:(lia)). lia.
  - apply Forall_forall. intros s (k & -> & _)%list_elem_of_fmap. destruct (_ <? _); lia.
Qed.
End transfer.

(** ** The list of links *)
Section links_list.

Lemma elem_of_rank_pairs w i j : (i, j) ∈ rank_pairs w <-> (i < j < w)%nat.
Proof.
  unfold rank_pairs. rewrite list_elem_of_In, in_flat_map. split.
  - intros (a & Ha%in_seq & (b & [= -> ->] & Hb%in_seq)%in_map_iff). lia.
  - intros Hij. exists i. split; [apply in_seq; lia|]. apply in_map_iff. exists j.
    split; [done|]. apply in_seq. lia.
Qed.

Lemma pairs_of_ok {E A B} w (m : list (list (option A))) (f : nat -> nat -> A -> B) :
  length m = w -> Forall (fun row => length row = w) m ->
  pairs_of (E:=E) m w f =
    Ok (omap (fun '(i, j) => option_map (f i j) (entry m i j)) (rank_pairs w)).
Proof.
  intros Hl Hr. unfold pairs_of.
  rewrite (mapM_pure _ (fun '(i, j) => option_map (f i j) (entry m i j))).
  - cbn [mbind outcome_bind]. f_equal. induction (rank_pairs w) as [|[i j] l IH]; cbn; [done|].
    destruct (entry m i j); cbn; by rewrite IH.
  - intros [i j] Hij%elem_of_rank_pairs. rewrite (cell_ok w) by (done || lia). done.
Qed.

(** Adding the links of a matrix to a topology that has none of its own. *)
Lemma rebuild_links (m : list (list (option LinkCost))) w pairs t :
  matrix_ok cost_ok w m -> topology_ok t -> world_size t = w ->
  Forall (fun p => (p.1 < p.2 < w)%nat) pairs ->
  exists t', foldM add_link t (omap (fun '(i, j) => option_map (fun c =>
      mkLink i j (bandwidth_mbps c) (latency_ns c)) (entry m i j)) pairs) = Ok t' /\
    topology_ok t' /\ world_size t' = w /\
    forall i j, entry (links t') i j =
      if decide (Exists (fun p => linked_pair p.1 p.2 i j /\ is_Some (entry m i j)) pairs)
      then entry m i j else entry (links t) i j.
Proof.
  intros Hm Hok Hw Hp. revert t Hok Hw. induction Hp as [|[a b] pairs Hab Hp IH]; intros t Hok Hw.
  { exists t. by cbn. }
  cbn in Hab. cbn [omap list_omap]. destruct (entry m a b) as [c|] eqn:He; cbn [option_map].
  - destruct (matrix_values _ _ _ Hm _ _ _ He) as [Hb Hla]. cbn [foldM].
    destruct (add_link_spec t (mkLink a b (bandwidth_mbps c) (latency_ns c)) Hok) as [_ Hadd];
      [unfold metrics_typed; cbn; lia|].
    assert (Hsome : exists t1, add_link t (mkLink a b (bandwidth_mbps c) (latency_ns c)) = Ok t1).
    { unfold add_link. cbn. rewrite (proj2 (check_link_Ok t a b (bandwidth_mbps c) tt)) by lia. cbn [mbind outcome_bind].
      destruct (set_both_ok (E:=TopologyError) cost_ok (world_size t) (links t) a b
        (mkCost (bandwidth_mbps c) (latency_ns c))) as (m' & Hs & _);
        [apply Hok|lia|lia|lia|unfold cost_ok; cbn; lia|]. rewrite Hs. by eexists. }
    destruct Hsome as [t1 Ht1]. rewrite Ht1. cbn [mbind outcome_bind].
    destruct (Hadd _ Ht1) as (Hok1 & Hw1 & _ & _ & He1). cbn in He1.
    destruct (IH t1 Hok1 ltac:(congruence)) as (t' & Hf & Hok' & Hw' & He').
    exists t'. split; [done|]. split; [done|]. split; [done|]. intros i j. rewrite He', He1.
    destruct c as [bw la]. cbn in *.
    destruct (decide (linked_pair a b i j)) as [Hl|Hl].
    + assert (Hij : entry m i j = Some (mkCost bw la)).
      { destruct Hl as [[-> ->]|[-> ->]]; [done|]. by rewrite (matrix_symmetric _ _ _ Hm). }
      rewrite (decide_True (P:=Exists _ ((a, b) :: pairs))) by (constructor; by rewrite Hij).
      rewrite Hij. by case_decide.
    + apply decide_ext. rewrite Exists_cons. cbn. naive_solver.
  - destruct (IH t Hok Hw) as (t' & Hf & Hok' & Hw' & He'). exists t'.
    split; [done|]. split; [done|]. split; [done|]. intros i j. rewrite He'. apply decide_ext.
    rewrite Exists_cons. cbn. split; [by right|]. intros [[Hl [c Hc]]|]; [|done]. exfalso.
    destruct Hl as [[-> ->]|[-> ->]]; [congruence|].
    rewrite (matrix_symmetric _ _ _ Hm) in Hc. congruence.
Qed.

Lemma matrix_ext {A} (P : A -> Prop) w (m m' : list (list (option A))) :
  matrix_ok P w m -> matrix_ok P w m' -> (forall i j, entry m i j = entry m' i j) -> m = m'.
Proof.
  intros [Hl Hr _ _ _] [Hl' Hr' _ _ _] He. apply list_eq_same_length with w; [done|done|].
  intros i row row' Hi Hrow Hrow'.
  pose proof (proj1 (Forall_lookup _ _) Hr _ _ Hrow) as Hlen. cbn in Hlen.
  pose proof (proj1 (Forall_lookup _ _) Hr' _ _ Hrow') as Hlen'. cbn in Hlen'.
  apply list_eq_same_length with w; [done|done|]. intros j x y Hj Hx Hy.
  specialize (He i j). unfold entry in He. rewrite Hrow, Hrow' in He. cbn in He.
  rewrite Hx, Hy in He. exact He.
Qed.

(** The list of links determines the links.  Adding the links a topology
    lists, in order, to an empty topology gives its matrix of links back; the
    list never panics and names every pair once, lower rank first. *)
Theorem links_rebuild t :
  topology_ok t ->
  exists ls fresh t', topology_links (E:=TopologyError) t = Ok ls /\ empty (world_size t) = Ok fresh /\
    foldM add_link fresh ls = Ok t' /\ links t' = links t /\
    Forall (fun l => (first_rank l < second_rank l < world_size t)%nat /\
      entry (links t) (first_rank l) (second_rank l) =
        Some (mkCost (link_bandwidth l) (link_latency l))) ls.
Proof.
  intros Hok. destruct (topology_matrix _ Hok) as [Hl Hr Hs Hd Hv] eqn:Hm. clear Hm.
  unfold topology_links. rewrite pairs_of_ok by done.
  set (ls := omap _ _). destruct (topology_world _ Hok) as [Hw Hwb].
  assert (Hfresh : exists fresh, empty (world_size t) = Ok fresh /\ fresh = mkTopology (world_size t)
    (blank (world_size t)) [] (blank (world_size t))).
  { eexists. unfold empty. rewrite (proj2 (Nat.eqb_neq _ _)) by lia. done. }
  destruct Hfresh as (fresh & He & Hf).
  destruct (rebuild_links (links t) (world_size t) (rank_pairs (world_size t)) fresh) as (t' & Ht' & Hok' & Hw' & Hent).
  - apply Hok.
  - by eapply empty_ok.
  - by rewrite Hf.
  - apply Forall_forall. intros [i j] Hij%elem_of_rank_pairs. done.
  - exists ls, fresh, t'. split_and!; try done.
    + apply (matrix_ext cost_ok (world_size t)); [rewrite <- Hw'; apply Hok'|apply Hok|]. intros i j. rewrite Hent.
      case_decide as Hex; [done|]. rewrite Hf. cbn. rewrite entry_blank.
      destruct (entry (links t) i j) as [c|] eqn:Hij; [|done]. exfalso. apply Hex.
      destruct (entry_lt _ _ _ _ _ Hl Hr Hij) as [Hi Hj].
      apply Exists_exists. destruct (decide (i < j)%nat).
      * exists (i, j). rewrite elem_of_rank_pairs. unfold linked_pair; cbn. naive_solver.
      * exists (j, i). rewrite elem_of_rank_pairs. destruct (decide (i = j)) as [->|].
        -- rewrite Hd in Hij. done.
        -- unfold linked_pair; cbn. split; [lia|]. naive_solver.
    + apply Forall_forall. intros l Hin. unfold ls in Hin.
      apply list_elem_of_omap in Hin as ([i j] & Hij%elem_of_rank_pairs & Hl').
      destruct (entry (links t) i j) as [[]|] eqn:Hc; [|done]. cbn in Hl'. injection Hl' as <-. by cbn.
Qed.
End links_list.

(** ** Instances *)

(** Ranks 0 and 2 are only connected through rank 1. *)
Definition line_of_three : tresult CollectiveTopology :=
  t ← empty 3;
  t ← add_link t (mkLink 0 1 64000 500);
  add_link t (mkLink 1 2 32000 1000).

Lemma line_built t : line_of_three = Ok t -> built t.
Proof.
  intros H. unfold line_of_three in H. inv_ok.
  refine (built_link _ _ _ (built_link _ _ _ _ _ Hv0) _ H); [|unfold metrics_typed; cbn; lia..].
  eapply built_empty; [|exact Hv]. lia.
Qed.

Lemma line_ok t : line_of_three = Ok t -> topology_ok t.
Proof. intros H. by apply built_ok, line_built. Qed.

Lemma topology_well_formed_witness : exists t, line_of_three = Ok t /\ topology_ok t.
Proof.
  destruct line_of_three as [t|e|] eqn:H; [|vm_compute in H; discriminate H..].
  exists t. split; [done|]. apply topology_well_formed. by apply line_built.
Defined.

Lemma link_transfer_time_bounds_witness :
  cost_ok (mkCost 32000 1000) /\ link_transfer_time_ns (E:=unit) (mkCost 32000 1000) 1048576 = Ok 33768 /\
  exists quotient,
    link_transfer_time_ns (E:=unit) (mkCost 32000 1000) 1048576 = Ok (Z.min U64_MAX (1000 + quotient)) /\
    32000 * (quotient - 1) < 1048576 * 1000 <= 32000 * quotient.
Proof.
  split; [unfold cost_ok; cbn; lia|]. split; [by vm_compute|].
  apply (link_transfer_time_bounds (mkCost 32000 1000) 1048576); [unfold cost_ok; cbn; lia|lia].
Defined.

Lemma links_rebuild_witness :
  exists t ls fresh t', line_of_three = Ok t /\ topology_links (E:=TopologyError) t = Ok ls /\
    empty (world_size t) = Ok fresh /\ foldM add_link fresh ls = Ok t' /\ links t' = links t.
Proof.
  destruct line_of_three as [t|e|] eqn:H; [|vm_compute in H; discriminate H..].
  destruct (links_rebuild t (line_ok t H)) as (ls & fresh & t' & H1 & H2 & H3 & H4 & _).
  by exists t, ls, fresh, t'.
Defined.
