(* ===== verification/ShortestPath.v ===== *)
(** * Cheapest routes: src/src/rank/topology.rs

    [shortest_transfer_time_ns] and its variants on a rail and within a group
    are Dijkstra's search over the ranks, with saturating distances.  The
    reference is the least cost of a walk in the graph of links: the search
    always ends within its loop bound and returns that cost, or [None] when
    every walk costs [u64::MAX] or more. *)
From S2P Require Import Prelude Comp Device Topology.

(** ** Definitions *)

(** [iter.min_by_key(key)]: the first element with the least key. *)
Definition min_by_key {A} (key : A -> Z) (l : list A) : option A :=
  foldl (fun best x =>
      match best with
      | Some b => if key x <? key b then Some x else Some b
      | None => Some x
      end) None l.

(** The loop of the three searches.  [permitted] restricts the ranks of the
    search within a group, [edge] reads the links; the local vectors
    [distances] and [visited] have one place per rank. *)
Section search.
Context (rank_count : nat) (permitted : nat -> bool)
  (edge : nat -> nat -> maybe (option LinkCost)) (bytes : Z).

Definition relax (current : nat) (visited : list bool) (distances : list Z) (next : nat) :
    maybe (list Z) :=
  if negb (permitted next) || visited !!! next then Ok distances else
  link ← edge current next;
  match link with
  | None => Ok distances
  | Some link =>
      time ← link_transfer_time_ns link bytes;
      let candidate := saturating_add 64 (distances !!! current) time in
      Ok (<[next := Z.min (distances !!! next) candidate]> distances)
  end.

Definition reached (distances : list Z) (destination : nat) : maybe Z :=
  d ← index distances destination;
  if d =? U64_MAX then Err tt else Ok d.

Fixpoint search (iterations destination : nat) (visited : list bool) (distances : list Z) : maybe Z :=
  match iterations with
  | O => reached distances destination
  | S iterations =>
      let unvisited := filter (fun rank => permitted rank && negb (visited !!! rank) = true)
                         (seq 0 rank_count) in
      current ← ok_or (min_by_key (fun rank => distances !!! rank) unvisited) tt;
      if distances !!! current =? U64_MAX then reached distances destination
      else if (current =? destination)%nat then Ok (distances !!! current)
      else
        let visited := <[current := true]> visited in
        distances ← foldM (relax current visited) distances (seq 0 rank_count);
        search iterations destination visited distances
  end.

(** The search from [source]: every distance but its own starts at [u64::MAX]. *)
Definition search_from (iterations source destination : nat) : maybe Z :=
  if (rank_count <=? source)%nat then Panic else
  search iterations destination (replicate rank_count false)
    (<[source := 0]> (replicate rank_count U64_MAX)).
End search.

Definition shortest_transfer_time_ns_for_rail (t : CollectiveTopology)
    (source destination : nat) (bytes : Z) (rail : option nat) : maybe Z :=
  if (source =? destination)%nat then Ok 0 else
  search_from (world_size t) (fun _ => true)
    (fun current next =>
       match rail with
       | Some rail => link_on_rail t current next rail
       | None => link t current next
       end) bytes (world_size t) source destination.

Definition shortest_transfer_time_ns (t : CollectiveTopology) (source destination : nat) (bytes : Z) :
    maybe Z :=
  shortest_transfer_time_ns_for_rail t source destination bytes None.

Definition shortest_transfer_time_ns_on_rail (t : CollectiveTopology)
    (source destination : nat) (bytes : Z) (rail : nat) : maybe Z :=
  shortest_transfer_time_ns_for_rail t source destination bytes (Some rail).

(** [permitted[*rank as usize] = true] for every allowed rank. *)
Definition permit {E} (permitted : list bool) (rank : nat) : outcome E (list bool) :=
  if (rank <? length permitted)%nat then Ok (<[rank := true]> permitted) else Panic.

Definition shortest_transfer_time_ns_within (t : CollectiveTopology)
    (source destination : nat) (bytes : Z) (allowed : list nat) : maybe Z :=
  if (source =? destination)%nat then Ok 0 else
  permitted ← foldM permit (replicate (world_size t) false) allowed;
  search_from (world_size t) (fun rank => permitted !!! rank) (link t) bytes
    (length allowed) source destination.

(** ** The reference: walks and their cost *)
Section walks.
Context (cost : nat -> nat -> option Z) (node : nat -> Prop).

Inductive walk (s : nat) : nat -> Z -> Prop :=
  | walk_here : walk s s 0
  | walk_step u v c k : walk s u c -> node v -> cost u v = Some k -> walk s v (c + k).

(** The least cost of a walk. *)
Definition cheapest (s d : nat) (c : Z) : Prop :=
  walk s d c /\ forall c', walk s d c' -> c <= c'.

(** What a search must return: the least cost when it is below [u64::MAX]. *)
Definition routes (s d : nat) (r : maybe Z) : Prop :=
  match r with
  | Ok c => cheapest s d c /\ c < U64_MAX
  | Err _ => forall c, walk s d c -> U64_MAX <= c
  | Panic => False
  end.
End walks.

(** ** The search *)
Lemma min_by_key_Some {A} (key : A -> Z) l x :
  min_by_key key l = Some x -> x ∈ l /\ forall y, y ∈ l -> key x <= key y.
Proof.
  unfold min_by_key.
  assert (Hgen : forall best, foldl (fun best x => match best with
      | Some b => if key x <? key b then Some x else Some b | None => Some x end) best l = Some x ->
    (x ∈ l \/ best = Some x) /\ (forall y, y ∈ l \/ best = Some y -> key x <= key y)).
  { induction l as [|a l IH]; intros best; cbn [foldl].
    { intros ->. split; [by right|]. intros y [Hy|[= ->]]; [by apply not_elem_of_nil in Hy|lia]. }
    intros Hf. destruct (IH _ Hf) as [Hin Hle]. clear IH Hf. split.
    - destruct Hin as [Hin|Hin]; [left; by right|]. destruct best as [b|].
      + destruct (key a <? key b); injection Hin as ->; [left; left|by right].
      + injection Hin as ->. left; left.
    - intros y Hy. destruct best as [b|].
      + destruct (Z.ltb_spec (key a) (key b)).
        * destruct Hy as [[->|Hy]%elem_of_cons|[= ->]]; [apply Hle; by right|apply Hle; by left|].
          specialize (Hle a (or_intror eq_refl)). lia.
        * destruct Hy as [[->|Hy]%elem_of_cons|[= ->]]; [|apply Hle; by left|apply Hle; by right].
          specialize (Hle b (or_intror eq_refl)). lia.
      + destruct Hy as [[->|Hy]%elem_of_cons|[=]]; [apply Hle; by right|apply Hle; by left]. }
  intros Hf. destruct (Hgen None Hf) as [[Hin|[=]] Hle]. split; [done|]. intros y Hy. apply Hle. by left.
Qed.

Lemma min_by_key_None {A} (key : A -> Z) l : min_by_key key l = None -> l = [].
Proof.
  destruct l as [|a l]; [done|]. intros Hf. exfalso. unfold min_by_key in Hf. cbn in Hf. revert Hf.
  assert (Hgen : forall b, foldl (fun best x => match best with
      | Some b => if key x <? key b then Some x else Some b | None => Some x end) (Some b) l <> None).
  { induction l as [|x l IH]; intros b; cbn; [done|]. destruct (_ <? _); apply IH. }
  apply Hgen.
Qed.

(** Total lookup after an update. *)
Lemma insert_total {A} `{Inhabited A} (l : list A) i j x :
  (i < length l)%nat -> <[i := x]> l !!! j = if decide (j = i) then x else l !!! j.
Proof.
  intros Hi. case_decide as Hj; [subst; by apply list_lookup_total_insert_eq|].
  by apply list_lookup_total_insert_ne.
Qed.

Section search_correct.
Context (w : nat) (permitted : nat -> bool) (edge : nat -> nat -> maybe (option LinkCost)) (bytes : Z).
Context (cost : nat -> nat -> option Z).
Hypothesis Hedge : forall i j, (i < w)%nat -> (j < w)%nat -> exists l, edge i j = Ok l /\
  match l with
  | Some c => link_transfer_time_ns (E:=unit) c bytes = Ok (default 0 (cost i j)) /\ is_Some (cost i j)
  | None => cost i j = None
  end.
Hypothesis Hcost : forall i j k, cost i j = Some k -> 0 <= k.

Definition node (v : nat) : Prop := (v < w)%nat /\ permitted v = true.
Abbreviation walks := (walk cost node).
Abbreviation unvisited visited :=
  (filter (fun rank => permitted rank && negb (visited !!! rank) = true) (seq 0 w)).

Implicit Types (visited : list bool) (distances : list Z).

Lemma walk_nonneg s v c : walks s v c -> 0 <= c.
Proof using Hcost. induction 1 as [|u v c k _ IH _ Hk]; [lia|]. apply Hcost in Hk. lia. Qed.

Lemma walk_node s v c : node s -> walks s v c -> node v.
Proof using Type. intros Hs. by destruct 1. Qed.

Lemma elem_of_unvisited visited v :
  v ∈ unvisited visited <-> node v /\ visited !!! v = false.
Proof using Type.
  rewrite list_elem_of_filter, elem_of_seq, andb_true_iff, negb_true_iff. unfold node. naive_solver lia.
Qed.

(** The state of the loop: a visited rank has its least cost, any other rank
    the cost of some walk or [u64::MAX], and no walk leaves the visited ranks
    below the distances. *)
Record settled (s : nat) (visited : list bool) (distances : list Z) : Prop := {
  settled_visited : length visited = w;
  settled_distances : length distances = w;
  settled_source : distances !!! s = 0;
  settled_walk v : (v < w)%nat ->
    0 <= distances !!! v <= U64_MAX /\
    (distances !!! v = U64_MAX \/ walks s v (distances !!! v));
  settled_final u c : (u < w)%nat -> visited !!! u = true -> walks s u c -> distances !!! u <= c;
  settled_leave u v k : (u < w)%nat -> visited !!! u = true -> node v -> visited !!! v = false ->
    cost u v = Some k -> distances !!! v <= distances !!! u + k;
}.

(** Every walk to an unvisited rank passes an unvisited rank whose distance is
    at most its cost. *)
Lemma frontier s visited distances v c :
  node s -> settled s visited distances -> walks s v c -> visited !!! v = false ->
  exists y, node y /\ visited !!! y = false /\ distances !!! y <= c.
Proof using Hcost.
  intros Hs Hst Hw. induction Hw as [|u v c k Hw IH Hv Hk]; intros Hvis.
  - exists s. split; [done|]. split; [done|]. rewrite (settled_source _ _ _ Hst). lia.
  - pose proof (Hcost _ _ _ Hk). destruct (visited !!! u) eqn:Hu.
    + exists v. split; [done|]. split; [done|].
      assert (Hub : (u < w)%nat) by apply (walk_node _ _ _ Hs Hw).
      pose proof (settled_final _ _ _ Hst _ _ Hub Hu Hw).
      pose proof (settled_leave _ _ _ Hst _ _ _ Hub Hu Hv Hvis Hk). lia.
    + destruct (IH eq_refl) as (y & ? & ? & ?). exists y. split_and!; [done|done|lia].
Qed.

(** Relaxing the links of [current]. *)
Definition relaxed (current : nat) (visited : list bool) (distances : list Z) (v : nat) : Z :=
  if permitted v && negb (visited !!! v) then
    match cost current v with
    | Some k => Z.min (distances !!! v) (saturating_add 64 (distances !!! current) k)
    | None => distances !!! v
    end
  else distances !!! v.

Lemma relax_step current visited distances next :
  (current < w)%nat -> (next < w)%nat -> length distances = w ->
  exists d, relax permitted edge bytes current visited distances next = Ok d /\ length d = w /\
    forall v, d !!! v = if decide (v = next) then relaxed current visited distances v else distances !!! v.
Proof using Hedge.
  intros Hc Hn Hl. unfold relax, relaxed.
  destruct (permitted next) eqn:Hp, (visited !!! next) eqn:Hv; cbn [negb orb andb].
  all: try (exists distances; split; [done|]; split; [done|]; intros v; case_decide as Hd; [|done];
    subst; by rewrite Hp, Hv).
  destruct (Hedge current next Hc Hn) as (l & -> & Hl'). cbn [mbind outcome_bind].
  destruct l as [c|].
  - destruct Hl' as [Htime [k Hk]]. rewrite Htime, Hk. cbn [mbind outcome_bind default id]. eexists. split; [done|].
    split; [by rewrite length_insert|]. intros v. rewrite insert_total by lia.
    case_decide as Hd; [|done]. subst. by rewrite Hp, Hv, Hk.
  - exists distances. split; [done|]. split; [done|]. intros v. case_decide as Hd; [|done].
    subst. by rewrite Hp, Hv, Hl'.
Qed.

Lemma relax_all current visited distances :
  (current < w)%nat -> visited !!! current = true -> length distances = w ->
  exists d, foldM (relax permitted edge bytes current visited) distances (seq 0 w) = Ok d /\ length d = w /\
    forall v, (v < w)%nat -> d !!! v = relaxed current visited distances v.
Proof using Hedge.
  intros Hc Hv Hl.
  assert (Hgen : forall n, (n <= w)%nat -> exists d,
    foldM (relax permitted edge bytes current visited) distances (seq 0 n) = Ok d /\ length d = w /\
    forall v, d !!! v = if decide (v < n)%nat then relaxed current visited distances v else distances !!! v).
  { induction n as [|n IH]; intros Hn; [by exists distances|].
    destruct (IH ltac:(lia)) as (d & Hd & Hlen & Heq). rewrite seq_S, foldM_app, Hd.
    cbn [mbind outcome_bind foldM Nat.add].
    destruct (relax_step current visited d n Hc ltac:(lia) Hlen) as (d' & -> & Hlen' & Heq').
    exists d'. split; [done|]. split; [done|]. intros v. rewrite Heq'.
    assert (Hcur : d !!! current = distances !!! current).
    { rewrite Heq. case_decide; [|done]. unfold relaxed. by rewrite Hv, andb_false_r. }
    destruct (decide (v = n)) as [->|Hne].
    - rewrite (decide_True (P:=(n < S n)%nat)) by lia. unfold relaxed.
      rewrite Hcur, Heq. by rewrite decide_False by lia.
    - rewrite Heq. repeat case_decide; done || lia. }
  destruct (Hgen w ltac:(lia)) as (d & Hd & Hlen & Heq). exists d. split; [done|]. split; [done|].
  intros v Hlt. rewrite Heq. by rewrite decide_True by done.
Qed.

Lemma visit_step s visited distances current :
  node s -> settled s visited distances -> node current -> visited !!! current = false ->
  (forall y, node y -> visited !!! y = false -> distances !!! current <= distances !!! y) ->
  distances !!! current <> U64_MAX ->
  exists d, foldM (relax permitted edge bytes current (<[current := true]> visited)) distances (seq 0 w) = Ok d /\
    settled s (<[current := true]> visited) d.
Proof using Hcost Hedge.
  intros Hs Hst Hcur Hvis Hmin Hmax. destruct Hcur as [Hc Hpc].
  pose proof (settled_visited _ _ _ Hst) as Hlv. pose proof (settled_distances _ _ _ Hst) as Hld.
  set (visited' := <[current := true]> visited).
  assert (Hvis' : forall v, visited' !!! v = if decide (v = current) then true else visited !!! v)
    by (intros v; unfold visited'; apply insert_total; lia).
  destruct (relax_all current visited' distances Hc ltac:(rewrite Hvis'; by rewrite decide_True by done) Hld)
    as (d & Hd & Hl & Heq).
  exists d. split; [done|].
  destruct (settled_walk _ _ _ Hst current Hc) as [Hrange [?|Hwalk]]; [done|].
  assert (Hfinal : forall c, walks s current c -> distances !!! current <= c).
  { intros c Hw. destruct (frontier _ _ _ _ _ Hs Hst Hw Hvis) as (y & Hy & Hyv & Hle).
    specialize (Hmin y Hy Hyv). lia. }
  assert (Hsame : forall v, (v < w)%nat -> visited' !!! v = true -> d !!! v = distances !!! v).
  { intros v Hv Ht. rewrite Heq by done. unfold relaxed. by rewrite Ht, andb_false_r. }
  assert (Hle : forall v, (v < w)%nat -> d !!! v <= distances !!! v).
  { intros v Hv. rewrite Heq by done. unfold relaxed. destruct (_ && _); [|lia].
    destruct (cost current v); lia. }
  split; [unfold visited'; by rewrite length_insert|done| | | |].
  - destruct Hs as [Hs _]. rewrite Heq by done. unfold relaxed. rewrite (settled_source _ _ _ Hst).
    destruct (_ && _); [|done]. destruct (cost current s) as [k|]; [|done].
    pose proof (saturate_range 64 (distances !!! current + k) ltac:(lia)) as [? _].
    unfold saturating_add. lia.
  - intros v Hv. destruct (settled_walk _ _ _ Hst v Hv) as [Hr Hwv]. rewrite Heq by done. unfold relaxed.
    destruct (permitted v && negb (visited' !!! v)) eqn:Hpv; [|done].
    destruct (cost current v) as [k|] eqn:Hk; [|done]. pose proof (Hcost _ _ _ Hk).
    unfold saturating_add, saturate. unfold U64_MAX in *. split; [lia|].
    destruct (Z.min_spec (distances !!! v) (Z.max 0 (Z.min (distances !!! current + k) (2 ^ 64 - 1))))
      as [[Hlt ->]|[Hlt ->]]; [exact Hwv|].
    destruct (decide (distances !!! current + k < 2 ^ 64 - 1)); [right|left; lia].
    replace (Z.max _ _) with (distances !!! current + k) by lia.
    eapply walk_step; [exact Hwalk| |exact Hk]. split; [done|]. by apply andb_true_iff in Hpv as [? _].
  - intros u c Hub Hu Hw. rewrite Hsame by done.
    rewrite Hvis' in Hu. case_decide; [subst; by apply Hfinal|].
    by apply (settled_final _ _ _ Hst).
  - intros u v k Hub Hu Hv Hvv Hk. rewrite Hvis' in Hu, Hvv. case_decide as Hcv; [done|].
    pose proof (Hle v (proj1 Hv)) as Hlv'. pose proof (Hcost _ _ _ Hk).
    case_decide as Hcu.
    + subst u. rewrite (Hsame current) by (done || (rewrite Hvis'; by rewrite decide_True by done)).
      rewrite Heq by apply Hv. unfold relaxed. rewrite Hvis', decide_False, (proj2 Hv), Hvv, Hk by done.
      cbn [andb negb]. unfold saturating_add, saturate. lia.
    + pose proof (settled_leave _ _ _ Hst _ _ _ Hub Hu Hv Hvv Hk). rewrite (Hsame u); [lia|done|].
      rewrite Hvis'. by rewrite decide_False by done.
Qed.

(** What is left to visit after a step. *)
Lemma unvisited_step visited current :
  length visited = w -> current ∈ unvisited visited ->
  (length (unvisited (<[current := true]> visited)) < length (unvisited visited))%nat.
Proof using Type.
  intros Hl Hin. apply elem_of_unvisited in Hin as Hcur. destruct Hcur as [[Hc _] Hv].
  enough (current :: unvisited (<[current := true]> visited) ⊆+ unvisited visited) as Hsub.
  { apply submseteq_length in Hsub. cbn in Hsub. lia. }
  apply NoDup_submseteq.
  - constructor; [|apply NoDup_filter, NoDup_seq]. rewrite elem_of_unvisited, insert_total by lia.
    rewrite decide_True by done. by intros [_ ?].
  - intros x [->|Hx]%elem_of_cons; [done|]. apply elem_of_unvisited in Hx as [Hn Hx].
    rewrite insert_total in Hx by lia. case_decide; [done|]. by apply elem_of_unvisited.
Qed.

Theorem search_routes iterations s destination visited distances :
  node s -> node destination -> settled s visited distances -> visited !!! destination = false ->
  (length (unvisited visited) <= iterations)%nat ->
  routes cost node s destination
    (search w permitted edge bytes iterations destination visited distances).
Proof using Hcost Hedge.
  intros Hs Hdest. revert visited distances.
  induction iterations as [|iterations IH]; intros visited distances Hst Hvis Hit.
  { exfalso. assert (Hin : destination ∈ unvisited visited) by by apply elem_of_unvisited.
    destruct (unvisited visited); [by apply not_elem_of_nil in Hin|cbn in Hit; lia]. }
  cbn [search].
  destruct (min_by_key _ _) as [current|] eqn:Hmin; cbn [ok_or mbind outcome_bind].
  2:{ exfalso. apply min_by_key_None in Hmin.
      assert (Hin : destination ∈ unvisited visited) by by apply elem_of_unvisited.
      rewrite Hmin in Hin. by apply not_elem_of_nil in Hin. }
  apply min_by_key_Some in Hmin as [Hin Hle]. apply elem_of_unvisited in Hin as Hcur.
  destruct Hcur as [Hcur Hcv].
  assert (Hmin : forall y, node y -> visited !!! y = false -> distances !!! current <= distances !!! y).
  { intros y Hy Hyv. apply Hle. by apply elem_of_unvisited. }
  pose proof (settled_walk _ _ _ Hst _ (proj1 Hdest)) as [Hdr _].
  destruct (Z.eqb_spec (distances !!! current) U64_MAX) as [Hmax|Hmax].
  { unfold reached, index. pose proof (Hmin _ Hdest Hvis) as Hm.
    rewrite (list_lookup_lookup_total_lt _ _ ltac:(rewrite (settled_distances _ _ _ Hst); apply Hdest)).
    cbn [expect mbind outcome_bind].
    rewrite (proj2 (Z.eqb_eq _ _)) by lia. intros c Hw.
    destruct (frontier _ _ _ _ _ Hs Hst Hw Hvis) as (y & Hy & Hyv & Hyc).
    specialize (Hmin y Hy Hyv). lia. }
  destruct (Nat.eqb_spec current destination) as [->|Hne].
  { destruct (settled_walk _ _ _ Hst _ (proj1 Hcur)) as [Hr [?|Hw]]; [done|]. split; [|lia].
    split; [done|]. intros c Hw'. destruct (frontier _ _ _ _ _ Hs Hst Hw' Hvis) as (y & Hy & Hyv & Hyc).
    specialize (Hmin y Hy Hyv). lia. }
  destruct (visit_step _ _ _ _ Hs Hst Hcur Hcv Hmin Hmax) as (d & -> & Hst'). cbn [mbind outcome_bind].
  apply IH; [done| |].
  - rewrite insert_total by (rewrite (settled_visited _ _ _ Hst); apply Hcur). by rewrite decide_False by done.
  - pose proof (unvisited_step visited current (settled_visited _ _ _ Hst) Hin). lia.
Qed.

Lemma initial_settled s :
  node s -> settled s (replicate w false) (<[s := 0]> (replicate w U64_MAX)).
Proof using Type.
  intros [Hs _].
  assert (Hd : forall v, (v < w)%nat -> <[s := 0]> (replicate w U64_MAX) !!! v = if decide (v = s) then 0 else U64_MAX).
  { intros v Hv. rewrite insert_total by (by rewrite length_replicate). case_decide; [done|].
    by apply lookup_total_replicate_2. }
  assert (Hf : forall u, (u < w)%nat -> replicate w false !!! u = false)
    by (intros u; apply lookup_total_replicate_2).
  split.
  - apply length_replicate.
  - by rewrite length_insert, length_replicate.
  - rewrite Hd by done. by rewrite decide_True by done.
  - intros v Hv. rewrite Hd by done. unfold U64_MAX. case_decide as Hvs; (split; [lia|]); [|by left].
    subst. right. constructor.
  - intros u c Hub Hu. by rewrite Hf in Hu.
  - intros u v k Hub Hu. by rewrite Hf in Hu.
Qed.

Lemma search_from_routes iterations s destination :
  node s -> node destination ->
  (length (filter (fun rank => permitted rank = true) (seq 0 w)) <= iterations)%nat ->
  routes cost node s destination (search_from w permitted edge bytes iterations s destination).
Proof using Hcost Hedge.
  intros Hs Hd Hit. unfold search_from. rewrite (proj2 (Nat.leb_gt _ _)) by apply Hs.
  apply search_routes; [done|done|by apply initial_settled| |].
  - apply lookup_total_replicate_2, Hd.
  - etransitivity; [|exact Hit]. apply submseteq_length, NoDup_submseteq; [apply NoDup_filter, NoDup_seq|].
    intros x. rewrite !list_elem_of_filter, andb_true_iff. naive_solver.
Qed.
End search_correct.

(** ** The three searches *)

(** The link a transfer uses: the rail's own, else the common one. *)
Definition route_link (t : CollectiveTopology) (rail : option nat) (i j : nat) : option LinkCost :=
  match rail ≫= fun rail => rail_links t !! rail ≫= fun m => entry m i j with
  | Some c => Some c
  | None => entry (links t) i j
  end.

Definition route_cost (t : CollectiveTopology) (rail : option nat) (bytes : Z) (i j : nat) : option Z :=
  option_map (fun c => cost_ns c bytes) (route_link t rail i j).

Section routes.
Context (t : CollectiveTopology) (Hok : topology_ok t).

Lemma link_ok {E} i j :
  (i < world_size t)%nat -> (j < world_size t)%nat -> link (E:=E) t i j = Ok (entry (links t) i j).
Proof using Hok. intros. unfold link. destruct (topology_matrix _ Hok). by eapply cell_ok. Qed.

Lemma link_on_rail_ok {E} i j rail :
  (i < world_size t)%nat -> (j < world_size t)%nat ->
  link_on_rail (E:=E) t i j rail = Ok (route_link t (Some rail) i j).
Proof using Hok.
  intros Hi Hj. unfold link_on_rail, route_link. cbn [mbind option_bind].
  destruct (rail_links t !! rail) as [m|] eqn:Hm; cbn [mbind outcome_bind option_bind].
  - pose proof (proj1 (Forall_lookup _ _) (topology_rails _ Hok) _ _ Hm) as [Hl Hr _ _ _].
    rewrite (cell_ok (world_size t)) by done. cbn [mbind outcome_bind].
    destruct (entry m i j); [done|]. by apply link_ok.
  - by apply link_ok.
Qed.

Lemma route_link_ok rail i j c : route_link t rail i j = Some c -> cost_ok c.
Proof using Hok.
  unfold route_link. destruct rail as [r|]; cbn [mbind option_bind].
  - destruct (rail_links t !! r) as [m|] eqn:Hm; cbn [mbind option_bind].
    + pose proof (proj1 (Forall_lookup _ _) (topology_rails _ Hok) _ _ Hm) as Hmok.
      destruct (entry m i j) eqn:He; [intros [= <-]; by eapply matrix_values|].
      by apply (matrix_values _ _ _ (topology_matrix _ Hok)).
    + apply (matrix_values _ _ _ (topology_matrix _ Hok)).
  - apply (matrix_values _ _ _ (topology_matrix _ Hok)).
Qed.

Lemma route_cost_nonneg rail bytes i j k : 0 <= bytes -> route_cost t rail bytes i j = Some k -> 0 <= k.
Proof using Hok.
  intros Hb. unfold route_cost. destruct (route_link t rail i j) as [c|] eqn:Hc; [|done]. cbn. intros [= <-].
  by apply cost_ns_range; [eapply route_link_ok|].
Qed.

Lemma edge_ok bytes (edge : nat -> nat -> maybe (option LinkCost)) rail :
  0 <= bytes < 2 ^ 64 ->
  (forall i j, (i < world_size t)%nat -> (j < world_size t)%nat -> edge i j = Ok (route_link t rail i j)) ->
  forall i j, (i < world_size t)%nat -> (j < world_size t)%nat -> exists l, edge i j = Ok l /\
    match l with
    | Some c => link_transfer_time_ns (E:=unit) c bytes = Ok (default 0 (route_cost t rail bytes i j)) /\
        is_Some (route_cost t rail bytes i j)
    | None => route_cost t rail bytes i j = None
    end.
Proof using Hok.
  intros Hb He i j Hi Hj. exists (route_link t rail i j). split; [by apply He|]. unfold route_cost.
  destruct (route_link t rail i j) as [c|] eqn:Hc; [|done]. cbn. split; [|done].
  apply link_transfer_time_ns_ok; [by eapply route_link_ok|done].
Qed.

Lemma shortest_routes rail source destination bytes :
  (source < world_size t)%nat -> (destination < world_size t)%nat -> 0 <= bytes < 2 ^ 64 ->
  routes (route_cost t rail bytes) (fun v => (v < world_size t)%nat) source destination
    (shortest_transfer_time_ns_for_rail t source destination bytes rail).
Proof using Hok.
  intros Hs Hd Hb. unfold shortest_transfer_time_ns_for_rail.
  assert (Hiff : forall s d c, walk (route_cost t rail bytes) (fun v => (v < world_size t)%nat) s d c <->
    walk (route_cost t rail bytes) (node (world_size t) (fun _ => true)) s d c).
  { intros s d c. split; (induction 1 as [|u v c' k _ IH Hn Hk]; [constructor|econstructor; [exact IH| |exact Hk]]);
      unfold node in *; tauto. }
  destruct (Nat.eqb_spec source destination) as [->|Hne].
  { split; [|unfold U64_MAX; lia]. split; [constructor|]. intros c Hw%Hiff.
    eapply walk_nonneg; [|exact Hw]. intros i j k. apply route_cost_nonneg, Hb. }
  pose proof (search_from_routes (world_size t) (fun _ => true) _ bytes (route_cost t rail bytes)
    (edge_ok bytes (fun current next => match rail with Some rail => link_on_rail t current next rail
       | None => link t current next end) rail Hb
       ltac:(intros i j Hi Hj; destruct rail; [by apply link_on_rail_ok|by apply link_ok]))
    (fun i j k => route_cost_nonneg rail bytes i j k (proj1 Hb))
    (world_size t) source destination ltac:(by split) ltac:(by split)) as Hr.
  specialize (Hr ltac:(rewrite <- (length_seq (world_size t) 0) at 2; apply length_filter)).
  unfold routes, cheapest in *. destruct (search_from _ _ _ _ _ _ _); try done.
  - destruct Hr as [[Hw Hmin] Hlt]. split; [|done]. split; [by apply Hiff|]. intros c' Hw'. by apply Hmin, Hiff.
  - intros c Hw. by apply Hr, Hiff.
Qed.
End routes.

(** ** Within a group *)
Lemma permit_all {E} permitted allowed :
  Forall (fun rank => (rank < length permitted)%nat) allowed ->
  exists p, foldM (E:=E) permit permitted allowed = Ok p /\ length p = length permitted /\
    forall r, (r < length permitted)%nat -> p !!! r = permitted !!! r || bool_decide (r ∈ allowed).
Proof.
  intros Ha. remember (length permitted) as n eqn:Hn. revert permitted Hn.
  induction Ha as [|a allowed Hlt _ IH]; intros permitted Hn; cbn [foldM].
  { exists permitted. split; [done|]. split; [done|]. intros r _. by rewrite orb_false_r. }
  assert (Hstep : permit (E:=E) permitted a = Ok (<[a := true]> permitted))
    by (unfold permit; by rewrite (proj2 (Nat.ltb_lt _ _)) by lia).
  rewrite Hstep. cbn [mbind outcome_bind].
  destruct (IH (<[a := true]> permitted)) as (p & Hp & Hl & Heq); [by rewrite length_insert|].
  exists p. split; [done|]. split; [done|]. intros r Hr. rewrite Heq, insert_total by lia.
  case_decide as Hra; [subst; by rewrite (bool_decide_true (a ∈ a :: allowed)) by left; rewrite orb_true_r|].
  f_equal. apply bool_decide_ext. rewrite elem_of_cons. naive_solver.
Qed.

Section within.
Context (t : CollectiveTopology) (Hok : topology_ok t).

Lemma within_routes source destination bytes allowed :
  Forall (fun rank => (rank < world_size t)%nat) allowed ->
  source ∈ allowed -> destination ∈ allowed -> 0 <= bytes < 2 ^ 64 ->
  routes (route_cost t None bytes) (fun v => v ∈ allowed) source destination
    (shortest_transfer_time_ns_within t source destination bytes allowed).
Proof using Hok.
  intros Ha Hs Hd Hb. unfold shortest_transfer_time_ns_within.
  assert (Hlt : forall v, v ∈ allowed -> (v < world_size t)%nat) by (by apply Forall_forall).
  destruct (permit_all (E:=unit) (replicate (world_size t) false) allowed) as (p & Hp & Hl & Heq).
  { by rewrite length_replicate. }
  rewrite length_replicate in Hl, Heq.
  assert (Hnode : forall v, node (world_size t) (fun rank => p !!! rank) v <-> v ∈ allowed).
  { intros v. unfold node. split.
    - intros [Hv Hpv]. rewrite Heq, lookup_total_replicate_2 in Hpv by done. by apply bool_decide_eq_true in Hpv.
    - intros Hv. split; [by apply Hlt|]. rewrite Heq, lookup_total_replicate_2 by by apply Hlt.
      by apply bool_decide_eq_true. }
  assert (Hiff : forall s d c, walk (route_cost t None bytes) (fun v => v ∈ allowed) s d c <->
    walk (route_cost t None bytes) (node (world_size t) (fun rank => p !!! rank)) s d c).
  { intros s d c. split; (induction 1 as [|u v c' k _ IH Hn Hk]; [constructor|econstructor; [exact IH| |exact Hk]]);
      by apply Hnode. }
  destruct (Nat.eqb_spec source destination) as [->|Hne].
  { split; [|unfold U64_MAX; lia]. split; [constructor|]. intros c Hw%Hiff.
    eapply walk_nonneg; [|exact Hw]. intros i j k. apply (route_cost_nonneg t Hok), Hb. }
  rewrite Hp. cbn [mbind outcome_bind].
  pose proof (search_from_routes (world_size t) (fun rank => p !!! rank) _ bytes (route_cost t None bytes)
    (edge_ok t Hok bytes (link t) None Hb (fun i j => link_ok t Hok i j))
    (fun i j k => route_cost_nonneg t Hok None bytes i j k (proj1 Hb))
    (length allowed) source destination (proj2 (Hnode _) Hs) (proj2 (Hnode _) Hd)) as Hr.
  assert (Hcount : (length (filter (fun rank => p !!! rank = true) (seq 0 (world_size t))) <= length allowed)%nat).
  { apply submseteq_length, NoDup_submseteq; [apply NoDup_filter, NoDup_seq|].
    intros x [Hx Hxs]%list_elem_of_filter. apply elem_of_seq in Hxs. apply Hnode. split; [lia|done]. }
  specialize (Hr Hcount). unfold routes, cheapest in *. destruct (search_from _ _ _ _ _ _ _); try done.
  - destruct Hr as [[Hw Hmin] Hlt']. split; [|done]. split; [by apply Hiff|]. intros c' Hw'. by apply Hmin, Hiff.
  - intros c Hw. by apply Hr, Hiff.
Qed.

(** C5: The planner's route search is the cheapest walk.  For any two ranks,
    on the common links or on a rail, the search ends within its bound of one
    iteration per rank, never panics, and returns exactly the least cost over
    all walks between them; it returns [None] exactly when no walk costs less
    than [u64::MAX], the saturation value of the distances. *)
Theorem shortest_transfer_time_cheapest rail source destination bytes :
  (source < world_size t)%nat -> (destination < world_size t)%nat -> 0 <= bytes < 2 ^ 64 ->
  no_panic (shortest_transfer_time_ns_for_rail t source destination bytes rail) /\
  forall c, shortest_transfer_time_ns_for_rail t source destination bytes rail = Ok c <->
    cheapest (route_cost t rail bytes) (fun v => (v < world_size t)%nat) source destination c /\ c < U64_MAX.
Proof using Hok.
  intros Hs Hd Hb. pose proof (shortest_routes t Hok rail source destination bytes Hs Hd Hb) as Hr.
  destruct (shortest_transfer_time_ns_for_rail _ _ _ _ _) as [c0|e|]; cbn in Hr |- *; [| |done]; (split; [done|]).
  - intros c. split; [by intros [= <-]|]. intros [[Hw Hmin] Hlt]. destruct Hr as [[Hw0 Hmin0] _].
    f_equal. specialize (Hmin _ Hw0). specialize (Hmin0 _ Hw). lia.
  - intros c. split; [done|]. intros [[Hw _] Hlt]. specialize (Hr _ Hw). lia.
Qed.
End within.

(** Through rank 1 of the line. *)
Lemma shortest_transfer_time_cheapest_witness :
  exists t c, line_of_three = Ok t /\ shortest_transfer_time_ns_for_rail t 0 2 4096 None = Ok c /\
    cheapest (route_cost t None 4096) (fun v => (v < world_size t)%nat) 0 2 c.
Proof.
  destruct line_of_three as [t|e|] eqn:H; [|vm_compute in H; discriminate H..].
  assert (Ht : world_size t = 3%nat) by (vm_compute in H; by injection H as <-).
  assert (Hr : exists c, shortest_transfer_time_ns_for_rail t 0 2 4096 None = Ok c)
    by (vm_compute in H; injection H as <-; eexists; vm_compute; reflexivity).
  destruct Hr as [c Hc]. exists t, c. split; [done|]. split; [done|].
  apply (shortest_transfer_time_cheapest t (line_ok t H) None 0 2 4096); [rewrite Ht; lia|rewrite Ht; lia|lia|exact Hc].
Defined.
