(* ===== verification/RingSearch.v ===== *)
(** * Ring orders: src/src/rank/topology.rs

    The planner looks for closed rings over the links: exhaustively up to nine
    ranks, greedily from every start above.  Among the candidates it selects
    rings that share few edges, the first one with the best score.  The search
    by backtracking pushes a rank, recurses and pops it again; here the call
    receives the extended order. *)
From stdpp Require Import sorting.
From S2P Require Import Prelude Comp Device Topology.

(** ** Lexicographic order

    Slices, tuples and derived orders all compare field by field. *)
Fixpoint lex {A} (cmp : A -> A -> comparison) (l k : list A) : comparison :=
  match l, k with
  | [], [] => Eq
  | [], _ :: _ => Lt
  | _ :: _, [] => Gt
  | x :: l', y :: k' => match cmp x y with Eq => lex cmp l' k' | c => c end
  end.

Definition lex_ltb (l k : list Z) : bool := match lex Z.compare l k with Lt => true | _ => false end.
Definition order_ltb (l k : list nat) : bool := match lex Nat.compare l k with Lt => true | _ => false end.
Definition order_leb (l k : list nat) : bool := match lex Nat.compare l k with Gt => false | _ => true end.
Definition order_le (l k : list nat) : Prop := order_leb l k = true.

#[export] Instance order_le_dec l k : Decision (order_le l k).
Proof. unfold order_le. apply _. Defined.

(** ** Scores *)
Record RingScore := mkScore { bottleneck : Z; total_bandwidth : Z; inverse_latency : Z }.

(** The derived order compares the fields in their order. *)
Definition score_key (s : RingScore) : list Z := [bottleneck s; total_bandwidth s; inverse_latency s].

Definition U128_MAX : Z := 2 ^ 128 - 1.
Definition U16_MAX : Z := 2 ^ 16 - 1.

(** The edges of a ring, [(order[i], order[(i + 1) % order.len()])]. *)
Definition ring_pairs (order : list nat) : list (nat * nat) :=
  map (fun i => (order !!! i, order !!! ((i + 1) mod length order)%nat)) (seq 0 (length order)).

Definition ring_score (t : CollectiveTopology) (order : list nat) : tresult RingScore :=
  _ ← validate_ring_order (world_size t) order;
  '(bottleneck, total_bandwidth, total_latency) ←
    foldM (fun '(bottleneck, total_bandwidth, total_latency) '(first, second) =>
        found ← link t first second;
        link ← ok_or found (InvalidRing "ring edge {first}-{second} is not connected");
        bandwidth ← arith 128 (total_bandwidth + bandwidth_mbps link);
        latency ← arith 128 (total_latency + latency_ns link);
        Ok (Z.min bottleneck (bandwidth_mbps link), bandwidth, latency))
      (U64_MAX, 0, 0) (ring_pairs order);
  inverse ← arith 128 (U128_MAX - total_latency);
  Ok (mkScore bottleneck total_bandwidth inverse).

(** ** Exhaustive search *)

(** The ring in the other direction from the same start. *)
Definition reversed (order : list nat) : list nat := 0%nat :: rev (tail order).

Fixpoint collect_rings (fuel : nat) (t : CollectiveTopology) (order : list nat) (used : list bool)
    (candidates : list (list nat)) : tresult (list (list nat)) :=
  if (length order =? world_size t)%nat then
    last ← expect (last order);
    first ← index order 0;
    closing ← link t last first;
    match closing with
    | None => Ok candidates
    | Some _ => Ok (if order_leb order (reversed order) then candidates ++ [order] else candidates)
    end
  else
    match fuel with
    | O => Panic
    | S fuel =>
        current ← expect (last order);
        foldM (fun candidates candidate =>
            seen ← index used candidate;
            if (seen : bool) then Ok candidates else
            next ← link t current candidate;
            match next with
            | None => Ok candidates
            | Some _ =>
                collect_rings fuel t (order ++ [candidate]) (<[candidate := true]> used) candidates
            end)
          candidates (seq 1 (world_size t - 1))
    end.

(** ** Greedy search *)

(** [iter.max_by_key(key)]: the last element with the greatest key. *)
Definition max_by_key {A} (key : A -> list Z) (l : list A) : option A :=
  foldl (fun best x =>
      match best with
      | Some b => if lex_ltb (key x) (key b) then Some b else Some x
      | None => Some x
      end) None l.

(** The unused rank with the best link from [current]. *)
Definition greedy_next (t : CollectiveTopology) (used : list bool) (current : nat) : tresult (option nat) :=
  found ← mapM (fun rank =>
      cost ← link t current rank;
      Ok (option_map (fun c => (rank, bandwidth_mbps c, latency_ns c)) cost))
    (filter (fun rank => used !!! rank = false) (seq 0 (world_size t)));
  Ok (option_map (fun p => p.1.1)
        (max_by_key (fun '(rank, bandwidth, latency) =>
             [bandwidth; U64_MAX - latency; U32_MAX - Z.of_nat rank]) (omap id found))).

(** [while order.len() < world_size]; [None] when the ring is stuck. *)
Fixpoint greedy_ring (fuel : nat) (t : CollectiveTopology) (order : list nat) (used : list bool) :
    tresult (option (list nat)) :=
  if (world_size t <=? length order)%nat then Ok (Some order)
  else
    match fuel with
    | O => Panic
    | S fuel =>
        current ← expect (last order);
        next ← greedy_next t used current;
        match next with
        | None => Ok None
        | Some next => greedy_ring fuel t (order ++ [next]) (<[next := true]> used)
        end
    end.

Definition rotate_ring_to_zero {E} (order : list nat) : outcome E (list nat) :=
  let order :=
    match list_find (fun rank => rank = 0%nat) order with
    | Some (position, _) => drop position order ++ take position order
    | None => order
    end in
  if (length order =? 0)%nat then Panic else
  Ok (if order_ltb (reversed order) order then reversed order else order).

(** ** Selection *)
Fixpoint dedup (l : list (list nat)) : list (list nat) :=
  match l with
  | x :: ((y :: _) as l') => if bool_decide (x = y) then dedup l' else x :: dedup l'
  | _ => l
  end.

(** How often the edges of a ring are used already: the greatest and the sum. *)
Definition ring_usage (edge_usage : list (list Z)) (order : list nat) : tresult (Z * Z) :=
  foldM (fun '(maximum, total) '(first, second) =>
      usage ← cell edge_usage first second;
      Ok (Z.max maximum usage, saturating_add 64 total usage)) (0, 0) (ring_pairs order).

Definition diversity_key (t : CollectiveTopology) (edge_usage : list (list Z)) (order : list nat) :
    tresult (list Z) :=
  '(maximum, total) ← ring_usage edge_usage order;
  most ← arith 16 (U16_MAX - maximum);
  sum ← arith 64 (U64_MAX - total);
  score ← ring_score t order;
  Ok (most :: sum :: score_key score).

(** The first candidate with the greatest key. *)
Definition best_candidate (t : CollectiveTopology) (edge_usage : list (list Z))
    (candidates : list (list nat)) : tresult nat :=
  '(best_index, _) ← foldM (fun '(best_index, best_key) '(index, order) =>
      key ← diversity_key t edge_usage order;
      Ok (match best_key with
          | None => (index, Some key)
          | Some current => if lex_ltb current key then (index, Some key) else (best_index, best_key)
          end)) (0%nat, None) (enumerate candidates);
  Ok best_index.

Definition count_edges (edge_usage : list (list Z)) (order : list nat) : tresult (list (list Z)) :=
  foldM (fun edge_usage '(first, second) =>
      forth ← cell edge_usage first second;
      edge_usage ← set_cell edge_usage first second (saturating_add 16 forth 1);
      back ← cell edge_usage second first;
      set_cell edge_usage second first (saturating_add 16 back 1)) edge_usage (ring_pairs order).

(** [while selected.len() < maximum && !candidates.is_empty()]. *)
Fixpoint select_rings (maximum : nat) (t : CollectiveTopology) (edge_usage : list (list Z))
    (candidates : list (list nat)) : tresult (list (list nat)) :=
  match maximum with
  | O => Ok []
  | S maximum =>
      match candidates with
      | [] => Ok []
      | _ =>
          best ← best_candidate t edge_usage candidates;
          order ← index candidates best;
          edge_usage ← count_edges edge_usage order;
          rest ← select_rings maximum t edge_usage (delete best candidates);
          Ok (order :: rest)
      end
  end.

Definition select_diverse_rings (t : CollectiveTopology) (candidates : list (list nat)) (maximum : nat) :
    tresult (list (list nat)) :=
  _ ← fail_if (length candidates =? 0)%nat (InvalidRing "topology does not contain a closed rank ring");
  let candidates := dedup (merge_sort order_le candidates) in
  select_rings maximum t (replicate (world_size t) (replicate (world_size t) 0)) candidates.

Definition greedy_candidates (t : CollectiveTopology) : tresult (list (list nat)) :=
  foldM (fun candidates start =>
      ring ← greedy_ring (world_size t) t [start] (<[start := true]> (replicate (world_size t) false));
      match ring with
      | None => Ok candidates
      | Some order =>
          last ← expect (last order);
          first ← index order 0;
          closing ← link t last first;
          match closing with
          | None => Ok candidates
          | Some _ =>
              order ← rotate_ring_to_zero order;
              Ok (if bool_decide (order ∈ candidates) then candidates else candidates ++ [order])
          end
      end) [] (seq 0 (world_size t)).

Definition best_ring_orders (t : CollectiveTopology) (maximum : nat) : tresult (list (list nat)) :=
  if (maximum =? 0)%nat then Ok []
  else if (world_size t =? 1)%nat then Ok [[0%nat]]
  else if (world_size t <=? EXACT_RING_SEARCH_MAX_RANKS)%nat then
    candidates ← collect_rings (world_size t) t [0%nat]
                   (<[0%nat := true]> (replicate (world_size t) false)) [];
    select_diverse_rings t candidates maximum
  else
    candidates ← greedy_candidates t;
    select_diverse_rings t candidates maximum.

Definition best_ring_order (t : CollectiveTopology) : tresult (list nat) :=
  orders ← best_ring_orders t 1; expect (head orders).

(** ** Rings that differ as sets of edges *)
Definition edge_leb (a b : nat * nat) : bool := order_leb [a.1; a.2] [b.1; b.2].
#[export] Instance edge_le_dec (a b : nat * nat) : Decision (edge_leb a b = true).
Proof. apply _. Defined.

Definition ring_edges (order : list nat) : list (nat * nat) :=
  merge_sort (fun a b => edge_leb a b = true)
    (map (fun '(first, second) => (first `min` second, first `max` second)%nat) (ring_pairs order)).

Definition ring_orders_with_primary {E} (t : CollectiveTopology) (primary : list nat) :
    outcome E (list (list nat)) :=
  match best_ring_orders t (Z.to_nat MAX_RING_CHANNELS) with
  | Ok candidates =>
      Ok (foldl (fun orders candidate =>
            let edges := ring_edges candidate in
            if negb (bool_decide (edges = ring_edges primary))
               && negb (existsb (fun order => bool_decide (ring_edges order = edges)) orders)
            then orders ++ [candidate] else orders) [primary] candidates)
  | Err _ => Ok [primary]
  | Panic => Panic
  end.

(** ** The lexicographic order *)
Section lex_lemmas.
Context {A : Type} (cmp : A -> A -> comparison).
Hypothesis cmp_flip : forall x y, cmp y x = CompOpp (cmp x y).
Hypothesis cmp_eq : forall x y, cmp x y = Eq -> x = y.
Hypothesis cmp_trans : forall x y z, cmp x y = Lt -> cmp y z = Lt -> cmp x z = Lt.

Lemma lex_flip l k : lex cmp k l = CompOpp (lex cmp l k).
Proof using cmp_flip.
  revert k. induction l as [|x l IH]; intros [|y k]; cbn; try done.
  rewrite (cmp_flip x y). destruct (cmp x y); cbn; auto.
Qed.

Lemma lex_refl_eq l : lex cmp l l = Eq.
Proof using cmp_flip.
  pose proof (lex_flip l l) as Hf. revert Hf. by destruct (lex cmp l l).
Qed.

Lemma lex_eq l k : lex cmp l k = Eq -> l = k.
Proof using cmp_eq.
  revert k. induction l as [|x l IH]; intros [|y k]; cbn; try done.
  destruct (cmp x y) eqn:Hc; try done. intros Hl. f_equal; auto.
Qed.

Lemma cmp_self x : cmp x x = Eq.
Proof using cmp_flip. pose proof (cmp_flip x x) as Hf. revert Hf. by destruct (cmp x x). Qed.

Lemma lex_trans l k m : lex cmp l k <> Gt -> lex cmp k m <> Gt -> lex cmp l m <> Gt.
Proof using cmp_eq cmp_flip cmp_trans.
  revert k m. induction l as [|x l IH]; intros [|y k] [|z m]; cbn; try done.
  destruct (cmp x y) eqn:Hxy; try done.
  - apply cmp_eq in Hxy as ->. destruct (cmp y z); try done. apply IH.
  - intros _. destruct (cmp y z) eqn:Hyz; try done.
    + apply cmp_eq in Hyz as ->. by rewrite Hxy.
    + by rewrite (cmp_trans _ _ _ Hxy Hyz).
Qed.
End lex_lemmas.

Lemma Zcompare_trans x y z : Z.compare x y = Lt -> Z.compare y z = Lt -> Z.compare x z = Lt.
Proof. rewrite !Z.compare_lt_iff. lia. Qed.

Lemma natcompare_trans x y z : Nat.compare x y = Lt -> Nat.compare y z = Lt -> Nat.compare x z = Lt.
Proof. rewrite !Nat.compare_lt_iff. lia. Qed.

(** Keys as sequences of integers. *)
Definition key_le (l k : list Z) : Prop := lex Z.compare l k <> Gt.

Section orders_lemmas.
Lemma key_le_refl l : key_le l l.
Proof. unfold key_le. rewrite lex_refl_eq; [done|]. intros. apply Z.compare_antisym. Qed.

Lemma key_le_trans l k m : key_le l k -> key_le k m -> key_le l m.
Proof. apply lex_trans; [intros; apply Z.compare_antisym|apply Z.compare_eq|apply Zcompare_trans]. Qed.

Lemma lex_ltb_false l k : lex_ltb l k = false -> key_le k l.
Proof.
  unfold lex_ltb, key_le. rewrite (lex_flip Z.compare) by (intros; apply Z.compare_antisym).
  by destruct (lex Z.compare k l).
Qed.

Lemma lex_ltb_true l k : lex_ltb l k = true -> key_le l k.
Proof. unfold lex_ltb, key_le. by destruct (lex Z.compare l k). Qed.

#[export] Instance order_le_total : Total order_le.
Proof.
  intros l k. unfold order_le, order_leb. rewrite (lex_flip Nat.compare) by (intros; apply Nat.compare_antisym).
  destruct (lex Nat.compare k l); cbn; auto.
Qed.

#[export] Instance order_le_trans : Transitive order_le.
Proof.
  intros l k m. unfold order_le, order_leb. intros Hlk Hkm.
  pose proof (lex_trans Nat.compare (fun x y => Nat.compare_antisym x y) Nat.compare_eq natcompare_trans l k m) as Ht.
  destruct (lex Nat.compare l m); [done|done|]. exfalso.
  by apply Ht; [destruct (lex _ l k)|destruct (lex _ k m)|].
Qed.

Lemma order_le_antisym l k : order_le l k -> order_le k l -> l = k.
Proof.
  unfold order_le, order_leb. rewrite (lex_flip Nat.compare (fun x y => Nat.compare_antisym x y) l k).
  destruct (lex Nat.compare l k) eqn:Hc; cbn; [|done|done]. intros _ _.
  by eapply lex_eq; [apply Nat.compare_eq|].
Qed.

(** After sorting, removing neighbours removes all duplicates. *)
Lemma elem_of_dedup l x : x ∈ dedup l <-> x ∈ l.
Proof.
  induction l as [|a l IH]; [done|]. cbn [dedup]. destruct l as [|b l]; [done|].
  case_bool_decide as Hab; [subst; rewrite IH, !elem_of_cons; naive_solver|].
  rewrite elem_of_cons, IH. by rewrite <- elem_of_cons.
Qed.

Lemma NoDup_dedup l : StronglySorted order_le l -> NoDup (dedup l).
Proof.
  induction 1 as [|a l Hs IH Ha]; [constructor|]. cbn [dedup]. destruct l as [|b l]; [apply NoDup_singleton|].
  case_bool_decide as Hab; [done|]. constructor; [|done]. rewrite elem_of_dedup. intros Hin.
  apply Hab, order_le_antisym.
  - by apply Forall_cons in Ha as [Hb _].
  - apply elem_of_cons in Hin as [->|Hin]; [done|].
    inversion_clear Hs as [|? ? ? Hb]. by apply (proj1 (Forall_forall _ _) Hb).
Qed.

Lemma sorted_candidates candidates :
  NoDup (dedup (merge_sort order_le candidates)) /\
  forall r, r ∈ dedup (merge_sort order_le candidates) <-> r ∈ candidates.
Proof.
  split; [apply NoDup_dedup, StronglySorted_merge_sort; apply _|].
  intros r. by rewrite elem_of_dedup, merge_sort_Permutation.
Qed.
End orders_lemmas.

(** ** Rings *)
Section rings.
Context (t : CollectiveTopology).

Definition linked (i j : nat) : Prop := is_Some (entry (links t) i j).

(** A closed ring: every rank once, neighbours connected. *)
Definition closed_ring (order : list nat) : Prop :=
  order ≡ₚ seq 0 (world_size t) /\ Forall (fun p => linked p.1 p.2) (ring_pairs order).

(** The links from [a] along [rest]. *)
Fixpoint chain (a : nat) (rest : list nat) : Prop :=
  match rest with
  | [] => True
  | b :: rest => linked a b /\ chain b rest
  end.

Lemma ring_pairs_cons x l : ring_pairs (x :: l) = zip (x :: l) (l ++ [x]).
Proof using Type.
  unfold ring_pairs. apply list_eq. intros i. rewrite list_lookup_fmap.
  destruct (decide (i < length (x :: l))%nat) as [Hi|Hi].
  - rewrite lookup_seq_lt by done. cbn [fmap option_fmap option_map Nat.add].
    symmetry. apply lookup_zip_with_Some. exists ((x :: l) !!! i), ((x :: l) !!! ((i + 1) mod length (x :: l))%nat).
    split; [done|]. split; [by apply list_lookup_lookup_total_lt|].
    cbn [length] in *. destruct (decide (i = length l)) as [->|Hne].
    + rewrite lookup_app_r by lia. rewrite Nat.sub_diag. rewrite Nat.add_1_r, Nat.Div0.mod_same. done.
    + rewrite lookup_app_l by lia. rewrite Nat.mod_small by lia. rewrite Nat.add_1_r. cbn.
      apply list_lookup_lookup_total_lt. lia.
  - rewrite lookup_seq_ge by lia. symmetry. apply lookup_ge_None.
    rewrite length_zip_with, length_app. cbn [length] in *. lia.
Qed.

Lemma zip_chain a l z :
  Forall (fun p => linked p.1 p.2) (zip (a :: l) (l ++ [z])) <-> chain a l /\ linked (default a (last l)) z.
Proof using Type.
  revert a. induction l as [|b l IH]; intros a; cbn [app zip zip_with chain].
  - rewrite Forall_singleton. cbn. naive_solver.
  - rewrite Forall_cons. cbn [fst snd]. fold (zip (b :: l) (l ++ [z])). rewrite (IH b).
    rewrite last_cons. destruct (last l); cbn; naive_solver.
Qed.

Lemma closed_ring_cons x l :
  closed_ring (x :: l) <->
    x :: l ≡ₚ seq 0 (world_size t) /\ chain x l /\ linked (default x (last l)) x.
Proof using Type. unfold closed_ring. rewrite ring_pairs_cons, zip_chain. naive_solver. Qed.

Lemma chain_app a l b rest :
  chain a (l ++ b :: rest) <-> chain a l /\ linked (default a (last l)) b /\ chain b rest.
Proof using Type.
  revert a. induction l as [|c l IH]; intros a; cbn [app chain]; [naive_solver|].
  rewrite IH, last_cons. destruct (last l); cbn; naive_solver.
Qed.
End rings.

(** ** The exhaustive search finds every ring *)
Lemma foldM_collect {A} (f : list (list nat) -> A -> tresult (list (list nat))) (Q : A -> list nat -> Prop) l cs :
  (forall x cs, x ∈ l -> exists rs, f cs x = Ok (cs ++ rs) /\ forall r, r ∈ rs <-> Q x r) ->
  exists rs, foldM f cs l = Ok (cs ++ rs) /\ forall r, r ∈ rs <-> exists x, x ∈ l /\ Q x r.
Proof.
  revert cs. induction l as [|x l IH]; intros cs Hf; cbn [foldM].
  { exists []. rewrite app_nil_r. split; [done|]. intros r. set_solver. }
  destruct (Hf x cs ltac:(by left)) as (rs & -> & Hrs). cbn [mbind outcome_bind].
  destruct (IH (cs ++ rs)) as (rs' & -> & Hrs'); [intros; apply Hf; by right|].
  exists (rs ++ rs'). rewrite app_assoc. split; [done|]. intros r. rewrite elem_of_app, Hrs, Hrs'. set_solver.
Qed.

Lemma last_of_cons {A} (x : A) l : last (x :: l) = Some (default x (last l)).
Proof. rewrite last_cons. by destruct (last l). Qed.

Section exhaustive.
Context (t : CollectiveTopology) (Hok : topology_ok t).
Abbreviation w := (world_size t).

(** What completes the ring from a prefix. *)
Definition completes (tl rest : list nat) : Prop :=
  NoDup (0%nat :: tl ++ rest) /\ Forall (fun i => (i < w)%nat) rest /\ length (0%nat :: tl ++ rest) = w /\
  chain t (default 0%nat (last tl)) rest /\ linked t (default 0%nat (last (tl ++ rest))) 0%nat /\
  order_le (0%nat :: tl ++ rest) (reversed (0%nat :: tl ++ rest)).

(** [used] marks the ranks of the prefix. *)
Definition marks (used : list bool) (order : list nat) : Prop :=
  length used = w /\ forall i, (i < w)%nat -> used !! i = Some (bool_decide (i ∈ order)).

Lemma marks_push used order c :
  marks used order -> (c < w)%nat -> marks (<[c := true]> used) (order ++ [c]).
Proof using Type.
  intros [Hl Hm] Hc. split; [by rewrite length_insert|]. intros i Hi.
  destruct (decide (i = c)) as [->|Hne].
  - rewrite list_lookup_insert_eq by lia. rewrite bool_decide_true; [done|]. apply elem_of_app. right. by left.
  - rewrite list_lookup_insert_ne, Hm by done. do 2 f_equal. apply bool_decide_ext.
    rewrite elem_of_app, list_elem_of_singleton. tauto.
Qed.

Lemma last_default_lt tl : Forall (fun i => (i < w)%nat) tl -> (default 0%nat (last tl) < w)%nat.
Proof using Hok.
  intros Hall. destruct (last tl) as [x|] eqn:Hx; cbn; [|apply (topology_world _ Hok)].
  apply last_Some_elem_of in Hx. by apply (proj1 (Forall_forall _ _) Hall).
Qed.

Lemma collect_rings_spec n fuel tl used cs :
  (n <= fuel)%nat -> (S (length tl) + n = w)%nat -> Forall (fun i => (i < w)%nat) tl ->
  NoDup (0%nat :: tl) -> marks used (0%nat :: tl) ->
  exists rs, collect_rings fuel t (0%nat :: tl) used cs = Ok (cs ++ rs) /\
    forall r, r ∈ rs <-> exists rest, r = 0%nat :: tl ++ rest /\ completes tl rest.
Proof using Hok.
  destruct (topology_world _ Hok) as [Hw _].
  revert fuel tl used cs. induction n as [|n IH]; intros fuel tl used cs Hfuel Hlen Hall Hnd Hmarks.
  - assert (Hdone : length (0%nat :: tl) = w) by (cbn; lia).
    assert (Hcur : (default 0%nat (last tl) < w)%nat) by by apply last_default_lt.
    assert (Hbody : collect_rings fuel t (0%nat :: tl) used cs =
      match entry (links t) (default 0%nat (last tl)) 0 with
      | None => Ok cs
      | Some _ => Ok (if order_leb (0%nat :: tl) (reversed (0%nat :: tl)) then cs ++ [0%nat :: tl] else cs)
      end).
    { destruct fuel; cbn [collect_rings]; rewrite Hdone, Nat.eqb_refl, last_of_cons;
        cbn [expect mbind outcome_bind index lookup list_lookup]; unfold link;
        destruct (topology_matrix _ Hok); by rewrite (cell_ok w) by done. }
    rewrite Hbody.
    assert (Hrest : forall rest, completes tl rest -> rest = []).
    { intros rest (_ & _ & Hl & _). cbn in Hl. rewrite length_app in Hl. apply nil_length_inv. cbn in Hdone. lia. }
    destruct (entry (links t) (default 0%nat (last tl)) 0) as [c|] eqn:He.
    2:{ exists []. rewrite app_nil_r. split; [done|]. intros r. split; [by intros ?%not_elem_of_nil|].
        intros (rest & -> & Hc). pose proof (Hrest _ Hc) as ->. destruct Hc as (_ & _ & _ & _ & Hl & _).
        rewrite app_nil_r in Hl. unfold linked in Hl. rewrite He in Hl. by destruct Hl. }
    destruct (order_leb _ _) eqn:Hle.
    + exists [0%nat :: tl]. split; [done|]. intros r. rewrite list_elem_of_singleton. split.
      * intros ->. exists []. rewrite app_nil_r. split; [done|]. unfold completes. rewrite app_nil_r.
        split_and!; [done|constructor|done|done|unfold linked; by rewrite He|done].
      * intros (rest & -> & Hc). pose proof (Hrest _ Hc) as ->. by rewrite app_nil_r.
    + exists []. rewrite app_nil_r. split; [done|]. intros r. split; [by intros ?%not_elem_of_nil|].
      intros (rest & -> & Hc). pose proof (Hrest _ Hc) as ->. destruct Hc as (_ & _ & _ & _ & _ & Hl).
      rewrite app_nil_r in Hl. unfold order_le in Hl. congruence.
  - assert (Hmore : (length (0%nat :: tl) =? w)%nat = false) by (apply Nat.eqb_neq; cbn; lia).
    destruct fuel as [|fuel]; [lia|]. cbn [collect_rings]. rewrite Hmore, last_of_cons. cbn [expect mbind outcome_bind].
    set (cur := default 0%nat (last tl)).
    assert (Hcur : (cur < w)%nat) by by apply last_default_lt.
    destruct (foldM_collect (fun candidates candidate =>
            seen ← index used candidate;
            if (seen : bool) then Ok candidates else
            next ← link t cur candidate;
            match next with
            | None => Ok candidates
            | Some _ =>
                collect_rings fuel t ((0%nat :: tl) ++ [candidate]) (<[candidate := true]> used) candidates
            end)
      (fun c r => (c ∉ 0%nat :: tl) /\ linked t cur c /\
         exists rest, r = 0%nat :: (tl ++ [c]) ++ rest /\ completes (tl ++ [c]) rest)
      (seq 1 (w - 1)) cs) as (rs & -> & Hrs).
    { intros c cs' Hc%elem_of_seq. destruct Hmarks as [Hlu Hmu].
      unfold index. rewrite Hmu by lia. cbn [expect mbind outcome_bind].
      case_bool_decide as Hin.
      { exists []. rewrite app_nil_r. split; [done|]. intros r. split; [by intros ?%not_elem_of_nil|]. naive_solver. }
      unfold link. rewrite (cell_ok w) by (apply (topology_matrix _ Hok) || lia). cbn [mbind outcome_bind].
      destruct (entry (links t) cur c) as [k|] eqn:He.
      2:{ exists []. rewrite app_nil_r. split; [done|]. intros r. split; [by intros ?%not_elem_of_nil|].
          intros (_ & Hl & _). unfold linked in Hl. rewrite He in Hl. by destruct Hl. }
      destruct (IH fuel (tl ++ [c]) (<[c := true]> used) cs') as (rs & Hrs & Hin').
      - lia.
      - rewrite length_app. cbn. lia.
      - apply Forall_app. split; [done|]. constructor; [lia|constructor].
      - change (NoDup ((0%nat :: tl) ++ [c])). apply NoDup_app. split; [done|]. split; [|apply NoDup_singleton].
        intros x Hx ->%list_elem_of_singleton. done.
      - apply (marks_push used (0%nat :: tl) c); [done|lia].
      - exists rs. split; [exact Hrs|]. intros r. rewrite Hin'. unfold linked. rewrite He. naive_solver. }
    exists rs. split; [done|]. intros r. rewrite Hrs. split.
    + intros (c & Hc & Hni & Hlk & rest & -> & Hcomp). exists (c :: rest).
      rewrite <- app_assoc. cbn [app]. split; [done|]. unfold completes in *.
      rewrite <- app_assoc in Hcomp. cbn [app] in Hcomp. destruct Hcomp as (? & ? & ? & Hch & ? & ?).
      rewrite last_snoc in Hch. cbn [default id] in Hch.
      split_and!; try done. constructor; [|done]. apply elem_of_seq in Hc. lia.
    + intros (rest & -> & (Hnd' & Hall' & Hl & Hch & Hcl & Hle)).
      destruct rest as [|c rest]; [cbn in Hl; rewrite app_nil_r in Hl; lia|].
      cbn [chain] in Hch. destruct Hch as [Hlk Hch]. apply Forall_cons in Hall' as [Hc Hall'].
      assert (Hni : c ∉ 0%nat :: tl).
      { change (0%nat :: tl ++ c :: rest) with ((0%nat :: tl) ++ c :: rest) in Hnd'.
        apply NoDup_app in Hnd' as (_ & Hd & _). intros Hin. apply (Hd c Hin). by left. }
      exists c. split; [apply elem_of_seq; split; [|lia]|split; [done|split; [done|]]].
      * destruct c; [|lia]. exfalso. apply Hni. by left.
      * exists rest. rewrite <- app_assoc. cbn [app]. split; [done|]. unfold completes.
        rewrite <- app_assoc, last_snoc. cbn [app default id]. split_and!; done.
Qed.
End exhaustive.

(** ** Scores of rings *)
Section scores.
Context (t : CollectiveTopology) (Hok : topology_ok t).
Abbreviation w := (world_size t).

Definition edge_cost (p : nat * nat) : LinkCost := default (mkCost 0 0) (entry (links t) p.1 p.2).

Definition pure_score (pairs : list (nat * nat)) : RingScore :=
  mkScore (foldr Z.min U64_MAX (map (fun p => bandwidth_mbps (edge_cost p)) pairs))
    (sum_Z (map (fun p => bandwidth_mbps (edge_cost p)) pairs))
    (U128_MAX - sum_Z (map (fun p => latency_ns (edge_cost p)) pairs)).

Lemma linked_cost p : linked t p.1 p.2 -> entry (links t) p.1 p.2 = Some (edge_cost p) /\ cost_ok (edge_cost p) /\
  (p.1 < w)%nat /\ (p.2 < w)%nat.
Proof using Hok.
  intros [c Hc]. unfold edge_cost. rewrite Hc. destruct (topology_matrix _ Hok) as [Hl Hr Hs Hd Hv].
  split; [done|]. split; [by eapply Hv|]. by eapply entry_lt.
Qed.

Lemma min_foldl_foldr l d : foldl Z.min d l = foldr Z.min d l.
Proof using Type.
  revert d. induction l as [|x l IH]; intros d; cbn; [done|]. rewrite IH. clear IH.
  induction l as [|y l IH]; cbn; lia.
Qed.

Lemma score_sums pairs m tb tl :
  Forall (fun p => linked t p.1 p.2) pairs ->
  0 <= tb -> tb + Z.of_nat (length pairs) * 2 ^ 64 < 2 ^ 128 ->
  0 <= tl -> tl + Z.of_nat (length pairs) * 2 ^ 64 < 2 ^ 128 ->
  foldM (fun '(bottleneck, total_bandwidth, total_latency) '(first, second) =>
        found ← link t first second;
        link ← ok_or found (InvalidRing "ring edge {first}-{second} is not connected");
        bandwidth ← arith 128 (total_bandwidth + bandwidth_mbps link);
        latency ← arith 128 (total_latency + latency_ns link);
        Ok (Z.min bottleneck (bandwidth_mbps link), bandwidth, latency)) (m, tb, tl) pairs =
  Ok (foldl Z.min m (map (fun p => bandwidth_mbps (edge_cost p)) pairs),
      tb + sum_Z (map (fun p => bandwidth_mbps (edge_cost p)) pairs),
      tl + sum_Z (map (fun p => latency_ns (edge_cost p)) pairs)).
Proof using Hok.
  intros Hp. revert m tb tl. induction Hp as [|[i j] pairs Hl _ IH]; intros m tb tl Htb Hb Htl Hlb.
  { cbn [foldM map foldl]. unfold sum_Z; cbn. by rewrite !Z.add_0_r. }
  destruct (linked_cost _ Hl) as (He & [Hc1 Hc2] & Hi & Hj). cbn [fst snd] in He, Hi, Hj.
  cbn [foldM]. unfold link. destruct (topology_matrix _ Hok) as [Hml Hmr _ _ _].
  rewrite (cell_ok w) by done. rewrite He. cbn [mbind outcome_bind ok_or]. cbn [length] in Hb, Hlb.
  rewrite !arith_in by (unfold in_width; lia). cbn [mbind outcome_bind].
  rewrite IH by lia. cbn [map foldl]. unfold sum_Z; cbn [foldr]. by rewrite !Z.add_assoc.
Qed.

Lemma length_ring_pairs order : length (ring_pairs order) = length order.
Proof using Type. unfold ring_pairs. by rewrite length_map, length_seq. Qed.

Lemma ring_score_ok order :
  closed_ring t order -> ring_score t order = Ok (pure_score (ring_pairs order)).
Proof using Hok.
  intros [Hp Hl]. pose proof (topology_world _ Hok) as [Hw Hwb]. unfold ring_score.
  rewrite (proj2 (validate_ring_order_Ok _ _)) by done. cbn [mbind outcome_bind].
  pose proof (Permutation_seq_below _ _ Hp) as (_ & _ & Hlen).
  rewrite score_sums by (done || rewrite ?length_ring_pairs, ?Hlen; lia). cbn [mbind outcome_bind].
  rewrite min_foldl_foldr, !Z.add_0_l.
  assert (Hlat : 0 <= sum_Z (map (fun p => latency_ns (edge_cost p)) (ring_pairs order)) <=
    Z.of_nat (length (ring_pairs order)) * 2 ^ 64).
  { clear Hp Hlen. induction Hl as [|p pairs Hlp _ IH]; unfold sum_Z in *; cbn [map foldr length]; [lia|].
    destruct (linked_cost _ Hlp) as (_ & [_ Hc] & _). lia. }
  rewrite length_ring_pairs, Hlen in Hlat.
  rewrite arith_in by (unfold in_width, U128_MAX; lia). done.
Qed.

(** A score depends on the multiset of edges, up to their direction. *)
Lemma sum_Z_Permutation l k : l ≡ₚ k -> sum_Z l = sum_Z k.
Proof using Type. unfold sum_Z. induction 1; cbn; lia. Qed.

Lemma min_Permutation l k d : l ≡ₚ k -> foldr Z.min d l = foldr Z.min d k.
Proof using Type. induction 1; cbn; lia. Qed.

Lemma pure_score_Permutation pairs pairs' : pairs ≡ₚ pairs' -> pure_score pairs = pure_score pairs'.
Proof using Type.
  intros Hp. unfold pure_score. f_equal.
  - apply min_Permutation. by rewrite Hp.
  - apply sum_Z_Permutation. by rewrite Hp.
  - f_equal. apply sum_Z_Permutation. by rewrite Hp.
Qed.

Definition swap (p : nat * nat) : nat * nat := (p.2, p.1).

Lemma edge_cost_swap p : edge_cost (swap p) = edge_cost p.
Proof using Hok. unfold edge_cost, swap. cbn. by rewrite (matrix_symmetric _ _ _ (topology_matrix _ Hok)). Qed.

Lemma pure_score_swap pairs : pure_score (map swap pairs) = pure_score pairs.
Proof using Hok.
  unfold pure_score. rewrite !map_map. f_equal; [f_equal|f_equal|do 2 f_equal]; apply map_ext;
    intros p; by rewrite edge_cost_swap.
Qed.

Lemma linked_swap pairs :
  Forall (fun p => linked t p.1 p.2) (map swap pairs) <-> Forall (fun p => linked t p.1 p.2) pairs.
Proof using Hok.
  rewrite Forall_map. apply Forall_iff. intros [i j]. unfold linked, swap. cbn.
  by rewrite (matrix_symmetric _ _ _ (topology_matrix _ Hok)).
Qed.

(** The same ring from another start and in the other direction. *)
Lemma ring_pairs_rotate a b : ring_pairs (a ++ b) ≡ₚ ring_pairs (b ++ a).
Proof using Type.
  destruct a as [|x a]; [by rewrite app_nil_r|]. destruct b as [|y b]; [by rewrite app_nil_r|].
  assert (Hsplit : forall x y a b, ring_pairs ((x :: a) ++ (y :: b)) =
    zip (x :: a) (a ++ [y]) ++ zip (y :: b) (b ++ [x])).
  { clear. intros x y a b. cbn [app]. rewrite ring_pairs_cons.
    rewrite <- zip_with_app by (cbn; rewrite length_app; cbn; lia).
    by rewrite <- !app_assoc. }
  rewrite !Hsplit. apply Permutation_app_comm.
Qed.

Lemma ring_pairs_reversed l :
  ring_pairs (reversed (0%nat :: l)) ≡ₚ map swap (ring_pairs (0%nat :: l)).
Proof using Type.
  unfold reversed. cbn [tail]. rewrite !ring_pairs_cons.
  assert (Hswap : forall (a b : list nat), map swap (zip a b) = zip b a).
  { clear. induction a as [|x a IH]; intros [|y b]; cbn; [done|done|done|]. f_equal. apply IH. }
  rewrite Hswap.
  assert (Hrev : zip (0%nat :: rev l) (rev l ++ [0%nat]) = rev (zip (l ++ [0%nat]) (0%nat :: l))).
  { rewrite <- (rev_involutive (zip _ _)). f_equal.
    assert (Hz : forall a b : list nat, length a = length b -> rev (zip a b) = zip (rev a) (rev b)).
    { clear. induction a as [|x a IH]; intros [|y b] Hl; try done. cbn in Hl |- *.
      fold (zip a b). rewrite IH by lia. rewrite zip_with_app by (rewrite !length_rev; lia). done. }
    rewrite Hz by (cbn; rewrite length_app; cbn; lia). f_equal.
    - cbn [rev]. by rewrite rev_involutive.
    - rewrite rev_app_distr. cbn. by rewrite rev_involutive. }
  rewrite Hrev. symmetry. apply Permutation_rev.
Qed.

(** Every ring has a canonical form with the same score. *)
Lemma canonical_ring order :
  closed_ring t order ->
  exists l, closed_ring t (0%nat :: l) /\ order_le (0%nat :: l) (reversed (0%nat :: l)) /\
    pure_score (ring_pairs (0%nat :: l)) = pure_score (ring_pairs order).
Proof using Hok.
  intros [Hp Hl]. pose proof (topology_world _ Hok) as [Hw _].
  assert (H0 : 0%nat ∈ order) by (rewrite Hp; apply elem_of_seq; lia).
  apply list_elem_of_split in H0 as (a & b & ->).
  assert (Hring : closed_ring t (0%nat :: b ++ a)).
  { split.
    - rewrite <- Hp. change (0%nat :: b ++ a) with ((0%nat :: b) ++ a). apply Permutation_app_comm.
    - change (0%nat :: b ++ a) with ((0%nat :: b) ++ a). by rewrite ring_pairs_rotate. }
  assert (Hscore : pure_score (ring_pairs (0%nat :: b ++ a)) = pure_score (ring_pairs (a ++ 0%nat :: b))).
  { change (0%nat :: b ++ a) with ((0%nat :: b) ++ a). apply pure_score_Permutation, ring_pairs_rotate. }
  rewrite <- Hscore. clear Hscore Hp Hl. set (l := b ++ a) in *.
  destruct (order_le_total (0%nat :: l) (reversed (0%nat :: l))) as [Hle|Hle]; [by exists l|].
  exists (rev l). destruct Hring as [Hp Hl]. split; [split|split].
  - rewrite <- Hp. constructor. symmetry. apply Permutation_rev.
  - change (0%nat :: rev l) with (reversed (0%nat :: l)). by rewrite ring_pairs_reversed, linked_swap.
  - unfold reversed. cbn [tail]. by rewrite rev_involutive.
  - change (0%nat :: rev l) with (reversed (0%nat :: l)).
    rewrite (pure_score_Permutation _ _ (ring_pairs_reversed l)). apply pure_score_swap.
Qed.
End scores.

(** ** The selection *)

(** A square matrix of numbers. *)
Definition grid (P : Z -> Prop) (w : nat) (m : list (list Z)) : Prop :=
  length m = w /\ Forall (fun row => length row = w /\ Forall P row) m.

Lemma cell_grid {E} P w m i j :
  grid P w m -> (i < w)%nat -> (j < w)%nat -> exists v, cell (E:=E) m i j = Ok v /\ P v.
Proof.
  intros [Hl Hr] Hi Hj. unfold cell, index.
  destruct (lookup_lt_is_Some_2 m i ltac:(lia)) as [row Hrow]. rewrite Hrow. cbn [expect mbind outcome_bind].
  destruct (proj1 (Forall_lookup _ _) Hr _ _ Hrow) as [Hlen HP].
  destruct (lookup_lt_is_Some_2 row j ltac:(lia)) as [v Hv]. rewrite Hv. exists v. split; [done|].
  by apply (proj1 (Forall_lookup _ _) HP _ _ Hv).
Qed.

Lemma set_cell_grid {E} (P : Z -> Prop) w m i j v :
  grid P w m -> (i < w)%nat -> (j < w)%nat -> P v ->
  exists m', set_cell (E:=E) m i j v = Ok m' /\ grid P w m'.
Proof.
  intros [Hl Hr] Hi Hj HP. unfold set_cell, index.
  destruct (lookup_lt_is_Some_2 m i ltac:(lia)) as [row Hrow]. rewrite Hrow. cbn [expect mbind outcome_bind].
  destruct (proj1 (Forall_lookup _ _) Hr _ _ Hrow) as [Hlen HPr].
  rewrite (proj2 (Nat.ltb_lt _ _)) by lia. eexists. split; [done|]. split; [by rewrite length_insert|].
  apply Forall_insert; [done|]. split; [by rewrite length_insert|]. by apply Forall_insert.
Qed.

Section selection.
Context (t : CollectiveTopology) (Hok : topology_ok t).
Abbreviation w := (world_size t).
Abbreviation counts := (grid (fun v => 0 <= v <= U16_MAX) w).

Lemma pairs_in_range order : closed_ring t order -> Forall (fun p => (p.1 < w)%nat /\ (p.2 < w)%nat) (ring_pairs order).
Proof using Hok.
  intros [_ Hl]. eapply Forall_impl; [exact Hl|]. intros p Hp. by destruct (linked_cost t Hok p Hp) as (_ & _ & ? & ?).
Qed.

Lemma ring_usage_ok P u order :
  grid P w u -> (forall v, P v -> 0 <= v <= U16_MAX) -> closed_ring t order ->
  exists maximum total, ring_usage u order = Ok (maximum, total) /\
    0 <= maximum <= U16_MAX /\ 0 <= total <= U64_MAX /\
    ((forall v, P v -> v = 0) -> maximum = 0 /\ total = 0).
Proof using Hok.
  intros Hu HP Hc. unfold ring_usage. pose proof (pairs_in_range _ Hc) as Hr. clear Hc.
  assert (Hgen : forall mx tt, 0 <= mx <= U16_MAX -> 0 <= tt <= U64_MAX -> exists maximum total,
    foldM (fun '(maximum, total) '(first, second) =>
      usage ← cell u first second;
      Ok (Z.max maximum usage, saturating_add 64 total usage)) (mx, tt) (ring_pairs order) =
      Ok (E:=TopologyError) (maximum, total) /\
    0 <= maximum <= U16_MAX /\ 0 <= total <= U64_MAX /\
    ((forall v, P v -> v = 0) -> maximum = mx /\ total = tt)).
  { induction Hr as [|[i j] pairs [Hi Hj] _ IH]; intros mx tt Hmx Htt.
    - exists mx, tt. by cbn.
    - cbn [foldM]. cbn [fst snd] in Hi, Hj.
      destruct (cell_grid (E:=TopologyError) P w u i j Hu Hi Hj) as (v & -> & Hv).
      cbn [mbind outcome_bind]. pose proof (HP v Hv) as Hvr.
      destruct (IH (Z.max mx v) (saturating_add 64 tt v)) as (maximum & total & -> & Hm & Ht & Hz).
      + lia.
      + unfold saturating_add. pose proof (saturate_range 64 (tt + v) ltac:(lia)) as [? ?]. unfold U64_MAX. lia.
      + exists maximum, total. split_and!; try done; try lia. intros Hzero. destruct (Hz Hzero) as [-> ->].
        rewrite (Hzero v Hv). rewrite Z.add_0_r || unfold saturating_add. split; [lia|].
        unfold saturating_add. rewrite Z.add_0_r. apply saturate_in. unfold in_width, U64_MAX in *. lia. }
  destruct (Hgen 0 0) as (maximum & total & ? & ? & ? & ?); [unfold U16_MAX; lia|unfold U64_MAX; lia|].
  by exists maximum, total.
Qed.

Lemma diversity_key_ok P u order :
  grid P w u -> (forall v, P v -> 0 <= v <= U16_MAX) -> closed_ring t order ->
  exists key, diversity_key t u order = Ok key /\
    ((forall v, P v -> v = 0) -> key = U16_MAX :: U64_MAX :: score_key (pure_score t (ring_pairs order))).
Proof using Hok.
  intros Hu HP Hc. unfold diversity_key.
  destruct (ring_usage_ok P u order Hu HP Hc) as (maximum & total & -> & Hm & Ht & Hz).
  cbn [mbind outcome_bind].
  rewrite !arith_in by (unfold in_width, U16_MAX, U64_MAX in *; lia). cbn [mbind outcome_bind].
  rewrite (ring_score_ok t Hok) by done. cbn [mbind outcome_bind]. eexists. split; [done|].
  intros Hzero. destruct (Hz Hzero) as [-> ->]. by rewrite !Z.sub_0_r.
Qed.

(** The scan keeps the first greatest key. *)
Lemma best_candidate_ok u candidates (K : list nat -> list Z) :
  candidates <> [] -> (forall o, o ∈ candidates -> diversity_key t u o = Ok (K o)) ->
  exists b o, best_candidate t u candidates = Ok b /\ candidates !! b = Some o /\
    forall o', o' ∈ candidates -> key_le (K o') (K o).
Proof using Type.
  intros Hne HK. unfold best_candidate.
  set (step := fun '(best_index, best_key) '(index, order) => _).
  assert (Hgen : forall n, (n <= length candidates)%nat ->
    exists b k, foldM step (0%nat, None) (take n (enumerate candidates)) = Ok (b, k) /\
      match k with
      | None => n = 0%nat
      | Some k => exists o, candidates !! b = Some o /\ k = K o /\
          forall o', o' ∈ take n candidates -> key_le (K o') (K o)
      end).
  { induction n as [|n IH]; intros Hn; [by exists 0%nat, None|].
    destruct (IH ltac:(lia)) as (b & k & Hf & Hk).
    destruct (lookup_lt_is_Some_2 candidates n ltac:(lia)) as [o Ho].
    assert (Hen : enumerate candidates !! n = Some (n, o)) by (apply lookup_enumerate; eauto).
    rewrite (take_S_r _ _ _ Hen), foldM_app, Hf. cbn [mbind outcome_bind foldM step].
    rewrite HK by by eapply list_elem_of_lookup_2. cbn [mbind outcome_bind].
    rewrite (take_S_r _ _ _ Ho).
    assert (Hlast : forall o' (c : list nat), o' ∈ take n candidates ++ [o] ->
      (forall o'', o'' ∈ take n candidates -> key_le (K o'') (K c)) -> key_le (K o) (K c) -> key_le (K o') (K c)).
    { intros o' c [Hin| ->%list_elem_of_singleton]%elem_of_app Hall Hlo; [by apply Hall|done]. }
    destruct k as [k|].
    - destruct Hk as (ob & Hob & -> & Hall). destruct (lex_ltb (K ob) (K o)) eqn:Hlt.
      + exists n, (Some (K o)). split; [done|]. exists o. split; [done|]. split; [done|].
        intros o' Hin. eapply Hlast; [exact Hin| |apply key_le_refl].
        intros o'' Ho''. eapply key_le_trans; [by apply Hall|]. by apply lex_ltb_true.
      + exists b, (Some (K ob)). split; [done|]. exists ob. split; [done|]. split; [done|].
        intros o' Hin. eapply Hlast; [exact Hin|exact Hall|]. by apply lex_ltb_false.
    - subst n. exists 0%nat, (Some (K o)). split; [done|]. exists o. split; [done|]. split; [done|].
      intros o' Hin. eapply Hlast; [exact Hin| |apply key_le_refl].
      intros o'' Ho''. by apply not_elem_of_nil in Ho''. }
  destruct (Hgen (length candidates) ltac:(done)) as (b & k & Hf & Hk).
  rewrite take_ge in Hf by (rewrite length_enumerate; lia). rewrite Hf. cbn [mbind outcome_bind].
  destruct k as [k|]; [|by destruct candidates].
  destruct Hk as (o & Ho & -> & Hall). exists b, o. rewrite take_ge in Hall by lia. done.
Qed.

Lemma count_edges_ok u order :
  counts u -> closed_ring t order -> exists u', count_edges u order = Ok u' /\ counts u'.
Proof using Hok.
  intros Hu Hc. unfold count_edges. pose proof (pairs_in_range _ Hc) as Hr. clear Hc. revert u Hu.
  assert (Hsat : forall v, 0 <= v <= U16_MAX -> 0 <= saturating_add 16 v 1 <= U16_MAX).
  { intros v Hv. unfold saturating_add. pose proof (saturate_range 16 (v + 1) ltac:(lia)) as [? ?]. unfold U16_MAX. lia. }
  induction Hr as [|[i j] pairs [Hi Hj] _ IH]; intros u Hu; cbn [foldM]; [by exists u|].
  cbn [fst snd] in Hi, Hj.
  destruct (cell_grid (E:=TopologyError) _ w u i j Hu Hi Hj) as (v & -> & Hv). cbn [mbind outcome_bind].
  destruct (set_cell_grid (E:=TopologyError) _ w u i j _ Hu Hi Hj (Hsat v Hv)) as (u1 & -> & Hu1).
  cbn [mbind outcome_bind].
  destruct (cell_grid (E:=TopologyError) _ w u1 j i Hu1 Hj Hi) as (v1 & -> & Hv1). cbn [mbind outcome_bind].
  destruct (set_cell_grid (E:=TopologyError) _ w u1 j i _ Hu1 Hj Hi (Hsat v1 Hv1)) as (u2 & -> & Hu2).
  cbn [mbind outcome_bind]. by apply IH.
Qed.

Lemma select_rings_ok maximum u candidates :
  counts u -> Forall (closed_ring t) candidates -> NoDup candidates ->
  exists rings, select_rings maximum t u candidates = Ok rings /\
    length rings = (maximum `min` length candidates)%nat /\ NoDup rings /\
    forall r, r ∈ rings -> r ∈ candidates.
Proof using Hok.
  revert u candidates. induction maximum as [|maximum IH]; intros u candidates Hu Hc Hnd; cbn [select_rings].
  { exists []. split_and!; [done|done|constructor|]. intros r Hr. by apply not_elem_of_nil in Hr. }
  destruct candidates as [|c0 candidates0] eqn:Hcand.
  { exists []. split_and!; [done|done|constructor|done]. }
  rewrite <- Hcand in *. assert (Hne : candidates <> []) by (by rewrite Hcand). clear Hcand.
  destruct (best_candidate_ok u candidates
    (fun o => match diversity_key t u o with Ok k => k | _ => [] end) Hne) as (b & o & -> & Hb & _).
  { intros o Ho. destruct (diversity_key_ok _ u o Hu) as (k & -> & _); [done| |done].
    by apply (proj1 (Forall_forall _ _) Hc). }
  cbn [mbind outcome_bind]. unfold index. rewrite Hb. cbn [expect mbind outcome_bind].
  assert (Ho : closed_ring t o) by (by apply (proj1 (Forall_lookup _ _) Hc _ _ Hb)).
  destruct (count_edges_ok u o Hu Ho) as (u' & -> & Hu'). cbn [mbind outcome_bind].
  pose proof (delete_Permutation candidates b o Hb) as Hp.
  destruct (IH u' (delete b candidates)) as (rings & -> & Hl & Hndr & Hin); [done| | |].
  - rewrite Hp in Hc. by apply Forall_cons in Hc as [_ ?].
  - rewrite Hp in Hnd. by apply NoDup_cons in Hnd as [_ ?].
  - cbn [mbind outcome_bind]. exists (o :: rings). split; [done|]. split_and!.
    + cbn [length]. rewrite Hl. apply Permutation_length in Hp. cbn in Hp. lia.
    + constructor; [|done]. intros Hor%Hin. rewrite Hp in Hnd. by apply NoDup_cons in Hnd as [Hno _].
    + intros r [->|Hr]%elem_of_cons; [by eapply list_elem_of_lookup_2|]. rewrite Hp. right. by apply Hin.
Qed.

(** A ring at least as good as another one. *)
Definition score_le (s s' : RingScore) : Prop := key_le (score_key s) (score_key s').

Lemma zero_grid : grid (fun v => v = 0) w (replicate w (replicate w 0)).
Proof using Type.
  split; [apply length_replicate|]. apply Forall_replicate. split; [apply length_replicate|].
  by apply Forall_replicate.
Qed.

(** The first selected ring has the best score of the candidates. *)
Lemma select_first maximum candidates :
  Forall (closed_ring t) candidates -> NoDup candidates -> candidates <> [] -> (0 < maximum)%nat ->
  exists best rings, select_rings maximum t (replicate w (replicate w 0)) candidates = Ok (best :: rings) /\
    length (best :: rings) = (maximum `min` length candidates)%nat /\ NoDup (best :: rings) /\
    (forall r, r ∈ best :: rings -> r ∈ candidates) /\
    forall r, r ∈ candidates -> score_le (pure_score t (ring_pairs r)) (pure_score t (ring_pairs best)).
Proof using Hok.
  intros Hc Hnd Hne Hmax.
  assert (Hzero : counts (replicate w (replicate w 0))).
  { destruct zero_grid as [Hl Hr]. split; [done|]. eapply Forall_impl; [exact Hr|]. intros row [Hlr Hz].
    split; [done|]. eapply Forall_impl; [exact Hz|]. intros v ->. unfold U16_MAX. lia. }
  destruct (select_rings_ok maximum _ _ Hzero Hc Hnd) as (rings & Hs & Hl & Hndr & Hin).
  destruct rings as [|best rings].
  { exfalso. destruct candidates; [done|]. cbn in Hl. lia. }
  exists best, rings. split_and!; [done|done|done|exact Hin|]. intros r Hr.
  destruct maximum as [|maximum]; [lia|]. cbn [select_rings] in Hs.
  destruct candidates as [|c0 candidates0] eqn:Hcand; [done|]. rewrite <- Hcand in *. clear Hcand.
  destruct (best_candidate_ok (replicate w (replicate w 0)) candidates
    (fun o => U16_MAX :: U64_MAX :: score_key (pure_score t (ring_pairs o))) Hne) as (b & o & Hbest & Hb & Hmaxk).
  { intros o Ho. destruct (diversity_key_ok _ _ o zero_grid) as (k & -> & Hk).
    - intros v ->. unfold U16_MAX. lia.
    - by apply (proj1 (Forall_forall _ _) Hc).
    - by rewrite Hk. }
  rewrite Hbest in Hs. cbn [mbind outcome_bind] in Hs. inv_ok. rewrite Hb in Hv. injection Hv as <-.
  specialize (Hmaxk r Hr). unfold score_le, key_le in *. cbn [lex] in Hmaxk.
  by rewrite !Z.compare_refl in Hmaxk.
Qed.
End selection.

(** ** The greedy search *)
Lemma max_by_key_elem {A} (key : A -> list Z) l x : max_by_key key l = Some x -> x ∈ l.
Proof.
  unfold max_by_key.
  assert (Hgen : forall best, foldl (fun best x => match best with
      | Some b => if lex_ltb (key x) (key b) then Some b else Some x | None => Some x end) best l = Some x ->
    x ∈ l \/ best = Some x).
  { induction l as [|a l IH]; intros best; cbn [foldl]; [by right|]. intros [Hin|Hin]%IH; [left; by right|].
    destruct best as [b|]; [destruct (lex_ltb _ _)|]; try (by right); injection Hin as ->; left; by left. }
  intros Hf. by destruct (Hgen None Hf) as [?|[=]].
Qed.

Section greedy.
Context (t : CollectiveTopology) (Hok : topology_ok t).
Abbreviation w := (world_size t).

Lemma greedy_next_ok used current :
  (current < w)%nat -> exists next, greedy_next t used current = Ok next /\
    match next with
    | Some n => (n < w)%nat /\ used !!! n = false /\ linked t current n
    | None => True
    end.
Proof using Hok.
  intros Hc. unfold greedy_next. destruct (topology_matrix _ Hok) as [Hl Hr _ _ _].
  rewrite (mapM_pure _ (fun rank => option_map (fun c => (rank, bandwidth_mbps c, latency_ns c))
    (entry (links t) current rank))).
  2:{ intros x [_ Hx%elem_of_seq]%list_elem_of_filter. unfold link. by rewrite (cell_ok w) by (done || lia). }
  cbn [mbind outcome_bind]. eexists. split; [done|].
  destruct (max_by_key _ _) as [[[n bw] la]|] eqn:Hm; cbn; [|done].
  apply max_by_key_elem, list_elem_of_omap in Hm as (o & Ho & Hid). cbn in Hid. subst o.
  apply list_elem_of_fmap in Ho as (rank & Ho & [Hu Hn%elem_of_seq]%list_elem_of_filter).
  destruct (entry (links t) current rank) as [c|] eqn:He; [|done]. cbn in Ho. injection Ho as -> _ _.
  split; [lia|]. split; [done|]. by exists c.
Qed.

(** The ranks of a greedy ring from [x]. *)
Definition route_ok (x : nat) (tl : list nat) : Prop :=
  NoDup (x :: tl) /\ Forall (fun i => (i < w)%nat) (x :: tl) /\ chain t x tl.

Lemma route_last x tl : Forall (fun i => (i < w)%nat) (x :: tl) -> (default x (last tl) < w)%nat.
Proof using Type.
  intros Hall. apply (proj1 (Forall_forall _ _) Hall). destruct (last tl) as [y|] eqn:Hy; cbn; [|by left].
  right. by apply last_Some_elem_of.
Qed.

Lemma greedy_ring_ok n fuel x tl used :
  (n <= fuel)%nat -> (S (length tl) + n = w)%nat -> route_ok x tl -> marks t used (x :: tl) ->
  exists ring, greedy_ring fuel t (x :: tl) used = Ok ring /\
    match ring with
    | Some order => exists tl', order = x :: tl' /\ route_ok x tl' /\ length order = w
    | None => True
    end.
Proof using Hok.
  revert fuel tl used. induction n as [|n IH]; intros fuel tl used Hf Hl Hr Hm.
  { exists (Some (x :: tl)). split; [|exists tl; split; [done|split; [done|cbn; lia]]].
    assert (Hle : (w <=? length (x :: tl))%nat = true) by (apply Nat.leb_le; cbn; lia).
    destruct fuel; cbn [greedy_ring]; by rewrite Hle. }
  assert (Hlt : (w <=? length (x :: tl))%nat = false) by (apply Nat.leb_gt; cbn; lia).
  destruct fuel as [|fuel]; [lia|]. cbn [greedy_ring]. rewrite Hlt, last_of_cons. cbn [expect mbind outcome_bind].
  destruct Hr as (Hnd & Hall & Hch).
  destruct (greedy_next_ok used (default x (last tl)) (route_last _ _ Hall)) as (next & -> & Hnext).
  cbn [mbind outcome_bind]. destruct next as [c|]; [|by exists None].
  destruct Hnext as (Hc & Hu & Hlk).
  assert (Hni : c ∉ x :: tl).
  { intros Hin. destruct Hm as [_ Hm]. specialize (Hm c Hc). rewrite bool_decide_true in Hm by done.
    rewrite list_lookup_total_alt, Hm in Hu. done. }
  apply (IH fuel (tl ++ [c]) (<[c := true]> used)).
  - lia.
  - rewrite length_app. cbn. lia.
  - split; [|split].
    + change (NoDup ((x :: tl) ++ [c])). apply NoDup_app. split; [done|]. split; [|apply NoDup_singleton].
      by intros y Hy ->%list_elem_of_singleton.
    + change (Forall (fun i => (i < w)%nat) ((x :: tl) ++ [c])). apply Forall_app. by rewrite Forall_singleton.
    + by apply chain_app.
  - by apply (marks_push t used (x :: tl) c).
Qed.

Lemma rotate_ring_to_zero_ok {E} order :
  closed_ring t order -> exists ring, rotate_ring_to_zero (E:=E) order = Ok ring /\ closed_ring t ring.
Proof using Hok.
  intros [Hp Hl]. pose proof (topology_world _ Hok) as [Hw _]. unfold rotate_ring_to_zero.
  assert (H0 : 0%nat ∈ order) by (rewrite Hp; apply elem_of_seq; lia).
  destruct (list_find_elem_of (fun rank => rank = 0%nat) order 0%nat H0 eq_refl) as [[p z] Hf].
  rewrite Hf. apply list_find_Some in Hf as (Hlk & -> & _).
  rewrite (drop_S _ _ _ Hlk). cbn [app length Nat.eqb].
  set (l := drop (S p) order ++ take p order).
  assert (Hring : closed_ring t (0%nat :: l)).
  { split.
    - rewrite <- Hp. rewrite <- (take_drop_middle order p _ Hlk). unfold l.
      change (0%nat :: drop (S p) order ++ take p order) with ((0%nat :: drop (S p) order) ++ take p order).
      apply Permutation_app_comm.
    - unfold l. change (0%nat :: drop (S p) order ++ take p order) with ((0%nat :: drop (S p) order) ++ take p order).
      rewrite ring_pairs_rotate. by rewrite (take_drop_middle order p _ Hlk). }
  destruct (order_ltb _ _); eexists; (split; [done|]); [|done].
  destruct Hring as [Hp' Hl']. split.
  - rewrite <- Hp'. unfold reversed. cbn [tail]. constructor. symmetry. apply Permutation_rev.
  - by rewrite ring_pairs_reversed, linked_swap.
Qed.

Lemma greedy_candidates_ok :
  exists candidates, greedy_candidates t = Ok candidates /\ Forall (closed_ring t) candidates.
Proof using Hok.
  unfold greedy_candidates.
  assert (Hgen : forall l cs, Forall (fun i => (i < w)%nat) l -> Forall (closed_ring t) cs ->
    exists candidates, foldM (fun candidates start =>
      ring ← greedy_ring w t [start] (<[start := true]> (replicate w false));
      match ring with
      | None => Ok candidates
      | Some order =>
          last ← expect (last order);
          first ← index order 0;
          closing ← link t last first;
          match closing with
          | None => Ok candidates
          | Some _ =>
              order ← rotate_ring_to_zero order;
              Ok (if bool_decide (order ∈ candidates) then candidates else candidates ++ [order])
          end
      end) cs l = Ok (E:=TopologyError) candidates /\ Forall (closed_ring t) candidates).
  { induction l as [|start l IH]; intros cs Hl Hcs; cbn [foldM]; [by exists cs|].
    apply Forall_cons in Hl as [Hs Hl].
    destruct (greedy_ring_ok (w - 1) w start [] (<[start := true]> (replicate w false))) as (ring & -> & Hring).
    - lia.
    - cbn. lia.
    - split; [apply NoDup_singleton|]. by rewrite Forall_singleton.
    - split; [by rewrite length_insert, length_replicate|]. intros i Hi. destruct (decide (i = start)) as [->|Hne].
      + rewrite list_lookup_insert_eq by (by rewrite length_replicate). rewrite bool_decide_true; [done|by left].
      + rewrite list_lookup_insert_ne, lookup_replicate_2 by done. rewrite bool_decide_false; [done|].
        by intros ->%list_elem_of_singleton.
    - cbn [mbind outcome_bind]. destruct ring as [order|]; [|by apply IH].
      destruct Hring as (tl & -> & (Hnd & Hall & Hch) & Hlen).
      rewrite last_of_cons. cbn [expect mbind outcome_bind index lookup list_lookup].
      unfold link. destruct (topology_matrix _ Hok) as [Hml Hmr _ _ _].
      rewrite (cell_ok w) by (done || by apply route_last). cbn [mbind outcome_bind].
      destruct (entry (links t) (default start (last tl)) start) as [c|] eqn:He; [|by apply IH].
      destruct (rotate_ring_to_zero_ok (E:=TopologyError) (start :: tl)) as (ring & -> & Hring).
      { apply closed_ring_cons. split; [by apply NoDup_below_Permutation|]. split; [done|]. by exists c. }
      cbn [mbind outcome_bind]. apply IH; [done|]. case_bool_decide; [done|].
      apply Forall_app. by rewrite Forall_singleton. }
  apply Hgen; [|constructor]. apply Forall_forall. intros i Hi%elem_of_seq. lia.
Qed.

(** ** Ring orders *)
Lemma completes_nil l :
  completes t [] l <-> closed_ring t (0%nat :: l) /\ order_le (0%nat :: l) (reversed (0%nat :: l)).
Proof using Hok.
  pose proof (topology_world _ Hok) as [Hw _]. unfold completes. cbn [app last default].
  rewrite closed_ring_cons. split.
  - intros (Hnd & Hall & Hlen & Hch & Hcl & Hle). split_and!; try done.
    apply NoDup_below_Permutation; [done| |done]. by constructor.
  - intros ((Hp & Hch & Hcl) & Hle). apply Permutation_seq_below in Hp as (Hnd & Hall & Hlen).
    apply Forall_cons in Hall as [_ Hall]. by split_and!.
Qed.

Lemma collected :
  exists candidates, collect_rings w t [0%nat] (<[0%nat := true]> (replicate w false)) [] = Ok candidates /\
    forall r, r ∈ candidates <-> exists l, r = 0%nat :: l /\ closed_ring t r /\ order_le r (reversed r).
Proof using Hok.
  pose proof (topology_world _ Hok) as [Hw _].
  destruct (collect_rings_spec t Hok (w - 1) w [] (<[0%nat := true]> (replicate w false)) []) as (rs & Hrs & Hin).
  - lia.
  - cbn. lia.
  - constructor.
  - apply NoDup_singleton.
  - split; [by rewrite length_insert, length_replicate|]. intros i Hi. destruct (decide (i = 0%nat)) as [->|Hne].
    + rewrite list_lookup_insert_eq by (by rewrite length_replicate). done.
    + rewrite list_lookup_insert_ne, lookup_replicate_2 by done. rewrite bool_decide_false; [done|].
      by intros ->%list_elem_of_singleton.
  - exists rs. split; [exact Hrs|]. intros r. rewrite Hin. cbn [app]. split.
    + intros (l & -> & [? ?]%completes_nil). by exists l.
    + intros (l & -> & ? & ?). exists l. split; [done|]. by apply completes_nil.
Qed.

Lemma select_diverse_rings_ok maximum candidates :
  Forall (closed_ring t) candidates -> (0 < maximum)%nat ->
  match select_diverse_rings t candidates maximum with
  | Ok rings => exists best rest, rings = best :: rest /\ NoDup rings /\ (length rings <= maximum)%nat /\
      (forall r, r ∈ rings -> r ∈ candidates) /\
      (forall r, r ∈ candidates -> score_le (pure_score t (ring_pairs r)) (pure_score t (ring_pairs best)))
  | Err _ => candidates = []
  | Panic => False
  end.
Proof using Hok.
  intros Hc Hmax. unfold select_diverse_rings. destruct candidates as [|c0 cs] eqn:Hcand; [done|].
  rewrite <- Hcand in *. assert (Hne : candidates <> []) by by rewrite Hcand.
  replace (length candidates =? 0)%nat with false by by rewrite Hcand. cbn [fail_if mbind outcome_bind].
  destruct (sorted_candidates candidates) as [Hnd Hin]. set (sorted := dedup _) in *.
  destruct (select_first t Hok maximum sorted) as (best & rings & -> & Hl & Hndr & Hsub & Hbest).
  - apply Forall_forall. intros r Hr%Hin. by apply (proj1 (Forall_forall _ _) Hc).
  - done.
  - intros Hs. destruct candidates as [|c cs']; [done|]. assert (Hcs : c ∈ sorted) by (apply Hin; by left).
    rewrite Hs in Hcs. by apply not_elem_of_nil in Hcs.
  - done.
  - exists best, rings. split_and!; try done.
    + rewrite Hl. lia.
    + intros r Hr. by apply Hin, Hsub.
    + intros r Hr. by apply Hbest, Hin.
Qed.

Lemma best_ring_orders_sound maximum :
  (2 <= w)%nat ->
  no_panic (best_ring_orders t maximum) /\
  forall rings, best_ring_orders t maximum = Ok rings ->
    Forall (closed_ring t) rings /\ NoDup rings /\ (length rings <= maximum)%nat /\ (maximum <> 0%nat -> rings <> []).
Proof using Hok.
  intros Hw. unfold best_ring_orders. destruct (Nat.eqb_spec maximum 0) as [->|Hmax].
  { split; [done|]. intros rings [= <-]. by repeat constructor. }
  destruct (Nat.eqb_spec w 1); [lia|].
  assert (Hsel : forall candidates, Forall (closed_ring t) candidates ->
    no_panic (select_diverse_rings t candidates maximum) /\
    forall rings, select_diverse_rings t candidates maximum = Ok rings ->
      Forall (closed_ring t) rings /\ NoDup rings /\ (length rings <= maximum)%nat /\ (maximum <> 0%nat -> rings <> [])).
  { intros candidates Hc. pose proof (select_diverse_rings_ok maximum candidates Hc ltac:(lia)) as Hs.
    destruct (select_diverse_rings t candidates maximum) as [rings|e|]; [|done|done].
    split; [done|]. intros rings' [= <-]. destruct Hs as (best & rest & -> & Hnd & Hl & Hin & _).
    split; [|done]. apply Forall_forall. intros r Hr. by apply (proj1 (Forall_forall _ _) Hc), Hin. }
  destruct (w <=? EXACT_RING_SEARCH_MAX_RANKS)%nat.
  - destruct collected as (candidates & -> & Hin). cbn [mbind outcome_bind]. apply Hsel.
    apply Forall_forall. intros r (l & _ & Hr & _)%Hin. done.
  - destruct greedy_candidates_ok as (candidates & -> & Hc). cbn [mbind outcome_bind]. by apply Hsel.
Qed.

Lemma best_ring_orders_permutations maximum :
  no_panic (best_ring_orders t maximum) /\
  forall rings, best_ring_orders t maximum = Ok rings ->
    Forall (fun order => order ≡ₚ seq 0 w) rings /\ (maximum <> 0%nat -> rings <> []).
Proof using Hok.
  destruct (Nat.eq_dec w 1) as [Hw|Hw].
  - unfold best_ring_orders. destruct (maximum =? 0)%nat eqn:Hm; [split; [done|]|].
    { intros rings [= <-]. split; [constructor|]. by apply Nat.eqb_eq in Hm. }
    rewrite (proj2 (Nat.eqb_eq w 1) Hw). split; [done|]. intros rings [= <-]. rewrite Hw. by repeat constructor.
  - pose proof (topology_world _ Hok) as [? _]. destruct (best_ring_orders_sound maximum ltac:(lia)) as [Hn Hc].
    split; [done|]. intros rings Hr. destruct (Hc rings Hr) as (Hall & _ & _ & Hne). split; [|done].
    eapply Forall_impl; [exact Hall|]. by intros order [].
Qed.

(** Every ring order the planner offers is a closed ring.  For any number of
    ranks, by the exhaustive or the greedy search, it never panics; the orders
    it returns visit every rank once along connected neighbours, are distinct,
    and are at most as many as asked for. *)
Theorem best_ring_orders_closed maximum :
  (2 <= w)%nat ->
  no_panic (best_ring_orders t maximum) /\
  forall rings, best_ring_orders t maximum = Ok rings ->
    Forall (closed_ring t) rings /\ NoDup rings /\ (length rings <= maximum)%nat.
Proof using Hok.
  intros Hw. destruct (best_ring_orders_sound maximum Hw) as [Hn Hc]. split; [done|].
  intros rings Hr. by destruct (Hc rings Hr) as (? & ? & ? & _).
Qed.

(** C26: Up to nine ranks the search is exact.  It fails exactly when the links
    contain no closed ring, and otherwise the first order it returns is one of
    the best score (bottleneck bandwidth, then total bandwidth, then latency)
    among all closed rings, from any start and in either direction. *)
Theorem best_ring_orders_optimal maximum :
  (2 <= w <= EXACT_RING_SEARCH_MAX_RANKS)%nat -> (0 < maximum)%nat ->
  match best_ring_orders t maximum with
  | Ok rings => exists best rest score, rings = best :: rest /\ closed_ring t best /\
      ring_score t best = Ok score /\
      forall order score', closed_ring t order -> ring_score t order = Ok score' -> score_le score' score
  | Err _ => forall order, ~ closed_ring t order
  | Panic => False
  end.
Proof using Hok.
  intros Hw Hmax. unfold best_ring_orders.
  rewrite (proj2 (Nat.eqb_neq maximum 0)), (proj2 (Nat.eqb_neq w 1)), (proj2 (Nat.leb_le w _)) by lia.
  destruct collected as (candidates & -> & Hin). cbn [mbind outcome_bind].
  pose proof (select_diverse_rings_ok maximum candidates) as Hs.
  destruct (select_diverse_rings t candidates maximum) as [rings|e|].
  - destruct Hs as (best & rest & -> & Hnd & Hl & Hsub & Hbest); [|done|].
    { apply Forall_forall. intros r (l & _ & Hr & _)%Hin. done. }
    assert (Hb : closed_ring t best) by (by destruct (proj1 (Hin best) (Hsub best ltac:(left))) as (_ & _ & ? & _)).
    exists best, rest, (pure_score t (ring_pairs best)). split; [done|]. split; [done|].
    split; [by apply ring_score_ok|]. intros order score' Ho Hscore.
    rewrite (ring_score_ok t Hok order Ho) in Hscore. injection Hscore as <-.
    destruct (canonical_ring t Hok order Ho) as (l & Hl' & Hle & <-). apply Hbest, Hin. by exists l.
  - intros order Ho. destruct (canonical_ring t Hok order Ho) as (l & Hl' & Hle & _).
    assert (Hc : 0%nat :: l ∈ candidates) by (apply Hin; by exists l).
    rewrite Hs in Hc; [by apply not_elem_of_nil in Hc| |done].
    apply Forall_forall. intros r (l' & _ & Hr & _)%Hin. done.
  - apply Hs; [|done]. apply Forall_forall. intros r (l & _ & Hr & _)%Hin. done.
Qed.
End greedy.

(** ** Instances *)
Lemma best_ring_orders_closed_witness :
  exists t rings, uniform 4 = Ok t /\ best_ring_orders t 2 = Ok rings /\ length rings = 2%nat /\
    Forall (closed_ring t) rings.
Proof.
  destruct (uniform 4) as [t|e|] eqn:H; [|vm_compute in H; discriminate H..].
  assert (Hok : topology_ok t) by (eapply uniform_ok; [|exact H]; lia).
  assert (Ht : world_size t = 4%nat) by (vm_compute in H; by injection H as <-).
  assert (Hr : exists rings, best_ring_orders t 2 = Ok rings /\ length rings = 2%nat)
    by (vm_compute in H; injection H as <-; eexists; vm_compute; by split).
  destruct Hr as (rings & Hr & Hl). exists t, rings. split; [done|]. split; [done|]. split; [done|].
  apply (best_ring_orders_closed t Hok 2); [rewrite Ht; lia|exact Hr].
Defined.

Lemma best_ring_orders_optimal_witness :
  exists t best score, uniform 4 = Ok t /\ closed_ring t best /\ ring_score t best = Ok score /\
    forall order score', closed_ring t order -> ring_score t order = Ok score' -> score_le score' score.
Proof.
  destruct (uniform 4) as [t|e|] eqn:H; [|vm_compute in H; discriminate H..].
  assert (Hok : topology_ok t) by (eapply uniform_ok; [|exact H]; lia).
  assert (Ht : world_size t = 4%nat) by (vm_compute in H; by injection H as <-).
  assert (Hr : exists rings, best_ring_orders t 2 = Ok rings)
    by (vm_compute in H; injection H as <-; eexists; vm_compute; reflexivity).
  destruct Hr as (rings & Hr).
  pose proof (best_ring_orders_optimal t Hok 2 ltac:(rewrite Ht; unfold EXACT_RING_SEARCH_MAX_RANKS; lia) ltac:(lia)) as Hb.
  rewrite Hr in Hb. destruct Hb as (best & rest & score & _ & Hc & Hs & Hmax). by exists t, best, score.
Defined.
