(* ===== verification/Hierarchy.v ===== *)
(** * Two-level groups: src/src/rank/topology.rs

    The planner infers groups of ranks with fast links among themselves: the
    connected components of the links below a threshold, for every threshold,
    each with the member that reaches the others fastest as its leader, in the
    order of the best cycle over the leaders. *)
From stdpp Require Import sorting.
From S2P Require Import Prelude Comp Device Topology ShortestPath RingSearch.

(** ** Cycles over the leaders *)

(** The slowest step and the sum of the steps of a cycle, [None] when a step
    has no route. *)
Definition cycle_score (t : CollectiveTopology) (ranks : list nat) (payload_bytes : Z) (order : list nat) :
    maybe (Z * Z) :=
  foldM (fun '(maximum, total) '(first, second) =>
      source ← index ranks first;
      destination ← index ranks second;
      cost ← shortest_transfer_time_ns t source destination payload_bytes;
      Ok (Z.max maximum cost, saturating_add 128 total cost)) (0, 0) (ring_pairs order).

(** A cycle replaces the best one when its score is less, or equal with a
    smaller order. *)
Definition better_cycle (score : Z * Z) (order : list nat) (best : option ((Z * Z) * list nat)) : bool :=
  match best with
  | None => true
  | Some (best_score, best_order) =>
      lex_ltb [score.1; score.2] [best_score.1; best_score.2]
      || bool_decide (score = best_score) && order_ltb order best_order
  end.

Fixpoint collect_rank_cycles (fuel : nat) (t : CollectiveTopology) (ranks : list nat) (payload_bytes : Z)
    (order : list nat) (used : list bool) (best : option ((Z * Z) * list nat)) :
    maybe (option ((Z * Z) * list nat)) :=
  if (length order =? length ranks)%nat then
    match cycle_score t ranks payload_bytes order with
    | Ok score => Ok (if better_cycle score order best then Some (score, order) else best)
    | Err _ => Ok best
    | Panic => Panic
    end
  else
    match fuel with
    | O => Panic
    | S fuel =>
        foldM (fun best candidate =>
            seen ← index used candidate;
            if (seen : bool) then Ok best else
            collect_rank_cycles fuel t ranks payload_bytes (order ++ [candidate])
              (<[candidate := true]> used) best)
          best (seq 1 (length ranks - 1))
    end.

(** [iter.min_by_key(key)] with a tuple as the key. *)
Definition min_by_tuple {A} (key : A -> list Z) (l : list A) : option A :=
  foldl (fun best x =>
      match best with
      | Some b => if lex_ltb (key x) (key b) then Some x else Some b
      | None => Some x
      end) None l.

(** The greedy cycle: the unused leader with the cheapest route. *)
Definition nearest_rank (t : CollectiveTopology) (ranks : list nat) (payload_bytes : Z)
    (used : list bool) (current : nat) : maybe nat :=
  found ← mapM (fun candidate =>
      source ← index ranks current;
      destination ← index ranks candidate;
      cost ← to_option (shortest_transfer_time_ns t source destination payload_bytes);
      Ok (option_map (fun c => (c, destination, candidate)) cost))
    (filter (fun candidate => used !!! candidate = false) (seq 0 (length ranks)));
  best ← ok_or (min_by_tuple (fun '(cost, rank, _) => [cost; Z.of_nat rank]) (omap id found)) tt;
  Ok best.2.

Fixpoint greedy_cycle (fuel : nat) (t : CollectiveTopology) (ranks : list nat) (payload_bytes : Z)
    (order : list nat) (used : list bool) : maybe (list nat) :=
  if (length ranks <=? length order)%nat then Ok order
  else
    match fuel with
    | O => Panic
    | S fuel =>
        current ← ok_or (last order) tt;
        next ← nearest_rank t ranks payload_bytes used current;
        greedy_cycle fuel t ranks payload_bytes (order ++ [next]) (<[next := true]> used)
    end.

Definition best_rank_cycle_order (t : CollectiveTopology) (ranks : list nat) (payload_bytes : Z) :
    maybe (list nat) :=
  if (length ranks =? 0)%nat then Err tt
  else if (length ranks =? 1)%nat then Ok [0%nat]
  else
    let used := <[0%nat := true]> (replicate (length ranks) false) in
    if (length ranks <=? EXACT_RING_SEARCH_MAX_RANKS)%nat then
      best ← collect_rank_cycles (length ranks) t ranks payload_bytes [0%nat] used None;
      best ← ok_or best tt;
      Ok best.2
    else
      order ← greedy_cycle (length ranks) t ranks payload_bytes [0%nat] used;
      final ← ok_or (last order) tt;
      source ← index ranks final;
      first ← index order 0;
      destination ← index ranks first;
      _ ← shortest_transfer_time_ns t source destination payload_bytes;
      Ok order.

(** ** Leaders *)

(** [group.iter().try_fold(0, |total, rank| cost(rank).map(|c| total.saturating_add(c)))] *)
Definition total_cost (cost : nat -> maybe Z) (ranks : list nat) : maybe Z :=
  foldM (fun total rank => c ← cost rank; Ok (saturating_add 64 total c)) 0 ranks.

(** [v.swap(0, position)] *)
Definition swap_front (l : list nat) (position : nat) : maybe (list nat) :=
  first ← index l 0;
  other ← index l position;
  Ok (<[position := first]> (<[0%nat := other]> l)).

Definition sort_ranks : list nat -> list nat := merge_sort le.

(** The member that reaches the others fastest within the group comes first. *)
Definition lead_group (t : CollectiveTopology) (payload_bytes : Z) (group : list nat) : maybe (list nat) :=
  found ← mapM (fun candidate =>
      total ← to_option (total_cost (fun rank =>
          shortest_transfer_time_ns_within t candidate rank payload_bytes group) group);
      Ok (option_map (fun total => (total, candidate)) total)) group;
  best ← ok_or (min_by_tuple (fun '(total, candidate) => [total; Z.of_nat candidate]) (omap id found)) tt;
  let leader := best.2 in
  let group := sort_ranks group in
  position ← ok_or (list_find (fun rank => rank = leader) group) tt;
  swap_front group position.1.

Definition optimize_hierarchy (t : CollectiveTopology) (groups : list (list nat)) (payload_bytes : Z) :
    maybe (list (list nat)) :=
  groups ← mapM (lead_group t payload_bytes) groups;
  leaders ← mapM (fun group => index group 0) groups;
  order ← best_rank_cycle_order t leaders payload_bytes;
  mapM (fun i => index groups i) order.

(** ** Connected components *)

(** The peers of [rank] over links not slower than the threshold are marked
    and pushed; the head of [pending] is the end of the vector. *)
Definition push_fast_peers {E} (t : CollectiveTopology) (payload_bytes threshold : Z) (rank : nat)
    (visited : list bool) (pending : list nat) : outcome E (list bool * list nat) :=
  foldM (fun '((visited, pending) : list bool * list nat) peer =>
      if (visited !!! peer : bool) then Ok (visited, pending) else
      found ← link t rank peer;
      fast ← match found with
             | Some l => time ← link_transfer_time_ns l payload_bytes; Ok (time <=? threshold)
             | None => Ok false
             end;
      Ok (if (fast : bool) then (<[peer := true]> visited, peer :: pending) else (visited, pending)))
    (visited, pending) (seq 0 (world_size t)).

(** [while let Some(rank) = pending.pop()] *)
Fixpoint component {E} (fuel : nat) (t : CollectiveTopology) (payload_bytes threshold : Z)
    (visited : list bool) (pending group : list nat) : outcome E (list bool * list nat) :=
  match pending with
  | [] => Ok (visited, group)
  | rank :: pending =>
      match fuel with
      | O => Panic
      | S fuel =>
          '(visited, pending) ← push_fast_peers t payload_bytes threshold rank visited pending;
          component fuel t payload_bytes threshold visited pending (group ++ [rank])
      end
  end.

Definition components {E} (t : CollectiveTopology) (payload_bytes threshold : Z) :
    outcome E (list (list nat)) :=
  '(_, groups) ← foldM (fun '((visited, groups) : list bool * list (list nat)) first_rank =>
      if (visited !!! first_rank : bool) then Ok (visited, groups) else
      '(visited, group) ← component (world_size t) t payload_bytes threshold
                            (<[first_rank := true]> visited) [first_rank] [];
      Ok (visited, groups ++ [sort_ranks group]))
    (replicate (world_size t) false, []) (seq 0 (world_size t));
  Ok groups.

(** [groups.sort_unstable_by_key(|group| group[0])]; no group is empty. *)
Definition front_le (a b : list nat) : Prop := (a !!! 0%nat <= b !!! 0%nat)%nat.
#[export] Instance front_le_dec a b : Decision (front_le a b).
Proof. unfold front_le. apply _. Defined.

Fixpoint dedup_times (l : list Z) : list Z :=
  match l with
  | x :: ((y :: _) as l') => if x =? y then dedup_times l' else x :: dedup_times l'
  | _ => l
  end.

(** The groups of one threshold, unless they are trivial or known. *)
Definition add_hierarchy {E} (t : CollectiveTopology) (payload_bytes : Z)
    (candidates : list (list (list nat))) (threshold : Z) : outcome E (list (list (list nat))) :=
  groups ← components t payload_bytes threshold;
  let groups := merge_sort front_le groups in
  if (length groups <? 2)%nat || (length groups =? world_size t)%nat
     || bool_decide (groups ∈ candidates)
  then Ok candidates
  else
    optimized ← to_option (optimize_hierarchy t groups payload_bytes);
    Ok (match optimized with
        | Some groups => if bool_decide (groups ∈ candidates) then candidates else candidates ++ [groups]
        | None => candidates
        end).

Definition hierarchy_candidates {E} (t : CollectiveTopology) (payload_bytes : Z) :
    outcome E (list (list (list nat))) :=
  thresholds ← mapM (fun '(first, second) =>
      found ← link t first second;
      match found with
      | Some l => time ← link_transfer_time_ns l payload_bytes; Ok (Some time)
      | None => Ok None
      end) (rank_pairs (world_size t));
  foldM (add_hierarchy t payload_bytes) []
    (dedup_times (merge_sort Z.le (omap id thresholds))).

(** ** The components partition the ranks *)
Section flood.
Context (t : CollectiveTopology).
Abbreviation w := (world_size t).

(** [visited] marks the ranks that are done or pending, each of them once. *)
Record flooding (done : list nat) (visited : list bool) (pending : list nat) : Prop := {
  flooding_length : length visited = w;
  flooding_NoDup : NoDup (done ++ pending);
  flooding_range : Forall (fun i => (i < w)%nat) (done ++ pending);
  flooding_marks i : (i < w)%nat -> visited !!! i = bool_decide (i ∈ done ++ pending);
}.

Lemma flooding_Permutation done done' visited pending pending' :
  done ++ pending ≡ₚ done' ++ pending' -> flooding done visited pending -> flooding done' visited pending'.
Proof using Type.
  intros Hp [Hl Hnd Hr Hm]. split; [done|by rewrite <- Hp|by rewrite <- Hp|].
  intros i Hi. rewrite Hm by done. apply bool_decide_ext. by rewrite Hp.
Qed.

(** Marking a rank and pushing it. *)
Lemma flooding_push done visited pending i :
  flooding done visited pending -> (i < w)%nat -> visited !!! i = false ->
  flooding done (<[i := true]> visited) (i :: pending).
Proof using Type.
  intros [Hl Hnd Hr Hm] Hi Hv. rewrite Hm in Hv by done. apply bool_decide_eq_false in Hv.
  assert (Hp : done ++ i :: pending ≡ₚ i :: done ++ pending) by (by rewrite Permutation_middle).
  split.
  - by rewrite length_insert.
  - rewrite Hp. by constructor.
  - rewrite Hp. by constructor.
  - intros j Hj. rewrite insert_total by lia. case_decide as Hji.
    + subst. symmetry. apply bool_decide_eq_true. rewrite Hp. by left.
    + rewrite Hm by done. apply bool_decide_ext. rewrite Hp, elem_of_cons. tauto.
Qed.

(** Distinct ranks are at most as many as there are. *)
Lemma flooding_bound done visited pending : flooding done visited pending -> (length done + length pending <= w)%nat.
Proof using Type.
  intros [_ Hnd Hr _]. rewrite <- length_app, <- (length_seq w 0).
  apply submseteq_length, NoDup_submseteq; [done|]. intros i Hi. apply elem_of_seq.
  pose proof (proj1 (Forall_forall _ _) Hr i Hi) as Hlt. cbn in Hlt. lia.
Qed.

Context (Hok : topology_ok t) (payload_bytes threshold : Z) (Hpayload : 0 <= payload_bytes < 2 ^ 64).

Lemma push_fast_peers_ok {E} rank done visited pending :
  (rank < w)%nat -> flooding done visited pending ->
  exists visited' pending', push_fast_peers (E:=E) t payload_bytes threshold rank visited pending =
    Ok (visited', pending') /\ flooding done visited' pending' /\ forall i, i ∈ pending -> i ∈ pending'.
Proof using Hok Hpayload.
  intros Hrank. unfold push_fast_peers.
  assert (Hl : Forall (fun i => (i < w)%nat) (seq 0 w))
    by (apply Forall_forall; intros i Hi%elem_of_seq; lia).
  revert visited pending. induction Hl as [|peer l Hpeer _ IH]; intros visited pending Hf; cbn [foldM].
  { by exists visited, pending. }
  destruct (visited !!! peer) eqn:Hv; cbn [mbind outcome_bind]; [by apply IH|].
  rewrite (link_ok t Hok) by done. cbn [mbind outcome_bind].
  destruct (entry (links t) rank peer) as [c|] eqn:He; cbn [mbind outcome_bind]; [|by apply IH].
  rewrite link_transfer_time_ns_ok by (done || by eapply matrix_values; [apply Hok|]). cbn [mbind outcome_bind].
  destruct (_ <=? threshold); [|by apply IH].
  destruct (IH (<[peer := true]> visited) (peer :: pending)) as (v' & p' & -> & Hf' & Hin);
    [by apply flooding_push|].
  exists v', p'. split; [done|]. split; [done|]. intros i Hi. apply Hin. by right.
Qed.

Lemma component_ok {E} fuel done visited pending group :
  flooding (done ++ group) visited pending -> (w <= fuel + length (done ++ group))%nat ->
  exists visited' group', component (E:=E) fuel t payload_bytes threshold visited pending group =
    Ok (visited', group') /\ flooding (done ++ group') visited' [] /\
    (forall i, i ∈ pending -> i ∈ group') /\ (forall i, i ∈ group -> i ∈ group').
Proof using Hok Hpayload.
  revert visited pending group. induction fuel as [|fuel IH]; intros visited pending group Hf Hfuel;
    (destruct pending as [|rank pending]; cbn [component];
     [exists visited, group; split; [done|]; split; [done|]; split; [by intros i ?%not_elem_of_nil|done]|]).
  { pose proof (flooding_bound _ _ _ Hf). cbn in *. lia. }
  assert (Hrank : (rank < w)%nat).
  { apply (proj1 (Forall_forall _ _) (flooding_range _ _ _ Hf)). apply elem_of_app. right. by left. }
  destruct (push_fast_peers_ok (E:=E) rank (done ++ group ++ [rank]) visited pending Hrank) as
    (v' & p' & -> & Hf' & Hin).
  { eapply flooding_Permutation; [|exact Hf]. by rewrite <- !app_assoc. }
  cbn [mbind outcome_bind].
  destruct (IH v' p' (group ++ [rank])) as (v'' & g'' & -> & Hf'' & Hp'' & Hg'').
  - done.
  - rewrite !length_app in *. cbn. lia.
  - exists v'', g''. split; [done|]. split; [done|]. split.
    + intros i [->|Hi]%elem_of_cons; [apply Hg'', elem_of_app; right; by left|by apply Hp'', Hin].
    + intros i Hi. apply Hg'', elem_of_app. by left.
Qed.

Lemma components_ok {E} :
  exists groups, components (E:=E) t payload_bytes threshold = Ok groups /\
    Forall (fun group => group <> []) groups /\ concat groups ≡ₚ seq 0 w.
Proof using Hok Hpayload.
  unfold components.
  set (step := fun '((visited, groups) : list bool * list (list nat)) first_rank => _).
  assert (Hgen : forall n, (n <= w)%nat -> exists visited groups,
    foldM step (replicate w false, []) (seq 0 n) = Ok (E:=E) (visited, groups) /\
    flooding (concat groups) visited [] /\ Forall (fun group => group <> []) groups /\
    forall i, (i < n)%nat -> i ∈ concat groups).
  { induction n as [|n IH]; intros Hn.
    { exists (replicate w false), []. split; [done|]. split_and!; [|constructor|lia].
      split; [apply length_replicate|constructor|constructor|]. intros i Hi.
      rewrite lookup_total_replicate_2 by done. done. }
    destruct (IH ltac:(lia)) as (visited & groups & Hf & Hfl & Hne & Hcov).
    rewrite seq_S, foldM_app, Hf. cbn [mbind outcome_bind foldM step Nat.add].
    destruct (visited !!! n) eqn:Hv; cbn [mbind outcome_bind].
    { exists visited, groups. split_and!; try done. intros i Hi. destruct (decide (i = n)) as [->|]; [|apply Hcov; lia].
      rewrite (flooding_marks _ _ _ Hfl) in Hv by lia. rewrite app_nil_r in Hv. by apply bool_decide_eq_true in Hv. }
    destruct (component_ok (E:=E) w (concat groups) (<[n := true]> visited) [n] []) as (v' & g' & Hc & Hf' & Hin & _).
    { rewrite app_nil_r. apply flooding_push; [done|lia|done]. }
    { lia. }
    rewrite Hc. cbn [mbind outcome_bind]. exists v', (groups ++ [sort_ranks g']).
    assert (Hcat : concat (groups ++ [sort_ranks g']) ≡ₚ concat groups ++ g').
    { rewrite concat_app. cbn. rewrite app_nil_r. apply Permutation_app_head, merge_sort_Permutation. }
    split; [done|]. split_and!.
    - eapply flooding_Permutation; [|exact Hf']. by rewrite !app_nil_r, Hcat.
    - apply Forall_app. split; [done|]. apply Forall_singleton. intros Hnil.
      assert (Hn' : n ∈ sort_ranks g') by (unfold sort_ranks; rewrite merge_sort_Permutation; apply Hin; by left).
      rewrite Hnil in Hn'. by apply not_elem_of_nil in Hn'.
    - intros i Hi. rewrite Hcat, elem_of_app. destruct (decide (i = n)) as [->|]; [right; apply Hin; by left|].
      left. apply Hcov. lia. }
  destruct (Hgen w ltac:(done)) as (visited & groups & Hf & Hfl & Hne & Hcov).
  exists groups. split; [by rewrite Hf|]. split; [done|].
  destruct Hfl as [_ Hnd Hr _]. rewrite app_nil_r in Hnd, Hr.
  apply NoDup_Permutation; [done|apply NoDup_seq|]. intros i. rewrite elem_of_seq. split.
  - intros Hi. pose proof (proj1 (Forall_forall _ _) Hr i Hi) as Hlt. cbn in Hlt. lia.
  - intros [_ Hi]. by apply Hcov.
Qed.
End flood.

(** ** Leaders and their cycle *)
Lemma min_by_tuple_elem {A} (key : A -> list Z) l x : min_by_tuple key l = Some x -> x ∈ l.
Proof.
  unfold min_by_tuple.
  assert (Hgen : forall best, foldl (fun best x => match best with
      | Some b => if lex_ltb (key x) (key b) then Some x else Some b | None => Some x end) best l = Some x ->
    x ∈ l \/ best = Some x).
  { induction l as [|a l IH]; intros best; cbn [foldl]; [by right|]. intros [Hin|Hin]%IH; [left; by right|].
    destruct best as [b|]; [destruct (lex_ltb _ _)|]; try (by right); injection Hin as ->; left; by left. }
  intros Hf. by destruct (Hgen None Hf) as [?|[=]].
Qed.

Lemma swap_front_ok l p :
  (p < length l)%nat -> exists l', swap_front l p = Ok l' /\ l' ≡ₚ l.
Proof.
  intros Hp. unfold swap_front, index.
  destruct l as [|a l]; [cbn in Hp; lia|]. cbn [lookup list_lookup expect mbind outcome_bind].
  destruct (lookup_lt_is_Some_2 (a :: l) p Hp) as [b Hb].
  rewrite Hb. cbn [expect mbind outcome_bind]. eexists. split; [done|].
  destruct p as [|q]; [by injection Hb as ->|]. cbn in Hb.
  assert (Hins : <[S q := a]> (<[0%nat := b]> (a :: l)) = b :: <[q := a]> l) by done. rewrite Hins.
  rewrite insert_take_drop by (by eapply lookup_lt_Some).
  rewrite <- (take_drop_middle l q b Hb) at 3. rewrite <- !Permutation_middle. constructor 3.
Qed.

Lemma sort_ranks_Permutation l : sort_ranks l ≡ₚ l.
Proof. apply merge_sort_Permutation. Qed.

(** The state of the search for the best cycle. *)
Section cycle_search.
Context (t : CollectiveTopology) (bytes : Z) (ranks : list nat).
Abbreviation n := (length ranks).

(** The cycles a prefix can be completed to. *)
Definition cycle_of (order r : list nat) : Prop :=
  exists rest, r = order ++ rest /\ r ≡ₚ seq 0 n.

Abbreviation tuple s := [s.1; s.2].

(** What the search makes of the best cycle so far. *)
Definition improves (best best' : option ((Z * Z) * list nat)) (Q : list nat -> Prop) : Prop :=
  (best' = best \/ exists s r, best' = Some (s, r) /\ Q r /\ cycle_score t ranks bytes r = Ok s) /\
  (forall s r, Q r -> cycle_score t ranks bytes r = Ok s ->
     exists s' r', best' = Some (s', r') /\ key_le (tuple s') (tuple s)) /\
  (forall s r, best = Some (s, r) -> exists s' r', best' = Some (s', r') /\ key_le (tuple s') (tuple s)).

Lemma improves_trans best best1 best2 (Q1 Q2 Q : list nat -> Prop) :
  improves best best1 Q1 -> improves best1 best2 Q2 -> (forall r, Q r <-> Q1 r \/ Q2 r) -> improves best best2 Q.
Proof using Type.
  intros (Ho1 & Hb1 & Hm1) (Ho2 & Hb2 & Hm2) HQ. split_and!.
  - destruct Ho2 as [->|(s & r & -> & Hq & Hs)]; [|right; exists s, r; split_and!; [done|apply HQ; by right|done]].
    destruct Ho1 as [->|(s & r & -> & Hq & Hs)]; [by left|right; exists s, r; split_and!; [done|apply HQ; by left|done]].
  - intros s r [Hq|Hq]%HQ Hs; [|by eapply Hb2].
    destruct (Hb1 s r Hq Hs) as (s1 & r1 & Hb & Hle). destruct (Hm2 s1 r1 Hb) as (s2 & r2 & Hb' & Hle').
    exists s2, r2. split; [done|]. by eapply key_le_trans.
  - intros s r Hb. destruct (Hm1 s r Hb) as (s1 & r1 & Hb' & Hle). destruct (Hm2 s1 r1 Hb') as (s2 & r2 & Hb'' & Hle').
    exists s2, r2. split; [done|]. by eapply key_le_trans.
Qed.

Lemma improves_none best : improves best best (fun _ => False).
Proof using Type.
  split_and!; [by left|done|]. intros s r Hb. exists s, r. split; [done|]. apply key_le_refl.
Qed.

Lemma improves_ext best best' (Q Q' : list nat -> Prop) :
  (forall r, Q r <-> Q' r) -> improves best best' Q -> improves best best' Q'.
Proof using Type.
  intros HQ Hi. eapply (improves_trans best best best' (fun _ => False) Q); [apply improves_none|done|].
  intros r. rewrite <- HQ. tauto.
Qed.

Lemma better_cycle_improves order best s :
  cycle_score t ranks bytes order = Ok s ->
  improves best (if better_cycle s order best then Some (s, order) else best) (fun r => r = order).
Proof using Type.
  intros Hs. destruct (better_cycle s order best) eqn:Hb; split_and!.
  - right. by exists s, order.
  - intros s' r -> Hs'. exists s, order. split; [done|]. rewrite Hs in Hs'. injection Hs' as ->. apply key_le_refl.
  - intros s' r ->. exists s, order. split; [done|]. unfold better_cycle in Hb. apply orb_true_iff in Hb as [Hb|Hb].
    + by apply lex_ltb_true.
    + apply andb_true_iff in Hb as [->%bool_decide_eq_true _]. apply key_le_refl.
  - by left.
  - intros s' r -> Hs'. rewrite Hs in Hs'. injection Hs' as ->. unfold better_cycle in Hb.
    destruct best as [[s0 r0]|]; [|done]. exists s0, r0. split; [done|].
    apply orb_false_iff in Hb as [Hb _]. by apply lex_ltb_false.
  - intros s' r ->. exists s', r. split; [done|]. apply key_le_refl.
Qed.

Lemma foldM_improves {A} (f : option ((Z * Z) * list nat) -> A -> maybe (option ((Z * Z) * list nat)))
    (Q : A -> list nat -> Prop) l best :
  (forall x best, x ∈ l -> exists best', f best x = Ok best' /\ improves best best' (Q x)) ->
  exists best', foldM f best l = Ok best' /\ improves best best' (fun r => exists x, x ∈ l /\ Q x r).
Proof using Type.
  revert best. induction l as [|x l IH]; intros best Hf; cbn [foldM].
  { exists best. split; [done|]. eapply improves_ext; [|apply improves_none].
    intros r. split; [done|]. by intros (x & ?%not_elem_of_nil & _). }
  destruct (Hf x best ltac:(by left)) as (b1 & -> & H1). cbn [mbind outcome_bind].
  destruct (IH b1) as (b2 & -> & H2); [intros y b Hy; apply Hf; by right|].
  exists b2. split; [done|]. eapply improves_trans; [exact H1|exact H2|].
  intros r. split.
  - intros (y & [->|Hy]%elem_of_cons & HQ); [by left|right; by exists y].
  - intros [HQ|(y & Hy & HQ)]; [exists x; split; [by left|done]|exists y; split; [by right|done]].
Qed.

Definition marked (used : list bool) (order : list nat) : Prop :=
  length used = n /\ forall i, (i < n)%nat -> used !! i = Some (bool_decide (i ∈ order)).

Lemma marked_push used order c :
  marked used order -> (c < n)%nat -> marked (<[c := true]> used) (order ++ [c]).
Proof using Type.
  intros [Hl Hm] Hc. split; [by rewrite length_insert|]. intros i Hi.
  destruct (decide (i = c)) as [->|Hne].
  - rewrite list_lookup_insert_eq by lia. rewrite bool_decide_true; [done|]. apply elem_of_app. right. by left.
  - rewrite list_lookup_insert_ne, Hm by done. do 2 f_equal. apply bool_decide_ext.
    rewrite elem_of_app, list_elem_of_singleton. tauto.
Qed.

Lemma NoDup_push (order : list nat) c : NoDup order -> c ∉ order -> NoDup (order ++ [c]).
Proof using Type.
  intros Hnd Hc. apply NoDup_app. split; [done|]. split; [|apply NoDup_singleton].
  by intros x Hx ->%list_elem_of_singleton.
Qed.

Lemma initial_marked : (0 < n)%nat -> marked (<[0%nat := true]> (replicate n false)) [0%nat].
Proof using Type.
  intros Hn. split; [by rewrite length_insert, length_replicate|]. intros i Hi.
  destruct (decide (i = 0%nat)) as [->|Hne].
  - rewrite list_lookup_insert_eq by (by rewrite length_replicate). done.
  - rewrite list_lookup_insert_ne, lookup_replicate_2 by done. rewrite bool_decide_false; [done|].
    by intros ->%list_elem_of_singleton.
Qed.

End cycle_search.

Section leaders.
Context (t : CollectiveTopology) (Hok : topology_ok t) (bytes : Z) (Hbytes : 0 <= bytes < 2 ^ 64).
Abbreviation w := (world_size t).

Lemma to_option_no_panic {E A} (m : maybe A) : no_panic m -> exists o, to_option (E:=E) m = Ok o.
Proof using Type. destruct m; cbn; [eauto|eauto|done]. Qed.

Lemma within_no_panic group a b :
  Forall (fun i => (i < w)%nat) group -> a ∈ group -> b ∈ group ->
  no_panic (shortest_transfer_time_ns_within t a b bytes group).
Proof using Hok Hbytes.
  intros Hg Ha Hb. pose proof (within_routes t Hok a b bytes group Hg Ha Hb Hbytes) as Hr.
  by destruct (shortest_transfer_time_ns_within _ _ _ _ _).
Qed.

(** A led group has the same members. *)
Lemma lead_group_ok group :
  Forall (fun i => (i < w)%nat) group ->
  no_panic (lead_group t bytes group) /\ forall led, lead_group t bytes group = Ok led -> led ≡ₚ group.
Proof using Hok Hbytes.
  intros Hg. unfold lead_group.
  destruct (mapM_total (fun candidate =>
      total ← to_option (total_cost (fun rank =>
          shortest_transfer_time_ns_within t candidate rank bytes group) group);
      Ok (E:=unit) (option_map (fun total => (total, candidate)) total)) group) as [found Hfound].
  { intros c Hc.
    destruct (to_option_no_panic (E:=unit) (total_cost (fun rank =>
      shortest_transfer_time_ns_within t c rank bytes group) group)) as [o ->]; [|by eexists].
    apply (foldM_no_panic (fun _ => True)); [done|]. intros s x _ Hx. split; [|done].
    apply bind_no_panic; [by apply within_no_panic|done]. }
  rewrite Hfound. cbn [mbind outcome_bind].
  destruct (min_by_tuple _ _) as [[total leader]|] eqn:Hmin; cbn [ok_or mbind outcome_bind snd]; [|done].
  assert (Hl : leader ∈ sort_ranks group).
  { rewrite sort_ranks_Permutation. apply min_by_tuple_elem, list_elem_of_omap in Hmin as (o & Ho & Hid).
    cbn in Hid. subst o. apply mapM_Ok in Hfound. apply list_elem_of_lookup in Ho as [i Hi].
    destruct (Forall2_lookup_r _ _ _ _ _ Hfound Hi) as (c & Hc & Hbody). cbn in Hbody. inv_ok.
    destruct v; [|done]. cbn in Hbody. injection Hbody as _ <-. by eapply list_elem_of_lookup_2. }
  destruct (list_find_elem_of (fun rank => rank = leader) _ _ Hl eq_refl) as [[p x] Hf]. rewrite Hf.
  apply list_find_Some in Hf as (Hlk & _ & _). cbn [ok_or mbind outcome_bind fst].
  destruct (swap_front_ok (sort_ranks group) p) as (led & Hs & Hperm); [by eapply lookup_lt_Some|].
  rewrite Hs. split; [done|]. intros led' [= <-]. by rewrite Hperm, sort_ranks_Permutation.
Qed.

(** ** Cycles over positions *)
Section cycles.
Context (ranks : list nat) (Hranks : Forall (fun i => (i < w)%nat) ranks).
Abbreviation n := (length ranks).

Lemma shortest_ok i j :
  (i < n)%nat -> (j < n)%nat -> exists a b, ranks !! i = Some a /\ ranks !! j = Some b /\
    no_panic (shortest_transfer_time_ns t a b bytes).
Proof using Hok Hbytes Hranks.
  intros Hi Hj. destruct (lookup_lt_is_Some_2 ranks i Hi) as [a Ha].
  destruct (lookup_lt_is_Some_2 ranks j Hj) as [b Hb]. exists a, b. split; [done|]. split; [done|].
  pose proof (proj1 (Forall_lookup _ _) Hranks _ _ Ha) as Hal.
  pose proof (proj1 (Forall_lookup _ _) Hranks _ _ Hb) as Hbl.
  pose proof (shortest_routes t Hok None a b bytes Hal Hbl Hbytes) as Hr.
  unfold shortest_transfer_time_ns. by destruct (shortest_transfer_time_ns_for_rail _ _ _ _ _).
Qed.

Lemma cycle_score_no_panic order :
  Forall (fun i => (i < n)%nat) order -> no_panic (cycle_score t ranks bytes order).
Proof using Hok Hbytes Hranks.
  intros Ho. apply (foldM_no_panic (fun _ => True)); [done|]. intros [mx tt] [i j] _ Hij. split; [|done].
  assert (Hlt : (i < n)%nat /\ (j < n)%nat).
  { unfold ring_pairs in Hij. apply list_elem_of_fmap in Hij as (k & [= -> ->] & Hk%elem_of_seq).
    split; apply (proj1 (Forall_forall _ _) Ho), list_elem_of_lookup_total_2; [lia|].
    apply Nat.mod_upper_bound. lia. }
  destruct (shortest_ok i j) as (a & b & Ha & Hb & Hn); [apply Hlt|apply Hlt|].
  unfold index. rewrite Ha, Hb. cbn [expect mbind outcome_bind]. by apply bind_no_panic.
Qed.

Lemma collect_rank_cycles_ok k fuel order used best :
  (k <= fuel)%nat -> (length order + k = n)%nat -> NoDup order -> Forall (fun i => (i < n)%nat) order ->
  0%nat ∈ order -> marked ranks used order ->
  exists best', collect_rank_cycles fuel t ranks bytes order used best = Ok best' /\
    improves t bytes ranks best best' (cycle_of ranks order).
Proof using Hok Hbytes Hranks.
  revert fuel order used best. induction k as [|k IH]; intros fuel order used best Hfuel Hlen Hnd Hall H0 Hm.
  - assert (Hdone : (length order =? n)%nat = true) by (apply Nat.eqb_eq; lia).
    assert (Hbody : collect_rank_cycles fuel t ranks bytes order used best =
      match cycle_score t ranks bytes order with
      | Ok score => Ok (if better_cycle score order best then Some (score, order) else best)
      | Err _ => Ok best | Panic => Panic end).
    { destruct fuel; cbn [collect_rank_cycles]; by rewrite Hdone. }
    rewrite Hbody. clear Hbody. pose proof (cycle_score_no_panic order Hall) as Hn.
    assert (Honly : forall r, cycle_of ranks order r <-> r = order).
    { intros r. split.
      - intros (rest & -> & Hp). apply Permutation_length in Hp. rewrite length_app, length_seq in Hp.
        assert (rest = []) as -> by (apply nil_length_inv; lia). by rewrite app_nil_r.
      - intros ->. exists []. rewrite app_nil_r. split; [done|]. apply NoDup_below_Permutation; [done|done|lia]. }
    destruct (cycle_score t ranks bytes order) as [s|e|] eqn:Hs; [| |done].
    + eexists. split; [done|]. eapply improves_ext; [|by apply better_cycle_improves].
      intros r. by rewrite Honly.
    + exists best. split; [done|]. split_and!; [by left| |].
      * intros s r ->%Honly Hs'. by rewrite Hs in Hs'.
      * intros s r Hb. exists s, r. split; [done|]. apply key_le_refl.
  - assert (Hmore : (length order =? n)%nat = false) by (apply Nat.eqb_neq; lia).
    destruct fuel as [|fuel]; [lia|]. cbn [collect_rank_cycles]. rewrite Hmore.
    destruct (foldM_improves t bytes ranks (fun best candidate =>
            seen ← index used candidate;
            if (seen : bool) then Ok best else
            collect_rank_cycles fuel t ranks bytes (order ++ [candidate]) (<[candidate := true]> used) best)
      (fun c r => (c ∉ order) /\ cycle_of ranks (order ++ [c]) r) (seq 1 (n - 1)) best) as (best' & -> & Himp).
    { intros c b Hc%elem_of_seq. destruct Hm as [Hml Hmm]. unfold index. rewrite Hmm by lia. cbn [expect mbind outcome_bind].
      case_bool_decide as Hin.
      { exists b. split; [done|]. eapply improves_ext; [|apply improves_none]. tauto. }
      destruct (IH fuel (order ++ [c]) (<[c := true]> used) b) as (b' & -> & Hi).
      - lia.
      - rewrite length_app. cbn. lia.
      - by apply NoDup_push.
      - apply Forall_app. split; [done|]. apply Forall_singleton. lia.
      - apply elem_of_app. by left.
      - apply marked_push; [done|lia].
      - exists b'. split; [done|]. eapply improves_ext; [|exact Hi]. tauto. }
    exists best'. split; [done|]. eapply improves_ext; [|exact Himp]. intros r. split.
    + intros (c & Hc & Hni & rest & -> & Hp). exists (c :: rest). by rewrite <- app_assoc in *.
    + intros (rest & -> & Hp). destruct rest as [|c rest].
      { exfalso. rewrite app_nil_r in Hp. apply Permutation_length in Hp. rewrite length_seq in Hp. lia. }
      pose proof (Permutation_seq_below _ _ Hp) as (Hnd' & Hall' & _).
      assert (Hni : c ∉ order).
      { apply NoDup_app in Hnd' as (_ & Hd & _). intros Hin. apply (Hd c Hin). by left. }
      apply Forall_app in Hall' as [_ [Hc _]%Forall_cons].
      exists c. split; [|split; [done|exists rest; by rewrite <- app_assoc]].
      apply elem_of_seq. split; [|lia]. destruct c; [done|lia].
Qed.

Lemma nearest_rank_ok used current :
  (current < n)%nat -> no_panic (nearest_rank t ranks bytes used current) /\
  forall next, nearest_rank t ranks bytes used current = Ok next -> (next < n)%nat /\ used !!! next = false.
Proof using Hok Hbytes Hranks.
  intros Hc. unfold nearest_rank.
  match goal with |- context [mapM ?f ?l] =>
    destruct (mapM_total f l) as [found Hfound] end.
  { intros c [_ Hx%elem_of_seq]%list_elem_of_filter.
    destruct (shortest_ok current c) as (a & b & Ha & Hb & Hn); [done|lia|].
    unfold index. rewrite Ha, Hb. cbn [expect mbind outcome_bind].
    destruct (to_option_no_panic (E:=unit) _ Hn) as [o ->]. by eexists. }
  rewrite Hfound. cbn [mbind outcome_bind].
  destruct (min_by_tuple _ _) as [[[cost rank] candidate]|] eqn:Hmin; cbn [ok_or mbind outcome_bind snd]; [|done].
  split; [done|]. intros next [= <-].
  apply min_by_tuple_elem, list_elem_of_omap in Hmin as (o & Ho & Hid). cbn in Hid. subst o.
  apply mapM_Ok in Hfound. apply list_elem_of_lookup in Ho as [i Hi].
  destruct (Forall2_lookup_r _ _ _ _ _ Hfound Hi) as (c & Hcl & Hbody). cbn in Hbody. inv_ok.
  destruct v1; [|done]. cbn in Hbody. injection Hbody as _ _ <-.
  apply list_elem_of_lookup_2, list_elem_of_filter in Hcl as [Hu Hs%elem_of_seq]. split; [lia|done].
Qed.

Lemma greedy_cycle_ok k fuel order used :
  (k <= fuel)%nat -> (length order + k = n)%nat -> order <> [] -> NoDup order ->
  Forall (fun i => (i < n)%nat) order -> marked ranks used order ->
  no_panic (greedy_cycle fuel t ranks bytes order used) /\
  forall r, greedy_cycle fuel t ranks bytes order used = Ok r -> r ≡ₚ seq 0 n.
Proof using Hok Hbytes Hranks.
  revert fuel order used. induction k as [|k IH]; intros fuel order used Hfuel Hlen Hne Hnd Hall Hm.
  { assert (Hdone : (n <=? length order)%nat = true) by (apply Nat.leb_le; lia).
    assert (Hbody : greedy_cycle fuel t ranks bytes order used = Ok order)
      by (destruct fuel; cbn [greedy_cycle]; by rewrite Hdone).
    rewrite Hbody. split; [done|]. intros r [= <-]. apply NoDup_below_Permutation; [done|done|lia]. }
  assert (Hmore : (n <=? length order)%nat = false) by (apply Nat.leb_gt; lia).
  destruct fuel as [|fuel]; [lia|]. cbn [greedy_cycle]. rewrite Hmore.
  destruct (last order) as [current|] eqn:Hcur; [|by apply last_None in Hcur]. cbn [ok_or mbind outcome_bind].
  assert (Hc : (current < n)%nat) by (apply (proj1 (Forall_forall _ _) Hall), last_Some_elem_of, Hcur).
  destruct (nearest_rank_ok used current Hc) as [Hnp Hnext].
  destruct (nearest_rank t ranks bytes used current) as [next|e|] eqn:Hnr; cbn [mbind outcome_bind]; [| |done].
  - destruct (Hnext next eq_refl) as [Hlt Hu].
    assert (Hni : next ∉ order).
    { intros Hin. destruct Hm as [_ Hm]. specialize (Hm next Hlt). rewrite bool_decide_true in Hm by done.
      rewrite list_lookup_total_alt, Hm in Hu. done. }
    apply IH.
    + lia.
    + rewrite length_app. cbn. lia.
    + by destruct order.
    + by apply NoDup_push.
    + apply Forall_app. by rewrite Forall_singleton.
    + by apply marked_push.
  - split; [done|]. by intros r [=].
Qed.

Lemma best_rank_cycle_order_ok :
  no_panic (best_rank_cycle_order t ranks bytes) /\
  forall order, best_rank_cycle_order t ranks bytes = Ok order -> order ≡ₚ seq 0 n.
Proof using Hok Hbytes Hranks.
  unfold best_rank_cycle_order. destruct (Nat.eqb_spec n 0) as [H0|H0]; [by split|].
  destruct (Nat.eqb_spec n 1) as [H1|H1]; [split; [done|]; intros order [= <-]; by rewrite H1|].
  destruct (n <=? EXACT_RING_SEARCH_MAX_RANKS)%nat.
  - destruct (collect_rank_cycles_ok (n - 1) n [0%nat] (<[0%nat := true]> (replicate n false)) None)
      as (best & -> & Ho & _ & _).
    + lia.
    + cbn. lia.
    + apply NoDup_singleton.
    + apply Forall_singleton. lia.
    + by left.
    + apply initial_marked. lia.
    + cbn [mbind outcome_bind]. destruct best as [[s r]|]; cbn [ok_or mbind outcome_bind snd]; [|done].
      split; [done|]. intros order [= <-]. destruct Ho as [[=]|(s' & r' & [= <- <-] & (rest & _ & Hp) & _)]. done.
  - destruct (greedy_cycle_ok (n - 1) n [0%nat] (<[0%nat := true]> (replicate n false))) as [Hnp Hp].
    + lia.
    + cbn. lia.
    + done.
    + apply NoDup_singleton.
    + apply Forall_singleton. lia.
    + apply initial_marked. lia.
    + destruct (greedy_cycle _ _ _ _ _ _) as [order|e|]; cbn [mbind outcome_bind]; [|done|done].
      specialize (Hp order eq_refl). pose proof (Permutation_seq_below _ _ Hp) as (_ & Hall & Hlen).
      destruct order as [|o order]; [cbn in Hlen; lia|]. rewrite last_of_cons. cbn [ok_or mbind outcome_bind].
      set (final := default o (last order)).
      assert (Hfinal : (final < n)%nat).
      { apply (proj1 (Forall_forall _ _) Hall). unfold final. destruct (last order) eqn:Hl; cbn; [|by left].
        right. by apply last_Some_elem_of. }
      apply Forall_cons in Hall as [Ho _].
      destruct (shortest_ok final o Hfinal Ho) as (a & b & Ha & Hb & Hn).
      rewrite (proj2 (index_Ok ranks final a) Ha). cbn [mbind outcome_bind].
      change (index (o :: order) 0) with (Ok (E:=unit) o). cbn [mbind outcome_bind].
      rewrite (proj2 (index_Ok ranks o b) Hb). cbn [mbind outcome_bind].
      destruct (shortest_transfer_time_ns t a b bytes); cbn [mbind outcome_bind]; [|done|done].
      split; [done|]. by intros r [= <-].
Qed.
End cycles.

Lemma concat_Permutation (l k : list (list nat)) : Forall2 Permutation l k -> concat l ≡ₚ concat k.
Proof using Type. induction 1; cbn; [done|]. by apply Permutation_app. Qed.

Lemma concat_reordered (l k : list (list nat)) : l ≡ₚ k -> concat l ≡ₚ concat k.
Proof using Type.
  induction 1 as [|x l k _ IH|x y l|l k m _ IH1 _ IH2]; cbn; [done|by rewrite IH| |by rewrite IH1].
  rewrite !app_assoc. apply Permutation_app_tail, Permutation_app_comm.
Qed.

(** Optimizing a hierarchy permutes it. *)
Lemma optimize_hierarchy_ok groups :
  hierarchy_ok w groups ->
  no_panic (optimize_hierarchy t groups bytes) /\
  forall optimized, optimize_hierarchy t groups bytes = Ok optimized -> hierarchy_ok w optimized.
Proof using Hok Hbytes.
  intros (Hlen & Hne & Hp). unfold optimize_hierarchy.
  assert (Hall : Forall (fun group => Forall (fun i => (i < w)%nat) group) groups).
  { apply Permutation_seq_below in Hp as (_ & Hall & _). apply Forall_forall. intros group Hg.
    apply Forall_forall. intros i Hi. apply (proj1 (Forall_forall _ _) Hall).
    apply list_elem_of_In, in_concat. exists group. by rewrite <- !list_elem_of_In. }
  assert (Hnp : no_panic (mapM (lead_group t bytes) groups)).
  { apply mapM_no_panic. eapply Forall_impl; [exact Hall|]. intros group Hg. by apply lead_group_ok. }
  destruct (mapM (lead_group t bytes) groups) as [led|e|] eqn:Hled; cbn [mbind outcome_bind]; [|by split|done].
  apply mapM_Ok in Hled.
  assert (Hperm : Forall2 Permutation led groups).
  { apply Forall2_flip. apply Forall2_same_length_lookup. split; [by eapply Forall2_length|].
    intros i x y Hx Hy. cbn. apply (lead_group_ok x); [by apply (proj1 (Forall_lookup _ _) Hall _ _ Hx)|].
    by apply (Forall2_lookup_lr _ _ _ _ _ _ Hled Hx Hy). }
  assert (Hled_ne : Forall (fun group => group <> []) led).
  { apply Forall_lookup. intros i x Hx. destruct (Forall2_lookup_l _ _ _ _ _ Hperm Hx) as (y & Hy & Hxy).
    intros Hx0. rewrite Hx0 in Hxy. apply Permutation_nil_l in Hxy.
    apply (proj1 (Forall_lookup _ _) Hne _ _ Hy). by rewrite Hxy. }
  destruct (mapM_total (E:=unit) (fun group => index group 0) led) as [leaders Hleaders].
  { intros group Hg. pose proof (proj1 (Forall_forall _ _) Hled_ne group Hg) as Hgn.
    destruct group as [|x group]; [done|]. by exists x. }
  rewrite Hleaders. cbn [mbind outcome_bind]. apply mapM_Ok in Hleaders.
  pose proof (Forall2_length _ _ _ Hleaders) as Hll. pose proof (Forall2_length _ _ _ Hperm) as Hlp.
  assert (Hcat : concat led ≡ₚ seq 0 w) by (rewrite <- Hp; by apply concat_Permutation).
  destruct (best_rank_cycle_order_ok leaders) as [Hbn Hbp].
  { apply Forall_lookup. intros i x Hx. destruct (Forall2_lookup_r _ _ _ _ _ Hleaders Hx) as (g & Hg & Hg0).
    apply index_Ok in Hg0. apply Permutation_seq_below in Hcat as (_ & Hc & _).
    apply (proj1 (Forall_forall _ _) Hc), list_elem_of_In, in_concat. exists g.
    rewrite <- !list_elem_of_In. split; by eapply list_elem_of_lookup_2. }
  destruct (best_rank_cycle_order t leaders bytes) as [order|e|]; cbn [mbind outcome_bind]; [|by split|done].
  specialize (Hbp order eq_refl). pose proof (Permutation_seq_below _ _ Hbp) as (_ & Ho & Hol).
  destruct (mapM_total (E:=unit) (fun i => index led i) order) as [optimized Hopt].
  { intros i Hi. pose proof (proj1 (Forall_forall _ _) Ho i Hi) as Hil. cbn in Hil.
    destruct (lookup_lt_is_Some_2 led i ltac:(lia)) as [g Hg]. exists g. by apply index_Ok. }
  rewrite Hopt. split; [done|]. intros optimized' [= <-]. apply mapM_Ok in Hopt.
  assert (Hpo : optimized ≡ₚ led).
  { assert (Hmap : optimized = map (fun i => led !!! i) order).
    { apply list_eq_Forall2. apply Forall2_fmap_r. apply Forall2_flip. eapply Forall2_impl; [exact Hopt|].
      intros i g Hg%index_Ok. cbn. by rewrite (list_lookup_total_correct _ _ _ Hg). }
    rewrite Hmap. transitivity (map (fun i => led !!! i) (seq 0 (length leaders))); [by apply Permutation_map|]. rewrite <- Hll.
    cut (map (fun i => led !!! i) (seq 0 (length led)) = led); [by intros ->|].
    apply list_eq. intros i. rewrite list_lookup_fmap.
    destruct (decide (i < length led)%nat) as [Hi|Hi].
    - rewrite lookup_seq_lt by lia. cbn. symmetry. by apply list_lookup_lookup_total_lt.
    - rewrite lookup_seq_ge, lookup_ge_None_2 by lia. done. }
  split; [|split].
  - rewrite Hpo. lia.
  - by rewrite Hpo.
  - rewrite <- Hcat. by apply concat_reordered.
Qed.
End leaders.

(** ** The candidates *)
Section candidates.
Context (t : CollectiveTopology) (Hok : topology_ok t).
Abbreviation w := (world_size t).

Lemma add_hierarchy_ok payload_bytes threshold candidates :
  0 <= payload_bytes < 2 ^ 64 -> NoDup candidates -> Forall (hierarchy_ok w) candidates ->
  exists candidates', add_hierarchy (E:=TopologyError) t payload_bytes candidates threshold = Ok candidates' /\
    NoDup candidates' /\ Forall (hierarchy_ok w) candidates'.
Proof using Hok.
  intros Hb Hnd Hall. unfold add_hierarchy.
  destruct (components_ok (E:=TopologyError) t Hok payload_bytes threshold Hb) as (groups & -> & Hne & Hp).
  cbn [mbind outcome_bind]. set (sorted := merge_sort front_le groups).
  assert (Hs : sorted ≡ₚ groups) by apply merge_sort_Permutation.
  destruct (_ || _) eqn:Hskip; cbn [mbind outcome_bind]; [by exists candidates|].
  apply orb_false_iff in Hskip as [[Hlen _]%orb_false_iff _]. apply Nat.ltb_ge in Hlen.
  assert (Hgroups : hierarchy_ok w sorted).
  { split; [done|]. split; [by rewrite Hs|]. rewrite <- Hp. by apply concat_reordered. }
  destruct (optimize_hierarchy_ok t Hok payload_bytes Hb sorted Hgroups) as [Hnp Hopt].
  destruct (optimize_hierarchy t sorted payload_bytes) as [optimized|e|]; cbn [to_option mbind outcome_bind];
    [|by exists candidates|done].
  case_bool_decide as Hin; [by exists candidates|]. exists (candidates ++ [optimized]).
  split; [done|]. split.
  - apply NoDup_app. split; [done|]. split; [|apply NoDup_singleton]. by intros x Hx ->%list_elem_of_singleton.
  - apply Forall_app. split; [done|]. apply Forall_singleton. by apply Hopt.
Qed.

Lemma hierarchy_candidates_sound payload_bytes :
  0 <= payload_bytes < 2 ^ 64 ->
  exists candidates, hierarchy_candidates (E:=TopologyError) t payload_bytes = Ok candidates /\
    NoDup candidates /\ Forall (fun groups => validate_hierarchy_groups w groups = Ok tt) candidates.
Proof using Hok.
  intros Hb. unfold hierarchy_candidates.
  destruct (mapM_total (E:=TopologyError) (fun '(first, second) =>
      found ← link t first second;
      match found with
      | Some l => time ← link_transfer_time_ns l payload_bytes; Ok (Some time)
      | None => Ok None
      end) (rank_pairs w)) as [times Htimes].
  { intros [i j] Hij%elem_of_rank_pairs. rewrite (link_ok t Hok) by lia. cbn [mbind outcome_bind].
    destruct (entry (links t) i j) as [c|] eqn:He; [|by eexists].
    rewrite link_transfer_time_ns_ok by (done || by eapply matrix_values; [apply Hok|]). by eexists. }
  rewrite Htimes. cbn [mbind outcome_bind]. clear Htimes.
  generalize (dedup_times (merge_sort Z.le (omap id times))). clear times. intros thresholds.
  assert (Hgen : forall candidates, NoDup candidates -> Forall (hierarchy_ok w) candidates ->
    exists candidates', foldM (add_hierarchy (E:=TopologyError) t payload_bytes) candidates thresholds = Ok candidates' /\
      NoDup candidates' /\ Forall (hierarchy_ok w) candidates').
  { induction thresholds as [|threshold thresholds IH]; intros candidates Hnd Hall; cbn [foldM];
      [by exists candidates|].
    destruct (add_hierarchy_ok payload_bytes threshold candidates Hb Hnd Hall) as (candidates' & -> & Hnd' & Hall').
    by apply IH. }
  destruct (Hgen [] ltac:(constructor) ltac:(constructor)) as (candidates & -> & Hnd & Hall).
  exists candidates. split; [done|]. split; [done|]. eapply Forall_impl; [exact Hall|].
  intros groups Hg. by apply validate_hierarchy_groups_Ok.
Qed.

(** Every inferred hierarchy is valid.  For any payload the inference never
    panics, and each of the distinct candidates it returns is accepted by
    [validate_hierarchy_groups]: two or more non-empty groups that contain
    every rank exactly once. *)
Theorem hierarchy_candidates_valid payload_bytes :
  0 <= payload_bytes < 2 ^ 64 ->
  exists candidates, hierarchy_candidates (E:=TopologyError) t payload_bytes = Ok candidates /\
    NoDup candidates /\ Forall (fun groups => validate_hierarchy_groups w groups = Ok tt) candidates.
Proof using Hok. apply hierarchy_candidates_sound. Qed.
End candidates.

(** ** An instance: two fast pairs joined by slow links *)
Definition two_pairs : tresult CollectiveTopology :=
  t ← uniform 4;
  t ← add_link t (mkLink 0 1 256000 100);
  add_link t (mkLink 2 3 256000 100).

Lemma two_pairs_ok t : two_pairs = Ok t -> topology_ok t.
Proof.
  intros H. unfold two_pairs in H. inv_ok. apply built_ok.
  refine (built_link _ _ _ (built_link _ _ _ _ _ Hv0) _ H); [|unfold metrics_typed; cbn; lia..].
  eapply built_uniform; [|exact Hv]. lia.
Qed.

Lemma hierarchy_candidates_valid_witness :
  exists t candidates, two_pairs = Ok t /\ hierarchy_candidates (E:=TopologyError) t 1048576 = Ok candidates /\
    candidates = [[[0; 1]; [2; 3]]]%nat /\
    Forall (fun groups => validate_hierarchy_groups (world_size t) groups = Ok tt) candidates.
Proof.
  destruct two_pairs as [t|e|] eqn:H; [|vm_compute in H; discriminate H..].
  destruct (hierarchy_candidates_valid t (two_pairs_ok t H) 1048576 ltac:(lia)) as (candidates & Hc & _ & Hall).
  exists t, candidates. split; [done|]. split; [done|]. split; [|done].
  vm_compute in H. injection H as <-. vm_compute in Hc. by injection Hc as <-.
Defined.
