(* ===== verification/TopologyText.v ===== *)
(** * Topology text and environment: src/src/rank/topology.rs

    The parsers of the [GX1_*] environment variables.  Strings are sequences of
    ASCII characters: [trim] and the case conversions treat the ASCII range as
    Rust does, and white space outside it is not modelled.  The environment is
    an argument: what [std::env::var] returns for each name. *)
From Stdlib Require Import Ascii String.
From stdpp Require Import sorting.
From S2P Require Import Prelude Comp Device Topology.

(** ** Strings *)
Definition is_whitespace (c : ascii) : bool :=
  let n := nat_of_ascii c in ((9 <=? n)%nat && (n <=? 13)%nat) || (n =? 32)%nat.

Fixpoint trim_start (s : string) : string :=
  match s with
  | String c s' => if is_whitespace c then trim_start s' else s
  | EmptyString => EmptyString
  end.

(** Trailing white space: dropped where nothing else follows. *)
Fixpoint trim_end (s : string) : string :=
  match s with
  | String c s' =>
      match trim_end s' with
      | EmptyString => if is_whitespace c then EmptyString else String c EmptyString
      | t => String c t
      end
  | EmptyString => EmptyString
  end.

Definition trim (s : string) : string := trim_end (trim_start s).

Fixpoint split (separator : ascii) (s : string) : list string :=
  match s with
  | EmptyString => [EmptyString]
  | String c s' =>
      if Ascii.eqb c separator then EmptyString :: split separator s'
      else match split separator s' with
           | first :: rest => String c first :: rest
           | [] => [String c EmptyString]
           end
  end.

Fixpoint split_once (separator : ascii) (s : string) : option (string * string) :=
  match s with
  | EmptyString => None
  | String c s' =>
      if Ascii.eqb c separator then Some (EmptyString, s')
      else option_map (fun '(before, after) => (String c before, after)) (split_once separator s')
  end.

Definition is_empty (s : string) : bool := match s with EmptyString => true | _ => false end.

Definition to_ascii_lowercase_char (c : ascii) : ascii :=
  let n := nat_of_ascii c in if (65 <=? n)%nat && (n <=? 90)%nat then ascii_of_nat (n + 32) else c.

Fixpoint to_ascii_lowercase (s : string) : string :=
  match s with
  | EmptyString => EmptyString
  | String c s' => String (to_ascii_lowercase_char c) (to_ascii_lowercase s')
  end.

Definition eq_ignore_ascii_case (a b : string) : bool :=
  bool_decide (to_ascii_lowercase a = to_ascii_lowercase b).

(** ** Numbers: [str::parse] of an unsigned type of [bits] bits

    An optional [+], then one or more digits; a value that does not fit is an
    error. *)
Definition digit (c : ascii) : option Z :=
  let n := nat_of_ascii c in
  if (48 <=? n)%nat && (n <=? 57)%nat then Some (Z.of_nat (n - 48)) else None.

Fixpoint parse_digits (bits acc : Z) (s : string) : option Z :=
  match s with
  | EmptyString => Some acc
  | String c s' =>
      d ← digit c;
      scaled ← checked_mul bits acc 10;
      acc' ← checked_add bits scaled d;
      parse_digits bits acc' s'
  end.

Definition parse_unsigned (bits : Z) (s : string) : option Z :=
  match s with
  | EmptyString => None
  | String c s' =>
      if Ascii.eqb c "+"%char
      then if is_empty s' then None else parse_digits bits 0 s'
      else parse_digits bits 0 s
  end.

Definition parse_index (bits : Z) (s : string) : option nat := option_map Z.to_nat (parse_unsigned bits s).

(** ** The environment *)
Inductive env_var := Present (value : string) | NotPresent | NotUnicode (lossy : string).
Definition environment := string -> env_var.

Definition invalid_environment {A} (name value : string) : tresult A := Err (InvalidEnvironment name value).

Definition parse_number_environment (bits : Z) (env : environment) (name : string) (default : Z) : tresult Z :=
  match env name with
  | Present value => ok_or (parse_unsigned bits value) (InvalidEnvironment name value)
  | NotPresent => Ok default
  | NotUnicode value => invalid_environment name value
  end.

Definition parse_usize_environment := parse_number_environment usize_bits.
Definition parse_u64_environment := parse_number_environment 64.

Definition parse_collective_transport_environment (env : environment) : tresult CollectiveTransport :=
  match env "GX1_COLLECTIVE_TRANSPORT"%string with
  | Present value =>
      let text := to_ascii_lowercase (trim value) in
      if existsb (String.eqb text) ["coordinator"; "tcp_coordinator"; "tcp_host_staged"]%string
      then Ok TcpHostStaged
      else if existsb (String.eqb text) ["peer"; "tcp_peer"]%string then Ok TcpPeer
      else invalid_environment "GX1_COLLECTIVE_TRANSPORT" value
  | NotPresent => Ok TcpHostStaged
  | NotUnicode value => invalid_environment "GX1_COLLECTIVE_TRANSPORT" value
  end.

Definition topology_probe_requested (env : environment) : tresult bool :=
  match env "GX1_TOPOLOGY_LINKS"%string with
  | Present value => Ok (eq_ignore_ascii_case (trim value) "probe")
  | NotPresent => Ok false
  | NotUnicode value => invalid_environment "GX1_TOPOLOGY_LINKS" value
  end.

(** ** Orders and groups *)

(** [value.split(',').map(|x| x.trim().parse())] *)
Definition parse_list (bits : Z) (name value : string) (parts : list string) : tresult (list nat) :=
  mapM (fun part => ok_or (parse_index bits (trim part)) (InvalidEnvironment name value)) parts.

Definition parse_ring_order (world_size : nat) (value : string) : tresult (list nat) :=
  order ← parse_list 32 "GX1_RING_ORDER" value (split ","%char value);
  _ ← validate_ring_order world_size order;
  Ok order.

Definition parse_rail_order (rail_count : nat) (value : string) : tresult (list nat) :=
  order ← parse_list usize_bits "GX1_RAIL_ORDER" value (split ","%char value);
  _ ← validate_rail_order rail_count order;
  Ok order.

Definition non_blank (s : string) : Prop := is_empty (trim s) = false.

Definition parse_hierarchy_groups (world_size : nat) (value : string) : tresult (list (list nat)) :=
  groups ← mapM (fun group => parse_list 32 "GX1_TOPOLOGY_GROUPS" value
                    (filter non_blank (split ","%char group)))
             (split ";"%char value);
  _ ← validate_hierarchy_groups world_size groups;
  Ok groups.

(** ** Links *)
Definition parse_topology_link (value encoded : string) : tresult TopologyLink :=
  let invalid := InvalidEnvironment "GX1_TOPOLOGY_LINKS" value in
  '(ranks, metrics) ← ok_or (split_once ":"%char (trim encoded)) invalid;
  '(first, second) ← ok_or (split_once "-"%char ranks) invalid;
  '(bandwidth, latency) ← ok_or (split_once ":"%char metrics) invalid;
  first ← ok_or (parse_index 32 (trim first)) invalid;
  second ← ok_or (parse_index 32 (trim second)) invalid;
  bandwidth ← ok_or (parse_unsigned 64 (trim bandwidth)) invalid;
  latency ← ok_or (parse_unsigned 64 (trim latency)) invalid;
  Ok (mkLink first second bandwidth latency).

Definition parse_topology_links (world_size : nat) (value : string) : tresult CollectiveTopology :=
  topology ← empty world_size;
  foldM (fun topology encoded => l ← parse_topology_link value encoded; add_link topology l)
    topology (filter non_blank (split ","%char value)).

Definition parse_topology_rail_link (value : string) (p2p_rails : nat) (encoded : string) :
    tresult TopologyRailLink :=
  let invalid := InvalidEnvironment "GX1_TOPOLOGY_RAIL_LINKS" value in
  '(rail, link) ← ok_or (split_once "@"%char (trim encoded)) invalid;
  rail ← ok_or (parse_index usize_bits (trim rail)) invalid;
  _ ← fail_if (p2p_rails <=? rail)%nat invalid;
  '(ranks, metrics) ← ok_or (split_once ":"%char link) invalid;
  '(first, second) ← ok_or (split_once "-"%char ranks) invalid;
  '(bandwidth, latency) ← ok_or (split_once ":"%char metrics) invalid;
  first ← ok_or (parse_index 32 (trim first)) invalid;
  second ← ok_or (parse_index 32 (trim second)) invalid;
  bandwidth ← ok_or (parse_unsigned 64 (trim bandwidth)) invalid;
  latency ← ok_or (parse_unsigned 64 (trim latency)) invalid;
  Ok (mkRailLink rail first second bandwidth latency).

Definition parse_topology_rail_links (t : CollectiveTopology) (value : string) (p2p_rails : nat) :
    tresult CollectiveTopology :=
  foldM (fun t encoded => l ← parse_topology_rail_link value p2p_rails encoded; add_rail_link t l)
    t (filter non_blank (split ","%char value)).

Definition parse_topology_aggregate_link (value encoded : string) : tresult TopologyAggregateLink :=
  let invalid := InvalidEnvironment "GX1_TOPOLOGY_AGGREGATE_LINKS" value in
  '(ranks, bandwidth) ← ok_or (split_once ":"%char (trim encoded)) invalid;
  '(first, second) ← ok_or (split_once "-"%char ranks) invalid;
  first ← ok_or (parse_index 32 (trim first)) invalid;
  second ← ok_or (parse_index 32 (trim second)) invalid;
  bandwidth ← ok_or (parse_unsigned 64 (trim bandwidth)) invalid;
  Ok (mkAggregateLink first second bandwidth).

Definition parse_topology_aggregate_links (t : CollectiveTopology) (value : string) :
    tresult CollectiveTopology :=
  foldM (fun t encoded => l ← parse_topology_aggregate_link value encoded; add_aggregate_link t l)
    t (filter non_blank (split ","%char value)).

(** ** What the parsers accept *)
Lemma parse_digits_range bits acc s v :
  parse_digits bits acc s = Some v -> in_width bits acc -> in_width bits v.
Proof.
  revert acc. induction s as [|c s IH]; intros acc H Hacc; cbn [parse_digits] in H; [by injection H as <-|].
  destruct (digit c) as [d|]; cbn [mbind option_bind] in H; [|done].
  destruct (checked_mul bits acc 10) as [scaled|]; cbn [mbind option_bind] in H; [|done].
  destruct (checked_add bits scaled d) as [acc'|] eqn:Ha; cbn [mbind option_bind] in H; [|done].
  eapply IH; [exact H|]. by apply checked_Some in Ha as [-> ?].
Qed.

Lemma parse_unsigned_range bits s v : 0 <= bits -> parse_unsigned bits s = Some v -> in_width bits v.
Proof.
  intros Hb. assert (Hz : in_width bits 0) by (pose proof (Z.pow_pos_nonneg 2 bits); unfold in_width; lia).
  intros H. unfold parse_unsigned in H. destruct s as [|c s]; [done|].
  destruct (Ascii.eqb c _); [destruct (is_empty s); [done|]|]; by eapply parse_digits_range.
Qed.

Lemma parse_number_environment_range bits env name d v :
  0 <= bits -> in_width bits d -> parse_number_environment bits env name d = Ok v -> in_width bits v.
Proof.
  intros Hb Hd. unfold parse_number_environment. destruct (env name); intros H; unfold invalid_environment in H; inv_ok; [|done].
  by eapply parse_unsigned_range.
Qed.

Lemma parse_number_environment_no_panic bits env name d : no_panic (parse_number_environment bits env name d).
Proof. unfold parse_number_environment. destruct (env name); auto with rust. Qed.

Lemma parse_list_no_panic bits name value parts : no_panic (parse_list bits name value parts).
Proof. apply mapM_no_panic, Forall_forall. auto with rust. Qed.

(** A loop that adds parsed links to a well formed topology. *)
Lemma parsed_links {L} (parse : string -> tresult L) (add : CollectiveTopology -> L -> tresult CollectiveTopology)
    (Q : L -> Prop) w t parts :
  topology_ok t -> world_size t = w ->
  (forall s, no_panic (parse s)) -> (forall s l, parse s = Ok l -> Q l) ->
  (forall t l, topology_ok t -> Q l -> no_panic (add t l) /\
     forall t', add t l = Ok t' -> topology_ok t' /\ world_size t' = world_size t) ->
  no_panic (foldM (fun t s => l ← parse s; add t l) t parts) /\
  forall t', foldM (fun t s => l ← parse s; add t l) t parts = Ok t' -> topology_ok t' /\ world_size t' = w.
Proof.
  intros Hok Hw Hn Hq Hadd. revert t Hok Hw. induction parts as [|s parts IH]; intros t Hok Hw; cbn [foldM].
  { split; [done|]. by intros t' [= <-]. }
  specialize (Hn s). destruct (parse s) as [l|e|] eqn:Hp; cbn [mbind outcome_bind]; [|done|done].
  destruct (Hadd t l Hok (Hq s l Hp)) as [Hna Ha]. destruct (add t l) as [t1|e|]; cbn [mbind outcome_bind]; [|done|done].
  destruct (Ha t1 eq_refl) as [Hok1 Hw1]. apply IH; [done|by rewrite Hw1].
Qed.

(** Split a parser into its steps, none of which panics. *)
Ltac parser_no_panic :=
  repeat match goal with
  | |- no_panic (_ ≫= _) => apply bind_no_panic; [solve [auto with rust]|intros]
  | |- context [let '(_, _) := ?p in _] => destruct p
  end; done.

Ltac parsed :=
  repeat (inv_ok; match goal with p : (_ * _)%type |- _ => destruct p end); inv_ok; cbn.

Lemma parse_topology_link_no_panic value s : no_panic (parse_topology_link value s).
Proof. unfold parse_topology_link. parser_no_panic. Qed.

Lemma parse_topology_link_typed value s l :
  parse_topology_link value s = Ok l -> metrics_typed (link_bandwidth l) (link_latency l).
Proof.
  unfold parse_topology_link. intros H. parsed. split; (eapply parse_unsigned_range; [|eassumption]; lia).
Qed.

Lemma parse_topology_links_ok w value :
  Z.of_nat w < 2 ^ 32 ->
  no_panic (parse_topology_links w value) /\
  forall t, parse_topology_links w value = Ok t -> topology_ok t /\ world_size t = w.
Proof.
  intros Hw. unfold parse_topology_links. destruct (empty w) as [t0|e|] eqn:He; cbn [mbind outcome_bind]; [|done|].
  - assert (Hw0 : world_size t0 = w) by (unfold empty in He; inv_ok; done). apply empty_ok in He; [|done].
    apply (parsed_links (parse_topology_link value) add_link (fun l => metrics_typed (link_bandwidth l) (link_latency l)));
      [done|done|apply parse_topology_link_no_panic|apply parse_topology_link_typed|].
    intros t l Ht Hl. destruct (add_link_spec t l Ht Hl) as [Hn Ha]. split; [done|]. intros t' Ht'.
    by destruct (Ha t' Ht') as (? & ? & _).
  - unfold empty in He. by destruct (w =? 0)%nat.
Qed.

Lemma parse_topology_rail_link_no_panic value rails s : no_panic (parse_topology_rail_link value rails s).
Proof. unfold parse_topology_rail_link. parser_no_panic. Qed.

Lemma parse_topology_rail_link_typed value rails s l :
  parse_topology_rail_link value rails s = Ok l -> metrics_typed (rail_bandwidth l) (rail_latency l).
Proof.
  unfold parse_topology_rail_link. intros H. parsed. split; (eapply parse_unsigned_range; [|eassumption]; lia).
Qed.

Lemma parse_topology_rail_links_ok t value rails :
  topology_ok t ->
  no_panic (parse_topology_rail_links t value rails) /\
  forall t', parse_topology_rail_links t value rails = Ok t' -> topology_ok t' /\ world_size t' = world_size t.
Proof.
  intros Ht. apply (parsed_links (parse_topology_rail_link value rails) add_rail_link
    (fun l => metrics_typed (rail_bandwidth l) (rail_latency l)));
    [done|done|apply parse_topology_rail_link_no_panic|apply parse_topology_rail_link_typed|].
  intros t1 l Ht1 Hl. destruct (add_rail_link_spec t1 l Ht1 Hl) as [Hn Ha]. split; [done|]. intros t' Ht'.
  by destruct (Ha t' Ht') as (? & ? & _).
Qed.

Lemma parse_topology_aggregate_link_no_panic value s : no_panic (parse_topology_aggregate_link value s).
Proof. unfold parse_topology_aggregate_link. parser_no_panic. Qed.

Lemma parse_topology_aggregate_link_typed value s l :
  parse_topology_aggregate_link value s = Ok l -> 0 <= aggregate_bandwidth l < 2 ^ 64.
Proof.
  unfold parse_topology_aggregate_link. intros H. parsed. eapply parse_unsigned_range; [|eassumption]; lia.
Qed.

Lemma parse_topology_aggregate_links_ok t value :
  topology_ok t ->
  no_panic (parse_topology_aggregate_links t value) /\
  forall t', parse_topology_aggregate_links t value = Ok t' -> topology_ok t' /\ world_size t' = world_size t.
Proof.
  intros Ht. apply (parsed_links (parse_topology_aggregate_link value) add_aggregate_link
    (fun l => 0 <= aggregate_bandwidth l < 2 ^ 64));
    [done|done|apply parse_topology_aggregate_link_no_panic|apply parse_topology_aggregate_link_typed|].
  intros t1 l Ht1 Hl. destruct (add_aggregate_link_spec t1 l Ht1 Hl) as [Hn Ha]. split; [done|]. intros t' Ht'.
  by destruct (Ha t' Ht') as (? & ? & _).
Qed.
