(* ===== verification/Planner.v ===== *)
(** * Cost estimates over a topology: src/src/rank/topology.rs

    Rails in order of preference, the time of a ring step on a rail, the cap
    that aggregate bandwidths put on concurrent rails, and the estimate of a
    pairwise exchange. *)
From stdpp Require Import sorting.
From S2P Require Import Prelude Comp Device Topology ShortestPath RingSearch.

(** ** Rails *)
Definition rail_score {E} (t : CollectiveTopology) (rail : nat) : outcome E RingScore :=
  '(bottleneck, total_bandwidth, total_latency, link_count) ←
    foldM (fun '(bottleneck, total_bandwidth, total_latency, link_count) '(first, second) =>
        found ← link_on_rail t first second rail;
        match found with
        | None => Ok (bottleneck, total_bandwidth, total_latency, link_count)
        | Some l =>
            count ← arith usize_bits (link_count + 1);
            Ok (Z.min bottleneck (bandwidth_mbps l), saturating_add 128 total_bandwidth (bandwidth_mbps l),
                saturating_add 128 total_latency (latency_ns l), count)
        end)
      (U64_MAX, 0, 0, 0) (rank_pairs (world_size t));
  inverse ← arith 128 (U128_MAX - total_latency);
  Ok (mkScore (if link_count =? 0 then 0 else bottleneck) total_bandwidth inverse).

(** Descending score, then ascending rail. *)
Definition rail_before (a b : nat * RingScore) : Prop :=
  match lex Z.compare (score_key b.2) (score_key a.2) with
  | Lt => True
  | Eq => (a.1 <= b.1)%nat
  | Gt => False
  end.

#[export] Instance rail_before_dec a b : Decision (rail_before a b).
Proof. unfold rail_before. destruct (lex _ _ _); apply _. Defined.

Definition preferred_rail_order {E} (t : CollectiveTopology) (rail_count : nat) : outcome E (list nat) :=
  scores ← mapM (fun rail => score ← rail_score t rail; Ok (rail, score)) (seq 0 rail_count);
  Ok (map fst (merge_sort rail_before scores)).

(** ** Ring steps *)

(** [collect::<Option<Vec<_>>>()?.into_iter().max()] *)
Definition max_time (times : list Z) : maybe Z :=
  match times with [] => Err tt | time :: times => Ok (foldl Z.max time times) end.

Definition ring_step_time_ns_on_rail (t : CollectiveTopology) (order : list nat) (bytes : Z) (rail : nat) :
    maybe Z :=
  times ← mapM (fun '(first, second) =>
      found ← link_on_rail t first second rail;
      l ← ok_or found tt;
      link_transfer_time_ns l bytes) (ring_pairs order);
  max_time times.

(** ** Aggregate bandwidth *)

(** [m[a][b] = m[a][b].saturating_add(bytes)] *)
Definition add_bytes {E} (m : list (list Z)) (a b : nat) (bytes : Z) : outcome E (list (list Z)) :=
  old ← cell m a b; set_cell m a b (saturating_add usize_bits old bytes).

Definition zero_bytes (n : nat) : list (list Z) := replicate n (replicate n 0).

(** The larger direction of a pair over its aggregate bandwidth. *)
Definition cap_pair {E} (t : CollectiveTopology) (first : nat) (forward : list Z) (slowest : Z)
    (row : nat * list Z) : outcome E Z :=
  let '(second, reverse) := row in
  forth ← index forward second;
  back ← index reverse first;
  let bytes := Z.max forth back in
  if bytes =? 0 then Ok slowest else
  found ← aggregate_bandwidth_mbps t first second;
  match found with
  | Some bandwidth => time ← transfer_time_ns bytes bandwidth; Ok (Z.max slowest time)
  | None => Ok slowest
  end.

Definition aggregate_transfer_cap_ns {E} (t : CollectiveTopology) (bytes_by_pair : list (list Z)) :
    outcome E Z :=
  let rows := enumerate (take (world_size t) bytes_by_pair) in
  foldM (fun slowest row => foldM (cap_pair t row.1 row.2) slowest (drop (S row.1) rows)) 0 rows.

(** [rail_times[slot] = rail_times[slot].saturating_add(time)] *)
Definition add_time {E} (rail_times : list Z) (slot : nat) (time : Z) : outcome E (list Z) :=
  old ← index rail_times slot; Ok (<[slot := saturating_add 64 old time]> rail_times).

(** The slowest rail, at least the aggregate cap when more than one rail runs. *)
Definition step_time {E} (t : CollectiveTopology) (rails : nat) (rail_times : list Z)
    (aggregate_bytes : list (list Z)) : outcome E Z :=
  let rail_time := match rail_times with [] => 0 | time :: times => foldl Z.max time times end in
  aggregate_time ← (if (1 <? rails)%nat then aggregate_transfer_cap_ns t aggregate_bytes else Ok 0);
  Ok (Z.max rail_time aggregate_time).

(** [channel_count.min(bytes.max(1)).max(1)] and [rail_count.min(channels).max(1)] *)
Definition channels_for (channel_count : nat) (bytes : Z) : nat :=
  (Z.to_nat (Z.min (Z.of_nat channel_count) (Z.max bytes 1)) `max` 1)%nat.
Definition rails_for (rail_count channels : nat) : nat := ((rail_count `min` channels) `max` 1)%nat.

(** One transfer of a channel, and one channel of a step: every position sends
    its bytes; the slowest route counts for the channel's rail. *)
Definition transfer (t : CollectiveTopology) (rail : nat) (st : list (list Z) * Z) (x : nat * nat * Z) :
    maybe (list (list Z) * Z) :=
  let '(source, destination, bytes) := x in
  aggregate_bytes ← add_bytes st.1 source destination bytes;
  time ← shortest_transfer_time_ns_on_rail t source destination bytes rail;
  Ok (aggregate_bytes, Z.max st.2 time).

Definition channel_step (t : CollectiveTopology) (rail_order : list nat) (rails : nat)
    (st : list Z * list (list Z)) (p : nat * list (nat * nat * Z)) : maybe (list Z * list (list Z)) :=
  let rail_slot := (p.1 mod rails)%nat in
  rail ← index rail_order rail_slot;
  '(aggregate_bytes, slowest) ← foldM (transfer t rail) (st.2, 0) p.2;
  rail_times ← add_time st.1 rail_slot slowest;
  Ok (rail_times, aggregate_bytes).

(** The channels of a step, each on its rail. *)
Definition channels_time (t : CollectiveTopology) (rail_order : list nat) (rails nodes : nat)
    (channel_transfers : list (list (nat * nat * Z))) : maybe Z :=
  '(rail_times, aggregate_bytes) ← foldM (channel_step t rail_order rails)
    (replicate rails 0, zero_bytes nodes) (enumerate channel_transfers);
  step_time t rails rail_times aggregate_bytes.

(** ** Pairwise exchange *)
Definition pairwise_time_ns (t : CollectiveTopology) (order : list nat) (bytes_per_peer : Z)
    (channel_count : nat) (rail_order : list nat) : maybe Z :=
  if (length order <=? 1)%nat then Ok 0
  else if (length rail_order =? 0)%nat then Err tt
  else
    let channels := channels_for channel_count bytes_per_peer in
    let rails := rails_for (length rail_order) channels in
    channel_bytes ← balanced_sizes bytes_per_peer channels;
    foldM (fun total step =>
        let transfers bytes :=
          map (fun position => (order !!! position, order !!! ((position + step) mod length order)%nat, bytes))
            (seq 0 (length order)) in
        time ← channels_time t rail_order rails (world_size t) (map transfers channel_bytes);
        Ok (saturating_add 64 total time))
      0 (seq 1 (length order - 1)).

(** ** Rails in order *)
Section rails.
Context (t : CollectiveTopology) (Hok : topology_ok t).
Abbreviation w := (world_size t).

Lemma length_rank_pairs : Z.of_nat (length (rank_pairs w)) < 2 ^ 64.
Proof using Hok.
  pose proof (topology_world _ Hok) as [_ Hw].
  assert (Hle : (length (rank_pairs w) <= w * w)%nat).
  { unfold rank_pairs.
    assert (Hgen : forall l, (length (flat_map (fun first => map (pair first) (seq (S first) (w - S first))) l)
      <= length l * w)%nat).
    { induction l as [|a l IH]; cbn [flat_map length]; [lia|]. rewrite length_app, length_map, length_seq. lia. }
    rewrite Hgen. by rewrite length_seq. }
  nia.
Qed.

Lemma rail_score_ok {E} rail : exists s, rail_score (E:=E) t rail = Ok s.
Proof using Hok.
  unfold rail_score.
  assert (Hgen : forall pairs b tb tl n,
    Forall (fun p => (p.1 < p.2 < w)%nat) pairs -> 0 <= tl <= U128_MAX -> 0 <= n -> n + Zlen pairs < 2 ^ 64 ->
    exists b' tb' tl' n', foldM (fun '(bottleneck, total_bandwidth, total_latency, link_count) '(first, second) =>
        found ← link_on_rail t first second rail;
        match found with
        | None => Ok (bottleneck, total_bandwidth, total_latency, link_count)
        | Some l =>
            count ← arith usize_bits (link_count + 1);
            Ok (Z.min bottleneck (bandwidth_mbps l), saturating_add 128 total_bandwidth (bandwidth_mbps l),
                saturating_add 128 total_latency (latency_ns l), count)
        end) (b, tb, tl, n) pairs = Ok (E:=E) (b', tb', tl', n') /\ 0 <= tl' <= U128_MAX).
  { induction pairs as [|[i j] pairs IH]; intros b tb tl n Hp Htl Hn Hlen; [by exists b, tb, tl, n|].
    apply Forall_cons in Hp as [Hij Hp]. cbn [fst snd] in Hij. cbn [foldM].
    unfold Zlen in Hlen. cbn [length] in Hlen.
    rewrite (link_on_rail_ok t Hok) by lia. cbn [mbind outcome_bind].
    destruct (route_link t (Some rail) i j) as [c|]; cbn [mbind outcome_bind].
    - rewrite arith_in by (unfold in_width; lia). cbn [mbind outcome_bind]. apply IH; [done| |lia|unfold Zlen; lia].
      unfold saturating_add. pose proof (saturate_range 128 (tl + latency_ns c) ltac:(lia)) as [? ?].
      unfold U128_MAX. lia.
    - apply IH; [done|done|lia|unfold Zlen; lia]. }
  destruct (Hgen (rank_pairs w) U64_MAX 0 0 0) as (b & tb & tl & n & -> & Htl).
  - apply Forall_forall. intros [i j] Hij%elem_of_rank_pairs. done.
  - unfold U128_MAX. lia.
  - lia.
  - apply length_rank_pairs.
  - cbn [mbind outcome_bind]. rewrite arith_in by (unfold in_width, U128_MAX in *; lia). by eexists.
Qed.

Lemma preferred_rail_order_ok {E} n :
  exists order, preferred_rail_order (E:=E) t n = Ok order /\ order ≡ₚ seq 0 n.
Proof using Hok.
  unfold preferred_rail_order.
  destruct (proj2 (mapM_is_Ok (E:=E) (fun rail => score ← rail_score t rail; Ok (rail, score)) (seq 0 n)))
    as [scores Hs].
  { apply Forall_forall. intros rail _. destruct (rail_score_ok (E:=E) rail) as [s ->]. by eexists. }
  rewrite Hs. cbn [mbind outcome_bind]. eexists. split; [done|].
  transitivity (map fst scores); [apply Permutation_map, merge_sort_Permutation|].
  cut (map fst scores = seq 0 n); [by intros ->|].
  apply mapM_Ok in Hs. induction Hs as [|rail p rails ps Hp _ IH]; [done|]. cbn. f_equal; [|exact IH].
  destruct (rail_score t rail); cbn in Hp; inv_ok. done.
Qed.
End rails.

(** ** The estimates do not panic *)
Definition in_usize (b : Z) : Prop := 0 <= b < 2 ^ 64.

Section estimates.
Context (t : CollectiveTopology) (Hok : topology_ok t).
Abbreviation w := (world_size t).
Abbreviation byte_grid := (grid in_usize w).

Lemma zero_bytes_grid : byte_grid (zero_bytes w).
Proof using Type.
  split; [apply length_replicate|]. apply Forall_replicate. split; [apply length_replicate|].
  apply Forall_replicate. unfold in_usize. lia.
Qed.

Lemma saturating_in_usize a b : in_usize (saturating_add 64 a b).
Proof using Type. unfold saturating_add, in_usize. pose proof (saturate_range 64 (a + b) ltac:(lia)) as [? ?]. lia. Qed.

Lemma add_bytes_ok {E} m a b bytes :
  byte_grid m -> (a < w)%nat -> (b < w)%nat -> exists m', add_bytes (E:=E) m a b bytes = Ok m' /\ byte_grid m'.
Proof using Type.
  intros Hm Ha Hb. unfold add_bytes. destruct (cell_grid (E:=E) _ w m a b Hm Ha Hb) as (v & -> & Hv).
  cbn [mbind outcome_bind]. apply (set_cell_grid _ w); [done|done|done|]. apply saturating_in_usize.
Qed.

Lemma index_row {E} (m : list (list Z)) row j :
  byte_grid m -> row ∈ m -> (j < w)%nat -> exists v, index (E:=E) row j = Ok v /\ in_usize v.
Proof using Type.
  intros [_ Hr] Hrow Hj. destruct (proj1 (Forall_forall _ _) Hr row Hrow) as [Hl HP].
  destruct (lookup_lt_is_Some_2 row j ltac:(lia)) as [v Hv]. exists v.
  split; [by apply index_Ok|]. by apply (proj1 (Forall_lookup _ _) HP _ _ Hv).
Qed.

Lemma elem_of_enumerate (m : list (list Z)) p :
  length m = w -> p ∈ enumerate m -> (p.1 < w)%nat /\ p.2 ∈ m.
Proof using Type.
  intros Hl [k Hk]%list_elem_of_lookup. apply lookup_enumerate in Hk as (x & Hx & ->). cbn.
  split; [apply lookup_lt_Some in Hx; by rewrite <- Hl|by eapply list_elem_of_lookup_2].
Qed.

Lemma cap_pair_ok {E} m i row slowest p :
  byte_grid m -> (i < w)%nat -> row ∈ m -> p ∈ enumerate m ->
  exists c, cap_pair (E:=E) t i row slowest p = Ok c.
Proof using Hok.
  intros Hm Hi Hin Hp. destruct (elem_of_enumerate m p (proj1 Hm) Hp) as [Hj Hrev].
  destruct p as [j reverse]. cbn in Hj, Hrev. unfold cap_pair.
  destruct (index_row (E:=E) m row j Hm Hin Hj) as (f & -> & Hf). cbn [mbind outcome_bind].
  destruct (index_row (E:=E) m reverse i Hm Hrev Hi) as (b & -> & Hb). cbn [mbind outcome_bind].
  destruct (Z.max f b =? 0); cbn [mbind outcome_bind]; [by eexists|].
  unfold aggregate_bandwidth_mbps. destruct (topology_aggregate _ Hok) as [Hal Har _ _ Hav].
  rewrite (cell_ok w) by done. cbn [mbind outcome_bind].
  destruct (entry (aggregate_links t) i j) as [bw|] eqn:He; cbn [mbind outcome_bind]; [|by eexists].
  rewrite transfer_time_ns_ok; [by eexists|unfold in_usize in *; lia|by eapply Hav].
Qed.

Lemma aggregate_transfer_cap_ok {E} m : byte_grid m -> exists c, aggregate_transfer_cap_ns (E:=E) t m = Ok c.
Proof using Hok.
  intros Hm. unfold aggregate_transfer_cap_ns. rewrite take_ge by (rewrite (proj1 Hm); lia).
  destruct (foldM_total (E:=E) (fun _ => True) (fun slowest row =>
    foldM (cap_pair t row.1 row.2) slowest (drop (S row.1) (enumerate m))) 0 (enumerate m)) as (c & Hc & _); [done| |by exists c].
  intros slowest p _ Hp. destruct (elem_of_enumerate m p (proj1 Hm) Hp) as [Hi Hin].
  apply (foldM_total (fun _ => True)); [done|]. intros s q _ Hq.
  destruct (cap_pair_ok (E:=E) m p.1 p.2 s q Hm Hi Hin) as [c Hc]; [|by exists c].
  eapply elem_of_sublist; [exact Hq|apply sublist_drop].
Qed.

Lemma step_time_ok {E} rails times m : byte_grid m -> exists c, step_time (E:=E) t rails times m = Ok c.
Proof using Hok.
  intros Hm. unfold step_time. destruct (1 <? rails)%nat; cbn [mbind outcome_bind]; [|by eexists].
  destruct (aggregate_transfer_cap_ok (E:=E) m Hm) as [c ->]. by eexists.
Qed.

Definition transfer_ok (x : nat * nat * Z) : Prop := (x.1.1 < w)%nat /\ (x.1.2 < w)%nat /\ in_usize x.2.

Lemma transfer_step_ok x rail m slowest :
  transfer_ok x -> byte_grid m ->
  no_panic (transfer t rail (m, slowest) x) /\
  forall m' s, transfer t rail (m, slowest) x = Ok (m', s) -> byte_grid m'.
Proof using Hok.
  destruct x as [[a b] bytes]. intros (Ha & Hb & Hby) Hm. cbn [fst snd] in Ha, Hb, Hby.
  unfold transfer. cbn [fst snd].
  destruct (add_bytes_ok (E:=unit) m a b bytes Hm Ha Hb) as (m1 & -> & Hm1). cbn [mbind outcome_bind].
  pose proof (shortest_routes t Hok (Some rail) a b bytes Ha Hb Hby) as Hr. unfold shortest_transfer_time_ns_on_rail.
  destruct (shortest_transfer_time_ns_for_rail t a b bytes (Some rail)) as [c|e|]; cbn [mbind outcome_bind];
    [|by split|done].
  split; [done|]. by intros m' s [= <- <-].
Qed.

Lemma transfers_ok transfers rail m slowest :
  Forall transfer_ok transfers -> byte_grid m ->
  no_panic (foldM (transfer t rail) (m, slowest) transfers) /\
  forall m' s, foldM (transfer t rail) (m, slowest) transfers = Ok (m', s) -> byte_grid m'.
Proof using Hok.
  intros Ht. revert m slowest. induction Ht as [|x transfers Hx _ IH]; intros m slowest Hm; cbn [foldM].
  { split; [done|]. by intros m' s [= <- <-]. }
  destruct (transfer_step_ok x rail m slowest Hx Hm) as [Hn Hg].
  destruct (transfer t rail (m, slowest) x) as [[m1 s1]|e|]; cbn [mbind outcome_bind]; [|by split|done].
  apply IH. by eapply Hg.
Qed.

Lemma channel_step_ok order rails times m p :
  (0 < rails <= length order)%nat -> length times = rails -> byte_grid m -> Forall transfer_ok p.2 ->
  no_panic (channel_step t order rails (times, m) p) /\
  forall times' m', channel_step t order rails (times, m) p = Ok (times', m') -> length times' = rails /\ byte_grid m'.
Proof using Hok.
  intros Hr Hl Hm Hp. unfold channel_step. cbn [fst snd].
  assert (Hslot : (p.1 mod rails < rails)%nat) by (apply Nat.mod_upper_bound; lia).
  destruct (lookup_lt_is_Some_2 order (p.1 mod rails) ltac:(lia)) as [rail Hrail].
  rewrite (proj2 (index_Ok _ _ _) Hrail). cbn [mbind outcome_bind].
  destruct (transfers_ok p.2 rail m 0 Hp Hm) as [Hn Hg].
  destruct (foldM _ _ p.2) as [[m1 slowest]|e|]; cbn [mbind outcome_bind]; [|by split|done].
  unfold add_time. destruct (lookup_lt_is_Some_2 times (p.1 mod rails) ltac:(lia)) as [old Hold].
  rewrite (proj2 (index_Ok _ _ _) Hold). cbn [mbind outcome_bind]. split; [done|].
  intros times' m' [= <- <-]. split; [by rewrite length_insert|by eapply Hg].
Qed.

Lemma channels_time_ok order rails channels :
  (0 < rails <= length order)%nat -> Forall (Forall transfer_ok) channels ->
  no_panic (channels_time t order rails w channels).
Proof using Hok.
  intros Hr Hc. unfold channels_time.
  assert (Hgen : forall l times m, (forall p, p ∈ l -> Forall transfer_ok p.2) -> length times = rails -> byte_grid m ->
    no_panic (foldM (channel_step t order rails) (times, m) l) /\
    forall times' m', foldM (channel_step t order rails) (times, m) l = Ok (times', m') -> byte_grid m').
  { induction l as [|p l IH]; intros times m Hl Htimes Hm; cbn [foldM].
    { split; [done|]. by intros ?? [= <- <-]. }
    destruct (channel_step_ok order rails times m p Hr Htimes Hm (Hl p ltac:(by left))) as [Hn Hg].
    destruct (channel_step t order rails (times, m) p) as [[times1 m1]|e|]; cbn [mbind outcome_bind]; [|by split|done].
    destruct (Hg times1 m1 eq_refl) as [Hl1 Hm1]. apply IH; [|done|done]. intros q Hq. apply Hl. by right. }
  destruct (Hgen (enumerate channels) (replicate rails 0) (zero_bytes w)) as [Hn Hg].
  - intros p [k Hk]%list_elem_of_lookup. apply lookup_enumerate in Hk as (y & Hy & ->). cbn.
    by apply (proj1 (Forall_lookup _ _) Hc _ _ Hy).
  - apply length_replicate.
  - apply zero_bytes_grid.
  - destruct (foldM _ _ (enumerate channels)) as [[times m]|e|]; cbn [mbind outcome_bind]; [|done|done].
    destruct (step_time_ok (E:=unit) rails times m) as [c ->]; [by eapply Hg|done].
Qed.

Lemma channels_for_pos n bytes : (0 < channels_for n bytes)%nat.
Proof using Type. unfold channels_for. lia. Qed.

Lemma rails_for_range n channels : (0 < n)%nat -> (0 < rails_for n channels <= n)%nat.
Proof using Type. unfold rails_for. lia. Qed.

(** A part of the bytes is at most the bytes. *)
Lemma balanced_sizes_usize {E} total parts :
  in_usize total -> (0 < parts)%nat ->
  exists sizes, balanced_sizes (E:=E) total parts = Ok sizes /\ length sizes = parts /\ Forall in_usize sizes.
Proof using Type.
  intros Ht Hp. unfold in_usize in Ht.
  destruct (balanced_sizes_ok (E:=E) total parts) as (sizes & Hs & Hl & Hsum & Hall); [lia|done|].
  exists sizes. split; [done|]. split; [done|].
  assert (Hnn : Forall (fun s => 0 <= s) sizes).
  { eapply Forall_impl; [exact Hall|]. intros s [? _]. cbn. etransitivity; [|done]. apply Z.div_pos; lia. }
  assert (Hle : forall s, s ∈ sizes -> s <= sum_Z sizes).
  { clear -Hnn. induction Hnn as [|x l Hx Hl IH]; intros s Hs; [by apply not_elem_of_nil in Hs|].
    pose proof (sum_Z_nonneg l Hl). unfold sum_Z in *. cbn. apply elem_of_cons in Hs as [->|Hs]; [lia|].
    specialize (IH s Hs). lia. }
  apply Forall_forall. intros s Hin. specialize (Hle s Hin).
  pose proof (proj1 (Forall_forall _ _) Hnn s Hin) as Hs0. cbn in Hs0. unfold in_usize. lia.
Qed.

Lemma order_total order i : order ≡ₚ seq 0 w -> (i < w)%nat -> (order !!! i < w)%nat.
Proof using Type.
  intros Hp Hi. apply Permutation_seq_below in Hp as (_ & Hall & Hlen).
  apply (proj1 (Forall_forall _ _) Hall), list_elem_of_lookup_total_2. lia.
Qed.

Lemma pairwise_time_ns_no_panic order bytes channels rails :
  order ≡ₚ seq 0 w -> in_usize bytes -> no_panic (pairwise_time_ns t order bytes channels rails).
Proof using Hok.
  intros Ho Hb. unfold pairwise_time_ns. pose proof (Permutation_seq_below _ _ Ho) as (_ & _ & Hlen).
  destruct (length order <=? 1)%nat; [done|]. destruct (Nat.eqb_spec (length rails) 0) as [|Hr]; [done|].
  destruct (balanced_sizes_usize (E:=unit) bytes (channels_for channels bytes) Hb (channels_for_pos _ _))
    as (sizes & -> & Hl & Hsizes).
  cbn [mbind outcome_bind]. apply (foldM_no_panic (fun _ => True)); [done|].
  intros total step _ _. split; [|done]. apply bind_no_panic; [|done].
  apply channels_time_ok; [apply rails_for_range; lia|].
  apply Forall_fmap. eapply Forall_impl; [exact Hsizes|]. intros size Hsize. cbn.
  apply Forall_fmap, Forall_forall. intros i Hi%elem_of_seq. unfold transfer_ok. cbn.
  split_and!; [apply order_total; [done|lia]|apply order_total; [done|]|done].
  rewrite <- Hlen. apply Nat.mod_upper_bound. lia.
Qed.

Lemma pairs_below order :
  Forall (fun i => (i < w)%nat) order -> Forall (fun p => (p.1 < w)%nat /\ (p.2 < w)%nat) (ring_pairs order).
Proof using Type.
  intros Ho. unfold ring_pairs. apply Forall_fmap, Forall_forall. intros i Hi%elem_of_seq. cbn.
  split; apply (proj1 (Forall_forall _ _) Ho), list_elem_of_lookup_total_2; [lia|]. apply Nat.mod_upper_bound. lia.
Qed.

Lemma ring_pairs_below order : order ≡ₚ seq 0 w -> Forall (fun p => (p.1 < w)%nat /\ (p.2 < w)%nat) (ring_pairs order).
Proof using Type. intros Ho. apply pairs_below. by apply Permutation_seq_below in Ho as (_ & ? & _). Qed.

Lemma ring_step_no_panic order bytes rail :
  order ≡ₚ seq 0 w -> in_usize bytes -> no_panic (ring_step_time_ns_on_rail t order bytes rail).
Proof using Hok.
  intros Ho Hb. unfold ring_step_time_ns_on_rail. apply bind_no_panic; [|by intros [|]].
  apply mapM_no_panic. eapply Forall_impl; [by apply ring_pairs_below|]. intros [i j] [Hi Hj]. cbn in Hi, Hj |- *.
  rewrite (link_on_rail_ok t Hok) by done. cbn [mbind outcome_bind].
  destruct (route_link t (Some rail) i j) as [c|] eqn:Hc; cbn [ok_or mbind outcome_bind]; [|done].
  rewrite link_transfer_time_ns_ok; [done|by eapply route_link_ok|done].
Qed.
End estimates.
