(* ===== verification/Tuning.v ===== *)
(** * Collective tuning and planning: src/src/rank/topology.rs

    [CollectiveTuning] holds the policy, the ring orders, the hierarchy and an
    autotune profile for one topology, and plans every collective: by policy,
    by a measurement, or by the cheapest estimate. *)
From Stdlib Require Import Ascii String.
From stdpp Require Import sorting.
From S2P Require Import Prelude Comp Device Topology ShortestPath RingSearch Hierarchy TopologyText Planner.

(** ** Data *)
Inductive AlgorithmPolicy := PolicyAuto | PolicyDirect | PolicyRing | PolicyHierarchical.
Inductive CollectiveKind := KindAllReduce | KindAllGather | KindReduceScatter | KindAllToAll.
Inductive CollectivePlanSource := SourcePolicy | SourceAutotune | SourceModel.

#[export] Instance policy_eq_dec : EqDecision AlgorithmPolicy.
Proof. solve_decision. Defined.
#[export] Instance kind_eq_dec : EqDecision CollectiveKind.
Proof. solve_decision. Defined.
#[export] Instance algorithm_eq_dec : EqDecision CollectiveAlgorithm.
Proof. solve_decision. Defined.

Record CollectivePlan := mkPlan {
  plan_algorithm : CollectiveAlgorithm;
  plan_source : CollectivePlanSource;
  estimated_time_ns : Z;
  direct_estimate : Z;
  peer_estimate : option Z;
  hierarchical_estimate : option Z;
  plan_ring_channels : nat;
}.

Record CollectiveAutotuneEntry := mkEntry {
  entry_operation : CollectiveKind;
  min_payload_bytes : Z;
  max_payload_bytes : Z;
  entry_algorithm : CollectiveAlgorithm;
  entry_ring_channels : nat;
  measured_time_ns : Z;
}.

Record CollectiveAutotuneProfile := mkProfile {
  profile_version : Z;
  profile_world_size : Z;
  profile_topology_fingerprint : string;
  profile_execution_fingerprint : string;
  profile_entries : list CollectiveAutotuneEntry;
}.

Record CollectiveTuning := mkTuning {
  algorithm_policy : AlgorithmPolicy;
  ring_threshold_bytes : Z;
  ring_order : list nat;
  ring_orders : list (list nat);
  ring_channels : nat;
  p2p_rails : nat;
  rail_order_override : option (list nat);
  hierarchy_groups : option (list (list nat));
  topology : CollectiveTopology;
  direct_bandwidth_mbps : Z;
  direct_latency_ns : Z;
  tuning_transport : CollectiveTransport;
  autotune_profile : option CollectiveAutotuneProfile;
}.

Definition COLLECTIVE_AUTOTUNE_PROFILE_VERSION : Z := 2.
Definition COLLECTIVE_EXECUTION_REVISION : Z := 6.

(** ** Rails and ring orders of a tuning *)
Definition rail_order {E} (tn : CollectiveTuning) : outcome E (list nat) :=
  match rail_order_override tn with
  | Some order => Ok order
  | None => preferred_rail_order (topology tn) (p2p_rails tn)
  end.

(** [v[i % v.len()]] *)
Definition index_cyclic {E A} (l : list A) (i : nat) : outcome E A :=
  if (length l =? 0)%nat then Panic else index l (i mod length l).

Definition ring_order_for_channel {E} (tn : CollectiveTuning) (channel : nat) : outcome E (list nat) :=
  index_cyclic (ring_orders tn) channel.

Definition rail_for_channel {E} (tn : CollectiveTuning) (channel : nat) : outcome E nat :=
  rails ← rail_order tn; index_cyclic rails channel.

(** ** Fingerprints *)
Definition FNV_OFFSET : Z := 0xcbf29ce484222325.
Definition FNV_PRIME : Z := 0x100000001b3.

Definition fingerprint_u64 (hash value : Z) : Z :=
  foldl (fun hash byte => wrap 64 (Z.lxor hash byte * FNV_PRIME)) hash (to_le 8 value).

Definition fingerprint_all (hash : Z) (values : list Z) : Z := foldl fingerprint_u64 hash values.

(** The values that are hashed for a pair of ranks. *)
Definition pair_words {A} (words : A -> list Z) (p : nat * nat) (v : option A) : list Z :=
  [Z.of_nat p.1; Z.of_nat p.2] ++ match v with Some v => 1 :: words v | None => [0] end.

Definition matrix_words {E A} (m : list (list (option A))) (w : nat) (words : A -> list Z) :
    outcome E (list Z) :=
  per_pair ← mapM (fun p => v ← cell m p.1 p.2; Ok (pair_words words p v)) (rank_pairs w);
  Ok (concat per_pair).

Definition cost_words (c : LinkCost) : list Z := [bandwidth_mbps c; latency_ns c].
Definition order_words (order : list nat) : list Z := Z.of_nat (length order) :: map Z.of_nat order.

Definition topology_fingerprint {E} (tn : CollectiveTuning) : outcome E Z :=
  let t := topology tn in
  link_words ← matrix_words (links t) (world_size t) cost_words;
  rail_words ← (if (length (rail_links t) =? 0)%nat then Ok [] else
      per_rail ← mapM (fun '(rail, m) =>
          words ← matrix_words m (world_size t) cost_words; Ok (Z.of_nat rail :: words))
        (enumerate (rail_links t));
      Ok (0x47585241494c4c4b :: Z.of_nat (length (rail_links t)) :: concat per_rail));
  aggregate_words ←
    (if existsb (fun v : option Z => match v with Some _ => true | None => false end)
          (concat (aggregate_links t)) then
       words ← matrix_words (aggregate_links t) (world_size t) (fun b => [b]);
       Ok (0x4758414747524547 :: words)
     else Ok []);
  let ring_words := Z.of_nat (length (ring_orders tn)) :: concat (map order_words (ring_orders tn)) in
  let group_words :=
    match hierarchy_groups tn with
    | Some groups => Z.of_nat (length groups) :: concat (map order_words groups)
    | None => [0]
    end in
  rails ← rail_order tn;
  let rail_count_words :=
    if (p2p_rails tn =? 1)%nat then [] else [0x47585241494c0001; Z.of_nat (p2p_rails tn)] in
  let rail_order_words :=
    if bool_decide (rails = seq 0 (p2p_rails tn)) then [] else 0x47585241494c4f52 :: map Z.of_nat rails in
  Ok (fingerprint_all FNV_OFFSET
        ([Z.of_nat (world_size t)] ++ link_words ++ rail_words ++ aggregate_words ++ ring_words ++ group_words
         ++ [direct_bandwidth_mbps tn; direct_latency_ns tn] ++ rail_count_words ++ rail_order_words)).

Definition execution_fingerprint (tn : CollectiveTuning) : Z :=
  fingerprint_all FNV_OFFSET
    [COLLECTIVE_EXECUTION_REVISION;
     match tuning_transport tn with
     | HostStaged => 1 | TcpHostStaged => 2 | TcpPeer => 3 | PciePeer => 4 | Rdma => 5 | GxLink => 6
     end].

(** [format!("{:016x}", hash)] *)
Definition hex_digit (d : Z) : ascii :=
  ascii_of_nat (Z.to_nat (if d <? 10 then 48 + d else 87 + d)).

Fixpoint hex (digits : nat) (value : Z) (rest : string) : string :=
  match digits with
  | O => rest
  | S digits => hex digits (value / 16) (String (hex_digit (value mod 16)) rest)
  end.

Definition topology_fingerprint_hex {E} (tn : CollectiveTuning) : outcome E string :=
  hash ← topology_fingerprint tn; Ok (hex 16 hash EmptyString).
Definition execution_fingerprint_hex (tn : CollectiveTuning) : string :=
  hex 16 (execution_fingerprint tn) EmptyString.

(** [text.strip_prefix("0x").unwrap_or(text).to_ascii_lowercase()] *)
Definition normal_fingerprint (text : string) : string :=
  to_ascii_lowercase
    match text with
    | String "0"%char (String "x"%char rest) => rest
    | _ => text
    end.

(** ** Autotune profiles *)

(** A probed metric may move by one bucket of four. *)
Definition metric_within_factor (first second factor : Z) : bool :=
  if (first =? 0) || (second =? 0) then first =? second
  else
    let smaller := Z.min first second in
    let larger := Z.max first second in
    larger <=? saturating_mul 64 smaller factor.

Definition cost_matches (current detected : LinkCost) : bool :=
  metric_within_factor (bandwidth_mbps current) (bandwidth_mbps detected) 4
  && metric_within_factor (latency_ns current) (latency_ns detected) 4.

Definition matrix_matches {E A} (w : nat) (same : A -> A -> bool) (current detected : list (list (option A))) :
    outcome E bool :=
  foldM (fun (matching : bool) p =>
      if matching then
        a ← cell current p.1 p.2;
        b ← cell detected p.1 p.2;
        Ok (match a, b with
            | None, None => true
            | Some a, Some b => same a b
            | _, _ => false
            end)
      else Ok false) true (rank_pairs w).

Definition probed_topology_matches {E} (current detected : CollectiveTopology) : outcome E bool :=
  let w := world_size current in
  if negb (w =? world_size detected)%nat then Ok false else
  common ← matrix_matches w cost_matches (links current) (links detected);
  if negb common then Ok false else
  if negb (length (rail_links current) =? length (rail_links detected))%nat then Ok false else
  rails ← foldM (fun (matching : bool) '(a, b) =>
      if matching then matrix_matches w cost_matches a b else Ok false)
    true (zip (rail_links current) (rail_links detected));
  if negb rails then Ok false else
  matrix_matches w (fun a b => metric_within_factor a b 4) (aggregate_links current) (aggregate_links detected).

Definition with_topology (tn : CollectiveTuning) (t : CollectiveTopology) : CollectiveTuning :=
  mkTuning (algorithm_policy tn) (ring_threshold_bytes tn) (ring_order tn) (ring_orders tn)
    (ring_channels tn) (p2p_rails tn) (rail_order_override tn) (hierarchy_groups tn) t
    (direct_bandwidth_mbps tn) (direct_latency_ns tn) (tuning_transport tn) None.

(** A profile measured on the topology a probe had detected is accepted on one
    with metrics close to it and the same preferred rails. *)
Definition detected_matches (tn : CollectiveTuning) (fingerprint encoded : string)
    (encoded_rails encoded_aggregate : option string) : tresult bool :=
  let world_size := Z.to_nat (wrap 32 (Z.of_nat (length (ring_order tn)))) in
  detected ← parse_topology_links world_size encoded;
  detected ← match encoded_rails with
             | Some encoded => parse_topology_rail_links detected encoded (p2p_rails tn)
             | None => Ok detected
             end;
  detected ← match encoded_aggregate with
             | Some encoded => parse_topology_aggregate_links detected encoded
             | None => Ok detected
             end;
  let pinned := with_topology tn detected in
  same ← probed_topology_matches (topology tn) detected;
  if negb same then Ok false else
  rails ← rail_order tn;
  pinned_rails ← rail_order pinned;
  if negb (bool_decide (rails = pinned_rails)) then Ok false else
  expected ← topology_fingerprint_hex pinned;
  Ok (bool_decide (expected = fingerprint)).

Definition valid_algorithm (e : CollectiveAutotuneEntry) : bool :=
  match entry_operation e, entry_algorithm e with
  | KindAllToAll, (Direct | Pairwise) => true
  | KindAllToAll, _ => false
  | _, (Direct | Ring | Hierarchical) => true
  | _, _ => false
  end.

Definition validate_entry (tn : CollectiveTuning) (e : CollectiveAutotuneEntry) : tresult unit :=
  _ ← fail_if (max_payload_bytes e <? min_payload_bytes e) (InvalidProfile "{:?} range {}..={} is reversed");
  _ ← fail_if (measured_time_ns e =? 0) (InvalidProfile "{:?} range {}..={} has zero measured time");
  _ ← map_err (fun _ => InvalidProfile "{:?} range {}..={} has invalid ring channel count {}")
        (validate_ring_channels (Z.of_nat (entry_ring_channels e)));
  _ ← fail_if (negb (valid_algorithm e)) (InvalidProfile "algorithm {:?} cannot execute {:?}");
  fail_if (bool_decide (entry_algorithm e = Hierarchical)
           && match hierarchy_groups tn with None => true | Some _ => false end)
    (InvalidProfile "hierarchical measurement requires configured topology groups").

(** [ranges.sort_unstable()] and [ranges.windows(2)]. *)
Definition range_leb (a b : Z * Z) : Prop := (a.1 < b.1) \/ (a.1 = b.1 /\ a.2 <= b.2).
#[export] Instance range_leb_dec a b : Decision (range_leb a b).
Proof. unfold range_leb. apply _. Defined.

Fixpoint check_windows (ranges : list (Z * Z)) : tresult unit :=
  match ranges with
  | a :: ((b :: _) as rest) =>
      _ ← fail_if (b.1 <=? a.2) (InvalidProfile "{kind:?} ranges {}..={} and {}..={} overlap");
      check_windows rest
  | _ => Ok tt
  end.

Definition ranges_of (kind : CollectiveKind) (entries : list CollectiveAutotuneEntry) : list (Z * Z) :=
  map (fun e => (min_payload_bytes e, max_payload_bytes e))
    (filter (fun e => entry_operation e = kind) entries).

Definition validate_autotune_profile_with_detected (tn : CollectiveTuning) (profile : CollectiveAutotuneProfile)
    (links rail_links aggregate_links : option string) (allow_detected_topology : bool) : tresult unit :=
  _ ← fail_if (negb (profile_version profile =? COLLECTIVE_AUTOTUNE_PROFILE_VERSION))
        (InvalidProfile "unsupported version {}, expected {COLLECTIVE_AUTOTUNE_PROFILE_VERSION}");
  let world_size := wrap 32 (Z.of_nat (length (ring_order tn))) in
  _ ← fail_if (negb (profile_world_size profile =? world_size))
        (InvalidProfile "world size {} does not match configured world size {world_size}");
  let fingerprint := normal_fingerprint (profile_topology_fingerprint profile) in
  expected ← topology_fingerprint_hex tn;
  _ ← (if bool_decide (fingerprint = expected) then Ok tt else
       accepted ← match links with
                  | Some encoded =>
                      if allow_detected_topology
                      then detected_matches tn fingerprint encoded rail_links aggregate_links
                      else Ok false
                  | None => Ok false
                  end;
       fail_if (negb accepted) (InvalidProfile "topology fingerprint {fingerprint:?} does not match {expected:?}"));
  _ ← fail_if (negb (bool_decide (normal_fingerprint (profile_execution_fingerprint profile)
                                   = execution_fingerprint_hex tn)))
        (InvalidProfile "execution fingerprint {execution_fingerprint:?} does not match {expected_execution:?} for transport {:?}");
  _ ← fail_if (length (profile_entries profile) =? 0)%nat (InvalidProfile "profile contains no measurements");
  _ ← foldM (fun _ e => validate_entry tn e) tt (profile_entries profile);
  foldM (fun _ kind => check_windows (merge_sort range_leb (ranges_of kind (profile_entries profile)))) tt
    [KindAllReduce; KindAllGather; KindReduceScatter; KindAllToAll].

Definition validate_autotune_profile (tn : CollectiveTuning) (profile : CollectiveAutotuneProfile) : tresult unit :=
  validate_autotune_profile_with_detected tn profile None None None false.

Definition autotune_entry (tn : CollectiveTuning) (kind : CollectiveKind) (payload_bytes : Z) :
    option CollectiveAutotuneEntry :=
  profile ← autotune_profile tn;
  snd <$> list_find (fun e => entry_operation e = kind /\ min_payload_bytes e <= payload_bytes
                              /\ payload_bytes <= max_payload_bytes e) (profile_entries profile).

(** ** Estimates *)

Definition direct_estimated_time_ns {E} (tn : CollectiveTuning) (kind : CollectiveKind) (payload_bytes : Z) :
    outcome E Z :=
  let ranks := Z.of_nat (length (ring_order tn)) in
  if ranks <=? 1 then Ok 0 else
  response ← match kind with
             | KindAllReduce | KindAllToAll => Ok payload_bytes
             | KindAllGather => Ok (saturating_mul 128 payload_bytes ranks)
             | KindReduceScatter => div_ceil payload_bytes ranks
             end;
  let aggregate_bytes := saturating_mul 128 ranks (saturating_add 128 payload_bytes response) in
  transfer_ns ← transfer_time_ns_u128 aggregate_bytes (direct_bandwidth_mbps tn);
  let latency_ns := saturating_mul 128 (saturating_mul 128 (direct_latency_ns tn) 2) ranks in
  Ok (saturating_u64 (saturating_add 128 transfer_ns latency_ns)).

(** The edges of a ring with the bytes each position sends. *)
Definition ring_transfers (order : list nat) (bytes : list Z) : list (nat * nat * Z) := zip (ring_pairs order) bytes.

Definition multi_ring_step_time_ns (tn : CollectiveTuning) (bytes : Z) : maybe Z :=
  let t := topology tn in
  let nodes := length (ring_order tn) in
  let channels := channels_for (ring_channels tn) bytes in
  rails_in_order ← rail_order tn;
  let rails := rails_for (length rails_in_order) channels in
  let base := bytes / Z.of_nat channels in
  let remainder := bytes mod Z.of_nat channels in
  '(rail_times, aggregate_bytes) ← foldM (fun '(rail_times, aggregate_bytes) channel =>
      let channel_bytes := base + (if Z.of_nat channel <? remainder then 1 else 0) in
      let rail_slot := (channel mod rails)%nat in
      rail ← index rails_in_order rail_slot;
      order ← ring_order_for_channel tn channel;
      aggregate_bytes ← foldM (fun m '(source, destination) => add_bytes m source destination channel_bytes)
                          aggregate_bytes (ring_pairs order);
      step ← ring_step_time_ns_on_rail t order channel_bytes rail;
      rail_times ← add_time rail_times rail_slot step;
      Ok (rail_times, aggregate_bytes))
    (replicate rails 0, zero_bytes nodes) (seq 0 channels);
  step_time t rails rail_times aggregate_bytes.

Definition striped_ring_step_time_ns (tn : CollectiveTuning) (order : list nat) (bytes_by_position : list Z) :
    maybe Z :=
  if negb (length order =? length bytes_by_position)%nat then Err tt else
  let maximum_bytes := match bytes_by_position with [] => 0 | b :: bs => foldl Z.max b bs end in
  let channels := channels_for (ring_channels tn) maximum_bytes in
  rails_in_order ← rail_order tn;
  let rails := rails_for (length rails_in_order) channels in
  split ← mapM (fun bytes => balanced_sizes bytes channels) bytes_by_position;
  split_by_channel ← mapM (fun channel => mapM (fun position => index position channel) split) (seq 0 channels);
  channels_time (topology tn) rails_in_order rails (length (ring_order tn))
    (map (ring_transfers order) split_by_channel).

Definition peer_estimated_time_ns (tn : CollectiveTuning) (kind : CollectiveKind) (payload_bytes : Z) : maybe Z :=
  let ranks := length (ring_order tn) in
  if (ranks <=? 1)%nat then Ok 0 else
  rails ← rail_order tn;
  chunk_bytes ← div_ceil payload_bytes (Z.of_nat ranks);
  match kind with
  | KindAllReduce =>
      step ← multi_ring_step_time_ns tn chunk_bytes; Ok (saturating_mul 64 step (2 * (Z.of_nat ranks - 1)))
  | KindAllGather =>
      step ← multi_ring_step_time_ns tn payload_bytes; Ok (saturating_mul 64 step (Z.of_nat ranks - 1))
  | KindReduceScatter =>
      step ← multi_ring_step_time_ns tn chunk_bytes; Ok (saturating_mul 64 step (Z.of_nat ranks - 1))
  | KindAllToAll => pairwise_time_ns (topology tn) (ring_order tn) chunk_bytes (ring_channels tn) rails
  end.

(** The slowest group, each moving [bytes] between its leader and its other
    members one after the other. *)
Definition group_transfers (tn : CollectiveTuning) (groups : list (list nat))
    (route : nat -> nat -> maybe Z) : maybe Z :=
  times ← mapM (fun group =>
      leader ← index group 0;
      total_cost (fun rank => route leader rank) (tail group)) groups;
  Ok (match times with [] => 0 | time :: times => foldl Z.max time times end).

(** The ring over the leaders whose steps move the bytes of whole groups:
    [shift step] is the distance to the group a position sends. *)
Definition group_ring (tn : CollectiveTuning) (groups : list (list nat)) (leaders : list nat)
    (shift : nat -> nat) (bytes : Z) : maybe Z :=
  let n := length leaders in
  _ ← arith usize_bits (Z.of_nat n - 1);
  foldM (fun total step =>
      bytes_by_position ← mapM (fun position =>
          group ← index groups ((position + shift step) mod n);
          Ok (saturating_mul usize_bits (Z.of_nat (length group)) bytes)) (seq 0 n);
      time ← striped_ring_step_time_ns tn leaders bytes_by_position;
      Ok (saturating_add 64 total time)) 0 (seq 0 (n - 1)).

Definition hierarchical_estimated_time_ns (tn : CollectiveTuning) (kind : CollectiveKind) (payload_bytes : Z) :
    maybe Z :=
  groups ← ok_or (hierarchy_groups tn) tt;
  if bool_decide (kind = KindAllToAll) then Err tt else
  let t := topology tn in
  leaders ← mapM (fun group => index group 0) groups;
  local_gather ← group_transfers tn groups (fun leader rank => shortest_transfer_time_ns t rank leader payload_bytes);
  let n := length leaders in
  inter_collective ←
    match kind with
    | KindAllReduce =>
        chunk_bytes ← div_ceil payload_bytes (Z.of_nat n);
        step ← striped_ring_step_time_ns tn leaders (replicate n chunk_bytes);
        Ok (saturating_mul 64 step (2 * (Z.of_nat n - 1)))
    | KindReduceScatter =>
        shard_bytes ← div_ceil payload_bytes (Z.of_nat (length (ring_order tn)));
        group_ring tn groups leaders (fun step => n - 1 - step)%nat shard_bytes
    | KindAllGather => group_ring tn groups leaders (fun step => n - step)%nat payload_bytes
    | KindAllToAll => Panic
    end;
  let world_size := Z.of_nat (length (ring_order tn)) in
  shard_bytes ← div_ceil payload_bytes world_size;
  distributed ← match kind with
                | KindAllReduce => Ok payload_bytes
                | KindAllGather => Ok (saturating_mul usize_bits payload_bytes world_size)
                | KindReduceScatter => Ok shard_bytes
                | KindAllToAll => Panic
                end;
  local_distribute ← group_transfers tn groups (fun leader rank => shortest_transfer_time_ns t leader rank distributed);
  Ok (saturating_add 64 (saturating_add 64 local_gather inter_collective) local_distribute).

(** ** The plan *)
Definition peer_algorithm (kind : CollectiveKind) : CollectiveAlgorithm :=
  match kind with KindAllToAll => Pairwise | _ => Ring end.

(** The cheapest of the estimates; a later one only wins when it is less. *)
Definition cheapest_algorithm (kind : CollectiveKind) (direct : Z) (peer hierarchical : option Z) :
    CollectiveAlgorithm :=
  let best := (Direct, direct) in
  let best := match peer with
              | Some estimate => if estimate <? best.2 then (peer_algorithm kind, estimate) else best
              | None => best
              end in
  let best := if bool_decide (kind = KindAllToAll) then best
              else match hierarchical with
                   | Some estimate => if estimate <? best.2 then (Hierarchical, estimate) else best
                   | None => best
                   end in
  best.1.

Definition plan {E} (tn : CollectiveTuning) (kind : CollectiveKind) (payload_bytes : Z) : outcome E CollectivePlan :=
  direct ← direct_estimated_time_ns tn kind payload_bytes;
  peer ← to_option (peer_estimated_time_ns tn kind payload_bytes);
  hierarchical ← to_option (hierarchical_estimated_time_ns tn kind payload_bytes);
  let '(algorithm, source, measured, channels) :=
    if (length (ring_order tn) <=? 1)%nat then
      (Direct, match algorithm_policy tn with PolicyAuto => SourceModel | _ => SourcePolicy end,
       None, ring_channels tn)
    else
      match algorithm_policy tn with
      | PolicyDirect => (Direct, SourcePolicy, None, ring_channels tn)
      | PolicyRing => (peer_algorithm kind, SourcePolicy, None, ring_channels tn)
      | PolicyHierarchical =>
          (if bool_decide (kind = KindAllToAll) then peer_algorithm kind
           else match hierarchical with Some _ => Hierarchical | None => peer_algorithm kind end,
           SourcePolicy, None, ring_channels tn)
      | PolicyAuto =>
          match autotune_entry tn kind payload_bytes with
          | Some e => (entry_algorithm e, SourceAutotune, Some (measured_time_ns e), entry_ring_channels e)
          | None =>
              if payload_bytes <? ring_threshold_bytes tn
              then (Direct, SourceModel, None, ring_channels tn)
              else (cheapest_algorithm kind direct peer hierarchical, SourceModel, None, ring_channels tn)
          end
      end in
  let estimated :=
    match measured with
    | Some time => time
    | None =>
        match algorithm with
        | Direct => direct
        | Ring | Pairwise => default U64_MAX peer
        | Hierarchical => default U64_MAX hierarchical
        end
    end in
  Ok (mkPlan algorithm source estimated direct peer hierarchical channels).

(** ** Construction *)
Definition from_topology (policy : AlgorithmPolicy) (ring_threshold_bytes : Z) (t : CollectiveTopology)
    (order : option (list nat)) : tresult CollectiveTuning :=
  order ← match order with Some order => Ok order | None => best_ring_order t end;
  _ ← validate_ring_order (world_size t) order;
  orders ← ring_orders_with_primary t order;
  Ok (mkTuning policy ring_threshold_bytes order orders 1 1 None None t
        DEFAULT_BANDWIDTH_MBPS DEFAULT_LATENCY_NS TcpHostStaged None).

Definition new (policy : AlgorithmPolicy) (ring_threshold_bytes : Z) (order : list nat) : tresult CollectiveTuning :=
  _ ← fail_if (2 ^ 32 <=? Z.of_nat (length order)) (InvalidRing "ring is too large");
  t ← uniform (length order);
  from_topology policy ring_threshold_bytes t (Some order).

(** [if let Some(profile) = &self.autotune_profile { self.validate_autotune_profile(profile)?; }] *)
Definition revalidated (tn : CollectiveTuning) : tresult CollectiveTuning :=
  _ ← match autotune_profile tn with
      | Some profile => validate_autotune_profile tn profile
      | None => Ok tt
      end;
  Ok tn.

Definition with_direct_transport (tn : CollectiveTuning) (bandwidth latency : Z) : tresult CollectiveTuning :=
  _ ← fail_if (bandwidth =? 0) ZeroDirectBandwidth;
  revalidated (mkTuning (algorithm_policy tn) (ring_threshold_bytes tn) (ring_order tn) (ring_orders tn)
    (ring_channels tn) (p2p_rails tn) (rail_order_override tn) (hierarchy_groups tn) (topology tn)
    bandwidth latency (tuning_transport tn) (autotune_profile tn)).

Definition with_transport (tn : CollectiveTuning) (transport : CollectiveTransport) : tresult CollectiveTuning :=
  revalidated (mkTuning (algorithm_policy tn) (ring_threshold_bytes tn) (ring_order tn) (ring_orders tn)
    (ring_channels tn) (p2p_rails tn) (rail_order_override tn) (hierarchy_groups tn) (topology tn)
    (direct_bandwidth_mbps tn) (direct_latency_ns tn) transport (autotune_profile tn)).

(** [self.hierarchy_groups = groups] *)
Definition set_hierarchy (tn : CollectiveTuning) (groups : option (list (list nat))) : CollectiveTuning :=
  mkTuning (algorithm_policy tn) (ring_threshold_bytes tn) (ring_order tn) (ring_orders tn)
    (ring_channels tn) (p2p_rails tn) (rail_order_override tn) groups (topology tn)
    (direct_bandwidth_mbps tn) (direct_latency_ns tn) (tuning_transport tn) (autotune_profile tn).

Definition with_hierarchy (tn : CollectiveTuning) (groups : list (list nat)) : tresult CollectiveTuning :=
  _ ← validate_hierarchy_groups (world_size (topology tn)) groups;
  revalidated (set_hierarchy tn (Some groups)).

(** Vectors of groups compare lexicographically. *)
Definition groups_ltb (a b : list (list nat)) : bool :=
  match lex (lex Nat.compare) a b with Lt => true | _ => false end.

(** The score of one candidate: the sum of its three estimates. *)
Definition hierarchy_score (tn : CollectiveTuning) (payload_bytes : Z) (groups : list (list nat)) : maybe Z :=
  foldM (fun total kind =>
      estimate ← hierarchical_estimated_time_ns (set_hierarchy tn (Some groups)) kind payload_bytes;
      Ok (saturating_add 128 total estimate)) 0 [KindAllReduce; KindAllGather; KindReduceScatter].

Definition with_inferred_hierarchy (tn : CollectiveTuning) (payload_bytes : Z) : tresult CollectiveTuning :=
  _ ← fail_if (payload_bytes =? 0) (InvalidHierarchy "automatic grouping payload must be greater than zero");
  candidates ← hierarchy_candidates (topology tn) payload_bytes;
  best ← foldM (fun best groups =>
      score ← to_option (hierarchy_score tn payload_bytes groups);
      Ok (match score with
          | None => best
          | Some score =>
              match best with
              | None => Some (score, groups)
              | Some (best_score, best_groups) =>
                  if (score <? best_score) || (score =? best_score) && groups_ltb groups best_groups
                  then Some (score, groups) else best
              end
          end)) None candidates;
  '(_, groups) ← ok_or best (InvalidHierarchy "automatic grouping found no distinct fast-link domains");
  revalidated (set_hierarchy tn (Some groups)).

Definition with_ring_channels (tn : CollectiveTuning) (channels : nat) : tresult CollectiveTuning :=
  _ ← validate_ring_channels (Z.of_nat channels);
  revalidated (mkTuning (algorithm_policy tn) (ring_threshold_bytes tn) (ring_order tn) (ring_orders tn)
    channels (p2p_rails tn) (rail_order_override tn) (hierarchy_groups tn) (topology tn)
    (direct_bandwidth_mbps tn) (direct_latency_ns tn) (tuning_transport tn) (autotune_profile tn)).

Definition with_p2p_rails (tn : CollectiveTuning) (rails : nat) : tresult CollectiveTuning :=
  _ ← validate_p2p_rails (Z.of_nat rails);
  _ ← match rail_order_override tn with
      | Some order => validate_rail_order rails order
      | None => Ok tt
      end;
  revalidated (mkTuning (algorithm_policy tn) (ring_threshold_bytes tn) (ring_order tn) (ring_orders tn)
    (ring_channels tn) rails (rail_order_override tn) (hierarchy_groups tn) (topology tn)
    (direct_bandwidth_mbps tn) (direct_latency_ns tn) (tuning_transport tn) (autotune_profile tn)).

Definition with_rail_order (tn : CollectiveTuning) (order : list nat) : tresult CollectiveTuning :=
  _ ← validate_rail_order (p2p_rails tn) order;
  revalidated (mkTuning (algorithm_policy tn) (ring_threshold_bytes tn) (ring_order tn) (ring_orders tn)
    (ring_channels tn) (p2p_rails tn) (Some order) (hierarchy_groups tn) (topology tn)
    (direct_bandwidth_mbps tn) (direct_latency_ns tn) (tuning_transport tn) (autotune_profile tn)).

Definition set_profile (tn : CollectiveTuning) (profile : CollectiveAutotuneProfile) : CollectiveTuning :=
  mkTuning (algorithm_policy tn) (ring_threshold_bytes tn) (ring_order tn) (ring_orders tn)
    (ring_channels tn) (p2p_rails tn) (rail_order_override tn) (hierarchy_groups tn) (topology tn)
    (direct_bandwidth_mbps tn) (direct_latency_ns tn) (tuning_transport tn) (Some profile).

Definition with_autotune_profile (tn : CollectiveTuning) (profile : CollectiveAutotuneProfile) :
    tresult CollectiveTuning :=
  _ ← validate_autotune_profile tn profile; Ok (set_profile tn profile).
