(* ===== verification/Autotune.v ===== *)
(** * Autotune profiles: src/src/rank/topology.rs

    A validated profile is unambiguous: its entries are well formed and no
    payload of a collective is covered by two of them, so that the first match
    of [autotune_entry] is the only one. *)
From stdpp Require Import sorting.
From S2P Require Import Prelude Comp Device Topology ShortestPath RingSearch TopologyText Planner Tuning.

(** ** Ranges *)
Definition covers (kind : CollectiveKind) (b : Z) (e : CollectiveAutotuneEntry) : Prop :=
  entry_operation e = kind /\ min_payload_bytes e <= b /\ b <= max_payload_bytes e.
#[export] Instance covers_dec kind b e : Decision (covers kind b e).
Proof. unfold covers. apply _. Defined.

Definition contains (b : Z) (r : Z * Z) : Prop := r.1 <= b /\ b <= r.2.
#[export] Instance contains_dec b r : Decision (contains b r).
Proof. unfold contains. apply _. Defined.

#[export] Instance range_leb_trans : Transitive range_leb.
Proof. intros [a b] [c d] [e f]. unfold range_leb. cbn. lia. Qed.
#[export] Instance range_leb_total : Total range_leb.
Proof. intros [a b] [c d]. unfold range_leb. cbn. lia. Qed.

(** The check of neighbours decides that every earlier range ends before every
    later one begins. *)
Lemma check_windows_no_panic l : no_panic (check_windows l).
Proof.
  induction l as [|a [|b l] IH]; [done|done|]. cbn [check_windows]. apply bind_no_panic; [auto with rust|done].
Qed.

Lemma check_windows_disjoint l :
  Forall (fun r => r.1 <= r.2) l -> check_windows l = Ok tt ->
  forall i j a b, (i < j)%nat -> l !! i = Some a -> l !! j = Some b -> a.2 < b.1.
Proof.
  intros Hr. induction Hr as [|a l Ha Hl IH]; [done|]. intros Hw i j x y Hij Hi Hj.
  destruct l as [|b l]; [destruct j; [lia|done]|]. cbn [check_windows] in Hw. inv_ok.
  apply Z.leb_gt in Hv. destruct j as [|j]; [lia|]. destruct i as [|i]; cbn in Hi, Hj.
  - injection Hi as <-. destruct j as [|j]; cbn in Hj; [by injection Hj as <-|].
    apply Forall_cons in Hl as [Hb _].
    specialize (IH Hw 0%nat (S j) b y ltac:(lia) eq_refl Hj). lia.
  - by eapply (IH Hw i j); [lia|..].
Qed.

Lemma disjoint_filter l b :
  (forall i j r s, (i < j)%nat -> l !! i = Some r -> l !! j = Some s -> r.2 < s.1) ->
  (length (filter (contains b) l) <= 1)%nat.
Proof.
  induction l as [|r l IH]; intros Hd; [cbn; lia|].
  assert (Hl : (length (filter (contains b) l) <= 1)%nat).
  { apply IH. intros i j x y Hij Hi Hj. by apply (Hd (S i) (S j)); [lia|..]. }
  rewrite filter_cons. case_decide as Hc; [|done]. cbn [length].
  destruct (filter (contains b) l) as [|s k] eqn:Hf; [cbn; lia|]. exfalso.
  assert (Hs : s ∈ filter (contains b) l) by (rewrite Hf; left).
  apply list_elem_of_filter in Hs as [[Hs _] [j Hj]%list_elem_of_lookup].
  specialize (Hd 0%nat (S j) r s ltac:(lia) eq_refl Hj). destruct Hc. lia.
Qed.

Lemma ranges_of_filter kind b entries :
  length (filter (contains b) (ranges_of kind entries)) = length (filter (covers kind b) entries).
Proof.
  unfold ranges_of. induction entries as [|e entries IH]; [done|]. rewrite !filter_cons.
  destruct (decide (entry_operation e = kind)) as [Hk|Hk].
  - cbn [map]. rewrite filter_cons. unfold contains at 1, covers at 1. cbn [fst snd].
    destruct (decide (min_payload_bytes e <= b /\ b <= max_payload_bytes e)) as [Hb|Hb].
    + rewrite !decide_True by (unfold contains, covers; tauto). cbn [length]. by f_equal.
    + rewrite !decide_False by (unfold contains, covers; tauto). done.
  - rewrite (decide_False (P := covers kind b e)) by (unfold covers; tauto). done.
Qed.

(** ** Entries *)
Record entry_ok (groups : option (list (list nat))) (e : CollectiveAutotuneEntry) : Prop := {
  entry_range : min_payload_bytes e <= max_payload_bytes e;
  entry_time : measured_time_ns e <> 0;
  entry_channels : 1 <= Z.of_nat (entry_ring_channels e) <= MAX_RING_CHANNELS;
  entry_executes : valid_algorithm e = true;
  entry_groups : entry_algorithm e = Hierarchical -> is_Some groups;
}.

Definition unambiguous (entries : list CollectiveAutotuneEntry) : Prop :=
  forall kind b, (length (filter (covers kind b) entries) <= 1)%nat.

Definition profile_ok (groups : option (list (list nat))) (profile : CollectiveAutotuneProfile) : Prop :=
  profile_entries profile <> [] /\ Forall (entry_ok groups) (profile_entries profile)
  /\ unambiguous (profile_entries profile).

Lemma validate_ring_channels_Ok n : 0 <= n -> validate_ring_channels n = Ok tt <-> 1 <= n <= MAX_RING_CHANNELS.
Proof. intros Hn. unfold validate_ring_channels. rewrite fail_if_Ok, orb_false_iff, Z.eqb_neq, Z.ltb_ge. lia. Qed.

Lemma validate_p2p_rails_Ok n : 0 <= n -> validate_p2p_rails n = Ok tt <-> 1 <= n <= MAX_P2P_RAILS.
Proof. intros Hn. unfold validate_p2p_rails. rewrite fail_if_Ok, orb_false_iff, Z.eqb_neq, Z.ltb_ge. lia. Qed.

Lemma validate_entry_Ok tn e : validate_entry tn e = Ok tt <-> entry_ok (hierarchy_groups tn) e.
Proof.
  unfold validate_entry. split.
  - intros H. inv_ok. destruct v1. apply validate_ring_channels_Ok in Hv1; [|lia]. split; [lia|lia|done| |].
    + by apply negb_false_iff.
    + intros Hh. rewrite bool_decide_true in H by done. cbn in H. by destruct (hierarchy_groups tn).
  - intros [Hr Ht Hc Hx Hg].
    rewrite (proj2 (Z.ltb_ge _ _)), (proj2 (Z.eqb_neq _ _)) by lia. cbn [fail_if mbind outcome_bind].
    rewrite (proj2 (map_err_Ok _ _ tt)) by (apply validate_ring_channels_Ok; [lia|done]). cbn [mbind outcome_bind].
    rewrite Hx. cbn [negb fail_if mbind outcome_bind]. apply fail_if_Ok, andb_false_iff.
    destruct (decide (entry_algorithm e = Hierarchical)) as [Hh|Hh].
    + right. by destruct (Hg Hh) as [g ->].
    + left. by apply bool_decide_false.
Qed.

Lemma validate_entry_no_panic tn e : no_panic (validate_entry tn e).
Proof.
  unfold validate_entry, validate_ring_channels. repeat (apply bind_no_panic; [|intros]); auto with rust.
  apply map_err_no_panic. auto with rust.
Qed.

Lemma foldM_unit_Ok {E A} (f : A -> outcome E unit) l :
  foldM (fun _ x => f x) tt l = Ok tt <-> Forall (fun x => f x = Ok tt) l.
Proof.
  split.
  - induction l as [|x l IH]; intros H; cbn [foldM] in H; [constructor|]. inv_ok. destruct v. constructor; auto.
  - induction 1 as [|x l Hx _ IH]; cbn [foldM]; [done|]. rewrite Hx. exact IH.
Qed.

(** What the checks of a profile accept has well formed entries, of which no
    payload meets two. *)
Lemma validated_profile_ok tn profile links rails aggregate allow :
  validate_autotune_profile_with_detected tn profile links rails aggregate allow = Ok tt ->
  profile_ok (hierarchy_groups tn) profile.
Proof.
  unfold validate_autotune_profile_with_detected. intros H. inv_ok.
  repeat match goal with v : unit |- _ => destruct v end.
  apply Nat.eqb_neq in Hv4. apply foldM_unit_Ok in Hv5, H.
  assert (He : Forall (entry_ok (hierarchy_groups tn)) (profile_entries profile)).
  { eapply Forall_impl; [exact Hv5|]. intros e. apply validate_entry_Ok. }
  split; [by intros Hn; rewrite Hn in Hv4|]. split; [done|]. intros kind b. rewrite <- ranges_of_filter.
  assert (Hk : check_windows (merge_sort range_leb (ranges_of kind (profile_entries profile))) = Ok tt).
  { apply (proj1 (Forall_forall _ _) H). destruct kind; set_solver. }
  rewrite <- (merge_sort_Permutation range_leb (ranges_of _ _)). apply disjoint_filter.
  apply check_windows_disjoint; [|exact Hk]. rewrite merge_sort_Permutation. unfold ranges_of.
  apply Forall_fmap, Forall_forall. intros e [_ Hin]%list_elem_of_filter. apply (proj1 (Forall_forall _ _) He e Hin).
Qed.

(** ** Validation does not panic *)
Lemma matrix_words_total {E A} (P : A -> Prop) m w (words : A -> list Z) :
  matrix_ok P w m -> exists ws, matrix_words (E:=E) m w words = Ok ws.
Proof.
  intros [Hl Hr _ _ _]. unfold matrix_words.
  destruct (mapM_total (E:=E) (fun p => v ← cell m p.1 p.2; Ok (pair_words words p v)) (rank_pairs w)) as [ws Hws].
  { intros [i j] Hij%elem_of_rank_pairs. cbn. rewrite (cell_ok w) by (done || lia). by eexists. }
  rewrite Hws. by eexists.
Qed.

Lemma matrix_matches_total {E A} (P : A -> Prop) w same m m' :
  matrix_ok P w m -> matrix_ok P w m' -> exists b, matrix_matches (E:=E) w same m m' = Ok b.
Proof.
  intros [Hl Hr _ _ _] [Hl' Hr' _ _ _]. unfold matrix_matches.
  match goal with |- exists b, foldM ?f ?s ?l = _ =>
    destruct (foldM_total (fun _ => True) f s l) as (b & Hb & _); [done| |by exists b] end.
  intros s [i j] _ Hij%elem_of_rank_pairs. destruct s; [|by eexists].
  rewrite !(cell_ok w) by (done || cbn; lia). by eexists.
Qed.

Lemma rail_order_total {E} tn : topology_ok (topology tn) -> exists order, rail_order (E:=E) tn = Ok order.
Proof.
  intros Ht. unfold rail_order. destruct (rail_order_override tn) as [order|]; [by eexists|].
  destruct (preferred_rail_order_ok (topology tn) Ht (E:=E) (p2p_rails tn)) as (order & Ho & _). by exists order.
Qed.

Lemma topology_fingerprint_total {E} tn : topology_ok (topology tn) -> exists h, topology_fingerprint (E:=E) tn = Ok h.
Proof.
  intros Ht. unfold topology_fingerprint.
  destruct (matrix_words_total (E:=E) cost_ok (links (topology tn)) (world_size (topology tn)) cost_words) as [a ->];
    [apply Ht|]. cbn [mbind outcome_bind].
  assert (Hrails : exists ws, mapM (M:=outcome E) (fun '(rail, m) =>
      words ← matrix_words m (world_size (topology tn)) cost_words; Ok (Z.of_nat rail :: words))
      (enumerate (rail_links (topology tn))) = Ok ws).
  { apply mapM_total. intros [i m] [k Hk]%list_elem_of_lookup. apply lookup_enumerate in Hk as (m' & Hm & [= -> ->]).
    destruct (matrix_words_total (E:=E) cost_ok m' (world_size (topology tn)) cost_words) as [ws ->]; [|by eexists].
    by apply (proj1 (Forall_lookup _ _) (topology_rails _ Ht) _ _ Hm). }
  destruct Hrails as [rw Hrw].
  assert (Hif : exists ws, (if (length (rail_links (topology tn)) =? 0)%nat then Ok [] else
      per_rail ← mapM (fun '(rail, m) =>
          words ← matrix_words m (world_size (topology tn)) cost_words; Ok (Z.of_nat rail :: words))
        (enumerate (rail_links (topology tn)));
      Ok (E:=E) (0x47585241494c4c4b :: Z.of_nat (length (rail_links (topology tn))) :: concat per_rail)) = Ok ws).
  { destruct (_ =? 0)%nat; [by eexists|]. rewrite Hrw. by eexists. }
  destruct Hif as [b ->]. cbn [mbind outcome_bind].
  destruct (matrix_words_total (E:=E) bandwidth_ok (aggregate_links (topology tn)) (world_size (topology tn)) (fun b => [b]))
    as [c Hc]; [apply Ht|]. rewrite Hc.
  destruct (rail_order_total (E:=E) tn Ht) as [order ->].
  destruct (existsb _ _); cbn [mbind outcome_bind]; by eexists.
Qed.

Lemma fingerprint_hex_total {E} tn : topology_ok (topology tn) -> exists h, topology_fingerprint_hex (E:=E) tn = Ok h.
Proof.
  intros Ht. unfold topology_fingerprint_hex. destruct (topology_fingerprint_total (E:=E) tn Ht) as [h ->]. by eexists.
Qed.

Lemma probed_topology_matches_total {E} t t' :
  topology_ok t -> topology_ok t' -> exists b, probed_topology_matches (E:=E) t t' = Ok b.
Proof.
  intros Ht Ht'. unfold probed_topology_matches.
  destruct (Nat.eqb_spec (world_size t) (world_size t')) as [Hw|]; cbn [negb]; [|by eexists].
  destruct (matrix_matches_total (E:=E) cost_ok (world_size t) cost_matches (links t) (links t')) as [[] ->];
    [apply Ht|rewrite Hw; apply Ht'| |by eexists]. cbn [mbind outcome_bind negb].
  destruct (_ =? _)%nat; cbn [negb]; [|by eexists].
  match goal with |- exists b, (foldM ?f ?s ?l ≫= _) = _ =>
    destruct (foldM_total (fun _ => True) f s l) as (rails & -> & _); [done| |] end.
  { intros s [a b] _ Hin. destruct s; [|by eexists].
    destruct (matrix_matches_total (E:=E) cost_ok (world_size t) cost_matches a b) as [r ->]; [| |by eexists].
    - apply elem_of_zip_l in Hin. by apply (proj1 (Forall_forall _ _) (topology_rails _ Ht)).
    - apply elem_of_zip_r in Hin. rewrite Hw. by apply (proj1 (Forall_forall _ _) (topology_rails _ Ht')). }
  cbn [mbind outcome_bind]. destruct rails; cbn [negb]; [|by eexists].
  apply (matrix_matches_total bandwidth_ok); [apply Ht|rewrite Hw; apply Ht'].
Qed.

Lemma detected_matches_no_panic tn fingerprint encoded rails aggregate :
  topology_ok (topology tn) -> no_panic (detected_matches tn fingerprint encoded rails aggregate).
Proof.
  intros Ht. unfold detected_matches.
  destruct (parse_topology_links_ok (Z.to_nat (wrap 32 (Z.of_nat (length (ring_order tn))))) encoded) as [Hn Hp].
  { pose proof (wrap_range 32 (Z.of_nat (length (ring_order tn))) ltac:(lia)) as [? ?]. lia. }
  apply bind_no_panic; [done|]. intros t1 H1. destruct (Hp t1 H1) as [Ht1 _].
  assert (H2 : no_panic (match rails with
     | Some encoded => parse_topology_rail_links t1 encoded (p2p_rails tn) | None => Ok t1 end) /\
     forall t2, match rails with
     | Some encoded => parse_topology_rail_links t1 encoded (p2p_rails tn) | None => Ok t1 end = Ok t2 -> topology_ok t2).
  { destruct rails as [text|]; [|split; [done|by intros ? [= <-]]].
    destruct (parse_topology_rail_links_ok t1 text (p2p_rails tn) Ht1) as [? Ha]. split; [done|].
    intros t2 H2. by apply Ha. }
  apply bind_no_panic; [apply H2|]. intros t2 Ht2%H2.
  assert (H3 : no_panic (match aggregate with
     | Some encoded => parse_topology_aggregate_links t2 encoded | None => Ok t2 end) /\
     forall t3, match aggregate with
     | Some encoded => parse_topology_aggregate_links t2 encoded | None => Ok t2 end = Ok t3 -> topology_ok t3).
  { destruct aggregate as [text|]; [|split; [done|by intros ? [= <-]]].
    destruct (parse_topology_aggregate_links_ok t2 text Ht2) as [? Ha]. split; [done|]. intros t3 H3. by apply Ha. }
  apply bind_no_panic; [apply H3|]. intros t3 Ht3%H3.
  destruct (probed_topology_matches_total (E:=TopologyError) (topology tn) t3 Ht Ht3) as [[] ->];
    cbn [mbind outcome_bind negb]; [|done].
  destruct (rail_order_total (E:=TopologyError) tn Ht) as [o ->].
  destruct (rail_order_total (E:=TopologyError) (with_topology tn t3) Ht3) as [o' ->]. cbn [mbind outcome_bind].
  destruct (bool_decide _); cbn [negb]; [|done].
  by destruct (fingerprint_hex_total (E:=TopologyError) (with_topology tn t3) Ht3) as [h ->].
Qed.

Lemma validate_profile_no_panic tn profile links rails aggregate allow :
  topology_ok (topology tn) ->
  no_panic (validate_autotune_profile_with_detected tn profile links rails aggregate allow).
Proof.
  intros Ht. unfold validate_autotune_profile_with_detected.
  do 2 (apply bind_no_panic; [auto with rust|intros]).
  destruct (fingerprint_hex_total (E:=TopologyError) tn Ht) as [h ->]. cbn [mbind outcome_bind].
  apply bind_no_panic; [|intros].
  { destruct (bool_decide _); [done|]. apply bind_no_panic; [|intros; auto with rust].
    destruct links; [|done]. destruct allow; [|done]. by apply detected_matches_no_panic. }
  do 2 (apply bind_no_panic; [auto with rust|intros]).
  apply bind_no_panic; [|intros].
  - apply (foldM_no_panic (fun _ => True)); [done|]. intros s e _ _. split; [apply validate_entry_no_panic|done].
  - apply (foldM_no_panic (fun _ => True)); [done|]. intros s k _ _. split; [apply check_windows_no_panic|done].
Qed.

(** Autotune profiles are unambiguous.  In a profile that passed
    [validate_autotune_profile_with_detected], on the configured topology or on
    a detected one, the entry a payload looks up is the only entry of that
    collective whose range contains it, and it exists whenever there is one. *)
Theorem autotune_entry_unique tn profile links rails aggregate allow kind b :
  validate_autotune_profile_with_detected tn profile links rails aggregate allow = Ok tt ->
  match autotune_entry (set_profile tn profile) kind b with
  | Some e => filter (covers kind b) (profile_entries profile) = [e]
  | None => Forall (fun e => ~ covers kind b e) (profile_entries profile)
  end.
Proof.
  intros Hv. apply validated_profile_ok in Hv as (_ & _ & Hu). unfold autotune_entry. cbn.
  set (P := fun e => _). destruct (list_find P (profile_entries profile)) as [[i e]|] eqn:Hf; cbn.
  - apply list_find_Some in Hf as (Hi & HP & _). specialize (Hu kind b).
    assert (He : e ∈ filter (covers kind b) (profile_entries profile)).
    { apply list_elem_of_filter. split; [exact HP|]. by eapply list_elem_of_lookup_2. }
    destruct (filter (covers kind b) (profile_entries profile)) as [|e1 [|e2 l]];
      [by apply not_elem_of_nil in He| |cbn in Hu; lia].
    apply list_elem_of_singleton in He. by subst.
  - apply list_find_None in Hf. exact Hf.
Qed.

(** ** An instance *)
Definition measured (tn : CollectiveTuning) : tresult CollectiveAutotuneProfile :=
  fingerprint ← topology_fingerprint_hex tn;
  Ok (mkProfile 2 (Z.of_nat (length (ring_order tn))) fingerprint (execution_fingerprint_hex tn)
    [mkEntry KindAllReduce 0 4096 Direct 1 900; mkEntry KindAllGather 0 8192 Ring 2 700;
     mkEntry KindAllReduce 4097 1048576 Ring 4 5000]).

Lemma autotune_entry_unique_witness :
  exists tn profile, new PolicyAuto 64 [0; 1; 2]%nat = Ok tn /\ measured tn = Ok profile /\
    validate_autotune_profile_with_detected tn profile None None None false = Ok tt /\
    filter (covers KindAllReduce 5000) (profile_entries profile) = [mkEntry KindAllReduce 4097 1048576 Ring 4 5000].
Proof.
  destruct (new PolicyAuto 64 [0; 1; 2]%nat) as [tn|e|] eqn:Hn; [|vm_compute in Hn; discriminate Hn..].
  vm_compute in Hn. injection Hn as <-.
  match goal with |- exists t p, Ok ?tn = _ /\ _ =>
    destruct (measured tn) as [profile|e|] eqn:Hm; [|vm_compute in Hm; discriminate Hm..];
    exists tn, profile; split; [done|]; split; [exact Hm|];
    assert (Hv : validate_autotune_profile_with_detected tn profile None None None false = Ok tt)
      by (vm_compute in Hm; injection Hm as <-; vm_compute; reflexivity);
    split; [exact Hv|];
    pose proof (autotune_entry_unique tn profile None None None false KindAllReduce 5000 Hv) as Hu
  end.
  vm_compute in Hm. injection Hm as <-. exact Hu.
Defined.
