(* ===== verification/TuningInvariant.v ===== *)
(** * The invariant of a tuning: src/src/rank/topology.rs

    Every constructor and every [with_*] of [CollectiveTuning] that does not read
    the environment keeps a tuning well formed: orders are permutations of the ranks or of the rails, groups
    partition the ranks, counts are in range, the profile is unambiguous. *)
From S2P Require Import Prelude Comp Device Topology ShortestPath RingSearch Hierarchy Planner Tuning Autotune.

Record tuning_ok (tn : CollectiveTuning) : Prop := {
  tuning_topology : topology_ok (topology tn);
  tuning_order : ring_order tn ≡ₚ seq 0 (world_size (topology tn));
  tuning_orders : exists others, ring_orders tn = ring_order tn :: others;
  tuning_orders_ok : Forall (fun order => order ≡ₚ seq 0 (world_size (topology tn))) (ring_orders tn);
  tuning_channels : 1 <= Z.of_nat (ring_channels tn) <= MAX_RING_CHANNELS;
  tuning_rails : 1 <= Z.of_nat (p2p_rails tn) <= MAX_P2P_RAILS;
  tuning_rail_order : forall order, rail_order_override tn = Some order -> order ≡ₚ seq 0 (p2p_rails tn);
  tuning_groups : forall groups, hierarchy_groups tn = Some groups ->
    hierarchy_ok (world_size (topology tn)) groups;
  tuning_direct : 0 < direct_bandwidth_mbps tn < 2 ^ 64 /\ 0 <= direct_latency_ns tn < 2 ^ 64;
  tuning_profile : forall profile, autotune_profile tn = Some profile -> profile_ok (hierarchy_groups tn) profile;
}.

(** The public construction of a tuning, with arguments of their Rust types.  The two constructions that read the
    environment, [from_environment] and [with_autotune_profile_path], are in [Environment], where the same invariant is
    proved of them. *)
Inductive tuned : CollectiveTuning -> Prop :=
  | tuned_new policy threshold order tn : new policy threshold order = Ok tn -> tuned tn
  | tuned_topology policy threshold t order tn :
      built t -> from_topology policy threshold t order = Ok tn -> tuned tn
  | tuned_direct tn bandwidth latency tn' :
      tuned tn -> 0 <= bandwidth < 2 ^ 64 -> 0 <= latency < 2 ^ 64 ->
      with_direct_transport tn bandwidth latency = Ok tn' -> tuned tn'
  | tuned_transport tn transport tn' : tuned tn -> with_transport tn transport = Ok tn' -> tuned tn'
  | tuned_hierarchy tn groups tn' : tuned tn -> with_hierarchy tn groups = Ok tn' -> tuned tn'
  | tuned_inferred tn payload_bytes tn' :
      tuned tn -> 0 <= payload_bytes < 2 ^ 64 -> with_inferred_hierarchy tn payload_bytes = Ok tn' -> tuned tn'
  | tuned_channels tn channels tn' : tuned tn -> with_ring_channels tn channels = Ok tn' -> tuned tn'
  | tuned_rails tn rails tn' : tuned tn -> with_p2p_rails tn rails = Ok tn' -> tuned tn'
  | tuned_rail_order tn order tn' : tuned tn -> with_rail_order tn order = Ok tn' -> tuned tn'
  | tuned_profile tn profile tn' : tuned tn -> with_autotune_profile tn profile = Ok tn' -> tuned tn'.

Section orders.
Context (t : CollectiveTopology) (Hok : topology_ok t).

(** The primary order, then other permutations. *)
Lemma ring_orders_with_primary_ok {E} primary :
  primary ≡ₚ seq 0 (world_size t) ->
  exists others, ring_orders_with_primary (E:=E) t primary = Ok (primary :: others) /\
    Forall (fun order => order ≡ₚ seq 0 (world_size t)) others.
Proof using Hok.
  intros Hp. unfold ring_orders_with_primary.
  destruct (best_ring_orders_permutations t Hok (Z.to_nat MAX_RING_CHANNELS)) as [Hn Hc].
  destruct (best_ring_orders t _) as [candidates|e|]; [|by exists []|done].
  destruct (Hc candidates eq_refl) as [Hall _]. clear Hn Hc.
  match goal with |- context [foldl ?f [primary] candidates] =>
    enough (Hgen : forall cs others, Forall (fun order => order ≡ₚ seq 0 (world_size t)) cs ->
        Forall (fun order => order ≡ₚ seq 0 (world_size t)) others ->
        exists others', foldl f (primary :: others) cs = primary :: others' /\
          Forall (fun order => order ≡ₚ seq 0 (world_size t)) others')
  end.
  { destruct (Hgen candidates [] Hall ltac:(constructor)) as (others & -> & Ho). by exists others. }
  induction cs as [|c cs IH]; intros others Hcs Ho; cbn [foldl]; [by exists others|].
  apply Forall_cons in Hcs as [Hcp Hcs]. case_match; [|by apply IH].
  change ((primary :: others) ++ [c]) with (primary :: (others ++ [c])). apply IH; [done|].
  apply Forall_app. by repeat constructor.
Qed.

Lemma best_ring_order_no_panic : no_panic (best_ring_order t).
Proof using Hok.
  unfold best_ring_order. destruct (best_ring_orders_permutations t Hok 1) as [Hn Hc].
  apply bind_no_panic; [done|]. intros orders Ho. destruct (Hc orders Ho) as [_ Hne].
  by destruct orders; [specialize (Hne ltac:(lia))|].
Qed.
End orders.

Lemma from_topology_ok policy threshold t order :
  topology_ok t ->
  no_panic (from_topology policy threshold t order) /\
  forall tn, from_topology policy threshold t order = Ok tn -> tuning_ok tn.
Proof.
  intros Hok. unfold from_topology. split.
  - apply bind_no_panic; [destruct order; [done|by apply best_ring_order_no_panic]|]. intros o _.
    apply bind_no_panic; [apply validate_ring_order_no_panic|]. intros [] [_ Hp]%validate_ring_order_Ok.
    by destruct (ring_orders_with_primary_ok t Hok (E:=TopologyError) o Hp) as (others & -> & _).
  - intros tn H. inv_ok. destruct v0. apply validate_ring_order_Ok in Hv0 as [_ Hp].
    destruct (ring_orders_with_primary_ok t Hok (E:=TopologyError) v Hp) as (others & Ho & Hall).
    rewrite Hv1 in Ho. injection Ho as ->.
    split; cbn; [done|done|by eexists|by constructor|unfold MAX_RING_CHANNELS; lia|unfold MAX_P2P_RAILS; lia|done|done| |done].
    unfold DEFAULT_BANDWIDTH_MBPS, DEFAULT_LATENCY_NS. lia.
Qed.

Lemma new_ok policy threshold order tn : new policy threshold order = Ok tn -> tuning_ok tn.
Proof.
  unfold new. intros H. inv_ok. apply Z.leb_gt in Hv.
  eapply from_topology_ok; [|exact H]. by eapply uniform_ok.
Qed.

(** A changed tuning keeps its profile only when the profile is valid for it. *)
Lemma revalidated_Ok tn tn' :
  revalidated tn = Ok tn' ->
  tn' = tn /\ forall profile, autotune_profile tn = Some profile -> profile_ok (hierarchy_groups tn) profile.
Proof.
  unfold revalidated. intros H. inv_ok. split; [done|]. intros profile Hp. rewrite Hp in Hv. destruct v.
  by eapply validated_profile_ok.
Qed.

(** Groups of the inference are among its candidates. *)
Lemma with_inferred_hierarchy_Ok tn payload_bytes tn' :
  tuning_ok tn -> 0 <= payload_bytes < 2 ^ 64 -> with_inferred_hierarchy tn payload_bytes = Ok tn' ->
  exists groups, hierarchy_ok (world_size (topology tn)) groups /\ revalidated (set_hierarchy tn (Some groups)) = Ok tn'.
Proof.
  intros Hok Hb H. unfold with_inferred_hierarchy in H. inv_ok.
  destruct (hierarchy_candidates_sound (topology tn) (tuning_topology _ Hok) payload_bytes Hb)
    as (candidates & Hc & _ & Hall).
  rewrite Hc in Hv0. injection Hv0 as <-. destruct v2 as [score groups]. exists groups. split; [|done].
  assert (Hin : forall s g, v1 = Some (s, g) -> g ∈ candidates); [|].
  { eapply (foldM_invariant (fun best => forall s g, best = Some (s, g) -> g ∈ candidates)); [| |exact Hv1]; [done|].
    intros best g best' Hbest Hg Hstep s' g' ->. inv_ok.
    destruct v0 as [sc|]; [|by eapply Hbest].
    destruct best as [[bs bg]|]; [|by simplify_eq].
    case_match; [by simplify_eq|by eapply Hbest]. }
  apply validate_hierarchy_groups_Ok, (proj1 (Forall_forall _ _) Hall), (Hin score). exact Hv2.
Qed.

(** C34: The type invariant of a tuning.  Every tuning the public constructors
    and modifiers build is well formed: the ring orders are permutations of the
    ranks with the configured one first, the rail order is a permutation of the
    rails, the groups partition the ranks, channels and rails are between 1 and
    64, and an autotune profile survives a change only when its entries are
    well formed and unambiguous for the changed tuning. *)
Theorem tuning_well_formed tn : tuned tn -> tuning_ok tn.
Proof.
  induction 1 as [policy threshold order tn H|policy threshold t order tn Ht H
    |tn bandwidth latency tn' _ IH Hb Hl H|tn transport tn' _ IH H|tn groups tn' _ IH H
    |tn payload tn' _ IH Hb H|tn channels tn' _ IH H|tn rails tn' _ IH H|tn order tn' _ IH H
    |tn profile tn' _ IH H].
  - by eapply new_ok.
  - eapply from_topology_ok; [by apply built_ok|exact H].
  - unfold with_direct_transport in H. inv_ok. apply Z.eqb_neq in Hv. apply revalidated_Ok in H as [-> Hp].
    destruct IH. split; cbn; try done. lia.
  - apply revalidated_Ok in H as [-> Hp]. destruct IH. by split.
  - unfold with_hierarchy in H. inv_ok. destruct v. apply validate_hierarchy_groups_Ok in Hv.
    apply revalidated_Ok in H as [-> Hp]. destruct IH. split; cbn; try done. by intros g [= <-].
  - apply with_inferred_hierarchy_Ok in H as (groups & Hg & [-> Hp]%revalidated_Ok); [|done|done].
    destruct IH. split; cbn; try done. by intros g [= <-].
  - unfold with_ring_channels in H. inv_ok. destruct v. apply validate_ring_channels_Ok in Hv; [|lia].
    apply revalidated_Ok in H as [-> Hp]. destruct IH. by split.
  - unfold with_p2p_rails in H. inv_ok. destruct v, v0. apply validate_p2p_rails_Ok in Hv; [|lia].
    apply revalidated_Ok in H as [-> Hp]. destruct IH. split; cbn; try done.
    intros order Ho. rewrite Ho in Hv0. by apply validate_rail_order_Ok in Hv0.
  - unfold with_rail_order in H. inv_ok. destruct v. apply validate_rail_order_Ok in Hv.
    apply revalidated_Ok in H as [-> Hp]. destruct IH. split; cbn; try done. by intros ? [= <-].
  - unfold with_autotune_profile in H. inv_ok. destruct v. apply validated_profile_ok in Hv.
    destruct IH. split; cbn; try done. by intros ? [= <-].
Qed.

Lemma tuning_well_formed_witness :
  exists tn tn', new PolicyAuto 64 [2; 0; 1; 3]%nat = Ok tn /\ with_hierarchy tn [[0; 1]; [2; 3]]%nat = Ok tn' /\
    tuning_ok tn'.
Proof.
  destruct (new PolicyAuto 64 [2; 0; 1; 3]%nat) as [tn|e|] eqn:Hn; [|vm_compute in Hn; discriminate Hn..].
  exists tn. destruct (with_hierarchy tn [[0; 1]; [2; 3]]%nat) as [tn'|e|] eqn:Hh.
  - exists tn'. split; [done|]. split; [done|]. apply tuning_well_formed.
    eapply tuned_hierarchy; [|exact Hh]. eapply tuned_new, Hn.
  - vm_compute in Hn. injection Hn as <-. vm_compute in Hh. discriminate Hh.
  - vm_compute in Hn. injection Hn as <-. vm_compute in Hh. discriminate Hh.
Defined.
