(* ===== verification/PlanTheorems.v ===== *)
(** * Planning a collective: src/src/rank/topology.rs

    For a well formed tuning every estimate ends without a panic, so that a
    plan exists for every collective and payload; the plan respects the policy,
    names an algorithm that can execute the collective, and under the automatic
    policy is the cheapest. *)
From S2P Require Import Prelude Comp Device Topology ShortestPath RingSearch Hierarchy Planner Tuning Autotune TuningInvariant.

Section planning.
Context (tn : CollectiveTuning) (Hok : tuning_ok tn).
Abbreviation t := (topology tn).
Abbreviation w := (world_size t).

Let Htop : topology_ok t := tuning_topology _ Hok.

Lemma length_order : length (ring_order tn) = w.
Proof using Hok. by pose proof (Permutation_seq_below _ _ (tuning_order _ Hok)) as (_ & _ & ?). Qed.

Lemma rail_order_ok {E} : exists order, rail_order (E:=E) tn = Ok order /\ order ≡ₚ seq 0 (p2p_rails tn).
Proof using Hok.
  unfold rail_order. destruct (rail_order_override tn) as [order|] eqn:Ho.
  - exists order. split; [done|]. by eapply tuning_rail_order.
  - by apply preferred_rail_order_ok.
Qed.

Lemma div_ceil_ok {E} a b : in_usize a -> 0 < b -> exists c, div_ceil (E:=E) a b = Ok c /\ in_usize c.
Proof using Type.
  intros [Ha Hl] Hb. unfold div_ceil. rewrite (proj2 (Z.eqb_neq b 0)) by lia. eexists. split; [done|].
  unfold in_usize. split; [apply Z.div_pos; lia|].
  apply Z.div_lt_upper_bound; [done|]. nia.
Qed.

Lemma direct_estimate_total {E} kind bytes :
  exists c, direct_estimated_time_ns (E:=E) tn kind bytes = Ok c.
Proof using Hok.
  unfold direct_estimated_time_ns. destruct (Z.leb_spec (Z.of_nat (length (ring_order tn))) 1); [by eexists|].
  assert (Hr : exists response, match kind with
     | KindAllReduce | KindAllToAll => Ok bytes
     | KindAllGather => Ok (saturating_mul 128 bytes (Z.of_nat (length (ring_order tn))))
     | KindReduceScatter => div_ceil (E:=E) bytes (Z.of_nat (length (ring_order tn)))
     end = Ok response).
  { destruct kind; try by eexists. unfold div_ceil. rewrite (proj2 (Z.eqb_neq _ 0)) by lia. by eexists. }
  destruct Hr as [response ->]. cbn [mbind outcome_bind]. unfold transfer_time_ns_u128.
  destruct (tuning_direct _ Hok) as [Hb _]. rewrite arith_in by (unfold in_width; lia). by eexists.
Qed.

(** ** Rings over channels *)
Lemma ring_order_for_channel_ok {E} channel :
  exists order, ring_order_for_channel (E:=E) tn channel = Ok order /\ order ≡ₚ seq 0 w.
Proof using Hok.
  unfold ring_order_for_channel, index_cyclic. destruct (tuning_orders _ Hok) as [others Ho].
  assert (Hne : length (ring_orders tn) <> 0%nat) by (rewrite Ho; cbn; lia).
  rewrite (proj2 (Nat.eqb_neq _ _)) by done.
  destruct (lookup_lt_is_Some_2 (ring_orders tn) (channel mod length (ring_orders tn))) as [order Hl];
    [by apply Nat.mod_upper_bound|].
  exists order. split; [by apply index_Ok|]. apply (proj1 (Forall_lookup _ _) (tuning_orders_ok _ Hok) _ _ Hl).
Qed.

Lemma add_ring_ok {E} m pairs bytes :
  Forall (fun p => (p.1 < w)%nat /\ (p.2 < w)%nat) pairs -> grid in_usize w m ->
  exists m', foldM (E:=E) (fun m '(source, destination) => add_bytes m source destination bytes) m pairs = Ok m'
    /\ grid in_usize w m'.
Proof using Type.
  intros Hp Hm. apply (foldM_total (grid in_usize w)); [done|]. intros s [a b] Hs Hin.
  destruct (proj1 (Forall_forall _ _) Hp _ Hin) as [Ha Hb]. by apply add_bytes_ok.
Qed.

Lemma multi_ring_no_panic bytes : in_usize bytes -> no_panic (multi_ring_step_time_ns tn bytes).
Proof using Hok.
  intros Hb. unfold multi_ring_step_time_ns. destruct (rail_order_ok (E:=unit)) as (order & -> & Hperm).
  cbn [mbind outcome_bind]. rewrite length_order.
  pose proof (Permutation_seq_below _ _ Hperm) as (_ & _ & Hl). pose proof (tuning_rails _ Hok) as Hrails.
  set (channels := channels_for (ring_channels tn) bytes).
  pose proof (rails_for_range (length order) channels ltac:(lia)) as Hr.
  set (rails := rails_for (length order) channels) in *.
  pose proof (channels_for_pos (ring_channels tn) bytes) as Hch. fold channels in Hch.
  assert (Hpart : forall channel : nat, in_usize (bytes / Z.of_nat channels +
    (if Z.of_nat channel <? bytes mod Z.of_nat channels then 1 else 0))).
  { intros channel. unfold in_usize in *. pose proof (Z.div_mod bytes (Z.of_nat channels) ltac:(lia)) as Hdm.
    pose proof (Z.mod_pos_bound bytes (Z.of_nat channels) ltac:(lia)).
    pose proof (Z.div_pos bytes (Z.of_nat channels) ltac:(lia) ltac:(lia)).
    destruct (Z.ltb_spec (Z.of_nat channel) (bytes mod Z.of_nat channels)); nia. }
  match goal with |- no_panic (foldM ?f ?s ?l ≫= _) =>
    assert (Hf : no_panic (foldM f s l) /\ forall st, foldM f s l = Ok st -> grid in_usize w st.2)
  end.
  { match goal with |- no_panic (foldM ?f _ _) /\ _ =>
      enough (Hgen : forall l times m, length times = rails -> grid in_usize w m ->
        no_panic (foldM f (times, m) l) /\ forall st, foldM f (times, m) l = Ok st -> grid in_usize w st.2)
    end.
    { apply Hgen; [apply length_replicate|apply zero_bytes_grid]. }
    induction l as [|channel l IH]; intros times m Ht Hm; cbn [foldM].
    { split; [done|]. by intros st [= <-]. }
    assert (Hslot : (channel mod rails < rails)%nat) by (apply Nat.mod_upper_bound; lia).
    destruct (lookup_lt_is_Some_2 order (channel mod rails) ltac:(lia)) as [rail Hrail].
    rewrite (proj2 (index_Ok _ _ _) Hrail). cbn [mbind outcome_bind].
    destruct (ring_order_for_channel_ok (E:=unit) channel) as (ring & -> & Hring). cbn [mbind outcome_bind].
    set (part := bytes / Z.of_nat channels + _).
    destruct (add_ring_ok (E:=unit) m (ring_pairs ring) part (ring_pairs_below t ring Hring) Hm) as (m1 & -> & Hm1).
    cbn [mbind outcome_bind].
    pose proof (ring_step_no_panic t Htop ring part rail Hring (Hpart channel)) as Hstep.
    destruct (ring_step_time_ns_on_rail _ _ _ _) as [step|e|]; cbn [mbind outcome_bind]; [|by split|done].
    unfold add_time. destruct (lookup_lt_is_Some_2 times (channel mod rails) ltac:(lia)) as [old Hold].
    rewrite (proj2 (index_Ok _ _ _) Hold). cbn [mbind outcome_bind].
    apply IH; [by rewrite length_insert|done]. }
  destruct Hf as [Hn Hg]. destruct (foldM _ _ _) as [[times m]|e|]; cbn [mbind outcome_bind]; [|done|done].
  destruct (step_time_ok t Htop (E:=unit) rails times m (Hg _ eq_refl)) as [c ->]. done.
Qed.

Lemma peer_no_panic kind bytes : in_usize bytes -> no_panic (peer_estimated_time_ns tn kind bytes).
Proof using Hok.
  intros Hb. unfold peer_estimated_time_ns. rewrite length_order. destruct (Nat.leb_spec w 1); [done|].
  destruct (rail_order_ok (E:=unit)) as (order & -> & Hperm). cbn [mbind outcome_bind].
  destruct (div_ceil_ok (E:=unit) bytes (Z.of_nat w) Hb ltac:(lia)) as (chunk & -> & Hc). cbn [mbind outcome_bind].
  destruct kind; try (apply bind_no_panic; [by apply multi_ring_no_panic|done]).
  apply pairwise_time_ns_no_panic; [done|apply Hok|done].
Qed.

(** ** Rings over group leaders *)
Lemma striped_ring_no_panic order bytes :
  Forall (fun i => (i < w)%nat) order -> Forall in_usize bytes ->
  no_panic (striped_ring_step_time_ns tn order bytes).
Proof using Hok.
  intros Ho Hb. unfold striped_ring_step_time_ns.
  destruct (Nat.eqb_spec (length order) (length bytes)) as [Hl|]; cbn [negb]; [|done].
  set (maximum := match bytes with [] => 0 | b :: bs => foldl Z.max b bs end).
  set (channels := channels_for (ring_channels tn) maximum).
  destruct (rail_order_ok (E:=unit)) as (rails & -> & Hperm). cbn [mbind outcome_bind].
  pose proof (Permutation_seq_below _ _ Hperm) as (_ & _ & Hrl). pose proof (tuning_rails _ Hok) as Hrails.
  pose proof (channels_for_pos (ring_channels tn) maximum) as Hch. fold channels in Hch.
  destruct (mapM_total (E:=unit) (fun bytes => balanced_sizes bytes channels) bytes) as [split Hsplit].
  { intros b Hin. destruct (balanced_sizes_usize (E:=unit) b channels) as (s & -> & _); [|done|by eexists].
    by apply (proj1 (Forall_forall _ _) Hb). }
  rewrite Hsplit. cbn [mbind outcome_bind].
  assert (Hs : Forall (fun s => length s = channels /\ Forall in_usize s) split).
  { apply mapM_Ok in Hsplit. apply Forall_forall. intros s [i Hi]%list_elem_of_lookup.
    destruct (Forall2_lookup_r _ _ _ _ _ Hsplit Hi) as (b & Hbi & Hbs).
    destruct (balanced_sizes_usize (E:=unit) b channels) as (s' & Hs' & ?); [|done|].
    { by apply (proj1 (Forall_lookup _ _) Hb _ _ Hbi). }
    rewrite Hs' in Hbs. by injection Hbs as <-. }
  match goal with |- no_panic (mapM ?f ?l ≫= _) => destruct (mapM_total f l) as [columns Hcols] end.
  { intros channel Hin%elem_of_seq. apply mapM_is_Ok. eapply Forall_impl; [exact Hs|]. intros s [Hsl _]. cbn.
    destruct (lookup_lt_is_Some_2 s channel ltac:(lia)) as [x Hx]. exists x. by apply index_Ok. }
  rewrite Hcols. cbn [mbind outcome_bind]. rewrite length_order.
  apply channels_time_ok; [done|apply rails_for_range; lia|].
  apply Forall_fmap, Forall_forall. intros column [c Hc]%list_elem_of_lookup. cbn.
  apply mapM_Ok in Hcols. destruct (Forall2_lookup_r _ _ _ _ _ Hcols Hc) as (channel & _ & Hcol).
  apply mapM_Ok in Hcol.
  assert (Hcolumn : Forall in_usize column).
  { apply Forall_forall. intros x [i Hi]%list_elem_of_lookup.
    destruct (Forall2_lookup_r _ _ _ _ _ Hcol Hi) as (s & Hsi & Hx). apply index_Ok in Hx.
    destruct (proj1 (Forall_lookup _ _) Hs _ _ Hsi) as [_ Hall]. by apply (proj1 (Forall_lookup _ _) Hall _ _ Hx). }
  unfold ring_transfers. apply Forall_forall. intros [p b] Hin. unfold transfer_ok. cbn.
  pose proof (elem_of_zip_l _ _ _ _ Hin) as Hpin. pose proof (elem_of_zip_r _ _ _ _ Hin) as Hbin.
  destruct (proj1 (Forall_forall _ _) (pairs_below t order Ho) p Hpin) as [? ?].
  split_and!; [done|done|]. by apply (proj1 (Forall_forall _ _) Hcolumn).
Qed.

Lemma group_transfers_no_panic groups (route : nat -> nat -> maybe Z) :
  Forall (fun group => group <> []) groups -> Forall (Forall (fun i => (i < w)%nat)) groups ->
  (forall a b, (a < w)%nat -> (b < w)%nat -> no_panic (route a b)) ->
  no_panic (group_transfers tn groups route).
Proof using Type.
  intros Hne Hb Hroute. unfold group_transfers. apply bind_no_panic; [|done].
  apply mapM_no_panic, Forall_forall. intros group Hin.
  pose proof (proj1 (Forall_forall _ _) Hne _ Hin) as Hg. pose proof (proj1 (Forall_forall _ _) Hb _ Hin) as Hgb.
  destruct group as [|leader members]; [done|]. cbn [index expect lookup list_lookup mbind outcome_bind tail].
  apply Forall_cons in Hgb as [Hl Hm]. apply (foldM_no_panic (fun _ => True)); [done|].
  intros total rank _ Hr. split; [|done]. apply bind_no_panic; [|done].
  apply Hroute; [done|by apply (proj1 (Forall_forall _ _) Hm)].
Qed.

Lemma group_ring_no_panic groups leaders shift bytes :
  length leaders = length groups -> (0 < length groups)%nat -> Z.of_nat (length groups) < 2 ^ 32 ->
  Forall (fun i => (i < w)%nat) leaders -> no_panic (group_ring tn groups leaders shift bytes).
Proof using Hok.
  intros Hl Hpos Hlt Hlead. unfold group_ring. rewrite arith_in by (unfold in_width; lia). cbn [mbind outcome_bind].
  apply (foldM_no_panic (fun _ => True)); [done|]. intros total step _ _. split; [|done].
  destruct (mapM_total (E:=unit) (fun position =>
      group ← index groups ((position + shift step) mod length leaders);
      Ok (saturating_mul usize_bits (Z.of_nat (length group)) bytes)) (seq 0 (length leaders))) as [sizes Hs].
  { intros position _. destruct (lookup_lt_is_Some_2 groups ((position + shift step) mod length leaders)) as [g Hg].
    { rewrite <- Hl. apply Nat.mod_upper_bound. lia. }
    rewrite (proj2 (index_Ok _ _ _) Hg). by eexists. }
  rewrite Hs. cbn [mbind outcome_bind]. apply bind_no_panic; [|done]. apply striped_ring_no_panic; [done|].
  apply mapM_Ok in Hs. apply Forall_forall. intros b [i Hi]%list_elem_of_lookup.
  destruct (Forall2_lookup_r _ _ _ _ _ Hs Hi) as (position & _ & Hb). inv_ok.
  unfold saturating_mul, in_usize. pose proof (saturate_range 64 (Z.of_nat (length v) * bytes) ltac:(lia)) as [? ?]. lia.
Qed.

Lemma leaders_ok groups :
  Forall (fun group => group <> []) groups -> Forall (Forall (fun i => (i < w)%nat)) groups ->
  exists leaders, mapM (fun group => index (E:=unit) group 0) groups = Ok leaders /\
    length leaders = length groups /\ Forall (fun i => (i < w)%nat) leaders.
Proof using Type.
  induction 1 as [|group groups Hg _ IH]; intros Hb; [by exists []|].
  apply Forall_cons in Hb as [Hgb Hb]. destruct (IH Hb) as (leaders & Hm & Hl & Hall).
  destruct group as [|leader group]; [done|]. apply Forall_cons in Hgb as [Hlt _].
  exists (leader :: leaders). cbn [mapM index expect lookup list_lookup mbind outcome_bind]. rewrite Hm.
  split_and!; [done|by cbn; f_equal|by constructor].
Qed.

Lemma groups_in_range groups : hierarchy_ok w groups -> Forall (Forall (fun i => (i < w)%nat)) groups /\ (length groups <= w)%nat.
Proof using Type.
  intros (H2 & Hne & Hc). pose proof (Permutation_seq_below _ _ Hc) as (_ & Hall & Hlen). split.
  - apply Forall_forall. intros group Hg. apply Forall_forall. intros i Hi.
    apply (proj1 (Forall_forall _ _) Hall), list_elem_of_In, in_concat. exists group. by rewrite <- !list_elem_of_In.
  - rewrite <- Hlen. clear -Hne. induction Hne as [|group groups Hg _ IH]; [done|]. cbn [concat].
    rewrite length_app. destruct group; [done|]. cbn [length]. lia.
Qed.

Lemma saturating_mul_usize a b : in_usize (saturating_mul 64 a b).
Proof using Type.
  unfold saturating_mul, in_usize. pose proof (saturate_range 64 (a * b) ltac:(lia)) as [? ?]. lia.
Qed.

Lemma shortest_no_panic a b bytes :
  (a < w)%nat -> (b < w)%nat -> in_usize bytes -> no_panic (shortest_transfer_time_ns t a b bytes).
Proof using Hok.
  intros Ha Hb Hby. pose proof (shortest_routes t Htop None a b bytes Ha Hb Hby) as Hr.
  unfold shortest_transfer_time_ns. by destruct (shortest_transfer_time_ns_for_rail _ _ _ _ _).
Qed.

Lemma hierarchical_no_panic kind bytes : in_usize bytes -> no_panic (hierarchical_estimated_time_ns tn kind bytes).
Proof using Hok.
  intros Hb. unfold hierarchical_estimated_time_ns.
  destruct (hierarchy_groups tn) as [groups|] eqn:Hg; cbn [ok_or mbind outcome_bind]; [|done].
  pose proof (tuning_groups _ Hok groups Hg) as Hgroups. destruct (groups_in_range groups Hgroups) as [Hin Hcount].
  destruct Hgroups as (H2 & Hne & _). destruct (topology_world _ Htop) as [Hw Hw32].
  case_bool_decide as Hkind; [done|].
  destruct (leaders_ok groups Hne Hin) as (leaders & -> & Hl & Hlead). cbn [mbind outcome_bind].
  apply bind_no_panic; [apply group_transfers_no_panic; [done|done|]; intros; by apply shortest_no_panic|].
  intros gather _. rewrite length_order.
  destruct (div_ceil_ok (E:=unit) bytes (Z.of_nat (length leaders)) Hb ltac:(lia)) as (chunk & Hchunk & Hcr).
  destruct (div_ceil_ok (E:=unit) bytes (Z.of_nat w) Hb ltac:(lia)) as (shard & Hshard & Hsr).
  rewrite Hchunk, Hshard. cbn [mbind outcome_bind]. apply bind_no_panic.
  - destruct kind; [| | |done].
    + apply bind_no_panic; [|done]. apply striped_ring_no_panic; [done|]. by apply Forall_replicate.
    + apply group_ring_no_panic; [done|lia|lia|done].
    + apply group_ring_no_panic; [done|lia|lia|done].
  - intros inter _. assert (Hd : exists distributed, in_usize distributed /\ match kind with
       | KindAllReduce => Ok bytes
       | KindAllGather => Ok (saturating_mul usize_bits bytes (Z.of_nat w))
       | KindReduceScatter => Ok (E:=unit) shard
       | KindAllToAll => Panic
       end = Ok distributed).
    { destruct kind; [..|done]; (eexists; split; [|reflexivity]); [done|apply saturating_mul_usize|done]. }
    destruct Hd as (distributed & Hdr & ->). cbn [mbind outcome_bind].
    apply bind_no_panic; [|done]. apply group_transfers_no_panic; [done|done|].
    intros. by apply shortest_no_panic.
Qed.

(** ** The plan *)

(** The algorithms the runtime has for a collective. *)
Definition executable (kind : CollectiveKind) (algorithm : CollectiveAlgorithm) : Prop :=
  match algorithm with
  | Direct => True
  | Ring | Hierarchical => kind <> KindAllToAll
  | Pairwise => kind = KindAllToAll
  end.

Lemma peer_executable kind : executable kind (peer_algorithm kind).
Proof using Type. by destruct kind. Qed.

Lemma peer_not_hierarchical kind : peer_algorithm kind <> Hierarchical.
Proof using Type. by destruct kind. Qed.

Lemma entry_executable groups e : entry_ok groups e -> executable (entry_operation e) (entry_algorithm e).
Proof using Type. intros He. pose proof (entry_executes _ _ He) as Hv. unfold valid_algorithm in Hv. by destruct (entry_operation e), (entry_algorithm e). Qed.

Lemma cheapest_executable kind direct peer hierarchical :
  executable kind (cheapest_algorithm kind direct peer hierarchical) /\
  (cheapest_algorithm kind direct peer hierarchical = Hierarchical -> is_Some hierarchical).
Proof using Type.
  unfold cheapest_algorithm. pose proof (peer_executable kind). pose proof (peer_not_hierarchical kind).
  case_bool_decide as Hk; destruct peer, hierarchical; repeat case_match; cbn; eauto; done.
Qed.

Lemma hierarchical_needs_groups kind bytes e :
  to_option (E:=TopologyError) (hierarchical_estimated_time_ns tn kind bytes) = Ok (Some e) ->
  is_Some (hierarchy_groups tn).
Proof using Type. unfold hierarchical_estimated_time_ns. by destruct (hierarchy_groups tn). Qed.

(** Every looked-up measurement is a well formed one of the collective. *)
Lemma autotune_entry_ok kind bytes e :
  autotune_entry tn kind bytes = Some e -> entry_operation e = kind /\ entry_ok (hierarchy_groups tn) e.
Proof using Hok.
  unfold autotune_entry. destruct (autotune_profile tn) as [profile|] eqn:Hp; cbn; [|done].
  intros ((i & e') & Hf & [= ->])%fmap_Some. apply list_find_Some in Hf as (Hi & (Hk & _) & _).
  destruct (tuning_profile _ Hok profile Hp) as (_ & Hall & _). split; [done|].
  by apply (proj1 (Forall_lookup _ _) Hall _ _ Hi).
Qed.

Lemma estimates_total {E} kind bytes :
  in_usize bytes ->
  exists direct peer hierarchical,
    direct_estimated_time_ns (E:=E) tn kind bytes = Ok direct /\
    to_option (E:=E) (peer_estimated_time_ns tn kind bytes) = Ok peer /\
    to_option (E:=E) (hierarchical_estimated_time_ns tn kind bytes) = Ok hierarchical /\
    (is_Some hierarchical -> is_Some (hierarchy_groups tn)).
Proof using Hok.
  intros Hb. destruct (direct_estimate_total (E:=E) kind bytes) as [direct Hd].
  destruct (to_option_no_panic (E:=E) _ (peer_no_panic kind bytes Hb)) as [peer Hp].
  destruct (to_option_no_panic (E:=E) _ (hierarchical_no_panic kind bytes Hb)) as [hierarchical Hh].
  exists direct, peer, hierarchical. split_and!; [done|done|done|]. intros [e ->].
  unfold hierarchical_estimated_time_ns in Hh. by destruct (hierarchy_groups tn).
Qed.

(** C35: A plan always exists.  For a well formed tuning, every collective and
    every payload, planning ends without a panic; the plan names an algorithm
    that can execute the collective, the hierarchical one only when groups are
    configured, and between 1 and 64 ring channels. *)
Theorem plan_total kind bytes :
  in_usize bytes ->
  exists p, plan (E:=TopologyError) tn kind bytes = Ok p /\ executable kind (plan_algorithm p) /\
    (plan_algorithm p = Hierarchical -> is_Some (hierarchy_groups tn)) /\
    1 <= Z.of_nat (plan_ring_channels p) <= MAX_RING_CHANNELS.
Proof using Hok.
  intros Hb. unfold plan. destruct (estimates_total (E:=TopologyError) kind bytes Hb) as (d & p & h & -> & -> & -> & Hg).
  cbn [mbind outcome_bind]. pose proof (tuning_channels _ Hok) as Hch.
  pose proof (peer_executable kind) as Hpe. pose proof (peer_not_hierarchical kind) as Hpn.
  destruct (length (ring_order tn) <=? 1)%nat; [by eexists|].
  destruct (algorithm_policy tn); [|by eexists|by eexists|].
  - destruct (autotune_entry tn kind bytes) as [e|] eqn:He.
    + apply autotune_entry_ok in He as [<- He]. pose proof (entry_executable _ _ He) as Hx. destruct He.
      by eexists.
    + destruct (bytes <? ring_threshold_bytes tn); [by eexists|].
      destruct (cheapest_executable kind d p h) as [Hx Hs]. eexists. split_and!; [done|done| |apply Hch|apply Hch].
      intros Hh. by apply Hg, Hs.
  - eexists. split; [done|]. cbn [plan_algorithm plan_ring_channels]. case_bool_decide as Hk; [done|].
    destruct h; [|done]. split; [done|]. split; [|done]. intros _. by apply Hg.
Qed.

(** C13: The automatic plan is the cheapest.  Without a measurement for the
    payload, a payload of at least the threshold goes to the algorithm whose
    estimate the plan carries, and no other estimate that exists (direct, ring
    or pairwise, hierarchical) is less; the direct algorithm wins ties. *)
Theorem plan_cheapest kind bytes p :
  algorithm_policy tn = PolicyAuto -> (1 < length (ring_order tn))%nat ->
  autotune_entry tn kind bytes = None -> ring_threshold_bytes tn <= bytes ->
  plan (E:=TopologyError) tn kind bytes = Ok p ->
  direct_estimated_time_ns (E:=TopologyError) tn kind bytes = Ok (direct_estimate p) /\
  to_option (E:=TopologyError) (peer_estimated_time_ns tn kind bytes) = Ok (peer_estimate p) /\
  to_option (E:=TopologyError) (hierarchical_estimated_time_ns tn kind bytes) = Ok (hierarchical_estimate p) /\
  match plan_algorithm p with
  | Direct => estimated_time_ns p = direct_estimate p
  | Hierarchical => hierarchical_estimate p = Some (estimated_time_ns p) /\ estimated_time_ns p < direct_estimate p
  | _ => peer_estimate p = Some (estimated_time_ns p) /\ estimated_time_ns p < direct_estimate p
  end /\
  estimated_time_ns p <= direct_estimate p /\
  (forall e, peer_estimate p = Some e -> estimated_time_ns p <= e) /\
  (forall e, hierarchical_estimate p = Some e -> estimated_time_ns p <= e).
Proof using Type.
  intros Hauto Hranks He Hth H. unfold plan in H. rewrite Hauto, He in H.
  apply bind_Ok in H as (d & Hd & H). apply bind_Ok in H as (pe & Hpe & H). apply bind_Ok in H as (h & Hh & H).
  rewrite (proj2 (Nat.leb_gt _ _)), (proj2 (Z.ltb_ge _ _)) in H by done.
  assert (Hk : kind = KindAllToAll -> h = None).
  { intros Hkind. unfold hierarchical_estimated_time_ns in Hh. rewrite (bool_decide_true _ Hkind) in Hh.
    by destruct (hierarchy_groups tn); inversion Hh. }
  injection H as <-. cbn [plan_algorithm estimated_time_ns direct_estimate peer_estimate hierarchical_estimate].
  split; [done|]. split; [done|]. split; [done|]. unfold cheapest_algorithm.
  cbn [fst snd]. assert (Hpeer : kind <> KindAllToAll -> peer_algorithm kind = Ring) by by destruct kind.
  destruct pe as [pe|]; [destruct (Z.ltb_spec pe d)|]; cbn [snd];
    (case_bool_decide as Hkind; [rewrite (Hk Hkind), ?Hkind; cbn [peer_algorithm fst]|rewrite ?Hpeer by done]);
    try (destruct h as [h|]; [match goal with |- context [h <? ?b] => destruct (Z.ltb_spec h b) end|]); cbn [fst snd];
    cbn [from_option id]; split_and!; try done; try lia; intros ? [= <-]; lia.
Qed.
End planning.

(** ** Changing the hierarchy *)
Lemma set_hierarchy_ok tn groups :
  tuning_ok tn -> hierarchy_ok (world_size (topology tn)) groups -> tuning_ok (set_hierarchy tn (Some groups)).
Proof.
  intros [Ht Ho Hos Hall Hc Hr Hro Hg Hd Hp] Hgroups. split; cbn; try done.
  - by intros g [= <-].
  - intros profile (Hne & He & Hu)%Hp. split; [done|]. split; [|done].
    eapply Forall_impl; [exact He|]. intros e []. split; by eauto.
Qed.

Lemma revalidated_no_panic tn : topology_ok (topology tn) -> no_panic (revalidated tn).
Proof.
  intros Ht. unfold revalidated. apply bind_no_panic; [|done].
  destruct (autotune_profile tn); [|done]. by apply validate_profile_no_panic.
Qed.

Lemma with_inferred_hierarchy_no_panic tn bytes :
  tuning_ok tn -> in_usize bytes -> no_panic (with_inferred_hierarchy tn bytes).
Proof.
  intros Hok Hb. unfold with_inferred_hierarchy. apply bind_no_panic; [auto with rust|intros _ _].
  destruct (hierarchy_candidates_sound (topology tn) (tuning_topology _ Hok) bytes Hb) as (candidates & -> & _ & Hall).
  cbn [mbind outcome_bind]. apply bind_no_panic.
  - apply (foldM_no_panic (fun _ => True)); [done|]. intros best groups _ Hin. split; [|done].
    pose proof (proj1 (Forall_forall _ _) Hall _ Hin) as Hg. apply validate_hierarchy_groups_Ok in Hg.
    apply bind_no_panic; [|done].
    destruct (to_option_no_panic (E:=TopologyError) (hierarchy_score tn bytes groups)) as [o ->]; [|done].
    apply (foldM_no_panic (fun _ => True)); [done|]. intros total kind _ _. split; [|done].
    apply bind_no_panic; [|done]. by apply hierarchical_no_panic; [apply set_hierarchy_ok|].
  - intros best _. apply bind_no_panic; [auto with rust|]. intros [score groups] _.
    apply revalidated_no_panic, Hok.
Qed.

(** ** Instances *)
Lemma plan_total_witness :
  exists tn p, new PolicyRing 64 [0; 1; 2]%nat = Ok tn /\ plan (E:=TopologyError) tn KindAllToAll 1000 = Ok p /\
    plan_algorithm p = Pairwise /\ executable KindAllToAll (plan_algorithm p).
Proof.
  destruct (new PolicyRing 64 [0; 1; 2]%nat) as [tn|e|] eqn:Hn; [|vm_compute in Hn; discriminate Hn..].
  destruct (plan_total tn (new_ok _ _ _ _ Hn) KindAllToAll 1000 ltac:(unfold in_usize; lia)) as (p & Hp & Hx & _).
  exists tn, p. split; [done|]. split; [done|]. split; [|done].
  vm_compute in Hn. injection Hn as <-. vm_compute in Hp. by injection Hp as <-.
Defined.

Lemma plan_cheapest_witness :
  exists tn p, new PolicyAuto 64 [0; 1; 2]%nat = Ok tn /\ plan (E:=TopologyError) tn KindAllReduce 1000000 = Ok p /\
    plan_algorithm p = Ring /\ estimated_time_ns p <= direct_estimate p.
Proof.
  destruct (new PolicyAuto 64 [0; 1; 2]%nat) as [tn|e|] eqn:Hn; [|vm_compute in Hn; discriminate Hn..].
  destruct (plan (E:=TopologyError) tn KindAllReduce 1000000) as [p|e|] eqn:Hp;
    [|vm_compute in Hn; injection Hn as <-; vm_compute in Hp; discriminate Hp..].
  exists tn, p. split; [done|]. split; [done|].
  assert (Hc : algorithm_policy tn = PolicyAuto /\ (1 < length (ring_order tn))%nat /\
    autotune_entry tn KindAllReduce 1000000 = None /\ ring_threshold_bytes tn <= 1000000).
  { vm_compute in Hn. injection Hn as <-. split_and!; [done|cbn; lia|done|cbn; lia]. }
  destruct Hc as (H1 & H2 & H3 & H4).
  destruct (plan_cheapest tn KindAllReduce 1000000 p H1 H2 H3 H4 Hp) as (_ & _ & _ & _ & Hle & _).
  split; [|exact Hle]. vm_compute in Hn. injection Hn as <-. vm_compute in Hp. by injection Hp as <-.
Defined.
