(* ===== verification/Environment.v ===== *)
(** * A tuning from the environment: src/src/rank/topology.rs

    [from_environment_impl] and [with_autotune_profile_path].  The environment
    is a function of the variable's name; the file system and the JSON parser
    are code outside the repository and parameters of the section: what
    [fs::read_to_string] returns for a path, and what [serde_json] makes of a
    text, as a document and as a profile. *)
From Stdlib Require Import Ascii String.
From S2P Require Import Prelude Comp Device Topology ShortestPath RingSearch Hierarchy TopologyText Planner Tuning Autotune TuningInvariant PlanTheorems.

Definition DEFAULT_RING_THRESHOLD_BYTES : Z := 256 * 1024.
Definition DEFAULT_HIERARCHY_INFERENCE_BYTES : Z := 16 * 1024 * 1024.

(** [match env::var(name) { Ok(value) => .., Err(NotPresent) => .., Err(NotUnicode(value)) => .. }] *)
Definition with_variable {A} (env : environment) (name : string) (present : string -> tresult A)
    (absent : tresult A) : tresult A :=
  match env name with
  | Present value => present value
  | NotPresent => absent
  | NotUnicode value => invalid_environment name value
  end.

Definition parse_algorithm_policy (env : environment) : tresult AlgorithmPolicy :=
  with_variable env "GX1_COLLECTIVE_ALGORITHM" (fun value =>
      let text := to_ascii_lowercase (trim value) in
      if String.eqb text "auto" then Ok PolicyAuto
      else if String.eqb text "direct" then Ok PolicyDirect
      else if String.eqb text "ring" then Ok PolicyRing
      else if String.eqb text "hierarchical" then Ok PolicyHierarchical
      else invalid_environment "GX1_COLLECTIVE_ALGORITHM" value)
    (Ok PolicyAuto).

(** The common links, then the rails, then the aggregates. *)
Definition environment_topology (env : environment) (world_size p2p_rails : nat)
    (probed_topology : option CollectiveTopology) : tresult CollectiveTopology :=
  topology ← with_variable env "GX1_TOPOLOGY_LINKS" (fun value =>
      if eq_ignore_ascii_case (trim value) "probe"
      then ok_or probed_topology (InvalidEnvironment "GX1_TOPOLOGY_LINKS" value)
      else parse_topology_links world_size value)
    (match probed_topology with Some topology => Ok topology | None => uniform world_size end);
  topology ← with_variable env "GX1_TOPOLOGY_RAIL_LINKS"
    (fun value => parse_topology_rail_links topology value p2p_rails) (Ok topology);
  with_variable env "GX1_TOPOLOGY_AGGREGATE_LINKS"
    (fun value => parse_topology_aggregate_links topology value) (Ok topology).

Definition environment_rail_order (env : environment) (p2p_rails : nat) : tresult (option (list nat)) :=
  with_variable env "GX1_RAIL_ORDER" (fun value =>
      if eq_ignore_ascii_case (trim value) "auto" then Ok None
      else order ← parse_rail_order p2p_rails value; Ok (Some order))
    (Ok None).

(** The groups, or the payload to infer them for. *)
Definition environment_groups (env : environment) (world_size : nat) :
    tresult (option (list (list nat)) * option Z) :=
  with_variable env "GX1_TOPOLOGY_GROUPS" (fun value =>
      if eq_ignore_ascii_case (trim value) "auto" then
        payload_bytes ← parse_usize_environment env "GX1_TOPOLOGY_GROUP_PAYLOAD_BYTES" DEFAULT_HIERARCHY_INFERENCE_BYTES;
        _ ← fail_if (payload_bytes =? 0) (InvalidEnvironment "GX1_TOPOLOGY_GROUP_PAYLOAD_BYTES" "0");
        Ok (None, Some payload_bytes)
      else groups ← parse_hierarchy_groups world_size value; Ok (Some groups, None))
    (Ok (None, None)).

(** The value of a key of a JSON document. *)
Inductive document_value := DocString (value : string) | DocNull | DocOther.

Section profiles.
Context (read_to_string : string -> outcome string string).
Context (document_of : string -> outcome string (string -> option document_value)).
Context (profile_of : string -> outcome string CollectiveAutotuneProfile).

Definition invalid_json (path message : string) : TopologyError :=
  InvalidProfile (path ++ " is not valid JSON: " ++ message).

Definition detected_text (document : string -> option document_value) (key : string) : tresult (option string) :=
  match document key with
  | Some (DocString value) => Ok (Some value)
  | Some DocNull | None => Ok None
  | Some DocOther => Err (InvalidProfile (key ++ " must be a string or null"))
  end.

Definition with_autotune_profile_path (env : environment) (tn : CollectiveTuning) (path : string) :
    tresult CollectiveTuning :=
  encoded ← map_err (ProfileRead path) (read_to_string path);
  document ← map_err (invalid_json path) (document_of encoded);
  links ← detected_text document "detected_topology_links";
  rail_links ← detected_text document "detected_topology_rail_links";
  aggregate_links ← detected_text document "detected_topology_aggregate_links";
  profile ← map_err (invalid_json path) (profile_of encoded);
  requested ← topology_probe_requested env;
  _ ← validate_autotune_profile_with_detected tn profile links rail_links aggregate_links requested;
  Ok (set_profile tn profile).

Definition from_environment_impl (env : environment) (world_size : nat)
    (probed_topology : option CollectiveTopology) : tresult CollectiveTuning :=
  algorithm_policy ← parse_algorithm_policy env;
  ring_threshold_bytes ← parse_usize_environment env "GX1_RING_THRESHOLD_BYTES" DEFAULT_RING_THRESHOLD_BYTES;
  ring_channels ← parse_usize_environment env "GX1_RING_CHANNELS" 1;
  _ ← validate_ring_channels ring_channels;
  p2p_rails ← parse_usize_environment env "GX1_P2P_RAILS" 1;
  _ ← validate_p2p_rails p2p_rails;
  direct_bandwidth_mbps ← parse_u64_environment env "GX1_DIRECT_BANDWIDTH_MBPS" DEFAULT_BANDWIDTH_MBPS;
  _ ← fail_if (direct_bandwidth_mbps =? 0) (InvalidEnvironment "GX1_DIRECT_BANDWIDTH_MBPS" "0");
  direct_latency_ns ← parse_u64_environment env "GX1_DIRECT_LATENCY_NS" DEFAULT_LATENCY_NS;
  transport ← parse_collective_transport_environment env;
  let p2p_rails := Z.to_nat p2p_rails in
  topology ← environment_topology env world_size p2p_rails probed_topology;
  rail_order_override ← environment_rail_order env p2p_rails;
  ring_order ← with_variable env "GX1_RING_ORDER" (parse_ring_order world_size) (best_ring_order topology);
  '(hierarchy_groups, inferred_hierarchy_bytes) ← environment_groups env world_size;
  ring_orders ← ring_orders_with_primary topology ring_order;
  let tuning := mkTuning algorithm_policy ring_threshold_bytes ring_order ring_orders (Z.to_nat ring_channels)
    p2p_rails rail_order_override hierarchy_groups topology direct_bandwidth_mbps direct_latency_ns transport None in
  tuning ← match inferred_hierarchy_bytes with
           | Some payload_bytes => with_inferred_hierarchy tuning payload_bytes
           | None => Ok tuning
           end;
  _ ← fail_if (bool_decide (algorithm_policy = PolicyHierarchical)
               && match Tuning.hierarchy_groups tuning with None => true | Some _ => false end)
        (InvalidHierarchy "GX1_COLLECTIVE_ALGORITHM=hierarchical requires explicit or inferred topology groups");
  with_variable env "GX1_COLLECTIVE_AUTOTUNE_PROFILE" (with_autotune_profile_path env tuning) (Ok tuning).

Definition from_environment (env : environment) (world_size : nat) : tresult CollectiveTuning :=
  from_environment_impl env world_size None.

Definition from_environment_with_topology (env : environment) (t : CollectiveTopology) : tresult CollectiveTuning :=
  from_environment_impl env (world_size t) (Some t).
End profiles.

(** ** The environment builds a well formed tuning *)
Lemma with_variable_no_panic {A} env name (present : string -> tresult A) absent :
  (forall value, no_panic (present value)) -> no_panic absent -> no_panic (with_variable env name present absent).
Proof. unfold with_variable. by destruct (env name). Qed.

Lemma with_variable_Ok {A} env name (present : string -> tresult A) absent a :
  with_variable env name present absent = Ok a -> (exists value, present value = Ok a) \/ absent = Ok a.
Proof. unfold with_variable. destruct (env name); [|by right|done]. eauto. Qed.

Lemma parse_algorithm_policy_no_panic env : no_panic (parse_algorithm_policy env).
Proof. apply with_variable_no_panic; [|done]. intros value. cbv zeta. by repeat (destruct (String.eqb _ _); [done|]). Qed.

Lemma parse_collective_transport_no_panic env : no_panic (parse_collective_transport_environment env).
Proof. unfold parse_collective_transport_environment. destruct (env _); try done. cbv zeta. by do 2 (destruct (existsb _ _); [done|]). Qed.

Lemma uniform_total w : (0 < w)%nat -> Z.of_nat w < 2 ^ 32 -> no_panic (uniform w) /\
  forall t, uniform w = Ok t -> topology_ok t /\ world_size t = w.
Proof.
  intros Hw Hw32. unfold uniform. rewrite (proj2 (Nat.eqb_neq w 0)) by lia. cbn [fail_if mbind outcome_bind]. destruct (empty w) as [t0|e|] eqn:He; cbn [mbind outcome_bind]; [|done|].
  - assert (Hw0 : world_size t0 = w) by (unfold empty in He; inv_ok; done). apply empty_ok in He; [|done].
    match goal with |- no_panic (foldM ?f _ ?l) /\ _ =>
      enough (Hgen : forall t, topology_ok t -> world_size t = w -> no_panic (foldM f t l) /\
        forall t', foldM f t l = Ok t' -> topology_ok t' /\ world_size t' = w) by by apply Hgen end.
    clear. intros t Ht Hw. revert t Ht Hw. induction (rank_pairs w) as [|[a b] l IH]; intros t Ht Hw; cbn [foldM].
    { split; [done|]. by intros t' [= <-]. }
    destruct (add_link_spec t (mkLink a b DEFAULT_BANDWIDTH_MBPS DEFAULT_LATENCY_NS) Ht) as [Hn Ha].
    { unfold metrics_typed, DEFAULT_BANDWIDTH_MBPS, DEFAULT_LATENCY_NS. cbn. lia. }
    destruct (add_link t _) as [t1|e|]; cbn [mbind outcome_bind]; [|done|done].
    destruct (Ha t1 eq_refl) as (Ht1 & Hw1 & _). apply IH; [done|by rewrite Hw1].
  - unfold empty in He. by destruct (w =? 0)%nat.
Qed.

Section well_formed.
Context (read_to_string : string -> outcome string string).
Context (document_of : string -> outcome string (string -> option document_value)).
Context (profile_of : string -> outcome string CollectiveAutotuneProfile).
Context (Hread : forall path, no_panic (read_to_string path)).
Context (Hdocument : forall text, no_panic (document_of text)) (Hprofile : forall text, no_panic (profile_of text)).
Context (env : environment) (w : nat) (Hw : (0 < w)%nat) (Hw32 : Z.of_nat w < 2 ^ 32).

(** A step that yields a well formed topology over the ranks. *)
Definition yields (m : tresult CollectiveTopology) : Prop :=
  no_panic m /\ forall t, m = Ok t -> topology_ok t /\ world_size t = w.

Lemma yields_bind m f :
  yields m -> (forall t, topology_ok t -> world_size t = w -> yields (f t)) -> yields (m ≫= f).
Proof using Type.
  intros [Hn Hm] Hf. destruct m as [t|e|]; cbn; [|by split|done].
  destruct (Hm t eq_refl) as [Ht Htw]. by apply Hf.
Qed.

Lemma yields_variable name present absent :
  (forall value, yields (present value)) -> yields absent -> yields (with_variable env name present absent).
Proof using Type. intros Hp Ha. unfold with_variable. destruct (env name); [apply Hp|done|by split]. Qed.

Lemma environment_topology_ok rails probed :
  (forall t, probed = Some t -> topology_ok t /\ world_size t = w) ->
  yields (environment_topology env w rails probed).
Proof using Hw Hw32.
  intros Hprobed. unfold environment_topology. apply yields_bind.
  - apply yields_variable.
    + intros value. case_match; [|by apply parse_topology_links_ok].
      destruct probed as [t|]; [|by split]. split; [done|]. intros t' [= <-]. by apply Hprobed.
    + destruct probed as [t|]; [|by apply uniform_total]. split; [done|]. intros t' [= <-]. by apply Hprobed.
  - intros t Ht Htw. apply yields_bind.
    + apply yields_variable; [|split; [done|by intros ? [= <-]]].
      intros value. unfold yields. rewrite <- Htw. by apply parse_topology_rail_links_ok.
    + intros t1 Ht1 Htw1. apply yields_variable; [|split; [done|by intros ? [= <-]]].
      intros value. unfold yields. rewrite <- Htw1. by apply parse_topology_aggregate_links_ok.
Qed.

Lemma environment_rail_order_ok rails :
  no_panic (environment_rail_order env rails) /\
  forall o order, environment_rail_order env rails = Ok o -> o = Some order -> order ≡ₚ seq 0 rails.
Proof using Type.
  unfold environment_rail_order. split.
  - apply with_variable_no_panic; [|done]. intros value. case_match; [done|].
    apply bind_no_panic; [|done]. unfold parse_rail_order. apply bind_no_panic; [apply parse_list_no_panic|].
    intros order _. apply bind_no_panic; [|done]. unfold validate_rail_order.
    apply bind_no_panic; [auto with rust|]. intros _ _. apply bind_no_panic; [|done].
    apply mark_no_panic, length_replicate.
  - intros o order Ho ->. apply with_variable_Ok in Ho as [[value Hv]|Ho]; [|done].
    case_match; [done|]. unfold parse_rail_order in Hv. inv_ok. match goal with u : unit |- _ => destruct u end. by apply validate_rail_order_Ok.
Qed.

Lemma parse_ring_order_ok value :
  no_panic (parse_ring_order w value) /\ forall order, parse_ring_order w value = Ok order -> order ≡ₚ seq 0 w.
Proof using Type.
  unfold parse_ring_order. split.
  - apply bind_no_panic; [apply parse_list_no_panic|]. intros order _.
    apply bind_no_panic; [apply validate_ring_order_no_panic|done].
  - intros order H. inv_ok. destruct v0. by apply validate_ring_order_Ok in Hv0 as [_ ?].
Qed.

Lemma environment_groups_ok :
  no_panic (environment_groups env w) /\
  forall groups inferred, environment_groups env w = Ok (groups, inferred) ->
    (forall g, groups = Some g -> hierarchy_ok w g) /\ (forall b, inferred = Some b -> in_usize b).
Proof using Hw.
  unfold environment_groups. split.
  - apply with_variable_no_panic; [|done]. intros value. case_match.
    + apply bind_no_panic; [apply parse_number_environment_no_panic|]. intros b _.
      apply bind_no_panic; [auto with rust|done].
    + apply bind_no_panic; [|done]. unfold parse_hierarchy_groups. apply bind_no_panic.
      * apply mapM_no_panic, Forall_forall. intros group _. apply parse_list_no_panic.
      * intros groups _. apply bind_no_panic; [apply validate_hierarchy_groups_no_panic|done].
  - intros groups inferred [[value Hv]|[= <- <-]]%with_variable_Ok; [|done]. case_match.
    + inv_ok. split; [done|]. intros b [= <-]. eapply (parse_number_environment_range usize_bits); [lia| |done].
      unfold in_width, DEFAULT_HIERARCHY_INFERENCE_BYTES. lia.
    + unfold parse_hierarchy_groups in Hv. inv_ok. match goal with u : unit |- _ => destruct u end. split; [|done]. intros g [= <-].
      by apply validate_hierarchy_groups_Ok.
Qed.

Lemma with_path_ok tn path :
  tuning_ok tn ->
  no_panic (with_autotune_profile_path read_to_string document_of profile_of env tn path) /\
  forall tn', with_autotune_profile_path read_to_string document_of profile_of env tn path = Ok tn' -> tuning_ok tn'.
Proof using Hread Hdocument Hprofile.
  intros Hok. unfold with_autotune_profile_path. split.
  - apply bind_no_panic; [by apply map_err_no_panic|intros text _].
    apply bind_no_panic; [by apply map_err_no_panic|intros document _].
    do 3 (apply bind_no_panic; [unfold detected_text; by destruct (document _) as [[]|]|intros]).
    apply bind_no_panic; [by apply map_err_no_panic|intros profile _].
    apply bind_no_panic; [unfold topology_probe_requested; by destruct (env _)|intros].
    apply bind_no_panic; [|done]. apply validate_profile_no_panic, Hok.
  - intros tn' H. inv_ok. destruct v6. apply validated_profile_ok in Hv6. destruct Hok.
    split; cbn; try done. by intros ? [= <-].
Qed.

(** A step that yields a well formed tuning. *)
Definition configures (m : tresult CollectiveTuning) : Prop := no_panic m /\ forall tn, m = Ok tn -> tuning_ok tn.

Lemma configures_bind {A} (m : tresult A) f :
  no_panic m -> (forall a, m = Ok a -> configures (f a)) -> configures (m ≫= f).
Proof using Type. intros Hn Hf. destruct m as [a|e|]; cbn; [by apply Hf|by split|done]. Qed.

Lemma inferred_ok tn inferred :
  tuning_ok tn -> (forall b, inferred = Some b -> in_usize b) ->
  configures match inferred with Some b => with_inferred_hierarchy tn b | None => Ok tn end.
Proof using Type.
  intros Hok Hb. destruct inferred as [b|]; [|split; [done|by intros ? [= <-]]]. specialize (Hb b eq_refl).
  split; [by apply with_inferred_hierarchy_no_panic|].
  intros tn' (groups & Hg & H)%with_inferred_hierarchy_Ok; [|done|done].
  apply revalidated_Ok in H as [-> _]. by apply set_hierarchy_ok.
Qed.

(** The environment configures a well formed tuning.  For any values of the
    [GX1_*] variables, any probed topology of the world, and any profile file,
    the configuration returns a well formed tuning or an error; it never
    panics. *)
Theorem environment_tuning_well_formed probed :
  (forall t, probed = Some t -> topology_ok t /\ world_size t = w) ->
  no_panic (from_environment_impl read_to_string document_of profile_of env w probed) /\
  forall tn, from_environment_impl read_to_string document_of profile_of env w probed = Ok tn -> tuning_ok tn.
Proof using Hread Hdocument Hprofile Hw Hw32.
  intros Hprobed. change (configures (from_environment_impl read_to_string document_of profile_of env w probed)).
  unfold from_environment_impl.
  apply configures_bind; [apply parse_algorithm_policy_no_panic|intros policy _].
  do 2 (apply configures_bind; [apply parse_number_environment_no_panic|intros ? ?]).
  apply configures_bind; [unfold validate_ring_channels; auto with rust|intros [] Hc].
  apply configures_bind; [apply parse_number_environment_no_panic|intros rails Hrv].
  apply configures_bind; [unfold validate_p2p_rails; auto with rust|intros [] Hr].
  apply configures_bind; [apply parse_number_environment_no_panic|intros bandwidth Hbw].
  apply configures_bind; [auto with rust|intros [] Hbz].
  apply configures_bind; [apply parse_number_environment_no_panic|intros latency Hlat].
  apply configures_bind; [apply parse_collective_transport_no_panic|intros transport _]. cbv zeta.
  destruct (environment_topology_ok (Z.to_nat rails) probed Hprobed) as [Hnt Ht].
  apply configures_bind; [done|intros t [Htok Htw]%Ht].
  destruct (environment_rail_order_ok (Z.to_nat rails)) as [Hno Ho].
  apply configures_bind; [done|intros rail_order Hro].
  apply configures_bind; [apply with_variable_no_panic; [apply parse_ring_order_ok|by apply best_ring_order_no_panic]|].
  intros order Horder.
  assert (Hperm : order ≡ₚ seq 0 (world_size t)).
  { rewrite Htw. apply with_variable_Ok in Horder as [[value Hv]|Hv]; [by eapply parse_ring_order_ok|].
    unfold best_ring_order in Hv. inv_ok. destruct (best_ring_orders_permutations t Htok 1) as [_ Hall].
    destruct (Hall _ Hv0) as [Hf _]. rewrite <- Htw. destruct v as [|o os]; cbn in Hv; inv_ok.
    by apply Forall_cons in Hf as [? _]. }
  destruct environment_groups_ok as [Hng Hg].
  apply configures_bind; [done|intros [groups inferred] [Hgroups Hinf]%Hg].
  destruct (ring_orders_with_primary_ok t Htok (E:=TopologyError) order Hperm) as (others & -> & Hothers).
  cbn [mbind outcome_bind].
  assert (Hok : tuning_ok (mkTuning policy a order (order :: others) (Z.to_nat a0) (Z.to_nat rails) rail_order groups t
    bandwidth latency transport None)).
  { apply parse_number_environment_range in Hrv, Hbw, Hlat, H0; try lia;
      try (unfold in_width, DEFAULT_BANDWIDTH_MBPS, DEFAULT_LATENCY_NS; lia).
    unfold in_width in *. apply validate_ring_channels_Ok in Hc; [|lia]. apply validate_p2p_rails_Ok in Hr; [|lia].
    apply fail_if_Ok, Z.eqb_neq in Hbz.
    split; cbn; [done|done|by eexists|by constructor|lia|lia| | |lia|done].
    - intros o Hroo. by eapply Ho.
    - intros g Hgs. rewrite Htw. by apply Hgroups. }
  destruct (inferred_ok _ inferred Hok Hinf) as [Hni Hi].
  apply configures_bind; [done|intros tn Htn%Hi].
  apply configures_bind; [auto with rust|intros _ _]. unfold with_variable.
  destruct (env _) as [path| |value]; [by apply with_path_ok|split; [done|by intros ? [= <-]]|done].
Qed.
End well_formed.

(** ** An instance: three ranks, a line of links, one ring variable *)
Definition line_environment : environment := fun name =>
  if String.eqb name "GX1_TOPOLOGY_LINKS" then Present "0-1:64000:500, 1-2:32000:1000, 0-2:1000:9"
  else if String.eqb name "GX1_RING_ORDER" then Present "2,0,1"
  else if String.eqb name "GX1_P2P_RAILS" then Present "2"
  else NotPresent.

Lemma environment_tuning_well_formed_witness :
  exists tn, from_environment_impl (fun _ => Err "no file"%string) (fun _ => Ok (fun _ => None))
      (fun _ => Err "no profile"%string) line_environment 3 None = Ok tn /\
    ring_order tn = [2; 0; 1]%nat /\ tuning_ok tn.
Proof.
  pose proof (environment_tuning_well_formed (fun _ => Err "no file"%string) (fun _ => Ok (fun _ => None))
    (fun _ => Err "no profile"%string) (fun _ => eq_refl) (fun _ => eq_refl) (fun _ => eq_refl)
    line_environment 3 ltac:(lia) ltac:(lia) None) as Hw.
  destruct Hw as [_ Hok]; [discriminate|].
  destruct (from_environment_impl _ _ _ line_environment 3 None) as [tn|e|] eqn:H;
    [|vm_compute in H; discriminate H..].
  exists tn. split; [done|]. split; [|by apply Hok]. vm_compute in H. by injection H as <-.
Defined.
