(* ===== verification/FloatBackend.v ===== *)
(** * Tensors and peer maps of the local collectives

    The tensor backend (the ruda_tensor crate) is outside the repository: the
    class [FloatBackend] has the operations the local collectives call and
    [FloatLaws] what these promise, in terms of the value a tensor holds and
    the device it is on.

    A [HashMap] of Rust iterates in an order that its hasher decides: a map is
    a finite map with a hasher, and the order of [iterate] is any permutation
    of the entries.  Also src/src/local/tensor_map.rs. *)
From stdpp Require Import sorting.
From S2P Require Import Prelude.

(** ** The backend *)

(** Identifiers of peers, [PeerId(u32)] of src/src/config.rs. *)
Abbreviation PeerId := nat.

Class FloatBackend := {
  Tensor : Type;
  TDevice : Type;
  (** [device.id()], with the order [cmp] puts on it. *)
  device_id : TDevice -> Z;
  shape : Tensor -> list Z;
  float_device : Tensor -> TDevice;
  float_to_device : Tensor -> TDevice -> Tensor;
  float_add : Tensor -> Tensor -> Tensor;
  (** Division by a number of peers, which the code converts to [f32]. *)
  float_div_scalar : Tensor -> Z -> Tensor;
  (** [None] where the backend panics. *)
  float_slice : Tensor -> list (Z * Z) -> option Tensor;
  float_slice_assign : Tensor -> list (Z * Z) -> Tensor -> option Tensor;
  float_cat : list Tensor -> nat -> option Tensor;
}.

(** A range of every dimension that lies in the shape. *)
Definition in_shape (dims : list Z) (ranges : list (Z * Z)) : Prop :=
  Forall2 (fun d r => 0 <= r.1 <= r.2 /\ r.2 <= d) dims ranges.

Definition whole (dims : list Z) : list (Z * Z) := map (fun d => (0, d)) dims.

Class FloatLaws (B : FloatBackend) := {
  Value : Type;
  value : Tensor -> Value;
  value_shape : Value -> list Z;
  value_add : Value -> Value -> Value;
  value_div : Value -> Z -> Value;
  value_slice : Value -> list (Z * Z) -> Value;
  value_cat : list Value -> nat -> Value;
  shape_value t : shape t = value_shape (value t);
  to_device_value t d : value (float_to_device t d) = value t;
  to_device_device t d : float_device (float_to_device t d) = d;
  add_value a b : shape a = shape b -> value (float_add a b) = value_add (value a) (value b);
  add_device a b : shape a = shape b -> float_device (float_add a b) = float_device a;
  add_shape a b : value_shape a = value_shape b -> value_shape (value_add a b) = value_shape a;
  div_value t n : value (float_div_scalar t n) = value_div (value t) n;
  div_device t n : float_device (float_div_scalar t n) = float_device t;
  slice_ok t ranges : in_shape (shape t) ranges ->
    exists t', float_slice t ranges = Some t' /\ value t' = value_slice (value t) ranges /\
      float_device t' = float_device t;
  slice_shape v ranges : in_shape (value_shape v) ranges ->
    value_shape (value_slice v ranges) = map (fun r => r.2 - r.1) ranges;
  assign_ok t src : shape t = shape src ->
    exists t', float_slice_assign t (whole (shape t)) src = Some t' /\ value t' = value src /\
      float_device t' = float_device t;
  cat_ok t ts dim : Forall (fun t' => float_device t' = float_device t) ts ->
    (dim < length (shape t))%nat -> Forall (fun t' => delete dim (shape t') = delete dim (shape t)) ts ->
    exists t', float_cat (t :: ts) dim = Some t' /\ value t' = value_cat (map value (t :: ts)) dim /\
      float_device t' = float_device t;
}.

(** ** Hash maps *)
Class HashOrder := {
  iterate : forall {A}, nat -> gmap PeerId A -> list (PeerId * A);
}.

Class HashLaws (H : HashOrder) := {
  iterate_permutation {A} hasher (m : gmap PeerId A) : iterate hasher m ≡ₚ map_to_list m;
}.

Record HashMap (A : Type) := mkMap { hasher : nat; entries : gmap PeerId A }.
Arguments mkMap {A} _ _.
Arguments hasher {A} _.
Arguments entries {A} _.

Section maps.
Context `{HashOrder} {A : Type}.

Definition iter (m : HashMap A) : list (PeerId * A) := iterate (hasher m) (entries m).
Definition keys (m : HashMap A) : list PeerId := map fst (iter m).
Definition values (m : HashMap A) : list A := map snd (iter m).
Definition size (m : HashMap A) : nat := length (iter m).

Definition map_insert (m : HashMap A) (k : PeerId) (a : A) : HashMap A :=
  mkMap (hasher m) (<[k := a]> (entries m)).
Definition map_remove (m : HashMap A) (k : PeerId) : HashMap A := mkMap (hasher m) (delete k (entries m)).

(** [iter.collect::<HashMap<_, _>>()]: a later entry replaces an earlier one. *)
Definition collect_map (h : nat) (l : list (PeerId * A)) : HashMap A :=
  foldl (fun m e => map_insert m e.1 e.2) (mkMap h ∅) l.
End maps.

Abbreviation CollectiveTensorMap := (HashMap Tensor).
Abbreviation PeerDeviceMap := (HashMap TDevice).

Section tensor_map.
Context `{FloatBackend, HashOrder}.

Definition get_common_shape (tensors : CollectiveTensorMap) : option (list Z) :=
  match values tensors with
  | first :: rest =>
      if forallb (fun t => bool_decide (shape t = shape first)) rest then Some (shape first) else None
  | [] => None
  end.

Definition get_peer_devices (h : nat) (tensors : CollectiveTensorMap) : PeerDeviceMap :=
  collect_map h (map (fun e => (e.1, float_device e.2)) (iter tensors)).

(** The order that puts devices of the same type together; the sort is stable. *)
Definition device_le (a b : TDevice) : Prop := device_id a <= device_id b.
#[export] Instance device_le_dec a b : Decision (device_le a b).
Proof. unfold device_le. apply _. Defined.

Definition by_device {A} (device : A -> TDevice) (a b : A) : Prop := device_le (device a) (device b).
#[export] Instance by_device_dec {A} (device : A -> TDevice) a b : Decision (by_device device a b).
Proof. unfold by_device. apply _. Defined.
End tensor_map.

(** ** Lemmas on maps *)
Section map_lemmas.
Context `{HashLaws} {A : Type}.
Implicit Types (m : HashMap A) (l : list (PeerId * A)).

Lemma iter_permutation m : iter m ≡ₚ map_to_list (entries m).
Proof. apply iterate_permutation. Qed.

Lemma elem_of_iter m k a : (k, a) ∈ iter m <-> entries m !! k = Some a.
Proof. rewrite iter_permutation. apply elem_of_map_to_list. Qed.

Lemma NoDup_keys m : NoDup (keys m).
Proof. unfold keys. rewrite iter_permutation. apply NoDup_fst_map_to_list. Qed.

Lemma size_entries m : size m = base.size (entries m).
Proof. unfold size. rewrite iter_permutation. apply length_map_to_list. Qed.

Lemma collect_entries h l : NoDup (map fst l) -> entries (collect_map h l) = list_to_map l.
Proof.
  unfold collect_map. intros Hnd.
  assert (Hgen : forall l (m : gmap PeerId A), NoDup (map fst l) -> (forall k a, (k, a) ∈ l -> m !! k = None) ->
    entries (foldl (fun m e => map_insert m e.1 e.2) (mkMap h m) l) = list_to_map l ∪ m).
  { clear l Hnd. induction l as [|[k a] l IH]; intros m Hnd Hm; cbn [foldl]; [cbn; by rewrite (left_id_L ∅ (∪))|].
    apply NoDup_cons in Hnd as [Hk Hnd]. unfold map_insert at 2. cbn [hasher entries fst snd].
    rewrite IH; [|done|].
    - cbn. rewrite <- insert_union_l, <- insert_union_r; [done|].
      apply not_elem_of_list_to_map_1. exact Hk.
    - intros k' a' Hin. rewrite lookup_insert_ne; [eapply Hm; by right|].
      intros ->. apply Hk, list_elem_of_fmap. by exists (k', a'). }
  rewrite Hgen; [by rewrite (right_id_L ∅ (∪))|done|]. intros. apply lookup_empty.
Qed.

Lemma collect_lookup h l k a : NoDup (map fst l) -> entries (collect_map h l) !! k = Some a <-> (k, a) ∈ l.
Proof. intros Hl. rewrite collect_entries by done. symmetry. by apply elem_of_list_to_map. Qed.

Lemma remove_permutation m k a : entries m !! k = Some a -> iter m ≡ₚ (k, a) :: iter (map_remove m k).
Proof. intros Hk. rewrite !iter_permutation. cbn. symmetry. by apply map_to_list_delete. Qed.
End map_lemmas.

Section tensor_map_lemmas.
Context `{FloatLaws} `{HashLaws}.

Lemma get_common_shape_spec tensors dims :
  iter tensors <> [] -> Forall (fun e => shape e.2 = dims) (iter tensors) -> get_common_shape tensors = Some dims.
Proof.
  intros Hne Hall. unfold get_common_shape, values. destruct (iter tensors) as [|[k t] l]; [done|].
  apply Forall_cons in Hall as [Ht Hl]. cbn in Ht |- *. subst dims.
  rewrite (proj2 (forallb_forall _ _)); [done|]. intros s Hs%list_elem_of_In.
  apply list_elem_of_fmap in Hs as (e & -> & He). apply bool_decide_true.
  by apply (proj1 (Forall_forall _ _) Hl).
Qed.

Lemma get_peer_devices_lookup h tensors k d :
  entries (get_peer_devices h tensors) !! k = Some d <->
    exists t, entries tensors !! k = Some t /\ float_device t = d.
Proof.
  unfold get_peer_devices. rewrite collect_lookup.
  - rewrite list_elem_of_fmap. split.
    + intros ([k' t] & [= -> ->] & Ht%elem_of_iter). by exists t.
    + intros (t & Ht%elem_of_iter & <-). by exists (k, t).
  - rewrite map_map. apply NoDup_keys.
Qed.
End tensor_map_lemmas.
