(* ===== verification/LocalReduce.v ===== *)
(** * Collectives among the devices of one process: src/src/local

    The strategies of src/src/local/{all_reduce,reduce,broadcast}: centralized,
    tree and ring.  All of them work on maps from peers to tensors; what order
    a map iterates in is up to its hasher, so the theorems hold for every
    order.  Code of these files fails only by a panic.

    The tree recursions have no bound in the source; they carry fuel here, and
    a recursion that outlives every fuel is a stack overflow. *)
From stdpp Require Import sorting.
From S2P Require Import Prelude Comp FloatBackend.

(** ** Grouping: the loop the three tree algorithms share

    The first element of what is left becomes a parent, and up to [arity]
    following elements its children. *)
Fixpoint groups_of {A} (fuel arity : nat) (l : list A) : list (A * list A) :=
  match fuel, l with
  | S fuel, parent :: rest => (parent, take arity rest) :: groups_of fuel arity (drop arity rest)
  | _, _ => []
  end.

Definition tree_groups {A} (arity : nat) (l : list A) : list (A * list A) := groups_of (length l) arity l.

Section strategies.
Context `{FloatBackend, HashOrder} {E : Type}.

(** The inner loop over the children of a parent. *)
Definition add_to (parent_device : TDevice) (sum child : Tensor) : Tensor :=
  float_add sum (float_to_device child parent_device).
Definition sum_children (parent : Tensor) (children : list Tensor) : Tensor :=
  foldl (add_to (float_device parent)) parent children.

(** ** Reduce *)
Definition reduce_sum_centralized (tensors : CollectiveTensorMap) (central : PeerId) : outcome E Tensor :=
  central_tensor ← expect (entries tensors !! central);
  Ok (sum_children central_tensor (values (map_remove tensors central))).

Fixpoint reduce_sum_tree_inner (fuel : nat) (tensors : list Tensor) (arity : nat) : outcome E Tensor :=
  match fuel with
  | O => Panic
  | S fuel =>
      let parents := map (fun g => sum_children g.1 g.2) (tree_groups arity tensors) in
      if (1 <? length parents)%nat then reduce_sum_tree_inner fuel parents arity
      else index parents 0
  end.

Definition reduce_sum_tree (fuel : nat) (tensors : CollectiveTensorMap) (root : PeerId) (arity : nat) :
    outcome E Tensor :=
  root_tensor ← expect (entries tensors !! root);
  let input := merge_sort (by_device float_device) (values (map_remove tensors root)) in
  reduce_sum_tree_inner fuel (root_tensor :: input) arity.

(** ** Broadcast *)
Definition broadcast_centralized (h : nat) (devices : PeerDeviceMap) (central : PeerId) (tensor : Tensor) :
    outcome E CollectiveTensorMap :=
  _ ← expect (entries devices !! central);
  let output := foldl (fun output e => map_insert output e.1 (float_to_device tensor e.2)) (mkMap h ∅)
                  (iter (map_remove devices central)) in
  Ok (map_insert output central tensor).

(** The children of the next group receive the tensor of the next parent, which
    follows them. *)
Definition hand_out (st : list (PeerId * Tensor) * list (PeerId * Tensor)) (children : list (PeerId * TDevice)) :
    outcome E (list (PeerId * Tensor) * list (PeerId * Tensor)) :=
  match st.1 with
  | [] => Panic
  | parent :: parents =>
      Ok (parents, st.2 ++ map (fun c => (c.1, float_to_device parent.2 c.2)) children ++ [parent])
  end.

Fixpoint broadcast_tree_inner (fuel : nat) (tensor : Tensor) (all_devices : list (PeerId * TDevice)) (arity : nat) :
    outcome E (list (PeerId * Tensor)) :=
  match fuel with
  | O => Panic
  | S fuel =>
      let groups := tree_groups arity all_devices in
      parents ← (if (1 <? length groups)%nat then broadcast_tree_inner fuel tensor (map fst groups) arity
                 else root ← index (map fst groups) 0; Ok [(root.1, tensor)]);
      '(_, tensors) ← foldM hand_out (parents, []) (map snd groups);
      Ok tensors
  end.

Definition broadcast_tree (fuel h : nat) (devices : PeerDeviceMap) (root : PeerId) (tensor : Tensor) (arity : nat) :
    outcome E CollectiveTensorMap :=
  root_device ← expect (entries devices !! root);
  let devices_vec := merge_sort (by_device snd) (iter (map_remove devices root)) in
  out ← broadcast_tree_inner fuel tensor ((root, root_device) :: devices_vec) arity;
  Ok (collect_map h out).

(** ** All-reduce *)
Definition all_reduce_sum_centralized (h h' : nat) (tensors : CollectiveTensorMap) : outcome E CollectiveTensorMap :=
  let peer_devices := get_peer_devices h tensors in
  central_device ← expect (head (keys tensors));
  central_tensor ← reduce_sum_centralized tensors central_device;
  broadcast_centralized h' peer_devices central_device central_tensor.

(** The parents, as the recursion returns them, hand their tensors to the
    groups in order. *)
Definition hand_down (st : list (list (PeerId * TDevice)) * list (PeerId * Tensor)) (p : PeerId * Tensor) :
    outcome E (list (list (PeerId * TDevice)) * list (PeerId * Tensor)) :=
  match st.1 with
  | [] => Panic
  | children :: groups =>
      Ok (groups, st.2 ++ map (fun c => (c.1, float_to_device p.2 c.2)) children ++ [p])
  end.

Fixpoint all_reduce_sum_tree_inner (fuel : nat) (tensors : list (PeerId * Tensor)) (arity : nat) :
    outcome E (list (PeerId * Tensor)) :=
  match fuel with
  | O => Panic
  | S fuel =>
      let groups := tree_groups arity tensors in
      let parents := map (fun g => (g.1.1, sum_children g.1.2 (map snd g.2))) groups in
      let children_groups := map (fun g => map (fun c => (c.1, float_device c.2)) g.2) groups in
      parents ← (if (1 <? length parents)%nat then all_reduce_sum_tree_inner fuel parents arity else Ok parents);
      '(_, tensors) ← foldM hand_down (children_groups, []) parents;
      Ok tensors
  end.

Definition all_reduce_sum_tree (fuel h : nat) (tensors : CollectiveTensorMap) (arity : nat) :
    outcome E CollectiveTensorMap :=
  let input := merge_sort (by_device (fun e => float_device e.2)) (iter tensors) in
  out ← all_reduce_sum_tree_inner fuel input arity;
  Ok (collect_map h out).

(** ** Ring *)

(** The greatest dimension, the last one of several: [max_by] keeps it. *)
Definition get_slice_dim (dims : list Z) : outcome E nat :=
  match enumerate dims with
  | [] => Panic
  | d :: ds => Ok (fst (foldl (fun best e => if best.2 <=? e.2 then e else best) d ds))
  end.

(** The slices of a dimension: the last one ends where the dimension does. *)
Definition get_ring_reduce_slice_ranges (slice_dim_size : Z) (slice_count : nat) : outcome E (list (Z * Z)) :=
  slice_size ← div_ceil slice_dim_size (Z.of_nat slice_count);
  ranges ← mapM (fun i =>
      start ← arith usize_bits (Z.of_nat i * slice_size);
      stop ← arith usize_bits (start + slice_size);
      Ok (start, stop)) (seq 0 slice_count);
  last_range ← expect (last ranges);
  Ok (<[(length ranges - 1)%nat := (last_range.1, slice_dim_size)]> ranges).

Definition slice_of (dims : list Z) (slice_dim : nat) (range : Z * Z) : list (Z * Z) :=
  <[slice_dim := range]> (whole dims).

Definition slice_tensors (tensors : CollectiveTensorMap) (dims : list Z) (slice_dim : nat) :
    outcome E (list (PeerId * list Tensor)) :=
  dim ← index dims slice_dim;
  ranges ← get_ring_reduce_slice_ranges dim (size tensors);
  mapM (fun e =>
      slices ← mapM (fun range => expect (float_slice e.2 (slice_of dims slice_dim range))) ranges;
      Ok (e.1, slices)) (iter tensors).

(** [v.remove(k)] and [v.insert(k, x)] of a vector of one tensor. *)
Definition take_slice (st : list (PeerId * list Tensor)) (i k : nat) :
    outcome E (Tensor * list (PeerId * list Tensor)) :=
  entry ← index st i;
  slice ← index entry.2 k;
  Ok (slice, <[i := (entry.1, delete k entry.2)]> st).

Definition put_slice (st : list (PeerId * list Tensor)) (i k : nat) (slice : Tensor) :
    outcome E (list (PeerId * list Tensor)) :=
  entry ← index st i;
  if (length entry.2 <? k)%nat then Panic
  else Ok (<[i := (entry.1, take k entry.2 ++ slice :: drop k entry.2)]> st).

(** One slice goes from peer [i] to the next. *)
Definition ring_send (is_phase_one : bool) (cycle : nat) (st : list (PeerId * list Tensor)) (i : nat) :
    outcome E (list (PeerId * list Tensor)) :=
  let tensor_count := length st in
  let dest := ((i + 1) mod tensor_count)%nat in
  let slice_idx := (if is_phase_one then (i + (tensor_count - 1) * cycle) mod tensor_count
                    else (i + 1 + (tensor_count - 1) * cycle) mod tensor_count)%nat in
  '(src_slice, st) ← take_slice st i slice_idx;
  '(dest_slice, st) ← take_slice st dest slice_idx;
  let src_on_dest := float_to_device src_slice (float_device dest_slice) in
  dest_slice ← (if is_phase_one then Ok (float_add dest_slice src_on_dest)
                else expect (float_slice_assign dest_slice (whole (shape dest_slice)) src_on_dest));
  st ← put_slice st i slice_idx src_slice;
  put_slice st dest slice_idx dest_slice.

Definition ring_cycles (is_phase_one : bool) (st : list (PeerId * list Tensor)) :
    outcome E (list (PeerId * list Tensor)) :=
  if (length st =? 0)%nat then Panic else
  foldM (fun st cycle => foldM (ring_send is_phase_one cycle) st (seq 0 (length st))) st
    (seq 0 (length st - 1)).

Definition all_reduce_sum_ring (fuel h : nat) (tensors : CollectiveTensorMap) : outcome E CollectiveTensorMap :=
  dims ← expect (get_common_shape tensors);
  slice_dim ← get_slice_dim dims;
  slice_dim_size ← index dims slice_dim;
  if slice_dim_size <? Z.of_nat (size tensors) then all_reduce_sum_tree fuel h tensors 2 else
  sliced ← slice_tensors tensors dims slice_dim;
  sliced ← ring_cycles true sliced;
  sliced ← ring_cycles false sliced;
  merged ← mapM (fun e => tensor ← expect (float_cat e.2 slice_dim); Ok (e.1, tensor)) sliced;
  Ok (collect_map h merged).
End strategies.
