(* ===== verification/LocalStrategies.v ===== *)
(** * What the local strategies compute: src/src/local

    Whatever the strategy, its arity and the order of the maps, the result is a
    sum of all inputs, each counted once: [sums] leaves the order and the
    grouping of the additions open, because they differ between strategies and
    a float addition is not associative.  The results stay on the devices of
    their peers, and all peers hold the same value. *)
From stdpp Require Import sorting.
From S2P Require Import Prelude Comp Ring FloatBackend LocalReduce.

(** ** Sums in any order and grouping *)
Inductive sums {V} (add : V -> V -> V) : list V -> V -> Prop :=
  | sums_one v : sums add [v] v
  | sums_add l1 l2 a b : sums add l1 a -> sums add l2 b -> sums add (l1 ++ l2) (add a b)
  | sums_perm l l' v : l ≡ₚ l' -> sums add l v -> sums add l' v.

Section sums.
Context {V : Type} (add : V -> V -> V).

(** Sums of sums. *)
Lemma sums_concat ls vs v : Forall2 (sums add) ls vs -> sums add vs v -> sums add (concat ls) v.
Proof.
  intros Hls Hv. revert ls Hls. induction Hv as [v|l1 l2 a b _ IH1 _ IH2|l l' v Hp _ IH]; intros ls Hls.
  - apply Forall2_cons_inv_r in Hls as (l & ls' & Hl & Hnil & ->). apply Forall2_nil_inv_r in Hnil as ->.
    cbn. by rewrite app_nil_r.
  - apply Forall2_app_inv_r in Hls as (k1 & k2 & H1 & H2 & ->). rewrite concat_app.
    apply sums_add; [by apply IH1|by apply IH2].
  - assert (Hp' : exists ls', ls' ≡ₚ ls /\ Forall2 (sums add) ls' l).
    { clear -Hls Hp. symmetry in Hp. revert ls Hls. induction Hp as [|x l l' _ IH|x y l|l l' l'' _ IH1 _ IH2]; intros ls Hls.
      - apply Forall2_nil_inv_r in Hls as ->. by exists [].
      - apply Forall2_cons_inv_r in Hls as (y & ls' & Hy & Hls' & ->).
        destruct (IH ls' Hls') as (k & Hk & HF). exists (y :: k). split; [by rewrite Hk|by constructor].
      - apply Forall2_cons_inv_r in Hls as (u & ls1 & Hu & Hls1 & ->).
        apply Forall2_cons_inv_r in Hls1 as (u' & ls2 & Hu' & Hls2 & ->).
        exists (u' :: u :: ls2). split; [apply perm_swap|by repeat constructor].
      - destruct (IH1 ls Hls) as (k & Hk & HF). destruct (IH2 k HF) as (k' & Hk' & HF').
        exists k'. split; [by rewrite Hk'|done]. }
    destruct Hp' as (ls' & Hperm & HF). apply (sums_perm _ (concat ls')); [|by apply IH].
    clear -Hperm. induction Hperm as [|x l l' _ IH|x y l|l l' l'' _ IH1 _ IH2]; cbn.
    + done.
    + by rewrite IH.
    + rewrite !app_assoc. f_equiv. apply Permutation_app_comm.
    + by rewrite IH1.
Qed.

Lemma sums_cons l a b : sums add l a -> sums add (b :: l) (add a b).
Proof.
  intros Hl. apply (sums_perm _ (l ++ [b])); [symmetry; apply Permutation_cons_append|].
  apply sums_add; [done|constructor].
Qed.

Lemma sums_fold l a : sums add (a :: l) (foldl add a l).
Proof.
  assert (Hgen : forall k v, sums add k v -> sums add (k ++ l) (foldl add v l)); [|by apply (Hgen [a]), sums_one].
  induction l as [|x l IH]; intros k v Hk; cbn; [by rewrite app_nil_r|].
  rewrite cons_middle, app_assoc. apply IH. apply sums_add; [done|constructor].
Qed.

(** With an associative and commutative addition there is one sum. *)
Lemma sums_reduce l v :
  (forall a b c, add a (add b c) = add (add a b) c) -> (forall a b, add a b = add b a) ->
  sums add l v -> reduce_list add l = Some v.
Proof.
  intros Ha Hc. induction 1 as [v|l1 l2 a b _ IH1 _ IH2|l l' v Hp _ IH]; [done| |].
  - assert (Hgen : forall l1 a, reduce_list add l1 = Some a -> reduce_list add (l1 ++ l2) = Some (add a b)); [|by apply Hgen].
    clear l1 a IH1. induction l1 as [|x l1 IH]; intros a H; [done|]. unfold reduce_list in *. cbn [foldr app] in *.
    destruct (foldr _ None l1) as [c|] eqn:Hl.
    + injection H as <-. rewrite (IH c eq_refl). f_equal. apply Ha.
    + injection H as <-. destruct l1 as [|y l1]; [|cbn in Hl; by destruct (foldr _ None l1)].
      cbn [app foldr] in *. by rewrite IH2.
  - rewrite <- IH. symmetry. by apply reduce_list_perm.
Qed.
End sums.

(** ** Groups *)
Section groups.
Context {A : Type}.
Implicit Types l : list A.

Lemma groups_concat fuel arity l :
  (length l <= fuel)%nat -> concat (map (fun g => g.1 :: g.2) (groups_of fuel arity l)) = l.
Proof.
  revert l. induction fuel as [|fuel IH]; intros [|p l] Hl; cbn in Hl |- *; [done|lia|done|].
  f_equal. rewrite IH by (rewrite length_drop; lia). apply take_drop.
Qed.

Lemma tree_groups_concat arity l : concat (map (fun g => g.1 :: g.2) (tree_groups arity l)) = l.
Proof. by apply groups_concat. Qed.

Lemma length_groups fuel arity l : (length (groups_of fuel arity l) <= length l)%nat.
Proof.
  revert l. induction fuel as [|fuel IH]; intros [|p l]; cbn; try lia.
  pose proof (IH (drop arity l)) as H. rewrite length_drop in H. lia.
Qed.

Lemma length_tree_groups_lt arity l :
  (0 < arity)%nat -> (1 < length l)%nat -> (length (tree_groups arity l) < length l)%nat.
Proof.
  unfold tree_groups. intros Ha Hl. destruct l as [|p l]; [cbn in Hl; lia|]. cbn [length groups_of].
  pose proof (length_groups (length l) arity (drop arity l)) as H. rewrite length_drop in H. cbn in Hl. lia.
Qed.

Lemma length_tree_groups_pos arity l : l <> [] -> (0 < length (tree_groups arity l))%nat.
Proof. destruct l; [done|]. unfold tree_groups. cbn. lia. Qed.

(** Without children the groups are the elements themselves. *)
Lemma groups_of_zero fuel l : (length l <= fuel)%nat -> map fst (groups_of fuel 0 l) = l.
Proof.
  revert l. induction fuel as [|fuel IH]; intros [|p l] Hl; cbn in Hl |- *; [done|lia|done|].
  rewrite drop_0, IH by lia. done.
Qed.

(** The parents and the children are all elements. *)
Lemma groups_split {B} (f : A -> B) (groups : list (A * list A)) :
  concat (map (fun g => map f g.2) groups) ++ map (fun g => f g.1) groups ≡ₚ
    map f (concat (map (fun g => g.1 :: g.2) groups)).
Proof.
  induction groups as [|[p cs] groups IH]; [done|]. cbn. rewrite map_app, <- IH, <- (assoc_L (++)).
  by rewrite <- !Permutation_middle.
Qed.
End groups.

Lemma tree_groups_map {A B} (f : A -> B) arity (l : list A) :
  tree_groups arity (map f l) = map (fun g => (f g.1, map f g.2)) (tree_groups arity l).
Proof.
  unfold tree_groups. rewrite length_map. generalize (length l). intros fuel. revert l.
  induction fuel as [|fuel IH]; intros [|p l]; [done..|]. cbn. by rewrite firstn_map, skipn_map, IH.
Qed.

Section strategy_lemmas.
Context `{FloatLaws} `{HashLaws} {E : Type} (dims : list Z).
Abbreviation vadd := value_add.
Abbreviation vsums := (sums vadd).

Lemma sum_children_ok parent children :
  shape parent = dims -> Forall (fun t => shape t = dims) children ->
  shape (sum_children parent children) = dims /\
  float_device (sum_children parent children) = float_device parent /\
  value (sum_children parent children) = foldl vadd (value parent) (map value children).
Proof.
  intros Hp Hc. unfold sum_children.
  assert (Hgen : forall sum, shape sum = dims -> float_device sum = float_device parent ->
    shape (foldl (add_to (float_device parent)) sum children) = dims /\
    float_device (foldl (add_to (float_device parent)) sum children) = float_device parent /\
    value (foldl (add_to (float_device parent)) sum children) = foldl vadd (value sum) (map value children)).
  { induction Hc as [|c children Hs _ IH]; intros sum Hsum Hd; [done|]. cbn [foldl map].
    assert (Heq : shape sum = shape (float_to_device c (float_device parent)))
      by by rewrite Hsum, shape_value, to_device_value, <- shape_value, Hs.
    assert (Hstep : shape (add_to (float_device parent) sum c) = dims).
    { unfold add_to. rewrite shape_value, add_value by done. rewrite add_shape; [by rewrite <- shape_value|].
      by rewrite <- !shape_value. }
    destruct (IH (add_to (float_device parent) sum c)) as (HA & HB & HC); [done| |].
    - unfold add_to. by rewrite add_device.
    - split; [done|]. split; [done|]. rewrite HC. unfold add_to. rewrite add_value by done.
      by rewrite to_device_value. }
  by apply Hgen.
Qed.

(** A group and the sum of its members. *)
Lemma groups_sum arity tensors :
  Forall (fun t => shape t = dims) tensors ->
  Forall2 (fun g t => shape t = dims /\ float_device t = float_device g.1 /\
      vsums (map value (g.1 :: g.2)) (value t))
    (tree_groups arity tensors) (map (fun g => sum_children g.1 g.2) (tree_groups arity tensors)).
Proof.
  intros Hs. apply Forall2_fmap_r, Forall_Forall2_diag, Forall_forall. intros [p cs] Hg. cbn [fst snd].
  assert (Hmem : Forall (fun t => shape t = dims) (p :: cs)).
  { apply Forall_forall. intros t Ht. apply (proj1 (Forall_forall _ _) Hs).
    rewrite <- (tree_groups_concat arity tensors). apply list_elem_of_In, in_concat.
    exists (p :: cs). rewrite <- !list_elem_of_In. split; [|done]. apply list_elem_of_fmap. by exists (p, cs). }
  apply Forall_cons in Hmem as [Hp Hcs]. destruct (sum_children_ok p cs Hp Hcs) as (HA & HB & HC).
  split; [done|]. split; [done|]. unfold fst, snd. rewrite HC. apply sums_fold.
Qed.

Lemma groups_values arity tensors :
  concat (map (fun g => map value (g.1 :: g.2)) (tree_groups arity tensors)) = map value tensors.
Proof.
  rewrite <- (tree_groups_concat arity tensors) at 2. rewrite concat_map, map_map. done.
Qed.

Lemma parents_ok arity tensors :
  Forall (fun t => shape t = dims) tensors ->
  let parents := map (fun g => sum_children g.1 g.2) (tree_groups arity tensors) in
  Forall (fun t => shape t = dims) parents /\
  map float_device parents = map (fun g => float_device g.1) (tree_groups arity tensors) /\
  (forall v, vsums (map value parents) v -> vsums (map value tensors) v).
Proof.
  intros Hs parents. pose proof (groups_sum arity tensors Hs) as HF. fold parents in HF. split; [|split].
  - apply Forall_lookup. intros i t Hi. destruct (Forall2_lookup_r _ _ _ _ _ HF Hi) as (g & _ & ? & _). done.
  - clear Hs. induction HF as [|g t gs ts (_ & Hd & _) _ IH]; [done|]. cbn. by rewrite Hd, IH.
  - intros v Hv. rewrite <- (groups_values arity tensors). eapply sums_concat; [|exact Hv].
    apply Forall2_fmap. eapply Forall2_impl; [exact HF|]. by intros g t (_ & _ & ?).
Qed.

Lemma reduce_inner_ok arity fuel tensors :
  (0 < arity)%nat -> tensors <> [] -> Forall (fun t => shape t = dims) tensors -> (length tensors <= fuel)%nat ->
  exists t, reduce_sum_tree_inner (E:=E) fuel tensors arity = Ok t /\ shape t = dims /\
    vsums (map value tensors) (value t) /\ head (map float_device tensors) = Some (float_device t).
Proof.
  intros Ha. revert tensors. induction fuel as [|fuel IH]; intros tensors Hne Hs Hf; [by destruct tensors; cbn in Hf; [|lia]|].
  cbn [reduce_sum_tree_inner]. destruct (parents_ok arity tensors Hs) as (Hps & Hdev & Hsums).
  set (parents := map (fun g => sum_children g.1 g.2) (tree_groups arity tensors)) in *.
  assert (Hlen : length parents = length (tree_groups arity tensors)) by apply length_map.
  assert (Hhead : head (map float_device parents) = head (map float_device tensors)) by by rewrite Hdev; destruct tensors.
  pose proof (length_tree_groups_pos arity tensors Hne) as Hpos.
  destruct (Nat.ltb_spec 1 (length parents)) as [Hmany|Hone].
  - destruct (IH parents) as (t & -> & Ht & Hv & Hd); [by destruct parents; cbn in Hlen; [lia|]|done| |].
    { pose proof (length_groups (length tensors) arity tensors) as Hle.
      pose proof (length_tree_groups_lt arity tensors Ha ltac:(unfold tree_groups in *; lia)). lia. }
    exists t. split; [done|]. split; [done|]. split; [by apply Hsums|]. by rewrite <- Hhead.
  - destruct parents as [|t [|]]; cbn in Hlen, Hone; [lia| |lia]. exists t. split; [done|].
    apply Forall_cons in Hps as [Ht _]. split; [done|]. split; [|by rewrite <- Hhead].
    apply Hsums. constructor.
Qed.

(** *** Reduce: the sum of all inputs, on the device of the root *)
Definition all_shaped (tensors : CollectiveTensorMap) : Prop :=
  forall k t, entries tensors !! k = Some t -> shape t = dims.

Lemma all_shaped_values tensors : all_shaped tensors -> Forall (fun t => shape t = dims) (values tensors).
Proof.
  intros Hs. apply Forall_forall. intros t Ht. unfold values in Ht. apply list_elem_of_fmap in Ht as ([k t'] & -> & Ht).
  apply elem_of_iter in Ht. by apply (Hs k).
Qed.

Lemma all_shaped_remove (tensors : CollectiveTensorMap) k : all_shaped tensors -> all_shaped (map_remove tensors k).
Proof. intros Hs k' t. cbn. rewrite lookup_delete_Some. intros [_ Ht]. by apply (Hs k'). Qed.

Lemma values_remove (tensors : CollectiveTensorMap) k t :
  entries tensors !! k = Some t -> values tensors ≡ₚ t :: values (map_remove tensors k).
Proof. intros Hk. unfold values. by rewrite (remove_permutation _ _ _ Hk). Qed.

Lemma reduce_centralized_ok (tensors : CollectiveTensorMap) root t0 :
  entries tensors !! root = Some t0 -> all_shaped tensors ->
  exists t, reduce_sum_centralized (E:=E) tensors root = Ok t /\ shape t = dims /\
    vsums (map value (values tensors)) (value t) /\ float_device t = float_device t0.
Proof.
  intros Hk Hs. unfold reduce_sum_centralized. rewrite Hk. cbn [expect mbind outcome_bind].
  destruct (sum_children_ok t0 (values (map_remove tensors root))) as (HA & HB & HC);
    [by apply (Hs root)|by apply all_shaped_values, all_shaped_remove|].
  eexists. split; [done|]. split; [done|]. split; [|done]. rewrite HC.
  apply (sums_perm _ (map value (t0 :: values (map_remove tensors root)))); [|apply sums_fold].
  by rewrite (values_remove _ _ _ Hk).
Qed.

Lemma reduce_tree_ok arity fuel (tensors : CollectiveTensorMap) root t0 :
  (0 < arity)%nat -> entries tensors !! root = Some t0 -> all_shaped tensors -> (size tensors <= fuel)%nat ->
  exists t, reduce_sum_tree (E:=E) fuel tensors root arity = Ok t /\ shape t = dims /\
    vsums (map value (values tensors)) (value t) /\ float_device t = float_device t0.
Proof.
  intros Ha Hk Hs Hf. unfold reduce_sum_tree. rewrite Hk. cbn [expect mbind outcome_bind].
  set (input := merge_sort _ _). pose proof (merge_sort_Permutation (by_device float_device) (values (map_remove tensors root))) as Hp.
  fold input in Hp. pose proof (values_remove _ _ _ Hk) as Hv. rewrite <- Hp in Hv.
  assert (Hin : Forall (fun t => shape t = dims) (t0 :: input)) by (rewrite <- Hv; by apply all_shaped_values).
  destruct (reduce_inner_ok arity fuel (t0 :: input)) as (t & Ht & Hd & Hsum & Hdev); [done|done|done| |].
  - rewrite <- Hv. unfold values. by rewrite length_map.
  - exists t. split; [done|]. split; [done|]. split; [|by injection Hdev].
    eapply sums_perm; [|exact Hsum]. by rewrite Hv.
Qed.

(** *** Distribution: the tensor of the root, on the devices of the peers *)
Abbreviation on_devices out := (map (fun e : PeerId * Tensor => (e.1, float_device e.2)) out).

Lemma hand_down_ok v groups parents acc :
  length parents = length groups -> Forall (fun p => value p.2 = v) parents -> Forall (fun p => value p.2 = v) acc ->
  exists out, foldM (E:=E) hand_down (groups, acc) parents = Ok ([], out) /\
    Forall (fun p => value p.2 = v) out /\
    on_devices out ≡ₚ on_devices acc ++ concat groups ++ on_devices parents.
Proof.
  revert groups acc. induction parents as [|p parents IH]; intros [|g groups] acc Hlen Hp Hacc; try done.
  - exists acc. split; [done|]. split; [done|]. cbn. by rewrite app_nil_r.
  - apply Forall_cons in Hp as [Hv Hp]. injection Hlen as Hlen. cbn [foldM hand_down fst snd mbind outcome_bind].
    destruct (IH groups (acc ++ map (fun c => (c.1, float_to_device p.2 c.2)) g ++ [p]) Hlen Hp) as (out & -> & Hout & Hperm).
    { rewrite !Forall_app. split; [done|]. split; [|by constructor].
      apply Forall_map, Forall_true. intros c. cbn. by rewrite to_device_value. }
    exists out. split; [done|]. split; [done|]. rewrite Hperm, !map_app, map_map. cbn [map concat fst snd].
    assert (Hg : map (fun c : PeerId * TDevice => (c.1, float_device (float_to_device p.2 c.2))) g = g).
    { rewrite <- (map_id g) at 2. apply map_ext. intros [k d]. cbn. by rewrite to_device_device. }
    rewrite Hg, <- !(assoc_L (++)). cbn [app]. f_equiv. rewrite (assoc_L (++) g).
    by rewrite Permutation_middle, <- (assoc_L (++)).
Qed.

Lemma all_reduce_inner_ok arity fuel tensors :
  (0 < arity)%nat -> tensors <> [] -> Forall (fun e => shape e.2 = dims) tensors -> (length tensors <= fuel)%nat ->
  exists out v, all_reduce_sum_tree_inner (E:=E) fuel tensors arity = Ok out /\
    vsums (map value (map snd tensors)) v /\ Forall (fun p => value p.2 = v) out /\
    on_devices out ≡ₚ on_devices tensors.
Proof.
  intros Ha. revert tensors. induction fuel as [|fuel IH]; intros tensors Hne Hs Hf; [by destruct tensors; cbn in Hf; [|lia]|].
  cbn [all_reduce_sum_tree_inner]. set (groups := tree_groups arity tensors).
  set (parents := map (fun g => (g.1.1, sum_children g.1.2 (map snd g.2))) groups).
  assert (Hsnd : map snd parents = map (fun g => sum_children g.1 g.2) (tree_groups arity (map snd tensors))).
  { unfold parents, groups. by rewrite tree_groups_map, !map_map. }
  destruct (parents_ok arity (map snd tensors)) as (HP & HD & HS); [by apply Forall_map|].
  rewrite <- Hsnd in HP, HD, HS. apply Forall_map in HP.
  assert (Hon : on_devices parents = map (fun g => (g.1.1, float_device g.1.2)) groups).
  { rewrite tree_groups_map in HD. unfold parents in *. fold groups in HD. rewrite !map_map in HD |- *. cbn in HD |- *.
    apply list_eq. intros i. rewrite !list_lookup_fmap. apply (f_equal (.!! i)) in HD. rewrite !list_lookup_fmap in HD.
    destruct (groups !! i); [|done]. cbn in HD |- *. by injection HD as ->. }
  assert (Hperm : concat (map (fun g => map (fun c => (c.1, float_device c.2)) g.2) groups) ++ on_devices parents
      ≡ₚ on_devices tensors).
  { rewrite Hon, <- (tree_groups_concat arity tensors). fold groups.
    apply (groups_split (fun c => (c.1, float_device c.2))). }
  assert (Hrec : exists parents' v,
    (if (1 <? length parents)%nat then all_reduce_sum_tree_inner (E:=E) fuel parents arity else Ok parents) = Ok parents' /\
    vsums (map value (map snd parents)) v /\ Forall (fun p => value p.2 = v) parents' /\ on_devices parents' ≡ₚ on_devices parents).
  { pose proof (length_tree_groups_pos arity tensors Hne) as Hpos.
    assert (Hlen : length parents = length groups) by apply length_map.
    destruct (Nat.ltb_spec 1 (length parents)) as [Hmany|Hone].
    - apply IH; [by destruct parents; cbn in Hmany; [lia|]|done|].
      pose proof (length_groups (length tensors) arity tensors) as Hle.
      pose proof (length_tree_groups_lt arity tensors Ha ltac:(unfold groups, tree_groups in *; lia)). unfold groups in *. lia.
    - destruct parents as [|p [|]]; cbn in Hlen, Hone; [unfold groups in *; lia| |lia].
      exists [p], (value p.2). split; [done|]. split; [constructor|]. by split; [constructor|]. }
  destruct Hrec as (parents' & v & -> & Hv & Hval & Hdev). cbn [mbind outcome_bind].
  destruct (hand_down_ok v (map (fun g => map (fun c => (c.1, float_device c.2)) g.2) groups) parents' [])
    as (out & Hout & Hvout & Hpout); [|done|done|].
  - apply Permutation_length in Hdev. rewrite !length_map in Hdev. rewrite Hdev. unfold parents. by rewrite !length_map.
  - rewrite Hout. exists out, v. split; [done|]. split; [by apply HS|]. split; [done|].
    rewrite Hpout. cbn [map app]. by rewrite Hdev.
Qed.

Lemma hand_out_down groups parents acc out :
  foldM (E:=E) hand_down (groups, acc) parents = Ok ([], out) ->
  length parents = length groups ->
  foldM (E:=E) hand_out (parents, acc) groups = Ok ([], out).
Proof.
  revert groups acc. induction parents as [|p parents IH]; intros [|g groups] acc Hdown Hlen; try done.
  - cbn in *. by injection Hdown as <-.
  - cbn [foldM hand_down hand_out fst snd mbind outcome_bind] in *. apply IH; [done|]. by injection Hlen.
Qed.

Lemma broadcast_inner_ok arity fuel root d tensor devices :
  (0 < arity)%nat -> float_device tensor = d -> (length devices < fuel)%nat ->
  exists out, broadcast_tree_inner (E:=E) fuel tensor ((root, d) :: devices) arity = Ok out /\
    Forall (fun p => value p.2 = value tensor) out /\ on_devices out ≡ₚ (root, d) :: devices.
Proof.
  intros Ha Hd. revert devices. induction fuel as [|fuel IH]; intros devices Hf; [lia|].
  cbn [broadcast_tree_inner]. set (all := (root, d) :: devices). set (groups := tree_groups arity all).
  assert (Hhead : exists tl, map fst groups = (root, d) :: tl) by by eexists.
  destruct Hhead as (tl & Htl).
  assert (Hlen : length (map fst groups) = length groups) by apply length_map.
  assert (Hrec : exists parents,
    (if (1 <? length groups)%nat then broadcast_tree_inner (E:=E) fuel tensor (map fst groups) arity
     else root ← index (map fst groups) 0; Ok [(root.1, tensor)]) = Ok parents /\
    Forall (fun p => value p.2 = value tensor) parents /\ on_devices parents ≡ₚ map fst groups).
  { rewrite Htl in *. destruct (Nat.ltb_spec 1 (length groups)) as [Hmany|Hone].
    - apply IH. pose proof (length_groups (length all) arity all) as Hle.
      assert (Hlt : (length groups < length all)%nat) by (apply length_tree_groups_lt; [done|unfold groups, tree_groups in *; lia]).
      change (length all) with (S (length devices)) in Hlt. cbn [length] in Hlen. lia.
    - destruct tl; [|cbn [length] in Hlen; lia]. exists [(root, tensor)]. split; [done|]. split; [by constructor|]. cbn. by rewrite Hd. }
  destruct Hrec as (parents & -> & Hv & Hp). cbn [mbind outcome_bind].
  assert (Hlen' : length parents = length (map snd groups)).
  { apply Permutation_length in Hp. rewrite !length_map in *. lia. }
  destruct (hand_down_ok (value tensor) (map snd groups) parents [] Hlen' Hv) as (out & Hout & Hvout & Hpout); [done|].
  rewrite (hand_out_down _ _ _ _ Hout Hlen'). exists out. split; [done|]. split; [done|].
  rewrite Hpout, Hp. cbn [map app]. rewrite <- (tree_groups_concat arity all). fold groups.
  pose proof (groups_split id groups) as Hs. rewrite map_id in Hs. rewrite <- Hs.
  assert (Hids : map (fun g : PeerId * TDevice * list (PeerId * TDevice) => map id g.2) groups = map snd groups)
    by (apply map_ext; intros g; apply map_id).
  by rewrite Hids.
Qed.

(** Every peer of the map, and no other, holds the value on its own device. *)
Definition everywhere (devices : PeerDeviceMap) (v : Value) (out : CollectiveTensorMap) : Prop :=
  map_Forall2 (fun _ d t => float_device t = d /\ value t = v) (entries devices) (entries out).

Lemma everywhere_collect h (devices : PeerDeviceMap) v out :
  on_devices out ≡ₚ iter devices -> Forall (fun p => value p.2 = v) out -> everywhere devices v (collect_map h out).
Proof.
  intros Hp Hv k. assert (Hnd : NoDup (map fst out)).
  { assert (Heq : map fst out = map fst (on_devices out)) by by rewrite map_map.
    rewrite Heq, Hp. apply NoDup_keys. }
  assert (Hin : forall d, (k, d) ∈ iter devices <-> exists t, (k, t) ∈ out /\ float_device t = d).
  { intros d. rewrite <- Hp, list_elem_of_fmap. split.
    - intros ([k' t] & [= -> ->] & Ht). by exists t.
    - intros (t & Ht & <-). by exists (k, t). }
  destruct (entries (collect_map h out) !! k) as [t|] eqn:Ht.
  - apply collect_lookup in Ht; [|done].
    rewrite (proj1 (elem_of_iter devices k (float_device t))) by (apply Hin; by exists t).
    constructor. split; [done|]. exact (proj1 (Forall_forall _ _) Hv _ Ht).
  - destruct (entries devices !! k) as [d|] eqn:Hd; [|constructor].
    apply elem_of_iter, Hin in Hd as (t & Hk & _). apply (collect_lookup h) in Hk; [|done]. congruence.
Qed.

Lemma broadcast_tree_ok arity fuel h (devices : PeerDeviceMap) root tensor :
  (0 < arity)%nat -> entries devices !! root = Some (float_device tensor) -> (size devices <= fuel)%nat ->
  exists out, broadcast_tree (E:=E) fuel h devices root tensor arity = Ok out /\ everywhere devices (value tensor) out.
Proof.
  intros Ha Hk Hf. unfold broadcast_tree. rewrite Hk. cbn [expect mbind outcome_bind].
  set (l := merge_sort _ _). pose proof (merge_sort_Permutation (by_device snd) (iter (map_remove devices root))) as Hl.
  fold l in Hl. pose proof (remove_permutation _ _ _ Hk) as Hp. rewrite <- Hl in Hp.
  destruct (broadcast_inner_ok arity fuel root (float_device tensor) tensor l) as (out & -> & Hv & Hout); [done|done| |].
  - apply Permutation_length in Hp. unfold size in Hf. cbn in Hp. lia.
  - eexists. split; [done|]. apply everywhere_collect; [|done]. by rewrite Hout, Hp.
Qed.

Lemma broadcast_centralized_ok h (devices : PeerDeviceMap) root tensor :
  entries devices !! root = Some (float_device tensor) ->
  exists out, broadcast_centralized (E:=E) h devices root tensor = Ok out /\ everywhere devices (value tensor) out.
Proof.
  intros Hk. unfold broadcast_centralized. rewrite Hk. cbn [expect mbind outcome_bind]. eexists. split; [done|].
  set (l := iter (map_remove devices root)).
  assert (Hc : map_insert (foldl (fun output e => map_insert output e.1 (float_to_device tensor e.2)) (mkMap h ∅) l) root tensor
    = collect_map h (map (fun e => (e.1, float_to_device tensor e.2)) l ++ [(root, tensor)])).
  { unfold collect_map. rewrite foldl_app. cbn [foldl fst snd]. f_equal.
    generalize (mkMap (A:=Tensor) h ∅). induction l as [|e l IH]; intros m; [done|]. cbn. apply IH. }
  rewrite Hc. apply everywhere_collect.
  - rewrite map_app, map_map. cbn [map fst snd]. rewrite (remove_permutation _ _ _ Hk), <- Permutation_cons_append.
    f_equiv. fold l. apply reflexive_eq. rewrite <- (map_id l) at 2. apply map_ext. intros [k d]. cbn. by rewrite to_device_device.
  - apply Forall_app. split; [|by constructor]. apply Forall_map, Forall_true. intros e. cbn. by rewrite to_device_value.
Qed.

(** *** All-reduce by a reduction and a distribution *)
Definition devices_of (tensors : CollectiveTensorMap) : PeerDeviceMap :=
  mkMap (hasher tensors) (float_device <$> entries tensors).

Lemma everywhere_ext (devices devices' : PeerDeviceMap) v out :
  entries devices = entries devices' -> everywhere devices v out -> everywhere devices' v out.
Proof. unfold everywhere. by intros ->. Qed.

Lemma get_peer_devices_entries h tensors : entries (get_peer_devices h tensors) = entries (devices_of tensors).
Proof.
  apply map_eq. intros k. cbn. rewrite lookup_fmap. apply option_eq. intros d.
  rewrite get_peer_devices_lookup. destruct (entries tensors !! k) as [t|]; cbn; [|by split; [intros (? & ? & ?)|]].
  split; [by intros (? & [= <-] & <-)|intros [= <-]; by exists t].
Qed.

Lemma head_keys (tensors : CollectiveTensorMap) :
  entries tensors <> ∅ -> exists k t, head (keys tensors) = Some k /\ entries tensors !! k = Some t.
Proof.
  intros Hne. unfold keys. destruct (iter tensors) as [|[k t] l] eqn:Hl.
  - pose proof (iter_permutation tensors) as Hp. rewrite Hl in Hp. apply Permutation_nil_l in Hp.
    symmetry in Hp. by apply map_to_list_empty_iff in Hp.
  - exists k, t. split; [done|]. apply elem_of_iter. rewrite Hl. by left.
Qed.

Lemma all_reduce_centralized_ok h h' tensors :
  entries tensors <> ∅ -> all_shaped tensors ->
  exists out v, all_reduce_sum_centralized (E:=E) h h' tensors = Ok out /\
    vsums (map value (values tensors)) v /\ everywhere (devices_of tensors) v out.
Proof.
  intros Hne Hs. destruct (head_keys tensors Hne) as (k & t0 & Hk & Ht0).
  unfold all_reduce_sum_centralized. rewrite Hk. cbn [expect mbind outcome_bind].
  destruct (reduce_centralized_ok tensors k t0 Ht0 Hs) as (t & -> & _ & Hsum & Hd). cbn [mbind outcome_bind].
  destruct (broadcast_centralized_ok h' (get_peer_devices h tensors) k t) as (out & -> & Hout).
  { rewrite get_peer_devices_lookup. by exists t0. }
  exists out, (value t). split; [done|]. split; [done|].
  eapply everywhere_ext; [apply get_peer_devices_entries|done].
Qed.

Lemma iter_devices_of tensors : on_devices (iter tensors) ≡ₚ iter (devices_of tensors).
Proof.
  rewrite !iter_permutation. cbn. rewrite map_to_list_fmap. apply reflexive_eq, map_ext. by intros [k t].
Qed.

Lemma all_reduce_tree_ok arity fuel h tensors :
  (0 < arity)%nat -> entries tensors <> ∅ -> all_shaped tensors -> (size tensors <= fuel)%nat ->
  exists out v, all_reduce_sum_tree (E:=E) fuel h tensors arity = Ok out /\
    vsums (map value (values tensors)) v /\ everywhere (devices_of tensors) v out.
Proof.
  intros Ha Hne Hs Hf. unfold all_reduce_sum_tree. set (l := merge_sort _ _).
  pose proof (merge_sort_Permutation (by_device (fun e : PeerId * Tensor => float_device e.2)) (iter tensors)) as Hl. fold l in Hl.
  destruct (all_reduce_inner_ok arity fuel l) as (out & v & -> & Hv & Hval & Hp); [done| | | |].
  - intros Hnil. rewrite Hnil in Hl. apply Permutation_nil_l in Hl. destruct (head_keys tensors Hne) as (k & t & Hk & _).
    unfold keys in Hk. by rewrite <- Hl in Hk.
  - rewrite Hl. apply all_shaped_values in Hs. by apply Forall_map in Hs.
  - rewrite Hl. exact Hf.
  - cbn [mbind outcome_bind]. exists (collect_map h out), v. split; [done|]. split.
    + eapply sums_perm; [|exact Hv]. unfold values. by rewrite Hl.
    + apply everywhere_collect; [|done]. by rewrite Hp, Hl, iter_devices_of.
Qed.
End strategy_lemmas.
