(* ===== verification/LocalRing.v ===== *)
(** * The local ring all-reduce: src/src/local/all_reduce/ring.rs

    One cycle sends the slices one after the other, in place.  No send of a
    cycle reads or writes a slot that an earlier one has written, so the cycle
    is a step of the simultaneous ring of [Ring], whose results hold for it. *)
From stdpp Require Import sorting.
From S2P Require Import Prelude Comp Ring FloatBackend LocalReduce LocalStrategies.

(** ** The slots of the sliced tensors *)
Section slots.
Context {T : Type}.
Implicit Types (st : list (PeerId * list T)).

Definition slot st (r c : nat) : option T := e ← st !! r; e.2 !! c.
Definition set_slot st (r c : nat) (t : T) : list (PeerId * list T) :=
  alter (fun e => (e.1, <[c := t]> e.2)) r st.

Lemma slot_set_eq st r c t t' : slot st r c = Some t' -> slot (set_slot st r c t) r c = Some t.
Proof.
  unfold slot, set_slot. rewrite list_lookup_alter_eq. destruct (st !! r) as [e|]; [|done].
  cbn [mbind option_bind fmap option_fmap option_map snd]. intros Hc. rewrite list_lookup_insert_eq; [done|]. by eapply lookup_lt_Some.
Qed.

Lemma slot_set_ne st r c t r' c' : (r, c) <> (r', c') -> slot (set_slot st r c t) r' c' = slot st r' c'.
Proof.
  intros Hne. unfold slot, set_slot. destruct (decide (r' = r)) as [->|Hr].
  - rewrite list_lookup_alter_eq. destruct (st !! r) as [e|]; [|done].
    cbn [mbind option_bind fmap option_fmap option_map snd]. rewrite list_lookup_insert_ne; [done|]. congruence.
  - by rewrite list_lookup_alter_ne.
Qed.

Lemma set_slot_peers st r c t : map fst (set_slot st r c t) = map fst st.
Proof.
  apply list_eq. intros i. rewrite !list_lookup_fmap. unfold set_slot.
  destruct (decide (r = i)) as [->|Hr]; [|by rewrite list_lookup_alter_ne].
  rewrite list_lookup_alter_eq. by destruct (st !! i).
Qed.

Lemma set_slot_widths st r c t : map (fun e => length e.2) (set_slot st r c t) = map (fun e => length e.2) st.
Proof.
  apply list_eq. intros i. rewrite !list_lookup_fmap. unfold set_slot.
  destruct (decide (r = i)) as [->|Hr]; [|by rewrite list_lookup_alter_ne].
  rewrite list_lookup_alter_eq. destruct (st !! i); [|done].
  cbn [fmap option_fmap option_map snd]. by rewrite length_insert.
Qed.

Lemma length_set_slot st r c t : length (set_slot st r c t) = length st.
Proof. apply length_alter. Qed.

(** Taken out and put back. *)
Lemma delete_put (l : list T) k t :
  (k < length l)%nat -> take k (delete k l) ++ t :: drop k (delete k l) = <[k := t]> l.
Proof.
  intros Hk. rewrite delete_take_drop, insert_take_drop by done.
  rewrite take_app_le, take_take by (rewrite length_take; lia). rewrite Nat.min_id. do 2 f_equal.
  rewrite drop_app_ge by (rewrite length_take; lia). by rewrite length_take, Nat.min_l, Nat.sub_diag by lia.
Qed.
End slots.

Section sends.
Context `{FloatBackend} {E : Type}.
Implicit Types (st : list (PeerId * list Tensor)).

Definition sent_idx (w : nat) (is_phase_one : bool) (cycle i : nat) : nat :=
  if is_phase_one then ((i + (w - 1) * cycle) mod w)%nat else ((i + 1 + (w - 1) * cycle) mod w)%nat.

Definition receive (is_phase_one : bool) (own incoming : Tensor) : outcome E Tensor :=
  let src_on_dest := float_to_device incoming (float_device own) in
  if is_phase_one then Ok (float_add own src_on_dest)
  else expect (float_slice_assign own (whole (shape own)) src_on_dest).

Lemma take_slice_eq st i k id l a :
  st !! i = Some (id, l) -> l !! k = Some a ->
  take_slice (E:=E) st i k = Ok (a, <[i := (id, delete k l)]> st).
Proof.
  intros Hi Hk. unfold take_slice. rewrite (proj2 (index_Ok _ _ _) Hi). cbn [mbind outcome_bind snd].
  rewrite (proj2 (index_Ok _ _ _) Hk). done.
Qed.

Lemma put_slice_eq st i k id l a :
  st !! i = Some (id, delete k l) -> (k < length l)%nat ->
  put_slice (E:=E) st i k a = Ok (<[i := (id, <[k := a]> l)]> st).
Proof.
  intros Hi Hk. unfold put_slice. rewrite (proj2 (index_Ok _ _ _) Hi). cbn [mbind outcome_bind fst snd].
  rewrite (length_delete l k) by (by apply lookup_lt_is_Some).
  rewrite (proj2 (Nat.ltb_ge _ _)) by lia. by rewrite delete_put.
Qed.

Lemma ring_send_eq is_phase_one cycle st i a b :
  let w := length st in let dest := ((i + 1) mod w)%nat in let k := sent_idx w is_phase_one cycle i in
  i <> dest -> slot st i k = Some a -> slot st dest k = Some b ->
  ring_send is_phase_one cycle st i = (t ← receive is_phase_one b a; Ok (set_slot st dest k t)).
Proof.
  intros w dest k Hne Ha Hb. unfold ring_send. cbv zeta. fold w dest.
  change (if is_phase_one then ((i + (w - 1) * cycle) mod w)%nat else ((i + 1 + (w - 1) * cycle) mod w)%nat) with k.
  unfold slot in Ha, Hb.
  destruct (st !! i) as [[id1 l1]|] eqn:Hi; [|done]. destruct (st !! dest) as [[id2 l2]|] eqn:Hd; [|done]. cbn in Ha, Hb.
  assert (Hil : (i < w)%nat) by by eapply lookup_lt_Some.
  assert (Hdl : (dest < w)%nat) by by eapply lookup_lt_Some.
  assert (Hk1 : (k < length l1)%nat) by by eapply lookup_lt_Some.
  assert (Hk2 : (k < length l2)%nat) by by eapply lookup_lt_Some.
  rewrite (take_slice_eq st i k id1 l1 a Hi Ha). cbn [mbind outcome_bind].
  rewrite (take_slice_eq _ dest k id2 l2 b) by (done || by rewrite list_lookup_insert_ne). cbn [mbind outcome_bind].
  unfold receive. destruct (if is_phase_one then _ else _) as [t|e|]; [|done..]. cbn [mbind outcome_bind].
  rewrite (put_slice_eq _ i k id1 l1 a); [|rewrite list_lookup_insert_ne, list_lookup_insert_eq by done; done|done].
  cbn [mbind outcome_bind]. rewrite (list_insert_id l1) by done.
  rewrite (put_slice_eq _ dest k id2 l2 t).
  - f_equal. rewrite (list_insert_insert_ne _ i dest), list_insert_insert_eq, list_insert_insert_eq by done.
    rewrite (list_insert_id st) by done. unfold set_slot. rewrite list_insert_alter.
    apply list_alter_ext; [|done]. intros x Hx. by simplify_eq.
  - rewrite list_lookup_insert_ne by done. rewrite list_lookup_insert_eq; [done|]. by rewrite length_insert.
  - done.
Qed.
End sends.

(** ** The schedule *)
Section schedule.
Context (w : nat) (Hw : (0 < w)%nat).

Lemma mod_succ_ne x : (1 < w)%nat -> ((x + 1) mod w <> x mod w)%nat.
Proof using Hw.
  intros H1. rewrite <- Nat.Div0.add_mod_idemp_l. pose proof (Nat.mod_upper_bound x w ltac:(lia)).
  rewrite mod_once by lia. destruct (Nat.ltb_spec (x mod w + 1) w); lia.
Qed.

Lemma sent_idx_succ_ne phase cycle i : (1 < w)%nat -> sent_idx w phase cycle (S i) <> sent_idx w phase cycle i.
Proof using Hw.
  intros H1. unfold sent_idx. destruct phase.
  - replace (S i + (w - 1) * cycle)%nat with (i + (w - 1) * cycle + 1)%nat by lia. by apply mod_succ_ne.
  - replace (S i + 1 + (w - 1) * cycle)%nat with (i + 1 + (w - 1) * cycle + 1)%nat by lia. by apply mod_succ_ne.
Qed.

(** [(w - 1) * s] steps forward are [s] steps back. *)
Lemma steps_back x s : (s <= w)%nat -> ((x + (w - 1) * s) mod w = (x + w - s) mod w)%nat.
Proof using Hw.
  intros Hs. rewrite <- (Nat.Div0.mod_add (x + (w - 1) * s) 1). rewrite <- (Nat.Div0.mod_add (x + w - s) s).
  f_equal. destruct w as [|w']; [lia|]. nia.
Qed.

Definition received (phase : bool) (s r : nat) : nat := sent_idx w phase s (predecessor w r).

Lemma follows_received_sums : follows w 0 (received true).
Proof using Hw.
  intros s r c Hs Hr Hc. unfold received, sent_idx. rewrite steps_back by lia.
  rewrite send_gather by lia. by apply follows_gather.
Qed.

Lemma follows_received_copies : follows w (w - 1) (received false).
Proof using Hw.
  intros s r c Hs Hr Hc. unfold received, sent_idx. rewrite steps_back by lia.
  rewrite predecessor_eq, age_eq by lia.
  destruct (Nat.eqb_spec r 0); rewrite mod_twice by lia; cbv zeta;
  repeat match goal with |- context [(?a <? ?b)%nat] => destruct (Nat.ltb_spec a b) end; lia.
Qed.
End schedule.

(** ** The cycles *)
Section cycles.
Context `{FloatLaws} {E : Type}.
Context (w : nat) (Hw : (0 < w)%nat) (ids : list PeerId) (dev : nat -> TDevice) (chunk_shape : nat -> list Z).
Implicit Types (st : list (PeerId * list Tensor)) (f : nat -> nat -> Value).

(** Slot [c] of peer [r] holds the value [f r c]. *)
Definition holds st f : Prop :=
  map fst st = ids /\ length st = w /\ map (fun e => length e.2) st = replicate w w /\
  forall r c, (r < w)%nat -> (c < w)%nat -> exists t, slot st r c = Some t /\ value t = f r c /\
    float_device t = dev r /\ shape t = chunk_shape c.

Lemma holds_ext st f g : (forall r c, (r < w)%nat -> (c < w)%nat -> f r c = g r c) -> holds st f -> holds st g.
Proof using Type.
  intros Hfg (Hids & Hlen & Hw' & Hslots). split; [done|]. split; [done|]. split; [done|].
  intros r c Hr Hc. rewrite <- Hfg by done. by apply Hslots.
Qed.

Definition merge (phase : bool) (own incoming : Value) : Value :=
  if phase then value_add own incoming else incoming.

Lemma receive_ok phase own incoming :
  shape own = shape incoming ->
  exists t, receive (E:=E) phase own incoming = Ok t /\ value t = merge phase (value own) (value incoming) /\
    float_device t = float_device own /\ shape t = shape own.
Proof using Type.
  intros Hs. unfold receive, merge. set (src := float_to_device incoming (float_device own)).
  assert (Hsrc : value src = value incoming) by apply to_device_value.
  assert (Hss : shape own = shape src) by (rewrite (shape_value src), Hsrc, <- shape_value; done).
  destruct phase.
  - eexists. split; [done|]. rewrite add_value, add_device by done. rewrite Hsrc. split; [done|]. split; [done|].
    rewrite shape_value, add_value by done. rewrite add_shape by by rewrite <- !shape_value. by rewrite <- shape_value.
  - destruct (assign_ok own src Hss) as (t & -> & Hv & Hd). exists t. split; [done|]. split; [by rewrite Hv|].
    split; [done|]. by rewrite shape_value, Hv, <- shape_value.
Qed.

Lemma ring_send_ok phase cycle st f i :
  (1 < w)%nat -> (i < w)%nat -> holds st f ->
  let dest := ((i + 1) mod w)%nat in let k := sent_idx w phase cycle i in
  exists st', ring_send (E:=E) phase cycle st i = Ok st' /\
    holds st' (fun r c => if ((r =? dest) && (c =? k))%nat then merge phase (f r c) (f i c) else f r c).
Proof using Hw.
  intros H1 Hi (Hids & Hlen & Hwid & Hslots) dest k.
  assert (Hd : (dest < w)%nat) by (apply Nat.mod_upper_bound; lia).
  assert (Hk : (k < w)%nat) by (unfold k, sent_idx; destruct phase; apply Nat.mod_upper_bound; lia).
  destruct (Hslots i k Hi Hk) as (a & Ha & Hva & Hda & Hsa).
  destruct (Hslots dest k Hd Hk) as (b & Hb & Hvb & Hdb & Hsb).
  assert (Hne : i <> dest).
  { unfold dest. rewrite mod_once by lia. destruct (Nat.ltb_spec (i + 1) w); lia. }
  pose proof (ring_send_eq (E:=E) phase cycle st i a b) as Heq. cbv zeta in Heq. rewrite Hlen in Heq.
  rewrite (Heq Hne Ha Hb). fold dest k.
  destruct (receive_ok phase b a) as (t & -> & Hvt & Hdt & Hst); [by rewrite Hsb|].
  cbn [mbind outcome_bind]. eexists. split; [done|]. split; [by rewrite set_slot_peers|].
  split; [by rewrite length_set_slot|]. split; [by rewrite set_slot_widths|].
  intros r c Hr Hc. destruct (Nat.eqb_spec r dest) as [->|Hrd]; cbn [andb].
  - destruct (Nat.eqb_spec c k) as [->|Hck].
    + exists t. split; [by eapply slot_set_eq|]. rewrite Hvt, Hdt, Hst, Hva, Hvb. done.
    + rewrite slot_set_ne by congruence. by apply Hslots.
  - rewrite slot_set_ne by congruence. by apply Hslots.
Qed.

(** The slots after the sends of the peers before [n]. *)
Definition partly (phase : bool) (cycle n : nat) f (r c : nat) : Value :=
  if ((predecessor w r <? n) && (c =? received w phase cycle r))%nat
  then merge phase (f r c) (f (predecessor w r) c) else f r c.

Lemma predecessor_next i : (i < w)%nat -> predecessor w ((i + 1) mod w) = i.
Proof using Hw.
  intros Hi. rewrite predecessor_eq by (done || apply Nat.mod_upper_bound; lia). rewrite mod_once by lia.
  destruct (Nat.ltb_spec (i + 1) w);
    match goal with |- context [(?a =? 0)%nat] => destruct (Nat.eqb_spec a 0) end; lia.
Qed.

Lemma predecessor_inj r i : (r < w)%nat -> (i < w)%nat -> predecessor w r = i -> r = ((i + 1) mod w)%nat.
Proof using Hw.
  intros Hr Hi. rewrite predecessor_eq by done. rewrite mod_once by lia.
  destruct (Nat.eqb_spec r 0), (Nat.ltb_spec (i + 1) w); lia.
Qed.

Lemma partly_S phase cycle n f r c :
  (1 < w)%nat -> (n < w)%nat -> (r < w)%nat ->
  partly phase cycle (S n) f r c =
    if ((r =? (n + 1) mod w) && (c =? sent_idx w phase cycle n))%nat
    then merge phase (partly phase cycle n f r c) (partly phase cycle n f n c)
    else partly phase cycle n f r c.
Proof using Hw.
  intros H1 Hn Hr. destruct (Nat.eqb_spec r ((n + 1) mod w)) as [->|Hne]; cbn [andb].
  - unfold partly. rewrite predecessor_next by done.
    rewrite (proj2 (Nat.ltb_lt _ _)), (proj2 (Nat.ltb_ge n n)) by lia. cbn [andb]. unfold received at 1.
    rewrite predecessor_next by done. destruct (Nat.eqb_spec c (sent_idx w phase cycle n)) as [->|]; [|done].
    destruct (Nat.ltb_spec (predecessor w n) n) as [Hlt|]; [|done]. cbn [andb].
    destruct (Nat.eqb_spec (sent_idx w phase cycle n) (received w phase cycle n)) as [Heq|]; [|done].
    unfold received in Heq. rewrite predecessor_eq in Heq, Hlt by done.
    destruct (Nat.eqb_spec n 0); [lia|]. replace n with (S (n - 1)) in Heq at 1 by lia.
    by apply sent_idx_succ_ne in Heq.
  - unfold partly. destruct (Nat.ltb_spec (predecessor w r) (S n)), (Nat.ltb_spec (predecessor w r) n); try done; [|lia].
    exfalso. apply Hne, predecessor_inj; [done..|lia].
Qed.

Lemma sends_ok phase cycle n st f :
  (1 < w)%nat -> (n <= w)%nat -> holds st f ->
  exists st', foldM (ring_send (E:=E) phase cycle) st (seq 0 n) = Ok st' /\ holds st' (partly phase cycle n f).
Proof using Hw.
  intros H1 Hn Hst. induction n as [|n IH].
  - exists st. split; [done|]. eapply holds_ext; [|exact Hst]. intros r c _ _. unfold partly. done.
  - destruct IH as (st1 & Heq & Hst1); [lia|]. rewrite seq_S, foldM_app, Heq. cbn [mbind outcome_bind foldM Nat.add].
    destruct (ring_send_ok phase cycle st1 _ n H1 ltac:(lia) Hst1) as (st' & -> & Hst').
    exists st'. split; [done|]. eapply holds_ext; [|exact Hst'].
    intros r c Hr Hc. symmetry. by apply partly_S.
Qed.

(** A cycle is a step of the ring. *)
Lemma cycle_ok phase cycle st f :
  (1 < w)%nat -> holds st f ->
  exists st', foldM (ring_send (E:=E) phase cycle) st (seq 0 w) = Ok st' /\
    holds st' (ring_step w (merge phase) (received w phase cycle) f).
Proof using Hw.
  intros H1 Hst. destruct (sends_ok phase cycle w st f H1 ltac:(lia) Hst) as (st' & Heq & Hst').
  exists st'. split; [done|]. eapply holds_ext; [|exact Hst']. intros r c Hr Hc. unfold partly, ring_step.
  rewrite (proj2 (Nat.ltb_lt _ _)) by by apply predecessor_lt. done.
Qed.

Lemma cycles_ok phase st f :
  holds st f ->
  exists st', ring_cycles (E:=E) phase st = Ok st' /\
    holds st' (ring_steps w (merge phase) (received w phase) f (w - 1)).
Proof using Hw.
  intros Hst. pose proof Hst as (_ & Hlen & _). unfold ring_cycles. rewrite Hlen.
  rewrite (proj2 (Nat.eqb_neq _ _)) by lia.
  assert (Hgen : forall n, (n <= w - 1)%nat -> exists st',
    foldM (fun st cycle => foldM (ring_send (E:=E) phase cycle) st (seq 0 (length st))) st (seq 0 n) = Ok st' /\
    holds st' (ring_steps w (merge phase) (received w phase) f n)); [|by apply Hgen].
  induction n as [|n IH]; intros Hn; [by exists st|]. destruct IH as (st1 & Heq & Hst1); [lia|].
  rewrite seq_S, foldM_app, Heq. cbn [mbind outcome_bind foldM ring_steps Nat.add].
  pose proof Hst1 as (_ & Hlen1 & _). rewrite Hlen1.
  destruct (cycle_ok phase n st1 _ ltac:(lia) Hst1) as (st' & -> & Hst'). by exists st'.
Qed.

(** What the steps of both phases make of the slices. *)
Lemma both_phases_gather f r c : (r < w)%nat -> (c < w)%nat ->
  ring_steps w (merge false) (received w false) (ring_steps w (merge true) (received w true) f (w - 1)) (w - 1) r c =
    gathered w value_add 0 f c (w - 1).
Proof using Hw.
  intros Hr Hc. unfold merge at 1. rewrite (ring_copied w Hw (w - 1)) by (done || lia || by apply follows_received_copies).
  assert (Hin : ((c + (w - 1)) mod w < w)%nat) by (apply Nat.mod_upper_bound; lia).
  apply (ring_reduced w Hw value_add 0); [lia|by apply follows_received_sums|done|done|].
  rewrite age_eq by (done || lia). rewrite mod_once by lia. cbv zeta.
  repeat match goal with |- context [(?a <? ?b)%nat] => destruct (Nat.ltb_spec a b) end; lia.
Qed.

(** After both phases every peer has the same slices, each gathered once round the ring. *)
Lemma both_phases_ok st f :
  holds st f ->
  exists st1 st2, ring_cycles (E:=E) true st = Ok st1 /\ ring_cycles (E:=E) false st1 = Ok st2 /\
    holds st2 (fun _ c => gathered w value_add 0 f c (w - 1)).
Proof using Hw.
  intros Hst. destruct (cycles_ok true st f Hst) as (st1 & H1 & Hst1).
  destruct (cycles_ok false st1 _ Hst1) as (st2 & H2 & Hst2). exists st1, st2. split; [done|]. split; [done|].
  eapply holds_ext; [|exact Hst2]. intros r c Hr Hc. by apply both_phases_gather.
Qed.
End cycles.

(** ** Slice ranges *)
Section ranges.
Context {E : Type} (d : Z) (n : nat).

Definition slice_size : Z := (d + Z.of_nat n - 1) / Z.of_nat n.
Definition slice_range_at (i : nat) : Z * Z :=
  (Z.of_nat i * slice_size, if (i =? n - 1)%nat then d else Z.of_nat i * slice_size + slice_size).

(** The ranges are in order and in the dimension. *)
Definition slices_fit : Prop := Z.of_nat (n - 1) * slice_size <= d.

Hypothesis (Hn : (0 < n)%nat).
Hypothesis (Hd : 0 <= d).

Lemma slice_size_bounds : 0 <= slice_size /\ d <= Z.of_nat n * slice_size < d + Z.of_nat n.
Proof using Hn Hd.
  unfold slice_size. pose proof (Z.div_mod (d + Z.of_nat n - 1) (Z.of_nat n) ltac:(lia)) as Hdm.
  pose proof (Z.mod_pos_bound (d + Z.of_nat n - 1) (Z.of_nat n) ltac:(lia)).
  assert (0 <= (d + Z.of_nat n - 1) / Z.of_nat n) by (apply Z.div_pos; lia). lia.
Qed.

Lemma get_ranges_ok :
  d + Z.of_nat n <= 2 ^ usize_bits ->
  get_ring_reduce_slice_ranges (E:=E) d n = Ok (map slice_range_at (seq 0 n)).
Proof using Hn Hd.
  intros Hmax. destruct slice_size_bounds as (H0 & H1 & H2).
  unfold get_ring_reduce_slice_ranges, div_ceil. rewrite (proj2 (Z.eqb_neq _ _)) by lia. fold slice_size.
  cbn [mbind outcome_bind].
  rewrite (mapM_pure _ (fun i => (Z.of_nat i * slice_size, Z.of_nat i * slice_size + slice_size))).
  - assert (Hseq : seq 0 n = seq 0 (n - 1) ++ [(n - 1)%nat]).
    { replace n with (S (n - 1)) at 1 by lia. by rewrite seq_S. }
    cbn [mbind outcome_bind]. rewrite length_map, length_seq, Hseq, !map_app, last_app.
    cbn [map last expect mbind outcome_bind fst]. f_equal.
    rewrite insert_app_r_alt by by rewrite length_map, length_seq. rewrite length_map, length_seq, Nat.sub_diag. cbn.
    unfold slice_range_at at 2. rewrite Nat.eqb_refl. f_equal.
    apply map_ext_in. intros i Hi%in_seq. unfold slice_range_at. by rewrite (proj2 (Nat.eqb_neq _ _)) by lia.
  - intros i Hi%elem_of_seq. assert (Hb : Z.of_nat i * slice_size + slice_size <= Z.of_nat n * slice_size) by nia.
    assert (0 <= Z.of_nat i * slice_size) by nia.
    rewrite arith_in by (unfold in_width; lia). cbn [mbind outcome_bind]. rewrite arith_in by (unfold in_width; lia). done.
Qed.

Lemma slice_range_fits i :
  slices_fit -> (i < n)%nat -> 0 <= (slice_range_at i).1 <= (slice_range_at i).2 /\ (slice_range_at i).2 <= d.
Proof using Hn Hd.
  unfold slices_fit. intros Hfit Hi. destruct slice_size_bounds as (H0 & _). unfold slice_range_at. cbn [fst snd].
  destruct (Nat.eqb_spec i (n - 1)) as [->|]; [nia|].
  assert (Z.of_nat i * slice_size + slice_size <= Z.of_nat (n - 1) * slice_size) by nia. nia.
Qed.
End ranges.

(** The dimension that is sliced is a greatest one. *)
Lemma get_slice_dim_ok {E} dims :
  dims <> [] -> exists sd d, get_slice_dim (E:=E) dims = Ok sd /\ dims !! sd = Some d /\ Forall (fun x => x <= d) dims.
Proof.
  intros Hne. unfold get_slice_dim. destruct (enumerate dims) as [|e es] eqn:He.
  { destruct dims; [done|]. done. }
  set (step := fun best e : nat * Z => if best.2 <=? e.2 then e else best).
  assert (Hgen : forall es best, let r := foldl step best es in
    (r = best \/ r ∈ es) /\ best.2 <= r.2 /\ Forall (fun e => e.2 <= r.2) es).
  { clear. induction es as [|x es IH]; intros best; cbn [foldl]; [split; [by left|split; [lia|constructor]]|].
    destruct (IH (step best x)) as (Hin & Hle & Hall). set (r := foldl step (step best x) es) in *.
    assert (Hs : (step best x = best \/ step best x = x) /\ best.2 <= (step best x).2 /\ x.2 <= (step best x).2).
    { unfold step. destruct (Z.leb_spec best.2 x.2); (split; [auto|lia]). }
    destruct Hs as (Hs & H1 & H2). split; [|split; [lia|constructor; [lia|done]]].
    destruct Hin as [->|Hin]; [destruct Hs as [-> | ->]; [by left|right; left]|right; by right]. }
  destruct (Hgen es e) as (Hin & Hle & Hall). set (r := foldl step e es) in *.
  exists r.1, r.2. split; [done|].
  assert (Hr : r ∈ enumerate dims) by (rewrite He; destruct Hin as [->|?]; [by left|by right]).
  split.
  - apply list_elem_of_lookup in Hr as (i & (x & Hx & Heq)%lookup_enumerate). rewrite Heq. cbn [fst snd]. by rewrite Hx.
  - apply Forall_lookup. intros i x Hx.
    assert (Hix : (i, x) ∈ e :: es).
    { rewrite <- He. apply list_elem_of_lookup. exists i. apply lookup_enumerate. by exists x. }
    apply list_elem_of_In in Hix as [->|Hix]; [exact Hle|].
    apply list_elem_of_In in Hix. exact (proj1 (Forall_forall _ _) Hall _ Hix).
Qed.

(** ** The sum that a slice has gathered *)
Lemma gathered_sums {V} (add : V -> V -> V) w d x c a :
  sums add (map (fun i => x ((c + d + i) mod w)%nat c) (rev (seq 0 (S a)))) (gathered w add d x c a).
Proof.
  induction a as [|a IH]; [cbn; rewrite Nat.add_0_r; constructor|].
  rewrite rev_seq_S. cbn [map gathered]. apply (sums_perm _ ([x ((c + d + S a) mod w)%nat c] ++
    map (fun i => x ((c + d + i) mod w)%nat c) (rev (seq 0 (S a))))); [done|].
  apply sums_add; [constructor|exact IH].
Qed.

Lemma gathered_all_sums {V} (add : V -> V -> V) w d x c :
  (c < w)%nat -> (d <= w)%nat -> sums add (map (fun r => x r c) (seq 0 w)) (gathered w add d x c (w - 1)).
Proof.
  intros Hc Hd. eapply sums_perm; [|apply gathered_sums]. replace (S (w - 1)) with w by lia.
  etrans; [|apply Permutation_map, (ring_order_perm w d c); done]. unfold ring_order. by rewrite map_map.
Qed.

(** ** The whole algorithm *)
Section ring_strategy.
Context `{FloatLaws} `{HashLaws} {E : Type} (dims : list Z) (sd : nat) (d : Z).
Hypothesis (Hdims : Forall (fun x => 0 <= x) dims).
Hypothesis (Hsd : dims !! sd = Some d).

Abbreviation on_devices out := (map (fun e : PeerId * Tensor => (e.1, float_device e.2)) out).
Abbreviation the_slice range := (slice_of dims sd range).
Definition slice_dims (range : Z * Z) : list Z := map (fun r => r.2 - r.1) (the_slice range).

Lemma slice_in_shape range : 0 <= range.1 <= range.2 /\ range.2 <= d -> in_shape dims (the_slice range).
Proof using Hdims Hsd.
  intros Hr. unfold in_shape, slice_of, whole. apply Forall2_lookup. intros i.
  destruct (decide (i = sd)) as [->|Hne].
  - rewrite Hsd, list_lookup_insert_eq; [by constructor|]. rewrite length_map. by eapply lookup_lt_Some.
  - rewrite list_lookup_insert_ne, list_lookup_fmap by done. destruct (dims !! i) as [x|] eqn:Hx; constructor.
    cbn. pose proof (proj1 (Forall_forall _ _) Hdims x (list_elem_of_lookup_2 _ _ _ Hx)). cbn in *. lia.
Qed.

Lemma slice_dims_delete range range' : delete sd (slice_dims range) = delete sd (slice_dims range').
Proof using Type.
  unfold slice_dims, slice_of. change @map with (@fmap list _). rewrite !list_fmap_insert, !delete_take_drop.
  by rewrite !take_insert_ge, !drop_insert_lt by lia.
Qed.

Lemma length_slice_dims range : length (slice_dims range) = length dims.
Proof using Type. unfold slice_dims, slice_of, whole. by rewrite length_map, length_insert, length_map. Qed.

(** One tensor in slices. *)
Lemma slice_one t ranges :
  shape t = dims -> Forall (fun range => 0 <= range.1 <= range.2 /\ range.2 <= d) ranges ->
  exists slices, mapM (M:=outcome E) (fun range => expect (float_slice t (the_slice range))) ranges = Ok slices /\
    Forall2 (fun range s => value s = value_slice (value t) (the_slice range) /\
      float_device s = float_device t /\ shape s = slice_dims range) ranges slices.
Proof using Hdims Hsd.
  intros Ht. induction 1 as [|range ranges Hr _ IH]; [by exists []|]. destruct IH as (slices & Heq & HF).
  destruct (slice_ok t (the_slice range)) as (s & Hs & Hv & Hd); [rewrite Ht; by apply slice_in_shape|].
  exists (s :: slices). split.
  - apply mapM_Ok. constructor; [by rewrite Hs|]. by apply mapM_Ok.
  - constructor; [|done]. split; [done|]. split; [done|]. rewrite shape_value, Hv.
    apply slice_shape. rewrite <- shape_value, Ht. by apply slice_in_shape.
Qed.

(** The merge of the slices of one peer. *)
Lemma cat_slices t slices (parts : list Value) :
  (0 < length slices)%nat -> map value slices = parts -> Forall (fun s => float_device s = float_device t) slices ->
  Forall (fun s => exists range, shape s = slice_dims range) slices ->
  exists m, float_cat slices sd = Some m /\ value m = value_cat parts sd /\ float_device m = float_device t.
Proof using Hsd.
  intros Hpos <- Hdev Hshape. destruct slices as [|s ss]; [cbn in Hpos; lia|].
  apply Forall_cons in Hdev as [Hs Hss]. apply Forall_cons in Hshape as [[r Hr] Hrs].
  destruct (cat_ok s ss sd) as (m & Hm & Hv & Hd).
  - eapply Forall_impl; [exact Hss|]. cbn. congruence.
  - rewrite Hr, length_slice_dims. by eapply lookup_lt_Some.
  - eapply Forall_impl; [exact Hrs|]. cbn. intros s' [r' Hr']. rewrite Hr, Hr'. apply slice_dims_delete.
  - exists m. split; [done|]. split; [done|]. congruence.
Qed.

(** The peer of row [r]. *)
Abbreviation row tensors r := (nth r (iter tensors)).

Lemma slice_tensors_ok (tensors : CollectiveTensorMap) e0 :
  let n := size tensors in
  iter tensors !! 0%nat = Some e0 -> all_shaped dims tensors -> d + Z.of_nat n <= 2 ^ usize_bits -> slices_fit d n ->
  exists st, slice_tensors (E:=E) tensors dims sd = Ok st /\
    holds n (keys tensors) (fun r => float_device (row tensors r e0).2) (fun c => slice_dims (slice_range_at d n c)) st
      (fun r c => value_slice (value (row tensors r e0).2) (the_slice (slice_range_at d n c))).
Proof using Hdims Hsd H1.
  intros n He0 Hs Hmax Hfit. set (ranges := map (slice_range_at d n) (seq 0 n)).
  assert (Hd : 0 <= d) by exact (proj1 (Forall_forall _ _) Hdims d (list_elem_of_lookup_2 _ _ _ Hsd)).
  assert (Hn : (0 < n)%nat) by by eapply lookup_lt_Some.
  assert (Hranges : Forall (fun range => 0 <= range.1 <= range.2 /\ range.2 <= d) ranges).
  { unfold ranges. apply Forall_map, Forall_forall. intros i Hi%elem_of_seq. apply slice_range_fits; (done || lia). }
  unfold slice_tensors. rewrite (proj2 (index_Ok _ _ _) Hsd). cbn [mbind outcome_bind].
  rewrite get_ranges_ok by done. fold n ranges. cbn [mbind outcome_bind].
  destruct (mapM_total (E:=E) (fun e : PeerId * Tensor =>
      slices ← mapM (fun range => expect (float_slice e.2 (slice_of dims sd range))) ranges;
      Ok (e.1, slices)) (iter tensors)) as [st Hst].
  { intros [k t] Ht%elem_of_iter. destruct (slice_one t ranges) as (slices & Heq & _); [by apply (Hs k)|done|].
    exists (k, slices). cbn [fst snd]. by rewrite Heq. }
  exists st. split; [exact Hst|]. apply mapM_Ok in Hst.
  assert (Hrow : forall r, (r < n)%nat -> exists k t slices, iter tensors !! r = Some (k, t) /\ st !! r = Some (k, slices) /\
    Forall2 (fun range s => value s = value_slice (value t) (the_slice range) /\
      float_device s = float_device t /\ shape s = slice_dims range) ranges slices).
  { intros r Hr. destruct (lookup_lt_is_Some_2 (iter tensors) r Hr) as [[k t] Ht].
    destruct (Forall2_lookup_l _ _ _ _ _ Hst Ht) as ([k' slices] & Hr' & Heq). cbn [fst snd] in Heq.
    destruct (slice_one t ranges) as (slices' & Heq' & HF); [|done|].
    - apply (Hs k). apply elem_of_iter. by eapply list_elem_of_lookup_2.
    - rewrite Heq' in Heq. injection Heq as <- <-. by exists k, t, slices'. }
  assert (Hlen : length st = n) by by rewrite <- (Forall2_length _ _ _ Hst).
  assert (Hrl : length ranges = n) by by unfold ranges; rewrite length_map, length_seq.
  split; [|split; [done|split]].
  - unfold keys. symmetry. apply list_eq. intros r. rewrite !list_lookup_fmap.
    destruct (decide (r < n)%nat) as [Hr|Hr].
    + destruct (Hrow r Hr) as (k & t & slices & -> & -> & _). done.
    + rewrite !lookup_ge_None_2; [done| |]; [rewrite Hlen; lia|unfold n, size in Hr; lia].
  - apply list_eq. intros r. rewrite list_lookup_fmap. destruct (decide (r < n)%nat) as [Hr|Hr].
    + destruct (Hrow r Hr) as (k & t & slices & _ & -> & HF). apply Forall2_length in HF.
      rewrite lookup_replicate_2 by done. cbn. congruence.
    + rewrite !lookup_ge_None_2; [done| |]; [rewrite length_replicate; lia|rewrite Hlen; lia].
  - intros r c Hr Hc. destruct (Hrow r Hr) as (k & t & slices & Hk & Hsl & HF).
    assert (Hc' : ranges !! c = Some (slice_range_at d n c)).
    { unfold ranges. rewrite list_lookup_fmap, lookup_seq_lt by done. done. }
    destruct (Forall2_lookup_l _ _ _ _ _ HF Hc') as (s & Hs' & HA & HB & HC).
    exists s. unfold slot. rewrite Hsl. split; [exact Hs'|].
    rewrite (nth_lookup_Some _ _ _ _ Hk). done.
Qed.

(** *** The slices merged *)
Definition ring_parts (tensors : CollectiveTensorMap) (e0 : PeerId * Tensor) : list Value :=
  let n := size tensors in
  map (fun c => gathered n value_add 0
    (fun r c => value_slice (value (row tensors r e0).2) (the_slice (slice_range_at d n c))) c (n - 1)) (seq 0 n).

Lemma map_nth_seq {A} (l : list A) e0 : map (fun r => nth r l e0) (seq 0 (length l)) = l.
Proof using Type.
  apply list_eq. intros r. rewrite list_lookup_fmap. destruct (decide (r < length l)%nat) as [Hr|Hr].
  - rewrite lookup_seq_lt by done. destruct (lookup_lt_is_Some_2 l r Hr) as [e He]. rewrite He. cbn. by rewrite (nth_lookup_Some _ _ _ _ He).
  - rewrite !lookup_ge_None_2; [done|lia|rewrite length_seq; lia].
Qed.

Lemma ring_parts_sums tensors e0 :
  Forall2 (fun range part => sums value_add (map (fun t => value_slice (value t) (the_slice range)) (values tensors)) part)
    (map (slice_range_at d (size tensors)) (seq 0 (size tensors))) (ring_parts tensors e0).
Proof using Type.
  unfold ring_parts. cbv zeta. apply Forall2_fmap, Forall_Forall2_diag, Forall_forall. intros c Hc%elem_of_seq. cbn beta.
  assert (Hvals : map (fun t => value_slice (value t) (the_slice (slice_range_at d (size tensors) c))) (values tensors)
    = map (fun r => value_slice (value (row tensors r e0).2) (the_slice (slice_range_at d (size tensors) c))) (seq 0 (size tensors))).
  { unfold values. rewrite <- (map_nth_seq (iter tensors) e0) at 1. by rewrite !map_map. }
  rewrite Hvals. apply (gathered_all_sums value_add (size tensors) 0
    (fun r c => value_slice (value (row tensors r e0).2) (the_slice (slice_range_at d (size tensors) c)))); lia.
Qed.

Lemma merge_ok (tensors : CollectiveTensorMap) e0 st parts :
  let n := size tensors in
  (0 < n)%nat -> length parts = n ->
  holds n (keys tensors) (fun r => float_device (row tensors r e0).2) (fun c => slice_dims (slice_range_at d n c)) st
    (fun _ c => nth c parts (value e0.2)) ->
  exists out, mapM (M:=outcome E) (fun e => tensor ← expect (float_cat e.2 sd); Ok (e.1, tensor)) st = Ok out /\
    on_devices out = on_devices (iter tensors) /\ Forall (fun p => value p.2 = value_cat parts sd) out.
Proof using Hsd.
  intros n Hn Hparts (Hids & Hlen & Hwid & Hslots).
  assert (Hrow : forall r e, st !! r = Some e -> exists m, float_cat e.2 sd = Some m /\ value m = value_cat parts sd /\
      float_device m = float_device (row tensors r e0).2).
  { intros r e He. assert (Hr : (r < n)%nat) by (rewrite <- Hlen; by eapply lookup_lt_Some).
    assert (Hle : length e.2 = n).
    { apply (f_equal (.!! r)) in Hwid. rewrite list_lookup_fmap, He, lookup_replicate_2 in Hwid by done. by injection Hwid. }
    assert (Hc : forall c, (c < n)%nat -> exists t, e.2 !! c = Some t /\ value t = nth c parts (value e0.2) /\
      float_device t = float_device (row tensors r e0).2 /\ shape t = slice_dims (slice_range_at d n c)).
    { intros c Hc. destruct (Hslots r c Hr Hc) as (t & Ht & Hrest). exists t. unfold slot in Ht. by rewrite He in Ht. }
    apply cat_slices; [by rewrite Hle| | |].
    - apply list_eq. intros c. rewrite list_lookup_fmap. destruct (decide (c < n)%nat) as [Hcn|Hcn].
      + destruct (Hc c Hcn) as (t & -> & Hv & _). cbn. rewrite Hv.
        destruct (lookup_lt_is_Some_2 parts c ltac:(lia)) as [part Hpart]. by rewrite Hpart, (nth_lookup_Some _ _ _ _ Hpart).
      + rewrite !lookup_ge_None_2; [done| |]; [rewrite Hparts; lia|rewrite Hle; lia].
    - apply Forall_lookup. intros c t Ht. assert (Hcn : (c < n)%nat) by (rewrite <- Hle; by eapply lookup_lt_Some).
      destruct (Hc c Hcn) as (t' & Ht' & _ & Hd & _). congruence.
    - apply Forall_lookup. intros c t Ht. assert (Hcn : (c < n)%nat) by (rewrite <- Hle; by eapply lookup_lt_Some).
      destruct (Hc c Hcn) as (t' & Ht' & _ & _ & Hsh). exists (slice_range_at d n c). congruence. }
  destruct (mapM_total (E:=E) (fun e : PeerId * list Tensor => tensor ← expect (float_cat e.2 sd); Ok (e.1, tensor)) st)
    as [out Hout].
  { intros e (r & He)%list_elem_of_lookup. destruct (Hrow r e He) as (m & -> & _). by exists (e.1, m). }
  exists out. split; [exact Hout|]. apply mapM_Ok in Hout.
  assert (Hor : forall r p, out !! r = Some p -> exists e, st !! r = Some e /\ p.1 = e.1 /\
      value p.2 = value_cat parts sd /\ float_device p.2 = float_device (row tensors r e0).2).
  { intros r p Hp. destruct (Forall2_lookup_r _ _ _ _ _ Hout Hp) as (e & He & Heq).
    destruct (Hrow r e He) as (m & Hm & Hv & Hd). rewrite Hm in Heq. cbn in Heq. injection Heq as <-. by exists e. }
  assert (Hol : length out = n) by by rewrite <- (Forall2_length _ _ _ Hout).
  split.
  - apply list_eq. intros r. rewrite !list_lookup_fmap. destruct (out !! r) as [p|] eqn:Hp.
    + destruct (Hor r p Hp) as (e & He & Hfst & _ & Hd).
      assert (Hr : (r < length (iter tensors))%nat) by (fold (size tensors); fold n; rewrite <- Hol; by eapply lookup_lt_Some).
      destruct (lookup_lt_is_Some_2 _ _ Hr) as [[k t] Hk]. rewrite Hk. cbn. f_equal. f_equal.
      * apply (f_equal (.!! r)) in Hids. unfold keys in Hids. rewrite !list_lookup_fmap, He, Hk in Hids. cbn in Hids.
        injection Hids as Hids. congruence.
      * rewrite Hd. by rewrite (nth_lookup_Some _ _ _ _ Hk).
    + apply lookup_ge_None_1 in Hp. rewrite lookup_ge_None_2; [done|]. fold (size tensors). fold n. lia.
  - apply Forall_lookup. intros r p Hp. by destruct (Hor r p Hp) as (e & _ & _ & ? & _).
Qed.

Lemma all_reduce_ring_slices fuel h tensors :
  let n := size tensors in
  entries tensors <> ∅ -> all_shaped dims tensors -> get_slice_dim (E:=E) dims = Ok sd ->
  Z.of_nat n <= d -> d + Z.of_nat n <= 2 ^ usize_bits -> slices_fit d n ->
  exists out parts, all_reduce_sum_ring (E:=E) fuel h tensors = Ok out /\
    everywhere (devices_of tensors) (value_cat parts sd) out /\
    Forall2 (fun range part => sums value_add (map (fun t => value_slice (value t) (the_slice range)) (values tensors)) part)
      (map (slice_range_at d n) (seq 0 n)) parts.
Proof using Hdims Hsd H1.
  intros n Hne Hs Hdim Hnd Hmax Hfit. destruct (head_keys tensors Hne) as (k0 & t0 & Hk & Ht0).
  destruct (iter tensors !! 0%nat) as [e0|] eqn:He0; [|unfold keys in Hk; by destruct (iter tensors)].
  assert (Hn : (0 < n)%nat) by by eapply lookup_lt_Some.
  unfold all_reduce_sum_ring. rewrite (get_common_shape_spec tensors dims).
  2: { unfold keys in Hk. by destruct (iter tensors). }
  2: { pose proof (all_shaped_values dims tensors Hs) as Hv. by apply Forall_map in Hv. }
  cbn [expect mbind outcome_bind]. rewrite Hdim. cbn [mbind outcome_bind].
  rewrite (proj2 (index_Ok _ _ _) Hsd). cbn [mbind outcome_bind]. fold n.
  rewrite (proj2 (Z.ltb_ge _ _)) by lia.
  destruct (slice_tensors_ok tensors e0) as (st & -> & Hst); [done..|]. cbn [mbind outcome_bind].
  destruct (both_phases_ok (E:=E) n Hn _ _ _ st _ Hst) as (st1 & st2 & -> & H2 & Hst2). cbn [mbind outcome_bind].
  rewrite H2. cbn [mbind outcome_bind].
  destruct (merge_ok tensors e0 st2 (ring_parts tensors e0)) as (out & Hout & Hon & Hval); [done| | |].
  - unfold ring_parts. by rewrite length_map, length_seq.
  - eapply holds_ext; [|exact Hst2]. intros r c Hr Hc. cbn beta. unfold ring_parts. fold n.
    symmetry. apply nth_lookup_Some. by rewrite list_lookup_fmap, lookup_seq_lt by done.
  - rewrite Hout. cbn [mbind outcome_bind]. exists (collect_map h out), (ring_parts tensors e0). split; [done|]. split.
    + apply everywhere_collect; [|done]. by rewrite Hon, iter_devices_of.
    + apply ring_parts_sums.
Qed.
End ring_strategy.
