(* ===== verification/CollectiveConfig.v ===== *)
(** * Configuration of the tensor collectives: src/src/config.rs

    The configuration a peer registers with, the strategies and operations, and
    the errors of src/src/api.rs and src/src/global/shared.rs.  Addresses are of
    the communication crate. *)
From S2P Require Import Prelude FloatBackend.

Inductive ReduceOperation := Sum | Mean.
#[export] Instance ReduceOperation_eq_dec : EqDecision ReduceOperation.
Proof. solve_decision. Defined.

Inductive AllReduceStrategy := AllReduceCentralized | AllReduceTree (arity : nat) | AllReduceRing.
Inductive ReduceStrategy := ReduceCentralized | ReduceTree (arity : nat).
Inductive BroadcastStrategy := BroadcastCentralized | BroadcastTree (arity : nat).
#[export] Instance AllReduceStrategy_eq_dec : EqDecision AllReduceStrategy.
Proof. solve_decision. Defined.
#[export] Instance ReduceStrategy_eq_dec : EqDecision ReduceStrategy.
Proof. solve_decision. Defined.
#[export] Instance BroadcastStrategy_eq_dec : EqDecision BroadcastStrategy.
Proof. solve_decision. Defined.

(** [PeerId::from] of a signed and of a machine word. *)
Definition PeerId_from_i32 (value : Z) : PeerId := Z.to_nat (wrap 32 value).
Definition PeerId_from_usize (value : Z) : PeerId := Z.to_nat (wrap 32 value).

(** Errors of the global level; node identifiers are numbers. *)
Inductive GlobalCollectiveError :=
  | OperationTimeout
  | CommunicatorAborted
  | AllReduceBeforeRegister
  | CollectiveBeforeRegister
  | CollectiveParamsMismatch
  | UnknownRoot (peer : PeerId)
  | GlobalBroadcastNoTensor
  | GlobalBroadcastMultipleTensors
  | InvalidTreeArity
  | DuplicatePeer (peer : PeerId)
  | RingReduceImpossible
  | NotRegisteredOnFinish
  | PendingRegisterOnFinish
  | GlobalRegisterParamsMismatch
  | DoubleRegister
  | AllReduceParamsMismatch
  | FirstMsgNotInit
  | InvalidMessage
  | PeerSentIncoherentTensor
  | PeerLost (node : nat)
  | Server (message : string)
  | WrongOrchestratorResponse
  | OrchestratorUnreachable.

Inductive CollectiveError :=
  | InvalidConfig
  | MultipleUnregister
  | MultipleRegister
  | RegisterParamsMismatch
  | AllReduceShapeMismatch
  | AllReduceOperationMismatch
  | ReduceShapeMismatch
  | ReduceOperationMismatch
  | ReduceRootMismatch
  | BroadcastRootMismatch
  | BroadcastNoTensor
  | BroadcastMultipleTensors
  | LocalServerMissing
  | RegisterNotFirstOperation
  | Global (e : GlobalCollectiveError)
  | Other (message : string).

Class Network := {
  Address : Type;
  Address_eq_dec :: EqDecision Address;
}.

Record CollectiveConfig `{Network} := mkConfig {
  num_devices : nat;
  local_all_reduce_strategy : AllReduceStrategy;
  local_reduce_strategy : ReduceStrategy;
  local_broadcast_strategy : BroadcastStrategy;
  num_nodes : option Z;
  global_address : option Address;
  node_address : option Address;
  data_service_port : option Z;
  global_all_reduce_strategy : option AllReduceStrategy;
  global_reduce_strategy : option ReduceStrategy;
  global_broadcast_strategy : option BroadcastStrategy;
}.

Record GlobalRegisterParams `{Network} := mkGlobalParams {
  params_num_nodes : Z;
  params_global_address : Address;
  params_node_address : Address;
  params_data_service_port : Z;
}.

Arguments mkConfig {_} _ _ _ _ _ _ _ _ _ _ _.
Arguments mkGlobalParams {_} _ _ _ _.

Section config.
Context `{Network}.
Implicit Types c : CollectiveConfig.

#[export] Instance CollectiveConfig_eq_dec : EqDecision CollectiveConfig.
Proof. solve_decision. Defined.

Definition CollectiveConfig_new : CollectiveConfig :=
  mkConfig 1 (AllReduceTree 2) (ReduceTree 2) (BroadcastTree 2) None None None None
    (Some AllReduceRing) (Some (ReduceTree 2)) (Some (BroadcastTree 2)).

(** Every [with_*] changes its own field. *)
Definition with_num_devices c (num : nat) : CollectiveConfig :=
  let '(mkConfig _ a r b n g na p ga gr gb) := c in mkConfig num a r b n g na p ga gr gb.
Definition with_local_all_reduce_strategy c strategy : CollectiveConfig :=
  let '(mkConfig d _ r b n g na p ga gr gb) := c in mkConfig d strategy r b n g na p ga gr gb.
Definition with_local_reduce_strategy c strategy : CollectiveConfig :=
  let '(mkConfig d a _ b n g na p ga gr gb) := c in mkConfig d a strategy b n g na p ga gr gb.
Definition with_local_broadcast_strategy c strategy : CollectiveConfig :=
  let '(mkConfig d a r _ n g na p ga gr gb) := c in mkConfig d a r strategy n g na p ga gr gb.
Definition with_num_nodes c (nodes : Z) : CollectiveConfig :=
  let '(mkConfig d a r b _ g na p ga gr gb) := c in mkConfig d a r b (Some nodes) g na p ga gr gb.
Definition with_global_address c addr : CollectiveConfig :=
  let '(mkConfig d a r b n _ na p ga gr gb) := c in mkConfig d a r b n (Some addr) na p ga gr gb.
Definition with_node_address c addr : CollectiveConfig :=
  let '(mkConfig d a r b n g _ p ga gr gb) := c in mkConfig d a r b n g (Some addr) p ga gr gb.
Definition with_data_service_port c (port : Z) : CollectiveConfig :=
  let '(mkConfig d a r b n g na _ ga gr gb) := c in mkConfig d a r b n g na (Some port) ga gr gb.
Definition with_global_all_reduce_strategy c strategy : CollectiveConfig :=
  let '(mkConfig d a r b n g na p _ gr gb) := c in mkConfig d a r b n g na p (Some strategy) gr gb.
Definition with_global_reduce_strategy c strategy : CollectiveConfig :=
  let '(mkConfig d a r b n g na p ga _ gb) := c in mkConfig d a r b n g na p ga (Some strategy) gb.
Definition with_global_broadcast_strategy c strategy : CollectiveConfig :=
  let '(mkConfig d a r b n g na p ga gr _) := c in mkConfig d a r b n g na p ga gr (Some strategy).

Definition is_valid c : bool :=
  match num_nodes c, global_address c, node_address c, data_service_port c with
  | None, None, None, None => true
  | Some _, Some _, Some _, Some _ => true
  | _, _, _, _ => false
  end.

Definition global_register_params c : option GlobalRegisterParams :=
  match num_nodes c, global_address c, node_address c, data_service_port c with
  | Some nodes, Some global, Some node, Some port => Some (mkGlobalParams nodes global node port)
  | _, _, _, _ => None
  end.

(** A valid configuration is of one node, or has all parameters of the global level. *)
Lemma is_valid_global c : is_valid c = true -> global_register_params c = None ->
  num_nodes c = None /\ global_address c = None /\ node_address c = None /\ data_service_port c = None.
Proof.
  unfold is_valid, global_register_params.
  destruct (num_nodes c), (global_address c), (node_address c), (data_service_port c); done.
Qed.

(** Of the parameters of the global level only all together make a valid configuration. *)
Lemma is_valid_complete nodes global node port :
  is_valid (with_data_service_port (with_node_address (with_global_address
    (with_num_nodes CollectiveConfig_new nodes) global) node) port) = true.
Proof. done. Qed.
End config.
