(* ===== verification/LocalOps.v ===== *)
(** * Operations in progress at the local server

    The operations of src/src/local/{all_reduce,reduce,broadcast}/op.rs and the
    dispatch to strategies of src/src/local/all_reduce/base.rs.  An operation
    collects the calls of the peers; when it is executed, or fails, it answers
    them over their callbacks.  A callback is a number; whether somebody still
    receives from it is up to the caller ([receiving]), and a send to nobody
    panics, because the code unwraps it.  What was sent before a panic is not
    part of its outcome.

    What the node of the global level (src/src/global/node) does is behind the
    interface [GlobalNode]. *)
From stdpp Require Import sorting.
From S2P Require Import Prelude FloatBackend LocalReduce CollectiveConfig.

Class GlobalNode `{FloatBackend, Network} := {
  Node : Type;
  node_new : Address -> Z -> Node;
  node_register : Node -> list PeerId -> GlobalRegisterParams -> Node * outcome GlobalCollectiveError unit;
  node_all_reduce : Node -> Tensor -> AllReduceStrategy -> ReduceOperation -> Node * outcome GlobalCollectiveError Tensor;
  node_reduce : Node -> Tensor -> ReduceStrategy -> PeerId -> ReduceOperation ->
    Node * outcome GlobalCollectiveError (option Tensor);
  node_broadcast : Node -> option Tensor -> BroadcastStrategy -> TDevice -> Node * outcome GlobalCollectiveError Tensor;
  node_finish : Node -> outcome Empty_set unit;
}.

(** A result as it is sent over a callback. *)
Abbreviation result A := (A + CollectiveError)%type.

Inductive Reply `{FloatBackend} :=
  | RegisterReply (r : result unit)
  | AllReduceReply (r : result Tensor)
  | ReduceReply (r : result (option Tensor))
  | BroadcastReply (r : result Tensor)
  | FinishReply (r : result unit).

Class Callbacks := receiving : nat -> bool.

Section ops.
Context `{FloatBackend, HashOrder, Network} `{!GlobalNode} `{Callbacks}.

Abbreviation sends := (list (nat * Reply)).

(** [callback.send(reply).unwrap()] *)
Definition send (callback : nat) (reply : Reply) : outcome Empty_set (nat * Reply) :=
  if receiving callback then Ok (callback, reply) else Panic.
Definition send_all (l : list (nat * Reply)) : outcome Empty_set sends := mapM (fun cr => send cr.1 cr.2) l.

(** Work before a call of the node. *)
Definition before {A B} (m : outcome CollectiveError A) (node : Node)
    (f : A -> Node * outcome CollectiveError B) : Node * outcome CollectiveError B :=
  match m with
  | Ok a => f a
  | Err e => (node, Err e)
  | Panic => (node, Panic)
  end.

(** The tree recursions end at this depth if they end. *)
Definition depth {A} (m : HashMap A) : nat := S (size m).

(** ** All-reduce *)
Definition all_reduce_local_only (h : nat) (tensors : CollectiveTensorMap) (op : ReduceOperation)
    (config : CollectiveConfig) : outcome CollectiveError CollectiveTensorMap :=
  reduced_tensors ← match local_all_reduce_strategy config with
    | AllReduceCentralized => all_reduce_sum_centralized h h tensors
    | AllReduceTree arity => all_reduce_sum_tree (depth tensors) h tensors arity
    | AllReduceRing => all_reduce_sum_ring (depth tensors) h tensors
    end;
  if decide (op = Mean)
  then let div := Z.of_nat (size reduced_tensors) in
       Ok (collect_map h (map (fun e => (e.1, float_div_scalar e.2 div)) (iter reduced_tensors)))
  else Ok reduced_tensors.

Definition all_reduce_with_global (h : nat) (tensors : CollectiveTensorMap) (op : ReduceOperation)
    (config : CollectiveConfig) (global_client : Node) : Node * outcome CollectiveError CollectiveTensorMap :=
  let peer_devices := get_peer_devices h tensors in
  before (
    main_device ← expect (head (keys tensors));
    main_tensor ← match local_all_reduce_strategy config with
      | AllReduceCentralized => reduce_sum_centralized tensors main_device
      | AllReduceTree arity => reduce_sum_tree (depth tensors) tensors main_device arity
      | AllReduceRing =>
          reduced ← all_reduce_sum_ring (depth tensors) h tensors;
          expect (entries reduced !! main_device)
      end;
    global_strategy ← expect (global_all_reduce_strategy config);
    Ok (main_device, main_tensor, global_strategy)) global_client
  (fun '(main_device, main_tensor, global_strategy) =>
    let '(global_client, r) := node_all_reduce global_client main_tensor global_strategy op in
    (global_client,
      main_tensor ← map_err Global r;
      match local_all_reduce_strategy config with
      | AllReduceTree arity => broadcast_tree (S (size peer_devices)) h peer_devices main_device main_tensor arity
      | AllReduceCentralized | AllReduceRing => broadcast_centralized h peer_devices main_device main_tensor
      end)).

Record AllReduceOpCall := mkAllReduceCall {
  ar_caller : PeerId;
  ar_input : Tensor;
  ar_result_sender : nat;
}.

Record AllReduceOp := mkAllReduceOp {
  ar_calls : list AllReduceOpCall;
  ar_op : ReduceOperation;
  ar_shape : list Z;
}.

Definition AllReduceOp_new (shape : list Z) (reduce_op : ReduceOperation) : AllReduceOp :=
  mkAllReduceOp [] reduce_op shape.

(** The registered call, and whether it was the last one. *)
Definition all_reduce_register_call (o : AllReduceOp) (caller : PeerId) (input : Tensor) (result_sender : nat)
    (op : ReduceOperation) (peer_count : nat) : outcome CollectiveError (AllReduceOp * bool) :=
  if negb (bool_decide (ar_shape o = shape input)) then Err AllReduceShapeMismatch
  else if negb (bool_decide (ar_op o = op)) then Err AllReduceOperationMismatch
  else
    let calls := ar_calls o ++ [mkAllReduceCall caller input result_sender] in
    Ok (mkAllReduceOp calls (ar_op o) (ar_shape o), (length calls =? peer_count)%nat).

Definition all_reduce_fail (o : AllReduceOp) (err : CollectiveError) : outcome Empty_set sends :=
  send_all (map (fun call => (ar_result_sender call, AllReduceReply (inr err))) (ar_calls o)).

Definition all_reduce_tensors (h : nat) (o : AllReduceOp) : CollectiveTensorMap :=
  collect_map h (map (fun call => (ar_caller call, ar_input call)) (ar_calls o)).

Definition op_all_reduce (h : nat) (o : AllReduceOp) (config : CollectiveConfig) (global_client : option Node) :
    option Node * outcome CollectiveError CollectiveTensorMap :=
  let tensors := all_reduce_tensors h o in
  match global_client with
  | Some node => let '(node, r) := all_reduce_with_global h tensors (ar_op o) config node in (Some node, r)
  | None => (None, all_reduce_local_only h tensors (ar_op o) config)
  end.

(** The caller takes its tensor out of the results. *)
Definition hand_back (reply : Tensor -> Reply) (st : CollectiveTensorMap * sends) (caller : PeerId * nat) :
    outcome Empty_set (CollectiveTensorMap * sends) :=
  result ← expect (entries st.1 !! caller.1);
  s ← send caller.2 (reply result);
  Ok (map_remove st.1 caller.1, st.2 ++ [s]).

Definition hand_back_all (reply : Tensor -> Reply) (tensors : CollectiveTensorMap) (callers : list (PeerId * nat)) :
    outcome Empty_set sends :=
  '(tensors, out) ← foldM (hand_back reply) (tensors, []) callers;
  if (size tensors =? 0)%nat then Ok out else Panic.

Definition all_reduce_execute (h : nat) (o : AllReduceOp) (config : CollectiveConfig) (global_client : option Node) :
    outcome Empty_set (option Node * sends) :=
  let '(global_client, r) := op_all_reduce h o config global_client in
  out ← match r with
    | Ok tensors => hand_back_all (fun t => AllReduceReply (inl t)) tensors
        (map (fun call => (ar_caller call, ar_result_sender call)) (ar_calls o))
    | Err err => all_reduce_fail o err
    | Panic => Panic
    end;
  Ok (global_client, out).

(** ** Reduce *)
Record ReduceOpCall := mkReduceCall {
  re_caller : PeerId;
  re_input : Tensor;
  re_result_sender : nat;
}.

Record ReduceOp := mkReduceOp {
  re_calls : list ReduceOpCall;
  re_op : ReduceOperation;
  re_root : PeerId;
  re_shape : list Z;
}.

Definition ReduceOp_new (shape : list Z) (reduce_op : ReduceOperation) (root : PeerId) : ReduceOp :=
  mkReduceOp [] reduce_op root shape.

Definition reduce_register_call (o : ReduceOp) (caller : PeerId) (input : Tensor) (result_sender : nat)
    (op : ReduceOperation) (root : PeerId) (peer_count : nat) : outcome CollectiveError (ReduceOp * bool) :=
  if negb (bool_decide (re_shape o = shape input)) then Err ReduceShapeMismatch
  else if negb (bool_decide (re_op o = op)) then Err ReduceOperationMismatch
  else if negb (re_root o =? root)%nat then Err ReduceRootMismatch
  else
    let calls := re_calls o ++ [mkReduceCall caller input result_sender] in
    Ok (mkReduceOp calls (re_op o) (re_root o) (re_shape o), (length calls =? peer_count)%nat).

Definition reduce_fail (o : ReduceOp) (err : CollectiveError) : outcome Empty_set sends :=
  send_all (map (fun call => (re_result_sender call, ReduceReply (inr err))) (re_calls o)).

Definition reduce_tensors (h : nat) (o : ReduceOp) : CollectiveTensorMap :=
  collect_map h (map (fun call => (re_caller call, re_input call)) (re_calls o)).

Definition local_root (o : ReduceOp) (global_client : option Node) : outcome CollectiveError PeerId :=
  if existsb (fun call => re_caller call =? re_root o)%nat (re_calls o) then Ok (re_root o)
  else if global_client is Some _ then call ← index (re_calls o) 0; Ok (re_caller call)
  else Err ReduceRootMismatch.

Definition local_reduce (tensors : CollectiveTensorMap) (root : PeerId) (strategy : ReduceStrategy) :
    outcome CollectiveError Tensor :=
  match strategy with
  | ReduceCentralized => reduce_sum_centralized tensors root
  | ReduceTree arity => reduce_sum_tree (depth tensors) tensors root arity
  end.

Definition op_reduce (h : nat) (o : ReduceOp) (config : CollectiveConfig) (global_client : option Node) :
    option Node * outcome CollectiveError (option Tensor) :=
  let local_sum :=
    root ← local_root o global_client;
    local_reduce (reduce_tensors h o) root (local_reduce_strategy config) in
  match global_client with
  | Some node =>
      let '(node, r) := before (local_sum ← local_sum; strategy ← expect (global_reduce_strategy config); Ok (local_sum, strategy))
        node (fun '(local_sum, strategy) =>
          let '(node, r) := node_reduce node local_sum strategy (re_root o) (re_op o) in (node, map_err Global r)) in
      (Some node, r)
  | None =>
      (None, local_sum ← local_sum;
             Ok (Some (if decide (re_op o = Mean) then float_div_scalar local_sum (Z.of_nat (length (re_calls o)))
                       else local_sum)))
  end.

(** The root takes the result, the others receive none. *)
Definition hand_root (root : PeerId) (st : option Tensor * sends) (caller : PeerId * nat) :
    outcome Empty_set (option Tensor * sends) :=
  let '(msg, rest) := if (caller.1 =? root)%nat then (st.1, None) else (None, st.1) in
  s ← send caller.2 (ReduceReply (inl msg));
  Ok (rest, st.2 ++ [s]).

Definition reduce_execute (h : nat) (o : ReduceOp) (root : PeerId) (config : CollectiveConfig)
    (global_client : option Node) : outcome Empty_set (option Node * sends) :=
  let '(global_client, r) := op_reduce h o config global_client in
  out ← match r with
    | Ok result =>
        '(_, out) ← foldM (hand_root root) (result, [])
          (map (fun call => (re_caller call, re_result_sender call)) (re_calls o));
        Ok out
    | Err err => reduce_fail o err
    | Panic => Panic
    end;
  Ok (global_client, out).

(** ** Broadcast *)
Record BroadcastOpCall := mkBroadcastCall {
  br_caller : PeerId;
  br_device : TDevice;
  br_result_sender : nat;
}.

Record BroadcastOp := mkBroadcastOp {
  br_calls : list BroadcastOpCall;
  br_tensor : option Tensor;
  br_root : option PeerId;
}.

Definition BroadcastOp_new : BroadcastOp := mkBroadcastOp [] None None.

Definition effective_root (o : BroadcastOp) : outcome CollectiveError PeerId :=
  first ← expect (head (br_calls o));
  Ok (default (br_caller first) (br_root o)).

Definition peer_devices (h : nat) (o : BroadcastOp) : PeerDeviceMap :=
  collect_map h (map (fun call => (br_caller call, br_device call)) (br_calls o)).

Definition broadcast_register_call (o : BroadcastOp) (caller : PeerId) (input : option Tensor) (result_sender : nat)
    (device : TDevice) (peer_count : nat) : outcome CollectiveError (BroadcastOp * bool) :=
  if bool_decide (is_Some input) && bool_decide (is_Some (br_tensor o)) then Err BroadcastMultipleTensors
  else
    let '(tensor, root) := if input is Some _ then (input, Some caller) else (br_tensor o, br_root o) in
    let calls := br_calls o ++ [mkBroadcastCall caller device result_sender] in
    Ok (mkBroadcastOp calls tensor root, (length calls =? peer_count)%nat).

Definition broadcast_fail (o : BroadcastOp) (err : CollectiveError) : outcome Empty_set sends :=
  send_all (map (fun call => (br_result_sender call, BroadcastReply (inr err))) (br_calls o)).

(** The tensor of the node, where there is one, replaces the local one. *)
Definition op_broadcast_global (o : BroadcastOp) (config : CollectiveConfig) (global_client : option Node) :
    option Node * outcome CollectiveError (option Tensor) :=
  match global_client with
  | Some node =>
      let '(node, r) := before (
          strategy ← expect (global_broadcast_strategy config);
          call ← index (br_calls o) 0;
          Ok (strategy, br_device call)) node
        (fun '(strategy, device) =>
          let '(node, r) := node_broadcast node (br_tensor o) strategy device in
          (node, tensor ← map_err Global r; Ok (Some tensor))) in
      (Some node, r)
  | None => (None, Ok (br_tensor o))
  end.

Definition op_broadcast (h : nat) (o : BroadcastOp) (config : CollectiveConfig) (global_client : option Node) :
    option Node * outcome CollectiveError CollectiveTensorMap :=
  let '(global_client, r) := op_broadcast_global o config global_client in
  (global_client,
    tensor ← r;
    tensor ← ok_or tensor BroadcastNoTensor;
    root ← effective_root o;
    let peer_devices := peer_devices h o in
    match local_broadcast_strategy config with
    | BroadcastTree arity => broadcast_tree (S (size peer_devices)) h peer_devices root tensor arity
    | BroadcastCentralized => broadcast_centralized h peer_devices root tensor
    end).

Definition broadcast_execute (h : nat) (o : BroadcastOp) (config : CollectiveConfig) (global_client : option Node) :
    outcome Empty_set (option Node * sends) :=
  let '(global_client, r) := op_broadcast h o config global_client in
  out ← match r with
    | Ok tensors => hand_back_all (fun t => BroadcastReply (inl t)) tensors
        (map (fun call => (br_caller call, br_result_sender call)) (br_calls o))
    | Err err => broadcast_fail o err
    | Panic => Panic
    end;
  Ok (global_client, out).
End ops.
