(* ===== verification/LocalServer.v ===== *)
(** * The local collective server: src/src/local/server.rs

    One task serves the peers of a process: it receives their messages one at a
    time and answers over the callback that each message carries.  A step of
    [process_message] returns the state and what was sent; a panic ends the
    task, so [serve] has no state after it.  Also the client's side of an
    answer, src/src/local/client.rs. *)
From S2P Require Import Prelude FloatBackend LocalReduce CollectiveConfig LocalOps.

Section server.
Context `{FloatBackend, HashOrder, Network} `{!GlobalNode} `{Callbacks}.

Abbreviation sends := (list (nat * Reply)).

Record LocalCollectiveServer := mkServer {
  config : option CollectiveConfig;
  peers : list PeerId;
  callbacks_register : list nat;
  devices : gmap PeerId TDevice;
  all_reduce_op : option AllReduceOp;
  reduce_op : option ReduceOp;
  broadcast_op : option BroadcastOp;
  global_client : option Node;
}.

Inductive Message :=
  | Register (device_id : PeerId) (device : TDevice) (config : CollectiveConfig) (callback : nat)
  | AllReduce (device_id : PeerId) (tensor : Tensor) (op : ReduceOperation) (callback : nat)
  | Reduce (device_id : PeerId) (tensor : Tensor) (op : ReduceOperation) (root : PeerId) (callback : nat)
  | Broadcast (device_id : PeerId) (tensor : option Tensor) (callback : nat)
  | Reset
  | Finish (id : PeerId) (callback : nat).

Definition server_new : LocalCollectiveServer := mkServer None [] [] ∅ None None None None.

Implicit Types s : LocalCollectiveServer.

Definition set_all_reduce s op := mkServer (config s) (peers s) (callbacks_register s) (devices s) op (reduce_op s) (broadcast_op s) (global_client s).
Definition set_reduce s op := mkServer (config s) (peers s) (callbacks_register s) (devices s) (all_reduce_op s) op (broadcast_op s) (global_client s).
Definition set_broadcast s op := mkServer (config s) (peers s) (callbacks_register s) (devices s) (all_reduce_op s) (reduce_op s) op (global_client s).
Definition set_client s client := mkServer (config s) (peers s) (callbacks_register s) (devices s) (all_reduce_op s) (reduce_op s) (broadcast_op s) client.
Definition set_peers s peers := mkServer (config s) peers (callbacks_register s) (devices s) (all_reduce_op s) (reduce_op s) (broadcast_op s) (global_client s).

Definition registered s (id : PeerId) : bool := bool_decide (id ∈ peers s).

(** A step's early return. *)
Definition answer s (callback : nat) (reply : Reply) : outcome Empty_set (LocalCollectiveServer * sends) :=
  out ← send callback reply; Ok (s, [out]).

(** *** Registration *)
Definition add_peer s (device_id : PeerId) (device : TDevice) (cfg : CollectiveConfig) (callback : nat) : LocalCollectiveServer :=
  mkServer (Some cfg) (peers s ++ [device_id]) (callbacks_register s ++ [callback]) (<[device_id := device]> (devices s))
    (all_reduce_op s) (reduce_op s) (broadcast_op s) (global_client s).

(** The first registration with parameters of the global level opens the node. *)
Definition open_node s (global_params : option GlobalRegisterParams) : LocalCollectiveServer :=
  match global_params, global_client s with
  | Some p, None => set_client s (Some (node_new (params_global_address p) (params_data_service_port p)))
  | _, _ => s
  end.

(** All are registered: what the global level says goes to every callback. *)
Definition complete_registration s (global_params : option GlobalRegisterParams) :
    outcome Empty_set (LocalCollectiveServer * sends) :=
  '(s, register_result) ← match global_params with
    | Some p =>
        client ← expect (global_client s);
        let '(client, r) := node_register client (peers s) p in
        register_result ← match r with
          | Ok _ => Ok (inl tt)
          | Err e => Ok (inr (Global e))
          | Panic => Panic
          end;
        Ok (set_client s (Some client), register_result)
    | None => Ok (s, inl tt)
    end;
  out ← send_all (map (fun tx => (tx, RegisterReply register_result)) (callbacks_register s));
  Ok (mkServer (config s) (peers s) [] (devices s) (all_reduce_op s) (reduce_op s) (broadcast_op s) (global_client s), out).

Definition process_register_message s (device_id : PeerId) (device : TDevice) (cfg : CollectiveConfig) (callback : nat) :
    outcome Empty_set (LocalCollectiveServer * sends) :=
  if negb (is_valid cfg) then answer s callback (RegisterReply (inr InvalidConfig))
  else if registered s device_id then answer s callback (RegisterReply (inr MultipleRegister))
  else
    let agreed := match peers s, config s with
      | [], _ | _, None => Some cfg
      | _, Some current => if decide (current = cfg) then Some current else None
      end in
    match agreed with
    | None => answer s callback (RegisterReply (inr RegisterParamsMismatch))
    | Some cfg =>
        let global_params := global_register_params cfg in
        let s := open_node (add_peer s device_id device cfg callback) global_params in
        if (length (peers s) =? num_devices cfg)%nat then complete_registration s global_params
        else Ok (s, [])
    end.

(** *** The operations *)
Definition process_all_reduce_message (h : nat) s (peer_id : PeerId) (tensor : Tensor) (op : ReduceOperation)
    (callback : nat) : outcome Empty_set (LocalCollectiveServer * sends) :=
  if negb (registered s peer_id) then answer s callback (AllReduceReply (inr RegisterNotFirstOperation))
  else
    let current := default (AllReduceOp_new (shape tensor) op) (all_reduce_op s) in
    let s := set_all_reduce s None in
    match all_reduce_register_call current peer_id tensor callback op (length (peers s)) with
    | Ok (current, true) =>
        config ← expect (config s);
        '(client, out) ← all_reduce_execute h current config (global_client s);
        Ok (set_client s client, out)
    | Ok (current, false) => Ok (set_all_reduce s (Some current), [])
    | Err err => out ← all_reduce_fail current err; Ok (s, out)
    | Panic => Panic
    end.

Definition process_reduce_message (h : nat) s (peer_id : PeerId) (tensor : Tensor) (op : ReduceOperation)
    (root : PeerId) (callback : nat) : outcome Empty_set (LocalCollectiveServer * sends) :=
  if negb (registered s root) then answer s callback (ReduceReply (inr RegisterNotFirstOperation))
  else
    let current := default (ReduceOp_new (shape tensor) op root) (reduce_op s) in
    let s := set_reduce s None in
    match reduce_register_call current peer_id tensor callback op root (length (peers s)) with
    | Ok (current, true) =>
        config ← expect (config s);
        '(client, out) ← reduce_execute h current root config (global_client s);
        Ok (set_client s client, out)
    | Ok (current, false) => Ok (set_reduce s (Some current), [])
    | Err err => out ← reduce_fail current err; Ok (s, out)
    | Panic => Panic
    end.

Definition process_broadcast_message (h : nat) s (caller : PeerId) (tensor : option Tensor) (callback : nat) :
    outcome Empty_set (LocalCollectiveServer * sends) :=
  match config s with
  | None => answer s callback (BroadcastReply (inr RegisterNotFirstOperation))
  | Some config =>
      if negb (registered s caller) then answer s callback (BroadcastReply (inr RegisterNotFirstOperation))
      else
        let current := default BroadcastOp_new (broadcast_op s) in
        device ← expect (devices s !! caller);
        let s := set_broadcast s None in
        match broadcast_register_call current caller tensor callback device (length (peers s)) with
        | Ok (current, true) =>
            '(client, out) ← broadcast_execute h current config (global_client s);
            Ok (set_client s client, out)
        | Ok (current, false) => Ok (set_broadcast s (Some current), [])
        | Err err => out ← broadcast_fail current err; Ok (s, out)
        | Panic => Panic
        end
  end.

(** *** Reset and the end of a session *)
Definition reset s : LocalCollectiveServer :=
  mkServer (config s) [] (callbacks_register s) (devices s) None None None (global_client s).

Definition process_finish_message s (id : PeerId) (callback : nat) : outcome Empty_set (LocalCollectiveServer * sends) :=
  match config s with
  | None => answer s callback (FinishReply (inr RegisterNotFirstOperation))
  | Some _ =>
      if negb (registered s id) then answer s callback (FinishReply (inr MultipleUnregister))
      else
        let s := set_peers s (filter (fun x => x <> id) (peers s)) in
        s ← match peers s, global_client s with
          | [], Some client => _ ← node_finish client; Ok (set_client s None)
          | _, _ => Ok s
          end;
        answer s callback (FinishReply (inl tt))
  end.

(** *** The server's loop *)
Definition process_message (h : nat) s (message : Message) : outcome Empty_set (LocalCollectiveServer * sends) :=
  match message with
  | Register device_id device config callback => process_register_message s device_id device config callback
  | AllReduce device_id tensor op callback => process_all_reduce_message h s device_id tensor op callback
  | Reduce device_id tensor op root callback => process_reduce_message h s device_id tensor op root callback
  | Broadcast device_id tensor callback => process_broadcast_message h s device_id tensor callback
  | Reset => Ok (reset s, [])
  | Finish id callback => process_finish_message s id callback
  end.

(** Every map that a message makes has hashers of its own, here [h]. *)
Definition serve_one (st : nat * LocalCollectiveServer * sends) (message : Message) :
    outcome Empty_set (nat * LocalCollectiveServer * sends) :=
  let '(h, s, out) := st in
  '(s, more) ← process_message h s message;
  Ok (S h, s, out ++ more).
Definition serve (st : nat * LocalCollectiveServer * sends) (messages : list Message) :
    outcome Empty_set (nat * LocalCollectiveServer * sends) :=
  foldM serve_one st messages.

(** *** The client's side *)

(** The callbacks that the server still holds. *)
Definition held s : list nat :=
  callbacks_register s ++
  from_option (fun o => map ar_result_sender (ar_calls o)) [] (all_reduce_op s) ++
  from_option (fun o => map re_result_sender (re_calls o)) [] (reduce_op s) ++
  from_option (fun o => map br_result_sender (br_calls o)) [] (broadcast_op s).

(** What [PendingCollectiveOperation::wait] comes to: an answer, an error when
    every sender is gone, or nothing yet. *)
Inductive Waiting := Answered (reply : Reply) | Missing (e : CollectiveError) | Blocked.

Definition wait s (out : sends) (callback : nat) : Waiting :=
  match find (fun cr => cr.1 =? callback)%nat out with
  | Some cr => Answered cr.2
  | None => if bool_decide (callback ∈ held s) then Blocked else Missing LocalServerMissing
  end.
End server.
