(* ===== verification/LocalTheorems.v ===== *)
(** * What the local collectives promise: src/src/local

    All strategies of an all-reduce; the operations at the server in one round
    of calls of all peers; its callbacks, state and errors under any messages. *)
From stdpp Require Import sorting.
From S2P Require Import Prelude Ring Comp FloatBackend LocalReduce LocalStrategies LocalRing CollectiveConfig LocalOps LocalServer.

(** ** All strategies *)
Section strategies.
Context `{FloatLaws} `{HashLaws} {E : Type} (dims : list Z).

(** What a strategy needs to end with a result for [n] peers: a tree a positive
    arity, the ring slices that are in the tensor. *)
Definition strategy_ok (strategy : AllReduceStrategy) (n : nat) : Prop :=
  match strategy with
  | AllReduceCentralized => True
  | AllReduceTree arity => (0 < arity)%nat
  | AllReduceRing =>
      dims <> [] /\ Forall (fun x => 0 <= x) dims /\
      forall d, d ∈ dims -> Forall (fun x => x <= d) dims -> Z.of_nat n <= d ->
        d + Z.of_nat n <= 2 ^ usize_bits /\ slices_fit d n
  end.

(** A sum of all inputs, as a whole or slice by slice. *)
Inductive reduced (inputs : list Value) : Value -> Prop :=
  | reduced_whole v : sums value_add inputs v -> reduced inputs v
  | reduced_slices sd d n parts :
      dims !! sd = Some d ->
      Forall2 (fun range part => sums value_add (map (fun v => value_slice v (slice_of dims sd range)) inputs) part)
        (map (slice_range_at d n) (seq 0 n)) parts ->
      reduced inputs (value_cat parts sd).

Definition run_strategy (strategy : AllReduceStrategy) (h : nat) (tensors : CollectiveTensorMap) :
    outcome E CollectiveTensorMap :=
  match strategy with
  | AllReduceCentralized => all_reduce_sum_centralized h h tensors
  | AllReduceTree arity => all_reduce_sum_tree (depth tensors) h tensors arity
  | AllReduceRing => all_reduce_sum_ring (depth tensors) h tensors
  end.

Lemma run_strategy_ok strategy h tensors :
  entries tensors <> ∅ -> all_shaped dims tensors -> strategy_ok strategy (size tensors) ->
  exists out v, run_strategy strategy h tensors = Ok out /\ reduced (map value (values tensors)) v /\
    everywhere (devices_of tensors) v out.
Proof.
  intros Hne Hs Hok. destruct strategy as [|arity|]; cbn [run_strategy strategy_ok] in *.
  - destruct (all_reduce_centralized_ok (E:=E) dims h h tensors Hne Hs) as (out & v & Heq & Hv & Hout).
    exists out, v. split; [done|]. split; [by constructor|done].
  - destruct (all_reduce_tree_ok (E:=E) dims arity (depth tensors) h tensors Hok Hne Hs) as (out & v & Heq & Hv & Hout);
      [unfold depth; lia|]. exists out, v. split; [done|]. split; [by constructor|done].
  - destruct Hok as (Hdne & Hpos & Hfit). destruct (get_slice_dim_ok (E:=E) dims Hdne) as (sd & d & Hsd & Hd & Hmax).
    destruct (decide (Z.of_nat (size tensors) <= d)) as [Hle|Hgt].
    + destruct (Hfit d) as [Hb Hf]; [by eapply list_elem_of_lookup_2|done|done|].
      destruct (all_reduce_ring_slices (E:=E) dims sd d Hpos Hd (depth tensors) h tensors) as (out & parts & Heq & Hout & HF); [done..|].
      exists out, (value_cat parts sd). split; [done|]. split; [|done].
      apply (reduced_slices _ sd d (size tensors)); [done|].
      eapply Forall2_impl; [exact HF|]. intros range part. by rewrite map_map.
    + destruct (all_reduce_tree_ok (E:=E) dims 2 (depth tensors) h tensors) as (out & v & Heq & Hv & Hout);
        [lia|done|done|unfold depth; lia|].
      exists out, v. split; [|by split; [constructor|]].
      unfold all_reduce_sum_ring. rewrite (get_common_shape_spec tensors dims).
      2: { destruct (head_keys tensors Hne) as (k & t & Hk & _). unfold keys in Hk. by destruct (iter tensors). }
      2: { pose proof (all_shaped_values dims tensors Hs) as Hvs. by apply Forall_map in Hvs. }
      cbn [expect mbind outcome_bind]. rewrite Hsd. cbn [mbind outcome_bind].
      rewrite (proj2 (index_Ok _ _ _) Hd). cbn [mbind outcome_bind]. by rewrite (proj2 (Z.ltb_lt _ _)) by lia.
Qed.
End strategies.

(** ** The all-reduce of one process *)
Section local_only.
Context `{FloatLaws} `{HashLaws} `{Network} (dims : list Z).

Definition final (op : ReduceOperation) (n : nat) (v : Value) : Value :=
  match op with Sum => v | Mean => value_div v (Z.of_nat n) end.

Lemma everywhere_size (tensors out : CollectiveTensorMap) v : everywhere (devices_of tensors) v out -> size out = size tensors.
Proof.
  intros He. rewrite !size_entries, <- !size_dom. f_equal. apply set_eq. intros k. rewrite !elem_of_dom.
  pose proof (He k) as Hk. cbn in Hk. rewrite lookup_fmap in Hk.
  destruct (entries tensors !! k), (entries out !! k); inversion Hk; (split; intros [? ?]; done || by eexists).
Qed.

Lemma all_reduce_local_ok h tensors op cfg :
  entries tensors <> ∅ -> all_shaped dims tensors -> strategy_ok dims (local_all_reduce_strategy cfg) (size tensors) ->
  exists out v, all_reduce_local_only h tensors op cfg = Ok out /\ reduced dims (map value (values tensors)) v /\
    everywhere (devices_of tensors) (final op (size tensors) v) out.
Proof.
  intros Hne Hs Hok.
  destruct (run_strategy_ok (E:=CollectiveError) dims (local_all_reduce_strategy cfg) h tensors Hne Hs Hok)
    as (out & v & Heq & Hv & Hout).
  assert (Hmean : all_reduce_local_only h tensors op cfg =
    if decide (op = Mean)
    then Ok (collect_map h (map (fun e => (e.1, float_div_scalar e.2 (Z.of_nat (size out)))) (iter out)))
    else Ok out).
  { unfold all_reduce_local_only. destruct (local_all_reduce_strategy cfg); cbn [run_strategy] in Heq; by rewrite Heq. }
  rewrite Hmean. clear Hmean. destruct op; cbn [final].
  - exists out, v. split; [by rewrite decide_False|]. done.
  - rewrite decide_True by done. eexists _, v. split; [done|]. split; [done|].
    rewrite (everywhere_size _ _ _ Hout).
    assert (Hnd : NoDup (map fst (map (fun e => (e.1, float_div_scalar e.2 (Z.of_nat (size tensors)))) (iter out)))).
    { rewrite map_map. apply NoDup_keys. }
    intros k. specialize (Hout k).
    assert (Hk : entries (collect_map h (map (fun e => (e.1, float_div_scalar e.2 (Z.of_nat (size tensors)))) (iter out))) !! k
      = (fun t => float_div_scalar t (Z.of_nat (size tensors))) <$> entries out !! k).
    { apply option_eq. intros t. rewrite collect_lookup by done. rewrite list_elem_of_fmap. split.
      - intros ([k' t'] & [= -> ->] & Ht%elem_of_iter). by rewrite Ht.
      - intros (t' & Ht & ->)%fmap_Some. exists (k, t'). split; [done|]. by apply elem_of_iter. }
    rewrite Hk. cbn [entries devices_of] in Hout |- *. destruct ((float_device <$> entries tensors) !! k), (entries out !! k);
      inversion Hout as [? ? [Hd Hval]|]; subst; constructor. by rewrite div_device, div_value.
Qed.
End local_only.

(** ** Answers *)
Section answers.
Context `{FloatLaws} `{HashLaws} `{Network} `{!GlobalNode} `{Callbacks}.

Abbreviation sends := (list (nat * Reply)).

Lemma send_ok callback reply : receiving callback = true -> send callback reply = Ok (callback, reply).
Proof. unfold send. by intros ->. Qed.

Lemma send_all_ok l : Forall (fun cr => receiving cr.1 = true) l -> send_all l = Ok l.
Proof.
  intros Hr. unfold send_all. rewrite (mapM_pure _ (fun cr => cr)); [by rewrite map_id|].
  intros [c r] Hc. cbn. apply send_ok. exact (proj1 (Forall_forall _ _) Hr _ Hc).
Qed.

Lemma send_all_fst l out : send_all l = Ok out -> map fst out = map fst l.
Proof.
  unfold send_all. rewrite mapM_Ok. induction 1 as [|[c r] cr' l out Hs _ IH]; [done|]. cbn.
  rewrite IH. f_equal. unfold send in Hs. cbn in Hs. by destruct (receiving c); [injection Hs as <-|].
Qed.

Lemma hand_back_step reply (tensors : CollectiveTensorMap) (acc : sends) k cb t :
  entries tensors !! k = Some t -> receiving cb = true ->
  hand_back reply (tensors, acc) (k, cb) = Ok (map_remove tensors k, acc ++ [(cb, reply t)]).
Proof. intros Ht Hcb. unfold hand_back. cbn [fst snd]. rewrite Ht. cbn. by rewrite send_ok. Qed.

Lemma hand_back_fold reply (tensors : CollectiveTensorMap) (acc : sends) callers :
  NoDup (map fst callers) -> (forall k, k ∈ map fst callers <-> is_Some (entries tensors !! k)) ->
  Forall (fun c => receiving c.2 = true) callers ->
  exists tensors' out, foldM (hand_back reply) (tensors, acc) callers = Ok (tensors', acc ++ out) /\
    entries tensors' = ∅ /\
    Forall2 (fun c r => exists t, entries tensors !! c.1 = Some t /\ r = (c.2, reply t)) callers out.
Proof.
  revert tensors acc. induction callers as [|[k cb] callers IH]; intros tensors acc Hnd Hdom Hr.
  - exists tensors, []. cbn. rewrite app_nil_r. split; [done|]. split; [|constructor].
    apply map_empty. intros k. destruct (entries tensors !! k) as [t|] eqn:Hk; [|done].
    assert (Hin : k ∈ map fst ([] : list (PeerId * nat))) by (apply Hdom; by exists t). by apply not_elem_of_nil in Hin.
  - cbn [map fst] in *. apply NoDup_cons in Hnd as [Hk Hnd]. apply Forall_cons in Hr as [Hcb Hr].
    destruct (proj1 (Hdom k)) as [t Ht]; [by left|].
    destruct (IH (map_remove tensors k) (acc ++ [(cb, reply t)])) as (tensors' & out & Heq & He & HF); [done| |done|].
    { intros k'. cbn. destruct (decide (k' = k)) as [->|Hne].
      - rewrite lookup_delete_eq. split; [done|by intros [? ?]].
      - rewrite lookup_delete_ne by done. rewrite <- Hdom. split; [by right|]. by intros [?|?]%elem_of_cons. }
    exists tensors', ((cb, reply t) :: out). cbn [foldM]. rewrite (hand_back_step _ _ _ _ _ t) by done. cbn [mbind outcome_bind]. rewrite Heq, <- (assoc_L (++)).
    split; [done|]. split; [done|]. constructor; [by exists t|].
    apply Forall2_lookup. intros i. destruct (callers !! i) as [c|] eqn:Hc, (out !! i) as [r|] eqn:Ho;
      pose proof (proj1 (Forall2_lookup _ _ _) HF i) as Hi; rewrite Hc, Ho in Hi; inversion Hi as [? ? (t' & Ht' & ->)|]; subst; constructor.
    exists t'. cbn in Ht'. apply lookup_delete_Some in Ht' as [_ Ht']. done.
Qed.

Lemma hand_back_all_ok reply (tensors : CollectiveTensorMap) callers :
  NoDup (map fst callers) -> (forall k, k ∈ map fst callers <-> is_Some (entries tensors !! k)) ->
  Forall (fun c => receiving c.2 = true) callers ->
  exists out, hand_back_all reply tensors callers = Ok out /\
    Forall2 (fun c r => exists t, entries tensors !! c.1 = Some t /\ r = (c.2, reply t)) callers out.
Proof.
  intros Hnd Hdom Hr. destruct (hand_back_fold reply tensors [] callers Hnd Hdom Hr) as (tensors' & out & Heq & He & HF).
  exists out. split; [|done]. unfold hand_back_all. rewrite Heq. cbn [mbind outcome_bind app].
  by rewrite size_entries, He.
Qed.

(** The map of the calls has their inputs. *)
Lemma collect_permutation {A} h (l : list (PeerId * A)) : NoDup (map fst l) -> iter (collect_map h l) ≡ₚ l.
Proof. intros Hnd. rewrite iter_permutation, collect_entries by done. by apply map_to_list_to_map. Qed.

Lemma reduced_perm dims inputs inputs' v : inputs ≡ₚ inputs' -> reduced dims inputs v -> reduced dims inputs' v.
Proof.
  intros Hp [v' Hv|sd d n parts Hd HF]; [constructor; by eapply sums_perm|]. apply (reduced_slices dims _ sd d n); [done|].
  eapply Forall2_impl; [exact HF|]. intros range part Hs. eapply sums_perm; [|exact Hs]. by rewrite Hp.
Qed.

(** *** One all-reduce *)
Definition all_reduce_answer (v : Value) (call : AllReduceOpCall) (reply : nat * Reply) : Prop :=
  exists t, reply = (ar_result_sender call, AllReduceReply (inl t)) /\ value t = v /\
    float_device t = float_device (ar_input call).

Lemma all_reduce_execute_ok h o cfg :
  NoDup (map ar_caller (ar_calls o)) -> ar_calls o <> [] ->
  Forall (fun call => shape (ar_input call) = ar_shape o /\ receiving (ar_result_sender call) = true) (ar_calls o) ->
  strategy_ok (ar_shape o) (local_all_reduce_strategy cfg) (length (ar_calls o)) ->
  exists out v, all_reduce_execute h o cfg None = Ok (None, out) /\
    reduced (ar_shape o) (map (fun call => value (ar_input call)) (ar_calls o)) v /\
    Forall2 (all_reduce_answer (final (ar_op o) (length (ar_calls o)) v)) (ar_calls o) out.
Proof.
  intros Hnd Hne Hcalls Hok. set (l := map (fun call => (ar_caller call, ar_input call)) (ar_calls o)).
  assert (Hfst : map fst l = map ar_caller (ar_calls o)) by (unfold l; by rewrite map_map).
  assert (Hndl : NoDup (map fst l)) by by rewrite Hfst.
  pose proof (collect_permutation h l Hndl) as Hperm. change (collect_map h l) with (all_reduce_tensors h o) in Hperm. set (tensors := all_reduce_tensors h o) in *.
  assert (Hlook : forall k t, entries tensors !! k = Some t <-> (k, t) ∈ l) by (intros k t; by apply collect_lookup).
  assert (Hsize : size tensors = length (ar_calls o)) by (unfold size; rewrite Hperm; apply length_map).
  destruct (all_reduce_local_ok (ar_shape o) h tensors (ar_op o) cfg) as (res & v & Heq & Hv & Hout).
  - intros He. rewrite size_entries, He in Hsize. cbn in Hsize. by destruct (ar_calls o).
  - intros k t Ht%Hlook. unfold l in Ht. apply list_elem_of_fmap in Ht as (call & [= -> ->] & Hc).
    by destruct (proj1 (Forall_forall _ _) Hcalls _ Hc).
  - by rewrite Hsize.
  - rewrite Hsize in Hout.
    set (callers := map (fun call => (ar_caller call, ar_result_sender call)) (ar_calls o)).
    assert (Hfc : map fst callers = map fst l) by (unfold callers, l; by rewrite !map_map).
    destruct (hand_back_all_ok (fun t => AllReduceReply (inl t)) res callers) as (out & Hback & HF).
    + by rewrite Hfc.
    + intros k. rewrite Hfc.
      assert (Hiff : k ∈ map fst l <-> is_Some (entries tensors !! k)).
      { rewrite list_elem_of_fmap. split; [intros ([k' t] & -> & Ht); exists t; by apply Hlook|].
        intros [t Ht%Hlook]. by exists (k, t). }
      rewrite Hiff. specialize (Hout k). cbn in Hout. rewrite lookup_fmap in Hout.
      destruct (entries tensors !! k), (entries res !! k); inversion Hout; split; intros [? ?]; done || by eexists.
    + unfold callers. apply Forall_map. eapply Forall_impl; [exact Hcalls|]. by intros call [_ ?].
    + exists out, v. unfold all_reduce_execute, op_all_reduce. fold tensors. rewrite Heq. fold callers. rewrite Hback.
      split; [done|]. split.
      * eapply reduced_perm; [|exact Hv]. unfold values. rewrite Hperm. unfold l. by rewrite !map_map.
      * apply Forall2_fmap_l in HF. apply Forall2_same_length_lookup_2; [by eapply Forall2_length|].
        intros i call r Hc Ho. destruct (Forall2_lookup_lr _ _ _ _ _ _ HF Hc Ho) as (t & Ht & ->). cbn in Ht |- *.
        assert (Hin : entries tensors !! ar_caller call = Some (ar_input call)).
        { apply Hlook. unfold l. apply list_elem_of_fmap. exists call. split; [done|]. by eapply list_elem_of_lookup_2. }
        specialize (Hout (ar_caller call)). cbn in Hout. rewrite lookup_fmap, Hin, Ht in Hout. cbn in Hout.
        inversion Hout as [? ? [Hd Hval]|]; subst. by exists t.
Qed.
End answers.

(** ** Rounds of collective calls at the local server: src/src/local/server.rs

    When every registered peer has called the same operation once, in any
    order, every call is answered, each with the result for its device, and the
    server is as it was. *)

Section rounds.
Context `{FloatLaws} `{HashLaws} `{Network} `{!GlobalNode} `{Callbacks}.
Implicit Types s : LocalCollectiveServer.

Lemma serve_app st messages messages' :
  serve st (messages ++ messages') = st' ← serve st messages; serve st' messages'.
Proof. apply foldM_app. Qed.

Lemma serve_step h s out message s' more :
  process_message h s message = Ok (s', more) -> serve_one (h, s, out) message = Ok (S h, s', out ++ more).
Proof. unfold serve_one. by intros ->. Qed.

(** ** All-reduce *)
Section all_reduce.
Context (op : ReduceOperation) (dims : list Z).

Definition all_reduce_message (call : AllReduceOpCall) : Message :=
  AllReduce (ar_caller call) (ar_input call) op (ar_result_sender call).

Definition all_reduce_pending (calls : list AllReduceOpCall) : option AllReduceOp :=
  match calls with [] => None | _ => Some (mkAllReduceOp calls op dims) end.

Lemma all_reduce_call h s calls call :
  all_reduce_op s = all_reduce_pending calls -> shape (ar_input call) = dims -> ar_caller call ∈ peers s ->
  process_message h s (all_reduce_message call) =
    let s' := set_all_reduce s None in let o := mkAllReduceOp (calls ++ [call]) op dims in
    if (length (calls ++ [call]) =? length (peers s))%nat
    then config ← expect (config s);
         '(client, out) ← all_reduce_execute h o config (global_client s);
         Ok (set_client s' client, out)
    else Ok (set_all_reduce s' (Some o), []).
Proof.
  intros Hop Hshape Hin. cbn [process_message all_reduce_message]. unfold process_all_reduce_message, registered.
  rewrite bool_decide_true by done. cbn [negb]. rewrite Hop.
  assert (Hcur : default (AllReduceOp_new (shape (ar_input call)) op) (all_reduce_pending calls) = mkAllReduceOp calls op dims).
  { destruct calls; [|done]. cbn. by rewrite Hshape. }
  rewrite Hcur. unfold all_reduce_register_call. cbn [ar_shape ar_op ar_calls].
  rewrite !bool_decide_true by done. cbn [negb]. destruct call as [k t cb]. cbn [ar_caller ar_input ar_result_sender].
  cbn [peers set_all_reduce]. destruct (length _ =? length (peers s))%nat; done.
Qed.

Lemma all_reduce_calls rest h s out calls :
  all_reduce_op s = all_reduce_pending calls -> Forall (fun call => shape (ar_input call) = dims /\ ar_caller call ∈ peers s) rest ->
  (length calls + length rest < length (peers s))%nat ->
  serve (h, s, out) (map all_reduce_message rest) =
    Ok ((length rest + h)%nat, set_all_reduce s (all_reduce_pending (calls ++ rest)), out).
Proof.
  revert h s calls. induction rest as [|call rest IH]; intros h s calls Hop Hrest Hlen.
  - cbn. rewrite app_nil_r, <- Hop. by destruct s.
  - apply Forall_cons in Hrest as [[Hs Hin] Hrest]. cbn [map]. unfold serve. cbn [foldM length] in *.
    rewrite (serve_step _ _ _ _ (set_all_reduce s (Some (mkAllReduceOp (calls ++ [call]) op dims))) []).
    + cbn [mbind outcome_bind]. rewrite app_nil_r. fold (serve (S h, set_all_reduce s (Some (mkAllReduceOp (calls ++ [call]) op dims)), out) (map all_reduce_message rest)).
      rewrite (IH _ _ (calls ++ [call])).
      * rewrite <- (assoc_L (++)). cbn [app]. do 3 f_equal. lia.
      * by destruct calls.
      * done.
      * rewrite length_app. cbn. lia.
    + rewrite (all_reduce_call _ _ calls) by done. rewrite length_app. cbn [length].
      rewrite (proj2 (Nat.eqb_neq _ _)) by lia. done.
Qed.

Lemma all_reduce_round_ok h s out cfg calls :
  config s = Some cfg -> global_client s = None -> all_reduce_op s = None ->
  map ar_caller calls ≡ₚ peers s -> NoDup (peers s) -> calls <> [] ->
  Forall (fun call => shape (ar_input call) = dims /\ receiving (ar_result_sender call) = true) calls ->
  strategy_ok dims (local_all_reduce_strategy cfg) (length calls) ->
  exists replies v, serve (h, s, out) (map all_reduce_message calls) = Ok ((length calls + h)%nat, s, out ++ replies) /\
    reduced dims (map (fun call => value (ar_input call)) calls) v /\
    Forall2 (all_reduce_answer (final op (length calls) v)) calls replies.
Proof.
  intros Hcfg Hclient Hop Hperm Hnd Hne Hcalls Hok.
  assert (Hlen : length calls = length (peers s)) by by rewrite <- Hperm, length_map.
  assert (Hin : Forall (fun call => ar_caller call ∈ peers s) calls).
  { apply Forall_forall. intros call Hc. rewrite <- Hperm. apply list_elem_of_fmap. by exists call. }
  destruct (exists_last Hne) as (pre & call & ->). rewrite map_app, serve_app.
  rewrite length_app in Hlen. cbn [length] in Hlen. pose proof Hcalls as Hcalls'.
  apply Forall_app in Hcalls as [Hpre [[Hshape Hr] _]%Forall_cons].
  apply Forall_app in Hin as [Hinp [Hinc _]%Forall_cons].
  rewrite (all_reduce_calls pre h s out []); [|done|by apply Forall_and; split; [eapply Forall_impl; [exact Hpre|by intros ? [? _]]|]|cbn; lia].
  cbn [mbind outcome_bind app map]. unfold serve. cbn [foldM].
  destruct (all_reduce_execute_ok (length pre + h) (mkAllReduceOp (pre ++ [call]) op dims) cfg)
    as (replies & v & Heq & Hv & Hans); [|by destruct pre|done|done|].
  { cbn. by rewrite Hperm. }
  exists replies, v. split; [|done].
  rewrite (serve_step _ _ _ _ s replies).
  - cbn [mbind outcome_bind]. rewrite length_app. cbn [length]. do 3 f_equal. lia.
  - rewrite (all_reduce_call _ _ pre) by done. cbn [peers set_all_reduce config global_client].
    rewrite length_app. cbn [length]. rewrite (proj2 (Nat.eqb_eq _ _)) by lia. cbv zeta. rewrite Hcfg, Hclient.
    cbn [expect mbind outcome_bind]. rewrite Heq. cbn [mbind outcome_bind]. f_equal. f_equal.
    destruct s. cbn in *. by subst.
Qed.
End all_reduce.

(** ** Reduce *)
Lemma hand_none root t (acc : list (nat * Reply)) (callers : list (PeerId * nat)) :
  root ∉ map fst callers -> Forall (fun c => receiving c.2 = true) callers ->
  foldM (hand_root root) (t, acc) callers = Ok (t, acc ++ map (fun c => (c.2, ReduceReply (inl None))) callers).
Proof.
  revert acc. induction callers as [|[k cb] callers IH]; intros acc Hk Hr; cbn [foldM map]; [by rewrite app_nil_r|].
  apply Forall_cons in Hr as [Hcb Hr]. cbn [map fst] in Hk. apply not_elem_of_cons in Hk as [Hne Hk].
  unfold hand_root at 2. cbn [fst snd]. rewrite (proj2 (Nat.eqb_neq k root)) by congruence.
  rewrite send_ok by done. cbn [mbind outcome_bind]. rewrite IH by done. by rewrite <- (assoc_L (++)).
Qed.

Lemma hand_root_ok root t (acc : list (nat * Reply)) (callers : list (PeerId * nat)) :
  NoDup (map fst callers) -> Forall (fun c => receiving c.2 = true) callers ->
  exists rest, foldM (hand_root root) (Some t, acc) callers =
    Ok (rest, acc ++ map (fun c => (c.2, ReduceReply (inl (if (c.1 =? root)%nat then Some t else None)))) callers).
Proof.
  revert acc. induction callers as [|[k cb] callers IH]; intros acc Hnd Hr; cbn [foldM map]; [exists (Some t); by rewrite app_nil_r|].
  apply Forall_cons in Hr as [Hcb Hr]. cbn [map fst] in Hnd. apply NoDup_cons in Hnd as [Hk Hnd].
  assert (Hstep : hand_root root (Some t, acc) (k, cb) = Ok (if (k =? root)%nat then None else Some t,
    acc ++ [(cb, ReduceReply (inl (if (k =? root)%nat then Some t else None)))])).
  { unfold hand_root. cbn [fst snd]. destruct (k =? root)%nat; rewrite send_ok by done; done. }
  rewrite Hstep. cbn [mbind outcome_bind fst snd]. destruct (Nat.eqb_spec k root) as [->|Hne].
  - rewrite hand_none by done. exists None. rewrite <- (assoc_L (++)). do 4 f_equal.
    apply map_ext_in. intros [k' cb'] Hin%list_elem_of_In. cbn [fst snd]. rewrite (proj2 (Nat.eqb_neq k' root)); [done|].
    intros ->. apply Hk, list_elem_of_fmap. by exists (root, cb').
  - destruct (IH (acc ++ [(cb, ReduceReply (inl None))]) Hnd Hr) as (rest & ->). exists rest. by rewrite <- (assoc_L (++)).
Qed.

Definition reduce_answer (root : PeerId) (v : Value) (call : ReduceOpCall) (reply : nat * Reply) : Prop :=
  exists t, reply = (re_result_sender call, ReduceReply (inl t)) /\
    if (re_caller call =? root)%nat
    then exists t', t = Some t' /\ value t' = v /\ float_device t' = float_device (re_input call)
    else t = None.

Definition reduce_strategy_ok (strategy : ReduceStrategy) : Prop :=
  match strategy with ReduceCentralized => True | ReduceTree arity => (0 < arity)%nat end.

Lemma local_reduce_ok dims tensors root t0 strategy :
  entries tensors !! root = Some t0 -> all_shaped dims tensors -> reduce_strategy_ok strategy ->
  exists t, local_reduce tensors root strategy = Ok t /\ sums value_add (map value (values tensors)) (value t) /\
    float_device t = float_device t0.
Proof.
  intros Ht Hs Hok. destruct strategy as [|arity]; cbn [local_reduce reduce_strategy_ok] in *.
  - destruct (reduce_centralized_ok (E:=CollectiveError) dims tensors root t0) as (t & ? & _ & ? & ?); [done..|]. by exists t.
  - destruct (reduce_tree_ok (E:=CollectiveError) dims arity (depth tensors) tensors root t0) as (t & ? & _ & ? & ?);
      [done..|unfold depth; lia|]. by exists t.
Qed.

Lemma reduce_execute_ok h o cfg :
  NoDup (map re_caller (re_calls o)) -> re_root o ∈ map re_caller (re_calls o) ->
  Forall (fun call => shape (re_input call) = re_shape o /\ receiving (re_result_sender call) = true) (re_calls o) ->
  reduce_strategy_ok (local_reduce_strategy cfg) ->
  exists out v, reduce_execute h o (re_root o) cfg None = Ok (None, out) /\
    sums value_add (map (fun call => value (re_input call)) (re_calls o)) v /\
    Forall2 (reduce_answer (re_root o) (final (re_op o) (length (re_calls o)) v)) (re_calls o) out.
Proof.
  intros Hnd Hroot Hcalls Hok. set (l := map (fun call => (re_caller call, re_input call)) (re_calls o)).
  assert (Hfst : map fst l = map re_caller (re_calls o)) by (unfold l; by rewrite map_map).
  assert (Hndl : NoDup (map fst l)) by by rewrite Hfst.
  pose proof (collect_permutation h l Hndl) as Hperm. change (collect_map h l) with (reduce_tensors h o) in Hperm.
  set (tensors := reduce_tensors h o) in *.
  assert (Hlook : forall k t, entries tensors !! k = Some t <-> (k, t) ∈ l) by (intros k t; by apply collect_lookup).
  pose proof Hroot as (root_call & Hrc & Hrin)%list_elem_of_fmap.
  assert (Hlr : local_root o None = Ok (re_root o)).
  { unfold local_root. rewrite (proj2 (existsb_exists _ _)); [done|]. exists root_call.
    split; [by apply list_elem_of_In|]. apply Nat.eqb_eq. by symmetry. }
  destruct (local_reduce_ok (re_shape o) tensors (re_root o) (re_input root_call) (local_reduce_strategy cfg)) as (t & Heq & Hsum & Hd).
  - apply Hlook. rewrite Hrc. apply list_elem_of_fmap. by exists root_call.
  - intros k t Ht%Hlook. apply list_elem_of_fmap in Ht as (call & [= -> ->] & Hc).
    by destruct (proj1 (Forall_forall _ _) Hcalls _ Hc).
  - done.
  - set (callers := map (fun call => (re_caller call, re_result_sender call)) (re_calls o)).
    set (t' := if decide (re_op o = Mean) then float_div_scalar t (Z.of_nat (length (re_calls o))) else t).
    destruct (hand_root_ok (re_root o) t' [] callers) as (rest & Hhand).
    + unfold callers. by rewrite map_map.
    + unfold callers. apply Forall_map. eapply Forall_impl; [exact Hcalls|]. by intros call [_ ?].
    + eexists _, (value t). unfold reduce_execute, op_reduce. rewrite Hlr. cbn [mbind outcome_bind]. fold tensors.
      rewrite Heq. cbn [mbind outcome_bind]. fold t' callers. rewrite Hhand. split; [done|]. split.
      * eapply sums_perm; [|exact Hsum]. unfold values. rewrite Hperm. unfold l. by rewrite !map_map.
      * unfold callers. cbn [app]. rewrite map_map. apply Forall2_fmap_r, Forall_Forall2_diag, Forall_forall.
        intros call Hc. cbn [fst snd]. eexists. split; [done|]. destruct (Nat.eqb_spec (re_caller call) (re_root o)) as [He|]; [|done].
        assert (call = root_call) as ->.
        { apply list_elem_of_lookup in Hc as (i & Hi), Hrin as (j & Hj).
          assert (i = j); [|congruence]. eapply NoDup_lookup; [exact Hnd| |]; rewrite list_lookup_fmap.
          - rewrite Hi. cbn. by rewrite He.
          - rewrite Hj. cbn. by rewrite Hrc. }
        exists t'. split; [done|]. unfold t', final. destruct (re_op o).
        -- by rewrite decide_False.
        -- rewrite decide_True by done. by rewrite div_value, div_device.
Qed.

Section reduce.
Context (op : ReduceOperation) (root : PeerId) (dims : list Z).

Definition reduce_message (call : ReduceOpCall) : Message :=
  Reduce (re_caller call) (re_input call) op root (re_result_sender call).

Definition reduce_pending (calls : list ReduceOpCall) : option ReduceOp :=
  match calls with [] => None | _ => Some (mkReduceOp calls op root dims) end.

Lemma reduce_call h s calls call :
  reduce_op s = reduce_pending calls -> shape (re_input call) = dims -> root ∈ peers s ->
  process_message h s (reduce_message call) =
    let s' := set_reduce s None in let o := mkReduceOp (calls ++ [call]) op root dims in
    if (length (calls ++ [call]) =? length (peers s))%nat
    then config ← expect (config s);
         '(client, out) ← reduce_execute h o root config (global_client s);
         Ok (set_client s' client, out)
    else Ok (set_reduce s' (Some o), []).
Proof.
  intros Hop Hshape Hin. cbn [process_message reduce_message]. unfold process_reduce_message, registered.
  rewrite bool_decide_true by done. cbn [negb]. rewrite Hop.
  assert (Hcur : default (ReduceOp_new (shape (re_input call)) op root) (reduce_pending calls) = mkReduceOp calls op root dims).
  { destruct calls; [|done]. cbn. by rewrite Hshape. }
  rewrite Hcur. unfold reduce_register_call. cbn [re_shape re_op re_calls re_root].
  rewrite !bool_decide_true, Nat.eqb_refl by done. cbn [negb]. destruct call as [k t cb]. cbn [re_caller re_input re_result_sender].
  cbn [peers set_reduce]. destruct (length _ =? length (peers s))%nat; done.
Qed.

Lemma reduce_calls rest h s out calls :
  reduce_op s = reduce_pending calls -> root ∈ peers s -> Forall (fun call => shape (re_input call) = dims) rest ->
  (length calls + length rest < length (peers s))%nat ->
  serve (h, s, out) (map reduce_message rest) =
    Ok ((length rest + h)%nat, set_reduce s (reduce_pending (calls ++ rest)), out).
Proof.
  revert h s calls. induction rest as [|call rest IH]; intros h s calls Hop Hin Hrest Hlen.
  - cbn. rewrite app_nil_r, <- Hop. by destruct s.
  - apply Forall_cons in Hrest as [Hs Hrest]. cbn [map]. unfold serve. cbn [foldM length] in *.
    rewrite (serve_step _ _ _ _ (set_reduce s (Some (mkReduceOp (calls ++ [call]) op root dims))) []).
    + cbn [mbind outcome_bind]. rewrite app_nil_r.
      fold (serve (S h, set_reduce s (Some (mkReduceOp (calls ++ [call]) op root dims)), out) (map reduce_message rest)).
      rewrite (IH _ _ (calls ++ [call])).
      * rewrite <- (assoc_L (++)). cbn [app]. do 3 f_equal. lia.
      * by destruct calls.
      * done.
      * done.
      * rewrite length_app. cbn. lia.
    + rewrite (reduce_call _ _ calls) by done. rewrite length_app. cbn [length].
      rewrite (proj2 (Nat.eqb_neq _ _)) by lia. done.
Qed.

Lemma reduce_round_ok h s out cfg calls :
  config s = Some cfg -> global_client s = None -> reduce_op s = None ->
  map re_caller calls ≡ₚ peers s -> NoDup (peers s) -> root ∈ peers s ->
  Forall (fun call => shape (re_input call) = dims /\ receiving (re_result_sender call) = true) calls ->
  reduce_strategy_ok (local_reduce_strategy cfg) ->
  exists replies v, serve (h, s, out) (map reduce_message calls) = Ok ((length calls + h)%nat, s, out ++ replies) /\
    sums value_add (map (fun call => value (re_input call)) calls) v /\
    Forall2 (reduce_answer root (final op (length calls) v)) calls replies.
Proof.
  intros Hcfg Hclient Hop Hperm Hnd Hroot Hcalls Hok.
  assert (Hlen : length calls = length (peers s)) by by rewrite <- Hperm, length_map.
  assert (Hne : calls <> []) by (intros ->; cbn in Hperm; rewrite <- Hperm in Hroot; by apply not_elem_of_nil in Hroot).
  destruct (exists_last Hne) as (pre & call & ->). rewrite map_app, serve_app.
  rewrite length_app in Hlen. cbn [length] in Hlen. pose proof Hcalls as Hcalls'.
  apply Forall_app in Hcalls as [Hpre [[Hshape Hr] _]%Forall_cons].
  rewrite (reduce_calls pre h s out []); [|done|done|eapply Forall_impl; [exact Hpre|by intros ? [? _]]|cbn; lia].
  cbn [mbind outcome_bind app map]. unfold serve. cbn [foldM].
  destruct (reduce_execute_ok (length pre + h) (mkReduceOp (pre ++ [call]) op root dims) cfg)
    as (replies & v & Heq & Hv & Hans); [| |done|done|].
  { cbn. by rewrite Hperm. }
  { cbn. by rewrite Hperm. }
  exists replies, v. split; [|done].
  rewrite (serve_step _ _ _ _ s replies).
  - cbn [mbind outcome_bind]. rewrite length_app. cbn [length]. do 3 f_equal. lia.
  - rewrite (reduce_call _ _ pre) by done. cbn [peers set_reduce config global_client].
    rewrite length_app. cbn [length]. rewrite (proj2 (Nat.eqb_eq _ _)) by lia. cbv zeta. rewrite Hcfg, Hclient.
    cbn [expect mbind outcome_bind]. cbn [re_root] in Heq. rewrite Heq. cbn [mbind outcome_bind]. f_equal. f_equal.
    destruct s. cbn in *. by subst.
Qed.
End reduce.

(** ** Broadcast *)
Definition broadcast_answer (v : Value) (call : BroadcastOpCall) (reply : nat * Reply) : Prop :=
  exists t, reply = (br_result_sender call, BroadcastReply (inl t)) /\ value t = v /\ float_device t = br_device call.

Definition broadcast_strategy_ok (strategy : BroadcastStrategy) : Prop :=
  match strategy with BroadcastCentralized => True | BroadcastTree arity => (0 < arity)%nat end.

Lemma broadcast_execute_ok h calls t root cfg :
  NoDup (map br_caller calls) ->
  (exists call, call ∈ calls /\ br_caller call = root /\ br_device call = float_device t) ->
  Forall (fun call => receiving (br_result_sender call) = true) calls ->
  broadcast_strategy_ok (local_broadcast_strategy cfg) ->
  exists out, broadcast_execute h (mkBroadcastOp calls (Some t) (Some root)) cfg None = Ok (None, out) /\
    Forall2 (broadcast_answer (value t)) calls out.
Proof.
  intros Hnd (rc & Hrc & <- & Hdev) Hcalls Hok. set (o := mkBroadcastOp calls (Some t) (Some (br_caller rc))).
  set (l := map (fun call => (br_caller call, br_device call)) calls).
  assert (Hfst : map fst l = map br_caller calls) by (unfold l; by rewrite map_map).
  assert (Hndl : NoDup (map fst l)) by by rewrite Hfst.
  assert (Hlook : forall k d, entries (peer_devices h o) !! k = Some d <-> (k, d) ∈ l) by (intros k d; by apply collect_lookup).
  assert (Hroot : entries (peer_devices h o) !! br_caller rc = Some (float_device t)).
  { apply Hlook. rewrite <- Hdev. apply list_elem_of_fmap. by exists rc. }
  assert (Hres : exists res, op_broadcast h o cfg None = (None, Ok res) /\ everywhere (peer_devices h o) (value t) res).
  { unfold op_broadcast. cbn [op_broadcast_global br_tensor ok_or mbind outcome_bind]. unfold effective_root. cbn [br_calls br_root].
    assert (Hhead : exists first, head calls = Some first) by (destruct calls; [by apply not_elem_of_nil in Hrc|by eexists]).
    destruct Hhead as [first Hhead]. cbn [op_broadcast_global o br_tensor ok_or mbind outcome_bind br_calls br_root].
    rewrite Hhead. cbn [expect mbind outcome_bind default]. cbv zeta. fold o.
    destruct (local_broadcast_strategy cfg) as [|arity]; cbn [broadcast_strategy_ok] in Hok.
    - destruct (broadcast_centralized_ok (E:=CollectiveError) h (peer_devices h o) (br_caller rc) t Hroot) as (res & Heq & Hres).
      exists res. split; [|done]. f_equal. exact Heq.
    - destruct (broadcast_tree_ok (E:=CollectiveError) arity (S (size (peer_devices h o))) h (peer_devices h o) (br_caller rc) t Hok Hroot)
        as (res & Heq & Hres); [lia|]. exists res. split; [|done]. f_equal. exact Heq. }
  destruct Hres as (res & Heq & Hres).
  set (callers := map (fun call => (br_caller call, br_result_sender call)) calls).
  assert (Hfc : map fst callers = map fst l) by (unfold callers, l; by rewrite !map_map).
  destruct (hand_back_all_ok (fun t => BroadcastReply (inl t)) res callers) as (out & Hback & HF).
  - by rewrite Hfc.
  - intros k. rewrite Hfc.
    assert (Hiff : k ∈ map fst l <-> is_Some (entries (peer_devices h o) !! k)).
    { rewrite list_elem_of_fmap. split; [intros ([k' d] & -> & Hk); exists d; by apply Hlook|].
      intros [d Hk%Hlook]. by exists (k, d). }
    rewrite Hiff. specialize (Hres k).
    destruct (entries (peer_devices h o) !! k), (entries res !! k); inversion Hres; split; intros [? ?]; done || by eexists.
  - unfold callers. by apply Forall_map.
  - exists out. unfold broadcast_execute. rewrite Heq. cbn [br_calls o]. fold callers. rewrite Hback. split; [done|].
    apply Forall2_fmap_l in HF. apply Forall2_same_length_lookup_2; [by eapply Forall2_length|].
    intros i call r Hc Ho. destruct (Forall2_lookup_lr _ _ _ _ _ _ HF Hc Ho) as (t' & Ht & ->). cbn in Ht |- *.
    assert (Hin : entries (peer_devices h o) !! br_caller call = Some (br_device call)).
    { apply Hlook. unfold l. apply list_elem_of_fmap. exists call. split; [done|]. by eapply list_elem_of_lookup_2. }
    specialize (Hres (br_caller call)). rewrite Hin, Ht in Hres. inversion Hres as [? ? [Hd Hval]|]; subst. by exists t'.
Qed.

Section broadcast.
Context (root : PeerId) (t : Tensor) (cfg : CollectiveConfig).

Definition broadcast_message (call : BroadcastOpCall) : Message :=
  Broadcast (br_caller call) (if (br_caller call =? root)%nat then Some t else None) (br_result_sender call).

(** The operation after the calls; only the root has brought a tensor. *)
Definition broadcast_so_far (calls : list BroadcastOpCall) : BroadcastOp :=
  if decide (root ∈ map br_caller calls) then mkBroadcastOp calls (Some t) (Some root) else mkBroadcastOp calls None None.

Definition broadcast_pending (calls : list BroadcastOpCall) : option BroadcastOp :=
  match calls with [] => None | _ => Some (broadcast_so_far calls) end.

Lemma broadcast_register calls call n :
  br_caller call ∉ map br_caller calls ->
  broadcast_register_call (broadcast_so_far calls) (br_caller call) (if (br_caller call =? root)%nat then Some t else None)
    (br_result_sender call) (br_device call) n =
  Ok (broadcast_so_far (calls ++ [call]), (length (calls ++ [call]) =? n)%nat).
Proof.
  intros Hnew. unfold broadcast_register_call, broadcast_so_far. rewrite map_app. cbn [map].
  destruct call as [k d cb]. cbn [br_caller br_device br_result_sender] in *.
  destruct (Nat.eqb_spec k root) as [->|Hne].
  - rewrite (decide_False (P := root ∈ map br_caller calls)) by done.
    rewrite decide_True by (apply elem_of_app; right; by left). done.
  - destruct (decide (root ∈ map br_caller calls)) as [Hin|Hout].
    + rewrite decide_True by (apply elem_of_app; by left). done.
    + rewrite decide_False; [done|]. intros [Hin|Hin]%elem_of_app; [done|].
      apply list_elem_of_singleton in Hin. congruence.
Qed.

Lemma broadcast_call h s calls call :
  broadcast_op s = broadcast_pending calls -> config s = Some cfg -> br_caller call ∈ peers s ->
  devices s !! br_caller call = Some (br_device call) -> br_caller call ∉ map br_caller calls ->
  process_message h s (broadcast_message call) =
    let s' := set_broadcast s None in let o := broadcast_so_far (calls ++ [call]) in
    if (length (calls ++ [call]) =? length (peers s))%nat
    then '(client, out) ← broadcast_execute h o cfg (global_client s);
         Ok (set_client s' client, out)
    else Ok (set_broadcast s' (Some o), []).
Proof.
  intros Hop Hcfg Hin Hdev Hnew. cbn [process_message broadcast_message]. unfold process_broadcast_message, registered.
  rewrite Hcfg, bool_decide_true by done. cbn [negb]. rewrite Hop.
  assert (Hcur : default BroadcastOp_new (broadcast_pending calls) = broadcast_so_far calls) by by destruct calls.
  rewrite Hcur, Hdev. cbn [expect mbind outcome_bind]. cbv zeta.
  rewrite broadcast_register by done. cbn [peers set_broadcast]. destruct (length _ =? length (peers s))%nat; done.
Qed.

Lemma broadcast_calls rest h s out calls :
  broadcast_op s = broadcast_pending calls -> config s = Some cfg ->
  Forall (fun call => br_caller call ∈ peers s /\ devices s !! br_caller call = Some (br_device call)) rest ->
  NoDup (map br_caller (calls ++ rest)) ->
  (length calls + length rest < length (peers s))%nat ->
  serve (h, s, out) (map broadcast_message rest) =
    Ok ((length rest + h)%nat, set_broadcast s (broadcast_pending (calls ++ rest)), out).
Proof.
  revert h s calls. induction rest as [|call rest IH]; intros h s calls Hop Hcfg Hrest Hnd Hlen.
  - cbn. rewrite app_nil_r, <- Hop. by destruct s.
  - apply Forall_cons in Hrest as [[Hin Hdev] Hrest]. cbn [map]. unfold serve. cbn [foldM length] in *.
    rewrite (serve_step _ _ _ _ (set_broadcast s (Some (broadcast_so_far (calls ++ [call])))) []).
    + cbn [mbind outcome_bind]. rewrite app_nil_r.
      fold (serve (S h, set_broadcast s (Some (broadcast_so_far (calls ++ [call]))), out) (map broadcast_message rest)).
      rewrite (IH _ _ (calls ++ [call])).
      * rewrite <- (assoc_L (++)). cbn [app]. do 3 f_equal. lia.
      * by destruct calls.
      * done.
      * done.
      * by rewrite <- (assoc_L (++)).
      * rewrite length_app. cbn. lia.
    + rewrite (broadcast_call _ _ calls); [|done..|].
      * rewrite length_app. cbn [length]. rewrite (proj2 (Nat.eqb_neq _ _)) by lia. done.
      * rewrite map_app in Hnd. apply NoDup_app in Hnd as (_ & Hdisj & _). intros Hc. apply (Hdisj _ Hc). by left.
Qed.

Lemma broadcast_round_ok h s out calls :
  config s = Some cfg -> global_client s = None -> broadcast_op s = None ->
  map br_caller calls ≡ₚ peers s -> NoDup (peers s) -> root ∈ peers s -> devices s !! root = Some (float_device t) ->
  Forall (fun call => devices s !! br_caller call = Some (br_device call) /\ receiving (br_result_sender call) = true) calls ->
  broadcast_strategy_ok (local_broadcast_strategy cfg) ->
  exists replies, serve (h, s, out) (map broadcast_message calls) = Ok ((length calls + h)%nat, s, out ++ replies) /\
    Forall2 (broadcast_answer (value t)) calls replies.
Proof.
  intros Hcfg Hclient Hop Hperm Hnd Hroot Hdev Hcalls Hok.
  assert (Hlen : length calls = length (peers s)) by by rewrite <- Hperm, length_map.
  assert (Hin : Forall (fun call => br_caller call ∈ peers s) calls).
  { apply Forall_forall. intros call Hc. rewrite <- Hperm. apply list_elem_of_fmap. by exists call. }
  rewrite <- Hperm in Hroot, Hnd. pose proof Hroot as (rc & Hrc & Hrin)%list_elem_of_fmap.
  assert (Hrdev : br_device rc = float_device t).
  { destruct (proj1 (Forall_forall _ _) Hcalls _ Hrin) as [Hd _]. congruence. }
  assert (Hne : calls <> []) by (intros ->; by apply not_elem_of_nil in Hrin).
  assert (Hso : broadcast_so_far calls = mkBroadcastOp calls (Some t) (Some root)) by (unfold broadcast_so_far; by rewrite decide_True).
  destruct (broadcast_execute_ok (length calls - 1 + h) calls t root cfg) as (replies & Heq & Hans); [done|by exists rc| |done|].
  { eapply Forall_impl; [exact Hcalls|]. by intros ? [_ ?]. }
  exists replies. split; [|done]. rewrite <- Hso in Heq. clear Hso Hans Hroot Hrin.
  destruct (exists_last Hne) as (pre & call & ->). rewrite map_app, serve_app.
  rewrite length_app in Hlen, Heq. cbn [length] in Hlen, Heq.
  apply Forall_app in Hcalls as [Hpre [[Hd Hr] _]%Forall_cons]. apply Forall_app in Hin as [Hinp [Hinc _]%Forall_cons].
  assert (Hnew : br_caller call ∉ map br_caller pre).
  { rewrite map_app in Hnd. apply NoDup_app in Hnd as (_ & Hdisj & _). intros Hc. apply (Hdisj _ Hc). by left. }
  rewrite (broadcast_calls pre h s out []); [|done|done| | |cbn; lia].
  - cbn [mbind outcome_bind app map]. unfold serve. cbn [foldM].
    rewrite (serve_step _ _ _ _ s replies).
    + cbn [mbind outcome_bind]. rewrite length_app. cbn [length]. do 3 f_equal. lia.
    + rewrite (broadcast_call _ _ pre) by done. cbn [peers set_broadcast config global_client].
      rewrite length_app. cbn [length]. rewrite (proj2 (Nat.eqb_eq _ _)) by lia. cbv zeta. rewrite Hclient.
      replace (length pre + 1 - 1 + h)%nat with (length pre + h)%nat in Heq by lia.
      rewrite Heq. cbn [mbind outcome_bind]. f_equal. f_equal. destruct s. cbn in *. by subst.
  - apply Forall_and. split; [done|]. eapply Forall_impl; [exact Hpre|]. by intros ? [? _].
  - rewrite map_app in Hnd. by apply NoDup_app in Hnd as (? & _ & _).
Qed.
End broadcast.
End rounds.

(** ** Callbacks, state and errors of the local server: src/src/local

    Every callback is answered at most once, so the channels of one slot that
    the clients make never block the server.  The state of a server is well
    formed after every message.  What the code does with calls that do not
    match, with a peer that calls twice, and with a tree of arity zero. *)

Section callbacks.
Context `{FloatBackend, HashOrder, Network} `{!GlobalNode} `{Callbacks}.
Implicit Types s : LocalCollectiveServer.

Abbreviation sends := (list (nat * Reply)).

Definition callbacks_of (message : Message) : list nat :=
  match message with
  | Register _ _ _ callback | AllReduce _ _ _ callback | Reduce _ _ _ _ callback
  | Broadcast _ _ callback | Finish _ callback => [callback]
  | Reset => []
  end.

Lemma send_fst callback reply r : send callback reply = Ok r -> r = (callback, reply).
Proof. unfold send. by destruct (receiving callback); intros [= <-]. Qed.

(** What is sent to whom is settled when an operation starts to answer. *)
Lemma hand_back_fold_fst reply callers tensors (acc : sends) tensors' out :
  foldM (hand_back reply) (tensors, acc) callers = Ok (tensors', out) -> map fst out = map fst acc ++ map snd callers.
Proof.
  revert tensors acc. induction callers as [|[k cb] callers IH]; intros tensors acc Hf; cbn [foldM] in Hf.
  - injection Hf as _ <-. by rewrite app_nil_r.
  - apply bind_Ok in Hf as ([tensors1 acc1] & Hb & Hf). apply IH in Hf. rewrite Hf. unfold hand_back in Hb. cbn [fst snd] in Hb.
    apply bind_Ok in Hb as (t & _ & Hb). apply bind_Ok in Hb as (r & ->%send_fst & [= _ <-]).
    rewrite map_app, <- (assoc_L (++)). done.
Qed.

Lemma hand_back_all_fst reply tensors callers out :
  hand_back_all reply tensors callers = Ok out -> map fst out = map snd callers.
Proof.
  unfold hand_back_all. intros ([tensors' out'] & Hf & Hs)%bind_Ok. apply hand_back_fold_fst in Hf.
  by destruct (size tensors' =? 0)%nat; [injection Hs as <-|].
Qed.

Lemma hand_root_fst root callers st (acc : sends) st' out :
  foldM (hand_root root) (st, acc) callers = Ok (st', out) -> map fst out = map fst acc ++ map snd callers.
Proof.
  revert st acc. induction callers as [|[k cb] callers IH]; intros st acc Hf; cbn [foldM] in Hf.
  - injection Hf as _ <-. by rewrite app_nil_r.
  - apply bind_Ok in Hf as ([st1 acc1] & Hb & Hf). apply IH in Hf. rewrite Hf. unfold hand_root in Hb. cbn [fst snd] in Hb.
    destruct (k =? root)%nat; apply bind_Ok in Hb as (r & ->%send_fst & [= _ <-]); rewrite map_app, <- (assoc_L (++)); done.
Qed.

Lemma all_reduce_fail_fst o err out : all_reduce_fail o err = Ok out -> map fst out = map ar_result_sender (ar_calls o).
Proof. intros Hf%send_all_fst. rewrite Hf, map_map. done. Qed.
Lemma reduce_fail_fst o err out : reduce_fail o err = Ok out -> map fst out = map re_result_sender (re_calls o).
Proof. intros Hf%send_all_fst. rewrite Hf, map_map. done. Qed.
Lemma broadcast_fail_fst o err out : broadcast_fail o err = Ok out -> map fst out = map br_result_sender (br_calls o).
Proof. intros Hf%send_all_fst. rewrite Hf, map_map. done. Qed.

Lemma all_reduce_execute_fst h o cfg client client' out :
  all_reduce_execute h o cfg client = Ok (client', out) -> map fst out = map ar_result_sender (ar_calls o).
Proof.
  unfold all_reduce_execute. destruct (op_all_reduce h o cfg client) as [c [tensors|err|]]; [| |done].
  - intros (out' & Hf%hand_back_all_fst & [= _ <-])%bind_Ok. rewrite Hf, map_map. done.
  - by intros (out' & Hf%all_reduce_fail_fst & [= _ <-])%bind_Ok.
Qed.

Lemma reduce_execute_fst h o root cfg client client' out :
  reduce_execute h o root cfg client = Ok (client', out) -> map fst out = map re_result_sender (re_calls o).
Proof.
  unfold reduce_execute. destruct (op_reduce h o cfg client) as [c [tensors|err|]]; [| |done].
  - intros (out' & ([st out2] & Hf%hand_root_fst & [= <-])%bind_Ok & [= _ <-])%bind_Ok. rewrite Hf, map_map. done.
  - by intros (out' & Hf%reduce_fail_fst & [= _ <-])%bind_Ok.
Qed.

Lemma broadcast_execute_fst h o cfg client client' out :
  broadcast_execute h o cfg client = Ok (client', out) -> map fst out = map br_result_sender (br_calls o).
Proof.
  unfold broadcast_execute. destruct (op_broadcast h o cfg client) as [c [tensors|err|]]; [| |done].
  - intros (out' & Hf%hand_back_all_fst & [= _ <-])%bind_Ok. rewrite Hf, map_map. done.
  - by intros (out' & Hf%broadcast_fail_fst & [= _ <-])%bind_Ok.
Qed.

(** The callbacks that an operation holds, with the one of a call. *)
Lemma all_reduce_register_fst o k t cb op n o' ready :
  all_reduce_register_call o k t cb op n = Ok (o', ready) ->
  map ar_result_sender (ar_calls o') = map ar_result_sender (ar_calls o) ++ [cb].
Proof.
  unfold all_reduce_register_call. destruct (negb _); [done|]. destruct (negb _); [done|]. intros [= <- _]. cbn. by rewrite map_app.
Qed.
Lemma reduce_register_fst o k t cb op root n o' ready :
  reduce_register_call o k t cb op root n = Ok (o', ready) ->
  map re_result_sender (re_calls o') = map re_result_sender (re_calls o) ++ [cb].
Proof.
  unfold reduce_register_call. destruct (negb _); [done|]. destruct (negb _); [done|]. destruct (negb _); [done|].
  intros [= <- _]. cbn. by rewrite map_app.
Qed.
Lemma broadcast_register_fst o k t cb d n o' ready :
  broadcast_register_call o k t cb d n = Ok (o', ready) ->
  map br_result_sender (br_calls o') = map br_result_sender (br_calls o) ++ [cb].
Proof.
  unfold broadcast_register_call. destruct (bool_decide _ && _); [done|].
  destruct t; intros [= <- _]; cbn; by rewrite map_app.
Qed.

Lemma answer_held s callback reply s' out :
  answer s callback reply = Ok (s', out) -> map fst out ++ held s' ⊆+ callback :: held s.
Proof. unfold answer. intros (r & ->%send_fst & [= <- <-])%bind_Ok. done. Qed.

(** [held] of a server whose parts are known. *)
Ltac held_parts := unfold held; cbn [callbacks_register all_reduce_op reduce_op broadcast_op set_all_reduce set_reduce
  set_broadcast set_client set_peers reset add_peer from_option].

Lemma register_held s id d cfg cb s' out :
  process_register_message s id d cfg cb = Ok (s', out) -> map fst out ++ held s' ⊆+ cb :: held s.
Proof.
  unfold process_register_message. destruct (negb _); [apply answer_held|]. destruct (registered _ _); [apply answer_held|].
  cbv zeta. destruct (match peers s, config s with [], _ | _, None => _ | _, _ => _ end) as [cfg'|]; [|apply answer_held].
  set (s1 := open_node (add_peer s id d cfg' cb) (global_register_params cfg')).
  assert (Hsub : held s1 ≡ₚ cb :: held s).
  { assert (Hheld : held s1 = held (add_peer s id d cfg' cb)).
    { unfold s1, open_node. destruct (global_register_params cfg'); [|done]. by destruct (global_client _). }
    rewrite Hheld. held_parts. rewrite <- (assoc_L (++)). cbn [app]. by rewrite <- Permutation_middle. }
  destruct (length (peers s1) =? num_devices cfg')%nat; [|intros [= <- <-]; by rewrite Hsub].
  unfold complete_registration. intros ([s2 r] & Hcr & Hs)%bind_Ok. apply bind_Ok in Hs as (out' & Hout%send_all_fst & [= <- <-]).
  rewrite Hout, map_map. cbn [fst]. rewrite map_id.
  assert (Hs2 : held s2 = held s1 /\ callbacks_register s2 = callbacks_register s1 /\ all_reduce_op s2 = all_reduce_op s1 /\
    reduce_op s2 = reduce_op s1 /\ broadcast_op s2 = broadcast_op s1).
  { destruct (global_register_params cfg') as [p|]; [|by injection Hcr as <- _].
    apply bind_Ok in Hcr as (client & _ & Hcr). destruct (node_register client (peers s1) p) as [client' r'].
    apply bind_Ok in Hcr as (r2 & _ & [= <- _]). done. }
  destruct Hs2 as (Hh & Hr & Ha & Hre & Hb). rewrite <- Hsub, <- Hh. unfold held. cbn. done.
Qed.

Lemma all_reduce_held h s k t op cb s' out :
  process_all_reduce_message h s k t op cb = Ok (s', out) -> map fst out ++ held s' ⊆+ cb :: held s.
Proof.
  unfold process_all_reduce_message. destruct (negb _); [apply answer_held|]. cbv zeta.
  set (o := default _ (all_reduce_op s)).
  assert (Ho : held s = callbacks_register s ++ map ar_result_sender (ar_calls o) ++
    from_option (fun o => map re_result_sender (re_calls o)) [] (reduce_op s) ++
    from_option (fun o => map br_result_sender (br_calls o)) [] (broadcast_op s)).
  { unfold held, o. by destruct (all_reduce_op s). }
  destruct (all_reduce_register_call _ _ _ _ _ _) as [[o' [|]]|err|] eqn:Hr; [| | |done].
  - intros (c & _ & Hs)%bind_Ok. apply bind_Ok in Hs as ([client out'] & Hout%all_reduce_execute_fst & [= <- <-]).
    rewrite Hout, (all_reduce_register_fst _ _ _ _ _ _ _ _ Hr), Ho. held_parts. solve_submseteq.
  - intros [= <- <-]. rewrite Ho. held_parts. rewrite (all_reduce_register_fst _ _ _ _ _ _ _ _ Hr). solve_submseteq.
  - intros (out' & Hout%all_reduce_fail_fst & [= <- <-])%bind_Ok. rewrite Hout, Ho. held_parts. solve_submseteq.
Qed.

Lemma reduce_held h s k t op root cb s' out :
  process_reduce_message h s k t op root cb = Ok (s', out) -> map fst out ++ held s' ⊆+ cb :: held s.
Proof.
  unfold process_reduce_message. destruct (negb _); [apply answer_held|]. cbv zeta.
  set (o := default _ (reduce_op s)).
  assert (Ho : held s = callbacks_register s ++ from_option (fun o => map ar_result_sender (ar_calls o)) [] (all_reduce_op s) ++
    map re_result_sender (re_calls o) ++ from_option (fun o => map br_result_sender (br_calls o)) [] (broadcast_op s)).
  { unfold held, o. by destruct (reduce_op s). }
  destruct (reduce_register_call _ _ _ _ _ _ _) as [[o' [|]]|err|] eqn:Hr; [| | |done].
  - intros (c & _ & Hs)%bind_Ok. apply bind_Ok in Hs as ([client out'] & Hout%reduce_execute_fst & [= <- <-]).
    rewrite Hout, (reduce_register_fst _ _ _ _ _ _ _ _ _ Hr), Ho. held_parts. solve_submseteq.
  - intros [= <- <-]. rewrite Ho. held_parts. rewrite (reduce_register_fst _ _ _ _ _ _ _ _ _ Hr). solve_submseteq.
  - intros (out' & Hout%reduce_fail_fst & [= <- <-])%bind_Ok. rewrite Hout, Ho. held_parts. solve_submseteq.
Qed.

Lemma broadcast_held h s k t cb s' out :
  process_broadcast_message h s k t cb = Ok (s', out) -> map fst out ++ held s' ⊆+ cb :: held s.
Proof.
  unfold process_broadcast_message. destruct (config s) as [cfg|]; [|apply answer_held].
  destruct (negb _); [apply answer_held|]. cbv zeta. intros (d & _ & Hs)%bind_Ok. revert Hs.
  set (o := default _ (broadcast_op s)).
  assert (Ho : held s = callbacks_register s ++ from_option (fun o => map ar_result_sender (ar_calls o)) [] (all_reduce_op s) ++
    from_option (fun o => map re_result_sender (re_calls o)) [] (reduce_op s) ++ map br_result_sender (br_calls o)).
  { unfold held, o. by destruct (broadcast_op s). }
  destruct (broadcast_register_call _ _ _ _ _ _) as [[o' [|]]|err|] eqn:Hr; [| | |done].
  - intros ([client out'] & Hout%broadcast_execute_fst & [= <- <-])%bind_Ok.
    rewrite Hout, (broadcast_register_fst _ _ _ _ _ _ _ _ Hr), Ho. held_parts. solve_submseteq.
  - intros [= <- <-]. rewrite Ho. held_parts. rewrite (broadcast_register_fst _ _ _ _ _ _ _ _ Hr). solve_submseteq.
  - intros (out' & Hout%broadcast_fail_fst & [= <- <-])%bind_Ok. rewrite Hout, Ho. held_parts. solve_submseteq.
Qed.

Lemma finish_held s id cb s' out :
  process_finish_message s id cb = Ok (s', out) -> map fst out ++ held s' ⊆+ cb :: held s.
Proof.
  unfold process_finish_message. destruct (config s) as [cfg|]; [|apply answer_held].
  destruct (negb _); [apply answer_held|]. cbv zeta. intros (s1 & Hs1 & Hs)%bind_Ok. apply answer_held in Hs.
  assert (Hh : held s1 = held s); [|by rewrite <- Hh].
  destruct (peers (set_peers s _)) as [|p ps]; [|by injection Hs1 as <-].
  destruct (global_client (set_peers s _)) as [client|]; [|by injection Hs1 as <-].
  by apply bind_Ok in Hs1 as (? & _ & [= <-]).
Qed.

(** A message's callback is answered, kept or dropped; so are the others held. *)
Lemma process_message_held h s message s' out :
  process_message h s message = Ok (s', out) -> map fst out ++ held s' ⊆+ callbacks_of message ++ held s.
Proof.
  destruct message; cbn [process_message callbacks_of app].
  - apply register_held.
  - apply all_reduce_held.
  - apply reduce_held.
  - apply broadcast_held.
  - intros [= <- <-]. held_parts. cbn [map app]. rewrite app_nil_r. apply submseteq_inserts_r. done.
  - apply finish_held.
Qed.

Lemma serve_held messages h s out h' s' out' :
  serve (h, s, out) messages = Ok (h', s', out') ->
  map fst out' ++ held s' ⊆+ concat (map callbacks_of messages) ++ map fst out ++ held s.
Proof.
  revert h s out. induction messages as [|m messages IH]; intros h s out Hs; [by injection Hs as <- <- <-|].
  unfold serve in Hs. cbn [foldM] in Hs. apply bind_Ok in Hs as ([[h1 s1] out1] & Hone & Hs).
  unfold serve_one in Hone. apply bind_Ok in Hone as ([s2 more] & Hm%process_message_held & [= <- <- <-]).
  etrans; [exact (IH _ _ _ Hs)|]. cbn [map concat]. rewrite map_app, <- !(assoc_L (++)).
  rewrite (Permutation_app_swap_app (callbacks_of m)). apply submseteq_app; [done|].
  rewrite (Permutation_app_swap_app (callbacks_of m)). by apply submseteq_app.
Qed.
End callbacks.

(** ** The state *)
Section invariant.
Context `{FloatBackend, HashOrder, Network} `{!GlobalNode} `{Callbacks}.
Implicit Types s : LocalCollectiveServer.

(** Calls that wait have the shape, operation and root of the first one; a
    broadcast has a tensor exactly if one of its callers is its root. *)
Definition all_reduce_ok (o : AllReduceOp) : Prop :=
  ar_calls o <> [] /\ Forall (fun call => shape (ar_input call) = ar_shape o) (ar_calls o).
Definition reduce_ok (o : ReduceOp) : Prop :=
  re_calls o <> [] /\ Forall (fun call => shape (re_input call) = re_shape o) (re_calls o).
Definition broadcast_ok (o : BroadcastOp) : Prop :=
  br_calls o <> [] /\ (is_Some (br_tensor o) <-> is_Some (br_root o)) /\
  forall root, br_root o = Some root -> root ∈ map br_caller (br_calls o).

Record server_ok s : Prop := {
  ok_nodup : NoDup (peers s);
  ok_config : peers s <> [] -> exists cfg, config s = Some cfg;
  ok_valid : forall cfg, config s = Some cfg -> is_valid cfg = true;
  ok_devices : forall k, k ∈ peers s -> is_Some (devices s !! k);
  ok_all_reduce : forall o, all_reduce_op s = Some o -> all_reduce_ok o;
  ok_reduce : forall o, reduce_op s = Some o -> reduce_ok o;
  ok_broadcast : forall o, broadcast_op s = Some o -> broadcast_ok o;
}.

Lemma server_new_ok : server_ok server_new.
Proof. split; cbn; (done || constructor || by intros ? ?%not_elem_of_nil). Qed.

Lemma registered_spec s k : registered s k = true <-> k ∈ peers s.
Proof. apply bool_decide_eq_true. Qed.

Lemma answer_ok s cb reply s' out : answer s cb reply = Ok (s', out) -> s' = s.
Proof. unfold answer. by intros (r & _ & [= <- _])%bind_Ok. Qed.

Lemma open_node_ok s params : server_ok s -> server_ok (open_node s params).
Proof. intros Hs. unfold open_node. destruct params, (global_client s); [done| |done..]. by destruct Hs; split. Qed.

Lemma add_peer_ok s id d cfg cb :
  server_ok s -> id ∉ peers s -> is_valid cfg = true -> server_ok (add_peer s id d cfg cb).
Proof.
  intros [] Hid Hv. split; cbn; [|by exists cfg|by intros ? [= <-]| |done..].
  - apply NoDup_app. split; [done|]. split; [|apply NoDup_singleton]. intros k Hk ->%list_elem_of_singleton. done.
  - intros k [Hk| ->%list_elem_of_singleton]%elem_of_app; [|by rewrite lookup_insert_eq].
    destruct (decide (k = id)) as [->|]; [by rewrite lookup_insert_eq|]. rewrite lookup_insert_ne by done. by apply ok_devices0.
Qed.

Lemma register_ok s id d cfg cb s' out :
  server_ok s -> process_register_message s id d cfg cb = Ok (s', out) -> server_ok s'.
Proof.
  intros Hs. unfold process_register_message. destruct (is_valid cfg) eqn:Hv; cbn [negb]; [|by intros ->%answer_ok].
  destruct (registered s id) eqn:Hid; [by intros ->%answer_ok|]. cbv zeta.
  destruct (match peers s, config s with [], _ | _, None => _ | _, _ => _ end) as [cfg'|] eqn:Hagreed; [|by intros ->%answer_ok].
  assert (Hv' : is_valid cfg' = true).
  { destruct (peers s); [by injection Hagreed as <-|]. destruct (config s) as [c|] eqn:Hc; [|by injection Hagreed as <-].
    destruct (decide (c = cfg)) as [->|]; [by injection Hagreed as <-|done]. }
  assert (Hnew : id ∉ peers s) by by rewrite <- registered_spec, Hid.
  pose proof (open_node_ok _ (global_register_params cfg') (add_peer_ok s id d cfg' cb Hs Hnew Hv')) as Hs1.
  set (s1 := open_node _ _) in *. destruct (_ =? _)%nat; [|by intros [= <- _]].
  unfold complete_registration. intros ([s2 r] & Hcr & Hs2)%bind_Ok. apply bind_Ok in Hs2 as (out' & _ & [= <- _]).
  assert (Hok2 : server_ok s2); [|by destruct Hok2; split].
  destruct (global_register_params cfg') as [p|]; [|by injection Hcr as <- _].
  apply bind_Ok in Hcr as (client & _ & Hcr). destruct (node_register client (peers s1) p) as [client' r'].
  apply bind_Ok in Hcr as (r2 & _ & [= <- _]). by destruct Hs1; split.
Qed.

Lemma set_all_reduce_ok s o : server_ok s -> (forall o', o = Some o' -> all_reduce_ok o') -> server_ok (set_all_reduce s o).
Proof. by intros [] Ho; split. Qed.
Lemma set_reduce_ok s o : server_ok s -> (forall o', o = Some o' -> reduce_ok o') -> server_ok (set_reduce s o).
Proof. by intros [] Ho; split. Qed.
Lemma set_broadcast_ok s o : server_ok s -> (forall o', o = Some o' -> broadcast_ok o') -> server_ok (set_broadcast s o).
Proof. by intros [] Ho; split. Qed.
Lemma set_client_ok s c : server_ok s -> server_ok (set_client s c).
Proof. by intros []; split. Qed.

Lemma all_reduce_register_ok o k t cb op n o' ready :
  Forall (fun call => shape (ar_input call) = ar_shape o) (ar_calls o) ->
  all_reduce_register_call o k t cb op n = Ok (o', ready) -> all_reduce_ok o'.
Proof.
  intros Ho. unfold all_reduce_register_call. destruct (bool_decide _) eqn:Hs; cbn [negb]; [|done]. destruct (negb _); [done|].
  intros [= <- _]. apply bool_decide_eq_true in Hs. split; cbn; [by destruct (ar_calls o)|]. by rewrite Forall_app, Forall_singleton.
Qed.
Lemma reduce_register_ok o k t cb op root n o' ready :
  Forall (fun call => shape (re_input call) = re_shape o) (re_calls o) ->
  reduce_register_call o k t cb op root n = Ok (o', ready) -> reduce_ok o'.
Proof.
  intros Ho. unfold reduce_register_call. destruct (bool_decide _) eqn:Hs; cbn [negb]; [|done]. destruct (negb _); [done|]. destruct (negb _); [done|].
  intros [= <- _]. apply bool_decide_eq_true in Hs. split; cbn; [by destruct (re_calls o)|]. by rewrite Forall_app, Forall_singleton.
Qed.
Lemma broadcast_register_ok o k t cb d n o' ready :
  (is_Some (br_tensor o) <-> is_Some (br_root o)) -> (forall root, br_root o = Some root -> root ∈ map br_caller (br_calls o)) ->
  broadcast_register_call o k t cb d n = Ok (o', ready) -> broadcast_ok o'.
Proof.
  intros Ht Hr. unfold broadcast_register_call. destruct (bool_decide _ && _); [done|].
  destruct t as [t|]; intros [= <- _]; (split; [by destruct (br_calls o)|]); cbn; (split; [done|]); intros root; rewrite map_app, elem_of_app.
  - intros [= <-]. right. by left.
  - intros Hroot. left. by apply Hr.
Qed.

Lemma process_message_ok h s message s' out :
  server_ok s -> process_message h s message = Ok (s', out) -> server_ok s'.
Proof.
  intros Hs. destruct message as [id d cfg cb|k t op cb|k t op root cb|k t cb| |id cb]; cbn [process_message].
  - by apply register_ok.
  - unfold process_all_reduce_message. destruct (negb _); [by intros ->%answer_ok|]. cbv zeta.
    assert (Hn : server_ok (set_all_reduce s None)) by by apply set_all_reduce_ok.
    destruct (all_reduce_register_call _ _ _ _ _ _) as [[o' [|]]|err|] eqn:Hr; [| | |done].
    + intros (c & _ & Hb)%bind_Ok. apply bind_Ok in Hb as ([client out'] & _ & [= <- _]). by apply set_client_ok.
    + intros [= <- _]. apply set_all_reduce_ok; [done|]. intros o [= <-]. eapply all_reduce_register_ok; [|exact Hr].
      destruct (all_reduce_op s) as [o|] eqn:Ho; cbn; [by destruct (ok_all_reduce _ Hs o Ho)|constructor].
    + by intros (out' & _ & [= <- _])%bind_Ok.
  - unfold process_reduce_message. destruct (negb _); [by intros ->%answer_ok|]. cbv zeta.
    assert (Hn : server_ok (set_reduce s None)) by by apply set_reduce_ok.
    destruct (reduce_register_call _ _ _ _ _ _ _) as [[o' [|]]|err|] eqn:Hr; [| | |done].
    + intros (c & _ & Hb)%bind_Ok. apply bind_Ok in Hb as ([client out'] & _ & [= <- _]). by apply set_client_ok.
    + intros [= <- _]. apply set_reduce_ok; [done|]. intros o [= <-]. eapply reduce_register_ok; [|exact Hr].
      destruct (reduce_op s) as [o|] eqn:Ho; cbn; [by destruct (ok_reduce _ Hs o Ho)|constructor].
    + by intros (out' & _ & [= <- _])%bind_Ok.
  - unfold process_broadcast_message. destruct (config s) as [cfg|]; [|by intros ->%answer_ok].
    destruct (negb _); [by intros ->%answer_ok|]. cbv zeta. intros (d & _ & Hb)%bind_Ok. revert Hb.
    assert (Hn : server_ok (set_broadcast s None)) by by apply set_broadcast_ok.
    destruct (broadcast_register_call _ _ _ _ _ _) as [[o' [|]]|err|] eqn:Hr; [| | |done].
    + intros ([client out'] & _ & [= <- _])%bind_Ok. by apply set_client_ok.
    + intros [= <- _]. apply set_broadcast_ok; [done|]. intros o [= <-].
      assert (Hd : forall o : BroadcastOp, default BroadcastOp_new (broadcast_op s) = o ->
        (is_Some (br_tensor o) <-> is_Some (br_root o)) /\ forall root, br_root o = Some root -> root ∈ map br_caller (br_calls o)).
      { intros o <-. destruct (broadcast_op s) as [o|] eqn:Ho; cbn; [by destruct (ok_broadcast _ Hs o Ho)|]. split; [|done]. by split; intros [? ?]. }
      destruct (Hd _ eq_refl) as [Ht Hroot]. by eapply broadcast_register_ok.
    + by intros (out' & _ & [= <- _])%bind_Ok.
  - intros [= <- _]. destruct Hs. split; cbn; (done || by constructor || by intros ? ?%not_elem_of_nil).
  - unfold process_finish_message. destruct (config s) as [cfg|] eqn:Hcfg; [|by intros ->%answer_ok].
    destruct (negb _); [by intros ->%answer_ok|]. cbv zeta. intros (s1 & Hs1 & Hb)%bind_Ok. apply answer_ok in Hb as ->.
    assert (Hp : server_ok (set_peers s (filter (fun x => x <> id) (peers s)))).
    { destruct Hs. split; cbn; [by apply NoDup_filter|by exists cfg|done| |done..].
      intros k [_ Hk]%list_elem_of_filter. by apply ok_devices0. }
    destruct (peers (set_peers s _)) as [|p ps]; [|by injection Hs1 as <-].
    destruct (global_client (set_peers s _)) as [client|]; [|by injection Hs1 as <-].
    apply bind_Ok in Hs1 as (? & _ & [= <-]). by apply set_client_ok.
Qed.
End invariant.
