(* ===== verification/VectorBackend.v ===== *)
(** * A concrete backend: vectors of integers

    One-dimensional tensors on numbered devices satisfy the laws of
    [FloatBackend]; the theorems on the local collectives are applied to them. *)
From S2P Require Import Prelude FloatBackend CollectiveConfig LocalOps.

Record Vector := mkVector { vector_device : nat; vector_data : list Z }.

#[export] Instance vector_backend : FloatBackend := {|
  Tensor := Vector;
  TDevice := nat;
  device_id := Z.of_nat;
  shape t := [Zlen (vector_data t)];
  float_device := vector_device;
  float_to_device t d := mkVector d (vector_data t);
  float_add a b := mkVector (vector_device a) (zip_with Z.add (vector_data a) (vector_data b));
  float_div_scalar t n := mkVector (vector_device t) (map (fun x => x / n) (vector_data t));
  float_slice t ranges :=
    match ranges with
    | [(a, b)] =>
        if (0 <=? a) && (a <=? b) && (b <=? Zlen (vector_data t))
        then Some (mkVector (vector_device t) (sub (Z.to_nat a) (Z.to_nat (b - a)) (vector_data t))) else None
    | _ => None
    end;
  float_slice_assign t _ src :=
    if Zlen (vector_data t) =? Zlen (vector_data src) then Some (mkVector (vector_device t) (vector_data src)) else None;
  float_cat ts _ :=
    match ts with
    | [] => None
    | t :: _ => Some (mkVector (vector_device t) (concat (map vector_data ts)))
    end;
|}.

#[export] Instance vector_laws : FloatLaws vector_backend.
Proof.
  refine {|
    Value := list Z;
    value := vector_data : Tensor -> list Z;
    value_shape v := [Zlen v];
    value_add := zip_with Z.add;
    value_div v n := map (fun x => x / n) v;
    value_slice v ranges := match ranges with [(a, b)] => sub (Z.to_nat a) (Z.to_nat (b - a)) v | _ => [] end;
    value_cat vs _ := concat vs;
  |}; try done.
  - intros a b [= Hab]. unfold Zlen in *. rewrite length_zip_with. do 2 f_equal. lia.
  - intros t ranges Hr. cbn in *. unfold in_shape in Hr.
    apply Forall2_cons_inv_l in Hr as ([a b] & rest & [Hab Hb] & Hrest & ->). apply Forall2_nil_inv_l in Hrest as ->. cbn in Hab, Hb.
    destruct Hab as [Ha Hle]. rewrite (proj2 (Z.leb_le _ _) Ha), (proj2 (Z.leb_le _ _) Hle), (proj2 (Z.leb_le _ _) Hb). by eexists.
  - intros v ranges Hr. unfold in_shape in Hr.
    apply Forall2_cons_inv_l in Hr as ([a b] & rest & [Hab Hb] & Hrest & ->). apply Forall2_nil_inv_l in Hrest as ->. cbn in *.
    f_equal. unfold Zlen in *. rewrite length_sub by lia. lia.
  - intros t src [= Hs]. cbn in *. rewrite (proj2 (Z.eqb_eq _ _) Hs). by eexists.
  - intros t ts dim _ _ _. cbn. by eexists.
Defined.

#[export] Instance map_order : HashOrder := {| iterate A hasher m := map_to_list m |}.
#[export] Instance map_laws : HashLaws map_order.
Proof. split. done. Qed.

#[export] Instance string_network : Network := {| Address := string |}.

(** No node of a global level. *)
#[export] Instance no_node : GlobalNode := {|
  Node := unit;
  node_new _ _ := tt;
  node_register n _ _ := (n, Err OrchestratorUnreachable);
  node_all_reduce n _ _ _ := (n, Err OrchestratorUnreachable);
  node_reduce n _ _ _ _ := (n, Err OrchestratorUnreachable);
  node_broadcast n _ _ _ := (n, Err OrchestratorUnreachable);
  node_finish _ := Ok tt;
|}.

#[export] Instance all_receiving : Callbacks := fun _ => true.
