(* ===== verification/LocalProperties.v ===== *)
(** * The properties of the local collectives: src/src/local

    Registration and the three operations from the clients' side, the callbacks
    and the state of the server, and where the code falls short. *)
From stdpp Require Import sorting.
From S2P Require Import Prelude Comp Ring FloatBackend LocalReduce LocalStrategies LocalRing CollectiveConfig LocalOps LocalServer LocalTheorems VectorBackend.

(** ** Registration *)
Section registration.
Context `{FloatBackend, HashOrder, Network} `{!GlobalNode} `{Callbacks}.
Implicit Types s : LocalCollectiveServer.

Record Registration := mkRegistration { reg_id : PeerId; reg_device : TDevice; reg_callback : nat }.

Definition register_message (cfg : CollectiveConfig) (r : Registration) : Message :=
  Register (reg_id r) (reg_device r) cfg (reg_callback r).

Definition registering (cfg : CollectiveConfig) (rs : list Registration) : LocalCollectiveServer :=
  foldl (fun s r => add_peer s (reg_id r) (reg_device r) cfg (reg_callback r)) server_new rs.

Lemma registering_parts cfg rs :
  peers (registering cfg rs) = map reg_id rs /\ callbacks_register (registering cfg rs) = map reg_callback rs /\
  (rs <> [] -> config (registering cfg rs) = Some cfg) /\ global_client (registering cfg rs) = None.
Proof.
  induction rs as [|r rs (Hp & Hc & Hcfg & Hg)] using rev_ind; [done|].
  unfold registering in *. rewrite foldl_app, !map_app. cbn [foldl map]. cbn [peers callbacks_register config global_client add_peer].
  by rewrite Hp, Hc.
Qed.

Lemma register_call cfg rs r :
  is_valid cfg = true -> global_register_params cfg = None -> reg_id r ∉ map reg_id rs ->
  process_register_message (registering cfg rs) (reg_id r) (reg_device r) cfg (reg_callback r) =
    if (length (rs ++ [r]) =? num_devices cfg)%nat then complete_registration (registering cfg (rs ++ [r])) None
    else Ok (registering cfg (rs ++ [r]), []).
Proof.
  intros Hv Hg Hnew. destruct (registering_parts cfg rs) as (Hp & _ & Hcfg & _).
  unfold process_register_message, registered. rewrite Hv, Hp, bool_decide_false by done. cbn [negb].
  assert (Hagreed : match map reg_id rs, config (registering cfg rs) with
    | [], _ | _, None => Some cfg
    | _, Some current => if decide (current = cfg) then Some current else None
    end = Some cfg).
  { destruct rs as [|r0 rs]; [done|]. rewrite Hcfg by done. cbn [map]. by rewrite decide_True. }
  rewrite Hagreed. cbv zeta. rewrite Hg. cbn [open_node].
  assert (Hadd : add_peer (registering cfg rs) (reg_id r) (reg_device r) cfg (reg_callback r) = registering cfg (rs ++ [r])).
  { unfold registering. by rewrite foldl_app. }
  rewrite Hadd. destruct (registering_parts cfg (rs ++ [r])) as (Hp' & _). by rewrite Hp', length_map.
Qed.

Lemma register_calls cfg rest pre h out :
  is_valid cfg = true -> global_register_params cfg = None -> NoDup (map reg_id (pre ++ rest)) ->
  (length pre + length rest < num_devices cfg)%nat ->
  serve (h, registering cfg pre, out) (map (register_message cfg) rest) =
    Ok ((length rest + h)%nat, registering cfg (pre ++ rest), out).
Proof.
  intros Hv Hg. revert pre h. induction rest as [|r rest IH]; intros pre h Hnd Hlen; [by rewrite app_nil_r|].
  cbn [length] in Hlen. cbn [map]. unfold serve. cbn [foldM].
  rewrite (serve_step _ _ _ _ (registering cfg (pre ++ [r])) []).
  - cbn [mbind outcome_bind]. rewrite app_nil_r. fold (serve (S h, registering cfg (pre ++ [r]), out) (map (register_message cfg) rest)).
    rewrite IH.
    + rewrite <- (assoc_L (++)). cbn [app length]. do 3 f_equal. lia.
    + by rewrite <- (assoc_L (++)).
    + rewrite length_app. cbn. lia.
  - cbn [process_message register_message]. rewrite register_call; [|done..|].
    + rewrite length_app. cbn [length]. by rewrite (proj2 (Nat.eqb_neq _ _)) by lia.
    + rewrite map_app in Hnd. apply NoDup_app in Hnd as (_ & Hdisj & _). intros Hc. apply (Hdisj _ Hc). by left.
Qed.

(** when as many peers as the configuration says have registered with it, under different identifiers, every one
    of them is told so, in the order of registration, and no one before the last; the server then knows exactly
    these peers. *)
Theorem registration_completes cfg rs h out :
  is_valid cfg = true -> global_register_params cfg = None -> NoDup (map reg_id rs) -> rs <> [] ->
  num_devices cfg = length rs -> Forall (fun r => receiving (reg_callback r) = true) rs ->
  (forall pre rest, rs = pre ++ rest -> rest <> [] ->
    exists h' s', serve (h, server_new, out) (map (register_message cfg) pre) = Ok (h', s', out)) /\
  exists s', serve (h, server_new, out) (map (register_message cfg) rs) =
      Ok ((length rs + h)%nat, s', out ++ map (fun r => (reg_callback r, RegisterReply (inl tt))) rs) /\
    peers s' = map reg_id rs /\ config s' = Some cfg /\ callbacks_register s' = [].
Proof.
  intros Hv Hg Hnd Hne Hn Hr. split.
  - intros pre rest -> Hrest. change server_new with (registering cfg []). rewrite register_calls; [by eexists _, _|done..| |].
    + rewrite map_app in Hnd. by apply NoDup_app in Hnd as (? & _ & _).
    + rewrite Hn, length_app. destruct rest; [done|]. cbn. lia.
  - destruct (exists_last Hne) as (pre & r & ->). rewrite map_app, serve_app. rewrite length_app in Hn. cbn [length] in Hn.
    pose proof Hnd as Hnd'. rewrite map_app in Hnd'. apply NoDup_app in Hnd' as (Hpre & Hdisj & _).
    change server_new with (registering cfg []). rewrite register_calls; [|done..|cbn; lia].
    cbn [mbind outcome_bind app map]. unfold serve. cbn [foldM].
    destruct (registering_parts cfg (pre ++ [r])) as (Hp & Hc & Hcfg & Hcl).
    eexists. rewrite (serve_step _ _ _ _ (mkServer (config (registering cfg (pre ++ [r]))) (peers (registering cfg (pre ++ [r]))) []
        (devices (registering cfg (pre ++ [r]))) (all_reduce_op (registering cfg (pre ++ [r])))
        (reduce_op (registering cfg (pre ++ [r]))) (broadcast_op (registering cfg (pre ++ [r])))
        (global_client (registering cfg (pre ++ [r]))))
      (map (fun r => (reg_callback r, RegisterReply (inl tt))) (pre ++ [r]))).
    + cbn [mbind outcome_bind]. split; [rewrite length_app; cbn [length]; do 3 f_equal; lia|]. cbn [peers config callbacks_register].
      split; [done|]. split; [|done]. apply Hcfg. by destruct pre.
    + cbn [process_message register_message]. rewrite register_call; [|done..|].
      * rewrite length_app. cbn [length]. rewrite (proj2 (Nat.eqb_eq _ _)) by lia. unfold complete_registration.
        cbn [mbind outcome_bind]. rewrite Hc, send_all_ok; [by rewrite map_map|].
        rewrite map_map. by apply Forall_map.
      * intros Hin. apply (Hdisj _ Hin). by left.
Qed.
End registration.

Definition two_config : CollectiveConfig := with_num_devices CollectiveConfig_new 2.

Lemma registration_completes_witness :
  let rs := [mkRegistration 7 0%nat 1; mkRegistration 3 1%nat 2] in
  exists s', serve (0%nat, server_new, []) (map (register_message two_config) rs) =
    Ok (2%nat, s', map (fun r => (reg_callback r, RegisterReply (inl tt))) rs) /\ peers s' = [7%nat; 3%nat].
Proof.
  intros rs. destruct (registration_completes two_config rs 0 []) as (_ & s' & Hs & Hp & _);
    [done|done|by apply (bool_decide_unpack _); vm_compute|done|done|by repeat constructor|]. by exists s'.
Defined.

(** ** The operations *)
Section operations.
Context `{FloatLaws} `{HashLaws} `{Network} `{!GlobalNode} `{Callbacks}.
Implicit Types s : LocalCollectiveServer.

(** Whatever the local strategy (central, tree of positive arity, or ring with slices that fit the tensor, with its
    fallback to a tree), the order of the maps and the devices, an all-reduce ends and leaves every peer, on its own
    device, with one and the same value: a sum of all inputs, each counted once, as a whole or slice by slice,
    divided by their number for a mean. *)
Theorem all_reduce_strategies_agree dims h tensors op cfg :
  entries tensors <> ∅ -> all_shaped dims tensors -> strategy_ok dims (local_all_reduce_strategy cfg) (size tensors) ->
  exists out v, all_reduce_local_only h tensors op cfg = Ok out /\ reduced dims (map value (values tensors)) v /\
    forall k, option_Forall2 (fun t t' => float_device t' = float_device t /\ value t' = final op (size tensors) v)
      (entries tensors !! k) (entries out !! k).
Proof.
  intros Hne Hs Hok. destruct (all_reduce_local_ok dims h tensors op cfg Hne Hs Hok) as (out & v & Heq & Hv & Hout).
  exists out, v. split; [done|]. split; [done|]. intros k. specialize (Hout k). cbn in Hout. rewrite lookup_fmap in Hout.
  destruct (entries tensors !! k), (entries out !! k); inversion Hout; subst; by constructor.
Qed.

(** C9: on a server without a global client, when every registered peer has called an all-reduce once, in any order, with
    tensors of one shape and the same operation, every call has been answered, in the order of the calls, with the
    reduction of all inputs on the device of the caller's input, and the server is as before.  The strategy is
    centralized, a tree of positive arity, or a ring whose slices fit the tensor ([strategy_ok]): a tree of arity 0 does
    not end, and a ring whose slices run behind the dimension panics ([ring_of_four_panics]). *)
Theorem all_reduce_round dims h s out cfg op calls :
  server_ok s -> config s = Some cfg -> global_client s = None -> all_reduce_op s = None ->
  map ar_caller calls ≡ₚ peers s -> calls <> [] ->
  Forall (fun call => shape (ar_input call) = dims /\ receiving (ar_result_sender call) = true) calls ->
  strategy_ok dims (local_all_reduce_strategy cfg) (length calls) ->
  exists replies v, serve (h, s, out) (map (all_reduce_message op) calls) = Ok ((length calls + h)%nat, s, out ++ replies) /\
    reduced dims (map (fun call => value (ar_input call)) calls) v /\
    Forall2 (all_reduce_answer (final op (length calls) v)) calls replies.
Proof. intros Hs Hcfg Hcl Hop Hp. by apply all_reduce_round_ok; [..|apply Hs]. Qed.

(** when every registered peer has called a reduce to one of them once, in any order, the root has been answered
    with the reduction of all inputs on the device of its own input, all others with nothing, and the server is as
    before. *)
Theorem reduce_round dims h s out cfg op root calls :
  server_ok s -> config s = Some cfg -> global_client s = None -> reduce_op s = None ->
  map re_caller calls ≡ₚ peers s -> root ∈ peers s ->
  Forall (fun call => shape (re_input call) = dims /\ receiving (re_result_sender call) = true) calls ->
  reduce_strategy_ok (local_reduce_strategy cfg) ->
  exists replies v, serve (h, s, out) (map (reduce_message op root) calls) = Ok ((length calls + h)%nat, s, out ++ replies) /\
    sums value_add (map (fun call => value (re_input call)) calls) v /\
    Forall2 (reduce_answer root (final op (length calls) v)) calls replies.
Proof. intros Hs Hcfg Hcl Hop Hp. by apply reduce_round_ok; [..|apply Hs]. Qed.

(** when every registered peer has called a broadcast once, in any order, and one of them, the root, has brought a
    tensor that is on its device, every call has been answered with the value of that tensor on the device of the
    caller, and the server is as before. *)
Theorem broadcast_round h s out cfg root t calls :
  server_ok s -> config s = Some cfg -> global_client s = None -> broadcast_op s = None ->
  map br_caller calls ≡ₚ peers s -> root ∈ peers s -> devices s !! root = Some (float_device t) ->
  Forall (fun call => devices s !! br_caller call = Some (br_device call) /\ receiving (br_result_sender call) = true) calls ->
  broadcast_strategy_ok (local_broadcast_strategy cfg) ->
  exists replies, serve (h, s, out) (map (broadcast_message root t) calls) = Ok ((length calls + h)%nat, s, out ++ replies) /\
    Forall2 (broadcast_answer (value t)) calls replies.
Proof. intros Hs Hcfg Hcl Hop Hp. by apply (broadcast_round_ok root t cfg); [..|apply Hs]. Qed.

(** C24: the server answers no callback twice, and holds none that it has answered: the one slot of a client's channel
    is never full when the server sends. *)
Theorem callbacks_answered_once messages h h' s' out :
  serve (h, server_new, []) messages = Ok (h', s', out) ->
  NoDup (concat (map callbacks_of messages)) -> NoDup (map fst out ++ held s').
Proof.
  intros Hs Hnd. apply serve_held in Hs. cbn [map app] in Hs. unfold held at 2 in Hs. cbn in Hs.
  rewrite app_nil_r in Hs. apply submseteq_Permutation in Hs as (k & Hk).
  rewrite Hk in Hnd. by apply NoDup_app in Hnd as (? & _ & _).
Qed.

(** Whatever messages a server has processed, its peers are distinct and have devices, a valid configuration is
    agreed on while there are peers, and every operation in progress has calls, all of the shape of the first. *)
Theorem server_state_ok messages h h' s' out :
  serve (h, server_new, []) messages = Ok (h', s', out) -> server_ok s'.
Proof.
  assert (Hgen : forall s (acc : list (nat * Reply)) h, server_ok s -> serve (h, s, acc) messages = Ok (h', s', out) -> server_ok s').
  { induction messages as [|m messages IH]; intros s acc h0 Hok Hs; [by injection Hs as <- <- <-|].
    unfold serve in Hs. cbn [foldM] in Hs. apply bind_Ok in Hs as ([[h1 s1] out1] & Hone & Hs).
    unfold serve_one in Hone. apply bind_Ok in Hone as ([s2 more] & Hm & [= <- <- <-]).
    eapply IH; [|exact Hs]. by eapply process_message_ok. }
  apply Hgen, server_new_ok.
Qed.
End operations.

(** *** The theorems at two peers *)
Definition two_peers : LocalCollectiveServer :=
  mkServer (Some two_config) [7%nat; 3%nat] [] {[ 7%nat := 0%nat; 3%nat := 1%nat ]} None None None None.

Lemma two_peers_ok : server_ok two_peers.
Proof.
  split; cbn; try done.
  - by apply (bool_decide_unpack _); vm_compute.
  - by exists two_config.
  - by intros ? [= <-].
  - intros k Hk. repeat (apply elem_of_cons in Hk as [->|Hk]; [by eexists|]). by apply not_elem_of_nil in Hk.
Qed.

Definition two_tensors : CollectiveTensorMap :=
  mkMap 0 {[ 7%nat := mkVector 0 [1; 2]; 3%nat := mkVector 1 [10; 20] ]}.

Lemma all_reduce_strategies_agree_witness :
  exists out v, all_reduce_local_only 0 two_tensors Sum two_config = Ok out /\
    reduced [2] (map value (values two_tensors)) v /\
    forall k, option_Forall2 (fun t t' => float_device t' = float_device t /\ value t' = final Sum 2 v)
      (entries two_tensors !! k) (entries out !! k).
Proof.
  apply (all_reduce_strategies_agree [2] 0 two_tensors Sum two_config).
  - by apply (bool_decide_unpack _); vm_compute.
  - intros k t. cbn. rewrite lookup_insert_Some, lookup_singleton_Some.
    by intros [[_ <-]|[_ [_ <-]]].
  - cbn. lia.
Defined.

Lemma all_reduce_round_witness :
  let calls := [mkAllReduceCall 3%nat (mkVector 1 [10; 20]) 5; mkAllReduceCall 7%nat (mkVector 0 [1; 2]) 6] in
  exists replies v, serve (0%nat, two_peers, []) (map (all_reduce_message Mean) calls) = Ok (2%nat, two_peers, replies) /\
    reduced [2] [[10; 20]; [1; 2]] v /\ Forall2 (all_reduce_answer (final Mean 2 v)) calls replies.
Proof.
  intros calls. unshelve epose proof (all_reduce_round [2] 0 two_peers [] two_config Mean calls _ _ _ _ _ _ _ _) as Hround;
    [..|exact Hround].
  - exact two_peers_ok.
  - done.
  - done.
  - done.
  - cbn. constructor.
  - done.
  - by repeat constructor.
  - cbn. lia.
Defined.

Lemma reduce_round_witness :
  let calls := [mkReduceCall 7%nat (mkVector 0 [1; 2]) 5; mkReduceCall 3%nat (mkVector 1 [10; 20]) 6] in
  exists replies v, serve (0%nat, two_peers, []) (map (reduce_message Sum 3) calls) = Ok (2%nat, two_peers, replies) /\
    sums value_add [[1; 2]; [10; 20]] v /\ Forall2 (reduce_answer 3 (final Sum 2 v)) calls replies.
Proof.
  intros calls. unshelve epose proof (reduce_round [2] 0 two_peers [] two_config Sum 3 calls _ _ _ _ _ _ _ _) as Hround;
    [..|exact Hround].
  - exact two_peers_ok.
  - done.
  - done.
  - done.
  - done.
  - cbn. by right; left.
  - by repeat constructor.
  - cbn. lia.
Defined.

Lemma broadcast_round_witness :
  let calls := [mkBroadcastCall 7%nat 0%nat 5; mkBroadcastCall 3%nat 1%nat 6] in
  exists replies, serve (0%nat, two_peers, []) (map (broadcast_message 3 (mkVector 1 [4; 5])) calls) = Ok (2%nat, two_peers, replies) /\
    Forall2 (broadcast_answer [4; 5]) calls replies.
Proof.
  intros calls. unshelve epose proof (broadcast_round 0 two_peers [] two_config 3 (mkVector 1 [4; 5]) calls _ _ _ _ _ _ _ _ _) as Hround;
    [..|exact Hround].
  - exact two_peers_ok.
  - done.
  - done.
  - done.
  - done.
  - cbn. by right; left.
  - done.
  - by repeat constructor.
  - cbn. lia.
Defined.

(** A peer registers, then the server is reset; later both peers register and one calls. *)
Definition reset_messages : list Message :=
  [Register 7 0%nat two_config 1; Reset; Register 7 0%nat two_config 2; Register 3 1%nat two_config 3;
   AllReduce 7 (mkVector 0 [1; 2]) Sum 4].

Lemma callbacks_answered_once_witness :
  exists h s out, serve (0%nat, server_new, []) reset_messages = Ok (h, s, out) /\ NoDup (map fst out ++ held s).
Proof.
  destruct (serve (0%nat, server_new, []) reset_messages) as [[[h s] out]|e|] eqn:Hs.
  - exists h, s, out. split; [done|]. apply (callbacks_answered_once reset_messages 0 h s out Hs).
    by apply (bool_decide_unpack _); vm_compute.
  - destruct e.
  - exfalso. vm_compute in Hs. discriminate.
Defined.

Lemma server_state_ok_witness :
  exists h s out, serve (0%nat, server_new, []) reset_messages = Ok (h, s, out) /\ server_ok s.
Proof.
  destruct (serve (0%nat, server_new, []) reset_messages) as [[[h s] out]|e|] eqn:Hs.
  - exists h, s, out. split; [done|]. apply (server_state_ok reset_messages 0 h s out Hs).
  - destruct e.
  - exfalso. vm_compute in Hs. discriminate.
Defined.

(** A reset forgets the peers but keeps their callbacks: the registration before the reset is answered with those after it. *)
Lemma reset_keeps_callbacks :
  exists h s, serve (0%nat, server_new, []) (take 4 reset_messages) =
    Ok (h, s, [(1%nat, RegisterReply (inl tt)); (2%nat, RegisterReply (inl tt)); (3%nat, RegisterReply (inl tt))]).
Proof. eexists _, _. vm_compute. reflexivity. Qed.

(** A peer that calls twice for one all-reduce ends the server. *)
Lemma repeated_caller_panics :
  serve (0%nat, two_peers, []) [AllReduce 7 (mkVector 0 [1; 2]) Sum 5; AllReduce 7 (mkVector 0 [1; 2]) Sum 6] = Panic.
Proof. vm_compute. reflexivity. Qed.

(** ** Calls that do not match *)
Section mismatch.
Context `{FloatBackend, HashOrder, Network} `{!GlobalNode} `{Callbacks}.
Implicit Types s : LocalCollectiveServer.

(** How an all-reduce call can differ from the one in progress. *)
Definition all_reduce_mismatch (o : AllReduceOp) (tensor : Tensor) (op : ReduceOperation) : option CollectiveError :=
  if decide (ar_shape o = shape tensor) then if decide (ar_op o = op) then None else Some AllReduceOperationMismatch
  else Some AllReduceShapeMismatch.

Lemma find_all_missing (l : list nat) (reply : Reply) cb :
  cb ∉ l -> find (fun cr : nat * Reply => cr.1 =? cb)%nat (map (fun c => (c, reply)) l) = None.
Proof.
  induction l as [|c l IH]; [done|]. intros [Hne Hl]%not_elem_of_cons. cbn. rewrite (proj2 (Nat.eqb_neq _ _)) by congruence. by apply IH.
Qed.

(** C38: an all-reduce call whose shape or operation differs from the call in progress ends that operation: every peer
    that waits for it is answered with the mismatch.  The peer that made the call is not: its callback is dropped,
    and what it gets is that the server is missing. *)
Theorem all_reduce_mismatch_answers h s peer tensor op callback o err :
  peer ∈ peers s -> all_reduce_op s = Some o -> all_reduce_mismatch o tensor op = Some err ->
  Forall (fun call => receiving (ar_result_sender call) = true) (ar_calls o) -> callback ∉ held s ->
  exists s' out, process_message h s (AllReduce peer tensor op callback) = Ok (s', out) /\
    all_reduce_op s' = None /\
    out = map (fun call => (ar_result_sender call, AllReduceReply (inr err))) (ar_calls o) /\
    wait s' out callback = Missing LocalServerMissing.
Proof.
  intros Hp Ho Hm Hr Hfresh. cbn [process_message]. unfold process_all_reduce_message, registered.
  rewrite bool_decide_true by done. cbn [negb]. rewrite Ho. cbn [default].
  assert (Hreg : all_reduce_register_call o peer tensor callback op (length (peers (set_all_reduce s None))) = Err err).
  { unfold all_reduce_register_call. unfold all_reduce_mismatch in Hm.
    destruct (decide (ar_shape o = shape tensor)) as [Hs|Hs]; [rewrite bool_decide_true by done|rewrite bool_decide_false by done; by injection Hm as <-].
    destruct (decide (ar_op o = op)) as [|Hop]; [done|]. cbn [negb]. rewrite bool_decide_false by done. by injection Hm as <-. }
  cbv zeta. cbn [id] in *. rewrite Hreg. unfold all_reduce_fail. rewrite send_all_ok by by apply Forall_map.
  cbn [mbind outcome_bind]. eexists _, _. split; [done|]. split; [done|]. split; [done|].
  assert (Hheld : (callback ∉ map ar_result_sender (ar_calls o)) /\ (callback ∉ held (set_all_reduce s None))).
  { unfold held in Hfresh. rewrite Ho in Hfresh. cbn [from_option] in Hfresh. rewrite !not_elem_of_app in Hfresh.
    destruct Hfresh as (Hcr & Hcalls & Hrest). split; [exact Hcalls|]. unfold held. cbn. rewrite !not_elem_of_app. tauto. }
  destruct Hheld as [Hc Hh]. unfold wait.
  rewrite <- (map_map ar_result_sender (fun c => (c, AllReduceReply (inr err)))), find_all_missing by done.
  by rewrite bool_decide_false.
Qed.

(** A reduce is refused when the root is not registered here, whoever calls and whether or not there is a node. *)
Lemma reduce_foreign_root_refused h s peer tensor op root callback :
  root ∉ peers s -> receiving callback = true ->
  process_message h s (Reduce peer tensor op root callback) =
    Ok (s, [(callback, ReduceReply (inr RegisterNotFirstOperation))]).
Proof.
  intros Hroot Hr. cbn [process_message]. unfold process_reduce_message, registered. rewrite bool_decide_false by done.
  cbn [negb]. unfold answer. by rewrite send_ok.
Qed.

(** Whereas a caller that has not registered takes part. *)
Lemma reduce_unregistered_caller h s peer tensor op root callback :
  peer ∉ peers s -> root ∈ peers s -> (1 < length (peers s))%nat -> reduce_op s = None ->
  exists s', process_message h s (Reduce peer tensor op root callback) = Ok (s', []) /\
    reduce_op s' = Some (mkReduceOp [mkReduceCall peer tensor callback] op root (shape tensor)).
Proof.
  intros _ Hroot Hlen Hop. cbn [process_message]. unfold process_reduce_message, registered. rewrite bool_decide_true by done.
  cbn [negb]. rewrite Hop. cbn [default]. unfold reduce_register_call. cbn [ReduceOp_new re_shape re_op re_root re_calls app].
  rewrite !bool_decide_true, Nat.eqb_refl by done. cbn [negb length peers set_reduce].
  rewrite (proj2 (Nat.eqb_neq _ _)) by lia. by eexists.
Qed.
End mismatch.

Definition one_waits : AllReduceOp := mkAllReduceOp [mkAllReduceCall 7%nat (mkVector 0 [1; 2]) 5] Sum [2].
Definition longer : Tensor := mkVector 1 [1; 2; 3].

Lemma all_reduce_mismatch_answers_witness :
  let s := set_all_reduce two_peers (Some one_waits) in
  exists s' out, process_message 0 s (AllReduce 3 longer Sum 6) = Ok (s', out) /\
    out = [(5%nat, AllReduceReply (inr AllReduceShapeMismatch))] /\ wait s' out 6 = Missing LocalServerMissing.
Proof.
  intros s. destruct (all_reduce_mismatch_answers 0 s 3 longer Sum 6 one_waits AllReduceShapeMismatch) as (s' & out & Heq & _ & Hout & Hw).
  - cbn. by right; left.
  - done.
  - by vm_compute.
  - by repeat constructor.
  - apply (bool_decide_unpack _). by vm_compute.
  - by exists s', out.
Defined.

(** ** The depth of the trees *)
Section depth.
Context `{FloatLaws} {E : Type} (dims : list Z).

Lemma tree_groups_zero {A} (l : list A) : tree_groups 0 l = map (fun x => (x, [])) l.
Proof.
  unfold tree_groups. assert (Hgen : forall fuel (l : list A), (length l <= fuel)%nat -> groups_of fuel 0 l = map (fun x => (x, [])) l).
  { induction fuel as [|fuel IH]; intros [|x k] Hk; cbn in Hk |- *; [done|lia|done|]. rewrite drop_0, IH by lia. done. }
  by apply Hgen.
Qed.

Lemma reduce_arity_zero fuel tensors : (1 < length tensors)%nat -> reduce_sum_tree_inner (E:=E) fuel tensors 0 = Panic.
Proof.
  revert tensors. induction fuel as [|fuel IH]; intros tensors Hl; [done|]. cbn [reduce_sum_tree_inner].
  rewrite tree_groups_zero, map_map, length_map. rewrite (proj2 (Nat.ltb_lt _ _)) by done. apply IH. by rewrite length_map.
Qed.

(** C39: the recursion of the reduce tree ends, with a result, exactly if the arity is positive or there is only one
    tensor; with arity zero, which nothing rejects, it calls itself with as many parents as it was given. *)
Theorem reduce_tree_ends tensors arity :
  tensors <> [] -> Forall (fun t => shape t = dims) tensors ->
  (exists fuel t, reduce_sum_tree_inner (E:=E) fuel tensors arity = Ok t) <-> (0 < arity)%nat \/ length tensors = 1%nat.
Proof.
  intros Hne Hs. split.
  - intros (fuel & t & Ht). destruct arity as [|arity]; [right|left; lia].
    destruct (decide (1 < length tensors)%nat) as [Hl|Hl]; [by rewrite reduce_arity_zero in Ht|].
    destruct tensors; [done|]. cbn in *. lia.
  - intros [Ha|Hl].
    + destruct (reduce_inner_ok (E:=E) dims arity (length tensors) tensors) as (t & Ht & _); [done..|]. by exists (length tensors), t.
    + destruct tensors as [|t [|]]; [done| |done]. exists 1%nat, (sum_children t []). cbn.
      by destruct arity.
Qed.
End depth.

Lemma reduce_tree_ends_witness :
  ~ exists fuel t, reduce_sum_tree_inner (E:=CollectiveError) fuel [mkVector 0 [1]; mkVector 1 [2]] 0 = Ok t.
Proof.
  intros Hex. apply (reduce_tree_ends [1]) in Hex; [|done|by repeat constructor]. cbn in Hex. lia.
Defined.

(** ** The slices of the ring *)
Section slices.
Context {E : Type}.

Lemma concat_ranges (size : Z) n :
  0 <= size -> concat (map (fun i => seqZ (Z.of_nat i * size) size) (seq 0 n)) = seqZ 0 (Z.of_nat n * size).
Proof.
  intros Hs. induction n as [|n IH]; [done|]. rewrite seq_S, map_app, concat_app, IH. cbn [map concat Nat.add].
  rewrite app_nil_r. rewrite <- (seqZ_app 0) by lia. f_equal. lia.
Qed.

(** C37: the ranges in which the ring cuts a dimension cover it without gap or overlap, if the last of them does not
    start behind its end; if it does, some range is not in the dimension. *)
Theorem slice_ranges_partition d n :
  (0 < n)%nat -> 0 <= d -> d + Z.of_nat n <= 2 ^ usize_bits ->
  exists ranges, get_ring_reduce_slice_ranges (E:=E) d n = Ok ranges /\ length ranges = n /\
    (Forall (fun r => 0 <= r.1 <= r.2 /\ r.2 <= d) ranges <-> slices_fit d n) /\
    (slices_fit d n -> concat (map (fun r => seqZ r.1 (r.2 - r.1)) ranges) = seqZ 0 d).
Proof.
  intros Hn Hd Hmax. destruct (slice_size_bounds d n Hn Hd) as (Hs & Hb). eexists. split; [by apply get_ranges_ok|].
  split; [by rewrite length_map, length_seq|]. split.
  - split.
    + intros Hall. unfold slices_fit. rewrite Forall_map in Hall.
      assert (Hlast : (n - 1)%nat ∈ seq 0 n) by (apply elem_of_seq; lia).
      pose proof (proj1 (Forall_forall _ _) Hall _ Hlast) as Hr. unfold slice_range_at in Hr. rewrite Nat.eqb_refl in Hr. cbn in Hr. lia.
    + intros Hfit. apply Forall_map, Forall_forall. intros i Hi%elem_of_seq. apply slice_range_fits; (done || lia).
  - intros Hfit. assert (Hseq : seq 0 n = seq 0 (n - 1) ++ [(n - 1)%nat]).
    { replace n with (S (n - 1)) at 1 by lia. by rewrite seq_S. }
    rewrite Hseq, !map_app, concat_app, map_map. cbn [map concat]. rewrite app_nil_r.
    rewrite (map_ext_in _ (fun i => seqZ (Z.of_nat i * slice_size d n) (slice_size d n))).
    + rewrite concat_ranges by done. unfold slice_range_at. rewrite Nat.eqb_refl. cbn [fst snd]. unfold slices_fit in Hfit.
      rewrite <- (seqZ_app 0) by nia. f_equal. lia.
    + intros i Hi%in_seq. unfold slice_range_at. rewrite (proj2 (Nat.eqb_neq _ _)) by lia. cbn [fst snd]. f_equal. lia.
Qed.

(** Four slices of five elements: the third ends behind the dimension, the last one before it starts. *)
Lemma slice_ranges_overrun : get_ring_reduce_slice_ranges (E:=E) 5 4 = Ok [(0, 2); (2, 4); (4, 6); (6, 5)].
Proof. reflexivity. Qed.
End slices.

Lemma slice_ranges_partition_witness :
  exists ranges, get_ring_reduce_slice_ranges (E:=CollectiveError) 7 3 = Ok ranges /\
    concat (map (fun r => seqZ r.1 (r.2 - r.1)) ranges) = seqZ 0 7.
Proof.
  destruct (slice_ranges_partition (E:=CollectiveError) 7 3) as (ranges & Heq & _ & _ & Hpart); [lia..|].
  exists ranges. split; [done|]. apply Hpart. unfold slices_fit, slice_size. vm_compute. discriminate.
Defined.

(** A ring of four peers with five elements each ends in a panic of the backend. *)
Lemma ring_of_four_panics :
  all_reduce_sum_ring (E:=CollectiveError) 5 0 (mkMap 0 (list_to_map (map (fun k => (k, mkVector k [1; 2; 3; 4; 5])) (seq 0 4)))) = Panic.
Proof. vm_compute. reflexivity. Qed.
