(* ===== verification/Processes.v ===== *)
(** * Communicating processes

    Nodes and ranks run the same code at once, each waiting for what the others
    provide.  A process is a tree of its communications: what it posts, what it
    takes (and waits for), and the barriers it enters; between them it computes
    by itself.  A network is a list of processes and the mail between them, and
    any process that can go on may do so.

    The mail is any store in which the operations of different processes
    commute.  Then the order does not matter: if one schedule ends, all
    schedules end, after as many steps, in the same state. *)
From S2P Require Import Prelude.

(** ** Steps that commute *)
Section diamond.
Context {L S : Type} `{EqDecision L} (step : L -> S -> option S).

Inductive runs : list L -> S -> S -> Prop :=
  | runs_nil s : runs [] s s
  | runs_cons a l s t u : step a s = Some t -> runs l t u -> runs (a :: l) s u.

Definition final (s : S) : Prop := forall a, step a s = None.

Lemma runs_app l k s t u : runs l s t -> runs k t u -> runs (l ++ k) s u.
Proof. induction 1; [done|]. intros. econstructor; eauto. Qed.

Lemma runs_one a s t : step a s = Some t -> runs [a] s t.
Proof. intros. econstructor; [done|constructor]. Qed.

(** The state after a sequence of events, when all of them can happen. *)
Definition replay (l : list L) (s : S) : option S := foldl (fun s a => s ≫= step a) (Some s) l.

Lemma replay_stuck l : foldl (fun s a => s ≫= step a) None l = None.
Proof using Type. by induction l. Qed.

Lemma replay_runs l s t : replay l s = Some t -> runs l s t.
Proof using Type.
  unfold replay. revert s. induction l as [|a l IH]; intros s Hl; [injection Hl as ->; constructor|].
  change (foldl (fun s a => s ≫= step a) (step a s) l = Some t) in Hl.
  destruct (step a s) as [u|] eqn:Ha; [econstructor; [exact Ha|by apply IH]|]. by rewrite replay_stuck in Hl.
Qed.

Hypothesis diamond : forall a b s t u, a <> b -> step a s = Some t -> step b s = Some u ->
  exists v, step b t = Some v /\ step a u = Some v.

(** A step that a run could have begun with is made sooner or later. *)
Lemma runs_swap l s u a t : runs l s u -> final u -> step a s = Some t -> exists k, a :: k ≡ₚ l /\ runs k t u.
Proof using All.
  intros Hl Hu. revert t. induction Hl as [s|b l s s1 u Hb Hl IH]; intros t Ha; [by rewrite Hu in Ha|].
  destruct (decide (a = b)) as [->|Hne].
  - assert (s1 = t) as -> by congruence. by exists l.
  - destruct (diamond a b s t s1 Hne Ha Hb) as (v & Hbt & Has). destruct (IH Hu v Has) as (k & Hk & Hr).
    exists (b :: k). split; [by rewrite Permutation_swap, Hk|]. by econstructor.
Qed.

(** One schedule that ends stands for all. *)
Theorem one_schedule l m s u t : runs l s u -> final u -> runs m s t -> exists k, m ++ k ≡ₚ l /\ runs k t u.
Proof using All.
  intros Hl Hu Hm. revert l Hl. induction Hm as [s|a m s t v Ha Hm IH]; intros l Hl; [by exists l|].
  destruct (runs_swap l s u a t Hl Hu Ha) as (k & Hk & Hr). destruct (IH k Hr) as (j & Hj & Hf).
  exists j. split; [|done]. cbn. by rewrite Hj.
Qed.
End diamond.

(** ** Mail

    [post_mail] puts something out, [take_mail] waits until something is there; [Out]
    and [In] say what and where. *)
Class Mail := {
  Out : Type;
  In : Type;
  Message : Type;
  Store : Type;
  post_mail : nat -> Out -> Store -> Store;
  take_mail : nat -> In -> Store -> option (Message * Store);
}.

Class MailLaws (M : Mail) := {
  post_post p q o o' s : p <> q -> post_mail p o (post_mail q o' s) = post_mail q o' (post_mail p o s);
  take_post p q i o s m s' : p <> q -> take_mail p i s = Some (m, s') -> take_mail p i (post_mail q o s) = Some (m, post_mail q o s');
  take_take p q i j s m n s1 s2 : p <> q -> take_mail p i s = Some (m, s1) -> take_mail q j s = Some (n, s2) ->
    exists s', take_mail q j s1 = Some (n, s') /\ take_mail p i s2 = Some (m, s');
}.

(** ** Processes *)
Section processes.
Context `{M : Mail}.

Inductive process (R : Type) : Type :=
  | Return (r : R)
  | Post (o : Out) (k : process R)
  | Take (i : In) (k : Message -> process R)
  | Sync (k : process R).

Definition program (E A : Type) : Type := process (outcome E A).
End processes.
Arguments Return {M R} r.
Arguments Post {M R} o k.
Arguments Take {M R} i k.
Arguments Sync {M R} k.

Section programs.
Context `{M : Mail} {E : Type}.

Fixpoint program_bind {A B} (f : A -> program E B) (m : program E A) : program E B :=
  match m with
  | Return (Ok a) => f a
  | Return (Err e) => Return (Err e)
  | Return Panic => Return Panic
  | Post o k => Post o (program_bind f k)
  | Take i k => Take i (fun x => program_bind f (k x))
  | Sync k => Sync (program_bind f k)
  end.

#[export] Instance program_mbind : MBind (program E) := fun A B f m => program_bind f m.
#[export] Instance program_mret : MRet (program E) := fun A a => Return (Ok a).

Definition lift {A} (m : outcome E A) : program E A := Return m.
Definition put_out (o : Out) : program E unit := Post o (Return (Ok tt)).
Definition wait_for (i : In) : program E Message := Take i (fun m => Return (Ok m)).
Definition barrier : program E unit := Sync (Return (Ok tt)).

(** A loop whose body communicates. *)
Fixpoint loop {A S} (f : S -> A -> program E S) (s : S) (l : list A) : program E S :=
  match l with
  | [] => Return (Ok s)
  | x :: l' => s' ← f s x; loop f s' l'
  end.
End programs.

(** ** Networks *)
Section networks.
Context `{ML : MailLaws} {R : Type}.

Record network := mkNetwork { processes : list (process R); mail : Store }.

Definition go (p : nat) (x : process R) (s : Store) : option (process R * Store) :=
  match x with
  | Post o k => Some (k, post_mail p o s)
  | Take i k => '(m, s') ← take_mail p i s; Some (k m, s')
  | _ => None
  end.

Definition leave_barrier (x : process R) : option (process R) := if x is Sync k then Some k else None.

(** A step of one process, or of all when all are at the barrier. *)
Definition network_step (a : option nat) (n : network) : option network :=
  match a with
  | Some p =>
      x ← processes n !! p;
      '(y, s) ← go p x (mail n);
      Some (mkNetwork (<[p := y]> (processes n)) s)
  | None =>
      if (length (processes n) =? 0)%nat then None
      else ys ← mapM leave_barrier (processes n); Some (mkNetwork ys (mail n))
  end.

Lemma network_step_go p n x y s : processes n !! p = Some x -> go p x (mail n) = Some (y, s) ->
  network_step (Some p) n = Some (mkNetwork (<[p := y]> (processes n)) s).
Proof using Type. intros Hx Hgo. cbn. rewrite Hx. cbn. by rewrite Hgo. Qed.

Lemma network_step_inv p n n' : network_step (Some p) n = Some n' ->
  exists x y s, processes n !! p = Some x /\ go p x (mail n) = Some (y, s) /\ n' = mkNetwork (<[p := y]> (processes n)) s.
Proof using Type.
  cbn. destruct (processes n !! p) as [x|] eqn:Hx; [|done]. cbn. destruct (go p x (mail n)) as [[y s]|] eqn:Hgo; [|done].
  intros [= <-]. by exists x, y, s.
Qed.

Lemma go_diamond p q x y s x' y' s1 s2 : p <> q -> go p x s = Some (x', s1) -> go q y s = Some (y', s2) ->
  exists s', go q y s1 = Some (y', s') /\ go p x s2 = Some (x', s').
Proof using ML.
  intros Hpq. destruct x as [|o k|i k|]; [done| | |done]; destruct y as [|o' k'|i' k'|]; try done; cbn.
  - intros [= <- <-] [= <- <-]. eexists. split; [done|]. by rewrite post_post.
  - intros [= <- <-]. destruct (take_mail q i' s) as [[m t]|] eqn:Ht; [|done]. intros [= <- <-].
    exists (post_mail p o t). split; [|done]. by rewrite (take_post _ _ _ _ _ _ _ (not_eq_sym Hpq) Ht).
  - destruct (take_mail p i s) as [[m t]|] eqn:Ht; [|done]. intros [= <- <-] [= <- <-].
    exists (post_mail q o' t). split; [done|]. by rewrite (take_post _ _ _ _ _ _ _ Hpq Ht).
  - destruct (take_mail p i s) as [[m t]|] eqn:Ht; [|done]. intros [= <- <-].
    destruct (take_mail q i' s) as [[m' t']|] eqn:Ht'; [|done]. intros [= <- <-].
    destruct (take_take _ _ _ _ _ _ _ _ _ Hpq Ht Ht') as (s' & H1 & H2). exists s'. by rewrite H1, H2.
Qed.

Lemma barrier_alone p n n' : network_step (Some p) n = Some n' -> network_step None n = None.
Proof using M.
  unfold network_step. intros Hs. destruct (_ =? _)%nat; [done|].
  destruct (mapM leave_barrier (processes n)) as [ys|] eqn:Hm; [|done]. exfalso.
  apply mapM_Some, Forall2_lookup with (i := p) in Hm.
  destruct (processes n !! p) as [x|] eqn:Hx; [|done]. cbn in Hs. inversion Hm as [? z Hz|]; subst. by destruct x.
Qed.

Lemma network_diamond a b n n1 n2 : a <> b -> network_step a n = Some n1 -> network_step b n = Some n2 ->
  exists n3, network_step b n1 = Some n3 /\ network_step a n2 = Some n3.
Proof using ML.
  intros Hab. destruct a as [p|], b as [q|]; [| | |done].
  2:{ intros Ha%barrier_alone Hb. congruence. }
  2:{ intros Ha Hb%barrier_alone. congruence. }
  assert (Hpq : p <> q) by congruence. cbn.
  destruct (processes n !! p) as [x|] eqn:Hx; [|done]. cbn. destruct (go p x (mail n)) as [[x' s1]|] eqn:H1; [|done].
  intros [= <-]. destruct (processes n !! q) as [y|] eqn:Hy; [|done]. cbn.
  destruct (go q y (mail n)) as [[y' s2]|] eqn:H2; [|done]. intros [= <-].
  destruct (go_diamond p q x y (mail n) x' y' s1 s2 Hpq H1 H2) as (s' & Hq & Hp). cbn.
  rewrite !list_lookup_insert_ne by done. rewrite Hx, Hy. cbn. rewrite Hq, Hp. cbn. eexists. split; [done|].
  by rewrite list_insert_insert_ne.
Qed.

Abbreviation network_runs := (runs network_step).
Abbreviation network_final := (final network_step).

(** Whatever the order of the steps, the network ends as it does in one order. *)
Definition ends_in (n n' : network) : Prop :=
  network_final n' /\ exists steps, forall l t, network_runs l n t -> exists k, (length l + length k)%nat = steps /\ network_runs k t n'.

Lemma schedule_suffices l n n' : network_runs l n n' -> network_final n' -> ends_in n n'.
Proof using ML.
  intros Hl Hf. split; [done|]. exists (length l). intros m t Hm.
  destruct (one_schedule network_step network_diamond l m n n' t Hl Hf Hm) as (k & Hk & Hr).
  exists k. split; [|done]. rewrite <- length_app. by apply Permutation_length.
Qed.

Lemma returned_final (rs : list R) s : network_final (mkNetwork (map Return rs) s).
Proof using M.
  intros [p|]; cbn.
  - rewrite list_lookup_fmap. by destruct (rs !! p).
  - by destruct rs; cbn.
Qed.

(** *** One process goes on by itself *)
Inductive alone (p : nat) : process R -> Store -> process R -> Store -> Prop :=
  | alone_done x s : alone p x s x s
  | alone_step x s y s1 z s2 : go p x s = Some (y, s1) -> alone p y s1 z s2 -> alone p x s z s2.

Lemma alone_trans p x s y s1 z s2 : alone p x s y s1 -> alone p y s1 z s2 -> alone p x s z s2.
Proof using Type. induction 1; [done|]. intros. econstructor; eauto. Qed.

Lemma alone_runs p l x s y s' : l !! p = Some x -> alone p x s y s' ->
  exists m, network_runs m (mkNetwork l s) (mkNetwork (<[p := y]> l) s').
Proof using Type.
  intros Hp Ha. revert l Hp. induction Ha as [x s|x s y s1 z s2 Hgo Ha IH]; intros l Hp.
  - exists []. rewrite list_insert_id by done. constructor.
  - destruct (IH (<[p := y]> l)) as [m Hm]; [apply list_lookup_insert_eq; by eapply lookup_lt_Some|].
    rewrite list_insert_insert_eq in Hm. exists (Some p :: m). econstructor; [|exact Hm]. cbn. rewrite Hp. cbn. by rewrite Hgo.
Qed.

(** Each process in turn goes on by itself. *)
Lemma sweep_runs n (x y : nat -> process R) (s : nat -> Store) :
  (forall i, (i < n)%nat -> alone i (x i) (s i) (y i) (s (S i))) ->
  exists l, network_runs l (mkNetwork (map x (seq 0 n)) (s 0%nat)) (mkNetwork (map y (seq 0 n)) (s n)).
Proof using Type.
  intros Halone.
  assert (Hgen : forall m, (m <= n)%nat ->
    exists l, network_runs l (mkNetwork (map x (seq 0 n)) (s 0%nat)) (mkNetwork (map y (seq 0 m) ++ map x (seq m (n - m))) (s m))).
  { induction m as [|m IH]; intros Hm.
    - exists []. rewrite Nat.sub_0_r. constructor.
    - destruct IH as [l Hl]; [lia|].
      destruct (alone_runs m (map y (seq 0 m) ++ map x (seq m (n - m))) (x m) (s m) (y m) (s (S m))) as [l' Hl'].
      + rewrite lookup_app_r; rewrite length_map, length_seq; [|lia]. rewrite Nat.sub_diag. by replace (n - m)%nat with (S (n - S m)) by lia.
      + by apply Halone.
      + exists (l ++ l'). eapply runs_app; [exact Hl|].
        rewrite insert_app_r_alt in Hl' by (rewrite length_map, length_seq; lia).
        rewrite length_map, length_seq, Nat.sub_diag in Hl'. replace (n - m)%nat with (S (n - S m)) in Hl' |- * by lia.
        rewrite (seq_S m 0), map_app, <- app_assoc. exact Hl'. }
  destruct (Hgen n) as [l Hl]; [lia|]. exists l. by rewrite Nat.sub_diag, app_nil_r in Hl.
Qed.

(** All leave the barrier together. *)
Lemma barrier_runs (ks : list (process R)) s : ks <> [] ->
  network_runs [None] (mkNetwork (map Sync ks) s) (mkNetwork ks s).
Proof using M.
  intros Hk. apply runs_one. cbn. rewrite length_map. destruct (Nat.eqb_spec (length ks) 0) as [Hl|_]; [by destruct ks|].
  assert (mapM leave_barrier (map Sync ks) = Some ks) as ->; [|done].
  apply mapM_Some, Forall2_fmap_l, Forall_Forall2_diag. by apply Forall_true.
Qed.
End networks.

(** *** Programs that go on by themselves *)
Section alone.
Context `{M : Mail} {E : Type}.

Lemma go_bind {A B} p (m m' : program E A) (f : A -> program E B) s s' :
  go p m s = Some (m', s') -> go p (m ≫= f) s = Some (m' ≫= f, s').
Proof.
  destruct m as [r|o k|i k|k]; cbn; [done| | |done].
  - by intros [= <- <-].
  - destruct (take_mail p i s) as [[x t]|]; [|done]. by intros [= <- <-].
Qed.

Lemma alone_bind {A B} p (m : program E A) (f : A -> program E B) s y s' :
  alone p m s y s' -> alone p (m ≫= f) s (y ≫= f) s'.
Proof. induction 1 as [x s|x s y s1 z s2 Hgo _ IH]; [constructor|]. econstructor; [by apply go_bind|done]. Qed.

(** What is run first returns; the rest goes on with its value. *)
Lemma alone_then {A B} p (m : program E A) (f : A -> program E B) s a s1 z s2 :
  alone p m s (Return (Ok a)) s1 -> alone p (f a) s1 z s2 -> alone p (m ≫= f) s z s2.
Proof. intros Hm Hf. eapply alone_trans; [by apply alone_bind|]. done. Qed.

Lemma alone_post p (o : Out) s : alone (R:=outcome E unit) p (put_out o) s (Return (Ok tt)) (post_mail p o s).
Proof. econstructor; [done|constructor]. Qed.

Lemma alone_take p (i : In) s m s' : take_mail p i s = Some (m, s') -> alone (R:=outcome E Message) p (wait_for i) s (Return (Ok m)) s'.
Proof. intros Ht. econstructor; [cbn; by rewrite Ht|constructor]. Qed.

Lemma lift_bind {A B} (a : A) (f : A -> program E B) (m : outcome E A) : m = Ok a -> (lift m ≫= f) = f a.
Proof. by intros ->. Qed.

(** What processes do before they go on as [F] says does not depend on [F]. *)
Definition then_do {A B} (F : nat -> A -> program E B) (n : @network M (outcome E A)) : @network M (outcome E B) :=
  mkNetwork (imap (fun i m => m ≫= F i) (processes n)) (mail n).

Lemma then_do_seq {A B} (F : nat -> A -> program E B) (x : nat -> program E A) n s :
  then_do F (mkNetwork (map x (seq 0 n)) s) = mkNetwork (map (fun i => x i ≫= F i) (seq 0 n)) s.
Proof.
  unfold then_do. cbn [processes mail]. f_equal. apply list_eq. intros i. rewrite list_lookup_imap, !list_lookup_fmap.
  destruct (decide (i < n)%nat); [by rewrite lookup_seq_lt|by rewrite lookup_seq_ge by lia].
Qed.

Lemma step_bind {A B} (F : nat -> A -> program E B) a n n' : network_step a n = Some n' -> network_step a (then_do F n) = Some (then_do F n').
Proof.
  destruct a as [p|].
  - intros (x & y & s & Hx & Hgo & ->)%network_step_inv.
    rewrite (network_step_go p (then_do F n) (x ≫= F p) (y ≫= F p) s); [|unfold then_do; cbn [processes]; rewrite list_lookup_imap; apply fmap_Some; by exists x|by apply go_bind].
    unfold then_do. cbn [processes mail]. do 2 f_equal.
    apply list_eq. intros q. rewrite list_lookup_imap. destruct (decide (q = p)) as [->|Hne].
    + apply lookup_lt_Some in Hx. by rewrite !list_lookup_insert_eq by (rewrite ?length_imap; done).
    + by rewrite !list_lookup_insert_ne, list_lookup_imap by done.
  - unfold network_step, then_do. cbn [processes mail]. rewrite length_imap. destruct (_ =? _)%nat; [done|].
    destruct (mapM leave_barrier (processes n)) as [ys|] eqn:Hys; [|done]. intros [= <-]. cbn [processes mail].
    apply mapM_Some in Hys. assert (mapM leave_barrier (imap (fun i m => m ≫= F i) (processes n)) = Some (imap (fun i m => m ≫= F i) ys)) as ->; [|done].
    apply mapM_Some, Forall2_same_length_lookup_2.
    + rewrite !length_imap. by eapply Forall2_length.
    + intros i x y. rewrite !list_lookup_imap. intros (x' & Hx & ->)%fmap_Some (y' & Hy & ->)%fmap_Some.
      pose proof (Forall2_lookup_lr _ _ _ _ _ _ Hys Hx Hy) as Hxy. destruct x'; try done. by injection Hxy as <-.
Qed.

Lemma runs_bind {A B} (F : nat -> A -> program E B) l n n' :
  runs network_step l n n' -> runs network_step l (then_do F n) (then_do F n').
Proof. induction 1; [constructor|]. econstructor; [by apply step_bind|done]. Qed.
End alone.
Arguments network {M} R.
Arguments mkNetwork {M R} _ _.
