(* ===== verification/Orchestrator.v ===== *)
(** * The global orchestrator: src/src/global/orchestrator

    One state behind a lock: the nodes of a group register, agree on each
    collective before any data moves, and leave.  A handler answers sessions by
    putting responses in their queues of 64 places; a response to a session that
    is gone, or whose queue is full, is dropped.  The sockets deliver the events
    of [Event] in any order.

    Hash maps are finite maps; where the code takes the first entry that fits, in
    the order of a map, the order is that of [HashOrder]. *)
From S2P Require Import Prelude FloatBackend CollectiveConfig.

(** Types of elements, of the tensor crate. *)
Class ElementTypes := {
  DType : Type;
  DType_eq_dec :: EqDecision DType;
}.

Abbreviation SessionId := nat.
Abbreviation RequestId := nat.
Abbreviation NodeId := nat.

Section orchestrator.
Context `{HashOrder, Network, ElementTypes}.

Inductive CollectiveSpec :=
  | SpecAllReduce (op : ReduceOperation) (strategy : AllReduceStrategy) (shape : list Z) (dtype : DType)
  | SpecReduce (root : PeerId) (op : ReduceOperation) (strategy : ReduceStrategy) (shape : list Z) (dtype : DType)
  | SpecBroadcast (strategy : BroadcastStrategy) (metadata : option (list Z * DType)).
#[export] Instance CollectiveSpec_eq_dec : EqDecision CollectiveSpec.
Proof. solve_decision. Defined.

Inductive RemoteRequest :=
  | RequestRegister (node_addr : Address) (num_nodes : nat) (peers : list PeerId)
  | RequestBegin (spec : CollectiveSpec)
  | RequestFinish.

Inductive RemoteResponse :=
  | ResponseRegister (node_id : NodeId) (nodes : gmap NodeId Address) (num_global_devices : Z)
  | ResponseBegin (root_node : NodeId) (transfer_id : Z)
  | ResponseFinishAck
  | ResponseError (e : GlobalCollectiveError).

Record CollectiveMessageResponse := mkResponse { response_request : RequestId; response_content : RemoteResponse }.

(** A queue of responses and whether its receiver has not been handed out. *)
Record Session := mkSession { session_queue : list CollectiveMessageResponse; session_receiver : bool }.

Record GlobalCollectiveState := mkState {
  registered_nodes : gmap SessionId NodeId;
  node_addresses : gmap NodeId Address;
  node_peers : gmap NodeId (list PeerId);
  cur_num_nodes : option nat;
  num_global_peers : Z;
  register_requests : list (SessionId * RequestId * NodeId);
  sessions : gmap SessionId Session;
  pending_collectives : list (SessionId * RequestId * CollectiveSpec);
  next_transfer_id : Z;
  next_node_id : Z;
  failed : option GlobalCollectiveError;
}.

Definition state_new : GlobalCollectiveState := mkState ∅ ∅ ∅ None 0 [] ∅ [] 2 0 None.

Implicit Types s : GlobalCollectiveState.

(** *** Changes of one field *)
Definition set_registered s x := mkState x (node_addresses s) (node_peers s) (cur_num_nodes s) (num_global_peers s) (register_requests s) (sessions s) (pending_collectives s) (next_transfer_id s) (next_node_id s) (failed s).
Definition set_addresses s x := mkState (registered_nodes s) x (node_peers s) (cur_num_nodes s) (num_global_peers s) (register_requests s) (sessions s) (pending_collectives s) (next_transfer_id s) (next_node_id s) (failed s).
Definition set_node_peers s x := mkState (registered_nodes s) (node_addresses s) x (cur_num_nodes s) (num_global_peers s) (register_requests s) (sessions s) (pending_collectives s) (next_transfer_id s) (next_node_id s) (failed s).
Definition set_num_nodes s x := mkState (registered_nodes s) (node_addresses s) (node_peers s) x (num_global_peers s) (register_requests s) (sessions s) (pending_collectives s) (next_transfer_id s) (next_node_id s) (failed s).
Definition set_global_peers s x := mkState (registered_nodes s) (node_addresses s) (node_peers s) (cur_num_nodes s) x (register_requests s) (sessions s) (pending_collectives s) (next_transfer_id s) (next_node_id s) (failed s).
Definition set_register_requests s x := mkState (registered_nodes s) (node_addresses s) (node_peers s) (cur_num_nodes s) (num_global_peers s) x (sessions s) (pending_collectives s) (next_transfer_id s) (next_node_id s) (failed s).
Definition set_sessions s x := mkState (registered_nodes s) (node_addresses s) (node_peers s) (cur_num_nodes s) (num_global_peers s) (register_requests s) x (pending_collectives s) (next_transfer_id s) (next_node_id s) (failed s).
Definition set_pending s x := mkState (registered_nodes s) (node_addresses s) (node_peers s) (cur_num_nodes s) (num_global_peers s) (register_requests s) (sessions s) x (next_transfer_id s) (next_node_id s) (failed s).
Definition set_transfer_id s x := mkState (registered_nodes s) (node_addresses s) (node_peers s) (cur_num_nodes s) (num_global_peers s) (register_requests s) (sessions s) (pending_collectives s) x (next_node_id s) (failed s).
Definition set_node_id s x := mkState (registered_nodes s) (node_addresses s) (node_peers s) (cur_num_nodes s) (num_global_peers s) (register_requests s) (sessions s) (pending_collectives s) (next_transfer_id s) x (failed s).
Definition set_failed s x := mkState (registered_nodes s) (node_addresses s) (node_peers s) (cur_num_nodes s) (num_global_peers s) (register_requests s) (sessions s) (pending_collectives s) (next_transfer_id s) (next_node_id s) x.

(** *** Sessions *)
Definition Session_new : Session := mkSession [] true.

Definition session_respond (session : Session) (response : CollectiveMessageResponse) : Session :=
  if (length (session_queue session) <? 64)%nat
  then mkSession (session_queue session ++ [response]) (session_receiver session) else session.

Definition init_session s (id : SessionId) : GlobalCollectiveState :=
  if sessions s !! id is Some _ then s else set_sessions s (<[id := Session_new]> (sessions s)).

Definition get_session_responder s (id : SessionId) : outcome GlobalCollectiveError GlobalCollectiveState :=
  let s := init_session s id in
  session ← expect (sessions s !! id);
  if session_receiver session
  then Ok (set_sessions s (<[id := mkSession (session_queue session) false]> (sessions s)))
  else Err InvalidMessage.

Definition respond s (session_id : SessionId) (response : CollectiveMessageResponse) : GlobalCollectiveState :=
  match sessions s !! session_id with
  | Some session => set_sessions s (<[session_id := session_respond session response]> (sessions s))
  | None => s
  end.

(** One response to each of the requests that wait. *)
Definition respond_to {A} (content : RemoteResponse) s (waiting : SessionId * RequestId * A) : GlobalCollectiveState :=
  respond s waiting.1.1 (mkResponse waiting.1.2 content).

(** *** The end of a membership *)
Definition count_peers (node_peers : gmap NodeId (list PeerId)) : outcome Empty_set Z :=
  foldM (fun total p => arith 32 (total + wrap 32 (Zlen p.2))) 0 (map_to_list node_peers).

Definition fail_pending s (error : GlobalCollectiveError) : GlobalCollectiveState :=
  foldl (respond_to (ResponseError error)) (set_pending s []) (pending_collectives s).
Definition fail_registers s (error : GlobalCollectiveError) : GlobalCollectiveState :=
  foldl (respond_to (ResponseError error)) (set_register_requests s []) (register_requests s).

(** The last node that leaves leaves a fresh group. *)
Definition clear_if_empty s : GlobalCollectiveState :=
  if (base.size (registered_nodes s) =? 0)%nat then set_failed (set_node_id (set_num_nodes s None) 0) None else s.

Definition disconnect s (session_id : SessionId) : outcome Empty_set GlobalCollectiveState :=
  s ← match registered_nodes s !! session_id with
    | Some node =>
        let peers := delete node (node_peers s) in
        num ← count_peers peers;
        let s := set_global_peers (set_node_peers (set_addresses (set_registered s (delete session_id (registered_nodes s)))
                   (delete node (node_addresses s))) peers) num in
        let error := PeerLost node in
        Ok (fail_registers (fail_pending (set_failed s (Some error)) error) error)
    | None => Ok s
    end;
  Ok (clear_if_empty (set_sessions s (delete session_id (sessions s)))).

Definition finish s (session_id : SessionId) (request_id : RequestId) :
    outcome Empty_set (GlobalCollectiveState * option GlobalCollectiveError) :=
  match registered_nodes s !! session_id with
  | None => Ok (s, Some NotRegisteredOnFinish)
  | Some node_id =>
      let s := set_registered s (delete session_id (registered_nodes s)) in
      let s := set_failed s (Some (PeerLost node_id)) in
      let peers := delete node_id (node_peers s) in
      num ← count_peers peers;
      let s := set_global_peers (set_node_peers (set_addresses s (delete node_id (node_addresses s))) peers) num in
      let s := clear_if_empty (fail_pending s (PeerLost node_id)) in
      let s := fail_registers s (PeerLost node_id) in
      Ok (respond s session_id (mkResponse request_id ResponseFinishAck), None)
  end.

(** *** Registration *)
Definition any_value {A} (f : A -> bool) (m : gmap nat A) : bool := existsb (fun e => f e.2) (map_to_list m).

(** The first peer that is named twice, here or by another node. *)
Fixpoint duplicate_peer (seen : list PeerId) (others : gmap NodeId (list PeerId)) (peers : list PeerId) : option PeerId :=
  match peers with
  | [] => None
  | peer :: peers =>
      if bool_decide (peer ∈ seen) || any_value (fun p => bool_decide (peer ∈ p)) others then Some peer
      else duplicate_peer (peer :: seen) others peers
  end.

(** What is checked before anything changes; the address is one of the values. *)
Definition register_error s (session_id : SessionId) (node_addr : Address) (num_nodes : nat) (peers : list PeerId) :
    option GlobalCollectiveError :=
  if (num_nodes =? 0)%nat || (length peers =? 0)%nat then Some GlobalRegisterParamsMismatch
  else if bool_decide (is_Some (registered_nodes s !! session_id))
       || any_value (fun address => bool_decide (address = node_addr)) (node_addresses s) then Some DoubleRegister
  else if negb (base.size (registered_nodes s) =? 0)%nat && (length (register_requests s) =? 0)%nat
  then Some GlobalRegisterParamsMismatch
  else
    match duplicate_peer [] (node_peers s) peers with
    | Some peer => Some (DuplicatePeer peer)
    | None =>
        match cur_num_nodes s with
        | Some cur_num_nodes => if (cur_num_nodes =? num_nodes)%nat then None else Some GlobalRegisterParamsMismatch
        | None => None
        end
    end.

Definition answer_registration s (waiting : SessionId * RequestId * NodeId) : GlobalCollectiveState :=
  respond s waiting.1.1 (mkResponse waiting.1.2 (ResponseRegister waiting.2 (node_addresses s) (num_global_peers s))).

Definition register s (session_id : SessionId) (request_id : RequestId) (node_addr : Address) (num_nodes : nat)
    (peers : list PeerId) : outcome Empty_set (GlobalCollectiveState * option GlobalCollectiveError) :=
  match register_error s session_id node_addr num_nodes peers with
  | Some error => Ok (s, Some error)
  | None =>
      let s := if cur_num_nodes s is Some _ then s else set_num_nodes s (Some num_nodes) in
      num ← arith 32 (num_global_peers s + wrap 32 (Zlen peers));
      let s := set_global_peers s num in
      let node_id := Z.to_nat (next_node_id s) in
      next ← arith 32 (next_node_id s + 1);
      let s := set_registered (set_node_id s next) (<[session_id := node_id]> (registered_nodes s)) in
      if any_value (fun addr => bool_decide (node_addr = addr)) (node_addresses s) then Ok (s, Some DoubleRegister)
      else
        let s := set_node_peers (set_addresses s (<[node_id := node_addr]> (node_addresses s)))
                   (<[node_id := peers]> (node_peers s)) in
        let s := set_register_requests s (register_requests s ++ [(session_id, request_id, node_id)]) in
        if (base.size (registered_nodes s) =? num_nodes)%nat
        then Ok (foldl answer_registration (set_register_requests s []) (register_requests s), None)
        else Ok (s, None)
  end.

(** *** Agreement on a collective *)
Definition min_key (m : gmap NodeId (list PeerId)) : option NodeId :=
  match map fst (map_to_list m) with
  | [] => None
  | n :: ns => Some (foldr Nat.min n ns)
  end.

Definition peer_node (h : nat) (root : PeerId) (peers : gmap NodeId (list PeerId)) : option NodeId :=
  fst <$> find (fun e => bool_decide (root ∈ e.2)) (iterate h peers).

(** The loop over the calls of a broadcast: the node that has brought a tensor so far. *)
Definition broadcast_source (strategy : BroadcastStrategy) (source : option NodeId) (call : NodeId * CollectiveSpec) :
    outcome GlobalCollectiveError (option NodeId) :=
  match call.2 with
  | SpecBroadcast other metadata =>
      if decide (strategy = other) then
        match metadata, source with
        | Some _, Some _ => Err GlobalBroadcastMultipleTensors
        | Some _, None => Ok (Some call.1)
        | None, _ => Ok source
        end
      else Err CollectiveParamsMismatch
  | _ => Err CollectiveParamsMismatch
  end.

Definition agree_collective (h : nat) (specs : list (NodeId * CollectiveSpec)) (peers : gmap NodeId (list PeerId)) :
    outcome GlobalCollectiveError NodeId :=
  first ← ok_or (head specs) CollectiveParamsMismatch;
  let differs := existsb (fun call => negb (bool_decide (call.2 = first.2))) specs in
  match first.2 with
  | SpecAllReduce _ strategy _ _ =>
      _ ← fail_if differs CollectiveParamsMismatch;
      _ ← fail_if (bool_decide (strategy = AllReduceTree 0)) InvalidTreeArity;
      ok_or (min_key peers) CollectiveBeforeRegister
  | SpecReduce root _ strategy _ _ =>
      _ ← fail_if differs CollectiveParamsMismatch;
      _ ← fail_if (bool_decide (strategy = ReduceTree 0)) InvalidTreeArity;
      ok_or (peer_node h root peers) (UnknownRoot root)
  | SpecBroadcast strategy _ =>
      _ ← fail_if (bool_decide (strategy = BroadcastTree 0)) InvalidTreeArity;
      source ← foldM (broadcast_source strategy) None specs;
      ok_or source GlobalBroadcastNoTensor
  end.

Definition begin_error s (session : SessionId) : option GlobalCollectiveError :=
  if negb (bool_decide (is_Some (registered_nodes s !! session)))
     || negb (length (register_requests s) =? 0)%nat
     || negb (base.size (registered_nodes s) =? default 0%nat (cur_num_nodes s))%nat
  then Some CollectiveBeforeRegister
  else if existsb (fun p => p.1.1 =? session)%nat (pending_collectives s) then Some CollectiveParamsMismatch
  else None.

(** The calls of a collective with the nodes that made them. *)
Definition node_spec s (call : SessionId * RequestId * CollectiveSpec) : outcome Empty_set (NodeId * CollectiveSpec) :=
  node ← expect (registered_nodes s !! call.1.1);
  Ok (node, call.2).

Definition begin (h : nat) s (session : SessionId) (request : RequestId) (spec : CollectiveSpec) :
    outcome Empty_set (GlobalCollectiveState * option GlobalCollectiveError) :=
  match begin_error s session with
  | Some error => Ok (s, Some error)
  | None =>
      let s := set_pending s (pending_collectives s ++ [(session, request, spec)]) in
      if negb (length (pending_collectives s) =? base.size (registered_nodes s))%nat then Ok (s, None)
      else
        let requests := pending_collectives s in
        let s := set_pending s [] in
        specs ← mapM (node_spec s) requests;
        '(s, content) ← match agree_collective h specs (node_peers s) with
          | Ok root_node =>
              let transfer_id := next_transfer_id s in
              next ← arith 64 (transfer_id + 1);
              Ok (set_transfer_id s next, ResponseBegin root_node transfer_id)
          | Err error => Ok (s, ResponseError error)
          | Panic => Panic
          end;
        Ok (foldl (respond_to content) s requests, None)
  end.

(** *** Requests *)
Definition is_finish (request : RemoteRequest) : bool := if request is RequestFinish then true else false.

Definition process_request (h : nat) s (session_id : SessionId) (request_id : RequestId) (request : RemoteRequest) :
    outcome Empty_set GlobalCollectiveState :=
  match failed s with
  | Some error =>
      if negb (is_finish request) then Ok (respond s session_id (mkResponse request_id (ResponseError error)))
      else '(s, r) ← finish s session_id request_id;
           Ok (if r is Some err then respond s session_id (mkResponse request_id (ResponseError err)) else s)
  | None =>
      '(s, r) ← match request with
        | RequestRegister node_addr num_nodes peers => register s session_id request_id node_addr num_nodes peers
        | RequestBegin spec => begin h s session_id request_id spec
        | RequestFinish => finish s session_id request_id
        end;
      Ok (if r is Some err then respond s session_id (mkResponse request_id (ResponseError err)) else s)
  end.

(** *** The sockets

    A request socket names its session once, then sends requests; what is not
    that ends the socket, and the end of a socket disconnects its session. *)
Inductive CollectiveMessage :=
  | MessageInit (id : SessionId)
  | MessageRequest (request_id : RequestId) (request : RemoteRequest).

Definition request_message (h : nat) s (session_id : option SessionId) (message : CollectiveMessage) :
    outcome GlobalCollectiveError (GlobalCollectiveState * option SessionId) :=
  match message with
  | MessageInit id =>
      _ ← fail_if (bool_decide (is_Some session_id)) InvalidMessage;
      Ok (init_session s id, Some id)
  | MessageRequest request_id request =>
      id ← ok_or session_id FirstMsgNotInit;
      match process_request h s id request_id request with
      | Ok s => Ok (s, session_id)
      | _ => Panic
      end
  end.

Inductive Event :=
  | EventInit (id : SessionId)
  | EventResponder (id : SessionId)
  | EventRequest (h : nat) (id : SessionId) (request_id : RequestId) (request : RemoteRequest)
  | EventTake (id : SessionId)
  | EventDisconnect (id : SessionId).

(** The response socket takes the responses out of the queue. *)
Definition take_response s (id : SessionId) : GlobalCollectiveState :=
  match sessions s !! id with
  | Some session => set_sessions s (<[id := mkSession (tail (session_queue session)) (session_receiver session)]> (sessions s))
  | None => s
  end.

Definition orchestrator_step s (event : Event) : outcome Empty_set GlobalCollectiveState :=
  match event with
  | EventInit id => Ok (init_session s id)
  | EventResponder id => match get_session_responder s id with Ok s' => Ok s' | Err _ => Ok (init_session s id) | Panic => Panic end
  | EventRequest h id request_id request => process_request h s id request_id request
  | EventTake id => Ok (take_response s id)
  | EventDisconnect id => disconnect s id
  end.
Definition orchestrate s (events : list Event) : outcome Empty_set GlobalCollectiveState := foldM orchestrator_step s events.
End orchestrator.
