(* ===== verification/OrchestratorInvariant.v ===== *)
(** * The state of the orchestrator: src/src/global/orchestrator/state.rs

    What holds of the group after every event, and that no event panics while
    identifiers are left. *)
From S2P Require Import Prelude FloatBackend CollectiveConfig Orchestrator.

(** ** Lists and maps *)
Lemma sum_Z_perm l k : l ≡ₚ k -> sum_Z l = sum_Z k.
Proof. unfold sum_Z. induction 1; cbn; lia. Qed.

Lemma any_value_spec {A} (f : A -> bool) (m : gmap nat A) :
  any_value f m = true <-> exists k a, m !! k = Some a /\ f a = true.
Proof.
  unfold any_value. rewrite existsb_exists. split.
  - intros ([k a] & Hin%list_elem_of_In%elem_of_map_to_list & Hf). by exists k, a.
  - intros (k & a & Hk & Hf). exists (k, a). split; [|done]. by apply list_elem_of_In, elem_of_map_to_list.
Qed.

Lemma any_value_false {A} (f : A -> bool) (m : gmap nat A) :
  any_value f m = false <-> forall k a, m !! k = Some a -> f a = false.
Proof.
  destruct (any_value f m) eqn:Hv; split; try done.
  - intros Hall. apply any_value_spec in Hv as (k & a & Hk & Hf). apply Hall in Hk. congruence.
  - intros _ k a Hk. destruct (f a) eqn:Hf; [|done].
    assert (any_value f m = true) by (apply any_value_spec; by exists k, a). congruence.
Qed.

Definition peers_total (m : gmap nat (list nat)) : Z := sum_Z (map (fun p => wrap 32 (Zlen p.2)) (map_to_list m)).

Lemma peers_total_empty : peers_total ∅ = 0.
Proof. unfold peers_total. by rewrite map_to_list_empty. Qed.

Lemma peers_total_insert m n p : m !! n = None -> peers_total (<[n := p]> m) = wrap 32 (Zlen p) + peers_total m.
Proof. intros Hn. unfold peers_total. rewrite (sum_Z_perm _ _ (Permutation_map _ (map_to_list_insert _ _ _ Hn))). done. Qed.

Lemma peers_total_delete m n p : m !! n = Some p -> peers_total m = wrap 32 (Zlen p) + peers_total (delete n m).
Proof.
  intros Hn. rewrite <- (insert_delete_id m n p) at 1 by done. apply peers_total_insert, lookup_delete_eq.
Qed.

Lemma peers_total_nonneg m : 0 <= peers_total m.
Proof. apply sum_Z_nonneg, Forall_map, Forall_true. intros p. pose proof (wrap_range 32 (Zlen p.2) ltac:(lia)) as [? ?]. cbn. lia. Qed.

Lemma sum_arith l total :
  0 <= total -> Forall (fun x => 0 <= x) l -> total + sum_Z l < 2 ^ 32 ->
  foldM (E:=Empty_set) (fun total x => arith 32 (total + x)) total l = Ok (total + sum_Z l).
Proof.
  revert total. induction l as [|x l IH]; intros total Ht Hl Hs; cbn [foldM sum_Z foldr]; [f_equal; cbn; lia|].
  apply Forall_cons in Hl as [Hx Hl]. change (sum_Z (x :: l)) with (x + sum_Z l) in *. pose proof (sum_Z_nonneg l Hl).
  rewrite arith_in by (unfold in_width; lia). cbn [mbind outcome_bind]. rewrite IH by (done || lia). f_equal. unfold sum_Z. cbn. lia.
Qed.

Lemma count_peers_ok m : peers_total m < 2 ^ 32 -> count_peers m = Ok (peers_total m).
Proof.
  intros Hm. unfold count_peers, peers_total in *. set (l := map_to_list m) in *. clearbody l.
  assert (Hmap : forall total, foldM (E:=Empty_set) (fun total p => arith 32 (total + wrap 32 (Zlen p.2))) total l =
    foldM (fun total x => arith 32 (total + x)) total (map (fun p : nat * list nat => wrap 32 (Zlen p.2)) l)).
  { clear. induction l as [|p l IH]; intros total; [done|]. cbn [foldM map]. destruct (arith _ _); [apply IH|done..]. }
  rewrite Hmap, sum_arith; [f_equal; lia|lia| |lia]. apply Forall_map, Forall_true. intros p. pose proof (wrap_range 32 (Zlen p.2) ltac:(lia)) as [? ?]. cbn. lia.
Qed.

(** ** The invariant *)
Section invariant.
Context `{HashOrder, Network, ElementTypes}.
Implicit Types s : GlobalCollectiveState.

Record group_ok s : Prop := {
  (** Nodes belong to one session each, and have an address and peers. *)
  group_nodes a b n : registered_nodes s !! a = Some n -> registered_nodes s !! b = Some n -> a = b;
  group_addresses n : is_Some (node_addresses s !! n) <-> exists id, registered_nodes s !! id = Some n;
  group_peers n : is_Some (node_peers s !! n) <-> exists id, registered_nodes s !! id = Some n;
  group_fresh id n : registered_nodes s !! id = Some n -> Z.of_nat n < next_node_id s;
  group_next : 0 <= next_node_id s < 2 ^ 32;
  (** Addresses and peers are distinct. *)
  group_address n m a : node_addresses s !! n = Some a -> node_addresses s !! m = Some a -> n = m;
  group_peer n m p q k : node_peers s !! n = Some p -> node_peers s !! m = Some q -> k ∈ p -> k ∈ q -> n = m;
  group_total : num_global_peers s = peers_total (node_peers s);
  group_total_max : num_global_peers s < 2 ^ 32;
  (** Only registered sessions wait, each for one thing. *)
  group_registering : NoDup (map (fun w => w.1.1) (register_requests s));
  group_registering_node w : w ∈ register_requests s -> registered_nodes s !! w.1.1 = Some w.2;
  group_pending : NoDup (map (fun w => w.1.1) (pending_collectives s));
  group_pending_node w : w ∈ pending_collectives s -> is_Some (registered_nodes s !! w.1.1);
  group_phase : pending_collectives s <> [] -> register_requests s = [];
  group_unfinished : (length (pending_collectives s) < base.size (registered_nodes s))%nat \/ pending_collectives s = [];
  (** A group is being formed by nodes that all wait, or complete, or failed, or there is none. *)
  group_forming : failed s = None -> register_requests s <> [] ->
    length (register_requests s) = base.size (registered_nodes s) /\
    exists n, cur_num_nodes s = Some n /\ (base.size (registered_nodes s) < n)%nat;
  group_complete : failed s = None -> register_requests s = [] -> registered_nodes s <> ∅ ->
    cur_num_nodes s = Some (base.size (registered_nodes s));
  group_failed e : failed s = Some e -> registered_nodes s <> ∅ /\ pending_collectives s = [] /\ register_requests s = [] /\
    exists n, cur_num_nodes s = Some n /\ (base.size (registered_nodes s) < n)%nat;
  group_none : registered_nodes s = ∅ -> cur_num_nodes s = None /\ next_node_id s = 0 /\ register_requests s = [];
  group_transfer : 2 <= next_transfer_id s < 2 ^ 64;
}.

Lemma state_new_ok : group_ok state_new.
Proof.
  split; cbn; try done; try (intros; congruence).
  - intros n. rewrite lookup_empty. split; [by intros [? ?]|]. intros [id Hid]. by rewrite lookup_empty in Hid.
  - intros n. rewrite lookup_empty. split; [by intros [? ?]|]. intros [id Hid]. by rewrite lookup_empty in Hid.
  - constructor.
  - by intros w ?%not_elem_of_nil.
  - constructor.
  - by intros w ?%not_elem_of_nil.
  - by right.
Qed.

(** *** The queues of the sessions *)
Definition queue_of s (id : SessionId) : list CollectiveMessageResponse :=
  match sessions s !! id with Some session => session_queue session | None => [] end.

(** The session is there and its queue has room. *)
Definition ready s (id : SessionId) : Prop := is_Some (sessions s !! id) /\ (length (queue_of s id) < 64)%nat.

Definition respond_all s (l : list (SessionId * CollectiveMessageResponse)) : GlobalCollectiveState :=
  foldl (fun s p => respond s p.1 p.2) s l.

Lemma respond_to_all {A} content s (l : list (SessionId * RequestId * A)) :
  foldl (respond_to content) s l = respond_all s (map (fun w => (w.1.1, mkResponse w.1.2 content)) l).
Proof. revert s. induction l as [|w l IH]; intros s; [done|]. cbn. apply IH. Qed.

Lemma respond_fields s id r : node_addresses (respond s id r) = node_addresses s /\ num_global_peers (respond s id r) = num_global_peers s.
Proof. unfold respond. by destruct (sessions s !! id). Qed.

Lemma answers_all s l :
  foldl answer_registration s l =
  respond_all s (map (fun w => (w.1.1, mkResponse w.1.2 (ResponseRegister w.2 (node_addresses s) (num_global_peers s)))) l).
Proof.
  revert s. induction l as [|w l IH]; intros s; [done|]. cbn. rewrite IH. unfold answer_registration.
  by destruct (respond_fields s w.1.1 (mkResponse w.1.2 (ResponseRegister w.2 (node_addresses s) (num_global_peers s)))) as [-> ->].
Qed.

Lemma respond_lookup s id r j : sessions (respond s id r) !! j =
  if decide (j = id) then (fun session => session_respond session r) <$> sessions s !! id else sessions s !! j.
Proof.
  unfold respond. destruct (sessions s !! id) as [session|] eqn:Hs; case_decide as Hj; subst; cbn.
  - by rewrite lookup_insert_eq.
  - by rewrite lookup_insert_ne.
  - done.
  - done.
Qed.

Lemma respond_queue s id r : ready s id -> queue_of (respond s id r) id = queue_of s id ++ [r].
Proof.
  intros [[session Hs] Hl]. unfold queue_of in *. rewrite respond_lookup, decide_True, Hs by done. cbn. rewrite Hs in Hl.
  unfold session_respond. by rewrite (proj2 (Nat.ltb_lt _ _) Hl).
Qed.

Lemma respond_all_other s l id : id ∉ map fst l -> sessions (respond_all s l) !! id = sessions s !! id.
Proof.
  revert s. induction l as [|[j r] l IH]; intros s Hl; [done|]. cbn in *. apply not_elem_of_cons in Hl as [Hj Hl].
  fold (respond_all (respond s j r) l). rewrite IH by done. by rewrite respond_lookup, decide_False.
Qed.

Lemma queue_of_sessions s s' id : sessions s !! id = sessions s' !! id -> queue_of s id = queue_of s' id.
Proof. unfold queue_of. by intros ->. Qed.

Lemma respond_all_queue s l id r : NoDup (map fst l) -> (id, r) ∈ l -> ready s id ->
  queue_of (respond_all s l) id = queue_of s id ++ [r].
Proof.
  revert s. induction l as [|[j r'] l IH]; intros s Hnd Hin Hr; [by apply not_elem_of_nil in Hin|].
  cbn in Hnd. apply NoDup_cons in Hnd as [Hj Hnd]. change (respond_all s ((j, r') :: l)) with (respond_all (respond s j r') l).
  apply elem_of_cons in Hin as [[= -> ->]|Hin].
  - rewrite (queue_of_sessions _ (respond s j r')) by (by apply respond_all_other). by apply respond_queue.
  - assert (id <> j) by (intros ->; apply Hj; by apply (list_elem_of_fmap_2 fst) in Hin).
    assert (Hs : sessions (respond s j r') !! id = sessions s !! id) by (by rewrite respond_lookup, decide_False).
    rewrite IH; [by rewrite (queue_of_sessions _ _ _ Hs)|done|done|].
    unfold ready. by rewrite (queue_of_sessions _ _ _ Hs), Hs.
Qed.

(** Nothing else comes into a queue. *)
Lemma respond_all_elem s l id r : r ∈ queue_of (respond_all s l) id -> r ∈ queue_of s id \/ r ∈ map snd l.
Proof.
  revert s. induction l as [|[j r'] l IH]; intros s; [by left|]. cbn. fold (respond_all (respond s j r') l).
  intros [Hr|Hr]%IH; [|right; by right]. unfold queue_of in *. rewrite respond_lookup in Hr. case_decide as Hj; [|by left].
  subst j. destruct (sessions s !! id) as [session|]; cbn in *; [|by left]. unfold session_respond in Hr.
  destruct (_ <? _)%nat; [|by left]. cbn in Hr. apply elem_of_app in Hr as [Hr|Hr%list_elem_of_singleton]; [by left|right; subst; by left].
Qed.

(** *** Responses change the queues only *)
Definition core s : GlobalCollectiveState := set_sessions s ∅.

Lemma core_ok s s' : core s = core s' -> group_ok s -> group_ok s'.
Proof.
  intros Hc Hs. destruct s, s'. unfold core, set_sessions in Hc. cbn in Hc. injection Hc as -> -> -> -> -> -> -> -> -> ->.
  destruct Hs. by split.
Qed.

Lemma core_respond s id r : core (respond s id r) = core s.
Proof. unfold respond. by destruct (sessions s !! id). Qed.

Lemma core_responses s l : core (respond_all s l) = core s.
Proof. revert s. induction l as [|p l IH]; intros s; [done|]. cbn. fold (respond_all (respond s p.1 p.2) l). rewrite IH. apply core_respond. Qed.

Lemma core_respond_all {A} content s (l : list (SessionId * RequestId * A)) : core (foldl (respond_to content) s l) = core s.
Proof. rewrite respond_to_all. apply core_responses. Qed.

Lemma core_fields s s' : core s = core s' ->
  registered_nodes s = registered_nodes s' /\ node_addresses s = node_addresses s' /\ node_peers s = node_peers s' /\
  cur_num_nodes s = cur_num_nodes s' /\ num_global_peers s = num_global_peers s' /\
  register_requests s = register_requests s' /\ pending_collectives s = pending_collectives s' /\
  next_transfer_id s = next_transfer_id s' /\ next_node_id s = next_node_id s' /\ failed s = failed s'.
Proof. destruct s, s'. unfold core, set_sessions. cbn. intros [=]. by repeat split. Qed.

Lemma core_set_sessions s x : core (set_sessions s x) = core s.
Proof. done. Qed.

(** *** A node leaves *)
Definition left_group s (id : SessionId) (node : NodeId) : GlobalCollectiveState :=
  clear_if_empty (mkState (delete id (registered_nodes s)) (delete node (node_addresses s)) (delete node (node_peers s))
    (cur_num_nodes s) (peers_total (delete node (node_peers s))) [] ∅ [] (next_transfer_id s) (next_node_id s)
    (Some (PeerLost node))).

Lemma total_delete_le s node : group_ok s -> peers_total (delete node (node_peers s)) <= num_global_peers s.
Proof.
  intros Hs. rewrite (group_total _ Hs). destruct (node_peers s !! node) as [p|] eqn:Hp.
  - rewrite (peers_total_delete _ _ _ Hp). pose proof (wrap_range 32 (Zlen p) ltac:(lia)) as [? ?]. lia.
  - by rewrite delete_id.
Qed.

Lemma left_group_ok s id node : group_ok s -> registered_nodes s !! id = Some node -> group_ok (left_group s id node).
Proof.
  intros Hs Hid. set (t := mkState (delete id (registered_nodes s)) (delete node (node_addresses s)) (delete node (node_peers s))
    (cur_num_nodes s) (peers_total (delete node (node_peers s))) [] ∅ [] (next_transfer_id s) (next_node_id s) (Some (PeerLost node))).
  assert (Hreg : forall n, n <> node -> (exists id', delete id (registered_nodes s) !! id' = Some n) <-> exists id', registered_nodes s !! id' = Some n).
  { intros n Hn. split; intros [id' Hid']; exists id'; [by apply lookup_delete_Some in Hid' as [_ ?]|].
    apply lookup_delete_Some. split; [|done]. intros <-. congruence. }
  assert (Hnode : ~ exists id', delete id (registered_nodes s) !! id' = Some node).
  { intros [id' [Hne Hid']%lookup_delete_Some]. apply Hne. by apply (group_nodes _ Hs _ _ node). }
  assert (Hdom : forall {A} (m : gmap nat A), (forall n, is_Some (m !! n) <-> exists id', registered_nodes s !! id' = Some n) ->
    forall n, is_Some (delete node m !! n) <-> exists id', delete id (registered_nodes s) !! id' = Some n).
  { intros A m Hm n. destruct (decide (n = node)) as [->|Hn].
    - rewrite lookup_delete_eq. split; [by intros [? ?]|]. by intros ?%Hnode.
    - rewrite lookup_delete_ne, Hreg by done. apply Hm. }
  pose proof (total_delete_le s node Hs) as Htot. pose proof (group_total_max _ Hs) as Hmax.
  assert (Hsize : S (base.size (delete id (registered_nodes s))) = base.size (registered_nodes s)).
  { assert (base.size (registered_nodes s) <> 0%nat) by (rewrite map_size_ne_0_lookup; by exists id, node). rewrite map_size_delete_Some by (by rewrite Hid). lia. }
  assert (Hcur : exists n, cur_num_nodes s = Some n /\ (base.size (delete id (registered_nodes s)) < n)%nat).
  { assert (Hne : registered_nodes s <> ∅) by by intros He; rewrite He, lookup_empty in Hid.
    destruct (failed s) as [e|] eqn:Hf; [destruct (group_failed _ Hs e Hf) as (_ & _ & _ & n & ? & ?); exists n; split; [done|lia]|].
    destruct (register_requests s) as [|w l] eqn:Hr.
    - pose proof (group_complete _ Hs Hf Hr Hne). eexists. split; [done|lia].
    - destruct (group_forming _ Hs Hf ltac:(by rewrite Hr)) as (_ & n & ? & ?). exists n. split; [done|lia]. }
  assert (Hcommon : forall failed' num next, num = cur_num_nodes s /\ next = next_node_id s /\ failed' = Some (PeerLost node) /\ delete id (registered_nodes s) <> ∅ \/
      num = None /\ next = 0 /\ failed' = None /\ delete id (registered_nodes s) = ∅ ->
    group_ok (mkState (delete id (registered_nodes s)) (delete node (node_addresses s)) (delete node (node_peers s))
      num (peers_total (delete node (node_peers s))) [] ∅ [] (next_transfer_id s) next failed')).
  { intros failed' num next Hcase. split; cbn; try done.
    - intros a b n [_ Ha]%lookup_delete_Some [_ Hb]%lookup_delete_Some. by apply (group_nodes _ Hs a b n).
    - apply Hdom, (group_addresses _ Hs).
    - apply Hdom, (group_peers _ Hs).
    - intros id' n Hn. destruct Hcase as [(-> & -> & _)|(_ & _ & _ & He)]; [|by rewrite He, lookup_empty in Hn].
      apply lookup_delete_Some in Hn as [_ Hn]. by apply (group_fresh _ Hs id').
    - destruct Hcase as [(_ & -> & _)|(_ & -> & _)]; [apply (group_next _ Hs)|lia].
    - intros n m a [_ Hn]%lookup_delete_Some [_ Hm]%lookup_delete_Some. by apply (group_address _ Hs n m a).
    - intros n m p q k [_ Hn]%lookup_delete_Some [_ Hm]%lookup_delete_Some. by apply (group_peer _ Hs n m p q k).
    - lia.
    - constructor.
    - by intros w ?%not_elem_of_nil.
    - constructor.
    - by intros w ?%not_elem_of_nil.
    - by right.
    - intros -> _ Hne. destruct Hcase as [(_ & _ & ? & _)|(_ & _ & _ & ?)]; done.
    - intros e ->. destruct Hcase as [(-> & _ & _ & Hne)|(_ & _ & ? & _)]; [|done]. done.
    - intros He. destruct Hcase as [(_ & _ & _ & ?)|(-> & -> & _)]; done.
    - apply (group_transfer _ Hs). }
  unfold left_group. fold t. unfold clear_if_empty.
  destruct (Nat.eqb_spec (base.size (registered_nodes t)) 0) as [Hz|Hz].
  - apply Hcommon. right. by apply map_size_empty_inv in Hz.
  - apply Hcommon. left. split; [done|]. split; [done|]. split; [done|]. intros He. apply Hz. unfold t. cbn. by rewrite He, map_size_empty.
Qed.

Lemma core_clear s : core (clear_if_empty s) = clear_if_empty (core s).
Proof. unfold clear_if_empty. cbn. by destruct (_ =? _)%nat. Qed.

Lemma clear_core s s' : core s = core s' -> core (clear_if_empty s) = core (clear_if_empty s').
Proof. intros Hc. by rewrite !core_clear, Hc. Qed.

Lemma clear_fresh s : group_ok s -> clear_if_empty s = s.
Proof.
  intros Hs. unfold clear_if_empty. destruct (Nat.eqb_spec (base.size (registered_nodes s)) 0) as [Hz|Hz]; [|done].
  apply map_size_empty_inv in Hz. destruct (group_none _ Hs Hz) as (Hc & Hn & _).
  destruct (failed s) as [e|] eqn:Hf; [by destruct (group_failed _ Hs e Hf)|]. destruct s. cbn in *. by subst.
Qed.

Lemma disconnect_left s id node : group_ok s -> registered_nodes s !! id = Some node ->
  exists s', disconnect s id = Ok s' /\ core s' = left_group s id node.
Proof.
  intros Hs Hid. unfold disconnect. rewrite Hid. pose proof (total_delete_le s node Hs). pose proof (group_total_max _ Hs).
  rewrite count_peers_ok by lia. cbn [mbind outcome_bind]. eexists. split; [done|].
  rewrite core_clear, core_set_sessions. unfold fail_registers, fail_pending, left_group. rewrite core_respond_all.
  unfold set_register_requests, set_pending. f_equal. set (t := foldl _ _ _).
  assert (Ht : core t = core (set_pending (set_failed (set_global_peers (set_node_peers (set_addresses (set_registered s
    (delete id (registered_nodes s))) (delete node (node_addresses s))) (delete node (node_peers s))) (peers_total (delete node (node_peers s))))
    (Some (PeerLost node))) [])) by apply core_respond_all.
  apply core_fields in Ht as (-> & -> & -> & -> & -> & _ & -> & -> & -> & ->). done.
Qed.

Lemma disconnect_other s id : group_ok s -> registered_nodes s !! id = None ->
  exists s', disconnect s id = Ok s' /\ core s' = core s.
Proof.
  intros Hs Hid. unfold disconnect. rewrite Hid. cbn [mbind outcome_bind]. eexists. split; [done|].
  rewrite core_clear, core_set_sessions, <- core_clear. by rewrite clear_fresh.
Qed.

Lemma finish_left s id r node : group_ok s -> registered_nodes s !! id = Some node ->
  exists s', finish s id r = Ok (s', None) /\ core s' = left_group s id node.
Proof.
  intros Hs Hid. unfold finish. rewrite Hid. pose proof (total_delete_le s node Hs). pose proof (group_total_max _ Hs). cbn [node_peers set_failed set_registered].
  rewrite count_peers_ok by lia. cbn [mbind outcome_bind]. eexists. split; [done|].
  rewrite core_respond. unfold fail_registers. rewrite core_respond_all. unfold left_group, fail_pending.
  match goal with |- core (set_register_requests (clear_if_empty (foldl _ ?a _)) _) = _ => set (base := a) end.
  set (t := foldl _ _ _). assert (Ht : core t = core base) by apply core_respond_all. clearbody t.
  transitivity (core (clear_if_empty (set_register_requests t []))).
  { unfold clear_if_empty. cbn. by destruct (_ =? _)%nat. }
  rewrite core_clear. f_equal. apply core_fields in Ht as (Hr & Ha & Hp & Hc & Hg & _ & Hq & Hi & Hn & Hf).
  unfold core, set_sessions, set_register_requests. cbn. by rewrite Hr, Ha, Hp, Hc, Hg, Hq, Hi, Hn, Hf.
Qed.

(** *** A node joins *)
Lemma duplicate_peer_None seen others peers : duplicate_peer seen others peers = None ->
  NoDup peers /\ (forall k, k ∈ peers -> k ∉ seen) /\ forall k n p, k ∈ peers -> others !! n = Some p -> k ∉ p.
Proof.
  revert seen. induction peers as [|k peers IH]; intros seen; cbn.
  { intros _. split; [constructor|]. by split; intros ? *; rewrite elem_of_nil. }
  destruct (_ || _) eqn:Hb; [done|]. apply orb_false_elim in Hb as [Hseen%bool_decide_eq_false Hany].
  intros (Hnd & Hs & Ho)%IH. split; [constructor; [|done]|split].
  - intros Hk. apply (Hs k Hk). by left.
  - intros k' [->|Hk]%elem_of_cons; [done|]. specialize (Hs k' Hk). by apply not_elem_of_cons in Hs as [_ ?].
  - intros k' n p [->|Hk]%elem_of_cons Hp; [|by apply (Ho k' n)].
    apply (proj1 (any_value_false _ _) Hany) in Hp. by apply bool_decide_eq_false in Hp.
Qed.

Record registers s (id : SessionId) (address : Address) (num_nodes : nat) (peers : list PeerId) : Prop := {
  registers_some : (0 < num_nodes)%nat /\ peers <> [];
  registers_new : registered_nodes s !! id = None;
  registers_address n a : node_addresses s !! n = Some a -> a <> address;
  registers_forming : registered_nodes s = ∅ \/ register_requests s <> [];
  registers_distinct : NoDup peers;
  registers_peers k n p : k ∈ peers -> node_peers s !! n = Some p -> k ∉ p;
  registers_number : cur_num_nodes s = None \/ cur_num_nodes s = Some num_nodes;
}.

Lemma register_error_None s id address num_nodes peers :
  register_error s id address num_nodes peers = None <-> registers s id address num_nodes peers.
Proof.
  unfold register_error. split.
  - destruct (_ || _) eqn:Hz; [done|]. apply orb_false_elim in Hz as [Hn%Nat.eqb_neq Hp%Nat.eqb_neq].
    destruct (_ || _) eqn:Hd; [done|]. apply orb_false_elim in Hd as [Hid%bool_decide_eq_false Ha].
    destruct (_ && _) eqn:Hf; [done|].
    destruct (duplicate_peer _ _ _) eqn:Hdup; [done|]. apply duplicate_peer_None in Hdup as (? & _ & ?).
    intros Hc. split; try done.
    + split; [lia|]. by intros ->.
    + by apply eq_None_not_Some.
    + intros n a Hna. apply (proj1 (any_value_false _ _) Ha) in Hna. by apply bool_decide_eq_false in Hna.
    + apply andb_false_iff in Hf as [Hf%negb_false_iff%Nat.eqb_eq|Hf%Nat.eqb_neq].
      * left. by apply map_size_empty_inv.
      * right. intros He. by rewrite He in Hf.
    + destruct (cur_num_nodes s) as [c|]; [|by left]. destruct (Nat.eqb_spec c num_nodes); [right; by subst|done].
  - intros [[Hn Hp] Hid Ha Hf Hd Hk Hc].
    rewrite (proj2 (Nat.eqb_neq num_nodes 0)) by lia. destruct peers as [|k0 peers]; [done|]. cbn [orb length Nat.eqb].
    rewrite bool_decide_eq_false_2 by (rewrite Hid; by intros [? ?]). cbn [orb].
    rewrite (proj2 (any_value_false _ _)).
    2:{ intros n a Hna. apply bool_decide_eq_false. by apply (Ha n). }
    assert (Hff : negb (base.size (registered_nodes s) =? 0)%nat && (length (register_requests s) =? 0)%nat = false).
    { destruct Hf as [->|Hf]; [by rewrite map_size_empty|]. destruct (register_requests s); [done|]. apply andb_false_r. }
    rewrite Hff. assert (Hdup : forall seen, (forall k, k ∈ k0 :: peers -> k ∉ seen) -> duplicate_peer seen (node_peers s) (k0 :: peers) = None).
    { revert Hd Hk. generalize (k0 :: peers). intros l Hd Hk. induction Hd as [|k l Hnk Hd IH]; intros seen Hs; [done|]. cbn.
      rewrite bool_decide_eq_false_2 by (apply Hs; by left). cbn [orb].
      rewrite (proj2 (any_value_false _ _)).
      2:{ intros n p Hnp. apply bool_decide_eq_false. apply (Hk k n p); [by left|done]. }
      apply IH; [intros k' n p Hk'; apply Hk; by right|]. intros k' Hk' [->|Hs']%elem_of_cons; [done|].
      apply (Hs k'); [by right|done]. }
    rewrite Hdup by (intros ? _; apply not_elem_of_nil).
    destruct Hc as [-> | ->]; [done|]. by rewrite Nat.eqb_refl.
Qed.

Definition joined_group s (id : SessionId) (request : RequestId) (address : Address) (num_nodes : nat) (peers : list PeerId) :
    GlobalCollectiveState :=
  let node := Z.to_nat (next_node_id s) in
  let nodes := <[id := node]> (registered_nodes s) in
  mkState nodes (<[node := address]> (node_addresses s)) (<[node := peers]> (node_peers s)) (Some num_nodes)
    (num_global_peers s + wrap 32 (Zlen peers))
    (if (base.size nodes =? num_nodes)%nat then [] else register_requests s ++ [(id, request, node)]) ∅
    (pending_collectives s) (next_transfer_id s) (next_node_id s + 1) (failed s).

Lemma joined_group_ok s id request address num_nodes peers :
  group_ok s -> failed s = None -> registers s id address num_nodes peers ->
  next_node_id s + 1 < 2 ^ 32 -> num_global_peers s + wrap 32 (Zlen peers) < 2 ^ 32 ->
  group_ok (joined_group s id request address num_nodes peers).
Proof.
  intros Hs Hok [[Hn Hp] Hid Ha Hf Hd Hk Hc] Hnext Htot. unfold joined_group. set (node := Z.to_nat (next_node_id s)).
  pose proof (group_next _ Hs) as Hrange.
  assert (Hnode : forall id', registered_nodes s !! id' <> Some node).
  { intros id' Hid'%(group_fresh _ Hs). unfold node in Hid'. lia. }
  assert (Hreg : forall n, (exists id', <[id := node]> (registered_nodes s) !! id' = Some n) <->
      n = node \/ exists id', registered_nodes s !! id' = Some n).
  { intros n. split.
    - intros [id' Hid']. destruct (decide (id' = id)) as [->|Hne].
      + rewrite lookup_insert_eq in Hid'. left. congruence.
      + rewrite lookup_insert_ne in Hid' by done. right. by exists id'.
    - intros [-> | [id' Hid']]; [exists id; apply lookup_insert_eq|]. exists id'. rewrite lookup_insert_ne; [done|].
      intros <-. congruence. }
  assert (Hdom : forall {A} (m : gmap nat A) x, (forall n, is_Some (m !! n) <-> exists id', registered_nodes s !! id' = Some n) ->
    forall n, is_Some (<[node := x]> m !! n) <-> exists id', <[id := node]> (registered_nodes s) !! id' = Some n).
  { intros A m x Hm n. rewrite Hreg. destruct (decide (n = node)) as [->|Hne].
    - rewrite lookup_insert_eq. split; [by left|by eexists].
    - rewrite lookup_insert_ne, Hm by done. split; [by right|]. by intros [?|?]. }
  assert (Hsize : base.size (<[id := node]> (registered_nodes s)) = S (base.size (registered_nodes s))).
  { by rewrite map_size_insert_None. }
  assert (Hpend : pending_collectives s = []).
  { destruct Hf as [He|Hf].
    - destruct (group_unfinished _ Hs) as [Hu|Hu]; [|done]. rewrite He, map_size_empty in Hu. lia.
    - destruct (pending_collectives s) eqn:Hq; [done|]. exfalso. apply Hf, (group_phase _ Hs). by rewrite Hq. }
  assert (Hwait : length (register_requests s) = base.size (registered_nodes s) /\
     (register_requests s <> [] -> (base.size (registered_nodes s) < num_nodes)%nat)).
  { destruct (register_requests s) as [|w l] eqn:Hr.
    - destruct Hf as [->|Hf]; [|done]. rewrite map_size_empty. done.
    - destruct (group_forming _ Hs Hok ltac:(by rewrite Hr)) as (Hl & c & Hcur & Hlt). rewrite Hr in Hl. split; [done|].
      intros _. destruct Hc as [Hc|Hc]; [congruence|]. by assert (c = num_nodes) as -> by congruence. }
  assert (Hnew : forall p, node_peers s !! node <> Some p).
  { intros p Hnp. destruct (proj1 (group_peers _ Hs node)) as [id' Hid']; [by eexists|]. by apply (Hnode id'). }
  assert (Hnew' : node_peers s !! node = None) by (apply eq_None_not_Some; intros [p Hnp]; by apply (Hnew p)).
  assert (Hwaiting : NoDup (map (fun w => w.1.1) (register_requests s ++ [(id, request, node)]))).
  { rewrite map_app. apply NoDup_app. split; [apply (group_registering _ Hs)|]. split; [|apply NoDup_singleton].
    intros x (w & -> & Hw)%list_elem_of_fmap ?%list_elem_of_singleton. apply (group_registering_node _ Hs) in Hw. cbn in *. congruence. }
  assert (Hwaits : forall w, w ∈ register_requests s ++ [(id, request, node)] -> <[id := node]> (registered_nodes s) !! w.1.1 = Some w.2).
  { intros w [Hw | ->%list_elem_of_singleton]%elem_of_app; [|apply lookup_insert_eq].
    apply (group_registering_node _ Hs) in Hw. rewrite lookup_insert_ne; [done|]. intros ->. congruence. }
  split; cbn; try (rewrite Hpend; cbn); try done.
  - intros a b n. destruct (decide (a = id)) as [->|Hna], (decide (b = id)) as [->|Hnb]; [done|..].
    + rewrite lookup_insert_eq, lookup_insert_ne by done. intros [= <-] Hb. by apply Hnode in Hb.
    + rewrite lookup_insert_eq, lookup_insert_ne by done. intros Hb [= <-]. by apply Hnode in Hb.
    + rewrite !lookup_insert_ne by done. apply (group_nodes _ Hs).
  - apply Hdom, (group_addresses _ Hs).
  - apply Hdom, (group_peers _ Hs).
  - intros id' n Hid'. destruct (proj1 (Hreg n)) as [-> | [id'' Hid'']]; [by exists id'|unfold node; lia|].
    apply (group_fresh _ Hs) in Hid''. lia.
  - lia.
  - intros n m a. destruct (decide (n = node)) as [->|Hnn], (decide (m = node)) as [->|Hnm]; [done|..].
    + rewrite lookup_insert_eq, lookup_insert_ne by done. intros [= <-] Hb. by apply Ha in Hb.
    + rewrite lookup_insert_eq, lookup_insert_ne by done. intros Hb [= <-]. by apply Ha in Hb.
    + rewrite !lookup_insert_ne by done. apply (group_address _ Hs).
  - intros n m p q k. destruct (decide (n = node)) as [->|Hnn], (decide (m = node)) as [->|Hnm]; [done|..].
    + rewrite lookup_insert_eq, lookup_insert_ne by done. intros [= <-] Hb Hkp Hkq. by destruct (Hk k m q).
    + rewrite lookup_insert_eq, lookup_insert_ne by done. intros Hb [= <-] Hkp Hkq. by destruct (Hk k n p).
    + rewrite !lookup_insert_ne by done. apply (group_peer _ Hs).
  - rewrite peers_total_insert, (group_total _ Hs) by done. lia.
  - destruct (_ =? _)%nat; [constructor|done].
  - intros w. destruct (_ =? _)%nat; [by intros ?%not_elem_of_nil|]. apply Hwaits.
  - constructor.
  - by intros w ?%not_elem_of_nil.
  - by right.
  - intros _. destruct (Nat.eqb_spec (base.size (<[id := node]> (registered_nodes s))) num_nodes) as [He|He]; [done|].
    intros _. rewrite length_app, Hsize. destruct Hwait as [Hl Hlt]. split; [cbn; lia|]. exists num_nodes. split; [done|].
    rewrite Hsize in He. destruct (register_requests s) as [|w l]; [|specialize (Hlt ltac:(done)); lia].
    cbn in Hl. lia.
  - intros _. destruct (Nat.eqb_spec (base.size (<[id := node]> (registered_nodes s))) num_nodes) as [He|He]; [by intros _ _; rewrite He|].
    intros [_ ?]%app_nil. done.
  - congruence.
  - intros He. exfalso. apply (f_equal (fun m : gmap nat nat => m !! id)) in He. by rewrite lookup_insert_eq, lookup_empty in He.
  - apply (group_transfer _ Hs).
Qed.

Definition register_answers s (id : SessionId) (request : RequestId) (address : Address) (peers : list PeerId) :
    list (SessionId * CollectiveMessageResponse) :=
  let node := Z.to_nat (next_node_id s) in
  map (fun w => (w.1.1, mkResponse w.1.2 (ResponseRegister w.2 (<[node := address]> (node_addresses s))
      (num_global_peers s + wrap 32 (Zlen peers))))) (register_requests s ++ [(id, request, node)]).

Lemma register_joined s id request address num_nodes peers :
  registers s id address num_nodes peers ->
  0 <= next_node_id s -> 0 <= num_global_peers s ->
  next_node_id s + 1 < 2 ^ 32 -> num_global_peers s + wrap 32 (Zlen peers) < 2 ^ 32 ->
  let t := set_sessions (joined_group s id request address num_nodes peers) (sessions s) in
  register s id request address num_nodes peers =
    Ok (if (base.size (registered_nodes t) =? num_nodes)%nat then respond_all t (register_answers s id request address peers) else t, None).
Proof.
  intros Hr Hn0 Hp0 Hn Hp. cbn zeta. unfold register. rewrite (proj2 (register_error_None _ _ _ _ _) Hr).
  set (t := if cur_num_nodes s is Some _ then s else set_num_nodes s (Some num_nodes)).
  assert (Ht : t = set_num_nodes s (Some num_nodes)).
  { unfold t. destruct (registers_number _ _ _ _ _ Hr) as [-> | Hc]; [done|]. rewrite Hc. destruct s; cbn in *; by subst. }
  rewrite Ht. clear t Ht. pose proof (wrap_range 32 (Zlen peers) ltac:(lia)) as [? ?].
  cbn [num_global_peers set_num_nodes next_node_id set_global_peers node_addresses set_registered set_node_id].
  rewrite !arith_in by (unfold in_width; cbn; lia). cbn [mbind outcome_bind].
  rewrite (proj2 (any_value_false _ _)).
  2:{ intros n a Hna. apply bool_decide_eq_false. intros <-. by eapply (registers_address _ _ _ _ _ Hr). }
  rewrite answers_all. unfold joined_group, register_answers. cbn. by destruct (_ =? _)%nat.
Qed.

Lemma register_core s id request address num_nodes peers :
  let t := set_sessions (joined_group s id request address num_nodes peers) (sessions s) in
  core (if (base.size (registered_nodes t) =? num_nodes)%nat then respond_all t (register_answers s id request address peers) else t) =
    joined_group s id request address num_nodes peers.
Proof. cbn zeta. destruct (_ =? _)%nat; [|done]. by rewrite core_responses. Qed.

(** *** A collective begins *)
Record begins s (id : SessionId) : Prop := {
  begins_registered : is_Some (registered_nodes s !! id);
  begins_complete : register_requests s = [];
  begins_size : cur_num_nodes s = Some (base.size (registered_nodes s));
  begins_once w : w ∈ pending_collectives s -> w.1.1 <> id;
}.

Lemma begin_error_None s id : begin_error s id = None <-> begins s id.
Proof.
  unfold begin_error. split.
  - destruct (_ || _) eqn:Hb; [done|]. apply orb_false_elim in Hb as [[Hid Hr]%orb_false_elim Hn].
    apply negb_false_iff, bool_decide_eq_true in Hid. apply negb_false_iff, Nat.eqb_eq in Hr, Hn.
    destruct (existsb _ _) eqn:He; [done|]. intros _. split; [done|by apply length_zero_iff_nil in Hr| |].
    + destruct (cur_num_nodes s) as [c|]; cbn in Hn; [congruence|]. apply map_size_empty_inv in Hn. rewrite Hn, lookup_empty in Hid.
      by destruct Hid.
    + intros w Hw Hid'. apply not_true_iff_false in He. apply He, existsb_exists. exists w.
      split; [by apply list_elem_of_In|]. by apply Nat.eqb_eq.
  - intros [Hid -> Hn Ho]. rewrite bool_decide_eq_true_2, Hn by done. cbn. rewrite Nat.eqb_refl. cbn.
    destruct (existsb _ _) eqn:He; [|done]. apply existsb_exists in He as (w & Hw%list_elem_of_In & Hid'%Nat.eqb_eq).
    by apply Ho in Hw.
Qed.

(** What a collective answers, and the state after it. *)
Definition begin_content (h : nat) s (specs : list (NodeId * CollectiveSpec)) : RemoteResponse :=
  match agree_collective h specs (node_peers s) with
  | Ok root => ResponseBegin root (next_transfer_id s)
  | Err error => ResponseError error
  | Panic => ResponseFinishAck
  end.

Definition begun_group (h : nat) s (specs : list (NodeId * CollectiveSpec)) : GlobalCollectiveState :=
  set_transfer_id (set_pending s []) (next_transfer_id s + if agree_collective h specs (node_peers s) is Ok _ then 1 else 0).

Definition begin_fits (h : nat) s (specs : list (NodeId * CollectiveSpec)) : Prop :=
  is_ok (agree_collective h specs (node_peers s)) = true -> next_transfer_id s + 1 < 2 ^ 64.

Lemma foldM_source_no_panic strategy source specs : no_panic (foldM (broadcast_source strategy) source specs).
Proof.
  apply (foldM_no_panic (fun _ => True)); [done|]. intros src [n spec] _ _. split; [|done]. unfold broadcast_source. cbn.
  destruct spec as [| |st meta]; try done. destruct (decide _); [|done]. by destruct meta, src.
Qed.

Lemma agree_no_panic h specs peers : no_panic (agree_collective h specs peers).
Proof.
  unfold agree_collective. destruct specs as [|[n spec] specs]; [done|]. cbn [head ok_or mbind outcome_bind].
  destruct spec; cbn [snd].
  1,2: (apply bind_no_panic; [auto with rust|]; intros _ _; apply bind_no_panic; [auto with rust|]; auto with rust).
  apply bind_no_panic; [auto with rust|]. intros _ _. apply bind_no_panic; [apply foldM_source_no_panic|]. auto with rust.
Qed.

Lemma begin_waits h s id request spec : begins s id ->
  (S (length (pending_collectives s)) < base.size (registered_nodes s))%nat ->
  begin h s id request spec = Ok (set_pending s (pending_collectives s ++ [(id, request, spec)]), None).
Proof.
  intros Hb Hl. unfold begin. rewrite (proj2 (begin_error_None _ _) Hb). cbn [pending_collectives set_pending registered_nodes].
  rewrite length_app. cbn. rewrite (proj2 (Nat.eqb_neq _ _)) by lia. done.
Qed.

Lemma begin_runs h s id request spec specs : begins s id ->
  S (length (pending_collectives s)) = base.size (registered_nodes s) ->
  mapM (node_spec s) (pending_collectives s ++ [(id, request, spec)]) = Ok specs ->
  2 <= next_transfer_id s -> begin_fits h s specs ->
  begin h s id request spec =
    Ok (foldl (respond_to (begin_content h s specs)) (begun_group h s specs) (pending_collectives s ++ [(id, request, spec)]), None).
Proof.
  intros Hb Hl Hspecs Ht Hmax. unfold begin. rewrite (proj2 (begin_error_None _ _) Hb).
  cbn [pending_collectives set_pending registered_nodes].
  rewrite length_app. cbn [length]. rewrite (proj2 (Nat.eqb_eq _ _)) by lia. cbn [negb].
  change (mapM (node_spec (set_pending _ _)) ?l) with (mapM (node_spec s) l).
  rewrite Hspecs. cbn [mbind outcome_bind]. unfold begin_content, begun_group. cbn [node_peers set_pending next_transfer_id].
  pose proof (agree_no_panic h specs (node_peers s)) as Hnp. unfold begin_fits in Hmax.
  destruct (agree_collective h specs (node_peers s)) as [root|e|]; [| |done].
  - specialize (Hmax eq_refl). rewrite arith_in by (unfold in_width; lia). done.
  - cbn. rewrite Z.add_0_r. by destruct s.
Qed.

Lemma node_specs s l : (forall w, w ∈ l -> is_Some (registered_nodes s !! w.1.1)) ->
  exists specs, mapM (node_spec s) l = Ok specs /\ map snd specs = map snd l /\
    Forall2 (fun w p => registered_nodes s !! w.1.1 = Some p.1) l specs.
Proof.
  induction l as [|w l IH]; intros Hl; [by exists []|]. destruct (Hl w ltac:(by left)) as [node Hn].
  destruct IH as (specs & Hm & Hsnd & Hf); [intros w' Hw'; apply Hl; by right|].
  exists ((node, w.2) :: specs). cbn [mapM]. assert (node_spec s w = Ok (node, w.2)) as -> by (unfold node_spec; by rewrite Hn).
  cbn [mbind outcome_bind]. rewrite Hm. cbn. rewrite Hsnd.
  split; [done|]. split; [done|]. by constructor.
Qed.

Lemma pending_pushed_ok s id request spec : group_ok s -> begins s id ->
  (S (length (pending_collectives s)) < base.size (registered_nodes s))%nat -> failed s = None ->
  group_ok (set_pending s (pending_collectives s ++ [(id, request, spec)])).
Proof.
  intros Hs [Hid Hr Hn Ho] Hl Hf. destruct Hs. split; cbn; try done.
  - rewrite map_app. apply NoDup_app. split; [done|]. split; [|apply NoDup_singleton].
    intros x (w & -> & Hw)%list_elem_of_fmap Hx%list_elem_of_singleton. by apply (Ho w).
  - intros w [Hw | ->%list_elem_of_singleton]%elem_of_app; [by apply group_pending_node0|done].
  - left. rewrite length_app. cbn. lia.
  - congruence.
Qed.

Lemma begun_group_ok h s specs : group_ok s ->
  begin_fits h s specs ->
  register_requests s = [] -> group_ok (begun_group h s specs).
Proof.
  intros Hs Ht Hr. destruct Hs. unfold begun_group, begin_fits in *. split; cbn; try done.
  - constructor.
  - by intros w ?%not_elem_of_nil.
  - by right.
  - intros e He. destruct (group_failed0 e He) as (? & ? & ? & ?). done.
  - destruct (agree_collective _ _ _); [specialize (Ht eq_refl)|..]; lia.
Qed.

(** *** Every event

    Identifiers are consumed by registrations and collectives only. *)
Definition event_cost (event : Event) : Z :=
  match event with
  | EventRequest _ _ _ (RequestRegister _ _ peers) => 1 + Zlen peers
  | EventRequest _ _ _ (RequestBegin _) => 1
  | _ => 0
  end.
Definition events_cost (events : list Event) : Z := sum_Z (map event_cost events).

Definition within s (cost : Z) : Prop :=
  next_node_id s + cost < 2 ^ 32 /\ num_global_peers s + cost < 2 ^ 32 /\ next_transfer_id s + cost < 2 ^ 64.

Lemma event_cost_nonneg e : 0 <= event_cost e.
Proof. destruct e as [| |? ? ? []| |]; cbn; unfold Zlen; lia. Qed.

(** A step leads to a good state with room for all but its cost, or panics for lack of identifiers. *)
Definition steps_well s (cost : Z) {R} (m : outcome Empty_set R) (state : R -> GlobalCollectiveState) : Prop :=
  (exists r, m = Ok r /\ group_ok (state r) /\ forall room, within s (cost + room) -> within (state r) room) \/
  (m = Panic /\ ~ within s cost).

Lemma steps_well_core s cost {R} (m : outcome Empty_set R) state r t : 0 <= cost ->
  m = Ok r -> core (state r) = core t -> group_ok t ->
  (next_node_id t <= next_node_id s + cost /\ num_global_peers t <= num_global_peers s + cost /\ next_transfer_id t <= next_transfer_id s + cost) ->
  steps_well s cost m state.
Proof.
  intros Hc Hm Hcore Ht Hle. left. exists r. split; [done|]. split; [by apply (core_ok t)|].
  apply core_fields in Hcore as (_ & _ & _ & _ & Hp & _ & _ & Hi & Hn & _). unfold within. rewrite Hp, Hi, Hn. lia.
Qed.

Lemma left_group_within s id node : group_ok s ->
  next_node_id (left_group s id node) <= next_node_id s /\ num_global_peers (left_group s id node) <= num_global_peers s /\
  next_transfer_id (left_group s id node) <= next_transfer_id s.
Proof.
  intros Hs. pose proof (total_delete_le s node Hs). pose proof (group_next _ Hs). unfold left_group, clear_if_empty.
  destruct (_ =? _)%nat; cbn; lia.
Qed.

Lemma core_left s id node : core (left_group s id node) = left_group s id node.
Proof. unfold left_group. by rewrite core_clear. Qed.

Lemma disconnect_well s id : group_ok s -> steps_well s 0 (disconnect s id) (fun s' => s').
Proof.
  intros Hs. destruct (registered_nodes s !! id) as [node|] eqn:Hid.
  - destruct (disconnect_left s id node Hs Hid) as (s' & Hd & Hc).
    pose proof (left_group_within s id node Hs). rewrite <- core_left in Hc.
    eapply steps_well_core; [done|exact Hd|exact Hc|by apply left_group_ok|lia].
  - destruct (disconnect_other s id Hs Hid) as (s' & Hd & Hc). eapply steps_well_core; [done|exact Hd|exact Hc|done|lia].
Qed.

Lemma finish_well s id r : group_ok s -> steps_well s 0 (finish s id r) fst.
Proof.
  intros Hs. destruct (registered_nodes s !! id) as [node|] eqn:Hid.
  - destruct (finish_left s id r node Hs Hid) as (s' & Hd & Hc).
    pose proof (left_group_within s id node Hs). rewrite <- core_left in Hc.
    eapply steps_well_core; [done|exact Hd|exact Hc|by apply left_group_ok|lia].
  - unfold finish. rewrite Hid. eapply (steps_well_core _ _ _ _ _ s); [done|done|done|done|lia].
Qed.

Definition register_fits s (peers : list PeerId) : Prop :=
  next_node_id s + 1 < 2 ^ 32 /\ num_global_peers s + wrap 32 (Zlen peers) < 2 ^ 32.

Lemma register_overflow s id request address num_nodes peers : registers s id address num_nodes peers ->
  ~ register_fits s peers -> register s id request address num_nodes peers = Panic.
Proof.
  intros Hr Hover. unfold register. rewrite (proj2 (register_error_None _ _ _ _ _) Hr).
  set (t := if cur_num_nodes s is Some _ then s else set_num_nodes s (Some num_nodes)).
  assert (num_global_peers t = num_global_peers s /\ next_node_id t = next_node_id s) as [-> Hnode].
  { unfold t. by destruct (cur_num_nodes s). }
  unfold arith, checked. cbn [next_node_id set_global_peers].
  destruct (in_widthb 32 (num_global_peers s + wrap 32 (Zlen peers))) eqn:Hin; [|done]. cbn [expect mbind outcome_bind].
  apply in_widthb_spec in Hin as [_ Hin]. rewrite Hnode.
  destruct (in_widthb 32 (next_node_id s + 1)) eqn:Hin'; [|done]. apply in_widthb_spec in Hin' as [_ Hin']. by destruct Hover.
Qed.

Lemma register_well s id request address num_nodes peers : group_ok s -> failed s = None ->
  steps_well s (1 + Zlen peers) (register s id request address num_nodes peers) fst.
Proof.
  intros Hs Hf. pose proof (Zlen_nonneg peers). pose proof (wrap_range 32 (Zlen peers) ltac:(lia)) as [Hw _].
  assert (wrap 32 (Zlen peers) <= Zlen peers) by (apply Z.mod_le; lia).
  pose proof (group_next _ Hs) as [? _]. assert (0 <= num_global_peers s) by (rewrite (group_total _ Hs); apply peers_total_nonneg).
  destruct (register_error s id address num_nodes peers) as [e|] eqn:He.
  { unfold register. rewrite He. eapply (steps_well_core _ _ _ _ _ s); [lia|done|done|done|lia]. }
  pose proof (proj1 (register_error_None _ _ _ _ _) He) as Hr.
  destruct (decide (register_fits s peers)) as [[Hn Hp]|Hover].
  - eapply (steps_well_core _ _ _ _ _ (joined_group s id request address num_nodes peers));
      [lia|by apply register_joined|apply register_core|by apply joined_group_ok|].
    unfold joined_group. cbn. lia.
  - right. split; [by apply register_overflow|]. unfold register_fits, within in *. lia.
Qed.

Lemma begin_overflow h s id request spec specs : begins s id ->
  S (length (pending_collectives s)) = base.size (registered_nodes s) ->
  mapM (node_spec s) (pending_collectives s ++ [(id, request, spec)]) = Ok specs ->
  ~ begin_fits h s specs -> begin h s id request spec = Panic.
Proof.
  intros Hb Hlen Hspecs Hmax. unfold begin_fits in Hmax.
  assert (Hmax' : ~ next_transfer_id s + 1 < 2 ^ 64) by tauto.
  unfold begin. rewrite (proj2 (begin_error_None _ _) Hb). cbn [pending_collectives set_pending registered_nodes].
  rewrite length_app. cbn [length]. rewrite (proj2 (Nat.eqb_eq _ _)) by lia. cbn [negb].
  change (mapM (node_spec (set_pending _ _)) ?l) with (mapM (node_spec s) l). rewrite Hspecs. cbn [mbind outcome_bind node_peers set_pending].
  destruct (agree_collective h specs (node_peers s)) as [root|e|]; [|by destruct Hmax..].
  unfold arith, checked. cbn [next_transfer_id set_pending]. destruct (in_widthb _ _) eqn:Hin; [|done].
  apply in_widthb_spec in Hin as [_ Hin]. lia.
Qed.

(** The last call finds all others waiting. *)
Lemma begin_last s id : group_ok s -> begins s id -> ~ (S (length (pending_collectives s)) < base.size (registered_nodes s))%nat ->
  S (length (pending_collectives s)) = base.size (registered_nodes s).
Proof.
  intros Hs Hb Hl. destruct (group_unfinished _ Hs) as [Hu|Hu]; [lia|]. rewrite Hu in *. cbn in *.
  assert (base.size (registered_nodes s) <> 0%nat) by (apply map_size_ne_0_lookup; exists id; apply (begins_registered _ _ Hb)). lia.
Qed.

Lemma begin_specs s id request spec : group_ok s -> begins s id ->
  exists specs, mapM (node_spec s) (pending_collectives s ++ [(id, request, spec)]) = Ok specs.
Proof.
  intros Hs Hb. destruct (node_specs s (pending_collectives s ++ [(id, request, spec)])) as (specs & Hspecs & _); [|by exists specs].
  intros w [Hw | ->%list_elem_of_singleton]%elem_of_app; [by apply (group_pending_node _ Hs)|apply (begins_registered _ _ Hb)].
Qed.

Lemma begin_well h s id request spec : group_ok s -> failed s = None -> steps_well s 1 (begin h s id request spec) fst.
Proof.
  intros Hs Hf. pose proof (group_transfer _ Hs) as [Ht _].
  destruct (begin_error s id) as [e|] eqn:He.
  { unfold begin. rewrite He. eapply (steps_well_core _ _ _ _ _ s); [lia|done|done|done|lia]. }
  pose proof (proj1 (begin_error_None _ _) He) as Hb.
  destruct (decide (S (length (pending_collectives s)) < base.size (registered_nodes s))%nat) as [Hl|Hl].
  { eapply steps_well_core; [lia|by apply begin_waits|done|by apply pending_pushed_ok|cbn; lia]. }
  pose proof (begin_last s id Hs Hb Hl) as Hlen. destruct (begin_specs s id request spec Hs Hb) as [specs Hspecs].
  destruct (decide (begin_fits h s specs)) as [Hmax|Hmax].
  - eapply steps_well_core; [lia|by eapply begin_runs|apply core_respond_all| |].
    + apply begun_group_ok; [done|done|apply (begins_complete _ _ Hb)].
    + unfold begun_group. cbn. destruct (agree_collective _ _ _); lia.
  - right. split; [by eapply begin_overflow|]. assert (~ next_transfer_id s + 1 < 2 ^ 64) by (unfold begin_fits in Hmax; tauto). unfold within. lia.
Qed.

Lemma answered_well s cost m id r : steps_well s cost m fst ->
  steps_well s cost ('(s, o) ← m; Ok (if o is Some err then respond s id (mkResponse r (ResponseError err)) else s)) (fun s' => s').
Proof.
  intros [([s' o] & -> & Hok & Hw)|[-> Hn]]; [left|by right]. cbn in Hok, Hw. cbn [mbind outcome_bind].
  destruct o as [e|]; [|by exists s'].
  exists (respond s' id (mkResponse r (ResponseError e))). split; [done|].
  pose proof (core_respond s' id (mkResponse r (ResponseError e))) as Hc. split; [by apply (core_ok s')|].
  intros room Hr. apply Hw in Hr. apply core_fields in Hc as (_ & _ & _ & _ & Hp & _ & _ & Hi & Hn & _).
  unfold within. by rewrite Hp, Hi, Hn.
Qed.

Lemma step_well s event : group_ok s -> steps_well s (event_cost event) (orchestrator_step s event) (fun s' => s').
Proof.
  intros Hs. assert (Hsame : forall t cost, 0 <= cost -> core t = core s -> steps_well s cost (Ok t) (fun s' => s')).
  { intros t cost Hc0 Hc. by eapply (steps_well_core _ _ _ _ _ s); [| |exact Hc| |lia]. }
  assert (Hinit : forall id, core (init_session s id) = core s) by (intros id; unfold init_session; by destruct (sessions s !! id)).
  destruct event as [id|id|h id r request|id|id]; cbn [orchestrator_step event_cost].
  - by apply Hsame.
  - unfold get_session_responder. set (t := init_session s id). assert (Ht : core t = core s) by apply Hinit.
    assert (Hin : is_Some (sessions t !! id)).
    { unfold t, init_session. destruct (sessions s !! id) eqn:He; [by rewrite He|]. cbn. by rewrite lookup_insert_eq. }
    destruct Hin as [session ->]. cbn [expect mbind outcome_bind]. destruct (session_receiver session); by apply Hsame.
  - unfold process_request. destruct (failed s) as [e|] eqn:Hf.
    + destruct request; cbn [is_finish negb]; [apply Hsame; [unfold Zlen; lia|apply core_respond]..|].
      by apply answered_well, finish_well.
    + destruct request as [a n p|spec|]; apply answered_well; [by apply register_well|by apply begin_well|by apply finish_well].
  - apply Hsame; [done|]. unfold take_response. by destruct (sessions s !! id).
  - by apply disconnect_well.
Qed.

Lemma step_ok s event s' : group_ok s -> orchestrator_step s event = Ok s' -> group_ok s'.
Proof. intros Hs Hstep. destruct (step_well s event Hs) as [(r & Hr & Hok & _)|[Hp _]]; congruence. Qed.

Lemma orchestrate_ok s events s' : group_ok s -> orchestrate s events = Ok s' -> group_ok s'.
Proof. intros Hs. apply foldM_invariant; [done|]. intros t e t' Ht _. by apply step_ok. Qed.

Lemma orchestrate_total s events : group_ok s -> within s (events_cost events) -> exists s', orchestrate s events = Ok s'.
Proof.
  revert s. induction events as [|e events IH]; intros s Hs Hw; [by exists s|]. cbn [orchestrate foldM].
  assert (0 <= events_cost events) by (apply sum_Z_nonneg, Forall_map, Forall_true; apply event_cost_nonneg).
  change (events_cost (e :: events)) with (event_cost e + events_cost events) in Hw.
  destruct (step_well s e Hs) as [(t & -> & Ht & Hroom)|[_ Hn]].
  - cbn [mbind outcome_bind]. apply IH; [done|]. by apply Hroom.
  - exfalso. apply Hn. unfold within in *. lia.
Qed.
End invariant.
