(* ===== verification/OrchestratorTheorems.v ===== *)
(** * Agreement of the nodes: src/src/global/orchestrator/state.rs

    What the orchestrator agrees on, when it answers, and what it does when a
    node leaves. *)
From S2P Require Import Prelude FloatBackend CollectiveConfig Orchestrator OrchestratorInvariant.

Section theorems.
Context `{HL : HashLaws, Network, ElementTypes}.
Implicit Types s : GlobalCollectiveState.

(** ** The specification of an agreement

    The calls of a collective, each with its node, agree on a root. *)
Abbreviation Calls := (list (NodeId * CollectiveSpec)).

Inductive agrees (calls : Calls) (peers : gmap NodeId (list PeerId)) (root : NodeId) : Prop :=
  | agrees_all_reduce op strategy shape dtype :
      calls <> [] -> Forall (fun call => call.2 = SpecAllReduce op strategy shape dtype) calls ->
      strategy <> AllReduceTree 0 ->
      is_Some (peers !! root) -> (forall n, is_Some (peers !! n) -> (root <= n)%nat) ->
      agrees calls peers root
  | agrees_reduce peer op strategy shape dtype p :
      calls <> [] -> Forall (fun call => call.2 = SpecReduce peer op strategy shape dtype) calls ->
      strategy <> ReduceTree 0 -> peers !! root = Some p -> peer ∈ p ->
      agrees calls peers root
  | agrees_broadcast strategy metadata before after :
      calls = before ++ (root, SpecBroadcast strategy (Some metadata)) :: after ->
      Forall (fun call => call.2 = SpecBroadcast strategy None) (before ++ after) ->
      strategy <> BroadcastTree 0 ->
      agrees calls peers root.

Lemma agrees_perm calls calls' peers root : calls ≡ₚ calls' -> agrees calls peers root -> agrees calls' peers root.
Proof.
  intros Hp [op st sh dt Hne Ha Hs Hr Hm | k op st sh dt p Hne Ha Hs Hr Hk | st meta b a -> Ha Hs].
  - eapply agrees_all_reduce; [by intros ->; apply Permutation_nil_r in Hp| by rewrite <- Hp|done..].
  - eapply agrees_reduce; [by intros ->; apply Permutation_nil_r in Hp| by rewrite <- Hp|done..].
  - destruct (list_elem_of_split calls' (root, SpecBroadcast st (Some meta))) as (b' & a' & ->).
    { rewrite <- Hp. apply elem_of_app. right. by left. }
    eapply agrees_broadcast; [done| |done]. rewrite <- !Permutation_middle in Hp. apply Permutation_cons_inv in Hp. by rewrite <- Hp.
Qed.

Lemma min_key_spec (m : gmap NodeId (list PeerId)) root :
  min_key m = Some root <-> is_Some (m !! root) /\ forall n, is_Some (m !! n) -> (root <= n)%nat.
Proof.
  assert (Hkeys : forall n, n ∈ map fst (map_to_list m) <-> is_Some (m !! n)).
  { intros n. rewrite list_elem_of_fmap. split.
    - intros ([k p] & -> & Hk%elem_of_map_to_list). by exists p.
    - intros [p Hp]. exists (n, p). split; [done|]. by apply elem_of_map_to_list. }
  unfold min_key. destruct (map fst (map_to_list m)) as [|n ns] eqn:Hl.
  { split; [done|]. intros [Hr _]. apply Hkeys in Hr. by apply not_elem_of_nil in Hr. }
  assert (Hmin : forall n l, foldr Nat.min n l ∈ n :: l /\ forall x, x ∈ n :: l -> (foldr Nat.min n l <= x)%nat).
  { clear. intros n l. induction l as [|y l [IH1 IH2]]; cbn.
    - split; [by left|]. intros x ->%list_elem_of_singleton. done.
    - split.
      + destruct (Nat.min_spec y (foldr Nat.min n l)) as [[_ ->]|[_ ->]]; [right; by left|].
        apply elem_of_cons in IH1 as [->|Hin]; [by left|right; by right].
      + intros x [->|[->|Hx]%elem_of_cons]%elem_of_cons.
        * specialize (IH2 n ltac:(by left)). lia.
        * lia.
        * specialize (IH2 x ltac:(by right)). lia. }
  destruct (Hmin n ns) as [Hin Hle]. split.
  - intros [= <-]. split; [by apply Hkeys|]. intros k Hk%Hkeys. by apply Hle.
  - intros [Hr Hm]. f_equal. apply Hkeys in Hin. apply Hm in Hin. apply Hkeys, Hle in Hr. lia.
Qed.

(** Peers belong to one node each. *)
Definition disjoint_peers (peers : gmap NodeId (list PeerId)) : Prop :=
  forall n m p q k, peers !! n = Some p -> peers !! m = Some q -> k ∈ p -> k ∈ q -> n = m.

Lemma peer_node_spec h k (peers : gmap NodeId (list PeerId)) root : disjoint_peers peers ->
  peer_node h k peers = Some root <-> exists p, peers !! root = Some p /\ k ∈ p.
Proof.
  intros Hd. unfold peer_node. split.
  - intros ([n p] & [Hin Hk]%find_some & ->)%fmap_Some. apply bool_decide_eq_true in Hk.
    exists p. split; [|done]. apply elem_of_map_to_list. rewrite <- (iterate_permutation h peers). by apply list_elem_of_In.
  - intros (p & Hp & Hk). destruct (find _ _) as [[n q]|] eqn:Hf; cbn.
    + apply find_some in Hf as [Hin%list_elem_of_In Hq]. apply bool_decide_eq_true in Hq. cbn in Hq.
      rewrite (iterate_permutation h peers) in Hin. apply elem_of_map_to_list in Hin. f_equal. by apply (Hd n root q p k).
    + exfalso. apply (find_none _ _ ) with (x := (root, p)) in Hf; [by apply bool_decide_eq_false in Hf|].
      apply list_elem_of_In. rewrite (iterate_permutation h peers). by apply elem_of_map_to_list.
Qed.

Lemma existsb_differs (calls : Calls) spec :
  existsb (fun call => negb (bool_decide (call.2 = spec))) calls = false <-> Forall (fun call => call.2 = spec) calls.
Proof.
  rewrite Forall_forall. split.
  - intros Hb call Hin. apply not_true_iff_false in Hb. destruct (decide (call.2 = spec)) as [|Hne]; [done|].
    exfalso. apply Hb, existsb_exists. exists call. split; [by apply list_elem_of_In|]. by rewrite bool_decide_eq_false_2.
  - intros Ha. apply not_true_iff_false. rewrite existsb_exists. intros (call & Hin%list_elem_of_In & Hb).
    rewrite (bool_decide_eq_true_2 _ (Ha _ Hin)) in Hb. done.
Qed.

(** The loop over a broadcast finds the one call with a tensor. *)
Lemma broadcast_sources strategy source (calls : Calls) root :
  foldM (broadcast_source strategy) source calls = Ok (Some root) <->
  (source = Some root /\ Forall (fun call => call.2 = SpecBroadcast strategy None) calls) \/
  (source = None /\ exists metadata before after, calls = before ++ (root, SpecBroadcast strategy (Some metadata)) :: after /\
    Forall (fun call => call.2 = SpecBroadcast strategy None) (before ++ after)).
Proof.
  revert source. induction calls as [|[n spec] calls IH]; intros source; cbn [foldM].
  { split; [intros [= ->]; by left|]. intros [[-> _]|(_ & m & b & a & Hc & _)]; [done|]. by destruct b. }
  unfold broadcast_source at 2. cbn [fst snd].
  assert (Hbad : (forall m, spec <> SpecBroadcast strategy m) ->
    ~ ((source = Some root /\ Forall (fun call : NodeId * CollectiveSpec => call.2 = SpecBroadcast strategy None) ((n, spec) :: calls)) \/
       (source = None /\ exists metadata before after, (n, spec) :: calls = before ++ (root, SpecBroadcast strategy (Some metadata)) :: after /\
          Forall (fun call => call.2 = SpecBroadcast strategy None) (before ++ after)))).
  { intros Hn [[_ Ha]|(_ & m & b & a & Hc & Ha)].
    - apply Forall_cons in Ha as [Ha _]. by apply (Hn None).
    - destruct b as [|x b]; cbn in Hc; injection Hc as ? Hc; subst; [by eapply Hn|].
      cbn in Ha. apply Forall_cons in Ha as [Ha _]. by apply (Hn None). }
  destruct spec as [| |st meta]; [split; [done|intros Hx; by apply Hbad in Hx]..|].
  destruct (decide (strategy = st)) as [<-|Hne].
  2:{ split; [done|]. intros Hx. apply Hbad in Hx; [done|]. intros m. congruence. }
  clear Hbad. destruct meta as [meta|]; [destruct source as [src|]|]; cbn [mbind outcome_bind].
  - split; [done|]. intros [[_ Ha]|[? _]]; [|done]. by apply Forall_cons in Ha as [? _].
  - rewrite IH. split.
    + intros [[[= ->] Ha]|[? _]]; [|done]. right. split; [done|]. by exists meta, [], calls.
    + intros [[? _]|(_ & m & b & a & Hc & Ha)]; [done|]. left. destruct b as [|x b]; cbn in Hc; injection Hc as ? Hc; subst.
      * done.
      * cbn in Ha. by apply Forall_cons in Ha as [? _].
  - rewrite IH. split.
    + intros [[-> Ha]|(-> & m & b & a & -> & Ha)]; [left; split; [done|by constructor]|right].
      split; [done|]. exists m, ((n, SpecBroadcast strategy None) :: b), a. split; [done|]. by constructor.
    + intros [[-> Ha]|(-> & m & b & a & Hc & Ha)]; [left; split; [done|by apply Forall_cons in Ha as [_ ?]]|right].
      split; [done|]. destruct b as [|x b]; cbn in Hc; injection Hc as ? Hc; subst; [congruence|].
      cbn in Ha. apply Forall_cons in Ha as [_ Ha]. by exists m, b, a.
Qed.

Lemma agree_spec h (calls : Calls) peers root : disjoint_peers peers ->
  agree_collective h calls peers = Ok root <-> agrees calls peers root.
Proof.
  intros Hd. unfold agree_collective. destruct calls as [|[n spec] calls].
  { split; [done|]. intros [? ? ? ? ? |? ? ? ? ? ? ?|? ? b a Hc ?]; try done. by destruct b. }
  cbn [head ok_or mbind outcome_bind snd]. set (all := (n, spec) :: calls).
  assert (Hhead : forall spec', Forall (fun call : NodeId * CollectiveSpec => call.2 = spec') all -> spec' = spec).
  { intros spec' Ha. by apply Forall_cons in Ha as [? _]. }
  assert (Hbc : forall st m b a, all = b ++ (root, SpecBroadcast st (Some m)) :: a ->
    Forall (fun call => call.2 = SpecBroadcast st None) (b ++ a) -> exists m', spec = SpecBroadcast st m').
  { intros st m b a Hc Ha. destruct b as [|x b]; cbn in Hc; injection Hc as ? ?; subst; [by eexists|].
    cbn in Ha. apply Forall_cons in Ha as [? _]. cbn in *. by eexists. }
  assert (Hfail : forall b (e : GlobalCollectiveError) (m : outcome GlobalCollectiveError NodeId),
    (_ ← fail_if b e; m) = Ok root <-> b = false /\ m = Ok root).
  { intros b e m. destruct b; cbn; naive_solver. }
  destruct spec as [op st sh dt|k op st sh dt|st meta].
  - rewrite !Hfail, existsb_differs, bool_decide_eq_false, ok_or_Ok, min_key_spec. split.
    + intros (Ha & Hs & Hr & Hm). by eapply agrees_all_reduce.
    + intros [op' st' sh' dt' _ Ha Hs Hr Hm|k op' st' sh' dt' p _ Ha Hs Hp Hk|st' m b a Hc Ha Hs].
      * pose proof (Hhead _ Ha). simplify_eq. done.
      * by pose proof (Hhead _ Ha).
      * by destruct (Hbc _ _ _ _ Hc Ha).
  - rewrite !Hfail, existsb_differs, bool_decide_eq_false, ok_or_Ok, peer_node_spec by done. split.
    + intros (Ha & Hs & p & Hp & Hk). by eapply agrees_reduce.
    + intros [op' st' sh' dt' _ Ha Hs Hr Hm|k' op' st' sh' dt' p _ Ha Hs Hp Hk|st' m b a Hc Ha Hs].
      * by pose proof (Hhead _ Ha).
      * pose proof (Hhead _ Ha). simplify_eq. split; [done|]. split; [done|]. by exists p.
      * by destruct (Hbc _ _ _ _ Hc Ha).
  - rewrite Hfail, bool_decide_eq_false, bind_Ok. split.
    + intros (Hs & source & Hf & ->%ok_or_Ok). apply broadcast_sources in Hf as [[? _]|(_ & m & b & a & Hc & Ha)]; [done|].
      by eapply agrees_broadcast.
    + intros [op' st' sh' dt' _ Ha Hs Hr Hm|k' op' st' sh' dt' p _ Ha Hs Hp Hk|st' m b a Hc Ha Hs].
      * by pose proof (Hhead _ Ha).
      * by pose proof (Hhead _ Ha).
      * destruct (Hbc _ _ _ _ Hc Ha) as [m' [= -> ->]]. split; [done|]. exists (Some root). split; [|done].
        apply broadcast_sources. right. split; [done|]. by exists m, b, a.
Qed.

(** ** A round of collectives

    Every registered session begins once; the answers come with the last. *)
Record BeginCall := mkBegin { begin_session : SessionId; begin_request : RequestId; begin_spec : CollectiveSpec }.

Definition begin_event (h : nat) (c : BeginCall) : Event := EventRequest h (begin_session c) (begin_request c) (RequestBegin (begin_spec c)).

Record complete s : Prop := {
  complete_ok : group_ok s;
  complete_healthy : failed s = None;
  complete_nodes : registered_nodes s <> ∅;
  complete_registered : register_requests s = [];
  complete_idle : pending_collectives s = [];
}.

Definition waiting_of (c : BeginCall) : SessionId * RequestId * CollectiveSpec := (begin_session c, begin_request c, begin_spec c).

Lemma set_pending_pending s x y : set_pending (set_pending s x) y = set_pending s y.
Proof. by destruct s. Qed.

Lemma begin_step h s c : failed s = None ->
  orchestrator_step s (begin_event h c) =
    ('(s', r) ← begin h s (begin_session c) (begin_request c) (begin_spec c);
     Ok (if r is Some err then respond s' (begin_session c) (mkResponse (begin_request c) (ResponseError err)) else s')).
Proof. intros Hf. cbn. unfold process_request. by rewrite Hf. Qed.

Lemma begins_prefix s calls c : complete s -> is_Some (registered_nodes s !! begin_session c) ->
  begin_session c ∉ map begin_session calls -> begins (set_pending s (map waiting_of calls)) (begin_session c).
Proof.
  intros [Hs Hf Hn Hr Hp] Hc Hnew. split; cbn; [done|done|by apply (group_complete _ Hs)|].
  intros w (c' & -> & Hc')%list_elem_of_fmap Heq. apply Hnew. cbn in Heq. rewrite <- Heq. by apply list_elem_of_fmap_2.
Qed.

(** Before the last call nobody is answered. *)
Lemma begin_prefix h s calls : complete s -> NoDup (map begin_session calls) ->
  Forall (fun c => is_Some (registered_nodes s !! begin_session c)) calls ->
  (length calls < base.size (registered_nodes s))%nat ->
  orchestrate s (map (begin_event h) calls) = Ok (set_pending s (map waiting_of calls)).
Proof.
  intros Hs Hnd Hin Hl. induction calls as [|c calls IH] using rev_ind; [cbn; rewrite <- (complete_idle _ Hs); by destruct s|].
  rewrite map_app in Hnd. apply NoDup_app in Hnd as (Hnd & Hnew & _). apply Forall_app in Hin as [Hin Hc]. apply Forall_cons in Hc as [Hc _].
  rewrite length_app in Hl. cbn in Hl. unfold orchestrate. rewrite map_app, foldM_app. fold (orchestrate s (map (begin_event h) calls)).
  rewrite IH by (done || lia). cbn [mbind outcome_bind map foldM]. rewrite begin_step by apply (complete_healthy _ Hs).
  rewrite begin_waits.
  - cbn [mbind outcome_bind pending_collectives set_pending]. rewrite set_pending_pending, !map_app. reflexivity.
  - apply begins_prefix; [done|done|]. intros Hc'. apply (Hnew _ Hc'). cbn. by left.
  - cbn [pending_collectives set_pending registered_nodes]. rewrite length_map. lia.
Qed.

(** The calls with the nodes of their sessions. *)
Definition specs_of s (calls : list BeginCall) : Calls :=
  map (fun c => (default 0%nat (registered_nodes s !! begin_session c), begin_spec c)) calls.

Lemma node_specs_of s s' calls : registered_nodes s' = registered_nodes s ->
  Forall (fun c => is_Some (registered_nodes s !! begin_session c)) calls ->
  mapM (node_spec s') (map waiting_of calls) = Ok (specs_of s calls).
Proof.
  intros Hr. induction 1 as [|c calls [n Hc] _ IH]; [done|]. cbn [map mapM].
  assert (node_spec s' (waiting_of c) = Ok (n, begin_spec c)) as -> by (unfold node_spec; cbn; by rewrite Hr, Hc).
  cbn [mbind outcome_bind]. rewrite IH. cbn. by rewrite Hc.
Qed.

Lemma begin_round_state h s calls : complete s -> NoDup (map begin_session calls) ->
  Forall (fun c => is_Some (registered_nodes s !! begin_session c)) calls ->
  length calls = base.size (registered_nodes s) -> next_transfer_id s + 1 < 2 ^ 64 ->
  orchestrate s (map (begin_event h) calls) =
    Ok (respond_all (begun_group h s (specs_of s calls))
          (map (fun c => (begin_session c, mkResponse (begin_request c) (begin_content h s (specs_of s calls)))) calls)).
Proof.
  intros Hs Hnd Hin Hl Hmax. destruct calls as [|c calls _] using rev_ind.
  { cbn in Hl. symmetry in Hl. apply map_size_empty_inv in Hl. by destruct (complete_nodes _ Hs). }
  pose proof Hin as Hall. rewrite map_app in Hnd. apply NoDup_app in Hnd as (Hnd & Hnew & _).
  apply Forall_app in Hin as [Hin Hc]. apply Forall_cons in Hc as [Hc _].
  rewrite length_app in Hl. cbn in Hl. unfold orchestrate. rewrite map_app, foldM_app. fold (orchestrate s (map (begin_event h) calls)).
  rewrite begin_prefix by (done || lia). cbn [mbind outcome_bind map foldM]. rewrite begin_step by apply (complete_healthy _ Hs).
  pose proof (group_transfer _ (complete_ok _ Hs)) as [Ht _].
  rewrite (begin_runs h _ _ _ _ (specs_of s (calls ++ [c]))).
  - cbn [mbind outcome_bind pending_collectives set_pending]. rewrite respond_to_all. f_equal.
    change [(begin_session c, begin_request c, begin_spec c)] with (map waiting_of [c]).
    rewrite <- map_app, map_map. unfold begun_group, begin_content. done.
  - apply begins_prefix; [done|done|]. intros Hc'. apply (Hnew _ Hc'). cbn. by left.
  - cbn [pending_collectives set_pending registered_nodes]. rewrite length_map. lia.
  - cbn [pending_collectives set_pending]. change [(begin_session c, begin_request c, begin_spec c)] with (map waiting_of [c]).
    rewrite <- map_app. by apply node_specs_of.
  - done.
  - by intros _.
Qed.

Lemma begin_content_spec h s specs : group_ok s ->
  (forall root t, begin_content h s specs = ResponseBegin root t <-> t = next_transfer_id s /\ agrees specs (node_peers s) root) /\
  ((exists root, agrees specs (node_peers s) root) \/ exists error, begin_content h s specs = ResponseError error).
Proof.
  intros Hs. assert (Hd : disjoint_peers (node_peers s)) by (intros n m p q k; apply (group_peer _ Hs)).
  pose proof (fun root => agree_spec h specs (node_peers s) root Hd) as Ha. pose proof (agree_no_panic h specs (node_peers s)) as Hnp.
  unfold begin_content. destruct (agree_collective h specs (node_peers s)) as [r|e|]; [| |done].
  - split; [|left; exists r; by apply Ha]. intros root t. split.
    + intros [= <- <-]. split; [done|]. by apply Ha.
    + intros [-> Hr%Ha]. congruence.
  - split; [|right; by exists e]. intros root t. split; [done|]. intros [_ Hr%Ha]. done.
Qed.

(** ** Registration

    The nodes of a group register, in any order; the last is answered together with the others. *)
Record RegisterCall := mkRegister {
  register_session : SessionId;
  register_request : RequestId;
  register_address : Address;
  register_peers : list PeerId;
}.

Definition register_event (h num_nodes : nat) (c : RegisterCall) : Event :=
  EventRequest h (register_session c) (register_request c) (RequestRegister (register_address c) num_nodes (register_peers c)).

(** The nodes are numbered in the order of their calls. *)
Definition addresses_of (calls : list RegisterCall) : gmap NodeId Address := list_to_map (imap (fun i c => (i, register_address c)) calls).
Definition peers_of (calls : list RegisterCall) : gmap NodeId (list PeerId) := list_to_map (imap (fun i c => (i, register_peers c)) calls).
Definition nodes_of (calls : list RegisterCall) : gmap SessionId NodeId := list_to_map (imap (fun i c => (register_session c, i)) calls).
Definition devices_of (calls : list RegisterCall) : Z := sum_Z (map (fun c => Zlen (register_peers c)) calls).

Definition forming s (num_nodes : nat) (calls : list RegisterCall) : GlobalCollectiveState :=
  mkState (nodes_of calls) (addresses_of calls) (peers_of calls) (if calls is [] then None else Some num_nodes) (devices_of calls)
    (imap (fun i c => (register_session c, register_request c, i)) calls) (sessions s) [] (next_transfer_id s) (Zlen calls) None.

Record distinct_calls (calls : list RegisterCall) : Prop := {
  distinct_sessions : NoDup (map register_session calls);
  distinct_addresses : NoDup (map register_address calls);
  distinct_peers : NoDup (concat (map register_peers calls));
  distinct_some : Forall (fun c => register_peers c <> []) calls;
}.

Lemma distinct_init calls c : distinct_calls (calls ++ [c]) -> distinct_calls calls.
Proof.
  intros [Hs Ha Hp Hn]. rewrite map_app in Hs, Ha, Hp. rewrite concat_app in Hp. split.
  - by apply NoDup_app in Hs as [? _].
  - by apply NoDup_app in Ha as [? _].
  - by apply NoDup_app in Hp as [? _].
  - by apply Forall_app in Hn as [? _].
Qed.

Lemma imap_snoc {A B} (f : nat -> A -> B) l x : imap f (l ++ [x]) = imap f l ++ [f (length l) x].
Proof. rewrite imap_app. cbn. by rewrite Nat.add_0_r. Qed.

Lemma indexed_keys {A B} (f : A -> B) (l : list A) k x : (k, x) ∈ imap (fun i c => (i, f c)) l -> (k < length l)%nat /\ exists c, c ∈ l /\ x = f c.
Proof.
  intros (i & c & [= -> ->] & Hc)%elem_of_lookup_imap. split; [by eapply lookup_lt_Some|]. exists c. split; [|done].
  by eapply list_elem_of_lookup_2.
Qed.

Lemma indexed_snoc {A B} (f : A -> B) (l : list A) c :
  (list_to_map (imap (fun i c => (i, f c)) (l ++ [c])) : gmap nat B) = <[length l := f c]> (list_to_map (imap (fun i c => (i, f c)) l)).
Proof.
  rewrite imap_snoc, list_to_map_snoc; [done|]. intros ([k x] & Hk & Hin)%list_elem_of_fmap. cbn in Hk. subst k.
  apply indexed_keys in Hin as [? _]. lia.
Qed.

Lemma indexed_lookup {A B} (f : A -> B) (l : list A) i x :
  (list_to_map (imap (fun i c => (i, f c)) l) : gmap nat B) !! i = Some x -> exists c, c ∈ l /\ x = f c.
Proof. intros Hl%elem_of_list_to_map_2. by apply indexed_keys in Hl as [_ ?]. Qed.

Lemma nodes_keys calls i : i ∉ map register_session calls -> nodes_of calls !! i = None.
Proof.
  intros Hi. apply not_elem_of_list_to_map_1. intros ([k n] & Hk & Hin)%list_elem_of_fmap. cbn in Hk. subst k.
  apply elem_of_lookup_imap in Hin as (j & c & [= -> ->] & Hc). apply Hi, list_elem_of_fmap_2. by eapply list_elem_of_lookup_2.
Qed.

Lemma nodes_snoc calls c : register_session c ∉ map register_session calls ->
  nodes_of (calls ++ [c]) = <[register_session c := length calls]> (nodes_of calls).
Proof.
  intros Hc. unfold nodes_of. rewrite imap_snoc, list_to_map_snoc; [done|].
  intros ([k n] & Hk & Hin)%list_elem_of_fmap. cbn in Hk. subst k.
  apply elem_of_lookup_imap in Hin as (j & c' & [= Heq ->] & Hc'). apply Hc. rewrite Heq. apply list_elem_of_fmap_2. by eapply list_elem_of_lookup_2.
Qed.

Lemma nodes_size calls : NoDup (map register_session calls) -> base.size (nodes_of calls) = length calls.
Proof.
  induction calls as [|c calls IH] using rev_ind; [done|]. rewrite map_app. intros (Hnd & Hnew & _)%NoDup_app.
  assert (Hc : register_session c ∉ map register_session calls) by (intros Hc; apply (Hnew _ Hc); by left).
  rewrite nodes_snoc, map_size_insert_None, IH, length_app by (done || by apply nodes_keys). cbn. lia.
Qed.

Lemma forming_registers s num_nodes calls c : distinct_calls (calls ++ [c]) -> (0 < num_nodes)%nat ->
  registers (forming s num_nodes calls) (register_session c) (register_address c) num_nodes (register_peers c).
Proof.
  intros [Hs Ha Hp Hn] Hnum. rewrite map_app in Hs, Ha, Hp. rewrite concat_app in Hp.
  apply NoDup_app in Hs as (_ & Hs & _). apply NoDup_app in Ha as (_ & Ha & _). apply NoDup_app in Hp as (_ & Hp & Hpc).
  apply Forall_app in Hn as [_ Hn]. apply Forall_cons in Hn as [Hn _]. cbn in Hpc, Hp. rewrite app_nil_r in Hpc, Hp.
  split; cbn; try done.
  - apply nodes_keys. intros Hc. apply (Hs _ Hc). by left.
  - intros n a (c' & Hc' & ->)%indexed_lookup Heq. apply (Ha (register_address c')); [by apply list_elem_of_fmap_2|].
    rewrite Heq. by left.
  - destruct calls as [|c0 calls]; [by left|by right].
  - intros k n p Hk (c' & Hc' & ->)%indexed_lookup Hk'. apply (Hp k); [|done]. apply list_elem_of_In, in_concat.
    exists (register_peers c'). split; [apply in_map; by apply list_elem_of_In|by apply list_elem_of_In].
  - destruct calls; [by left|by right].
Qed.

Lemma empty_forming s num_nodes : group_ok s -> registered_nodes s = ∅ -> s = forming s num_nodes [].
Proof.
  intros Hs Hr. destruct (group_none _ Hs Hr) as (Hc & Hn & Hw).
  assert (Hempty : forall {A} (m : gmap nat A), (forall n, is_Some (m !! n) <-> exists id, registered_nodes s !! id = Some n) -> m = ∅).
  { intros A m Hm. apply map_empty. intros n. apply eq_None_not_Some. intros [id Hid]%Hm. by rewrite Hr, lookup_empty in Hid. }
  pose proof (Hempty _ _ (group_addresses _ Hs)) as Ha. pose proof (Hempty _ _ (group_peers _ Hs)) as Hp.
  pose proof (group_total _ Hs) as Ht. rewrite Hp, peers_total_empty in Ht.
  assert (Hf : failed s = None) by (destruct (failed s) eqn:Hf; [by destruct (group_failed _ Hs _ Hf)|done]).
  assert (Hq : pending_collectives s = []).
  { destruct (group_unfinished _ Hs) as [Hu|Hu]; [|done]. rewrite Hr, map_size_empty in Hu. lia. }
  destruct s. cbn in *. unfold forming, devices_of, nodes_of, addresses_of, peers_of. cbn. by subst.
Qed.

Lemma devices_snoc calls c : devices_of (calls ++ [c]) = devices_of calls + Zlen (register_peers c).
Proof. unfold devices_of. rewrite map_app, sum_Z_app. cbn. lia. Qed.

Lemma devices_nonneg calls : 0 <= devices_of calls.
Proof. apply sum_Z_nonneg, Forall_map, Forall_true. intros c. apply Zlen_nonneg. Qed.

Lemma forming_joined s num_nodes calls c : distinct_calls (calls ++ [c]) -> devices_of (calls ++ [c]) < 2 ^ 32 ->
  length (calls ++ [c]) <> num_nodes ->
  set_sessions (joined_group (forming s num_nodes calls) (register_session c) (register_request c) (register_address c) num_nodes (register_peers c))
    (sessions s) = forming s num_nodes (calls ++ [c]).
Proof.
  intros [Hs Ha Hp Hn] Hd Hl. rewrite devices_snoc in Hd. pose proof (devices_nonneg calls). pose proof (Zlen_nonneg (register_peers c)).
  assert (Hc : register_session c ∉ map register_session calls).
  { rewrite map_app in Hs. apply NoDup_app in Hs as (_ & Hs & _). intros Hc. apply (Hs _ Hc). by left. }
  unfold joined_group, forming. cbn [registered_nodes next_node_id node_addresses node_peers num_global_peers register_requests].
  assert (Hnode : Z.to_nat (Zlen calls) = length calls) by (unfold Zlen; lia). rewrite !Hnode, wrap_in by (unfold in_width; lia).
  rewrite map_size_insert_None, nodes_size by
    (try (rewrite map_app in Hs; by apply NoDup_app in Hs as [? _]); by apply nodes_keys).
  rewrite length_app in Hl. cbn in Hl. rewrite (proj2 (Nat.eqb_neq _ _)) by lia. unfold set_sessions. cbn.
  rewrite nodes_snoc, imap_snoc, devices_snoc by done. unfold addresses_of, peers_of. rewrite !indexed_snoc.
  assert (Zlen (calls ++ [c]) = Zlen calls + 1) as -> by (unfold Zlen; rewrite length_app; cbn; lia).
  by destruct calls.
Qed.

Lemma register_step s h num_nodes calls c : distinct_calls (calls ++ [c]) -> (0 < num_nodes)%nat ->
  devices_of (calls ++ [c]) < 2 ^ 32 -> Zlen (calls ++ [c]) < 2 ^ 32 ->
  let f := forming s num_nodes calls in
  let t := set_sessions (joined_group f (register_session c) (register_request c) (register_address c) num_nodes (register_peers c)) (sessions s) in
  orchestrator_step f (register_event h num_nodes c) =
    Ok (if (base.size (registered_nodes t) =? num_nodes)%nat
        then respond_all t (register_answers f (register_session c) (register_request c) (register_address c) (register_peers c)) else t).
Proof.
  intros Hd Hnum Hdev Hlen. cbn zeta. rewrite devices_snoc in Hdev. pose proof (devices_nonneg calls).
  pose proof (Zlen_nonneg (register_peers c)). unfold Zlen in Hlen. rewrite length_app in Hlen. cbn in Hlen.
  cbn [orchestrator_step register_event]. unfold process_request. cbn [failed forming].
  rewrite register_joined; [done|by apply forming_registers|cbn; unfold Zlen; lia|done|cbn; unfold Zlen; lia|cbn].
  rewrite wrap_in by (unfold in_width; lia). done.
Qed.

Lemma register_prefix s h num_nodes calls : group_ok s -> registered_nodes s = ∅ -> distinct_calls calls ->
  (length calls < num_nodes)%nat -> devices_of calls < 2 ^ 32 -> Zlen calls < 2 ^ 32 ->
  orchestrate s (map (register_event h num_nodes) calls) = Ok (forming s num_nodes calls).
Proof.
  intros Hs Hr. induction calls as [|c calls IH] using rev_ind; intros Hd Hl Hdev Hlen; [cbn; by rewrite <- empty_forming|].
  pose proof Hdev as Hdev'. rewrite devices_snoc in Hdev'. pose proof (Zlen_nonneg (register_peers c)).
  assert (Zlen (calls ++ [c]) = Zlen calls + 1) as Hz by (unfold Zlen; rewrite length_app; cbn; lia).
  unfold orchestrate. rewrite map_app, foldM_app. fold (orchestrate s (map (register_event h num_nodes) calls)).
  rewrite IH; [|by eapply distinct_init|rewrite length_app in Hl; lia|lia|lia]. cbn [mbind outcome_bind map foldM].
  rewrite register_step by (done || lia). rewrite forming_joined by (done || lia). cbn [registered_nodes forming].
  rewrite nodes_size by apply (distinct_sessions _ Hd). rewrite (proj2 (Nat.eqb_neq _ _)) by lia. done.
Qed.

Definition register_answer (calls : list RegisterCall) (i : nat) (c : RegisterCall) : SessionId * CollectiveMessageResponse :=
  (register_session c, mkResponse (register_request c) (ResponseRegister i (addresses_of calls) (devices_of calls))).

Definition formed s (calls : list RegisterCall) : GlobalCollectiveState :=
  mkState (nodes_of calls) (addresses_of calls) (peers_of calls) (Some (length calls)) (devices_of calls)
    [] (sessions s) [] (next_transfer_id s) (Zlen calls) None.

Lemma register_round_state s h calls : group_ok s -> registered_nodes s = ∅ -> distinct_calls calls -> calls <> [] ->
  devices_of calls < 2 ^ 32 -> Zlen calls < 2 ^ 32 ->
  orchestrate s (map (register_event h (length calls)) calls) =
    Ok (respond_all (formed s calls) (imap (register_answer calls) calls)).
Proof.
  intros Hs Hr Hd Hne Hdev Hlen. destruct calls as [|c calls _] using rev_ind; [done|]. clear Hne.
  pose proof Hdev as Hdev'. rewrite devices_snoc in Hdev'. pose proof (Zlen_nonneg (register_peers c)). pose proof (devices_nonneg calls).
  assert (Zlen (calls ++ [c]) = Zlen calls + 1) as Hz by (unfold Zlen; rewrite length_app; cbn; lia).
  assert (Hl : length (calls ++ [c]) = S (length calls)) by (rewrite length_app; cbn; lia).
  unfold orchestrate. rewrite map_app, foldM_app. fold (orchestrate s (map (register_event h (length (calls ++ [c]))) calls)).
  rewrite register_prefix; [|done|done|by eapply distinct_init|lia|lia|lia]. cbn [mbind outcome_bind map foldM].
  rewrite register_step by (done || lia). cbn zeta.
  assert (Hc : register_session c ∉ map register_session calls).
  { pose proof (distinct_sessions _ Hd) as Hs'. rewrite map_app in Hs'. apply NoDup_app in Hs' as (_ & Hs' & _). intros Hc. apply (Hs' _ Hc). by left. }
  assert (Hnode : Z.to_nat (Zlen calls) = length calls) by (unfold Zlen; lia).
  unfold joined_group, register_answers, formed, set_sessions. cbn. rewrite !Hnode, wrap_in by (unfold in_width; lia).
  rewrite <- nodes_snoc by done. rewrite nodes_size by apply (distinct_sessions _ Hd). rewrite Nat.eqb_refl. cbn.
  unfold addresses_of, peers_of. rewrite <- !indexed_snoc, <- devices_snoc, <- Hz.
  change [(register_session c, register_request c, length calls)] with
    ([(fun i c => (register_session c, register_request c, i)) (length calls) c]).
  rewrite <- imap_snoc. f_equal. f_equal. apply list_eq. intros i. rewrite list_lookup_fmap, !list_lookup_imap.
  by destruct ((calls ++ [c]) !! i).
Qed.

(** ** What an event puts into the queues

    Only an agreement puts a [Begin] there, the same for all, and only while the group is healthy. *)
Definition grants (content : RemoteResponse) : bool :=
  match content with ResponseBegin _ _ | ResponseRegister _ _ _ => true | _ => false end.

Definition granted (new : CollectiveMessageResponse -> Prop) s s' : Prop :=
  forall id r, r ∈ queue_of s' id -> grants (response_content r) = true -> r ∈ queue_of s id \/ new r.

Definition no_grant (r : CollectiveMessageResponse) : Prop := False.

Lemma granted_weaken (P Q : CollectiveMessageResponse -> Prop) s s' : (forall r, P r -> Q r) -> granted P s s' -> granted Q s s'.
Proof. intros HPQ Hg id r Hr Hc. destruct (Hg id r Hr Hc); [by left|right; auto]. Qed.

Lemma granted_trans P s t u : granted no_grant s t -> granted P t u -> granted P s u.
Proof. intros H01 H12 id r Hr Hc. destruct (H12 id r Hr Hc) as [Ht|]; [|by right]. by destruct (H01 id r Ht Hc); [left|]. Qed.

Lemma granted_trans_r P s t u : granted P s t -> granted no_grant t u -> granted P s u.
Proof. intros H01 H12 id r Hr Hc. destruct (H12 id r Hr Hc) as [Ht|]; [|done]. auto. Qed.

(** The queues stay, or are cut, or their sessions go. *)
Lemma granted_shorter P s s' : (forall id, queue_of s' id ⊆ queue_of s id) -> granted P s s'.
Proof. intros Hq id r Hr _. left. by apply (Hq id). Qed.

Lemma granted_same P s s' : sessions s' = sessions s -> granted P s s'.
Proof. intros Hq. apply granted_shorter. intros id. unfold queue_of. by rewrite Hq. Qed.

Lemma granted_respond_all (P : CollectiveMessageResponse -> Prop) s l :
  (forall r, r ∈ map snd l -> grants (response_content r) = true -> P r) -> granted P s (respond_all s l).
Proof. intros Hl id r [Hr|Hr]%respond_all_elem Hc; [by left|right; auto]. Qed.

Lemma granted_responds {A} P s content (l : list (SessionId * RequestId * A)) : grants content = false ->
  granted P s (foldl (respond_to content) s l).
Proof.
  intros Hc. rewrite respond_to_all. apply granted_respond_all. intros r Hr Hg.
  apply list_elem_of_fmap in Hr as ([? ?] & -> & Hr). apply list_elem_of_fmap in Hr as (w & [= -> ->] & _). cbn in Hg. congruence.
Qed.

Lemma granted_respond P s id r : grants (response_content r) = false -> granted P s (respond s id r).
Proof. intros Hc. apply (granted_respond_all P s [(id, r)]). intros r' ->%list_elem_of_singleton Hg. cbn in Hg. congruence. Qed.

Lemma granted_refl P s : granted P s s.
Proof. by apply granted_same. Qed.

Lemma granted_clear P s : granted P s (clear_if_empty s).
Proof. apply granted_same. unfold clear_if_empty. by destruct (_ =? _)%nat. Qed.

Lemma disconnect_granted s id s' : disconnect s id = Ok s' -> granted no_grant s s'.
Proof.
  unfold disconnect. intros (t & Ht & [= <-])%bind_Ok. eapply granted_trans; [|eapply granted_trans; [|apply granted_clear]].
  - destruct (registered_nodes s !! id) as [node|]; [|injection Ht as <-; apply granted_refl].
    apply bind_Ok in Ht as (num & _ & [= <-]). unfold fail_registers, fail_pending.
    eapply granted_trans; [|by apply granted_responds]. eapply granted_trans; [|by apply granted_same].
    eapply granted_trans; [|by apply granted_responds]. by apply granted_same.
  - apply granted_shorter. intros j. unfold queue_of. cbn. destruct (decide (j = id)) as [->|Hj].
    + rewrite lookup_delete_eq. intros r Hr. by apply not_elem_of_nil in Hr.
    + by rewrite lookup_delete_ne.
Qed.

Lemma finish_granted s id request s' e : finish s id request = Ok (s', e) -> granted no_grant s s'.
Proof.
  unfold finish. destruct (registered_nodes s !! id) as [node|]; [|intros [= <- _]; apply granted_refl].
  intros (num & _ & [= <- _])%bind_Ok. eapply granted_trans; [|by apply granted_respond].
  unfold fail_registers. eapply granted_trans; [|by apply granted_responds]. eapply granted_trans; [|by apply granted_same].
  eapply granted_trans; [|apply granted_clear]. unfold fail_pending.
  eapply granted_trans; [|by apply granted_responds]. by apply granted_same.
Qed.

Lemma finish_error s id request s' e : finish s id request = Ok (s', e) -> e = None \/ e = Some NotRegisteredOnFinish.
Proof.
  unfold finish. destruct (registered_nodes s !! id); [|intros [= _ <-]; by right]. intros (num & _ & [= _ <-])%bind_Ok. by left.
Qed.

Lemma queue_insert s id session (m : gmap SessionId Session) j : m = sessions s -> session_queue session ⊆ queue_of s id ->
  queue_of (set_sessions s (<[id := session]> m)) j ⊆ queue_of s j.
Proof.
  intros -> Hq. unfold queue_of at 1. cbn. destruct (decide (j = id)) as [->|Hj].
  - by rewrite lookup_insert_eq.
  - by rewrite lookup_insert_ne.
Qed.

Lemma init_granted s id : granted no_grant s (init_session s id).
Proof.
  unfold init_session. destruct (sessions s !! id); [apply granted_refl|].
  apply granted_shorter. intros j. apply queue_insert; [done|]. intros r Hr. by apply not_elem_of_nil in Hr.
Qed.

Lemma responder_granted s id s' : get_session_responder s id = Ok s' -> granted no_grant s s'.
Proof.
  unfold get_session_responder. intros (session & Hs & Hr)%bind_Ok. destruct (session_receiver session); [|done].
  injection Hr as <-. eapply granted_trans; [apply init_granted|]. apply granted_shorter. intros j. apply queue_insert; [done|].
  unfold queue_of. destruct (sessions (init_session s id) !! id); [|done]. by injection Hs as ->.
Qed.

Lemma take_granted s id : granted no_grant s (take_response s id).
Proof.
  unfold take_response. destruct (sessions s !! id) as [session|] eqn:Hs; [|apply granted_refl].
  apply granted_shorter. intros j. apply queue_insert; [done|]. unfold queue_of. rewrite Hs. cbn.
  intros x Hx. destruct (session_queue session); [done|by right].
Qed.

(** Requests to register and to begin are all that can be granted. *)
Definition asks (event : Event) : bool :=
  match event with
  | EventRequest _ _ _ (RequestRegister _ _ _) | EventRequest _ _ _ (RequestBegin _) => true
  | _ => false
  end.

Lemma finish_request_granted s id r s' :
  ('(s', o) ← finish s id r; Ok (if o is Some err then respond s' id (mkResponse r (ResponseError err)) else s')) = Ok s' ->
  granted no_grant s s'.
Proof.
  intros ([t o] & Ht & [= <-])%bind_Ok. eapply granted_trans; [by eapply finish_granted|].
  apply finish_error in Ht as [-> | ->]; [apply granted_refl|by apply granted_respond].
Qed.

Lemma quiet_granted s event s' : asks event = false -> orchestrator_step s event = Ok s' -> granted no_grant s s'.
Proof.
  destruct event as [id|id|h id r request|id|id]; intros Ha; cbn [orchestrator_step].
  - intros [= <-]. apply init_granted.
  - destruct (get_session_responder s id) eqn:Hr; intros [= <-]; [by eapply responder_granted|apply init_granted].
  - destruct request; [done..|]. unfold process_request. destruct (failed s); cbn [is_finish negb]; apply finish_request_granted.
  - intros [= <-]. apply take_granted.
  - apply disconnect_granted.
Qed.

(** Requests of a group that has failed grant nothing. *)
Lemma failed_granted s event s' e : failed s = Some e -> orchestrator_step s event = Ok s' -> granted no_grant s s'.
Proof.
  intros Hf. destruct (asks event) eqn:Ha; [|by apply quiet_granted].
  destruct event as [| |h id r request| |]; try done. cbn. unfold process_request. rewrite Hf.
  destruct request; try done; cbn; intros [= <-]; by apply granted_respond.
Qed.

(** ** The group as a transition system

    Without the queues, an event is one of these transitions, and nothing else happens to the group. *)
Inductive group_step s : Event -> GlobalCollectiveState -> Prop :=
  | step_none event : group_step s event (core s)
  | step_leaves event id node :
      registered_nodes s !! id = Some node ->
      event = EventDisconnect id \/ (exists h r, event = EventRequest h id r RequestFinish) ->
      group_step s event (left_group s id node)
  | step_joins h id r address num_nodes peers :
      failed s = None -> registers s id address num_nodes peers -> register_fits s peers ->
      group_step s (EventRequest h id r (RequestRegister address num_nodes peers)) (joined_group s id r address num_nodes peers)
  | step_waits h id r spec :
      failed s = None -> begins s id -> (S (length (pending_collectives s)) < base.size (registered_nodes s))%nat ->
      group_step s (EventRequest h id r (RequestBegin spec)) (core (set_pending s (pending_collectives s ++ [(id, r, spec)])))
  | step_begins h id r spec specs :
      failed s = None -> begins s id -> S (length (pending_collectives s)) = base.size (registered_nodes s) ->
      mapM (node_spec s) (pending_collectives s ++ [(id, r, spec)]) = Ok specs -> begin_fits h s specs ->
      group_step s (EventRequest h id r (RequestBegin spec)) (core (begun_group h s specs)).

Lemma answered_core (m : outcome Empty_set (GlobalCollectiveState * option GlobalCollectiveError)) id r s' (P : GlobalCollectiveState -> Prop) :
  ('(s, o) ← m; Ok (if o is Some err then respond s id (mkResponse r (ResponseError err)) else s)) = Ok s' ->
  (forall t o, m = Ok (t, o) -> P (core t)) -> P (core s').
Proof.
  intros ([t o] & Ht & [= <-])%bind_Ok HP. destruct o; [rewrite core_respond|]; by eapply HP.
Qed.

Lemma finish_group_step s h id r t o : group_ok s -> finish s id r = Ok (t, o) ->
  group_step s (EventRequest h id r RequestFinish) (core t).
Proof.
  intros Hs Ht. destruct (registered_nodes s !! id) as [node|] eqn:Hid.
  - destruct (finish_left s id r node Hs Hid) as (t' & Ht' & Hc). rewrite Ht in Ht'. injection Ht' as -> _. rewrite Hc.
    apply step_leaves; [done|right; by exists h, r].
  - unfold finish in Ht. rewrite Hid in Ht. injection Ht as <- _. constructor.
Qed.

Lemma register_group_step s h id r address num_nodes peers t o : group_ok s -> failed s = None ->
  register s id r address num_nodes peers = Ok (t, o) ->
  group_step s (EventRequest h id r (RequestRegister address num_nodes peers)) (core t).
Proof.
  intros Hs Hf Ht. destruct (register_error s id address num_nodes peers) as [e|] eqn:He.
  { unfold register in Ht. rewrite He in Ht. injection Ht as <- _. constructor. }
  apply register_error_None in He as Hr. destruct (decide (register_fits s peers)) as [Hfit|Hover].
  - pose proof Hfit as [Hn Hp]. pose proof (group_next _ Hs) as [? _].
    assert (0 <= num_global_peers s) by (rewrite (group_total _ Hs); apply peers_total_nonneg).
    rewrite register_joined in Ht by done. match type of Ht with Ok (?a, _) = _ => assert (t = a) as -> by congruence end.
    rewrite register_core. by constructor.
  - by rewrite register_overflow in Ht.
Qed.

Lemma begin_group_step s h id r spec t o : group_ok s -> failed s = None ->
  begin h s id r spec = Ok (t, o) -> group_step s (EventRequest h id r (RequestBegin spec)) (core t).
Proof.
  intros Hs Hf Ht. destruct (begin_error s id) as [e|] eqn:He.
  { unfold begin in Ht. rewrite He in Ht. injection Ht as <- _. constructor. }
  apply begin_error_None in He as Hb.
  destruct (decide (S (length (pending_collectives s)) < base.size (registered_nodes s))%nat) as [Hl|Hl].
  { rewrite begin_waits in Ht by done. injection Ht as <- _. by constructor. }
  pose proof (begin_last s id Hs Hb Hl) as Hlen. destruct (begin_specs s id r spec Hs Hb) as [specs Hspecs].
  destruct (decide (begin_fits h s specs)) as [Hfit|Hover].
  - rewrite (begin_runs h s id r spec specs) in Ht by (done || apply (group_transfer _ Hs)). injection Ht as <- _.
    rewrite core_respond_all. by apply step_begins.
  - by rewrite (begin_overflow h s id r spec specs) in Ht.
Qed.

Lemma step_refines s event s' : group_ok s -> orchestrator_step s event = Ok s' -> group_step s event (core s').
Proof.
  intros Hs. assert (Hinit : forall id, core (init_session s id) = core s) by (intros id; unfold init_session; by destruct (sessions s !! id)).
  destruct event as [id|id|h id r request|id|id]; cbn [orchestrator_step].
  - intros [= <-]. rewrite Hinit. constructor.
  - destruct (get_session_responder s id) as [t| |] eqn:Hr; intros [= <-]; [|rewrite Hinit; constructor].
    unfold get_session_responder in Hr. apply bind_Ok in Hr as (session & _ & Hr). destruct (session_receiver session); [|done].
    injection Hr as <-. rewrite core_set_sessions, Hinit. constructor.
  - unfold process_request. destruct (failed s) as [e|] eqn:Hf.
    + destruct request; cbn [is_finish negb]; [intros [= <-]; rewrite core_respond; constructor..|].
      intros Hr. apply (answered_core _ _ _ _ _ Hr). intros t o. by apply finish_group_step.
    + destruct request; intros Hr; apply (answered_core _ _ _ _ _ Hr); intros t o;
        [by apply register_group_step|by apply begin_group_step|by apply finish_group_step].
  - intros [= <-]. unfold take_response. destruct (sessions s !! id); [rewrite core_set_sessions|]; constructor.
  - intros Hd. destruct (registered_nodes s !! id) as [node|] eqn:Hid.
    + destruct (disconnect_left s id node Hs Hid) as (t' & Ht' & Hc). rewrite Hd in Ht'. injection Ht' as ->. rewrite Hc.
      apply step_leaves; [done|by left].
    + destruct (disconnect_other s id Hs Hid) as (t' & Ht' & Hc). rewrite Hd in Ht'. injection Ht' as ->. rewrite Hc. constructor.
Qed.

Lemma left_group_failed s id node : failed (left_group s id node) <> None \/ registered_nodes (left_group s id node) = ∅.
Proof.
  unfold left_group, clear_if_empty. destruct (Nat.eqb_spec (base.size (delete id (registered_nodes s))) 0) as [Hz|Hz]; cbn.
  - rewrite Hz. cbn. right. by apply map_size_empty_inv.
  - rewrite (proj2 (Nat.eqb_neq _ _) Hz). by left.
Qed.

(** A failed group stays failed until nobody is registered. *)
Lemma failed_stays s event s' : group_ok s -> failed s <> None -> orchestrator_step s event = Ok s' ->
  failed s' <> None \/ registered_nodes s' = ∅.
Proof.
  intros Hs Hf Hstep%step_refines; [|done].
  remember (core s') as u eqn:Ht. symmetry in Ht.
  assert (Hc : forall t, core s' = t -> failed t <> None \/ registered_nodes t = ∅ -> failed s' <> None \/ registered_nodes s' = ∅).
  { intros t <-. done. }
  destruct Hstep as [ev|ev id node _ _|? ? ? ? ? ? Hh|? ? ? ? Hh|? ? ? ? ? Hh]; try (by rewrite Hh in Hf).
  - apply (Hc _ Ht). by left.
  - apply (Hc _ Ht). apply left_group_failed.
Qed.

(** *** Transfers *)
Definition transfer_of (content : RemoteResponse) : option (NodeId * Z) :=
  match content with ResponseBegin root t => Some (root, t) | _ => None end.

(** The only transfer that [s'] may have and [s] not is the next, with this root. *)
Definition next_transfer (root : NodeId) s s' (r : CollectiveMessageResponse) : Prop :=
  forall p, transfer_of (response_content r) = Some p -> p = (root, next_transfer_id s) /\ next_transfer_id s < next_transfer_id s'.

Lemma transfer_monotone s event s' : group_ok s -> orchestrator_step s event = Ok s' -> next_transfer_id s <= next_transfer_id s'.
Proof.
  intros Hs Hstep%step_refines; [|done].
  remember (core s') as u eqn:Ht. symmetry in Ht.
  assert (Hc : forall t, core s' = t -> next_transfer_id s <= next_transfer_id t -> next_transfer_id s <= next_transfer_id s').
  { intros t <-. done. }
  destruct Hstep; apply (Hc _ Ht); cbn.
  - done.
  - unfold left_group, clear_if_empty. by destruct (_ =? _)%nat.
  - done.
  - done.
  - destruct (agree_collective _ _ _); lia.
Qed.

Lemma answered_granted P s (m : outcome Empty_set (GlobalCollectiveState * option GlobalCollectiveError)) id r s' :
  ('(s, o) ← m; Ok (if o is Some err then respond s id (mkResponse r (ResponseError err)) else s)) = Ok s' ->
  (forall t o, m = Ok (t, o) -> granted (P t) s t) ->
  (forall t t' x, next_transfer_id t = next_transfer_id t' -> P t x -> P t' x) -> granted (P s') s s'.
Proof.
  intros ([t o] & Ht & [= <-])%bind_Ok HP Hmono. specialize (HP t o Ht). destruct o as [e|]; [|done].
  eapply granted_trans_r; [|by apply granted_respond]. eapply granted_weaken; [|exact HP]. intros x. apply Hmono.
  pose proof (core_respond t id (mkResponse r (ResponseError e))) as Hc. by apply core_fields in Hc as (_ & _ & _ & _ & _ & _ & _ & -> & _).
Qed.

Lemma register_granted s id r address num_nodes peers t o : group_ok s ->
  register s id r address num_nodes peers = Ok (t, o) -> granted (next_transfer 0 s t) s t.
Proof.
  intros Hs Ht. destruct (register_error s id address num_nodes peers) as [e|] eqn:He.
  { unfold register in Ht. rewrite He in Ht. injection Ht as <- _. apply granted_refl. }
  apply register_error_None in He as Hr. destruct (decide (register_fits s peers)) as [Hfit|Hover]; [|by rewrite register_overflow in Ht].
  pose proof Hfit as [Hn Hp]. pose proof (group_next _ Hs) as [? _].
  assert (0 <= num_global_peers s) by (rewrite (group_total _ Hs); apply peers_total_nonneg).
  rewrite register_joined in Ht by done. match type of Ht with Ok (?a, _) = _ => assert (t = a) as -> by congruence end.
  destruct (_ =? _)%nat; [|by apply granted_same].
  eapply granted_trans; [by apply (granted_same _ s (set_sessions (joined_group s id r address num_nodes peers) (sessions s)))|].
  apply granted_respond_all. intros x Hx _ p Hp'. exfalso. apply list_elem_of_fmap in Hx as ([? ?] & -> & Hx).
  apply list_elem_of_fmap in Hx as (w & [= -> ->] & _). done.
Qed.

Lemma begin_granted s h id r spec t o : group_ok s -> begin h s id r spec = Ok (t, o) ->
  exists root, granted (next_transfer root s t) s t.
Proof.
  intros Hs Ht. destruct (begin_error s id) as [e|] eqn:He.
  { exists 0%nat. unfold begin in Ht. rewrite He in Ht. injection Ht as <- _. apply granted_refl. }
  apply begin_error_None in He as Hb.
  destruct (decide (S (length (pending_collectives s)) < base.size (registered_nodes s))%nat) as [Hl|Hl].
  { exists 0%nat. rewrite begin_waits in Ht by done. injection Ht as <- _. by apply granted_same. }
  pose proof (begin_last s id Hs Hb Hl) as Hlen. destruct (begin_specs s id r spec Hs Hb) as [specs Hspecs].
  destruct (decide (begin_fits h s specs)) as [Hfit|Hover]; [|by rewrite (begin_overflow h s id r spec specs) in Ht].
  rewrite (begin_runs h s id r spec specs) in Ht by (done || apply (group_transfer _ Hs)). injection Ht as <- _.
  exists (if agree_collective h specs (node_peers s) is Ok root then root else 0%nat).
  eapply granted_trans; [by apply (granted_same _ s (begun_group h s specs))|].
  rewrite respond_to_all. apply granted_respond_all. intros x Hx _ p Hp.
  apply list_elem_of_fmap in Hx as ([? ?] & -> & Hx). apply list_elem_of_fmap in Hx as (w & [= -> ->] & _).
  cbn in Hp. unfold begin_content in Hp.
  pose proof (core_responses (begun_group h s specs)) as Hc.
  specialize (Hc (map (fun w => (w.1.1, mkResponse w.1.2 (begin_content h s specs))) (pending_collectives s ++ [(id, r, spec)]))).
  apply core_fields in Hc as (_ & _ & _ & _ & _ & _ & _ & -> & _). unfold begun_group. cbn.
  destruct (agree_collective h specs (node_peers s)); cbn in Hp; try done. injection Hp as <-. split; [done|lia].
Qed.

Lemma next_transfer_core root s t t' r : next_transfer_id t = next_transfer_id t' -> next_transfer root s t r -> next_transfer root s t' r.
Proof. intros Heq Hn p Hp. rewrite <- Heq. auto. Qed.

Lemma event_transfer s event s' : group_ok s -> orchestrator_step s event = Ok s' ->
  exists root, granted (next_transfer root s s') s s'.
Proof.
  intros Hs Hstep. destruct (asks event) eqn:Ha.
  2:{ exists 0%nat. eapply granted_weaken; [|by eapply quiet_granted]. done. }
  destruct (failed s) as [e|] eqn:Hf.
  { exists 0%nat. eapply granted_weaken; [|by eapply failed_granted]. done. }
  destruct event as [| |h id r request| |]; try done. cbn in Hstep. unfold process_request in Hstep. rewrite Hf in Hstep.
  destruct request as [a n p|spec|]; try done.
  - exists 0%nat. apply (answered_granted _ _ _ _ _ _ Hstep); [intros t o; by apply register_granted|]. intros t t' x. apply next_transfer_core.
  - pose proof Hstep as Hstep'. apply bind_Ok in Hstep' as ([t o] & Ht & _). destruct (begin_granted _ _ _ _ _ _ _ Hs Ht) as [root Hroot].
    exists root. apply (answered_granted _ _ _ _ _ _ Hstep).
    + intros t' o' Ht'. rewrite Ht in Ht'. by injection Ht' as <- _.
    + intros t1 t2 x. apply next_transfer_core.
Qed.

(** The transfers in the queues follow one function. *)
Definition transfers_follow (root_of : Z -> NodeId) s : Prop :=
  forall id r root t, r ∈ queue_of s id -> response_content r = ResponseBegin root t -> root = root_of t /\ t < next_transfer_id s.

Lemma follow_step root_of s event s' : group_ok s -> transfers_follow root_of s -> orchestrator_step s event = Ok s' ->
  exists root_of', (forall t, t < next_transfer_id s -> root_of' t = root_of t) /\ transfers_follow root_of' s'.
Proof.
  intros Hs Hfollow Hstep. destruct (event_transfer s event s' Hs Hstep) as [root Hroot].
  pose proof (transfer_monotone s event s' Hs Hstep). exists (fun t => if (t =? next_transfer_id s) then root else root_of t). split.
  - intros t Ht. by rewrite (proj2 (Z.eqb_neq _ _)) by lia.
  - intros id r rt t Hr Hc. destruct (Hroot id r Hr) as [Hold|Hnew]; [by rewrite Hc| |].
    + destruct (Hfollow id r rt t Hold Hc) as [-> Ht]. rewrite (proj2 (Z.eqb_neq _ _)) by lia. split; [done|lia].
    + destruct (Hnew (rt, t)) as [[= -> ->] Hlt]; [by rewrite Hc|]. by rewrite Z.eqb_refl.
Qed.

Lemma follow_events root_of s events s' : group_ok s -> transfers_follow root_of s -> orchestrate s events = Ok s' ->
  exists root_of', (forall t, t < next_transfer_id s -> root_of' t = root_of t) /\ transfers_follow root_of' s'.
Proof.
  revert root_of s. induction events as [|e events IH]; intros root_of s Hs Hf; cbn.
  { intros [= <-]. by exists root_of. }
  intros (t & Ht & Hev)%bind_Ok. destruct (follow_step _ _ _ _ Hs Hf Ht) as (f & Hsame & Hf').
  destruct (IH f t (step_ok _ _ _ Hs Ht) Hf' Hev) as (g & Hg & Hg'). exists g. split; [|done].
  intros u Hu. pose proof (transfer_monotone _ _ _ Hs Ht). rewrite Hg by lia. auto.
Qed.

(** ** For the theorems about rounds *)
Lemma complete_core s s' : core s' = core s -> complete s -> complete s'.
Proof.
  intros Hc [Hs Hf Hn Hr Hp]. pose proof (core_fields _ _ Hc) as (Hn' & _ & _ & _ & _ & Hr' & Hp' & _ & _ & Hf').
  split; [by apply (core_ok s)|congruence..].
Qed.

Lemma formed_complete s calls : group_ok (formed s calls) -> calls <> [] -> complete (formed s calls).
Proof.
  intros Hs Hne. split; try done. cbn. destruct calls as [|c calls]; [done|]. intros He.
  apply (f_equal (fun m : gmap nat nat => m !! register_session c)) in He. unfold nodes_of in He. cbn in He.
  by rewrite lookup_insert_eq, lookup_empty in He.
Qed.

Lemma begun_complete h s calls : complete s -> next_transfer_id s + 1 < 2 ^ 64 -> complete (begun_group h s (specs_of s calls)).
Proof.
  intros [Hs Hf Hn Hr Hp] Hmax. split; try done. apply begun_group_ok; [done|by intros _|done].
Qed.

Lemma distinct_prefix before after : distinct_calls (before ++ after) -> distinct_calls before.
Proof.
  induction after as [|c after IH] using rev_ind; [by rewrite app_nil_r|]. rewrite app_assoc. intros ?%distinct_init. auto.
Qed.

Lemma devices_app before after : devices_of (before ++ after) = devices_of before + devices_of after.
Proof. unfold devices_of. by rewrite map_app, sum_Z_app. Qed.

Lemma answers_sessions calls : map fst (imap (register_answer calls) calls) = map register_session calls.
Proof. apply list_eq. intros i. rewrite !list_lookup_fmap, list_lookup_imap. by destruct (calls !! i). Qed.

(** ** A node leaves *)
Lemma respond_waiting {A} s content (l : list (SessionId * RequestId * A)) id r x :
  NoDup (map (fun w => w.1.1) l) -> (id, r, x) ∈ l -> ready s id ->
  queue_of (foldl (respond_to content) s l) id = queue_of s id ++ [mkResponse r content].
Proof.
  intros Hnd Hin Hr. rewrite respond_to_all. apply respond_all_queue; [by rewrite map_map| |done].
  by apply (list_elem_of_fmap_2 (fun w => (w.1.1, mkResponse w.1.2 content)) _ _ Hin).
Qed.

Lemma respond_not_waiting {A} s content (l : list (SessionId * RequestId * A)) id :
  (forall r x, (id, r, x) ∉ l) -> sessions (foldl (respond_to content) s l) !! id = sessions s !! id.
Proof.
  intros Hn. rewrite respond_to_all. apply respond_all_other. rewrite map_map. intros ([[j r] x] & -> & Hin)%list_elem_of_fmap.
  by apply (Hn r x).
Qed.

Lemma respond_all_sessions s t l id : sessions s = sessions t -> sessions (respond_all s l) !! id = sessions (respond_all t l) !! id.
Proof.
  revert s t. induction l as [|p l IH]; intros s t Hst; [by cbn; rewrite Hst|]. cbn. apply IH. unfold respond.
  rewrite Hst. by destruct (sessions t !! p.1).
Qed.

(** Both lists of waiting requests are answered; only one of them is not empty. *)
Lemma fail_both s t e id r : group_ok s -> pending_collectives t = pending_collectives s ->
  register_requests t = register_requests s -> sessions t = sessions s -> ready s id ->
  (exists spec, (id, r, spec) ∈ pending_collectives s) \/ (exists n, (id, r, n) ∈ register_requests s) ->
  forall u, core u = core (fail_pending t e) -> sessions u = sessions (fail_pending t e) ->
  queue_of (fail_registers u e) id = queue_of s id ++ [mkResponse r (ResponseError e)].
Proof.
  intros Hs Hp Hr Hsess Hready Hwait u Hcore Hu. unfold fail_registers, fail_pending in *.
  assert (Hru : register_requests u = register_requests s).
  { apply core_fields in Hcore as (_ & _ & _ & _ & _ & -> & _).
    pose proof (core_respond_all (ResponseError e) (set_pending t []) (pending_collectives t)) as Hc.
    by apply core_fields in Hc as (_ & _ & _ & _ & _ & -> & _). }
  rewrite Hru. rewrite Hp in Hu. destruct Hwait as [[spec Hw]|[n Hw]].
  - assert (Hrs : register_requests s = []) by (apply (group_phase _ Hs); intros He; rewrite He in Hw; by apply not_elem_of_nil in Hw).
    rewrite Hrs. cbn. rewrite (queue_of_sessions (set_register_requests u []) _ _ (f_equal (lookup id) Hu)).
    rewrite (respond_waiting _ _ _ id r spec); [|apply (group_pending _ Hs)|done|].
    + by rewrite (queue_of_sessions (set_pending t []) s) by (cbn; by rewrite Hsess).
    + unfold ready. by rewrite (queue_of_sessions (set_pending t []) s) by (cbn; by rewrite Hsess); cbn; rewrite Hsess.
  - assert (Hps : pending_collectives s = []).
    { destruct (pending_collectives s) eqn:He; [done|]. rewrite (group_phase _ Hs) in Hw by (by rewrite He). by apply not_elem_of_nil in Hw. }
    rewrite Hps in Hu. cbn in Hu. rewrite (respond_waiting _ _ _ id r n); [|apply (group_registering _ Hs)|done|].
    + by rewrite (queue_of_sessions (set_register_requests u []) s) by (cbn; by rewrite Hu, Hsess).
    + unfold ready. by rewrite (queue_of_sessions (set_register_requests u []) s) by (cbn; by rewrite Hu, Hsess); cbn; rewrite Hu, Hsess.
Qed.

Definition leaves (event : Event) (id : SessionId) : Prop :=
  event = EventDisconnect id \/ exists h r, event = EventRequest h id r RequestFinish.

Lemma finish_request_ok s h id r node s1 : registered_nodes s !! id = Some node ->
  orchestrator_step s (EventRequest h id r RequestFinish) = Ok s1 -> finish s id r = Ok (s1, None).
Proof.
  intros Hid. cbn. unfold process_request. assert (Hfin : forall e, finish s id r = Ok (s1, Some e) -> False).
  { intros e. unfold finish. rewrite Hid. by intros (? & _ & [=])%bind_Ok. }
  destruct (failed s); cbn [is_finish negb]; intros ([t o] & Ht & [= <-])%bind_Ok;
    (destruct o as [e|]; [|done]; exfalso; unfold finish in Ht; rewrite Hid in Ht; by apply bind_Ok in Ht as (? & _ & [=])).
Qed.

Lemma leaving_fails s event id node s1 : group_ok s -> registered_nodes s !! id = Some node -> leaves event id ->
  orchestrator_step s event = Ok s1 -> failed s1 <> None \/ registered_nodes s1 = ∅.
Proof.
  intros Hs Hid Hev Hstep. assert (Hc : core s1 = core (left_group s id node)).
  { rewrite core_left. destruct Hev as [-> | (h & r & ->)].
    - destruct (disconnect_left s id node Hs Hid) as (t & Ht & Hc). cbn in Hstep. congruence.
    - destruct (finish_left s id r node Hs Hid) as (t & Ht & Hc). apply (finish_request_ok _ _ _ _ node) in Hstep; [|done]. congruence. }
  apply core_fields in Hc as (-> & _ & _ & _ & _ & _ & _ & _ & _ & ->). apply left_group_failed.
Qed.

Lemma clear_sessions s : sessions (clear_if_empty s) = sessions s.
Proof. unfold clear_if_empty. by destruct (_ =? _)%nat. Qed.

Lemma clear_registers s : register_requests (clear_if_empty s) = register_requests s.
Proof. unfold clear_if_empty. by destruct (_ =? _)%nat. Qed.

Lemma leaving_answers s event id node s1 other r : group_ok s -> registered_nodes s !! id = Some node -> leaves event id ->
  orchestrator_step s event = Ok s1 -> other <> id -> ready s other ->
  (exists spec, (other, r, spec) ∈ pending_collectives s) \/ (exists n, (other, r, n) ∈ register_requests s) ->
  queue_of s1 other = queue_of s other ++ [mkResponse r (ResponseError (PeerLost node))].
Proof.
  intros Hs Hid Hev Hstep Hne Hready Hwait.
  destruct Hev as [-> | (h & r' & ->)].
  - cbn in Hstep. unfold disconnect in Hstep. rewrite Hid in Hstep. apply bind_Ok in Hstep as (t & Ht & [= <-]).
    apply bind_Ok in Ht as (num & _ & [= <-]).
    match goal with |- context [fail_registers (fail_pending ?a ?e) ?e] => set (base := a); set (f := fail_registers (fail_pending base e) e) end.
    rewrite (queue_of_sessions _ f).
    + by apply (fail_both s base (PeerLost node) other r).
    + rewrite clear_sessions. cbn. by rewrite lookup_delete_ne.
  - apply (finish_request_ok _ _ _ _ node) in Hstep; [|done]. unfold finish in Hstep. rewrite Hid in Hstep.
    apply bind_Ok in Hstep as (num & _ & [= <-]).
    match goal with |- context [clear_if_empty (fail_pending ?a ?e)] => set (base := a) end.
    set (u := clear_if_empty (fail_pending base (PeerLost node))).
    rewrite (queue_of_sessions _ (fail_registers u (PeerLost node))) by (by rewrite respond_lookup, decide_False).
    rewrite <- (fail_both s base (PeerLost node) other r Hs eq_refl eq_refl eq_refl Hready Hwait
      (fail_pending base (PeerLost node)) eq_refl eq_refl).
    unfold fail_registers. unfold u at 2. rewrite clear_registers. apply queue_of_sessions.
    rewrite !respond_to_all. apply respond_all_sessions. cbn. apply clear_sessions.
Qed.

Lemma failed_events s events s' : group_ok s -> failed s <> None \/ registered_nodes s = ∅ -> orchestrate s events = Ok s' ->
  (failed s' <> None /\ granted no_grant s s') \/
  exists before after t, events = before ++ after /\ orchestrate s before = Ok t /\ registered_nodes t = ∅ /\ granted no_grant s t.
Proof.
  revert s. induction events as [|e events IH]; intros s Hs [Hf|He] Hrun; cbn in Hrun.
  - injection Hrun as <-. left. split; [done|apply granted_refl].
  - right. exists [], [], s. split; [done|]. split; [done|]. split; [done|apply granted_refl].
  - apply bind_Ok in Hrun as (t & Ht & Hrun). pose proof (step_ok _ _ _ Hs Ht) as Hst.
    assert (Hg : granted no_grant s t) by (destruct (failed s) eqn:Hfs; [by eapply failed_granted|done]).
    destruct (IH t Hst (failed_stays _ _ _ Hs Hf Ht) Hrun) as [[Hf' Hg']|(b & a & u & -> & Hb & Hu & Hg')].
    + left. split; [done|]. by eapply granted_trans.
    + right. exists (e :: b), a, u. split; [done|]. split; [cbn; by rewrite Ht|]. split; [done|]. by eapply granted_trans.
  - right. exists [], (e :: events), s. split; [done|]. split; [done|]. split; [done|apply granted_refl].
Qed.
End theorems.
