(* ===== verification/OrchestratorProperties.v ===== *)
(** * The theorems about the orchestrator, with a group of two nodes as their instance *)
From S2P Require Import Prelude FloatBackend CollectiveConfig VectorBackend Orchestrator OrchestratorInvariant OrchestratorTheorems.

Section properties.
Context `{HL : HashLaws, Network, ElementTypes}.
Implicit Types s : GlobalCollectiveState.

(** C7: no sequence of events makes the orchestrator panic while fewer than 2^32 identifiers and devices are asked for, and
    after every such sequence the group is consistent: nodes, addresses and peers are one to one, the number of
    devices is the sum over the nodes, requests wait only in the phase they belong to, a failed group holds no waiting
    request, and without nodes the state is fresh. *)
Theorem group_invariant events :
  events_cost events < 2 ^ 32 -> exists s, orchestrate state_new events = Ok s /\ group_ok s.
Proof.
  intros Hc. destruct (orchestrate_total state_new events state_new_ok) as [s Hs].
  - unfold within. cbn. change (2 ^ 64) with (2 ^ 32 * 2 ^ 32). lia.
  - exists s. split; [done|]. by eapply orchestrate_ok; [apply state_new_ok|].
Qed.

(** C16: the handlers implement the transition system of a group: whatever the event, a reachable state changes by one
    of its transitions, without regard to the queues of the sessions. *)
Theorem orchestrator_refines events event s s' :
  orchestrate state_new events = Ok s -> orchestrator_step s event = Ok s' -> group_step s event (core s').
Proof. intros Hs. apply step_refines. by eapply orchestrate_ok; [apply state_new_ok|]. Qed.

(** when as many nodes register as each of them expects, with distinct sessions, addresses and peers, nobody is
    answered before the last call; then each is, with its own number in the order of the calls, the addresses of all
    and the number of all devices. *)
Theorem registration_round s h calls :
  group_ok s -> registered_nodes s = ∅ -> distinct_calls calls -> calls <> [] ->
  devices_of calls < 2 ^ 32 -> Zlen calls < 2 ^ 32 -> Forall (fun c => ready s (register_session c)) calls ->
  (forall before c after, calls = before ++ c :: after ->
    exists t, orchestrate s (map (register_event h (length calls)) before) = Ok t /\ sessions t = sessions s) /\
  exists s', orchestrate s (map (register_event h (length calls)) calls) = Ok s' /\ complete s' /\
    forall i c, calls !! i = Some c ->
      queue_of s' (register_session c) = queue_of s (register_session c) ++
        [mkResponse (register_request c) (ResponseRegister i (addresses_of calls) (devices_of calls))].
Proof.
  intros Hs Hr Hd Hne Hdev Hlen Hready. split.
  - intros before c after Hc. exists (forming s (length calls) before). split; [|done].
    apply register_prefix; [done|done| |rewrite Hc, length_app; cbn; lia| |].
    + by apply (distinct_prefix before (c :: after)); rewrite <- Hc.
    + rewrite Hc, devices_app in Hdev. pose proof (devices_nonneg (c :: after)). lia.
    + rewrite Hc in Hlen. unfold Zlen in *. rewrite length_app in Hlen. lia.
  - pose proof (register_round_state s h calls Hs Hr Hd Hne Hdev Hlen) as Hround. eexists. split; [exact Hround|]. split.
    + apply (complete_core (formed s calls)); [by rewrite core_responses|].
      apply formed_complete; [|done]. apply (core_ok (respond_all (formed s calls) (imap (register_answer calls) calls)));
        [apply core_responses|]. by eapply orchestrate_ok.
    + intros i c Hc. rewrite respond_all_queue with (r := (register_answer calls i c).2); [done| | |].
      * rewrite answers_sessions. apply (distinct_sessions _ Hd).
      * by apply (elem_of_lookup_imap_2 (register_answer calls)).
      * rewrite Forall_forall in Hready. apply (Hready c). by eapply list_elem_of_lookup_2.
Qed.

(** C31: when every session of a complete group begins a collective, in any order, nobody is answered before the last
    call, and then all are, with the same answer: if the calls agree, their root and the next transfer, which no other
    collective gets; otherwise an error. *)
Theorem begin_round s h calls :
  complete s -> NoDup (map begin_session calls) ->
  Forall (fun c => is_Some (registered_nodes s !! begin_session c) /\ ready s (begin_session c)) calls ->
  length calls = base.size (registered_nodes s) -> next_transfer_id s + 1 < 2 ^ 64 ->
  (forall before c after, calls = before ++ c :: after ->
    exists t, orchestrate s (map (begin_event h) before) = Ok t /\ sessions t = sessions s) /\
  exists s' content, orchestrate s (map (begin_event h) calls) = Ok s' /\ complete s' /\
    (forall c, c ∈ calls ->
      queue_of s' (begin_session c) = queue_of s (begin_session c) ++ [mkResponse (begin_request c) content]) /\
    (forall root t, content = ResponseBegin root t <->
      t = next_transfer_id s /\ agrees (specs_of s calls) (node_peers s) root) /\
    ((exists root, agrees (specs_of s calls) (node_peers s) root /\ next_transfer_id s' = next_transfer_id s + 1) \/
     exists error, content = ResponseError error).
Proof.
  intros Hs Hnd Hin Hl Hmax. assert (Hreg : Forall (fun c => is_Some (registered_nodes s !! begin_session c)) calls).
  { eapply Forall_impl; [exact Hin|]. by intros c [? _]. }
  split.
  - intros before c after ->. eexists. split; [apply begin_prefix; [done| | |]|done].
    + rewrite map_app in Hnd. by apply NoDup_app in Hnd as [? _].
    + by apply Forall_app in Hreg as [? _].
    + rewrite length_app in Hl. cbn in Hl. lia.
  - pose proof (begin_round_state h s calls Hs Hnd Hreg Hl Hmax) as Hround.
    destruct (begin_content_spec h s (specs_of s calls) (complete_ok _ Hs)) as [Hspec Herr].
    set (content := begin_content h s (specs_of s calls)) in *. eexists _, content. split; [exact Hround|]. split; [|split; [|split; [done|]]].
    + apply (complete_core (begun_group h s (specs_of s calls))); [by rewrite core_responses|]. by apply begun_complete.
    + intros c Hc. rewrite respond_all_queue with (r := mkResponse (begin_request c) content); [done|by rewrite map_map| |].
      * by apply (list_elem_of_fmap_2 (fun c => (begin_session c, mkResponse (begin_request c) content))).
      * rewrite Forall_forall in Hin. by apply (Hin c).
    + destruct Herr as [[root Hr]|He]; [left|by right]. exists root. split; [done|].
      pose proof (core_fields _ _ (core_responses (begun_group h s (specs_of s calls))
        (map (fun c => (begin_session c, mkResponse (begin_request c) content)) calls))) as (_ & _ & _ & _ & _ & _ & _ & -> & _).
      unfold begun_group. cbn. apply (agree_spec h) in Hr; [|intros n m p q k; apply (group_peer _ (complete_ok _ Hs))]. by rewrite Hr.
Qed.

(** C33: when a node leaves, by finishing or by a lost socket, every other session that waits for a registration or for
    a collective gets the loss of the peer; and until nobody is registered any more, whatever happens, no session
    registers or begins. *)
Theorem lost_member s event id node events s' :
  group_ok s -> registered_nodes s !! id = Some node ->
  leaves event id ->
  orchestrate s (event :: events) = Ok s' ->
  (exists s1, orchestrator_step s event = Ok s1 /\
    forall other r, other <> id -> ready s other ->
      (exists spec, (other, r, spec) ∈ pending_collectives s) \/ (exists n, (other, r, n) ∈ register_requests s) ->
      queue_of s1 other = queue_of s other ++ [mkResponse r (ResponseError (PeerLost node))]) /\
  ((failed s' <> None /\ granted no_grant s s') \/
   exists before after t, events = before ++ after /\ orchestrate s (event :: before) = Ok t /\
     registered_nodes t = ∅ /\ granted no_grant s t).
Proof.
  intros Hs Hid Hev Hrun. cbn in Hrun. apply bind_Ok in Hrun as (s1 & Hs1 & Hrun). split.
  - exists s1. split; [done|]. intros other r Hne Hready Hwait. by eapply leaving_answers.
  - assert (Hg : granted no_grant s s1) by (eapply quiet_granted; [|exact Hs1]; by destruct Hev as [-> | (h & r & ->)]).
    pose proof (step_ok _ _ _ Hs Hs1) as Hok. pose proof (leaving_fails _ _ _ _ _ Hs Hid Hev Hs1) as Hf.
    destruct (failed_events s1 events s' Hok Hf Hrun) as [[Hf' Hg']|(b & a & t & He & Hb & Ht & Hg')].
    + left. split; [done|]. by eapply granted_trans.
    + right. exists b, a, t. split; [done|]. split; [cbn; by rewrite Hs1|]. split; [done|]. by eapply granted_trans.
Qed.

(** a transfer has one root: in the whole life of the orchestrator, two answers with the same transfer, whichever
    sessions have them in their queues and at whatever times, name the same root. *)
Theorem transfer_has_one_root events1 events2 s1 s2 id1 id2 r1 r2 root1 root2 t :
  orchestrate state_new events1 = Ok s1 -> orchestrate s1 events2 = Ok s2 ->
  r1 ∈ queue_of s1 id1 -> response_content r1 = ResponseBegin root1 t ->
  r2 ∈ queue_of s2 id2 -> response_content r2 = ResponseBegin root2 t -> root1 = root2.
Proof.
  intros H01 H12 Hr1 Hc1 Hr2 Hc2.
  assert (H0' : transfers_follow (fun _ => 0%nat) state_new).
  { intros id r root u Hr. unfold queue_of in Hr. cbn in Hr. rewrite lookup_empty in Hr. by apply not_elem_of_nil in Hr. }
  destruct (follow_events _ _ _ _ state_new_ok H0' H01) as (f & _ & Hf).
  pose proof (orchestrate_ok _ _ _ state_new_ok H01) as Hs1.
  destruct (follow_events _ _ _ _ Hs1 Hf H12) as (g & Hsame & Hg).
  destruct (Hf _ _ _ _ Hr1 Hc1) as [-> Ht]. destruct (Hg _ _ _ _ Hr2 Hc2) as [-> _]. symmetry. by apply Hsame.
Qed.
End properties.

(** ** Two nodes *)
#[export] Instance numbered_types : ElementTypes := {| DType := nat |}.

Definition two_calls : list RegisterCall := [mkRegister 10 1 "a"%string [0%nat; 1%nat]; mkRegister 20 2 "b"%string [2%nat]].
Definition opening : list Event := [EventInit 10; EventResponder 10; EventResponder 20].
Definition joining : list Event := opening ++ map (register_event 0 2) two_calls.
Definition sum_of (dtype : nat) : CollectiveSpec := SpecAllReduce Sum (AllReduceTree 2) [4] dtype.
Definition two_begin : list BeginCall := [mkBegin 20 3 (sum_of 0); mkBegin 10 4 (sum_of 0)].

Definition after (events : list Event) : GlobalCollectiveState :=
  match orchestrate state_new events with Ok s => s | _ => state_new end.

Lemma after_ok events s : orchestrate state_new events = Ok s -> group_ok s.
Proof. by apply orchestrate_ok, state_new_ok. Qed.

Lemma after_joining : orchestrate state_new joining = Ok (after joining).
Proof. vm_compute. reflexivity. Qed.

Lemma joined_complete : complete (after joining).
Proof. split; [apply (after_ok joining), after_joining|by vm_compute; try discriminate..]. Qed.

Lemma group_invariant_witness :
  exists s, orchestrate state_new (joining ++ [EventDisconnect 10]) = Ok s /\ group_ok s.
Proof. apply group_invariant. vm_compute. reflexivity. Defined.

Lemma orchestrator_refines_witness :
  group_step (after joining) (EventDisconnect 10) (core (after (joining ++ [EventDisconnect 10]))).
Proof. apply (orchestrator_refines joining); vm_compute; reflexivity. Defined.

Lemma registration_round_witness :
  exists s', orchestrate (after opening) (map (register_event 7 2) two_calls) = Ok s' /\
    queue_of s' 20 = [mkResponse 2 (ResponseRegister 1 {[0%nat := "a"%string; 1%nat := "b"%string]} 3)].
Proof.
  destruct (registration_round (after opening) 7 two_calls) as [_ (s' & Hs' & _ & Hq)].
  - by apply (after_ok opening).
  - done.
  - split; by apply (bool_decide_unpack _); vm_compute.
  - done.
  - by vm_compute.
  - by vm_compute.
  - repeat constructor; by try (eexists; vm_compute).
  - exists s'. split; [exact Hs'|]. etransitivity; [exact (Hq 1%nat _ eq_refl)|by vm_compute].
Defined.

Lemma begin_round_witness :
  exists s', orchestrate (after joining) (map (begin_event 0) two_begin) = Ok s' /\
    exists root, agrees (specs_of (after joining) two_begin) (node_peers (after joining)) root.
Proof.
  destruct (begin_round (after joining) 0 two_begin) as [_ (s' & content & Hs' & _ & _ & _ & Hend)].
  - apply joined_complete.
  - by apply (bool_decide_unpack _); vm_compute.
  - repeat constructor; by try (eexists; vm_compute).
  - done.
  - by vm_compute.
  - exists s'. split; [exact Hs'|]. exists 0%nat. apply agrees_all_reduce with (op := Sum) (strategy := AllReduceTree 2) (shape := [4]) (dtype := 0%nat).
    + done.
    + by repeat constructor.
    + done.
    + by eexists; vm_compute.
    + intros n _. lia.
Defined.

(** The first node waits for a collective, the second is lost. *)
Definition waiting : GlobalCollectiveState := after (joining ++ [begin_event 0 (mkBegin 10 4 (sum_of 0))]).
Definition bereaved : GlobalCollectiveState := after (joining ++ [begin_event 0 (mkBegin 10 4 (sum_of 0)); EventDisconnect 20]).

Lemma waiting_bereaved : orchestrator_step waiting (EventDisconnect 20) = Ok bereaved.
Proof. vm_compute. reflexivity. Qed.

Lemma lost_member_witness :
  queue_of bereaved 10 = queue_of waiting 10 ++ [mkResponse 4 (ResponseError (PeerLost 1))].
Proof.
  destruct (lost_member waiting (EventDisconnect 20) 20 1 [] bereaved) as [(s1 & Hs1 & Hq) _].
  - apply (after_ok (joining ++ [begin_event 0 (mkBegin 10 4 (sum_of 0))])). vm_compute. reflexivity.
  - vm_compute. reflexivity.
  - by left.
  - cbn [orchestrate foldM]. by rewrite waiting_bereaved.
  - rewrite waiting_bereaved in Hs1. assert (s1 = bereaved) as -> by congruence.
    apply Hq; [done|split; [eexists; vm_compute; reflexivity|vm_compute; lia]|left; exists (sum_of 0); vm_compute; left].
Defined.

Lemma transfer_has_one_root_witness :
  let s := after (joining ++ map (begin_event 0) two_begin) in
  exists root, mkResponse 3 (ResponseBegin root 2) ∈ queue_of s 20 /\ mkResponse 4 (ResponseBegin root 2) ∈ queue_of s 10 /\
    forall root', mkResponse 4 (ResponseBegin root' 2) ∈ queue_of s 10 -> root' = root.
Proof.
  cbn zeta. set (s := after (joining ++ map (begin_event 0) two_begin)).
  assert (H20 : mkResponse 3 (ResponseBegin 0 2) ∈ queue_of s 20) by (vm_compute; right; left).
  assert (H10 : mkResponse 4 (ResponseBegin 0 2) ∈ queue_of s 10) by (vm_compute; right; left).
  assert (Hrun : orchestrate state_new (joining ++ map (begin_event 0) two_begin) = Ok s) by (vm_compute; reflexivity).
  exists 0%nat. split; [exact H20|]. split; [exact H10|]. intros root' Hr.
  apply (transfer_has_one_root (joining ++ map (begin_event 0) two_begin) [] s s 10 20
    (mkResponse 4 (ResponseBegin root' 2)) (mkResponse 3 (ResponseBegin 0 2)) root' 0 2 Hrun eq_refl Hr eq_refl H20 eq_refl).
Defined.
