(* ===== verification/GlobalNode.v ===== *)
(** * Collectives among nodes: src/src/global/node

    A node exchanges tensors with its peers through its data service: it exposes
    a tensor under a transfer, so many times, and downloads what the node at an
    address exposes.  The service is of the ruda_communication crate; its store
    below is assumed of it within one operation ([data_service]): a download waits
    until the transfer is exposed, and yields the data exposed.  Downloads that
    run at once complete in an order of [Completion]. *)
From stdpp Require Import sorting.
From S2P Require Import Prelude FloatBackend LocalReduce CollectiveConfig Processes Orchestrator.

(** ** The data service *)

(** Tensors as data, of the tensor crate. *)
Class TensorTransfer {B : FloatBackend} {ET : ElementTypes} := {
  TensorData : Type;
  data_shape : TensorData -> list Z;
  data_dtype : TensorData -> DType;
  dtype : Tensor -> DType;
  into_data : Tensor -> TensorData;
  float_from_data : TensorData -> TDevice -> Tensor;
}.

Class TransferLaws {B : FloatBackend} {BL : FloatLaws B} {ET : ElementTypes} (T : TensorTransfer) := {
  data_value t d : value (float_from_data (into_data t) d) = value t;
  data_device data d : float_device (float_from_data data d) = d;
  into_shape t : data_shape (into_data t) = shape t;
  into_dtype t : data_dtype (into_data t) = dtype t;
  from_dtype data d : dtype (float_from_data data d) = data_dtype data;
  add_dtype a b : shape a = shape b -> dtype a = dtype b -> dtype (float_add a b) = dtype a;
}.

(** The order in which concurrent downloads complete. *)
Class Completion := {
  completes : forall {A}, nat -> list A -> list A;
}.
Class CompletionLaws (C : Completion) := {
  completes_all {A} h (l : list A) : completes h l ≡ₚ l;
}.

Section service.
Context {B : FloatBackend} {ET : ElementTypes} {T : TensorTransfer} {N : Network}.

Record Exposure := mkExposure { exposed : TensorData; max_downloads : Z; downloads : nat }.

(** [directory] says which process listens at an address.  The service itself is code of another crate; this store is
    the behaviour of it that the theorems on the operations assume.  A download brings what was exposed first under
    its transfer: to expose a transfer again keeps the old entry, which does not happen within one operation, where a
    node exposes each transfer once.  [max_downloads] is recorded and not enforced: the theorems show that an
    operation takes each exposure exactly that often, so a service that drops it after the last download behaves
    alike.  A download of a lost peer would yield [None]. *)
Definition data_service (directory : Address -> option nat) : Mail := {|
  Out := Tensor * Z * Z;
  In := Address * Z;
  Message := option TensorData;
  Store := gmap (nat * Z) Exposure;
  post_mail p o s :=
    match s !! (p, o.2) with
    | Some _ => s
    | None => <[(p, o.2) := mkExposure (into_data o.1.1) o.1.2 0]> s
    end;
  take_mail p i s :=
    q ← directory i.1;
    e ← s !! (q, i.2);
    Some (Some (exposed e), <[(q, i.2) := mkExposure (exposed e) (max_downloads e) (S (downloads e))]> s);
|}.

#[export] Instance data_service_laws directory : MailLaws (data_service directory).
Proof.
  split; cbn.
  - intros p q o o' s Hpq. assert (Hk : (p, o.2) <> (q, o'.2)) by congruence.
    destruct (s !! (q, o'.2)) eqn:Hq; destruct (s !! (p, o.2)) eqn:Hp; rewrite ?lookup_insert_ne by done; rewrite ?Hq, ?Hp; try done.
    by apply insert_insert_ne.
  - intros p q i o s m s' Hpq. destruct (directory i.1) as [r|]; [|done]. cbn.
    destruct (s !! (r, i.2)) as [e|] eqn:He; [|done]. cbn. intros [= <- <-].
    destruct (s !! (q, o.2)) as [e'|] eqn:Hq.
    + rewrite He. cbn. destruct (decide ((q, o.2) = (r, i.2))) as [Heq|Hne]; [by rewrite Heq, lookup_insert_eq|].
      by rewrite lookup_insert_ne, Hq by done.
    + assert ((q, o.2) <> (r, i.2)) by congruence. rewrite !lookup_insert_ne, He, Hq by done. cbn. by rewrite insert_insert_ne.
  - intros p q [ai ti] [aj tj] s m n s1 s2 Hpq. cbn. destruct (directory ai) as [r|]; [|done]. destruct (directory aj) as [r'|]; [|done]. cbn.
    destruct (s !! (r, ti)) as [e|] eqn:He; [|done]. destruct (s !! (r', tj)) as [e'|] eqn:He'; [|done].
    cbn. intros [= <- <-] [= <- <-]. destruct (decide ((r, ti) = (r', tj))) as [Heq|Hne].
    + injection Heq as <- <-. assert (e' = e) as -> by congruence. rewrite lookup_insert_eq. cbn.
      eexists. split; [done|]. by rewrite !insert_insert_eq.
    + rewrite !lookup_insert_ne, He, He' by done. cbn. eexists. split; [done|]. by rewrite insert_insert_ne.
Qed.
End service.

(** ** Trees with a root: rooted.rs *)
Section rooted.
Context {B : FloatBackend} {ET : ElementTypes} {T : TensorTransfer} {N : Network} `{HashOrder, Completion}.
Context (directory : Address -> option nat).
#[local] Instance the_service : Mail := data_service directory.

(** Processes that can fail with an error of the global level. *)
Abbreviation node_program := (program GlobalCollectiveError).
Abbreviation Nodes := (HashMap Address).

Definition expose (t : Tensor) (count transfer : Z) : node_program unit := put_out (t, count, transfer).
Definition download_tensor (address : Address) (transfer : Z) : node_program (option TensorData) := wait_for (address, transfer).

Definition sort_ids (ids : list NodeId) : list NodeId := merge_sort Nat.le ids.

(** [ids.iter().position(|id| *id == node)] *)
Definition position_of (node : NodeId) (ids : list NodeId) : option nat := fst <$> list_find (fun id => id = node) ids.

Definition neighbors (node root : NodeId) (nodes : Nodes) (arity : option Z) :
    outcome GlobalCollectiveError (option NodeId * list NodeId) :=
  _ ← fail_if (bool_decide (arity = Some 0)) InvalidTreeArity;
  _ ← fail_if (negb (bool_decide (is_Some (entries nodes !! root)))) CollectiveParamsMismatch;
  let ids := root :: sort_ids (filter (fun id => id <> root) (keys nodes)) in
  i ← ok_or (position_of node ids) CollectiveBeforeRegister;
  let k := Z.max (default (Zlen ids) arity) 1 in
  parent ← (if (i =? 0)%nat then Ok None
            else parent ← index ids (Z.to_nat ((Z.of_nat i - 1) / k)); Ok (Some parent));
  let first := Z.min (saturating_add usize_bits (saturating_mul usize_bits (Z.of_nat i) k) 1) (Zlen ids) in
  let last := Z.min (saturating_add usize_bits first k) (Zlen ids) in
  children ← slice_range ids (Z.to_nat first) (Z.to_nat last);
  Ok (parent, children).

(** One child: its data arrives, is checked and added. *)
Definition add_child (dims : list Z) (dt : DType) (device : TDevice) (nodes : Nodes) (transfer : Z) (tensor : Tensor)
    (child : NodeId) : node_program Tensor :=
  address ← lift (expect (entries nodes !! child));
  data ← download_tensor address transfer;
  data ← lift (ok_or data (PeerLost child));
  _ ← lift (fail_if (negb (bool_decide (data_shape data = dims)) || negb (bool_decide (data_dtype data = dt)))
       PeerSentIncoherentTensor);
  mret (float_add tensor (float_from_data data device)).

Definition reduce_sum (node root : NodeId) (nodes : Nodes) (tensor : Tensor) (arity : option Z) (transfer : Z) :
    node_program (option Tensor) :=
  '(parent, children) ← lift (neighbors node root nodes arity);
  tensor ← loop (add_child (shape tensor) (dtype tensor) (float_device tensor) nodes transfer) tensor children;
  match parent with
  | Some _ => _ ← expose tensor 1 transfer; mret None
  | None => mret (Some tensor)
  end.

Definition broadcast (node root : NodeId) (nodes : Nodes) (tensor : option Tensor) (device : TDevice) (arity : option Z)
    (transfer : Z) : node_program Tensor :=
  '(parent, children) ← lift (neighbors node root nodes arity);
  tensor ← match parent with
    | None => lift (ok_or tensor GlobalBroadcastNoTensor)
    | Some parent =>
        address ← lift (expect (entries nodes !! parent));
        data ← download_tensor address transfer;
        data ← lift (ok_or data (PeerLost parent));
        mret (float_from_data data device)
    end;
  _ ← (if (length children =? 0)%nat then mret tt else expose tensor (wrap 32 (Zlen children)) transfer);
  mret tensor.

(** ** The centralized all-reduce: centralized.rs *)
Definition get_central_node (nodes : list NodeId) : outcome GlobalCollectiveError NodeId := index (sort_ids nodes) 0.

(** One download of the central node: without data it panics, whatever arrives is checked and added. *)
Definition add_download (dims : list Z) (device : TDevice) (nodes : Nodes) (transfer : Z) (sum : Tensor) (id : NodeId) :
    node_program Tensor :=
  address ← lift (expect (entries nodes !! id));
  data ← download_tensor address transfer;
  data ← lift (expect data);
  let res := float_from_data data device in
  _ ← lift (fail_if (negb (bool_decide (shape res = dims))) PeerSentIncoherentTensor);
  mret (float_add sum res).

Definition centralized_all_reduce_sum (h : nat) (node : NodeId) (nodes : Nodes) (tensor : Tensor) : node_program Tensor :=
  let ids := keys nodes in
  central ← lift (get_central_node ids);
  let dims := shape tensor in
  let device := float_device tensor in
  res ← (if (central =? node)%nat then
      sum ← loop (add_download dims device nodes 0) tensor (completes h (filter (fun id => id <> central) ids));
      others ← lift (arith 32 (wrap 32 (Zlen ids) - 1));
      _ ← expose sum others 1;
      mret sum
    else
      _ ← expose tensor 1 0;
      address ← lift (expect (entries nodes !! central));
      data ← download_tensor address 1;
      data ← lift (expect data);
      let res := float_from_data data device in
      _ ← lift (fail_if (negb (bool_decide (shape res = dims))) PeerSentIncoherentTensor);
      mret res);
  _ ← barrier;
  mret res.

(** ** The tree all-reduce: tree.rs *)
Record TreeTopology := mkTreeTopology { tree_parents : gmap NodeId NodeId; tree_children : gmap NodeId (list NodeId) }.

Definition add_parent (nodes : list NodeId) (k : Z) (topology : TreeTopology) (parent : nat * NodeId) :
    outcome GlobalCollectiveError TreeTopology :=
  first ← arith usize_bits (Z.of_nat parent.1 * k + 1);
  if first <? Zlen nodes then
    stop ← arith usize_bits (first + k);
    ch ← slice_range nodes (Z.to_nat first) (Z.to_nat (Z.min stop (Zlen nodes)));
    Ok (mkTreeTopology (foldl (fun m child => <[child := parent.2]> m) (tree_parents topology) ch)
          (<[parent.2 := ch]> (tree_children topology)))
  else Ok (mkTreeTopology (tree_parents topology) (<[parent.2 := []]> (tree_children topology))).

Definition get_tree_topology (nodes : list NodeId) (arity : Z) : outcome GlobalCollectiveError TreeTopology :=
  if arity <? 1 then Panic
  else
    let nodes := sort_ids nodes in
    foldM (add_parent nodes arity) (mkTreeTopology ∅ ∅) (imap pair nodes).

(** The downloads of the children run at once; a child that is lost makes [unwrap] panic. *)
Definition add_completed (dims : list Z) (device : TDevice) (nodes : Nodes) (result : Tensor) (child : NodeId) : node_program Tensor :=
  address ← lift (expect (entries nodes !! child));
  data ← download_tensor address 0;
  data ← lift (expect data);
  let res := float_from_data data device in
  _ ← lift (fail_if (negb (bool_decide (shape res = dims))) PeerSentIncoherentTensor);
  mret (float_add result res).

Definition tree_all_reduce_sum (h : nat) (node : NodeId) (nodes : Nodes) (tensor : Tensor) (arity : Z) : node_program Tensor :=
  let dims := shape tensor in
  let device := float_device tensor in
  strategy ← lift (get_tree_topology (keys nodes) arity);
  let children := tree_children strategy !! node in
  result ← match children with
    | Some children => loop (add_completed dims device nodes) tensor (completes h children)
    | None => mret tensor
    end;
  result ← match tree_parents strategy !! node with
    | Some parent =>
        _ ← expose result 1 0;
        address ← lift (expect (entries nodes !! parent));
        data ← download_tensor address 1;
        data ← lift (ok_or data (PeerLost parent));
        let parent_tensor := float_from_data data device in
        _ ← lift (fail_if (negb (bool_decide (shape parent_tensor = dims))) PeerSentIncoherentTensor);
        mret parent_tensor
    | None => mret result
    end;
  _ ← match children with
    | Some children => if (length children =? 0)%nat then mret tt else expose result (wrap 32 (Zlen children)) 1
    | None => mret tt
    end;
  _ ← barrier;
  mret result.

(** ** The ring all-reduce: ring.rs *)
Definition get_ring_topology (nodes : list NodeId) : list NodeId := sort_ids nodes.

Definition slice_tensor (tensor : Tensor) (slice_dim : nat) (slice_ranges : list (Z * Z)) :
    outcome GlobalCollectiveError (list Tensor) :=
  mapM (fun range => if decide (slice_dim < length (shape tensor))%nat
                     then expect (float_slice tensor (slice_of (shape tensor) slice_dim range)) else Panic) slice_ranges.

Record RingState := mkRing { ring_slices : list Tensor; transfer_counter : Z; send_slice_idx : nat }.

Definition ring_cycle (is_phase_one : bool) (prev_node : Address) (device : TDevice) (st : RingState) (_ : nat) :
    node_program RingState :=
  let slice_count := length (ring_slices st) in
  let transfer_id := transfer_counter st in
  let recv_slice_idx := ((send_slice_idx st + slice_count - 1) mod slice_count)%nat in
  slice_send ← lift (index (ring_slices st) (send_slice_idx st));
  _ ← expose slice_send 1 transfer_id;
  download ← download_tensor prev_node transfer_id;
  download ← lift (expect download);
  let tensor := float_from_data download device in
  own ← lift (index (ring_slices st) recv_slice_idx);
  slice ← (if is_phase_one then mret (float_add own tensor)
           else _ ← lift (fail_if (negb (bool_decide (shape own = shape tensor))) PeerSentIncoherentTensor); mret tensor);
  next ← lift (arith 64 (transfer_counter st + 1));
  mret (mkRing (<[recv_slice_idx := slice]> (ring_slices st)) next recv_slice_idx).

Definition do_cycles (is_phase_one : bool) (prev_node : Address) (device : TDevice) (st : RingState) : node_program RingState :=
  if (length (ring_slices st) =? 0)%nat then lift Panic
  else loop (ring_cycle is_phase_one prev_node device) st (seq 0 (length (ring_slices st) - 1)).

Definition ring_all_reduce_sum (node : NodeId) (nodes : Nodes) (tensor : Tensor) : node_program Tensor :=
  let dims := shape tensor in
  let device := float_device tensor in
  slice_dim ← lift (get_slice_dim dims);
  slice_dim_size ← lift (index dims slice_dim);
  _ ← lift (fail_if (slice_dim_size <? Z.of_nat (size nodes)) RingReduceImpossible);
  let ring := get_ring_topology (keys nodes) in
  slice_ranges ← lift (get_ring_reduce_slice_ranges slice_dim_size (length ring));
  slices ← lift (slice_tensor tensor slice_dim slice_ranges);
  send_slice_idx ← lift (expect (position_of node ring));
  let prev_node_idx := ((send_slice_idx + length ring - 1) mod length ring)%nat in
  prev ← lift (index ring prev_node_idx);
  prev_node ← lift (expect (entries nodes !! prev));
  st ← do_cycles true prev_node device (mkRing slices 0 send_slice_idx);
  st ← do_cycles false prev_node device st;
  _ ← barrier;
  lift (expect (float_cat (ring_slices st) slice_dim)).

(** ** The operations of a node: base.rs

    [request] is the answer of the orchestrator to a request. *)
Record NodeState := mkNode { state_node_id : NodeId; state_nodes : Nodes; state_num_global_devices : Z }.

Definition register_response (response : RemoteResponse) (h : nat) : outcome GlobalCollectiveError NodeState :=
  match response with
  | ResponseRegister node_id nodes num_global_devices => Ok (mkNode node_id (mkMap h nodes) num_global_devices)
  | ResponseError error => Err error
  | _ => Err WrongOrchestratorResponse
  end.

Definition node_begin (request : RemoteRequest -> RemoteResponse) (spec : CollectiveSpec) : outcome GlobalCollectiveError (NodeId * Z) :=
  match request (RequestBegin spec) with
  | ResponseBegin root_node transfer_id => Ok (root_node, transfer_id)
  | ResponseError error => Err error
  | _ => Err WrongOrchestratorResponse
  end.

Definition mean_of (op : ReduceOperation) (state : NodeState) (tensor : Tensor) : Tensor :=
  if bool_decide (op = Mean) then float_div_scalar tensor (state_num_global_devices state) else tensor.

Definition all_reduce_inner (h : nat) (state : option NodeState) (request : RemoteRequest -> RemoteResponse) (tensor : Tensor)
    (strategy : AllReduceStrategy) (op : ReduceOperation) : node_program Tensor :=
  state ← lift (ok_or state AllReduceBeforeRegister);
  _ ← lift (node_begin request (SpecAllReduce op strategy (shape tensor) (dtype tensor)));
  let node := state_node_id state in
  let nodes := state_nodes state in
  result ← match strategy with
    | AllReduceCentralized => centralized_all_reduce_sum h node nodes tensor
    | AllReduceTree arity => tree_all_reduce_sum h node nodes tensor (Z.of_nat arity)
    | AllReduceRing => ring_all_reduce_sum node nodes tensor
    end;
  mret (mean_of op state result).

Definition reduce_inner (state : option NodeState) (request : RemoteRequest -> RemoteResponse) (tensor : Tensor)
    (strategy : ReduceStrategy) (root : PeerId) (op : ReduceOperation) : node_program (option Tensor) :=
  state ← lift (ok_or state CollectiveBeforeRegister);
  '(root_node, transfer) ← lift (node_begin request (SpecReduce root op strategy (shape tensor) (dtype tensor)));
  let arity := match strategy with ReduceCentralized => None | ReduceTree k => Some (Z.of_nat k) end in
  result ← reduce_sum (state_node_id state) root_node (state_nodes state) tensor arity transfer;
  let result := mean_of op state <$> result in
  _ ← barrier;
  mret result.

Definition broadcast_inner (state : option NodeState) (request : RemoteRequest -> RemoteResponse) (tensor : option Tensor)
    (strategy : BroadcastStrategy) (device : TDevice) : node_program Tensor :=
  state ← lift (ok_or state CollectiveBeforeRegister);
  '(root_node, transfer) ← lift (node_begin request (SpecBroadcast strategy ((fun t => (shape t, dtype t)) <$> tensor)));
  let arity := match strategy with BroadcastCentralized => None | BroadcastTree k => Some (Z.of_nat k) end in
  result ← broadcast (state_node_id state) root_node (state_nodes state) tensor device arity transfer;
  _ ← barrier;
  mret result.
End rooted.
