(* ===== verification/GlobalTree.v ===== *)
(** * Sums and copies along a tree of nodes

    The nodes of a tree stand in a list, the root first and the children of
    position [i] at [i * k + 1 .. i * k + k].  In the upward phase every node but
    the root waits for its children and exposes the sum; in the downward phase
    every node takes the tensor of its parent and exposes it for its children.
    The reductions and broadcasts of src/src/global/node are made of these two. *)
From S2P Require Import Prelude FloatBackend LocalReduce LocalStrategies CollectiveConfig Processes Orchestrator GlobalNode.

(** ** Positions *)
Section positions.
Context (n k : nat) (Hk : (0 < k)%nat).

Definition children_of (i : nat) : list nat := seq (i * k + 1) (Nat.min n (i * k + 1 + k) - (i * k + 1)).
Definition parent_of (i : nat) : nat := ((i - 1) / k)%nat.

Lemma elem_children i j : j ∈ children_of i <-> (i * k + 1 <= j < i * k + 1 + k)%nat /\ (j < n)%nat.
Proof using Type. clear Hk. unfold children_of. rewrite elem_of_seq. lia. Qed.

(** A node is the child of its parent and of no other. *)
Lemma child_parent i j : j ∈ children_of i <-> parent_of j = i /\ (0 < j < n)%nat.
Proof using Hk.
  rewrite elem_children. unfold parent_of. split.
  - intros [Hj Hn]. split; [|lia]. symmetry. apply (Nat.div_unique _ _ _ (j - 1 - i * k)); lia.
  - intros [<- Hj]. pose proof (Nat.div_mod_eq (j - 1) k). pose proof (Nat.mod_upper_bound (j - 1) k ltac:(lia)). lia.
Qed.

Lemma parent_before j : (0 < j)%nat -> (parent_of j < j)%nat.
Proof using Hk. intros Hj. unfold parent_of. pose proof (Nat.Div0.div_le_upper_bound (j - 1) k (j - 1) ltac:(nia)). lia. Qed.

Lemma child_after i j : j ∈ children_of i -> (i < j < n)%nat.
Proof using Hk. rewrite elem_children. nia. Qed.

Lemma NoDup_children i : NoDup (children_of i).
Proof using Type. apply NoDup_seq. Qed.

(** The positions from [i] that no position from [i] has as a child. *)
Definition roots_from (i : nat) : list nat := seq i (Nat.min n (i * k + 1) - i).

Lemma roots_from_S i : (i < n)%nat -> roots_from (S i) = seq (S i) (Nat.min n (i * k + 1) - S i) ++ children_of i.
Proof using Hk.
  intros Hi. unfold roots_from, children_of. destruct (decide (n <= i * k + 1)%nat).
  - rewrite (Nat.min_l n (i * k + 1)), (Nat.min_l n (S i * k + 1)), (Nat.min_l n (i * k + 1 + k)) by lia.
    replace (n - (i * k + 1))%nat with 0%nat by lia. by rewrite app_nil_r.
  - rewrite (Nat.min_r n (i * k + 1)) by lia.
    replace (Nat.min n (S i * k + 1) - S i)%nat with ((i * k + 1 - S i) + (Nat.min n (i * k + 1 + k) - (i * k + 1)))%nat by nia.
    rewrite seq_app. do 2 f_equal. nia.
Qed.

Lemma roots_from_cons i : (i < n)%nat -> roots_from i = i :: seq (S i) (Nat.min n (i * k + 1) - S i).
Proof using Hk.
  intros Hi. unfold roots_from. replace (Nat.min n (i * k + 1) - i)%nat with (S (Nat.min n (i * k + 1) - S i)) by nia. done.
Qed.
End positions.

Section tree.
Context {B : FloatBackend} {BL : FloatLaws B} {ET : ElementTypes} {T : TensorTransfer} {TL : TransferLaws T} {N : Network}.
Context (directory : Address -> option nat) {R : Type}.
#[local] Existing Instance the_service.
#[local] Instance tree_service : Mail := the_service directory.
#[local] Instance tree_service_laws : MailLaws tree_service := data_service_laws directory.

Abbreviation Exposures := (gmap (nat * Z) Exposure).

(** The processes of [n] positions: those for which [done] holds have finished the phase. *)
Definition stage (n : nat) (is_done : nat -> bool) (start after : nat -> process R) : list (process R) :=
  map (fun j => if is_done j then after j else start j) (seq 0 n).

Lemma stage_lookup n is_done start after i : (i < n)%nat ->
  stage n is_done start after !! i = Some (if is_done i then after i else start i).
Proof using Type. intros Hi. unfold stage. rewrite list_lookup_fmap, lookup_seq_lt by done. done. Qed.

Lemma stage_insert n is_done is_done' start after after' i : (i < n)%nat -> is_done' i = true ->
  (forall j, j <> i -> is_done' j = is_done j) -> (forall j, j <> i -> is_done j = true -> after' j = after j) ->
  <[i := after' i]> (stage n is_done start after) = stage n is_done' start after'.
Proof using Type.
  intros Hi Hd Hd' Ha. apply list_eq. intros j. destruct (decide (j < n)%nat) as [Hj|Hj].
  - destruct (decide (j = i)) as [->|Hne].
    + rewrite list_lookup_insert_eq by (unfold stage; rewrite length_map, length_seq; done). by rewrite stage_lookup, Hd.
    + rewrite list_lookup_insert_ne, !stage_lookup, Hd' by done. destruct (is_done j) eqn:Hj'; [by rewrite Ha|done].
  - rewrite !lookup_ge_None_2; [done|..]; unfold stage; rewrite ?length_insert, length_map, length_seq; lia.
Qed.

(** The root is the last to finish one phase and the first to finish the other. *)
Lemma stage_root n (start after : nat -> process R) x : (0 < n)%nat ->
  <[0%nat := x]> (stage n (fun j => (1 <=? j)%nat) start after) = map (fun i => if (i =? 0)%nat then x else after i) (seq 0 n).
Proof using Type.
  intros Hn. unfold stage. destruct n as [|m]; [lia|]. cbn. f_equal. apply map_ext_in. by intros [|j] [? _]%in_seq; [lia|].
Qed.

(** ** Upwards *)
Section up.
Context (n k : nat) (Hk : (0 < k)%nat) (transfer : Z).
Context (own : nat -> Tensor) (vals : nat -> Value) (dims : list Z) (dt : DType).
Context (start : nat -> process R) (after : nat -> Tensor -> process R).

Definition like (t : Tensor) : Prop := shape t = dims /\ dtype t = dt.
Definition offer (t : Tensor) (count : Z) (d : nat) : Exposure := mkExposure (into_data t) count d.

(** What node [i] has done with the mail: its children are downloaded, its own tensor is exposed. *)
Definition summed (i : nat) (ts : nat -> Tensor) (t : Tensor) (s s' : Exposures) : Prop :=
  forall key, s' !! key =
    if decide (key = (i, transfer)) then Some (offer t 1 0)
    else if decide (key.2 = transfer /\ key.1 ∈ children_of n k i) then Some (offer (ts key.1) 1 1)
    else s !! key.

Definition sums_up (i : nat) (ts : nat -> Tensor) (t : Tensor) : Prop :=
  like t /\ forall gs, (forall c, c ∈ children_of n k i -> sums value_add (gs c) (value (ts c))) ->
    sums value_add (vals i :: concat (map gs (children_of n k i))) (value t).

Hypothesis up_step : forall i ts s, (0 < i < n)%nat ->
  (forall c, c ∈ children_of n k i -> s !! (c, transfer) = Some (offer (ts c) 1 0) /\ like (ts c)) ->
  s !! (i, transfer) = None ->
  exists t s', sums_up i ts t /\ summed i ts t s s' /\ alone i (start i) s (after i t) s'.

(** The nodes from [i] have finished. *)
Record up_stage (i : nat) (ts : nat -> Tensor) (gs : nat -> list Value) (s0 s : Exposures) : Prop := {
  up_like j : (i <= j < n)%nat -> like (ts j);
  up_mail j : (i <= j < n)%nat -> s !! (j, transfer) = Some (offer (ts j) 1 (if (j <? i * k + 1)%nat then 0 else 1));
  up_rest key : (key.2 = transfer -> ~ (i <= key.1 < n)%nat) -> s !! key = s0 !! key;
  up_sums j : (i <= j < n)%nat -> sums value_add (gs j) (value (ts j));
  up_all : concat (map gs (roots_from n k i)) ≡ₚ map vals (seq i (n - i));
}.

Lemma up_runs s0 i : (0 < i <= n)%nat -> (forall j, s0 !! (j, transfer) = None) ->
  exists ts gs s l, up_stage i ts gs s0 s /\
    runs network_step l (mkNetwork (map start (seq 0 n)) s0)
      (mkNetwork (stage n (fun j => (i <=? j)%nat) start (fun j => after j (ts j))) s).
Proof using Hk up_step own.
  intros Hi Hs0. remember (n - i)%nat as m eqn:Hm. revert i Hi Hm. induction m as [|m IH]; intros i Hi Hm.
  - assert (i = n) as -> by lia. exists own, (fun _ => []), s0, []. split.
    + split; try (intros; lia); [done|]. unfold roots_from. rewrite Nat.min_l by nia. by rewrite Nat.sub_diag.
    + replace (stage n (fun j => (n <=? j)%nat) start (fun j => after j (own j))) with (map start (seq 0 n)); [constructor|].
      apply map_ext_in. intros j Hj%in_seq. by rewrite (proj2 (Nat.leb_gt _ _)) by lia.
  - destruct (IH (S i)) as (ts & gs & s & l & Hst & Hrun); [lia..|]. destruct Hst as [Hlike Hmail Hrest Hsums Hall].
    destruct (up_step i ts s) as (t & s' & [Ht Hsum] & Hs' & Halone); [lia| |rewrite Hrest by (cbn; lia); apply Hs0|].
    { intros c Hc. pose proof (child_after n k Hk i c Hc). split; [|apply Hlike; lia]. rewrite Hmail by lia.
      apply elem_children in Hc as [Hc _]. by rewrite (proj2 (Nat.ltb_lt _ _)) by lia. }
    set (ts' := fun j => if (j =? i)%nat then t else ts j).
    set (gs' := fun j => if (j =? i)%nat then vals i :: concat (map gs (children_of n k i)) else gs j).
    assert (Hts : forall j, j <> i -> ts' j = ts j) by (intros j Hj; unfold ts'; by rewrite (proj2 (Nat.eqb_neq _ _) Hj)).
    assert (Hgs : forall j, j <> i -> gs' j = gs j) by (intros j Hj; unfold gs'; by rewrite (proj2 (Nat.eqb_neq _ _) Hj)).
    assert (Hti : ts' i = t) by (unfold ts'; by rewrite Nat.eqb_refl).
    assert (Hgi : gs' i = vals i :: concat (map gs (children_of n k i))) by (unfold gs'; by rewrite Nat.eqb_refl).
    destruct (alone_runs i (stage n (fun j => (S i <=? j)%nat) start (fun j => after j (ts j))) (start i) s (after i t) s') as [l' Hl'].
    { rewrite stage_lookup by lia. by rewrite (proj2 (Nat.leb_gt _ _)) by lia. }
    { done. }
    exists ts', gs', s', (l ++ l'). split.
    + split.
      * intros j Hj. destruct (decide (j = i)) as [->|Hne]; [by rewrite Hti|]. rewrite Hts by done. apply Hlike. lia.
      * intros j Hj. rewrite Hs'. destruct (decide (j = i)) as [->|Hne].
        { rewrite decide_True by done. rewrite Hti. by rewrite (proj2 (Nat.ltb_lt _ _)) by nia. }
        rewrite decide_False by congruence. cbn [fst snd]. rewrite Hts by done. case_decide as Hc.
        { destruct Hc as [_ Hc]. apply elem_children in Hc as [Hc _]. by rewrite (proj2 (Nat.ltb_ge _ _)) by lia. }
        rewrite Hmail by lia. assert (Hnc : ~ j ∈ children_of n k i) by tauto. rewrite elem_children in Hnc.
        destruct (Nat.ltb_spec j (S i * k + 1)), (Nat.ltb_spec j (i * k + 1)); try done; exfalso; [apply Hnc; lia|nia].
      * intros key Hkey. rewrite Hs'. rewrite decide_False.
        2:{ intros ->. apply Hkey; [done|]. cbn. lia. }
        rewrite decide_False; [apply Hrest; intros Hkt; specialize (Hkey Hkt); lia|].
        intros [Hkt Hc]. specialize (Hkey Hkt). apply child_after in Hc; [lia|done].
      * intros j Hj. destruct (decide (j = i)) as [->|Hne]; [|rewrite Hts, Hgs by done; apply Hsums; lia].
        rewrite Hti, Hgi. apply Hsum. intros c Hc. apply Hsums. pose proof (child_after n k Hk i c Hc). lia.
      * rewrite roots_from_cons by lia. cbn [map concat]. rewrite Hgi.
        replace (n - i)%nat with (S (n - S i)) by lia. cbn [seq map app]. apply Permutation_skip.
        rewrite roots_from_S, map_app, concat_app in Hall by lia. rewrite <- Hall, Permutation_app_comm. apply Permutation_app_tail.
        erewrite map_ext_in; [reflexivity|]. intros j Hj%in_seq. apply Hgs. lia.
    + eapply runs_app; [exact Hrun|].
      replace (stage n (fun j => (i <=? j)%nat) start (fun j => after j (ts' j)))
        with (<[i := after i t]> (stage n (fun j => (S i <=? j)%nat) start (fun j => after j (ts j)))); [exact Hl'|].
      rewrite <- Hti. apply (stage_insert n _ _ start (fun j => after j (ts j)) (fun j => after j (ts' j))).
      * lia.
      * by apply Nat.leb_le.
      * intros j Hj. destruct (Nat.leb_spec (S i) j), (Nat.leb_spec i j); try done; lia.
      * intros j Hj _. by rewrite Hts.
Qed.

(** The root sums up what its children have summed up. *)
Lemma root_sums ts gs s0 s t : (0 < n)%nat -> up_stage 1 ts gs s0 s -> sums_up 0 ts t -> sums value_add (map vals (seq 0 n)) (value t).
Proof using Hk.
  clear up_step. intros Hn [_ _ _ Hsums Hall] [_ Hsum]. eapply sums_perm; [|apply (Hsum gs)].
  - replace (seq 0 n) with (0%nat :: seq 1 (n - 1)) by (destruct n; [lia|]; cbn; by rewrite Nat.sub_0_r).
    cbn [map]. apply Permutation_skip. rewrite <- Hall. unfold children_of, roots_from.
    replace (0 * k + 1)%nat with 1%nat by lia. by replace (1 * k + 1)%nat with (1 + k)%nat by lia.
  - intros c Hc. pose proof (child_after n k Hk 0 c Hc). apply Hsums. lia.
Qed.

(** What the root finds when its children have finished. *)
Lemma root_children ts gs s0 s c : up_stage 1 ts gs s0 s -> c ∈ children_of n k 0 ->
  s !! (c, transfer) = Some (offer (ts c) 1 0) /\ like (ts c).
Proof using Hk.
  clear up_step. intros [Hl Hmail _ _ _] Hc. pose proof (child_after n k Hk 0 c Hc). split; [|apply Hl; lia]. rewrite Hmail by lia.
  apply elem_children in Hc as [Hc _]. by rewrite (proj2 (Nat.ltb_lt _ _)) by lia.
Qed.

(** Once the root has its sum, each of the other exposures has been downloaded. *)
Lemma up_balanced ts gs s0 s j : up_stage 1 ts gs s0 s -> (0 < j < n)%nat -> ~ j ∈ children_of n k 0 ->
  s !! (j, transfer) = Some (offer (ts j) 1 1).
Proof using Hk.
  clear up_step. intros [_ Hmail _ _ _] Hj Hn0. rewrite elem_children in Hn0. by rewrite Hmail, (proj2 (Nat.ltb_ge _ _)) by lia.
Qed.
End up.

(** ** Downwards *)
Section down.
Context (n k : nat) (Hk : (0 < k)%nat) (transfer : Z) (v : Value) (dims : list Z) (dt : DType).
Context (start : nat -> process R) (after : nat -> Tensor -> process R) (device : nat -> TDevice).

Definition copied (t : Tensor) : Prop := value t = v /\ shape t = dims /\ dtype t = dt.
Definition count_children (i : nat) : nat := length (children_of n k i).

(** What node [i] has done: it has taken the tensor of its parent and exposed it for its children, if it has any. *)
Definition handed (i : nat) (e : Exposure) (t : Tensor) (s s' : Exposures) : Prop :=
  forall key, s' !! key =
    if decide (key = (parent_of k i, transfer)) then Some (mkExposure (exposed e) (max_downloads e) (S (downloads e)))
    else if decide (key = (i, transfer) /\ children_of n k i <> []) then Some (offer t (Z.of_nat (count_children i)) 0)
    else s !! key.

Hypothesis down_step : forall i tp e s, (0 < i < n)%nat ->
  s !! (parent_of k i, transfer) = Some e -> exposed e = into_data tp -> copied tp -> s !! (i, transfer) = None ->
  exists t s', copied t /\ float_device t = device i /\ handed i e t s s' /\ alone i (start i) s (after i t) s'.

(** How many of the children of [j] are before [i]. *)
Definition served (i j : nat) : nat := Nat.min (count_children j) (i - (j * k + 1)).

Record down_stage (i : nat) (ts : nat -> Tensor) (s0 s : Exposures) : Prop := {
  down_copied j : (j < i)%nat -> copied (ts j) /\ float_device (ts j) = device j;
  down_mail j : (j < i)%nat -> children_of n k j <> [] ->
    s !! (j, transfer) = Some (offer (ts j) (Z.of_nat (count_children j)) (served i j));
  down_rest key : (key.2 = transfer -> ~ (key.1 < i)%nat \/ children_of n k key.1 = []) -> s !! key = s0 !! key;
}.

Lemma served_S i j : (j < i)%nat -> (i < n)%nat -> served (S i) j = if (j =? parent_of k i)%nat then S (served i j) else served i j.
Proof using Hk.
  intros Hj Hi. unfold served, count_children, children_of. rewrite length_seq.
  assert (Hc : j = parent_of k i <-> (j * k + 1 <= i < j * k + 1 + k)%nat).
  { pose proof (elem_children n k j i) as He. rewrite (child_parent n k Hk) in He. split.
    - intros Hj'. apply He. split; [done|lia].
    - intros Hr. symmetry. apply He. split; [done|lia]. }
  destruct (Nat.eqb_spec j (parent_of k i)) as [Heq|Hne]; [apply Hc in Heq; lia|].
  assert (~ (j * k + 1 <= i < j * k + 1 + k)%nat) by tauto. lia.
Qed.

Lemma down_runs root s0 s1 i : (0 < i <= n)%nat ->
  (forall j, (0 < j < n)%nat -> s0 !! (j, transfer) = None) -> copied root /\ float_device root = device 0 ->
  down_stage 1 (fun _ => root) s0 s1 ->
  exists ts s l, ts 0%nat = root /\ down_stage i ts s0 s /\
    runs network_step l (mkNetwork (stage n (fun j => (j <? 1)%nat) start (fun j => after j root)) s1)
      (mkNetwork (stage n (fun j => (j <? i)%nat) start (fun j => after j (ts j))) s).
Proof using Hk down_step.
  intros Hi Hs0 Hroot H1. induction i as [|i IH]; [lia|]. destruct (decide (i = 0)%nat) as [->|Hi0].
  { exists (fun _ => root), s1, []. split; [done|]. split; [done|constructor]. }
  destruct IH as (ts & s & l & Ht0 & [Hcop Hmail Hrest] & Hrun); [lia|].
  pose proof (parent_before k Hk i ltac:(lia)) as Hp.
  assert (Hpc : i ∈ children_of n k (parent_of k i)) by (apply child_parent; [done|split; [done|lia]]).
  assert (Hpne : children_of n k (parent_of k i) <> []) by (intros He; rewrite He in Hpc; by apply not_elem_of_nil in Hpc).
  destruct (down_step i (ts (parent_of k i)) _ s ltac:(lia) (Hmail _ Hp Hpne) eq_refl) as (t & s' & Ht & Hd & Hs' & Halone).
  { by apply Hcop. }
  { rewrite Hrest by (intros _; left; cbn; lia). apply Hs0. lia. }
  set (ts' := fun j => if (j =? i)%nat then t else ts j).
  assert (Hts : forall j, j <> i -> ts' j = ts j) by (intros j Hj; unfold ts'; by rewrite (proj2 (Nat.eqb_neq _ _) Hj)).
  assert (Hti : ts' i = t) by (unfold ts'; by rewrite Nat.eqb_refl).
  destruct (alone_runs i (stage n (fun j => (j <? i)%nat) start (fun j => after j (ts j))) (start i) s (after i t) s') as [l' Hl'].
  { rewrite stage_lookup by lia. by rewrite Nat.ltb_irrefl. }
  { done. }
  exists ts', s', (l ++ l'). split; [by rewrite Hts|]. split.
  - split.
    + intros j Hj. destruct (decide (j = i)) as [->|Hne]; [by rewrite Hti|]. rewrite Hts by done. apply Hcop. lia.
    + intros j Hj Hc. rewrite Hs'. destruct (decide (j = i)) as [->|Hne].
      * rewrite decide_False by (intros [= He]; lia). rewrite decide_True by done. rewrite Hti. unfold offer. do 2 f_equal.
        unfold served. destruct (count_children i); [done|]. nia.
      * rewrite Hts, served_S by lia. destruct (Nat.eqb_spec j (parent_of k i)) as [->|Hnp].
        { by rewrite decide_True. }
        rewrite decide_False by congruence. rewrite decide_False by (intros [[= ?] _]; lia). apply Hmail; [lia|done].
    + intros key Hkey. rewrite Hs'. rewrite decide_False.
      2:{ intros ->. destruct (Hkey eq_refl) as [Hk1|Hk1]; cbn in Hk1; [lia|done]. }
      rewrite decide_False.
      2:{ intros [-> Hc]. destruct (Hkey eq_refl) as [Hk1|Hk1]; cbn in Hk1; [lia|done]. }
      apply Hrest. intros Hkt. destruct (Hkey Hkt); [left; lia|by right].
  - eapply runs_app; [exact Hrun|].
    replace (stage n (fun j => (j <? S i)%nat) start (fun j => after j (ts' j)))
      with (<[i := after i t]> (stage n (fun j => (j <? i)%nat) start (fun j => after j (ts j)))); [exact Hl'|].
    rewrite <- Hti. apply (stage_insert n _ _ start (fun j => after j (ts j)) (fun j => after j (ts' j))).
    + lia.
    + apply Nat.ltb_lt. lia.
    + intros j Hj. destruct (Nat.ltb_spec j (S i)), (Nat.ltb_spec j i); try done; lia.
    + intros j Hj _. by rewrite Hts.
Qed.

(** When all have finished, each exposure has been downloaded by every child. *)
Lemma served_all j : (j < n)%nat -> served n j = count_children j.
Proof using Hk. intros Hj. unfold served, count_children, children_of. rewrite length_seq. lia. Qed.
End down.
End tree.
