(* ===== verification/GlobalRooted.v ===== *)
(** * Rooted collectives: src/src/global/node/rooted.rs

    The nodes in the order of [neighbors] form a tree; along it [reduce_sum]
    brings a sum of all tensors to the root, and [broadcast] the tensor of the
    root to all. *)
From stdpp Require Import sorting.
From S2P Require Import Prelude FloatBackend LocalReduce LocalStrategies CollectiveConfig Processes Orchestrator GlobalNode GlobalTree.

(** ** Sorted identifiers *)
Lemma sort_ids_perm ids : sort_ids ids ≡ₚ ids.
Proof. apply merge_sort_Permutation. Qed.

Lemma position_of_lookup ids i id : NoDup ids -> ids !! i = Some id -> position_of id ids = Some i.
Proof.
  intros Hnd Hi. unfold position_of. assert (Hf : list_find (fun x => x = id) ids = Some (i, id)); [|by rewrite Hf].
  apply list_find_Some. split; [done|]. split; [done|]. intros j y Hj Hlt ->.
  by pose proof (NoDup_lookup _ _ _ _ Hnd Hi Hj) as ->; lia.
Qed.

Lemma take_drop_seq {A} `{Inhabited A} (l : list A) a b : (a + b <= length l)%nat -> take b (drop a l) = map (fun i => l !!! i) (seq a b).
Proof.
  intros Hl. apply list_eq. intros i. rewrite list_lookup_fmap. destruct (decide (i < b)%nat) as [Hi|Hi].
  - rewrite lookup_take_lt, lookup_drop, lookup_seq_lt by done. cbn. apply list_lookup_lookup_total_lt. lia.
  - rewrite lookup_take_ge, lookup_seq_ge by lia. done.
Qed.

Lemma map_positions {A X} `{Inhabited A} (g : A -> X) (l : list A) : map g l = map (fun i => g (l !!! i)) (seq 0 (length l)).
Proof.
  apply list_eq. intros j. rewrite !list_lookup_fmap. destruct (decide (j < length l)%nat) as [Hj|Hj].
  - rewrite lookup_seq_lt by done. by rewrite (list_lookup_lookup_total_lt _ _ Hj).
  - by rewrite !lookup_ge_None_2 by (rewrite ?length_seq; lia).
Qed.

Section group.
Context {B : FloatBackend} {BL : FloatLaws B} {ET : ElementTypes} {T : TensorTransfer} {TL : TransferLaws T} {N : Network}.
Context `{HL : HashLaws} {C : Completion} {CL : CompletionLaws C}.
Context (directory : Address -> option nat).
#[local] Existing Instance tree_service.
#[local] Instance rooted_service : Mail := tree_service directory.
#[local] Instance rooted_service_laws : MailLaws rooted_service := tree_service_laws directory.
Implicit Types s : gmap (nat * Z) Exposure.

(** The processes are the nodes of the group, in an order; the addresses lead to them. *)
Record group_of (ids : list NodeId) (nodes : HashMap Address) : Prop := {
  group_nodup : NoDup ids;
  group_ids id : id ∈ ids <-> is_Some (entries nodes !! id);
  group_listens i id address : ids !! i = Some id -> entries nodes !! id = Some address -> directory address = Some i;
}.

Lemma group_entry ids nodes i : group_of ids nodes -> (i < length ids)%nat ->
  exists address, entries nodes !! (ids !!! i) = Some address /\ directory address = Some i.
Proof using Type.
  intros Hg Hi. assert (Hl : ids !! i = Some (ids !!! i)) by (by apply list_lookup_lookup_total_lt).
  destruct (proj1 (group_ids _ _ Hg (ids !!! i))) as [a Ha]; [by eapply list_elem_of_lookup_2|].
  exists a. split; [done|]. by eapply group_listens.
Qed.

Lemma keys_group ids nodes : group_of ids nodes -> keys nodes ≡ₚ ids.
Proof using HL.
  intros Hg. apply NoDup_Permutation; [apply NoDup_keys|apply (group_nodup _ _ Hg)|].
  intros id. rewrite (group_ids _ _ Hg). unfold keys. rewrite list_elem_of_fmap. split.
  - intros ([k a] & -> & Ha%elem_of_iter). by exists a.
  - intros [a Ha]. exists (id, a). split; [done|]. by apply elem_of_iter.
Qed.

(** *** The sum of some of the children *)
Lemma add_children (dims : list Z) (dt : DType) (device : TDevice) (transfer : Z) ids p (f : Tensor -> NodeId -> program GlobalCollectiveError Tensor)
    (ts : nat -> Tensor) :
  (forall t c s tc d, like dims dt t -> float_device t = device -> (c < length ids)%nat -> like dims dt tc ->
    s !! (c, transfer) = Some (offer tc 1 d) ->
    alone p (f t (ids !!! c)) s (Return (Ok (float_add t (float_from_data (into_data tc) device))))
      (<[(c, transfer) := offer tc 1 (S d)]> s)) ->
  forall cs t s, NoDup cs -> like dims dt t -> float_device t = device ->
    (forall c, c ∈ cs -> (c < length ids)%nat /\ like dims dt (ts c) /\ s !! (c, transfer) = Some (offer (ts c) 1 0)) ->
    exists t' s', alone p (loop f t (map (fun c => ids !!! c) cs)) s (Return (Ok t')) s' /\
      like dims dt t' /\ float_device t' = device /\
      (forall l gs, sums value_add l (value t) -> (forall c, c ∈ cs -> sums value_add (gs c) (value (ts c))) ->
        sums value_add (l ++ concat (map gs cs)) (value t')) /\
      forall key, s' !! key = if decide (key.2 = transfer /\ key.1 ∈ cs) then Some (offer (ts key.1) 1 1) else s !! key.
Proof using TL.
  intros Hf. induction cs as [|c cs IH]; intros t s Hnd Hl Hd Hcs.
  - exists t, s. split; [constructor|]. split; [done|]. split; [done|]. split.
    + intros l gs Ht _. cbn. by rewrite app_nil_r.
    + intros key. rewrite decide_False; [done|]. intros [_ Hn]. by apply not_elem_of_nil in Hn.
  - apply NoDup_cons in Hnd as [Hc Hnd]. destruct (Hcs c) as (Hlt & [Hsh Hdt] & Hmail); [by left|]. destruct Hl as [Hsh' Hdt'].
    set (u := float_from_data (into_data (ts c)) device).
    assert (Huv : value u = value (ts c)) by apply data_value.
    assert (Hus : shape t = shape u) by (by rewrite (shape_value u), Huv, <- shape_value, Hsh).
    assert (Hud : dtype t = dtype u) by (by unfold u; rewrite from_dtype, into_dtype, Hdt).
    destruct (IH (float_add t u) (<[(c, transfer) := offer (ts c) 1 1]> s)) as (t' & s' & Hrun & Hlike & Hdev & Hsum & Hs').
    + done.
    + split; [|by rewrite add_dtype]. rewrite shape_value, add_value, add_shape by (done || by rewrite <- !shape_value). by rewrite <- shape_value.
    + by rewrite add_device.
    + intros c' Hc'. destruct (Hcs c') as (? & ? & ?); [by right|]. split; [done|]. split; [done|].
      rewrite lookup_insert_ne; [done|]. intros [= ->]. done.
    + exists t', s'. split; [|split; [done|split; [done|split]]].
      * cbn [map loop]. eapply alone_then; [|exact Hrun]. by apply Hf.
      * intros l gs Ht Hgs. cbn [map concat]. rewrite app_assoc. apply Hsum.
        -- rewrite add_value, Huv by done. apply sums_add; [done|]. apply Hgs. by left.
        -- intros c' Hc'. apply Hgs. by right.
      * intros key. rewrite Hs'. destruct (decide (key.2 = transfer /\ key.1 ∈ cs)) as [[Hk1 Hk2]|Hn].
        -- rewrite decide_True; [done|]. split; [done|by right].
        -- destruct (decide (key = (c, transfer))) as [->|Hne].
           ++ rewrite lookup_insert_eq, decide_True; [done|]. split; [done|by left].
           ++ rewrite lookup_insert_ne by done. rewrite decide_False; [done|]. intros [Hk1 Hk2]. apply elem_of_cons in Hk2 as [Hk2|Hk2].
              ** apply Hne. destruct key. cbn in *. by subst.
              ** by apply Hn.
Qed.

Lemma download_alone p address transfer q e s :
  directory address = Some q -> s !! (q, transfer) = Some e ->
  alone p (download_tensor directory address transfer) s (Return (Ok (Some (exposed e))))
    (<[(q, transfer) := mkExposure (exposed e) (max_downloads e) (S (downloads e))]> s).
Proof using Type.
  intros Hq He. apply (alone_take (M:=rooted_service) p (address, transfer)). cbn. rewrite Hq. cbn. by rewrite He.
Qed.

Lemma expose_alone p t count transfer s : s !! (p, transfer) = None ->
  alone p (expose directory t count transfer) s (Return (Ok tt)) (<[(p, transfer) := offer t count 0]> s).
Proof using Type.
  intros Hs. pose proof (alone_post (M:=rooted_service) (E:=GlobalCollectiveError) p (t, count, transfer) s) as Ha.
  cbn in Ha. rewrite Hs in Ha. exact Ha.
Qed.

(** *** A tensor for the children *)
Lemma pass_on {R} (l : list NodeId) n k transfer i t s (g : program GlobalCollectiveError R) :
  Z.of_nat n < 2 ^ 32 -> s !! (i, transfer) = None ->
  exists s', alone i (_ ← (if (length (map (fun c => l !!! c) (children_of n k i)) =? 0)%nat then mret tt
      else expose directory t (wrap 32 (Zlen (map (fun c => l !!! c) (children_of n k i)))) transfer); g) s g s' /\
    forall key, s' !! key = if decide (key = (i, transfer) /\ children_of n k i <> [])
      then Some (offer t (Z.of_nat (count_children n k i)) 0) else s !! key.
Proof using Type.
  intros Hsize Hn. rewrite length_map. destruct (Nat.eqb_spec (length (children_of n k i)) 0) as [He|He].
  - exists s. split; [constructor|]. intros key. rewrite decide_False; [done|]. intros [_ Hc]. apply Hc. by apply length_zero_iff_nil.
  - exists (<[(i, transfer) := offer t (Z.of_nat (count_children n k i)) 0]> s). split.
    + eapply alone_then; [|constructor]. assert (wrap 32 (Zlen (map (fun c => l !!! c) (children_of n k i))) = Z.of_nat (count_children n k i)) as ->.
      { unfold Zlen, count_children. rewrite length_map. apply wrap_in. unfold in_width.
        assert (length (children_of n k i) <= n)%nat; [|lia]. unfold children_of. rewrite length_seq. lia. }
      by apply expose_alone.
    + intros key. case_decide as Hk.
      * destruct Hk as [-> _]. by rewrite lookup_insert_eq.
      * rewrite lookup_insert_ne; [done|]. intros <-. apply Hk. split; [done|]. intros Hc. by rewrite Hc in He.
Qed.

(** ** The neighbors of a node *)
Definition tree_ids (root : NodeId) (nodes : HashMap Address) : list NodeId :=
  root :: sort_ids (filter (fun id => id <> root) (keys nodes)).

Definition branching (n : nat) (arity : option Z) : nat := Z.to_nat (Z.max (default (Z.of_nat n) arity) 1).

Lemma branching_pos n arity : (0 < branching n arity)%nat.
Proof using Type. unfold branching. lia. Qed.

Lemma tree_ids_group root nodes : is_Some (entries nodes !! root) ->
  (forall i id address, tree_ids root nodes !! i = Some id -> entries nodes !! id = Some address -> directory address = Some i) ->
  group_of (tree_ids root nodes) nodes.
Proof using HL.
  intros Hroot Hd. assert (Hkeys : forall id, id ∈ keys nodes <-> is_Some (entries nodes !! id)).
  { intros id. unfold keys. rewrite list_elem_of_fmap. split.
    - intros ([k a] & -> & Ha%elem_of_iter). by exists a.
    - intros [a Ha]. exists (id, a). split; [done|]. by apply elem_of_iter. }
  split; [| |done].
  - constructor; [|rewrite sort_ids_perm; apply NoDup_filter, NoDup_keys]. rewrite sort_ids_perm, list_elem_of_filter. tauto.
  - intros id. unfold tree_ids. rewrite elem_of_cons, sort_ids_perm, list_elem_of_filter, Hkeys. split.
    + intros [->|[_ ?]]; done.
    + intros ?. destruct (decide (id = root)); [by left|by right].
Qed.

Lemma neighbors_spec root nodes arity i : is_Some (entries nodes !! root) -> (forall a, arity = Some a -> 0 < a) ->
  NoDup (tree_ids root nodes) -> Zlen (tree_ids root nodes) < 2 ^ 32 -> (i < length (tree_ids root nodes))%nat ->
  let ids := tree_ids root nodes in let k := branching (length ids) arity in
  neighbors (ids !!! i) root nodes arity =
    Ok (if (i =? 0)%nat then None else Some (ids !!! parent_of k i), map (fun c => ids !!! c) (children_of (length ids) k i)).
Proof using Type.
  intros Hroot Ha Hnd Hlen Hi ids k. assert (Hk : (0 < k)%nat) by apply branching_pos.
  unfold neighbors. rewrite (bool_decide_eq_false_2 (arity = Some 0)) by (intros He; specialize (Ha 0 He); lia).
  rewrite bool_decide_eq_true_2 by done. cbn [fail_if negb mbind outcome_bind]. fold (tree_ids root nodes). fold ids.
  rewrite (position_of_lookup ids i (ids !!! i)) by (done || by apply list_lookup_lookup_total_lt).
  cbn [ok_or mbind outcome_bind]. assert (Hkz : Z.max (default (Zlen ids) arity) 1 = Z.of_nat k).
  { unfold k, branching, Zlen. lia. }
  rewrite Hkz. assert (Hpar : (if (i =? 0)%nat then Ok None
      else parent ← index ids (Z.to_nat ((Z.of_nat i - 1) / Z.of_nat k)); Ok (Some parent)) =
      Ok (E:=GlobalCollectiveError) (if (i =? 0)%nat then None else Some (ids !!! parent_of k i))).
  { destruct (Nat.eqb_spec i 0) as [->|Hi0]; [done|].
    assert (Hp : Z.to_nat ((Z.of_nat i - 1) / Z.of_nat k) = parent_of k i).
    { unfold parent_of. rewrite <- (Nat2Z.id ((i - 1) / k)), Nat2Z.inj_div. do 2 f_equal. lia. }
    rewrite Hp. pose proof (parent_before k Hk i ltac:(lia)).
    assert (index (E:=GlobalCollectiveError) ids (parent_of k i) = Ok (ids !!! parent_of k i)) as ->; [|done].
    apply index_Ok. apply list_lookup_lookup_total_lt. unfold ids in *. lia. }
  rewrite Hpar. cbn [mbind outcome_bind]. unfold Zlen in *. fold ids in Hlen, Hi.
  assert (Hfirst : Z.min (saturating_add usize_bits (saturating_mul usize_bits (Z.of_nat i) (Z.of_nat k)) 1) (Z.of_nat (length ids)) =
    Z.of_nat (Nat.min (i * k + 1) (length ids))).
  { unfold saturating_add, saturating_mul, saturate. rewrite <- Nat2Z.inj_mul. set (m := (i * k)%nat). lia. }
  rewrite Hfirst. set (first := Nat.min (i * k + 1) (length ids)).
  assert (Hlast : Z.min (saturating_add usize_bits (Z.of_nat first) (Z.of_nat k)) (Z.of_nat (length ids)) =
    Z.of_nat (Nat.min (first + k) (length ids))).
  { unfold saturating_add, saturate. assert (first <= length ids)%nat by (unfold first; lia). lia. }
  rewrite Hlast, !Nat2Z.id. rewrite slice_range_Ok by (unfold first; lia). cbn [mbind outcome_bind]. do 2 f_equal.
  rewrite take_drop_seq by (unfold first; lia). unfold children_of. fold ids. unfold first.
  destruct (decide (i * k + 1 <= length ids)%nat).
  - rewrite (Nat.min_l (i * k + 1)) by done. do 2 f_equal. lia.
  - replace (Nat.min (Nat.min (i * k + 1) (length ids) + k) (length ids) - Nat.min (i * k + 1) (length ids))%nat with 0%nat by lia.
    by replace (Nat.min (length ids) (i * k + 1 + k) - (i * k + 1))%nat with 0%nat by lia.
Qed.

(** ** Reduce *)
Section rooted.
Context (root : NodeId) (nodes : HashMap Address) (arity : option Z) (transfer : Z).
Context (dims : list Z) (dt : DType) {A : Type}.
Abbreviation ids := (tree_ids root nodes).
Abbreviation n := (length ids).
Abbreviation k := (branching n arity).

Record rooted_group : Prop := {
  rooted_root : is_Some (entries nodes !! root);
  rooted_arity a : arity = Some a -> 0 < a;
  rooted_group_of : group_of ids nodes;
  rooted_size : Zlen ids < 2 ^ 32;
}.
Hypothesis (Hg : rooted_group).

Lemma rooted_neighbors i : (i < n)%nat ->
  neighbors (ids !!! i) root nodes arity =
    Ok (if (i =? 0)%nat then None else Some (ids !!! parent_of k i), map (fun c => ids !!! c) (children_of n k i)).
Proof using Hg.
  intros Hi. apply neighbors_spec; [apply (rooted_root Hg)|apply (rooted_arity Hg)|apply (group_nodup _ _ (rooted_group_of Hg))|apply (rooted_size Hg)|done].
Qed.

Lemma add_child_alone p device t c s tc d : like dims dt t -> float_device t = device -> (c < n)%nat -> like dims dt tc ->
  s !! (c, transfer) = Some (offer tc 1 d) ->
  alone p (add_child directory dims dt device nodes transfer t (ids !!! c)) s
    (Return (Ok (float_add t (float_from_data (into_data tc) device)))) (<[(c, transfer) := offer tc 1 (S d)]> s).
Proof using Hg TL.
  intros Ht Hd Hc [Hs Hdt] Hmail. unfold add_child. destruct (group_entry ids nodes c (rooted_group_of Hg) Hc) as (a & Ha & Hda).
  rewrite (lift_bind a) by (by rewrite Ha). eapply alone_then; [by apply (download_alone _ _ _ c)|].
  rewrite (lift_bind (into_data tc)) by done.
  rewrite (lift_bind tt).
  2:{ rewrite into_shape, into_dtype, Hs, Hdt. by rewrite !bool_decide_eq_true_2. }
  constructor.
Qed.

Section reduce.
Context (inputs : NodeId -> Tensor) (Hlike : forall id, id ∈ ids -> like dims dt (inputs id)).
Context (f : nat -> option Tensor -> program GlobalCollectiveError A).
Definition own i : Tensor := inputs (ids !!! i).
Definition reduce_start i : program GlobalCollectiveError A :=
  reduce_sum directory (ids !!! i) root nodes (own i) arity transfer ≫= f i.

Lemma own_like i : (i < n)%nat -> like dims dt (own i).
Proof using Hlike. intros Hi. apply Hlike. by apply list_elem_of_lookup_total_2. Qed.

(** A node sums up its children. *)
Lemma reduce_children i s ts : (i < n)%nat ->
  (forall c, c ∈ children_of n k i -> s !! (c, transfer) = Some (offer (ts c) 1 0) /\ like dims dt (ts c)) ->
  exists t s', sums_up n k (fun j => value (own j)) dims dt i ts t /\ float_device t = float_device (own i) /\
    alone i (loop (add_child directory (shape (own i)) (dtype (own i)) (float_device (own i)) nodes transfer) (own i)
      (map (fun c => ids !!! c) (children_of n k i))) s (Return (Ok t)) s' /\
    forall key, s' !! key = if decide (key.2 = transfer /\ key.1 ∈ children_of n k i) then Some (offer (ts key.1) 1 1) else s !! key.
Proof using Hg Hlike TL.
  intros Hi Hc. destruct (own_like i Hi) as [-> ->].
  destruct (add_children dims dt (float_device (own i)) transfer ids i
    (add_child directory dims dt (float_device (own i)) nodes transfer) ts) with (cs := children_of n k i) (t := own i) (s := s)
    as (t & s' & Hrun & Ht & Hdev & Hsum & Hs').
  - intros t c s1 tc d. apply add_child_alone.
  - apply NoDup_children.
  - by apply own_like.
  - done.
  - intros c Hin. destruct (Hc c Hin). apply elem_children in Hin as [_ ?]. done.
  - exists t, s'. split; [|done]. split; [done|]. intros gs Hgs. apply (Hsum [value (own i)]); [constructor|done].
Qed.

Lemma reduce_up_step i ts s : (0 < i < n)%nat ->
  (forall c, c ∈ children_of n k i -> s !! (c, transfer) = Some (offer (ts c) 1 0) /\ like dims dt (ts c)) ->
  s !! (i, transfer) = None ->
  exists t s', sums_up n k (fun j => value (own j)) dims dt i ts t /\ summed n k transfer i ts t s s' /\
    alone i (reduce_start i) s (f i None) s'.
Proof using Hg Hlike TL.
  intros Hi Hc Hn. destruct (reduce_children i s ts ltac:(lia) Hc) as (t & s' & Hsum & Hdev & Hrun & Hs').
  assert (Hsi : s' !! (i, transfer) = None).
  { rewrite Hs'. cbn. rewrite decide_False; [done|]. intros [_ Hin%(child_after n k (branching_pos n arity))]. lia. }
  exists t, (<[(i, transfer) := offer t 1 0]> s'). split; [done|]. split.
  - intros key. rewrite <- Hs'. case_decide as Hk; [by rewrite Hk, lookup_insert_eq|]. by rewrite lookup_insert_ne.
  - unfold reduce_start, reduce_sum. rewrite rooted_neighbors by lia. rewrite (proj2 (Nat.eqb_neq _ _)) by lia.
    eapply alone_then; [|constructor]. cbn [lift mbind program_mbind program_bind].
    eapply alone_then; [exact Hrun|]. cbn [lift mbind program_mbind program_bind].
    eapply alone_then; [by apply expose_alone|]. constructor.
Qed.

Lemma reduce_runs s0 : (forall j, s0 !! (j, transfer) = None) ->
  exists l t s, runs network_step l (mkNetwork (map reduce_start (seq 0 n)) s0)
      (mkNetwork (map (fun i => f i (if (i =? 0)%nat then Some t else None)) (seq 0 n)) s) /\
    like dims dt t /\ float_device t = float_device (inputs root) /\ sums value_add (map (fun id => value (inputs id)) ids) (value t) /\
    (forall key, key.2 <> transfer -> s !! key = s0 !! key) /\
    (forall j e, s !! (j, transfer) = Some e -> Z.of_nat (downloads e) = max_downloads e).
Proof using Hg Hlike TL.
  intros Hs0. pose proof (branching_pos n arity) as Hk.
  destruct (up_runs directory n k Hk transfer own (fun j => value (own j)) dims dt reduce_start (fun i _ => f i None)
    reduce_up_step s0 1) as (ts & gs & s & l & Hst & Hrun); [cbn; lia|done|].
  assert (Hn : (0 < n)%nat) by (cbn; lia).
  destruct (reduce_children 0 s ts Hn) as (t & s' & Ht & Hdev & Halone & Hs'); [intros c; by eapply root_children|].
  destruct (alone_runs 0 (stage directory n (fun j => (1 <=? j)%nat) reduce_start (fun j => f j None)) (reduce_start 0) s (f 0%nat (Some t)) s') as [l' Hl'].
  { by rewrite stage_lookup. }
  { unfold reduce_start, reduce_sum. rewrite rooted_neighbors by done. cbn [Nat.eqb].
    eapply alone_then; [|constructor]. cbn [lift mbind program_mbind program_bind].
    eapply alone_then; [exact Halone|]. constructor. }
  exists (l ++ l'), t, s'. split; [|split; [apply Ht|split; [done|split; [|split]]]].
  - eapply runs_app; [exact Hrun|]. rewrite stage_root in Hl' by done.
    erewrite (map_ext_in (fun i => f i (if (i =? 0)%nat then Some t else None))); [exact Hl'|]. by intros [|i] _.
  - rewrite map_positions. exact (root_sums _ _ Hk _ _ _ _ _ _ _ _ _ Hn Hst Ht).
  - intros key Hkey. rewrite Hs', decide_False by tauto. by apply (up_rest _ _ _ _ _ _ _ _ _ _ _ Hst).
  - intros j e. rewrite Hs'. cbn [fst snd]. case_decide as Hd; [by intros [= <-]|]. destruct (decide (0 < j < n)%nat) as [Hj|Hj].
    + rewrite (up_balanced _ _ Hk _ _ _ _ _ _ _ _ _ Hst Hj) by tauto. by intros [= <-].
    + rewrite (up_rest _ _ _ _ _ _ _ _ _ _ _ Hst) by (intros _; cbn [fst]; lia). by rewrite Hs0.
Qed.
End reduce.

(** *** Broadcast *)
Section broadcast.
Context (source : Tensor) (others : NodeId -> option Tensor) (devices : NodeId -> TDevice).
Context (Hsource : like dims dt source).
Context (f : nat -> Tensor -> program GlobalCollectiveError A).
Definition brought (i : nat) : option Tensor := if (i =? 0)%nat then Some source else others (ids !!! i).
Definition broadcast_start i : program GlobalCollectiveError A :=
  broadcast directory (ids !!! i) root nodes (brought i) (devices (ids !!! i)) arity transfer ≫= f i.

Lemma broadcast_down_step i tp e s : (0 < i < n)%nat ->
  s !! (parent_of k i, transfer) = Some e -> exposed e = into_data tp -> copied (value source) dims dt tp -> s !! (i, transfer) = None ->
  exists t s', copied (value source) dims dt t /\ float_device t = devices (ids !!! i) /\ handed n k transfer i e t s s' /\
    alone i (broadcast_start i) s (f i t) s'.
Proof using Hg TL.
  intros Hi He Hex (Hv & Hs & Hd) Hn. assert (Hi0 : (0 < i)%nat) by lia.
  pose proof (parent_before k (branching_pos n arity) i Hi0) as Hp. assert (Hpn : (parent_of k i < n)%nat) by lia.
  destruct (group_entry ids nodes (parent_of k i) (rooted_group_of Hg) Hpn) as (a & Ha & Hda).
  set (t := float_from_data (exposed e) (devices (ids !!! i))).
  assert (Htv : value t = value source) by (unfold t; by rewrite Hex, data_value).
  set (s1 := <[(parent_of k i, transfer) := mkExposure (exposed e) (max_downloads e) (S (downloads e))]> s).
  assert (Hs1 : s1 !! (i, transfer) = None) by (unfold s1; rewrite lookup_insert_ne; [done|intros Hq%(f_equal fst); cbn [fst] in Hq; lia]).
  destruct (pass_on ids n k transfer i t s1 (mret t) (rooted_size Hg) Hs1) as (s' & Hrun & Hs').
  exists t, s'. split; [|split; [apply data_device|split]].
  - split; [done|]. split; [by rewrite shape_value, Htv, <- Hv, <- shape_value|]. unfold t. by rewrite Hex, from_dtype, into_dtype.
  - intros key. rewrite Hs'. destruct (decide (key = (parent_of k i, transfer))) as [->|Hne].
    + rewrite decide_False by (intros [Hq%(f_equal fst) _]; cbn [fst] in Hq; lia). unfold s1. by rewrite lookup_insert_eq.
    + case_decide; [done|]. unfold s1. by rewrite lookup_insert_ne.
  - unfold broadcast_start, broadcast. rewrite rooted_neighbors by lia. rewrite (proj2 (Nat.eqb_neq _ _)) by lia.
    eapply alone_then; [|constructor]. cbn [lift mbind program_mbind program_bind].
    eapply alone_then; [|exact Hrun].
    match goal with |- context [expect (entries nodes !! ?x)] => change x with (ids !!! parent_of k i) end.
    rewrite Ha. cbn [expect lift mbind program_mbind program_bind].
    eapply alone_then; [by apply download_alone|]. constructor.
Qed.

Lemma broadcast_runs s0 : (forall j, s0 !! (j, transfer) = None) ->
  exists l ts s, runs network_step l (mkNetwork (map broadcast_start (seq 0 n)) s0)
      (mkNetwork (map (fun i => f i (ts i)) (seq 0 n)) s) /\ ts 0%nat = source /\
    (forall i, (i < n)%nat -> copied (value source) dims dt (ts i) /\ ((0 < i)%nat -> float_device (ts i) = devices (ids !!! i))) /\
    (forall key, key.2 <> transfer -> s !! key = s0 !! key) /\
    (forall j e, s !! (j, transfer) = Some e -> Z.of_nat (downloads e) = max_downloads e).
Proof using Hg Hsource TL.
  intros Hs0. pose proof (branching_pos n arity) as Hk. assert (Hn : (0 < n)%nat) by (cbn; lia).
  destruct (pass_on ids n k transfer 0 source s0 (mret source) (rooted_size Hg) (Hs0 0%nat)) as (s1 & Hrun0 & Hs1).
  assert (Hstart : alone 0 (broadcast_start 0) s0 (f 0%nat source) s1).
  { unfold broadcast_start, broadcast. rewrite rooted_neighbors by done. cbn [Nat.eqb].
    eapply alone_then; [|constructor]. cbn [lift mbind program_mbind program_bind brought Nat.eqb ok_or]. exact Hrun0. }
  set (dev := fun j => if (j =? 0)%nat then float_device source else devices (ids !!! j)).
  destruct (alone_runs 0 (map broadcast_start (seq 0 n)) (broadcast_start 0) s0 (f 0%nat source) s1) as [l1 Hl1].
  { by rewrite list_lookup_fmap, lookup_seq_lt. }
  { done. }
  destruct (down_runs directory n k Hk transfer (value source) dims dt broadcast_start f dev) with (root := source) (s0 := s0) (s1 := s1) (i := n)
    as (ts & s & l2 & Ht0 & [Hcop Hmail Hrest] & Hl2).
  - intros i tp e s Hi He Hex Hcp Hni. unfold dev. rewrite (proj2 (Nat.eqb_neq i 0)) by lia. by apply (broadcast_down_step i tp e s).
  - lia.
  - intros j _. apply Hs0.
  - split; [|done]. split; [done|]. apply Hsource.
  - split.
    + intros j Hj. split; [split; [done|apply Hsource]|]. unfold dev. by replace j with 0%nat by lia.
    + intros j Hj Hc. assert (j = 0)%nat as -> by lia. rewrite Hs1, decide_True by done. do 2 f_equal. unfold served. lia.
    + intros key Hkey. rewrite Hs1, decide_False; [done|]. intros [-> Hc]. destruct (Hkey eq_refl) as [Hlt|He]; [cbn [fst] in Hlt; lia|done].
  - exists (l1 ++ l2), ts, s. split; [|split; [done|split; [|split]]].
    + eapply runs_app; [exact Hl1|].
      replace (<[0%nat := f 0%nat source]> (map broadcast_start (seq 0 n))) with
        (stage directory n (fun j => (j <? 1)%nat) broadcast_start (fun j => f j source)).
      * replace (map (fun i => f i (ts i)) (seq 0 n)) with (stage directory n (fun j => (j <? n)%nat) broadcast_start (fun j => f j (ts j))); [exact Hl2|].
        apply map_ext_in. intros j Hj%in_seq. by rewrite (proj2 (Nat.ltb_lt _ _)) by lia.
      * apply list_eq. intros j. destruct (decide (j < n)%nat) as [Hj|Hj].
        -- rewrite stage_lookup by done. destruct j as [|j].
           ++ by rewrite list_lookup_insert_eq by (rewrite length_map, length_seq; done).
           ++ rewrite list_lookup_insert_ne, list_lookup_fmap, lookup_seq_lt by done. done.
        -- rewrite !lookup_ge_None_2; [done|..]; unfold stage; rewrite ?length_insert, length_map, length_seq; lia.
    + intros i Hi. destruct (Hcop i Hi) as [Hc Hd]. split; [done|]. intros Hi0. rewrite Hd. unfold dev. by rewrite (proj2 (Nat.eqb_neq i 0)) by lia.
    + intros key Hkey. by apply Hrest.
    + intros j e. destruct (decide ((j < n)%nat /\ children_of n k j <> [])) as [[Hj Hc]|Hno].
      * rewrite Hmail by done. intros [= <-]. cbn [downloads max_downloads offer]. by rewrite served_all.
      * rewrite Hrest; [by rewrite Hs0|]. intros _. cbn [fst]. destruct (decide (j < n)%nat); [right|by left].
        destruct (children_of n k j) eqn:He; [done|]. exfalso. by apply Hno.
Qed.
End broadcast.
End rooted.
End group.
