(* ===== verification/GlobalAllReduce.v ===== *)
(** * All-reduce among nodes: src/src/global/node/{tree,centralized}.rs

    Both send the sums up a tree and the result down: the tree strategy along
    the topology of [get_tree_topology], the centralized one along a star. *)
From stdpp Require Import sorting.
From S2P Require Import Prelude FloatBackend LocalReduce LocalStrategies CollectiveConfig Processes Orchestrator GlobalNode GlobalTree GlobalRooted.

Lemma filter_all {X} (P : X -> Prop) `{!forall x, Decision (P x)} (l : list X) : (forall x, x ∈ l -> P x) -> filter P l = l.
Proof.
  induction l as [|x l IH]; intros Hl; [done|]. rewrite filter_cons_True by (apply Hl; by left). f_equal.
  apply IH. intros y Hy. apply Hl. by right.
Qed.

(** ** The topology of the tree *)
Section topology.
Context (ids : list NodeId) (k : nat) (Hk : (0 < k)%nat) (Hnd : NoDup ids).
Abbreviation n := (length ids).
Context (Hn : Z.of_nat n < 2 ^ 32) (Hk32 : Z.of_nat k < 2 ^ 32).

(** The first [m] nodes have their children. *)
Record topology_upto (m : nat) (t : TreeTopology) : Prop := {
  upto_children i : (i < m)%nat -> tree_children t !! (ids !!! i) = Some (map (fun c => ids !!! c) (children_of n k i));
  upto_parents j : (j < n)%nat -> tree_parents t !! (ids !!! j) =
    if decide (0 < j /\ parent_of k j < m)%nat then Some (ids !!! parent_of k j) else None;
}.

Lemma ids_inj i j : (i < n)%nat -> (j < n)%nat -> ids !!! i = ids !!! j -> i = j.
Proof using Hnd.
  intros Hi Hj Heq. apply (NoDup_lookup ids _ _ (ids !!! i)); [done|by apply list_lookup_lookup_total_lt|].
  rewrite Heq. by apply list_lookup_lookup_total_lt.
Qed.

Lemma insert_parents (cs : list nat) (p : NodeId) (m : gmap NodeId NodeId) j : Forall (fun c => c < n)%nat cs -> (j < n)%nat ->
  foldl (fun m child => <[child := p]> m) m (map (fun c => ids !!! c) cs) !! (ids !!! j) =
    if decide (j ∈ cs) then Some p else m !! (ids !!! j).
Proof using Hnd.
  intros Hcs Hj. revert m. induction Hcs as [|c cs Hc Hcs IH]; intros m; cbn [map foldl].
  - rewrite decide_False; [done|]. apply not_elem_of_nil.
  - rewrite IH. destruct (decide (j ∈ cs)) as [Hin|Hin]; [by rewrite decide_True by (by right)|].
    destruct (decide (j = c)) as [->|Hne].
    + rewrite lookup_insert_eq, decide_True; [done|by left].
    + rewrite lookup_insert_ne by (intros Heq; apply Hne; symmetry; by apply ids_inj). rewrite decide_False; [done|].
      by intros [?|?]%elem_of_cons.
Qed.

Lemma add_parent_ok m t : (m < n)%nat -> topology_upto m t ->
  exists t', add_parent ids (Z.of_nat k) t (m, ids !!! m) = Ok t' /\ topology_upto (S m) t'.
Proof using All.
  intros Hm [Hch Hpa]. unfold add_parent. cbn [fst snd].
  assert (Hmul : Z.of_nat m * Z.of_nat k < 2 ^ 32 * 2 ^ 32) by nia.
  assert (Hfit : Z.of_nat (m * k + 1 + k) < 2 ^ 64).
  { assert ((m * k + 1 + k)%nat = (S m * k + 1)%nat) as -> by lia.
    assert (Z.of_nat (S m) * Z.of_nat k <= (2 ^ 32 - 1) * (2 ^ 32 - 1)) by (apply Z.mul_le_mono_nonneg; lia). lia. }
  assert (Hfirst : Z.of_nat m * Z.of_nat k + 1 = Z.of_nat (m * k + 1)) by lia. rewrite Hfirst.
  rewrite arith_in by (unfold in_width; lia). cbn [mbind outcome_bind]. unfold Zlen.
  assert (Hparents : forall ts' : gmap NodeId NodeId, (forall j, (j < n)%nat -> ts' !! (ids !!! j) =
      if decide (j ∈ children_of n k m) then Some (ids !!! m) else tree_parents t !! (ids !!! j)) ->
    forall j, (j < n)%nat -> ts' !! (ids !!! j) = if decide (0 < j /\ parent_of k j < S m)%nat then Some (ids !!! parent_of k j) else None).
  { intros ts' Hts' j Hj. rewrite Hts', Hpa by done. destruct (decide (j ∈ children_of n k m)) as [Hin|Hin].
    - apply child_parent in Hin as [Hp Hj']; [|done]. rewrite decide_True by lia. by rewrite Hp.
    - rewrite child_parent in Hin by done. destruct (decide (0 < j /\ parent_of k j < m)%nat) as [Hd|Hd].
      + by rewrite decide_True by lia.
      + rewrite decide_False; [done|]. intros Hd'. apply Hin. split; lia. }
  assert (Hchildren : forall (cs : gmap NodeId (list NodeId)) ch, ch = map (fun c => ids !!! c) (children_of n k m) ->
    cs = <[ids !!! m := ch]> (tree_children t) ->
    forall i, (i < S m)%nat -> cs !! (ids !!! i) = Some (map (fun c => ids !!! c) (children_of n k i))).
  { intros cs ch -> -> i Hi. destruct (decide (i = m)) as [->|Hne]; [by rewrite lookup_insert_eq|].
    rewrite lookup_insert_ne by (intros Heq; apply Hne; symmetry; apply ids_inj; (done || lia)). apply Hch. lia. }
  destruct (Z.ltb_spec (Z.of_nat (m * k + 1)) (Z.of_nat n)) as [Hlt|Hge].
  - rewrite arith_in by (unfold in_width; lia). cbn [mbind outcome_bind].
    assert (Hmin : Z.min (Z.of_nat (m * k + 1) + Z.of_nat k) (Z.of_nat n) = Z.of_nat (Nat.min n (m * k + 1 + k))) by lia.
    rewrite Hmin, !Nat2Z.id, slice_range_Ok by lia. cbn [mbind outcome_bind]. rewrite take_drop_seq by lia.
    fold (children_of n k m). eexists. split; [done|]. split; cbn [tree_children tree_parents].
    + by eapply Hchildren.
    + apply Hparents. intros j Hj. apply insert_parents; [|done]. apply Forall_forall. intros c [_ Hc]%elem_children. done.
  - assert (Hnone : children_of n k m = []) by (unfold children_of; by replace (Nat.min n (m * k + 1 + k) - (m * k + 1))%nat with 0%nat by lia).
    eexists. split; [done|]. split; cbn [tree_children tree_parents].
    + eapply Hchildren; [|done]. by rewrite Hnone.
    + apply Hparents. intros j Hj. rewrite Hnone, decide_False; [done|]. apply not_elem_of_nil.
Qed.

Lemma add_parents_ok m : (m <= n)%nat ->
  exists t, foldM (add_parent ids (Z.of_nat k)) (mkTreeTopology ∅ ∅) (map (fun i => (i, ids !!! i)) (seq 0 m)) = Ok t /\ topology_upto m t.
Proof using All.
  induction m as [|m IH]; intros Hm.
  - eexists. split; [done|]. split; [lia|]. intros j Hj. cbn. rewrite decide_False by lia. apply lookup_empty.
  - destruct IH as (t & Ht & Hu); [lia|]. destruct (add_parent_ok m t) as (t' & Ht' & Hu'); [lia|done|].
    exists t'. split; [|done]. rewrite seq_S, map_app, foldM_app, Ht. cbn. by rewrite Ht'.
Qed.
End topology.

Lemma topology_ok (nodes : list NodeId) k : NoDup nodes -> (0 < k)%nat -> Z.of_nat k < 2 ^ 32 -> Zlen nodes < 2 ^ 32 ->
  exists t, get_tree_topology nodes (Z.of_nat k) = Ok t /\ topology_upto (sort_ids nodes) k (length nodes) t.
Proof.
  intros Hnd Hk Hk32 Hn. unfold get_tree_topology. rewrite (proj2 (Z.ltb_ge _ _)) by lia.
  set (ids := sort_ids nodes). assert (Hlen : length ids = length nodes) by apply (Permutation_length (sort_ids_perm nodes)).
  assert (Hnd' : NoDup ids) by (unfold ids; by rewrite sort_ids_perm).
  destruct (add_parents_ok ids k Hk Hnd') with (m := length ids) as (t & Ht & Hu); [unfold Zlen in Hn; lia|done..|].
  exists t. split; [|by rewrite <- Hlen]. rewrite <- Ht. f_equal.
  apply list_eq. intros i. rewrite list_lookup_imap, list_lookup_fmap. destruct (decide (i < length ids)%nat) as [Hi|Hi].
  - rewrite lookup_seq_lt by done. by rewrite (list_lookup_lookup_total_lt _ _ Hi).
  - by rewrite !lookup_ge_None_2 by (rewrite ?length_seq; lia).
Qed.

Section all_reduce.
Context {B : FloatBackend} {BL : FloatLaws B} {ET : ElementTypes} {T : TensorTransfer} {TL : TransferLaws T} {N : Network}.
Context `{HL : HashLaws} {C : Completion} {CL : CompletionLaws C}.
Context (directory : Address -> option nat).
#[local] Existing Instance rooted_service.
#[local] Instance all_reduce_service : Mail := rooted_service directory.
#[local] Instance all_reduce_service_laws : MailLaws all_reduce_service := rooted_service_laws directory.
Implicit Types s : gmap (nat * Z) Exposure.

(** *** One download, as both strategies make it *)
Context (nodes : HashMap Address) (dims : list Z) (dt : DType).
Context (ids : list NodeId) (Hgroup : group_of directory ids nodes) (Hsize : Zlen ids < 2 ^ 32).
Abbreviation n := (length ids).

Lemma add_completed_alone p device t c s tc d : float_device t = device -> (c < n)%nat -> like dims dt tc ->
  s !! (c, 0) = Some (offer tc 1 d) ->
  alone p (add_completed directory dims device nodes t (ids !!! c)) s
    (Return (Ok (float_add t (float_from_data (into_data tc) device)))) (<[(c, 0) := offer tc 1 (S d)]> s).
Proof using Hgroup TL.
  intros Hd Hc [Hs Hdt] Hmail. unfold add_completed. destruct (group_entry directory ids nodes c Hgroup Hc) as (a & Ha & Hda).
  rewrite (lift_bind a) by (by rewrite Ha). eapply alone_then; [by apply (download_alone directory _ _ _ c)|].
  rewrite (lift_bind (into_data tc)) by done. cbv zeta.
  rewrite (lift_bind tt); [constructor|]. rewrite bool_decide_eq_true_2; [done|]. by rewrite shape_value, data_value, <- shape_value.
Qed.

Lemma add_download_alone p device t c s tc d : float_device t = device -> (c < n)%nat -> like dims dt tc ->
  s !! (c, 0) = Some (offer tc 1 d) ->
  alone p (add_download directory dims device nodes 0 t (ids !!! c)) s
    (Return (Ok (float_add t (float_from_data (into_data tc) device)))) (<[(c, 0) := offer tc 1 (S d)]> s).
Proof using Hgroup TL. apply add_completed_alone. Qed.

(** The children of a node, in the order of completion. *)
Lemma sum_completed k (own : nat -> Tensor) i ts s (f : Tensor -> NodeId -> program GlobalCollectiveError Tensor) (cs : list NodeId) :
  (forall t c s tc d, like dims dt t -> float_device t = float_device (own i) -> (c < n)%nat -> like dims dt tc ->
    s !! (c, 0) = Some (offer tc 1 d) ->
    alone i (f t (ids !!! c)) s (Return (Ok (float_add t (float_from_data (into_data tc) (float_device (own i))))))
      (<[(c, 0) := offer tc 1 (S d)]> s)) ->
  like dims dt (own i) -> (i < n)%nat -> cs ≡ₚ map (fun c => ids !!! c) (children_of n k i) ->
  (forall c, c ∈ children_of n k i -> s !! (c, 0) = Some (offer (ts c) 1 0) /\ like dims dt (ts c)) ->
  exists t s', sums_up n k (fun j => value (own j)) dims dt i ts t /\ float_device t = float_device (own i) /\
    alone i (loop f (own i) cs) s (Return (Ok t)) s' /\
    forall key, s' !! key = if decide (key.2 = 0 /\ key.1 ∈ children_of n k i) then Some (offer (ts key.1) 1 1) else s !! key.
Proof using TL.
  intros Hf Hown Hi Hcs Hc. apply Permutation_map_inv in Hcs as (cs' & -> & Hp).
  destruct (add_children directory dims dt (float_device (own i)) 0 ids i f ts Hf cs' (own i) s) as (t & s' & Hrun & Ht & Hdev & Hsum & Hs').
  - rewrite <- Hp. apply NoDup_children.
  - done.
  - done.
  - intros c Hin. rewrite <- Hp in Hin. destruct (Hc c Hin). apply elem_children in Hin as [_ ?]. done.
  - exists t, s'. split; [|split; [done|split; [done|]]].
    + split; [done|]. intros gs Hgs. eapply sums_perm; [|apply (Hsum [value (own i)] gs); [constructor|]].
      * cbn. by rewrite Hp.
      * intros c Hin. apply Hgs. by rewrite Hp.
    + intros key. rewrite Hs'. destruct (decide (key.2 = 0 /\ key.1 ∈ cs')) as [[Hk1 Hk2]|Hno].
      * rewrite decide_True; [done|]. by rewrite Hp.
      * rewrite decide_False; [done|]. by rewrite Hp.
Qed.

(** *** After its sum is exposed, a node takes the result of its parent and hands it on *)
Definition take_result (arrived : option TensorData -> outcome GlobalCollectiveError TensorData) (parent : NodeId) (device : TDevice) :
    program GlobalCollectiveError Tensor :=
  address ← lift (expect (entries nodes !! parent));
  data ← download_tensor directory address 1;
  data ← lift (arrived data);
  let parent_tensor := float_from_data data device in
  _ ← lift (fail_if (negb (bool_decide (shape parent_tensor = dims))) PeerSentIncoherentTensor);
  mret parent_tensor.

Lemma take_result_alone arrived p j device e tp v s : (forall data, arrived (Some data) = Ok data) -> (j < n)%nat ->
  s !! (j, 1) = Some e -> exposed e = into_data tp -> copied v dims dt tp ->
  exists t, copied v dims dt t /\ float_device t = device /\
    alone p (take_result arrived (ids !!! j) device) s (Return (Ok t)) (<[(j, 1) := mkExposure (exposed e) (max_downloads e) (S (downloads e))]> s).
Proof using Hgroup TL.
  intros Harr Hj He Hex (Hv & Hs & Hd). destruct (group_entry directory ids nodes j Hgroup Hj) as (a & Ha & Hda).
  set (t := float_from_data (exposed e) device). assert (Htv : value t = v) by (unfold t; by rewrite Hex, data_value).
  assert (Hts : shape t = dims) by by rewrite shape_value, Htv, <- Hv, <- shape_value.
  exists t. split; [|split; [apply data_device|]].
  - split; [done|]. split; [done|]. unfold t. by rewrite Hex, from_dtype, into_dtype.
  - unfold take_result. rewrite (lift_bind a) by (by rewrite Ha).
    eapply alone_then; [by apply download_alone|]. rewrite (lift_bind (exposed e)) by done. cbv zeta. fold t.
    rewrite (lift_bind tt); [constructor|]. by rewrite bool_decide_eq_true_2.
Qed.

(** *** The two phases *)
Section phases.
Context (k : nat) (Hk : (0 < k)%nat) {A : Type} (inputs : NodeId -> Tensor) (Hlike : forall id, id ∈ ids -> like dims dt (inputs id)).
Context (start waiting : nat -> program GlobalCollectiveError A) (finish : nat -> Tensor -> program GlobalCollectiveError A).
Definition input i : Tensor := inputs (ids !!! i).

(** The root sums up and hands the result out. *)
Definition root_done (ts : nat -> Tensor) (t : Tensor) s s' : Prop :=
  (children_of n k 0 <> [] -> s' !! (0%nat, 1) = Some (offer t (Z.of_nat (count_children n k 0)) 0)) /\
  (forall e, s' !! (0%nat, 1) = Some e -> e = offer t (Z.of_nat (count_children n k 0)) 0) /\
  forall key, key <> (0%nat, 1) ->
    s' !! key = if decide (key.2 = 0 /\ key.1 ∈ children_of n k 0) then Some (offer (ts key.1) 1 1) else s !! key.

(** What an all-reduce leaves: the same sum everywhere, and nothing exposed that is not downloaded. *)
Definition all_reduced (ts : nat -> Tensor) s0 s : Prop :=
  exists v, sums value_add (map (fun id => value (inputs id)) ids) v /\
    (forall i, (i < n)%nat -> copied v dims dt (ts i) /\ float_device (ts i) = float_device (input i)) /\
    (forall key, key.2 <> 0 -> key.2 <> 1 -> s !! key = s0 !! key) /\
    (forall key e, key.2 = 0 \/ key.2 = 1 -> s !! key = Some e -> Z.of_nat (downloads e) = max_downloads e).

Hypothesis (leaf_up : forall i ts s, (0 < i < n)%nat ->
  (forall c, c ∈ children_of n k i -> s !! (c, 0) = Some (offer (ts c) 1 0) /\ like dims dt (ts c)) ->
  s !! (i, 0) = None ->
  exists t s', sums_up n k (fun j => value (input j)) dims dt i ts t /\ summed n k 0 i ts t s s' /\
    alone i (start i) s (waiting i) s').
Hypothesis (root_up : forall ts s,
  (forall c, c ∈ children_of n k 0 -> s !! (c, 0) = Some (offer (ts c) 1 0) /\ like dims dt (ts c)) ->
  s !! (0%nat, 1) = None ->
  exists t s', sums_up n k (fun j => value (input j)) dims dt 0 ts t /\ float_device t = float_device (input 0) /\
    root_done ts t s s' /\ alone 0 (start 0) s (finish 0 t) s').
Hypothesis (leaf_down : forall v i tp e s, (0 < i < n)%nat ->
  s !! (parent_of k i, 1) = Some e -> exposed e = into_data tp -> copied v dims dt tp -> s !! (i, 1) = None ->
  exists t s', copied v dims dt t /\ float_device t = float_device (input i) /\ handed n k 1 i e t s s' /\
    alone i (waiting i) s (finish i t) s').

Lemma phases_run s0 : (0 < n)%nat -> (forall j, s0 !! (j, 0) = None) -> (forall j, s0 !! (j, 1) = None) ->
  exists l ts s, runs network_step l (mkNetwork (map start (seq 0 n)) s0) (mkNetwork (map (fun i => finish i (ts i)) (seq 0 n)) s) /\
    all_reduced ts s0 s.
Proof using All.
  intros Hn H00 H01.
  destruct (up_runs directory n k Hk 0 input (fun j => value (input j)) dims dt start (fun i _ => waiting i) leaf_up s0 1)
    as (tu & gs & s1 & l1 & Hup & Hrun1); [lia|done|].
  assert (Hur : forall key, key.2 <> 0 -> s1 !! key = s0 !! key) by (intros key Hkey; apply (up_rest _ _ _ _ _ _ _ _ _ _ _ Hup); congruence).
  destruct (root_up tu s1) as (t & s2 & Ht & Hdev & (Hs2 & Hs2' & Hs2r) & Hrun2).
  { intros c. by eapply root_children. }
  { rewrite Hur by done. apply H01. }
  destruct (alone_runs 0 (stage directory n (fun j => (1 <=? j)%nat) start waiting) (start 0) s1 (finish 0 t) s2) as [l2 Hl2];
    [by rewrite stage_lookup|done|].
  assert (Hdown : forall j, (0 < j)%nat -> s2 !! (j, 1) = None).
  { intros j Hj. rewrite Hs2r by (intros [= ->]; lia). rewrite decide_False by (intros [Hq _]; done). rewrite Hur by done. apply H01. }
  destruct (down_runs directory n k Hk 1 (value t) dims dt waiting finish (fun i => float_device (input i)) (leaf_down (value t))
    t s2 s2 n) as (ts & s3 & l3 & Ht0 & [Hcop Hmail Hrest] & Hrun3); [lia|intros j Hj; apply Hdown; lia|split; [by destruct Ht as [[? ?] _]|done]| |].
  { split; [intros j Hj; destruct Ht as [[? ?] _]; by replace j with 0%nat by lia| |done]. intros j Hj Hc. assert (j = 0)%nat as -> by lia. rewrite Hs2 by done.
    unfold served. by rewrite Nat.min_r by lia. }
  exists (l1 ++ l2 ++ l3), ts, s3. split; [|exists (value t); split; [|split; [exact Hcop|split]]].
  - eapply runs_app; [exact Hrun1|]. eapply runs_app; [exact Hl2|]. rewrite stage_root by done.
    rewrite (map_ext_in _ (fun j => if (j <? 1)%nat then finish j t else waiting j)) by (by intros [|j] _).
    rewrite (map_ext_in (fun i => finish i (ts i)) (fun j => if (j <? n)%nat then finish j (ts j) else waiting j)); [exact Hrun3|].
    intros j Hj%in_seq. by rewrite (proj2 (Nat.ltb_lt _ _)) by lia.
  - rewrite map_positions. exact (root_sums _ _ Hk _ _ _ _ _ _ _ _ _ Hn Hup Ht).
  - intros key Hk0 Hk1. rewrite Hrest by done. rewrite Hs2r by (intros ->; done). rewrite decide_False by tauto. by rewrite Hur.
  - intros [j u] e [Hu | Hu] He; cbn [snd] in Hu; subst u.
    + rewrite Hrest in He by done. rewrite Hs2r in He by done. cbn [fst snd] in He. case_decide as Hd; [by injection He as <-|].
      destruct (decide (0 < j < n)%nat) as [Hj|Hj].
      * rewrite (up_balanced _ _ Hk _ _ _ _ _ _ _ _ _ Hup Hj) in He by tauto. by injection He as <-.
      * rewrite (up_rest _ _ _ _ _ _ _ _ _ _ _ Hup) in He by (intros _; cbn [fst]; lia). by rewrite H00 in He.
    + destruct (decide (j < n /\ children_of n k j <> [])%nat) as [[Hj Hc]|Hno].
      * rewrite Hmail in He by done. injection He as <-. cbn [downloads max_downloads offer]. by rewrite served_all.
      * rewrite Hrest in He. 
        -- destruct (decide (j = 0)%nat) as [->|Hj0]; [|rewrite Hdown in He by lia; done]. rewrite (Hs2' _ He). cbn.
           destruct (children_of n k 0) eqn:Hc; [|exfalso; by apply Hno]. unfold count_children. by rewrite Hc.
        -- intros _. cbn [fst]. destruct (decide (j < n)%nat); [right|by left]. destruct (children_of n k j) eqn:Hc; [done|]. exfalso. by apply Hno.
Qed.
End phases.

Lemma all_leave {A} (f : nat -> program GlobalCollectiveError A) s : (0 < n)%nat ->
  runs network_step [None] (mkNetwork (map (fun i => Sync (f i)) (seq 0 n)) s) (mkNetwork (map f (seq 0 n)) s).
Proof using Type.
  intros Hn. replace (map (fun i => Sync (f i)) (seq 0 n)) with (map Sync (map f (seq 0 n))) by apply map_map.
  apply barrier_runs. by destruct n; [lia|].
Qed.

(** *** The tree *)
Section tree.
Context (k : nat) (Hk : (0 < k)%nat) {A : Type} (inputs : NodeId -> Tensor) (Hlike : forall id, id ∈ ids -> like dims dt (inputs id)).
Context (h : nat -> nat) (f : nat -> Tensor -> program GlobalCollectiveError A).
Context (topology : TreeTopology) (Htop : get_tree_topology (keys nodes) (Z.of_nat k) = Ok topology)
  (Hupto : topology_upto ids k n topology).

Definition tree_start i : program GlobalCollectiveError A :=
  tree_all_reduce_sum directory (h i) (ids !!! i) nodes (input inputs i) (Z.of_nat k) ≫= f i.

Definition tree_pass i (result : Tensor) : program GlobalCollectiveError Tensor :=
  _ ← (let children := map (fun c => ids !!! c) (children_of n k i) in
       if (length children =? 0)%nat then mret tt else expose directory result (wrap 32 (Zlen children)) 1);
  _ ← barrier;
  mret result.

Definition tree_waiting i : program GlobalCollectiveError A :=
  (result ← take_result (fun data => ok_or data (PeerLost (ids !!! parent_of k i))) (ids !!! parent_of k i) (float_device (input inputs i));
   tree_pass i result) ≫= f i.

Lemma input_like i : (i < n)%nat -> like dims dt (input inputs i).
Proof using Hlike. intros Hi. apply Hlike. by apply list_elem_of_lookup_total_2. Qed.

Lemma tree_pass_runs i t s : s !! (i, 1) = None ->
  exists s', alone i (tree_pass i t ≫= f i) s (Sync (f i t)) s' /\
    forall key, s' !! key = if decide (key = (i, 1) /\ children_of n k i <> [])
      then Some (offer t (Z.of_nat (count_children n k i)) 0) else s !! key.
Proof using Hsize.
  intros Hn. destruct (pass_on directory ids n k 1 i t s (_ ← barrier; mret t) Hsize Hn) as (s' & Hrun & Hs').
  exists s'. split; [|done]. by apply (alone_bind (M:=all_reduce_service) i _ (f i)) in Hrun.
Qed.

Lemma topology_at i : (i < n)%nat ->
  tree_children topology !! (ids !!! i) = Some (map (fun c => ids !!! c) (children_of n k i)) /\
  tree_parents topology !! (ids !!! i) = if (i =? 0)%nat then None else Some (ids !!! parent_of k i).
Proof using Hk Hupto.
  intros Hi. destruct Hupto as [Hc Hp]. split; [by apply Hc|]. rewrite Hp by done. destruct (Nat.eqb_spec i 0) as [->|Hne].
  - by rewrite decide_False by lia.
  - pose proof (parent_before k Hk i ltac:(lia)). by rewrite decide_True by lia.
Qed.

Lemma tree_sum i ts s : (i < n)%nat ->
  (forall c, c ∈ children_of n k i -> s !! (c, 0) = Some (offer (ts c) 1 0) /\ like dims dt (ts c)) ->
  exists t s', sums_up n k (fun j => value (input inputs j)) dims dt i ts t /\ float_device t = float_device (input inputs i) /\
    alone i (loop (add_completed directory (shape (input inputs i)) (float_device (input inputs i)) nodes) (input inputs i)
      (completes (h i) (map (fun c => ids !!! c) (children_of n k i)))) s (Return (Ok t)) s' /\
    forall key, s' !! key = if decide (key.2 = 0 /\ key.1 ∈ children_of n k i) then Some (offer (ts key.1) 1 1) else s !! key.
Proof using Hgroup Hlike TL CL.
  intros Hi Hc. destruct (input_like i Hi) as [Hs Hd]. rewrite Hs. apply sum_completed; [|done|done|apply completes_all|done].
  intros t c s1 tc d _ Hdev. by apply add_completed_alone.
Qed.

Lemma tree_leaf_up i ts s : (0 < i < n)%nat ->
  (forall c, c ∈ children_of n k i -> s !! (c, 0) = Some (offer (ts c) 1 0) /\ like dims dt (ts c)) ->
  s !! (i, 0) = None ->
  exists t s', sums_up n k (fun j => value (input inputs j)) dims dt i ts t /\ summed n k 0 i ts t s s' /\
    alone i (tree_start i) s (tree_waiting i) s'.
Proof using All.
  intros Hi Hc Hn. destruct (tree_sum i ts s) as (t & s' & Hsum & Hdev & Hrun & Hs'); [lia|done|].
  assert (Hsi : s' !! (i, 0) = None).
  { rewrite Hs'. cbn. rewrite decide_False; [done|]. intros [_ Hin%(child_after n k Hk)]. lia. }
  destruct (topology_at i) as [Htc Htp]; [lia|]. rewrite (proj2 (Nat.eqb_neq _ _)) in Htp by lia.
  exists t, (<[(i, 0) := offer t 1 0]> s'). split; [done|]. split.
  - intros key. rewrite <- Hs'. case_decide as Hkey; [by rewrite Hkey, lookup_insert_eq|]. by rewrite lookup_insert_ne.
  - unfold tree_start, tree_waiting, tree_all_reduce_sum. apply alone_bind. rewrite (lift_bind topology) by done. rewrite Htc, Htp.
    eapply alone_then; [exact Hrun|]. destruct (input_like i) as [-> _]; [lia|].
    apply (alone_bind (M:=all_reduce_service)). eapply alone_then; [by apply expose_alone|]. constructor.
Qed.

Lemma tree_root_up ts s : (0 < n)%nat ->
  (forall c, c ∈ children_of n k 0 -> s !! (c, 0) = Some (offer (ts c) 1 0) /\ like dims dt (ts c)) ->
  s !! (0%nat, 1) = None ->
  exists t s', sums_up n k (fun j => value (input inputs j)) dims dt 0 ts t /\ float_device t = float_device (input inputs 0) /\
    root_done k ts t s s' /\ alone 0 (tree_start 0) s (Sync (f 0 t)) s'.
Proof using All.
  intros Hn Hc Hnone. destruct (tree_sum 0 ts s) as (t & s1 & Hsum & Hdev & Hrun & Hs1); [lia|done|].
  assert (Hs01 : s1 !! (0%nat, 1) = None) by (rewrite Hs1; cbn; by rewrite decide_False by (intros [? _]; done)).
  destruct (tree_pass_runs 0 t s1 Hs01) as (s' & Hpass & Hs').
  destruct (topology_at 0 Hn) as [Htc Htp]. cbn [Nat.eqb] in Htp.
  exists t, s'. split; [done|]. split; [done|]. split.
  - split; [|split].
    + intros Hne. by rewrite Hs', decide_True.
    + intros e. rewrite Hs'. case_decide; [by intros [= <-]|]. by rewrite Hs01.
    + intros key Hne. rewrite Hs', decide_False by tauto. apply Hs1.
  - eapply alone_trans; [|exact Hpass]. unfold tree_start, tree_all_reduce_sum. apply alone_bind. rewrite (lift_bind topology) by done.
    rewrite Htc, Htp. eapply alone_then; [exact Hrun|]. constructor.
Qed.

Lemma tree_leaf_down v i tp e s : (0 < i < n)%nat ->
  s !! (parent_of k i, 1) = Some e -> exposed e = into_data tp -> copied v dims dt tp -> s !! (i, 1) = None ->
  exists t s', copied v dims dt t /\ float_device t = float_device (input inputs i) /\ handed n k 1 i e t s s' /\
    alone i (tree_waiting i) s (Sync (f i t)) s'.
Proof using Hgroup Hk Hsize TL.
  intros Hi He Hex Hcp Hn. pose proof (parent_before k Hk i ltac:(lia)) as Hp.
  destruct (take_result_alone (fun data => ok_or data (PeerLost (ids !!! parent_of k i))) i (parent_of k i) (float_device (input inputs i)) e tp v s)
    as (t & Ht & Hd & Hrun); [done|lia|done..|].
  set (s1 := <[(parent_of k i, 1) := mkExposure (exposed e) (max_downloads e) (S (downloads e))]> s).
  assert (Hs1 : s1 !! (i, 1) = None) by (unfold s1; rewrite lookup_insert_ne; [done|intros Hq%(f_equal fst); cbn [fst] in Hq; lia]).
  destruct (tree_pass_runs i t s1 Hs1) as (s' & Hpass & Hs').
  exists t, s'. split; [done|]. split; [done|]. split.
  - intros key. rewrite Hs'. destruct (decide (key = (parent_of k i, 1))) as [->|Hne].
    + rewrite decide_False by (intros [Hq%(f_equal fst) _]; cbn [fst] in Hq; lia). unfold s1. by rewrite lookup_insert_eq.
    + case_decide; [done|]. unfold s1. by rewrite lookup_insert_ne.
  - eapply alone_trans; [|exact Hpass]. unfold tree_waiting. apply alone_bind. eapply alone_then; [exact Hrun|]. constructor.
Qed.

Lemma tree_runs s0 : (0 < n)%nat -> (forall j, s0 !! (j, 0) = None) -> (forall j, s0 !! (j, 1) = None) ->
  exists l ts s, runs network_step l (mkNetwork (map tree_start (seq 0 n)) s0) (mkNetwork (map (fun i => f i (ts i)) (seq 0 n)) s) /\
    all_reduced inputs ts s0 s.
Proof using All.
  intros Hn H00 H01.
  destruct (phases_run k Hk inputs Hlike tree_start tree_waiting (fun i t => Sync (f i t)) tree_leaf_up (fun ts s => tree_root_up ts s Hn)
    tree_leaf_down s0 Hn H00 H01) as (l & ts & s & Hrun & Hall).
  exists (l ++ [None]), ts, s. split; [|done]. eapply runs_app; [exact Hrun|]. by apply all_leave.
Qed.
End tree.

(** *** The star *)
Section star.
Context {A : Type} (inputs : NodeId -> Tensor) (Hlike : forall id, id ∈ ids -> like dims dt (inputs id)).
Context (h : nat) (f : nat -> Tensor -> program GlobalCollectiveError A).
Context (Hn : (0 < n)%nat) (Hcentral : get_central_node (keys nodes) = Ok (ids !!! 0%nat)).

Definition star_start i : program GlobalCollectiveError A :=
  centralized_all_reduce_sum directory h (ids !!! i) nodes (input inputs i) ≫= f i.

Definition star_waiting i : program GlobalCollectiveError A :=
  (res ← take_result expect (ids !!! 0%nat) (float_device (input inputs i)); _ ← barrier; mret res) ≫= f i.

Lemma star_children i : (0 < i)%nat -> children_of n n i = [].
Proof using Hn.
  intros Hi. unfold children_of. replace (Nat.min n (i * n + 1 + n) - (i * n + 1))%nat with 0%nat by nia. done.
Qed.

Lemma star_parent i : (i < n)%nat -> parent_of n i = 0%nat.
Proof using Hn. intros Hi. unfold parent_of. apply Nat.div_small. lia. Qed.

Lemma star_central i : (i < n)%nat -> (ids !!! 0%nat =? ids !!! i)%nat = (i =? 0)%nat.
Proof using Hgroup Hn.
  intros Hi. apply Bool.eq_iff_eq_true. rewrite !Nat.eqb_eq. split; [|by intros ->].
  intros Heq. symmetry. by apply (ids_inj ids (group_nodup _ _ _ Hgroup)).
Qed.

Lemma star_others : filter (fun id => id <> ids !!! 0%nat) (keys nodes) ≡ₚ map (fun c => ids !!! c) (children_of n n 0).
Proof using Hgroup Hn HL.
  clear - Hgroup Hn HL. rewrite (keys_group directory ids nodes Hgroup). pose proof (group_nodup _ _ _ Hgroup) as Hnd.
  replace (children_of n n 0) with (seq 1 (n - 1)) by (unfold children_of; f_equal; lia).
  rewrite <- take_drop_seq by lia. rewrite take_ge by (rewrite length_drop; lia).
  destruct ids as [|c l]; [cbn in Hn; lia|]. cbn [drop]. rewrite filter_cons_False by (intros Hc; by apply Hc).
  apply NoDup_cons in Hnd as [Hc Hnd]. rewrite filter_all; [done|]. intros x Hx ->. by apply Hc.
Qed.

Lemma star_input i : (i < n)%nat -> like dims dt (input inputs i).
Proof using Hlike. apply input_like. done. Qed.

Lemma star_leaf_up i ts s : (0 < i < n)%nat ->
  (forall c, c ∈ children_of n n i -> s !! (c, 0) = Some (offer (ts c) 1 0) /\ like dims dt (ts c)) ->
  s !! (i, 0) = None ->
  exists t s', sums_up n n (fun j => value (input inputs j)) dims dt i ts t /\ summed n n 0 i ts t s s' /\
    alone i (star_start i) s (star_waiting i) s'.
Proof using All.
  intros Hi _ Hnone. exists (input inputs i), (<[(i, 0) := offer (input inputs i) 1 0]> s). split; [|split].
  - split; [apply star_input; lia|]. intros gs _. rewrite star_children by lia. constructor.
  - intros key. rewrite star_children by lia. case_decide as Hkey; [by rewrite Hkey, lookup_insert_eq|].
    rewrite lookup_insert_ne, decide_False; [done| |done]. intros [_ Hin]. by apply not_elem_of_nil in Hin.
  - unfold star_start, star_waiting, centralized_all_reduce_sum. apply alone_bind. rewrite (lift_bind _ _ _ Hcentral).
    rewrite star_central by lia. rewrite (proj2 (Nat.eqb_neq i 0)) by lia. destruct (star_input i) as [-> _]; [lia|].
    apply (alone_bind (M:=all_reduce_service)). eapply alone_then; [by apply expose_alone|]. constructor.
Qed.

Lemma star_root_up ts s :
  (forall c, c ∈ children_of n n 0 -> s !! (c, 0) = Some (offer (ts c) 1 0) /\ like dims dt (ts c)) ->
  s !! (0%nat, 1) = None ->
  exists t s', sums_up n n (fun j => value (input inputs j)) dims dt 0 ts t /\ float_device t = float_device (input inputs 0) /\
    root_done n ts t s s' /\ alone 0 (star_start 0) s (Sync (f 0 t)) s'.
Proof using All.
  intros Hc Hnone. destruct (star_input 0 Hn) as [Hsh Hdt].
  destruct (sum_completed n (input inputs) 0 ts s (add_download directory (shape (input inputs 0)) (float_device (input inputs 0)) nodes 0)
    (completes h (filter (fun id => id <> ids !!! 0%nat) (keys nodes)))) as (t & s1 & Hsum & Hdev & Hrun & Hs1); [|done|done| |done|].
  { intros t c s1 tc d _ Hd. rewrite Hsh. by apply add_download_alone. }
  { rewrite completes_all. apply star_others. }
  assert (Hs01 : s1 !! (0%nat, 1) = None) by (rewrite Hs1; cbn; by rewrite decide_False by (intros [? _]; done)).
  exists t, (<[(0%nat, 1) := offer t (Z.of_nat (count_children n n 0)) 0]> s1). split; [done|]. split; [done|]. split.
  - split; [|split].
    + intros _. apply lookup_insert_eq.
    + intros e. rewrite lookup_insert_eq. congruence.
    + intros key Hne. rewrite lookup_insert_ne by congruence. apply Hs1.
  - unfold star_start, centralized_all_reduce_sum. refine (alone_bind (M:=all_reduce_service) 0 _ (f 0%nat) _ (Sync (Return (Ok t))) _ _). rewrite (lift_bind _ _ _ Hcentral). rewrite Nat.eqb_refl.
    assert (Hothers : arith 32 (wrap 32 (Zlen (keys nodes)) - 1) = Ok (E:=GlobalCollectiveError) (Z.of_nat (count_children n n 0))).
    { pose proof (Permutation_length (keys_group directory ids nodes Hgroup)) as Hlen. unfold Zlen in *. rewrite Hlen.
      rewrite wrap_in by (unfold in_width; lia).
      assert (count_children n n 0 = n - 1)%nat as -> by (unfold count_children, children_of; rewrite length_seq; lia).
      rewrite arith_in by (unfold in_width; lia). f_equal. lia. }
    eapply alone_then.
    + eapply alone_then; [exact Hrun|]. rewrite (lift_bind _ _ _ Hothers).
      eapply alone_then; [by apply expose_alone|]. constructor.
    + constructor.
Qed.

Lemma star_leaf_down v i tp e s : (0 < i < n)%nat ->
  s !! (parent_of n i, 1) = Some e -> exposed e = into_data tp -> copied v dims dt tp -> s !! (i, 1) = None ->
  exists t s', copied v dims dt t /\ float_device t = float_device (input inputs i) /\ handed n n 1 i e t s s' /\
    alone i (star_waiting i) s (Sync (f i t)) s'.
Proof using Hgroup Hn TL.
  intros Hi He Hex Hcp _. rewrite star_parent in He by lia.
  destruct (take_result_alone expect i 0 (float_device (input inputs i)) e tp v s) as (t & Ht & Hd & Hrun); [done..|].
  eexists t, _. split; [done|]. split; [done|]. split; cycle 1.
  - refine (alone_bind (M:=all_reduce_service) i _ (f i) _ (Sync (Return (Ok t))) _ _).
    eapply alone_then; [exact Hrun|]. constructor.
  - intros key. rewrite star_children, star_parent by lia. case_decide as Hkey; [by rewrite Hkey, lookup_insert_eq|].
    rewrite lookup_insert_ne, decide_False; [done| |done]. by intros [_ ?].
Qed.

Lemma star_runs s0 : (forall j, s0 !! (j, 0) = None) -> (forall j, s0 !! (j, 1) = None) ->
  exists l ts s, runs network_step l (mkNetwork (map star_start (seq 0 n)) s0) (mkNetwork (map (fun i => f i (ts i)) (seq 0 n)) s) /\
    all_reduced inputs ts s0 s.
Proof using All.
  intros H00 H01.
  destruct (phases_run n Hn inputs Hlike star_start star_waiting (fun i t => Sync (f i t)) star_leaf_up star_root_up
    star_leaf_down s0 Hn H00 H01) as (l & ts & s & Hrun & Hall).
  exists (l ++ [None]), ts, s. split; [|done]. eapply runs_app; [exact Hrun|]. by apply all_leave.
Qed.
End star.
End all_reduce.
