(* ===== verification/GlobalRing.v ===== *)
(** * The ring all-reduce among nodes: src/src/global/node/ring.rs

    In each cycle every node exposes one slice and takes one from its predecessor;
    a schedule in which all expose before any takes makes the steps of [Ring]. *)
From S2P Require Import Prelude FloatBackend LocalReduce LocalStrategies Ring LocalRing CollectiveConfig Processes Orchestrator GlobalNode GlobalTree GlobalRooted.

(** ** The schedule of the slices *)
Section schedule.
Context (w : nat) (Hw : (0 < w)%nat).

Lemma mod_back x : ((x mod w + w - 1) mod w = (x + w - 1) mod w)%nat.
Proof using Hw.
  replace (x + w - 1)%nat with (x + (w - 1))%nat by lia. replace (x mod w + w - 1)%nat with (x mod w + (w - 1))%nat by lia.
  by rewrite Nat.Div0.add_mod_idemp_l.
Qed.

(** The slice a node sends next is the one it has received. *)
Lemma sent_next phase s r : sent_idx w phase (S s) r = ((sent_idx w phase s r + w - 1) mod w)%nat.
Proof using Hw. unfold sent_idx. destruct phase; rewrite mod_back; f_equal; nia. Qed.

Lemma sent_received phase s r : (r < w)%nat -> received w phase s r = sent_idx w phase (S s) r.
Proof using Hw.
  intros Hr. rewrite sent_next. unfold received, sent_idx, predecessor. destruct phase; rewrite mod_back.
  - rewrite Nat.Div0.add_mod_idemp_l. f_equal. nia.
  - rewrite <- Nat.add_assoc, Nat.Div0.add_mod_idemp_l. f_equal. nia.
Qed.

Lemma sent_first r : (r < w)%nat -> sent_idx w true 0 r = r.
Proof using Hw. intros Hr. unfold sent_idx. rewrite Nat.mul_0_r, Nat.add_0_r. by apply Nat.mod_small. Qed.

Lemma sent_again r : sent_idx w true (w - 1) r = sent_idx w false 0 r.
Proof using Hw. unfold sent_idx. rewrite steps_back by lia. f_equal. nia. Qed.

Lemma sent_idx_lt phase s r : (sent_idx w phase s r < w)%nat.
Proof using Hw. unfold sent_idx. destruct phase; apply Nat.mod_upper_bound; lia. Qed.
End schedule.

Section ring.
Context {B : FloatBackend} {BL : FloatLaws B} {ET : ElementTypes} {T : TensorTransfer} {TL : TransferLaws T} {N : Network}.
Context (directory : Address -> option nat).
#[local] Existing Instance rooted_service.
#[local] Instance ring_service : Mail := rooted_service directory.
#[local] Instance ring_service_laws : MailLaws ring_service := rooted_service_laws directory.
Implicit Types s : gmap (nat * Z) Exposure.

(** *** Exposures that are written one after another *)
Fixpoint written (at_ : nat -> nat) (t : Z) (a : nat -> Exposure) s (i : nat) : gmap (nat * Z) Exposure :=
  match i with O => s | S j => <[(at_ j, t) := a (at_ j)]> (written at_ t a s j) end.

Lemma written_other at_ t a s i key : key.2 <> t -> written at_ t a s i !! key = s !! key.
Proof using Type.
  intros Hk. induction i as [|i IH]; cbn [written]; [done|]. rewrite lookup_insert_ne; [done|]. by intros <-.
Qed.

Lemma written_before at_ t a s i p : (forall j, (j < i)%nat -> at_ j <> p) -> written at_ t a s i !! (p, t) = s !! (p, t).
Proof using Type.
  induction i as [|i IH]; intros Hne; cbn [written]; [done|]. rewrite lookup_insert_ne; [apply IH; intros j Hj; apply Hne; lia|].
  intros [= Heq]. by apply (Hne i); [lia|].
Qed.

Lemma written_at at_ t a s i j : (j < i)%nat -> written at_ t a s i !! (at_ j, t) = Some (a (at_ j)).
Proof using Type.
  induction i as [|i IH]; intros Hj; cbn [written]; [lia|]. destruct (decide (at_ i = at_ j)) as [->|Hne]; [apply lookup_insert_eq|].
  rewrite lookup_insert_ne by congruence. apply IH. destruct (decide (j = i)) as [->|]; [done|lia].
Qed.

(** *** A cycle *)
Context (nodes : HashMap Address) (ids : list NodeId) (Hgroup : group_of directory ids nodes).
Abbreviation w := (length ids).
Context (Hw : (0 < w)%nat) (dev : nat -> TDevice) (chunk_shape : nat -> list Z) {A : Type}.
Context (prev : nat -> Address) (Hprev : forall r, (r < w)%nat -> directory (prev r) = Some (predecessor w r)).
Implicit Types (f : nat -> nat -> Value) (sts : nat -> RingState).

Definition node_holds f (idx : nat) (t : Z) (r : nat) (st : RingState) : Prop :=
  length (ring_slices st) = w /\ transfer_counter st = t /\ send_slice_idx st = idx /\
  forall c, (c < w)%nat -> exists x, ring_slices st !! c = Some x /\ value x = f r c /\ float_device x = dev r /\ shape x = chunk_shape c.

Context (t0 : Tensor).
Definition slice_at (st : RingState) (c : nat) : Tensor := default t0 (ring_slices st !! c).
Definition sends (st : RingState) : Tensor := slice_at st (send_slice_idx st).
Definition receives (st : RingState) : nat := ((send_slice_idx st + w - 1) mod w)%nat.

(** What a node has after a cycle in which [incoming] arrived. *)
Definition after_cycle (phase : bool) (st : RingState) (incoming : Tensor) : RingState :=
  mkRing (<[receives st := if phase then float_add (slice_at st (receives st)) incoming else incoming]> (ring_slices st))
    (transfer_counter st + 1) (receives st).

Lemma slice_at_holds f idx t r st c : node_holds f idx t r st -> (c < w)%nat ->
  ring_slices st !! c = Some (slice_at st c) /\ value (slice_at st c) = f r c /\ float_device (slice_at st c) = dev r /\ shape (slice_at st c) = chunk_shape c.
Proof using Type. intros (_ & _ & _ & Hall) Hc. unfold slice_at. by destruct (Hall c Hc) as (x & -> & ?). Qed.

Lemma after_cycle_holds phase f g idx t r st incoming : (r < w)%nat -> node_holds f idx t r st ->
  let c := receives st in value incoming = g c -> float_device incoming = dev r -> shape incoming = chunk_shape c ->
  node_holds (fun r' c' => if (c' =? c)%nat then merge phase (f r' c') (g c') else f r' c') c (t + 1) r (after_cycle phase st incoming).
Proof using Hw.
  intros Hr Hst c Hv Hd Hs. assert (Hc : (c < w)%nat) by (apply Nat.mod_upper_bound; lia).
  destruct (slice_at_holds f idx t r st c Hst Hc) as (_ & Hov & Hod & Hos). destruct Hst as (Hl & Ht & _ & Hall).
  split; [unfold after_cycle; cbn [ring_slices]; by rewrite length_insert|]. split; [cbn; by rewrite Ht|]. split; [done|].
  intros c' Hc'. unfold after_cycle. cbn [ring_slices]. fold c. destruct (Nat.eqb_spec c' c) as [->|Hne].
  - rewrite list_lookup_insert_eq by by rewrite Hl. eexists. split; [done|]. destruct phase; cbn [merge].
    + assert (Heq : shape (slice_at st c) = shape incoming) by by rewrite Hos, Hs. rewrite add_value, add_device, Hov, Hv by done.
      split; [done|]. split; [done|]. rewrite shape_value, add_value, add_shape by (done || by rewrite <- !shape_value). by rewrite <- shape_value.
    + by rewrite Hv.
  - rewrite list_lookup_insert_ne by done. by apply Hall.
Qed.

(** The second half of a cycle. *)
Definition ring_take (phase : bool) (r : nat) (st : RingState) : program GlobalCollectiveError RingState :=
  let recv_slice_idx := ((send_slice_idx st + length (ring_slices st) - 1) mod length (ring_slices st))%nat in
  download ← download_tensor directory (prev r) (transfer_counter st);
  download ← lift (expect download);
  let tensor := float_from_data download (dev r) in
  own ← lift (index (ring_slices st) recv_slice_idx);
  slice ← (if phase then mret (float_add own tensor)
           else _ ← lift (fail_if (negb (bool_decide (shape own = shape tensor))) PeerSentIncoherentTensor); mret tensor);
  next ← lift (arith 64 (transfer_counter st + 1));
  mret (mkRing (<[recv_slice_idx := slice]> (ring_slices st)) next recv_slice_idx).

Abbreviation cycles phase r st l := (loop (ring_cycle directory phase (prev r) (dev r)) st l).

Section halves.
Context (phase : bool) (g : nat -> RingState -> program GlobalCollectiveError A) (rest : list nat).

Lemma post_alone f idx t r st x s : (r < w)%nat -> (idx < w)%nat -> node_holds f idx t r st -> s !! (r, t) = None ->
  alone r (cycles phase r st (x :: rest) ≫= g r) s ((st' ← ring_take phase r st; cycles phase r st' rest) ≫= g r)
    (<[(r, t) := offer (sends st) 1 0]> s).
Proof using Hw.
  intros Hr Hidx Hst Hs. apply (alone_bind (M:=ring_service)). cbn [loop]. apply (alone_bind (M:=ring_service)). unfold ring_cycle.
  destruct (slice_at_holds f idx t r st idx Hst Hidx) as (Hslice & _). destruct Hst as (_ & Ht & Hi & _).
  rewrite (lift_bind (slice_at st idx)) by (rewrite Hi; by apply index_Ok). rewrite Ht.
  eapply alone_then; [by apply expose_alone|]. unfold ring_take, sends. rewrite Hi, Ht. constructor.
Qed.

Lemma take_alone f h idx t r st x s : (r < w)%nat -> node_holds f idx t r st -> 0 <= t < 2 ^ 64 - 1 ->
  s !! (predecessor w r, t) = Some (offer x 1 0) -> shape x = chunk_shape (receives st) -> value x = h (receives st) ->
  alone r ((st' ← ring_take phase r st; cycles phase r st' rest) ≫= g r) s
    (cycles phase r (after_cycle phase st (float_from_data (into_data x) (dev r))) rest ≫= g r)
    (<[(predecessor w r, t) := offer x 1 1]> s).
Proof using Hw Hprev TL.
  intros Hr Hst Hbound Hs Hshape Hval. apply (alone_bind (M:=ring_service)).
  assert (Hc : (receives st < w)%nat) by (apply Nat.mod_upper_bound; lia).
  destruct (slice_at_holds f idx t r st (receives st) Hst Hc) as (Hslice & _ & _ & Hos). destruct Hst as (Hl & Ht & _ & _).
  eapply alone_then; [|constructor]. unfold ring_take. cbv zeta. rewrite Hl, Ht. fold (receives st).
  eapply alone_then; [by apply (download_alone directory r (prev r) t (predecessor w r)); [by apply Hprev|]|].
  rewrite (lift_bind (into_data x)) by done. rewrite (lift_bind (slice_at st (receives st))) by by apply index_Ok.
  assert (Harith : arith 64 (t + 1) = Ok (E:=GlobalCollectiveError) (t + 1)) by (apply arith_in; unfold in_width; lia).
  set (tensor := float_from_data (into_data x) (dev r)).
  assert (Hts : shape tensor = chunk_shape (receives st)) by (unfold tensor; by rewrite shape_value, data_value, <- shape_value).
  unfold after_cycle. rewrite Ht. destruct phase.
  - cbn [mret program_mret mbind program_mbind program_bind]. rewrite Harith. constructor.
  - rewrite Hos, Hts. rewrite bool_decide_eq_true_2 by done. cbn [negb fail_if lift mret program_mret mbind program_mbind program_bind].
    rewrite Harith. constructor.
Qed.
End halves.

Lemma node_holds_ext f f' idx t r st : (forall c, (c < w)%nat -> f r c = f' r c) -> node_holds f idx t r st -> node_holds f' idx t r st.
Proof using Type.
  intros Hf (Hl & Ht & Hi & Hall). split; [done|]. split; [done|]. split; [done|]. intros c Hc. rewrite <- Hf by done. by apply Hall.
Qed.

Definition balanced (t : Z) s : Prop := forall j e, s !! (j, t) = Some e -> Z.of_nat (downloads e) = max_downloads e.

Definition holding (phase : bool) f (cycle : nat) (t : Z) sts : Prop :=
  forall r, (r < w)%nat -> node_holds f (sent_idx w phase cycle r) t r (sts r).

Lemma ring_cycle_runs (phase : bool) (g : nat -> RingState -> program GlobalCollectiveError A) (rest : list nat) f cycle t sts x s :
  0 <= t < 2 ^ 64 - 1 -> holding phase f cycle t sts -> (forall j, s !! (j, t) = None) ->
  exists l sts' s', runs network_step l (mkNetwork (map (fun r => cycles phase r (sts r) (x :: rest) ≫= g r) (seq 0 w)) s)
      (mkNetwork (map (fun r => cycles phase r (sts' r) rest ≫= g r) (seq 0 w)) s') /\
    holding phase (ring_step w (merge phase) (received w phase cycle) f) (S cycle) (t + 1) sts' /\
    balanced t s' /\ forall key, key.2 <> t -> s' !! key = s !! key.
Proof using Hgroup Hprev Hw TL t0.
  intros Ht Hold Hs. pose proof Hw as Hw0.
  set (s1 := written (fun i => i) t (fun p => offer (sends (sts p)) 1 0) s).
  set (s2 := written (predecessor w) t (fun p => offer (sends (sts p)) 1 1) (s1 w)).
  set (sts' := fun r => after_cycle phase (sts r) (float_from_data (into_data (sends (sts (predecessor w r)))) (dev r))).
  assert (Hrecv : forall r, (r < w)%nat -> receives (sts r) = sent_idx w phase cycle (predecessor w r)).
  { intros r Hr. unfold receives. destruct (Hold r Hr) as (_ & _ & -> & _). rewrite <- sent_next, <- sent_received by done. done. }
  assert (Hsent : forall r, (r < w)%nat -> let p := predecessor w r in let c := receives (sts r) in
    value (sends (sts p)) = f p c /\ shape (sends (sts p)) = chunk_shape c).
  { intros r Hr p c. assert (Hp : (p < w)%nat) by by apply predecessor_lt. unfold c. rewrite Hrecv by done. fold p.
    pose proof (sent_idx_lt w Hw0 phase cycle p) as Hc. unfold sends.
    destruct (slice_at_holds _ _ _ _ _ _ (Hold p Hp) Hc) as (_ & Hv & _ & Hsh). destruct (Hold p Hp) as (_ & _ & -> & _). done. }
  destruct (sweep_runs w (fun r => cycles phase r (sts r) (x :: rest) ≫= g r)
    (fun r => (st' ← ring_take phase r (sts r); cycles phase r st' rest) ≫= g r) s1) as [l1 Hl1].
  { intros i Hi. apply (post_alone phase g rest f (sent_idx w phase cycle i) t); [done|by apply sent_idx_lt|by apply Hold|].
    unfold s1. rewrite written_before; [apply Hs|]. intros j Hj. lia. }
  destruct (sweep_runs w (fun r => (st' ← ring_take phase r (sts r); cycles phase r st' rest) ≫= g r)
    (fun r => cycles phase r (sts' r) rest ≫= g r) s2) as [l2 Hl2].
  { intros i Hi. destruct (Hsent i Hi) as [Hv Hsh].
    apply (take_alone phase g rest f (f (predecessor w i)) (sent_idx w phase cycle i) t); [done|by apply Hold|done| |done|done].
    unfold s2. rewrite written_before.
    - exact (written_at (fun i => i) t (fun p => offer (sends (sts p)) 1 0) s w _ (predecessor_lt w Hw0 i Hi)).
    - intros j Hj Heq. pose proof (predecessor_lt w Hw0 i Hi) as Hp.
      pose proof (predecessor_inj w Hw0 j _ ltac:(lia) Hp Heq). pose proof (predecessor_inj w Hw0 i _ Hi Hp eq_refl). lia. }
  exists (l1 ++ l2), sts', (s2 w). split; [eapply runs_app; [exact Hl1|exact Hl2]|]. split; [|split].
  - intros r Hr. destruct (Hsent r Hr) as [Hv Hsh].
    pose proof (after_cycle_holds phase f (f (predecessor w r)) _ t r (sts r) (float_from_data (into_data (sends (sts (predecessor w r)))) (dev r)) Hr (Hold r Hr)) as Hnext.
    cbv zeta in Hnext. rewrite Hrecv in Hnext by done. fold (received w phase cycle r) in Hnext. rewrite (sent_received w Hw0) in Hnext by done.
    rewrite Hrecv in Hv, Hsh by done. fold (received w phase cycle r) in Hv, Hsh. rewrite (sent_received w Hw0) in Hv, Hsh by done.
    eapply node_holds_ext; [|apply Hnext].
    + intros c Hc. unfold ring_step. by rewrite (sent_received w Hw0).
    + by rewrite data_value.
    + apply data_device.
    + by rewrite shape_value, data_value, <- shape_value.
  - intros j e. destruct (decide (j < w)%nat) as [Hj|Hj].
    + assert (Hi : ((j + 1) mod w < w)%nat) by (apply Nat.mod_upper_bound; lia).
      pose proof (written_at (predecessor w) t (fun p => offer (sends (sts p)) 1 1) (s1 w) w _ Hi) as Hat.
      rewrite (predecessor_next w Hw0) in Hat by done. unfold s2. rewrite Hat. by intros [= <-].
    + unfold s2, s1. rewrite !written_before; [by rewrite Hs|lia|]. intros i Hi. pose proof (predecessor_lt w Hw0 i Hi). lia.
  - intros key Hk. unfold s2, s1. by rewrite !written_other.
Qed.

(** *** A phase *)
Lemma ring_phase_runs (phase : bool) (g : nat -> RingState -> program GlobalCollectiveError A) f (rest : list nat) : forall cycle t sts s,
  0 <= t -> t + Zlen rest < 2 ^ 64 -> holding phase (ring_steps w (merge phase) (received w phase) f cycle) cycle t sts ->
  (forall u, t <= u < t + Zlen rest -> forall j, s !! (j, u) = None) ->
  exists l sts' s', runs network_step l (mkNetwork (map (fun r => cycles phase r (sts r) rest ≫= g r) (seq 0 w)) s)
      (mkNetwork (map (fun r => g r (sts' r)) (seq 0 w)) s') /\
    holding phase (ring_steps w (merge phase) (received w phase) f (cycle + length rest)) (cycle + length rest) (t + Zlen rest) sts' /\
    (forall u, t <= u < t + Zlen rest -> balanced u s') /\
    forall key, ~ t <= key.2 < t + Zlen rest -> s' !! key = s !! key.
Proof using Hgroup Hprev Hw TL t0.
  induction rest as [|x rest IH]; intros cycle t sts s Ht Hbound Hold Hs; unfold Zlen in *; cbn [length] in *.
  - exists [], sts, s. rewrite Nat.add_0_r, Z.add_0_r. split; [constructor|]. split; [done|]. split; [lia|done].
  - destruct (ring_cycle_runs phase g rest (ring_steps w (merge phase) (received w phase) f cycle) cycle t sts x s) as (l1 & sts1 & s1 & Hrun1 & Hold1 & Hbal1 & Hrest1); [lia|done|intros j; apply Hs; lia|].
    destruct (IH (S cycle) (t + 1) sts1 s1) as (l2 & sts2 & s2 & Hrun2 & Hold2 & Hbal2 & Hrest2); [lia|lia|done| |].
    { intros u Hu j. rewrite Hrest1 by (cbn; lia). apply Hs. lia. }
    exists (l1 ++ l2), sts2, s2. split; [by eapply runs_app|]. split; [|split].
    + replace (cycle + S (length rest))%nat with (S cycle + length rest)%nat by lia.
      replace (t + Z.of_nat (S (length rest))) with (t + 1 + Z.of_nat (length rest)) by lia. exact Hold2.
    + intros u Hu. destruct (decide (u = t)) as [->|Hne]; [|apply Hbal2; lia].
      intros j e. rewrite Hrest2 by (cbn; lia). apply Hbal1.
    + intros key Hkey. rewrite Hrest2, Hrest1; [done|lia|lia].
Qed.

Lemma do_cycles_eq phase p d st : length (ring_slices st) = w ->
  do_cycles directory phase p d st = loop (ring_cycle directory phase p d) st (seq 0 (w - 1)).
Proof using Hw. intros Hl. unfold do_cycles. rewrite Hl. by rewrite (proj2 (Nat.eqb_neq _ _)) by lia. Qed.

(** Both phases: every node has gathered every slice once round the ring. *)
Lemma ring_phases_runs (g : nat -> RingState -> program GlobalCollectiveError A) f sts s :
  2 * (Zlen ids - 1) < 2 ^ 64 -> (forall r, (r < w)%nat -> node_holds f r 0 r (sts r)) ->
  (forall u, 0 <= u < 2 * (Zlen ids - 1) -> forall j, s !! (j, u) = None) ->
  exists l sts' s', runs network_step l
      (mkNetwork (map (fun r => do_cycles directory true (prev r) (dev r) (sts r) ≫= (fun st => do_cycles directory false (prev r) (dev r) st ≫= g r)) (seq 0 w)) s)
      (mkNetwork (map (fun r => g r (sts' r)) (seq 0 w)) s') /\
    (forall r, (r < w)%nat -> exists idx t, node_holds (fun _ c => gathered w value_add 0 f c (w - 1)) idx t r (sts' r)) /\
    (forall u, 0 <= u < 2 * (Zlen ids - 1) -> balanced u s') /\
    forall key, ~ 0 <= key.2 < 2 * (Zlen ids - 1) -> s' !! key = s !! key.
Proof using Hgroup Hprev Hw TL t0.
  intros Hsize Hst Hs. assert (Hseq : Zlen (seq 0 (w - 1)) = Zlen ids - 1) by (unfold Zlen; rewrite length_seq; lia).
  destruct (ring_phase_runs true (fun r st => do_cycles directory false (prev r) (dev r) st ≫= g r) f (seq 0 (w - 1)) 0 0 sts s)
    as (l1 & sts1 & s1 & Hrun1 & Hold1 & Hbal1 & Hrest1); [lia|lia| |rewrite Hseq; intros u Hu; apply Hs; lia|].
  { intros r Hr. rewrite sent_first by done. by apply Hst. }
  rewrite length_seq, Hseq in *. cbn [Nat.add] in Hold1.
  set (f1 := ring_steps w (merge true) (received w true) f (w - 1)) in *.
  destruct (ring_phase_runs false g f1 (seq 0 (w - 1)) 0 (0 + (Zlen ids - 1)) sts1 s1)
    as (l2 & sts2 & s2 & Hrun2 & Hold2 & Hbal2 & Hrest2); [unfold Zlen; lia|lia| | |].
  { intros r Hr. rewrite <- sent_again by done. by apply Hold1. }
  { rewrite Hseq. intros u Hu j. rewrite Hrest1 by (cbn; lia). apply Hs. lia. }
  rewrite length_seq, Hseq in *. cbn [Nat.add] in Hold2.
  exists (l1 ++ l2), sts2, s2. split; [|split; [|split]].
  - eapply runs_app.
    + erewrite map_ext_in; [exact Hrun1|]. intros r Hr%in_seq. destruct (Hst r ltac:(lia)) as [Hl _]. by rewrite (do_cycles_eq true).
    + erewrite map_ext_in; [exact Hrun2|]. intros r Hr%in_seq. destruct (Hold1 r ltac:(lia)) as [Hl _]. by rewrite (do_cycles_eq false).
  - intros r Hr. eexists _, _. eapply node_holds_ext; [|by apply Hold2].
    intros c Hc. by apply both_phases_gather.
  - intros u Hu. destruct (decide (u < Zlen ids - 1)); [|apply Hbal2; lia].
    intros j e. rewrite Hrest2 by (cbn; lia). apply Hbal1. lia.
  - intros key Hkey. rewrite Hrest2, Hrest1; [done|lia|lia].
Qed.
End ring.

(** ** The whole algorithm *)
Section ring_all_reduce.
Context {B : FloatBackend} {BL : FloatLaws B} {ET : ElementTypes} {T : TensorTransfer} {TL : TransferLaws T} {N : Network} `{HL : HashLaws}.
Context (directory : Address -> option nat).
#[local] Existing Instance ring_service.
#[local] Instance ring_nodes_service : Mail := ring_service directory.
#[local] Instance ring_nodes_service_laws : MailLaws ring_nodes_service := ring_service_laws directory.

Context (ids : list NodeId) (nodes : HashMap Address) (Hgroup : group_of directory ids nodes) (Hids : ids = sort_ids (keys nodes)).
Abbreviation w := (length ids).
Context (dims : list Z) (Hdims : Forall (fun x => 0 <= x) dims) (sd : nat) (d : Z) (Hsd : dims !! sd = Some d)
  (Hdim : get_slice_dim (E:=GlobalCollectiveError) dims = Ok sd).
Context (Hw : (0 < w)%nat) (Hwd : Z.of_nat w <= d) (Hmax : d + Z.of_nat w <= 2 ^ usize_bits) (Hfit : slices_fit d w).
Context (inputs : NodeId -> Tensor) (Hlike : forall id, id ∈ ids -> shape (inputs id) = dims).

Abbreviation the_slice c := (slice_of dims sd (slice_range_at d w c)).
Definition own_slice (r c : nat) : Value := value_slice (value (inputs (ids !!! r))) (the_slice c).
Definition ring_part (c : nat) : Value := gathered w value_add 0 own_slice c (w - 1).

Lemma ring_size : size nodes = w.
Proof using Hids. rewrite Hids. rewrite (Permutation_length (sort_ids_perm _)). unfold keys, size. by rewrite length_map. Qed.

(** Each part is the sum of the nodes' slices. *)
Lemma ring_part_sums : Forall2 (fun range part => sums value_add (map (fun id => value_slice (value (inputs id)) (slice_of dims sd range)) ids) part)
  (map (slice_range_at d w) (seq 0 w)) (map ring_part (seq 0 w)).
Proof using Hw.
  apply Forall2_fmap, Forall_Forall2_diag, Forall_forall. intros c Hc%elem_of_seq. cbn beta.
  rewrite (map_positions _ ids). apply (gathered_all_sums value_add w 0 own_slice); lia.
Qed.

Lemma node_slices id : id ∈ ids -> exists slices,
  slice_tensor (inputs id) sd (map (slice_range_at d w) (seq 0 w)) = Ok slices /\
  length slices = w /\ forall c, (c < w)%nat -> exists x, slices !! c = Some x /\ value x = value_slice (value (inputs id)) (the_slice c) /\
    float_device x = float_device (inputs id) /\ shape x = slice_dims dims sd (slice_range_at d w c).
Proof using Hdims Hsd Hw Hmax Hwd Hfit Hlike.
  intros Hid. pose proof (Hlike id Hid) as Hshape.
  destruct (slice_one (E:=GlobalCollectiveError) dims sd d Hdims Hsd (inputs id) (map (slice_range_at d w) (seq 0 w)) Hshape) as (slices & Heq & HF).
  { apply Forall_map, Forall_forall. intros i Hi%elem_of_seq. apply slice_range_fits; [done|lia|done|lia]. }
  pose proof (Forall2_length _ _ _ HF) as Hlen. rewrite length_map, length_seq in Hlen.
  exists slices. split; [|split; [done|]].
  - apply mapM_Ok. apply mapM_Ok in Heq. eapply Forall2_impl; [exact Heq|]. cbn beta. intros range x Hx.
    rewrite Hshape, decide_True by by eapply lookup_lt_Some. exact Hx.
  - intros c Hc. destruct (lookup_lt_is_Some_2 slices c ltac:(lia)) as [x Hx]. exists x. split; [done|].
    apply (Forall2_lookup_lr _ _ _ c (slice_range_at d w c) x HF); [|done]. by rewrite list_lookup_fmap, lookup_seq_lt.
Qed.

(** *** All nodes at once *)
Definition ring_start r : program GlobalCollectiveError Tensor := ring_all_reduce_sum directory (ids !!! r) nodes (inputs (ids !!! r)).

Lemma ring_runs s0 : 2 * (Zlen ids - 1) < 2 ^ 64 -> (forall key, s0 !! key = None) ->
  exists l ts s, runs network_step l (mkNetwork (map ring_start (seq 0 w)) s0)
      (mkNetwork (map (fun r => Return (Ok (ts r))) (seq 0 w)) s) /\
    (forall r, (r < w)%nat -> value (ts r) = value_cat (map ring_part (seq 0 w)) sd /\ float_device (ts r) = float_device (inputs (ids !!! r))) /\
    forall key e, s !! key = Some e -> Z.of_nat (downloads e) = max_downloads e.
Proof using All.
  intros Hbound Hs0. set (t0 := inputs (ids !!! 0%nat)). set (dev := fun r => float_device (inputs (ids !!! r))).
  assert (Hin : forall r, (r < w)%nat -> ids !!! r ∈ ids) by (intros r Hr; by apply list_elem_of_lookup_total_2).
  destruct (entries nodes !! (ids !!! 0%nat)) as [a0|] eqn:Ha0.
  2:{ destruct (group_entry directory ids nodes 0 Hgroup Hw) as (a & Ha & _). congruence. }
  set (prev := fun r => default a0 (entries nodes !! (ids !!! predecessor w r))).
  assert (Hprev : forall r, (r < w)%nat -> entries nodes !! (ids !!! predecessor w r) = Some (prev r) /\ directory (prev r) = Some (predecessor w r)).
  { intros r Hr. destruct (group_entry directory ids nodes (predecessor w r) Hgroup (predecessor_lt w Hw r Hr)) as (a & Ha & Hda).
    unfold prev. by rewrite Ha. }
  set (sliced := fun r => default [] (match slice_tensor (inputs (ids !!! r)) sd (map (slice_range_at d w) (seq 0 w)) with Ok l => Some l | _ => None end)).
  set (g := fun (_ : nat) st => (_ ← barrier; lift (expect (float_cat (ring_slices st) sd))) : program GlobalCollectiveError Tensor).
  assert (Hstart : forall r, (r < w)%nat -> ring_start r = do_cycles directory true (prev r) (dev r) (mkRing (sliced r) 0 r) ≫=
      (fun st => do_cycles directory false (prev r) (dev r) st ≫= g r)).
  { intros r Hr. destruct (node_slices (ids !!! r) (Hin r Hr)) as (slices & Hslices & _).
    unfold ring_start, ring_all_reduce_sum, get_ring_topology. rewrite <- Hids, ring_size, Hlike by by apply Hin.
    rewrite Hdim. cbn [lift mbind program_mbind program_bind]. rewrite (proj2 (index_Ok _ _ _) Hsd). cbn [lift mbind program_mbind program_bind].
    rewrite (proj2 (Z.ltb_ge _ _) Hwd). cbn [fail_if lift mbind program_mbind program_bind].
    rewrite get_ranges_ok by lia. cbn [lift mbind program_mbind program_bind]. rewrite Hslices. cbn [lift mbind program_mbind program_bind].
    rewrite (position_of_lookup ids r); [|apply (group_nodup _ _ _ Hgroup)|by apply list_lookup_lookup_total_lt].
    cbn [expect lift mbind program_mbind program_bind]. fold (predecessor w r).
    rewrite (proj2 (index_Ok ids (predecessor w r) (ids !!! predecessor w r))) by (apply list_lookup_lookup_total_lt; by apply predecessor_lt).
    cbn [lift mbind program_mbind program_bind]. destruct (Hprev r Hr) as [-> _]. cbn [expect lift mbind program_mbind program_bind].
    unfold sliced. by rewrite Hslices. }
  destruct (ring_phases_runs directory nodes ids Hgroup Hw dev (fun c => slice_dims dims sd (slice_range_at d w c)) prev
    (fun r Hr => proj2 (Hprev r Hr)) t0 g own_slice (fun r => mkRing (sliced r) 0 r) s0 Hbound) as (l & sts & s & Hrun & Hold & Hbal & Hrest).
  { intros r Hr. destruct (node_slices (ids !!! r) (Hin r Hr)) as (slices & Hslices & Hlen & Hall).
    unfold sliced. rewrite Hslices. split; [done|]. split; [done|]. split; [done|]. exact Hall. }
  { intros u _ j. apply Hs0. }
  set (ts := fun r => default t0 (float_cat (ring_slices (sts r)) sd)).
  assert (Hcat : forall r, (r < w)%nat -> float_cat (ring_slices (sts r)) sd = Some (ts r) /\
    value (ts r) = value_cat (map ring_part (seq 0 w)) sd /\ float_device (ts r) = dev r).
  { intros r Hr. destruct (Hold r Hr) as (idx & t & Hlen & _ & _ & Hall).
    destruct (cat_slices dims sd d Hsd (inputs (ids !!! r)) (ring_slices (sts r)) (map ring_part (seq 0 w))) as (m & Hm & Hv & Hd).
    - by rewrite Hlen.
    - apply list_eq. intros c. rewrite !list_lookup_fmap. destruct (decide (c < w)%nat) as [Hc|Hc].
      + destruct (Hall c Hc) as (x & -> & Hx & _). rewrite lookup_seq_lt by done. cbn. by rewrite Hx.
      + by rewrite !lookup_ge_None_2 by (rewrite ?length_seq; lia).
    - apply Forall_lookup. intros c x Hx. assert (Hc : (c < w)%nat) by (rewrite <- Hlen; by eapply lookup_lt_Some).
      destruct (Hall c Hc) as (x' & Hx' & _ & Hdx & _). change (float_device x = dev r). congruence.
    - apply Forall_lookup. intros c x Hx. assert (Hc : (c < w)%nat) by (rewrite <- Hlen; by eapply lookup_lt_Some).
      destruct (Hall c Hc) as (x' & Hx' & _ & _ & Hsx). assert (x' = x) as <- by congruence. by exists (slice_range_at d w c).
    - unfold ts. by rewrite Hm. }
  exists (l ++ [None]), ts, s. split; [|split].
  - eapply runs_app.
    + erewrite map_ext_in; [exact Hrun|]. intros r Hr%in_seq. apply Hstart. lia.
    + assert (Hsync : map Sync (map (fun r => Return (Ok (E:=GlobalCollectiveError) (ts r))) (seq 0 w)) = map (fun r => g r (sts r)) (seq 0 w)).
      { rewrite map_map. apply map_ext_in. intros r Hr%in_seq. destruct (Hcat r ltac:(lia)) as [Hm _]. unfold g. by rewrite Hm. }
      refine (eq_ind _ (fun ps => runs network_step [None] (mkNetwork ps s) _) (barrier_runs _ s _) _ Hsync). by destruct w; [lia|].
  - intros r Hr. by destruct (Hcat r Hr) as (_ & ? & ?).
  - intros [j u] e He. destruct (decide (0 <= u < 2 * (Zlen ids - 1))) as [Hu|Hu]; [by apply (Hbal u Hu j)|].
    rewrite Hrest in He by done. by rewrite Hs0 in He.
Qed.
End ring_all_reduce.
