(* ===== verification/GlobalProperties.v ===== *)
(** * Theorems on the collectives among nodes

    The nodes of a group run their operations at once, each with its own order of
    its maps and of its downloads.  Whatever the schedule, all of them return,
    always with the same tensors, and each exposure of the data service has then
    been downloaded as often as it was offered. *)
From stdpp Require Import sorting strings.
From S2P Require Import Prelude FloatBackend LocalReduce LocalStrategies CollectiveConfig VectorBackend Processes Orchestrator GlobalNode GlobalTree GlobalRooted GlobalAllReduce LocalRing GlobalRing.

(** ** The order of a map does not matter *)
Lemma sort_ids_unique l l' : l ≡ₚ l' -> sort_ids l = sort_ids l'.
Proof.
  intros Hl. apply (Sorted_unique Nat.le); [apply Sorted_merge_sort; intros x y; lia..|]. by rewrite !sort_ids_perm.
Qed.

Section hashes.
Context {B : FloatBackend} {ET : ElementTypes} {T : TensorTransfer} {N : Network} `{HL : HashLaws} {C : Completion}.
Context (directory : Address -> option nat).
Implicit Types m : gmap NodeId Address.

Lemma keys_hasher h h' m : keys (mkMap h m) ≡ₚ keys (mkMap h' m).
Proof using HL. unfold keys. apply Permutation_map. by rewrite !iter_permutation. Qed.

Lemma neighbors_hasher node root h h' m arity : neighbors node root (mkMap h m) arity = neighbors node root (mkMap h' m) arity.
Proof using HL.
  unfold neighbors. cbn [entries]. by rewrite (sort_ids_unique (filter (fun id => id <> root) (keys (mkMap h m))) (filter (fun id => id <> root) (keys (mkMap h' m)))) by by rewrite (keys_hasher h h').
Qed.

Lemma reduce_sum_hasher node root h h' m t arity transfer :
  reduce_sum directory node root (mkMap h m) t arity transfer = reduce_sum directory node root (mkMap h' m) t arity transfer.
Proof using HL. unfold reduce_sum. by rewrite (neighbors_hasher _ _ h h'). Qed.

Lemma broadcast_hasher node root h h' m t d arity transfer :
  broadcast directory node root (mkMap h m) t d arity transfer = broadcast directory node root (mkMap h' m) t d arity transfer.
Proof using HL. unfold broadcast. by rewrite (neighbors_hasher _ _ h h'). Qed.

Lemma tree_hasher c node h h' m t arity :
  tree_all_reduce_sum directory c node (mkMap h m) t arity = tree_all_reduce_sum directory c node (mkMap h' m) t arity.
Proof using HL.
  unfold tree_all_reduce_sum, get_tree_topology. by rewrite (sort_ids_unique (keys (mkMap h m)) (keys (mkMap h' m))) by apply keys_hasher.
Qed.

Lemma ring_hasher node h h' m t :
  ring_all_reduce_sum directory node (mkMap h m) t = ring_all_reduce_sum directory node (mkMap h' m) t.
Proof using HL.
  unfold ring_all_reduce_sum, get_ring_topology. rewrite (sort_ids_unique (keys (mkMap h m)) (keys (mkMap h' m))) by apply keys_hasher.
  assert (size (mkMap h m) = size (mkMap h' m)) as ->; [|done]. unfold size. apply Permutation_length. by rewrite !iter_permutation.
Qed.

(** Only the central node depends on the order. *)
Lemma central_hasher c c' node h h' m t : get_central_node (keys (mkMap h' m)) <> Ok node ->
  centralized_all_reduce_sum directory c node (mkMap h m) t = centralized_all_reduce_sum directory c' node (mkMap h' m) t.
Proof using HL.
  unfold centralized_all_reduce_sum, get_central_node. rewrite (sort_ids_unique (keys (mkMap h m)) (keys (mkMap h' m))) by apply keys_hasher.
  destruct (index _ 0) as [central| |] eqn:Hc; [|done..]. intros Hne. cbn [lift mbind program_mbind program_bind].
  rewrite (proj2 (Nat.eqb_neq central node)); [done|]. by intros ->.
Qed.
End hashes.

(** ** A group of nodes *)
Section nodes.
Context {B : FloatBackend} {BL : FloatLaws B} {ET : ElementTypes} {T : TensorTransfer} {TL : TransferLaws T} {N : Network}.
Context `{HL : HashLaws} {C : Completion} {CL : CompletionLaws C}.
Context (directory : Address -> option nat).
#[local] Existing Instance all_reduce_service.
#[local] Instance node_service : Mail := all_reduce_service directory.
#[local] Instance node_service_laws : MailLaws node_service := all_reduce_service_laws directory.

(** The state of the node in position [i] of [ids], from the response to its registration; it hashes with [hashes i]. *)
Context (ids : list NodeId) (addresses : gmap NodeId Address) (devices : Z) (hashes : nat -> nat).
Definition node_state (i : nat) : NodeState := mkNode (ids !!! i) (mkMap (hashes i) addresses) devices.

Lemma node_registered i : register_response (ResponseRegister (ids !!! i) addresses devices) (hashes i) = Ok (node_state i).
Proof using Type. done. Qed.

Abbreviation n := (length ids).
Abbreviation group := (group_of directory ids (mkMap 0 addresses)).

(** Nothing is left that was offered and not taken. *)
Definition drained (s : gmap (nat * Z) Exposure) : Prop := forall key e, s !! key = Some e -> Z.of_nat (downloads e) = max_downloads e.
Definition mean_value (op : ReduceOperation) (v : Value) : Value := if bool_decide (op = Mean) then value_div v devices else v.

Lemma mean_of_value op i t : value (mean_of op (node_state i) t) = mean_value op (value t) /\
  float_device (mean_of op (node_state i) t) = float_device t.
Proof using Type. unfold mean_of, mean_value. case_bool_decide; [|done]. split; [apply div_value|apply div_device]. Qed.

Definition network_of {R} (x : nat -> process R) : network R := mkNetwork (map x (seq 0 n)) ∅.

Lemma all_returned {R} (r : nat -> R) s : final network_step (mkNetwork (map (fun i => Return (r i)) (seq 0 n)) s).
Proof using Type. rewrite <- (map_map r Return). apply returned_final. Qed.

(** All leave the last barrier and return. *)
Lemma finishes {R} (x : nat -> process R) (r : nat -> R) l s : (0 < n)%nat ->
  runs network_step l (network_of x) (mkNetwork (map (fun i => Sync (Return (r i))) (seq 0 n)) s) ->
  ends_in (network_of x) (mkNetwork (map (fun i => Return (r i)) (seq 0 n)) s).
Proof using Type.
  intros Hn Hrun. apply (schedule_suffices (l ++ [None])).
  - eapply runs_app; [exact Hrun|]. rewrite <- (map_map (fun i => Return (r i)) Sync). apply barrier_runs. by destruct n; [lia|].
  - apply all_returned.
Qed.

Context (inputs : NodeId -> Tensor) (requests : nat -> RemoteRequest -> RemoteResponse).

Definition reduce_process strategy peer op i : program GlobalCollectiveError (option Tensor) :=
  reduce_inner directory (Some (node_state i)) (requests i) (inputs (ids !!! i)) strategy peer op.
Definition reduce_arity (strategy : ReduceStrategy) : option Z := match strategy with ReduceCentralized => None | ReduceTree k => Some (Z.of_nat k) end.

(** All schedules end: the root returns the result, the others nothing. *)
Definition reduce_ends strategy peer op root : Prop :=
  exists t v s, ends_in (network_of (reduce_process strategy peer op))
      (mkNetwork (map (fun i => Return (Ok (if (i =? 0)%nat then Some t else None))) (seq 0 n)) s) /\
    sums value_add (map (fun id => value (inputs id)) ids) v /\ value t = mean_value op v /\
    float_device t = float_device (inputs root) /\ drained s.

(** When all nodes of a group begin a reduction and the orchestrator answers with one root and one transfer, every schedule of the nodes ends, after as many steps, with the same result: the root returns the sum of all tensors (their mean for [Mean]) on its device, the others return none, and every exposed tensor has been downloaded as often as it was offered. *)
Theorem node_reduce strategy peer op root transfer dims dt :
  ids = tree_ids root (mkMap 0 addresses) -> rooted_group directory root (mkMap 0 addresses) (reduce_arity strategy) ->
  (forall id, id ∈ ids -> like dims dt (inputs id)) ->
  (forall i, requests i (RequestBegin (SpecReduce peer op strategy dims dt)) = ResponseBegin root transfer) ->
  reduce_ends strategy peer op root.
Proof using HL TL.
  intros Hids Hg Hlike Hreq.
  set (f := fun i result => (_ ← barrier; mret (mean_of op (node_state i) <$> result)) : program GlobalCollectiveError (option Tensor)).
  destruct (reduce_runs (A:=option Tensor) directory root (mkMap 0 addresses) (reduce_arity strategy) transfer dims dt Hg inputs) with (f := f)
    (s0 := (∅ : gmap (nat * Z) Exposure)) as (l & t & s & Hrun & Ht & Hd & Hsum & Hrest & Hmail); [by rewrite <- Hids|done|].
  rewrite <- Hids in *. exists (mean_of op (node_state 0) t), (value t), s. split.
  - apply (finishes _ (fun i => Ok (if (i =? 0)%nat then Some (mean_of op (node_state 0) t) else None)) l); [rewrite Hids; cbn; lia|].
    unfold network_of. rewrite (map_ext_in _ (reduce_start directory root (mkMap 0 addresses) (reduce_arity strategy) transfer inputs f)).
    + rewrite (map_ext (fun i => Sync _) (fun i => f i (if (i =? 0)%nat then Some t else None))); [exact Hrun|]. by intros [|i].
    + intros i Hi%in_seq. unfold reduce_process, reduce_inner, node_begin. destruct (Hlike (ids !!! i)) as [Hsh Hdt]; [apply list_elem_of_lookup_total_2; lia|].
      rewrite Hsh, Hdt, Hreq. cbn [ok_or lift mbind program_mbind program_bind state_node_id state_nodes node_state].
      rewrite (reduce_sum_hasher directory _ _ (hashes i) 0).
      unfold reduce_start, own. rewrite Hids. done.
  - split; [done|]. destruct (mean_of_value op 0 t) as [Hmv Hmd]. split; [done|]. split; [by rewrite Hmd|].
    intros [j u] e He. destruct (decide (u = transfer)) as [->|Hu]; [by apply (Hmail j)|]. by rewrite Hrest in He.
Qed.

Definition broadcast_process strategy (tensors : NodeId -> option Tensor) (targets : NodeId -> TDevice) i : program GlobalCollectiveError Tensor :=
  broadcast_inner directory (Some (node_state i)) (requests i) (tensors (ids !!! i)) strategy (targets (ids !!! i)).
Definition broadcast_arity (strategy : BroadcastStrategy) : option Z :=
  match strategy with BroadcastCentralized => None | BroadcastTree k => Some (Z.of_nat k) end.

(** All schedules end with a copy of the source everywhere. *)
Definition broadcast_ends strategy tensors targets source dims dt : Prop :=
  exists ts s, ends_in (network_of (broadcast_process strategy tensors targets)) (mkNetwork (map (fun i => Return (Ok (ts i))) (seq 0 n)) s) /\
    ts 0%nat = source /\
    (forall i, (i < n)%nat -> copied (value source) dims dt (ts i) /\ ((0 < i)%nat -> float_device (ts i) = targets (ids !!! i))) /\
    drained s.

(** When all nodes of a group begin a broadcast and are answered with one root and one transfer, every schedule ends, after as many steps, with a copy of the root's tensor at every node, on the device the node asked for, whatever the others offered; every exposed tensor has been downloaded as often as it was offered. *)
Theorem node_broadcast strategy tensors targets source root transfer dims dt :
  ids = tree_ids root (mkMap 0 addresses) -> rooted_group directory root (mkMap 0 addresses) (broadcast_arity strategy) ->
  tensors root = Some source -> like dims dt source ->
  (forall i, requests i (RequestBegin (SpecBroadcast strategy ((fun t => (shape t, dtype t)) <$> tensors (ids !!! i)))) = ResponseBegin root transfer) ->
  broadcast_ends strategy tensors targets source dims dt.
Proof using HL TL.
  intros Hids Hg Hsource Hlike Hreq.
  set (f := fun (_ : nat) result => (_ ← barrier; mret result) : program GlobalCollectiveError Tensor).
  destruct (broadcast_runs (A:=Tensor) directory root (mkMap 0 addresses) (broadcast_arity strategy) transfer dims dt Hg source tensors targets Hlike f ∅)
    as (l & ts & s & Hrun & Ht & Hcop & Hrest & Hmail); [done|].
  rewrite <- Hids in *. exists ts, s. split; [|split; [done|split; [done|]]].
  - apply (finishes _ (fun i => Ok (ts i)) l); [rewrite Hids; cbn; lia|].
    unfold network_of. erewrite map_ext_in; [exact Hrun|].
    intros i Hi%in_seq. unfold broadcast_process, broadcast_inner, node_begin.
    rewrite Hreq. cbn [ok_or lift mbind program_mbind program_bind state_node_id state_nodes node_state].
    rewrite (broadcast_hasher directory _ _ (hashes i) 0).
    unfold broadcast_start, brought. rewrite <- Hids. destruct (Nat.eqb_spec i 0) as [->|]; [|done].
    assert (Hroot : ids !!! 0%nat = root) by by rewrite Hids. by rewrite Hroot, Hsource.
  - intros [j u] e He. destruct (decide (u = transfer)) as [->|Hu]; [by apply (Hmail j)|]. by rewrite Hrest in He.
Qed.

Definition all_reduce_process (orders : nat -> nat) strategy op i : program GlobalCollectiveError Tensor :=
  all_reduce_inner directory (orders i) (Some (node_state i)) (requests i) (inputs (ids !!! i)) strategy op.

Definition all_reduce_ends orders strategy op : Prop :=
  exists ts v s, ends_in (network_of (all_reduce_process orders strategy op)) (mkNetwork (map (fun i => Return (Ok (ts i))) (seq 0 n)) s) /\
    sums value_add (map (fun id => value (inputs id)) ids) v /\
    (forall i, (i < n)%nat -> value (ts i) = mean_value op v /\ float_device (ts i) = float_device (inputs (ids !!! i))) /\
    drained s.

Section all_reduce.
Context (orders : nat -> nat) (strategy : AllReduceStrategy) (op : ReduceOperation) (root : NodeId) (transfer : Z) (dims : list Z) (dt : DType).
Hypotheses (Hids : ids = sort_ids (keys (mkMap 0 addresses))) (Hg : group) (Hn : (0 < n)%nat) (Hsize : Zlen ids < 2 ^ 32)
  (Hlike : forall id, id ∈ ids -> like dims dt (inputs id))
  (Hreq : forall i, requests i (RequestBegin (SpecAllReduce op strategy dims dt)) = ResponseBegin root transfer).

(** What both strategies have left, the nodes have returned. *)
Lemma all_reduce_finishes x ts l s :
  (forall i, (i < n)%nat -> all_reduce_process orders strategy op i = x i ≫= fun result => mret (mean_of op (node_state i) result)) ->
  runs network_step l (network_of (fun i => x i ≫= fun result => mret (mean_of op (node_state i) result)))
    (mkNetwork (map (fun i => mret (M:=program GlobalCollectiveError) (mean_of op (node_state i) (ts i))) (seq 0 n)) s) ->
  all_reduced dims dt ids inputs ts ∅ s ->
  all_reduce_ends orders strategy op.
Proof using Hn.
  intros Hx Hrun (v & Hsum & Hts & Hrest & Hmail).
  exists (fun i => mean_of op (node_state i) (ts i)), v, s. split; [|split; [done|split]].
  - apply (schedule_suffices l).
    + unfold network_of. erewrite map_ext_in; [exact Hrun|]. intros i Hi%in_seq. apply Hx. lia.
    + apply (all_returned (fun i => Ok (mean_of op (node_state i) (ts i)))).
  - intros i Hi. destruct (Hts i Hi) as [(Hv & _ & _) Hd]. destruct (mean_of_value op i (ts i)) as [-> ->]. by rewrite Hv, Hd.
  - intros [j u] e He. destruct (decide (u = 0 \/ u = 1)) as [Hu|Hu]; [by apply (Hmail (j, u))|].
    rewrite Hrest in He; [done|..]; cbn; intros ->; apply Hu; tauto.
Qed.

Lemma process_entered i : (i < n)%nat -> all_reduce_process orders strategy op i =
  (result ← match strategy with
    | AllReduceCentralized => centralized_all_reduce_sum directory (orders i) (ids !!! i) (mkMap (hashes i) addresses) (inputs (ids !!! i))
    | AllReduceTree arity => tree_all_reduce_sum directory (orders i) (ids !!! i) (mkMap (hashes i) addresses) (inputs (ids !!! i)) (Z.of_nat arity)
    | AllReduceRing => ring_all_reduce_sum directory (ids !!! i) (mkMap (hashes i) addresses) (inputs (ids !!! i))
    end; mret (mean_of op (node_state i) result)).
Proof using Hlike Hreq.
  intros Hi. unfold all_reduce_process, all_reduce_inner, node_begin.
  destruct (Hlike (ids !!! i)) as [-> ->]; [by apply list_elem_of_lookup_total_2|]. by rewrite Hreq.
Qed.

Lemma tree_all_reduce k : strategy = AllReduceTree k -> (0 < k)%nat -> Z.of_nat k < 2 ^ 32 -> all_reduce_ends orders strategy op.
Proof using All.
  intros Hs Hk Hk32. pose proof (NoDup_keys (mkMap 0 addresses)) as Hnd.
  assert (Hlen : length (keys (mkMap 0 addresses)) = n) by (rewrite Hids; symmetry; apply (Permutation_length (sort_ids_perm _))).
  destruct (topology_ok (keys (mkMap 0 addresses)) k Hnd Hk Hk32) as (topology & Htop & Hupto); [unfold Zlen in *; by rewrite Hlen|].
  rewrite <- Hids, Hlen in Hupto.
  destruct (tree_runs directory (mkMap 0 addresses) dims dt ids Hg Hsize k Hk inputs Hlike orders
    (fun i result => mret (mean_of op (node_state i) result)) topology Htop Hupto ∅ Hn) as (l & ts & s & Hrun & Hall); [done..|].
  eapply all_reduce_finishes; [|exact Hrun|exact Hall].
  intros i Hi. rewrite process_entered, Hs by done. by rewrite (tree_hasher directory _ _ (hashes i) 0).
Qed.

Lemma star_all_reduce : strategy = AllReduceCentralized -> all_reduce_ends orders strategy op.
Proof using All.
  intros Hs. assert (Hc : get_central_node (keys (mkMap (hashes 0%nat) addresses)) = Ok (ids !!! 0%nat)).
  { unfold get_central_node. rewrite (sort_ids_unique _ (keys (mkMap 0 addresses))), <- Hids by apply keys_hasher.
    unfold index. by rewrite (list_lookup_lookup_total_lt _ _ Hn). }
  destruct (star_runs directory (mkMap (hashes 0%nat) addresses) dims dt ids) with (inputs := inputs) (h := orders 0%nat)
    (f := fun i result => mret (M:=program GlobalCollectiveError) (mean_of op (node_state i) result)) (s0 := (∅ : gmap (nat * Z) Exposure))
    as (l & ts & s & Hrun & Hall); [by destruct Hg|done..|].
  eapply all_reduce_finishes; [|exact Hrun|exact Hall].
  intros i Hi. rewrite process_entered, Hs by done. destruct (decide (i = 0)%nat) as [->|Hne]; [done|].
  rewrite (central_hasher directory (orders i) (orders 0%nat) _ (hashes i) (hashes 0%nat)); [done|]. rewrite Hc. intros [= Heq].
  apply Hne. symmetry. by apply (ids_inj ids (group_nodup _ _ _ Hg)).
Qed.
End all_reduce.

(** C6: When all nodes of a group enter an all-reduce with tensors of one shape and type, by a tree or through the central node, every schedule of the nodes and every order of their concurrent downloads ends, after as many steps, with every node returning on its own device a tensor of the same value, the sum of all tensors in some order (its mean for [Mean]); every exposed tensor has been downloaded as often as it was offered. *)
Theorem node_all_reduce orders strategy op root transfer dims dt :
  strategy = AllReduceCentralized \/ (exists k, strategy = AllReduceTree k /\ (0 < k)%nat /\ Z.of_nat k < 2 ^ 32) ->
  ids = sort_ids (keys (mkMap 0 addresses)) -> group -> (0 < n)%nat -> Zlen ids < 2 ^ 32 ->
  (forall id, id ∈ ids -> like dims dt (inputs id)) ->
  (forall i, requests i (RequestBegin (SpecAllReduce op strategy dims dt)) = ResponseBegin root transfer) ->
  all_reduce_ends orders strategy op.
Proof using All.
  intros [Hs | (k & Hs & Hk & Hk32)] Hids Hg Hn Hsize Hlike Hreq.
  - by eapply star_all_reduce.
  - by eapply tree_all_reduce.
Qed.

Definition ring_ends orders op dims sd d : Prop :=
  exists ts parts s, ends_in (network_of (all_reduce_process orders AllReduceRing op)) (mkNetwork (map (fun i => Return (Ok (ts i))) (seq 0 n)) s) /\
    Forall2 (fun range part => sums value_add (map (fun id => value_slice (value (inputs id)) (slice_of dims sd range)) ids) part)
      (map (slice_range_at d n) (seq 0 n)) parts /\
    (forall i, (i < n)%nat -> value (ts i) = mean_value op (value_cat parts sd) /\ float_device (ts i) = float_device (inputs (ids !!! i))) /\
    drained s.

(** C17: When all nodes enter a ring all-reduce with tensors of one shape whose largest dimension can be cut into as many slices as there are nodes, every schedule of the nodes ends, after as many steps, with every node returning on its own device the same value: the concatenation of the slices' sums, each over the slices of all nodes (its mean for [Mean]); every exposed slice has been downloaded once. *)
Theorem node_ring_all_reduce orders op root transfer dims dt sd d :
  ids = sort_ids (keys (mkMap 0 addresses)) -> group -> (0 < n)%nat ->
  (forall id, id ∈ ids -> like dims dt (inputs id)) ->
  (forall i, requests i (RequestBegin (SpecAllReduce op AllReduceRing dims dt)) = ResponseBegin root transfer) ->
  Forall (fun x => 0 <= x) dims -> get_slice_dim (E:=GlobalCollectiveError) dims = Ok sd -> dims !! sd = Some d ->
  Z.of_nat n <= d -> d + Z.of_nat n <= 2 ^ usize_bits -> slices_fit d n ->
  ring_ends orders op dims sd d.
Proof using All.
  intros Hids Hg Hn Hlike Hreq Hdims Hdim Hsd Hnd Hmax Hfit.
  destruct (ring_runs directory ids (mkMap 0 addresses) Hg Hids dims Hdims sd d Hsd Hdim Hn Hnd Hmax Hfit inputs
    (fun id Hid => proj1 (Hlike id Hid)) ∅) as (l & ts & s & Hrun & Hts & Hmail); [change (2 ^ usize_bits) with (2 ^ 64) in Hmax; unfold Zlen; lia|done|].
  exists (fun i => mean_of op (node_state i) (ts i)), (map (ring_part ids dims sd d inputs) (seq 0 n)), s.
  split; [|split; [by apply ring_part_sums|split]].
  - apply (runs_bind (fun i t => mret (mean_of op (node_state i) t))) in Hrun. rewrite then_do_seq in Hrun.
    pose proof (eq_ind _ (runs network_step l _) Hrun _ (then_do_seq _ (fun r => Return (Ok (ts r))) n s)) as Hrun'.
    apply (schedule_suffices l).
    + unfold network_of. erewrite map_ext_in; [exact Hrun'|]. intros i Hi%in_seq. unfold all_reduce_process, all_reduce_inner, node_begin.
      destruct (Hlike (ids !!! i)) as [-> ->]; [apply list_elem_of_lookup_total_2; lia|]. rewrite Hreq.
      cbn [ok_or lift mbind program_mbind program_bind state_node_id state_nodes node_state].
      by rewrite (ring_hasher directory _ (hashes i) 0).
    + apply (all_returned (fun i => Ok (mean_of op (node_state i) (ts i)))).
  - intros i Hi. destruct (Hts i Hi) as [Hv Hd]. destruct (mean_of_value op i (ts i)) as [-> ->]. by rewrite Hv, Hd.
  - intros key e. apply Hmail.
Qed.
End nodes.

(** ** Instances *)
#[local] Instance number_type : ElementTypes := {| DType := nat |}.
#[local] Instance vector_transfer : TensorTransfer := {|
  TensorData := list Z;
  data_shape data := [Zlen data];
  data_dtype _ := 0%nat;
  dtype _ := 0%nat;
  into_data t := vector_data t;
  float_from_data data d := mkVector d data;
|}.
#[local] Instance vector_transfer_laws : TransferLaws vector_transfer.
Proof. by split. Qed.

(** The downloads of some nodes complete in the order they began, those of others the other way round. *)
#[local] Instance even_order : Completion := {| completes A h l := if Nat.even h then l else reverse l |}.
#[local] Instance even_order_laws : CompletionLaws even_order.
Proof. split. intros A h l. cbn. destruct (Nat.even h); [done|apply reverse_Permutation]. Qed.

Definition three_addresses : gmap NodeId Address := {[0%nat := "a"; 1%nat := "b"; 2%nat := "c"]}%string.
Definition three_listen (ids : list NodeId) (address : Address) : option nat :=
  position_of (if bool_decide (address = "a"%string) then 0 else if bool_decide (address = "b"%string) then 1 else 2)%nat ids.
Definition three_inputs (id : NodeId) : Tensor := mkVector id [Z.of_nat id; 3].

Lemma three_group (ids : list NodeId) : ids ≡ₚ [0; 1; 2]%nat -> group_of (three_listen ids) ids (mkMap 0 three_addresses).
Proof.
  intros Hids. assert (Hnd : NoDup ids) by (rewrite Hids; by apply (bool_decide_unpack _)).
  assert (Hlook : forall id a, three_addresses !! id = Some a -> (id = 0 /\ a = "a"%string \/ id = 1 /\ a = "b"%string \/ id = 2 /\ a = "c"%string)%nat).
  { intros id a. unfold three_addresses. rewrite !lookup_insert_Some, lookup_singleton_Some. naive_solver. }
  split; [done| |].
  - intros id. rewrite Hids. cbn [entries]. split.
    + intros Hid. repeat (apply elem_of_cons in Hid as [-> | Hid]; [by eexists|]). by apply not_elem_of_nil in Hid.
    + intros [a Ha]. apply Hlook in Ha. set_solver.
  - intros i id a Hi Ha. apply Hlook in Ha. unfold three_listen.
    destruct Ha as [[-> ->] | [[-> ->] | [-> ->]]]; by apply position_of_lookup.
Qed.

Lemma three_like (ids : list NodeId) id : id ∈ ids -> like [2] 0%nat (three_inputs id).
Proof. done. Qed.

Lemma three_rooted arity : (forall a, arity = Some a -> 0 < a) ->
  rooted_group (three_listen [1; 0; 2]%nat) 1 (mkMap 0 three_addresses) arity.
Proof.
  intros Ha. assert (Hids : tree_ids 1 (mkMap 0 three_addresses) = [1; 0; 2]%nat) by (by vm_compute).
  split; rewrite ?Hids; [by eexists|done| |done]. apply three_group, perm_swap.
Qed.

(** The nodes of ranks 0, 1 and 2, the second with another order of its maps and of its downloads. *)
Lemma node_all_reduce_witness :
  all_reduce_ends (three_listen [0; 1; 2]%nat) [0; 1; 2]%nat three_addresses 3 (fun i => i) three_inputs
    (fun _ _ => ResponseBegin 0 0) (fun i => i) (AllReduceTree 2) Mean.
Proof.
  apply (node_all_reduce (three_listen [0; 1; 2]%nat) [0; 1; 2]%nat three_addresses 3 (fun i => i) three_inputs
    (fun _ _ => ResponseBegin 0 0) (fun i => i) (AllReduceTree 2) Mean 0%nat 0 [2] (0%nat : @DType number_type)).
  - right. exists 2%nat. repeat split; lia.
  - vm_compute. reflexivity.
  - by apply three_group.
  - cbn. lia.
  - done.
  - apply three_like.
  - done.
Defined.

(** Node 1 is the root of a tree in which every node has one child. *)
Lemma node_reduce_witness :
  reduce_ends (three_listen [1; 0; 2]%nat) [1; 0; 2]%nat three_addresses 3 (fun i => i) three_inputs (fun _ _ => ResponseBegin 1 2)
    (ReduceTree 1) 5 Sum 1.
Proof.
  apply (node_reduce (three_listen [1; 0; 2]%nat) [1; 0; 2]%nat three_addresses 3 (fun i => i) three_inputs (fun _ _ => ResponseBegin 1 2)
    (ReduceTree 1) 5%nat Sum 1%nat 2 [2] (0%nat : @DType number_type)).
  - vm_compute. reflexivity.
  - apply (three_rooted (Some 1)). by intros a [= <-].
  - apply three_like.
  - done.
Defined.

Definition one_source (id : NodeId) : option Tensor := if (id =? 1)%nat then Some (three_inputs 1) else None.

Lemma node_broadcast_witness :
  broadcast_ends (three_listen [1; 0; 2]%nat) [1; 0; 2]%nat three_addresses 3 (fun i => i) (fun _ _ => ResponseBegin 1 2)
    BroadcastCentralized one_source (fun id => id) (three_inputs 1) [2] (0%nat : @DType number_type).
Proof.
  apply (node_broadcast (three_listen [1; 0; 2]%nat) [1; 0; 2]%nat three_addresses 3 (fun i => i) (fun _ _ => ResponseBegin 1 2)
    BroadcastCentralized one_source (fun id => id) (three_inputs 1) 1%nat 2 [2] (0%nat : @DType number_type)).
  - vm_compute. reflexivity.
  - by apply (three_rooted None).
  - done.
  - done.
  - done.
Defined.

Definition long_inputs (id : NodeId) : Tensor := mkVector id [Z.of_nat id; 3; 10; 4; 5].

Lemma node_ring_all_reduce_witness :
  ring_ends (three_listen [0; 1; 2]%nat) [0; 1; 2]%nat three_addresses 4 (fun i => i) long_inputs
    (fun _ _ => ResponseBegin 0 0) (fun i => i) Sum [5] 0 5.
Proof.
  apply (node_ring_all_reduce (three_listen [0; 1; 2]%nat) [0; 1; 2]%nat three_addresses 4 (fun i => i) long_inputs
    (fun _ _ => ResponseBegin 0 0) (fun i => i) Sum 0%nat 0 [5] (0%nat : @DType number_type) 0%nat 5).
  - vm_compute. reflexivity.
  - by apply three_group.
  - cbn. lia.
  - done.
  - done.
  - repeat constructor. lia.
  - vm_compute. reflexivity.
  - done.
  - cbn. lia.
  - change (2 ^ usize_bits) with (2 ^ 64). cbn. lia.
  - unfold slices_fit. vm_compute. discriminate.
Defined.
