(* ===== verification/SyncService.v ===== *)
(** * The barrier among nodes: src/src/global/node/sync.rs

    A node that enters the barrier takes its next generation and sends it to every
    other node, each message on a connection of its own; it leaves once it has the
    generation from all of them.  Messages arrive in any order, and those of a peer
    that is a generation ahead are kept.

    The steps are those of the tasks of a node.  [SyncRegister] is the end of
    [Node::register] (node/base.rs), which stores the state that both other sides
    read: to enter before it panics, and a message that arrives before it is
    dropped.  A task that handles a connection adds the peer ([SyncDeliver]) and,
    after it has released the lock, notifies the waiter ([SyncNotify]).  The loop
    that waits enables its future ([SyncListen]), then looks at the round
    ([SyncCheck]) and, if peers are missing, waits until it is notified
    ([SyncWake]) and starts again.

    [sync_notif] is the documented behaviour of [tokio::sync::Notify] as it is used
    here: an enabled future completes with the first [notify_waiters] after it was
    enabled, and [notify_waiters] leaves nothing behind when no future is enabled.
    Calls of [sync] on a node are serialized, as the source requires, so there is
    one future at most.  Connections that fail, where [sync] panics, are not
    modelled.  [Processes] takes barriers as given; [SyncProperties] says why it
    may. *)
From S2P Require Import Prelude FloatBackend CollectiveConfig Processes Orchestrator GlobalNode.

Section sync.
Context {N : Network} `{HashOrder}.

(** ** The service of one node *)
Record SyncRequest := mkSyncRequest { sync_node : NodeId; sync_generation : Z }.

(** [sync_notif] is [None] when no future is enabled; otherwise it says whether the enabled one is complete. *)
Record SyncService := mkSync {
  node_state : option NodeState; rounds : gmap Z (gset NodeId); generation : Z; completed : Z; sync_notif : option bool }.

Definition sync_new (state : option NodeState) : SyncService := mkSync state ∅ 0 0 None.

Definition set_node_state (svc : SyncService) (state : NodeState) : SyncService :=
  mkSync (Some state) (rounds svc) (generation svc) (completed svc) (sync_notif svc).
Definition set_sync_notif (svc : SyncService) (notif : option bool) : SyncService :=
  mkSync (node_state svc) (rounds svc) (generation svc) (completed svc) notif.

(** Of [tokio::sync::Notify]. *)
Definition enable (svc : SyncService) : SyncService := set_sync_notif svc (Some false).
Definition notify_waiters (svc : SyncService) : SyncService := set_sync_notif svc ((fun _ => true) <$> sync_notif svc).

(** Up to the release of the lock; the flag says that [notify_waiters] is still to be called. *)
Definition add_syncing_peer (svc : SyncService) (peer : NodeId) (gen : Z) : SyncService * bool :=
  if gen <? completed svc then (svc, false)
  else (mkSync (node_state svc) (<[gen := {[peer]} ∪ default ∅ (rounds svc !! gen)]> (rounds svc))
          (generation svc) (completed svc) (sync_notif svc), true).

(** [sync] up to its sends, which follow in the order of the map. *)
Definition sync_enter (svc : SyncService) : outcome Empty_set (SyncService * Z * list (NodeId * Address)) :=
  state ← expect (node_state svc);
  let gen := generation svc in
  let svc := mkSync (node_state svc) (rounds svc) (wrap 64 (gen + 1)) (completed svc) (sync_notif svc) in
  let '(svc, notifies) := add_syncing_peer svc (state_node_id state) gen in
  Ok (if notifies then notify_waiters svc else svc, gen, filter (fun e => e.1 <> state_node_id state) (iter (state_nodes state))).

(** A look at the round: [None] while peers are missing.  On the return the future is dropped. *)
Definition sync_leave (svc : SyncService) (gen : Z) (nodes : HashMap Address) : option (outcome Empty_set SyncService) :=
  match rounds svc !! gen with
  | Some peers =>
      if (base.size peers =? size nodes)%nat && forallb (fun n => bool_decide (n ∈ peers)) (keys nodes)
      then Some (next ← arith 64 (gen + 1); Ok (mkSync (node_state svc) (delete gen (rounds svc)) (generation svc) next None))
      else None
  | None => None
  end.

Definition handle_sync_connection (svc : SyncService) (request : SyncRequest) : SyncService * bool :=
  match node_state svc with
  | None => (svc, false)
  | Some state =>
      if bool_decide (is_Some (entries (state_nodes state) !! sync_node request))
      then add_syncing_peer svc (sync_node request) (sync_generation request) else (svc, false)
  end.

(** ** All nodes

    The nodes stand in the order of [ids]; [directory] says which of them listens
    at an address. *)
Context (ids : list NodeId) (addresses : gmap NodeId Address) (devices : Z) (hashes : nat -> nat) (directory : Address -> option nat).
Definition nodes_of (i : nat) : HashMap Address := mkMap (hashes i) addresses.

(** The state that [register] stores at the node in position [i]. *)
Definition state_of (i : nat) : NodeState := mkNode (ids !!! i) (nodes_of i) devices.

(** Where the task that calls [sync] stands. *)
Inductive SyncPhase :=
  | Idle
  | Syncing (gen : Z) (to_send : list (NodeId * Address))
  | Listening (gen : Z)
  | Waiting (gen : Z)
  | Panicked.

(** [notifying] counts the tasks of connections that have added their peer and not yet notified. *)
Record SyncNode := mkSyncNode { service : SyncService; phase : SyncPhase; notifying : nat }.
Record SyncSystem := mkSystem { sync_nodes : list SyncNode; in_flight : list (nat * SyncRequest) }.

Inductive SyncEvent :=
  | SyncRegister (i : nat)
  | SyncEnter (i : nat)
  | SyncSend (i : nat)
  | SyncDeliver (k : nat)
  | SyncNotify (i : nat)
  | SyncListen (i : nat)
  | SyncCheck (i : nat)
  | SyncWake (i : nat).

(** The steps of a node alone. *)
Definition node_step (i : nat) (n : SyncNode) (e : SyncEvent) : option SyncNode :=
  match e, phase n with
  | SyncRegister _, Idle => Some (mkSyncNode (set_node_state (service n) (state_of i)) Idle (notifying n))
  | SyncEnter _, Idle =>
      Some match sync_enter (service n) with
           | Ok (svc, gen, to_send) => mkSyncNode svc (Syncing gen to_send) (notifying n)
           | _ => mkSyncNode (service n) Panicked (notifying n)
           end
  | SyncListen _, Syncing gen [] => Some (mkSyncNode (enable (service n)) (Listening gen) (notifying n))
  | SyncCheck _, Listening gen =>
      state ← node_state (service n);
      Some match sync_leave (service n) gen (state_nodes state) with
           | None => mkSyncNode (service n) (Waiting gen) (notifying n)
           | Some (Ok svc) => mkSyncNode svc Idle (notifying n)
           | Some _ => mkSyncNode (service n) Panicked (notifying n)
           end
  | SyncWake _, Waiting gen =>
      match sync_notif (service n) with
      | Some true => Some (mkSyncNode (set_sync_notif (service n) None) (Syncing gen []) (notifying n))
      | _ => None
      end
  | SyncNotify _, ph =>
      match notifying n with
      | O => None
      | S rest => Some (mkSyncNode (notify_waiters (service n)) ph rest)
      end
  | _, _ => None
  end.

Definition sync_step (s : SyncSystem) (e : SyncEvent) : option SyncSystem :=
  match e with
  | SyncSend i =>
      n ← sync_nodes s !! i;
      state ← node_state (service n);
      match phase n with
      | Syncing gen ((_, address) :: to_send) =>
          j ← directory address;
          Some (mkSystem (<[i := mkSyncNode (service n) (Syncing gen to_send) (notifying n)]> (sync_nodes s))
                  (in_flight s ++ [(j, mkSyncRequest (state_node_id state) gen)]))
      | _ => None
      end
  | SyncDeliver k =>
      '(j, request) ← in_flight s !! k;
      n ← sync_nodes s !! j;
      let '(svc, notifies) := handle_sync_connection (service n) request in
      Some (mkSystem (<[j := mkSyncNode svc (phase n) (Nat.b2n notifies + notifying n)]> (sync_nodes s)) (delete k (in_flight s)))
  | SyncRegister i | SyncEnter i | SyncNotify i | SyncListen i | SyncCheck i | SyncWake i =>
      n ← sync_nodes s !! i;
      n' ← node_step i n e;
      Some (mkSystem (<[i := n']> (sync_nodes s)) (in_flight s))
  end.

Definition sync_run (s : SyncSystem) (events : list SyncEvent) : option SyncSystem :=
  foldl (fun s e => s ≫= fun s => sync_step s e) (Some s) events.

Definition sync_initial : SyncSystem := mkSystem (map (fun _ => mkSyncNode (sync_new None) Idle 0) ids) [].
End sync.
