(* ===== verification/SyncProperties.v ===== *)
(** * The barrier among nodes: theorems

    An invariant over all schedules of [SyncService]: from it, that no node leaves
    a barrier before all have entered it.  A second one for the schedules in which
    all nodes are registered before one of them enters: no message is lost, and a
    node that waits in a full round has a notification on its way.  From both, that
    once all nodes have entered a barrier every schedule of the remaining steps
    lets all of them leave.  Without registration first this fails
    ([early_message_dropped]); the operations of a node begin at the orchestrator,
    which grants nothing before all nodes have begun, so all have stored their
    state by then. *)
From S2P Require Import Prelude FloatBackend LocalReduce CollectiveConfig VectorBackend Processes Orchestrator GlobalNode GlobalTree GlobalRooted GlobalProperties SyncService.

Section sync.
Context {N : Network} `{HL : HashLaws}.
Context (ids : list NodeId) (addresses : gmap NodeId Address) (devices : Z) (hashes : nat -> nat) (directory : Address -> option nat).
Implicit Types (s : SyncSystem) (n : SyncNode).
Abbreviation step := (sync_step ids addresses devices hashes directory).
Abbreviation run := (sync_run ids addresses devices hashes directory).
Abbreviation alone := (node_step ids addresses devices hashes).
Abbreviation state_at := (state_of ids addresses devices hashes).
Abbreviation nodes_at := (nodes_of addresses hashes).

(** ** Views of the state *)
Definition gen_of s (i : nat) : Z := default 0 (generation ∘ service <$> sync_nodes s !! i).
Definition completed_of s (i : nat) : Z := default 0 (completed ∘ service <$> sync_nodes s !! i).
Definition round_of (svc : SyncService) (g : Z) : gset NodeId := default ∅ (rounds svc !! g).
Definition registered (i : nat) n : Prop := node_state (service n) = Some (state_at i).

Definition phase_ok (i : nat) n : Prop :=
  match phase n with
  | Idle => completed (service n) = generation (service n)
  | Syncing g to_send => registered i n /\ completed (service n) = g /\ generation (service n) = g + 1 /\
      Forall (fun e => e.1 <> ids !!! i /\ addresses !! e.1 = Some e.2) to_send
  | Listening g | Waiting g => registered i n /\ completed (service n) = g /\ generation (service n) = g + 1 /\ is_Some (sync_notif (service n))
  | Panicked => node_state (service n) = None
  end.

Record node_ok (m : Z) (i : nat) n : Prop := {
  ok_bounds : 0 <= completed (service n) <= generation (service n) /\ generation (service n) <= m;
  ok_state : node_state (service n) = None \/ registered i n;
  ok_phase : phase_ok i n;
}.

Definition entered s (p : NodeId) (g : Z) : Prop := exists i, ids !! i = Some p /\ 0 <= g < gen_of s i.

Record sync_ok (m : Z) s : Prop := {
  ok_length : length (sync_nodes s) = length ids;
  ok_nodes i n : sync_nodes s !! i = Some n -> node_ok m i n;
  ok_rounds j n g p : sync_nodes s !! j = Some n -> p ∈ round_of (service n) g -> entered s p g;
  ok_messages j request : (j, request) ∈ in_flight s -> (j < length ids)%nat /\ entered s (sync_node request) (sync_generation request);
  ok_before i j : (i < length ids)%nat -> (j < length ids)%nat -> completed_of s i <= gen_of s j;
}.

(** Node [i] has told node [j] that it has entered [g], or will. *)
Definition reaches s (i j : nat) (g : Z) : Prop :=
  (exists n, sync_nodes s !! j = Some n /\ ids !!! i ∈ round_of (service n) g) \/
  (j, mkSyncRequest (ids !!! i) g) ∈ in_flight s \/
  (exists n to_send, sync_nodes s !! i = Some n /\ phase n = Syncing g to_send /\ ids !!! j ∈ map fst to_send).

(** A node that waits has been notified, or will be, or has nothing to be notified of. *)
Definition awake (i : nat) n : Prop :=
  forall g, phase n = Waiting g ->
    sync_notif (service n) = Some true \/ (0 < notifying n)%nat \/ sync_leave (service n) g (nodes_at i) = None.

Record sync_live s : Prop := {
  live_registered i n : sync_nodes s !! i = Some n -> registered i n;
  live_awake i n : sync_nodes s !! i = Some n -> awake i n;
  live_reaches i j g : (i < length ids)%nat -> (j < length ids)%nat -> completed_of s j <= g < gen_of s i -> reaches s i j g;
}.

Lemma gen_of_eq s i n : sync_nodes s !! i = Some n -> gen_of s i = generation (service n).
Proof using Type. unfold gen_of. by intros ->. Qed.

Lemma completed_of_eq s i n : sync_nodes s !! i = Some n -> completed_of s i = completed (service n).
Proof using Type. unfold completed_of. by intros ->. Qed.

Lemma initial_ok : sync_ok 0 (sync_initial ids).
Proof using Type.
  assert (Hn : forall i n, sync_nodes (sync_initial ids) !! i = Some n -> n = mkSyncNode (sync_new None) Idle 0).
  { intros i n. cbn. rewrite list_lookup_fmap. destruct (ids !! i); cbn; [by intros [= <-]|done]. }
  assert (Hz : forall i, gen_of (sync_initial ids) i = 0 /\ completed_of (sync_initial ids) i = 0).
  { intros i. unfold gen_of, completed_of. cbn. rewrite list_lookup_fmap. by destruct (ids !! i). }
  split.
  - cbn. apply length_map.
  - intros i n Hi. rewrite (Hn i n Hi). split; cbn; [lia|by left|done].
  - intros j n g p Hj. rewrite (Hn j n Hj). unfold round_of. cbn. rewrite lookup_empty. by intros ?%not_elem_of_empty.
  - intros j request Hin. by apply not_elem_of_nil in Hin.
  - intros i j _ _. destruct (Hz i), (Hz j). lia.
Qed.

Lemma node_index s m i n : sync_ok m s -> sync_nodes s !! i = Some n -> (i < length ids)%nat.
Proof using Type. intros Hok Hi. rewrite <- (ok_length _ _ Hok). by eapply lookup_lt_Some. Qed.

Lemma entered_mono s s' p g : (forall i, gen_of s i <= gen_of s' i) -> entered s p g -> entered s' p g.
Proof using Type. intros Hle (i & Hi & Hg). exists i. split; [done|]. specialize (Hle i). lia. Qed.

(** ** A change of one node *)
Definition change s (i : nat) n (messages : list (nat * SyncRequest)) : SyncSystem := mkSystem (<[i := n]> (sync_nodes s)) messages.

Section change.
Context (m : Z) (s : SyncSystem) (i : nat) (n n' : SyncNode) (messages : list (nat * SyncRequest)).
Context (Hi : sync_nodes s !! i = Some n).
Abbreviation s' := (change s i n' messages).

Lemma change_lookup j : sync_nodes s' !! j = if decide (j = i) then Some n' else sync_nodes s !! j.
Proof using Hi. unfold change. cbn. case_decide as Hj; [subst j; apply list_lookup_insert_eq; by eapply lookup_lt_Some|by apply list_lookup_insert_ne]. Qed.

Lemma change_here : sync_nodes s' !! i = Some n'.
Proof using Hi. by rewrite change_lookup, decide_True. Qed.

Lemma change_gen j : gen_of s' j = if decide (j = i) then generation (service n') else gen_of s j.
Proof using Hi. unfold gen_of at 1. rewrite change_lookup. by case_decide. Qed.

Lemma change_completed j : completed_of s' j = if decide (j = i) then completed (service n') else completed_of s j.
Proof using Hi. unfold completed_of at 1. rewrite change_lookup. by case_decide. Qed.

Context (Hgen : generation (service n) <= generation (service n')).

Lemma change_gen_le j : gen_of s j <= gen_of s' j.
Proof using Hi Hgen. rewrite change_gen. case_decide as Hj; [subst j; by rewrite (gen_of_eq s i n Hi)|lia]. Qed.

Lemma change_entered p g : entered s p g -> entered s' p g.
Proof using Hi Hgen. apply entered_mono, change_gen_le. Qed.

Lemma change_ok m' : sync_ok m s -> m <= m' -> node_ok m' i n' ->
  (forall g p, p ∈ round_of (service n') g -> p ∈ round_of (service n) g \/ entered s' p g) ->
  (forall j r, (j, r) ∈ messages -> (j, r) ∈ in_flight s \/ ((j < length ids)%nat /\ entered s' (sync_node r) (sync_generation r))) ->
  (completed (service n') = completed (service n) \/ forall j, (j < length ids)%nat -> completed (service n') <= gen_of s j) ->
  sync_ok m' s'.
Proof using Hi Hgen.
  intros [Hlen Hn Hr Hmsg Hbef] Hm Hn' Hr' Hmsg' Hc. split.
  - unfold change. cbn. by rewrite length_insert.
  - intros j nj. rewrite change_lookup. case_decide as Hj; [intros [= <-]; by subst j|]. intros Hj'. destruct (Hn j nj Hj') as [? ? ?]. split; [lia|done..].
  - intros j nj g p. rewrite change_lookup. case_decide as Hj; [|intros Hj' Hin; by apply change_entered, (Hr j nj)].
    intros [= <-] Hin. destruct (Hr' g p Hin); [by apply change_entered, (Hr i n)|done].
  - intros j r Hin. destruct (Hmsg' j r Hin) as [Hold|]; [|done]. destruct (Hmsg j r Hold). split; [done|by apply change_entered].
  - intros a b Ha Hb. pose proof (change_gen_le b). pose proof (Hbef a b Ha Hb). rewrite change_completed. case_decide as Haj; [|lia].
    subst a. rewrite (completed_of_eq s i n Hi) in *. destruct Hc as [->|Hc]; [lia|specialize (Hc b Hb); lia].
Qed.

Lemma change_live : sync_live s -> registered i n' -> awake i n' -> completed (service n) <= completed (service n') ->
  (forall g, completed (service n') <= g -> round_of (service n) g ⊆ round_of (service n') g) ->
  (forall j r, (j, r) ∈ in_flight s -> completed_of s j <= sync_generation r ->
     (j, r) ∈ messages \/ (j = i /\ sync_node r ∈ round_of (service n') (sync_generation r))) ->
  (forall g to_send id, phase n = Syncing g to_send -> id ∈ map fst to_send ->
     (exists to_send', phase n' = Syncing g to_send' /\ id ∈ map fst to_send') \/
     (forall j, (j < length ids)%nat -> ids !!! j = id -> (j, mkSyncRequest (ids !!! i) g) ∈ messages)) ->
  (forall j g, (j < length ids)%nat -> generation (service n) <= g < generation (service n') -> reaches s' i j g) ->
  sync_live s'.
Proof using Hi.
  intros [Hreg Haw Hreach] Hreg' Haw' Hc Hround Hmsg Hsend Hnew. split.
  - intros j nj. rewrite change_lookup. case_decide as Hj; [intros [= <-]; by subst j|apply Hreg].
  - intros j nj. rewrite change_lookup. case_decide as Hj; [intros [= <-]; by subst j|apply Haw].
  - intros a b g Ha Hb Hg. rewrite change_completed, change_gen in Hg.
    destruct (decide (a = i /\ generation (service n) <= g)) as [[-> Hge]|Hold]; [apply Hnew; [done|]; destruct Hg as [_ Hg]; rewrite decide_True in Hg by done; lia|].
    assert (Hga : completed_of s b <= g < gen_of s a).
    { destruct Hg as [Hg1 Hg2]. split; [clear Hg2 Hold; case_decide; [subst b; rewrite (completed_of_eq s i n Hi)|]; lia|].
      case_decide as Hai; [subst a; rewrite (gen_of_eq s i n Hi); apply not_and_r in Hold as [?|?]; [done|lia]|done]. }
    destruct (Hreach a b g Ha Hb Hga) as [(nb & Hnb & Hin) | [Hin | (na & rest & Hna & Hpa & Hin)]].
    + left. destruct (decide (b = i)) as [->|Hbi]; [|exists nb; by rewrite change_lookup, decide_False].
      exists n'. split; [apply change_here|]. assert (nb = n) as -> by congruence. apply Hround; [lia|done].
    + destruct (Hmsg b _ Hin) as [?|[-> ?]]; [cbn; lia|right; by left|]. left. exists n'. split; [apply change_here|done].
    + destruct (decide (a = i)) as [->|Hai]; [|right; right; exists na, rest; by rewrite change_lookup, decide_False].
      assert (na = n) as -> by congruence. destruct (Hsend g rest _ Hpa Hin) as [(rest' & Hp' & Hin')|Hsent].
      * right. right. exists n', rest'. split; [apply change_here|done].
      * right. left. by apply Hsent.
Qed.
End change.

(** Steps that leave the rounds and both counters alone. *)
Record quiet n n' : Prop := {
  quiet_rounds : rounds (service n') = rounds (service n);
  quiet_generation : generation (service n') = generation (service n);
  quiet_completed : completed (service n') = completed (service n);
}.

(** ** Peers are added *)
Record heard (svc : SyncService) (p : NodeId) (g : Z) (svc' : SyncService) (notifies : bool) : Prop := {
  heard_state : node_state svc' = node_state svc;
  heard_generation : generation svc' = generation svc;
  heard_completed : completed svc' = completed svc;
  heard_notif : sync_notif svc' = sync_notif svc;
  heard_new g' q : q ∈ round_of svc' g' -> q ∈ round_of svc g' \/ (q = p /\ g' = g);
  heard_keeps g' : round_of svc g' ⊆ round_of svc' g';
  heard_quietly : notifies = false -> svc' = svc;
}.

Lemma heard_nothing svc p g : heard svc p g svc false.
Proof using Type. split; try done. by left. Qed.

Lemma add_heard svc p g : heard svc p g (add_syncing_peer svc p g).1 (add_syncing_peer svc p g).2.
Proof using Type.
  unfold add_syncing_peer. destruct (g <? completed svc); [apply heard_nothing|]. cbn [fst snd].
  split; try done; intros g'; unfold round_of; cbn [rounds]; (destruct (decide (g' = g)) as [->|]; [rewrite lookup_insert_eq|rewrite lookup_insert_ne by done]); cbn.
  - intros q [->%elem_of_singleton|Hq]%elem_of_union; [by right|by left].
  - by left.
  - apply union_subseteq_r.
  - done.
Qed.

Lemma add_elem svc p g : completed svc <= g -> p ∈ round_of (add_syncing_peer svc p g).1 g.
Proof using Type. intros Hg. unfold add_syncing_peer, round_of. rewrite (proj2 (Z.ltb_ge _ _)) by lia. cbn. rewrite lookup_insert_eq. cbn [default option_rect from_option id]. apply elem_of_union. left. by apply elem_of_singleton. Qed.

Lemma handle_heard svc r : heard svc (sync_node r) (sync_generation r) (handle_sync_connection svc r).1 (handle_sync_connection svc r).2.
Proof using Type.
  unfold handle_sync_connection. destruct (node_state svc); [|apply heard_nothing].
  case_bool_decide; [apply add_heard|apply heard_nothing].
Qed.

Lemma handle_elem svc i r : node_state svc = Some (state_at i) -> is_Some (addresses !! sync_node r) -> completed svc <= sync_generation r ->
  sync_node r ∈ round_of (handle_sync_connection svc r).1 (sync_generation r).
Proof using Type. intros Hst Hr Hg. unfold handle_sync_connection. rewrite Hst, bool_decide_eq_true_2 by exact Hr. by apply add_elem. Qed.

Context (Hgroup : group_of directory ids (mkMap 0 addresses)).

Lemma iter_others i j : (i < length ids)%nat -> (j < length ids)%nat -> i <> j ->
  ids !!! j ∈ map fst (filter (fun e => e.1 <> ids !!! i) (iter (nodes_at i))).
Proof using Hgroup HL.
  intros Hi Hj Hne. destruct (group_entry directory ids (mkMap 0 addresses) j Hgroup Hj) as (a & Ha & _).
  apply list_elem_of_fmap. exists (ids !!! j, a). split; [done|]. apply list_elem_of_filter. split; [|by apply elem_of_iter].
  cbn. intros Heq. apply Hne. apply (NoDup_lookup ids i j (ids !!! i)); [apply (group_nodup _ _ _ Hgroup)|by apply list_lookup_lookup_total_lt|].
  rewrite <- Heq. by apply list_lookup_lookup_total_lt.
Qed.

Lemma listens_at id address j : addresses !! id = Some address -> directory address = Some j -> (j < length ids)%nat /\ ids !! j = Some id.
Proof using Hgroup.
  intros Ha Hd.
  assert (Hin : id ∈ ids) by (apply (group_ids _ _ _ Hgroup); by exists address).
  apply list_elem_of_lookup in Hin as [k Hk]. pose proof (group_listens _ _ _ Hgroup k id address Hk Ha) as Hl.
  assert (k = j) as -> by congruence. split; [by eapply lookup_lt_Some|done].
Qed.

Lemma index_unique i j id : ids !! i = Some id -> (j < length ids)%nat -> ids !!! j = id -> i = j.
Proof using Hgroup.
  intros Hi Hj <-. apply (NoDup_lookup ids i j (ids !!! j)); [apply (group_nodup _ _ _ Hgroup)|done|by apply list_lookup_lookup_total_lt].
Qed.

(** ** A node enters *)

(** What [sync] makes of a registered service, before its first send. *)
Lemma enter_eq svc i : node_state svc = Some (state_at i) -> generation svc < 2 ^ 64 - 1 -> 0 <= generation svc -> completed svc <= generation svc ->
  exists svc', sync_enter svc = Ok (svc', generation svc, filter (fun e => e.1 <> ids !!! i) (iter (nodes_at i))) /\
    node_state svc' = Some (state_at i) /\ generation svc' = generation svc + 1 /\ completed svc' = completed svc /\
    (forall g p, p ∈ round_of svc' g -> p ∈ round_of svc g \/ (p = ids !!! i /\ g = generation svc)) /\
    (forall g, round_of svc g ⊆ round_of svc' g) /\ ids !!! i ∈ round_of svc' (generation svc).
Proof using Type.
  intros Hst Hm H0 Hc. unfold sync_enter. rewrite Hst. cbn [expect mbind outcome_bind]. cbn [state_of state_node_id state_nodes].
  rewrite wrap_in by (unfold in_width; lia). set (svc0 := mkSync _ _ _ _ _).
  destruct (add_heard svc0 (ids !!! i) (generation svc)) as [Hs Hg Hc' _ Hnew Hkeep _].
  pose proof (add_elem svc0 (ids !!! i) (generation svc) Hc) as Hin.
  destruct (add_syncing_peer svc0 (ids !!! i) (generation svc)) as [svc1 notifies]. cbn [fst snd] in *.
  exists (if notifies then notify_waiters svc1 else svc1). split; [done|].
  assert (Hround : forall g, round_of (if notifies then notify_waiters svc1 else svc1) g = round_of svc1 g) by by destruct notifies.
  split; [by destruct notifies|]. split; [by destruct notifies|]. split; [by destruct notifies|].
  split; [|split]; [intros g p|intros g|]; rewrite Hround; [apply Hnew|apply Hkeep|done].
Qed.

Lemma enter_ok m s i n : sync_ok m s -> m < 2 ^ 64 - 1 -> sync_nodes s !! i = Some n -> phase n = Idle -> registered i n ->
  exists svc, sync_enter (service n) = Ok (svc, generation (service n), filter (fun e => e.1 <> ids !!! i) (iter (nodes_at i))) /\
  let n' := mkSyncNode svc (Syncing (generation (service n)) (filter (fun e => e.1 <> ids !!! i) (iter (nodes_at i)))) (notifying n) in
  sync_ok (m + 1) (change s i n' (in_flight s)) /\ (sync_live s -> sync_live (change s i n' (in_flight s))).
Proof using Hgroup HL.
  intros Hok Hm Hi Hidle Hreg. pose proof (node_index s m i n Hok Hi) as Hil.
  destruct (ok_nodes _ _ Hok i n Hi) as [[Hb Hgm] _ Hph]. unfold phase_ok in Hph. rewrite Hidle in Hph.
  destruct (enter_eq (service n) i Hreg) as (svc & Heq & Hst & Hg & Hc & Hnew & Hkeep & Hin); [lia..|].
  exists svc. split; [done|]. set (to_send := filter _ _). set (g := generation (service n)) in *. set (n' := mkSyncNode _ _ _). split.
  - apply (change_ok m s i n); [done|cbn; lia|done|lia| | |by left|by left].
    + split; [cbn; lia|by right|]. split; [done|]. split; [cbn; lia|]. split; [done|].
      apply Forall_forall. intros [q a] Hqa%list_elem_of_filter. destruct Hqa as [Hq Hqa%elem_of_iter]. done.
    + intros h p Hp. destruct (Hnew h p Hp) as [|[-> ->]]; [by left|right]. exists i. split; [by apply list_lookup_lookup_total_lt|].
      rewrite (change_gen s i n), decide_True by done. cbn. lia.
  - intros Hlive. apply (change_live s i n); [done|done|done|by intros ?|cbn; lia|by intros h _|by left| |].
    + intros h rest id Hp. by rewrite Hidle in Hp.
    + intros j h Hj Hh. cbn in Hh. assert (h = g) as -> by lia. destruct (decide (j = i)) as [->|Hne].
      * left. exists n'. split; [by eapply change_here|done].
      * right. right. exists n', to_send. split; [by eapply change_here|]. split; [done|]. by apply iter_others.
Qed.

(** ** A node sends *)
Lemma sync_send_ok m s i n gen id address to_send j : sync_ok m s -> sync_nodes s !! i = Some n ->
  phase n = Syncing gen ((id, address) :: to_send) -> directory address = Some j ->
  let s' := change s i (mkSyncNode (service n) (Syncing gen to_send) (notifying n)) (in_flight s ++ [(j, mkSyncRequest (ids !!! i) gen)]) in
  sync_ok m s' /\ (sync_live s -> sync_live s').
Proof using Hgroup.
  intros Hok Hi Hsend Hd s'. pose proof (node_index s m i n Hok Hi) as Hil.
  destruct (ok_nodes _ _ Hok i n Hi) as [Hb _ Hph]. unfold phase_ok in Hph. rewrite Hsend in Hph. destruct Hph as (Hreg & Hc & Hg & Hto).
  apply Forall_cons in Hto as [[Hne Ha] Hto]. destruct (listens_at id address j Ha Hd) as [Hj Hidj]. split.
  - apply (change_ok m s i n); [done|cbn; lia|done|lia| |by left| |by left].
    + split; [done|by right|]. by split.
    + intros k r [Hin|Hin]%elem_of_app; [by left|]. apply list_elem_of_singleton in Hin as [= -> ->]. right. split; [done|].
      exists i. split; [by apply list_lookup_lookup_total_lt|]. rewrite (change_gen s i n), decide_True by done. cbn. lia.
  - intros Hlive. apply (change_live s i n); [done|done|done|by intros ?|done|by intros h _| | |cbn; lia].
    + intros k r Hin _. left. apply elem_of_app. by left.
    + intros g rest q Hp. rewrite Hsend in Hp. injection Hp as <- <-. cbn [map]. intros [->|Hin]%elem_of_cons; [right|left; by exists to_send].
      intros k Hk Hq. apply elem_of_app. right. apply list_elem_of_singleton. by rewrite (index_unique j k id Hidj Hk Hq).
Qed.

(** ** A message arrives *)
Lemma deliver_ok m s k j request n : sync_ok m s -> in_flight s !! k = Some (j, request) -> sync_nodes s !! j = Some n ->
  let r := handle_sync_connection (service n) request in
  let s' := change s j (mkSyncNode r.1 (phase n) (Nat.b2n r.2 + notifying n)) (delete k (in_flight s)) in
  sync_ok m s' /\ (sync_live s -> sync_live s').
Proof using Hgroup.
  intros Hok Hk Hj r s'. destruct (ok_messages _ _ Hok j request) as [_ Hent]; [by eapply list_elem_of_lookup_2|].
  assert (Hmember : is_Some (addresses !! sync_node request)).
  { destruct Hent as (i & Hi & _). apply (group_ids _ _ _ Hgroup). by eapply list_elem_of_lookup_2. }
  destruct (handle_heard (service n) request) as [Hs Hg Hc Hnotif Hnew Hkeep Hquiet]. fold r in Hs, Hg, Hc, Hnotif, Hnew, Hkeep, Hquiet.
  destruct (ok_nodes _ _ Hok j n Hj) as [Hb Hst Hph].
  assert (Hreg : registered j n <-> registered j (mkSyncNode r.1 (phase n) (Nat.b2n r.2 + notifying n))) by (unfold registered; cbn; by rewrite Hs).
  split.
  - apply (change_ok m s j n); [done|cbn; lia|done|lia| | | |by left; cbn].
    + split; [cbn; lia|cbn; rewrite Hs; destruct Hst; [by left|right; by apply Hreg]|].
      unfold phase_ok in *. cbn [phase service]. destruct (phase n); rewrite ?Hc, ?Hg, ?Hs, ?Hnotif; tauto.
    + intros g p Hp. destruct (Hnew g p Hp) as [|[-> ->]]; [by left|right]. apply (change_entered s j n); [done|cbn; lia|done].
    + intros i r' Hin. left. exact (list_elem_of_delete_inv _ k _ Hin).
  - intros Hlive. apply (change_live s j n); [done|done|apply Hreg, (live_registered _ Hlive j n Hj)| |cbn; lia|by intros g _| | |cbn; lia].
    + intros g Hp. cbn in Hp |- *. destruct (live_awake _ Hlive j n Hj g Hp) as [Hw|Hor]; [left; by rewrite Hnotif|right]. destruct (decide (r.2 = true)) as [->|Hq]; [left; cbn; lia|]. apply not_true_is_false in Hq.
      rewrite Hq, (Hquiet Hq). exact Hor.
    + intros i r' Hin Hr'. rewrite (delete_Permutation _ _ _ Hk) in Hin. apply elem_of_cons in Hin as [Heq|Hin]; [|by left].
      injection Heq as -> ->. right. split; [done|]. rewrite (completed_of_eq s j n Hj) in Hr'.
      by apply (handle_elem _ j); [apply (live_registered _ Hlive j n Hj)|..].
    + intros g rest id Hp Hin. left. by exists rest.
Qed.

(** ** A node looks at its round *)
Lemma leave_spec svc g i o : sync_leave svc g (nodes_at i) = Some o ->
  exists peers, rounds svc !! g = Some peers /\ (forall id, id ∈ ids -> id ∈ peers) /\
    o = (next ← arith 64 (g + 1); Ok (mkSync (node_state svc) (delete g (rounds svc)) (generation svc) next None)).
Proof using Hgroup HL.
  unfold sync_leave. destruct (rounds svc !! g) as [peers|]; [|done]. destruct (_ && _) eqn:Hall; [|done]. intros [= <-].
  exists peers. split; [done|]. split; [|done]. apply andb_prop in Hall as [_ Hall]. rewrite forallb_forall in Hall.
  intros id Hid. apply (bool_decide_eq_true _), Hall, list_elem_of_In. rewrite (keys_group directory ids); [done|].
  destruct Hgroup as [? ? ?]. by split.
Qed.

(** A node that leaves has heard of all, so all have entered; it never overflows. *)
Lemma leave_ok m s i n g o : sync_ok m s -> m < 2 ^ 64 -> sync_nodes s !! i = Some n -> phase n = Listening g ->
  sync_leave (service n) g (nodes_at i) = Some o ->
  exists svc, o = Ok svc /\ let s' := change s i (mkSyncNode svc Idle (notifying n)) (in_flight s) in
  sync_ok m s' /\ (sync_live s -> sync_live s').
Proof using Hgroup HL.
  intros Hok Hm Hi Hsync Hleave. destruct (ok_nodes _ _ Hok i n Hi) as [[Hb Hgm] _ Hph]. unfold phase_ok in Hph. rewrite Hsync in Hph.
  destruct Hph as (Hreg & Hc & Hg & _). apply leave_spec in Hleave as (peers & Hpeers & Hall & ->).
  rewrite arith_in by (unfold in_width; lia). cbn [mbind outcome_bind]. set (svc := mkSync _ _ _ _ _). exists svc. split; [done|].
  assert (Hother : forall h, h <> g -> round_of svc h = round_of (service n) h) by (intros h Hh; unfold round_of; cbn [svc rounds]; by rewrite lookup_delete_ne).
  assert (Hhere : round_of svc g = ∅) by (unfold round_of; cbn [svc rounds]; by rewrite lookup_delete_eq).
  split.
  - apply (change_ok m s i n); [done|cbn; lia|done|lia| | |by left|right].
    + split; [cbn; lia|by right|]. unfold phase_ok. cbn. lia.
    + intros h p Hp. left. cbn [service] in Hp. destruct (decide (h = g)) as [->|Hh]; [rewrite Hhere in Hp; by apply not_elem_of_empty in Hp|by rewrite <- Hother].
    + intros j Hj. cbn [service svc completed].
      destruct (ok_rounds _ _ Hok i n g (ids !!! j) Hi) as (k & Hk & Hgk).
      * unfold round_of. rewrite Hpeers. apply Hall. by apply list_elem_of_lookup_total_2.
      * rewrite <- (index_unique k j _ Hk Hj eq_refl). lia.
  - intros Hlive. apply (change_live s i n); [done|done|done|by intros ?|cbn; lia| |by left| |cbn; lia].
    + cbn [service]. intros h Hh. cbn in Hh. by rewrite Hother by lia.
    + intros h rest id Hp. by rewrite Hsync in Hp.
Qed.

(** ** The steps of a node alone *)
Abbreviation kept m s i n' := (sync_ok m (change s i n' (in_flight s)) /\ (sync_live s -> sync_live (change s i n' (in_flight s)))).

(** A step that leaves the rounds alone, of a node that is not about to send. *)
Lemma quiet_kept m s i n n' : sync_ok m s -> sync_nodes s !! i = Some n -> quiet n n' ->
  node_state (service n') = None \/ registered i n' -> phase_ok i n' ->
  (registered i n -> registered i n') -> (registered i n -> awake i n -> awake i n') ->
  (phase n' = phase n \/ forall g to_send, phase n = Syncing g to_send -> to_send = []) -> kept m s i n'.
Proof using Type.
  intros Hok Hi [Hr Hg Hc] Hst Hp Hreg Haw Hsend. destruct (ok_nodes _ _ Hok i n Hi) as [Hb _ _]. split.
  - apply (change_ok m s i n); [done|lia|done|lia| | |by left|by left].
    + split; [rewrite Hg, Hc; lia|done|done].
    + intros g p. unfold round_of. rewrite Hr. by left.
  - intros Hlive. pose proof (live_registered _ Hlive i n Hi) as Hr0.
    apply (change_live s i n); [done|done|by apply Hreg|by apply Haw, (live_awake _ Hlive)|lia| |by left| |lia].
    + intros g _. unfold round_of. by rewrite Hr.
    + intros g to_send id Hs Hin. destruct Hsend as [Hsame|Hsend]; [left; exists to_send; by rewrite Hsame|].
      rewrite (Hsend g to_send Hs) in Hin. by apply not_elem_of_nil in Hin.
Qed.

Lemma notify_kept m s i n rest : sync_ok m s -> sync_nodes s !! i = Some n -> kept m s i (mkSyncNode (notify_waiters (service n)) (phase n) rest).
Proof using Type.
  intros Hok Hi. destruct (ok_nodes _ _ Hok i n Hi) as [_ Hst Hph]. unfold phase_ok in Hph.
  apply (quiet_kept m s i n); [done|done|by split|done| |done| |by left].
  - unfold phase_ok. cbn [phase service]. destruct (phase n); [done|done| | |done]; destruct Hph as (? & ? & ? & [b Hb]); (repeat (split; [done|])); exists true; cbn; by rewrite Hb.
  - intros _ _ g Hp. cbn in Hp |- *. left. rewrite Hp in Hph. by destruct Hph as (_ & _ & _ & [b ->]).
Qed.

Lemma register_kept m s i n : sync_ok m s -> sync_nodes s !! i = Some n -> phase n = Idle ->
  kept m s i (mkSyncNode (set_node_state (service n) (state_at i)) Idle (notifying n)).
Proof using Type.
  intros Hok Hi Hidle. destruct (ok_nodes _ _ Hok i n Hi) as [_ Hst Hph]. unfold phase_ok in Hph. rewrite Hidle in Hph.
  apply (quiet_kept m s i n); [done|done|by split|by right|done|done|by intros _ _ g|by left].
Qed.

Lemma enter_early m s i n : sync_ok m s -> sync_nodes s !! i = Some n -> phase n = Idle -> node_state (service n) = None ->
  kept m s i (mkSyncNode (service n) Panicked (notifying n)).
Proof using Type.
  intros Hok Hi Hidle Hst.
  apply (quiet_kept m s i n); [done|done|by split|by left|done|done|by intros _ _ g|right; by rewrite Hidle].
Qed.

Lemma listen_kept m s i n g : sync_ok m s -> sync_nodes s !! i = Some n -> phase n = Syncing g [] ->
  kept m s i (mkSyncNode (enable (service n)) (Listening g) (notifying n)).
Proof using Type.
  intros Hok Hi Hp. destruct (ok_nodes _ _ Hok i n Hi) as [_ Hst Hph]. unfold phase_ok in Hph. rewrite Hp in Hph. destruct Hph as (Hreg & Hc & Hg & _).
  apply (quiet_kept m s i n); [done|done|by split|done| |done|by intros _ _ h|right; intros h to_send Hs; congruence].
  split; [done|]. split; [done|]. by split.
Qed.

(** The future was enabled before the look: what comes after it is not missed. *)
Lemma park_kept m s i n g : sync_ok m s -> sync_nodes s !! i = Some n -> phase n = Listening g ->
  sync_leave (service n) g (nodes_at i) = None -> kept m s i (mkSyncNode (service n) (Waiting g) (notifying n)).
Proof using Type.
  intros Hok Hi Hp Hl. destruct (ok_nodes _ _ Hok i n Hi) as [_ Hst Hph]. unfold phase_ok in Hph. rewrite Hp in Hph.
  apply (quiet_kept m s i n); [done|done|by split|done|done|done| |right; by rewrite Hp].
  intros _ _ h [= <-]. right. by right.
Qed.

Lemma wake_kept m s i n g : sync_ok m s -> sync_nodes s !! i = Some n -> phase n = Waiting g ->
  kept m s i (mkSyncNode (set_sync_notif (service n) None) (Syncing g []) (notifying n)).
Proof using Type.
  intros Hok Hi Hp. destruct (ok_nodes _ _ Hok i n Hi) as [_ Hst Hph]. unfold phase_ok in Hph. rewrite Hp in Hph. destruct Hph as (Hreg & Hc & Hg & _).
  apply (quiet_kept m s i n); [done|done|by split|done| |done|by intros _ _ h|right; by rewrite Hp].
  split; [done|]. split; [done|]. by split.
Qed.

Lemma sync_ok_mono m s : sync_ok m s -> sync_ok (m + 1) s.
Proof using Type. intros [? Hn ? ? ?]. split; [done| |done..]. intros i n Hi. destruct (Hn i n Hi) as [? ? ?]. split; [lia|done..]. Qed.

Lemma kept_mono m s i n' : kept m s i n' -> kept (m + 1) s i n'.
Proof using Type. intros [? ?]. split; [by apply sync_ok_mono|done]. Qed.

Lemma alone_kept m s i n e n' : sync_ok m s -> m < 2 ^ 64 - 1 -> sync_nodes s !! i = Some n -> alone i n e = Some n' -> kept (m + 1) s i n'.
Proof using Hgroup HL.
  intros Hok Hm Hi Hstep. destruct (ok_nodes _ _ Hok i n Hi) as [Hb Hst Hph].
  destruct e as [| | |k|k| | |]; cbn [node_step] in Hstep.
  5: { destruct (notifying n) as [|rest]; [discriminate Hstep|]. injection Hstep as <-. by apply kept_mono, notify_kept. }
  all: unfold phase_ok in Hph; destruct (phase n) as [|g to_send|g|g|] eqn:Hp; try discriminate Hstep.
  - injection Hstep as <-. by apply kept_mono, register_kept.
  - injection Hstep as <-. destruct Hst as [Hnone|Hreg].
    + unfold sync_enter. rewrite Hnone. cbn. by apply kept_mono, enter_early.
    + destruct (enter_ok m s i n Hok Hm Hi Hp Hreg) as (svc & -> & Hkept). exact Hkept.
  - destruct to_send; [|discriminate Hstep]. injection Hstep as <-. by apply kept_mono, listen_kept.
  - destruct Hph as (Hreg & _). rewrite Hreg in Hstep. cbn [mbind option_bind state_of state_nodes] in Hstep.
    destruct (sync_leave (service n) g (nodes_at i)) as [o|] eqn:Hl; injection Hstep as <-; [|by apply kept_mono, park_kept].
    destruct (leave_ok m s i n g o Hok ltac:(lia) Hi Hp Hl) as (svc & -> & Hkept). by apply kept_mono.
  - destruct (sync_notif (service n)) as [[|]|]; [|discriminate Hstep..]. injection Hstep as <-. by apply kept_mono, wake_kept.
Qed.

(** ** Every step keeps the invariants *)

(** What the steps do, in terms of the changes above. *)
Lemma step_inv s e s' : step s e = Some s' ->
  match e with
  | SyncSend i => exists n state gen id address to_send j, sync_nodes s !! i = Some n /\ node_state (service n) = Some state /\
      phase n = Syncing gen ((id, address) :: to_send) /\ directory address = Some j /\
      s' = change s i (mkSyncNode (service n) (Syncing gen to_send) (notifying n)) (in_flight s ++ [(j, mkSyncRequest (state_node_id state) gen)])
  | SyncDeliver k => exists j request n, in_flight s !! k = Some (j, request) /\ sync_nodes s !! j = Some n /\
      let r := handle_sync_connection (service n) request in
      s' = change s j (mkSyncNode r.1 (phase n) (Nat.b2n r.2 + notifying n)) (delete k (in_flight s))
  | SyncRegister i | SyncEnter i | SyncNotify i | SyncListen i | SyncCheck i | SyncWake i => exists n n',
      sync_nodes s !! i = Some n /\ alone i n e = Some n' /\ s' = change s i n' (in_flight s)
  end.
Proof using Type.
  assert (Halone : forall i, (n ← sync_nodes s !! i; n' ← alone i n e; Some (change s i n' (in_flight s))) = Some s' ->
    exists n n', sync_nodes s !! i = Some n /\ alone i n e = Some n' /\ s' = change s i n' (in_flight s)).
  { intros i. destruct (sync_nodes s !! i) as [n|]; [|done]. cbn [mbind option_bind]. destruct (alone i n e) as [n'|] eqn:Hn; [|done].
    intros [= <-]. by exists n, n'. }
  destruct e as [i|i|i|k|i|i|i|i]; cbn [sync_step]; try apply Halone.
  - destruct (sync_nodes s !! i) as [n|]; [|done]. cbn [mbind option_bind]. destruct (node_state (service n)) as [state|] eqn:Hs; [|done].
    cbn [mbind option_bind]. destruct (phase n) as [|gen [|[id address] to_send]| | |] eqn:Hp; [done..| | | |]; [|done..].
    destruct (directory address) as [j|] eqn:Hj; [|done]. cbn [mbind option_bind]. intros [= <-]. by exists n, state, gen, id, address, to_send, j.
  - destruct (in_flight s !! k) as [[j request]|]; [|done]. cbn [mbind option_bind]. destruct (sync_nodes s !! j) as [n|] eqn:Hn; [|done].
    cbn [mbind option_bind]. destruct (handle_sync_connection (service n) request) as [svc notifies] eqn:Hh. intros [= <-].
    exists j, request, n. by rewrite Hh.
Qed.

Lemma sync_step_ok m s e s' : sync_ok m s -> m < 2 ^ 64 - 1 -> step s e = Some s' -> sync_ok (m + 1) s' /\ (sync_live s -> sync_live s').
Proof using Hgroup HL.
  intros Hok Hm Hs. apply step_inv in Hs.
  destruct e as [i|i|i|k|i|i|i|i]; try (destruct Hs as (n & n' & Hn & Ha & ->); by apply (alone_kept m s i n _ n' Hok Hm Hn Ha)).
  - destruct Hs as (n & state & gen & id & address & to_send & j & Hn & Hst & Hp & Hj & ->).
    destruct (ok_state _ _ _ (ok_nodes _ _ Hok i n Hn)) as [Hnone|Hreg]; [by rewrite Hnone in Hst|].
    rewrite Hreg in Hst. injection Hst as <-. destruct (sync_send_ok m s i n gen id address to_send j Hok Hn Hp Hj) as [? ?]. split; [by apply sync_ok_mono|done].
  - destruct Hs as (j & request & n & Hk & Hn & ->). destruct (deliver_ok m s k j request n Hok Hk Hn) as [? ?]. split; [by apply sync_ok_mono|done].
Qed.

Lemma run_app s l k : run s (l ++ k) = t ← run s l; run t k.
Proof using Type.
  unfold sync_run. rewrite foldl_app. destruct (foldl _ (Some s) l) as [t|]; [done|]. cbn. by induction k.
Qed.

Lemma run_ok events : forall m s s', sync_ok m s -> m + Zlen events < 2 ^ 64 -> run s events = Some s' ->
  sync_ok (m + Zlen events) s' /\ (sync_live s -> sync_live s').
Proof using Hgroup HL.
  induction events as [|e events IH] using rev_ind; intros m s s' Hok Hm Hrun.
  - injection Hrun as <-. unfold Zlen. cbn. by rewrite Z.add_0_r.
  - unfold Zlen in *. rewrite length_app in *. cbn [length] in *. rewrite run_app in Hrun.
    destruct (run s events) as [t|] eqn:Ht; [|done]. cbn in Hrun.
    destruct (IH m s t) as [Hok' Hlive]; [done|lia|done|].
    destruct (sync_step_ok (m + Z.of_nat (length events)) t e s') as [Hok'' Hlive']; [done|lia|done|].
    replace (m + Z.of_nat (length events + 1)) with (m + Z.of_nat (length events) + 1) by lia. split; [done|]. intros. by apply Hlive', Hlive.
Qed.

(** ** Safety *)

(** C32: In every schedule of the nodes of a group, with messages delivered in any order, no node has left more barriers than any other node has entered: a node leaves its k-th barrier only after all nodes have entered theirs. *)
Theorem barrier_separates events s i j ni nj : Zlen events < 2 ^ 64 ->
  run (sync_initial ids) events = Some s -> sync_nodes s !! i = Some ni -> sync_nodes s !! j = Some nj ->
  completed (service ni) <= generation (service nj).
Proof using Hgroup HL.
  intros Hlen Hrun Hi Hj. destruct (run_ok events 0 _ s initial_ok Hlen Hrun) as [Hok _].
  rewrite <- (completed_of_eq s i ni Hi), <- (gen_of_eq s j nj Hj). apply (ok_before _ _ Hok); [exact (node_index s _ i ni Hok Hi)|exact (node_index s _ j nj Hok Hj)].
Qed.

(** ** Liveness *)

(** The two calls that come from outside. *)
Definition is_call (e : SyncEvent) : bool := match e with SyncRegister _ | SyncEnter _ => true | _ => false end.
Definition is_enter (e : SyncEvent) : bool := if e is SyncEnter _ then true else false.

(** A bound on the steps to come: a message that is sent arrives, its task notifies, and a node that is notified wakes, listens and looks. *)
Definition phase_work (p : SyncPhase) : nat :=
  match p with Idle | Waiting _ | Panicked => 0 | Listening _ => 1 | Syncing _ to_send => 6 * length to_send + 2 end.
Definition notif_work (notif : option bool) : nat := if notif is Some true then 3 else 0.
Definition node_work n : nat :=
  (phase_work (phase n) + notif_work (sync_notif (service n)) + 4 * notifying n)%nat.
Definition work s : nat := sum_list (map node_work (sync_nodes s)) + 5 * length (in_flight s).

Lemma change_work s i n n0 messages : sync_nodes s !! i = Some n0 ->
  (work (change s i n messages) + node_work n0 + 5 * length (in_flight s) = work s + node_work n + 5 * length messages)%nat.
Proof using Type.
  unfold work, change. cbn [sync_nodes in_flight]. generalize (sync_nodes s). intros l. revert i.
  induction l as [|x l IH]; intros [|i] Hi; [done..| |].
  - injection Hi as ->. cbn -[Nat.mul node_work]. lia.
  - specialize (IH i Hi). change (<[S i := n]> (x :: l)) with (x :: <[i := n]> l). cbn -[Nat.mul node_work insert] in IH |- *. lia.
Qed.

Lemma alone_work i n e n' : is_call e = false -> alone i n e = Some n' ->
  (node_work n' < node_work n)%nat /\ generation (service n') = generation (service n).
Proof using Type.
  intros He Hs. destruct e as [| | |k|k| | |]; [done|done| | | | | |]; cbn [node_step] in Hs; unfold node_work.
  3: { destruct (notifying n) as [|rest] eqn:Hnot; [done|]. injection Hs as <-. cbn [service phase notifying notify_waiters set_sync_notif sync_notif].
       split; [|done]. destruct (sync_notif (service n)) as [[|]|]; cbn -[Nat.mul]; lia. }
  all: destruct (phase n) as [|g [|]|g|g|]; try discriminate Hs.
  - injection Hs as <-. split; [|done]. cbn -[Nat.mul]. lia.
  - destruct (node_state (service n)) as [state|]; [|done]. cbn [mbind option_bind] in Hs. destruct (sync_leave _ _ _) as [o|] eqn:Hl; injection Hs as <-.
    + assert (Hnone : forall svc, o = Ok svc -> sync_notif svc = None /\ generation svc = generation (service n)).
      { intros svc ->. unfold sync_leave in Hl. destruct (rounds (service n) !! g); [|done]. destruct (_ && _); [|done].
        destruct (arith 64 (g + 1)) as [next| |]; [|done..]. by injection Hl as <-. }
      destruct o as [svc| |]; [|cbn -[Nat.mul]; split; [lia|done]..]. destruct (Hnone svc eq_refl) as [Hn Hg].
      split; [|done]. cbn -[Nat.mul]. rewrite Hn. cbn -[Nat.mul]. lia.
    + cbn -[Nat.mul]. split; [lia|done].
  - destruct (sync_notif (service n)) as [[|]|] eqn:Hn; [|done..]. injection Hs as <-. split; [|done]. cbn -[Nat.mul]. lia.
Qed.

Lemma step_work s e s' : is_call e = false -> step s e = Some s' -> (work s' < work s)%nat.
Proof using Type.
  intros He Hs. apply step_inv in Hs.
  destruct e as [i|i|i|k|i|i|i|i]; try (destruct Hs as (n & n' & Hn & Ha & ->); destruct (alone_work i n _ n' He Ha) as [Hw _];
    pose proof (change_work s i n' n (in_flight s) Hn); lia).
  - destruct Hs as (n & state & gen & id & address & to_send & j & Hn & Hst & Hp & Hj & ->).
    match goal with |- context [change s i ?n' ?ms] => pose proof (change_work s i n' n ms Hn) as Hw end.
    unfold node_work in Hw. rewrite Hp, length_app in Hw. cbn [service phase notifying phase_work length] in Hw. lia.
  - destruct Hs as (j & request & n & Hk & Hn & ->). destruct (handle_heard (service n) request) as [_ _ _ Hnotif _ _ _].
    match goal with |- context [change s j ?n' ?ms] => pose proof (change_work s j n' n ms Hn) as Hw end.
    unfold node_work in Hw. cbn [service phase notifying] in Hw. rewrite Hnotif, length_delete in Hw by done. pose proof (lookup_lt_Some _ _ _ Hk).
    destruct (handle_sync_connection (service n) request).2; cbn [Nat.b2n] in *; lia.
Qed.

(** Only entering takes a generation. *)
Lemma step_gen s e s' j : is_enter e = false -> step s e = Some s' -> gen_of s' j = gen_of s j.
Proof using Type.
  intros He Hs. apply step_inv in Hs.
  assert (Hsame : forall i n n' messages, sync_nodes s !! i = Some n -> generation (service n') = generation (service n) ->
    gen_of (change s i n' messages) j = gen_of s j).
  { intros i n n' messages Hi Hg. rewrite (change_gen s i n) by done. case_decide as Hj; [subst j; by rewrite (gen_of_eq s i n Hi)|done]. }
  destruct e as [i|i|i|k|i|i|i|i]; try discriminate He.
  2: { destruct Hs as (n & state & gen & id & address & to_send & k & Hn & _ & _ & _ & ->). by apply (Hsame i n). }
  2: { destruct Hs as (i & request & n & Hk & Hn & ->). apply (Hsame i n); [done|]. exact (heard_generation _ _ _ _ _ (handle_heard (service n) request)). }
  all: destruct Hs as (n & n' & Hn & Ha & ->); apply (Hsame i n); [done|].
  - cbn [node_step] in Ha. destruct (phase n); try discriminate Ha. by injection Ha as <-.
  - by apply (alone_work i n (SyncNotify i)).
  - by apply (alone_work i n (SyncListen i)).
  - by apply (alone_work i n (SyncCheck i)).
  - by apply (alone_work i n (SyncWake i)).
Qed.

Lemma run_gen more j : forall s t, Forall (fun e => is_enter e = false) more -> run s more = Some t -> gen_of t j = gen_of s j.
Proof using Type.
  induction more as [|e more IH] using rev_ind; intros s t Hall Hrun; [by injection Hrun as <-|].
  apply Forall_app in Hall as [Hall [He _]%Forall_cons]. rewrite run_app in Hrun. destruct (run s more) as [u|] eqn:Hu; [|done].
  cbn in Hrun. by rewrite (step_gen u e t j He Hrun), (IH s u).
Qed.

Lemma run_work more : forall s t, Forall (fun e => is_call e = false) more -> run s more = Some t -> (length more + work t <= work s)%nat.
Proof using Type.
  induction more as [|e more IH] using rev_ind; intros s t Hall Hrun; [injection Hrun as <-; cbn; lia|].
  apply Forall_app in Hall as [Hall [He _]%Forall_cons]. rewrite run_app in Hrun. destruct (run s more) as [u|] eqn:Hu; [|done].
  cbn in Hrun. pose proof (IH s u Hall Hu). pose proof (step_work u e t He Hrun). rewrite length_app. cbn [length]. lia.
Qed.

(** Nobody has entered, and all are registered. *)
Lemma registered_live m s : sync_ok m s -> (forall i, gen_of s i = 0) -> (forall i n, sync_nodes s !! i = Some n -> node_state (service n) <> None) -> sync_live s.
Proof using Type.
  intros Hok Hgen Hreg. split.
  - intros i n Hi. destruct (ok_state _ _ _ (ok_nodes _ _ Hok i n Hi)) as [Hnone|]; [by destruct (Hreg i n Hi)|done].
  - intros i n Hi g Hp. destruct (ok_nodes _ _ Hok i n Hi) as [Hb _ Hph]. unfold phase_ok in Hph. rewrite Hp in Hph.
    pose proof (Hgen i) as H0. rewrite (gen_of_eq s i n Hi) in H0. lia.
  - intros i j g _ Hj Hg. rewrite Hgen in Hg. destruct (lookup_lt_is_Some_2 (sync_nodes s) j) as [n Hn]; [by rewrite (ok_length _ _ Hok)|].
    rewrite (completed_of_eq s j n Hn) in Hg. destruct (ok_nodes _ _ Hok j n Hn) as [Hb _ _]. lia.
Qed.

(** A round of which the node has heard from all is full. *)
Lemma round_full m s i n g : sync_ok m s -> sync_nodes s !! i = Some n -> (forall id, id ∈ ids -> id ∈ round_of (service n) g) ->
  sync_leave (service n) g (nodes_at i) <> None.
Proof using Hgroup HL.
  intros Hok Hi Hround. pose proof (node_index s m i n Hok Hi) as Hil. unfold sync_leave. unfold round_of in Hround.
  destruct (rounds (service n) !! g) as [peers|] eqn:Hpeers.
  2:{ pose proof (Hround _ (list_elem_of_lookup_total_2 ids i Hil)) as Hno. by apply not_elem_of_empty in Hno. }
  cbn in Hround. assert (Hkeys : keys (nodes_at i) ≡ₚ ids) by (apply (keys_group directory); destruct Hgroup; by split).
  assert (Hsize : base.size peers = length ids).
  { assert (peers = list_to_set ids) as ->; [|apply size_list_to_set, (group_nodup _ _ _ Hgroup)]. apply set_eq. intros id. rewrite elem_of_list_to_set.
    split; [|apply Hround]. intros Hin. destruct (ok_rounds _ _ Hok i n g id Hi) as (k & Hk & _); [unfold round_of; by rewrite Hpeers|]. by eapply list_elem_of_lookup_2. }
  assert (Hcount : size (nodes_at i) = length ids) by (rewrite <- (Permutation_length Hkeys); unfold size, keys; by rewrite length_map).
  rewrite Hsize, Hcount, Nat.eqb_refl. cbn [andb].
  assert (forallb (fun id => bool_decide (id ∈ peers)) (keys (nodes_at i)) = true) as ->; [|done].
  apply forallb_forall. intros id Hid%list_elem_of_In. apply bool_decide_eq_true_2, Hround. by rewrite <- Hkeys.
Qed.

Section stuck.
Context (m : Z) (s : SyncSystem) (Hok : sync_ok m s) (Hlive : sync_live s) (Hstuck : forall e, is_call e = false -> step s e = None).

Lemma stuck_alone i n e : sync_nodes s !! i = Some n -> is_call e = false ->
  match e with SyncNotify j | SyncListen j | SyncCheck j | SyncWake j => j = i | _ => False end -> alone i n e = None.
Proof using Hstuck.
  intros Hi He Hj. pose proof (Hstuck e He) as Hs. destruct e; try done; subst; cbn [sync_step] in Hs; rewrite Hi in Hs;
    cbn [mbind option_bind] in Hs; by destruct (alone i n _).
Qed.

(** Nothing is to be sent, is under way, or is to be notified, and a node in the barrier waits, with no notification. *)
Lemma stuck_flight : in_flight s = [].
Proof using Hok Hstuck.
  destruct (in_flight s) as [|[j request] l] eqn:Hf; [done|]. exfalso. pose proof (Hstuck (SyncDeliver 0) eq_refl) as Hs. cbn in Hs. rewrite Hf in Hs. cbn in Hs.
  destruct (ok_messages _ _ Hok j request) as [Hj _]; [rewrite Hf; by left|].
  destruct (lookup_lt_is_Some_2 (sync_nodes s) j) as [n Hn]; [by rewrite (ok_length _ _ Hok)|].
  rewrite Hn in Hs. cbn in Hs. by destruct (handle_sync_connection _ _).
Qed.

Lemma stuck_phase i n : sync_nodes s !! i = Some n ->
  phase n = Idle \/ exists g, phase n = Waiting g /\ notifying n = O /\ sync_notif (service n) <> Some true.
Proof using Hok Hlive Hstuck Hgroup.
  intros Hi. pose proof (live_registered _ Hlive i n Hi) as Hreg. destruct (ok_nodes _ _ Hok i n Hi) as [_ _ Hph]. unfold phase_ok in Hph.
  assert (Hnot : notifying n = O).
  { pose proof (stuck_alone i n (SyncNotify i) Hi eq_refl eq_refl) as Hs. cbn in Hs. by destruct (notifying n). }
  destruct (phase n) as [|g [|[id address] to_send]|g|g|] eqn:Hp; [by left| | | | |].
  - pose proof (stuck_alone i n (SyncListen i) Hi eq_refl eq_refl) as Hs. cbn in Hs. by rewrite Hp in Hs.
  - pose proof (Hstuck (SyncSend i) eq_refl) as Hs. cbn in Hs. rewrite Hi in Hs. cbn in Hs. rewrite Hreg in Hs. cbn in Hs. rewrite Hp in Hs.
    destruct Hph as (_ & _ & _ & Hto). apply Forall_cons in Hto as [[_ Ha] _]. cbn in Ha.
    assert (Hin : id ∈ ids) by (apply (group_ids _ _ _ Hgroup); by exists address). apply list_elem_of_lookup in Hin as [k Hk].
    by rewrite (group_listens _ _ _ Hgroup k id address Hk Ha) in Hs.
  - pose proof (stuck_alone i n (SyncCheck i) Hi eq_refl eq_refl) as Hs. cbn in Hs. rewrite Hp, Hreg in Hs. done.
  - right. exists g. split; [done|]. split; [done|]. intros Hn. pose proof (stuck_alone i n (SyncWake i) Hi eq_refl eq_refl) as Hs. cbn in Hs. by rewrite Hp, Hn in Hs.
  - by rewrite Hreg in Hph.
Qed.

(** When only calls are left, all have left: nobody waits for a message that does not come, or in a full round. *)
Lemma stuck_idle g : (forall i, (i < length ids)%nat -> gen_of s i = g) ->
  forall i n, sync_nodes s !! i = Some n -> phase n = Idle /\ completed (service n) = g.
Proof using Hok Hlive Hstuck Hgroup HL.
  intros Hgen i n Hi. pose proof (node_index s m i n Hok Hi) as Hil. destruct (ok_nodes _ _ Hok i n Hi) as [_ _ Hph].
  pose proof (Hgen i Hil) as Hgi. rewrite (gen_of_eq s i n Hi) in Hgi. unfold phase_ok in Hph.
  destruct (stuck_phase i n Hi) as [Hp|(h & Hp & Hnot & Hnotif)]; rewrite Hp in Hph; [split; [done|lia]|]. exfalso. destruct Hph as (_ & Hc & Hg & _).
  destruct (live_awake _ Hlive i n Hi h Hp) as [?|[?|Hleave]]; [done|lia|]. revert Hleave. apply (round_full m s); [done|done|].
  intros id [j Hj]%list_elem_of_lookup. assert (Hjl : (j < length ids)%nat) by by eapply lookup_lt_Some.
  assert (Hid : ids !!! j = id) by by apply list_lookup_total_correct.
  destruct (live_reaches _ Hlive j i h Hjl Hil) as [(n' & Hn' & Hin) | [Hin | (nj & rest & Hnj & Hpj & Hin)]].
  - rewrite (completed_of_eq s i n Hi), Hgen by done. lia.
  - rewrite Hid in Hin. by assert (n' = n) as -> by congruence.
  - rewrite stuck_flight in Hin. by apply not_elem_of_nil in Hin.
  - destruct (stuck_phase j nj Hnj) as [?|(? & ? & _)]; congruence.
Qed.
End stuck.

(** C22: When all nodes are registered before the first of them enters, and all have entered the same barrier, then every schedule of the remaining steps (sends, deliveries, notifications, and the looks and wake-ups of the loop that waits) ends, after a bounded number of steps, and when none of these is possible any more every node has left the barrier: no message and no wake-up is lost, whatever arrived early, and nobody waits forever. *)
Theorem barrier_releases registering s0 events s g more t : Zlen registering + Zlen events + Zlen more < 2 ^ 64 ->
  run (sync_initial ids) registering = Some s0 -> Forall (fun e => is_enter e = false) registering ->
  (forall i n, sync_nodes s0 !! i = Some n -> node_state (service n) <> None) ->
  run s0 events = Some s -> (forall i n, sync_nodes s !! i = Some n -> generation (service n) = g) ->
  Forall (fun e => is_call e = false) more -> run s more = Some t ->
  (length more <= work s)%nat /\
  ((forall e, is_call e = false -> step t e = None) ->
   forall i n, sync_nodes t !! i = Some n -> phase n = Idle /\ completed (service n) = g).
Proof using Hgroup HL.
  intros Hlen Hrun0 Hnone Hreg Hrun Hg Hmore Ht. pose proof (run_work more s t Hmore Ht) as Hw. split; [lia|]. intros Hstuck. unfold Zlen in *.
  destruct (run_ok registering 0 _ s0 initial_ok) as [Hok0 _]; [unfold Zlen; lia|done|]. unfold Zlen in Hok0.
  assert (Hlive0 : sync_live s0).
  { apply (registered_live _ s0 Hok0); [|done]. intros i. rewrite (run_gen registering i _ s0 Hnone Hrun0).
    unfold gen_of. cbn. rewrite list_lookup_fmap. by destruct (ids !! i). }
  destruct (run_ok events _ s0 s Hok0) as [Hok Hlive]; [unfold Zlen; lia|done|].
  destruct (run_ok more _ s t Hok) as [Hok' Hlive']; [unfold Zlen; lia|done|].
  apply (stuck_idle _ t Hok'); [by apply Hlive', Hlive|done|]. intros i Hi. rewrite (run_gen more i s t); [| |done].
  - destruct (lookup_lt_is_Some_2 (sync_nodes s) i) as [n Hn]; [by rewrite (ok_length _ _ Hok)|]. rewrite (gen_of_eq s i n Hn). by apply (Hg i).
  - eapply Forall_impl; [exact Hmore|]. by intros [].
Qed.

(** Nothing is left but calls: a test on the state. *)
Definition at_rest n : bool :=
  match phase n with Idle => true | Waiting _ => negb (bool_decide (sync_notif (service n) = Some true)) | _ => false end && (notifying n =? 0)%nat.

Lemma rest_stuck s : in_flight s = [] -> forallb at_rest (sync_nodes s) = true -> forall e, is_call e = false -> step s e = None.
Proof using Type.
  intros Hf Hall e He. destruct (step s e) as [s'|] eqn:Hs; [|done]. exfalso. apply step_inv in Hs.
  assert (Hrest : forall i n, sync_nodes s !! i = Some n -> at_rest n = true).
  { intros i n Hi. rewrite forallb_forall in Hall. apply Hall, list_elem_of_In. by eapply list_elem_of_lookup_2. }
  assert (Halone : forall i n n', sync_nodes s !! i = Some n -> alone i n e <> Some n').
  { intros i n n' Hi Ha. destruct (andb_prop _ _ (Hrest i n Hi)) as [Hp Hn%Nat.eqb_eq].
    destruct e; try discriminate He; cbn [node_step] in Ha; rewrite ?Hn in Ha; try discriminate Ha;
      destruct (phase n) as [|g [|]|g|g|]; try discriminate Ha; try discriminate Hp.
    destruct (sync_notif (service n)) as [[|]|]; try discriminate Ha. by rewrite bool_decide_eq_true_2 in Hp. }
  destruct e as [i|i|i|k|i|i|i|i]; try (destruct Hs as (n & n' & Hi & Ha & _); by apply (Halone i n n' Hi)).
  - destruct Hs as (n & state & gen & id & address & to_send & j & Hi & _ & Hp & _). pose proof (Hrest i n Hi) as Hr. unfold at_rest in Hr. by rewrite Hp in Hr.
  - destruct Hs as (j & request & n & Hk & _). by rewrite Hf in Hk.
Qed.
End sync.

(** ** Instances *)
Definition three_ids : list NodeId := [0; 1; 2]%nat.
Abbreviation three_run := (sync_run three_ids three_addresses 3 (fun i => i) (three_listen three_ids)).
Abbreviation three_step := (sync_step three_ids three_addresses 3 (fun i => i) (three_listen three_ids)).

(** Node 2 is slow; the others have told each other and it, and node 0 waits. *)
Definition all_registered : list SyncEvent := [SyncRegister 1; SyncRegister 0; SyncRegister 2].
Definition two_entered : list SyncEvent :=
  [SyncEnter 0; SyncSend 0; SyncEnter 1; SyncSend 1; SyncSend 0; SyncSend 1; SyncListen 0; SyncCheck 0; SyncDeliver 3; SyncNotify 0; SyncDeliver 0].
Definition all_entered : list SyncEvent := two_entered ++ [SyncWake 0; SyncEnter 2].

(** Node 0 looks before the messages of node 2 are in, waits, and is woken. *)
Definition all_leaving : list SyncEvent :=
  [SyncListen 0; SyncCheck 0; SyncSend 2; SyncSend 2; SyncDeliver 2; SyncDeliver 2; SyncNotify 0; SyncWake 0; SyncListen 0; SyncCheck 0;
   SyncDeliver 0; SyncDeliver 0; SyncNotify 2; SyncNotify 2; SyncListen 2; SyncCheck 2; SyncNotify 1; SyncNotify 1; SyncListen 1; SyncCheck 1].

Lemma three_synced : group_of (three_listen three_ids) three_ids (mkMap 0 three_addresses).
Proof. by apply three_group. Qed.

Definition state_after (events : list SyncEvent) : SyncSystem := default (sync_initial three_ids) (three_run (sync_initial three_ids) events).
Definition node_at (s : SyncSystem) (i : nat) : SyncNode := default (mkSyncNode (sync_new None) Idle 0) (sync_nodes s !! i).
Definition leaving_end : SyncSystem := state_after (all_registered ++ all_entered ++ all_leaving).

(** Of the nodes of a state, all have what [b] says. *)
Lemma three_nodes (P : SyncNode -> Prop) (b : SyncNode -> bool) s : (forall n, b n = true -> P n) -> forallb b (sync_nodes s) = true ->
  forall i n, sync_nodes s !! i = Some n -> P n.
Proof. intros Hb Hall i n Hi. apply Hb. rewrite forallb_forall in Hall. apply Hall, list_elem_of_In. by eapply list_elem_of_lookup_2. Qed.

Lemma barrier_separates_witness :
  exists s ni nj, three_run (sync_initial three_ids) (all_registered ++ all_entered ++ all_leaving ++ [SyncEnter 0]) = Some s /\
    sync_nodes s !! 0%nat = Some ni /\ sync_nodes s !! 1%nat = Some nj /\ generation (service ni) = 2 /\ generation (service nj) = 1 /\
    completed (service ni) <= generation (service nj).
Proof.
  set (s := state_after (all_registered ++ all_entered ++ all_leaving ++ [SyncEnter 0])).
  exists s, (node_at s 0), (node_at s 1).
  assert (Hs : three_run (sync_initial three_ids) (all_registered ++ all_entered ++ all_leaving ++ [SyncEnter 0]) = Some s) by by vm_compute.
  assert (Hi : sync_nodes s !! 0%nat = Some (node_at s 0)) by by vm_compute.
  assert (Hj : sync_nodes s !! 1%nat = Some (node_at s 1)) by by vm_compute.
  split; [exact Hs|]. split; [exact Hi|]. split; [exact Hj|]. split; [by vm_compute|]. split; [by vm_compute|].
  exact (barrier_separates three_ids three_addresses 3 (fun i => i) (three_listen three_ids) three_synced
    (all_registered ++ all_entered ++ all_leaving ++ [SyncEnter 0]) s 0 1 _ _ eq_refl Hs Hi Hj).
Defined.

Lemma leaving_runs :
  three_run (sync_initial three_ids) all_registered = Some (state_after all_registered) /\
  three_run (state_after all_registered) all_entered = Some (state_after (all_registered ++ all_entered)) /\
  three_run (state_after (all_registered ++ all_entered)) all_leaving = Some leaving_end.
Proof. by vm_compute. Qed.

Lemma barrier_releases_witness :
  (length all_leaving <= work (state_after (all_registered ++ all_entered)))%nat /\
  forall i n, sync_nodes leaving_end !! i = Some n -> phase n = Idle /\ completed (service n) = 1.
Proof.
  destruct leaving_runs as (Hs0 & Hs & Ht).
  destruct (barrier_releases three_ids three_addresses 3 (fun i => i) (three_listen three_ids) three_synced
    all_registered (state_after all_registered) all_entered (state_after (all_registered ++ all_entered)) 1 all_leaving leaving_end) as [Hw Hend].
  - done.
  - exact Hs0.
  - by repeat constructor.
  - apply (three_nodes _ (fun n => if node_state (service n) is Some _ then true else false)); [intros n; by destruct (node_state (service n))|by vm_compute].
  - exact Hs.
  - apply (three_nodes _ (fun n => generation (service n) =? 1)); [by intros n ?%Z.eqb_eq|by vm_compute].
  - by repeat constructor.
  - exact Ht.
  - split; [exact Hw|apply Hend, rest_stuck; by vm_compute].
Defined.

(** Node 0 enters before node 2 is registered, and its message to node 2 arrives before too: then it is dropped, the other two leave, and node 2 waits for good. *)
Definition early_messages : list SyncEvent :=
  [SyncRegister 0; SyncRegister 1; SyncEnter 0; SyncSend 0; SyncSend 0; SyncDeliver 0; SyncDeliver 0; SyncRegister 2; SyncEnter 1; SyncEnter 2;
   SyncSend 1; SyncSend 1; SyncSend 2; SyncSend 2; SyncDeliver 0; SyncDeliver 0; SyncDeliver 0; SyncDeliver 0;
   SyncNotify 0; SyncNotify 0; SyncNotify 1; SyncNotify 1; SyncNotify 2;
   SyncListen 0; SyncListen 1; SyncListen 2; SyncCheck 0; SyncCheck 1; SyncCheck 2].

Lemma early_message_dropped : let t := state_after early_messages in
  three_run (sync_initial three_ids) early_messages = Some t /\
  map phase (sync_nodes t) = [Idle; Idle; Waiting 0] /\ forall e, is_call e = false -> three_step t e = None.
Proof. cbv zeta. split; [by vm_compute|]. split; [by vm_compute|]. apply rest_stuck; by vm_compute. Qed.
