(* ===== verification/GlobalWorker.v ===== *)
(** * The control connection of a node: src/src/global/policy.rs, node/worker.rs

    The bounds of the failure policy, the attempts to connect, and the worker that
    sends the requests of a node to the orchestrator and gives each response to
    the request it answers.  The worker starts with [worker_new], before it is
    connected.  [handle.abort()], with which a caller stops the task from outside,
    is no event of it. *)
From stdpp Require Import strings.
From S2P Require Import Prelude FloatBackend CollectiveConfig VectorBackend TopologyText Orchestrator.

(** ** The policy

    Durations are nanoseconds, at most what [Duration] holds. *)
Definition DURATION_MAX : Z := 2 ^ 64 * 1000000000 - 1.
Definition from_millis (ms : Z) : Z := ms * 1000000.
Definition from_secs (s : Z) : Z := s * 1000000000.
Definition as_millis (d : Z) : Z := d / 1000000.

Record GlobalFailurePolicy := mkPolicy {
  connect_attempts : Z;
  connect_timeout : Z;
  retry_backoff : Z;
  request_timeout : Z;
  collective_timeout : Z;
}.

Definition policy_default : GlobalFailurePolicy :=
  mkPolicy 5 (from_secs 5) (from_millis 100) (from_secs 30) (from_secs 300).

Definition policy_number (env : environment) (name : string) (default : Z) : outcome string Z :=
  match env name with
  | Present value => ok_or (parse_unsigned 64 value) (name +:+ " must be a positive integer")%string
  | NotPresent => Ok default
  | NotUnicode _ => Err (name +:+ " must be Unicode")%string
  end.

Definition policy_duration (env : environment) (name : string) (default : Z) : outcome string Z :=
  value ← policy_number env name (wrap 64 (as_millis default));
  _ ← fail_if ((value =? 0) || (86400000 <? value)) (name +:+ " must be 1..86400000 ms")%string;
  Ok (from_millis value).

Definition policy_from_environment (env : environment) : outcome string GlobalFailurePolicy :=
  let defaults := policy_default in
  attempts ← policy_number env "RUCCL_CONNECT_ATTEMPTS" (connect_attempts defaults);
  _ ← fail_if (negb ((1 <=? attempts) && (attempts <=? 64))) "RUCCL_CONNECT_ATTEMPTS must be 1..64"%string;
  connect_timeout ← policy_duration env "RUCCL_CONNECT_TIMEOUT_MS" (connect_timeout defaults);
  retry_backoff ← policy_duration env "RUCCL_RETRY_BACKOFF_MS" (retry_backoff defaults);
  request_timeout ← policy_duration env "RUCCL_REQUEST_TIMEOUT_MS" (request_timeout defaults);
  collective_timeout ← policy_duration env "RUCCL_COLLECTIVE_TIMEOUT_MS" (collective_timeout defaults);
  Ok (mkPolicy (wrap 32 attempts) connect_timeout retry_backoff request_timeout collective_timeout).

Definition backoff (p : GlobalFailurePolicy) (attempt : Z) : Z :=
  Z.min (Z.min (retry_backoff p * wrap 32 (Z.shiftl 1 (Z.min attempt 16))) DURATION_MAX) (from_secs 5).

(** ** Connecting

    What comes of one attempt, and of the handshake on its stream. *)
Inductive Handshake := InitCancelled | InitInvalid | InitTimeout | InitFailed (error : string) | InitSent.
Inductive Attempt := AttemptCancelled | AttemptRefused | AttemptTimeout | AttemptStream (handshake : Handshake).

Section connect.
Context (p : GlobalFailurePolicy) (attempts : Z -> Attempt) (cancelled_while_waiting : Z -> bool).

(** What the attempts from [attempt] on do: the result, and how long each wait was. *)
Fixpoint connect_from (fuel : nat) (attempt : Z) : outcome GlobalCollectiveError Z * list Z :=
  match fuel with
  | O => (Err OrchestratorUnreachable, [])
  | S fuel =>
      match attempts attempt with
      | AttemptCancelled => (Err CommunicatorAborted, [])
      | AttemptStream InitInvalid => (Err InvalidMessage, [])
      | AttemptStream InitCancelled => (Err CommunicatorAborted, [])
      | AttemptStream InitTimeout => (Err OperationTimeout, [])
      | AttemptStream (InitFailed error) => (Err (Server error), [])
      | AttemptStream InitSent => (Ok attempt, [])
      | AttemptRefused | AttemptTimeout =>
          if attempt + 1 <? connect_attempts p then
            if cancelled_while_waiting attempt then (Err CommunicatorAborted, [])
            else let '(r, waits) := connect_from fuel (attempt + 1) in (r, backoff p attempt :: waits)
          else connect_from fuel (attempt + 1)
      end
  end.

Definition connect : outcome GlobalCollectiveError Z * list Z := connect_from (Z.to_nat (connect_attempts p)) 0.
End connect.

(** ** The worker

    [answers] is what the callbacks have been sent, [sent] what has gone to the
    orchestrator, [abandoned] the callbacks whose caller had gone. *)
Section worker.
Context {ET : ElementTypes} {N : Network} `{HashOrder}.

Record ClientRequest := mkClientRequest { client_request : RemoteRequest; callback : nat }.

Record Worker := mkWorker {
  connected : bool;
  requests : list ClientRequest;
  pending : gmap RequestId nat;
  request_counter : Z;
  sent : list (RequestId * RemoteRequest);
  answers : list (nat * RemoteResponse);
  abandoned : list nat;
  ended : option (outcome GlobalCollectiveError unit);
}.

Definition worker_new : Worker := mkWorker false [] ∅ 0 [] [] [] None.

Inductive Sending := SendOk | SendTimeout | SendFailed (error : string) | SendInvalid.
Inductive Packet := PacketFailed (error : string) | PacketEnd | PacketInvalid | PacketResponse (response : CollectiveMessageResponse).

(** [WorkerElsewhere] is a request identifier that another part of the process takes.  [WorkerConnect] is the end of
    both calls of [connect]: the streams, or the first error. *)
Inductive WorkerEvent :=
  | WorkerConnect (result : outcome GlobalCollectiveError unit)
  | WorkerQueue (request : ClientRequest)
  | WorkerElsewhere
  | WorkerCancelled
  | WorkerClosed
  | WorkerRequest (closed : bool) (sending : Sending)
  | WorkerPacket (packet : Packet).

(** After the loop: everybody who waits or would wait is told. *)
Definition worker_end (h : nat) (w : Worker) (result : outcome GlobalCollectiveError unit) : Worker :=
  let error := match result with Err error => error | _ => CommunicatorAborted end in
  mkWorker (connected w) [] ∅ (request_counter w) (sent w)
    (answers w ++ map (fun e => (e.2, ResponseError error)) (iterate h (pending w)) ++
      map (fun r => (callback r, ResponseError error)) (requests w))
    (abandoned w) (Some result).

Definition worker_step (h : nat) (w : Worker) (e : WorkerEvent) : option Worker :=
  match ended w, e with
  | Some _, _ => None
  | None, WorkerConnect result =>
      if connected w then None
      else match result with
           | Ok _ => Some (mkWorker true (requests w) (pending w) (request_counter w) (sent w) (answers w) (abandoned w) None)
           | _ => Some (worker_end h w result)
           end
  | None, WorkerQueue request =>
      Some (mkWorker (connected w) (requests w ++ [request]) (pending w) (request_counter w) (sent w) (answers w) (abandoned w) None)
  | None, WorkerElsewhere =>
      Some (mkWorker (connected w) (requests w) (pending w) (wrap 32 (request_counter w + 1)) (sent w) (answers w) (abandoned w) None)
  | None, WorkerCancelled => Some (worker_end h w (Err CommunicatorAborted))
  | None, WorkerClosed => if connected w && (length (requests w) =? 0)%nat then Some (worker_end h w (Ok tt)) else None
  | None, WorkerRequest closed sending =>
      match requests w with
      | [] => None
      | request :: rest =>
          if negb (connected w) then None
          else if closed then Some (mkWorker (connected w) rest (pending w) (request_counter w) (sent w) (answers w) (callback request :: abandoned w) None)
          else
            let id := Z.to_nat (request_counter w) in
            let w := mkWorker (connected w) rest (<[id := callback request]> (pending w)) (wrap 32 (request_counter w + 1)) (sent w) (answers w) (abandoned w) None in
            match sending with
            | SendOk => Some (mkWorker (connected w) (requests w) (pending w) (request_counter w) (sent w ++ [(id, client_request request)]) (answers w) (abandoned w) None)
            | SendTimeout => Some (worker_end h w (Err OperationTimeout))
            | SendFailed error => Some (worker_end h w (Err (Server error)))
            | SendInvalid => Some (worker_end h w (Err InvalidMessage))
            end
      end
  | None, WorkerPacket packet =>
      if negb (connected w) then None
      else match packet with
      | PacketFailed error => Some (worker_end h w (Err (Server error)))
      | PacketEnd => Some (worker_end h w (Err CommunicatorAborted))
      | PacketInvalid => Some (worker_end h w (Err InvalidMessage))
      | PacketResponse response =>
          match pending w !! response_request response with
          | Some cb => Some (mkWorker (connected w) (requests w) (delete (response_request response) (pending w)) (request_counter w) (sent w)
                               (answers w ++ [(cb, response_content response)]) (abandoned w) None)
          | None => Some (worker_end h w (Err WrongOrchestratorResponse))
          end
      end
  end.

Definition worker_run (h : nat) (w : Worker) (events : list WorkerEvent) : option Worker :=
  foldl (fun w e => w ≫= fun w => worker_step h w e) (Some w) events.

(** *** A request from outside: [request] and [close_connection]

    [reply] is what the callback brings within the time of the policy. *)
Inductive Reply := ReplyResponse (response : RemoteResponse) | ReplyAborted | ReplyCancelled | ReplyTimeout.

(** The response, and whether the call has poisoned the worker. *)
Definition worker_request (cancelled : bool) (reply : Reply) : RemoteResponse * bool :=
  if cancelled then (ResponseError CommunicatorAborted, false)
  else match reply with
  | ReplyResponse response => (response, false)
  | ReplyAborted | ReplyCancelled => (ResponseError CommunicatorAborted, true)
  | ReplyTimeout => (ResponseError OperationTimeout, true)
  end.
End worker.

(** ** Theorems on the policy *)
Definition duration_ok (d : Z) : Prop := from_millis 1 <= d <= from_millis 86400000.
Record policy_ok (p : GlobalFailurePolicy) : Prop := {
  policy_attempts : 1 <= connect_attempts p <= 64;
  policy_connect : duration_ok (connect_timeout p);
  policy_retry : duration_ok (retry_backoff p);
  policy_request : duration_ok (request_timeout p);
  policy_collective : duration_ok (collective_timeout p);
}.

Lemma policy_duration_ok env name default d : policy_duration env name default = Ok d ->
  (forall value, policy_number env name (wrap 64 (as_millis default)) = Ok value -> 0 <= value) -> duration_ok d.
Proof.
  unfold policy_duration. destruct (policy_number _ _ _) as [value| |]; [|done..]. cbn [mbind outcome_bind]. intros Hd Hv.
  specialize (Hv value eq_refl). unfold duration_ok, from_millis. unfold fail_if in Hd.
  destruct (Z.eqb_spec value 0), (Z.ltb_spec 86400000 value); cbn in Hd; try done. injection Hd as <-. unfold from_millis. lia.
Qed.

Lemma parse_digits_nonneg bits s : forall acc n, 0 <= acc -> parse_digits bits acc s = Some n -> 0 <= n.
Proof.
  induction s as [|c s IH]; intros acc n Hacc; cbn [parse_digits]; [by intros [= <-]|].
  destruct (digit c) as [d|] eqn:Hd; [|done]. cbn [mbind option_bind].
  destruct (checked_mul bits acc 10) as [scaled|] eqn:Hm; [|done]. cbn [mbind option_bind].
  destruct (checked_add bits scaled d) as [acc'|] eqn:Ha; [|done]. cbn [mbind option_bind].
  apply IH. unfold checked_add in Ha. apply checked_Some in Ha as [-> Hin]. unfold in_width in Hin. lia.
Qed.

Lemma policy_number_nonneg env name default value : 0 <= default -> policy_number env name default = Ok value -> 0 <= value.
Proof.
  intros Hd. unfold policy_number. destruct (env name) as [v| |]; [|congruence|done].
  destruct (parse_unsigned 64 v) as [n|] eqn:Hp; [|done]. cbn. intros [= <-]. unfold parse_unsigned in Hp.
  destruct v as [|c v]; [done|]. destruct (Ascii.eqb c _); [destruct (is_empty v); [done|]|]; by apply parse_digits_nonneg in Hp.
Qed.

(** A failure policy read from the environment has between 1 and 64 connection attempts and only durations between a millisecond and a day, so no wait is unbounded; every backoff is positive and at most five seconds, and backoffs do not shrink from attempt to attempt. *)
Theorem policy_bounded env p : policy_from_environment env = Ok p ->
  policy_ok p /\ forall attempt, 0 <= attempt -> 0 < backoff p attempt <= from_secs 5 /\ backoff p attempt <= backoff p (attempt + 1).
Proof.
  intros Henv. assert (Hok : policy_ok p).
  { unfold policy_from_environment in Henv. apply bind_Ok in Henv as (attempts & Hattempts & Henv). apply bind_Ok in Henv as (u & Hrange & Henv).
    do 4 (let d := fresh "d" in let Hd := fresh "Hd" in apply bind_Ok in Henv as (d & Hd & Henv)). injection Henv as <-.
    apply fail_if_Ok in Hrange. assert (Hin : 1 <= attempts <= 64) by lia. rewrite wrap_in by (unfold in_width; lia).
    split; cbn; [done|..]; eapply policy_duration_ok; eauto; intros value Hv; (eapply policy_number_nonneg; [|exact Hv]); by vm_compute. }
  split; [done|]. intros attempt Ha. destruct (policy_retry _ Hok) as [Hlow _]. change (from_millis 1) with 1000000 in Hlow.
  assert (Hpow : forall a, 0 <= a -> wrap 32 (Z.shiftl 1 (Z.min a 16)) = 2 ^ Z.min a 16).
  { intros a Ha'. rewrite Z.shiftl_1_l. apply wrap_in. unfold in_width. split; [lia|]. apply Z.pow_lt_mono_r; lia. }
  unfold backoff. rewrite !Hpow by lia. assert (H1 : 0 < 2 ^ Z.min attempt 16) by (apply Z.pow_pos_nonneg; lia).
  assert (H2 : 2 ^ Z.min attempt 16 <= 2 ^ Z.min (attempt + 1) 16) by (apply Z.pow_le_mono_r; lia).
  assert (Hmax : 0 < DURATION_MAX) by done. assert (Hcap : 0 < from_secs 5) by done.
  assert (retry_backoff p * 2 ^ Z.min attempt 16 <= retry_backoff p * 2 ^ Z.min (attempt + 1) 16) by (apply Z.mul_le_mono_nonneg_l; lia).
  assert (0 < retry_backoff p * 2 ^ Z.min attempt 16) by (apply Z.mul_pos_pos; lia). lia.
Qed.

Definition many_attempts : environment := fun name => if String.eqb name "RUCCL_CONNECT_ATTEMPTS" then Present "64" else NotPresent.

Lemma policy_bounded_witness :
  exists p, policy_from_environment many_attempts = Ok p /\ connect_attempts p = 64 /\ 0 < backoff p 63 <= from_secs 5.
Proof.
  destruct (policy_from_environment many_attempts) as [p| |] eqn:Hp; [|by vm_compute in Hp..].
  exists p. split; [done|]. split; [vm_compute in Hp; by injection Hp as <-|]. by apply (policy_bounded many_attempts p Hp).
Defined.

(** ** Theorems on connecting *)
Lemma connect_from_spec p attempts cw fuel : forall a,
  Z.of_nat fuel = connect_attempts p - a ->
  let '(r, waits) := connect_from p attempts cw fuel a in
  (length waits <= fuel - 1)%nat /\ Forall (fun wait => wait <= from_secs 5) waits /\
  match r with
  | Ok b => a <= b < connect_attempts p /\ attempts b = AttemptStream InitSent /\ forall c, a <= c < b -> attempts c = AttemptRefused \/ attempts c = AttemptTimeout
  | Err _ => True
  | Panic => False
  end.
Proof.
  induction fuel as [|fuel IH]; intros a Hfuel; cbn [connect_from]; [split; [cbn; lia|done]|].
  assert (Hstop : forall e : GlobalCollectiveError, (length (@nil Z) <= S fuel - 1)%nat /\ Forall (fun wait => wait <= from_secs 5) [] /\ True).
  { intros _. split; [cbn; lia|done]. }
  assert (Hretry : attempts a = AttemptRefused \/ attempts a = AttemptTimeout ->
    let '(r, waits) := if a + 1 <? connect_attempts p then
        if cw a then (Err CommunicatorAborted, []) else let '(r, waits) := connect_from p attempts cw fuel (a + 1) in (r, backoff p a :: waits)
      else connect_from p attempts cw fuel (a + 1) in
    (length waits <= S fuel - 1)%nat /\ Forall (fun wait => wait <= from_secs 5) waits /\
    match r with
    | Ok b => a <= b < connect_attempts p /\ attempts b = AttemptStream InitSent /\ forall c, a <= c < b -> attempts c = AttemptRefused \/ attempts c = AttemptTimeout
    | Err _ => True
    | Panic => False
    end).
  { intros Ha. assert (Hnext : forall c b, a <= c < b -> (forall c, a + 1 <= c < b -> attempts c = AttemptRefused \/ attempts c = AttemptTimeout) ->
      attempts c = AttemptRefused \/ attempts c = AttemptTimeout).
    { intros c b Hc Hall. destruct (decide (c = a)) as [->|]; [done|apply Hall; lia]. }
    specialize (IH (a + 1)). destruct (connect_from p attempts cw fuel (a + 1)) as [r waits]. cbv zeta in IH.
    destruct IH as (Hl & Hw & Hr); [lia|].
    destruct (Z.ltb_spec (a + 1) (connect_attempts p)) as [Hlt|Hge].
    - destruct (cw a); [exact (Hstop CommunicatorAborted)|]. split; [cbn; lia|]. split.
      + constructor; [unfold backoff; lia|done].
      + destruct r as [b| |]; [|done..]. destruct Hr as (Hb & Hsent & Hall). split; [lia|]. split; [done|]. intros c Hc. by eapply Hnext.
    - split; [lia|]. split; [done|]. destruct r as [b| |]; [|done..]. destruct Hr as (Hb & Hsent & Hall). lia. }
  destruct (attempts a) as [| | |[]] eqn:Ha; try (exact (Hstop CommunicatorAborted)); [apply Hretry; by left|apply Hretry; by right|].
  split; [cbn; lia|]. split; [done|]. split; [lia|]. split; [done|]. intros c Hc. lia.
Qed.

(** After the attempt that submitted a handshake nothing is tried. *)
Lemma connect_from_agree p attempts attempts' cw last handshake fuel : forall a, a <= last ->
  attempts last = AttemptStream handshake -> (forall b, a <= b <= last -> attempts' b = attempts b) ->
  connect_from p attempts' cw fuel a = connect_from p attempts cw fuel a.
Proof.
  induction fuel as [|fuel IH]; intros a Ha Hlast Hagree; [done|]. cbn [connect_from]. rewrite (Hagree a) by lia.
  destruct (decide (a = last)) as [->|Hne]; [by rewrite Hlast|].
  rewrite (IH (a + 1)); [done|lia|done|]. intros b Hb. apply Hagree. lia.
Qed.

(** Connecting always ends: under a policy from the environment there are fewer waits than attempts, each at most five seconds; success means that all attempts before it had been refused or had timed out and that the handshake of this one was sent; and once an attempt has a stream, no later attempt has any effect, so a handshake that may have arrived is never repeated. *)
Theorem connect_bounded p attempts cw : policy_ok p ->
  (let '(r, waits) := connect p attempts cw in
   Z.of_nat (length waits) < connect_attempts p /\ Forall (fun wait => wait <= from_secs 5) waits /\
   match r with
   | Ok b => 0 <= b < connect_attempts p /\ attempts b = AttemptStream InitSent /\
       forall c, 0 <= c < b -> attempts c = AttemptRefused \/ attempts c = AttemptTimeout
   | Err _ => True
   | Panic => False
   end) /\
  forall last handshake attempts', 0 <= last -> attempts last = AttemptStream handshake ->
    (forall b, 0 <= b <= last -> attempts' b = attempts b) -> connect p attempts' cw = connect p attempts cw.
Proof.
  intros Hok. destruct (policy_attempts _ Hok) as [Hlow Hhigh]. split.
  - pose proof (connect_from_spec p attempts cw (Z.to_nat (connect_attempts p)) 0) as Hspec. unfold connect.
    destruct (connect_from _ _ _ _ _) as [r waits]. destruct Hspec as (Hl & Hw & Hr); [lia|]. split; [lia|done].
  - intros last handshake attempts' Hlast Hstream Hagree. unfold connect. by eapply connect_from_agree.
Qed.

Definition third_time (a : Z) : Attempt := if a <? 2 then AttemptRefused else if a =? 2 then AttemptStream InitTimeout else AttemptStream InitSent.

Lemma connect_bounded_witness :
  connect policy_default third_time (fun _ => false) = (Err OperationTimeout, [from_millis 100; from_millis 200]) /\
  connect policy_default (fun a => if a <=? 2 then third_time a else AttemptRefused) (fun _ => false) = connect policy_default third_time (fun _ => false).
Proof.
  split; [vm_compute; reflexivity|].
  apply (connect_bounded policy_default third_time (fun _ => false)) with (last := 2) (handshake := InitTimeout).
  - split; cbn; unfold duration_ok, from_millis, from_secs; lia.
  - lia.
  - vm_compute. reflexivity.
  - intros b Hb. by rewrite (proj2 (Z.leb_le _ _)) by lia.
Defined.

(** ** Theorems on the worker *)
Section worker_theorems.
Context {ET : ElementTypes} {N : Network} `{HL : HashLaws}.
Implicit Types (w : Worker) (m : gmap RequestId nat).

Definition queued_callbacks (events : list WorkerEvent) : list nat :=
  concat (map (fun e => match e with WorkerQueue r => [callback r] | _ => [] end) events).
Definition waiting_callbacks m : list nat := map snd (map_to_list m).

(** Every callback that was queued is in one place. *)
Record worker_ok (n : Z) (queued : list nat) w : Prop := {
  worker_counter : 0 <= request_counter w <= n;
  worker_ids id cb : pending w !! id = Some cb -> Z.of_nat id < request_counter w;
  worker_places : queued ≡ₚ map fst (answers w) ++ waiting_callbacks (pending w) ++ map callback (requests w) ++ abandoned w;
  worker_over : is_Some (ended w) -> pending w = ∅ /\ requests w = [];
}.

Lemma waiting_insert m id cb : m !! id = None -> waiting_callbacks (<[id := cb]> m) ≡ₚ cb :: waiting_callbacks m.
Proof using Type. intros Hid. unfold waiting_callbacks. by rewrite map_to_list_insert. Qed.

Lemma waiting_delete m id cb : m !! id = Some cb -> waiting_callbacks m ≡ₚ cb :: waiting_callbacks (delete id m).
Proof using Type. intros Hid. unfold waiting_callbacks. by rewrite <- (map_to_list_delete m id cb). Qed.

Lemma worker_end_ok h n queued w result : worker_ok n queued w -> worker_ok n queued (worker_end h w result).
Proof using HL.
  intros [Hc Hid Hp Ho]. unfold worker_end. split; cbn [request_counter pending answers requests abandoned ended]; [done|intros id cb Hl; by rewrite lookup_empty in Hl| |done].
  rewrite Hp. unfold waiting_callbacks at 2. rewrite map_to_list_empty. cbn [map app].
  rewrite !map_app, !map_map. cbn [fst]. rewrite <- !app_assoc. apply Permutation_app_head, Permutation_app_tail.
  unfold waiting_callbacks. apply Permutation_map. symmetry. apply iterate_permutation.
Qed.

Lemma worker_new_ok : worker_ok 0 [] worker_new.
Proof using Type.
  split; cbn; [lia|intros id cb Hl; by rewrite lookup_empty in Hl|unfold waiting_callbacks; by rewrite map_to_list_empty|by intros []].
Qed.

Lemma worker_step_ok h n queued w e w' : worker_ok n queued w -> n < 2 ^ 32 - 1 -> worker_step h w e = Some w' ->
  worker_ok (n + 1) (queued ++ queued_callbacks [e]) w'.
Proof using HL.
  intros Hok Hn Hs. pose proof Hok as [Hc Hid Hp Ho]. unfold worker_step in Hs. destruct (ended w) eqn:Hend; [done|].
  assert (Hmono : forall w, worker_ok n queued w -> worker_ok (n + 1) (queued ++ []) w).
  { intros v [? ? ? ?]. rewrite app_nil_r. split; [lia|done..]. }
  assert (Hcount : wrap 32 (request_counter w + 1) = request_counter w + 1) by (apply wrap_in; unfold in_width; lia).
  destruct e as [result|request| | | |closed sending|packet]; cbn [queued_callbacks map concat app].
  - destruct (connected w); [done|]. destruct result as [[]|error|]; injection Hs as <-; [|by apply Hmono, worker_end_ok..].
    apply Hmono. split; cbn; [done|done|done|by intros []].
  - injection Hs as <-. split; cbn; [lia|done| |by intros []]. rewrite Hp, map_app. cbn. solve_Permutation.
  - injection Hs as <-. rewrite Hcount. split; cbn; [lia| |by rewrite app_nil_r|by intros []]. intros id cb Hl. specialize (Hid id cb Hl). lia.
  - injection Hs as <-. by apply Hmono, worker_end_ok.
  - destruct (connected w && (length (requests w) =? 0)%nat); [|done]. injection Hs as <-. by apply Hmono, worker_end_ok.
  - destruct (requests w) as [|request rest] eqn:Hreq; [done|]. destruct (connected w); cbn [negb] in Hs; [|done]. destruct closed.
    + injection Hs as <-. apply Hmono. split; cbn; [done|done| |by intros []]. rewrite Hp. cbn. solve_Permutation.
    + set (id := Z.to_nat (request_counter w)) in Hs.
      assert (Hfresh : pending w !! id = None).
      { destruct (pending w !! id) as [cb|] eqn:Hl; [|done]. specialize (Hid id cb Hl). unfold id in Hid. lia. }
      assert (Hmid : forall sent, worker_ok (n + 1) (queued ++ []) (mkWorker true rest (<[id := callback request]> (pending w)) (wrap 32 (request_counter w + 1)) sent (answers w) (abandoned w) None)).
      { intros l. rewrite Hcount. split; cbn; [lia| | |by intros []].
        - intros id' cb [[<- _] | [_ Hl]]%lookup_insert_Some; [unfold id; lia|]. specialize (Hid id' cb Hl). lia.
        - rewrite app_nil_r, Hp, waiting_insert by done. cbn. solve_Permutation. }
      destruct sending; injection Hs as <-; [apply (Hmid (sent w ++ _))|by apply worker_end_ok, (Hmid (sent w))..].
  - destruct (connected w); cbn [negb] in Hs; [|done]. destruct packet as [error| | |response]; [injection Hs as <-; by apply Hmono, worker_end_ok..|].
    destruct (pending w !! response_request response) as [cb|] eqn:Hl; injection Hs as <-; [|by apply Hmono, worker_end_ok].
    apply Hmono. split; cbn; [done| | |by intros []].
    + intros id cb' Hd. apply lookup_delete_Some in Hd as [_ Hd]. by eapply Hid.
    + rewrite Hp, (waiting_delete _ _ _ Hl), map_app. cbn. solve_Permutation.
Qed.

Lemma worker_run_ok h events w : Zlen events < 2 ^ 32 -> worker_run h worker_new events = Some w ->
  worker_ok (Zlen events) (queued_callbacks events) w.
Proof using HL.
  revert w. induction events as [|e events IH] using rev_ind; intros w Hlen Hrun.
  - injection Hrun as <-. apply worker_new_ok.
  - unfold Zlen in *. rewrite length_app in *. cbn [length] in *. unfold worker_run in Hrun. rewrite foldl_app in Hrun. cbn [foldl] in Hrun.
    fold (worker_run h worker_new events) in Hrun. destruct (worker_run h worker_new events) as [v|] eqn:Hv; [|done]. cbn in Hrun.
    replace (Z.of_nat (length events + 1)) with (Z.of_nat (length events) + 1) by lia.
    assert (queued_callbacks (events ++ [e]) = queued_callbacks events ++ queued_callbacks [e]) as -> by (unfold queued_callbacks; by rewrite map_app, concat_app).
    apply (worker_step_ok h _ _ v e); [apply IH; [lia|done]|lia|done].
Qed.

(** C36: In every run of the worker of a node of fewer than 2^32 events, so that request identifiers do not come around, with connecting, requests, responses, failures and cancellation in any order, each callback of a request is answered at most once; and when the worker has ended, because it could not connect, was cancelled, lost the connection, got a wrong response or was told to close, each has been answered unless its caller had gone, and none is left waiting.  A task that is aborted from outside runs none of this: its callbacks are dropped. *)
Theorem worker_answers_once h events w : Zlen events < 2 ^ 32 -> NoDup (queued_callbacks events) -> worker_run h worker_new events = Some w ->
  NoDup (map fst (answers w)) /\ (forall cb, cb ∈ map fst (answers w) -> cb ∈ queued_callbacks events) /\
  (is_Some (ended w) -> forall cb, cb ∈ queued_callbacks events -> cb ∈ map fst (answers w) \/ cb ∈ abandoned w).
Proof using HL.
  intros Hlen Hnd Hrun. destruct (worker_run_ok h events w Hlen Hrun) as [_ _ Hp Ho]. rewrite Hp in Hnd. split; [|split].
  - by apply NoDup_app in Hnd as [? _].
  - intros cb Hin. rewrite Hp. apply elem_of_app. by left.
  - intros He cb Hin. destruct (Ho He) as [Hpe Hre]. rewrite Hp, Hpe, Hre in Hin. unfold waiting_callbacks in Hin. rewrite map_to_list_empty in Hin.
    by apply elem_of_app in Hin.
Qed.
End worker_theorems.

#[local] Instance worker_types : ElementTypes := {| DType := nat |}.

(** The caller of 8 has gone; the second answer to 7 ends the worker while 9 waits. *)
Definition busy_worker : list WorkerEvent :=
  [WorkerQueue (mkClientRequest RequestFinish 7); WorkerConnect (Ok tt); WorkerRequest false SendOk; WorkerQueue (mkClientRequest RequestFinish 8);
   WorkerQueue (mkClientRequest RequestFinish 9); WorkerPacket (PacketResponse (mkResponse 0 ResponseFinishAck)); WorkerRequest true SendOk;
   WorkerPacket (PacketResponse (mkResponse 0 ResponseFinishAck))].

Lemma worker_answers_once_witness :
  exists w, worker_run 0 worker_new busy_worker = Some w /\ ended w = Some (Err WrongOrchestratorResponse) /\
    answers w = [(7%nat, ResponseFinishAck); (9%nat, ResponseError WrongOrchestratorResponse)] /\ NoDup (map fst (answers w)).
Proof.
  destruct (worker_run 0 worker_new busy_worker) as [w|] eqn:Hw; [|by vm_compute in Hw].
  exists w. split; [done|]. split; [vm_compute in Hw; by injection Hw as <-|]. split; [vm_compute in Hw; by injection Hw as <-|].
  apply (worker_answers_once 0 busy_worker w); [done| |done]. by apply (bool_decide_unpack _); vm_compute.
Defined.
