(* ===== verification/RankDevice.v ===== *)
(** * The device interface of a rank: src/src/rank/device.rs

    [RankDevice] holds the operations that a device offers to the collectives
    over a transport; [DeviceErrors] the conversions into its error type;
    [RankView] and [RankLaws] what the operations promise, in terms of a view
    of the memory that gives every live buffer its elements.  A law lets the
    device fail with one of its own errors.  [WorkError] is of
    src/src/rank/work.rs. *)
From S2P Require Import Prelude Protocol Errors Comp.

Inductive WorkError := WorkerStart (error : string) | WorkerQueueClosed | WorkerPanic | Poisoned.

(** ** Operations *)
Class RankDevice (T : Type) := {
  Memory : Type;
  Execution : Type;
  Buffer : Type;
  Kernel : Type;
  ReductionLaunch : Type;
  Error : Type;
  ELEMENT_SIZE : nat;
  buffer_len : Buffer -> nat;
  buffer_bytes : Buffer -> nat;
  encode : list T -> list Z;
  decode : list Z -> outcome Error (list T);
  alloc : Execution -> nat -> comp Memory Error Buffer;
  copy_to_device : Execution -> Buffer -> list T -> comp Memory Error unit;
  copy_from_device : Execution -> Buffer -> comp Memory Error (list T);
  copy_from_device_at : Execution -> Buffer -> nat -> nat -> comp Memory Error (list T);
  copy_bytes_to_device_at : Execution -> Buffer -> nat -> list Z -> comp Memory Error unit;
  copy_bytes_from_device_at : Execution -> Buffer -> nat -> nat -> comp Memory Error (list Z);
  prepare_reduction : Execution -> nat -> nat -> comp Memory Error ReductionLaunch;
  launch_reduction : Execution -> Kernel -> ReductionLaunch -> Buffer -> Buffer -> comp Memory Error unit;
}.

(** [From<RankError> + From<NetworkError> + From<TopologyError> + From<WorkError>];
    of the topology's errors the collectives raise [InvalidRing]. *)
Class DeviceErrors (E : Type) := {
  from_rank : RankError -> E;
  from_network : NetworkError -> E;
  from_invalid_ring : string -> E;
  from_work : WorkError -> E;
}.

(** ** Laws *)
Class RankView (T : Type) `{RankDevice T} := {
  Cell : Type;
  Cell_eq_dec :: EqDecision Cell;
  cell : Buffer -> Cell;
  view : Memory -> Cell -> option (list T);
  usable : Execution -> Buffer -> Prop;
  allocatable : Execution -> nat -> Prop;
  computes : Execution -> Kernel -> Prop;
  combine : Kernel -> T -> T -> T;
  prepared : nat -> nat -> ReductionLaunch -> Prop;
  device_error : Error -> Prop;
}.

Section view.
Context {T : Type} `{RankView T}.

Definition updated (s : Memory) (k : Cell) (l : list T) (s' : Memory) : Prop :=
  forall k', view s' k' = if decide (k' = k) then Some l else view s k'.

Definition unchanged (s s' : Memory) : Prop := forall k, view s' k = view s k.

Record holds (s : Memory) (c : Execution) (b : Buffer) (l : list T) : Prop := {
  holds_usable : usable c b;
  holds_view : view s (cell b) = Some l;
  holds_length : length l = buffer_len b;
}.

(** The cells that were live stay as they are. *)
Definition keeps (s s' : Memory) : Prop := forall k l, view s k = Some l -> view s' k = Some l.
End view.

Class RankLaws (T : Type) `{RankView T} := {
  law_size : (0 < ELEMENT_SIZE)%nat;
  law_bytes b : buffer_bytes b = (buffer_len b * ELEMENT_SIZE)%nat;
  law_encode l : length (encode l) = (length l * ELEMENT_SIZE)%nat /\ Forall is_byte (encode l);
  law_encode_app l k : encode (l ++ k) = encode l ++ encode k;
  law_decode l : decode (encode l) = Ok l;
  law_fits c b : usable c b -> Z.of_nat (buffer_len b * ELEMENT_SIZE) < 2 ^ 63;
  law_allocatable c n : allocatable c n -> Z.of_nat (n * ELEMENT_SIZE) < 2 ^ 63;
  law_alloc c n s :
    allocatable c n ->
    wp device_error (alloc c n) (fun b s' =>
      usable c b /\ buffer_len b = n /\ view s (cell b) = None /\
      exists l, length l = n /\ updated s (cell b) l s') s;
  law_copy_to c b l values s :
    holds s c b l -> length values = buffer_len b ->
    wp device_error (copy_to_device c b values) (fun _ s' => updated s (cell b) values s') s;
  law_copy_from c b l s :
    holds s c b l ->
    wp device_error (copy_from_device c b) (fun values s' => values = l /\ unchanged s s') s;
  law_copy_bytes_to c b l offset values s :
    holds s c b l -> (offset + length values <= buffer_len b)%nat ->
    wp device_error (copy_bytes_to_device_at c b offset (encode values))
      (fun _ s' => updated s (cell b) (put offset values l) s') s;
  law_copy_bytes_from c b l offset n s :
    holds s c b l -> (offset + n <= buffer_len b)%nat ->
    wp device_error (copy_bytes_from_device_at c b offset n)
      (fun bytes s' => bytes = encode (sub offset n l) /\ unchanged s s') s;
  law_prepare c n offset s :
    Z.of_nat ((offset + n) * ELEMENT_SIZE) < 2 ^ 63 ->
    wp device_error (prepare_reduction c n offset) (fun launch s' => prepared n offset launch /\ unchanged s s') s;
  law_launch c k n offset launch src dst lsrc ldst s :
    prepared n offset launch ->
    computes c k -> holds s c src lsrc -> holds s c dst ldst -> cell src <> cell dst ->
    (n <= buffer_len src)%nat -> (offset + n <= buffer_len dst)%nat ->
    wp device_error (launch_reduction c k launch src dst)
      (fun _ s' => updated s (cell dst)
        (put offset (zip_with (combine k) (sub offset n ldst) (sub 0 n lsrc)) ldst) s') s;
}.

Section view_lemmas.
Context {T : Type} `{RankView T}.

Lemma rank_updated_same s k l s' : updated s k l s' -> view s' k = Some l.
Proof. intros Hu. rewrite (Hu k). by rewrite decide_True. Qed.

Lemma rank_updated_other s k l s' k' : updated s k l s' -> k' <> k -> view s' k' = view s k'.
Proof. intros Hu Hne. rewrite (Hu k'). by rewrite decide_False. Qed.

Lemma rank_holds_updated s c b l l' s' :
  holds s c b l -> updated s (cell b) l' s' -> length l' = length l -> holds s' c b l'.
Proof.
  intros [Hc Hv Hl] Hu Hlen. split; [done| |congruence]. by apply (rank_updated_same s).
Qed.

Lemma rank_holds_other s c b l k l' s' :
  holds s c b l -> updated s k l' s' -> cell b <> k -> holds s' c b l.
Proof. intros [Hc Hv Hl] Hu Hne. split; [done| |done]. by rewrite (rank_updated_other _ _ _ _ _ Hu). Qed.

Lemma rank_holds_unchanged s c b l s' : holds s c b l -> unchanged s s' -> holds s' c b l.
Proof. intros [Hc Hv Hl] Hu. split; [done| |done]. by rewrite (Hu _). Qed.

(** A fresh cell is not that of a live buffer. *)
Lemma fresh_cell s c b l k : holds s c b l -> view s k = None -> cell b <> k.
Proof. intros [_ Hv _] Hk Heq. congruence. Qed.
End view_lemmas.
