(* ===== verification/P2pClient.v ===== *)
(** * The point-to-point connection of a rank: P2pClient of src/src/rank/network.rs

    The threads of a rank send requests on one connection, and its reader gives
    each response to the request with the same opcode and sequence number.  A
    step is what one thread does between two points where another may go on: the
    locks of the submission, of the pending requests and of the failure, and the
    channel on which a caller waits.  A poisoned lock and the write timeout of
    the socket are left out. *)
From stdpp Require Import countable.
From S2P Require Import Prelude Protocol Errors Processes.

Record P2pResponseKey := mkKey { key_opcode : Opcode; key_sequence : Z }.

#[export] Instance Opcode_countable : Countable Opcode.
Proof.
  refine (inj_countable Opcode.opcode_code (fun z => match opcode_try_from z with Ok o => Some o | _ => None end) _).
  intros o. by rewrite opcode_try_from_code.
Defined.

#[export] Instance P2pResponseKey_eq_dec : EqDecision P2pResponseKey.
Proof. solve_decision. Defined.

#[export] Instance P2pResponseKey_countable : Countable P2pResponseKey.
Proof. refine (inj_countable' (fun k => (key_opcode k, key_sequence k)) (fun k => mkKey k.1 k.2) _). by intros []. Defined.

(** The text of a failure: a format string and the bytes in it. *)
Definition Text : Type := string * list Z.

(** The arguments of a call of [request_with_timeout]. *)
Record P2pRequest := mkRequest {
  request_opcode : Opcode;
  peer : Z;
  request_tag : Z;
  request_type : ElementType;
  request_count : Z;
  request_payload : list Z;
}.

(** Where a call stands: before the submission is locked, with a sequence
    number, registered, after a failed write, waiting for the response, past
    its deadline, at its end. *)
Inductive Caller :=
  | Entering (r : P2pRequest)
  | Submitting (key : P2pResponseKey) (r : P2pRequest)
  | Writing (key : P2pResponseKey) (frame : Frame)
  | WriteFailed (key : P2pResponseKey) (error : NetworkError)
  | Waiting (key : P2pResponseKey)
  | TimedOut (key : P2pResponseKey)
  | Returned (key : option P2pResponseKey) (result : nresult Frame).

(** The reader reads, has taken a sender from the pending requests, has recorded
    a failure, or has returned. *)
Inductive Reader :=
  | Reading
  | Sending (caller : nat) (frame : Frame)
  | Failing (message : Text)
  | Stopped.

(** The client with its threads; [holder] has locked the submission, [pending]
    names the caller to whose channel the sender belongs, and [channel] has the
    message in a caller's channel. *)
Record P2pClient := mkClient {
  next_send_sequence : Z;
  next_receive_sequence : Z;
  next_heartbeat_sequence : Z;
  holder : option nat;
  pending : gmap P2pResponseKey nat;
  failure : option Text;
  written : list Frame;
  shut_down : bool;
  reader : Reader;
  channel : gmap nat (Frame + Text);
  callers : gmap nat Caller;
}.

Definition set_sequences (s : P2pClient) (a b c : Z) : P2pClient :=
  mkClient a b c (holder s) (pending s) (failure s) (written s) (shut_down s) (reader s) (channel s) (callers s).
Definition set_holder (s : P2pClient) (h : option nat) : P2pClient :=
  mkClient (next_send_sequence s) (next_receive_sequence s) (next_heartbeat_sequence s) h (pending s) (failure s) (written s) (shut_down s) (reader s) (channel s) (callers s).
Definition set_pending (s : P2pClient) (p : gmap P2pResponseKey nat) : P2pClient :=
  mkClient (next_send_sequence s) (next_receive_sequence s) (next_heartbeat_sequence s) (holder s) p (failure s) (written s) (shut_down s) (reader s) (channel s) (callers s).
Definition set_failure (s : P2pClient) (m : option Text) : P2pClient :=
  mkClient (next_send_sequence s) (next_receive_sequence s) (next_heartbeat_sequence s) (holder s) (pending s) m (written s) (shut_down s) (reader s) (channel s) (callers s).
Definition set_stream (s : P2pClient) (l : list Frame) (shut : bool) : P2pClient :=
  mkClient (next_send_sequence s) (next_receive_sequence s) (next_heartbeat_sequence s) (holder s) (pending s) (failure s) l shut (reader s) (channel s) (callers s).
Definition set_reader (s : P2pClient) (r : Reader) : P2pClient :=
  mkClient (next_send_sequence s) (next_receive_sequence s) (next_heartbeat_sequence s) (holder s) (pending s) (failure s) (written s) (shut_down s) r (channel s) (callers s).
Definition set_channel (s : P2pClient) (c : gmap nat (Frame + Text)) : P2pClient :=
  mkClient (next_send_sequence s) (next_receive_sequence s) (next_heartbeat_sequence s) (holder s) (pending s) (failure s) (written s) (shut_down s) (reader s) c (callers s).
Definition set_caller (s : P2pClient) (t : nat) (c : Caller) : P2pClient :=
  mkClient (next_send_sequence s) (next_receive_sequence s) (next_heartbeat_sequence s) (holder s) (pending s) (failure s) (written s) (shut_down s) (reader s) (channel s) (<[t := c]> (callers s)).

(** [P2pClient::new] *)
Definition client_new : P2pClient := mkClient 0 0 0 None ∅ None [] false Reading ∅ ∅.

(** [failure.get_or_insert_with(|| message)] of [fail_pending] *)
Definition record_failure (s : P2pClient) (message : Text) : P2pClient :=
  set_failure s (Some (default message (failure s))).

(** The rest of [fail_pending]: every sender gets the message. *)
Definition fail_pending (s : P2pClient) (message : Text) : P2pClient :=
  set_pending (set_channel s (map_fold (fun _ t c => <[t := inr message]> c) (channel s) (pending s))) ∅.

Section client.
Context `{Crc32Hash} (unique_id : list Z) (rank world_size : Z) (error_text : NetworkError -> list Z).

Definition remote_abort (m : Text) : NetworkError := NetworkError.RemoteAbort m.1 m.2.

Definition next_sequence_of (s : P2pClient) (op : Opcode) : option Z :=
  match op with
  | Opcode.Send => Some (next_send_sequence s)
  | Opcode.Receive => Some (next_receive_sequence s)
  | Opcode.Heartbeat => Some (next_heartbeat_sequence s)
  | _ => None
  end.

Definition advance_sequence (s : P2pClient) (op : Opcode) (next : Z) : P2pClient :=
  match op with
  | Opcode.Send => set_sequences s next (next_receive_sequence s) (next_heartbeat_sequence s)
  | Opcode.Receive => set_sequences s (next_send_sequence s) next (next_heartbeat_sequence s)
  | Opcode.Heartbeat => set_sequences s (next_send_sequence s) (next_receive_sequence s) next
  | _ => s
  end.

(** From the lock of the submission to [drop(failure)]. *)
Definition submit_request (s : P2pClient) (t : nat) (r : P2pRequest) : P2pClient :=
  match failure s with
  | Some message => set_caller s t (Returned None (Err (remote_abort message)))
  | None =>
      match next_sequence_of s (request_opcode r) with
      | None => set_caller s t (Returned None (Err (InvalidConfiguration "{opcode:?} is not a point-to-point request")))
      | Some current_sequence =>
          match checked_add 64 current_sequence 1 with
          | None => set_caller s t (Returned None (Err (NetworkError.Protocol SequenceOverflow)))
          | Some next =>
              set_caller (set_holder (advance_sequence s (request_opcode r) next) (Some t)) t
                (Submitting (mkKey (request_opcode r) current_sequence) r)
          end
      end
  end.

Definition request_header (key : P2pResponseKey) (r : P2pRequest) : FrameHeader :=
  set_tag (set_destination_rank (collective unique_id (key_opcode key) (request_type r) rank ANY_RANK world_size (key_sequence key) (request_count r)) (peer r))
    (request_tag r).

(** The frame and [pending.insert]. *)
Definition register_request (s : P2pClient) (t : nat) (key : P2pResponseKey) (r : P2pRequest) : P2pClient :=
  match frame_new (request_header key r) (request_payload r) with
  | Ok frame => set_caller (set_pending s (<[key := t]> (pending s))) t (Writing key frame)
  | Err e => set_caller (set_holder s None) t (Returned (Some key) (Err (NetworkError.Protocol e)))
  | Panic => set_caller (set_holder s None) t (Returned (Some key) Panic)
  end.

(** What comes of [write_frame]: the submission is unlocked, or the failure is recorded. *)
Definition write_request (s : P2pClient) (t : nat) (key : P2pResponseKey) (frame : Frame) (error : option NetworkError) : P2pClient :=
  match error with
  | None => set_caller (set_holder (set_stream s (written s ++ [frame]) (shut_down s)) None) t (Waiting key)
  | Some e => set_caller (record_failure s ("{}"%string, error_text e)) t (WriteFailed key e)
  end.

(** [recv_timeout] with a message or without any sender left. *)
Definition take_answer (s : P2pClient) (t : nat) (key : P2pResponseKey) : option P2pClient :=
  match channel s !! t with
  | Some (inl frame) => Some (set_caller s t (Returned (Some key) (Ok frame)))
  | Some (inr message) => Some (set_caller s t (Returned (Some key) (Err (remote_abort message))))
  | None =>
      let with_reader := match reader s with Sending t' _ => bool_decide (t' = t) | _ => false end in
      if bool_decide (pending s !! key = Some t) || with_reader then None
      else Some (set_caller s t (Returned (Some key) (Err NetworkError.ChannelClosed)))
  end.

(** What the reader finds on the stream. *)
Inductive Incoming := Received (frame : Frame) | Closed | ReadFailed (error : NetworkError).

Definition read_step (s : P2pClient) (i : Incoming) : P2pClient :=
  let fail_with message := set_reader (record_failure s message) (Failing message) in
  match i with
  | Closed => fail_with ("point-to-point coordinator closed"%string, [])
  | ReadFailed e => fail_with ("point-to-point read failed: {error}"%string, error_text e)
  | Received frame =>
      let h := frame.(header) in
      if negb (bool_decide (Protocol.unique_id h = unique_id)) || negb (Protocol.world_size h =? world_size) || negb (destination_rank h =? rank)
      then fail_with ("invalid point-to-point response envelope"%string, [])
      else if bool_decide (opcode h = Opcode.Abort) then fail_with ("{}"%string, frame.(payload))
      else match opcode h with
           | Opcode.Send | Opcode.Receive | Opcode.Heartbeat =>
               let key := mkKey (opcode h) (sequence h) in
               match pending s !! key with
               | Some t => set_reader (set_pending s (delete key (pending s))) (Sending t frame)
               | None => s
               end
           | _ => fail_with ("unexpected {:?} response on point-to-point channel"%string, [])
           end
  end.

Inductive ClientEvent :=
  | Call (t : nat) (r : P2pRequest)
  | Advance (t : nat)
  | Write (t : nat) (error : option NetworkError)
  | Deadline (t : nat)
  | AbortCall (message : list Z) (error : option NetworkError)
  | Read (i : Incoming)
  | AdvanceReader.

(** [P2pClient::abort], which holds the submission from its first to its last
    line; a frame that cannot be written is lost. *)
Definition abort_step (s : P2pClient) (message : list Z) (error : option NetworkError) : P2pClient * nresult unit :=
  let current_sequence := next_send_sequence s in
  match checked_add 64 current_sequence 1 with
  | None => (s, Err (NetworkError.Protocol SequenceOverflow))
  | Some next =>
      let s := advance_sequence s Opcode.Send next in
      let h := set_destination_rank (collective unique_id Opcode.Abort ElementType.U8 rank ANY_RANK world_size current_sequence (Zlen message)) ANY_RANK in
      match frame_new h message with
      | Ok frame =>
          match error with
          | None => (set_stream s (written s ++ [frame]) (shut_down s), Ok tt)
          | Some e => (s, Err e)
          end
      | Err e => (s, Err (NetworkError.Protocol e))
      | Panic => (s, Panic)
      end
  end.

Definition client_step (e : ClientEvent) (s : P2pClient) : option P2pClient :=
  match e with
  | Call t r =>
      match callers s !! t with None => Some (set_caller s t (Entering r)) | Some _ => None end
  | Advance t =>
      match callers s !! t with
      | Some (Entering r) => match holder s with None => Some (submit_request s t r) | Some _ => None end
      | Some (Submitting key r) => Some (register_request s t key r)
      | Some (WriteFailed key e) => Some (set_caller (set_holder (fail_pending s ("{}"%string, error_text e)) None) t (Returned (Some key) (Err e)))
      | Some (Waiting key) => take_answer s t key
      | Some (TimedOut key) =>
          match holder s with
          | None => Some (set_caller (set_stream s (written s) true) t (Returned (Some key) (Err (NetworkError.Timeout "point-to-point {opcode:?} with tag {tag}"))))
          | Some _ => None
          end
      | _ => None
      end
  | Write t error =>
      match callers s !! t with Some (Writing key frame) => Some (write_request s t key frame error) | _ => None end
  | Deadline t =>
      match callers s !! t, channel s !! t with
      | Some (Waiting key), None => Some (set_caller (set_pending s (delete key (pending s))) t (TimedOut key))
      | _, _ => None
      end
  | AbortCall message error => match holder s with None => Some (abort_step s message error).1 | Some _ => None end
  | Read i => match reader s with Reading => Some (read_step s i) | _ => None end
  | AdvanceReader =>
      match reader s with
      | Sending t frame => Some (set_reader (set_channel s (<[t := inl frame]> (channel s))) Reading)
      | Failing message => Some (set_reader (fail_pending s message) Stopped)
      | _ => None
      end
  end.
End client.

(** ** Responses and calls of the point-to-point connection

    The invariant of [P2pClient] under any interleaving of the callers, the
    reader and the stream, what follows for the calls, and two traces. *)

(** ** The invariant of the client and its threads *)
Definition key_of (c : Caller) : option P2pResponseKey :=
  match c with
  | Entering _ => None
  | Submitting key _ | Writing key _ | WriteFailed key _ | Waiting key | TimedOut key => Some key
  | Returned key _ => key
  end.

Definition response_key (f : Frame) : P2pResponseKey := mkKey (opcode f.(header)) (sequence f.(header)).

Definition holds_submission (c : Caller) : Prop :=
  match c with Submitting _ _ | Writing _ _ | WriteFailed _ _ => True | _ => False end.

(** The calls whose sender is where they wait for it. *)
Definition awaits (c : Caller) (key : P2pResponseKey) : Prop :=
  match c with Writing k _ | Waiting k => k = key | _ => False end.

(** The calls that can be among the pending requests. *)
Definition registered (c : Caller) (key : P2pResponseKey) : Prop :=
  match c with Writing k _ | WriteFailed k _ | Waiting k => k = key | _ => False end.

Definition before_registration (c : Caller) : Prop :=
  match c with Entering _ | Submitting _ _ => True | _ => False end.

Section invariant.
Context `{Crc32Hash} (unique_id : list Z) (rank world_size : Z) (error_text : NetworkError -> list Z).

(** A response of this session for this rank. *)
Definition accepted (f : Frame) : Prop :=
  Protocol.unique_id f.(header) = unique_id /\ Protocol.world_size f.(header) = world_size /\ destination_rank f.(header) = rank.

(** A response that is on its way to caller [t]. *)
Definition answer_for (s : P2pClient) (t : nat) (f : Frame) : Prop :=
  accepted f /\ exists c, callers s !! t = Some c /\ key_of c = Some (response_key f) /\ ~ before_registration c.

Record client_inv (s : P2pClient) : Prop := {
  inv_sequence t c key : callers s !! t = Some c -> key_of c = Some key ->
    exists n, next_sequence_of s (key_opcode key) = Some n /\ key_sequence key < n;
  inv_unique t1 t2 c1 c2 key : callers s !! t1 = Some c1 -> callers s !! t2 = Some c2 -> key_of c1 = Some key -> key_of c2 = Some key -> t1 = t2;
  inv_pending key t : pending s !! key = Some t -> channel s !! t = None /\ (forall f, reader s <> Sending t f) /\
    exists c, callers s !! t = Some c /\ registered c key;
  inv_sending t f : reader s = Sending t f -> channel s !! t = None /\ answer_for s t f;
  inv_channel t m : channel s !! t = Some m -> (exists c, callers s !! t = Some c /\ ~ before_registration c) /\
    match m with inl f => answer_for s t f | inr _ => failure s <> None end;
  inv_awaits t c key : callers s !! t = Some c -> awaits c key ->
    pending s !! key = Some t \/ (exists m, channel s !! t = Some m) \/ exists f, reader s = Sending t f;
  inv_returned t key f : callers s !! t = Some (Returned key (Ok f)) -> key = Some (response_key f) /\ accepted f;
  inv_lock t : holder s = Some t <-> exists c, callers s !! t = Some c /\ holds_submission c;
  inv_failed t key e : callers s !! t = Some (WriteFailed key e) -> failure s <> None;
  inv_reader : match reader s with Failing _ | Stopped => failure s <> None | _ => True end;
}.

Lemma inv_new : client_inv client_new.
Proof using Type. split; cbn; try done; intros; simplify_map_eq. split; [done|]. intros (c & Hc & _). simplify_map_eq. Qed.

(** A caller goes on: its state is [c], and what it does to the rest is little. *)
Lemma caller_inv s s' t c : client_inv s -> callers s' = <[t := c]> (callers s) ->
  (forall op n, next_sequence_of s op = Some n -> exists n', next_sequence_of s' op = Some n' /\ n <= n') ->
  (forall key, key_of c = Some key -> (exists o, callers s !! t = Some o /\ key_of o = Some key) \/
    (exists n', next_sequence_of s' (key_opcode key) = Some n' /\ key_sequence key < n') /\ forall t' o, callers s !! t' = Some o -> key_of o <> Some key) ->
  (forall key t', pending s' !! key = Some t' -> (t' = t -> registered c key) /\
    (pending s !! key = Some t' \/ t' = t /\ channel s !! t = None /\ forall f, reader s <> Sending t f)) ->
  reader s' = reader s -> channel s' = channel s ->
  (forall o, callers s !! t = Some o -> ~ before_registration o -> ~ before_registration c /\ key_of c = key_of o) ->
  (forall key t', t' <> t -> pending s !! key = Some t' -> pending s' !! key = Some t') ->
  (forall key, awaits c key -> pending s' !! key = Some t \/ (exists m, channel s !! t = Some m) \/ exists f, reader s = Sending t f) ->
  (forall key f, c = Returned key (Ok f) -> key = Some (response_key f) /\ accepted f) ->
  (holder s' = Some t <-> holds_submission c) -> (forall t', t' <> t -> holder s' = Some t' <-> holder s = Some t') ->
  (failure s <> None -> failure s' <> None) -> (forall key e, c = WriteFailed key e -> failure s' <> None) ->
  client_inv s'.
Proof using Type.
  intros [H1 H2 H3 H4 H5 H6 H7 H8 H9 H10] Hcallers Hseq Hkey Hpend Hreader Hchannel Hold Hkeep Hawait Hret Hlock Hlock' Hfail Hwf.
  assert (Hother : forall t', t' <> t -> callers s' !! t' = callers s !! t') by (intros t' Hne; rewrite Hcallers; by rewrite lookup_insert_ne).
  assert (Hself : callers s' !! t = Some c) by (rewrite Hcallers; apply lookup_insert_eq).
  assert (Hans : forall t' f, answer_for s t' f -> answer_for s' t' f).
  { intros t' f (Ha & o & Ho & Hk & Hb). split; [done|]. destruct (decide (t' = t)) as [->|Hne].
    - exists c. destruct (Hold o Ho Hb) as [Hb' Hk']. by rewrite Hk'.
    - exists o. by rewrite Hother. }
  split.
  - intros t' o key Ho Hk. assert (Hprev : forall o', callers s !! t' = Some o' -> key_of o' = Some key -> exists n, next_sequence_of s' (key_opcode key) = Some n /\ key_sequence key < n).
    { intros o' Ho' Hk'. destruct (H1 _ _ _ Ho' Hk') as (n & Hn & Hlt). destruct (Hseq _ _ Hn) as (n' & Hn' & Hle). exists n'. split; [done|lia]. }
    destruct (decide (t' = t)) as [->|Hne]; [|rewrite Hother in Ho by done; by eapply Hprev].
    assert (o = c) as -> by congruence. destruct (Hkey key Hk) as [(o & Ho' & Hk')|[Hnew _]]; [by eapply Hprev|done].
  - intros t1 t2 c1 c2 key Hc1 Hc2 Hk1 Hk2.
    assert (Hmix : forall t' o', t' <> t -> callers s' !! t' = Some o' -> key_of o' = Some key -> key_of c = Some key -> False).
    { intros t' o' Hne Ho' Hk' Hk. rewrite Hother in Ho' by done. destruct (Hkey key Hk) as [(o & Ho & Hko)|[_ Hfresh]]; [by apply Hne; eapply H2|by eapply Hfresh]. }
    destruct (decide (t1 = t)) as [->|Hn1], (decide (t2 = t)) as [->|Hn2]; [done| | |].
    + assert (c1 = c) as -> by congruence. exfalso. by eapply Hmix.
    + assert (c2 = c) as -> by congruence. exfalso. by eapply Hmix.
    + rewrite Hother in Hc1, Hc2 by done. by eapply H2.
  - intros key t' Hp. rewrite Hchannel, Hreader. destruct (Hpend key t' Hp) as [Hreg [Hp'|(-> & Hc & Hr)]].
    + destruct (H3 key t' Hp') as (Hc & Hr & o & Ho & Hro). split; [done|]. split; [done|].
      destruct (decide (t' = t)) as [->|Hne]; [exists c; by split; [|apply Hreg]|exists o; by rewrite Hother].
    + split; [done|]. split; [done|]. exists c. by split; [|apply Hreg].
  - intros t' f Hr. rewrite Hreader in Hr. destruct (H4 t' f Hr) as [Hc Ha]. rewrite Hchannel. split; [done|by apply Hans].
  - intros t' m Hm. rewrite Hchannel in Hm. destruct (H5 t' m Hm) as [(o & Ho & Hb) Hmm]. split.
    + destruct (decide (t' = t)) as [->|Hne]; [exists c; split; [done|by apply (Hold o Ho)]|exists o; by rewrite Hother].
    + destruct m; [by apply Hans|by apply Hfail].
  - intros t' o key Ho Ha. rewrite Hchannel, Hreader. destruct (decide (t' = t)) as [->|Hne].
    + assert (o = c) as -> by congruence. by apply Hawait.
    + rewrite Hother in Ho by done. destruct (H6 t' o key Ho Ha) as [Hp|?]; [left; by apply Hkeep|by right].
  - intros t' key f Ho. destruct (decide (t' = t)) as [->|Hne]; [apply (Hret key f); congruence|rewrite Hother in Ho by done; by eapply H7].
  - intros t'. destruct (decide (t' = t)) as [->|Hne].
    + rewrite Hlock, Hself. split; [intros; by exists c|intros (o & Ho & ?); by assert (o = c) as -> by congruence].
    + rewrite Hlock' by done. rewrite Hother by done. apply H8.
  - intros t' key e Ho. destruct (decide (t' = t)) as [->|Hne]; [apply (Hwf key e); congruence|rewrite Hother in Ho by done; by eapply Hfail, H9].
  - rewrite Hreader. destruct (reader s); try done; by apply Hfail.
Qed.

(** *** The steps of the callers *)
Lemma not_registered s t key : client_inv s -> match callers s !! t with Some c => ~ registered c key | None => True end -> pending s !! key <> Some t.
Proof using Type. intros Hinv Hc Hp. destruct (inv_pending s Hinv key t Hp) as (_ & _ & c & Ho & Hr). by rewrite Ho in Hc. Qed.

Lemma not_holding s t : client_inv s -> match callers s !! t with Some c => ~ holds_submission c | None => True end -> holder s <> Some t.
Proof using Type. intros Hinv Hc Hh. apply (inv_lock s Hinv) in Hh as (c & Ho & Hs). by rewrite Ho in Hc. Qed.

(** A call that keeps or leaves nothing behind: it only changes its own state. *)
Lemma caller_only s t c : client_inv s -> (forall key, key_of c = Some key -> exists o, callers s !! t = Some o /\ key_of o = Some key) ->
  (forall key, pending s !! key = Some t -> registered c key) ->
  (forall o, callers s !! t = Some o -> ~ before_registration o -> ~ before_registration c /\ key_of c = key_of o) ->
  (forall key, ~ awaits c key) -> (forall key f, c = Returned key (Ok f) -> key = Some (response_key f) /\ accepted f) ->
  (holder s = Some t <-> holds_submission c) -> (forall key e, c = WriteFailed key e -> failure s <> None) -> client_inv (set_caller s t c).
Proof using Type.
  intros Hinv Hk Hp Ho Ha Hr Hl Hw. apply (caller_inv s _ t c Hinv); cbn; try done.
  - intros op n Hn. exists n. split; [done|lia].
  - intros key Hkey. left. by apply Hk.
  - intros key t' Hpt. split; [intros ->; by apply Hp|by left].
  - intros key Haw. by destruct (Ha key).
Qed.

Lemma call_inv s t r : client_inv s -> callers s !! t = None -> client_inv (set_caller s t (Entering r)).
Proof using Type.
  intros Hinv Hnone. apply caller_only; cbn; try done; try (by intros ? []). 
  - intros key Hp. exfalso. eapply (not_registered s t key Hinv); [by rewrite Hnone|done].
  - intros o Ho. congruence.
  - split; [|done]. intros Hh. exfalso. by eapply (not_holding s t Hinv); [rewrite Hnone|].
Qed.

(** A call that has no sequence number yet returns an error. *)
Lemma refused_inv s t r e : client_inv s -> callers s !! t = Some (Entering r) -> client_inv (set_caller s t (Returned None (Err e))).
Proof using Type.
  intros Hinv Ht. apply caller_only; cbn; try done; try (by intros ? []). 
  - intros key Hp. exfalso. eapply (not_registered s t key Hinv); [rewrite Ht; by intros []|done].
  - intros o Ho Hb. rewrite Ht in Ho. injection Ho as <-. by destruct Hb.
  - split; [|done]. intros Hh. exfalso. by eapply (not_holding s t Hinv); [rewrite Ht|]; cbn; [intros []|].
Qed.

Lemma next_after s op next : forall op' n, next_sequence_of s op = Some next -> next_sequence_of s op' = Some n ->
  next_sequence_of (advance_sequence s op (next + 1)) op' = Some (if decide (op' = op) then next + 1 else n).
Proof using Type. intros op' n. destruct op, op'; cbn; try done; intros; simplify_eq; done. Qed.

Lemma submit_inv s t r : client_inv s -> callers s !! t = Some (Entering r) -> holder s = None -> client_inv (submit_request s t r).
Proof using Type.
  intros Hinv Ht Hh. unfold submit_request. destruct (failure s); [by eapply refused_inv|].
  destruct (next_sequence_of s (request_opcode r)) as [cur|] eqn:Hcur; [|by eapply refused_inv].
  unfold checked_add. destruct (checked 64 (cur + 1)) as [next|] eqn:Hnext; [|by eapply refused_inv]. apply checked_Some in Hnext as [-> _].
  set (key := mkKey (request_opcode r) cur). set (s1 := advance_sequence s (request_opcode r) (cur + 1)).
  assert (Hsame : callers s1 = callers s /\ pending s1 = pending s /\ reader s1 = reader s /\ channel s1 = channel s /\ failure s1 = failure s) by (unfold s1; by destruct (request_opcode r)).
  destruct Hsame as (E1 & E2 & E3 & E4 & E5).
  apply (caller_inv s _ t (Submitting key r) Hinv); cbn [callers set_caller set_holder pending reader channel failure holder]; rewrite ?E1, ?E2, ?E3, ?E4, ?E5; try done.
  - intros op n Hn. pose proof (next_after s (request_opcode r) cur op n Hcur Hn) as Hn'. exists (if decide (op = request_opcode r) then cur + 1 else n).
    split; [by destruct s, op|]. case_decide; [subst; simplify_eq; lia|lia].
  - intros k' [= <-]. right. split.
    + exists (cur + 1). split; [|cbn; lia]. pose proof (next_after s (request_opcode r) cur (request_opcode r) cur Hcur Hcur) as Hn'. rewrite decide_True in Hn' by done.
      by destruct s, (request_opcode r).
    + intros t' o Ho Hk. destruct (inv_sequence s Hinv t' o key Ho Hk) as (n & Hn & Hlt). cbn in Hn, Hlt. simplify_eq. lia.
  - intros k' t' Hp. split; [|by left]. intros ->. exfalso. eapply (not_registered s t k' Hinv); [rewrite Ht; by intros []|done].
  - intros o Ho Hb. rewrite Ht in Ho. injection Ho as <-. by destruct Hb.
  - intros t' Hne. rewrite Hh. split; [intros [=]; congruence|done].
Qed.

Lemma holder_self s t c : client_inv s -> callers s !! t = Some c -> holds_submission c -> holder s = Some t.
Proof using Type. intros Hinv Ht Hh. apply (inv_lock s Hinv). by exists c. Qed.

Lemma fresh_caller s t c : client_inv s -> callers s !! t = Some c -> before_registration c -> channel s !! t = None /\ forall f, reader s <> Sending t f.
Proof using Type.
  intros Hinv Ht Hb. split.
  - destruct (channel s !! t) as [m|] eqn:Hm; [|done]. destruct (inv_channel s Hinv t m Hm) as [(o & Ho & Hn) _]. by assert (o = c) as -> by congruence.
  - intros f Hf. destruct (inv_sending s Hinv t f Hf) as (_ & _ & o & Ho & _ & Hn). by assert (o = c) as -> by congruence.
Qed.

(** A call with the submission locked returns and unlocks it. *)
Lemma unlock_inv s t c key r : client_inv s -> callers s !! t = Some c -> key_of c = Some key -> holds_submission c -> (forall key, pending s !! key <> Some t) ->
  (forall f, r = Ok f -> key = response_key f /\ accepted f) -> client_inv (set_caller (set_holder s None) t (Returned (Some key) r)).
Proof using Type.
  intros Hinv Ht Hk Hh Hp Hr. apply (caller_inv s _ t (Returned (Some key) r) Hinv); cbn; try done.
  - intros op n Hn. exists n. split; [done|lia].
  - intros k' [= <-]. left. by exists c.
  - intros k' t' Hpt. split; [|by left]. intros ->. by destruct (Hp k').
  - intros o Ho _. assert (o = c) as -> by congruence. split; [by intros []|done].
  - intros k' f [= <- ->]. by destruct (Hr f eq_refl) as [-> ?].
  - intros t' Hne. rewrite (holder_self s t c) by done. split; congruence.
Qed.

Lemma register_inv s t key r : client_inv s -> callers s !! t = Some (Submitting key r) -> client_inv (register_request unique_id rank world_size s t key r).
Proof using Type.
  intros Hinv Ht. assert (Hp : forall k, pending s !! k <> Some t) by (intros k; apply not_registered; [done|rewrite Ht; by intros []]).
  pose proof (holder_self s t _ Hinv Ht I) as Hh. destruct (fresh_caller s t _ Hinv Ht I) as [Hc Hr].
  unfold register_request. destruct (frame_new _ _) as [frame|e|]; [|by eapply unlock_inv|by eapply unlock_inv].
  apply (caller_inv s _ t (Writing key frame) Hinv); cbn; try done.
  - intros op n Hn. exists n. split; [done|lia].
  - intros k' [= <-]. left. by eexists.
  - intros k' t' [[-> <-]|[Hne Hpt]]%lookup_insert_Some; [split; [done|by right]|]. split; [intros ->; by destruct (Hp k')|by left].
  - intros o Ho Hb. assert (o = Submitting key r) as -> by congruence. by destruct Hb.
  - intros k' t' Hne Hpt. rewrite lookup_insert_ne; [done|]. intros <-. destruct (inv_pending s Hinv key t' Hpt) as (_ & _ & o & Ho & Hreg).
    apply Hne. eapply (inv_unique s Hinv t' t o _ key Ho Ht); [|done]. by destruct o; cbn in *; try done; subst.
  - intros k' <-. left. apply lookup_insert_eq.
Qed.

Lemma write_inv s t key frame error : client_inv s -> callers s !! t = Some (Writing key frame) -> client_inv (write_request error_text s t key frame error).
Proof using Type.
  intros Hinv Ht. pose proof (holder_self s t _ Hinv Ht I) as Hh.
  assert (Hreg : forall k', pending s !! k' = Some t -> key = k').
  { intros k' Hp. destruct (inv_pending s Hinv k' t Hp) as (_ & _ & o & Ho & Hr). rewrite Ht in Ho. by injection Ho as <-. }
  destruct error as [e|]; cbn [write_request].
  - apply (caller_inv s _ t (WriteFailed key e) Hinv); cbn; try done.
    + intros op n Hn. exists n. split; [done|lia].
    + intros k' [= <-]. left. by eexists.
    + intros k' t' Hp. split; [intros ->; by apply Hreg|by left].
    + intros o Ho _. assert (o = Writing key frame) as -> by congruence. split; [by intros []|done].
  - apply (caller_inv s _ t (Waiting key) Hinv); cbn; try done.
    + intros op n Hn. exists n. split; [done|lia].
    + intros k' [= <-]. left. by eexists.
    + intros k' t' Hp. split; [intros ->; by apply Hreg|by left].
    + intros o Ho _. assert (o = Writing key frame) as -> by congruence. split; [by intros []|done].
    + intros k' <-. by apply (inv_awaits s Hinv t _ key Ht).
    + intros t' Hne. rewrite Hh. split; congruence.
Qed.

(** A call that waits returns. *)
Lemma return_inv s t c key r : client_inv s -> callers s !! t = Some c -> key_of c = Some key -> ~ holds_submission c -> ~ before_registration c ->
  (forall key, pending s !! key <> Some t) -> (forall f, r = Ok f -> key = response_key f /\ accepted f) -> client_inv (set_caller s t (Returned (Some key) r)).
Proof using Type.
  intros Hinv Ht Hk Hh Hb Hp Hr. apply caller_only; cbn; try done; try (by intros ? []).
  - intros k' [= <-]. by exists c.
  - intros o Ho _. assert (o = c) as -> by congruence. split; [by intros []|done].
  - intros k' f [= <- ->]. by destruct (Hr f eq_refl) as [-> ?].
  - split; [|done]. intros Hs. exfalso. eapply (not_holding s t Hinv); [by rewrite Ht|done].
Qed.

Lemma answer_inv s t key s' : client_inv s -> callers s !! t = Some (Waiting key) -> take_answer s t key = Some s' -> client_inv s'.
Proof using Type.
  intros Hinv Ht Hs. unfold take_answer in Hs.
  assert (Hp : forall m k', channel s !! t = Some m -> pending s !! k' <> Some t).
  { intros m k' Hm Hk. destruct (inv_pending s Hinv k' t Hk) as [Hc _]. congruence. }
  destruct (channel s !! t) as [[f|m]|] eqn:Hm.
  - injection Hs as <-. destruct (inv_channel s Hinv t _ Hm) as [_ (Ha & o & Ho & Hk & _)]. assert (o = Waiting key) as -> by congruence. injection Hk as Hkey.
    eapply return_inv; try done; [by intros []|by intros []|by intros k'; eapply Hp|]. by intros f' [= <-].
  - injection Hs as <-. eapply return_inv; try done; [by intros []|by intros []|by intros k'; eapply Hp].
  - destruct (inv_awaits s Hinv t _ key Ht eq_refl) as [Hpt|[[m Hm']|[f Hf]]]; [|congruence|].
    + by rewrite bool_decide_eq_true_2 in Hs.
    + rewrite Hf, (bool_decide_eq_true_2 (t = t)), orb_true_r in Hs by done. done.
Qed.

Lemma deadline_inv s t key : client_inv s -> callers s !! t = Some (Waiting key) -> client_inv (set_caller (set_pending s (delete key (pending s))) t (TimedOut key)).
Proof using Type.
  intros Hinv Ht. apply (caller_inv s _ t (TimedOut key) Hinv); cbn; try done.
  - intros op n Hn. exists n. split; [done|lia].
  - intros k' [= <-]. left. by eexists.
  - intros k' t' [Hne Hp]%lookup_delete_Some. split; [|by left]. intros ->. destruct (inv_pending s Hinv k' t Hp) as (_ & _ & o & Ho & Hr). rewrite Ht in Ho. injection Ho as <-. done.
  - intros o Ho _. assert (o = Waiting key) as -> by congruence. split; [by intros []|done].
  - intros k' t' Hne Hp. rewrite lookup_delete_ne; [done|]. intros <-. destruct (inv_pending s Hinv key t' Hp) as (_ & _ & o & Ho & Hreg).
    apply Hne. eapply (inv_unique s Hinv t' t o _ key Ho Ht); [|done]. by destruct o; cbn in *; try done; subst.
  - split; [|done]. intros Hs. exfalso. eapply (not_holding s t Hinv); [rewrite Ht; by intros []|done].
Qed.

Lemma stream_inv s l shut : client_inv s -> client_inv (set_stream s l shut).
Proof using Type. by intros []. Qed.

Lemma timeout_inv s t key e : client_inv s -> callers s !! t = Some (TimedOut key) -> client_inv (set_caller (set_stream s (written s) true) t (Returned (Some key) (Err e))).
Proof using Type.
  intros Hinv Ht. eapply return_inv; [by apply stream_inv|exact Ht|done|by intros []|by intros []| |done].
  intros k'. apply (not_registered s t k' Hinv). rewrite Ht. by intros [].
Qed.

Lemma record_failure_inv s m : client_inv s -> client_inv (record_failure s m).
Proof using Type.
  intros [H1 H2 H3 H4 H5 H6 H7 H8 H9 H10]. split; cbn; try done.
  - intros t m' Hm. destruct (H5 t m' Hm) as [Ho Hmm]. split; [done|]. by destruct m'.
  - by destruct (reader s).
Qed.

(** *** Failing the pending requests *)
Lemma failed_channel s m t :
  (exists key, pending s !! key = Some t) /\ channel (fail_pending s m) !! t = Some (inr m) \/
  (forall key, pending s !! key <> Some t) /\ channel (fail_pending s m) !! t = channel s !! t.
Proof using Type.
  unfold fail_pending. cbn [channel set_pending set_channel].
  apply (map_fold_weak_ind (fun c p => (exists key, p !! key = Some t) /\ c !! t = Some (inr m) \/ (forall key, p !! key <> Some t) /\ c !! t = channel s !! t)).
  - right. split; [|done]. intros key. by rewrite lookup_empty.
  - intros key t' p c Hnone IH. destruct (decide (t' = t)) as [->|Hne].
    + left. split; [exists key; apply lookup_insert_eq|apply lookup_insert_eq].
    + destruct IH as [[[k' Hk'] Hc]|[Hno Hc]].
      * left. split; [exists k'; rewrite lookup_insert_ne by congruence; done|by rewrite lookup_insert_ne].
      * right. split; [|by rewrite lookup_insert_ne]. intros k'. destruct (decide (k' = key)) as [->|]; [rewrite lookup_insert_eq; congruence|by rewrite lookup_insert_ne].
Qed.

Lemma fail_pending_inv s m : client_inv s -> failure s <> None -> client_inv (fail_pending s m).
Proof using Type.
  intros Hinv Hf. pose proof Hinv as [H1 H2 H3 H4 H5 H6 H7 H8 H9 H10]. split; try done.
  - intros t f Hr. destruct (H4 t f Hr) as [Hc Ha]. split; [|exact Ha]. destruct (failed_channel s m t) as [[[key Hk] _]|[_ ->]]; [|done].
    destruct (H3 key t Hk) as (_ & Hn & _). by destruct (Hn f).
  - intros t m' Hm. destruct (failed_channel s m t) as [[[key Hk] Hc]|[_ Hc]]; rewrite Hc in Hm; [|by apply H5].
    injection Hm as <-. destruct (H3 key t Hk) as (_ & _ & c & Ht & Hreg). split; [|done]. exists c. split; [done|destruct c; try done; by intros []].
  - intros t c key Ht Ha. right. destruct (failed_channel s m t) as [[_ Hc]|[Hno Hc]]; [left; by eexists|].
    destruct (H6 t c key Ht Ha) as [Hp|Hr]; [by destruct (Hno key)|]. by rewrite Hc.
Qed.

(** A call whose write failed has failed the others, and returns. *)
Lemma failed_inv s t key e m : client_inv s -> callers s !! t = Some (WriteFailed key e) ->
  client_inv (set_caller (set_holder (fail_pending s m) None) t (Returned (Some key) (Err e))).
Proof using Type.
  intros Hinv Ht. eapply unlock_inv; [apply fail_pending_inv; [done|by eapply inv_failed]|exact Ht|done|done| |done].
  intros k'. unfold fail_pending. cbn. by rewrite lookup_empty.
Qed.

(** *** The steps of the reader *)
Lemma reader_inv s r : client_inv s -> (forall t f, reader s <> Sending t f) -> (forall t f, r <> Sending t f) ->
  match r with Failing _ | Stopped => failure s <> None | _ => True end -> client_inv (set_reader s r).
Proof using Type.
  intros [H1 H2 H3 H4 H5 H6 H7 H8 H9 H10] Hold Hnew Hr. split; cbn; try done.
  - intros key t Hp. destruct (H3 key t Hp) as (Hc & _ & Ho). done.
  - intros t f Hf. by destruct (Hnew t f).
  - intros t c key Ht Ha. destruct (H6 t c key Ht Ha) as [?|[?|[f Hf]]]; [by left|by right; left|by destruct (Hold t f)].
Qed.

Lemma found_inv s t f : client_inv s -> reader s = Reading -> accepted f -> pending s !! response_key f = Some t ->
  client_inv (set_reader (set_pending s (delete (response_key f) (pending s))) (Sending t f)).
Proof using Type.
  intros [H1 H2 H3 H4 H5 H6 H7 H8 H9 H10] Hread Ha Hp. destruct (H3 _ _ Hp) as (Hc & _ & c & Ht & Hreg). split; cbn; try done.
  - intros key t' [Hne Hp']%lookup_delete_Some. destruct (H3 key t' Hp') as (Hc' & _ & o & Ho & Hro). split; [done|]. split; [|by exists o].
    intros f' [= -> ->]. apply Hne. assert (o = c) as -> by congruence. by destruct c; cbn in *; simplify_eq.
  - intros t' f' [= <- <-]. split; [done|]. split; [done|]. exists c. split; [done|]. destruct c; try done; cbn in Hreg; subst; (split; [done|by intros []]).
  - intros t' o key Ho Hw. destruct (H6 t' o key Ho Hw) as [Hp'|[?|[f' Hf']]]; [|by right; left|congruence].
    destruct (decide (key = response_key f)) as [->|Hne]; [right; right; exists f; congruence|left; by rewrite lookup_delete_ne].
Qed.

Lemma read_inv s i : client_inv s -> reader s = Reading -> client_inv (read_step unique_id rank world_size error_text s i).
Proof using Type.
  intros Hinv Hread.
  assert (Hfail : forall m, client_inv (set_reader (record_failure s m) (Failing m))).
  { intros m. apply reader_inv; [by apply record_failure_inv|cbn; by rewrite Hread|done|done]. }
  destruct i as [f| |e]; cbn [read_step]; [|apply Hfail|apply Hfail].
  destruct (negb _ || _ || _) eqn:Henv; [apply Hfail|]. apply orb_false_iff in Henv as [[Hu Hw]%orb_false_iff Hd].
  apply negb_false_iff, bool_decide_eq_true in Hu. apply negb_false_iff, Z.eqb_eq in Hw, Hd.
  case_bool_decide as Habort; [apply Hfail|].
  destruct (opcode f.(header)) eqn:Hop; try apply Hfail.
  all: destruct (pending s !! _) as [t|] eqn:Hp; [|done]; rewrite <- Hop in *; by apply found_inv.
Qed.

Lemma delivered_inv s t f : client_inv s -> reader s = Sending t f -> client_inv (set_reader (set_channel s (<[t := inl f]> (channel s))) Reading).
Proof using Type.
  intros [H1 H2 H3 H4 H5 H6 H7 H8 H9 H10] Hread. destruct (H4 t f Hread) as [Hc (Ha & c & Ht & Hk & Hb)]. split; cbn; try done.
  - intros key t' Hp. destruct (H3 key t' Hp) as (Hc' & Hr & Ho). split; [|done]. rewrite lookup_insert_ne; [done|]. intros <-. by destruct (Hr f).
  - intros t' m [[<- <-]|[Hne Hm]]%lookup_insert_Some; [split; [by exists c|split; [done|by exists c]]|by apply H5].
  - intros t' o key Ho Hw. destruct (H6 t' o key Ho Hw) as [?|[[m Hm]|[f' Hf']]]; [by left|right; left|right; left].
    + destruct (decide (t' = t)) as [->|Hne]; [eexists; apply lookup_insert_eq|exists m; by rewrite lookup_insert_ne].
    + assert (t' = t) as -> by congruence. eexists. apply lookup_insert_eq.
Qed.

Lemma sequence_inv s op n : client_inv s -> next_sequence_of s op = Some n -> client_inv (advance_sequence s op (n + 1)).
Proof using Type.
  intros Hinv Hn. pose proof (next_after s op n) as Hnext.
  assert (Hsame : forall key m, next_sequence_of s key = Some m -> exists m', next_sequence_of (advance_sequence s op (n + 1)) key = Some m' /\ m <= m').
  { intros key m Hm. eexists. split; [by apply (Hnext key m)|]. case_decide; [subst; simplify_eq; lia|lia]. }
  destruct Hinv as [H1 H2 H3 H4 H5 H6 H7 H8 H9 H10]. destruct op; try done; split; try done; intros t c key Ht Hk;
    destruct (H1 t c key Ht Hk) as (m & Hm & Hlt); destruct (Hsame _ _ Hm) as (m' & Hm' & Hle); exists m'; (split; [done|lia]).
Qed.

Abbreviation step := (client_step unique_id rank world_size error_text).

Lemma client_step_inv e s s' : client_inv s -> step e s = Some s' -> client_inv s'.
Proof using Type.
  intros Hinv Hs. destruct e as [t r|t|t error|t|message error|i|]; cbn in Hs.
  - destruct (callers s !! t) eqn:Ht; [done|]. injection Hs as <-. by apply call_inv.
  - destruct (callers s !! t) as [[r|key r|key f|key e|key|key|key r]|] eqn:Ht; try done.
    + destruct (holder s) eqn:Hh; [done|]. injection Hs as <-. by apply submit_inv.
    + injection Hs as <-. by apply register_inv.
    + injection Hs as <-. by apply failed_inv.
    + by eapply answer_inv.
    + destruct (holder s); [done|]. injection Hs as <-. by apply timeout_inv.
  - destruct (callers s !! t) as [[]|] eqn:Ht; try done. injection Hs as <-. by apply write_inv.
  - destruct (callers s !! t) as [[]|] eqn:Ht; try done. destruct (channel s !! t); [done|]. injection Hs as <-. by apply deadline_inv.
  - destruct (holder s); [done|]. injection Hs as <-. unfold abort_step. unfold checked_add. destruct (checked 64 _) as [next|] eqn:Hc; [|done].
    apply checked_Some in Hc as [-> _]. assert (Hadv : client_inv (advance_sequence s Opcode.Send (next_send_sequence s + 1))) by by apply sequence_inv.
    destruct (frame_new _ _); [|done|done]. destruct error; [done|]. by apply stream_inv.
  - destruct (reader s) eqn:Hr; try done. injection Hs as <-. by apply read_inv.
  - destruct (reader s) as [|t f|m|] eqn:Hr; try done; injection Hs as <-; [by apply delivered_inv|].
    pose proof (inv_reader s Hinv) as Hf. rewrite Hr in Hf. apply reader_inv; [by apply fail_pending_inv| |done|done]. intros t f. cbn. by rewrite Hr.
Qed.

Lemma reachable_inv l s : runs step l client_new s -> client_inv s.
Proof using Type.
  assert (Hall : forall s0 s1, runs step l s0 s1 -> client_inv s0 -> client_inv s1).
  { induction 1 as [|e l s0 s1 s2 He _ IH]; [done|]. intros Hinv. apply IH. by eapply client_step_inv. }
  intros Hr. by apply (Hall client_new s Hr), inv_new.
Qed.

(** A recorded failure stays, and the calls that find it are refused. *)
Lemma failure_stays e s s' m : step e s = Some s' -> failure s = Some m -> failure s' = Some m.
Proof using Type.
  intros Hs Hm. destruct e as [t r|t|t error|t|message error|i|]; cbn in Hs; repeat (case_match; try discriminate Hs); simplify_eq; cbn; try done; rewrite ?Hm; try done.
  all: unfold submit_request, register_request, write_request, take_answer, abort_step, read_step in *; repeat (case_match; simplify_eq; cbn; try done); cbn in *; rewrite ?Hm; try done; congruence.
Qed.

Lemma waiting_step s t key s' : client_inv s -> callers s !! t = Some (Waiting key) -> step (Advance t) s = Some s' ->
  exists r, callers s' !! t = Some (Returned (Some key) r) /\ ((exists f, r = Ok f) \/ exists m, r = Err (remote_abort m)).
Proof using Type.
  intros Hinv Ht Hs. cbn in Hs. rewrite Ht in Hs. unfold take_answer in Hs. destruct (channel s !! t) as [[f|m]|] eqn:Hm; [injection Hs as <-..|].
  - eexists. split; [apply lookup_insert_eq|left; by eexists].
  - eexists. split; [apply lookup_insert_eq|right; by eexists].
  - destruct (inv_awaits s Hinv t _ key Ht eq_refl) as [Hpt|[[m Hm']|[f Hf]]]; [|congruence|].
    + by rewrite bool_decide_eq_true_2 in Hs.
    + rewrite Hf, (bool_decide_eq_true_2 (t = t)), orb_true_r in Hs by done. done.
Qed.

(** C10: However the threads of a rank, the reader of its point-to-point connection
    and the stream go on: a call that returns a frame returns the response of
    this session to this rank with the opcode and sequence number of its own
    request, which no other call has; a call that waits has its sender among the
    pending requests or with the reader, or it returns at its next step, with a
    frame or with the failure of the connection and never with a closed channel;
    and who holds the submission can go on. *)
Theorem p2p_client_pairs l s : runs step l client_new s ->
  (forall t key f, callers s !! t = Some (Returned key (Ok f)) -> key = Some (response_key f) /\ accepted f) /\
  (forall t1 t2 c1 c2 key, callers s !! t1 = Some c1 -> callers s !! t2 = Some c2 -> key_of c1 = Some key -> key_of c2 = Some key -> t1 = t2) /\
  (forall t key, callers s !! t = Some (Waiting key) ->
    (pending s !! key = Some t \/ (exists f, reader s = Sending t f) \/ is_Some (step (Advance t) s)) /\
    forall s', step (Advance t) s = Some s' -> exists r, callers s' !! t = Some (Returned (Some key) r) /\ ((exists f, r = Ok f) \/ exists m, r = Err (remote_abort m))) /\
  (forall t, holder s = Some t -> is_Some (step (Advance t) s) \/ forall error, is_Some (step (Write t error) s)).
Proof using Type.
  intros Hl. pose proof (reachable_inv l s Hl) as Hinv. split; [|split; [|split]].
  - intros t key f. apply (inv_returned s Hinv).
  - apply (inv_unique s Hinv).
  - intros t key Ht. split; [|intros s'; by apply waiting_step].
    destruct (inv_awaits s Hinv t _ key Ht eq_refl) as [Hpt|[[m Hm]|Hr]]; [by left|right; right|by right; left].
    cbn. rewrite Ht. unfold take_answer. rewrite Hm. destruct m; by eexists.
  - intros t Hh. apply (inv_lock s Hinv) in Hh as (c & Ht & Hc). cbn. rewrite Ht. destruct c; try done; [left; by eexists|right; intros error; by eexists|left; by eexists].
Qed.
End invariant.

(** ** Concrete traces *)
Module ClientExample.
Import Crc32Ieee.
Definition uid : list Z := map Z.of_nat (seq 0 16).
Definition text (e : NetworkError) : list Z := [].
Abbreviation step := (client_step uid 0 2 text).

Definition request (op : Opcode) : P2pRequest := mkRequest op 1 7 ElementType.U8 0 [].

(** The acknowledgement of the first send. *)
Definition acknowledgement : Frame :=
  let h := set_tag (set_destination_rank (collective uid Opcode.Send ElementType.U8 1 ANY_RANK 2 0 0) 0) 7 in
  match frame_new h [] with Ok f => f | _ => mkFrame h [] end.

(** Two calls; the response to the first arrives while the second has the submission. *)
Definition two_calls : list ClientEvent :=
  [Call 0 (request Opcode.Send); Call 1 (request Opcode.Receive); Advance 0; Advance 0; Write 0 None; Advance 1;
   Read (Received acknowledgement); AdvanceReader; Advance 0; Advance 1; Write 1 None].

(** A call that has found no failure, and registers when the reader has failed
    the pending requests and returned. *)
Definition late_call : list ClientEvent := [Call 0 (request Opcode.Receive); Advance 0; Read Closed; AdvanceReader; Advance 0; Write 0 None].

Definition run (l : list ClientEvent) : option P2pClient := replay step l client_new.

(** Nothing but its deadline ends a late call: it is not told of the failure. *)
Lemma late_call_waits : exists s, run late_call = Some s /\ reader s = Stopped /\ failure s <> None /\ callers s !! 0%nat = Some (Waiting (mkKey Opcode.Receive 0)) /\
  step (Advance 0) s = None /\ step AdvanceReader s = None /\ forall i, step (Read i) s = None.
Proof.
  eexists. split; [vm_compute; reflexivity|]. split; [reflexivity|]. split; [discriminate|]. split; [reflexivity|]. split; [vm_compute; reflexivity|].
  split; [reflexivity|]. intros i. reflexivity.
Qed.
End ClientExample.

Import Crc32Ieee ClientExample.

Lemma p2p_client_pairs_witness : exists s, run two_calls = Some s /\ callers s !! 0%nat = Some (Returned (Some (mkKey Opcode.Send 0)) (Ok acknowledgement)) /\
  (is_Some (step (Advance 1) s) \/ pending s !! mkKey Opcode.Receive 0 = Some 1%nat \/ exists f, reader s = Sending 1 f).
Proof.
  destruct (run two_calls) as [s|] eqn:Hs; [|by vm_compute in Hs]. exists s.
  assert (H0 : callers s !! 0%nat = Some (Returned (Some (mkKey Opcode.Send 0)) (Ok acknowledgement))) by (vm_compute in Hs; injection Hs as <-; vm_compute; reflexivity).
  assert (H1 : callers s !! 1%nat = Some (Waiting (mkKey Opcode.Receive 0))) by (vm_compute in Hs; injection Hs as <-; vm_compute; reflexivity).
  split; [reflexivity|]. split; [exact H0|].
  destruct (p2p_client_pairs uid 0 2 text two_calls s (replay_runs _ _ _ _ Hs)) as (_ & _ & Hwait & _).
  destruct (Hwait 1%nat _ H1) as [[Hp|[Hf|Ha]] _]; [right; left; exact Hp|right; right; exact Hf|left; exact Ha].
Defined.
