(* ===== verification/Peer.v ===== *)
(** * The mesh of the peers: DirectPeerMesh of src/src/rank/peer.rs

    Every two ranks are connected by one stream per rail.  A send writes its frame
    and waits until the reader of the other rank has put it in that rank's inbox
    and acknowledged it; a receive takes the first frame of its rail, source and
    tag from the inbox of its rank.  The state is that of all ranks, with what is
    written to their streams and not yet read; a step is what one thread does
    between two points where another may go on.  A send locks the submission of
    its connection from the choice of a sequence number to the write; that is one
    step, as others see nothing of it before its end but through [set_peer_failure],
    which it polls for afterwards.  Poisoned locks, the write timeouts and the
    [Leave] frames of a mesh that is dropped are left out. *)
From stdpp Require Import countable.
From S2P Require Import Prelude Protocol Errors Processes P2pClient.

(** A pending acknowledgement of a rank, and its connection to a peer on a rail. *)
Record AckKey := mkAckKey { ack_peer : nat; ack_rail : nat; ack_sequence : Z }.

#[export] Instance AckKey_eq_dec : EqDecision AckKey.
Proof. solve_decision. Defined.

#[export] Instance AckKey_countable : Countable AckKey.
Proof. refine (inj_countable' (fun k => (ack_peer k, ack_rail k, ack_sequence k)) (fun k => mkAckKey k.1.1 k.1.2 k.2) _). by intros []. Defined.

(** Rank, rail, peer. *)
Abbreviation Connection := (nat * nat * nat)%type.

Record QueuedFrame := mkQueued { queued_rail : nat; queued_frame : Frame }.

Record SendArguments := mkSend {
  send_rail : nat;
  send_destination : nat;
  send_tag : Z;
  send_type : ElementType;
  send_count : Z;
  send_payload : list Z;
}.

Record ReceiveArguments := mkReceive {
  receive_rail : nat;
  receive_source : option nat;
  receive_tag : Z;
  receive_type : ElementType;
  receive_count : Z;
}.

(** Where a call stands. *)
Inductive PeerCall :=
  | SendEntering (q : SendArguments)
  | SendSubmitting (q : SendArguments)
  | SendWaiting (key : AckKey)
  | SendReturned (r : nresult unit)
  | ReceiveEntering (q : ReceiveArguments)
  | ReceiveWaiting (q : ReceiveArguments)
  | ReceiveReturned (r : nresult Frame)
  | Aborting (message : list Z) (remaining : list (nat * nat)) (first_error : option NetworkError)
  | AbortReturned (r : nresult unit).

(** The reader of a connection reads, acknowledges a frame that it has queued, or
    has returned. *)
Inductive PeerReader := PeerReading | Acknowledging (acknowledgement : Frame) | PeerStopped.

(** [sequences] are the next ones of the submissions, [streams] what a rank has
    written to a peer, [pending_acks] name the call to whose channel a sender
    belongs, and [answers] are the messages in the calls' channels. *)
Record PeerMesh := mkMesh {
  sequences : gmap Connection Z;
  streams : gmap Connection (list Frame);
  inboxes : gmap nat (list QueuedFrame);
  pending_acks : gmap (nat * AckKey) nat;
  failures : gmap nat Text;
  readers : gmap Connection PeerReader;
  answers : gmap nat (option Text);
  calls : gmap nat (nat * PeerCall);
}.

Definition mesh_new : PeerMesh := mkMesh ∅ ∅ ∅ ∅ ∅ ∅ ∅ ∅.

Definition set_sequence (s : PeerMesh) (c : Connection) (n : Z) : PeerMesh :=
  mkMesh (<[c := n]> (sequences s)) (streams s) (inboxes s) (pending_acks s) (failures s) (readers s) (answers s) (calls s).
Definition set_stream_of (s : PeerMesh) (c : Connection) (l : list Frame) : PeerMesh :=
  mkMesh (sequences s) (<[c := l]> (streams s)) (inboxes s) (pending_acks s) (failures s) (readers s) (answers s) (calls s).
Definition set_inbox (s : PeerMesh) (r : nat) (l : list QueuedFrame) : PeerMesh :=
  mkMesh (sequences s) (streams s) (<[r := l]> (inboxes s)) (pending_acks s) (failures s) (readers s) (answers s) (calls s).
Definition set_pending_acks (s : PeerMesh) (p : gmap (nat * AckKey) nat) : PeerMesh :=
  mkMesh (sequences s) (streams s) (inboxes s) p (failures s) (readers s) (answers s) (calls s).
Definition set_failure_of (s : PeerMesh) (r : nat) (m : Text) : PeerMesh :=
  mkMesh (sequences s) (streams s) (inboxes s) (pending_acks s) (<[r := m]> (failures s)) (readers s) (answers s) (calls s).
Definition set_peer_reader (s : PeerMesh) (c : Connection) (x : PeerReader) : PeerMesh :=
  mkMesh (sequences s) (streams s) (inboxes s) (pending_acks s) (failures s) (<[c := x]> (readers s)) (answers s) (calls s).
Definition set_answers (s : PeerMesh) (a : gmap nat (option Text)) : PeerMesh :=
  mkMesh (sequences s) (streams s) (inboxes s) (pending_acks s) (failures s) (readers s) a (calls s).
Definition set_call (s : PeerMesh) (t r : nat) (c : PeerCall) : PeerMesh :=
  mkMesh (sequences s) (streams s) (inboxes s) (pending_acks s) (failures s) (readers s) (answers s) (<[t := (r, c)]> (calls s)).

Definition stream_of (s : PeerMesh) (c : Connection) : list Frame := default [] (streams s !! c).
Definition inbox_of (s : PeerMesh) (r : nat) : list QueuedFrame := default [] (inboxes s !! r).
Definition sequence_of (s : PeerMesh) (c : Connection) : Z := default 0 (sequences s !! c).
Definition reader_of (s : PeerMesh) (c : Connection) : PeerReader := default PeerReading (readers s !! c).

Definition write_to (s : PeerMesh) (c : Connection) (f : Frame) : PeerMesh := set_stream_of s c (stream_of s c ++ [f]).
Definition queue_frame (s : PeerMesh) (r rail : nat) (f : Frame) : PeerMesh := set_inbox s r (inbox_of s r ++ [mkQueued rail f]).

(** The pending acknowledgements of a rank. *)
Definition pending_of (s : PeerMesh) (r : nat) : gmap (nat * AckKey) nat := filter (fun x => x.1.1 = r) (pending_acks s).

Definition set_peer_failure (s : PeerMesh) (r : nat) (message : Text) : PeerMesh :=
  let s := set_failure_of s r (default message (failures s !! r)) in
  set_pending_acks (set_answers s (map_fold (fun _ t a => <[t := Some message]> a) (answers s) (pending_of s r)))
    (filter (fun x => x.1.1 <> r) (pending_acks s)).

Section mesh.
Context `{Crc32Hash} (unique_id : list Z) (world_size rails : nat) (error_text : NetworkError -> list Z).
Abbreviation peer_z n := (Z.of_nat n).

Definition failed_with (m : Text) : NetworkError := NetworkError.RemoteAbort m.1 m.2.

Definition validate_mesh_rail (rail : nat) : nresult unit :=
  fail_if (rails <=? rail)%nat (InvalidConfiguration "direct peer rail {rail} is outside 0..{}").
Definition validate_peer (peer : nat) : nresult unit :=
  fail_if (world_size <=? peer)%nat (NetworkError.Protocol (RankOutOfRange "peer" (peer_z peer) (peer_z world_size))).
Definition check_failure (s : PeerMesh) (r : nat) : nresult unit :=
  match failures s !! r with Some m => Err (failed_with m) | None => Ok tt end.

(** The frame of a send under a sequence number. *)
Definition send_frame (r : nat) (q : SendArguments) (n : Z) : nresult Frame :=
  lift_protocol (frame_new (set_tag (set_destination_rank
    (collective unique_id Opcode.Send (send_type q) (peer_z r) ANY_RANK (peer_z world_size) n (send_count q)) (peer_z (send_destination q))) (send_tag q))
    (send_payload q)).

(** [send_on_rail] up to the connection; a rank sends to itself at once. *)
Definition enter_send (s : PeerMesh) (t r : nat) (q : SendArguments) : PeerMesh :=
  match (_ ← validate_mesh_rail (send_rail q); _ ← validate_peer (send_destination q); check_failure s r) with
  | Ok _ =>
      if (send_destination q =? r)%nat then
        match send_frame r q 0 with
        | Ok frame => set_call (queue_frame s r (send_rail q) frame) t r (SendReturned (Ok tt))
        | Err e => set_call s t r (SendReturned (Err e))
        | Panic => set_call s t r (SendReturned Panic)
        end
      else set_call s t r (SendSubmitting q)
  | Err e => set_call s t r (SendReturned (Err e))
  | Panic => set_call s t r (SendReturned Panic)
  end.

(** From the lock of the submission to its end; [error] is that of [write_frame]. *)
Definition submit_send (s : PeerMesh) (t r : nat) (q : SendArguments) (error : option NetworkError) : PeerMesh :=
  let c := (r, send_rail q, send_destination q) in
  let current_sequence := sequence_of s c in
  match checked_add 64 current_sequence 1 with
  | None => set_call s t r (SendReturned (Err (NetworkError.Protocol SequenceOverflow)))
  | Some next =>
      let s := set_sequence s c next in
      let key := mkAckKey (send_destination q) (send_rail q) current_sequence in
      match send_frame r q current_sequence with
      | Ok frame =>
          let s := set_pending_acks s (<[(r, key) := t]> (pending_acks s)) in
          match error with
          | None => set_call (write_to s c frame) t r (SendWaiting key)
          | Some e =>
              set_call (set_peer_failure s r ("direct peer send to rank {destination} rail {rail} failed: {error}"%string, error_text e)) t r (SendReturned (Err e))
          end
      | Err e => set_call s t r (SendReturned (Err e))
      | Panic => set_call s t r (SendReturned Panic)
      end
  end.

(** One turn of the loop in which a send waits: the failure is looked at first, ... *)
Definition poll_failure (s : PeerMesh) (t r : nat) (key : AckKey) : option PeerMesh :=
  match failures s !! r with
  | Some m => Some (set_call (set_pending_acks s (delete (r, key) (pending_acks s))) t r (SendReturned (Err (failed_with m))))
  | None => None
  end.

(** ... then the deadline, ... *)
Definition send_deadline (s : PeerMesh) (t r : nat) (key : AckKey) : PeerMesh :=
  let message := ("direct peer send to rank {destination} rail {rail} with tag {tag} timed out"%string, []) in
  set_call (set_peer_failure (set_pending_acks s (delete (r, key) (pending_acks s))) r message) t r
    (SendReturned (Err (NetworkError.Timeout "direct peer send to rank {destination} rail {rail} with tag {tag} timed out"))).

(** ... then the channel, which is closed when no sender is left. *)
Definition take_acknowledgement (s : PeerMesh) (t r : nat) (key : AckKey) : option PeerMesh :=
  match answers s !! t with
  | Some None => Some (set_call s t r (SendReturned (Ok tt)))
  | Some (Some m) => Some (set_call s t r (SendReturned (Err (failed_with m))))
  | None => if bool_decide (pending_acks s !! (r, key) = Some t) then None else Some (set_call s t r (SendReturned (Err NetworkError.ChannelClosed)))
  end.

Definition enter_receive (s : PeerMesh) (t r : nat) (q : ReceiveArguments) : PeerMesh :=
  match (_ ← validate_mesh_rail (receive_rail q); match receive_source q with Some source => validate_peer source | None => Ok tt end) with
  | Ok _ => set_call s t r (ReceiveWaiting q)
  | Err e => set_call s t r (ReceiveReturned (Err e))
  | Panic => set_call s t r (ReceiveReturned Panic)
  end.

(** What a receive looks for in its inbox. *)
Definition wanted (q : ReceiveArguments) (x : QueuedFrame) : Prop :=
  queued_rail x = receive_rail q /\ tag (queued_frame x).(header) = receive_tag q /\
  match receive_source q with Some source => source_rank (queued_frame x).(header) = peer_z source | None => True end.

#[export] Instance wanted_dec q x : Decision (wanted q x).
Proof using Type. unfold wanted. destruct (receive_source q); solve_decision. Defined.

(** One turn of the loop of a receive, with the inbox locked. *)
Definition scan_inbox (s : PeerMesh) (t r : nat) (q : ReceiveArguments) : option PeerMesh :=
  match failures s !! r with
  | Some m => Some (set_call s t r (ReceiveReturned (Err (failed_with m))))
  | None =>
      match list_find (wanted q) (inbox_of s r) with
      | Some (index, x) =>
          let h := (queued_frame x).(header) in
          let result :=
            if negb (bool_decide (element_type h = receive_type q)) || negb (element_count h =? receive_count q)
            then Err (InvalidConfiguration "direct peer tag {tag} contract mismatch: send {:?}/{} receive {:?}/{}")
            else Ok (queued_frame x) in
          Some (set_call (set_inbox s r (delete index (inbox_of s r))) t r (ReceiveReturned result))
      | None => None
      end
  end.

Definition receive_deadline (s : PeerMesh) (t r : nat) : PeerMesh :=
  set_call (set_peer_failure s r ("direct peer receive on rail {rail} with tag {tag} timed out"%string, [])) t r
    (ReceiveReturned (Err (NetworkError.Timeout "direct peer receive on rail {rail} with tag {tag} timed out"))).

(** The connections of a rank, in order. *)
Definition connections_of (r : nat) : list (nat * nat) :=
  flat_map (fun rail => map (pair rail) (filter (fun peer => peer <> r) (seq 0 world_size))) (seq 0 rails).

Definition abort_header (r peer : nat) (message : list Z) : FrameHeader :=
  set_destination_rank (collective unique_id Opcode.Abort ElementType.U8 (peer_z r) ANY_RANK (peer_z world_size) 0 (Zlen message)) (peer_z peer).

(** [abort], one connection at a time. *)
Definition abort_next (s : PeerMesh) (t r : nat) (message : list Z) (remaining : list (nat * nat)) (first_error error : option NetworkError) : PeerMesh :=
  let keep e := match first_error with Some e' => Some e' | None => Some e end in
  match remaining with
  | [] => set_call s t r (AbortReturned (match first_error with Some e => Err e | None => Ok tt end))
  | (rail, peer) :: remaining =>
      match lift_protocol (frame_new (abort_header r peer message) message), error with
      | Ok frame, None => set_call (write_to s (r, rail, peer) frame) t r (Aborting message remaining first_error)
      | Ok _, Some e => set_call s t r (Aborting message remaining (keep e))
      | Err e, _ => set_call s t r (Aborting message remaining (keep e))
      | Panic, _ => set_call s t r (AbortReturned Panic)
      end
  end.

Definition peer_send_acknowledgement (r peer : nat) (send : Frame) : nresult Frame :=
  lift_protocol (frame_new (set_tag (set_destination_rank
    (collective unique_id Opcode.Send ElementType.None (peer_z r) ANY_RANK (peer_z world_size) (sequence send.(header)) 0) (peer_z peer)) (tag send.(header))) []).

(** The reader of [r] for [peer] on [rail] has read a frame. *)
Definition read_frame_of (s : PeerMesh) (r rail peer : nat) (frame : Frame) : PeerMesh :=
  let h := frame.(header) in
  let c := (r, rail, peer) in
  let stop message := set_peer_reader (set_peer_failure s r message) c PeerStopped in
  if negb (bool_decide (Protocol.unique_id h = unique_id)) || negb (Protocol.world_size h =? peer_z world_size) || negb (source_rank h =? peer_z peer)
     || negb (destination_rank h =? peer_z r) || negb (root_rank h =? ANY_RANK)
  then stop ("invalid direct peer frame envelope"%string, [])
  else match opcode h with
       | Opcode.Send =>
           if bool_decide (element_type h = ElementType.None) then
             if negb (bool_decide (frame.(payload) = [])) || negb (element_count h =? 0) then stop ("invalid direct peer send acknowledgement"%string, [])
             else
               let key := mkAckKey peer rail (sequence h) in
               match pending_acks s !! (r, key) with
               | Some t => set_answers (set_pending_acks s (delete (r, key) (pending_acks s))) (<[t := None]> (answers s))
               | None => s
               end
           else
             match peer_send_acknowledgement r peer frame with
             | Ok acknowledgement => set_peer_reader (queue_frame s r rail frame) c (Acknowledging acknowledgement)
             | Err e => stop ("{}"%string, error_text e)
             | Panic => set_peer_reader s c PeerStopped
             end
       | Opcode.Abort => stop ("{}"%string, frame.(payload))
       | Opcode.Leave => stop ("direct peer rank {} left"%string, [])
       | _ => stop ("unexpected {opcode:?} on direct peer connection"%string, [])
       end.

Inductive PeerEvent :=
  | CallSend (t r : nat) (q : SendArguments)
  | CallReceive (t r : nat) (q : ReceiveArguments)
  | CallAbort (t r : nat) (message : list Z)
  | AdvanceCall (t : nat) (error : option NetworkError)
  | PollFailure (t : nat)
  | PassDeadline (t : nat)
  | ReadPeer (c : Connection)
  | WriteAcknowledgement (c : Connection) (error : option NetworkError)
  | ReadEnd (c : Connection) (error : option NetworkError).

(** What [run_peer_reader] records when its stream is closed or cannot be read. *)
Definition read_end_message (error : option NetworkError) : Text :=
  match error with
  | None => ("direct peer rank {} rail {} closed"%string, [])
  | Some e => ("direct peer rank {} rail {} read failed: {error}"%string, error_text e)
  end.

Definition call_new (s : PeerMesh) (t r : nat) (c : PeerCall) : option PeerMesh :=
  match calls s !! t with None => if (r <? world_size)%nat then Some (set_call s t r c) else None | Some _ => None end.

(** The end of a stream, or an error on it, comes at any time. *)
Definition mesh_step (e : PeerEvent) (s : PeerMesh) : option PeerMesh :=
  match e with
  | CallSend t r q => call_new s t r (SendEntering q)
  | CallReceive t r q => call_new s t r (ReceiveEntering q)
  | CallAbort t r message => call_new (set_peer_failure s r ("{}"%string, message)) t r (Aborting message (connections_of r) None)
  | AdvanceCall t error =>
      match calls s !! t with
      | Some (r, SendEntering q) => Some (enter_send s t r q)
      | Some (r, SendSubmitting q) => Some (submit_send s t r q error)
      | Some (r, SendWaiting key) => take_acknowledgement s t r key
      | Some (r, ReceiveEntering q) => Some (enter_receive s t r q)
      | Some (r, ReceiveWaiting q) => scan_inbox s t r q
      | Some (r, Aborting message remaining first_error) => Some (abort_next s t r message remaining first_error error)
      | _ => None
      end
  | PollFailure t => match calls s !! t with Some (r, SendWaiting key) => poll_failure s t r key | _ => None end
  | PassDeadline t =>
      match calls s !! t with
      | Some (r, SendWaiting key) => Some (send_deadline s t r key)
      | Some (r, ReceiveWaiting q) => Some (receive_deadline s t r)
      | _ => None
      end
  | ReadPeer c =>
      let '(r, rail, peer) := c in
      match reader_of s c, stream_of s (peer, rail, r) with
      | PeerReading, frame :: rest => Some (read_frame_of (set_stream_of s (peer, rail, r) rest) r rail peer frame)
      | _, _ => None
      end
  | WriteAcknowledgement c error =>
      match reader_of s c, error with
      | Acknowledging frame, None => Some (set_peer_reader (write_to s c frame) c PeerReading)
      | Acknowledging frame, Some e =>
          Some (set_peer_reader (set_peer_failure s c.1.1 ("direct peer acknowledgement failed: {error}"%string, error_text e)) c PeerStopped)
      | _, _ => None
      end
  | ReadEnd c error =>
      match reader_of s c with
      | PeerReading => Some (set_peer_reader (set_peer_failure s c.1.1 (read_end_message error)) c PeerStopped)
      | _ => None
      end
  end.
End mesh.

(** ** What the mesh of the peers delivers

    Messages arrive whole and in the order of their sends under each tag, a send
    that returns has arrived, and a send that waits is pending or answered. *)

(** ** The frames of a mesh *)

(** A message, as the reader tells them from acknowledgements. *)
Definition is_data (f : Frame) : Prop := opcode f.(header) = Opcode.Send /\ element_type f.(header) <> ElementType.None.
Definition is_acknowledgement (f : Frame) : Prop :=
  opcode f.(header) = Opcode.Send /\ element_type f.(header) = ElementType.None /\ element_count f.(header) = 0 /\ f.(payload) = [].

#[export] Instance is_data_dec f : Decision (is_data f).
Proof. unfold is_data. solve_decision. Defined.

Lemma frame_new_fields `{Crc32Hash} h p f : frame_new h p = Ok f ->
  payload f = p /\ opcode f.(header) = opcode h /\ element_type f.(header) = element_type h /\ source_rank f.(header) = source_rank h /\
  destination_rank f.(header) = destination_rank h /\ root_rank f.(header) = root_rank h /\ world_size f.(header) = world_size h /\
  sequence f.(header) = sequence h /\ tag f.(header) = tag h /\ element_count f.(header) = element_count h /\ unique_id f.(header) = unique_id h.
Proof.
  unfold frame_new. intros (h' & Hh & [= <-])%bind_Ok. cbn [header payload]. destruct p.
  - apply bind_Ok in Hh as (? & _ & [= <-]). done.
  - unfold with_payload in Hh. apply bind_Ok in Hh as (? & _ & Hh). apply bind_Ok in Hh as (? & _ & [= <-]). done.
Qed.

(** ** What happened on a mesh, for the theorems *)

(** Messages with the rank, rail and peer that they go from, on and to. *)
Abbreviation Message := (Connection * Frame)%type.

Record MeshHistory := mkMeshHistory { sent : list Message; arrived : list Message; taken : list Message; sends : gmap nat Message }.

Definition mesh_history_new : MeshHistory := mkMeshHistory [] [] [] ∅.

(** The messages of a connection, and those with a tag. *)
Definition on (c : Connection) (l : list Message) : list Frame := (filter (fun x => x.1 = c) l).*2.
Definition tagged (tg : Z) (l : list Frame) : list Frame := filter (fun f => tag f.(header) = tg) l.

Lemma on_app c l k : on c (l ++ k) = on c l ++ on c k.
Proof. unfold on. by rewrite filter_app, fmap_app. Qed.

Lemma on_one c f : on c [(c, f)] = [f].
Proof. unfold on. by rewrite filter_cons_True. Qed.

Lemma on_other c c' f : c <> c' -> on c [(c', f)] = [].
Proof. intros Hne. unfold on. rewrite filter_cons_False; [done|]. cbn. congruence. Qed.

Lemma elem_of_on c f l : f ∈ on c l <-> (c, f) ∈ l.
Proof.
  unfold on. rewrite list_elem_of_fmap. split.
  - intros ([c' f'] & -> & [Hc Hin]%list_elem_of_filter). cbn in *. by subst.
  - intros Hin. exists (c, f). split; [done|]. by apply list_elem_of_filter.
Qed.

Lemma tagged_app tg l k : tagged tg (l ++ k) = tagged tg l ++ tagged tg k.
Proof. apply filter_app. Qed.

Section history.
Context `{Crc32Hash} (uid : list Z) (world rails : nat) (error_text : NetworkError -> list Z).
Abbreviation send_frame := (Peer.send_frame uid world).
Abbreviation step := (mesh_step uid world rails error_text).

(** The message that an event puts on its way, and the call that does. *)
Definition message_sent (e : PeerEvent) (s : PeerMesh) : option (nat * Message) :=
  match e with
  | AdvanceCall t error =>
      match calls s !! t with
      | Some (r, SendEntering q) =>
          match (_ ← validate_mesh_rail rails (send_rail q); _ ← validate_peer world (send_destination q); check_failure s r), send_frame r q 0 with
          | Ok _, Ok f => if (send_destination q =? r)%nat then Some (t, ((r, send_rail q, r), f)) else None
          | _, _ => None
          end
      | Some (r, SendSubmitting q) =>
          let c := (r, send_rail q, send_destination q) in
          match checked_add 64 (sequence_of s c) 1, send_frame r q (sequence_of s c), error with
          | Some _, Ok f, None => Some (t, (c, f))
          | _, _, _ => None
          end
      | _ => None
      end
  | _ => None
  end.

(** The message that an event puts into an inbox. *)
Definition message_arrived (e : PeerEvent) (s : PeerMesh) : option Message :=
  match e with
  | AdvanceCall t error =>
      match calls s !! t, message_sent e s with Some (_, SendEntering _), Some (_, m) => Some m | _, _ => None end
  | ReadPeer (r, rail, peer) =>
      match reader_of s (r, rail, peer), stream_of s (peer, rail, r) with
      | PeerReading, f :: _ => if decide (is_data f) then Some ((peer, rail, r), f) else None
      | _, _ => None
      end
  | _ => None
  end.

(** The message that a receive takes. *)
Definition message_taken (e : PeerEvent) (s : PeerMesh) : option Message :=
  match e with
  | AdvanceCall t error =>
      match calls s !! t with
      | Some (r, ReceiveWaiting q) =>
          match failures s !! r, list_find (wanted q) (inbox_of s r) with
          | None, Some (_, x) => Some ((Z.to_nat (source_rank (queued_frame x).(header)), queued_rail x, r), queued_frame x)
          | _, _ => None
          end
      | _ => None
      end
  | _ => None
  end.

Definition log {A} (l : list A) (m : option A) : list A := match m with Some x => l ++ [x] | None => l end.

Definition record_mesh (e : PeerEvent) (s : PeerMesh) (h : MeshHistory) : MeshHistory :=
  mkMeshHistory (log (sent h) (option_map snd (message_sent e s))) (log (arrived h) (message_arrived e s)) (log (taken h) (message_taken e s))
    (match message_sent e s with Some (t, m) => <[t := m]> (sends h) | None => sends h end).

Definition recorded_mesh_step (e : PeerEvent) (s : PeerMesh * MeshHistory) : option (PeerMesh * MeshHistory) :=
  s' ← step e s.1; Some (s', record_mesh e s.1 s.2).

(** ** Messages in streams and inboxes *)

(** A frame of this mesh from a rank to a peer. *)
Definition from_to (c : Connection) (f : Frame) : Prop :=
  let '(r, _, peer) := c in
  unique_id f.(header) = uid /\ Protocol.world_size f.(header) = Z.of_nat world /\ source_rank f.(header) = Z.of_nat r /\
  destination_rank f.(header) = Z.of_nat peer /\ root_rank f.(header) = ANY_RANK /\ (r < world)%nat /\ (peer < world)%nat.

Definition reversed (c : Connection) : Connection := let '(r, rail, peer) := c in (peer, rail, r).

(** An acknowledgement of a message that has arrived. *)
Definition acknowledges (l : list Message) (c : Connection) (f : Frame) : Prop :=
  is_acknowledgement f /\ exists g, g ∈ on (reversed c) l /\ sequence g.(header) = sequence f.(header).

Definition waiting_in (ib : gmap nat (list QueuedFrame)) (c : Connection) : list Frame :=
  let '(r, rail, peer) := c in
  queued_frame <$> filter (fun x => queued_rail x = rail /\ source_rank (queued_frame x).(header) = Z.of_nat r) (default [] (ib !! peer)).

Record flow_inv (st : gmap Connection (list Frame)) (ib : gmap nat (list QueuedFrame)) (rd : gmap Connection PeerReader) (h : MeshHistory) : Prop := {
  flow_frames c f : f ∈ default [] (st !! c) -> c.1.1 <> c.2 /\ from_to c f /\ (is_data f \/ acknowledges (arrived h) c f \/ opcode f.(header) = Opcode.Abort);
  flow_order r rail peer : on (r, rail, peer) (sent h) =
    on (r, rail, peer) (arrived h) ++ if (r =? peer)%nat then [] else filter is_data (default [] (st !! (r, rail, peer)));
  flow_inbox c tg : tagged tg (on c (arrived h)) = tagged tg (on c (taken h)) ++ tagged tg (waiting_in ib c);
  flow_source r x : x ∈ default [] (ib !! r) -> exists p, from_to (p, queued_rail x, r) (queued_frame x);
  flow_reader c a : rd !! c = Some (Acknowledging a) -> c.1.1 <> c.2 /\ from_to c a /\ acknowledges (arrived h) c a;
}.

Lemma flow_new : flow_inv ∅ ∅ ∅ mesh_history_new.
Proof using Type.
  split; cbn.
  - intros c f. rewrite lookup_empty. by intros ?%elem_of_nil.
  - intros r rail peer. rewrite lookup_empty. by destruct (r =? peer)%nat.
  - intros [[r rail] peer] tg. cbn. by rewrite lookup_empty.
  - intros r x. rewrite lookup_empty. by intros ?%elem_of_nil.
  - intros c a. by rewrite lookup_empty.
Qed.

Lemma acknowledges_app l k c f : acknowledges l c f -> acknowledges (l ++ k) c f.
Proof using Type. intros (Ha & g & Hg & Hs). split; [done|]. exists g. split; [|done]. rewrite on_app. apply elem_of_app. by left. Qed.

(** A frame is written. *)
Lemma flow_write st ib rd h c f sent' x : flow_inv st ib rd h -> from_to c f -> c.1.1 <> c.2 ->
  (is_data f /\ sent' = sent h ++ [(c, f)]) \/ ((acknowledges (arrived h) c f \/ opcode f.(header) = Opcode.Abort) /\ sent' = sent h) ->
  flow_inv (<[c := default [] (st !! c) ++ [f]]> st) ib rd (mkMeshHistory sent' (arrived h) (taken h) x).
Proof using Type.
  intros [H1 H2 H3 H4 H5] Hf Hc Hkind. split; cbn [sent arrived taken]; [|intros r rail peer|done..].
  - intros c' g. destruct (decide (c' = c)) as [->|Hne]; [|rewrite lookup_insert_ne by done; apply H1].
    rewrite lookup_insert_eq. cbn. intros [Hg|Hg%list_elem_of_singleton]%elem_of_app; [by apply H1|]. subst g. split; [done|]. split; [done|].
    destruct Hkind as [[Hd _]|[[Ha|Ha] _]]; auto.
  - destruct (decide ((r, rail, peer) = c)) as [<-|Hne].
    + cbn in Hc. specialize (H2 r rail peer). rewrite (proj2 (Nat.eqb_neq r peer) Hc) in *. rewrite lookup_insert_eq. cbn [from_option id]. rewrite filter_app.
      destruct Hkind as [[Hd ->]|[Hk ->]].
      * rewrite on_app, on_one, H2, filter_cons_True by done. by rewrite app_assoc.
      * assert (Hnd : ~ is_data f). { intros [Hop Hty]. destruct Hk as [[(_ & Hn & _) _]|Hab]; congruence. }
        rewrite filter_cons_False by done. by rewrite app_nil_r.
    + rewrite lookup_insert_ne by done. destruct Hkind as [[_ ->]|[_ ->]]; [|apply H2]. by rewrite on_app, on_other, app_nil_r by done.
Qed.

(** A reader changes without an acknowledgement. *)
Lemma flow_reader_set st ib rd h c x : flow_inv st ib rd h -> (forall a, x <> Acknowledging a) -> flow_inv st ib (<[c := x]> rd) h.
Proof using Type.
  intros [H1 H2 H3 H4 H5] Hx. split; try done. intros c' a. destruct (decide (c' = c)) as [->|Hne]; [|by rewrite lookup_insert_ne; auto].
  rewrite lookup_insert_eq. intros [= ->]. by destruct (Hx a).
Qed.

(** Messages in an inbox. *)
Definition selected (c : Connection) (tg : Z) (l : list QueuedFrame) : list Frame :=
  let '(r, rail, _) := c in
  tagged tg (queued_frame <$> filter (fun x => queued_rail x = rail /\ source_rank (queued_frame x).(header) = Z.of_nat r) l).

Lemma waiting_selected ib r rail peer tg : tagged tg (waiting_in ib (r, rail, peer)) = selected (r, rail, peer) tg (default [] (ib !! peer)).
Proof using Type. done. Qed.

Lemma selected_app c tg l k : selected c tg (l ++ k) = selected c tg l ++ selected c tg k.
Proof using Type. destruct c as [[r rail] peer]. unfold selected. by rewrite filter_app, fmap_app, tagged_app. Qed.

Lemma selected_yes r rail peer x : source_rank (queued_frame x).(header) = Z.of_nat r -> queued_rail x = rail ->
  selected (r, rail, peer) (tag (queued_frame x).(header)) [x] = [queued_frame x].
Proof using Type. intros Hs Hr. unfold selected, tagged. rewrite filter_cons_True by done. cbn [fmap list_fmap]. by rewrite filter_cons_True. Qed.

Lemma selected_no r rail peer tg x : ~ (source_rank (queued_frame x).(header) = Z.of_nat r /\ queued_rail x = rail /\ tag (queued_frame x).(header) = tg) ->
  selected (r, rail, peer) tg [x] = [].
Proof using Type.
  intros Hno. unfold selected, tagged. destruct (decide (queued_rail x = rail /\ source_rank (queued_frame x).(header) = Z.of_nat r)) as [Hy|Hn].
  - rewrite filter_cons_True by done. cbn [fmap list_fmap]. rewrite filter_cons_False; [done|]. naive_solver.
  - by rewrite filter_cons_False by done.
Qed.

Lemma selected_none c tg l : (forall x, x ∈ l -> selected c tg [x] = []) -> selected c tg l = [].
Proof using Type.
  induction l as [|x l IH]; intros Hx; [by destruct c as [[? ?] ?]|]. change (x :: l) with ([x] ++ l). rewrite selected_app, Hx by left.
  apply IH. intros y Hy. apply Hx. by right.
Qed.

(** A message comes into an inbox. *)
Lemma flow_inbox_push ib h r rail peer f tg c : from_to (r, rail, peer) f ->
  tagged tg (on c (arrived h)) = tagged tg (on c (taken h)) ++ tagged tg (waiting_in ib c) ->
  tagged tg (on c (arrived h ++ [((r, rail, peer), f)])) =
    tagged tg (on c (taken h)) ++ tagged tg (waiting_in (<[peer := default [] (ib !! peer) ++ [mkQueued rail f]]> ib) c).
Proof using Type.
  intros (_ & _ & Hs & _) Hc. destruct c as [[r' rail'] peer']. rewrite on_app, tagged_app, Hc, !waiting_selected, <- app_assoc. f_equal.
  destruct (decide (peer' = peer)) as [->|Hp].
  - rewrite lookup_insert_eq. cbn [from_option id]. rewrite selected_app. f_equal. destruct (decide ((r', rail') = (r, rail))) as [[= -> ->]|Hne].
    + rewrite on_one. unfold tagged. destruct (decide (tag f.(header) = tg)) as [<-|Ht].
      * rewrite filter_cons_True by done. symmetry. by apply (selected_yes r rail peer (mkQueued rail f)).
      * rewrite filter_cons_False by done. symmetry. apply selected_no. by intros (_ & _ & ?).
    + rewrite on_other by congruence. symmetry. apply selected_no. cbn. intros (Hs' & Hr' & _). apply Hne. f_equal; [|done]. rewrite Hs in Hs'. lia.
  - rewrite lookup_insert_ne by done. rewrite on_other by congruence. by rewrite app_nil_r.
Qed.

Lemma inbox_push_source (ib : gmap nat (list QueuedFrame)) (r rail : nat) f p : (forall r x, x ∈ default [] (ib !! r) -> exists p, from_to (p, queued_rail x, r) (queued_frame x)) ->
  from_to (p, rail, r) f -> forall r' x, x ∈ default [] (<[r := default [] (ib !! r) ++ [mkQueued rail f]]> ib !! r') ->
  exists p, from_to (p, queued_rail x, r') (queued_frame x).
Proof using Type.
  intros Hold Hf r' x. destruct (decide (r' = r)) as [->|Hne]; [|rewrite lookup_insert_ne by done; apply Hold].
  rewrite lookup_insert_eq. cbn. intros [Hx|Hx%list_elem_of_singleton]%elem_of_app; [by apply Hold|]. subst x. by exists p.
Qed.

(** A message to the rank itself. *)
Lemma flow_self st ib rd h r rail f x : flow_inv st ib rd h -> from_to (r, rail, r) f ->
  flow_inv st (<[r := default [] (ib !! r) ++ [mkQueued rail f]]> ib) rd
    (mkMeshHistory (sent h ++ [((r, rail, r), f)]) (arrived h ++ [((r, rail, r), f)]) (taken h) x).
Proof using Type.
  intros [H1 H2 H3 H4 H5] Hf. split; cbn [sent arrived taken].
  - intros c g Hg. destruct (H1 c g Hg) as (Hc & Hft & [Hd|[Ha|Hb]]); (split; [done|]; split; [done|]); [by left|right; left; by apply acknowledges_app|by right; right].
  - intros r' rail' peer. rewrite !on_app. destruct (decide ((r', rail', peer) = (r, rail, r))) as [[= -> -> ->]|Hne].
    + specialize (H2 r rail r). rewrite Nat.eqb_refl, app_nil_r in *. by rewrite H2.
    + rewrite !on_other, !app_nil_r by done. apply H2.
  - intros c tg. by apply flow_inbox_push.
  - intros r' y. by apply (inbox_push_source ib r rail f r).
  - intros c a Ha. destruct (H5 c a Ha) as (Hc & Hft & Hk). split; [done|]. split; [done|]. by apply acknowledges_app.
Qed.

(** A reader takes a frame that is no message from its stream. *)
Lemma flow_drop st ib rd h c f rest : flow_inv st ib rd h -> st !! c = Some (f :: rest) -> ~ is_data f -> flow_inv (<[c := rest]> st) ib rd h.
Proof using Type.
  intros [H1 H2 H3 H4 H5] Hst Hf. split; try done.
  - intros c' g. destruct (decide (c' = c)) as [->|Hne]; [|rewrite lookup_insert_ne by done; apply H1].
    rewrite lookup_insert_eq. cbn. intros Hg. apply H1. rewrite Hst. cbn. by right.
  - intros r rail peer. destruct (decide ((r, rail, peer) = c)) as [<-|Hne]; [|rewrite lookup_insert_ne by done; apply H2].
    rewrite lookup_insert_eq, H2, Hst. cbn [from_option id]. by rewrite (filter_cons_False _ f) by done.
Qed.

(** A reader queues a message and prepares its acknowledgement. *)
Lemma flow_queue st ib rd h r rail peer f rest a x : flow_inv st ib rd h -> st !! (r, rail, peer) = Some (f :: rest) -> is_data f ->
  from_to (peer, rail, r) a -> is_acknowledgement a -> sequence a.(header) = sequence f.(header) ->
  flow_inv (<[(r, rail, peer) := rest]> st) (<[peer := default [] (ib !! peer) ++ [mkQueued rail f]]> ib) (<[(peer, rail, r) := Acknowledging a]> rd)
    (mkMeshHistory (sent h) (arrived h ++ [((r, rail, peer), f)]) (taken h) x).
Proof using Type.
  intros [H1 H2 H3 H4 H5] Hst Hf Ha Hack Hseq.
  destruct (H1 (r, rail, peer) f) as (Hrp & Hft & _); [rewrite Hst; cbn; by left|]. cbn in Hrp. split; cbn [sent arrived taken].
  - intros c g Hg. assert (Hg' : g ∈ default [] (st !! c)).
    { destruct (decide (c = (r, rail, peer))) as [->|Hne]; [|by rewrite lookup_insert_ne in Hg]. rewrite lookup_insert_eq in Hg. rewrite Hst. cbn in *. by right. }
    destruct (H1 c g Hg') as (Hc & Hg1 & [Hd|[Hk|Hb]]); (split; [done|]; split; [done|]); [by left|right; left; by apply acknowledges_app|by right; right].
  - intros r' rail' peer'. rewrite on_app. destruct (decide ((r', rail', peer') = (r, rail, peer))) as [[= -> -> ->]|Hne].
    + rewrite H2, lookup_insert_eq, Hst, on_one. cbn [from_option id]. rewrite (proj2 (Nat.eqb_neq r peer)) by done.
      rewrite (filter_cons_True _ f) by done. by rewrite <- app_assoc.
    + rewrite on_other, lookup_insert_ne, app_nil_r by done. apply H2.
  - intros c tg. by apply flow_inbox_push.
  - intros r' y. by apply (inbox_push_source ib peer rail f r).
  - intros c a'. destruct (decide (c = (peer, rail, r))) as [->|Hne].
    + rewrite lookup_insert_eq. intros [= <-]. cbn. split; [done|]. split; [done|]. split; [done|]. exists f. split; [|done].
      rewrite on_app, on_one. apply elem_of_app. right. by left.
    + rewrite lookup_insert_ne by done. intros Ha'. destruct (H5 c a' Ha') as (? & ? & ?). split; [done|]. split; [done|]. by apply acknowledges_app.
Qed.

(** A receive takes the first message that it wants. *)
Lemma flow_take st ib rd h r q i y x : flow_inv st ib rd h -> list_find (wanted q) (default [] (ib !! r)) = Some (i, y) ->
  let src := Z.to_nat (source_rank (queued_frame y).(header)) in
  flow_inv st (<[r := delete i (default [] (ib !! r))]> ib) rd
    (mkMeshHistory (sent h) (arrived h) (taken h ++ [((src, queued_rail y, r), queued_frame y)]) x).
Proof using Type.
  intros [H1 H2 H3 H4 H5] (Hy & Hw & Hfirst)%list_find_Some src. set (l := default [] (ib !! r)) in *.
  destruct (H4 r y) as (p & Hp); [by eapply list_elem_of_lookup_2|]. pose proof Hp as (_ & _ & Hsrc & _).
  assert (Hsrc' : src = p) by (unfold src; lia). rewrite Hsrc'. clear src Hsrc'.
  assert (Hl : l = take i l ++ [y] ++ drop (S i) l) by (symmetry; by apply take_drop_middle).
  split; cbn [sent arrived taken]; try done.
  - intros [[r' rail'] peer'] tg. rewrite H3, on_app, tagged_app, !waiting_selected, <- app_assoc. f_equal.
    destruct (decide (peer' = r)) as [->|Hne].
    + rewrite lookup_insert_eq. cbn [from_option id]. fold l. rewrite delete_take_drop, selected_app. rewrite Hl at 1. rewrite !selected_app.
      destruct (decide ((r', rail', tg) = (p, queued_rail y, tag (queued_frame y).(header)))) as [[= -> -> ->]|Hne].
      * rewrite on_one, selected_yes by done.
        assert (tagged (tag (queued_frame y).(header)) [queued_frame y] = [queued_frame y]) as -> by (unfold tagged; by rewrite filter_cons_True).
        rewrite selected_none; [done|]. intros z Hz. apply selected_no. intros (Hs & Hr & Ht).
        apply list_elem_of_lookup in Hz as [j Hj]. apply lookup_take_Some in Hj as [Hj Hlt]. apply (Hfirst j z Hj Hlt).
        destruct Hw as (W1 & W2 & W3). unfold wanted. rewrite Hr, Ht. split; [done|]. split; [done|]. destruct (receive_source q); [|done]. by rewrite Hs, <- Hsrc.
      * rewrite (selected_no r' rail' r tg y) by (intros (Hs & Hr & Ht); apply Hne; rewrite Hsrc in Hs; f_equal; [f_equal; [lia|done]|done]). rewrite app_nil_l.
        assert (tagged tg (on (r', rail', r) [((p, queued_rail y, r), queued_frame y)]) = []) as ->; [|done].
        destruct (decide ((r', rail') = (p, queued_rail y))) as [[= -> ->]|Hn].
        { rewrite on_one. unfold tagged. rewrite filter_cons_False; [done|]. congruence. }
        { by rewrite on_other by congruence. }
    + rewrite lookup_insert_ne by done. rewrite on_other by congruence. done.
  - intros r' z. destruct (decide (r' = r)) as [->|Hne]; [|rewrite lookup_insert_ne by done; apply H4].
    rewrite lookup_insert_eq. cbn [from_option id]. intros Hz. apply H4. fold l. rewrite delete_take_drop in Hz. rewrite Hl.
    apply elem_of_app in Hz as [Hz|Hz]; apply elem_of_app; [by left|right; apply elem_of_app; by right].
Qed.

(** ** Calls of a mesh *)
Definition call_ok (r : nat) (c : PeerCall) : Prop :=
  match c with
  | SendEntering q => send_type q <> ElementType.None
  | SendSubmitting q => send_type q <> ElementType.None /\ (send_destination q < world)%nat /\ send_destination q <> r
  | Aborting _ remaining _ => Forall (fun x => (x.2 < world)%nat /\ x.2 <> r) remaining
  | _ => True
  end.

Definition calls_ok (cl : gmap nat (nat * PeerCall)) : Prop := forall t r c, cl !! t = Some (r, c) -> (r < world)%nat /\ call_ok r c.

Lemma calls_set cl t r c : calls_ok cl -> (r < world)%nat -> call_ok r c -> calls_ok (<[t := (r, c)]> cl).
Proof using Type. intros Hcl Hr Hc t' r' c' [[<- [= <- <-]]|[_ H']]%lookup_insert_Some; [done|]. by apply Hcl in H'. Qed.

(** No send is of messages that look like acknowledgements. *)
Definition typed_event (e : PeerEvent) : Prop := match e with CallSend _ _ q => send_type q <> ElementType.None | _ => True end.

Lemma send_frame_ok r q n f : send_frame r q n = Ok f -> send_type q <> ElementType.None -> (r < world)%nat -> (send_destination q < world)%nat ->
  from_to (r, send_rail q, send_destination q) f /\ is_data f /\ sequence f.(header) = n /\ tag f.(header) = send_tag q /\ payload f = send_payload q.
Proof using Type.
  intros Hf Ht Hr Hd. unfold Peer.send_frame in Hf. apply lift_protocol_Ok in Hf.
  destruct (frame_new_fields _ _ _ Hf) as (Hp & Hop & Hty & Hsrc & Hdst & Hroot & Hw & Hseq & Htag & Hcount & Hu). cbn in *.
  unfold from_to, is_data. rewrite Hop, Hty. by split_and!.
Qed.

Lemma acknowledgement_ok r rail peer f : (r < world)%nat -> (peer < world)%nat ->
  exists a, peer_send_acknowledgement uid world r peer f = Ok a /\ from_to (r, rail, peer) a /\ is_acknowledgement a /\ sequence a.(header) = sequence f.(header).
Proof using Type.
  intros Hr Hp. unfold peer_send_acknowledgement. set (h := set_tag _ _).
  assert (Hv : validate h (Some []) = Ok tt).
  { unfold validate, h. cbn. rewrite (proj2 (Z.eqb_neq (Z.of_nat world) 0)) by lia. unfold Protocol.validate_rank. cbn [andb orb].
    rewrite (proj2 (Z.ltb_lt (Z.of_nat r) _)), (proj2 (Z.ltb_lt (Z.of_nat peer) _)), orb_true_r by lia. cbn. by rewrite Z.eqb_refl. }
  exists (mkFrame h []). split; [apply lift_protocol_Ok; unfold frame_new; by rewrite Hv|]. by split_and!.
Qed.

Lemma connections_in_world r : Forall (fun x : nat * nat => (x.2 < world)%nat /\ x.2 <> r) (connections_of world rails r).
Proof using Type.
  apply List.Forall_forall. intros [rail peer] (rail' & _ & (peer' & [= <- <-] & Hin)%in_map_iff)%in_flat_map.
  apply list_elem_of_In, list_elem_of_filter in Hin as [Hne Hin%elem_of_seq]. cbn. split; [lia|done].
Qed.

(** ** Sequence numbers and acknowledgements *)

Definition seq_inv (sq : gmap Connection Z) (l : list Message) : Prop := forall r rail peer f, r <> peer -> f ∈ on (r, rail, peer) l ->
  sequence f.(header) < default 0 (sq !! (r, rail, peer)) /\
  forall g, g ∈ on (r, rail, peer) l -> sequence g.(header) = sequence f.(header) -> g = f.

Lemma seq_new : seq_inv ∅ [].
Proof using Type. intros r rail peer f _ Hf. by apply elem_of_nil in Hf. Qed.

Lemma seq_advance sq l c : seq_inv sq l -> seq_inv (<[c := default 0 (sq !! c) + 1]> sq) l.
Proof using Type.
  intros Hl r rail peer f Hne Hf. destruct (Hl r rail peer f Hne Hf) as [Hlt Hu]. split; [|done].
  destruct (decide (c = (r, rail, peer))) as [->|Hc]; [rewrite lookup_insert_eq; cbn [from_option id]; lia|by rewrite lookup_insert_ne].
Qed.

Lemma seq_self sq l r rail f : seq_inv sq l -> seq_inv sq (l ++ [((r, rail, r), f)]).
Proof using Type. intros Hl r' rail' peer g Hne. rewrite on_app, on_other, app_nil_r by congruence. by apply Hl. Qed.

Lemma seq_send sq l c f : seq_inv sq l -> sequence f.(header) = default 0 (sq !! c) -> seq_inv (<[c := default 0 (sq !! c) + 1]> sq) (l ++ [(c, f)]).
Proof using Type.
  intros Hl Hf r rail peer g Hne. rewrite on_app. destruct (decide (c = (r, rail, peer))) as [->|Hc].
  - rewrite on_one, lookup_insert_eq. cbn [from_option id]. intros [Hg|Hg%list_elem_of_singleton]%elem_of_app.
    + destruct (Hl r rail peer g Hne Hg) as [Hlt Hu]. split; [lia|]. intros g' [Hg'|Hg'%list_elem_of_singleton]%elem_of_app; [by apply Hu|]. subst g'. lia.
    + subst g. split; [lia|]. intros g' [Hg'|Hg'%list_elem_of_singleton]%elem_of_app; [|done]. destruct (Hl r rail peer g' Hne Hg') as [Hlt _]. lia.
  - rewrite on_other, app_nil_r, lookup_insert_ne by congruence. by apply Hl.
Qed.

(** A send that waits has an acknowledgement to come or an answer; one that has
    returned well has arrived. *)
Record acks_inv (pn : gmap (nat * AckKey) nat) (an : gmap nat (option Text)) (cl : gmap nat (nat * PeerCall)) (h : MeshHistory) : Prop := {
  acks_pending r key t : pn !! (r, key) = Some t -> cl !! t = Some (r, SendWaiting key) /\ an !! t = None;
  acks_waiting r key t : cl !! t = Some (r, SendWaiting key) -> exists f, let c := (r, ack_rail key, ack_peer key) in
    sends h !! t = Some (c, f) /\ r <> ack_peer key /\ (c, f) ∈ sent h /\ sequence f.(header) = ack_sequence key /\
    (pn !! (r, key) = Some t \/ (exists m, an !! t = Some (Some m)) \/ (an !! t = Some None /\ (c, f) ∈ arrived h));
  acks_answer t x : an !! t = Some x -> exists r c, cl !! t = Some (r, c) /\ ((exists key, c = SendWaiting key) \/ exists res, c = SendReturned res);
  acks_returned r t : cl !! t = Some (r, SendReturned (Ok tt)) -> exists m, sends h !! t = Some m /\ m ∈ arrived h;
  acks_keys r key t t' : cl !! t = Some (r, SendWaiting key) -> cl !! t' = Some (r, SendWaiting key) -> t = t';
}.

Lemma acks_new : acks_inv ∅ ∅ ∅ mesh_history_new.
Proof using Type. split; intros *; rewrite ?lookup_empty; try done. Qed.

(** More happens. *)
Lemma acks_more pn an cl h sent' arrived' taken' : acks_inv pn an cl h -> (forall m, m ∈ sent h -> m ∈ sent') -> (forall m, m ∈ arrived h -> m ∈ arrived') ->
  acks_inv pn an cl (mkMeshHistory sent' arrived' taken' (sends h)).
Proof using Type.
  intros [H1 H2 H3 H4 H5] Hs Ha. split; cbn [sent arrived taken sends]; try done.
  - intros r key t (f & Hf & Hne & Hin & Hq & Hd)%H2. exists f. split_and!; auto. destruct Hd as [?|[?|[? ?]]]; auto.
  - intros r t (m & ? & ?)%H4. eauto.
Qed.

(** A call goes on that does not wait for an acknowledgement. *)
Lemma acks_call pn an cl h t r c : acks_inv pn an cl h -> (forall r' key, pn !! (r', key) <> Some t) -> (forall key, c <> SendWaiting key) ->
  (c = SendReturned (Ok tt) -> exists m, sends h !! t = Some m /\ m ∈ arrived h) -> an !! t = None \/ (exists res, c = SendReturned res) ->
  acks_inv pn an (<[t := (r, c)]> cl) h.
Proof using Type.
  intros [H1 H2 H3 H4 H5] Hp Hc Hr Ha. split.
  - intros r' key t' Hpn. assert (t' <> t) by (intros ->; by apply (Hp r' key)). rewrite lookup_insert_ne by done. by apply H1.
  - intros r' key t' [[_ [= _ Hk]]|[_ Hk]]%lookup_insert_Some; [by destruct (Hc key)|by apply H2].
  - intros t' x Hx. destruct (decide (t' = t)) as [->|Hne].
    + rewrite lookup_insert_eq. exists r, c. split; [done|]. right. destruct Ha as [Ha|?]; [congruence|done].
    + rewrite lookup_insert_ne by done. by eapply H3.
  - intros r' t' [[<- [= _ Hk]]|[_ Hk]]%lookup_insert_Some; [by apply Hr|by eapply H4].
  - intros r' key t1 t2 [[_ [= _ Hk]]|[_ Hk1]]%lookup_insert_Some; [by destruct (Hc key)|].
    intros [[_ [= _ Hk]]|[_ Hk2]]%lookup_insert_Some; [by destruct (Hc key)|]. by eapply H5.
Qed.

Definition quiet (c : PeerCall) : Prop := (forall key, c <> SendWaiting key) /\ forall res, c <> SendReturned res.

Lemma quiet_pending pn an cl h t : acks_inv pn an cl h -> (forall r c, cl !! t = Some (r, c) -> quiet c) ->
  (forall r key, pn !! (r, key) <> Some t) /\ an !! t = None.
Proof using Type.
  intros [H1 H2 H3 H4 H5] Hq. split.
  - intros r key [Hc _]%H1. by destruct (proj1 (Hq _ _ Hc) key).
  - destruct (an !! t) eqn:Ha; [|done]. destruct (H3 _ _ Ha) as (r & c & Hc & [[key ->]|[res ->]]); [by destruct (proj1 (Hq _ _ Hc) key)|by destruct (proj2 (Hq _ _ Hc) res)].
Qed.

Lemma acks_quiet pn an cl h t r c : acks_inv pn an cl h -> (forall r c, cl !! t = Some (r, c) -> quiet c) -> (forall key, c <> SendWaiting key) ->
  (c = SendReturned (Ok tt) -> exists m, sends h !! t = Some m /\ m ∈ arrived h) -> acks_inv pn an (<[t := (r, c)]> cl) h.
Proof using Type. intros Hi Hq Hc Hr. destruct (quiet_pending _ _ _ _ _ Hi Hq) as [Hp Ha]. apply acks_call; auto. Qed.

(** A call that has not sent yet sends. *)
Lemma acks_sent_by pn an cl h t m sent' arrived' taken' : acks_inv pn an cl h -> (forall r c, cl !! t = Some (r, c) -> quiet c) ->
  (forall m, m ∈ sent h -> m ∈ sent') -> (forall m, m ∈ arrived h -> m ∈ arrived') -> acks_inv pn an cl (mkMeshHistory sent' arrived' taken' (<[t := m]> (sends h))).
Proof using Type.
  intros [H1 H2 H3 H4 H5] Hq Hs Ha. split; cbn [sent arrived taken sends]; try done.
  - intros r key t' Hc. destruct (H2 _ _ _ Hc) as (f & Hf & Hne & Hin & Hk & Hd). exists f. cbv zeta.
    rewrite lookup_insert_ne by (intros <-; by destruct (proj1 (Hq _ _ Hc) key)). split_and!; auto. destruct Hd as [?|[?|[? ?]]]; auto.
  - intros r t' Hc. destruct (H4 _ _ Hc) as (m' & ? & ?). exists m'. rewrite lookup_insert_ne by (intros <-; by destruct (proj2 (Hq _ _ Hc) (Ok tt))). auto.
Qed.

(** A send gives up. *)
Lemma acks_give_up pn an cl h t r key e : acks_inv pn an cl h -> cl !! t = Some (r, SendWaiting key) ->
  acks_inv (delete (r, key) pn) an (<[t := (r, SendReturned (Err e))]> cl) h.
Proof using Type.
  intros Hi Hcl. destruct Hi as [H1 H2 H3 H4 H5]. split.
  - intros r' key' t' [Hne Hp]%lookup_delete_Some. destruct (H1 _ _ _ Hp) as [Hc Ha]. split; [|done].
    rewrite lookup_insert_ne; [done|]. intros <-. rewrite Hcl in Hc. by injection Hc as <- <-.
  - intros r' key' t' [[_ [=]]|[Hne Hk]]%lookup_insert_Some. destruct (H2 _ _ _ Hk) as (f & Hf & Hn & Hin & Hq & Hd). exists f. split_and!; [done..|].
    destruct Hd as [Hp|?]; [|by right]. left. rewrite lookup_delete_ne; [done|]. intros [= <- <-]. by apply Hne, (H5 r key).
  - intros t' x (r' & c & Hc & Hk)%H3. destruct (decide (t' = t)) as [->|Hne].
    + rewrite lookup_insert_eq. exists r, (SendReturned (Err e)). eauto.
    + rewrite lookup_insert_ne by done. eauto.
  - intros r' t' [[_ [=]]|[_ Hk]]%lookup_insert_Some. by eapply H4.
  - intros r' key' t1 t2 [[_ [=]]|[_ Hk1]]%lookup_insert_Some [[_ [=]]|[_ Hk2]]%lookup_insert_Some. by eapply H5.
Qed.

(** A send begins to wait. *)
Lemma acks_submit pn an cl h sq t r key f : acks_inv pn an cl h -> seq_inv sq (sent h) -> (forall r c, cl !! t = Some (r, c) -> quiet c) ->
  let c := (r, ack_rail key, ack_peer key) in
  r <> ack_peer key -> sequence f.(header) = ack_sequence key -> default 0 (sq !! c) = ack_sequence key ->
  acks_inv (<[(r, key) := t]> pn) an (<[t := (r, SendWaiting key)]> cl) (mkMeshHistory (sent h ++ [(c, f)]) (arrived h) (taken h) (<[t := (c, f)]> (sends h))).
Proof using Type.
  intros Hi Hs Hq c Hne Hf Hk. destruct (quiet_pending _ _ _ _ _ Hi Hq) as [Hp Ha]. destruct Hi as [H1 H2 H3 H4 H5].
  assert (Hfresh : forall t', cl !! t' <> Some (r, SendWaiting key)).
  { intros t' (g & _ & _ & Hin%elem_of_on & Hg & _)%H2. destruct (Hs _ _ _ _ Hne Hin) as [Hlt _]. fold c in Hlt. lia. }
  split; cbn [sent arrived taken sends].
  - intros r' key' t' [[[= <- <-] <-]|[_ Hk']]%lookup_insert_Some; [by rewrite lookup_insert_eq|].
    rewrite lookup_insert_ne; [by apply H1|]. intros <-. by apply (Hp r' key').
  - intros r' key' t' [[<- [= <- <-]]|[Hn Hk']]%lookup_insert_Some.
    + exists f. cbv zeta. rewrite !lookup_insert_eq. split_and!; [done..| |done|by left]. apply elem_of_app. right. by left.
    + destruct (H2 _ _ _ Hk') as (g & Hg & Hn' & Hin & Hqg & Hd). exists g. cbv zeta. rewrite (lookup_insert_ne (sends h)) by done. split_and!; [done..| |done|].
      { apply elem_of_app. by left. } destruct Hd as [Hd|Hd]; [|by right]. left. rewrite lookup_insert_ne; [done|]. intros [= <- <-]. by apply (Hfresh t').
  - intros t' x Hx. destruct (decide (t' = t)) as [->|Hn]; [congruence|]. rewrite lookup_insert_ne by done. by eapply H3.
  - intros r' t' [[_ [=]]|[Hn Hk']]%lookup_insert_Some. rewrite lookup_insert_ne by done. by eapply H4.
  - intros r' key' t1 t2 [[<- [= <- <-]]|[_ Hk1]]%lookup_insert_Some [[<- Hx]|[_ Hk2]]%lookup_insert_Some; [done|by destruct (Hfresh t2)|..].
    + injection Hx as <- <-. by destruct (Hfresh t1).
    + by eapply H5.
Qed.

(** An acknowledgement comes. *)
Lemma acks_acknowledged pn an cl h t r key : acks_inv pn an cl h -> pn !! (r, key) = Some t ->
  (forall f, sends h !! t = Some ((r, ack_rail key, ack_peer key), f) -> ((r, ack_rail key, ack_peer key), f) ∈ arrived h) ->
  acks_inv (delete (r, key) pn) (<[t := None]> an) cl h.
Proof using Type.
  intros [H1 H2 H3 H4 H5] Ht Hin. destruct (H1 _ _ _ Ht) as [Hcl Hat]. split.
  - intros r' key' t' [Hne Hp]%lookup_delete_Some. destruct (H1 _ _ _ Hp) as [Hc Ha]. split; [done|].
    rewrite lookup_insert_ne; [done|]. intros <-. rewrite Hcl in Hc. by injection Hc as <- <-.
  - intros r' key' t' Hc. destruct (H2 _ _ _ Hc) as (f & Hf & Hn & Hs & Hq & Hd). exists f. split_and!; [done..|].
    destruct (decide (t' = t)) as [->|Hne].
    + rewrite Hcl in Hc. injection Hc as <- <-. rewrite lookup_insert_eq. right. right. split; [done|]. by apply Hin.
    + rewrite (lookup_insert_ne an) by done. destruct Hd as [Hp|?]; [|by right]. left. rewrite lookup_delete_ne; [done|].
      intros [= <- <-]. by apply Hne, (H5 r key).
  - intros t' x [[<- <-]|[_ Hx]]%lookup_insert_Some; [exists r, (SendWaiting key); split; [done|]; left; eauto|by eapply H3].
  - done.
  - done.
Qed.

(** A rank fails. *)
Definition fail_answers (m : Text) (pn : gmap (nat * AckKey) nat) (an : gmap nat (option Text)) : gmap nat (option Text) :=
  map_fold (fun _ t a => <[t := Some m]> a) an pn.

Lemma fail_answers_lookup m pn an t : (fail_answers m pn an !! t = Some (Some m) /\ exists k, pn !! k = Some t) \/
  (fail_answers m pn an !! t = an !! t /\ forall k, pn !! k <> Some t).
Proof using Type.
  unfold fail_answers. apply (map_fold_weak_ind (fun a p => (a !! t = Some (Some m) /\ exists k, p !! k = Some t) \/ (a !! t = an !! t /\ forall k, p !! k <> Some t))).
  - right. split; [done|]. intros k. by rewrite lookup_empty.
  - intros k t' p a Hk IH. destruct (decide (t' = t)) as [->|Hne].
    + left. rewrite lookup_insert_eq. split; [done|]. exists k. by rewrite lookup_insert_eq.
    + rewrite lookup_insert_ne by done. destruct IH as [[Ha [k' Hk']]|[Ha Hn]].
      * left. split; [done|]. exists k'. rewrite lookup_insert_ne; [done|]. intros ->. congruence.
      * right. split; [done|]. intros k' [[_ ?]|[_ ?]]%lookup_insert_Some; [done|by eapply Hn].
Qed.

Lemma acks_fail pn an cl h r m : acks_inv pn an cl h ->
  acks_inv (filter (fun x => x.1.1 <> r) pn) (fail_answers m (filter (fun x => x.1.1 = r) pn) an) cl h.
Proof using Type.
  intros [H1 H2 H3 H4 H5]. split; [| | |done|done].
  - intros r' key t [Hp Hr]%map_lookup_filter_Some. cbn in Hr. destruct (H1 _ _ _ Hp) as [Hc Ha]. split; [done|].
    destruct (fail_answers_lookup m (filter (fun x => x.1.1 = r) pn) an t) as [[_ [[r1 k] Hk]]|[-> _]]; [|done].
    apply map_lookup_filter_Some in Hk as [Hk Hr']. cbn in Hr'. destruct (H1 _ _ _ Hk) as [Hc' _]. congruence.
  - intros r' key t Hc. destruct (H2 _ _ _ Hc) as (f & Hf & Hn & Hs & Hq & Hd). exists f. split_and!; [done..|].
    destruct (fail_answers_lookup m (filter (fun x => x.1.1 = r) pn) an t) as [[Ha _]|[Ha Hno]]; rewrite Ha; [right; left; eauto|].
    destruct Hd as [Hp|?]; [|by right]. left. apply map_lookup_filter_Some. split; [done|]. cbn. intros ->. apply (Hno (r, key)).
    by apply map_lookup_filter_Some.
  - intros t x Hx. destruct (fail_answers_lookup m (filter (fun x => x.1.1 = r) pn) an t) as [[_ [[r1 k] Hk]]|[Ha _]].
    + apply map_lookup_filter_Some in Hk as [Hk _]. destruct (H1 _ _ _ Hk) as [Hc _]. exists r1, (SendWaiting k). eauto.
    + rewrite Ha in Hx. by eapply H3.
Qed.

(** A rank fails as one of its sends is written. *)
Lemma acks_fail_submitted pn an cl h r m t key e : acks_inv pn an cl h -> (forall r c, cl !! t = Some (r, c) -> quiet c) -> pn !! (r, key) = None ->
  let pn' := <[(r, key) := t]> pn in
  acks_inv (filter (fun x => x.1.1 <> r) pn') (fail_answers m (filter (fun x => x.1.1 = r) pn') an) (<[t := (r, SendReturned (Err e))]> cl) h.
Proof using Type.
  intros Hi Hq Hk pn'. assert (filter (fun x => x.1.1 <> r) pn' = filter (fun x => x.1.1 <> r) pn) as ->.
  { unfold pn'. rewrite map_filter_insert_False; [|by intros []]. by rewrite delete_id. }
  assert (filter (fun x => x.1.1 = r) pn' = <[(r, key) := t]> (filter (fun x => x.1.1 = r) pn)) as -> by (unfold pn'; by rewrite map_filter_insert_True).
  assert (Ha : acks_inv (filter (fun x => x.1.1 <> r) pn) (fail_answers m (filter (fun x => x.1.1 = r) pn) an) (<[t := (r, SendReturned (Err e))]> cl) h).
  { by apply acks_fail, acks_quiet. }
  unfold fail_answers. rewrite map_fold_insert_L.
  - destruct (quiet_pending _ _ _ _ _ Hi Hq) as [Hp _]. destruct Ha as [H1 H2 H3 H4 H5]. split; [| | |done|done].
    + intros r' k t' Ht. destruct (H1 _ _ _ Ht) as [Hc Hn]. split; [done|]. rewrite lookup_insert_ne; [done|]. intros <-. by rewrite lookup_insert_eq in Hc.
    + intros r' k t' Ht. destruct (H2 _ _ _ Ht) as (f & Hf & ? & ? & ? & Hd). exists f. split_and!; [done..|].
      rewrite lookup_insert_ne; [done|]. intros <-. by rewrite lookup_insert_eq in Ht.
    + intros t' x [[<- <-]|[_ Hx]]%lookup_insert_Some; [|by eapply H3]. rewrite lookup_insert_eq. exists r, (SendReturned (Err e)). eauto.
  - intros j1 j2 t1 t2 y _ _ _. destruct (decide (t1 = t2)) as [->|Hne]; [done|]. by apply insert_insert_ne.
  - apply map_lookup_filter_None. by left.
Qed.

(** ** The steps of a mesh *)

Record mesh_inv (s : PeerMesh) (h : MeshHistory) : Prop := {
  mesh_flow : flow_inv (streams s) (inboxes s) (readers s) h;
  mesh_calls : calls_ok (calls s);
  mesh_sequences : seq_inv (sequences s) (sent h);
  mesh_acks : acks_inv (pending_acks s) (answers s) (calls s) h;
}.

Lemma flow_ext st ib rd h x : flow_inv st ib rd h -> flow_inv st ib rd (mkMeshHistory (sent h) (arrived h) (taken h) x).
Proof using Type. by intros [H1 H2 H3 H4 H5]. Qed.

Lemma mesh_new_inv : mesh_inv mesh_new mesh_history_new.
Proof using Type. split; [apply flow_new|intros t r c; cbn; by rewrite lookup_empty|apply seq_new|apply acks_new]. Qed.

Lemma mesh_fail s h r m : mesh_inv s h -> mesh_inv (set_peer_failure s r m) h.
Proof using Type. intros [H1 H2 H3 H4]. split; [done..|]. by apply acks_fail. Qed.

Lemma mesh_reader s h c x : mesh_inv s h -> (forall a, x <> Acknowledging a) -> mesh_inv (set_peer_reader s c x) h.
Proof using Type. intros [H1 H2 H3 H4] Hx. split; [|done..]. by apply flow_reader_set. Qed.

Lemma mesh_stop s h r m c : mesh_inv s h -> mesh_inv (set_peer_reader (set_peer_failure s r m) c PeerStopped) h.
Proof using Type. intros Hi. by apply mesh_reader; [apply mesh_fail|]. Qed.

(** A call goes on that is none of a send that waits. *)
Lemma mesh_call s h t r c : mesh_inv s h -> (forall r c, calls s !! t = Some (r, c) -> quiet c) -> (r < world)%nat -> call_ok r c ->
  (forall key, c <> SendWaiting key) -> c <> SendReturned (Ok tt) -> mesh_inv (set_call s t r c) h.
Proof using Type.
  intros [H1 H2 H3 H4] Hq Hr Hc Hw Hok. split; [done| |done|]; cbn; [by apply calls_set|]. by apply acks_quiet.
Qed.

(** The message of a call to its own rank. *)
Lemma mesh_self s h t r rail f : mesh_inv s h -> (forall r c, calls s !! t = Some (r, c) -> quiet c) -> (r < world)%nat -> from_to (r, rail, r) f ->
  mesh_inv (set_call (queue_frame s r rail f) t r (SendReturned (Ok tt)))
    (mkMeshHistory (sent h ++ [((r, rail, r), f)]) (arrived h ++ [((r, rail, r), f)]) (taken h) (<[t := ((r, rail, r), f)]> (sends h))).
Proof using Type.
  intros [H1 H2 H3 H4] Hq Hr Hf. split; cbn.
  - by apply flow_self.
  - by apply calls_set.
  - by apply seq_self.
  - apply acks_quiet; [|done|done|].
    + apply (acks_sent_by _ _ _ h); [done|done|..]; intros m Hm; apply elem_of_app; by left.
    + intros _. exists ((r, rail, r), f). cbn. rewrite lookup_insert_eq. split; [done|]. apply elem_of_app. right. by left.
Qed.

(** A message is written to a peer. *)
Lemma mesh_submit s h t r key f : mesh_inv s h -> (forall r c, calls s !! t = Some (r, c) -> quiet c) -> (r < world)%nat ->
  let c := (r, ack_rail key, ack_peer key) in
  r <> ack_peer key -> from_to c f -> is_data f -> sequence f.(header) = ack_sequence key -> sequence_of s c = ack_sequence key ->
  let s' := set_sequence s c (ack_sequence key + 1) in
  let s' := set_pending_acks s' (<[(r, key) := t]> (pending_acks s')) in
  mesh_inv (set_call (write_to s' c f) t r (SendWaiting key)) (mkMeshHistory (sent h ++ [(c, f)]) (arrived h) (taken h) (<[t := (c, f)]> (sends h))).
Proof using Type.
  intros [H1 H2 H3 H4] Hq Hr c Hne Hf Hd Hs Hk. split; cbn.
  - apply flow_write; [done..|]. by left.
  - by apply calls_set.
  - rewrite <- Hk. apply seq_send; [done|]. by rewrite Hs.
  - by apply (acks_submit _ _ _ _ (sequences s)).
Qed.

Lemma mesh_sequence s h c : mesh_inv s h -> mesh_inv (set_sequence s c (sequence_of s c + 1)) h.
Proof using Type. intros [H1 H2 H3 H4]. split; [done|done| |done]. by apply seq_advance. Qed.

Lemma record_quiet e s h : message_sent e s = None -> message_arrived e s = None -> message_taken e s = None -> record_mesh e s h = h.
Proof using Type. unfold record_mesh. intros -> -> ->. by destruct h. Qed.

Lemma quiet_call s t r c : calls s !! t = Some (r, c) -> quiet c -> forall r c, calls s !! t = Some (r, c) -> quiet c.
Proof using Type. intros Hc Hq r' c' Hc'. rewrite Hc in Hc'. by injection Hc' as <- <-. Qed.

Ltac open_record Hc := unfold record_mesh, message_arrived, message_taken, message_sent; rewrite Hc.

Lemma enter_send_inv s h t r q error : mesh_inv s h -> calls s !! t = Some (r, SendEntering q) ->
  mesh_inv (enter_send uid world rails s t r q) (record_mesh (AdvanceCall t error) s h).
Proof using Type.
  intros Hi Hc. destruct (mesh_calls _ _ Hi t r _ Hc) as [Hr Hty]. cbn in Hty. assert (Hq := quiet_call s t r _ Hc ltac:(done)).
  unfold enter_send. open_record Hc. destruct h as [hs ha ht hm].
  destruct (_ ← validate_mesh_rail rails (send_rail q); _ ← validate_peer world (send_destination q); check_failure s r) as [[]|e|] eqn:Hg; [|by apply mesh_call..].
  apply bind_Ok in Hg as ([] & _ & Hg). apply bind_Ok in Hg as ([] & Hp%fail_if_Ok & _). apply Nat.leb_gt in Hp.
  destruct (Nat.eqb_spec (send_destination q) r) as [Hd|Hd].
  - destruct (send_frame r q 0) as [f|e|] eqn:Hf; [|by apply mesh_call..]. cbn.
    apply (mesh_self _ (mkMeshHistory hs ha ht hm)); [done..|]. rewrite <- Hd at 2. by apply (send_frame_ok r q 0 f).
  - destruct (send_frame r q 0); by apply mesh_call.
Qed.

Lemma acks_fresh pn an cl h sq r key : acks_inv pn an cl h -> seq_inv sq (sent h) -> r <> ack_peer key ->
  default 0 (sq !! (r, ack_rail key, ack_peer key)) = ack_sequence key -> pn !! (r, key) = None.
Proof using Type.
  intros [H1 H2 H3 H4 H5] Hs Hne Hk. destruct (pn !! (r, key)) as [t|] eqn:Hp; [|done]. destruct (H1 _ _ _ Hp) as [Hc _].
  destruct (H2 _ _ _ Hc) as (f & _ & _ & Hin%elem_of_on & Hf & _). destruct (Hs _ _ _ _ Hne Hin). lia.
Qed.

Lemma submit_send_inv s h t r q error : mesh_inv s h -> calls s !! t = Some (r, SendSubmitting q) ->
  mesh_inv (submit_send uid world error_text s t r q error) (record_mesh (AdvanceCall t error) s h).
Proof using Type.
  intros Hi Hc. destruct (mesh_calls _ _ Hi t r _ Hc) as [Hr (Hty & Hdest & Hne)]. assert (Hq := quiet_call s t r _ Hc ltac:(done)).
  unfold submit_send. open_record Hc. destruct h as [hs ha ht hm]. set (c := (r, send_rail q, send_destination q)).
  unfold checked_add, checked. destruct (in_widthb 64 (sequence_of s c + 1)); [|by apply mesh_call].
  pose proof (mesh_sequence s _ c Hi) as Hi'.
  destruct (send_frame r q (sequence_of s c)) as [f|e|] eqn:Hf; [|by apply (mesh_call (set_sequence s c _))..].
  destruct (send_frame_ok _ _ _ _ Hf Hty Hr Hdest) as (Hft & Hdata & Hseq & _).
  destruct error as [e|].
  - destruct Hi' as [H1 H2 H3 H4]. split; [done|by apply calls_set|done|]. apply (acks_fail_submitted _ _ _ _ _ _ t); [done|done|].
    by apply (acks_fresh _ _ _ _ _ _ _ (mesh_acks _ _ Hi) (mesh_sequences _ _ Hi)).
  - by apply (mesh_submit s (mkMeshHistory hs ha ht hm) t r (mkAckKey (send_destination q) (send_rail q) (sequence_of s c)) f).
Qed.

Lemma poll_failure_inv s h t r key s' : mesh_inv s h -> calls s !! t = Some (r, SendWaiting key) -> poll_failure s t r key = Some s' -> mesh_inv s' h.
Proof using Type.
  intros [H1 H2 H3 H4] Hc. unfold poll_failure. destruct (failures s !! r); [|done]. intros [= <-].
  split; [done|apply calls_set; [done|by apply (H2 t r _ Hc)|done]|done|]. by apply acks_give_up.
Qed.

Lemma send_deadline_inv s h t r key : mesh_inv s h -> calls s !! t = Some (r, SendWaiting key) -> mesh_inv (send_deadline s t r key) h.
Proof using Type.
  intros [H1 H2 H3 H4] Hc. split; [done|apply calls_set; [done|by apply (H2 t r _ Hc)|done]|done|]. by apply acks_fail, acks_give_up.
Qed.

Lemma take_acknowledgement_inv s h t r key s' : mesh_inv s h -> calls s !! t = Some (r, SendWaiting key) ->
  take_acknowledgement s t r key = Some s' -> mesh_inv s' h.
Proof using Type.
  intros [H1 H2 H3 H4] Hc. assert (Hr := proj1 (H2 t r _ Hc)). destruct (acks_waiting _ _ _ _ H4 r key t Hc) as (f & Hf & _ & _ & _ & Hd).
  assert (Hset : forall res, answers s !! t <> None -> (res = Ok tt -> exists m, sends h !! t = Some m /\ m ∈ arrived h) -> mesh_inv (set_call s t r (SendReturned res)) h).
  { intros res Ha Hres. split; [done|by apply calls_set|done|]. apply acks_call; [done| |done| |right; eauto].
    - intros r' k Hp. by apply (acks_pending _ _ _ _ H4) in Hp as [_ Hp].
    - intros [= ->]. by apply Hres. }
  unfold take_acknowledgement. destruct (answers s !! t) as [[m|]|] eqn:Ha.
  - intros [= <-]. by apply Hset.
  - intros [= <-]. apply Hset; [done|]. intros _. destruct Hd as [Hp|[[m Hm]|[_ Hin]]]; [|done|eauto].
    apply (acks_pending _ _ _ _ H4) in Hp as [_ Hp]. congruence.
  - destruct Hd as [Hp|[[m Hm]|[Hm _]]]; [|done..]. by rewrite bool_decide_true.
Qed.

Lemma enter_receive_inv s h t r q : mesh_inv s h -> calls s !! t = Some (r, ReceiveEntering q) -> mesh_inv (enter_receive world rails s t r q) h.
Proof using Type.
  intros Hi Hc. assert (Hr := proj1 (mesh_calls _ _ Hi t r _ Hc)). assert (Hq := quiet_call s t r _ Hc ltac:(done)).
  unfold enter_receive. destruct (_ ← _; _) as [u|e|]; by apply mesh_call.
Qed.

Lemma receive_deadline_inv s h t r q : mesh_inv s h -> calls s !! t = Some (r, ReceiveWaiting q) -> mesh_inv (receive_deadline s t r) h.
Proof using Type.
  intros Hi Hc. assert (Hr := proj1 (mesh_calls _ _ Hi t r _ Hc)). assert (Hq := quiet_call s t r _ Hc ltac:(done)).
  unfold receive_deadline. apply mesh_call; [by apply mesh_fail|done..].
Qed.

Lemma scan_inbox_inv s h t r q s' error : mesh_inv s h -> calls s !! t = Some (r, ReceiveWaiting q) -> scan_inbox s t r q = Some s' ->
  mesh_inv s' (record_mesh (AdvanceCall t error) s h).
Proof using Type.
  intros Hi Hc. assert (Hr := proj1 (mesh_calls _ _ Hi t r _ Hc)). assert (Hq := quiet_call s t r _ Hc ltac:(done)).
  unfold scan_inbox. open_record Hc. destruct h as [hs ha ht hm]. destruct (failures s !! r) as [m|]; [intros [= <-]; by apply mesh_call|].
  destruct (list_find (wanted q) (inbox_of s r)) as [[i x]|] eqn:Hf; [|done]. intros [= <-].
  apply mesh_call; [|done|done|done|done|done]. destruct Hi as [H1 H2 H3 H4]. split; [|done|done|by apply (acks_more _ _ _ (mkMeshHistory hs ha ht hm))].
  by apply (flow_take _ _ _ (mkMeshHistory hs ha ht hm) r q).
Qed.

Lemma from_abort r rail peer message f : (r < world)%nat -> (peer < world)%nat ->
  lift_protocol (frame_new (abort_header uid world r peer message) message) = Ok f -> from_to (r, rail, peer) f /\ opcode f.(header) = Opcode.Abort.
Proof using Type.
  intros Hr Hp Hf%lift_protocol_Ok. destruct (frame_new_fields _ _ _ Hf) as (_ & Hop & _ & Hs & Hd & Hroot & Hw & _ & _ & _ & Hu).
  unfold from_to. by rewrite Hop, Hu, Hw, Hs, Hd, Hroot.
Qed.

Lemma mesh_write s h c f : mesh_inv s h -> c.1.1 <> c.2 -> from_to c f -> acknowledges (arrived h) c f \/ opcode f.(header) = Opcode.Abort ->
  mesh_inv (write_to s c f) h.
Proof using Type. intros [H1 H2 H3 H4] Hc Hf Hk. destruct h as [hs ha ht hm]. split; [|done..]. apply (flow_write _ _ _ (mkMeshHistory hs ha ht hm)); [done..|]. by right. Qed.

Lemma abort_next_inv s h t r message remaining first error : mesh_inv s h -> calls s !! t = Some (r, Aborting message remaining first) ->
  mesh_inv (abort_next uid world s t r message remaining first error) h.
Proof using Type.
  intros Hi Hc. destruct (mesh_calls _ _ Hi t r _ Hc) as [Hr Hok]. assert (Hq := quiet_call s t r _ Hc ltac:(done)).
  unfold abort_next. destruct remaining as [|[rail peer] rest]; [by apply mesh_call; [..|destruct first]|].
  apply Forall_cons in Hok as [[Hp Hne] Hok].
  destruct (lift_protocol _) as [f|e|] eqn:Hf; [|by apply mesh_call..]. destruct error; [by apply mesh_call|].
  destruct (from_abort r rail peer message f Hr Hp Hf) as [Hft Hab].
  apply mesh_call; [|done..]. apply mesh_write; [done| |done|by right]. cbn in *. by apply not_eq_sym.
Qed.

Lemma mesh_drop s h r rail peer f rest : mesh_inv s h -> stream_of s (peer, rail, r) = f :: rest -> ~ is_data f -> mesh_inv (set_stream_of s (peer, rail, r) rest) h.
Proof using Type.
  unfold stream_of. destruct (streams s !! (peer, rail, r)) as [l|] eqn:Hl; [|done]. cbn [from_option id]. intros [H1 H2 H3 H4] -> Hd.
  split; [|done..]. by eapply flow_drop.
Qed.

(** An acknowledgement is read. *)
Lemma mesh_acknowledged s h r rail peer f t : mesh_inv s h -> acknowledges (arrived h) (peer, rail, r) f ->
  pending_acks s !! (r, mkAckKey peer rail (sequence f.(header))) = Some t ->
  mesh_inv (set_answers (set_pending_acks s (delete (r, mkAckKey peer rail (sequence f.(header))) (pending_acks s))) (<[t := None]> (answers s))) h.
Proof using Type.
  intros [H1 H2 H3 H4] (_ & g & Hg & Hs) Ht. split; [done..|]. apply acks_acknowledged; [done|done|]. cbn. intros f' Hf'.
  destruct (acks_pending _ _ _ _ H4 _ _ _ Ht) as [Hc _]. destruct (acks_waiting _ _ _ _ H4 _ _ _ Hc) as (f'' & Hf'' & Hne & Hin & Hq & _).
  rewrite Hf' in Hf''. injection Hf'' as <-. cbn in *. apply elem_of_on in Hin as Hin'.
  assert (Hgs : g ∈ on (r, rail, peer) (sent h)) by (rewrite (flow_order _ _ _ _ H1); apply elem_of_app; by left).
  destruct (H3 _ _ _ _ Hne Hgs) as [_ Hu]. apply elem_of_on. rewrite (Hu f' Hin'); [done|congruence].
Qed.

(** The reader queues a message. *)
Lemma mesh_queue s h r rail peer f rest a : mesh_inv s h -> stream_of s (peer, rail, r) = f :: rest -> is_data f ->
  from_to (r, rail, peer) a -> is_acknowledgement a -> sequence a.(header) = sequence f.(header) ->
  mesh_inv (set_peer_reader (queue_frame (set_stream_of s (peer, rail, r) rest) r rail f) (r, rail, peer) (Acknowledging a))
    (mkMeshHistory (sent h) (arrived h ++ [((peer, rail, r), f)]) (taken h) (sends h)).
Proof using Type.
  unfold stream_of. destruct (streams s !! (peer, rail, r)) as [l|] eqn:Hl; [|done]. cbn [from_option id]. intros [H1 H2 H3 H4] -> Hd Ha Hk Hs.
  split; [by eapply flow_queue|done|done|]. apply acks_more; [done|done|]. intros m Hm. apply elem_of_app. by left.
Qed.

(** The envelope of what peers of the mesh send is valid. *)
Lemma envelope_valid r rail peer f : from_to (peer, rail, r) f ->
  negb (bool_decide (Protocol.unique_id f.(header) = uid)) || negb (Protocol.world_size f.(header) =? Z.of_nat world) || negb (source_rank f.(header) =? Z.of_nat peer)
    || negb (destination_rank f.(header) =? Z.of_nat r) || negb (root_rank f.(header) =? ANY_RANK) = false.
Proof using Type. intros (-> & -> & -> & -> & -> & _). by rewrite bool_decide_true, !Z.eqb_refl. Qed.

Lemma read_frame_inv s h r rail peer f rest : mesh_inv s h -> reader_of s (r, rail, peer) = PeerReading -> stream_of s (peer, rail, r) = f :: rest ->
  mesh_inv (read_frame_of uid world error_text (set_stream_of s (peer, rail, r) rest) r rail peer f) (record_mesh (ReadPeer (r, rail, peer)) s h).
Proof using Type.
  intros Hi Hrd Hst. destruct (flow_frames _ _ _ _ (mesh_flow _ _ Hi) (peer, rail, r) f) as (Hne & Hft & Hkind).
  { fold (stream_of s (peer, rail, r)). rewrite Hst. by left. }
  assert (Hdrop : ~ is_data f -> mesh_inv (set_stream_of s (peer, rail, r) rest) h) by (by apply mesh_drop).
  unfold record_mesh, message_arrived. rewrite Hrd, Hst. cbn [message_sent message_taken option_map]. destruct h as [hs ha ht hm].
  unfold read_frame_of. rewrite (envelope_valid r rail peer f) by done. destruct Hkind as [Hd|[Hack|Hab]].
  - rewrite decide_True by done. destruct Hd as [Hop Hty]. rewrite Hop, bool_decide_false by done.
    destruct Hft as (Hu & Hw & Hs & Hdst & Hroot & Hpw & Hrw). destruct (acknowledgement_ok r rail peer f Hrw Hpw) as (a & -> & Ha & Hk & Hseq).
    by apply (mesh_queue s (mkMeshHistory hs ha ht hm)).
  - pose proof Hack as ((Hop & Hty & Hcount & Hp) & _). assert (Hn : ~ is_data f) by (intros [_ ?]; congruence).
    specialize (Hdrop Hn). rewrite decide_False by done. rewrite Hop, Hcount, Hp, !bool_decide_true by done. cbn [negb orb Z.eqb].
    destruct (pending_acks _ !! _) as [t|] eqn:Ht; [|done]. by apply (mesh_acknowledged (set_stream_of s (peer, rail, r) rest) (mkMeshHistory hs ha ht hm)).
  - assert (Hn : ~ is_data f) by (intros [? _]; congruence). specialize (Hdrop Hn). rewrite decide_False by done. rewrite Hab. by apply mesh_stop.
Qed.

Lemma write_acknowledgement_inv s h c a : mesh_inv s h -> reader_of s c = Acknowledging a -> mesh_inv (set_peer_reader (write_to s c a) c PeerReading) h.
Proof using Type.
  unfold reader_of. destruct (readers s !! c) as [x|] eqn:Hx; [|done]. cbn [from_option id]. intros Hi ->.
  destruct (flow_reader _ _ _ _ (mesh_flow _ _ Hi) c a Hx) as (Hc & Hft & Hk). apply mesh_reader; [|done]. apply mesh_write; auto.
Qed.

Lemma call_new_inv s h t r c s' : mesh_inv s h -> call_ok r c -> (forall key, c <> SendWaiting key) -> c <> SendReturned (Ok tt) ->
  call_new world s t r c = Some s' -> mesh_inv s' h.
Proof using Type.
  unfold call_new. intros Hi Hc Hw Hn. destruct (calls s !! t) eqn:Ht; [done|]. destruct (Nat.ltb_spec r world); [|done]. intros [= <-].
  apply mesh_call; [done| |done..]. intros r' c' Hc'. congruence.
Qed.

Lemma mesh_step_inv e s h s' : typed_event e -> mesh_inv s h -> step e s = Some s' -> mesh_inv s' (record_mesh e s h).
Proof using Type.
  intros Hty Hi. destruct e as [t r q|t r q|t r message|t error|t|t|[[r rail] peer]|c error|c error]; cbn [mesh_step].
  - rewrite record_quiet by done. by apply call_new_inv.
  - rewrite record_quiet by done. by apply call_new_inv.
  - rewrite record_quiet by done. apply call_new_inv; [by apply mesh_fail|apply connections_in_world|done..].
  - destruct (calls s !! t) as [[r c]|] eqn:Hc; [|done].
    assert (Hquiet : (match c with SendEntering _ | SendSubmitting _ | ReceiveWaiting _ => False | _ => True end) -> record_mesh (AdvanceCall t error) s h = h).
    { intros Hk. apply record_quiet; cbn; rewrite Hc; by destruct c. }
    destruct c as [q|q|key|res|q|q|res|message remaining first|res]; try done.
    + intros [= <-]. by apply enter_send_inv.
    + intros [= <-]. by apply submit_send_inv.
    + rewrite Hquiet by done. by apply take_acknowledgement_inv.
    + intros [= <-]. rewrite Hquiet by done. by apply enter_receive_inv.
    + by apply scan_inbox_inv.
    + intros [= <-]. rewrite Hquiet by done. by apply abort_next_inv.
  - rewrite record_quiet by done. destruct (calls s !! t) as [[r []]|] eqn:Hc; try done. by apply poll_failure_inv.
  - rewrite record_quiet by done. destruct (calls s !! t) as [[r []]|] eqn:Hc; try done; intros [= <-]; [by apply send_deadline_inv|by eapply receive_deadline_inv].
  - destruct (reader_of s (r, rail, peer)) eqn:Hr; [|done..]. destruct (stream_of s (peer, rail, r)) as [|f rest] eqn:Hst; [done|].
    intros [= <-]. by apply read_frame_inv.
  - rewrite record_quiet by done. destruct (reader_of s c) eqn:Hr; [done| |done].
    destruct error as [e|]; intros [= <-]; [by apply mesh_stop|by apply write_acknowledgement_inv].
  - rewrite record_quiet by done. destruct (reader_of s c) eqn:Hr; [|done..]. intros [= <-]. by apply mesh_stop.
Qed.

(** ** The messages of the calls *)

(** Where a send of [q] may stand, with the message that it has put on its way. *)
Definition serves (r : nat) (q : SendArguments) (m : option Message) (c : PeerCall) : Prop :=
  match c with
  | SendEntering q' | SendSubmitting q' => q' = q
  | SendWaiting _ | SendReturned (Ok _) => exists f n, m = Some ((r, send_rail q, send_destination q), f) /\ send_frame r q n = Ok f
  | SendReturned _ => True
  | _ => False
  end.

Definition asked_inv (asked : list PeerEvent) (cl : gmap nat (nat * PeerCall)) (sn : gmap nat Message) : Prop :=
  forall t r q, CallSend t r q ∈ asked -> exists c, cl !! t = Some (r, c) /\ serves r q (sn !! t) c.

Lemma asked_set asked cl sn sn' t r c c' : asked_inv asked cl sn -> cl !! t = Some (r, c) -> (forall t', t' <> t -> sn' !! t' = sn !! t') ->
  (forall q, serves r q (sn !! t) c -> serves r q (sn' !! t) c') -> asked_inv asked (<[t := (r, c')]> cl) sn'.
Proof using Type.
  intros Ha Hc Hsn Hs t' r' q (c0 & Hc0 & Hs0)%Ha. destruct (decide (t' = t)) as [->|Hne].
  - rewrite Hc in Hc0. injection Hc0 as <- <-. rewrite lookup_insert_eq. eauto.
  - rewrite lookup_insert_ne, Hsn by done. eauto.
Qed.

Lemma asked_new asked cl sn t r c : asked_inv asked cl sn -> cl !! t = None -> asked_inv asked (<[t := (r, c)]> cl) sn.
Proof using Type. intros Ha Hc t' r' q (c0 & Hc0 & Hs0)%Ha. rewrite lookup_insert_ne by (intros <-; congruence). eauto. Qed.

Lemma asked_one asked e cl sn : asked_inv asked cl sn -> (forall t r q, e = CallSend t r q -> cl !! t = Some (r, SendEntering q)) -> asked_inv (asked ++ [e]) cl sn.
Proof using Type. intros Ha He t r q [Hin|Hin%list_elem_of_singleton]%elem_of_app; [by apply Ha|]. exists (SendEntering q). split; [by apply He|done]. Qed.

(** What a step does to the calls and to their messages. *)
Lemma message_sent_call e s t m : message_sent e s = Some (t, m) -> exists error, e = AdvanceCall t error.
Proof using Type.
  destruct e; try done. cbn. destruct (calls s !! t0) as [[r []]|]; try done.
  - destruct (_ ← _; _) as [[]|e|]; [|done..]. destruct (send_frame r q 0); [|done..]. destruct (_ =? _)%nat; [|done]. intros [= <- _]. eauto.
  - destruct (checked_add _ _ _); [|done]. destruct (send_frame _ _ _); [|done..]. destruct error; [done|]. intros [= <- _]. eauto.
Qed.

Lemma record_sends_other e s h t : (forall error, e <> AdvanceCall t error) -> sends (record_mesh e s h) !! t = sends h !! t.
Proof using Type.
  intros He. cbn. destruct (message_sent e s) as [[t' m]|] eqn:Hm; [|done]. destruct (message_sent_call _ _ _ _ Hm) as [error ->].
  rewrite lookup_insert_ne; [done|]. intros <-. by apply (He error).
Qed.

Lemma enter_send_calls s h t r q error : calls s !! t = Some (r, SendEntering q) -> exists c,
  calls (enter_send uid world rails s t r q) = <[t := (r, c)]> (calls s) /\ serves r q (sends (record_mesh (AdvanceCall t error) s h) !! t) c.
Proof using Type.
  intros Hc. unfold enter_send. cbn [record_mesh sends]. cbn [message_sent]. rewrite Hc.
  destruct (_ ← validate_mesh_rail rails (send_rail q); _ ← validate_peer world (send_destination q); check_failure s r) as [[]|e|]; [|eexists; split; [reflexivity|done]..].
  destruct (Nat.eqb_spec (send_destination q) r) as [Hd|Hd]; [|eexists; split; [reflexivity|done]].
  destruct (send_frame r q 0) as [f|e|] eqn:Hf; [|eexists; split; [reflexivity|done]..].
  eexists. split; [reflexivity|]. cbn. rewrite lookup_insert_eq. exists f, 0. split; [by rewrite Hd|done].
Qed.

Lemma submit_send_calls s h t r q error : calls s !! t = Some (r, SendSubmitting q) -> exists c,
  calls (submit_send uid world error_text s t r q error) = <[t := (r, c)]> (calls s) /\ serves r q (sends (record_mesh (AdvanceCall t error) s h) !! t) c.
Proof using Type.
  intros Hc. unfold submit_send. cbn [record_mesh sends]. cbn [message_sent]. rewrite Hc. destruct (checked_add _ _ _); [|eexists; split; [reflexivity|done]].
  destruct (send_frame r q _) as [f|e|] eqn:Hf; [|eexists; split; [reflexivity|done]..].
  destruct error as [e|]; (eexists; split; [reflexivity|]); [done|]. cbn. rewrite lookup_insert_eq. exists f, (sequence_of s (r, send_rail q, send_destination q)). done.
Qed.

Lemma advance_calls s h t r c error s' : calls s !! t = Some (r, c) -> step (AdvanceCall t error) s = Some s' -> exists c',
  calls s' = <[t := (r, c')]> (calls s) /\ forall q, serves r q (sends h !! t) c -> serves r q (sends (record_mesh (AdvanceCall t error) s h) !! t) c'.
Proof using Type.
  intros Hc. cbn [mesh_step]. rewrite Hc. destruct c as [q|q|key|res|q|q|res|message remaining first|res]; try done.
  - intros [= <-]. destruct (enter_send_calls s h t r q error Hc) as (c & Hs & Hq). exists c. split; [done|]. intros ? [= ->]. done.
  - intros [= <-]. destruct (submit_send_calls s h t r q error Hc) as (c & Hs & Hq). exists c. split; [done|]. intros ? [= ->]. done.
  - rewrite record_quiet by (cbn; by rewrite Hc). unfold take_acknowledgement. destruct (answers s !! t) as [[m|]|].
    + intros [= <-]. eexists. split; [reflexivity|done].
    + intros [= <-]. eexists. split; [reflexivity|done].
    + destruct (bool_decide _); [done|]. intros [= <-]. eexists. split; [reflexivity|done].
  - intros [= <-]. unfold enter_receive. destruct (_ ← _; _); (eexists; split; [reflexivity|intros ? []]).
  - unfold scan_inbox. destruct (failures s !! r); [intros [= <-]; eexists; split; [reflexivity|intros ? []]|].
    destruct (list_find _ _) as [[i x]|]; [|done]. intros [= <-]. eexists. split; [reflexivity|intros ? []].
  - intros [= <-]. unfold abort_next. destruct remaining as [|[rail peer] rest]; [eexists; split; [reflexivity|intros ? []]|].
    destruct (lift_protocol _); [destruct error|..]; (eexists; split; [reflexivity|intros ? []]).
Qed.

Lemma call_new_calls s t r c s' asked sn : call_new world s t r c = Some s' -> asked_inv asked (calls s) sn ->
  asked_inv asked (calls s') sn /\ calls s' !! t = Some (r, c).
Proof using Type.
  unfold call_new. destruct (calls s !! t) eqn:Hc; [done|]. destruct (r <? world)%nat; [|done]. intros [= <-] Ha.
  split; [by apply asked_new|]. cbn. by rewrite lookup_insert_eq.
Qed.

Lemma read_frame_calls s r rail peer f : calls (read_frame_of uid world error_text s r rail peer f) = calls s.
Proof using Type.
  unfold read_frame_of. destruct (_ || _); [done|]. destruct (opcode _); try done. case_bool_decide.
  - destruct (_ || _); [done|]. by destruct (pending_acks s !! _).
  - by destruct (peer_send_acknowledgement _ _ _ _ _).
Qed.

Lemma record_sends e s h : message_sent e s = None -> sends (record_mesh e s h) = sends h.
Proof using Type. unfold record_mesh. by intros ->. Qed.

Lemma asked_step asked e s h s' : asked_inv asked (calls s) (sends h) -> step e s = Some s' -> asked_inv (asked ++ [e]) (calls s') (sends (record_mesh e s h)).
Proof using Type.
  intros Ha Hs. apply asked_one; [|intros t r q ->; cbn in Hs; by apply (call_new_calls _ _ _ _ _ _ _ Hs Ha)].
  destruct e as [t r q|t r q|t r message|t error|t|t|[[r rail] peer]|c error|c error]; [| | |cbn [mesh_step] in Hs..]; [| | |destruct (calls s !! t) as [[r c]|] eqn:Hc; [|done]|rewrite record_sends by done..].
  - rewrite record_sends by done. by eapply call_new_calls.
  - rewrite record_sends by done. by eapply call_new_calls.
  - rewrite record_sends by done. eapply call_new_calls; [exact Hs|done].
  - destruct (advance_calls s h t r c error s' Hc) as (c' & -> & Hq); [cbn; by rewrite Hc|]. eapply asked_set; [done|done| |done].
    intros t' Hne. apply record_sends_other. intros ? [= ?]. done.
  - destruct (calls s !! t) as [[r []]|] eqn:Hc; try done. unfold poll_failure in Hs. destruct (failures s !! r); [|done].
    injection Hs as <-. by eapply asked_set.
  - destruct (calls s !! t) as [[r []]|] eqn:Hc; try done; injection Hs as <-; by eapply asked_set.
  - destruct (reader_of s _); [|done..]. destruct (stream_of s _) as [|f rest]; [done|]. injection Hs as <-. by rewrite read_frame_calls.
  - destruct (reader_of s c); [done| |done]. by destruct error; injection Hs as <-.
  - destruct (reader_of s c); [|done..]. by injection Hs as <-.
Qed.

(** ** Runs *)
Abbreviation mesh_runs := (runs recorded_mesh_step).

Lemma mesh_runs_inv l s h s' h' asked : mesh_runs l (s, h) (s', h') -> Forall typed_event l -> mesh_inv s h -> asked_inv asked (calls s) (sends h) ->
  mesh_inv s' h' /\ asked_inv (asked ++ l) (calls s') (sends h').
Proof using Type.
  revert s h asked. induction l as [|e l IH]; intros s h asked Hl Hty Hi Ha; inversion Hl as [|? ? ? [s1 h1] ? He Hrest]; subst; [by rewrite app_nil_r|].
  apply bind_Some in He as (s2 & He & [= <- <-]). apply Forall_cons in Hty as [Hty1 Hty].
  destruct (IH _ _ (asked ++ [e]) Hrest Hty) as [H1 H2]; [by eapply mesh_step_inv|by eapply asked_step|]. by rewrite <- app_assoc in H2.
Qed.

Definition mesh_start : PeerMesh * MeshHistory := (mesh_new, mesh_history_new).

(** C11: On the mesh of the peers, however calls, readers, deadlines and failures of
    all ranks interleave, as long as no message is without elements: for every
    connection and tag, what was written to the connection is what receives have
    taken, then what waits in the inbox, then what is in transit, in the order of
    the sends; a send that returns well has put the frame of its arguments on its
    connection and into the inbox of the destination; and a send that waits is
    still pending or has its answer, so that its channel is never found closed. *)
Theorem mesh_delivers l s h : mesh_runs l mesh_start (s, h) -> Forall typed_event l ->
  (forall r rail peer tg, tagged tg (on (r, rail, peer) (sent h)) =
    tagged tg (on (r, rail, peer) (taken h)) ++ tagged tg (waiting_in (inboxes s) (r, rail, peer)) ++
    if (r =? peer)%nat then [] else tagged tg (filter is_data (stream_of s (r, rail, peer)))) /\
  (forall t r q, CallSend t r q ∈ l -> calls s !! t = Some (r, SendReturned (Ok tt)) ->
    exists f n, send_frame r q n = Ok f /\ f ∈ on (r, send_rail q, send_destination q) (arrived h)) /\
  (forall t r key, calls s !! t = Some (r, SendWaiting key) -> pending_acks s !! (r, key) = Some t \/ exists m, answers s !! t = Some m).
Proof using Type.
  intros Hl Hty. destruct (mesh_runs_inv l _ _ s h [] Hl Hty mesh_new_inv) as [[Hflow _ _ Hacks] Ha].
  { intros t r q Hin. by apply elem_of_nil in Hin. }
  split; [|split].
  - intros r rail peer tg. rewrite (flow_order _ _ _ _ Hflow), tagged_app, (flow_inbox _ _ _ _ Hflow), <- app_assoc. by destruct (r =? peer)%nat.
  - intros t r q (c & Hc & Hs)%Ha Hret. rewrite Hret in Hc. injection Hc as <-. destruct Hs as (f & n & Hm & Hf).
    exists f, n. split; [done|]. destruct (acks_returned _ _ _ _ Hacks r t Hret) as (m & Hm' & Hin). rewrite Hm in Hm'. injection Hm' as <-.
    by apply elem_of_on.
  - intros t r key Hc. destruct (acks_waiting _ _ _ _ Hacks r key t Hc) as (f & _ & _ & _ & _ & [Hp|[[m Hm]|[Hm _]]]); eauto.
Qed.
End history.

(** ** Concrete traces *)
Module PeerExample.
Import Crc32Ieee.
Definition uid : list Z := map Z.of_nat (seq 0 16).
Definition text (e : NetworkError) : list Z := [].
Abbreviation step := (recorded_mesh_step uid 2 1 text).

Definition message_of (ty : ElementType) (tg : Z) (count : Z) (payload : list Z) : SendArguments := mkSend 0 1 tg ty count payload.
Definition receive_of (tg : Z) : ReceiveArguments := mkReceive 0 (Some 0%nat) tg ElementType.U8 2.

(** Two messages of rank 0; rank 1 receives the second, whose acknowledgement comes. *)
Definition two_messages : list PeerEvent :=
  [CallSend 0 0 (message_of ElementType.U8 7 1 [5]); AdvanceCall 0 None; CallSend 1 0 (message_of ElementType.U8 8 2 [6; 4]); AdvanceCall 1 None;
   AdvanceCall 0 None; AdvanceCall 1 None; CallReceive 2 1 (receive_of 8); AdvanceCall 2 None;
   ReadPeer (1, 0, 0)%nat; WriteAcknowledgement (1, 0, 0)%nat None; ReadPeer (1, 0, 0)%nat; WriteAcknowledgement (1, 0, 0)%nat None;
   AdvanceCall 2 None; ReadPeer (0, 0, 1)%nat; ReadPeer (0, 0, 1)%nat; AdvanceCall 1 None].

Definition run (l : list PeerEvent) : option (PeerMesh * MeshHistory) := replay step l mesh_start.

(** A message without elements is taken for an acknowledgement: it is dropped, and
    only the deadline ends its send. *)
Definition empty_message : list PeerEvent :=
  [CallSend 0 0 (message_of ElementType.None 7 0 []); AdvanceCall 0 None; AdvanceCall 0 None; ReadPeer (1, 0, 0)%nat].

Lemma empty_message_lost : exists s h, run empty_message = Some (s, h) /\ inbox_of s 1 = [] /\ stream_of s (0, 0, 1)%nat = [] /\ stream_of s (1, 0, 0)%nat = [] /\
  reader_of s (1, 0, 0)%nat = PeerReading /\ calls s !! 0%nat = Some (0%nat, SendWaiting (mkAckKey 1 0 0)) /\ step (AdvanceCall 0 None) (s, h) = None.
Proof. eexists _, _. split; [vm_compute; reflexivity|]. split_and!; reflexivity. Qed.

Lemma two_messages_end : exists s h, run two_messages = Some (s, h) /\ calls s !! 1%nat = Some (0%nat, SendReturned (Ok tt)) /\
  payload <$> on (0, 0, 1)%nat (arrived h) = [[5]; [6; 4]] /\ payload <$> on (0, 0, 1)%nat (taken h) = [[6; 4]] /\ payload <$> waiting_in (inboxes s) (0, 0, 1)%nat = [[5]].
Proof. eexists _, _. split; [vm_compute; reflexivity|]. split_and!; vm_compute; reflexivity. Qed.
End PeerExample.

Import Crc32Ieee PeerExample.

Lemma mesh_delivers_witness : exists s h f, run two_messages = Some (s, h) /\
  f ∈ on (0, 0, 1)%nat (arrived h) /\ payload f = [6; 4].
Proof.
  destruct two_messages_end as (s & h & Hrun & Hret & _ & _ & _). exists s, h.
  destruct (mesh_delivers uid 2 1 text two_messages s h (replay_runs _ _ _ _ Hrun)) as (_ & Hsent & _).
  { unfold two_messages. by repeat (apply Forall_cons; split). }
  destruct (Hsent 1%nat 0%nat (message_of ElementType.U8 8 2 [6; 4])) as (f & n & Hf & Hin); [do 2 right; by left|exact Hret|].
  exists f. split; [exact Hrun|]. split; [exact Hin|].
  unfold Peer.send_frame in Hf. apply lift_protocol_Ok, frame_new_fields in Hf as [-> _]. reflexivity.
Defined.
