(* ===== verification/Session.v ===== *)
(** * The session of a rank: TcpRankSession of src/src/rank/network.rs

    The operations that the collectives of a rank use: messages to another rank
    on a rail, and the ordered exchange with the coordinator.  The transport
    between the sessions is the mail of [Processes]: messages under way, and the
    collective rounds.  A round is answered when every rank has submitted its
    request; the answers are those of the coordinator of [Router].  The order of
    the messages between two ranks under one tag and the acknowledgement of a
    send at its arrival are what [P2p] proves of the point-to-point loop, and
    [Peer] of the mesh of the peers; the
    sequence numbers with which a connection pairs responses and requests are
    in [P2pClient]. *)
From S2P Require Import Prelude Protocol Agreement Errors Tags Router P2p Device Processes.

(** ** The transport *)
Section transport.
Context `{Crc32Hash} (uid : list Z) (world : nat) (error_text : NetworkError -> list Z).

(** The thread of a rank that uses a tag: the process [lane tag * world + rank]
    is the one that sends and receives under it. *)
Context (lane : Z -> nat).

Definition endpoint (rank tag : Z) : nat := (lane tag * world + Z.to_nat rank)%nat.

Inductive Outgoing :=
  | ToRank (rail : nat) (send : Frame)
  | ToCoordinator (request : Frame).

(** A response to a receive request, a message of the mesh of the peers (on a rail,
    to a rank, from a rank, under a tag), and the answer of a collective round. *)
Inductive Incoming :=
  | FromRank (rail : nat) (receive : Frame)
  | FromPeer (rail : nat) (receiver source receive_tag : Z)
  | FromCoordinator.

(** Rail, source, destination and tag. *)
Abbreviation Channel := (nat * Z * Z * Z)%type.

Record Wire := mkWire {
  in_transit : gmap Channel (list Frame);
  submitted : gmap nat (list Frame);
  answered : gmap nat nat;
}.

Definition send_channel (rail : nat) (h : FrameHeader) : Channel := (rail, source_rank h, destination_rank h, tag h).
Definition receive_channel (rail : nat) (h : FrameHeader) : Channel := (rail, destination_rank h, source_rank h, tag h).

Definition push_message (k : Channel) (f : Frame) (m : gmap Channel (list Frame)) : gmap Channel (list Frame) :=
  <[k := default [] (m !! k) ++ [f]]> m.

Definition pop_message (k : Channel) (m : gmap Channel (list Frame)) : option (Frame * gmap Channel (list Frame)) :=
  match m !! k with
  | Some (f :: rest) => Some (f, match rest with [] => delete k m | _ => <[k := rest]> m end)
  | _ => None
  end.

(** The response to a receive request ([deliver_p2p_receive]); another type or
    count aborts the connection. *)
Definition p2p_response (send receive : Frame) : nresult Frame :=
  if negb (bool_decide (element_type send.(header) = element_type receive.(header)))
     || negb (element_count send.(header) =? element_count receive.(header))
  then Err (NetworkError.RemoteAbort "point-to-point tag {} contract mismatch: send {:?}/{} receive {:?}/{}" [])
  else
    let h := collective uid Opcode.Receive (element_type send.(header)) (source_rank send.(header)) ANY_RANK
               (wrap 32 (Z.of_nat world)) (sequence receive.(header)) (element_count send.(header)) in
    lift_protocol (frame_new (set_tag (set_destination_rank h (source_rank receive.(header))) (tag send.(header)))
                     send.(payload)).

(** What a message comes on, whose it is, and what it is made into; the mesh
    hands over the frame that was sent. *)
Definition arrival (i : Incoming) : option (nat * Channel * (Frame -> nresult Frame)) :=
  match i with
  | FromRank rail receive =>
      Some (endpoint (source_rank receive.(header)) (tag receive.(header)), receive_channel rail receive.(header), fun send => p2p_response send receive)
  | FromPeer rail receiver source receive_tag => Some (endpoint receiver receive_tag, (rail, source, receiver, receive_tag), fun send => Ok send)
  | FromCoordinator => None
  end.

(** *** Collective rounds *)

(** The requests of round [k], once all have been submitted. *)
Definition round_requests (w : Wire) (k : nat) : option (list Frame) :=
  mapM (fun r => l ← submitted w !! r; l !! k) (seq 0 world).

(** The agreement with which round [k] opens; there is none after a round that failed. *)
Fixpoint round_agreement (w : Wire) (k : nat) : option CollectiveAgreement :=
  match k with
  | O => Some (mkAgreement world 0 ∅)
  | S j =>
      ag ← round_agreement w j;
      requests ← round_requests w j;
      match validate_and_route ag uid (next_sequence ag) requests with
      | (ag', Ok _) => Some ag'
      | _ => None
      end
  end.

(** What the coordinator writes to rank [r] in round [k]. *)
Definition round_response (w : Wire) (k r : nat) : option Frame :=
  ag ← round_agreement w k;
  requests ← round_requests w k;
  match (validate_and_route ag uid (next_sequence ag) requests).2 with
  | Ok responses => responses !! r
  | Err e =>
      match abort_frame uid (next_sequence ag) (wrap 32 (Z.of_nat r)) (wrap 32 (Z.of_nat world)) (error_text e) with
      | Ok f => Some f
      | _ => None
      end
  | Panic => None
  end.

Definition rank_transport : Mail := {|
  Out := Outgoing;
  In := Incoming;
  Message := nresult Frame;
  Store := Wire;
  post_mail p o w :=
    match o with
    | ToRank rail f =>
        if decide (p = endpoint (source_rank f.(header)) (tag f.(header))) then
          mkWire (push_message (send_channel rail f.(header)) f (in_transit w)) (submitted w) (answered w)
        else w
    | ToCoordinator f => mkWire (in_transit w) (<[p := default [] (submitted w !! p) ++ [f]]> (submitted w)) (answered w)
    end;
  take_mail p i w :=
    match arrival i with
    | Some (q, channel, respond) =>
        if decide (p = q) then
          '(send, m) ← pop_message channel (in_transit w);
          Some (respond send, mkWire m (submitted w) (answered w))
        else None
    | None =>
        let k := default 0%nat (answered w !! p) in
        f ← round_response w k p;
        Some (Ok f, mkWire (in_transit w) (submitted w) (<[p := S k]> (answered w)))
    end;
|}.

(** *** The operations of different processes commute *)
Definition extends (w w' : Wire) : Prop :=
  forall r l, submitted w !! r = Some l -> exists l', submitted w' !! r = Some (l ++ l').

Lemma round_requests_extends w w' k l : extends w w' -> round_requests w k = Some l -> round_requests w' k = Some l.
Proof using Type.
  intros He Hl. apply mapM_Some in Hl. apply mapM_Some. eapply Forall2_impl; [exact Hl|]. cbn beta.
  intros r f (l' & Hr & Hk)%bind_Some. destruct (He r l' Hr) as [l'' ->]. cbn. by apply lookup_app_l_Some.
Qed.

Lemma round_agreement_extends w w' k ag : extends w w' -> round_agreement w k = Some ag -> round_agreement w' k = Some ag.
Proof using Type.
  intros He. revert ag. induction k as [|k IH]; intros ag; cbn [round_agreement]; [done|].
  intros (ag0 & H0 & (l & Hl & Hag)%bind_Some)%bind_Some. rewrite (IH _ H0). cbn. by rewrite (round_requests_extends _ _ _ _ He Hl).
Qed.

Lemma round_response_extends w w' k r f : extends w w' -> round_response w k r = Some f -> round_response w' k r = Some f.
Proof using Type.
  intros He. unfold round_response. intros (ag & Hag & (l & Hl & Hf)%bind_Some)%bind_Some.
  rewrite (round_agreement_extends _ _ _ _ He Hag). cbn. by rewrite (round_requests_extends _ _ _ _ He Hl).
Qed.

Lemma extends_same w w' : submitted w' = submitted w -> extends w w'.
Proof using Type. intros Hs r l Hl. exists []. by rewrite Hs, app_nil_r. Qed.

Lemma extends_post q o w : extends w (post_mail (Mail:=rank_transport) q o w).
Proof using Type.
  destruct o as [rail f|f]; cbn; [case_decide; by apply extends_same|].
  intros r l Hl. cbn [submitted]. destruct (decide (r = q)) as [->|Hne].
  - rewrite lookup_insert_eq, Hl. by eexists.
  - rewrite lookup_insert_ne by done. exists []. by rewrite app_nil_r.
Qed.

Lemma pop_push_ne k k' f m g m' : k <> k' -> pop_message k m = Some (g, m') -> pop_message k (push_message k' f m) = Some (g, push_message k' f m').
Proof using Type.
  intros Hne. unfold pop_message, push_message. rewrite lookup_insert_ne by done. destruct (m !! k) as [[|g' rest]|] eqn:Hk; try done.
  intros [= -> <-]. f_equal. f_equal. destruct rest.
  - rewrite lookup_delete_ne by done. by rewrite delete_insert_ne.
  - rewrite lookup_insert_ne by done. by apply insert_insert_ne.
Qed.

Lemma pop_push_eq k f m g m' : pop_message k m = Some (g, m') -> pop_message k (push_message k f m) = Some (g, push_message k f m').
Proof using Type.
  unfold pop_message, push_message. rewrite lookup_insert_eq. destruct (m !! k) as [[|g' rest]|] eqn:Hk; try done. cbn.
  intros [= -> <-]. f_equal. f_equal. destruct rest; cbn.
  - by rewrite lookup_delete_eq, insert_insert_eq, insert_delete_eq.
  - by rewrite lookup_insert_eq, !insert_insert_eq.
Qed.

Lemma pop_push k k' f m g m' : pop_message k m = Some (g, m') -> pop_message k (push_message k' f m) = Some (g, push_message k' f m').
Proof using Type. destruct (decide (k = k')) as [->|Hne]; [apply pop_push_eq|by apply pop_push_ne]. Qed.

Lemma pop_pop_ne k k' m g m1 g' m2 : k <> k' -> pop_message k m = Some (g, m1) -> pop_message k' m = Some (g', m2) ->
  exists m3, pop_message k' m1 = Some (g', m3) /\ pop_message k m2 = Some (g, m3).
Proof using Type.
  intros Hne. unfold pop_message. destruct (m !! k) as [[|x l]|] eqn:Hk; try done. destruct (m !! k') as [[|x' l']|] eqn:Hk'; try done.
  intros [= -> <-] [= -> <-]. destruct l as [|y l], l' as [|y' l'];
    rewrite ?lookup_delete_ne, ?lookup_insert_ne, ?Hk, ?Hk' by done; (eexists; split; [done|]); do 2 f_equal.
  - by rewrite delete_delete.
  - by rewrite delete_insert_ne.
  - by rewrite delete_insert_ne.
  - by rewrite insert_insert_ne.
Qed.

Lemma push_push_ne k k' f f' m : k <> k' -> push_message k f (push_message k' f' m) = push_message k' f' (push_message k f m).
Proof using Type. intros Hne. unfold push_message. rewrite !lookup_insert_ne by done. by apply insert_insert_ne. Qed.

(** Different processes take from different channels. *)
Lemma arrival_channel i j p q c c' f f' : arrival i = Some (p, c, f) -> arrival j = Some (q, c', f') -> p <> q -> c <> c'.
Proof using Type.
  destruct i as [rail r|rail d s t|], j as [rail' r'|rail' d' s' t'|]; cbn; try done; intros [= <- <- _] [= <- <- _] Hpq; unfold receive_channel;
    intros [= ? ? ? ?]; apply Hpq; unfold endpoint; congruence.
Qed.

#[export] Instance rank_transport_laws : MailLaws rank_transport.
Proof.
  split.
  - intros p q [rail f|f] [rail' f'|f'] w Hpq; cbn; repeat case_decide; try done.
    + f_equal. cbn. apply push_push_ne. unfold send_channel. intros [= <- Hs Hd Ht]. apply Hpq. subst p q. by rewrite Hs, Ht.
    + f_equal. cbn. rewrite !lookup_insert_ne by done. by apply insert_insert_ne.
  - intros p q i o w m w' Hpq. cbn [take_mail rank_transport]. destruct (arrival i) as [[[a c] g]|].
    + case_decide as Hp; [|done]. intros ([send t] & Hpop & [= <- <-])%bind_Some. destruct o as [rail' f'|f']; cbn [post_mail rank_transport].
      * destruct (decide (q = _)); cbn [in_transit submitted answered]; [|by rewrite Hpop].
        by rewrite (pop_push _ (send_channel rail' f'.(header)) f' _ _ _ Hpop).
      * cbn [in_transit submitted answered]. by rewrite Hpop.
    + intros (f & Hf & [= <- <-])%bind_Some.
      assert (Hans : answered (post_mail (Mail:=rank_transport) q o w) = answered w) by (destruct o; cbn; by repeat case_decide).
      rewrite Hans, (round_response_extends _ _ _ _ _ (extends_post q o w) Hf). cbn.
      do 2 f_equal. destruct o; cbn; by repeat case_decide.
  - intros p q i j w m n w1 w2 Hpq.
    assert (Hsame : forall w w' k r, submitted w' = submitted w -> round_response w' k r = round_response w k r).
    { intros v v' k r Hs. destruct (round_response v' k r) as [f|] eqn:Hf.
      - symmetry. eapply round_response_extends; [by apply extends_same|done].
      - destruct (round_response v k r) as [f|] eqn:Hf'; [|done].
        by rewrite (round_response_extends v v' _ _ _ (extends_same _ _ Hs) Hf') in Hf. }
    cbn [take_mail rank_transport]. destruct (arrival i) as [[[a c] g]|] eqn:Hi, (arrival j) as [[[b d] h]|] eqn:Hj.
    + case_decide as Hp; [|done]. case_decide as Hq; [|done]. subst a b.
      intros ([s1 m1] & H1 & [= <- <-])%bind_Some ([s2 m2] & H2 & [= <- <-])%bind_Some. cbn [in_transit submitted answered].
      pose proof (arrival_channel _ _ _ _ _ _ _ _ Hi Hj Hpq) as Hne.
      destruct (pop_pop_ne _ _ _ _ _ _ _ Hne H1 H2) as (m3 & -> & ->). by eexists.
    + case_decide; [|done]. intros ([s1 m1] & H1 & [= <- <-])%bind_Some (f & Hf & [= <- <-])%bind_Some. cbn [in_transit submitted answered].
      rewrite (Hsame w (mkWire m1 (submitted w) (answered w)) _ _ eq_refl), Hf, H1. by eexists.
    + case_decide; [|done]. intros (f & Hf & [= <- <-])%bind_Some ([s1 m1] & H1 & [= <- <-])%bind_Some. cbn [in_transit submitted answered].
      rewrite (Hsame w (mkWire m1 (submitted w) (answered w)) _ _ eq_refl), Hf, H1. by eexists.
    + intros (f & Hf & [= <- <-])%bind_Some (f' & Hf' & [= <- <-])%bind_Some. cbn [in_transit submitted answered].
      rewrite !lookup_insert_ne by done.
      rewrite (Hsame w (mkWire _ _ (<[p := _]> (answered w))) _ _ eq_refl), (Hsame w (mkWire _ _ (<[q := _]> (answered w))) _ _ eq_refl), Hf, Hf'.
      eexists. split; [done|]. cbn. do 3 f_equal. by apply insert_insert_ne.
Qed.
End transport.

(** ** The operations of a session *)
Record TcpRankSession := mkSession {
  session_uid : list Z;
  rank : nat;
  session_world : nat;
  session_transport : CollectiveTransport;
  session_rails : nat;
}.

(** The errors of a program, converted. *)
Fixpoint convert_error {M : Mail} {E F A} (f : E -> F) (m : program E A) : program F A :=
  match m with
  | Return r => Return (map_err f r)
  | Post o k => Post o (convert_error f k)
  | Take i k => Take i (fun x => convert_error f (k x))
  | Sync k => Sync (convert_error f k)
  end.

Lemma alone_convert {M : Mail} {E F A} (f : E -> F) p (m m' : program E A) s s' :
  alone p m s m' s' -> alone p (convert_error f m) s (convert_error f m') s'.
Proof.
  induction 1 as [x s|x s y s1 z s2 Hgo _ IH]; [constructor|]. econstructor; [|exact IH].
  destruct x as [r|o k|i k|k]; cbn in *; [done| | |done].
  - by injection Hgo as <- <-.
  - destruct (take_mail p i s) as [[v t]|]; [|done]. by injection Hgo as <- <-.
Qed.

(** [ExchangeOptions::new] *)
Definition exchange_options_new (root count : Z) : ExchangeOptions := mkExchangeOptions root count 0 0.

Section operations.
Context `{Crc32Hash} (uid : list Z) (world : nat) (error_text : NetworkError -> list Z) (lane : Z -> nat).
#[local] Instance session_mail : Mail := rank_transport uid world error_text lane.
#[local] Instance session_mail_laws : MailLaws session_mail := rank_transport_laws uid world error_text lane.

Abbreviation session_program := (program NetworkError).
Context (s : TcpRankSession).
Abbreviation rank_z := (Z.of_nat (rank s)).
Abbreviation world_z := (Z.of_nat (session_world s)).

(** The frame that [request_with_timeout] sends to the coordinator of a rail; its
    sequence number, which pairs it with its response, is left at zero. *)
Definition request_frame (op : Opcode) (peer tag : Z) (et : ElementType) (count : Z) (data : list Z) : nresult Frame :=
  lift_protocol
    (frame_new (set_tag (set_destination_rank (collective (session_uid s) op et rank_z ANY_RANK world_z 0 count) peer) tag)
       data).

Definition p2p_rail (rail : nat) : nresult unit :=
  fail_if (session_rails s <=? rail)%nat (InvalidConfiguration "point-to-point rail {rail} is outside 0..{}").

(** The data plane of a session: [DirectPeerMesh] or the coordinator's rails. *)
Definition peer_plane : bool := match session_transport s with TcpPeer => true | _ => false end.

(** [validate_rail] of the mesh; [validate_peer] repeats the check of the rank. *)
Definition validate_rail (rail : nat) : nresult unit :=
  fail_if (session_rails s <=? rail)%nat (InvalidConfiguration "direct peer rail {rail} is outside 0..{}").

(** A frame without elements is an acknowledgement to the mesh of its receiver,
    so that its sender waits in vain. *)
Definition send_on_rail (rail : nat) (destination tag : Z) (et : ElementType) (count : Z) (data : list Z) : session_program unit :=
  _ ← lift (fail_if (world_z <=? destination) (NetworkError.Protocol (RankOutOfRange "destination" destination world_z)));
  _ ← lift (if peer_plane then validate_rail rail else p2p_rail rail);
  frame ← lift (request_frame Opcode.Send destination tag et count data);
  _ ← lift (fail_if (peer_plane && bool_decide (et = ElementType.None) && negb (destination =? rank_z))
         (NetworkError.Timeout "direct peer send to rank {destination} rail {rail} with tag {tag} timed out"));
  put_out (ToRank rail frame).

Definition peer_receive (rail : nat) (source tag : Z) (et : ElementType) (count : Z) : session_program Frame :=
  _ ← lift (validate_rail rail);
  r ← wait_for (FromPeer rail rank_z source tag);
  queued ← lift r;
  _ ← lift (fail_if (negb (bool_decide (element_type queued.(header) = et)) || negb (element_count queued.(header) =? count))
         (InvalidConfiguration "direct peer tag {tag} contract mismatch: send {:?}/{} receive {:?}/{}"));
  mret queued.

Definition coordinator_receive (rail : nat) (source tag : Z) (et : ElementType) (count : Z) : session_program Frame :=
  _ ← lift (p2p_rail rail);
  frame ← lift (request_frame Opcode.Receive source tag et count []);
  r ← wait_for (FromRank rail frame);
  response ← lift r;
  _ ← lift (fail_if (negb (bool_decide (opcode response.(header) = Opcode.Receive)))
             (InvalidConfiguration "invalid point-to-point receive response"));
  mret response.

Definition receive_on_rail (rail : nat) (source tag : Z) (et : ElementType) (count : Z) : session_program Frame :=
  _ ← lift (fail_if (world_z <=? source) (NetworkError.Protocol (RankOutOfRange "source" source world_z)));
  if peer_plane then peer_receive rail source tag et count else coordinator_receive rail source tag et count.

Definition rail_of_tag (tag : Z) : nresult nat :=
  if (session_rails s =? 0)%nat then Panic else Ok (Z.to_nat (tag mod Z.of_nat (session_rails s))).

Definition send (destination tag : Z) (et : ElementType) (count : Z) (data : list Z) : session_program unit :=
  rail ← lift (rail_of_tag tag); send_on_rail rail destination tag et count data.

(** From a given source; a receive from any rank is not modelled. *)
Definition receive (source tag : Z) (et : ElementType) (count : Z) : session_program Frame :=
  rail ← lift (rail_of_tag tag); receive_on_rail rail source tag et count.

(** The request of a collective under the sequence number [next]. *)
Definition exchange_request (next : Z) (op : Opcode) (et : ElementType) (options : ExchangeOptions) (data : list Z) : nresult Frame :=
  let h := collective (session_uid s) op et rank_z (eo_root_rank options) world_z next (eo_element_count options) in
  lift_protocol (frame_new (set_tag (set_flags h (Z.lor (flags h) (eo_flags options))) (eo_tag options)) data).

(** The session's [next_sequence] is passed and returned. *)
Definition exchange_with_options (next : Z) (op : Opcode) (et : ElementType) (options : ExchangeOptions) (data : list Z)
    : session_program (Z * Frame) :=
  request ← lift (exchange_request next op et options data);
  _ ← put_out (ToCoordinator request);
  r ← wait_for FromCoordinator;
  response ← lift r;
  _ ← lift (validate_response response (session_uid s) rank_z world_z next);
  _ ← lift (fail_if (bool_decide (opcode response.(header) = Opcode.Abort)) (NetworkError.RemoteAbort "{}" response.(payload)));
  next' ← lift (ok_or (checked_add 64 next 1) (NetworkError.Protocol SequenceOverflow));
  mret (next', response).

Definition exchange (next : Z) (op : Opcode) (et : ElementType) (root count : Z) (data : list Z) : session_program (Z * Frame) :=
  exchange_with_options next op et (exchange_options_new root count) data.

Definition session_barrier (next : Z) : session_program Z :=
  '(next', response) ← exchange next Opcode.Barrier ElementType.None ANY_RANK 0 [];
  _ ← lift (fail_if (negb (bool_decide (opcode response.(header) = Opcode.Barrier)) || negb (bool_decide (response.(payload) = [])))
             (InvalidConfiguration "invalid barrier response"));
  mret next'.
End operations.
