(* ===== verification/SessionRounds.v ===== *)
(** * What the sessions of all ranks do together

    The frames of a session are well formed; a message that is under way is
    received; and when all ranks exchange at once, every rank gets the response
    that the coordinator of [Router] routes to it. *)
From S2P Require Import Prelude Protocol Agreement Errors Tags Router P2p Device Processes Session.

(** ** Frames of a session *)
Section frames.
Context `{Crc32Hash}.

(** A header that declares no payload and no flags, between ranks of the session. *)
Record plain (h : FrameHeader) : Prop := {
  plain_typed : header_typed h;
  plain_flags : flags h = 0;
  plain_payload : payload_bytes h = 0 /\ payload_checksum h = checksum [];
  plain_source : source_rank h < world_size h;
  plain_destination : destination_rank h = ANY_RANK \/ destination_rank h < world_size h;
  plain_root : root_rank h = ANY_RANK \/ root_rank h < world_size h;
}.

Lemma plain_frame h p :
  plain h -> Forall is_byte p -> fits (element_type h) (element_count h) p ->
  frame_new h p = Ok (mkFrame (sealed h p) p) /\ sendable (mkFrame (sealed h p) p).
Proof.
  intros [Ht Hf [Hb Hc] Hs Hd Hr] Hp (Hmax & Hnone & Hlen). pose proof (source_rank_u32 _ Ht) as [Hs0 _].
  assert (Hn : frame_new h p = Ok (mkFrame (sealed h p) p)).
  { apply frame_new_iff; [done|done|]. split; [done|]. split; [done|].
    change MAX_FRAME_PAYLOAD_BYTES with 1073741824 in Hmax.
    assert (Hpos : p <> [] -> 0 < Zlen p) by (destruct p; [done|unfold Zlen; cbn; lia]).
    destruct p as [|b p]; [|specialize (Hpos ltac:(done)); specialize (Hlen ltac:(done))];
      split; cbn [sealed opcode element_type flags source_rank destination_rank root_rank world_size element_count payload_bytes];
      rewrite ?Hf, ?Hb; try done; try lia.
    - intros He. by destruct (Hnone He).
    - intros He. by destruct (Hnone He).
    - intros _ _. rewrite Hlen. symmetry. apply Z.add_0_r. }
  split; [done|]. by eapply frame_new_sendable_ok.
Qed.

Lemma sealed_fields h p :
  opcode (sealed h p) = opcode h /\ element_type (sealed h p) = element_type h /\
  source_rank (sealed h p) = source_rank h /\ destination_rank (sealed h p) = destination_rank h /\
  root_rank (sealed h p) = root_rank h /\ world_size (sealed h p) = world_size h /\
  sequence (sealed h p) = sequence h /\ tag (sealed h p) = tag h /\
  element_count (sealed h p) = element_count h /\ unique_id (sealed h p) = unique_id h.
Proof. by destruct p. Qed.
End frames.

(** ** The sessions of a world *)
Section sessions.
Context `{Crc32Hash} (uid : list Z) (world : nat) (error_text : NetworkError -> list Z) (lane : Z -> nat).
#[local] Existing Instance session_mail.
#[local] Instance world_mail : Mail := session_mail uid world error_text lane.
#[local] Instance world_mail_laws : MailLaws world_mail := session_mail_laws uid world error_text lane.

(** The session of rank [r]. *)
Record session_of (r : nat) (s : TcpRankSession) : Prop := {
  session_of_uid : session_uid s = uid;
  session_of_rank : rank s = r;
  session_of_world : session_world s = world;
}.

Lemma collective_plain op et r root k count tg destination :
  session_ok uid k world -> (r < world)%nat -> in_width 64 count -> in_width 64 tg ->
  in_width 32 root -> root = ANY_RANK \/ root < Z.of_nat world ->
  in_width 32 destination -> destination = ANY_RANK \/ destination < Z.of_nat world ->
  plain (set_tag (set_destination_rank (collective uid op et (Z.of_nat r) root (Z.of_nat world) k count) destination) tg).
Proof using Type.
  intros [Hl Hb Hk [Hw0 Hw]] Hr Hc Ht Hroot Hroot' Hd Hd'.
  split; cbn; try done; [|lia]. split; cbn; try done; try (unfold in_width, ANY_RANK, U32_MAX in *; lia). apply crc32_hash_u32.
Qed.

Lemma rank_in_width n k : session_ok uid k world -> (n < world)%nat -> in_width 32 (Z.of_nat n).
Proof using Type. intros [_ _ _ [_ Hw]] Hn. unfold in_width. lia. Qed.

Lemma any_rank_width : in_width 32 ANY_RANK.
Proof using Type. unfold in_width, ANY_RANK, U32_MAX. lia. Qed.

(** *** Messages between ranks *)
Section message.
Context (sender receiver : TcpRankSession) (r q : nat) (Hsend : session_of r sender) (Hreceive : session_of q receiver).
Context (Hr : (r < world)%nat) (Hq : (q < world)%nat) (Hok : session_ok uid 0 world).
Context (rail : nat) (Hrails : (rail < session_rails sender)%nat /\ (rail < session_rails receiver)%nat).
Context (tg : Z) (Htag : in_width 64 tg) (et : ElementType) (count : Z) (Hcount : in_width 64 count).
Context (data : list Z) (Hbytes : Forall is_byte data) (Hfits : fits et count data).
Context (Htyped : peer_plane sender = true -> et <> ElementType.None).

(** The frame under way. *)
Definition message_frame : Frame :=
  mkFrame (sealed (set_tag (set_destination_rank (collective uid Opcode.Send et (Z.of_nat r) ANY_RANK (Z.of_nat world) 0 count) (Z.of_nat q)) tg) data) data.

Definition message_channel : nat * Z * Z * Z := (rail, Z.of_nat r, Z.of_nat q, tg).

Lemma message_fields : source_rank message_frame.(header) = Z.of_nat r /\ destination_rank message_frame.(header) = Z.of_nat q /\
  tag message_frame.(header) = tg.
Proof using Type.
  unfold message_frame. cbn [header].
  match goal with |- context [sealed ?h data] => destruct (sealed_fields h data) as (_ & _ & -> & -> & _ & _ & _ & -> & _ & _) end. done.
Qed.

Lemma send_frame : request_frame sender Opcode.Send (Z.of_nat q) tg et count data = Ok message_frame.
Proof using Hsend Hr Hq Hok Htag Hcount Hbytes Hfits receiver rail Hrails.
  unfold request_frame. destruct Hsend as [-> -> ->]. apply lift_protocol_Ok.
  apply plain_frame; [|done|done]. apply collective_plain; try done; try (by left); try apply any_rank_width; try (by eapply rank_in_width); right; lia.
Qed.

Lemma receive_frame : exists f, request_frame receiver Opcode.Receive (Z.of_nat r) tg et count [] = Ok f /\
  source_rank f.(header) = Z.of_nat q /\ destination_rank f.(header) = Z.of_nat r /\ tag f.(header) = tg /\
  element_type f.(header) = et /\ element_count f.(header) = count /\ sequence f.(header) = 0.
Proof using Hreceive Hr Hq Hok Htag Hcount Hfits sender rail Hrails.
  unfold request_frame. destruct Hreceive as [-> -> ->].
  destruct (plain_frame (set_tag (set_destination_rank (collective uid Opcode.Receive et (Z.of_nat q) ANY_RANK (Z.of_nat world) 0 count) (Z.of_nat r)) tg) []) as [Hf _].
  - apply collective_plain; try done; try (by left); try apply any_rank_width; try (by eapply rank_in_width); right; lia.
  - constructor.
  - apply fits_nil. intros He. destruct Hfits as (_ & Hnone & _). by destruct (Hnone He).
  - eexists. split; [by apply lift_protocol_Ok|]. done.
Qed.

(** The response that the receiver gets. *)
Lemma delivered_frame f : request_frame receiver Opcode.Receive (Z.of_nat r) tg et count [] = Ok f ->
  exists g, p2p_response uid world message_frame f = Ok g /\ opcode g.(header) = Opcode.Receive /\ payload g = data /\
    source_rank g.(header) = Z.of_nat r /\ tag g.(header) = tg /\ element_type g.(header) = et /\ element_count g.(header) = count.
Proof using Hreceive Hr Hq Hok Htag Hcount Hbytes Hfits sender rail Hrails.
  intros Hf. destruct receive_frame as (f' & Hf' & Hsrc & Hdst & Htg & Het & Hcnt & Hseq). rewrite Hf in Hf'. injection Hf' as <-.
  unfold p2p_response. rewrite Het, Hcnt, Hsrc, Hseq. unfold message_frame. cbn [header payload].
  match goal with |- context [sealed ?h data] => destruct (sealed_fields h data) as (_ & -> & -> & _ & _ & _ & _ & -> & -> & _) end.
  cbn [element_type element_count source_rank tag set_tag set_destination_rank collective].
  rewrite bool_decide_eq_true_2, Z.eqb_refl by done. cbn [negb orb].
  assert (Hw : wrap 32 (Z.of_nat world) = Z.of_nat world) by (apply wrap_in; destruct Hok as [_ _ _ [_ Hw]]; unfold in_width; lia).
  rewrite Hw. destruct (plain_frame (set_tag (set_destination_rank (collective uid Opcode.Receive et (Z.of_nat r) ANY_RANK (Z.of_nat world) 0 count) (Z.of_nat q)) tg) data) as [Hg _].
  - apply collective_plain; try done; try (by left); try apply any_rank_width; try (by eapply rank_in_width); right; lia.
  - done.
  - done.
  - eexists. split; [by apply lift_protocol_Ok|]. cbn [header payload].
    match goal with |- context [sealed ?h data] => destruct (sealed_fields h data) as (-> & -> & -> & _ & _ & _ & _ & -> & -> & _) end. done.
Qed.

(** The sender goes on when the message is under way. *)
Lemma send_alone w : let p := endpoint world lane (Z.of_nat r) tg in
  alone p (send_on_rail uid world error_text lane sender rail (Z.of_nat q) tg et count data) w (Return (Ok tt))
    (mkWire (push_message message_channel message_frame (in_transit w)) (submitted w) (answered w)).
Proof using Hsend Hr Hq Hok Hrails Htag Hcount Hbytes Hfits Htyped.
  intros p. unfold send_on_rail. pose proof Hsend as [_ Hrank Hw]. rewrite Hw, Hrank, (proj2 (Z.leb_gt _ _)) by lia.
  unfold p2p_rail, validate_rail. rewrite (proj2 (Nat.leb_gt _ _)) by apply Hrails. rewrite send_frame.
  assert (Hplane : peer_plane sender && bool_decide (et = ElementType.None) && negb (Z.of_nat q =? Z.of_nat r) = false).
  { destruct (peer_plane sender); [|done]. by rewrite bool_decide_eq_false_2 by (by apply Htyped). }
  rewrite Hplane. destruct (peer_plane sender); cbn [lift fail_if mbind program_mbind program_bind];
    (eapply alone_step; [|apply alone_done]); unfold put_out; cbn [go post_mail world_mail session_mail rank_transport];
    destruct message_fields as (Hsrc & Hdst & Htg); unfold send_channel; rewrite Hsrc, Htg, Hdst; by rewrite decide_True.
Qed.

(** The receiver goes on when the message is there. *)
Lemma receive_alone w m : let p := endpoint world lane (Z.of_nat q) tg in
  pop_message message_channel (in_transit w) = Some (message_frame, m) ->
  exists g, payload g = data /\
    alone p (receive_on_rail uid world error_text lane receiver rail (Z.of_nat r) tg et count) w (Return (Ok g))
      (mkWire m (submitted w) (answered w)).
Proof using Hreceive Hr Hq Hok Hrails Htag Hcount Hbytes Hfits.
  intros p Hpop. destruct receive_frame as (f & Hf & Hsrc & Hdst & Htg & _).
  destruct (delivered_frame f Hf) as (g & Hg & Hop & Hdata & _).
  unfold receive_on_rail. pose proof Hreceive as [_ Hrank Hw]. rewrite Hw, (proj2 (Z.leb_gt _ _)) by lia.
  unfold peer_receive, coordinator_receive, p2p_rail, validate_rail. rewrite (proj2 (Nat.leb_gt _ _)) by apply Hrails. rewrite Hf, Hrank.
  destruct (peer_plane receiver); cbn [lift fail_if mbind program_mbind program_bind].
  - exists message_frame. split; [done|]. eapply alone_step.
    + unfold wait_for. cbn [mbind program_mbind program_bind go take_mail world_mail session_mail rank_transport arrival]. rewrite decide_True by done.
      unfold message_channel in Hpop. rewrite Hpop. cbn. done.
    + cbn [program_bind lift]. unfold message_frame. cbn [header].
      match goal with |- context [sealed ?h data] => destruct (sealed_fields h data) as (_ & -> & _ & _ & _ & _ & _ & _ & -> & _) end.
      cbn [element_type element_count set_tag set_destination_rank collective]. rewrite bool_decide_eq_true_2, Z.eqb_refl by done. apply alone_done.
  - exists g. split; [done|]. eapply alone_step.
    + unfold wait_for. cbn [mbind program_mbind program_bind go take_mail world_mail session_mail rank_transport arrival]. rewrite Hsrc, Htg, decide_True by done.
      unfold receive_channel. rewrite Hsrc, Hdst, Htg. unfold message_channel in Hpop. rewrite Hpop. cbn. done.
    + rewrite Hg. cbn [program_bind]. rewrite Hop. apply alone_done.
Qed.
End message.

(** *** A round of the coordinator *)

(** All ranks have finished [k] rounds, and the coordinator waits for the next. *)
Record ready (w : Wire) (k : nat) : Prop := {
  ready_submitted r : (r < world)%nat -> length (default [] (submitted w !! r)) = k;
  ready_answered r : (r < world)%nat -> default 0%nat (answered w !! r) = k;
  ready_agreement : round_agreement uid world w k = Some (mkAgreement world (Z.of_nat k) ∅);
}.

Lemma ready_start m : ready (mkWire m ∅ ∅) 0.
Proof using Type. by split. Qed.

(** The first [n] ranks have submitted, or have taken their answers. *)
Fixpoint posts (f : nat -> Frame) (w : Wire) (n : nat) : Wire :=
  match n with O => w | S j => let v := posts f w j in mkWire (in_transit v) (<[j := default [] (submitted v !! j) ++ [f j]]> (submitted v)) (answered v) end.

Fixpoint takes (k : nat) (w : Wire) (n : nat) : Wire :=
  match n with O => w | S j => let v := takes k w j in mkWire (in_transit v) (submitted v) (<[j := S k]> (answered v)) end.

Lemma posts_eq f w n : in_transit (posts f w n) = in_transit w /\ answered (posts f w n) = answered w.
Proof using Type. induction n as [|n IH]; [done|]. cbn. apply IH. Qed.

Lemma posts_submitted f w n r : submitted (posts f w n) !! r =
  if (r <? n)%nat then Some (default [] (submitted w !! r) ++ [f r]) else submitted w !! r.
Proof using Type.
  revert r. induction n as [|n IH]; intros r; [done|]. cbn [posts submitted]. destruct (decide (r = n)) as [->|Hne].
  - rewrite lookup_insert_eq, IH. rewrite (proj2 (Nat.ltb_ge n n)), (proj2 (Nat.ltb_lt n (S n))) by lia. done.
  - rewrite lookup_insert_ne, IH by done. destruct (Nat.ltb_spec r n), (Nat.ltb_spec r (S n)); (done || lia).
Qed.

Lemma takes_eq k w n : in_transit (takes k w n) = in_transit w /\ submitted (takes k w n) = submitted w.
Proof using Type. induction n as [|n IH]; [done|]. cbn. apply IH. Qed.

Lemma takes_answered k w n r : answered (takes k w n) !! r = if (r <? n)%nat then Some (S k) else answered w !! r.
Proof using Type.
  revert r. induction n as [|n IH]; intros r; [done|]. cbn [takes answered]. destruct (decide (r = n)) as [->|Hne].
  - rewrite lookup_insert_eq. by rewrite (proj2 (Nat.ltb_lt n (S n))) by lia.
  - rewrite lookup_insert_ne, IH by done. destruct (Nat.ltb_spec r n), (Nat.ltb_spec r (S n)); (done || lia).
Qed.

Section round.
Context (sess : nat -> TcpRankSession) (Hsess : forall r, (r < world)%nat -> session_of r (sess r)).
Context (k : nat) (Hok : session_ok uid (Z.of_nat k) world) (Hk : Z.of_nat k < U64_MAX).
Context (op : Opcode) (et : ElementType) (root count tg : Z) (data : nat -> list Z).
Context (Hroot : in_width 32 root) (Hroot' : root = ANY_RANK \/ root < Z.of_nat world).
Context (Hcount : in_width 64 count) (Htag : in_width 64 tg).
Context (Hbytes : forall r, (r < world)%nat -> Forall is_byte (data r)) (Hfits : forall r, (r < world)%nat -> fits et count (data r)).

Definition round_header (r : nat) : FrameHeader :=
  set_tag (set_flags (collective uid op et (Z.of_nat r) root (Z.of_nat world) (Z.of_nat k) count) 0) tg.
Definition round_request (r : nat) : Frame := mkFrame (sealed (round_header r) (data r)) (data r).
Abbreviation requests := (map round_request (seq 0 world)).

Lemma round_request_frame r : (r < world)%nat ->
  exchange_request (sess r) (Z.of_nat k) op et (mkExchangeOptions root count 0 tg) (data r) = Ok (round_request r) /\
  sendable (round_request r).
Proof using Hsess Hok Hroot Hroot' Hcount Htag Hbytes Hfits.
  intros Hr. destruct (Hsess r Hr) as [Hu Hrank Hw]. unfold exchange_request. rewrite Hu, Hrank, Hw. cbn [flags collective eo_flags eo_root_rank eo_element_count eo_tag].
  change (Z.lor 0 0) with 0. fold (round_header r).
  destruct (plain_frame (round_header r) (data r)) as [Hn Hs]; [|by apply Hbytes|by apply Hfits|].
  - pose proof (collective_plain op et r root (Z.of_nat k) count tg ANY_RANK Hok Hr Hcount Htag Hroot Hroot' any_rank_width (or_introl eq_refl)) as Hp. exact Hp.
  - split; [by apply lift_protocol_Ok|done].
Qed.

Lemma round_descriptor r : request_descriptor (header (round_request r)) = request_descriptor (header (round_request 0)).
Proof using Type.
  unfold request_descriptor, round_request. cbn [header].
  destruct (sealed_fields (round_header r) (data r)) as (-> & -> & _ & _ & -> & _ & _ & -> & -> & _).
  by destruct (sealed_fields (round_header 0) (data 0%nat)) as (-> & -> & _ & _ & -> & _ & _ & -> & -> & _).
Qed.

Context (Hrouted : routable requests (round_header 0)) (Hop : op <> Opcode.AllToAllV).

Lemma round_routed : exists responses,
  validate_and_route (mkAgreement world (Z.of_nat k) ∅) uid (Z.of_nat k) requests = (mkAgreement world (Z.of_nat (S k)) ∅, Ok responses) /\
  forall d, (d < world)%nat -> exists f, responses !! d = Some f /\
    answers uid (Z.of_nat k) op world d (delivered (round_header 0) (map data (seq 0 world)) d) f.
Proof using All.
  pose proof (Router.session_world _ _ _ Hok) as [Hw _]. assert (Hlen : length requests = world) by by rewrite length_map, length_seq.
  assert (H0 : requests !! 0%nat = Some (round_request 0)) by by rewrite list_lookup_fmap, lookup_seq_lt.
  assert (Hsend : Forall sendable requests).
  { apply Forall_map, Forall_forall. intros r Hr%elem_of_seq. apply round_request_frame. lia. }
  assert (Hok' : session_ok uid (Z.of_nat k) (length requests)) by by rewrite Hlen.
  assert (Hh : header (round_request 0) = sealed (round_header 0) (data 0%nat)) by done.
  destruct (sealed_fields (round_header 0) (data 0%nat)) as (Fop & Fet & _ & _ & Froot & _ & _ & Ftag & Fcount & _).
  assert (Hrout : routable requests (header (round_request 0))).
  { rewrite Hh. unfold routable in *. by rewrite Fop, Fet, Froot, Ftag, Fcount. }
  apply (route_is_Ok uid _ requests Hok' _ H0 Hsend) in Hrout as [responses Hresp]; [|by rewrite Hh, Fop].
  assert (Hag : agreed uid world 0 (request_descriptor (header (round_request 0))) requests).
  { intros i f. rewrite list_lookup_fmap. intros (r & [-> Hi]%lookup_seq & ->)%fmap_Some. split; [|apply round_descriptor].
    unfold round_request. split; cbn [header]; destruct (sealed_fields (round_header (0 + i)) (data (0 + i)%nat)) as (_ & _ & Hsr & _ & _ & Hws & _ & _ & _ & Hui);
      [by rewrite Hui|by rewrite Hsr|by rewrite Hws]. }
  exists responses. split.
  - unfold validate_and_route. set (ag := mkAgreement world (Z.of_nat k) ∅).
    pose proof (agree_requests_idle requests ag uid (request_descriptor (header (round_request 0)))) as Hall. cbn [next_sequence ag] in Hall.
    rewrite Hlen in Hall |- *. rewrite Hall; [|split; try done|done|done].
    + rewrite Hresp. f_equal. f_equal. lia.
    + split; cbn; [done|apply Hok|]. intros j l Hj. by rewrite lookup_empty in Hj.
  - destruct (route_answers uid (Z.of_nat k) requests Hok' _ responses H0) as [Hl Hans]; [by rewrite Hh, Fcount|by rewrite Hh, Fop|done|].
    rewrite Hlen in Hl, Hans. intros d Hd. destruct (lookup_lt_is_Some_2 responses d) as [f Hf]; [by rewrite Hl|].
    exists f. split; [done|]. specialize (Hans d f Hf). rewrite Hh, Fop in Hans. unfold delivered in Hans |- *.
    rewrite Fop, Froot in Hans. rewrite map_map in Hans. unfold piece, piece_bytes in *. rewrite Fcount, Fet in Hans. exact Hans.
Qed.

(** All ranks exchange at once. *)
Lemma ready_requests w : ready w k -> round_requests world (posts round_request w world) k = Some requests /\
  round_agreement uid world (posts round_request w world) k = Some (mkAgreement world (Z.of_nat k) ∅).
Proof using Type.
  intros [Hsub _ Hag]. split.
  - apply mapM_Some, Forall2_fmap_r, Forall_Forall2_diag, Forall_forall. intros r Hr%elem_of_seq.
    rewrite posts_submitted, (proj2 (Nat.ltb_lt _ _)) by lia. cbn. rewrite lookup_app_r by (rewrite Hsub; lia). rewrite Hsub, Nat.sub_diag by lia. done.
  - eapply round_agreement_extends; [|exact Hag]. intros r l Hl. rewrite posts_submitted, Hl. destruct (r <? world)%nat; cbn.
    + by eexists.
    + exists []. by rewrite app_nil_r.
Qed.

Lemma routed_op responses :
  validate_and_route (mkAgreement world (Z.of_nat k) ∅) uid (Z.of_nat k) requests = (mkAgreement world (Z.of_nat (S k)) ∅, Ok responses) ->
  op <> Opcode.Abort.
Proof using Hrouted.
  intros _ Habort. pose proof Hrouted as [_ Hr]. cbn [round_header set_tag set_flags collective opcode] in Hr. by rewrite Habort in Hr.
Qed.

(** The rest of an exchange, after the request is submitted. *)
Definition await_response (r : nat) : program NetworkError (Z * Frame) :=
  r' ← wait_for FromCoordinator;
  response ← lift r';
  _ ← lift (validate_response response (session_uid (sess r)) (Z.of_nat (rank (sess r))) (Z.of_nat (session_world (sess r))) (Z.of_nat k));
  _ ← lift (fail_if (bool_decide (opcode response.(header) = Opcode.Abort)) (NetworkError.RemoteAbort "{}" response.(payload)));
  next' ← lift (ok_or (checked_add 64 (Z.of_nat k) 1) (NetworkError.Protocol SequenceOverflow));
  mret (next', response).

Abbreviation exchanging r := (exchange_with_options uid world error_text lane (sess r) (Z.of_nat k) op et (mkExchangeOptions root count 0 tg) (data r)).

Lemma submit_alone r w : (r < world)%nat ->
  alone r (exchanging r) w (await_response r) (mkWire (in_transit w) (<[r := default [] (submitted w !! r) ++ [round_request r]]> (submitted w)) (answered w)).
Proof using Hsess Hok Hroot Hroot' Hcount Htag Hbytes Hfits.
  intros Hr. unfold exchange_with_options. destruct (round_request_frame r Hr) as [-> _].
  cbn [lift mbind program_mbind program_bind]. eapply alone_step; [|apply alone_done]. done.
Qed.

Lemma await_alone r w f : (r < world)%nat -> default 0%nat (answered w !! r) = k -> round_response uid world error_text w k r = Some f ->
  answers uid (Z.of_nat k) op world r (delivered (round_header 0) (map data (seq 0 world)) r) f -> op <> Opcode.Abort ->
  alone r (await_response r) w (Return (Ok (Z.of_nat (S k), f))) (mkWire (in_transit w) (submitted w) (<[r := S k]> (answered w))).
Proof using Hsess Hok Hk.
  intros Hr Hans Hresp Hf Hne. destruct (Hsess r Hr) as [Hu Hrank Hw]. unfold await_response. rewrite Hu, Hrank, Hw.
  eapply alone_step.
  - unfold wait_for. cbn [mbind program_mbind program_bind go take_mail world_mail session_mail rank_transport]. rewrite Hans, Hresp. cbn. done.
  - pose proof (answers_accepted uid (Z.of_nat k) world op r _ f Hf) as Hacc. cbn [program_bind lift]. rewrite Hacc.
    cbn [program_bind]. rewrite (answer_opcode _ _ _ _ _ _ _ Hf), bool_decide_eq_false_2 by done. cbn [fail_if program_bind].
    unfold checked_add. rewrite checked_in by (unfold in_width, U64_MAX in *; lia). cbn [ok_or program_bind].
    replace (Z.of_nat k + 1) with (Z.of_nat (S k)) by lia. apply alone_done.
Qed.

(** [C] is what a rank does around the exchange. *)
Lemma exchange_runs {R} (C : nat -> program NetworkError (Z * Frame) -> process R) w : ready w k ->
  (forall r x s y s', alone r x s y s' -> alone r (C r x) s (C r y) s') ->
  exists l resp w', runs network_step l
      (mkNetwork (map (fun r => C r (exchanging r)) (seq 0 world)) w)
      (mkNetwork (map (fun r => C r (Return (Ok (Z.of_nat (S k), resp r)))) (seq 0 world)) w') /\
    ready w' (S k) /\ in_transit w' = in_transit w /\
    forall r, (r < world)%nat -> answers uid (Z.of_nat k) op world r (delivered (round_header 0) (map data (seq 0 world)) r) (resp r).
Proof using All.
  intros Hready HC. destruct round_routed as (responses & Hroute & Hans). pose proof (routed_op _ Hroute) as Hne.
  destruct (ready_requests w Hready) as [Hreq Hag]. set (w1 := posts round_request w world) in *.
  set (resp := fun r => default (round_request 0) (responses !! r)).
  assert (Hresp : forall r, (r < world)%nat -> responses !! r = Some (resp r) /\
    answers uid (Z.of_nat k) op world r (delivered (round_header 0) (map data (seq 0 world)) r) (resp r)).
  { intros r Hr. destruct (Hans r Hr) as (f & Hf & Ha). unfold resp. by rewrite Hf. }
  assert (Hround : forall n r, (r < world)%nat -> round_response uid world error_text (takes k w1 n) k r = Some (resp r)).
  { intros n r Hr. apply (round_response_extends uid world error_text w1).
    - apply extends_same, takes_eq.
    - unfold round_response. rewrite Hag, Hreq. cbn [mbind option_bind next_sequence]. rewrite Hroute. cbn [snd]. apply Hresp, Hr. }
  destruct (sweep_runs world (fun r => C r (exchanging r)) (fun r => C r (await_response r))
    (posts round_request w)) as [l1 Hl1].
  { intros r Hr. by apply HC, submit_alone. }
  destruct (sweep_runs world (fun r => C r (await_response r)) (fun r => C r (Return (Ok (Z.of_nat (S k), resp r))))
    (takes k w1)) as [l2 Hl2].
  { intros r Hr. destruct (Hresp r Hr) as [_ Ha].
    apply HC, await_alone; [done| |by apply Hround|done|done].
    rewrite takes_answered, (proj2 (Nat.ltb_ge r r)) by lia. unfold w1. destruct (posts_eq round_request w world) as [_ ->]. by apply Hready. }
  exists (l1 ++ l2), resp, (takes k w1 world). split; [eapply runs_app; [exact Hl1|exact Hl2]|].
  destruct (takes_eq k w1 world) as [Ht Hsub]. destruct (posts_eq round_request w world) as [Hp _].
  split; [|split; [by rewrite Ht|]].
  - split.
    + intros r Hr. rewrite Hsub. unfold w1. rewrite posts_submitted, (proj2 (Nat.ltb_lt _ _)) by done. cbn. rewrite length_app.
      rewrite (ready_submitted _ _ Hready) by done. cbn. lia.
    + intros r Hr. by rewrite takes_answered, (proj2 (Nat.ltb_lt _ _)) by done.
    + cbn [round_agreement]. assert (Hext : extends w1 (takes k w1 world)) by by apply extends_same.
      rewrite (round_agreement_extends uid world _ _ _ _ Hext Hag). cbn [mbind option_bind].
      rewrite (round_requests_extends world _ _ _ _ Hext Hreq). cbn [mbind option_bind next_sequence]. by rewrite Hroute.
  - intros r Hr. by apply Hresp.
Qed.
End round.
End sessions.
