(* ===== verification/DeviceCollective.v ===== *)
(** * Device collectives over a transport: src/src/rank/device_collective

    [DeviceCollective] of mod.rs with the operations of direct.rs, reduction.rs,
    reduce_dispatch.rs, ring.rs, reduce_scatter.rs, all_gather.rs and
    point_to_point.rs.  A rank's program runs on its own state (the device's
    memory and the two sequence counters) and communicates through its session.

    A ring collective runs one thread per channel.  It is written in three
    parts: what the rank does before it starts its threads, the thread of a
    channel, and what it does with their results.  The threads share the rank's
    buffer; each has a memory of its own here, and the theorems show that what a
    thread does depends on the elements of its channel only and leaves the
    others as they are.  The abort with which a thread that fails informs the
    other ranks is left out. *)
From S2P Require Import Prelude Protocol Agreement Errors Layout Tags Payload Router Operation Comp Device Processes.
From S2P Require Import Topology Tuning Session RankDevice.

Section collective.
Context `{Crc32Hash} (uid : list Z) (world : nat) (error_text : NetworkError -> list Z) (lane : Z -> nat).
#[local] Existing Instance session_mail.
#[local] Instance collective_mail : Mail := session_mail uid world error_text lane.
#[local] Instance collective_mail_laws : MailLaws collective_mail := session_mail_laws uid world error_text lane.
Context {T : Type} {D : RankDevice T} {DE : DeviceErrors Error}.

Record DeviceCollective := mkCollective {
  execution : Execution;
  session : TcpRankSession;
  tuning : CollectiveTuning;
  collective_rail_order : list nat;
  collective_element_type : ElementType;
}.

(** What a rank's operations change; [sequence_number] is the [next_sequence]
    of its session. *)
Record RankState := mkState {
  memory : Memory;
  sequence_number : Z;
  internal_sequence : Z;
}.

(** ** Programs of a rank *)
Definition rank_program (A : Type) : Type := RankState -> program Error (RankState * A).

#[export] Instance rank_mret : MRet rank_program := fun A a st => Return (Ok (st, a)).
#[export] Instance rank_mbind : MBind rank_program := fun A B f m st => m st ≫= (fun r => f r.2 r.1).

Definition just {A} (m : outcome Error A) : rank_program A := fun st => a ← lift m; mret (st, a).

Definition on_device {A} (m : comp Memory Error A) : rank_program A := fun st =>
  match m (memory st) with
  | (mem, Ok a) => Return (Ok (mkState mem (sequence_number st) (internal_sequence st), a))
  | (_, Err e) => Return (Err e)
  | (_, Panic) => Return Panic
  end.

Definition on_session {A} (m : program NetworkError A) : rank_program A := fun st => a ← convert_error from_network m; mret (st, a).

(** [internal_sequence.fetch_add(1)] *)
Definition next_operation : rank_program Z := fun st =>
  Return (Ok (mkState (memory st) (sequence_number st) (wrap 64 (internal_sequence st + 1)), internal_sequence st)).

Definition rank_loop {A B} (body : A -> B -> rank_program A) (a : A) (l : list B) : rank_program A := fun st =>
  Processes.loop (fun (r : RankState * A) x => body r.2 x r.1) (st, a) l.

Definition rank_error {A} (m : rresult A) : outcome Error A := map_err from_rank m.
Definition network_error (message : string) : Error := from_network (InvalidConfiguration message).
Definition overflow (what : string) : Error := from_rank (RankError.Overflow what).
Definition invalid_length (what : string) : Error := from_rank (RankError.InvalidLength what).

(** ** mod.rs *)
Section operations.
Context (c : DeviceCollective).
Abbreviation world_size := (session_world (session c)).
Abbreviation my_rank := (rank (session c)).
Abbreviation exec := (execution c).
Abbreviation element_size := (Z.of_nat ELEMENT_SIZE).

Definition exchange_options (op : Opcode) (options : ExchangeOptions) (data : list Z) : rank_program Frame := fun st =>
  '(next, response) ← convert_error from_network
     (exchange_with_options uid world error_text lane (session c) (sequence_number st) op (collective_element_type c) options data);
  mret (mkState (memory st) next (internal_sequence st), response).

Definition effective_ring_channels (requested_channels elements_per_rank : nat) : nat :=
  requested_channels `min` (elements_per_rank `max` 1).

Definition collective_rail_for_channel {E} (channel : nat) : outcome E nat := index_cyclic (collective_rail_order c) channel.

Definition ring_position (ring : list nat) : outcome Error nat :=
  ok_or (fst <$> list_find (fun r => r = my_rank) ring) (from_invalid_ring "rank {} is absent from the configured ring").

Definition ring_agreement (operation : Z) (length : nat) (discriminator : Z) (channels : nat) : rank_program unit := fun st =>
  rings ← lift (mapM (ring_order_for_channel (tuning c)) (seq 0 channels));
  channel_rails ← lift (mapM collective_rail_for_channel (seq 0 channels));
  let tag := ring_agreement_tag operation (Z.of_nat length) (map (map Z.of_nat) rings) discriminator (Z.of_nat channels)
               (map Z.of_nat channel_rails) in
  '(next, response) ← convert_error from_network
     (exchange_with_options uid world error_text lane (session c) (sequence_number st) Opcode.Barrier ElementType.None
        (mkExchangeOptions ANY_RANK 0 0 tag) []);
  _ ← lift (fail_if (negb (bool_decide (opcode response.(header) = Opcode.Barrier)) || negb (bool_decide (response.(payload) = [])))
             (network_error "invalid ring collective agreement response"));
  mret (mkState (memory st) next (internal_sequence st), tt).

(** [HostStagedExchange::stats] and [validate_root] (host/exchange.rs) *)
Definition stats (a : CollectiveAlgorithm) (n transferred_bytes launches : Z) : outcome Error CollectiveStats :=
  bytes ← ok_or (checked 64 transferred_bytes) (overflow "TCP transferred bytes");
  Ok {| algorithm := a; transport := session_transport (session c); steps := n; stats_bytes := bytes; reduction_kernel_launches := launches |}.

Definition validate_root (root : Z) : outcome Error unit :=
  fail_if (Z.of_nat world_size <=? root) (from_rank (RankError.RankOutOfRange root (Z.of_nat world_size))).

Definition decode_values (data : list Z) (expected_elements : Z) : outcome Error (list T) :=
  decode_exact from_rank data expected_elements element_size decode.

(** [u32::from(world_size > 1)] and [world_size.saturating_sub(1)] *)
Definition direct_step : Z := if (1 <? world_size)%nat then 1 else 0.
Definition other_ranks : Z := Z.of_nat (world_size - 1).

(** ** reduction.rs *)
Definition reduce_bytes_into (destination : Buffer) (destination_offset element_count : nat) (values : list Z) (function : Kernel)
    : comp Memory Error Z :=
  expected_bytes ← pure (ok_or (checked_mul_usize element_count ELEMENT_SIZE) (overflow "reduction input byte length"));
  _ ← pure (fail_if (negb (length values =? expected_bytes)%nat) (invalid_length "reduction input does not match its element count"));
  if (element_count =? 0)%nat then mret 0 else
  stop ← pure (ok_or (checked_add_usize destination_offset element_count) (overflow "hierarchical reduction destination range"));
  _ ← pure (fail_if (buffer_len destination <? stop)%nat (invalid_length "hierarchical reduction destination range is out of bounds"));
  scratch ← alloc exec element_count;
  _ ← copy_bytes_to_device_at exec scratch 0 values;
  launch ← prepare_reduction exec element_count destination_offset;
  _ ← launch_reduction exec function launch scratch destination;
  mret 1.

Definition reduce_values_into (destination : Buffer) (destination_offset : nat) (values : list T) (function : Kernel)
    : comp Memory Error Z :=
  reduce_bytes_into destination destination_offset (length values) (encode values) function.

Definition reduce_concatenated (data : list Z) (output : Buffer) (count : nat) (function : Kernel) : comp Memory Error Z :=
  rank_bytes ← pure (ok_or (checked_mul_usize count ELEMENT_SIZE) (overflow "TCP reduction rank bytes"));
  expected ← pure (ok_or (checked_mul_usize rank_bytes world_size) (overflow "TCP reduction response bytes"));
  _ ← pure (fail_if (negb (length data =? expected)%nat) (network_error "TCP reduction response has {} bytes, expected {expected}"));
  slice ← pure (slice_range data 0 rank_bytes);
  first ← pure (decode slice);
  _ ← copy_to_device exec output first;
  if (count =? 0)%nat then mret 0 else
  if (world_size =? 1)%nat then mret 0 else
  scratch ← alloc exec count;
  launch ← prepare_reduction exec count 0;
  _ ← for_each (fun source =>
        let start := (source * rank_bytes)%nat in
        slice ← pure (slice_range data start (start + rank_bytes));
        values ← pure (decode slice);
        _ ← copy_to_device exec scratch values;
        launch_reduction exec function launch scratch output) (seq 1 (world_size - 1));
  mret (Z.of_nat (world_size - 1)).

(** ** ring.rs *)
Definition exchange_ring_chunk_bytes (buffer : Buffer) (send_range : nat * nat) (receive_length : nat)
    (destination source rail_hint : nat) (tag : Z) : rank_program (list Z) :=
  data ← on_device (copy_bytes_from_device_at exec buffer send_range.1 (range_len send_range));
  rail ← just (collective_rail_for_channel rail_hint);
  _ ← on_session (send_on_rail uid world error_text lane (session c) rail (Z.of_nat destination) tag (collective_element_type c)
        (Z.of_nat (range_len send_range)) data);
  response ← on_session (receive_on_rail uid world error_text lane (session c) rail (Z.of_nat source) tag (collective_element_type c)
        (Z.of_nat receive_length));
  receive_bytes ← just (ok_or (checked_mul_usize receive_length ELEMENT_SIZE) (overflow "ring receive byte length"));
  _ ← just (fail_if (negb (length response.(payload) =? receive_bytes)%nat)
             (network_error "ring response has {} bytes, expected {receive_bytes}"));
  mret response.(payload).

(** [ring[(position + shift) % world_size]] *)
Definition ring_at (ring : list nat) (position : nat) : outcome Error nat :=
  i ← rem_usize position world_size; index ring i.

(** [total.checked_add(n)], and the same with the bytes of an exchange of
    [sent] elements. *)
Definition add_bytes (what : string) (total n : Z) : outcome Error Z := ok_or (checked_add usize_bits total n) (overflow what).
Definition exchanged (sent : nat) (received : list Z) : Z :=
  saturating_add usize_bits (saturating_mul usize_bits (Z.of_nat sent) element_size) (Zlen received).
Definition add_launches (what : string) (total n : Z) : outcome Error Z := ok_or (checked_add 32 total n) (overflow what).

Definition ring_reduce_step (buffer : Buffer) (ring : list nat) (ranges : list (nat * nat)) (operation : Z) (channel : nat)
    (function : Kernel) (position next_rank previous_rank : nat) (counters : Z * Z) (step : nat) : rank_program (Z * Z) :=
  send_chunk ← just (ring_at ring (position + world_size - step));
  receive_chunk ← just (ring_at ring (position + world_size - step - 1));
  send_range ← just (index ranges send_chunk);
  receive_range ← just (index ranges receive_chunk);
  received ← exchange_ring_chunk_bytes buffer send_range (range_len receive_range) next_rank previous_rank channel
               (ring_data_tag operation 0 (Z.of_nat channel) (Z.of_nat step));
  transferred_bytes ← just (add_bytes "ring all-reduce transferred bytes" counters.1 (exchanged (range_len send_range) received));
  launches ← on_device (reduce_bytes_into buffer receive_range.1 (range_len receive_range) received function);
  launches ← just (add_launches "ring all-reduce kernel launches" counters.2 launches);
  mret (transferred_bytes, launches).

Definition ring_copy_step (buffer : Buffer) (ring : list nat) (ranges : list (nat * nat)) (operation : Z) (channel : nat)
    (position next_rank previous_rank : nat) (transferred_bytes : Z) (step : nat) : rank_program Z :=
  send_chunk ← just (ring_at ring (position + 1 + world_size - step));
  receive_chunk ← just (ring_at ring (position + world_size - step));
  send_range ← just (index ranges send_chunk);
  receive_range ← just (index ranges receive_chunk);
  received ← exchange_ring_chunk_bytes buffer send_range (range_len receive_range) next_rank previous_rank channel
               (ring_data_tag operation 1 (Z.of_nat channel) (Z.of_nat step));
  transferred_bytes ← just (add_bytes "ring all-reduce transferred bytes" transferred_bytes (exchanged (range_len send_range) received));
  _ ← on_device (if bool_decide (received = []) then mret tt else copy_bytes_to_device_at exec buffer receive_range.1 received);
  mret transferred_bytes.

Definition all_reduce_ring_channel (buffer : Buffer) (channel_range : nat * nat) (operation : Z) (channel : nat) (function : Kernel)
    : rank_program (Z * Z) :=
  ring ← just (ring_order_for_channel (tuning c) channel);
  position ← just (ring_position ring);
  previous_rank ← just (ring_at ring (position + world_size - 1));
  next_rank ← just (ring_at ring (position + 1));
  ranges ← just (balanced_ranges (range_len channel_range) world_size);
  let ranges := map (fun range => (range.1 + channel_range.1, range.2 + channel_range.1)%nat) ranges in
  last ← just (sub_usize world_size 1);
  counters ← rank_loop (ring_reduce_step buffer ring ranges operation channel function position next_rank previous_rank)
               (0, 0) (seq 0 last);
  transferred_bytes ← rank_loop (ring_copy_step buffer ring ranges operation channel position next_rank previous_rank)
                        counters.1 (seq 0 last);
  mret (transferred_bytes, counters.2).

(** Before the threads: the operation's number and the channels' ranges. *)
Definition all_reduce_ring_start (buffer : Buffer) (op : ReductionOperation) (ring_channels : nat) : rank_program (Z * list (nat * nat)) :=
  operation ← next_operation;
  let channels := effective_ring_channels ring_channels (buffer_len buffer) in
  _ ← ring_agreement operation (buffer_len buffer) (0x100 + operation_code op) channels;
  ranges ← just (balanced_ranges (buffer_len buffer) channels);
  mret (operation, ranges).

(** [handle.join().map_err(|_| WorkError::WorkerPanic)?] for every thread *)
Definition join_threads {A} (results : list (outcome Error A)) : outcome Error (list A) :=
  mapM (fun r => match r with Panic => Err (from_work WorkerPanic) | _ => r end) results.

Definition sum_counters (bytes launches : string) (results : list (Z * Z)) : outcome Error (Z * Z) :=
  foldM (fun total r => b ← add_bytes bytes total.1 r.1; l ← add_launches launches total.2 r.2; Ok (b, l)) (0, 0) results.

Definition all_reduce_ring_finish (results : list (outcome Error (Z * Z))) : outcome Error CollectiveStats :=
  channel_results ← join_threads results;
  total ← sum_counters "ring all-reduce transferred bytes" "ring all-reduce kernel launches" channel_results;
  last ← sub_usize world_size 1;
  stats Ring (wrap 32 (2 * Z.of_nat last)) total.1 total.2.

(** ** reduce_scatter.rs *)
Definition scatter_step (working : Buffer) (ring : list nat) (ranges : list (nat * nat)) (operation : Z) (channel : nat)
    (function : Kernel) (position next_rank previous_rank : nat) (counters : Z * Z) (step : nat) : rank_program (Z * Z) :=
  send_chunk ← just (ring_at ring (position + world_size - 1 - step));
  receive_chunk ← just (ring_at ring (position + 2 * world_size - 2 - step));
  send_range ← just (index ranges send_chunk);
  receive_range ← just (index ranges receive_chunk);
  received ← exchange_ring_chunk_bytes working send_range (range_len receive_range) next_rank previous_rank channel
               (ring_data_tag operation 0 (Z.of_nat channel) (Z.of_nat step));
  transferred_bytes ← just (add_bytes "ring reduce-scatter transferred bytes" counters.1 (exchanged (range_len send_range) received));
  launches ← on_device (reduce_bytes_into working receive_range.1 (range_len receive_range) received function);
  launches ← just (add_launches "ring reduce-scatter kernel launches" counters.2 launches);
  mret (transferred_bytes, launches).

Definition reduce_scatter_ring_channel (working output : Buffer) (output_length : nat) (channel_range : nat * nat) (operation : Z)
    (channel : nat) (function : Kernel) : rank_program (Z * Z) :=
  ring ← just (ring_order_for_channel (tuning c) channel);
  position ← just (ring_position ring);
  previous_rank ← just (ring_at ring (position + world_size - 1));
  next_rank ← just (ring_at ring (position + 1));
  ranges ← just (mapM (fun r => rank_start ← mul_usize r output_length;
                               start ← add_usize rank_start channel_range.1;
                               stop ← add_usize rank_start channel_range.2;
                               Ok (start, stop)) (seq 0 world_size));
  last ← just (sub_usize world_size 1);
  counters ← rank_loop (scatter_step working ring ranges operation channel function position next_rank previous_rank)
               (0, 0) (seq 0 last);
  own ← just (start ← mul_usize my_rank output_length; add_usize start channel_range.1);
  output_values ← on_device (copy_bytes_from_device_at exec working own (range_len channel_range));
  _ ← on_device (copy_bytes_to_device_at exec output channel_range.1 output_values);
  mret counters.

(** The working copy, the output, the operation's number and the channels' ranges. *)
Definition reduce_scatter_ring_start (input : Buffer) (output_length : nat) (op : ReductionOperation) (ring_channels : nat)
    : rank_program (Buffer * Buffer * Z * list (nat * nat)) :=
  working ← on_device (alloc exec (buffer_len input));
  _ ← on_device (values ← copy_from_device exec input; copy_to_device exec working values);
  output ← on_device (alloc exec output_length);
  operation ← next_operation;
  let channels := effective_ring_channels ring_channels output_length in
  _ ← ring_agreement operation (buffer_len input) (0x300 + operation_code op) channels;
  ranges ← just (balanced_ranges output_length channels);
  mret (working, output, operation, ranges).

Definition reduce_scatter_ring_finish (results : list (outcome Error (Z * Z))) : outcome Error CollectiveStats :=
  channel_results ← join_threads results;
  total ← sum_counters "ring reduce-scatter transferred bytes" "ring reduce-scatter kernel launches" channel_results;
  last ← sub_usize world_size 1;
  stats Ring (wrap 32 (Z.of_nat last)) total.1 total.2.

(** ** all_gather.rs *)
Definition gather_offset (what : string) (chunk input_length : nat) (channel_range : nat * nat) : outcome Error nat :=
  ok_or (start ← checked_mul_usize chunk input_length; checked_add_usize start channel_range.1) (overflow what).

Definition gather_step (output : Buffer) (ring : list nat) (input_length : nat) (channel_range : nat * nat) (operation : Z)
    (channel position next_rank previous_rank : nat) (transferred_bytes : Z) (step : nat) : rank_program Z :=
  send_chunk ← just (ring_at ring (position + world_size - step));
  receive_chunk ← just (ring_at ring (position + world_size - step - 1));
  send_start ← just (gather_offset "ring all-gather channel send offset" send_chunk input_length channel_range);
  send_stop ← just (add_usize send_start (range_len channel_range));
  received ← exchange_ring_chunk_bytes output (send_start, send_stop) (range_len channel_range) next_rank previous_rank channel
               (ring_data_tag operation 0 (Z.of_nat channel) (Z.of_nat step));
  receive_start ← just (gather_offset "ring all-gather channel receive offset" receive_chunk input_length channel_range);
  _ ← on_device (copy_bytes_to_device_at exec output receive_start received);
  just (add_bytes "ring all-gather transferred bytes" transferred_bytes (saturating_mul usize_bits (Zlen received) 2)).

Definition all_gather_ring_channel (output : Buffer) (input_length : nat) (channel_range : nat * nat) (operation : Z) (channel : nat)
    : rank_program Z :=
  ring ← just (ring_order_for_channel (tuning c) channel);
  position ← just (ring_position ring);
  previous_rank ← just (ring_at ring (position + world_size - 1));
  next_rank ← just (ring_at ring (position + 1));
  last ← just (sub_usize world_size 1);
  transferred_bytes ← rank_loop (gather_step output ring input_length channel_range operation channel position next_rank previous_rank)
                        0 (seq 0 last);
  mret transferred_bytes.

Definition all_gather_ring_start (input : Buffer) (ring_channels : nat) : rank_program (Buffer * Z * list (nat * nat)) :=
  output_length ← just (ok_or (checked_mul_usize (buffer_len input) world_size) (overflow "ring all-gather output length"));
  output ← on_device (alloc exec output_length);
  local ← on_device (copy_bytes_from_device_at exec input 0 (buffer_len input));
  own ← just (mul_usize my_rank (buffer_len input));
  _ ← on_device (copy_bytes_to_device_at exec output own local);
  operation ← next_operation;
  let channels := effective_ring_channels ring_channels (buffer_len input) in
  _ ← ring_agreement operation (buffer_len input) 0x200 channels;
  ranges ← just (balanced_ranges (buffer_len input) channels);
  mret (output, operation, ranges).

Definition all_gather_ring_finish (results : list (outcome Error Z)) : outcome Error CollectiveStats :=
  transferred ← join_threads results;
  transferred_bytes ← foldM (add_bytes "ring all-gather transferred bytes") 0 transferred;
  last ← sub_usize world_size 1;
  stats Ring (wrap 32 (Z.of_nat last)) transferred_bytes 0.
End operations.
End collective.
