(* ===== verification/DeviceRing.v ===== *)
(** * The ring collectives of all ranks

    In each step of a ring every thread sends one chunk to the next rank and
    receives one from the previous.  A schedule in which all send before any
    receives makes the steps of [Ring] on the buffers of every channel at once. *)
From S2P Require Import Prelude Protocol Agreement Errors Layout Tags Payload Router Operation Comp Device Processes.
From S2P Require Import Topology Tuning Ring Session SessionRounds RankDevice DeviceCollective.

(** ** Steps in which each process sends one message and takes one *)
Section lockstep.
Context `{Crc32Hash} (uid : list Z) (world : nat) (error_text : NetworkError -> list Z) (lane : Z -> nat).
#[local] Existing Instance session_mail.
#[local] Instance lockstep_mail : Mail := session_mail uid world error_text lane.
#[local] Instance lockstep_mail_laws : MailLaws lockstep_mail := session_mail_laws uid world error_text lane.

Definition with_transit (w : Wire) (m : gmap (nat * Z * Z * Z) (list Frame)) : Wire := mkWire m (submitted w) (answered w).

Context (n : nat) (from : nat -> nat) (Hfrom : forall p, (p < n)%nat -> (from p < n)%nat).
Context (Hinj : forall p q, (p < n)%nat -> (q < n)%nat -> from p = from q -> p = q).
Context (key : nat -> nat * Z * Z * Z) (Hkeys : forall p q, (p < n)%nat -> (q < n)%nat -> key p = key q -> p = q).
Context (msg : nat -> Frame).

(** The first [i] processes have sent, or taken. *)
Fixpoint sent (w : Wire) (i : nat) : Wire :=
  match i with O => w | S j => let v := sent w j in with_transit v (push_message (key j) (msg j) (in_transit v)) end.

Fixpoint taken (w : Wire) (i : nat) : Wire :=
  match i with O => w | S j => let v := taken w j in with_transit v (delete (key (from j)) (in_transit v)) end.

Definition no_messages (w : Wire) : Prop := forall p, (p < n)%nat -> in_transit w !! key p = None.

Lemma sent_in_transit w i k : no_messages w -> (i <= n)%nat ->
  (forall p, (p < i)%nat -> in_transit (sent w i) !! key p = Some [msg p]) /\
  ((forall p, (p < i)%nat -> k <> key p) -> in_transit (sent w i) !! k = in_transit w !! k).
Proof using Hkeys.
  intros Hnone. induction i as [|i IH]; intros Hi; [split; [lia|done]|]. destruct IH as [Hin _]; [lia|]. cbn [sent with_transit in_transit]. unfold push_message.
  assert (Hrest : forall i k, (forall p, (p < i)%nat -> k <> key p) -> in_transit (sent w i) !! k = in_transit w !! k).
  { clear. induction i as [|i IH]; intros k Hk; [done|]. cbn [sent with_transit in_transit]. unfold push_message.
    rewrite lookup_insert_ne; [apply IH; intros p Hp; apply Hk; lia|]. intros Heq. apply (Hk i); [lia|done]. }
  assert (Hnew : in_transit (sent w i) !! key i = None).
  { rewrite Hrest; [by apply Hnone|]. intros p Hp Heq. apply Hkeys in Heq; lia. }
  rewrite Hnew. cbn. split.
  - intros p Hp. destruct (decide (p = i)) as [->|Hne]; [apply lookup_insert_eq|].
    rewrite lookup_insert_ne; [apply Hin; lia|]. intros Heq. apply Hkeys in Heq; lia.
  - intros Hk. rewrite lookup_insert_ne; [apply Hrest; intros p Hp; apply Hk; lia|]. intros Heq. apply (Hk i); [lia|done].
Qed.

Lemma taken_in_transit w i k : in_transit (taken w i) !! k =
  if decide (k ∈ map (fun j => key (from j)) (seq 0 i)) then None else in_transit w !! k.
Proof using msg.
  clear Hkeys Hinj Hfrom msg. induction i as [|i IH]; [by rewrite decide_False by (cbn; set_solver)|]. cbn [taken with_transit in_transit].
  rewrite seq_S, map_app. cbn [map Nat.add]. destruct (decide (k = key (from i))) as [->|Hne].
  - rewrite lookup_delete_eq, decide_True; [done|]. set_solver.
  - rewrite lookup_delete_ne, IH by done. apply decide_ext. rewrite elem_of_app, list_elem_of_singleton. naive_solver.
Qed.

Lemma submitted_sent w i : submitted (sent w i) = submitted w /\ answered (sent w i) = answered w.
Proof using Type. induction i; done. Qed.
Lemma submitted_taken w i : submitted (taken w i) = submitted w /\ answered (taken w i) = answered w.
Proof using Type. induction i; done. Qed.

(** When all have sent and all have taken, the wire is as before. *)
Lemma taken_all w : no_messages w -> taken (sent w n) n = w.
Proof using Hkeys Hfrom Hinj.
  intros Hnone. assert (Hmap : in_transit (taken (sent w n) n) = in_transit w).
  { apply map_eq. intros k. rewrite taken_in_transit. case_decide as Hk.
    - apply list_elem_of_fmap in Hk as (j & -> & Hj%elem_of_seq). by rewrite Hnone by (apply Hfrom; lia).
    - apply sent_in_transit; [done|lia|]. intros p Hp ->. apply Hk.
      assert (Hsurj : p ∈ map from (seq 0 n)).
      { assert (Hperm : map from (seq 0 n) ≡ₚ seq 0 n).
        { apply submseteq_length_Permutation; [|by rewrite length_map].
          apply NoDup_submseteq.
          - apply NoDup_fmap_2_strong; [|apply NoDup_seq]. intros a b Ha%elem_of_seq Hb%elem_of_seq. apply Hinj; lia.
          - intros q Hq. apply list_elem_of_fmap in Hq as (j & -> & Hj%elem_of_seq). apply elem_of_seq. pose proof (Hfrom j). lia. }
        rewrite Hperm. apply elem_of_seq. lia. }
      apply list_elem_of_fmap in Hsurj as (j & -> & Hj). by apply (list_elem_of_fmap_2 (fun j => key (from j))). }
  destruct (submitted_taken (sent w n) n) as [H1 H2], (submitted_sent w n) as [H3 H4].
  rewrite H3 in H1. rewrite H4 in H2. destruct (taken (sent w n) n) as [m s a]. cbn in Hmap, H1, H2. subst. by destruct w.
Qed.

(** One step of all processes. *)
Lemma exchange_step {R} (x y z : nat -> process R) w : no_messages w ->
  (forall p v, (p < n)%nat -> alone p (x p) v (y p) (with_transit v (push_message (key p) (msg p) (in_transit v)))) ->
  (forall p v m, (p < n)%nat -> pop_message (key (from p)) (in_transit v) = Some (msg (from p), m) -> alone p (y p) v (z p) (with_transit v m)) ->
  exists l, runs network_step l (mkNetwork (map x (seq 0 n)) w) (mkNetwork (map z (seq 0 n)) w).
Proof using Hkeys Hfrom Hinj.
  intros Hnone Hsend Htake.
  destruct (sweep_runs n x y (sent w)) as [l1 Hl1]; [intros p Hp; by apply Hsend|].
  destruct (sweep_runs n y z (taken (sent w n))) as [l2 Hl2].
  { intros p Hp. apply Htake; [done|]. unfold pop_message. rewrite taken_in_transit, decide_False.
    - rewrite (proj1 (sent_in_transit w n (key 0) Hnone ltac:(lia))) by by apply Hfrom. done.
    - intros (j & Heq & Hj%elem_of_seq)%list_elem_of_fmap. apply Hkeys in Heq; [|apply Hfrom; lia..].
      apply Hinj in Heq; lia. }
  rewrite taken_all in Hl2 by done. exists (l1 ++ l2). eapply runs_app; [exact Hl1|exact Hl2].
Qed.
End lockstep.

(** ** What the operations of a device leave *)
Lemma put_nil {A} offset (l : list A) : put offset [] l = l.
Proof. unfold put. cbn. rewrite Nat.add_0_r. apply take_drop. Qed.

Lemma put_all {A} (l k : list A) : length k = length l -> put 0 k l = k.
Proof. intros Hl. unfold put. cbn. rewrite drop_ge by lia. by rewrite app_nil_r. Qed.

Section device.
Context `{Crc32Hash} {T : Type} `{RankLaws T} {DE : DeviceErrors Error} (c : DeviceCollective).
Abbreviation exec := (execution c).
Context (Hno : forall e, ~ device_error e).

(** Live cells other than [k] are as before. *)
Definition keeps_but (k : Cell) (s s' : Memory) : Prop := forall k' l, k' <> k -> view s k' = Some l -> view s' k' = Some l.

Lemma runs_total {A} (m : comp Memory Error A) (Q : A -> Memory -> Prop) s :
  wp device_error m Q s -> exists a s', m s = (s', Ok a) /\ Q a s'.
Proof using Hno. intros [Hm|(e & s' & _ & He)]%wp_run; [done|]. by apply Hno in He. Qed.

Lemma reduce_bytes_ok b y s offset v function :
  holds s exec b y -> computes exec function -> allocatable exec (length v) -> (offset + length v <= buffer_len b)%nat ->
  exists s' launches, reduce_bytes_into c b offset (length v) (encode v) function s = (s', Ok launches) /\
    0 <= launches <= 1 /\ holds s' exec b (put offset (zip_with (combine function) (sub offset (length v) y) v) y) /\ keeps_but (cell b) s s'.
Proof using Hno H1 H2.
  intros Hh Hk Hal Hfit. pose proof (holds_usable _ _ _ _ Hh) as Hu. pose proof law_size as Hsize.
  pose proof (law_fits _ _ Hu) as Hbytes. pose proof (holds_length _ _ _ _ Hh) as Hlen.
  assert (Hwp : wp device_error (reduce_bytes_into c b offset (length v) (encode v) function) (fun launches s' =>
    0 <= launches <= 1 /\ holds s' exec b (put offset (zip_with (combine function) (sub offset (length v) y) v) y) /\ keeps_but (cell b) s s') s).
  { unfold reduce_bytes_into.
    apply wp_bind. eapply wp_pure; [by rewrite checked_mul_usize_Some by (unfold fits_usize; nia)|]. cbn beta.
    apply wp_bind. eapply wp_pure; [rewrite (proj1 (law_encode v)), Nat.eqb_refl; done|]. cbn beta.
    destruct (Nat.eqb_spec (length v) 0) as [Hz|Hz].
    - apply wp_ret. split; [done|]. split; [|by intros k' l _].
      destruct v; [|done]. rewrite zip_with_nil_r, put_nil. done.
    - apply wp_bind. eapply wp_pure; [by rewrite checked_add_usize_Some by (unfold fits_usize; nia)|]. cbn beta.
      apply wp_bind. eapply wp_pure; [by rewrite (proj2 (Nat.ltb_ge _ _)) by lia|]. cbn beta.
      apply wp_bind. eapply wp_mono; [by apply law_alloc|]. cbn beta. intros scratch s1 (Hus & Hls & Hfresh & l & Hl & Hu1).
      assert (Hne : cell b <> cell scratch) by by eapply fresh_cell.
      assert (Hh1 : holds s1 exec b y) by by eapply rank_holds_other.
      assert (Hs1 : holds s1 exec scratch l) by (split; [done|by eapply rank_updated_same|by rewrite Hls]).
      apply wp_bind. eapply wp_mono; [apply (law_copy_bytes_to _ _ _ _ _ _ Hs1); lia|]. cbn beta. intros _ s2 Hu2.
      rewrite put_all in Hu2 by lia.
      assert (Hh2 : holds s2 exec b y) by by eapply rank_holds_other.
      assert (Hs2 : holds s2 exec scratch v) by (eapply rank_holds_updated; [done|done|lia]).
      apply wp_bind. eapply wp_mono; [apply law_prepare; nia|]. cbn beta. intros launch s3 [Hp Hs3].
      apply wp_bind. eapply wp_mono.
      { apply (law_launch exec function _ _ _ _ _ _ _ _ Hp Hk (rank_holds_unchanged _ _ _ _ _ Hs2 Hs3) (rank_holds_unchanged _ _ _ _ _ Hh2 Hs3)); [done|lia|lia]. }
      cbn beta. intros _ s4 Hu4. apply wp_ret. split; [done|]. replace (sub 0 (length v) v) with v in Hu4 by (unfold sub; by rewrite drop_0, firstn_all). split.
      + eapply rank_holds_updated; [by eapply (rank_holds_unchanged _ _ _ _ _ Hh2 Hs3)|exact Hu4|]. apply length_put. rewrite length_zip_with, length_sub; lia.
      + intros k' l' Hk' Hv. rewrite (rank_updated_other _ _ _ _ _ Hu4 Hk'), (Hs3 k').
        assert (Hks : k' <> cell scratch) by congruence. by rewrite (rank_updated_other _ _ _ _ _ Hu2 Hks), (rank_updated_other _ _ _ _ _ Hu1 Hks). }
  destruct (runs_total _ _ _ Hwp) as (launches & s' & Heq & HQ). by exists s', launches.
Qed.

Lemma copy_bytes_from_ok b y s offset n : holds s exec b y -> (offset + n <= buffer_len b)%nat ->
  exists s', copy_bytes_from_device_at exec b offset n s = (s', Ok (encode (sub offset n y))) /\ unchanged s s'.
Proof using Hno H1 H2.
  intros Hh Hfit. destruct (runs_total _ _ _ (law_copy_bytes_from _ _ _ _ _ _ Hh Hfit)) as (bytes & s' & Heq & -> & Hu). by exists s'.
Qed.

Lemma copy_bytes_to_ok b y s offset v : holds s exec b y -> (offset + length v <= buffer_len b)%nat ->
  exists s', copy_bytes_to_device_at exec b offset (encode v) s = (s', Ok tt) /\ holds s' exec b (put offset v y) /\ keeps_but (cell b) s s'.
Proof using Hno H1 H2.
  intros Hh Hfit. destruct (runs_total _ _ _ (law_copy_bytes_to _ _ _ _ _ _ Hh Hfit)) as ([] & s' & Heq & Hu). exists s'. split; [done|].
  split; [eapply rank_holds_updated; [done|done|apply length_put; pose proof (holds_length _ _ _ _ Hh); lia]|].
  intros k' l Hk' Hv. by rewrite (rank_updated_other _ _ _ _ _ Hu Hk').
Qed.
End device.

(** ** A rank goes on after a step that succeeds *)
Section rank_steps.
Context `{Crc32Hash} (uid : list Z) (world : nat) (error_text : NetworkError -> list Z) (lane : Z -> nat).
#[local] Existing Instance collective_mail.
#[local] Instance steps_mail : Mail := collective_mail uid world error_text lane.
Context {T : Type} `{RankDevice T} {A B : Type} (g : A -> rank_program (T:=T) uid world error_text lane B).
Abbreviation then_ m := (mbind (M:=rank_program uid world error_text lane) g m).

Lemma device_then (m : comp Memory Error A) mem0 mem s i a : m mem0 = (mem, Ok a) ->
  then_ (on_device uid world error_text lane m) (mkState mem0 s i) = g a (mkState mem s i).
Proof using Type. intros Hm. unfold mbind, rank_mbind, on_device. cbn [memory]. by rewrite Hm. Qed.

Lemma just_then (a : A) st : then_ (just uid world error_text lane (Ok a)) st = g a st.
Proof using Type. done. Qed.

Lemma ret_then (a : A) st : then_ (mret a) st = g a st.
Proof using Type. done. Qed.
End rank_steps.

(** ** Loops in lockstep *)
Lemma finite_choice {A} (d : A) (P : nat -> A -> Prop) n :
  (forall p, (p < n)%nat -> exists x, P p x) -> exists f, forall p, (p < n)%nat -> P p (f p).
Proof.
  induction n as [|n IH]; intros Hall; [exists (fun _ => d); lia|]. destruct IH as [f Hf]; [intros p Hp; apply Hall; lia|].
  destruct (Hall n ltac:(lia)) as [x Hx]. exists (fun p => if (p =? n)%nat then x else f p). intros p Hp.
  destruct (Nat.eqb_spec p n) as [->|]; [done|]. apply Hf. lia.
Qed.

Section loops.
Context `{Crc32Hash} (uid : list Z) (world : nat) (error_text : NetworkError -> list Z) (lane : Z -> nat).
#[local] Existing Instance lockstep_mail.
#[local] Instance loop_mail : Mail := lockstep_mail uid world error_text lane.
#[local] Instance loop_mail_laws : MailLaws loop_mail := lockstep_mail_laws uid world error_text lane.
Context {E A S : Type} (n : nat) (from : nat -> nat) (Hfrom : forall p, (p < n)%nat -> (from p < n)%nat).
Context (Hinj : forall p q, (p < n)%nat -> (q < n)%nat -> from p = from q -> p = q).
Context (key : nat -> nat -> nat * Z * Z * Z) (Hkeys : forall s p q, (p < n)%nat -> (q < n)%nat -> key s p = key s q -> p = q).
Context (body : nat -> S -> nat -> program E S) (msg : nat -> nat -> Frame) (I : nat -> nat -> S -> Prop) (first last : nat).

(** What step [s] of process [p] does: send, take, and keep the invariant. *)
Hypothesis (Hstep : forall s p st, (first <= s < last)%nat -> (p < n)%nat -> I s p st -> exists half st',
  (forall v, alone p (body p st s) v half (with_transit v (push_message (key s p) (msg s p) (in_transit v)))) /\
  (forall v m, pop_message (key s (from p)) (in_transit v) = Some (msg s (from p), m) -> alone p half v (Return (Ok st')) (with_transit v m)) /\
  I (Datatypes.S s) p st').

Lemma lockstep_loop (G : nat -> S -> program E A) w : forall m s sts, (first <= s)%nat -> (s + m)%nat = last ->
  (forall s', (s <= s' < last)%nat -> no_messages n (key s') w) -> (forall p, (p < n)%nat -> I s p (sts p)) ->
  exists l sts', runs network_step l (mkNetwork (map (fun p => Processes.loop (body p) (sts p) (seq s m) ≫= G p) (seq 0 n)) w)
      (mkNetwork (map (fun p => G p (sts' p)) (seq 0 n)) w) /\ forall p, (p < n)%nat -> I last p (sts' p).
Proof using All.
  induction m as [|m IH]; intros s sts Hfs Hlast Hnone HI.
  { exists [], sts. split; [constructor|]. by replace last with s by lia. }
  destruct (finite_choice (Return Panic, sts 0%nat) (fun p (x : program E S * S) =>
    (forall v, alone p (body p (sts p) s) v x.1 (with_transit v (push_message (key s p) (msg s p) (in_transit v)))) /\
    (forall v m, pop_message (key s (from p)) (in_transit v) = Some (msg s (from p), m) -> alone p x.1 v (Return (Ok x.2)) (with_transit v m)) /\
    I (Datatypes.S s) p x.2) n) as [f Hf].
  { intros p Hp. destruct (Hstep s p (sts p) ltac:(lia) Hp (HI p Hp)) as (half & st' & H1 & H2 & H3). by exists (half, st'). }
  destruct (exchange_step uid world error_text lane n from Hfrom Hinj (key s) (Hkeys s) (msg s)
    (fun p => Processes.loop (body p) (sts p) (seq s (Datatypes.S m)) ≫= G p)
    (fun p => (st' ← (f p).1; Processes.loop (body p) st' (seq (Datatypes.S s) m)) ≫= G p)
    (fun p => Processes.loop (body p) (f p).2 (seq (Datatypes.S s) m) ≫= G p) w) as [l1 Hl1].
  - apply Hnone. lia.
  - intros p v Hp. destruct (Hf p Hp) as (H1 & _). cbn [seq Processes.loop]. apply (alone_bind (M:=loop_mail)), (alone_bind (M:=loop_mail)). apply H1.
  - intros p v m' Hp Hpop. destruct (Hf p Hp) as (_ & H2 & _). apply (alone_bind (M:=loop_mail)).
    eapply (alone_then (M:=loop_mail)); [by apply H2|constructor].
  - destruct (IH (Datatypes.S s) (fun p => (f p).2)) as (l2 & sts' & Hl2 & HI'); [lia|lia|intros s' Hs'; apply Hnone; lia|intros p Hp; by apply Hf|].
    exists (l1 ++ l2), sts'. split; [eapply runs_app; [exact Hl1|exact Hl2]|done].
Qed.
End loops.

(** ** Exchanging a chunk *)
Section chunk.
Context `{Crc32Hash} (uid : list Z) (world : nat) (error_text : NetworkError -> list Z) (lane : Z -> nat).
#[local] Existing Instance collective_mail.
#[local] Instance chunk_mail : Mail := collective_mail uid world error_text lane.
#[local] Instance chunk_mail_laws : MailLaws chunk_mail := collective_mail_laws uid world error_text lane.
Context {T : Type} {D : RankDevice T} {V : RankView T} {L : RankLaws T} {DE : DeviceErrors Error} (Hno : forall e, ~ device_error e).
Context (et : ElementType) (Hwidth : byte_width et = Z.of_nat ELEMENT_SIZE).

Definition chunk_fits (n : nat) : Prop := Z.of_nat (n * ELEMENT_SIZE) <= MAX_FRAME_PAYLOAD_BYTES.

Lemma chunk_frame (v : list T) : chunk_fits (length v) -> Forall is_byte (encode v) /\ fits et (Zlen v) (encode v) /\ in_width 64 (Zlen v).
Proof using Hwidth L.
  unfold chunk_fits. change MAX_FRAME_PAYLOAD_BYTES with 1073741824. intros Hf. destruct (law_encode v) as [Hl Hb]. pose proof law_size as Hs.
  assert (Hz : Zlen (encode v) = Zlen v * byte_width et) by (rewrite Hwidth; unfold Zlen; rewrite Hl; lia).
  assert (Hlt : Zlen v * Z.of_nat ELEMENT_SIZE <= 1073741824) by (unfold Zlen; lia).
  split; [done|]. split.
  - split; [rewrite Hz, Hwidth; change MAX_FRAME_PAYLOAD_BYTES with 1073741824; lia|]. split; [|done].
    intros ->. cbn in Hwidth. lia.
  - unfold in_width. pose proof (Zlen_nonneg v). nia.
Qed.

(** The message that carries the elements [v]. *)
Definition chunk_message (r q : nat) (tg : Z) (v : list T) : Frame := message_frame uid world r q tg et (Zlen v) (encode v).

Context (c : DeviceCollective) (r o : nat) (Hr : (r < world)%nat).
Context (Hsession : session_of uid world r (session c)) (Hok : session_ok uid 0 world).
Context (channel rail : nat) (Hrail : collective_rail_for_channel (E:=Error) c channel = Ok rail) (Hrails : (rail < session_rails (session c))%nat).
Context (Het : collective_element_type c = et).
Context (tg : Z) (Htag : in_width 64 tg).

(** The rest of an exchange after its message is sent. *)
Definition await_chunk (m : nat) : rank_program (T:=T) uid world error_text lane (list Z) :=
  response ← on_session uid world error_text lane (receive_on_rail uid world error_text lane (session c) rail (Z.of_nat o) tg (collective_element_type c) (Z.of_nat m));
  receive_bytes ← just uid world error_text lane (ok_or (checked_mul_usize m ELEMENT_SIZE) (overflow "ring receive byte length"));
  _ ← just uid world error_text lane (fail_if (negb (length response.(payload) =? receive_bytes)%nat)
             (network_error "ring response has {} bytes, expected {receive_bytes}"));
  mret response.(payload).

Lemma exchange_take st x v m : (o < world)%nat -> chunk_fits (length x) ->
  pop_message (message_channel o r rail tg) (in_transit v) = Some (chunk_message o r tg x, m) ->
  alone (endpoint world lane (Z.of_nat r) tg) (await_chunk (length x) st) v (Return (Ok (st, encode x))) (with_transit v m).
Proof using Hr Hsession Hok Hrails Het Hwidth Htag L.
  intros Ho Hf Hpop. destruct (chunk_frame x Hf) as (Hb & Hfit & Hcnt). unfold await_chunk. rewrite Het.
  destruct (receive_alone uid world error_text lane (session c) (session c) o r Hsession Ho Hr Hok rail (conj Hrails Hrails) tg Htag et (Zlen x) Hcnt (encode x) Hb Hfit v m Hpop)
    as (g & Hg & Ha). cbv zeta in Ha.
  unfold mbind, rank_mbind, on_session at 1. eapply (alone_then (M:=chunk_mail)).
  { eapply (alone_then (M:=chunk_mail)); [|constructor]. apply (alone_convert (M:=chunk_mail) from_network) in Ha. exact Ha. }
  cbn [fst snd]. rewrite Hg. unfold just, chunk_fits in *. change MAX_FRAME_PAYLOAD_BYTES with 1073741824 in Hf.
  rewrite checked_mul_usize_Some by (unfold fits_usize; lia).
  cbn [ok_or lift mret program_mret mbind program_mbind program_bind fst snd]. rewrite (proj1 (law_encode x)), Nat.eqb_refl. constructor.
Qed.
Lemma exchange_send q b y st start stop m : (q < world)%nat -> holds (memory st) (execution c) b y -> (start <= stop <= buffer_len b)%nat ->
  chunk_fits (stop - start) ->
  let x := sub start (stop - start) y in
  exists mem, unchanged (memory st) mem /\ forall v,
    alone (endpoint world lane (Z.of_nat r) tg) (exchange_ring_chunk_bytes uid world error_text lane c b (start, stop) m q o channel tg st) v
      (await_chunk m (mkState mem (sequence_number st) (internal_sequence st)))
      (with_transit v (push_message (message_channel r q rail tg) (chunk_message r q tg x) (in_transit v))).
Proof using Hno Hr Hsession Hok Hrail Hrails Het Hwidth Htag L.
  intros Hq Hh Hss Hf x. pose proof (holds_length _ _ _ _ Hh) as Hlen.
  destruct (copy_bytes_from_ok c Hno b y (memory st) start (stop - start) Hh ltac:(lia)) as (mem & Hcopy & Hun).
  exists mem. split; [done|]. intros v. unfold exchange_ring_chunk_bytes, range_len. cbn [fst snd].
  assert (Hlx : length x = (stop - start)%nat) by (apply length_sub; lia).
  destruct (chunk_frame x) as (Hb & Hfit & Hcnt); [by rewrite Hlx|].
  unfold mbind, rank_mbind, on_device. rewrite Hcopy. cbn [mbind program_mbind program_bind]. unfold just. rewrite Hrail.
  cbn [lift mret program_mret mbind program_mbind program_bind]. unfold on_session at 1. rewrite Het.
  assert (Htyped : peer_plane (session c) = true -> et <> ElementType.None) by (intros _ Hnone; rewrite Hnone in Hwidth; cbn in Hwidth; pose proof law_size; lia).
  pose proof (send_alone uid world error_text lane (session c) (session c) r q Hsession Hr Hq Hok rail (conj Hrails Hrails) tg Htag et (Zlen x) Hcnt (encode x) Hb Hfit Htyped v) as Hsend.
  cbv zeta in Hsend. replace (Z.of_nat (stop - start)) with (Zlen x) by (unfold Zlen; by rewrite Hlx).
  eapply (alone_then (M:=chunk_mail)).
  { eapply (alone_then (M:=chunk_mail)); [|constructor]. apply (alone_convert (M:=chunk_mail) from_network) in Hsend. exact Hsend. }
  cbn [fst snd]. unfold await_chunk. rewrite Het. unfold mbind, rank_mbind. constructor.
Qed.

End chunk.

(** ** Chunks of a buffer that a thread works on *)
Section arranged.
Context {A : Type} (w : nat) (lo ln : nat -> nat) (size : nat).
Context (Hfit : forall k, (k < w)%nat -> (lo k + ln k <= size)%nat).
Context (Hdisjoint : forall j k, (j < w)%nat -> (k < w)%nat -> j <> k -> (lo j + ln j <= lo k \/ lo k + ln k <= lo j)%nat).
Implicit Types (f : nat -> list A) (y : list A).

(** Chunk [k] of [y] is [f k], and outside the chunks it is as [y0]. *)
Record arranged (y0 : list A) f y : Prop := {
  arranged_length : length y = size;
  arranged_chunk k : (k < w)%nat -> sub (lo k) (ln k) y = f k;
  arranged_else i : (forall k, (k < w)%nat -> ~ (lo k <= i < lo k + ln k)%nat) -> y !! i = y0 !! i;
}.

Lemma arranged_start (y0 : list A) : length y0 = size -> arranged y0 (fun k => sub (lo k) (ln k) y0) y0.
Proof using Type. by split. Qed.

Lemma arranged_put (y0 : list A) f y k v : arranged y0 f y -> (k < w)%nat -> length v = ln k ->
  arranged y0 (fun j => if (j =? k)%nat then v else f j) (put (lo k) v y).
Proof using Hfit Hdisjoint.
  intros [Hl Hc He] Hk Hv. pose proof (Hfit k Hk). split.
  - rewrite length_put by lia. done.
  - intros j Hj. destruct (Nat.eqb_spec j k) as [->|Hne]; [rewrite <- Hv; apply sub_put_eq; lia|].
    rewrite sub_put_ne; [by apply Hc|lia|]. rewrite Hv. by apply Hdisjoint.
  - intros i Hi. rewrite lookup_put by lia. rewrite decide_False; [by apply He|]. rewrite Hv. by apply Hi.
Qed.

Lemma arranged_ext (y0 : list A) f g y : (forall k, (k < w)%nat -> f k = g k) -> arranged y0 f y -> arranged y0 g y.
Proof using Type. intros Hfg [Hl Hc He]. split; [done| |done]. intros k Hk. rewrite <- Hfg by done. by apply Hc. Qed.

(** The chunk that is replaced by its combination with what arrives. *)
Lemma arranged_lookup (y0 : list A) f y k i : arranged y0 f y -> (k < w)%nat -> (i < ln k)%nat -> y !! (lo k + i)%nat = f k !! i.
Proof using Type. intros [_ Hc _] Hk Hi. rewrite <- Hc by done. rewrite lookup_sub. by rewrite decide_True. Qed.
End arranged.

(** ** The threads of all ranks

    Process [p] is the thread of rank [p mod world] for channel [p / world]. *)
Section threads.
Context (world : nat) (Hworld : (0 < world)%nat) (channels : nat) (ring : nat -> list nat).
Context (Hring : forall ch, (ch < channels)%nat -> ring ch ≡ₚ seq 0 world).

Definition chan (p : nat) : nat := (p / world)%nat.
Definition rank_of (p : nat) : nat := (p mod world)%nat.
Definition thread_of (ch r : nat) : nat := (ch * world + r)%nat.
Definition rank_at (ch i : nat) : nat := ring ch !!! (i mod world)%nat.
Definition position_in (ch r : nat) : nat := default 0%nat (fst <$> list_find (fun x => x = r) (ring ch)).
Definition place (p : nat) : nat := position_in (chan p) (rank_of p).
Definition next_rank (p : nat) : nat := rank_at (chan p) (place p + 1).
Definition previous_rank (p : nat) : nat := rank_at (chan p) (place p + world - 1).
Definition from (p : nat) : nat := thread_of (chan p) (previous_rank p).

Lemma thread_split ch r : (r < world)%nat -> chan (thread_of ch r) = ch /\ rank_of (thread_of ch r) = r.
Proof using Hworld.
  intros Hr. unfold chan, rank_of, thread_of. split.
  - rewrite Nat.div_add_l by lia. rewrite Nat.div_small by done. lia.
  - rewrite Nat.add_comm, Nat.Div0.mod_add. by apply Nat.mod_small.
Qed.

Lemma thread_bounds p : (p < channels * world)%nat -> (chan p < channels)%nat /\ (rank_of p < world)%nat /\ p = thread_of (chan p) (rank_of p).
Proof using Hworld.
  intros Hp. unfold chan, rank_of, thread_of. split; [apply Nat.Div0.div_lt_upper_bound; lia|].
  split; [apply Nat.mod_upper_bound; lia|]. rewrite Nat.mul_comm. by rewrite <- Nat.div_mod_eq.
Qed.

Lemma ring_length ch : (ch < channels)%nat -> length (ring ch) = world.
Proof using Hring. intros Hch. by rewrite (Hring ch Hch), length_seq. Qed.

Lemma ring_lookup ch i : (ch < channels)%nat -> (i < world)%nat -> ring ch !! i = Some (rank_at ch i).
Proof using Hring.
  intros Hch Hi. unfold rank_at. rewrite Nat.mod_small by done. apply list_lookup_lookup_total_lt. by rewrite ring_length.
Qed.

Lemma rank_at_lt ch i : (ch < channels)%nat -> (rank_at ch i < world)%nat.
Proof using Hring Hworld.
  intros Hch. assert (Hm : (i mod world < world)%nat) by (apply Nat.mod_upper_bound; lia).
  pose proof (ring_lookup ch (i mod world) Hch Hm) as Hl. apply list_elem_of_lookup_2 in Hl.
  rewrite (Hring ch Hch) in Hl. apply elem_of_seq in Hl. unfold rank_at in *. rewrite Nat.Div0.mod_mod in Hl. lia.
Qed.

Lemma ring_nodup ch : (ch < channels)%nat -> NoDup (ring ch).
Proof using Hring. intros Hch. rewrite (Hring ch Hch). apply NoDup_seq. Qed.

Lemma rank_at_inj ch i j : (ch < channels)%nat -> (i < world)%nat -> (j < world)%nat -> rank_at ch i = rank_at ch j -> i = j.
Proof using Hring.
  intros Hch Hi Hj Heq. pose proof (ring_lookup ch i Hch Hi) as H1. pose proof (ring_lookup ch j Hch Hj) as H2.
  rewrite Heq in H1. by eapply NoDup_lookup; [apply ring_nodup| |].
Qed.

Lemma position_found ch r : (ch < channels)%nat -> (r < world)%nat ->
  (position_in ch r < world)%nat /\ rank_at ch (position_in ch r) = r /\
  list_find (fun x => x = r) (ring ch) = Some (position_in ch r, r).
Proof using Hring Hworld.
  intros Hch Hr. assert (Hin : r ∈ ring ch) by (rewrite (Hring ch Hch); apply elem_of_seq; lia).
  apply list_elem_of_lookup_1 in Hin as [i Hi]. assert (Hlt : (i < world)%nat) by (rewrite <- (ring_length ch Hch); by eapply lookup_lt_Some).
  assert (Hf : list_find (fun x => x = r) (ring ch) = Some (i, r)).
  { apply list_find_Some. split; [done|]. split; [done|]. intros j y Hj Hji ->.
    pose proof (NoDup_lookup _ _ _ _ (ring_nodup ch Hch) Hi Hj). lia. }
  unfold position_in. rewrite Hf. cbn. split; [done|]. split; [|done].
  pose proof (ring_lookup ch i Hch Hlt). congruence.
Qed.

Lemma position_at ch i : (ch < channels)%nat -> (i < world)%nat -> position_in ch (rank_at ch i) = i.
Proof using Hring Hworld.
  intros Hch Hi. destruct (position_found ch (rank_at ch i) Hch (rank_at_lt ch i Hch)) as (Hp & He & _).
  by apply (rank_at_inj ch).
Qed.

Lemma place_lt p : (p < channels * world)%nat -> (place p < world)%nat.
Proof using Hring Hworld. intros Hp. destruct (thread_bounds p Hp) as (Hc & Hr & _). by apply position_found. Qed.

Lemma rank_at_place p : (p < channels * world)%nat -> rank_at (chan p) (place p) = rank_of p.
Proof using Hring Hworld. intros Hp. destruct (thread_bounds p Hp) as (Hc & Hr & _). by apply position_found. Qed.

Lemma rank_at_mod ch i : rank_at ch (i mod world) = rank_at ch i.
Proof using Type. unfold rank_at. by rewrite Nat.Div0.mod_mod. Qed.

(** The thread that sends to [p]. *)
Lemma from_facts p : (p < channels * world)%nat ->
  (from p < channels * world)%nat /\ chan (from p) = chan p /\ rank_of (from p) = previous_rank p /\
  place (from p) = predecessor world (place p) /\ next_rank (from p) = rank_of p.
Proof using Hring Hworld.
  intros Hp. destruct (thread_bounds p Hp) as (Hc & Hr & Heq). pose proof (place_lt p Hp) as Hpl.
  assert (Hprev : (previous_rank p < world)%nat) by by apply rank_at_lt.
  destruct (thread_split (chan p) (previous_rank p) Hprev) as [Hch Hrk]. fold (from p) in Hch, Hrk.
  assert (Hplace : place (from p) = predecessor world (place p)).
  { unfold place at 1. rewrite Hch, Hrk. unfold previous_rank. rewrite <- rank_at_mod. unfold predecessor.
    rewrite position_at; [done|done|apply Nat.mod_upper_bound; lia]. }
  split; [unfold from, thread_of; nia|]. split; [done|]. split; [done|]. split; [done|].
  unfold next_rank. rewrite Hch, Hplace, <- rank_at_place by done. rewrite <- rank_at_mod. f_equal.
  unfold predecessor. rewrite Nat.Div0.add_mod_idemp_l. replace (place p + world - 1 + 1)%nat with (place p + 1 * world)%nat by lia.
  rewrite Nat.Div0.mod_add. by apply Nat.mod_small.
Qed.

Lemma from_inj p q : (p < channels * world)%nat -> (q < channels * world)%nat -> from p = from q -> p = q.
Proof using Hring Hworld.
  intros Hp Hq Heq. destruct (from_facts p Hp) as (_ & Hc1 & _ & Hp1 & Hn1). destruct (from_facts q Hq) as (_ & Hc2 & _ & Hp2 & Hn2).
  destruct (thread_bounds p Hp) as (_ & _ & ->). destruct (thread_bounds q Hq) as (_ & _ & ->). rewrite <- Hc1, <- Hc2, <- Hn1, <- Hn2. by rewrite Heq.
Qed.
End threads.

(** The channel field of a ring tag: the thread of a rank that uses it. *)
Definition channel_of_tag (tag : Z) : nat := Z.to_nat (Z.land (Z.shiftr tag 12) 0xff).

Lemma channel_of_ring_tag operation phase ch step : (ch < 256)%nat -> channel_of_tag (ring_data_tag operation phase (Z.of_nat ch) step) = ch.
Proof.
  intros Hch. unfold channel_of_tag. rewrite ring_data_tag_sum. change 0xff with (Z.ones 8). rewrite Z.land_ones, Z.shiftr_div_pow2 by lia.
  pose proof (Z.mod_pos_bound step (2 ^ 12) ltac:(lia)) as Hs. rewrite (Z.mod_small (Z.of_nat ch)) by lia.
  set (a := 0x4758 * 2 ^ 48). set (o := operation mod 2 ^ 24). set (ph := phase mod 2 ^ 4).
  replace (a + o * 2 ^ 24 + ph * 2 ^ 20 + Z.of_nat ch * 2 ^ 12 + step mod 2 ^ 12)
    with (step mod 2 ^ 12 + (Z.of_nat ch + (0x4758 * 2 ^ 28 + o * 2 ^ 4 + ph) * 2 ^ 8) * 2 ^ 12) by (unfold a; lia).
  rewrite Z.div_add, (Z.div_small (step mod _)), Z.add_0_l by lia. rewrite Z.mod_add by lia. rewrite Z.mod_small by lia. apply Nat2Z.id.
Qed.

Lemma ring_tag_width operation phase channel step : in_width 64 (ring_data_tag operation phase channel step).
Proof.
  rewrite ring_data_tag_sum. pose proof (Z.mod_pos_bound operation (2 ^ 24) ltac:(lia)). pose proof (Z.mod_pos_bound phase (2 ^ 4) ltac:(lia)).
  pose proof (Z.mod_pos_bound channel (2 ^ 8) ltac:(lia)). pose proof (Z.mod_pos_bound step (2 ^ 12) ltac:(lia)). unfold in_width. lia.
Qed.

(** ** A phase of a ring *)
Section phase.
Context `{Crc32Hash} (uid : list Z) (world : nat) (error_text : NetworkError -> list Z).
#[local] Existing Instance collective_mail.
#[local] Instance ring_mail : Mail := collective_mail uid world error_text channel_of_tag.
#[local] Instance ring_mail_laws : MailLaws ring_mail := collective_mail_laws uid world error_text channel_of_tag.
Context {T : Type} {D : RankDevice T} {V : RankView T} {L : RankLaws T} {DE : DeviceErrors Error} (Hno : forall e, ~ device_error e).

(** What the ranks agree on. *)
Record ring_setting (coll : nat -> DeviceCollective) (channels : nat) (ring : nat -> list nat) (rail : nat -> nat) (et : ElementType) : Prop := {
  setting_session : session_ok uid 0 world;
  setting_channels : (channels <= 256)%nat;
  setting_ring ch : (ch < channels)%nat -> ring ch ≡ₚ seq 0 world;
  setting_width : byte_width et = Z.of_nat ELEMENT_SIZE;
  setting_rank r : (r < world)%nat -> session_of uid world r (session (coll r)) /\ collective_element_type (coll r) = et;
  setting_order r ch : (r < world)%nat -> (ch < channels)%nat ->
    ring_order_for_channel (E:=Error) (tuning (coll r)) ch = Ok (ring ch) /\
    collective_rail_for_channel (E:=Error) (coll r) ch = Ok (rail ch) /\ (rail ch < session_rails (session (coll r)))%nat;
}.

Context (coll : nat -> DeviceCollective) (channels : nat) (ring : nat -> list nat) (rail : nat -> nat) (et : ElementType).
Context (Hset : ring_setting coll channels ring rail et) (operation : Z) (ph : Z).
Abbreviation w := world.
Abbreviation size := (channels * world)%nat.
Abbreviation chan := (chan world).
Abbreviation rank_of := (rank_of world).
Abbreviation place := (place world ring).

Lemma setting_world : (0 < w)%nat.
Proof using Hset. apply (Router.session_world _ _ _ (setting_session _ _ _ _ _ Hset)). Qed.

Definition ring_tag (p s : nat) : Z := ring_data_tag operation ph (Z.of_nat (chan p)) (Z.of_nat s).
Definition ring_key (s p : nat) : nat * Z * Z * Z := message_channel (rank_of p) (next_rank w ring p) (rail (chan p)) (ring_tag p s).

Lemma ring_endpoint p s : (p < size)%nat -> endpoint w channel_of_tag (Z.of_nat (rank_of p)) (ring_tag p s) = p.
Proof using Hset.
  intros Hp. destruct (thread_bounds w setting_world channels p Hp) as (Hc & Hr & Heq). pose proof (setting_channels _ _ _ _ _ Hset).
  unfold endpoint, ring_tag. rewrite channel_of_ring_tag by lia. rewrite Nat2Z.id. symmetry. exact Heq.
Qed.

Lemma ring_key_inj s p q : (p < size)%nat -> (q < size)%nat -> ring_key s p = ring_key s q -> p = q.
Proof using Hset.
  intros Hp Hq [= _ Hr _ Ht]. apply Nat2Z.inj in Hr. rewrite <- (ring_endpoint p s), <- (ring_endpoint q s) by done. by rewrite Ht, Hr.
Qed.

(** *** The chunks and the schedule *)
Context (lo ln : nat -> nat -> nat) (sz : nat).
Context (Hfit : forall ch k, (ch < channels)%nat -> (k < w)%nat -> (lo ch k + ln ch k <= sz)%nat).
Context (Hdisjoint : forall ch j k, (ch < channels)%nat -> (j < w)%nat -> (k < w)%nat -> j <> k ->
  (lo ch j + ln ch j <= lo ch k \/ lo ch k + ln ch k <= lo ch j)%nat).
Context (Hchunks : forall ch k, (ch < channels)%nat -> (k < w)%nat -> chunk_fits (T:=T) (ln ch k)).
Context (sends receives : nat -> nat -> nat).
Context (Hsends : forall s i, (s < w - 1)%nat -> (i < w)%nat -> sends s (predecessor w i) = receives s i /\ (sends s i < w)%nat).
Context (merge : list T -> list T -> list T) (Hmerge : forall a b, length a = length b -> length (merge a b) = length a).

(** *** The threads *)
Context {Counter : Type} (buf : nat -> Buffer) (start : nat -> RankState (T:=T)) (old : nat -> list T).
Context (bound : nat -> Counter -> Prop).
Context (body : nat -> RankState * Counter -> nat -> program Error (RankState * Counter)).
Context (absorb : nat -> nat -> Counter -> list Z -> RankState -> program Error (RankState * Counter)).

Record thread_holds (f : nat -> nat -> nat -> list T) (s p : nat) (st : RankState * Counter) : Prop := {
  thread_buffer : exists y, holds (memory st.1) (execution (coll (rank_of p))) (buf p) y /\
    arranged w (lo (chan p)) (ln (chan p)) sz (old p) (f (chan p) (place p)) y;
  thread_keeps : keeps_but (cell (buf p)) (memory (start p)) (memory st.1);
  thread_bound : bound s st.2;
}.

Hypothesis (Hbody : forall p s st, (p < size)%nat -> (s < w - 1)%nat ->
  body p st s = exchange_ring_chunk_bytes uid world error_text channel_of_tag (coll (rank_of p)) (buf p)
      (lo (chan p) (sends s (place p)), lo (chan p) (sends s (place p)) + ln (chan p) (sends s (place p)))%nat
      (ln (chan p) (receives s (place p))) (next_rank w ring p) (previous_rank w ring p) (chan p) (ring_tag p s) st.1
    ≫= (fun r => absorb p s st.2 r.2 r.1)).

Hypothesis (Habsorb : forall p s cnt st y x, (p < size)%nat -> (s < w - 1)%nat ->
  let k := receives s (place p) in
  holds (memory st) (execution (coll (rank_of p))) (buf p) y -> length x = ln (chan p) k -> bound s cnt ->
  exists st' cnt', absorb p s cnt (encode x) st = Return (Ok (st', cnt')) /\ bound (S s) cnt' /\
    holds (memory st') (execution (coll (rank_of p))) (buf p) (put (lo (chan p) k) (merge (sub (lo (chan p) k) (ln (chan p) k) y) x) y) /\
    keeps_but (cell (buf p)) (memory st) (memory st')).

Definition ring_message (f : nat -> nat -> nat -> list T) (s p : nat) : Frame :=
  chunk_message uid world et (rank_of p) (next_rank w ring p) (ring_tag p s) (f (chan p) (place p) (sends s (place p))).

Lemma keeps_but_trans k (a b c : Memory) : keeps_but k a b -> keeps_but k b c -> keeps_but k a c.
Proof using Type. intros Hab Hbc k' l Hne Hv. apply Hbc, Hab; done. Qed.

Lemma receives_lt s i : (s < w - 1)%nat -> (i < w)%nat -> (receives s i < w)%nat.
Proof using Hsends Hset.
  intros Hs Hi. destruct (Hsends s i Hs Hi) as [<- _]. by apply Hsends; [|apply predecessor_lt; [apply setting_world|]].
Qed.

Lemma phase_step f s p st : (s < w - 1)%nat -> (p < size)%nat ->
  (forall ch i k, (ch < channels)%nat -> (i < w)%nat -> (k < w)%nat -> length (f ch i k) = ln ch k) ->
  thread_holds f s p st -> exists half st',
  (forall v, alone p (body p st s) v half (with_transit v (push_message (ring_key s p) (ring_message f s p) (in_transit v)))) /\
  (forall v m, pop_message (ring_key s (from w ring p)) (in_transit v) = Some (ring_message f s (from w ring p), m) ->
    alone p half v (Return (Ok st')) (with_transit v m)) /\
  thread_holds (fun ch => ring_step w merge (receives s) (f ch)) (S s) p st'.
Proof using All.
  intros Hs Hp Hlen [(y & Hy & Harr) Hkeep Hbound]. pose proof setting_world as Hw.
  destruct (thread_bounds w Hw channels p Hp) as (Hch & Hr & _).
  pose proof (place_lt w Hw channels ring (setting_ring _ _ _ _ _ Hset) p Hp) as Hpl.
  destruct (from_facts w Hw channels ring (setting_ring _ _ _ _ _ Hset) p Hp) as (_ & Hfc & Hfr & Hfp & Hfn).
  destruct (Hsends s (place p) Hs Hpl) as [Hsend Hslt]. pose proof (receives_lt s (place p) Hs Hpl) as Hrlt.
  destruct (setting_rank _ _ _ _ _ Hset (rank_of p) Hr) as [Hsess Het]. destruct (setting_order _ _ _ _ _ Hset (rank_of p) (chan p) Hr Hch) as (_ & Hrail & Hrails).
  pose proof (setting_session _ _ _ _ _ Hset) as Hok. pose proof (setting_width _ _ _ _ _ Hset) as Hwidth.
  assert (Hnext : (next_rank w ring p < w)%nat) by by apply (rank_at_lt w Hw channels ring (setting_ring _ _ _ _ _ Hset)).
  assert (Hprev : (previous_rank w ring p < w)%nat) by by apply (rank_at_lt w Hw channels ring (setting_ring _ _ _ _ _ Hset)).
  set (ss := sends s (place p)) in *. set (rr := receives s (place p)) in *.
  pose proof (Hfit (chan p) ss Hch Hslt) as Hfs. pose proof (holds_length _ _ _ _ Hy) as Hly. pose proof (arranged_length _ _ _ _ _ _ _ Harr) as Hsz.
  assert (Hlen_s : (lo (chan p) ss + ln (chan p) ss - lo (chan p) ss)%nat = ln (chan p) ss) by lia.
  destruct (exchange_send uid world error_text channel_of_tag Hno et Hwidth (coll (rank_of p)) (rank_of p) (previous_rank w ring p) Hr Hsess Hok
    (chan p) (rail (chan p)) Hrail Hrails Het (ring_tag p s) (ring_tag_width _ _ _ _) (next_rank w ring p) (buf p) y st.1
    (lo (chan p) ss) (lo (chan p) ss + ln (chan p) ss) (ln (chan p) rr) Hnext Hy ltac:(lia)) as (mem & Hun & Hpost);
    [rewrite Hlen_s; by apply Hchunks|].
  rewrite Hlen_s in Hpost. rewrite (arranged_chunk _ _ _ _ _ _ _ Harr ss Hslt) in Hpost.
  set (st1 := mkState mem (sequence_number st.1) (internal_sequence st.1)) in Hpost.
  set (x := f (chan p) (predecessor w (place p)) rr).
  assert (Hxl : length x = ln (chan p) rr) by (apply Hlen; [done|by apply predecessor_lt|done]).
  assert (Hy1 : holds (memory st1) (execution (coll (rank_of p))) (buf p) y) by by eapply rank_holds_unchanged.
  destruct (Habsorb p s st.2 st1 y x Hp Hs Hy1 Hxl Hbound) as (st2 & cnt & Habs & Hbound' & Hy2 & Hkeep2).
  exists (await_chunk uid world error_text channel_of_tag (coll (rank_of p)) (previous_rank w ring p) (rail (chan p)) (ring_tag p s) (ln (chan p) rr) st1
      ≫= (fun r => absorb p s st.2 r.2 r.1)), (st2, cnt).
  pose proof (ring_endpoint p s Hp) as Hend. split; [|split].
  - intros v. rewrite (Hbody p s st Hp Hs). apply (alone_bind (M:=ring_mail)). specialize (Hpost v). rewrite Hend in Hpost. exact Hpost.
  - intros v m Hpop. eapply (alone_then (M:=ring_mail)) with (a := (st1, encode x)).
    + pose proof (exchange_take uid world error_text channel_of_tag et Hwidth (coll (rank_of p)) (rank_of p) (previous_rank w ring p) Hr Hsess Hok
        (rail (chan p)) Hrails Het (ring_tag p s) (ring_tag_width _ _ _ _) st1 x v m Hprev) as Htake.
      rewrite Hend, Hxl in Htake. apply Htake; [by apply Hchunks|].
      unfold ring_key, ring_message in Hpop. rewrite Hfr, Hfc, Hfn, Hfp, Hsend in Hpop. unfold ring_tag in Hpop. rewrite Hfc in Hpop. exact Hpop.
    + cbn [fst snd]. rewrite Habs. constructor.
  - assert (Hkeep1 : keeps_but (cell (buf p)) (memory st.1) (memory st1)) by (intros k' l _ Hv; cbn; by rewrite (Hun k')).
    split; [|by eapply keeps_but_trans; [exact Hkeep|]; eapply keeps_but_trans|done].
    eexists. split; [exact Hy2|]. eapply arranged_ext; [|apply (arranged_put w _ _ sz (fun k Hk => Hfit _ k Hch Hk) (fun j k => Hdisjoint _ j k Hch)); [exact Harr|exact Hrlt|]].
    + intros k Hk. cbn beta. unfold ring_step. fold rr. rewrite (Nat.eqb_sym k rr). rewrite (Nat.eqb_sym rr k).
      destruct (Nat.eqb_spec k rr) as [->|]; [|done]. by rewrite (arranged_chunk _ _ _ _ _ _ _ Harr rr Hrlt).
    + pose proof (Hfit (chan p) rr Hch Hrlt). assert (Hls : length (sub (lo (chan p) rr) (ln (chan p) rr) y) = ln (chan p) rr) by (apply length_sub; lia).
      rewrite Hmerge; [exact Hls|]. transitivity (ln (chan p) rr); [exact Hls|by symmetry].
Qed.

Lemma ring_steps_lengths f s : (forall ch i k, (ch < channels)%nat -> (i < w)%nat -> (k < w)%nat -> length (f ch i k) = ln ch k) ->
  forall ch i k, (ch < channels)%nat -> (i < w)%nat -> (k < w)%nat -> length (ring_steps w merge receives (f ch) s i k) = ln ch k.
Proof using Hmerge Hset.
  intros Hf ch i k Hch. revert i k. induction s as [|s IH]; intros i k Hi Hk; cbn [ring_steps]; [by apply Hf|].
  unfold ring_step. pose proof (predecessor_lt w setting_world i Hi) as Hp. destruct (k =? receives s i)%nat; [|by apply IH].
  rewrite Hmerge; [by apply IH|]. by rewrite !IH.
Qed.

(** All threads go through the phase. *)
Lemma phase_runs {A} (G : nat -> RankState * Counter -> program Error A) f v sts :
  (forall ch i k, (ch < channels)%nat -> (i < w)%nat -> (k < w)%nat -> length (f ch i k) = ln ch k) ->
  (forall s, (s < w - 1)%nat -> no_messages size (ring_key s) v) -> (forall p, (p < size)%nat -> thread_holds f 0 p (sts p)) ->
  exists l sts', runs network_step l (mkNetwork (map (fun p => Processes.loop (body p) (sts p) (seq 0 (w - 1)) ≫= G p) (seq 0 size)) v)
      (mkNetwork (map (fun p => G p (sts' p)) (seq 0 size)) v) /\
    forall p, (p < size)%nat -> thread_holds (fun ch => ring_steps w merge receives (f ch) (w - 1)) (w - 1) p (sts' p).
Proof using All.
  intros Hf Hnone Hstart. pose proof (setting_ring _ _ _ _ _ Hset) as Hring. pose proof setting_world as Hw.
  pose proof (lockstep_loop (A:=A) uid world error_text channel_of_tag size (from w ring)
    (fun p Hp => proj1 (from_facts w Hw channels ring Hring p Hp)) (from_inj w Hw channels ring Hring) ring_key ring_key_inj body
    (fun s => ring_message (fun ch => ring_steps w merge receives (f ch) s) s)
    (fun s p st => thread_holds (fun ch => ring_steps w merge receives (f ch) s) s p st) 0 (w - 1)) as Hloop.
  destruct Hloop with (G := G) (w := v) (m := (w - 1)%nat) (s := 0%nat) (sts := sts) as (l & sts' & Hl & Hend); [|lia|lia| |exact Hstart|by exists l, sts'].
  - intros s p st Hs Hp Hst. destruct (phase_step _ s p st ltac:(lia) Hp (ring_steps_lengths f s Hf) Hst) as (half & st' & H1 & H2 & H3).
    exists half, st'. split; [exact H1|]. split; [exact H2|exact H3].
  - intros s' Hs'. apply Hnone. lia.
Qed.
End phase.
