(* ===== verification/RingCollectives.v ===== *)
(** * The threads of the ring collectives

    The threads that all ranks start for an all-reduce, a reduce-scatter or an
    all-gather over a ring (ring.rs, reduce_scatter.rs and all_gather.rs under
    src/src/rank/device_collective) end under every schedule, and what each
    leaves in its rank's buffer is stated in terms of the inputs of all ranks. *)
From S2P Require Import Prelude Protocol Agreement Errors Layout Tags Payload Router Operation Comp Device Processes.
From S2P Require Import Topology Tuning Ring Session SessionRounds RankDevice DeviceCollective DeviceRing.

(** ** The schedule of the copying phase *)
Lemma follows_copy w : (0 < w)%nat -> follows w (w - 1) (fun s r => (r + w - s) mod w)%nat.
Proof.
  intros Hw s r c Hs Hr Hc. rewrite age_eq by lia. rewrite mod_once by lia. cbv zeta.
  repeat match goal with |- context [(?a <? ?b)%nat] => destruct (Nat.ltb_spec a b) end; lia.
Qed.

Lemma send_copy w s r : (0 < w)%nat -> (s < w - 1)%nat -> (r < w)%nat ->
  ((predecessor w r + 1 + w - s) mod w = (r + w - s) mod w)%nat.
Proof.
  intros Hw Hs Hr. rewrite predecessor_eq by done.
  destruct (Nat.eqb_spec r 0); rewrite !mod_twice by lia;
    repeat match goal with |- context [(?a <? ?b)%nat] => destruct (Nat.ltb_spec a b) end; lia.
Qed.

(** A list whose elements are chosen one by one. *)
Lemma assemble {A} (d : A) (P : nat -> A -> Prop) n : (forall i, (i < n)%nat -> exists a, P i a) ->
  exists l, length l = n /\ forall i a, l !! i = Some a -> P i a.
Proof.
  intros Hall. destruct (finite_choice d P n Hall) as [f Hf]. exists (map f (seq 0 n)). split; [by rewrite length_map, length_seq|].
  intros i a (j & -> & [Hj Hlt]%lookup_seq)%list_lookup_fmap_Some. subst. by apply Hf.
Qed.

(** ** Chunks by rank *)
Section layout.
Context {A : Type} (w : nat) (Hw : (0 < w)%nat) (channels : nat) (ring : nat -> list nat).
Context (Hring : forall ch, (ch < channels)%nat -> ring ch ≡ₚ seq 0 w).
Context (clo cln : nat -> nat -> nat) (sz : nat).

(** Chunk [j] of channel [ch] is [cln ch j] elements from [clo ch j] on. *)
Record layout : Prop := {
  layout_fit ch j : (ch < channels)%nat -> (j < w)%nat -> (clo ch j + cln ch j <= sz)%nat;
  layout_disjoint ch j k : (ch < channels)%nat -> (j < w)%nat -> (k < w)%nat -> j <> k ->
    (clo ch j + cln ch j <= clo ch k \/ clo ch k + cln ch k <= clo ch j)%nat;
}.
Context (Hlay : layout).

(** The chunk at a position of the ring. *)
Definition lo (ch k : nat) : nat := clo ch (rank_at w ring ch k).
Definition ln (ch k : nat) : nat := cln ch (rank_at w ring ch k).

Lemma lo_fit ch k : (ch < channels)%nat -> (k < w)%nat -> (lo ch k + ln ch k <= sz)%nat.
Proof using Hlay Hring Hw. intros Hc Hk. apply layout_fit; [done|done|]. by apply (rank_at_lt w Hw channels ring Hring). Qed.

Lemma lo_disjoint ch j k : (ch < channels)%nat -> (j < w)%nat -> (k < w)%nat -> j <> k ->
  (lo ch j + ln ch j <= lo ch k \/ lo ch k + ln ch k <= lo ch j)%nat.
Proof using Hlay Hring Hw.
  intros Hc Hj Hk Hne. apply layout_disjoint; [done|done|by apply (rank_at_lt w Hw channels ring Hring)..|].
  intros Heq. by apply Hne, (rank_at_inj w channels ring Hring ch).
Qed.

Context (x : nat -> list A) (Hx : forall r, (r < w)%nat -> length (x r) = sz).

(** What the ranks start with. *)
Definition given (ch i k : nat) : list A := sub (lo ch k) (ln ch k) (x (rank_at w ring ch i)).

Lemma length_given ch i k : (ch < channels)%nat -> (i < w)%nat -> (k < w)%nat -> length (given ch i k) = ln ch k.
Proof using Hlay Hring Hw Hx.
  intros Hc Hi Hk. unfold given. apply length_sub. rewrite Hx by by apply (rank_at_lt w Hw channels ring Hring).
  pose proof (lo_fit ch k Hc Hk). lia.
Qed.

(** A chunk that has come all the way round is the reduction over all ranks. *)
Lemma gathered_reduces (f : A -> A -> A) d ch k : (ch < channels)%nat -> (k < w)%nat -> (d <= w)%nat ->
  let v := gathered w (zip_with f) d (given ch) k (w - 1) in
  length v = ln ch k /\ forall i, (i < ln ch k)%nat -> exists order, order ≡ₚ seq 0 w /\
    v !! i = reduce_list f (omap (fun r => x r !! (lo ch k + i)%nat) order).
Proof using Hlay Hring Hw Hx.
  intros Hc Hk Hd. assert (Hlen : forall r, (r < w)%nat -> length (given ch r k) = ln ch k) by (intros; by apply length_given).
  cbv zeta. split; [by apply length_gathered_zip|]. intros i Hi.
  rewrite (gathered_lookup w d f (given ch) k (w - 1) i _ Hw Hlen Hi). replace (S (w - 1)) with w by lia. fold (ring_order w d k).
  exists (map (rank_at w ring ch) (ring_order w d k)). split.
  - rewrite (ring_order_perm w d k Hk Hd). transitivity (ring ch); [|by apply Hring]. apply reflexive_eq.
    apply list_eq. intros j. rewrite list_lookup_fmap. pose proof (ring_length w channels ring Hring ch Hc) as Hl. destruct (decide (j < w)%nat) as [Hj|Hj].
    + rewrite lookup_seq_lt by done. cbn. by rewrite (ring_lookup w channels ring Hring).
    + rewrite lookup_seq_ge, lookup_ge_None_2 by lia. done.
  - f_equal. induction (ring_order w d k) as [|r l IH]; [done|]. cbn [map omap list_omap].
    rewrite IH. unfold given. rewrite lookup_sub, decide_True by done. done.
Qed.

Lemma gathered_copies d ch k : (ch < channels)%nat -> (k < w)%nat ->
  gathered w (fun _ incoming => incoming) d (given ch) k (w - 1) = sub (lo ch k) (ln ch k) (x (rank_at w ring ch (k + d))).
Proof using Type. intros Hc Hk. rewrite gathered_copy. unfold given. by rewrite rank_at_mod. Qed.
(** When the chunks of all channels cover the buffer and do not overlap, they
    are the pieces of one list. *)
Definition covering : Prop := forall i, (i < sz)%nat -> exists ch k, (ch < channels)%nat /\ (k < w)%nat /\ (lo ch k <= i < lo ch k + ln ch k)%nat.
Definition separate : Prop := forall ch ch' j j' i, (ch < channels)%nat -> (ch' < channels)%nat -> (j < w)%nat -> (j' < w)%nat ->
  (clo ch j <= i < clo ch j + cln ch j)%nat -> (clo ch' j' <= i < clo ch' j' + cln ch' j')%nat -> ch = ch'.

Lemma assembled (P : nat -> A -> Prop) (g : nat -> nat -> list A) : covering -> separate ->
  (forall ch k i, (ch < channels)%nat -> (k < w)%nat -> (i < ln ch k)%nat -> exists a, g ch k !! i = Some a /\ P (lo ch k + i)%nat a) ->
  exists result, length result = sz /\ (forall i a, result !! i = Some a -> P i a) /\
    forall ch k i, (ch < channels)%nat -> (k < w)%nat -> (i < ln ch k)%nat -> g ch k !! i = result !! (lo ch k + i)%nat.
Proof using Hlay Hring Hw Hx.
  intros Hcover Hsep Hg. destruct (decide (sz = 0%nat)) as [Hz|Hz].
  { exists []. split; [done|]. split; [done|]. intros ch k i Hc Hk Hi. pose proof (lo_fit ch k Hc Hk). lia. }
  destruct (lookup_lt_is_Some_2 (x 0%nat) 0) as [d _]; [rewrite Hx; lia|].
  destruct (assemble d (fun i a => P i a /\ forall ch k, (ch < channels)%nat -> (k < w)%nat -> (lo ch k <= i < lo ch k + ln ch k)%nat -> g ch k !! (i - lo ch k)%nat = Some a) sz)
    as (result & Hlen & Hall).
  { intros i Hi. destruct (Hcover i Hi) as (ch & k & Hc & Hk & Hin). destruct (Hg ch k (i - lo ch k)%nat Hc Hk ltac:(lia)) as (a & Ha & HP).
    replace (lo ch k + (i - lo ch k))%nat with i in HP by lia. exists a. split; [done|]. intros ch' k' Hc' Hk' Hin'.
    assert (ch' = ch) as ->.
    { apply (Hsep ch' ch (rank_at w ring ch' k') (rank_at w ring ch k) i); [done|done|by apply (rank_at_lt w Hw channels ring Hring)..|exact Hin'|exact Hin]. }
    destruct (decide (k' = k)) as [->|Hne]; [done|]. pose proof (lo_disjoint ch k' k Hc Hk' Hk Hne). lia. }
  exists result. split; [done|]. split; [intros i a Ha; by apply Hall|]. intros ch k i Hc Hk Hi. pose proof (lo_fit ch k Hc Hk) as Hfit.
  destruct (lookup_lt_is_Some_2 result (lo ch k + i)%nat) as [a Ha]; [lia|]. destruct (Hall _ a Ha) as [_ Hch].
  rewrite Ha, <- (Hch ch k Hc Hk) by lia. f_equal. lia.
Qed.

Lemma assembled_reduction (f : A -> A -> A) d : (d <= w)%nat -> covering -> separate ->
  exists result, length result = sz /\ reduces f x w result /\
    forall ch k i, (ch < channels)%nat -> (k < w)%nat -> (i < ln ch k)%nat -> gathered w (zip_with f) d (given ch) k (w - 1) !! i = result !! (lo ch k + i)%nat.
Proof using Hlay Hring Hw Hx.
  intros Hd Hcover Hsep. destruct (assembled (fun i a => exists order, order ≡ₚ seq 0 w /\ Some a = reduce_list f (omap (fun r => x r !! i) order))
    (fun ch k => gathered w (zip_with f) d (given ch) k (w - 1)) Hcover Hsep) as (result & Hlen & Hred & Heq).
  - intros ch k i Hc Hk Hi. destruct (gathered_reduces f d ch k Hc Hk Hd) as [Hl Hr].
    destruct (lookup_lt_is_Some_2 (gathered w (zip_with f) d (given ch) k (w - 1)) i) as [a Ha]; [by rewrite Hl|].
    exists a. split; [done|]. destruct (Hr i Hi) as (order & Hperm & Hval). exists order. by rewrite <- Ha.
  - exists result. split; [done|]. split; [|done]. intros i Hi. destruct (lookup_lt_is_Some_2 result i Hi) as [a Ha].
    destruct (Hred i a Ha) as (order & Hp & Hval). exists order. by rewrite Ha.
Qed.
End layout.

(** ** Balanced channels and chunks *)
Lemma find_part (start : nat -> nat) m e : start 0%nat = 0%nat -> (e < start m)%nat -> exists j, (j < m)%nat /\ (start j <= e < start (S j))%nat.
Proof.
  intros H0. induction m as [|m IH]; intros Hm; [lia|]. destruct (decide (e < start m)%nat) as [Hlt|Hge].
  - destruct (IH Hlt) as (j & Hj & Hb). exists j. split; [lia|done].
  - exists m. lia.
Qed.

Section chunks.
Context (w channels : nat).

(** [n] elements in balanced channels, each in balanced chunks *)
Context (n : nat).
Definition channel_start (ch : nat) : nat := part_start n channels ch.
Definition channel_range (ch : nat) : nat * nat := (channel_start ch, channel_start (S ch)).
Definition channel_length (ch : nat) : nat := (channel_start (S ch) - channel_start ch)%nat.
Definition chunk_start (ch j : nat) : nat := (part_start (channel_length ch) w j + channel_start ch)%nat.
Definition chunk_length (ch j : nat) : nat := (part_start (channel_length ch) w (S j) - part_start (channel_length ch) w j)%nat.

Lemma chunk_end ch j : (chunk_start ch j + chunk_length ch j = part_start (channel_length ch) w (S j) + channel_start ch)%nat.
Proof using Type. unfold chunk_start, chunk_length. pose proof (part_start_mono (channel_length ch) w j (S j) ltac:(lia)). lia. Qed.

Lemma channel_bounds ch : (ch < channels)%nat -> (channel_start ch <= channel_start (S ch) <= n)%nat.
Proof using Type. intros Hc. split; [apply part_start_mono; lia|by apply part_end_le]. Qed.

Lemma chunk_in_channel ch j : (ch < channels)%nat -> (j < w)%nat -> (channel_start ch <= chunk_start ch j /\ chunk_start ch j + chunk_length ch j <= channel_start (S ch))%nat.
Proof using Type.
  intros Hc Hj. rewrite chunk_end. unfold chunk_start. pose proof (channel_bounds ch Hc). pose proof (part_end_le (channel_length ch) w j Hj).
  unfold channel_length in *. lia.
Qed.

Lemma chunks_layout : layout w channels chunk_start chunk_length n.
Proof using Type.
  split.
  - intros ch j Hc Hj. pose proof (chunk_in_channel ch j Hc Hj). pose proof (channel_bounds ch Hc). lia.
  - intros ch j k Hc Hj Hk Hne. rewrite !chunk_end. unfold chunk_start. pose proof (part_disjoint (channel_length ch) w j k Hne). lia.
Qed.

(** Every element lies in a channel, and every element of a channel in one of its chunks. *)
Lemma channel_of i : (0 < channels)%nat -> (i < n)%nat -> exists ch, (ch < channels)%nat /\ (channel_start ch <= i < channel_start (S ch))%nat.
Proof using Type. intros Hc Hi. apply find_part; [apply part_start_0|]. unfold channel_start. by rewrite part_start_all. Qed.

Lemma same_channel ch ch' i : (channel_start ch <= i < channel_start (S ch))%nat -> (channel_start ch' <= i < channel_start (S ch'))%nat -> ch = ch'.
Proof using Type.
  intros Hi Hi'. destruct (decide (ch = ch')) as [|Hne]; [done|].
  pose proof (part_disjoint n channels ch ch' Hne). unfold channel_start in *. lia.
Qed.

Lemma chunk_of ch i : (0 < w)%nat -> (channel_start ch <= i < channel_start (S ch))%nat ->
  exists j, (j < w)%nat /\ (chunk_start ch j <= i < chunk_start ch j + chunk_length ch j)%nat.
Proof using Type.
  intros Hw Hi. pose proof (part_start_all (channel_length ch) w Hw) as Hall.
  destruct (find_part (part_start (channel_length ch) w) w (i - channel_start ch)) as (j & Hj & Hb);
    [apply part_start_0|unfold channel_length in *; lia|].
  exists j. split; [done|]. rewrite chunk_end. unfold chunk_start. lia.
Qed.
End chunks.

(** ** What the threads of all collectives start with *)
Section threads.
Context `{Crc32Hash} (uid : list Z) (world : nat) (error_text : NetworkError -> list Z).
#[local] Existing Instance collective_mail.
#[local] Instance threads_mail : Mail := collective_mail uid world error_text channel_of_tag.
#[local] Instance threads_mail_laws : MailLaws threads_mail := collective_mail_laws uid world error_text channel_of_tag.
Context {T : Type} {D : RankDevice T} {V : RankView T} {L : RankLaws T} {DE : DeviceErrors Error} (Hno : forall e, ~ device_error e).
Context (coll : nat -> DeviceCollective) (channels : nat) (ring : nat -> list nat) (rail : nat -> nat) (et : ElementType).
Context (Hset : ring_setting uid world coll channels ring rail et).
Abbreviation w := world.
Abbreviation size := (channels * world)%nat.
Abbreviation chan := (chan world).
Abbreviation rank_of := (rank_of world).
Abbreviation place := (place world ring).

Lemma ring_at_ok r ch i : (r < w)%nat -> (ch < channels)%nat -> ring_at (coll r) (ring ch) i = Ok (rank_at w ring ch i).
Proof using Hset.
  intros Hr Hc. pose proof (setting_world _ _ _ _ _ _ _ Hset) as Hw. destruct (setting_rank _ _ _ _ _ _ _ Hset r Hr) as [[_ _ Hsw] _].
  unfold ring_at. rewrite Hsw, rem_usize_ok by done. cbn [mbind outcome_bind]. unfold index.
  rewrite (ring_lookup w channels ring (setting_ring _ _ _ _ _ _ _ Hset)) by (done || apply Nat.mod_upper_bound; lia). cbn. by rewrite rank_at_mod.
Qed.

Lemma ring_position_ok r ch : (r < w)%nat -> (ch < channels)%nat -> ring_position (coll r) (ring ch) = Ok (position_in ring ch r).
Proof using Hset.
  intros Hr Hc. destruct (setting_rank _ _ _ _ _ _ _ Hset r Hr) as [[_ Hrk _] _]. unfold ring_position. rewrite Hrk.
  destruct (position_found w (setting_world _ _ _ _ _ _ _ Hset) channels ring (setting_ring _ _ _ _ _ _ _ Hset) ch r Hc Hr) as (_ & _ & ->). done.
Qed.

(** What one exchange adds to the transferred bytes. *)
Lemma exchanged_bounds (a : nat) (v : list T) : chunk_fits (T:=T) a -> chunk_fits (T:=T) (length v) -> 0 <= exchanged a (encode v) <= 2 ^ 31.
Proof using L.
  unfold chunk_fits. change MAX_FRAME_PAYLOAD_BYTES with 1073741824. intros Ha Hv. unfold exchanged, Zlen. rewrite (proj1 (law_encode v)).
  unfold saturating_mul, saturating_add. rewrite (saturate_in 64 (_ * _)) by (unfold in_width; lia). rewrite saturate_in by (unfold in_width; lia). lia.
Qed.

Definition counted (per : Z) (from s : nat) (c : Z) : Prop := 0 <= c <= Z.of_nat (from + s) * per.

Lemma add_exchanged_ok what per from s c d : counted per from s c -> 0 <= d <= per -> Z.of_nat (from + S s) * per < 2 ^ 64 ->
  add_bytes what c d = Ok (c + d) /\ counted per from (S s) (c + d).
Proof using Type.
  unfold counted. intros Hc Hd Hlt. unfold add_bytes, checked_add. rewrite checked_in by (unfold in_width; nia). split; [done|]. nia.
Qed.

Lemma add_launches_ok what s c d : counted 1 0 s c -> 0 <= d <= 1 -> Z.of_nat (S s) < 2 ^ 32 ->
  add_launches what c d = Ok (c + d) /\ counted 1 0 (S s) (c + d).
Proof using Type.
  unfold counted. intros Hc Hd Hlt. unfold add_launches, checked_add. rewrite checked_in by (unfold in_width; lia). split; [done|]. lia.
Qed.

Lemma setting_world_bound : Z.of_nat w < 2 ^ 32.
Proof using Hset. pose proof (setting_session _ _ _ _ _ _ _ Hset) as [_ _ _ [_ Hw]]. lia. Qed.
End threads.

(** ** The two kinds of steps: a chunk is combined, or it is copied *)
Section absorbed.
Context `{Crc32Hash} (uid : list Z) (world : nat) (error_text : NetworkError -> list Z).
#[local] Existing Instance collective_mail.
#[local] Instance absorbed_mail : Mail := collective_mail uid world error_text channel_of_tag.
#[local] Instance absorbed_mail_laws : MailLaws absorbed_mail := collective_mail_laws uid world error_text channel_of_tag.
Context {T : Type} {D : RankDevice T} {V : RankView T} {L : RankLaws T} {DE : DeviceErrors Error} (Hno : forall e, ~ device_error e).
Context (c : DeviceCollective) (b : Buffer).
Abbreviation on_rank := (on_device uid world error_text channel_of_tag).

Lemma on_device_ok {A} (m : comp Memory Error A) st mem a : m (memory st) = (mem, Ok a) ->
  on_rank m st = Return (Ok (mkState mem (sequence_number st) (internal_sequence st), a)).
Proof using Type. intros Hm. unfold on_device. by rewrite Hm. Qed.

(** The end of [ring_reduce_step] and of [scatter_step]. *)
Definition absorb_sum (bytes launches : string) (function : Kernel) (offset count sent : nat) (counters : Z * Z) (received : list Z)
    : rank_program (T:=T) uid world error_text channel_of_tag (Z * Z) :=
  transferred_bytes ← just uid world error_text channel_of_tag (add_bytes bytes counters.1 (exchanged sent received));
  n ← on_rank (reduce_bytes_into c b offset count received function);
  n ← just uid world error_text channel_of_tag (add_launches launches counters.2 n);
  mret (transferred_bytes, n).

Lemma absorb_sum_ok bytes launches function (offset sent s : nat) (counters : Z * Z) (st : RankState (T:=T)) y v :
  holds (memory st) (execution c) b y -> computes (execution c) function -> allocatable (execution c) (length v) ->
  (offset + length v <= buffer_len b)%nat -> chunk_fits (T:=T) sent -> chunk_fits (T:=T) (length v) ->
  Z.of_nat (S s) < 2 ^ 32 -> counted (2 ^ 31) 0 s counters.1 /\ counted 1 0 s counters.2 ->
  exists st' counters', absorb_sum bytes launches function offset (length v) sent counters (encode v) st = Return (Ok (st', counters')) /\
    (counted (2 ^ 31) 0 (S s) counters'.1 /\ counted 1 0 (S s) counters'.2) /\
    holds (memory st') (execution c) b (put offset (zip_with (combine function) (sub offset (length v) y) v) y) /\
    keeps_but (cell b) (memory st) (memory st').
Proof using Hno L.
  intros Hy Hk Hal Hfit Hs Hv Hlt [Hc1 Hc2]. destruct (reduce_bytes_ok c Hno b y (memory st) offset v function Hy Hk Hal Hfit) as (mem & n & Hr & Hn & Hy' & Hkeep).
  destruct (add_exchanged_ok bytes (2 ^ 31) 0 s counters.1 (exchanged sent (encode v)) Hc1 (exchanged_bounds _ _ Hs Hv) ltac:(lia)) as [Hb Hc1'].
  destruct (add_launches_ok launches s counters.2 n Hc2 Hn Hlt) as [Hl Hc2'].
  unfold absorb_sum, mbind, rank_mbind, just. rewrite Hb. cbn [lift mbind program_mbind program_bind mret program_mret fst snd].
  rewrite (on_device_ok _ _ _ _ Hr). cbn [mbind program_mbind program_bind fst snd]. rewrite Hl.
  do 2 eexists. split; [reflexivity|]. done.
Qed.

(** The end of [ring_copy_step]. *)
Definition absorb_copy (bytes : string) (offset sent : nat) (transferred_bytes : Z) (received : list Z)
    : rank_program (T:=T) uid world error_text channel_of_tag Z :=
  transferred_bytes ← just uid world error_text channel_of_tag (add_bytes bytes transferred_bytes (exchanged sent received));
  _ ← on_rank (if bool_decide (received = []) then mret tt else copy_bytes_to_device_at (execution c) b offset received);
  mret transferred_bytes.

Lemma copy_received_ok (guarded : bool) (offset : nat) (st : RankState (T:=T)) y v :
  holds (memory st) (execution c) b y -> (offset + length v <= buffer_len b)%nat ->
  exists st', on_rank (if guarded && bool_decide (encode v = []) then mret tt else copy_bytes_to_device_at (execution c) b offset (encode v)) st = Return (Ok (st', tt)) /\
    holds (memory st') (execution c) b (put offset v y) /\ keeps_but (cell b) (memory st) (memory st').
Proof using Hno L.
  intros Hy Hfit. destruct (guarded && bool_decide (encode v = [])) eqn:Hg.
  - apply andb_prop in Hg as [_ Hnil%bool_decide_eq_true]. exists st. split; [by destruct st|].
    pose proof (proj1 (law_encode v)) as Hl. rewrite Hnil in Hl. pose proof law_size. destruct v as [|a v]; [|cbn in Hl; lia].
    rewrite put_nil. split; [done|by intros k' l _ Hv'].
  - destruct (copy_bytes_to_ok c Hno b y (memory st) offset v Hy Hfit) as (mem & Hm & Hy' & Hk).
    rewrite (on_device_ok _ _ _ _ Hm). eexists. split; [reflexivity|done].
Qed.

Lemma absorb_copy_ok bytes (before offset sent s : nat) (counter : Z) (st : RankState (T:=T)) y v :
  holds (memory st) (execution c) b y -> (offset + length v <= buffer_len b)%nat -> chunk_fits (T:=T) sent -> chunk_fits (T:=T) (length v) ->
  Z.of_nat (before + S s) < 2 ^ 33 -> counted (2 ^ 31) before s counter ->
  exists st' counter', absorb_copy bytes offset sent counter (encode v) st = Return (Ok (st', counter')) /\
    counted (2 ^ 31) before (S s) counter' /\
    holds (memory st') (execution c) b (put offset v y) /\ keeps_but (cell b) (memory st) (memory st').
Proof using Hno L.
  intros Hy Hfit Hs Hv Hlt Hc. destruct (add_exchanged_ok bytes (2 ^ 31) before s counter (exchanged sent (encode v)) Hc (exchanged_bounds _ _ Hs Hv) ltac:(lia)) as [Hb Hc'].
  destruct (copy_received_ok true offset st y v Hy Hfit) as (st' & Hst & Hy' & Hk). cbn [andb] in Hst.
  unfold absorb_copy, mbind, rank_mbind, just. rewrite Hb. cbn [lift mbind program_mbind program_bind mret program_mret fst snd].
  rewrite Hst. do 2 eexists. split; [reflexivity|]. done.
Qed.
End absorbed.

(** ** All-reduce *)
Section all_reduce.
Context `{Crc32Hash} (uid : list Z) (world : nat) (error_text : NetworkError -> list Z).
#[local] Existing Instance collective_mail.
#[local] Instance all_reduce_mail : Mail := collective_mail uid world error_text channel_of_tag.
#[local] Instance all_reduce_mail_laws : MailLaws all_reduce_mail := collective_mail_laws uid world error_text channel_of_tag.
Context {T : Type} {D : RankDevice T} {V : RankView T} {L : RankLaws T} {DE : DeviceErrors Error} (Hno : forall e, ~ device_error e).
Context (coll : nat -> DeviceCollective) (channels : nat) (ring : nat -> list nat) (rail : nat -> nat) (et : ElementType).
Context (Hset : ring_setting uid world coll channels ring rail et).
Abbreviation w := world.
Abbreviation size := (channels * world)%nat.
Abbreviation chan := (chan world).
Abbreviation rank_of := (rank_of world).
Abbreviation place := (place world ring).


Context (n : nat) (operation : Z) (buf : nat -> Buffer) (function : nat -> Kernel).
Context (Hbuf : forall r, (r < w)%nat -> buffer_len (buf r) = n).
Abbreviation channel_range := (channel_range channels n).
Abbreviation chunk_start := (chunk_start w channels n).
Abbreviation chunk_length := (chunk_length w channels n).

(** The chunks of channel [ch], as the program has them. *)
Definition chunk_ranges (ch : nat) : list (nat * nat) := map (fun j => (chunk_start ch j, chunk_start ch j + chunk_length ch j)%nat) (seq 0 w).

Lemma chunk_ranges_index ch j : (j < w)%nat -> index (E:=Error) (chunk_ranges ch) j = Ok (chunk_start ch j, chunk_start ch j + chunk_length ch j)%nat.
Proof using Type. intros Hj. unfold index, chunk_ranges. rewrite list_lookup_fmap, lookup_seq_lt by done. done. Qed.

Definition sum_body (p : nat) (st : RankState (T:=T) * (Z * Z)) (s : nat) : program Error (RankState * (Z * Z)) :=
  ring_reduce_step uid w error_text channel_of_tag (coll (rank_of p)) (buf (rank_of p)) (ring (chan p)) (chunk_ranges (chan p)) operation (chan p)
    (function (rank_of p)) (place p) (next_rank w ring p) (previous_rank w ring p) st.2 s st.1.

Definition copy_body (p : nat) (st : RankState (T:=T) * Z) (s : nat) : program Error (RankState * Z) :=
  ring_copy_step uid w error_text channel_of_tag (coll (rank_of p)) (buf (rank_of p)) (ring (chan p)) (chunk_ranges (chan p)) operation (chan p)
    (place p) (next_rank w ring p) (previous_rank w ring p) st.2 s st.1.

(** A thread is its two loops. *)
Lemma all_reduce_thread_eq p st : (p < size)%nat ->
  all_reduce_ring_channel uid w error_text channel_of_tag (coll (rank_of p)) (buf (rank_of p)) (channel_range (chan p)) operation (chan p) (function (rank_of p)) st =
  Processes.loop (sum_body p) (st, (0, 0)) (seq 0 (w - 1)) ≫= (fun r1 =>
    Processes.loop (copy_body p) (r1.1, r1.2.1) (seq 0 (w - 1)) ≫= (fun r2 => Return (Ok (r2.1, (r2.2, r1.2.2))))).
Proof using Hset.
  intros Hp. pose proof (setting_world _ _ _ _ _ _ _ Hset) as Hw. destruct (thread_bounds w Hw channels p Hp) as (Hch & Hr & _).
  destruct (setting_rank _ _ _ _ _ _ _ Hset _ Hr) as [[_ _ Hsw] _]. destruct (setting_order _ _ _ _ _ _ _ Hset _ _ Hr Hch) as (Hord & _).
  unfold all_reduce_ring_channel, mbind, rank_mbind, just. rewrite Hord. cbn [lift mbind program_mbind program_bind mret program_mret fst snd].
  rewrite (ring_position_ok uid w coll channels ring rail et Hset) by done. cbn [lift mbind program_mbind program_bind mret program_mret fst snd].
  fold (place p). rewrite Hsw, !(ring_at_ok uid w coll channels ring rail et Hset) by done. cbn [lift mbind program_mbind program_bind mret program_mret fst snd].
  rewrite balanced_ranges_Ok, sub_usize_ok by lia. cbn [lift mbind program_mbind program_bind mret program_mret fst snd]. rewrite map_map.
  rewrite (map_ext _ (fun j => (chunk_start (chan p) j, chunk_start (chan p) j + chunk_length (chan p) j)%nat)); [reflexivity|].
  intros j. cbn [fst snd]. by rewrite chunk_end.
Qed.

(** The schedules of the two phases. *)
Definition sum_sends (s i : nat) : nat := ((i + w - s) mod w)%nat.
Definition sum_receives (s i : nat) : nat := ((i + w - s - 1) mod w)%nat.
Definition copy_sends (s i : nat) : nat := ((i + 1 + w - s) mod w)%nat.
Definition copy_receives (s i : nat) : nat := ((i + w - s) mod w)%nat.

Abbreviation lo := (lo w ring chunk_start).
Abbreviation ln := (ln w ring chunk_length).

Definition sum_absorb (p s : nat) (counters : Z * Z) (received : list Z) : RankState (T:=T) -> program Error (RankState * (Z * Z)) :=
  absorb_sum uid w error_text (coll (rank_of p)) (buf (rank_of p)) "ring all-reduce transferred bytes" "ring all-reduce kernel launches"
    (function (rank_of p)) (lo (chan p) (sum_receives s (place p))) (ln (chan p) (sum_receives s (place p)))
    (ln (chan p) (sum_sends s (place p))) counters received.

Definition copy_absorb (p s : nat) (counter : Z) (received : list Z) : RankState (T:=T) -> program Error (RankState * Z) :=
  absorb_copy uid w error_text (coll (rank_of p)) (buf (rank_of p)) "ring all-reduce transferred bytes"
    (lo (chan p) (copy_receives s (place p))) (ln (chan p) (copy_sends s (place p))) counter received.

Lemma range_len_add a l : range_len (a, a + l)%nat = l.
Proof using Type. unfold range_len. cbn. lia. Qed.

Definition exchanging (p s : nat) (ph : Z) (st : RankState (T:=T)) (sends receives : nat -> nat -> nat) : program Error (RankState * list Z) :=
  exchange_ring_chunk_bytes uid w error_text channel_of_tag (coll (rank_of p)) (buf (rank_of p))
    (lo (chan p) (sends s (place p)), lo (chan p) (sends s (place p)) + ln (chan p) (sends s (place p)))%nat
    (ln (chan p) (receives s (place p))) (next_rank w ring p) (previous_rank w ring p) (chan p) (ring_tag world operation ph p s) st.

Lemma sum_body_eq p s st : (p < size)%nat -> (s < w - 1)%nat ->
  sum_body p st s = exchanging p s 0 st.1 sum_sends sum_receives ≫= (fun r => sum_absorb p s st.2 r.2 r.1).
Proof using Hset.
  intros Hp Hs. pose proof (setting_world _ _ _ _ _ _ _ Hset) as Hw. destruct (thread_bounds w Hw channels p Hp) as (Hch & Hr & _).
  destruct (setting_rank _ _ _ _ _ _ _ Hset _ Hr) as [[_ _ Hsw] _]. pose proof (rank_at_lt w Hw channels ring (setting_ring _ _ _ _ _ _ _ Hset) (chan p)) as Hlt.
  unfold sum_body, ring_reduce_step, sum_absorb, mbind, rank_mbind, just. rewrite Hsw, !(ring_at_ok uid w coll channels ring rail et Hset) by done.
  cbn [lift mbind program_mbind program_bind mret program_mret fst snd]. rewrite !chunk_ranges_index by by apply Hlt.
  cbn [lift mbind program_mbind program_bind mret program_mret fst snd]. unfold exchanging. rewrite !range_len_add.
  unfold lo, ln, sum_sends, sum_receives. rewrite !rank_at_mod. reflexivity.
Qed.

Lemma copy_body_eq p s st : (p < size)%nat -> (s < w - 1)%nat ->
  copy_body p st s = exchanging p s 1 st.1 copy_sends copy_receives ≫= (fun r => copy_absorb p s st.2 r.2 r.1).
Proof using Hset.
  intros Hp Hs. pose proof (setting_world _ _ _ _ _ _ _ Hset) as Hw. destruct (thread_bounds w Hw channels p Hp) as (Hch & Hr & _).
  destruct (setting_rank _ _ _ _ _ _ _ Hset _ Hr) as [[_ _ Hsw] _]. pose proof (rank_at_lt w Hw channels ring (setting_ring _ _ _ _ _ _ _ Hset) (chan p)) as Hlt.
  unfold copy_body, ring_copy_step, copy_absorb, mbind, rank_mbind, just. rewrite Hsw, !(ring_at_ok uid w coll channels ring rail et Hset) by done.
  cbn [lift mbind program_mbind program_bind mret program_mret fst snd]. rewrite !chunk_ranges_index by by apply Hlt.
  cbn [lift mbind program_mbind program_bind mret program_mret fst snd]. unfold exchanging. rewrite !range_len_add.
  unfold lo, ln, copy_sends, copy_receives. rewrite !rank_at_mod. reflexivity.
Qed.

(** *** Both phases *)
Context (x : nat -> list T) (Hx : forall r, (r < w)%nat -> length (x r) = n) (f : T -> T -> T).
Context (Hfunction : forall r, (r < w)%nat -> computes (execution (coll r)) (function r) /\ combine (function r) = f).
Context (Hchunks : forall ch j, (ch < channels)%nat -> (j < w)%nat -> chunk_fits (T:=T) (chunk_length ch j)).
Context (Halloc : forall r ch j, (r < w)%nat -> (ch < channels)%nat -> (j < w)%nat -> allocatable (execution (coll r)) (chunk_length ch j)).
Context (start : nat -> RankState (T:=T)).
Context (Hstart : forall p, (p < size)%nat -> holds (memory (start p)) (execution (coll (rank_of p))) (buf (rank_of p)) (x (rank_of p))).
Abbreviation given := (given w ring chunk_start chunk_length x).
Abbreviation buffers := (fun p => buf (rank_of p)).
Abbreviation inputs := (fun p => x (rank_of p)).

Lemma chunks_at ch k : (ch < channels)%nat -> (k < w)%nat -> chunk_fits (T:=T) (ln ch k).
Proof using Hset Hchunks. intros Hc Hk. apply Hchunks; [done|]. by apply (rank_at_lt w (setting_world _ _ _ _ _ _ _ Hset) channels ring (setting_ring _ _ _ _ _ _ _ Hset)). Qed.

Lemma sum_phase {A} (G : nat -> RankState * (Z * Z) -> program Error A) v :
  (forall s, (s < w - 1)%nat -> no_messages size (ring_key world ring rail operation 0 s) v) ->
  exists l sts, runs network_step l
      (mkNetwork (map (fun p => Processes.loop (sum_body p) (start p, (0, 0)) (seq 0 (w - 1)) ≫= G p) (seq 0 size)) v)
      (mkNetwork (map (fun p => G p (sts p)) (seq 0 size)) v) /\
    forall p, (p < size)%nat -> thread_holds world coll ring lo ln n buffers start inputs (fun s c => counted (2 ^ 31) 0 s c.1 /\ counted 1 0 s c.2)
      (fun ch => ring_steps w (zip_with f) sum_receives (given ch) (w - 1)) (w - 1) p (sts p).
Proof using All.
  intros Hnone. pose proof (setting_world _ _ _ _ _ _ _ Hset) as Hw. pose proof (setting_ring _ _ _ _ _ _ _ Hset) as Hring.
  pose proof (chunks_layout w channels n) as Hlay. pose proof (setting_world_bound _ _ _ _ _ _ _ Hset) as Hwb.
  apply (phase_runs uid w error_text Hno coll channels ring rail et Hset operation 0 lo ln n (lo_fit w Hw channels ring Hring _ _ n Hlay)
    (lo_disjoint w Hw channels ring Hring _ _ n Hlay) chunks_at sum_sends sum_receives) with (absorb := sum_absorb) (f := given) (sts := fun p => (start p, (0, 0))).
  - intros s i Hs Hi. split; [by apply send_gather|]. apply Nat.mod_upper_bound. lia.
  - intros a b Hab. rewrite length_zip_with. lia.
  - intros p s st. apply sum_body_eq.
  - intros p s cnt st y v' Hp Hs k Hy Hv Hcnt. destruct (thread_bounds w Hw channels p Hp) as (Hch & Hr & _).
    assert (Hk : (k < w)%nat) by (apply Nat.mod_upper_bound; lia). assert (Hsk : (sum_sends s (place p) < w)%nat) by (apply Nat.mod_upper_bound; lia).
    destruct (Hfunction _ Hr) as [Hcomp <-]. pose proof (lo_fit w Hw channels ring Hring _ _ n Hlay (chan p) k Hch Hk) as Hfit.
    unfold sum_absorb. fold k. rewrite <- Hv. apply absorb_sum_ok; try done; rewrite ?Hv; try lia.
    + apply Halloc; [done|done|]. by apply (rank_at_lt w Hw channels ring Hring).
    + by rewrite Hbuf.
    + by apply chunks_at.
    + by apply chunks_at.
  - intros ch i k. by apply (length_given w Hw channels ring Hring _ _ n Hlay).
  - exact Hnone.
  - intros p Hp. destruct (thread_bounds w Hw channels p Hp) as (Hch & Hr & _). split; cbn [fst snd].
    + exists (x (rank_of p)). split; [by apply Hstart|]. eapply arranged_ext; [|apply arranged_start; by apply Hx].
      intros k Hk. unfold given. by rewrite (rank_at_place w Hw channels ring Hring).
    + by intros k l _.
    + unfold counted. lia.
Qed.

Abbreviation summed := (fun ch => ring_steps w (zip_with f) sum_receives (given ch) (w - 1)).

Lemma length_summed ch i k : (ch < channels)%nat -> (i < w)%nat -> (k < w)%nat -> length (summed ch i k) = ln ch k.
Proof using Hset Hx.
  intros Hc Hi Hk. pose proof (setting_world _ _ _ _ _ _ _ Hset) as Hw. pose proof (setting_ring _ _ _ _ _ _ _ Hset) as Hring.
  refine (ring_steps_lengths uid w coll channels ring rail et Hset ln sum_receives (zip_with f) _ given (w - 1) _ ch i k Hc Hi Hk).
  - intros a b Hab. rewrite length_zip_with. lia.
  - intros ch' i' k'. by apply (length_given w Hw channels ring Hring _ _ n (chunks_layout w channels n)).
Qed.

Lemma copy_phase {A} (G : nat -> RankState * Z -> program Error A) v sts :
  (forall s, (s < w - 1)%nat -> no_messages size (ring_key world ring rail operation 1 s) v) ->
  (forall p, (p < size)%nat -> thread_holds world coll ring lo ln n buffers start inputs (counted (2 ^ 31) (w - 1)) summed 0 p (sts p)) ->
  exists l sts', runs network_step l
      (mkNetwork (map (fun p => Processes.loop (copy_body p) (sts p) (seq 0 (w - 1)) ≫= G p) (seq 0 size)) v)
      (mkNetwork (map (fun p => G p (sts' p)) (seq 0 size)) v) /\
    forall p, (p < size)%nat -> thread_holds world coll ring lo ln n buffers start inputs (counted (2 ^ 31) (w - 1))
      (fun ch => ring_steps w (fun _ incoming => incoming) copy_receives (summed ch) (w - 1)) (w - 1) p (sts' p).
Proof using Hno Hset Hbuf Hx Hchunks L.
  intros Hnone Hsts. pose proof (setting_world _ _ _ _ _ _ _ Hset) as Hw. pose proof (setting_ring _ _ _ _ _ _ _ Hset) as Hring.
  pose proof (chunks_layout w channels n) as Hlay. pose proof (setting_world_bound _ _ _ _ _ _ _ Hset) as Hwb.
  apply (phase_runs uid w error_text Hno coll channels ring rail et Hset operation 1 lo ln n (lo_fit w Hw channels ring Hring _ _ n Hlay)
    (lo_disjoint w Hw channels ring Hring _ _ n Hlay) chunks_at copy_sends copy_receives) with (absorb := copy_absorb); try done.
  - intros s i Hs Hi. split; [by apply send_copy|]. apply Nat.mod_upper_bound. lia.
  - intros p s st. apply copy_body_eq.
  - intros p s cnt st y v' Hp Hs k Hy Hv Hcnt. destruct (thread_bounds w Hw channels p Hp) as (Hch & Hr & _).
    assert (Hk : (k < w)%nat) by (apply Nat.mod_upper_bound; lia). assert (Hsk : (copy_sends s (place p) < w)%nat) by (apply Nat.mod_upper_bound; lia).
    pose proof (lo_fit w Hw channels ring Hring _ _ n Hlay (chan p) k Hch Hk) as Hfit.
    unfold copy_absorb. fold k. apply absorb_copy_ok; try done; rewrite ?Hv; try lia.
    + by rewrite Hbuf.
    + by apply chunks_at.
    + by apply chunks_at.
  - intros ch i k. apply length_summed.
Qed.

(** The chunk at position [k] of channel [ch] after the all-reduce, on every rank. *)
Abbreviation reduced ch k := (gathered w (zip_with f) 0 (given ch) k (w - 1)).

Lemma copied_reduced ch i k : (ch < channels)%nat -> (i < w)%nat -> (k < w)%nat ->
  ring_steps w (fun _ incoming => incoming) copy_receives (summed ch) (w - 1) i k = reduced ch k.
Proof using Hset.
  intros Hc Hi Hk. pose proof (setting_world _ _ _ _ _ _ _ Hset) as Hw.
  rewrite (ring_copied w Hw (w - 1) copy_receives _ i k) by (lia || by apply follows_copy).
  assert (Hlt : ((k + (w - 1)) mod w < w)%nat) by (apply Nat.mod_upper_bound; lia).
  apply (ring_reduced w Hw (zip_with f) 0 sum_receives); [lia|by apply follows_gather|done|done|].
  rewrite age_eq, mod_once by lia. cbv zeta.
  repeat match goal with |- context [(?a <? ?b)%nat] => destruct (Nat.ltb_spec a b) end; lia.
Qed.

(** The threads of all ranks. *)
Definition all_reduce_thread (p : nat) : program Error (RankState * (Z * Z)) :=
  all_reduce_ring_channel uid w error_text channel_of_tag (coll (rank_of p)) (buf (rank_of p)) (channel_range (chan p)) operation (chan p)
    (function (rank_of p)) (start p).

Lemma all_reduce_threads_run v :
  (forall s, (s < w - 1)%nat -> no_messages size (ring_key world ring rail operation 0 s) v /\ no_messages size (ring_key world ring rail operation 1 s) v) ->
  exists l res, runs network_step l (mkNetwork (map all_reduce_thread (seq 0 size)) v) (mkNetwork (map (fun p => Return (Ok (res p))) (seq 0 size)) v) /\
    forall p, (p < size)%nat ->
      (exists y, holds (memory (res p).1) (execution (coll (rank_of p))) (buf (rank_of p)) y /\
        arranged w (lo (chan p)) (ln (chan p)) n (x (rank_of p)) (fun k => reduced (chan p) k) y) /\
      keeps_but (cell (buf (rank_of p))) (memory (start p)) (memory (res p).1) /\
      0 <= (res p).2.1 <= Z.of_nat (2 * (w - 1)) * 2 ^ 31 /\ 0 <= (res p).2.2 <= Z.of_nat (w - 1).
Proof using All.
  intros Hnone. pose proof (setting_world _ _ _ _ _ _ _ Hset) as Hw.
  destruct (sum_phase (fun p r1 => Processes.loop (copy_body p) (r1.1, r1.2.1) (seq 0 (w - 1)) ≫= (fun r2 => Return (Ok (r2.1, (r2.2, r1.2.2))))) v)
    as (l1 & sts & Hl1 & Hsum); [intros s Hs; by apply Hnone|].
  destruct (copy_phase (fun p r2 => Return (Ok (r2.1, (r2.2, (sts p).2.2)))) v (fun p => ((sts p).1, (sts p).2.1))) as (l2 & sts' & Hl2 & Hcopy);
    [intros s Hs; by apply Hnone| |].
  { intros p Hp. destruct (Hsum p Hp) as [Hy Hk [Hb _]]. split; [exact Hy|exact Hk|]. cbn [fst snd]. unfold counted in *. lia. }
  assert (Hthreads : forall p, List.In p (seq 0 size) -> all_reduce_thread p = Processes.loop (sum_body p) (start p, (0, 0)) (seq 0 (w - 1)) ≫= (fun r1 =>
    Processes.loop (copy_body p) (r1.1, r1.2.1) (seq 0 (w - 1)) ≫= (fun r2 => Return (Ok (r2.1, (r2.2, r1.2.2)))))).
  { intros p Hp%in_seq. exact (all_reduce_thread_eq p (start p) ltac:(lia)). }
  exists (l1 ++ l2), (fun p => ((sts' p).1, ((sts' p).2, (sts p).2.2))). split.
  - eapply runs_app; [|exact Hl2]. rewrite (map_ext_in all_reduce_thread _ (seq 0 size) Hthreads). exact Hl1.
  - intros p Hp. destruct (thread_bounds w Hw channels p Hp) as (Hch & Hr & _). destruct (Hsum p Hp) as [_ _ [_ Hl]]. destruct (Hcopy p Hp) as [(y & Hy & Harr) Hk Hb]. cbn [fst snd].
    unfold counted in Hl, Hb. split; [|split; [exact Hk|split; [replace (2 * (w - 1))%nat with (w - 1 + (w - 1))%nat by lia; exact Hb|lia]]].
    exists y. split; [done|]. eapply arranged_ext; [|exact Harr]. intros k Hkw. cbn beta. apply copied_reduced; [done| |done].
    by apply (place_lt w Hw channels ring (setting_ring _ _ _ _ _ _ _ Hset)).
Qed.

(** Outside its channel a thread leaves the buffer alone. *)
Lemma outside_channel p i : (p < size)%nat -> ~ (channel_start channels n (chan p) <= i < channel_start channels n (S (chan p)))%nat ->
  forall k, (k < w)%nat -> ~ (lo (chan p) k <= i < lo (chan p) k + ln (chan p) k)%nat.
Proof using Hset.
  intros Hp Hi k Hk Hin. destruct (thread_bounds w (setting_world _ _ _ _ _ _ _ Hset) channels p Hp) as (Hch & _ & _).
  pose proof (rank_at_lt w (setting_world _ _ _ _ _ _ _ Hset) channels ring (setting_ring _ _ _ _ _ _ _ Hset) (chan p) k Hch) as Hj.
  pose proof (chunk_in_channel w channels n (chan p) _ Hch Hj). unfold lo, ln in Hin. lia.
Qed.

Lemma position_of_chunk ch i : (ch < channels)%nat -> (channel_start channels n ch <= i < channel_start channels n (S ch))%nat ->
  exists k, (k < w)%nat /\ (lo ch k <= i < lo ch k + ln ch k)%nat.
Proof using Hset.
  intros Hc Hi. pose proof (setting_world _ _ _ _ _ _ _ Hset) as Hw. destruct (chunk_of w channels n ch i Hw Hi) as (j & Hj & Hb).
  destruct (position_found w Hw channels ring (setting_ring _ _ _ _ _ _ _ Hset) ch j Hc Hj) as (Hp & Heq & _).
  exists (position_in ring ch j). split; [done|]. unfold lo, ln. by rewrite Heq.
Qed.

(** The elements that all ranks agree on. *)
Lemma reduced_elements : (0 < channels)%nat -> exists result, length result = n /\ reduces f x w result /\
  forall ch k i, (ch < channels)%nat -> (k < w)%nat -> (i < ln ch k)%nat -> reduced ch k !! i = result !! (lo ch k + i)%nat.
Proof using Hset Hx f.
  intros Hc0. pose proof (setting_world _ _ _ _ _ _ _ Hset) as Hw. pose proof (setting_ring _ _ _ _ _ _ _ Hset) as Hring. pose proof (chunks_layout w channels n) as Hlay.
  apply (assembled_reduction w Hw channels ring Hring _ _ n Hlay x Hx f 0); [lia| |].
  - intros i Hi. destruct (channel_of channels n i Hc0 Hi) as (ch & Hc & Hb). destruct (position_of_chunk ch i Hc Hb) as (k & Hk & Hin). by exists ch, k.
  - intros ch ch' j j' i Hc Hc' Hj Hj' Hi Hi'. pose proof (chunk_in_channel w channels n ch j Hc Hj). pose proof (chunk_in_channel w channels n ch' j' Hc' Hj').
    apply (same_channel channels n ch ch' i); lia.
Qed.

(** Every rank's buffer, put together from the channels of its threads, is the reduction. *)
Lemma all_reduce_threads_reduce v : (0 < channels)%nat ->
  (forall s, (s < w - 1)%nat -> no_messages size (ring_key world ring rail operation 0 s) v /\ no_messages size (ring_key world ring rail operation 1 s) v) ->
  exists l res result, runs network_step l (mkNetwork (map all_reduce_thread (seq 0 size)) v) (mkNetwork (map (fun p => Return (Ok (res p))) (seq 0 size)) v) /\
    length result = n /\ reduces f x w result /\
    forall p, (p < size)%nat ->
      (exists y, holds (memory (res p).1) (execution (coll (rank_of p))) (buf (rank_of p)) y /\ forall i,
        y !! i = if decide (channel_start channels n (chan p) <= i < channel_start channels n (S (chan p)))%nat then result !! i else x (rank_of p) !! i) /\
      keeps_but (cell (buf (rank_of p))) (memory (start p)) (memory (res p).1) /\
      0 <= (res p).2.1 <= Z.of_nat (2 * (w - 1)) * 2 ^ 31 /\ 0 <= (res p).2.2 <= Z.of_nat (w - 1).
Proof using All.
  intros Hc0 Hnone. destruct (all_reduce_threads_run v Hnone) as (l & res & Hl & Hres). destruct (reduced_elements Hc0) as (result & Hlen & Hred & Heq).
  exists l, res, result. split; [done|]. split; [done|]. split; [done|]. intros p Hp. destruct (Hres p Hp) as [(y & Hy & Harr) Hrest]. split; [|done].
  exists y. split; [done|]. intros i. destruct (thread_bounds w (setting_world _ _ _ _ _ _ _ Hset) channels p Hp) as (Hch & _ & _). case_decide as Hi.
  - destruct (position_of_chunk (chan p) i Hch Hi) as (k & Hk & Hin). replace i with (lo (chan p) k + (i - lo (chan p) k))%nat by lia.
    rewrite (arranged_lookup w _ _ n _ _ _ k (i - lo (chan p) k) Harr Hk) by lia. apply Heq; [done|done|lia].
  - apply (arranged_else _ _ _ _ _ _ _ Harr). by apply outside_channel.
Qed.
End all_reduce.
