(* ===== verification/RingShards.v ===== *)
(** * The threads of the reduce-scatter and of the all-gather over a ring

    Both work on a buffer with one shard per rank: the reduce-scatter combines
    on the way and keeps the rank's own shard, the all-gather copies. *)
From S2P Require Import Prelude Protocol Agreement Errors Layout Tags Payload Router Operation Comp Device Processes.
From S2P Require Import Topology Tuning Ring Session SessionRounds RankDevice DeviceCollective DeviceRing RingCollectives.

Section shards.
Context `{Crc32Hash} (uid : list Z) (world : nat) (error_text : NetworkError -> list Z).
#[local] Existing Instance collective_mail.
#[local] Instance shards_mail : Mail := collective_mail uid world error_text channel_of_tag.
#[local] Instance shards_mail_laws : MailLaws shards_mail := collective_mail_laws uid world error_text channel_of_tag.
Context {T : Type} {D : RankDevice T} {V : RankView T} {L : RankLaws T} {DE : DeviceErrors Error} (Hno : forall e, ~ device_error e).
Context (coll : nat -> DeviceCollective) (channels : nat) (ring : nat -> list nat) (rail : nat -> nat) (et : ElementType).
Context (Hset : ring_setting uid world coll channels ring rail et).
Abbreviation w := world.
Abbreviation size := (channels * world)%nat.
Abbreviation chan := (chan world).
Abbreviation rank_of := (rank_of world).
Abbreviation place := (place world ring).

(** Shards of [m] elements; the channels split every shard. *)
Context (m : nat) (Hm : fits_usize (w * m)).
Abbreviation channel_start := (channel_start channels m).
Abbreviation channel_length := (channel_length channels m).
Abbreviation channel_range := (channel_range channels m).
Definition shard_start (ch j : nat) : nat := (j * m + channel_start ch)%nat.
Definition shard_length (ch _ : nat) : nat := channel_length ch.

Lemma shard_end ch j : (ch < channels)%nat -> (shard_start ch j + channel_length ch = j * m + channel_start (S ch))%nat.
Proof using Type. intros Hc. unfold shard_start, channel_length. pose proof (channel_bounds channels m ch Hc). lia. Qed.

Lemma shard_in ch j : (ch < channels)%nat -> (j * m <= shard_start ch j /\ shard_start ch j + channel_length ch <= (j + 1) * m)%nat.
Proof using Type. intros Hc. rewrite shard_end by done. pose proof (channel_bounds channels m ch Hc). unfold shard_start. lia. Qed.

Lemma shard_bound j : (j < w)%nat -> ((j + 1) * m <= w * m)%nat.
Proof using Type. intros Hj. apply Nat.mul_le_mono_r. lia. Qed.

Lemma shards_layout : layout w channels shard_start shard_length (w * m).
Proof using Type.
  split.
  - intros ch j Hc Hj. pose proof (shard_in ch j Hc). pose proof (shard_bound j Hj). unfold shard_length. lia.
  - intros ch j k Hc Hj Hk Hne. unfold shard_length. pose proof (shard_in ch j Hc). pose proof (shard_in ch k Hc).
    destruct (decide (j < k)%nat); [left; assert ((j + 1) * m <= k * m)%nat by (apply Nat.mul_le_mono_r; lia)|right; assert ((k + 1) * m <= j * m)%nat by (apply Nat.mul_le_mono_r; lia)]; lia.
Qed.

Abbreviation lo := (lo w ring shard_start).
Abbreviation ln := (ln w ring shard_length).

Lemma shard_in_input ch j : (ch < channels)%nat -> (j < w)%nat -> fits_usize (j * m) /\ fits_usize (shard_start ch j) /\ fits_usize (j * m + channel_start (S ch)).
Proof using Hm.
  intros Hc Hj. pose proof (shard_in ch j Hc) as [Hlo Hhi]. pose proof (shard_bound j Hj). rewrite (shard_end ch j Hc) in Hhi.
  pose proof (channel_bounds channels m ch Hc). unfold shard_start in *. split; [|split]; (eapply fits_usize_le; [|exact Hm]); lia.
Qed.

Definition shard_ranges (ch : nat) : list (nat * nat) := map (fun j => (shard_start ch j, shard_start ch j + channel_length ch)%nat) (seq 0 w).

Lemma shard_ranges_eq ch : (ch < channels)%nat ->
  mapM (fun r => rank_start ← mul_usize r m;
                 start ← add_usize rank_start (channel_range ch).1;
                 stop ← add_usize rank_start (channel_range ch).2;
                 Ok (start, stop)) (seq 0 w) = Ok (E:=Error) (shard_ranges ch).
Proof using Hm.
  intros Hc. unfold shard_ranges. assert (Hall : forall r, r ∈ seq 0 w -> (r < w)%nat) by (intros r Hr%elem_of_seq; lia).
  induction (seq 0 w) as [|r l IH]; [done|]. cbn [mapM map]. pose proof (Hall r ltac:(by left)) as Hr.
  destruct (shard_in_input ch r Hc Hr) as (H1 & H2 & H3). rewrite mul_usize_ok by done. cbn [mbind outcome_bind].
  unfold channel_range. cbn [fst snd]. rewrite !add_usize_ok by done. cbn [mbind outcome_bind].
  unfold channel_range in IH. cbn [fst snd] in IH. rewrite IH by (intros; apply Hall; by right). cbn. by rewrite (shard_end ch r Hc).
Qed.

Lemma shard_ranges_index ch j : (j < w)%nat -> index (E:=Error) (shard_ranges ch) j = Ok (shard_start ch j, shard_start ch j + channel_length ch)%nat.
Proof using Type. intros Hj. unfold index, shard_ranges. rewrite list_lookup_fmap, lookup_seq_lt by done. done. Qed.

Lemma shards_cover : (0 < channels)%nat -> covering w channels ring shard_start shard_length (w * m).
Proof using Hset.
  intros Hc0 i Hi. pose proof (setting_world _ _ _ _ _ _ _ Hset) as Hw. assert (Hm0 : (0 < m)%nat) by nia.
  pose proof (Nat.div_mod_eq i m) as Hdiv. pose proof (Nat.mod_upper_bound i m ltac:(lia)) as Hmod.
  assert (Hj : (i / m < w)%nat) by (apply Nat.Div0.div_lt_upper_bound; lia).
  destruct (channel_of channels m (i mod m) Hc0 Hmod) as (ch & Hc & Hb). exists ch, (position_in ring ch (i / m)).
  destruct (position_found w Hw channels ring (setting_ring _ _ _ _ _ _ _ Hset) ch (i / m) Hc Hj) as (Hp & Heq & _).
  split; [done|]. split; [done|]. unfold lo, ln, shard_length. rewrite Heq, shard_end by done. unfold shard_start. lia.
Qed.

Lemma shards_separate : separate w channels shard_start shard_length.
Proof using Type.
  intros ch ch' j j' i Hc Hc' Hj Hj' Hi Hi'. unfold shard_length in *. rewrite shard_end in Hi, Hi' by done. unfold shard_start in *.
  pose proof (channel_bounds channels m ch Hc). pose proof (channel_bounds channels m ch' Hc').
  assert (j = j') as <-.
  { destruct (decide (j < j')%nat); [assert ((j + 1) * m <= j' * m)%nat by (apply Nat.mul_le_mono_r; lia); lia|].
    destruct (decide (j' < j)%nat); [assert ((j' + 1) * m <= j * m)%nat by (apply Nat.mul_le_mono_r; lia); lia|]. lia. }
  apply (same_channel channels m ch ch' (i - j * m)); lia.
Qed.

(** ** Reduce-scatter *)
Context (operation : Z).
Context (Hchunks : forall ch, (ch < channels)%nat -> chunk_fits (T:=T) (channel_length ch)).
Context (start : nat -> RankState (T:=T)).

Section reduce_scatter.
Context (working output : nat -> Buffer) (function : nat -> Kernel).
Context (Hworking : forall r, (r < w)%nat -> buffer_len (working r) = (w * m)%nat).

Definition scatter_body (p : nat) (st : RankState (T:=T) * (Z * Z)) (s : nat) : program Error (RankState * (Z * Z)) :=
  scatter_step uid w error_text channel_of_tag (coll (rank_of p)) (working (rank_of p)) (ring (chan p)) (shard_ranges (chan p)) operation (chan p)
    (function (rank_of p)) (place p) (next_rank w ring p) (previous_rank w ring p) st.2 s st.1.

Definition reduce_scatter_thread (p : nat) : program Error (RankState * (Z * Z)) :=
  reduce_scatter_ring_channel uid w error_text channel_of_tag (coll (rank_of p)) (working (rank_of p)) (output (rank_of p)) m
    (channel_range (chan p)) operation (chan p) (function (rank_of p)) (start p).

(** What a thread does with its shard at the end. *)
Definition keep_shard (p : nat) (r : RankState (T:=T) * (Z * Z)) : program Error (RankState * (Z * Z)) :=
  (own ← just uid w error_text channel_of_tag (start ← mul_usize (rank (session (coll (rank_of p)))) m; add_usize start (channel_range (chan p)).1);
   output_values ← on_device uid w error_text channel_of_tag (copy_bytes_from_device_at (execution (coll (rank_of p))) (working (rank_of p)) own (range_len (channel_range (chan p))));
   _ ← on_device uid w error_text channel_of_tag (copy_bytes_to_device_at (execution (coll (rank_of p))) (output (rank_of p)) (channel_range (chan p)).1 output_values);
   mret r.2) r.1.

Lemma reduce_scatter_thread_eq p : (p < size)%nat ->
  reduce_scatter_thread p = Processes.loop (scatter_body p) (start p, (0, 0)) (seq 0 (w - 1)) ≫= keep_shard p.
Proof using Hset Hm.
  intros Hp. pose proof (setting_world _ _ _ _ _ _ _ Hset) as Hw. destruct (thread_bounds w Hw channels p Hp) as (Hch & Hr & _).
  destruct (setting_rank _ _ _ _ _ _ _ Hset _ Hr) as [[_ _ Hsw] _]. destruct (setting_order _ _ _ _ _ _ _ Hset _ _ Hr Hch) as (Hord & _).
  unfold reduce_scatter_thread, reduce_scatter_ring_channel. rewrite Hsw, (shard_ranges_eq (chan p) Hch).
  unfold keep_shard, mbind, rank_mbind, just. rewrite Hord.
  cbn [lift mbind program_mbind program_bind mret program_mret fst snd].
  rewrite (ring_position_ok uid w coll channels ring rail et Hset) by done. cbn [lift mbind program_mbind program_bind mret program_mret fst snd].
  fold (place p). pose proof (ring_at_ok uid w coll channels ring rail et Hset) as Hat. rewrite !Hat by done. cbn [lift mbind program_mbind program_bind mret program_mret fst snd].
  rewrite sub_usize_ok by lia. cbn [lift mbind program_mbind program_bind mret program_mret fst snd]. reflexivity.
Qed.

Definition scatter_sends (s i : nat) : nat := ((i + w - 1 - s) mod w)%nat.
Definition scatter_receives (s i : nat) : nat := ((i + 2 * w - 2 - s) mod w)%nat.

Lemma scatter_receives_eq s i : (s < w - 1)%nat -> scatter_receives s i = ((i + w - s - 2) mod w)%nat.
Proof using Type.
  clear. intros Hs. unfold scatter_receives. replace (i + 2 * w - 2 - s)%nat with (i + w - s - 2 + 1 * w)%nat by lia. apply Nat.Div0.mod_add.
Qed.

Lemma follows_scatter : follows w 1 scatter_receives.
Proof using Hset.
  intros s r c Hs Hr Hc. rewrite scatter_receives_eq by done. by apply follows_reduce; [apply (setting_world _ _ _ _ _ _ _ Hset)|..].
Qed.

Definition scatter_absorb (p s : nat) (counters : Z * Z) (received : list Z) : RankState (T:=T) -> program Error (RankState * (Z * Z)) :=
  absorb_sum uid w error_text (coll (rank_of p)) (working (rank_of p)) "ring reduce-scatter transferred bytes" "ring reduce-scatter kernel launches"
    (function (rank_of p)) (lo (chan p) (scatter_receives s (place p))) (channel_length (chan p)) (channel_length (chan p)) counters received.

Lemma scatter_body_eq p s st : (p < size)%nat -> (s < w - 1)%nat ->
  scatter_body p st s = exchange_ring_chunk_bytes uid w error_text channel_of_tag (coll (rank_of p)) (working (rank_of p))
      (lo (chan p) (scatter_sends s (place p)), lo (chan p) (scatter_sends s (place p)) + ln (chan p) (scatter_sends s (place p)))%nat
      (ln (chan p) (scatter_receives s (place p))) (next_rank w ring p) (previous_rank w ring p) (chan p) (ring_tag world operation 0 p s) st.1
    ≫= (fun r => scatter_absorb p s st.2 r.2 r.1).
Proof using Hset.
  intros Hp Hs. pose proof (setting_world _ _ _ _ _ _ _ Hset) as Hw. destruct (thread_bounds w Hw channels p Hp) as (Hch & Hr & _).
  destruct (setting_rank _ _ _ _ _ _ _ Hset _ Hr) as [[_ _ Hsw] _]. pose proof (rank_at_lt w Hw channels ring (setting_ring _ _ _ _ _ _ _ Hset) (chan p)) as Hlt.
  unfold scatter_body, scatter_step, scatter_absorb, mbind, rank_mbind, just. rewrite Hsw, !(ring_at_ok uid w coll channels ring rail et Hset) by done.
  cbn [lift mbind program_mbind program_bind mret program_mret fst snd]. rewrite !shard_ranges_index by by apply Hlt.
  cbn [lift mbind program_mbind program_bind mret program_mret fst snd]. rewrite !range_len_add.
  unfold lo, ln, shard_length, scatter_sends, scatter_receives. rewrite !rank_at_mod. reflexivity.
Qed.

Context (x : nat -> list T) (Hx : forall r, (r < w)%nat -> length (x r) = (w * m)%nat) (f : T -> T -> T).
Context (Hfunction : forall r, (r < w)%nat -> computes (execution (coll r)) (function r) /\ combine (function r) = f).
Context (Halloc : forall r ch, (r < w)%nat -> (ch < channels)%nat -> allocatable (execution (coll r)) (channel_length ch)).
Context (Hstart : forall p, (p < size)%nat -> holds (memory (start p)) (execution (coll (rank_of p))) (working (rank_of p)) (x (rank_of p))).
Abbreviation given := (given w ring shard_start shard_length x).

Lemma scatter_phase {A} (G : nat -> RankState * (Z * Z) -> program Error A) v :
  (forall s, (s < w - 1)%nat -> no_messages size (ring_key world ring rail operation 0 s) v) ->
  exists l sts, runs network_step l
      (mkNetwork (map (fun p => Processes.loop (scatter_body p) (start p, (0, 0)) (seq 0 (w - 1)) ≫= G p) (seq 0 size)) v)
      (mkNetwork (map (fun p => G p (sts p)) (seq 0 size)) v) /\
    forall p, (p < size)%nat -> thread_holds world coll ring lo ln (w * m) (fun p => working (rank_of p)) start (fun p => x (rank_of p))
      (fun s c => counted (2 ^ 31) 0 s c.1 /\ counted 1 0 s c.2)
      (fun ch => ring_steps w (zip_with f) scatter_receives (given ch) (w - 1)) (w - 1) p (sts p).
Proof using All.
  intros Hnone. pose proof (setting_world _ _ _ _ _ _ _ Hset) as Hw. pose proof (setting_ring _ _ _ _ _ _ _ Hset) as Hring.
  pose proof shards_layout as Hlay. pose proof (setting_world_bound _ _ _ _ _ _ _ Hset) as Hwb.
  apply (phase_runs uid w error_text Hno coll channels ring rail et Hset operation 0 lo ln (w * m) (lo_fit w Hw channels ring Hring _ _ _ Hlay)
    (lo_disjoint w Hw channels ring Hring _ _ _ Hlay) (fun ch k Hc _ => Hchunks ch Hc) scatter_sends scatter_receives) with (absorb := scatter_absorb) (f := given) (sts := fun p => (start p, (0, 0))).
  - intros s i Hs Hi. split; [|apply Nat.mod_upper_bound; lia]. rewrite scatter_receives_eq by done. rewrite <- send_reduce by done. unfold scatter_sends. f_equal. lia.
  - intros a b Hab. rewrite length_zip_with. lia.
  - intros p s st. apply scatter_body_eq.
  - intros p s cnt st y v' Hp Hs k Hy Hv Hcnt. destruct (thread_bounds w Hw channels p Hp) as (Hch & Hr & _).
    assert (Hk : (k < w)%nat) by (apply Nat.mod_upper_bound; lia).
    destruct (Hfunction _ Hr) as [Hcomp <-]. pose proof (lo_fit w Hw channels ring Hring _ _ _ Hlay (chan p) k Hch Hk) as Hfit.
    unfold ln, shard_length in Hv, Hfit |- *. unfold scatter_absorb. fold k. rewrite <- Hv. apply absorb_sum_ok; try done; rewrite ?Hv; try lia; [by apply Halloc|by rewrite Hworking|by apply Hchunks..].
  - intros ch i k. by apply (length_given w Hw channels ring Hring _ _ _ Hlay).
  - exact Hnone.
  - intros p Hp. destruct (thread_bounds w Hw channels p Hp) as (Hch & Hr & _). split; cbn [fst snd].
    + exists (x (rank_of p)). split; [by apply Hstart|]. eapply arranged_ext; [|apply arranged_start; by apply Hx].
      intros k Hk. unfold given. by rewrite (rank_at_place w Hw channels ring Hring).
    + by intros k l _.
    + unfold counted. lia.
Qed.

Context (y : nat -> list T).
Context (Houtput : forall p, (p < size)%nat -> holds (memory (start p)) (execution (coll (rank_of p))) (output (rank_of p)) (y (rank_of p)) /\
  cell (output (rank_of p)) <> cell (working (rank_of p))).
Context (Hlen : forall r, (r < w)%nat -> buffer_len (output r) = m).

(** A thread ends with its channel of the reduced shard in the output. *)
Lemma keep_shard_ok p st : (p < size)%nat ->
  thread_holds world coll ring lo ln (w * m) (fun p => working (rank_of p)) start (fun p => x (rank_of p))
    (fun s c => counted (2 ^ 31) 0 s c.1 /\ counted 1 0 s c.2)
    (fun ch => ring_steps w (zip_with f) scatter_receives (given ch) (w - 1)) (w - 1) p st ->
  exists mem, keep_shard p st = Return (Ok (mkState mem (sequence_number st.1) (internal_sequence st.1), st.2)) /\
    holds mem (execution (coll (rank_of p))) (output (rank_of p)) (put (channel_start (chan p)) (gathered w (zip_with f) 1 (given (chan p)) (place p) (w - 1)) (y (rank_of p))).
Proof using All.
  intros Hp [(z & Hz & Harr) Hkeep _]. pose proof (setting_world _ _ _ _ _ _ _ Hset) as Hw. pose proof (setting_ring _ _ _ _ _ _ _ Hset) as Hring.
  destruct (thread_bounds w Hw channels p Hp) as (Hch & Hr & _). pose proof (place_lt w Hw channels ring Hring p Hp) as Hpl.
  destruct (setting_rank _ _ _ _ _ _ _ Hset _ Hr) as [[_ Hrk _] _]. destruct (Houtput p Hp) as [[Hu Hview Hyl] Hcell].
  pose proof (channel_bounds channels m (chan p) Hch) as Hcb. pose proof (shard_in (chan p) (rank_of p) Hch) as Hsi. pose proof (shard_bound (rank_of p) Hr) as Hsb.
  assert (Hplace : lo (chan p) (place p) = shard_start (chan p) (rank_of p)) by (unfold lo; by rewrite (rank_at_place w Hw channels ring Hring)).
  pose proof (arranged_chunk _ _ _ _ _ _ _ Harr (place p) Hpl) as Hchunk. rewrite Hplace in Hchunk.
  rewrite (ring_reduced w Hw (zip_with f) 1 scatter_receives) in Hchunk by first [done | lia | apply follows_scatter | by apply age_own].
  set (v := gathered _ _ _ _ _ _) in *. assert (Hv : length v = channel_length (chan p)).
  { rewrite <- Hchunk. unfold ln, shard_length. apply length_sub. pose proof (arranged_length _ _ _ _ _ _ _ Harr). lia. }
  destruct (copy_bytes_from_ok (coll (rank_of p)) Hno (working (rank_of p)) z (memory st.1) (shard_start (chan p) (rank_of p)) (channel_length (chan p)) Hz) as (m1 & Hm1 & Hun);
    [rewrite Hworking by done; lia|].
  unfold ln, shard_length in Hchunk. rewrite Hchunk in Hm1.
  assert (Ho : holds m1 (execution (coll (rank_of p))) (output (rank_of p)) (y (rank_of p))).
  { split; [done| |done]. rewrite (Hun _). by apply Hkeep. }
  destruct (copy_bytes_to_ok (coll (rank_of p)) Hno (output (rank_of p)) (y (rank_of p)) m1 (channel_start (chan p)) v Ho) as (m2 & Hm2 & Hy2 & _);
    [rewrite Hlen, Hv by done; unfold channel_length; lia|].
  exists m2. split; [|done]. destruct (shard_in_input (chan p) (rank_of p) Hch Hr) as (Hf1 & Hf2 & _).
  unfold keep_shard, mbind, rank_mbind, just. rewrite Hrk, mul_usize_ok by done. cbn [outcome_bind]. unfold channel_range. cbn [fst snd]. rewrite add_usize_ok by done.
  cbn [lift mbind program_mbind program_bind mret program_mret fst snd].
  match goal with |- context [on_device _ _ _ _ ?m st.1] => rewrite (on_device_ok uid w error_text m st.1 _ _ (Hm1 : m (memory st.1) = _)) end.
  cbn [mbind program_mbind program_bind fst snd]. rewrite (on_device_ok uid w error_text _ (mkState m1 _ _) _ _ Hm2). reflexivity.
Qed.

Lemma reduce_scatter_threads_run v :
  (forall s, (s < w - 1)%nat -> no_messages size (ring_key world ring rail operation 0 s) v) ->
  exists l res, runs network_step l (mkNetwork (map reduce_scatter_thread (seq 0 size)) v) (mkNetwork (map (fun p => Return (Ok (res p))) (seq 0 size)) v) /\
    forall p, (p < size)%nat ->
      holds (memory (res p).1) (execution (coll (rank_of p))) (output (rank_of p))
        (put (channel_start (chan p)) (gathered w (zip_with f) 1 (given (chan p)) (place p) (w - 1)) (y (rank_of p))) /\
      0 <= (res p).2.1 <= Z.of_nat (w - 1) * 2 ^ 31 /\ 0 <= (res p).2.2 <= Z.of_nat (w - 1).
Proof using All.
  intros Hnone. destruct (scatter_phase keep_shard v Hnone) as (l & sts & Hl & Hend).
  destruct (finite_choice (start 0%nat, (0, 0)) (fun p (r : RankState * (Z * Z)) => keep_shard p (sts p) = Return (Ok r) /\ r.2 = (sts p).2 /\
    holds (memory r.1) (execution (coll (rank_of p))) (output (rank_of p))
      (put (channel_start (chan p)) (gathered w (zip_with f) 1 (given (chan p)) (place p) (w - 1)) (y (rank_of p)))) size) as [res Hres].
  { intros p Hp. destruct (keep_shard_ok p (sts p) Hp (Hend p Hp)) as (mem & Hk & Hh). eexists. split; [exact Hk|]. done. }
  exists l, res. split.
  - rewrite (map_ext_in reduce_scatter_thread (fun p => Processes.loop (scatter_body p) (start p, (0, 0)) (seq 0 (w - 1)) ≫= keep_shard p)) by (intros p Hp%in_seq; apply reduce_scatter_thread_eq; lia).
    rewrite (map_ext_in (fun p => Return (Ok (res p))) (fun p => keep_shard p (sts p))) by (intros p Hp%in_seq; symmetry; apply Hres; lia). exact Hl.
  - intros p Hp. destruct (Hres p Hp) as (_ & -> & Hh). split; [done|]. destruct (Hend p Hp) as [_ _ [Hb1 Hb2]]. unfold counted in Hb1, Hb2. rewrite Nat.add_0_l in Hb1, Hb2. lia.
Qed.

(** Every rank's output, put together from the channels of its threads, is its
    shard of the reduction. *)
Lemma reduce_scatter_threads_shard v : (0 < channels)%nat -> (forall r, (r < w)%nat -> length (y r) = m) ->
  (forall s, (s < w - 1)%nat -> no_messages size (ring_key world ring rail operation 0 s) v) ->
  exists l res result, runs network_step l (mkNetwork (map reduce_scatter_thread (seq 0 size)) v) (mkNetwork (map (fun p => Return (Ok (res p))) (seq 0 size)) v) /\
    length result = (w * m)%nat /\ reduces f x w result /\
    forall p, (p < size)%nat ->
      (exists z, holds (memory (res p).1) (execution (coll (rank_of p))) (output (rank_of p)) z /\ forall i,
        z !! i = if decide (channel_start (chan p) <= i < channel_start (S (chan p)))%nat then result !! (rank_of p * m + i)%nat else y (rank_of p) !! i) /\
      0 <= (res p).2.1 <= Z.of_nat (w - 1) * 2 ^ 31 /\ 0 <= (res p).2.2 <= Z.of_nat (w - 1).
Proof using All.
  intros Hc0 Hy Hnone. pose proof (setting_world _ _ _ _ _ _ _ Hset) as Hw. pose proof (setting_ring _ _ _ _ _ _ _ Hset) as Hring.
  destruct (reduce_scatter_threads_run v Hnone) as (l & res & Hl & Hres).
  destruct (assembled_reduction w Hw channels ring Hring _ _ _ shards_layout x Hx f 1 ltac:(lia) (shards_cover Hc0) shards_separate) as (result & Hlr & Hred & Heq).
  exists l, res, result. split; [done|]. split; [done|]. split; [done|]. intros p Hp. destruct (Hres p Hp) as [Hz Hb]. split; [|done].
  destruct (thread_bounds w Hw channels p Hp) as (Hch & Hr & _). pose proof (place_lt w Hw channels ring Hring p Hp) as Hpl.
  pose proof (channel_bounds channels m (chan p) Hch) as Hcb.
  pose proof (proj1 (gathered_reduces w Hw channels ring Hring _ _ _ shards_layout x Hx f 1 (chan p) (place p) Hch Hpl ltac:(lia))) as Hlen'.
  eexists. split; [exact Hz|]. intros i.
  assert (Hll : length (gathered w (zip_with f) 1 (given (chan p)) (place p) (w - 1)) = (channel_start (S (chan p)) - channel_start (chan p))%nat) by exact Hlen'.
  rewrite lookup_put by (rewrite Hll, Hy by done; lia). rewrite Hll.
  destruct (decide (channel_start (chan p) <= i < channel_start (S (chan p)))%nat) as [Hi|Hi].
  - rewrite decide_True by lia. rewrite Heq; [|done|done|unfold ln, shard_length, channel_length; lia].
    f_equal. unfold lo. rewrite (rank_at_place w Hw channels ring Hring) by done. unfold shard_start. lia.
  - by rewrite decide_False by lia.
Qed.
End reduce_scatter.

(** ** All-gather *)
Section all_gather.
Context (output : nat -> Buffer) (Houtput : forall r, (r < w)%nat -> buffer_len (output r) = (w * m)%nat).

Definition gather_body (p : nat) (st : RankState (T:=T) * Z) (s : nat) : program Error (RankState * Z) :=
  gather_step uid w error_text channel_of_tag (coll (rank_of p)) (output (rank_of p)) (ring (chan p)) m (channel_range (chan p)) operation (chan p)
    (place p) (next_rank w ring p) (previous_rank w ring p) st.2 s st.1.

Definition all_gather_thread (p : nat) : program Error (RankState * Z) :=
  all_gather_ring_channel uid w error_text channel_of_tag (coll (rank_of p)) (output (rank_of p)) m (channel_range (chan p)) operation (chan p) (start p).

Lemma gather_offset_ok what ch j : (ch < channels)%nat -> (j < w)%nat -> gather_offset what j m (channel_range ch) = Ok (shard_start ch j).
Proof using Hm.
  intros Hc Hj. destruct (shard_in_input ch j Hc Hj) as (H1 & H2 & _). unfold gather_offset, channel_range. cbn [fst snd].
  rewrite checked_mul_usize_Some by done. cbn [mbind option_bind]. rewrite checked_add_usize_Some by done. done.
Qed.

Definition gather_absorb (p s : nat) (counter : Z) (received : list Z) : rank_program (T:=T) uid world error_text channel_of_tag Z :=
  _ ← on_device uid w error_text channel_of_tag (copy_bytes_to_device_at (execution (coll (rank_of p))) (output (rank_of p)) (lo (chan p) (sum_receives w s (place p))) received);
  just uid w error_text channel_of_tag (add_bytes "ring all-gather transferred bytes" counter (saturating_mul usize_bits (Zlen received) 2)).

Lemma gather_body_eq p s st : (p < size)%nat -> (s < w - 1)%nat ->
  gather_body p st s = exchange_ring_chunk_bytes uid w error_text channel_of_tag (coll (rank_of p)) (output (rank_of p))
      (lo (chan p) (sum_sends w s (place p)), lo (chan p) (sum_sends w s (place p)) + ln (chan p) (sum_sends w s (place p)))%nat
      (ln (chan p) (sum_receives w s (place p))) (next_rank w ring p) (previous_rank w ring p) (chan p) (ring_tag world operation 0 p s) st.1
    ≫= (fun r => gather_absorb p s st.2 r.2 r.1).
Proof using Hset Hm.
  intros Hp Hs. pose proof (setting_world _ _ _ _ _ _ _ Hset) as Hw. destruct (thread_bounds w Hw channels p Hp) as (Hch & Hr & _).
  destruct (setting_rank _ _ _ _ _ _ _ Hset _ Hr) as [[_ _ Hsw] _]. pose proof (rank_at_lt w Hw channels ring (setting_ring _ _ _ _ _ _ _ Hset) (chan p)) as Hlt.
  pose proof (channel_bounds channels m (chan p) Hch) as Hcb.
  unfold gather_body, gather_step, gather_absorb, mbind, rank_mbind, just. rewrite Hsw, !(ring_at_ok uid w coll channels ring rail et Hset) by done.
  cbn [lift mbind program_mbind program_bind mret program_mret fst snd]. rewrite !gather_offset_ok by (done || by apply Hlt).
  cbn [lift mbind program_mbind program_bind mret program_mret fst snd].
  assert (Hrl : range_len (channel_range (chan p)) = channel_length (chan p)) by done. rewrite Hrl.
  rewrite add_usize_ok by (rewrite shard_end by done; by apply shard_in_input, Hlt).
  cbn [lift mbind program_mbind program_bind mret program_mret fst snd].
  unfold lo, ln, shard_length, sum_sends, sum_receives. rewrite !rank_at_mod. reflexivity.
Qed.

Lemma all_gather_thread_eq p : (p < size)%nat ->
  all_gather_thread p = Processes.loop (gather_body p) (start p, 0) (seq 0 (w - 1)) ≫= (fun r => Return (Ok (r.1, r.2))).
Proof using Hset.
  intros Hp. pose proof (setting_world _ _ _ _ _ _ _ Hset) as Hw. destruct (thread_bounds w Hw channels p Hp) as (Hch & Hr & _).
  destruct (setting_rank _ _ _ _ _ _ _ Hset _ Hr) as [[_ _ Hsw] _]. destruct (setting_order _ _ _ _ _ _ _ Hset _ _ Hr Hch) as (Hord & _).
  unfold all_gather_thread, all_gather_ring_channel, mbind, rank_mbind, just. rewrite Hord. cbn [lift mbind program_mbind program_bind mret program_mret fst snd].
  rewrite (ring_position_ok uid w coll channels ring rail et Hset) by done. cbn [lift mbind program_mbind program_bind mret program_mret fst snd].
  fold (place p). rewrite Hsw, !(ring_at_ok uid w coll channels ring rail et Hset) by done. cbn [lift mbind program_mbind program_bind mret program_mret fst snd].
  rewrite sub_usize_ok by lia. cbn [lift mbind program_mbind program_bind mret program_mret fst snd]. reflexivity.
Qed.

(** Rank [r] starts with its own shard in place. *)
Context (y : nat -> list T) (Hy : forall r, (r < w)%nat -> length (y r) = (w * m)%nat).
Context (Hstart : forall p, (p < size)%nat -> holds (memory (start p)) (execution (coll (rank_of p))) (output (rank_of p)) (y (rank_of p))).
Abbreviation given := (given w ring shard_start shard_length y).

Lemma gather_absorb_ok p s cnt st z v : (p < size)%nat -> (s < w - 1)%nat -> let k := sum_receives w s (place p) in
  holds (memory st) (execution (coll (rank_of p))) (output (rank_of p)) z -> length v = ln (chan p) k -> counted (2 ^ 31) 0 s cnt ->
  exists st' cnt', gather_absorb p s cnt (encode v) st = Return (Ok (st', cnt')) /\ counted (2 ^ 31) 0 (S s) cnt' /\
    holds (memory st') (execution (coll (rank_of p))) (output (rank_of p)) (put (lo (chan p) k) v z) /\
    keeps_but (cell (output (rank_of p))) (memory st) (memory st').
Proof using Hno Hset Hchunks Houtput L.
  intros Hp Hs k Hz Hv Hcnt. pose proof (setting_world _ _ _ _ _ _ _ Hset) as Hw. pose proof (setting_ring _ _ _ _ _ _ _ Hset) as Hring.
  destruct (thread_bounds w Hw channels p Hp) as (Hch & Hr & _). assert (Hk : (k < w)%nat) by (apply Nat.mod_upper_bound; lia).
  pose proof (lo_fit w Hw channels ring Hring _ _ _ shards_layout (chan p) k Hch Hk) as Hfit. pose proof (setting_world_bound _ _ _ _ _ _ _ Hset) as Hwb.
  destruct (copy_bytes_to_ok (coll (rank_of p)) Hno (output (rank_of p)) z (memory st) (lo (chan p) k) v Hz) as (mem & Hm1 & Hz' & Hk'); [rewrite Houtput, Hv by done; lia|].
  assert (Hbytes : 0 <= saturating_mul usize_bits (Zlen (encode v)) 2 <= 2 ^ 31).
  { pose proof (Hchunks (chan p) Hch) as Hf. unfold chunk_fits in Hf. change MAX_FRAME_PAYLOAD_BYTES with 1073741824 in Hf. unfold ln, shard_length in Hv.
    unfold Zlen, saturating_mul. rewrite (proj1 (law_encode v)), Hv. rewrite saturate_in by (unfold in_width; lia). lia. }
  destruct (add_exchanged_ok "ring all-gather transferred bytes" (2 ^ 31) 0 s cnt _ Hcnt Hbytes ltac:(lia)) as [Hb Hc'].
  unfold gather_absorb, mbind, rank_mbind, just. rewrite (on_device_ok uid w error_text _ _ _ _ Hm1). cbn [mbind program_mbind program_bind fst snd].
  rewrite Hb. do 2 eexists. split; [reflexivity|]. done.
Qed.

Lemma gather_phase {A} (G : nat -> RankState * Z -> program Error A) v :
  (forall s, (s < w - 1)%nat -> no_messages size (ring_key world ring rail operation 0 s) v) ->
  exists l sts, runs network_step l
      (mkNetwork (map (fun p => Processes.loop (gather_body p) (start p, 0) (seq 0 (w - 1)) ≫= G p) (seq 0 size)) v)
      (mkNetwork (map (fun p => G p (sts p)) (seq 0 size)) v) /\
    forall p, (p < size)%nat -> thread_holds world coll ring lo ln (w * m) (fun p => output (rank_of p)) start (fun p => y (rank_of p))
      (counted (2 ^ 31) 0) (fun ch => ring_steps w (fun _ incoming => incoming) (sum_receives w) (given ch) (w - 1)) (w - 1) p (sts p).
Proof using All.
  intros Hnone. pose proof (setting_world _ _ _ _ _ _ _ Hset) as Hw. pose proof (setting_ring _ _ _ _ _ _ _ Hset) as Hring.
  pose proof shards_layout as Hlay.
  apply (phase_runs uid w error_text Hno coll channels ring rail et Hset operation 0 lo ln (w * m) (lo_fit w Hw channels ring Hring _ _ _ Hlay)
    (lo_disjoint w Hw channels ring Hring _ _ _ Hlay) (fun ch k Hc _ => Hchunks ch Hc) (sum_sends w) (sum_receives w)) with (absorb := gather_absorb) (f := given) (sts := fun p => (start p, 0)).
  - intros s i Hs Hi. split; [by apply send_gather|]. apply Nat.mod_upper_bound. lia.
  - done.
  - intros p s st. apply gather_body_eq.
  - intros p s cnt st z v'. apply gather_absorb_ok.
  - intros ch i k. by apply (length_given w Hw channels ring Hring _ _ _ Hlay).
  - exact Hnone.
  - intros p Hp. destruct (thread_bounds w Hw channels p Hp) as (Hch & Hr & _). split; cbn [fst snd].
    + exists (y (rank_of p)). split; [by apply Hstart|]. eapply arranged_ext; [|apply arranged_start; by apply Hy].
      intros k Hk. unfold given. by rewrite (rank_at_place w Hw channels ring Hring).
    + by intros k l _.
    + unfold counted. lia.
Qed.

(** In the channel of a thread, its rank's output is the concatenation of all shards. *)
Lemma all_gather_threads_concatenate (x : nat -> list T) v :
  (forall r, (r < w)%nat -> length (x r) = m /\ sub (r * m) m (y r) = x r) ->
  (forall s, (s < w - 1)%nat -> no_messages size (ring_key world ring rail operation 0 s) v) ->
  exists l res, runs network_step l (mkNetwork (map all_gather_thread (seq 0 size)) v) (mkNetwork (map (fun p => Return (Ok (res p))) (seq 0 size)) v) /\
    forall p, (p < size)%nat ->
      (exists z, holds (memory (res p).1) (execution (coll (rank_of p))) (output (rank_of p)) z /\ forall r i, (r < w)%nat -> (i < m)%nat ->
        z !! (r * m + i)%nat = if decide (channel_start (chan p) <= i < channel_start (S (chan p)))%nat then x r !! i else y (rank_of p) !! (r * m + i)%nat) /\
      0 <= (res p).2 <= Z.of_nat (w - 1) * 2 ^ 31.
Proof using All.
  intros Hx Hnone. pose proof (setting_world _ _ _ _ _ _ _ Hset) as Hw. pose proof (setting_ring _ _ _ _ _ _ _ Hset) as Hring.
  destruct (gather_phase (fun p r => Return (Ok (r.1, r.2))) v Hnone) as (l & sts & Hl & Hend).
  exists l, (fun p => ((sts p).1, (sts p).2)). split.
  - rewrite (map_ext_in all_gather_thread (fun p => Processes.loop (gather_body p) (start p, 0) (seq 0 (w - 1)) ≫= (fun r => Return (Ok (r.1, r.2))))) by (intros p Hp%in_seq; apply all_gather_thread_eq; lia). exact Hl.
  - intros p Hp. destruct (thread_bounds w Hw channels p Hp) as (Hch & Hr & _). pose proof (place_lt w Hw channels ring Hring p Hp) as Hpl. cbn [fst snd].
    destruct (Hend p Hp) as [(z & Hz & Harr) _ Hb]. unfold counted in Hb. rewrite Nat.add_0_l in Hb. split; [|exact Hb]. exists z. split; [done|].
    intros r i Hrw Hi. case_decide as Hin.
    + destruct (position_found w Hw channels ring Hring (chan p) r Hch Hrw) as (Hk & Hat & _). set (k := position_in ring (chan p) r) in *.
      assert (Hlo : lo (chan p) k = shard_start (chan p) r) by (unfold lo; by rewrite Hat).
      replace (r * m + i)%nat with (lo (chan p) k + (i - channel_start (chan p)))%nat by (rewrite Hlo; unfold shard_start; lia).
      rewrite (arranged_lookup w _ _ _ _ _ _ k _ Harr Hk) by (unfold ln, shard_length, RingCollectives.channel_length; lia).
      rewrite (ring_copied w Hw 0 (sum_receives w) _ (place p) k) by first [done | lia | by apply follows_gather]. rewrite Nat.add_0_r, (Nat.mod_small k) by done.
      unfold given. rewrite Hat, lookup_sub, decide_True by (unfold ln, shard_length, RingCollectives.channel_length; lia).
      destruct (Hx r Hrw) as [_ <-]. rewrite lookup_sub, decide_True by done. f_equal. rewrite Hlo. unfold shard_start. lia.
    + apply (arranged_else _ _ _ _ _ _ _ Harr). intros k Hk Hlo. apply Hin.
      pose proof (rank_at_lt w Hw channels ring Hring (chan p) k Hch) as Hj. unfold lo, ln, shard_length in Hlo. rewrite shard_end in Hlo by done. unfold shard_start in Hlo.
      pose proof (channel_bounds channels m (chan p) Hch). set (j := rank_at w ring (chan p) k) in *.
      assert (r = j) as ->.
      { destruct (decide (r < j)%nat); [assert ((r + 1) * m <= j * m)%nat by (apply Nat.mul_le_mono_r; lia); lia|].
        destruct (decide (j < r)%nat); [assert ((j + 1) * m <= r * m)%nat by (apply Nat.mul_le_mono_r; lia); lia|]. lia. }
      lia.
Qed.
End all_gather.
End shards.
