(* ===== verification/RingProperties.v ===== *)
(** * The ring collectives of all ranks

    How they start, and what every schedule ends in.  Before a rank starts its threads it agrees with the others on the operation,
    the length and the rings, in one round of the coordinator. *)
From S2P Require Import Prelude Protocol Agreement Errors Layout Tags Payload Router Ring Operation Comp Device Topology Tuning Processes.
From S2P Require Import RankDevice Session SessionRounds DeviceCollective DeviceRing RingCollectives RingShards.

Section starts.
Context `{Crc32Hash} (uid : list Z) (world : nat) (error_text : NetworkError -> list Z).
#[local] Existing Instance collective_mail.
#[local] Instance start_mail : Mail := collective_mail uid world error_text channel_of_tag.
#[local] Instance start_mail_laws : MailLaws start_mail := collective_mail_laws uid world error_text channel_of_tag.
Context {T : Type} {D : RankDevice T} {V : RankView T} {L : RankLaws T} {DE : DeviceErrors Error} (Hno : forall e, ~ device_error e).
Context (coll : nat -> DeviceCollective) (channels : nat) (ring : nat -> list nat) (rail : nat -> nat) (et : ElementType).
Context (Hset : ring_setting uid world coll channels ring rail et).

Lemma mapM_all {A B E} (f : A -> outcome E B) (g : A -> B) l : (forall a, a ∈ l -> f a = Ok (g a)) -> mapM f l = Ok (map g l).
Proof using Type.
  induction l as [|a l IH]; intros Hf; [done|]. cbn. rewrite Hf by by left. cbn. rewrite IH by (intros; apply Hf; by right). done.
Qed.

Lemma fold_width {A} (f : Z -> A -> Z) l h : (forall h a, in_width 64 h -> in_width 64 (f h a)) -> in_width 64 h -> in_width 64 (foldl f h l).
Proof using Type. intros Hf. revert h. induction l as [|a l IH]; intros h Hh; [done|]. apply IH. by apply Hf. Qed.

Lemma fnv_width h bytes : in_width 64 h -> in_width 64 (fnv h bytes).
Proof using Type. apply fold_width. intros h' a _. by apply wrap_range. Qed.

(** The tag of the agreement is the same on every rank. *)
Definition agreed_tag (operation : Z) (n : nat) (discriminator : Z) : Z :=
  ring_agreement_tag operation (Z.of_nat n) (map (map Z.of_nat) (map ring (seq 0 channels))) discriminator (Z.of_nat channels)
    (map Z.of_nat (map rail (seq 0 channels))).

Definition agree_on (c : DeviceCollective (T:=T)) (tg : Z) (st : RankState (T:=T)) : program Error (RankState * unit) :=
  '(next, response) ← convert_error from_network
     (exchange_with_options uid world error_text channel_of_tag (session c) (sequence_number st) Opcode.Barrier ElementType.None
        (mkExchangeOptions ANY_RANK 0 0 tg) []);
  _ ← lift (fail_if (negb (bool_decide (opcode response.(header) = Opcode.Barrier)) || negb (bool_decide (response.(payload) = [])))
             (network_error "invalid ring collective agreement response"));
  mret (mkState (memory st) next (internal_sequence st), tt).

Lemma ring_agreement_eq r operation n discriminator st : (r < world)%nat ->
  ring_agreement uid world error_text channel_of_tag (coll r) operation n discriminator channels st = agree_on (coll r) (agreed_tag operation n discriminator) st.
Proof using Hset.
  intros Hr. unfold ring_agreement.
  rewrite (mapM_all (ring_order_for_channel (tuning (coll r))) ring).
  2: { intros ch Hch%elem_of_seq. by destruct (setting_order _ _ _ _ _ _ _ Hset r ch Hr ltac:(lia)) as (? & ? & _). }
  rewrite (mapM_all (collective_rail_for_channel (coll r)) rail).
  2: { intros ch Hch%elem_of_seq. by destruct (setting_order _ _ _ _ _ _ _ Hset r ch Hr ltac:(lia)) as (? & ? & _). }
  done.
Qed.

Lemma agreed_tag_width operation n discriminator : in_width 64 (agreed_tag operation n discriminator).
Proof using Type.
  unfold agreed_tag, ring_agreement_tag. apply fold_width; [intros h a; apply fnv_width|].
  apply fold_width; [intros h a; apply fnv_width|]. apply fnv_width. unfold in_width. vm_compute. done.
Qed.

(** All ranks agree in one round. *)
Lemma agreement_runs {A} (G : nat -> RankState (T:=T) * unit -> program Error A) (st : nat -> RankState (T:=T)) k tg v :
  ready uid world v k -> in_width 64 tg -> Z.of_nat k < U64_MAX -> (forall r, (r < world)%nat -> sequence_number (st r) = Z.of_nat k) ->
  exists l v', runs network_step l
      (mkNetwork (map (fun r => agree_on (coll r) tg (st r) ≫= G r) (seq 0 world)) v)
      (mkNetwork (map (fun r => G r (mkState (memory (st r)) (Z.of_nat (S k)) (internal_sequence (st r)), tt)) (seq 0 world)) v') /\
    ready uid world v' (S k) /\ in_transit v' = in_transit v.
Proof using Hset.
  intros Hready Htag Hk Hseq. pose proof (setting_session _ _ _ _ _ _ _ Hset) as Hok.
  assert (Hok' : session_ok uid (Z.of_nat k) world) by (destruct Hok as [H1 H2 _ H4]; split; [done|done|unfold in_width, U64_MAX in *; lia|done]).
  assert (Hsess : forall r, (r < world)%nat -> session_of uid world r (session (coll r))) by (intros r Hr; by apply (setting_rank _ _ _ _ _ _ _ Hset)).
  set (after := fun r (x : Z * Frame) => _ ← lift (fail_if (negb (bool_decide (opcode x.2.(header) = Opcode.Barrier)) || negb (bool_decide (x.2.(payload) = [])))
       (network_error "invalid ring collective agreement response")); mret (mkState (memory (st r)) x.1 (internal_sequence (st r)), tt)).
  destruct (exchange_runs uid world error_text channel_of_tag (fun r => session (coll r)) Hsess k Hok' Hk Opcode.Barrier ElementType.None ANY_RANK 0 tg (fun _ => []))
    with (C := fun r x => (convert_error (from_network (E:=Error)) x ≫= (fun '(next, response) => after r (next, response))) ≫= G r) (w := v)
    as (l & resp & v' & Hl & Hready' & Htrans & Hans);
    [apply any_rank_width|by left|done|done|done|intros r Hr; by apply fits_nil|split; [done|by apply Forall_map, Forall_forall]|done|done| |].
  - intros r x s y s' Hx. by apply (alone_bind (M:=start_mail)), (alone_bind (M:=start_mail)), (alone_convert (M:=start_mail)).
  - exists l, v'. split; [|done].
    rewrite (map_ext_in (fun r => agree_on (coll r) tg (st r) ≫= G r) (fun r => (convert_error from_network (exchange_with_options uid world error_text channel_of_tag
      (session (coll r)) (Z.of_nat k) Opcode.Barrier ElementType.None (mkExchangeOptions ANY_RANK 0 0 tg) []) ≫= (fun '(next, response) => after r (next, response))) ≫= G r)).
    2: { intros r Hr%in_seq. unfold agree_on. by rewrite Hseq by lia. }
    rewrite (map_ext_in (fun r => G r (mkState (memory (st r)) (Z.of_nat (S k)) (internal_sequence (st r)), tt))
      (fun r => (convert_error from_network (Return (Ok (Z.of_nat (S k), resp r))) ≫= (fun '(next, response) => after r (next, response))) ≫= G r)); [exact Hl|].
    intros r Hr%in_seq. destruct (Hans r ltac:(lia)) as [Hp Ho _ _ _ _ _ _ _].
    cbn [convert_error mbind program_mbind program_bind]. unfold after. cbn [fst snd]. cbn [map_err lift mbind program_mbind program_bind]. rewrite Ho, Hp.
    rewrite bool_decide_eq_true_2 by done. cbn. done.
Qed.
End starts.

(** ** From the start to the statistics

    Under every schedule the ranks agree in one round of the coordinator, their
    threads end, and the buffers hold the reduction or the concatenation of
    what all ranks gave. *)

Section rounds.
Context `{Crc32Hash} (uid : list Z) (world : nat) (error_text : NetworkError -> list Z).
#[local] Existing Instance collective_mail.
#[local] Instance rounds_mail : Mail := collective_mail uid world error_text channel_of_tag.
#[local] Instance rounds_mail_laws : MailLaws rounds_mail := collective_mail_laws uid world error_text channel_of_tag.
Context {T : Type} {D : RankDevice T} {V : RankView T} {L : RankLaws T} {DE : DeviceErrors Error}.
Abbreviation w := world.

(** What holds when all ranks start a ring collective: their session has
    finished [k] rounds, and no message of the operation is under way. *)
Record ring_round (coll : nat -> DeviceCollective (T:=T)) (channels : nat) (ring : nat -> list nat) (rail : nat -> nat) (et : ElementType)
    (k : nat) (operation : Z) (st : nat -> RankState (T:=T)) (v : Wire) : Prop := {
  round_device e : ~ device_error e;
  round_setting : ring_setting uid w coll channels ring rail et;
  round_channels : (0 < channels)%nat;
  round_ready : ready uid w v k;
  round_next : Z.of_nat k < U64_MAX;
  round_states r : (r < w)%nat -> sequence_number (st r) = Z.of_nat k /\ internal_sequence (st r) = operation;
  round_clear ph s : (s < w - 1)%nat -> no_messages (channels * w) (ring_key w ring rail operation ph s) v;
  round_counters : Z.of_nat (channels * (2 * (w - 1))) * 2 ^ 31 < 2 ^ 64 /\ Z.of_nat (channels * (w - 1)) < 2 ^ 32;
}.

(** After the agreement no message of the operation is under way either. *)
Lemma clear_after coll channels ring rail et k operation st v v' : ring_round coll channels ring rail et k operation st v -> in_transit v' = in_transit v ->
  forall ph s, (s < w - 1)%nat -> no_messages (channels * w) (ring_key w ring rail operation ph s) v'.
Proof using Type. intros Hround Htrans ph s Hs p Hp. rewrite Htrans. by apply (round_clear _ _ _ _ _ _ _ _ _ Hround). Qed.

Lemma thread_at channels ch r : (ch < channels)%nat -> (r < w)%nat ->
  (thread_of w ch r < channels * w)%nat /\ chan w (thread_of w ch r) = ch /\ rank_of w (thread_of w ch r) = r.
Proof using Type. intros Hch Hr. destruct (thread_split w ltac:(lia) ch r Hr) as [Hc Hrk]. split; [unfold thread_of; nia|done]. Qed.

(** *** The results of the threads *)
Lemma join_all {A} (f : nat -> A) l : join_threads (map (fun ch => Ok (f ch)) l) = Ok (map f l).
Proof using Type. induction l as [|a l IH]; [done|]. unfold join_threads in *. cbn. by rewrite IH. Qed.

Lemma add_bytes_in what a b : 0 <= a + b < 2 ^ 64 -> add_bytes what a b = Ok (a + b).
Proof using Type. intros Hb. unfold add_bytes, checked_add. by rewrite checked_in by (unfold in_width; lia). Qed.

Lemma add_launches_in what a b : 0 <= a + b < 2 ^ 32 -> add_launches what a b = Ok (a + b).
Proof using Type. intros Hb. unfold add_launches, checked_add. by rewrite checked_in by (unfold in_width; lia). Qed.

Lemma sum_bytes what (f : nat -> Z) per l total : (forall ch, ch ∈ l -> 0 <= f ch <= per) -> 0 <= total -> total + Z.of_nat (length l) * per < 2 ^ 64 ->
  exists sum, foldM (add_bytes what) total (map f l) = Ok sum /\ 0 <= sum <= total + Z.of_nat (length l) * per.
Proof using Type.
  revert total. induction l as [|a l IH]; intros total Hf Ht Hlt; cbn [map foldM length] in *; [exists total; split; [done|lia]|].
  pose proof (Hf a ltac:(by left)) as Ha. assert (0 <= Z.of_nat (length l) * per) by nia. rewrite add_bytes_in by lia. cbn [mbind outcome_bind].
  destruct (IH (total + f a)) as (sum & Hs & Hb); [intros; apply Hf; by right|lia|lia|]. exists sum. split; [done|]. lia.
Qed.

Lemma sum_counters_in bytes launches (f : nat -> Z * Z) per per' l total : (forall ch, ch ∈ l -> 0 <= (f ch).1 <= per /\ 0 <= (f ch).2 <= per') ->
  0 <= total.1 -> 0 <= total.2 -> total.1 + Z.of_nat (length l) * per < 2 ^ 64 -> total.2 + Z.of_nat (length l) * per' < 2 ^ 32 ->
  exists sum, foldM (fun total r => b ← add_bytes bytes total.1 r.1; n ← add_launches launches total.2 r.2; Ok (b, n)) total (map f l) = Ok sum /\
    0 <= sum.1 <= total.1 + Z.of_nat (length l) * per /\ 0 <= sum.2 <= total.2 + Z.of_nat (length l) * per'.
Proof using Type.
  revert total. induction l as [|a l IH]; intros total Hf Ht Ht' Hlt Hlt'; cbn [map foldM length] in *; [exists total; split; [done|lia]|].
  pose proof (Hf a ltac:(by left)) as [Ha Ha']. assert (0 <= Z.of_nat (length l) * per) by nia. assert (0 <= Z.of_nat (length l) * per') by nia.
  rewrite add_bytes_in by lia. cbn [mbind outcome_bind]. rewrite add_launches_in by lia. cbn [mbind outcome_bind].
  destruct (IH (total.1 + (f a).1, total.2 + (f a).2)) as (sum & Hs & Hb); [intros; apply Hf; by right|cbn; lia..|].
  exists sum. split; [done|]. cbn in Hb. lia.
Qed.

(** *** All-reduce *)
Section all_reduce.
Context (coll : nat -> DeviceCollective (T:=T)) (channels : nat) (ring : nat -> list nat) (rail : nat -> nat) (et : ElementType).
Context (k : nat) (operation : Z) (st : nat -> RankState (T:=T)) (v : Wire) (op : ReductionOperation) (requested n : nat).
Context (buf : nat -> Buffer) (function : nat -> Kernel) (x : nat -> list T) (f : T -> T -> T).

(** Every rank holds its [n] elements, has a kernel for [f] and space for a chunk. *)
Record all_reduce_inputs : Prop := {
  all_reduce_channels : effective_ring_channels requested n = channels;
  all_reduce_length r : (r < w)%nat -> buffer_len (buf r) = n;
  all_reduce_held r : (r < w)%nat -> holds (memory (st r)) (execution (coll r)) (buf r) (x r);
  all_reduce_function r : (r < w)%nat -> computes (execution (coll r)) (function r) /\ combine (function r) = f;
  all_reduce_fits ch j : (ch < channels)%nat -> (j < w)%nat -> chunk_fits (T:=T) (chunk_length w channels n ch j);
  all_reduce_space r ch j : (r < w)%nat -> (ch < channels)%nat -> (j < w)%nat -> allocatable (execution (coll r)) (chunk_length w channels n ch j);
}.

(** A rank's state after the agreement. *)
Definition agreed_state (r : nat) : RankState (T:=T) := mkState (memory (st r)) (Z.of_nat (S k)) (wrap 64 (operation + 1)).
Definition all_channel_ranges (n : nat) : list (nat * nat) := map (channel_range channels n) (seq 0 channels).

Lemma channel_ranges_ok : (0 < channels)%nat -> balanced_ranges (E:=Error) n channels = Ok (all_channel_ranges n).
Proof using Type. intros Hc. by rewrite balanced_ranges_Ok. Qed.

Abbreviation start_network := (mkNetwork (map (fun r => all_reduce_ring_start uid w error_text channel_of_tag (coll r) (buf r) op requested (st r)) (seq 0 w)) v).

Lemma all_reduce_start_runs : ring_round coll channels ring rail et k operation st v -> all_reduce_inputs ->
  exists l v', runs network_step l start_network
      (mkNetwork (map (fun r => Return (Ok (agreed_state r, (operation, all_channel_ranges n)))) (seq 0 w)) v') /\
    ready uid w v' (S k) /\ in_transit v' = in_transit v.
Proof using L.
  intros Hround Hin. pose proof (round_setting _ _ _ _ _ _ _ _ _ Hround) as Hset.
  destruct (agreement_runs uid w error_text coll channels ring rail et Hset
    (fun r r' => Return (Ok (r'.1, (operation, all_channel_ranges n))))
    (fun r => mkState (memory (st r)) (sequence_number (st r)) (wrap 64 (operation + 1))) k
    (agreed_tag channels ring rail operation n (0x100 + operation_code op)) v (round_ready _ _ _ _ _ _ _ _ _ Hround) (agreed_tag_width _ _ _ _ _ _) (round_next _ _ _ _ _ _ _ _ _ Hround))
    as (l & v' & Hl & Hready & Htrans).
  { intros r Hr. by apply (round_states _ _ _ _ _ _ _ _ _ Hround). }
  exists l, v'. split; [|done]. erewrite map_ext_in; [exact Hl|].
  intros r Hr%in_seq. destruct (round_states _ _ _ _ _ _ _ _ _ Hround r ltac:(lia)) as [Hs Hi].
  unfold all_reduce_ring_start, mbind, rank_mbind, next_operation. cbn [mbind program_mbind program_bind fst snd]. rewrite Hi.
  rewrite (all_reduce_length Hin), (all_reduce_channels Hin) by lia.
  rewrite (ring_agreement_eq uid w error_text coll channels ring rail et Hset) by lia.
  rewrite channel_ranges_ok by apply (round_channels _ _ _ _ _ _ _ _ _ Hround). done.
Qed.

(** The thread of a rank starts with the rank's state after the agreement. *)
Abbreviation threads_network v' := (mkNetwork (map (all_reduce_thread uid w error_text coll channels n operation buf function (fun p => agreed_state (rank_of w p))) (seq 0 (channels * w))) v').

Lemma all_reduce_stats (results : nat -> Z * Z) r : (0 < channels)%nat -> (r < w)%nat -> session_world (session (coll r)) = w ->
  Z.of_nat (channels * (2 * (w - 1))) * 2 ^ 31 < 2 ^ 64 -> Z.of_nat (channels * (w - 1)) < 2 ^ 32 ->
  (forall ch, (ch < channels)%nat -> 0 <= (results ch).1 <= Z.of_nat (2 * (w - 1)) * 2 ^ 31 /\ 0 <= (results ch).2 <= Z.of_nat (w - 1)) ->
  exists s, all_reduce_ring_finish (coll r) (map (fun ch => Ok (results ch)) (seq 0 channels)) = Ok s /\
    algorithm s = Ring /\ Device.steps s = wrap 32 (2 * Z.of_nat (w - 1)).
Proof using Type.
  intros Hc Hr Hsw Hb Hl Hres. unfold all_reduce_ring_finish. rewrite join_all. cbn [mbind outcome_bind]. unfold sum_counters.
  destruct (sum_counters_in "ring all-reduce transferred bytes" "ring all-reduce kernel launches" results (Z.of_nat (2 * (w - 1)) * 2 ^ 31) (Z.of_nat (w - 1)) (seq 0 channels) (0, 0))
    as (sum & Hsum & Hb1 & Hb2); [intros ch Hch%elem_of_seq; apply Hres; lia|done|done|rewrite length_seq; cbn [fst]; lia|rewrite length_seq; cbn [snd]; lia|].
  rewrite Hsum, Hsw, sub_usize_ok by lia. cbn [mbind outcome_bind]. unfold stats. rewrite length_seq in Hb1. cbn [fst] in Hb1.
  rewrite checked_in by (unfold in_width; lia). cbn. eexists. done.
Qed.

(** C3: When all ranks start a ring all-reduce, every schedule of the ranks
    ends after one round of the coordinator, and then every schedule of the
    threads of all ranks ends: the thread of a channel has reduced its part of
    the rank's buffer, and only that part, to the reduction of the elements of
    all ranks, which is one result for all ranks and channels.  No message stays
    under way, and the statistics of every rank are those of the ring.  A thread
    starts with the memory of its rank; with one channel its part is the whole
    buffer. *)
Theorem all_reduce_ring_reduces : ring_round coll channels ring rail et k operation st v -> all_reduce_inputs ->
  exists v', ends_in start_network (mkNetwork (map (fun r => Return (Ok (agreed_state r, (operation, all_channel_ranges n)))) (seq 0 w)) v') /\
    ready uid w v' (S k) /\ in_transit v' = in_transit v /\
    exists res result, ends_in (threads_network v') (mkNetwork (map (fun p => Return (Ok (res p))) (seq 0 (channels * w))) v') /\
      length result = n /\ reduces f x w result /\
      (forall ch r, (ch < channels)%nat -> (r < w)%nat -> exists y, holds (memory (res (thread_of w ch r)).1) (execution (coll r)) (buf r) y /\
        forall i, y !! i = if decide (channel_start channels n ch <= i < channel_start channels n (S ch))%nat then result !! i else x r !! i) /\
      forall r, (r < w)%nat -> exists s, all_reduce_ring_finish (coll r) (map (fun ch => Ok (res (thread_of w ch r)).2) (seq 0 channels)) = Ok s /\
        algorithm s = Ring /\ Device.steps s = wrap 32 (2 * Z.of_nat (w - 1)).
Proof using L.
  intros Hround Hin. destruct (all_reduce_start_runs Hround Hin) as (l1 & v' & Hl1 & Hready & Htrans).
  exists v'. split; [eapply schedule_suffices; [exact Hl1|]; rewrite <- (map_map _ Return); apply returned_final|]. split; [done|]. split; [done|].
  pose proof (round_setting _ _ _ _ _ _ _ _ _ Hround) as Hset. pose proof (setting_world _ _ _ _ _ _ _ Hset) as Hw.
  destruct (all_reduce_threads_reduce uid w error_text (round_device _ _ _ _ _ _ _ _ _ Hround) coll channels ring rail et Hset n operation buf function (all_reduce_length Hin) x)
    with (f := f) (start := fun p => agreed_state (rank_of w p)) (v := v') as (l2 & res & result & Hl2 & Hlen & Hred & Hres).
  - intros r Hr. rewrite <- (all_reduce_length Hin r Hr). apply (holds_length _ _ _ _ (all_reduce_held Hin r Hr)).
  - apply (all_reduce_function Hin).
  - apply (all_reduce_fits Hin).
  - apply (all_reduce_space Hin).
  - intros p Hp. apply (all_reduce_held Hin), (thread_bounds w Hw channels p Hp).
  - apply (round_channels _ _ _ _ _ _ _ _ _ Hround).
  - intros s Hs. split; apply (clear_after _ _ _ _ _ _ _ _ _ _ Hround Htrans); lia.
  - exists res, result. split; [eapply schedule_suffices; [exact Hl2|]; rewrite <- (map_map _ Return); apply returned_final|]. split; [done|]. split; [done|].
    split.
    + intros ch r Hch Hr. destruct (thread_at channels ch r Hch Hr) as (Hp & Hc & Hrk). destruct (Hres _ Hp) as [(y & Hy & Hval) _]. rewrite Hc, Hrk in *. by exists y.
    + intros r Hr. destruct (round_counters _ _ _ _ _ _ _ _ _ Hround) as [Hb Hl]. apply (all_reduce_stats (fun ch => (res (thread_of w ch r)).2)); try done.
      * apply (round_channels _ _ _ _ _ _ _ _ _ Hround).
      * by apply (setting_rank _ _ _ _ _ _ _ Hset r Hr).
      * intros ch Hch. destruct (thread_at channels ch r Hch Hr) as (Hp & _). by apply Hres.
Qed.
End all_reduce.

(** *** Reduce-scatter *)
Section reduce_scatter.
Context (coll : nat -> DeviceCollective (T:=T)) (channels : nat) (ring : nat -> list nat) (rail : nat -> nat) (et : ElementType).
Context (k : nat) (operation : Z) (st : nat -> RankState (T:=T)) (v : Wire) (op : ReductionOperation) (requested m : nat).
Context (buf : nat -> Buffer) (function : nat -> Kernel) (x : nat -> list T) (f : T -> T -> T).

Record reduce_scatter_inputs : Prop := {
  reduce_scatter_channels : effective_ring_channels requested m = channels;
  reduce_scatter_length r : (r < w)%nat -> buffer_len (buf r) = (w * m)%nat;
  reduce_scatter_held r : (r < w)%nat -> holds (memory (st r)) (execution (coll r)) (buf r) (x r);
  reduce_scatter_function r : (r < w)%nat -> computes (execution (coll r)) (function r) /\ combine (function r) = f;
  reduce_scatter_fits ch : (ch < channels)%nat -> chunk_fits (T:=T) (channel_length channels m ch);
  reduce_scatter_space r ch : (r < w)%nat -> (ch < channels)%nat -> allocatable (execution (coll r)) (channel_length channels m ch);
  reduce_scatter_outputs r : (r < w)%nat -> allocatable (execution (coll r)) (w * m) /\ allocatable (execution (coll r)) m;
}.

(** The buffers that a rank allocates, and what they hold. *)
Record scatter_buffers (r : nat) (working output : Buffer) (mem : Memory) (y : list T) : Prop := {
  scatter_working : holds mem (execution (coll r)) working (x r) /\ buffer_len working = (w * m)%nat;
  scatter_output : holds mem (execution (coll r)) output y /\ buffer_len output = m;
  scatter_cells : cell output <> cell working;
}.

Lemma scatter_start_local r : (forall e, ~ device_error e) -> reduce_scatter_inputs -> (r < w)%nat ->
  exists working output mem y, scatter_buffers r working output mem y /\
    reduce_scatter_ring_start uid w error_text channel_of_tag (coll r) (buf r) m op requested (st r) =
    (operation ← next_operation uid w error_text channel_of_tag;
     _ ← ring_agreement uid w error_text channel_of_tag (coll r) operation (w * m) (0x300 + operation_code op) channels;
     ranges ← just uid w error_text channel_of_tag (balanced_ranges m channels);
     mret (working, output, operation, ranges)) (mkState mem (sequence_number (st r)) (internal_sequence (st r))).
Proof using L.
  intros Hno Hin Hr. destruct (reduce_scatter_outputs Hin r Hr) as [Ha1 Ha2]. pose proof (reduce_scatter_held Hin r Hr) as Hx. pose proof (reduce_scatter_length Hin r Hr) as Hlen.
  destruct (runs_total Hno _ _ _ (law_alloc (execution (coll r)) (w * m) (memory (st r)) Ha1)) as (working & s1 & Hs1 & Hu1 & Hl1 & Hf1 & l1 & Hll1 & Hup1).
  assert (Hne1 : cell (buf r) <> cell working) by by eapply fresh_cell.
  assert (Hx1 : holds s1 (execution (coll r)) (buf r) (x r)) by by eapply rank_holds_other.
  assert (Hw1 : holds s1 (execution (coll r)) working l1) by (split; [done|by eapply rank_updated_same|by rewrite Hl1]).
  destruct (runs_total Hno _ _ _ (law_copy_from _ _ _ _ Hx1)) as (values & s2 & Hs2 & -> & Hun2).
  destruct (runs_total Hno _ _ _ (law_copy_to _ _ _ (x r) _ (rank_holds_unchanged _ _ _ _ _ Hw1 Hun2) ltac:(rewrite Hl1, (holds_length _ _ _ _ Hx); done))) as ([] & s3 & Hs3 & Hup3).
  assert (Hw3 : holds s3 (execution (coll r)) working (x r)).
  { eapply rank_holds_updated; [by eapply rank_holds_unchanged|exact Hup3|]. rewrite (holds_length _ _ _ _ Hx), Hlen. by symmetry. }
  destruct (runs_total Hno _ _ _ (law_alloc (execution (coll r)) m s3 Ha2)) as (output & s4 & Hs4 & Hu4 & Hl4 & Hf4 & y & Hly & Hup4).
  assert (Hne4 : cell working <> cell output) by by eapply fresh_cell.
  exists working, output, s4, y. split.
  - split; [split; [by eapply rank_holds_other|done]|split; [|done]|congruence]. split; [done|by eapply rank_updated_same|by rewrite Hl4].
  - unfold reduce_scatter_ring_start. rewrite Hlen, (reduce_scatter_channels Hin).
    destruct (st r) as [mem0 s0 i0]. cbn [memory sequence_number internal_sequence] in *.
    rewrite (device_then uid w error_text channel_of_tag _ _ _ _ _ _ _ Hs1). rewrite (device_then uid w error_text channel_of_tag _ _ s1 s3 _ _ tt) by (unfold mbind, comp_bind; by rewrite Hs2).
    by rewrite (device_then uid w error_text channel_of_tag _ _ _ _ _ _ _ Hs4).
Qed.

Definition scatter_state (mem : nat -> Memory) (r : nat) : RankState (T:=T) := mkState (mem r) (Z.of_nat (S k)) (wrap 64 (operation + 1)).
Abbreviation ranges := (all_channel_ranges channels m).
Abbreviation scatter_network := (mkNetwork (map (fun r => reduce_scatter_ring_start uid w error_text channel_of_tag (coll r) (buf r) m op requested (st r)) (seq 0 w)) v).

Lemma reduce_scatter_start_runs : ring_round coll channels ring rail et k operation st v -> reduce_scatter_inputs ->
  exists l v' working output mem y, runs network_step l scatter_network
      (mkNetwork (map (fun r => Return (Ok (scatter_state mem r, (working r, output r, operation, ranges)))) (seq 0 w)) v') /\
    ready uid w v' (S k) /\ in_transit v' = in_transit v /\
    forall r, (r < w)%nat -> scatter_buffers r (working r) (output r) (mem r) (y r).
Proof using L.
  intros Hround Hin. pose proof (round_setting _ _ _ _ _ _ _ _ _ Hround) as Hset. pose proof (setting_world _ _ _ _ _ _ _ Hset) as Hw.
  destruct (scatter_start_local 0 (round_device _ _ _ _ _ _ _ _ _ Hround) Hin Hw) as (w0 & o0 & mem0 & y0 & _).
  destruct (finite_choice (w0, o0, mem0, y0) (fun r b => scatter_buffers r b.1.1.1 b.1.1.2 b.1.2 b.2 /\
    reduce_scatter_ring_start uid w error_text channel_of_tag (coll r) (buf r) m op requested (st r) =
    (operation ← next_operation uid w error_text channel_of_tag;
     _ ← ring_agreement uid w error_text channel_of_tag (coll r) operation (w * m) (0x300 + operation_code op) channels;
     ranges ← just uid w error_text channel_of_tag (balanced_ranges m channels);
     mret (b.1.1.1, b.1.1.2, operation, ranges)) (mkState b.1.2 (sequence_number (st r)) (internal_sequence (st r)))) w) as [b Hb].
  { intros r Hr. destruct (scatter_start_local r (round_device _ _ _ _ _ _ _ _ _ Hround) Hin Hr) as (w1 & o1 & mem1 & y1 & Hb & Heq). by exists (w1, o1, mem1, y1). }
  destruct (agreement_runs uid w error_text coll channels ring rail et Hset
    (fun r r' => Return (Ok (r'.1, ((b r).1.1.1, (b r).1.1.2, operation, ranges))))
    (fun r => mkState (b r).1.2 (sequence_number (st r)) (wrap 64 (operation + 1))) k
    (agreed_tag channels ring rail operation (w * m) (0x300 + operation_code op)) v (round_ready _ _ _ _ _ _ _ _ _ Hround) (agreed_tag_width _ _ _ _ _ _) (round_next _ _ _ _ _ _ _ _ _ Hround))
    as (l & v' & Hl & Hready & Htrans).
  { intros r Hr. by apply (round_states _ _ _ _ _ _ _ _ _ Hround). }
  exists l, v', (fun r => (b r).1.1.1), (fun r => (b r).1.1.2), (fun r => (b r).1.2), (fun r => (b r).2). split; [|split; [done|split; [done|intros r Hr; by apply Hb]]].
  erewrite map_ext_in; [exact Hl|].
  intros r Hr%in_seq. destruct (round_states _ _ _ _ _ _ _ _ _ Hround r ltac:(lia)) as [_ Hi]. destruct (Hb r ltac:(lia)) as [_ ->].
  unfold mbind, rank_mbind, next_operation. cbn [mbind program_mbind program_bind fst snd memory sequence_number internal_sequence]. rewrite Hi.
  rewrite (ring_agreement_eq uid w error_text coll channels ring rail et Hset) by lia.
  rewrite channel_ranges_ok by apply (round_channels _ _ _ _ _ _ _ _ _ Hround). done.
Qed.

Lemma reduce_scatter_stats (results : nat -> Z * Z) r : (0 < w)%nat -> session_world (session (coll r)) = w ->
  Z.of_nat (channels * (2 * (w - 1))) * 2 ^ 31 < 2 ^ 64 -> Z.of_nat (channels * (w - 1)) < 2 ^ 32 ->
  (forall ch, (ch < channels)%nat -> 0 <= (results ch).1 <= Z.of_nat (w - 1) * 2 ^ 31 /\ 0 <= (results ch).2 <= Z.of_nat (w - 1)) ->
  exists s, reduce_scatter_ring_finish (coll r) (map (fun ch => Ok (results ch)) (seq 0 channels)) = Ok s /\
    algorithm s = Ring /\ Device.steps s = wrap 32 (Z.of_nat (w - 1)).
Proof using Type.
  intros Hw Hsw Hb Hl Hres. unfold reduce_scatter_ring_finish. rewrite join_all. cbn [mbind outcome_bind]. unfold sum_counters.
  destruct (sum_counters_in "ring reduce-scatter transferred bytes" "ring reduce-scatter kernel launches" results (Z.of_nat (w - 1) * 2 ^ 31) (Z.of_nat (w - 1)) (seq 0 channels) (0, 0))
    as (sum & Hsum & Hb1 & Hb2); [intros ch Hch%elem_of_seq; apply Hres; lia|done|done|rewrite length_seq; cbn [fst]; lia|rewrite length_seq; cbn [snd]; lia|].
  rewrite Hsum, Hsw, sub_usize_ok by lia. cbn [mbind outcome_bind]. unfold stats. rewrite length_seq in Hb1. cbn [fst] in Hb1.
  rewrite checked_in by (unfold in_width; lia). cbn. eexists. done.
Qed.

(** C18: When all ranks start a ring reduce-scatter, every schedule ends after one
    round of the coordinator, and then every schedule of the threads ends: the
    thread of a channel has copied its part of the rank's shard of one reduction
    of all inputs to the output.  No message stays under way, and the statistics
    are those of the ring. *)
Theorem reduce_scatter_ring_shards : ring_round coll channels ring rail et k operation st v -> reduce_scatter_inputs ->
  exists v' working output mem, ends_in scatter_network
      (mkNetwork (map (fun r => Return (Ok (scatter_state mem r, (working r, output r, operation, ranges)))) (seq 0 w)) v') /\
    ready uid w v' (S k) /\ in_transit v' = in_transit v /\
    exists res result, ends_in (mkNetwork (map (reduce_scatter_thread uid w error_text coll channels m operation (fun p => scatter_state mem (rank_of w p)) working output function) (seq 0 (channels * w))) v')
        (mkNetwork (map (fun p => Return (Ok (res p))) (seq 0 (channels * w))) v') /\
      length result = (w * m)%nat /\ reduces f x w result /\
      (forall ch r, (ch < channels)%nat -> (r < w)%nat -> exists z, holds (memory (res (thread_of w ch r)).1) (execution (coll r)) (output r) z /\
        forall i, (channel_start channels m ch <= i < channel_start channels m (S ch))%nat -> z !! i = result !! (r * m + i)%nat) /\
      forall r, (r < w)%nat -> exists s, reduce_scatter_ring_finish (coll r) (map (fun ch => Ok (res (thread_of w ch r)).2) (seq 0 channels)) = Ok s /\
        algorithm s = Ring /\ Device.steps s = wrap 32 (Z.of_nat (w - 1)).
Proof using L.
  intros Hround Hin. destruct (reduce_scatter_start_runs Hround Hin) as (l1 & v' & working & output & mem & y & Hl1 & Hready & Htrans & Hbufs).
  exists v', working, output, mem. split; [eapply schedule_suffices; [exact Hl1|]; rewrite <- (map_map _ Return); apply returned_final|]. split; [done|]. split; [done|].
  pose proof (round_setting _ _ _ _ _ _ _ _ _ Hround) as Hset. pose proof (setting_world _ _ _ _ _ _ _ Hset) as Hw.
  assert (Hfits : fits_usize (w * m)).
  { pose proof (law_allocatable _ _ (proj1 (reduce_scatter_outputs Hin 0 Hw))) as Hf. pose proof law_size. unfold fits_usize. nia. }
  assert (Hbuf : forall p, (p < channels * w)%nat -> scatter_buffers (rank_of w p) (working (rank_of w p)) (output (rank_of w p)) (mem (rank_of w p)) (y (rank_of w p))).
  { intros p Hp. by apply Hbufs, (thread_bounds w Hw channels p Hp). }
  destruct (reduce_scatter_threads_shard uid w error_text (round_device _ _ _ _ _ _ _ _ _ Hround) coll channels ring rail et Hset m Hfits operation (reduce_scatter_fits Hin)
    (fun p => scatter_state mem (rank_of w p)) working output function) with (x := x) (f := f) (y := y) (v := v') as (l2 & res & result & Hl2 & Hlen & Hred & Hres).
  - intros r Hr. apply (scatter_working _ _ _ _ _ (Hbufs r Hr)).
  - intros r Hr. destruct (scatter_working _ _ _ _ _ (Hbufs r Hr)) as [Hh <-]. apply (holds_length _ _ _ _ Hh).
  - apply (reduce_scatter_function Hin).
  - apply (reduce_scatter_space Hin).
  - intros p Hp. apply (scatter_working _ _ _ _ _ (Hbuf p Hp)).
  - intros p Hp. split; [apply (scatter_output _ _ _ _ _ (Hbuf p Hp))|apply (scatter_cells _ _ _ _ _ (Hbuf p Hp))].
  - intros r Hr. apply (scatter_output _ _ _ _ _ (Hbufs r Hr)).
  - apply (round_channels _ _ _ _ _ _ _ _ _ Hround).
  - intros r Hr. destruct (scatter_output _ _ _ _ _ (Hbufs r Hr)) as [Hh <-]. apply (holds_length _ _ _ _ Hh).
  - intros s Hs. by apply (clear_after _ _ _ _ _ _ _ _ _ _ Hround Htrans).
  - exists res, result. split; [eapply schedule_suffices; [exact Hl2|]; rewrite <- (map_map _ Return); apply returned_final|]. split; [done|]. split; [done|]. split.
    + intros ch r Hch Hr. destruct (thread_at channels ch r Hch Hr) as (Hp & Hc & Hrk). destruct (Hres _ Hp) as [(z & Hz & Hval) _]. rewrite Hc, Hrk in *.
      exists z. split; [done|]. intros i Hi. by rewrite Hval, decide_True.
    + intros r Hr. destruct (round_counters _ _ _ _ _ _ _ _ _ Hround) as [Hb Hl]. apply (reduce_scatter_stats (fun ch => (res (thread_of w ch r)).2)); try done.
      * by apply (setting_rank _ _ _ _ _ _ _ Hset r Hr).
      * intros ch Hch. destruct (thread_at channels ch r Hch Hr) as (Hp & _). by apply Hres.
Qed.
End reduce_scatter.

(** *** All-gather *)
Section all_gather.
Context (coll : nat -> DeviceCollective (T:=T)) (channels : nat) (ring : nat -> list nat) (rail : nat -> nat) (et : ElementType).
Context (k : nat) (operation : Z) (st : nat -> RankState (T:=T)) (v : Wire) (requested m : nat).
Context (buf : nat -> Buffer) (x : nat -> list T).

Record all_gather_inputs : Prop := {
  all_gather_channels : effective_ring_channels requested m = channels;
  all_gather_length r : (r < w)%nat -> buffer_len (buf r) = m;
  all_gather_held r : (r < w)%nat -> holds (memory (st r)) (execution (coll r)) (buf r) (x r);
  all_gather_fits ch : (ch < channels)%nat -> chunk_fits (T:=T) (channel_length channels m ch);
  all_gather_outputs r : (r < w)%nat -> allocatable (execution (coll r)) (w * m);
}.

(** A rank's output with its own shard in place. *)
Record gather_buffer (r : nat) (output : Buffer) (mem : Memory) (y : list T) : Prop := {
  gather_output : holds mem (execution (coll r)) output y /\ buffer_len output = (w * m)%nat;
  gather_own : sub (r * m) m y = x r;
}.

Lemma gather_start_local r : (forall e, ~ device_error e) -> all_gather_inputs -> session_of uid w r (session (coll r)) -> (r < w)%nat ->
  exists output mem y, gather_buffer r output mem y /\
    all_gather_ring_start uid w error_text channel_of_tag (coll r) (buf r) requested (st r) =
    (operation ← next_operation uid w error_text channel_of_tag;
     _ ← ring_agreement uid w error_text channel_of_tag (coll r) operation m 0x200 channels;
     ranges ← just uid w error_text channel_of_tag (balanced_ranges m channels);
     mret (output, operation, ranges)) (mkState mem (sequence_number (st r)) (internal_sequence (st r))).
Proof using L.
  intros Hno Hin [_ Hrk Hsw] Hr. pose proof (all_gather_outputs Hin r Hr) as Ha. pose proof (all_gather_held Hin r Hr) as Hx. pose proof (all_gather_length Hin r Hr) as Hlen.
  assert (Hrm : ((r + 1) * m <= w * m)%nat) by (apply Nat.mul_le_mono_r; lia).
  assert (Hfits : fits_usize (w * m)) by (pose proof (law_allocatable _ _ Ha); pose proof law_size; unfold fits_usize; nia).
  destruct (runs_total Hno _ _ _ (law_alloc (execution (coll r)) (w * m) (memory (st r)) Ha)) as (output & s1 & Hs1 & Hu1 & Hl1 & Hf1 & l1 & Hll1 & Hup1).
  assert (Hne1 : cell (buf r) <> cell output) by by eapply fresh_cell.
  assert (Hx1 : holds s1 (execution (coll r)) (buf r) (x r)) by by eapply rank_holds_other.
  assert (Ho1 : holds s1 (execution (coll r)) output l1) by (split; [done|by eapply rank_updated_same|by rewrite Hl1]).
  destruct (copy_bytes_from_ok (coll r) Hno (buf r) (x r) s1 0 m Hx1) as (s2 & Hs2 & Hun2); [lia|].
  assert (Hlx : length (x r) = m) by (rewrite <- Hlen; apply (holds_length _ _ _ _ Hx)).
  replace (sub 0 m (x r)) with (x r) in Hs2 by (unfold sub; rewrite drop_0, <- Hlx; by rewrite firstn_all).
  destruct (copy_bytes_to_ok (coll r) Hno output l1 s2 (r * m) (x r) (rank_holds_unchanged _ _ _ _ _ Ho1 Hun2)) as (s3 & Hs3 & Ho3 & _); [rewrite Hl1, Hlx; lia|].
  exists output, s3, (put (r * m) (x r) l1). split.
  - split; [done|]. rewrite <- Hlx at 2. apply sub_put_eq. lia.
  - unfold all_gather_ring_start. rewrite Hsw, Hrk, Hlen, (all_gather_channels Hin).
    destruct (st r) as [mem0 s0 i0]. cbn [memory sequence_number internal_sequence] in *.
    rewrite checked_mul_usize_Some by by rewrite Nat.mul_comm. rewrite (Nat.mul_comm m w).
    rewrite mul_usize_ok by (eapply fits_usize_le; [|exact Hfits]; lia). cbn [ok_or].
    rewrite (just_then uid w error_text channel_of_tag).
    rewrite (device_then uid w error_text channel_of_tag _ _ _ _ _ _ _ Hs1). rewrite (device_then uid w error_text channel_of_tag _ _ _ _ _ _ _ Hs2).
    rewrite (just_then uid w error_text channel_of_tag).
    by rewrite (device_then uid w error_text channel_of_tag _ _ _ _ _ _ _ Hs3).
Qed.

Abbreviation ranges := (all_channel_ranges channels m).
Abbreviation gather_network := (mkNetwork (map (fun r => all_gather_ring_start uid w error_text channel_of_tag (coll r) (buf r) requested (st r)) (seq 0 w)) v).
Abbreviation gather_state := (scatter_state k operation).

Lemma all_gather_start_runs : ring_round coll channels ring rail et k operation st v -> all_gather_inputs ->
  exists l v' output mem y, runs network_step l gather_network
      (mkNetwork (map (fun r => Return (Ok (gather_state mem r, (output r, operation, ranges)))) (seq 0 w)) v') /\
    ready uid w v' (S k) /\ in_transit v' = in_transit v /\
    forall r, (r < w)%nat -> gather_buffer r (output r) (mem r) (y r).
Proof using L.
  intros Hround Hin. pose proof (round_setting _ _ _ _ _ _ _ _ _ Hround) as Hset. pose proof (setting_world _ _ _ _ _ _ _ Hset) as Hw.
  assert (Hlocal : forall r, (r < w)%nat -> exists b : Buffer * Memory * list T, gather_buffer r b.1.1 b.1.2 b.2 /\
    all_gather_ring_start uid w error_text channel_of_tag (coll r) (buf r) requested (st r) =
    (operation ← next_operation uid w error_text channel_of_tag;
     _ ← ring_agreement uid w error_text channel_of_tag (coll r) operation m 0x200 channels;
     ranges ← just uid w error_text channel_of_tag (balanced_ranges m channels);
     mret (b.1.1, operation, ranges)) (mkState b.1.2 (sequence_number (st r)) (internal_sequence (st r)))).
  { intros r Hr. destruct (gather_start_local r (round_device _ _ _ _ _ _ _ _ _ Hround) Hin (proj1 (setting_rank _ _ _ _ _ _ _ Hset r Hr)) Hr) as (o & mem & y & Hb & Heq). by exists (o, mem, y). }
  destruct (Hlocal 0%nat Hw) as (b0 & _). destruct (finite_choice b0 _ w Hlocal) as [b Hb].
  destruct (agreement_runs uid w error_text coll channels ring rail et Hset
    (fun r r' => Return (Ok (r'.1, ((b r).1.1, operation, ranges))))
    (fun r => mkState (b r).1.2 (sequence_number (st r)) (wrap 64 (operation + 1))) k
    (agreed_tag channels ring rail operation m 0x200) v (round_ready _ _ _ _ _ _ _ _ _ Hround) (agreed_tag_width _ _ _ _ _ _) (round_next _ _ _ _ _ _ _ _ _ Hround))
    as (l & v' & Hl & Hready & Htrans).
  { intros r Hr. by apply (round_states _ _ _ _ _ _ _ _ _ Hround). }
  exists l, v', (fun r => (b r).1.1), (fun r => (b r).1.2), (fun r => (b r).2). split; [|split; [done|split; [done|intros r Hr; by apply Hb]]].
  erewrite map_ext_in; [exact Hl|].
  intros r Hr%in_seq. destruct (round_states _ _ _ _ _ _ _ _ _ Hround r ltac:(lia)) as [_ Hi]. destruct (Hb r ltac:(lia)) as [_ ->].
  unfold mbind, rank_mbind, next_operation. cbn [mbind program_mbind program_bind fst snd memory sequence_number internal_sequence]. rewrite Hi.
  rewrite (ring_agreement_eq uid w error_text coll channels ring rail et Hset) by lia.
  rewrite channel_ranges_ok by apply (round_channels _ _ _ _ _ _ _ _ _ Hround). done.
Qed.

Lemma all_gather_stats (results : nat -> Z) r : (0 < w)%nat -> session_world (session (coll r)) = w ->
  Z.of_nat (channels * (2 * (w - 1))) * 2 ^ 31 < 2 ^ 64 ->
  (forall ch, (ch < channels)%nat -> 0 <= results ch <= Z.of_nat (w - 1) * 2 ^ 31) ->
  exists s, all_gather_ring_finish (coll r) (map (fun ch => Ok (results ch)) (seq 0 channels)) = Ok s /\
    algorithm s = Ring /\ Device.steps s = wrap 32 (Z.of_nat (w - 1)) /\ reduction_kernel_launches s = 0.
Proof using Type.
  intros Hw Hsw Hb Hres. unfold all_gather_ring_finish. rewrite join_all. cbn [mbind outcome_bind].
  destruct (sum_bytes "ring all-gather transferred bytes" results (Z.of_nat (w - 1) * 2 ^ 31) (seq 0 channels) 0) as (sum & Hsum & Hb1);
    [intros ch Hch%elem_of_seq; apply Hres; lia|done|rewrite length_seq; lia|].
  rewrite Hsum, Hsw, sub_usize_ok by lia. cbn [mbind outcome_bind]. unfold stats. rewrite length_seq in Hb1.
  rewrite checked_in by (unfold in_width; lia). cbn. eexists. done.
Qed.

(** C23: When all ranks start a ring all-gather, every schedule ends after one
    round of the coordinator, and then every schedule of the threads ends: the
    thread of a channel has put its part of every rank's input at that rank's
    place in the output.  No message stays under way, and the statistics are
    those of the ring. *)
Theorem all_gather_ring_concatenates : ring_round coll channels ring rail et k operation st v -> all_gather_inputs ->
  exists v' output mem, ends_in gather_network
      (mkNetwork (map (fun r => Return (Ok (gather_state mem r, (output r, operation, ranges)))) (seq 0 w)) v') /\
    ready uid w v' (S k) /\ in_transit v' = in_transit v /\
    exists res, ends_in (mkNetwork (map (all_gather_thread uid w error_text coll channels m operation (fun p => gather_state mem (rank_of w p)) output) (seq 0 (channels * w))) v')
        (mkNetwork (map (fun p => Return (Ok (res p))) (seq 0 (channels * w))) v') /\
      (forall ch r, (ch < channels)%nat -> (r < w)%nat -> exists z, holds (memory (res (thread_of w ch r)).1) (execution (coll r)) (output r) z /\
        forall q i, (q < w)%nat -> (channel_start channels m ch <= i < channel_start channels m (S ch))%nat -> z !! (q * m + i)%nat = x q !! i) /\
      forall r, (r < w)%nat -> exists s, all_gather_ring_finish (coll r) (map (fun ch => Ok (res (thread_of w ch r)).2) (seq 0 channels)) = Ok s /\
        algorithm s = Ring /\ Device.steps s = wrap 32 (Z.of_nat (w - 1)) /\ reduction_kernel_launches s = 0.
Proof using L.
  intros Hround Hin. destruct (all_gather_start_runs Hround Hin) as (l1 & v' & output & mem & y & Hl1 & Hready & Htrans & Hbufs).
  exists v', output, mem. split; [eapply schedule_suffices; [exact Hl1|]; rewrite <- (map_map _ Return); apply returned_final|]. split; [done|]. split; [done|].
  pose proof (round_setting _ _ _ _ _ _ _ _ _ Hround) as Hset. pose proof (setting_world _ _ _ _ _ _ _ Hset) as Hw.
  assert (Hfits : fits_usize (w * m)).
  { pose proof (law_allocatable _ _ (all_gather_outputs Hin 0 Hw)) as Hf. pose proof law_size. unfold fits_usize. nia. }
  destruct (all_gather_threads_concatenate uid w error_text (round_device _ _ _ _ _ _ _ _ _ Hround) coll channels ring rail et Hset m Hfits operation (all_gather_fits Hin)
    (fun p => gather_state mem (rank_of w p)) output) with (x := x) (y := y) (v := v') as (l2 & res & Hl2 & Hres).
  - intros r Hr. apply (gather_output _ _ _ _ (Hbufs r Hr)).
  - intros r Hr. destruct (gather_output _ _ _ _ (Hbufs r Hr)) as [Hh <-]. apply (holds_length _ _ _ _ Hh).
  - intros p Hp. apply (gather_output _ _ _ _ (Hbufs (rank_of w p) ltac:(by apply (thread_bounds w Hw channels p Hp)))).
  - intros r Hr. split; [|apply (gather_own _ _ _ _ (Hbufs r Hr))]. rewrite <- (all_gather_length Hin r Hr). apply (holds_length _ _ _ _ (all_gather_held Hin r Hr)).
  - intros s Hs. by apply (clear_after _ _ _ _ _ _ _ _ _ _ Hround Htrans).
  - exists res. split; [eapply schedule_suffices; [exact Hl2|]; rewrite <- (map_map _ Return); apply returned_final|]. split.
    + intros ch r Hch Hr. destruct (thread_at channels ch r Hch Hr) as (Hp & Hc & Hrk). destruct (Hres _ Hp) as [(z & Hz & Hval) _]. rewrite Hc, Hrk in *.
      exists z. split; [done|]. intros q i Hq Hi. pose proof (channel_bounds channels m ch Hch). by rewrite Hval, decide_True by lia.
    + intros r Hr. destruct (round_counters _ _ _ _ _ _ _ _ _ Hround) as [Hb Hl]. apply (all_gather_stats (fun ch => (res (thread_of w ch r)).2)); try done.
      * by apply (setting_rank _ _ _ _ _ _ _ Hset r Hr).
      * intros ch Hch. destruct (thread_at channels ch r Hch Hr) as (Hp & _). by apply Hres.
Qed.
End all_gather.
End rounds.
