(* ===== verification/TensorRank.v ===== *)
(** * Tensor devices in the collectives over a transport

    src/src/tensor_device/device.rs (the [RankDevice] of a tensor device) and
    element.rs (the elements on the wire), with the proof that this device
    keeps the laws of [RankDevice]. *)
From S2P Require Import Prelude Protocol Errors Operation Comp Device TensorDevice RankDevice.

(** [sealed::Wire]: an element's little-endian bytes. *)
Class WireElement (T : Type) := {
  append_le : T -> list Z;
  read_le : list Z -> T;
}.

(** [B::sync] of the backend *)
Class BackendSync (T : Type) `{Backend T} := { sync : BDevice -> outcome ExecutionError unit }.

(** The constructors of [TensorDeviceError] that the device itself does not raise. *)
Inductive RankTensorError `{Backend T} :=
  | OnDevice (e : TensorDeviceError)
  | OnRank (e : RankError)
  | OnNetwork (e : NetworkError)
  | OnTopology (message : string)
  | OnWork (e : WorkError).

Section device.
Context {T : Type} `{HE : TensorElement T, HB : Backend T, HW : !WireElement T, HS : !BackendSync T}.

#[export] Instance tensor_errors : DeviceErrors RankTensorError := {
  from_rank := OnRank;
  from_network := OnNetwork;
  from_invalid_ring := OnTopology;
  from_work := OnWork;
}.

(** ** element.rs *)
Definition encode_values (values : list T) : list Z := concat (map append_le values).

Definition decode_values (bytes : list Z) : outcome TensorDeviceError (list T) :=
  _ ← fail_if (negb (is_multiple_of (Zlen bytes) (Z.of_nat size_of))) (InvalidBuffer "incomplete wire element");
  Ok (map read_le (chunks_exact size_of bytes)).

(** ** device.rs *)
Definition synchronize (d : TensorDevice) : comp (gmap positive MutexCell) TensorDeviceError unit := pure (map_err TensorDevice.Execution (sync (tensor_device d))).

Abbreviation raised := (comp_map_err OnDevice).

#[export] Instance tensor_rank : RankDevice T := {
  Memory := gmap positive MutexCell;
  Execution := TensorDevice;
  Buffer := TensorBuffer;
  Kernel := ReductionOperation;
  ReductionLaunch := TensorReductionLaunch;
  Error := RankTensorError;
  ELEMENT_SIZE := size_of;
  buffer_len := tensor_length;
  buffer_bytes b := (tensor_length b * size_of)%nat;
  encode := encode_values;
  decode bytes := map_err OnDevice (decode_values bytes);
  alloc d n := raised (allocate_tensor d n);
  copy_to_device d b values := raised (_ ← write d b values; synchronize d);
  copy_from_device d b := raised (download d b);
  copy_from_device_at d b offset n := raised (download_at d b offset n);
  copy_bytes_to_device_at d b offset bytes :=
    raised (values ← pure (decode_values bytes); _ ← write_at d b offset values; synchronize d);
  copy_bytes_from_device_at d b offset n := raised (values ← download_at d b offset n; mret (encode_values values));
  prepare_reduction d n offset := raised (pure (prepare n offset));
  launch_reduction d k launch source destination := raised (_ ← reduce d k launch source destination; synchronize d);
}.
End device.

(** ** What the wire elements and the backend promise *)
Class WireElementLaws (T : Type) `{TensorElement T, !WireElement T} := {
  append_le_bytes (x : T) : length (append_le x) = size_of /\ Forall is_byte (append_le x);
  read_append (x : T) : read_le (append_le x) = x;
}.

Class BackendSyncLaws (T : Type) `{BackendSync T} := { sync_law d : sync d <> Panic }.

Section laws.
Context {T : Type} `{HE : TensorElement T} `{HB : Backend T} `{HW : !WireElement T} `{HS : !BackendSync T}.
Context `{HL : !TensorElementLaws T} `{HBL : !BackendLaws T} `{HWL : !WireElementLaws T} `{HSL : !BackendSyncLaws T}.

#[export] Instance tensor_rank_view : RankView T := {
  Cell := positive;
  cell := value;
  view := tensor_view;
  usable d b := device b = tensor_device d /\ Z.of_nat (tensor_length b) * Z.of_nat size_of <= isize_max;
  allocatable d n := supports_dtype (tensor_device d) dtype = true /\ Z.of_nat n * Z.of_nat size_of <= isize_max;
  computes d op := supports_dtype (tensor_device d) dtype = true /\ (bitwise op = true -> dtype = DType.I32 \/ dtype = DType.I64);
  combine := elem_reduce;
  prepared n offset launch := launch = {| launch_length := n; destination_offset := offset |};
  device_error e := exists x, e = OnDevice (TensorDevice.Execution x);
}.

Lemma encode_length (l : list T) : length (encode_values l) = (length l * size_of)%nat /\ Forall is_byte (encode_values l).
Proof using HWL.
  induction l as [|a l [IH IHb]]; [done|]. unfold encode_values in *. cbn [map concat]. destruct (append_le_bytes a) as [Ha Hb].
  rewrite length_app, IH, Ha. split; [cbn; lia|]. by apply Forall_app.
Qed.

Lemma decode_encode (l : list T) : decode_values (encode_values l) = Ok l.
Proof using HWL HL.
  pose proof sealed_size as Hs. assert (Hz : 0 < Z.of_nat size_of) by lia. unfold decode_values, Zlen. rewrite (proj1 (encode_length l)).
  rewrite (proj2 (is_multiple_of_spec (Z.of_nat (length l * size_of)) _ Hz)) by (rewrite Nat2Z.inj_mul, Z.div_mul by lia; done). cbn [fail_if negb mbind outcome_bind].
  unfold encode_values. rewrite chunks_exact_concat; [|done|].
  - rewrite map_map. f_equal. rewrite <- (map_id l) at 2. apply map_ext. apply read_append.
  - apply Forall_map, Forall_true. intros x. apply append_le_bytes.
Qed.

Lemma device_holds s d b l : holds s d b l -> Device.holds s d b l.
Proof using HL. intros [[Hd Hb] Hv Hl]. split; [split; [done|by apply allocatable_fits]|done|done]. Qed.

Lemma raised_wp {A} (m : comp (gmap positive MutexCell) TensorDeviceError A) (Q : A -> gmap positive MutexCell -> Prop) s :
  wp Device.device_error m Q s -> wp device_error (comp_map_err OnDevice m) Q s.
Proof using Type. apply wp_map_err. intros e [x ->]. by exists x. Qed.

(** A write or a reduction is done when the device has been synchronized. *)
Lemma synchronized_wp {A} (m : comp (gmap positive MutexCell) TensorDeviceError A) (Q : unit -> gmap positive MutexCell -> Prop) d s :
  wp Device.device_error m (fun _ s' => Q tt s') s -> wp Device.device_error (_ ← m; synchronize d) Q s.
Proof using HSL.
  intros Hm. apply wp_bind. eapply wp_mono; [exact Hm|]. intros a s' HQ. unfold synchronize, wp, pure.
  pose proof (sync_law (tensor_device d)) as Hs. destruct (sync (tensor_device d)) as [[]|e|]; cbn; [done|by exists e|done].
Qed.

#[export] Instance tensor_rank_laws : RankLaws T.
Proof using HL HBL HWL HSL.
  split.
  - apply sealed_size.
  - done.
  - apply encode_length.
  - intros l k. cbn. unfold encode_values. by rewrite map_app, concat_app.
  - intros l. cbn. by rewrite decode_encode.
  - intros d b [_ Hb]. cbn. unfold isize_max in Hb. lia.
  - intros d n [_ Hn]. cbn. unfold isize_max in Hn. lia.
  - intros d n s Hal. apply raised_wp. eapply wp_mono.
    + cbn. unfold allocate_tensor. apply (alloc_wp d n s Hal).
    + intros b s' ([Hd _] & Hb & Hrest). split; [split; [done|cbn in Hb |- *; rewrite Hb; apply Hal]|done].
  - intros d b l values s Hh Hl. apply raised_wp, synchronized_wp. by apply (write_wp d b l values s (device_holds _ _ _ _ Hh)).
  - intros d b l s Hh. apply raised_wp. unfold download. pose proof (holds_length _ _ _ _ Hh) as Hl. cbn in Hl.
    eapply wp_mono; [apply (download_at_wp d b l 0 (tensor_length b) s (device_holds _ _ _ _ Hh)); lia|].
    intros values s' [-> Hu]. split; [|done]. unfold sub. by rewrite drop_0, take_ge by lia.
  - intros d b l offset values s Hh Hle. apply raised_wp. apply wp_bind. eapply wp_pure; [apply decode_encode|]. cbn beta.
    apply synchronized_wp. by apply (write_at_wp d b l offset values s (device_holds _ _ _ _ Hh)).
  - intros d b l offset n s Hh Hle. apply raised_wp. apply wp_bind.
    eapply wp_mono; [by apply (download_at_wp d b l offset n s (device_holds _ _ _ _ Hh))|]. intros values s' [-> Hu]. by apply wp_ret.
  - intros d n offset s Hn. cbn in Hn. apply raised_wp. eapply wp_pure; [|done]. unfold prepare.
    pose proof sealed_size. rewrite checked_add_usize_Some by (unfold fits_usize; nia). cbn [ok_or mbind outcome_bind].
    rewrite checked_length_ok by (unfold isize_max; lia). done.
  - intros d op n offset launch src dst lsrc ldst s -> Hc Hs Hd Hne Hn Ho. apply raised_wp, synchronized_wp.
    by apply (reduce_wp d op n offset src dst lsrc ldst s Hc (device_holds _ _ _ _ Hs) (device_holds _ _ _ _ Hd)).
Qed.
End laws.
