(* ===== verification/RingExample.v ===== *)
(** * Three ranks with tensors of bytes

    The theorems of [RingProperties] at a concrete world: three tensor devices
    over a backend whose tensors are lists of bytes, two channels with rings of
    opposite directions. *)
From S2P Require Import Prelude Protocol Agreement Errors Layout Tags Payload Router Operation Comp Device Processes.
From S2P Require Import Topology Tuning Ring Session SessionRounds TensorDevice RankDevice TensorRank DeviceCollective DeviceRing RingCollectives RingShards RingProperties.
From Stdlib Require Import Strings.Byte.

Module ByteWorld.
Import Crc32Ieee.

Definition byte_of (z : Z) : byte := default x00 (Byte.of_N (Z.to_N (z mod 256))).
Definition value_of (b : byte) : Z := Z.of_N (Byte.to_N b).

#[export] Instance byte_element : TensorElement byte := { dtype := DType.U8; size_of := 1 }.
#[export] Instance byte_element_laws : TensorElementLaws byte.
Proof. split; [done|cbn; lia]. Qed.

Definition add (x y : byte) : byte := byte_of (value_of x + value_of y).
Definition mul (x y : byte) : byte := byte_of (value_of x * value_of y).
Definition lower (x y : byte) : bool := value_of x <? value_of y.
Definition bitwise_of (op : Z -> Z -> Z) (x y : byte) : byte := byte_of (op (value_of x) (value_of y)).
Definition where_ (t : list byte) (m : list bool) (u : list byte) : list byte :=
  zip_with (fun b '(x, y) => if b : bool then y else x) m (zip t u).

#[export] Instance byte_backend : Backend byte := {
  BDevice := nat;
  FloatTensor := list byte;
  IntTensor := list byte;
  BoolTensor := list bool;
  TensorData := list byte;
  ExecutionError := Empty_set;
  DataError := unit;
  supports_dtype _ d := bool_decide (d = DType.U8);
  float_empty n _ := repeat x00 n;
  int_empty n _ := repeat x00 n;
  float_from_data l _ := l;
  int_from_data l _ := l;
  float_slice t a b := sub a (b - a) t;
  int_slice t a b := sub a (b - a) t;
  float_slice_assign t a _ u := put a u t;
  int_slice_assign t a _ u := put a u t;
  float_add := zip_with add;
  float_mul := zip_with mul;
  float_lower := zip_with lower;
  float_mask_where := where_;
  int_add := zip_with add;
  int_mul := zip_with mul;
  int_lower := zip_with lower;
  int_mask_where := where_;
  bitwise_and := zip_with (bitwise_of Z.land);
  bitwise_or := zip_with (bitwise_of Z.lor);
  bitwise_xor := zip_with (bitwise_of Z.lxor);
  float_into_data t := Ok t;
  int_into_data t := Ok t;
  into_vec d := Ok d;
  float_meta t := (DType.Other, 0%nat, [length t]);
  int_meta t := (DType.U8, 0%nat, [length t]);
}.

#[export] Instance byte_backend_laws : BackendLaws byte.
Proof.
  refine {| float_elements (t : FloatTensor) := t; int_elements (t : IntTensor) := t; bool_elements (t : BoolTensor) := t;
            elem_add := add; elem_mul := mul; elem_and := bitwise_of Z.land; elem_or := bitwise_of Z.lor; elem_xor := bitwise_of Z.lxor;
            elem_lower := lower |};
    intros; try done; try apply repeat_length; right; by eexists.
Defined.

#[export] Instance byte_wire : WireElement byte := { append_le b := [value_of b]; read_le bytes := byte_of (default 0 (head bytes)) }.
#[export] Instance byte_wire_laws : WireElementLaws byte.
Proof. split; [|by intros []]. intros x. split; [done|]. apply Forall_singleton. unfold is_byte. cbn. by destruct x. Qed.

#[export] Instance byte_sync : BackendSync byte := { sync _ := Ok tt }.
#[export] Instance byte_sync_laws : BackendSyncLaws byte.
Proof. by split. Qed.

(** The ranks. *)
Definition error_text (e : NetworkError) : list Z := [].
Definition uid : list Z := map Z.of_nat (seq 0 16).
Definition rings : list (list nat) := [[0; 1; 2]; [2; 1; 0]]%nat.
Definition ring (channel : nat) : list nat := default [] (rings !! channel).
Definition rank_tuning : CollectiveTuning :=
  mkTuning PolicyRing 0 [0; 1; 2]%nat rings 2 1 None None (mkTopology 3 [] [] []) 0 0 TcpHostStaged None.
Definition ranks (r : nat) : DeviceCollective (T:=byte) :=
  mkCollective {| tensor_device := r |} (mkSession uid r 3 TcpHostStaged 1) rank_tuning [0%nat] ElementType.U8.

(** Rank [r] holds [n] bytes in one buffer. *)
Definition rank_bytes (n r : nat) : list byte := map (fun i => byte_of (Z.of_nat (100 * r + i))) (seq 0 n).
Definition rank_buffer (n r : nat) : TensorBuffer := {| value := 1%positive; device := r; tensor_length := n |}.
Definition rank_state (n r : nat) : RankState (T:=byte) :=
  mkState ({[ 1%positive := {| poisoned := false; guarded := Some (Int (rank_bytes n r)) |} ]} : gmap positive MutexCell) 0 5.
Definition quiet : Wire := mkWire ∅ ∅ ∅.

Lemma no_device_errors e : ~ device_error (T:=byte) e.
Proof. intros [[] _]. Qed.

Lemma ranks_setting : ring_setting uid 3 ranks 2 ring (fun _ => 0%nat) ElementType.U8.
Proof.
  split.
  - split; [done| |unfold in_width; lia|lia]. apply Forall_map, Forall_forall. intros i Hi%elem_of_seq. unfold is_byte. lia.
  - lia.
  - intros [|[|ch]] Hc; [done| |lia]. symmetry; apply (Permutation_rev [0; 1; 2]%nat).
  - done.
  - intros r Hr. done.
  - intros r [|[|ch]] Hr Hc; [| |lia]; (split; [done|]); (split; [done|]); cbn; lia.
Qed.

Lemma ranks_round n : ring_round (T:=byte) uid 3 ranks 2 ring (fun _ => 0%nat) ElementType.U8 0 5 (rank_state n) quiet.
Proof.
  split.
  - apply no_device_errors.
  - apply ranks_setting.
  - lia.
  - apply ready_start.
  - done.
  - done.
  - intros ph s _ p _. apply lookup_empty.
  - cbn. lia.
Qed.

Lemma rank_computes r : computes (T:=byte) (execution (ranks r)) Sum /\ combine (T:=byte) Sum = add.
Proof. done. Qed.

Lemma rank_allocates r n : (n <= 100)%nat -> allocatable (T:=byte) (execution (ranks r)) n.
Proof. intros Hn. split; [done|]. change (Z.of_nat n * 1 <= isize_max). unfold isize_max. lia. Qed.

Lemma small_fits n : (n <= 100)%nat -> chunk_fits (T:=byte) n.
Proof. intros Hn. unfold chunk_fits. change MAX_FRAME_PAYLOAD_BYTES with 1073741824. change (Z.of_nat (n * 1) <= 1073741824). lia. Qed.

Lemma part_small total parts k : (0 < parts)%nat -> (k < parts)%nat -> (part_start total parts (S k) - part_start total parts k <= total)%nat.
Proof. intros Hp Hk. pose proof (part_end_le total parts k Hk). lia. Qed.

Lemma channel_small n ch : (ch < 2)%nat -> (channel_length 2 n ch <= n)%nat.
Proof. intros Hc. unfold channel_length, channel_start. by apply part_small; [lia|]. Qed.

Lemma chunk_small n ch j : (ch < 2)%nat -> (j < 3)%nat -> (chunk_length 3 2 n ch j <= n)%nat.
Proof.
  intros Hc Hj. unfold chunk_length. pose proof (part_small (channel_length 2 n ch) 3 j ltac:(lia) Hj). pose proof (channel_small n ch Hc). lia.
Qed.

Lemma all_reduce_example : all_reduce_inputs (T:=byte) 3 ranks 2 (rank_state 7) 2 7 (rank_buffer 7) (fun _ => Sum) (rank_bytes 7) add.
Proof.
  split; try done.
  - intros ch j Hc Hj. apply small_fits. pose proof (chunk_small 7 ch j Hc Hj). lia.
  - intros r ch j Hr Hc Hj. apply rank_allocates. pose proof (chunk_small 7 ch j Hc Hj). lia.
Qed.

Lemma reduce_scatter_example : reduce_scatter_inputs (T:=byte) 3 ranks 2 (rank_state 12) 2 4 (rank_buffer 12) (fun _ => Sum) (rank_bytes 12) add.
Proof.
  split; [done|done|done|done|..].
  - intros ch Hc. apply small_fits. pose proof (channel_small 4 ch Hc). lia.
  - intros r ch Hr Hc. apply rank_allocates. pose proof (channel_small 4 ch Hc). lia.
  - intros r Hr. split; apply rank_allocates; lia.
Qed.

Lemma all_gather_example : all_gather_inputs (T:=byte) 3 ranks 2 (rank_state 4) 2 4 (rank_buffer 4) (rank_bytes 4).
Proof.
  split; [done|done|done|..].
  - intros ch Hc. apply small_fits. pose proof (channel_small 4 ch Hc). lia.
  - intros r Hr. apply rank_allocates. lia.
Qed.
End ByteWorld.

Import Crc32Ieee ByteWorld.

Lemma all_reduce_ring_reduces_witness : exists result, length result = 7%nat /\ reduces add (rank_bytes 7) 3 result.
Proof.
  destruct (all_reduce_ring_reduces (T:=byte) uid 3 error_text ranks 2 ring (fun _ => 0%nat) ElementType.U8 0 5 (rank_state 7) quiet Sum 2 7 (rank_buffer 7)
    (fun _ => Sum) (rank_bytes 7) add (ranks_round 7) all_reduce_example) as (v' & _ & _ & _ & res & result & _ & Hlen & Hred & _).
  exists result. exact (conj Hlen Hred).
Defined.

Lemma reduce_scatter_ring_shards_witness : exists result, length result = 12%nat /\ reduces add (rank_bytes 12) 3 result.
Proof.
  destruct (reduce_scatter_ring_shards (T:=byte) uid 3 error_text ranks 2 ring (fun _ => 0%nat) ElementType.U8 0 5 (rank_state 12) quiet Sum 2 4 (rank_buffer 12)
    (fun _ => Sum) (rank_bytes 12) add (ranks_round 12) reduce_scatter_example) as (v' & working & output & mem & _ & _ & _ & res & result & _ & Hlen & Hred & _).
  exists result. exact (conj Hlen Hred).
Defined.

Lemma all_gather_ring_concatenates_witness : exists v', ready uid 3 v' 1.
Proof.
  destruct (all_gather_ring_concatenates (T:=byte) uid 3 error_text ranks 2 ring (fun _ => 0%nat) ElementType.U8 0 5 (rank_state 4) quiet 2 4 (rank_buffer 4)
    (rank_bytes 4) (ranks_round 4) all_gather_example) as (v' & output & mem & _ & Hready & _).
  exists v'. exact Hready.
Defined.
