(* ===== verification/HostExchange.v ===== *)
(** * Host-staged collectives: src/src/rank/host/exchange.rs

    [HostStagedExchange] keeps no state of its own: its operations exchange
    host payloads through a session, whose sequence number they pass on.  The
    waiting times of the session (heartbeat and timeouts) are left out. *)
From S2P Require Import Prelude Protocol Agreement Errors Layout Tags Payload Router Operation Comp Device Processes.
From S2P Require Import Session.

Section host.
Context `{Crc32Hash} (uid : list Z) (world : nat) (error_text : NetworkError -> list Z) (lane : Z -> nat).
#[local] Existing Instance session_mail.
#[local] Instance host_mail : Mail := session_mail uid world error_text lane.
Context (s : TcpRankSession).
Abbreviation world_size := (Z.of_nat (session_world s)).
Abbreviation my_rank := (Z.of_nat (rank s)).

Definition validate_root (root : Z) : rresult unit := fail_if (world_size <=? root) (RankError.RankOutOfRange root world_size).

Definition stats (a : CollectiveAlgorithm) (n transferred_bytes launches : Z) : rresult CollectiveStats :=
  bytes ← ok_or (checked 64 transferred_bytes) (RankError.Overflow "TCP transferred bytes");
  Ok {| algorithm := a; transport := session_transport s; steps := n; stats_bytes := bytes; reduction_kernel_launches := launches |}.

(** [self.session.exchange_with_options(..)?] *)
Definition exchanged_host (next : Z) (op : Opcode) (et : ElementType) (options : ExchangeOptions) (data : list Z) : program RankError (Z * Frame) :=
  convert_error RankError.Network (exchange_with_options uid world error_text lane s next op et options data).

(** [world_size().saturating_sub(1)] *)
Definition direct_steps : Z := saturating_sub 32 world_size 1.

Definition all_gather_host_staged (next : Z) (et : ElementType) (element_count : Z) (data : list Z) : program RankError (Z * (list Z * CollectiveStats)) :=
  rank_bytes ← lift (validate_host_reduction_payload et element_count data);
  '(next, response) ← exchanged_host next Opcode.AllGather et (exchange_options_new ANY_RANK element_count) data;
  expected ← lift (ok_or (checked_mul usize_bits rank_bytes world_size) (RankError.Overflow "host all-gather response bytes"));
  _ ← lift (validate_host_reduction_response response.(payload) expected);
  bytes ← lift (ok_or (checked_add usize_bits rank_bytes expected) (RankError.Overflow "host all-gather transferred bytes"));
  st ← lift (stats Direct direct_steps bytes 0);
  mret (next, (response.(payload), st)).

Definition all_reduce_host_staged (next : Z) (et : ElementType) (element_count : Z) (data : list Z) (op : ReductionOperation)
    : program RankError (Z * (list Z * CollectiveStats)) :=
  rank_bytes ← lift (validate_host_reduction_payload et element_count data);
  '(next, response) ← exchanged_host next Opcode.AllReduce et (reduction_exchange_options ANY_RANK element_count (operation_code op)) data;
  expected ← lift (ok_or (checked_mul usize_bits rank_bytes world_size) (RankError.Overflow "host all-reduce response bytes"));
  _ ← lift (validate_host_reduction_response response.(payload) expected);
  bytes ← lift (ok_or (checked_add usize_bits rank_bytes (Zlen response.(payload))) (RankError.Overflow "host all-reduce transferred bytes"));
  st ← lift (stats Direct direct_steps bytes 0);
  mret (next, (response.(payload), st)).

Definition reduce_host_staged (next : Z) (et : ElementType) (element_count : Z) (data : list Z) (root : Z) (op : ReductionOperation)
    : program RankError (Z * (option (list Z) * CollectiveStats)) :=
  _ ← lift (validate_root root);
  rank_bytes ← lift (validate_host_reduction_payload et element_count data);
  '(next, response) ← exchanged_host next Opcode.Reduce et (reduction_exchange_options root element_count (operation_code op)) data;
  expected ← lift (if my_rank =? root then ok_or (checked_mul usize_bits rank_bytes world_size) (RankError.Overflow "host reduce response bytes") else Ok 0);
  _ ← lift (validate_host_reduction_response response.(payload) expected);
  bytes ← lift (ok_or (checked_add usize_bits rank_bytes (Zlen response.(payload))) (RankError.Overflow "host reduce transferred bytes"));
  st ← lift (stats Direct direct_steps bytes 0);
  mret (next, (if my_rank =? root then Some response.(payload) else None, st)).

Definition reduce_scatter_host_staged (next : Z) (et : ElementType) (element_count : Z) (data : list Z) (op : ReductionOperation)
    : program RankError (Z * (list Z * CollectiveStats)) :=
  _ ← lift (fail_if (negb (is_multiple_of element_count world_size)) (RankError.InvalidLength "host reduce-scatter input length must be divisible by world size"));
  rank_bytes ← lift (validate_host_reduction_payload et element_count data);
  '(next, response) ← exchanged_host next Opcode.ReduceScatter et (reduction_exchange_options ANY_RANK element_count (operation_code op)) data;
  _ ← lift (validate_host_reduction_response response.(payload) rank_bytes);
  bytes ← lift (ok_or (checked_add usize_bits rank_bytes (Zlen response.(payload))) (RankError.Overflow "host reduce-scatter transferred bytes"));
  st ← lift (stats Direct direct_steps bytes 0);
  mret (next, (response.(payload), st)).

Definition exchange_host_payload (collective_rail_order : list nat) (et : ElementType) (data : list Z) (receive_bytes destination source : Z)
    (rail_hint : nat) (tag : Z) : program RankError (list Z) :=
  let element_bytes := byte_width et in
  _ ← lift (fail_if ((element_bytes =? 0) || negb (is_multiple_of (Zlen data) element_bytes) || negb (is_multiple_of receive_bytes element_bytes))
             (RankError.InvalidLength "pairwise host payload does not align to its element type"));
  rail ← lift (if (length collective_rail_order =? 0)%nat then Panic else index collective_rail_order (rail_hint mod length collective_rail_order));
  _ ← convert_error RankError.Network (send_on_rail uid world error_text lane s rail destination tag et (Zlen data / element_bytes) data);
  response ← convert_error RankError.Network (receive_on_rail uid world error_text lane s rail source tag et (receive_bytes / element_bytes));
  _ ← lift (fail_if (negb (Zlen response.(payload) =? receive_bytes))
             (RankError.Network (InvalidConfiguration "pairwise host response has {} bytes, expected {receive_bytes}")));
  mret response.(payload).

Definition host_barrier (next : Z) : program RankError (Z * CollectiveStats) :=
  next ← convert_error RankError.Network (session_barrier uid world error_text lane s next);
  st ← lift (stats Direct (if 1 <? world_size then 1 else 0) 0 0);
  mret (next, st).
End host.
