(* ===== verification/DirectCollectives.v ===== *)
(** * Direct collectives: direct.rs, reduce_dispatch.rs, point_to_point.rs and
    bounded_broadcast.rs of src/src/rank/device_collective

    These exchange whole buffers through the coordinator.  Where a collective
    chooses between the coordinator, a ring and the hierarchy by the plan of its
    tuning, [route] is that choice and the operation of this file is what
    follows when it is the coordinator; [DeviceCollective] has the rings. *)
From S2P Require Import Prelude Protocol Agreement Errors Layout Tags Payload Router Operation Comp Device Processes.
From S2P Require Import Topology Tuning Session HostExchange RankDevice DeviceCollective.

(** ** Plans of chunked broadcasts *)
Record ChunkedBroadcastPlan := mkBroadcastPlan {
  elements : nat;
  element_bytes : nat;
  chunk_elements : nat;
}.

Definition ISIZE_MAX : Z := 2 ^ 63 - 1.

Definition plan_validate (p : ChunkedBroadcastPlan) : rresult unit :=
  _ ← fail_if ((element_bytes p =? 0)%nat || (chunk_elements p =? 0)%nat) (RankError.InvalidLength "native broadcast width/chunk must be nonzero");
  bytes ← ok_or (checked_mul_usize (elements p) (element_bytes p)) (RankError.Overflow "native broadcast buffer bytes");
  fail_if (ISIZE_MAX <? Z.of_nat bytes) (RankError.InvalidLength "native broadcast buffer exceeds addressable size").

Definition plan_new (n width max_chunk_bytes : nat) : rresult ChunkedBroadcastPlan :=
  _ ← fail_if ((width =? 0)%nat || (max_chunk_bytes <? width)%nat) (RankError.InvalidLength "broadcast chunk must fit one native element");
  chunk ← div_usize max_chunk_bytes width;
  let p := mkBroadcastPlan n width chunk in
  _ ← plan_validate p;
  Ok p.

Definition plan_payload_bytes (p : ChunkedBroadcastPlan) : rresult nat := _ ← plan_validate p; mul_usize (elements p) (element_bytes p).

(** [usize::div_ceil] *)
Definition div_ceil_usize {E} (a b : nat) : outcome E nat :=
  if (b =? 0)%nat then Panic else Ok (a / b + Nat.b2n (negb (a mod b =? 0)))%nat.

Definition plan_chunk_count (p : ChunkedBroadcastPlan) : rresult nat := _ ← plan_validate p; div_ceil_usize (elements p) (chunk_elements p).
Definition plan_maximum_chunk_bytes (p : ChunkedBroadcastPlan) : rresult nat :=
  _ ← plan_validate p; mul_usize (elements p `min` chunk_elements p) (element_bytes p).

Record BroadcastProgress := mkProgress {
  completed_elements : nat;
  total_elements : nat;
  completed_chunks : nat;
  total_chunks : nat;
  restored_elements : nat;
}.

(** The choice of a plan. *)
Inductive Route := Hierarchically (channels : nat) | AroundRing (channels : nat) | Directly.

Record ReceivedMessage (B : Type) := mkReceived { received_buffer : B; received_source : Z; received_tag : Z }.
Arguments mkReceived {B}.
Arguments received_buffer {B}.
Arguments received_source {B}.
Arguments received_tag {B}.

Section direct.
Context `{Crc32Hash} (uid : list Z) (world : nat) (error_text : NetworkError -> list Z) (lane : Z -> nat).
#[local] Existing Instance collective_mail.
#[local] Instance direct_mail : Mail := collective_mail uid world error_text lane.
Context {T : Type} {D : RankDevice T} {DE : DeviceErrors Error}.
Context (c : DeviceCollective (T:=T)).
Abbreviation world_size := (session_world (session c)).
Abbreviation my_rank := (Z.of_nat (rank (session c))).
Abbreviation exec := (execution c).
Abbreviation rank_program := (rank_program (T:=T) uid world error_text lane).
Abbreviation just := (just uid world error_text lane).
Abbreviation on_device := (on_device uid world error_text lane).
Abbreviation on_session := (on_session uid world error_text lane).
Abbreviation exchange_options := (exchange_options uid world error_text lane c).

Definition route (kind : CollectiveKind) (bytes : nat) : outcome Error Route :=
  if (1 <? world_size)%nat then
    p ← plan (tuning c) kind (Z.of_nat bytes);
    Ok match plan_algorithm p with
       | Hierarchical => Hierarchically (plan_ring_channels p)
       | Ring => AroundRing (plan_ring_channels p)
       | Direct | Pairwise => Directly
       end
  else Ok Directly.

Definition exchange (op : Opcode) (root : Z) (count : nat) (data : list Z) : rank_program Frame :=
  exchange_options op (exchange_options_new root (Z.of_nat count)) data.

(** [D::encode(&copy_from_device(buffer)?)] *)
Definition encoded (b : Buffer) : rank_program (list Z) := values ← on_device (copy_from_device exec b); mret (encode values).

(** A new buffer with the values of a response. *)
Definition decoded_into_new (data : list Z) (n : nat) : rank_program Buffer :=
  values ← just (decode_values data (Z.of_nat n));
  output ← on_device (alloc exec n);
  _ ← on_device (copy_to_device exec output values);
  mret output.

Abbreviation direct_step := (direct_step c).
Abbreviation other_ranks := (other_ranks c).
Definition stats_of (steps : Z) (bytes : nat) (launches : Z) : rank_program CollectiveStats := just (stats c Direct steps (Z.of_nat bytes) launches).

(** ** direct.rs *)
Definition broadcast (buffer : Buffer) (root : Z) : rank_program CollectiveStats :=
  _ ← just (validate_root c root);
  data ← (if my_rank =? root then encoded buffer else mret []);
  response ← exchange Opcode.Broadcast root (buffer_len buffer) data;
  values ← just (decode_values response.(payload) (Z.of_nat (buffer_len buffer)));
  _ ← on_device (copy_to_device exec buffer values);
  stats_of direct_step (buffer_bytes buffer) 0.

Definition all_gather_direct (input : Buffer) : rank_program (Buffer * CollectiveStats) :=
  data ← encoded input;
  response ← exchange Opcode.AllGather ANY_RANK (buffer_len input) data;
  output_length ← just (ok_or (checked_mul_usize (buffer_len input) world_size) (overflow "TCP all-gather output length"));
  output ← decoded_into_new response.(payload) output_length;
  bytes ← just (add_usize (buffer_bytes input) (length response.(payload)));
  st ← stats_of direct_step bytes 0;
  mret (output, st).

Definition gather (input : Buffer) (root : Z) : rank_program (option Buffer * CollectiveStats) :=
  _ ← just (validate_root c root);
  data ← encoded input;
  response ← exchange Opcode.Gather root (buffer_len input) data;
  output ← (if my_rank =? root then
      output_length ← just (ok_or (checked_mul_usize (buffer_len input) world_size) (overflow "TCP gather output length"));
      output ← decoded_into_new response.(payload) output_length;
      mret (Some output)
    else
      _ ← just (fail_if (negb (bool_decide (response.(payload) = []))) (network_error "non-root gather response contains data"));
      mret None);
  bytes ← just (add_usize (buffer_bytes input) (length response.(payload)));
  st ← stats_of direct_step bytes 0;
  mret (output, st).

Definition scatter (root_input : option Buffer) (root : Z) (output_length : nat) : rank_program (Buffer * CollectiveStats) :=
  _ ← just (validate_root c root);
  total_length ← just (ok_or (checked_mul_usize output_length world_size) (overflow "TCP scatter input length"));
  data ← match my_rank =? root, root_input with
         | true, Some input =>
             if (buffer_len input =? total_length)%nat then encoded input
             else just (Err (invalid_length "TCP scatter root input has the wrong length"))
         | true, None => just (Err (invalid_length "TCP scatter root must provide the input buffer"))
         | false, None => mret []
         | false, Some _ => just (Err (invalid_length "non-root TCP scatter rank cannot provide the input buffer"))
         end;
  response ← exchange Opcode.Scatter root total_length data;
  output ← decoded_into_new response.(payload) output_length;
  bytes ← just (add_usize (length response.(payload)) (match root_input with Some b => buffer_bytes b | None => 0%nat end));
  st ← stats_of direct_step bytes 0;
  mret (output, st).

(** ** reduce_dispatch.rs *)
Abbreviation reduction_options root count op := (reduction_exchange_options root (Z.of_nat count) (operation_code op)).

Definition all_reduce_direct (buffer : Buffer) (op : ReductionOperation) (function : Kernel) : rank_program CollectiveStats :=
  data ← encoded buffer;
  response ← exchange_options Opcode.AllReduce (reduction_options ANY_RANK (buffer_len buffer) op) data;
  launches ← on_device (reduce_concatenated c response.(payload) buffer (buffer_len buffer) function);
  bytes ← just (add_usize (length data) (length response.(payload)));
  stats_of other_ranks bytes launches.

Definition reduce (input : Buffer) (root : Z) (op : ReductionOperation) (function : Kernel) : rank_program (option Buffer * CollectiveStats) :=
  _ ← just (validate_root c root);
  data ← encoded input;
  response ← exchange_options Opcode.Reduce (reduction_options root (buffer_len input) op) data;
  result ← (if my_rank =? root then
      output ← on_device (alloc exec (buffer_len input));
      launches ← on_device (reduce_concatenated c response.(payload) output (buffer_len input) function);
      mret (Some output, launches)
    else
      _ ← just (fail_if (negb (bool_decide (response.(payload) = []))) (network_error "non-root reduce response contains data"));
      mret (None, 0));
  bytes ← just (add_usize (length data) (length response.(payload)));
  st ← stats_of other_ranks bytes result.2;
  mret (result.1, st).

(** What [reduce_scatter] does before its plan. *)
Definition reduce_scatter_output_length (input : Buffer) : outcome Error nat :=
  _ ← fail_if (negb (is_multiple_of (Z.of_nat (buffer_len input)) (Z.of_nat world_size)))
        (invalid_length "TCP reduce-scatter input length must be divisible by world size");
  div_usize (buffer_len input) world_size.

Definition reduce_scatter_direct (input : Buffer) (output_length : nat) (op : ReductionOperation) (function : Kernel)
    : rank_program (Buffer * CollectiveStats) :=
  data ← encoded input;
  response ← exchange_options Opcode.ReduceScatter (reduction_options ANY_RANK (buffer_len input) op) data;
  output ← on_device (alloc exec output_length);
  launches ← on_device (reduce_concatenated c response.(payload) output output_length function);
  bytes ← just (add_usize (length data) (length response.(payload)));
  st ← stats_of other_ranks bytes launches;
  mret (output, st).

(** ** point_to_point.rs *)
Definition send_buffer (input : Buffer) (destination tag : Z) : rank_program CollectiveStats :=
  data ← encoded input;
  _ ← on_session (send uid world error_text lane (session c) destination tag (collective_element_type c) (Z.of_nat (buffer_len input)) data);
  stats_of 1 (length data) 0.

Definition receive_buffer (source tag : Z) (n : nat) : rank_program (ReceivedMessage Buffer * CollectiveStats) :=
  response ← on_session (receive uid world error_text lane (session c) source tag (collective_element_type c) (Z.of_nat n));
  _ ← just (fail_if (negb (Protocol.tag response.(header) =? tag)
                     || negb (bool_decide (element_type response.(header) = collective_element_type c))
                     || negb (element_count response.(header) =? Z.of_nat n)
                     || negb (source_rank response.(header) =? source))
             (network_error "TCP point-to-point response does not match the receive request"));
  buffer ← decoded_into_new response.(payload) n;
  st ← stats_of 1 (length response.(payload)) 0;
  mret (mkReceived buffer (source_rank response.(header)) tag, st).

(** ** bounded_broadcast.rs *)
Definition broadcast_at (buffer : Buffer) (offset n : nat) (root : Z) : rank_program CollectiveStats :=
  _ ← just (validate_root c root);
  stop ← just (ok_or (checked_add_usize offset n) (overflow "broadcast range end"));
  _ ← just (fail_if (buffer_len buffer <? stop)%nat (invalid_length "broadcast range exceeds actual native buffer"));
  expected ← just (ok_or (checked_mul_usize n ELEMENT_SIZE) (overflow "broadcast range bytes"));
  data ← (if my_rank =? root then on_device (copy_bytes_from_device_at exec buffer offset n) else mret []);
  _ ← just (fail_if ((my_rank =? root) && negb (length data =? expected)%nat) (invalid_length "native range readback changed byte count"));
  response ← exchange_options Opcode.Broadcast (mkExchangeOptions root (Z.of_nat n) 0 (Z.of_nat offset)) data;
  _ ← just (fail_if (negb (length response.(payload) =? expected)%nat) (network_error "broadcast range response byte count differs"));
  _ ← on_device (copy_bytes_to_device_at exec buffer offset response.(payload));
  stats_of direct_step expected 0.

(** The fields that all ranks compare before a chunked broadcast. *)
Definition plan_fields (buffer : Buffer) (root : Z) (p : ChunkedBroadcastPlan) (restored : nat) : list Z :=
  [root; Z.of_nat (buffer_len buffer); Z.of_nat (elements p); Z.of_nat (element_bytes p); Z.of_nat (chunk_elements p);
   Z.of_nat restored; ElementType.element_code (collective_element_type c)].

Definition plan_agreement (buffer : Buffer) (root : Z) (p : ChunkedBroadcastPlan) (restored : nat) : rank_program CollectiveStats := fun st =>
  let data := concat (map (to_le 8) (plan_fields buffer root p restored)) in
  '(next, (requests, s)) ← convert_error from_rank
     (all_gather_host_staged uid world error_text lane (session c) (sequence_number st) ElementType.U64 (Zlen (plan_fields buffer root p restored)) data);
  _ ← lift (fail_if (existsb (fun other => negb (bool_decide (other = data))) (chunks_exact (length data) requests))
             (network_error "native broadcast plans/ranges differ across ranks"));
  mret (mkState (memory st) next (internal_sequence st), s).

Definition plan_progress (buffer : Buffer) (root : Z) (p : ChunkedBroadcastPlan) (restored : nat) : outcome Error BroadcastProgress :=
  _ ← rank_error (plan_validate p);
  _ ← validate_root c root;
  _ ← fail_if (negb (elements p =? buffer_len buffer)%nat || negb (element_bytes p =? ELEMENT_SIZE)%nat
               || negb (Z.of_nat (element_bytes p) =? byte_width (collective_element_type c)))
        (invalid_length "broadcast plan does not match actual native buffer/type");
  _ ← fail_if ((elements p <? restored)%nat
               || (negb (restored =? elements p)%nat && negb (is_multiple_of (Z.of_nat restored) (Z.of_nat (chunk_elements p)))))
        (invalid_length "restored broadcast prefix is not an actual chunk boundary");
  total ← rank_error (plan_chunk_count p);
  chunks ← (if (restored =? elements p)%nat then Ok total else div_usize restored (chunk_elements p));
  Ok (mkProgress restored (elements p) chunks total restored).

(** One round of the loop: the next chunk and the callback. *)
Definition broadcast_chunk (buffer : Buffer) (root : Z) (p : ChunkedBroadcastPlan) (progress : BroadcastProgress -> outcome Error unit)
    (state : BroadcastProgress) (s : CollectiveStats) : rank_program (BroadcastProgress * CollectiveStats) :=
  remaining ← just (sub_usize (elements p) (completed_elements state));
  let n := (chunk_elements p `min` remaining)%nat in
  chunk ← broadcast_at buffer (completed_elements state) n root;
  completed ← just (add_usize (completed_elements state) n);
  chunks ← just (add_usize (completed_chunks state) 1);
  let state := mkProgress completed (total_elements state) chunks (total_chunks state) (DirectCollectives.restored_elements state) in
  _ ← just (progress state);
  n ← just (ok_or (checked_add 32 (Device.steps s) (Device.steps chunk)) (overflow "native broadcast step statistics"));
  bytes ← just (ok_or (checked_add 64 (stats_bytes s) (stats_bytes chunk)) (overflow "native broadcast transfer statistics"));
  mret (state, {| algorithm := algorithm s; transport := transport s; Device.steps := n; stats_bytes := bytes;
                  reduction_kernel_launches := reduction_kernel_launches s |}).

(** [while state.completed_elements < plan.elements]; [elements] rounds are
    enough, as every chunk has an element. *)
Fixpoint broadcast_chunks (fuel : nat) (buffer : Buffer) (root : Z) (p : ChunkedBroadcastPlan) (progress : BroadcastProgress -> outcome Error unit)
    (state : BroadcastProgress) (s : CollectiveStats) : rank_program CollectiveStats :=
  if (elements p <=? completed_elements state)%nat then mret s else
  match fuel with
  | O => just Panic
  | S fuel => r ← broadcast_chunk buffer root p progress state s; broadcast_chunks fuel buffer root p progress r.1 r.2
  end.

Definition broadcast_chunked_with_fallible_progress (buffer : Buffer) (root : Z) (p : ChunkedBroadcastPlan) (restored : nat)
    (progress : BroadcastProgress -> outcome Error unit) : rank_program CollectiveStats :=
  s ← plan_agreement buffer root p restored;
  state ← just (plan_progress buffer root p restored);
  _ ← just (progress state);
  broadcast_chunks (elements p) buffer root p progress state s.

Definition broadcast_chunked (buffer : Buffer) (root : Z) (p : ChunkedBroadcastPlan) : rank_program CollectiveStats :=
  broadcast_chunked_with_fallible_progress buffer root p 0 (fun _ => Ok tt).
End direct.
