(* ===== verification/DirectTheorems.v ===== *)
(** * What the direct collectives of all ranks do together

    All ranks exchange at once, and the coordinator answers every rank with the
    bytes that [delivered] of [Router] names; the rest is each rank's own. *)
From S2P Require Import Prelude Protocol Agreement Errors Layout Tags Payload Router Operation Comp Device Processes.
From S2P Require Import Topology Tuning Ring Session SessionRounds RankDevice DeviceCollective DeviceRing DirectCollectives.

Section direct.
Context `{Crc32Hash} (uid : list Z) (world : nat) (error_text : NetworkError -> list Z) (lane : Z -> nat).
#[local] Existing Instance collective_mail.
#[local] Instance direct_world_mail : Mail := collective_mail uid world error_text lane.
#[local] Instance direct_world_mail_laws : MailLaws direct_world_mail := collective_mail_laws uid world error_text lane.
Context {T : Type} {D : RankDevice T} {V : RankView T} {L : RankLaws T} {DE : DeviceErrors Error}.
Abbreviation w := world.
Abbreviation rank_program := (rank_program (T:=T) uid w error_text lane).

(** What the ranks agree on, and where their session stands. *)
Record direct_round (coll : nat -> DeviceCollective (T:=T)) (et : ElementType) (k : nat) (st : nat -> RankState (T:=T)) (v : Wire) : Prop := {
  direct_device e : ~ device_error e;
  direct_session : session_ok uid 0 w;
  direct_rank r : (r < w)%nat -> session_of uid w r (session (coll r)) /\ collective_element_type (coll r) = et;
  direct_width : byte_width et = Z.of_nat ELEMENT_SIZE;
  direct_ready : ready uid w v k;
  direct_next : Z.of_nat k < U64_MAX;
  direct_state r : (r < w)%nat -> sequence_number (st r) = Z.of_nat k;
}.

Context (coll : nat -> DeviceCollective (T:=T)) (et : ElementType) (k : nat) (st : nat -> RankState (T:=T)) (v : Wire).
Context (Hround : direct_round coll et k st v).

Lemma direct_world : (0 < w)%nat /\ Z.of_nat w < 2 ^ 32.
Proof using Hround. apply (Router.session_world _ _ _ (direct_session _ _ _ _ _ Hround)). Qed.

Lemma finite_choice_world {A} (P : nat -> A -> Prop) : (forall r, (r < w)%nat -> exists x, P r x) -> exists f, forall r, (r < w)%nat -> P r (f r).
Proof using Hround. intros Hall. destruct (Hall 0%nat (proj1 direct_world)) as [d _]. by apply (finite_choice d). Qed.

(** The state of a rank that has exchanged, with memory [mem]. *)
Definition after_exchange (mem : Memory) (s : RankState (T:=T)) : RankState (T:=T) := mkState mem (Z.of_nat (S k)) (internal_sequence s).

(** Under every schedule the ranks' programs end after one round, each with a
    state and a value that [Q] describes. *)
Definition all_end {A} (programs : nat -> program Error (RankState (T:=T) * A)) (Q : nat -> RankState (T:=T) * A -> Prop) : Prop :=
  exists v' res, ends_in (mkNetwork (map programs (seq 0 w)) v) (mkNetwork (map (fun r => Return (Ok (res r))) (seq 0 w)) v') /\
    ready uid w v' (S k) /\ in_transit v' = in_transit v /\ forall r, (r < w)%nat -> Q r (res r).

Section exchange.
Context (op : Opcode) (root count tg : Z) (data : nat -> list Z).
Context (Hroot : in_width 32 root) (Hroot' : root = ANY_RANK \/ root < Z.of_nat w).
Context (Hcount : in_width 64 count) (Htag : in_width 64 tg).
Context (Hbytes : forall r, (r < w)%nat -> Forall is_byte (data r)) (Hfits : forall r, (r < w)%nat -> fits et count (data r)).
Context (Hrouted : routable (map (round_request uid w k op et root count tg data) (seq 0 w)) (round_header uid w k op et root count tg 0)).
Context (Hop : op <> Opcode.AllToAllV).
Abbreviation response_data r := (delivered (round_header uid w k op et root count tg 0) (map data (seq 0 w)) r).

(** Every rank comes to its exchange with [mem r], and goes on as [after r]
    with the response; [K r] is what the rank does around both. *)
Lemma direct_exchanged {A B} (programs : nat -> program Error B) (K : nat -> program Error (RankState (T:=T) * A) -> program Error B)
    (mem : nat -> Memory) (after : nat -> Frame -> rank_program A) :
  (forall r x s y s', alone r x s y s' -> alone r (K r x) s (K r y) s') ->
  (forall r, (r < w)%nat -> programs r = K r (mbind (M:=DeviceCollective.rank_program uid w error_text lane) (after r)
     (exchange_options uid w error_text lane (coll r) op (mkExchangeOptions root count 0 tg) (data r))
     (mkState (mem r) (sequence_number (st r)) (internal_sequence (st r))))) ->
  exists l resp v', runs network_step l (mkNetwork (map programs (seq 0 w)) v)
      (mkNetwork (map (fun r => K r (after r (resp r) (after_exchange (mem r) (st r)))) (seq 0 w)) v') /\
    ready uid w v' (S k) /\ in_transit v' = in_transit v /\ forall r, (r < w)%nat -> payload (resp r) = response_data r.
Proof using All.
  intros HK Hprograms. pose proof (direct_session _ _ _ _ _ Hround) as Hok. pose proof (direct_next _ _ _ _ _ Hround) as Hk.
  assert (Hok' : session_ok uid (Z.of_nat k) w) by (destruct Hok as [H1 H2 _ H4]; split; [done|done|unfold in_width, U64_MAX in *; lia|done]).
  assert (Hsess : forall r, (r < w)%nat -> session_of uid w r (session (coll r))) by (intros r Hr; by apply (direct_rank _ _ _ _ _ Hround)).
  destruct (exchange_runs uid w error_text lane (fun r => session (coll r)) Hsess k Hok' Hk op et root count tg data Hroot Hroot' Hcount Htag Hbytes Hfits Hrouted Hop
    (fun r (x : program NetworkError (Z * Frame)) => K r
      ((convert_error (from_network (E:=Error)) x ≫= (fun '(next, response) => mret (mkState (mem r) next (internal_sequence (st r)), response))) ≫=
      (fun a => after r a.2 a.1))) v (direct_ready _ _ _ _ _ Hround)) as (l & resp & v' & Hl & Hready & Htrans & Hans).
  { intros r x s y s' Hx. by apply HK, (alone_bind (M:=direct_world_mail)), (alone_bind (M:=direct_world_mail)), (alone_convert (M:=direct_world_mail)). }
  exists l, resp, v'. split; [|split; [done|split; [done|intros r Hr; apply (answer_payload _ _ _ _ _ _ _ (Hans r Hr))]]].
  erewrite (map_ext_in programs); [exact Hl|]. intros r Hr%in_seq. rewrite Hprograms by lia. f_equal.
  destruct (direct_rank _ _ _ _ _ Hround r ltac:(lia)) as [_ Het]. unfold exchange_options. rewrite Het.
  cbn [sequence_number]. rewrite (direct_state _ _ _ _ _ Hround) by lia. done.
Qed.

(** When nothing follows, every rank returns a value that [Q] describes. *)
Lemma direct_runs {A} (programs : nat -> program Error (RankState (T:=T) * A)) (mem : nat -> Memory)
    (after : nat -> Frame -> rank_program A) (Q : nat -> RankState (T:=T) * A -> Prop) :
  (forall r, (r < w)%nat -> programs r = mbind (M:=DeviceCollective.rank_program uid w error_text lane) (after r)
     (exchange_options uid w error_text lane (coll r) op (mkExchangeOptions root count 0 tg) (data r))
     (mkState (mem r) (sequence_number (st r)) (internal_sequence (st r)))) ->
  (forall r f, (r < w)%nat -> payload f = response_data r -> exists a, after r f (after_exchange (mem r) (st r)) = Return (Ok a) /\ Q r a) ->
  all_end programs Q.
Proof using All.
  intros Hprograms Hafter. destruct (direct_exchanged programs (fun _ x => x) mem after) as (l & resp & v' & Hl & Hready & Htrans & Hpay); [done|done|].
  destruct (finite_choice_world (fun r a => after r (resp r) (after_exchange (mem r) (st r)) = Return (Ok a) /\ Q r a)) as [res Hres].
  { intros r Hr. apply Hafter; [done|by apply Hpay]. }
  exists v', res. split; [|split; [done|split; [done|intros r Hr; by apply Hres]]].
  eapply schedule_suffices; [|rewrite <- (map_map _ Return); apply returned_final].
  rewrite (map_ext_in (fun r => Return (Ok (res r))) (fun r => after r (resp r) (after_exchange (mem r) (st r)))) by (intros r Hr%in_seq; symmetry; apply Hres; lia).
  exact Hl.
Qed.
End exchange.

(** ** What a rank does before and after its exchange *)
Abbreviation exec r := (execution (coll r)).
Abbreviation then_ g m := (mbind (M:=DeviceCollective.rank_program uid w error_text lane) g m).

Lemma step_then {A B} (g : A -> rank_program B) (m : rank_program A) s s' a : m s = Return (Ok (s', a)) -> then_ g m s = g a s'.
Proof using Type. intros Hm. unfold mbind, rank_mbind. by rewrite Hm. Qed.

Lemma encoded_ok r b y s : holds (memory s) (exec r) b y ->
  exists mem, unchanged (memory s) mem /\ encoded uid w error_text lane (coll r) b s = Return (Ok (mkState mem (sequence_number s) (internal_sequence s), encode y)).
Proof using Hround L.
  intros Hb. destruct (runs_total (direct_device _ _ _ _ _ Hround) _ _ _ (law_copy_from _ _ _ _ Hb)) as (values & mem & Hm & -> & Hu).
  exists mem. split; [done|]. unfold encoded, mbind, rank_mbind, on_device. rewrite Hm. done.
Qed.

Lemma decode_values_ok (y : list T) : Z.of_nat (length y * ELEMENT_SIZE) < 2 ^ 64 -> decode_values (encode y) (Z.of_nat (length y)) = Ok y.
Proof using L.
  intros Hlt. unfold decode_values, decode_exact, checked_mul. rewrite checked_in by (unfold in_width; lia). cbn [ok_or mbind outcome_bind].
  unfold Zlen. rewrite (proj1 (law_encode y)). rewrite Nat2Z.inj_mul, Z.eqb_refl. cbn [negb fail_if mbind outcome_bind]. apply law_decode.
Qed.

Lemma decoded_ok r (y : list T) s : allocatable (exec r) (length y) ->
  exists output mem, holds mem (exec r) output y /\ buffer_len output = length y /\ keeps (memory s) mem /\ view (memory s) (cell output) = None /\
    decoded_into_new uid w error_text lane (coll r) (encode y) (length y) s = Return (Ok (mkState mem (sequence_number s) (internal_sequence s), output)).
Proof using Hround L.
  destruct s as [mem s i]. cbn [memory sequence_number internal_sequence].
  intros Hal. pose proof (direct_device _ _ _ _ _ Hround) as Hno. pose proof (law_allocatable _ _ Hal) as Hbytes.
  destruct (runs_total Hno _ _ _ (law_alloc _ _ mem Hal)) as (output & m1 & Hm1 & Hu & Hlen & Hfresh & l & Hl & Hup1).
  assert (Ho : holds m1 (exec r) output l) by (split; [done|by eapply rank_updated_same|by rewrite Hlen]).
  destruct (runs_total Hno _ _ _ (law_copy_to _ _ _ y _ Ho ltac:(by rewrite Hlen))) as ([] & m2 & Hm2 & Hup2).
  exists output, m2. split; [eapply rank_holds_updated; [exact Ho|exact Hup2|lia]|]. split; [done|]. split.
  { intros k' l' Hv. assert (Hne : k' <> cell output) by congruence. by rewrite (rank_updated_other _ _ _ _ _ Hup2 Hne), (rank_updated_other _ _ _ _ _ Hup1 Hne). }
  split; [done|]. unfold decoded_into_new. rewrite decode_values_ok by lia.
  rewrite (just_then uid w error_text lane), (device_then uid w error_text lane _ _ _ _ _ _ _ Hm1), (device_then uid w error_text lane _ _ _ _ _ _ _ Hm2). done.
Qed.

Lemma stats_then {B} (g : CollectiveStats -> rank_program B) r n bytes launches s : Z.of_nat bytes < 2 ^ 64 ->
  then_ g (stats_of uid w error_text lane (coll r) n bytes launches) s = g {| algorithm := Direct; transport := session_transport (session (coll r));
    steps := n; stats_bytes := Z.of_nat bytes; reduction_kernel_launches := launches |} s.
Proof using Type. intros Hb. unfold stats_of, stats. rewrite checked_in by (unfold in_width; lia). done. Qed.

Lemma root_ok r root : (r < w)%nat -> 0 <= root < Z.of_nat w -> validate_root (coll r) root = Ok tt.
Proof using Hround.
  intros Hr Hroot. destruct (direct_rank _ _ _ _ _ Hround r Hr) as [[_ _ Hw] _]. unfold validate_root. rewrite Hw. apply fail_if_Ok. lia.
Qed.

(** *** The reduction of the ranks' parts in rank order *)
Section concatenated.
Context (r : nat) (Hr : (r < w)%nat) (function : Kernel) (count : nat) (part : nat -> list T) (Hpart : forall q, (q < w)%nat -> length (part q) = count).
Abbreviation f := (combine function).

Definition in_order (j : nat) : list T := foldl (zip_with f) (part 0) (map part (seq 1 j)).
Definition all_parts : list T := concat (map part (seq 0 w)).

Lemma in_order_S j : in_order (S j) = zip_with f (in_order j) (part (S j)).
Proof using Type. unfold in_order. by rewrite seq_S, map_app, foldl_app. Qed.

Lemma length_in_order j : (j < w)%nat -> length (in_order j) = count.
Proof using Hpart r Hr.
  induction j as [|j IH]; intros Hj; [by apply Hpart|]. rewrite in_order_S, length_zip_with, IH, Hpart by lia. lia.
Qed.

Lemma map_length_const (n : nat) (l : list (list Z)) : Forall (fun l => length l = n) l -> list_sum (map length l) = (length l * n)%nat.
Proof using world r Hr. induction 1 as [|a l Ha _ IH]; [done|]. change (list_sum (map length (a :: l))) with (length a + list_sum (map length l))%nat. rewrite IH, Ha. cbn. lia. Qed.

Lemma encode_concat (l : list (list T)) : encode (concat l) = concat (map encode l).
Proof using L.
  induction l as [|a l IH]; cbn [concat map]; [|by rewrite law_encode_app, IH].
  destruct (law_encode (T:=T) []) as [Hl _]. by apply length_zero_iff_nil.
Qed.

Lemma part_bytes q : (q < w)%nat -> slice_range (E:=Error) (encode all_parts) (q * (count * ELEMENT_SIZE)) (q * (count * ELEMENT_SIZE) + count * ELEMENT_SIZE) = Ok (encode (part q)).
Proof using Hpart L r Hr.
  intros Hq. unfold all_parts. rewrite encode_concat, map_map. set (n := (count * ELEMENT_SIZE)%nat).
  assert (Hall : Forall (fun l : list Z => length l = n) (map (fun q => encode (part q)) (seq 0 w))).
  { apply Forall_map, Forall_forall. intros i Hi%elem_of_seq. rewrite (proj1 (law_encode _)), Hpart by lia. done. }
  rewrite slice_range_sub.
  - f_equal. apply sub_concat; [done|]. rewrite list_lookup_fmap, lookup_seq_lt by done. done.
  - rewrite length_concat, (map_length_const n) by done. rewrite length_map, length_seq. assert ((q + 1) * n <= w * n)%nat by (apply Nat.mul_le_mono_r; lia). lia.
Qed.

Lemma length_all_parts : length (encode all_parts) = (count * ELEMENT_SIZE * w)%nat.
Proof using Hpart L r Hr.
  unfold all_parts. rewrite encode_concat, map_map, length_concat, (map_length_const (count * ELEMENT_SIZE)), length_map, length_seq; [lia|].
  apply Forall_map, Forall_forall. intros i Hi%elem_of_seq. rewrite (proj1 (law_encode _)), Hpart by lia. done.
Qed.

Lemma reduce_concatenated_ok output y s : holds s (exec r) output y -> buffer_len output = count -> computes (exec r) function ->
  allocatable (exec r) count -> Z.of_nat (count * ELEMENT_SIZE * w) < 2 ^ 64 ->
  exists s' launches, reduce_concatenated (coll r) (encode all_parts) output count function s = (s', Ok launches) /\
    holds s' (exec r) output (in_order (w - 1)) /\ keeps_but (cell output) s s' /\ 0 <= launches <= Z.of_nat (w - 1).
Proof using All.
  intros Hy Hlen Hk Hal Hbytes. destruct direct_world as [Hw0 _]. pose proof (direct_device _ _ _ _ _ Hround) as Hno. pose proof law_size as Hs.
  destruct (direct_rank _ _ _ _ _ Hround r Hr) as [[_ _ Hsw] _].
  assert (Hwp : wp device_error (reduce_concatenated (coll r) (encode all_parts) output count function)
    (fun launches s' => holds s' (exec r) output (in_order (w - 1)) /\ keeps_but (cell output) s s' /\ 0 <= launches <= Z.of_nat (w - 1)) s).
  { unfold reduce_concatenated. rewrite Hsw.
    apply wp_bind. eapply wp_pure; [by rewrite checked_mul_usize_Some by (unfold fits_usize; nia)|]. cbn beta.
    apply wp_bind. eapply wp_pure; [by rewrite checked_mul_usize_Some by (unfold fits_usize; lia)|]. cbn beta.
    apply wp_bind. eapply wp_pure; [by rewrite length_all_parts, Nat.eqb_refl|]. cbn beta.
    apply wp_bind. eapply wp_pure; [apply (part_bytes 0 Hw0)|]. cbn beta.
    apply wp_bind. eapply wp_pure; [apply law_decode|]. cbn beta.
    assert (Hpart0 : length (part 0) = buffer_len output) by (rewrite Hlen; by apply Hpart).
    apply wp_bind. eapply wp_mono; [by apply (law_copy_to _ _ _ _ _ Hy)|]. cbn beta. intros _ s1 Hu1.
    assert (Hy1 : holds s1 (exec r) output (part 0)) by (eapply rank_holds_updated; [exact Hy|exact Hu1|]; rewrite Hpart0; symmetry; apply (holds_length _ _ _ _ Hy)).
    assert (Hkeep1 : keeps_but (cell output) s s1) by (intros k' l Hne Hv; by rewrite (rank_updated_other _ _ _ _ _ Hu1 Hne)).
    destruct (Nat.eqb_spec count 0) as [Hz|Hz].
    { apply wp_ret. split; [|split; [done|lia]]. assert (Hnil : forall l : list T, length l = 0%nat -> l = []) by (intros []; done).
      rewrite (Hnil (in_order (w - 1))) by (rewrite length_in_order; lia). rewrite (Hnil (part 0)) in Hy1 by (rewrite Hpart0; lia). done. }
    destruct (Nat.eqb_spec w 1) as [H1|H1].
    { apply wp_ret. rewrite H1. split; [exact Hy1|split; [done|lia]]. }
    apply wp_bind. eapply wp_mono; [by apply law_alloc|]. cbn beta. intros scratch s2 (Hus & Hls & Hfresh & l & Hl & Hu2).
    assert (Hne : cell output <> cell scratch) by by eapply fresh_cell.
    apply wp_bind. eapply wp_mono; [apply law_prepare; nia|]. cbn beta. intros launch s3 [Hp Hs3].
    assert (Hy3 : holds s3 (exec r) output (in_order 0)) by (eapply rank_holds_unchanged; [by eapply rank_holds_other|done]).
    assert (Hscratch : holds s3 (exec r) scratch l) by (eapply rank_holds_unchanged; [split; [done|by eapply rank_updated_same|by rewrite Hls]|done]).
    assert (Hkeep3 : keeps_but (cell output) s s3).
    { intros k' l' Hne' Hv. rewrite (Hs3 k'). assert (Hv1 : view s1 k' = Some l') by by apply Hkeep1.
      rewrite (rank_updated_other _ _ _ _ _ Hu2) by congruence. done. }
    assert (Hscratch_fresh : view s (cell scratch) = None).
    { destruct (view s (cell scratch)) as [l'|] eqn:Hv; [|done]. by rewrite (Hkeep1 _ _ (not_eq_sym Hne) Hv) in Hfresh. }
    apply wp_bind. eapply wp_mono.
    - apply (wp_loop_from (fun i (_ : unit) s' => holds s' (exec r) output (in_order (i - 1)) /\ (exists l', holds s' (exec r) scratch l') /\ keeps_but (cell output) s s') _ (w - 1) 1 tt s3).
      + split; [exact Hy3|]. split; [by exists l|done].
      + intros j [] s4 Hj (Hyj & (lj & Hsj) & Hkj). cbv zeta.
        apply wp_bind. eapply wp_pure; [apply (part_bytes j); lia|]. cbn beta.
        apply wp_bind. eapply wp_pure; [apply law_decode|]. cbn beta.
        assert (Hpj : length (part j) = buffer_len scratch) by (rewrite Hls; apply Hpart; lia).
        apply wp_bind. eapply wp_mono; [by apply (law_copy_to _ _ _ _ _ Hsj)|]. cbn beta. intros _ s5 Hu5.
        assert (Hs5 : holds s5 (exec r) scratch (part j)) by (eapply rank_holds_updated; [exact Hsj|exact Hu5|]; rewrite Hpj; symmetry; apply (holds_length _ _ _ _ Hsj)).
        assert (Hy5 : holds s5 (exec r) output (in_order (j - 1))) by by eapply rank_holds_other.
        eapply wp_mono; [apply (law_launch (exec r) function _ _ _ _ _ _ _ _ Hp Hk Hs5 Hy5 (not_eq_sym Hne)); lia|]. cbn beta. intros [] s6 Hu6.
        replace (j + 1 - 1)%nat with (S (j - 1)) by lia. rewrite in_order_S. replace (S (j - 1)) with j by lia.
        assert (Hlj : length (in_order (j - 1)) = count) by (apply length_in_order; lia).
        assert (Hsub : forall l' : list T, length l' = count -> sub 0 count l' = l') by (intros l' Hl'; unfold sub; rewrite drop_0; by apply firstn_all2; lia).
        rewrite !Hsub in Hu6 by (done || (rewrite Hpj; done)). rewrite put_all in Hu6 by (rewrite length_zip_with; lia).
        split; [eapply rank_holds_updated; [exact Hy5|exact Hu6|rewrite length_zip_with; lia]|].
        split; [exists (part j); by eapply rank_holds_other; [exact Hs5|exact Hu6|]|].
        intros k' l' Hne' Hv. rewrite (rank_updated_other _ _ _ _ _ Hu6 Hne'). rewrite (rank_updated_other _ _ _ _ _ Hu5) by congruence. by apply Hkj.
    - cbn beta. intros [] s4 (Hy4 & _ & Hk4). apply wp_ret. replace (1 + (w - 1) - 1)%nat with (w - 1)%nat in Hy4 by lia. split; [done|]. split; [done|]. lia. }
  destruct (runs_total Hno _ _ _ Hwp) as (launches & s' & Heq & HQ). by exists s', launches.
Qed.
End concatenated.

(** *** What the coordinator routes *)
Section routed.
Context (op : Opcode) (root count tg : Z) (data : nat -> list Z).
Abbreviation requests := (map (round_request uid w k op et root count tg data) (seq 0 w)).

Lemma all_carry n : (forall r, (r < w)%nat -> Zlen (data r) = n) -> Forall (fun f => Zlen f.(payload) = n) requests.
Proof using Type. intros Hall. apply Forall_map, Forall_forall. intros r Hr%elem_of_seq. apply Hall. lia. Qed.

Lemma root_carries bytes : (forall r, (r < w)%nat -> Zlen (data r) = if (r =? Z.to_nat root)%nat then bytes else 0) ->
  forall i f, requests !! i = Some f -> Zlen f.(payload) = if (i =? Z.to_nat root)%nat then bytes else 0.
Proof using Type. intros Hall i f (r & -> & [-> Hlt]%lookup_seq)%list_lookup_fmap_Some. by apply Hall. Qed.

Lemma requests_length : length requests = w.
Proof using Type. by rewrite length_map, length_seq. Qed.
End routed.

(** ** The collectives *)
Context (buf : nat -> Buffer) (n : nat) (x : nat -> list T).

(** Every rank holds [n] elements that fit a frame. *)
Record direct_inputs : Prop := {
  direct_length r : (r < w)%nat -> buffer_len (buf r) = n;
  direct_held r : (r < w)%nat -> holds (memory (st r)) (exec r) (buf r) (x r);
  direct_fits : chunk_fits (T:=T) n;
}.
Context (Hin : direct_inputs).

Lemma input_length r : (r < w)%nat -> length (x r) = n.
Proof using Hin. intros Hr. rewrite <- (direct_length Hin r Hr). apply (holds_length _ _ _ _ (direct_held Hin r Hr)). Qed.

Lemma input_frame r : (r < w)%nat -> Forall is_byte (encode (x r)) /\ fits et (Z.of_nat n) (encode (x r)) /\ Zlen (encode (x r)) = Z.of_nat n * byte_width et.
Proof using Hin Hround L.
  intros Hr. pose proof (input_length r Hr) as Hl. destruct (chunk_frame et (direct_width _ _ _ _ _ Hround) (x r)) as (Hb & Hf & _); [rewrite Hl; apply (direct_fits Hin)|].
  unfold Zlen in *. rewrite Hl in Hf. split; [done|]. split; [done|]. rewrite (proj1 (law_encode (x r))), Hl, (direct_width _ _ _ _ _ Hround). lia.
Qed.

Lemma count_width : in_width 64 (Z.of_nat n).
Proof using Hin L.
  pose proof (direct_fits Hin) as Hf. unfold chunk_fits in Hf. change MAX_FRAME_PAYLOAD_BYTES with 1073741824 in Hf. pose proof law_size. unfold in_width. nia.
Qed.

Lemma n_bytes : Z.of_nat (n * ELEMENT_SIZE) <= 2 ^ 30 /\ Z.of_nat n * byte_width et <= 2 ^ 30 /\ ELEMENT_SIZE <> 0%nat.
Proof using Hin Hround L.
  pose proof (direct_fits Hin) as Hf. unfold chunk_fits in Hf. change MAX_FRAME_PAYLOAD_BYTES with (2 ^ 30) in Hf. pose proof law_size. rewrite (direct_width _ _ _ _ _ Hround). lia.
Qed.

Lemma no_payload count : fits et count [].
Proof using Hround L. apply fits_nil. intros ->. pose proof (direct_width _ _ _ _ _ Hround) as Hw. pose proof law_size. cbn in Hw. lia. Qed.

Lemma data_at (data : nat -> list Z) r : (r < w)%nat -> default [] (map data (seq 0 w) !! Z.to_nat (Z.of_nat r)) = data r.
Proof using Type. intros Hr. rewrite Nat2Z.id, list_lookup_fmap, lookup_seq_lt by done. done. Qed.

(** Broadcast: every rank ends with the root's elements. *)
Lemma broadcast_direct_runs root : (root < w)%nat ->
  all_end (fun r => broadcast uid w error_text lane (coll r) (buf r) (Z.of_nat root) (st r))
    (fun r res => holds (memory res.1) (exec r) (buf r) (x root) /\ algorithm res.2 = Direct /\ stats_bytes res.2 = Z.of_nat (n * ELEMENT_SIZE)).
Proof using All.
  intros Hroot. destruct direct_world as [Hw0 Hwb]. pose proof (direct_device _ _ _ _ _ Hround) as Hno.
  set (data := fun r => if (r =? root)%nat then encode (x r) else []).
  assert (Hbefore : forall r, (r < w)%nat -> exists mem, unchanged (memory (st r)) mem /\
    (if Z.of_nat (rank (session (coll r))) =? Z.of_nat root then encoded uid w error_text lane (coll r) (buf r) else mret []) (st r) =
    Return (Ok (mkState mem (sequence_number (st r)) (internal_sequence (st r)), data r))).
  { intros r Hr. destruct (direct_rank _ _ _ _ _ Hround r Hr) as [[_ Hrk _] _]. rewrite Hrk. unfold data.
    destruct (Nat.eqb_spec r root) as [->|Hne].
    - rewrite Z.eqb_refl. by apply encoded_ok, (direct_held Hin).
    - rewrite (proj2 (Z.eqb_neq _ _)) by lia. exists (memory (st r)). split; [done|]. by destruct (st r). }
  destruct (finite_choice_world _ Hbefore) as [mem Hmem].
  apply (direct_runs Opcode.Broadcast (Z.of_nat root) (Z.of_nat n) 0 data) with (mem := mem)
    (after := fun r response => values ← just uid w error_text lane (decode_values response.(payload) (Z.of_nat (buffer_len (buf r))));
      _ ← on_device uid w error_text lane (copy_to_device (exec r) (buf r) values);
      stats_of uid w error_text lane (coll r) (direct_step (coll r)) (buffer_bytes (buf r)) 0).
  - unfold in_width. lia.
  - right. lia.
  - apply count_width.
  - done.
  - intros r Hr. unfold data. destruct (r =? root)%nat; [by apply input_frame|constructor].
  - intros r Hr. unfold data. destruct (r =? root)%nat; [by apply input_frame|apply no_payload].
  - cbv zeta. unfold routable. cbn [round_header set_tag set_flags collective opcode element_type element_count root_rank]. rewrite requests_length.
    split; [pose proof n_bytes; lia|]. split; [lia|]. apply root_carries. intros r Hr. unfold data. rewrite Nat2Z.id. destruct (r =? root)%nat; [by apply input_frame|done].
  - done.
  - intros r Hr. unfold broadcast. rewrite root_ok by lia. rewrite (just_then uid w error_text lane), (step_then _ _ _ _ _ (proj2 (Hmem r Hr))).
    rewrite (direct_length Hin) by done. done.
  - intros r f Hr Hf. destruct (Hmem r Hr) as [Hun _]. pose proof n_bytes as (Hb & _ & _). pose proof (input_length root Hroot) as Hlr.
    assert (Hpay : payload f = encode (x root)).
    { rewrite Hf. unfold delivered. cbn [round_header set_tag set_flags collective opcode root_rank]. rewrite data_at by done. unfold data. by rewrite Nat.eqb_refl. }
    rewrite Hpay, (direct_length Hin), <- Hlr, decode_values_ok by (done || rewrite Hlr; lia). rewrite (just_then uid w error_text lane).
    pose proof (rank_holds_unchanged _ _ _ _ _ (direct_held Hin r Hr) Hun) as Hh.
    destruct (runs_total Hno _ _ _ (law_copy_to _ _ _ (x root) _ Hh ltac:(rewrite (direct_length Hin) by done; done))) as ([] & m2 & Hm2 & Hup).
    unfold after_exchange. rewrite (device_then uid w error_text lane _ _ _ _ _ _ _ Hm2). unfold stats_of, stats.
    rewrite law_bytes, (direct_length Hin), checked_in by (done || unfold in_width; lia). eexists. split; [reflexivity|]. cbn [fst snd memory algorithm stats_bytes].
    split; [|split; [done|by rewrite ?Hlr]]. eapply rank_holds_updated; [exact Hh|exact Hup|]. by rewrite Hlr, input_length.
Qed.

(** *** Every rank gives its elements *)
Section contributed.
Context (op : Opcode) (root tg : Z) (Hroot : in_width 32 root) (Hroot' : root = ANY_RANK \/ root < Z.of_nat w) (Htag : in_width 64 tg).
Context (Hop : op = Opcode.AllGather \/ op = Opcode.AllReduce \/ op = Opcode.ReduceScatter \/ ((op = Opcode.Gather \/ op = Opcode.Reduce) /\ root < Z.of_nat w)).
Context (Hgathered : op = Opcode.ReduceScatter \/ Z.of_nat (w * n * ELEMENT_SIZE) <= MAX_FRAME_PAYLOAD_BYTES).
Context (Hdivisible : op = Opcode.ReduceScatter -> (n mod w = 0)%nat).
Abbreviation given := (fun r => encode (x r)).
Abbreviation given_header := (round_header uid w k op et root (Z.of_nat n) tg 0).

Lemma contribution_routed : routable (map (round_request uid w k op et root (Z.of_nat n) tg given) (seq 0 w)) given_header.
Proof using All.
  pose proof n_bytes as (Hb & Hb' & _). assert (Hcarry := all_carry op root (Z.of_nat n) tg given (Z.of_nat n * byte_width et) (fun r Hr => proj2 (proj2 (input_frame r Hr)))).
  assert (Hall : op = Opcode.ReduceScatter \/ Z.of_nat w * (Z.of_nat n * byte_width et) <= MAX_FRAME_PAYLOAD_BYTES).
  { destruct Hgathered as [?|Hg]; [by left|right]. rewrite (direct_width _ _ _ _ _ Hround). lia. }
  unfold routable. cbv zeta. cbn [round_header set_tag set_flags collective opcode element_type element_count root_rank]. rewrite requests_length.
  split; [lia|]. destruct Hop as [-> | [-> | [-> | [[-> | ->] Hlt]]]]; try (destruct Hall as [|Hall]; [done|]); try done.
  split; [done|]. rewrite <- Nat2Z.inj_mod, Hdivisible; done.
Qed.

Lemma contributed_runs {A} (programs : nat -> program Error (RankState (T:=T) * A)) (after : nat -> list Z -> Frame -> rank_program A) (Q : nat -> RankState (T:=T) * A -> Prop) :
  (forall r, (r < w)%nat -> programs r = then_ (fun data => then_ (after r data)
     (exchange_options uid w error_text lane (coll r) op (mkExchangeOptions root (Z.of_nat n) 0 tg) data)) (encoded uid w error_text lane (coll r) (buf r)) (st r)) ->
  (forall r f mem, (r < w)%nat -> unchanged (memory (st r)) mem -> payload f = delivered given_header (map given (seq 0 w)) r ->
     exists a, after r (encode (x r)) f (after_exchange mem (st r)) = Return (Ok a) /\ Q r a) ->
  all_end programs Q.
Proof using All.
  intros Hprograms Hafter. destruct (finite_choice_world _ (fun r Hr => encoded_ok r (buf r) (x r) (st r) (direct_held Hin r Hr))) as [mem Hmem].
  apply (direct_runs op root (Z.of_nat n) tg given) with (mem := mem) (after := fun r => after r (encode (x r))); try done.
  - apply count_width.
  - intros r Hr. by apply input_frame.
  - intros r Hr. by apply input_frame.
  - apply contribution_routed.
  - intros ->. naive_solver.
  - intros r Hr. rewrite Hprograms by done. by rewrite (step_then _ _ _ _ _ (proj2 (Hmem r Hr))).
  - intros r f Hr Hf. by apply Hafter; [|apply Hmem|].
Qed.
End contributed.

Lemma all_given : concat (map (fun r => encode (x r)) (seq 0 w)) = encode (all_parts x).
Proof using L. unfold all_parts. by rewrite encode_concat, map_map. Qed.

Lemma length_all : length (all_parts x) = (n * w)%nat.
Proof using Hin Hround L.
  destruct direct_world as [Hw0 _]. pose proof (length_all_parts 0 Hw0 n x (fun q Hq => input_length q Hq)) as Hl. rewrite (proj1 (law_encode (all_parts x))) in Hl.
  pose proof n_bytes as (_ & _ & Hz). nia.
Qed.

(** All-gather: every rank has the elements of all ranks, in rank order. *)
Lemma all_gather_direct_runs : Z.of_nat (w * n * ELEMENT_SIZE) <= MAX_FRAME_PAYLOAD_BYTES -> (forall r, (r < w)%nat -> allocatable (exec r) (n * w)) ->
  all_end (fun r => all_gather_direct uid w error_text lane (coll r) (buf r) (st r))
    (fun r res => holds (memory res.1) (exec r) res.2.1 (concat (map x (seq 0 w))) /\ keeps (memory (st r)) (memory res.1) /\
      algorithm res.2.2 = Direct /\ stats_bytes res.2.2 = Z.of_nat ((1 + w) * n * ELEMENT_SIZE)).
Proof using All.
  intros Hg Hal. pose proof n_bytes as (Hb & _ & Hz). change MAX_FRAME_PAYLOAD_BYTES with (2 ^ 30) in Hg.
  eapply (contributed_runs Opcode.AllGather ANY_RANK 0) with (after := fun r _ response =>
      output_length ← just uid w error_text lane (ok_or (checked_mul_usize n (session_world (session (coll r)))) (overflow "TCP all-gather output length"));
      output ← decoded_into_new uid w error_text lane (coll r) response.(payload) output_length;
      bytes ← just uid w error_text lane (add_usize (buffer_bytes (buf r)) (length response.(payload)));
      s ← stats_of uid w error_text lane (coll r) (direct_step (coll r)) bytes 0;
      mret (output, s)); try done.
  - by left.
  - by left.
  - by right.
  - intros r Hr. unfold all_gather_direct. rewrite (direct_length Hin) by done. done.
  - intros r f mem Hr Hun Hf. destruct (direct_rank _ _ _ _ _ Hround r Hr) as [[_ _ Hsw] _].
    unfold delivered in Hf. cbn [round_header set_tag set_flags collective opcode root_rank] in Hf. rewrite all_given in Hf. rewrite Hf, Hsw.
    rewrite checked_mul_usize_Some by (unfold fits_usize; nia). cbn [ok_or]. rewrite (just_then uid w error_text lane), <- length_all.
    destruct (decoded_ok r (all_parts x) (after_exchange mem (st r))) as (output & m & Ho & Hlo & Hk & _ & Heq); [rewrite length_all; by apply Hal|].
    rewrite (step_then _ _ _ _ _ Heq), law_bytes, (proj1 (law_encode _)), length_all, (direct_length Hin) by done.
    rewrite add_usize_ok by (unfold fits_usize; nia). rewrite (just_then uid w error_text lane), stats_then by nia.
    eexists. split; [reflexivity|]. cbn [fst snd memory algorithm stats_bytes]. split; [exact Ho|]. split; [|split; [done|f_equal; lia]].
    intros k' l Hv. apply Hk. change (view mem k' = Some l). by rewrite (Hun k').
Qed.

(** *** Reductions, in the order of the ranks *)
Context (op : ReductionOperation) (function : nat -> Kernel) (f : T -> T -> T).
Context (Hfunction : forall r, (r < w)%nat -> computes (exec r) (function r) /\ combine (function r) = f).
Definition reduced_in_order (part : nat -> list T) : list T := foldl (zip_with f) (part 0%nat) (map part (seq 1 (w - 1))).

Lemma operation_tag : in_width 64 (operation_code op + 1).
Proof using Type. destruct op; unfold in_width; cbn; lia. Qed.

Lemma reduced_ok r count (part : nat -> list T) output y s : (r < w)%nat -> (forall q, (q < w)%nat -> length (part q) = count) ->
  holds (memory s) (exec r) output y -> buffer_len output = count -> allocatable (exec r) count -> Z.of_nat (count * ELEMENT_SIZE * w) < 2 ^ 64 ->
  exists mem launches, holds mem (exec r) output (reduced_in_order part) /\ keeps_but (cell output) (memory s) mem /\ 0 <= launches <= Z.of_nat (w - 1) /\
    on_device uid w error_text lane (reduce_concatenated (coll r) (encode (all_parts part)) output count (function r)) s =
      Return (Ok (mkState mem (sequence_number s) (internal_sequence s), launches)).
Proof using All.
  intros Hr Hpart Hy Hlen Hal Hb. destruct (Hfunction r Hr) as [Hc Hf].
  destruct (reduce_concatenated_ok r Hr (function r) count part Hpart output y (memory s) Hy Hlen Hc Hal Hb) as (mem & launches & Heq & Hh & Hk & Hl).
  exists mem, launches. split; [|split; [done|split; [done|]]].
  - unfold reduced_in_order. rewrite <- Hf. exact Hh.
  - unfold on_device. by rewrite Heq.
Qed.

(** C20: When all ranks start an all-reduce through the coordinator, every schedule
    ends after one round, every rank's buffer holds the elements of all ranks
    combined in rank order, its other buffers are as before, and the statistics
    count one reduction per other rank and all transferred bytes. *)
Theorem all_reduce_direct_reduces : Z.of_nat (w * n * ELEMENT_SIZE) <= MAX_FRAME_PAYLOAD_BYTES -> (forall r, (r < w)%nat -> allocatable (exec r) n) ->
  all_end (fun r => all_reduce_direct uid w error_text lane (coll r) (buf r) op (function r) (st r))
    (fun r res => holds (memory res.1) (exec r) (buf r) (reduced_in_order x) /\ keeps_but (cell (buf r)) (memory (st r)) (memory res.1) /\
      algorithm res.2 = Direct /\ Device.steps res.2 = Z.of_nat (w - 1) /\ stats_bytes res.2 = Z.of_nat ((1 + w) * n * ELEMENT_SIZE)).
Proof using All.
  intros Hg Hal. pose proof n_bytes as (Hb & _ & Hz). change MAX_FRAME_PAYLOAD_BYTES with (2 ^ 30) in Hg.
  eapply (contributed_runs Opcode.AllReduce ANY_RANK (operation_code op + 1)) with (after := fun r data response =>
      launches ← on_device uid w error_text lane (reduce_concatenated (coll r) response.(payload) (buf r) n (function r));
      bytes ← just uid w error_text lane (add_usize (length data) (length response.(payload)));
      stats_of uid w error_text lane (coll r) (other_ranks (coll r)) bytes launches); try done.
  - by left.
  - apply operation_tag.
  - by right; left.
  - by right.
  - intros r Hr. unfold all_reduce_direct. rewrite (direct_length Hin) by done. done.
  - intros r fr mem Hr Hun Hf. destruct (direct_rank _ _ _ _ _ Hround r Hr) as [[_ _ Hsw] _].
    unfold delivered in Hf. cbn [round_header set_tag set_flags collective opcode root_rank] in Hf. rewrite all_given in Hf. rewrite Hf.
    destruct (reduced_ok r n x (buf r) (x r) (after_exchange mem (st r)) Hr (fun q Hq => input_length q Hq)) as (m & launches & Hh & Hk & Hl & Heq);
      [by apply (rank_holds_unchanged _ _ _ _ _ (direct_held Hin r Hr))|by apply (direct_length Hin)|by apply Hal|nia|].
    rewrite (step_then _ _ _ _ _ Heq), !(proj1 (law_encode _)), length_all, input_length by done.
    rewrite add_usize_ok by (unfold fits_usize; nia). rewrite (just_then uid w error_text lane). unfold stats_of, stats. rewrite checked_in by (unfold in_width; nia).
    eexists. split; [reflexivity|]. cbn [fst snd memory algorithm stats_bytes Device.steps]. split; [exact Hh|]. split; [|split; [done|split; [by unfold other_ranks; rewrite Hsw|f_equal; lia]]].
    intros k' l Hne Hv. apply (Hk k' l Hne). change (view mem k' = Some l). by rewrite (Hun k').
Qed.

Lemma encode_sub o j (l : list T) : (o + j <= length l)%nat -> encode (sub o j l) = sub (o * ELEMENT_SIZE) (j * ELEMENT_SIZE) (encode l).
Proof using L.
  intros Hlen. rewrite <- (take_drop o l) at 2. rewrite <- (take_drop j (drop o l)) at 1. fold (sub o j l).
  rewrite !law_encode_app. assert (Ho : length (encode (take o l)) = (o * ELEMENT_SIZE)%nat) by (rewrite (proj1 (law_encode _)), length_take; f_equal; lia).
  assert (Hk : length (encode (sub o j l)) = (j * ELEMENT_SIZE)%nat) by (rewrite (proj1 (law_encode _)); unfold sub; rewrite length_take, length_drop; f_equal; lia).
  unfold sub at 2. rewrite drop_app_length' by done. by rewrite take_app_length' by done.
Qed.

(** Reduce-scatter: every rank has its part of the reduction of all inputs in rank order. *)
Lemma reduce_scatter_direct_runs m : n = (w * m)%nat -> (forall r, (r < w)%nat -> allocatable (exec r) m) ->
  all_end (fun r => reduce_scatter_direct uid w error_text lane (coll r) (buf r) m op (function r) (st r))
    (fun r res => holds (memory res.1) (exec r) res.2.1 (reduced_in_order (fun q => sub (r * m) m (x q))) /\ keeps (memory (st r)) (memory res.1) /\
      algorithm res.2.2 = Direct /\ Device.steps res.2.2 = Z.of_nat (w - 1) /\ stats_bytes res.2.2 = Z.of_nat (2 * n * ELEMENT_SIZE)).
Proof using All.
  intros Hn Hal. pose proof n_bytes as (Hb & _ & Hz). pose proof (direct_device _ _ _ _ _ Hround) as Hno. destruct direct_world as [Hw0 Hwb].
  eapply (contributed_runs Opcode.ReduceScatter ANY_RANK (operation_code op + 1)) with (after := fun r data response =>
      output ← on_device uid w error_text lane (alloc (exec r) m);
      launches ← on_device uid w error_text lane (reduce_concatenated (coll r) response.(payload) output m (function r));
      bytes ← just uid w error_text lane (add_usize (length data) (length response.(payload)));
      s ← stats_of uid w error_text lane (coll r) (other_ranks (coll r)) bytes launches;
      mret (output, s)); try done.
  - by left.
  - apply operation_tag.
  - by right; right; left.
  - by left.
  - intros _. rewrite Hn, Nat.mul_comm. apply Nat.Div0.mod_mul.
  - intros r Hr. unfold reduce_scatter_direct. rewrite (direct_length Hin) by done. done.
  - intros r fr mem Hr Hun Hf. destruct (direct_rank _ _ _ _ _ Hround r Hr) as [[_ _ Hsw] _].
    set (part := fun q => sub (r * m) m (x q)).
    assert (Hin' : forall q, (q < w)%nat -> (r * m + m <= length (x q))%nat) by (intros q Hq; rewrite input_length, Hn by done; nia).
    assert (Hpart : forall q, (q < w)%nat -> length (part q) = m).
    { intros q Hq. pose proof (Hin' q Hq). unfold part, sub. rewrite length_take, length_drop. lia. }
    assert (Hpay : payload fr = encode (all_parts part)).
    { rewrite Hf. unfold delivered. cbn [round_header set_tag set_flags collective opcode root_rank]. unfold all_parts. rewrite encode_concat, !map_map, length_map, length_seq. f_equal.
      apply map_ext_in. intros q Hq%in_seq. unfold part. rewrite encode_sub by (apply Hin'; lia). unfold piece.
      assert (Hpb : piece_bytes (round_header uid w k Opcode.ReduceScatter et ANY_RANK (Z.of_nat n) (operation_code op + 1) 0) w = (m * ELEMENT_SIZE)%nat).
      { unfold piece_bytes. cbn [round_header set_tag set_flags collective element_type element_count]. rewrite (direct_width _ _ _ _ _ Hround), Hn. replace (Z.of_nat (w * m)) with (Z.of_nat m * Z.of_nat w) by lia. rewrite Z.div_mul by lia. lia. }
      rewrite Hpb. f_equal. lia. }
    rewrite Hpay. destruct (runs_total Hno _ _ _ (law_alloc _ _ mem (Hal r Hr))) as (output & m1 & Hm1 & Hu & Hlo & Hfresh & l & Hl & Hup1).
    unfold after_exchange. rewrite (device_then uid w error_text lane _ _ _ _ _ _ _ Hm1).
    assert (Ho : holds m1 (exec r) output l) by (split; [done|by eapply rank_updated_same|by rewrite Hlo]).
    destruct (reduced_ok r m part output l (mkState m1 (Z.of_nat (S k)) (internal_sequence (st r))) Hr Hpart Ho Hlo (Hal r Hr)) as (m2 & launches & Hh & Hk & Hl' & Heq); [nia|].
    rewrite (step_then _ _ _ _ _ Heq), !(proj1 (law_encode _)), input_length by done.
    assert (Hall : length (all_parts part) = n).
    { pose proof (length_all_parts r Hr m part Hpart) as Hla. rewrite (proj1 (law_encode (all_parts part))) in Hla. nia. }
    rewrite Hall, add_usize_ok by (unfold fits_usize; nia). rewrite (just_then uid w error_text lane), stats_then by nia.
    eexists. split; [reflexivity|]. cbn [fst snd memory algorithm stats_bytes Device.steps]. split; [exact Hh|]. split; [|split; [done|split; [by unfold other_ranks; rewrite Hsw|f_equal; lia]]].
    intros k' l' Hv. assert (Hv1 : view mem k' = Some l') by by rewrite (Hun k'). assert (Hne : k' <> cell output) by congruence.
    apply (Hk k' l' Hne). cbn [memory]. by rewrite (rank_updated_other _ _ _ _ _ Hup1 Hne).
Qed.
End direct.
