(* ===== verification/ChunkedBroadcast.v ===== *)
(** * Chunked broadcasts of all ranks

    [broadcast_chunked_with_fallible_progress] of
    src/src/rank/device_collective/bounded_broadcast.rs: the ranks compare their
    plans in one round, and every chunk is a round of its own. *)
From S2P Require Import Prelude Protocol Agreement Errors Layout Tags Payload Router Operation Comp Device Processes.
From S2P Require Import Topology Tuning Ring Session SessionRounds HostExchange RankDevice DeviceCollective DeviceRing DirectCollectives DirectTheorems.

Section chunked.
Context `{Crc32Hash} (uid : list Z) (world : nat) (error_text : NetworkError -> list Z) (lane : Z -> nat).
#[local] Existing Instance collective_mail.
#[local] Instance chunked_mail : Mail := collective_mail uid world error_text lane.
#[local] Instance chunked_mail_laws : MailLaws chunked_mail := collective_mail_laws uid world error_text lane.
Context {T : Type} {D : RankDevice T} {V : RankView T} {L : RankLaws T} {DE : DeviceErrors Error}.
Abbreviation w := world.
Abbreviation rank_program := (rank_program (T:=T) uid w error_text lane).
Abbreviation then_ g m := (mbind (M:=DeviceCollective.rank_program uid w error_text lane) g m).
Abbreviation just := (just uid w error_text lane).

Context (coll : nat -> DeviceCollective (T:=T)) (et : ElementType) (root : nat) (p : ChunkedBroadcastPlan) (restored : nat).
Context (buf : nat -> Buffer) (n : nat) (x : nat -> list T) (progress : BroadcastProgress -> outcome Error unit).
Abbreviation exec r := (execution (coll r)).

(** The root and its elements, a plan for the buffers, a prefix that ends at a
    chunk, and a callback that goes on. *)
Record chunked_inputs (st : nat -> RankState (T:=T)) : Prop := {
  chunked_root : (root < w)%nat;
  chunked_length r : (r < w)%nat -> buffer_len (buf r) = n;
  chunked_held r : (r < w)%nat -> holds (memory (st r)) (exec r) (buf r) (x r);
  chunked_plan : elements p = n /\ element_bytes p = ELEMENT_SIZE /\ (0 < chunk_elements p)%nat;
  chunked_fits : chunk_fits (T:=T) (chunk_elements p `min` n);
  chunked_restored : restored = n \/ ((restored < n)%nat /\ (restored mod chunk_elements p = 0)%nat);
  chunked_steps : Z.of_nat n + Z.of_nat w < 2 ^ 32;
  chunked_progress s : progress s = Ok tt;
  chunked_world : Z.of_nat w * 56 <= MAX_FRAME_PAYLOAD_BYTES;
}.

(** [c] elements are complete: the ones that were not restored are the root's. *)
Record filled (c r : nat) (y : list T) : Prop := {
  filled_length : length y = n;
  filled_lookup i : y !! i = if decide (restored <= i < c)%nat then x root !! i else x r !! i;
}.

Lemma filled_chunk c len r y : (restored <= c)%nat -> (c + len <= n)%nat -> length (x root) = n -> filled c r y -> filled (c + len) r (put c (sub c len (x root)) y).
Proof using Type.
  intros Hc Hlen Hx [Hl Hy]. assert (Hs : length (sub c len (x root)) = len) by (unfold sub; rewrite length_take, length_drop; lia).
  split; [rewrite length_put; lia|]. intros i. rewrite lookup_put by lia. rewrite Hs.
  destruct (decide (c <= i < c + len)%nat) as [Hi|Hi].
  - rewrite (decide_True (P := (restored <= i < c + len)%nat)) by lia.
    rewrite lookup_sub, decide_True by lia. f_equal. lia.
  - rewrite Hy. repeat case_decide; try done; lia.
Qed.

Lemma filled_root c y : (restored <= c)%nat -> length (x root) = n -> filled c root y -> y = x root.
Proof using Type. intros Hc Hx [_ Hy]. apply list_eq. intros i. rewrite Hy. by case_decide. Qed.

(** ** One chunk *)
Section chunk.
Context (k : nat) (st : nat -> RankState (T:=T)) (v : Wire) (Hround : direct_round uid w coll et k st v).
Context (c len : nat) (Hc : (restored <= c)%nat) (Hlen : (c + len <= n)%nat) (Hroot : (root < w)%nat).
Context (Hbuf : forall r, (r < w)%nat -> buffer_len (buf r) = n) (Hx : length (x root) = n) (Hfit : chunk_fits (T:=T) len).
Context (Hheld : forall r, (r < w)%nat -> exists y, holds (memory (st r)) (exec r) (buf r) y /\ filled c r y).
Context (Hsize : Z.of_nat (n * ELEMENT_SIZE) < 2 ^ 63).

Definition chunk_data (r : nat) : list Z := if (r =? root)%nat then encode (sub c len (x root)) else [].

Definition after_chunk (r : nat) (response : Frame) : rank_program CollectiveStats :=
  _ ← just (fail_if (negb (length response.(payload) =? len * ELEMENT_SIZE)%nat) (network_error "broadcast range response byte count differs"));
  _ ← on_device uid w error_text lane (copy_bytes_to_device_at (exec r) (buf r) c response.(payload));
  stats_of uid w error_text lane (coll r) (direct_step (coll r)) (len * ELEMENT_SIZE) 0.

Lemma broadcast_at_start r : (r < w)%nat -> exists mem, unchanged (memory (st r)) mem /\
  broadcast_at uid w error_text lane (coll r) (buf r) c len (Z.of_nat root) (st r) =
  then_ (after_chunk r) (exchange_options uid w error_text lane (coll r) Opcode.Broadcast (mkExchangeOptions (Z.of_nat root) (Z.of_nat len) 0 (Z.of_nat c)) (chunk_data r))
    (mkState mem (sequence_number (st r)) (internal_sequence (st r))).
Proof using All.
  intros Hr. destruct (Hheld r Hr) as (y & Hy & Hfill). destruct (direct_rank _ _ _ _ _ _ _ Hround r Hr) as [[_ Hrk _] _].
  pose proof law_size as Hs. assert (Hle : (len * ELEMENT_SIZE <= n * ELEMENT_SIZE)%nat) by nia.
  assert (Hmem : exists mem, unchanged (memory (st r)) mem /\
    (if Z.of_nat (rank (session (coll r))) =? Z.of_nat root then on_device uid w error_text lane (copy_bytes_from_device_at (exec r) (buf r) c len) else mret []) (st r) =
    Return (Ok (mkState mem (sequence_number (st r)) (internal_sequence (st r)), chunk_data r))).
  { rewrite Hrk. unfold chunk_data. destruct (Nat.eqb_spec r root) as [->|Hne].
    - rewrite Z.eqb_refl. assert (Hb : (c + len <= buffer_len (buf root))%nat) by by rewrite Hbuf.
      destruct (runs_total (direct_device _ _ _ _ _ _ _ Hround) _ _ _ (law_copy_bytes_from _ _ _ c len _ Hy Hb)) as (bytes & mem & Hm & -> & Hu).
      exists mem. split; [done|]. unfold on_device. rewrite Hm. by rewrite (filled_root c y Hc Hx Hfill).
    - rewrite (proj2 (Z.eqb_neq _ _)) by lia. exists (memory (st r)). split; [done|]. by destruct (st r). }
  destruct Hmem as (mem & Hun & Hmem). exists mem. split; [done|]. unfold broadcast_at.
  rewrite (root_ok uid w coll et k st v Hround) by lia. rewrite (just_then uid w error_text lane).
  rewrite checked_add_usize_Some by (unfold fits_usize; nia). cbn [ok_or]. rewrite (just_then uid w error_text lane).
  rewrite (proj2 (Nat.ltb_ge _ _)) by (rewrite Hbuf by done; lia). cbn [fail_if]. rewrite (just_then uid w error_text lane).
  rewrite checked_mul_usize_Some by (unfold fits_usize; lia). cbn [ok_or]. rewrite (just_then uid w error_text lane).
  rewrite (step_then uid w error_text lane _ _ _ _ _ Hmem).
  assert (Hdata : (Z.of_nat (rank (session (coll r))) =? Z.of_nat root) && negb (length (chunk_data r) =? len * ELEMENT_SIZE)%nat = false).
  { rewrite Hrk. unfold chunk_data. destruct (Nat.eqb_spec r root) as [->|Hne]; [|by rewrite (proj2 (Z.eqb_neq _ _)) by lia].
    rewrite (proj1 (law_encode _)), length_sub, Nat.eqb_refl, andb_false_r by lia. done. }
  rewrite Hdata. cbn [fail_if]. rewrite (just_then uid w error_text lane). done.
Qed.

Definition chunk_stats (r : nat) : CollectiveStats := {| algorithm := Direct; transport := session_transport (session (coll r));
  steps := direct_step (coll r); stats_bytes := Z.of_nat (len * ELEMENT_SIZE); reduction_kernel_launches := 0 |}.

(** What a chunk leaves at a rank. *)
Record chunk_left (r : nat) (s : RankState (T:=T)) : Prop := {
  chunk_sequence : sequence_number s = Z.of_nat (S k);
  chunk_held : exists y, holds (memory s) (exec r) (buf r) y /\ filled (c + len) r y;
  chunk_keeps : keeps_but (cell (buf r)) (memory (st r)) (memory s);
}.

Lemma after_chunk_ok r mem f : (r < w)%nat -> unchanged (memory (st r)) mem -> payload f = encode (sub c len (x root)) ->
  exists s, chunk_left r s /\ after_chunk r f (after_exchange k mem (st r)) = Return (Ok (s, chunk_stats r)).
Proof using All.
  intros Hr Hun Hf. destruct (Hheld r Hr) as (y & Hy & Hfill). pose proof law_size as Hs. pose proof (direct_device _ _ _ _ _ _ _ Hround) as Hno.
  assert (Hl : length (sub c len (x root)) = len) by (rewrite length_sub; lia).
  assert (Hy' : holds mem (exec r) (buf r) y) by by eapply rank_holds_unchanged.
  destruct (runs_total Hno _ _ _ (law_copy_bytes_to _ _ _ c (sub c len (x root)) _ Hy' ltac:(rewrite Hl, Hbuf by done; lia))) as ([] & m2 & Hm2 & Hup).
  exists (mkState m2 (Z.of_nat (S k)) (internal_sequence (st r))). split.
  - split; [done| |].
    + exists (put c (sub c len (x root)) y). split; [|by apply filled_chunk].
      eapply rank_holds_updated; [exact Hy'|exact Hup|]. rewrite length_put by (rewrite Hl; destruct Hfill as [-> _]; lia). done.
    + intros k' l Hne Hv. cbn [memory]. rewrite (rank_updated_other _ _ _ _ _ Hup Hne). by rewrite (Hun k').
  - unfold after_chunk, after_exchange. rewrite Hf, (proj1 (law_encode _)), Hl, Nat.eqb_refl. cbn [negb fail_if]. rewrite (just_then uid w error_text lane).
    rewrite (device_then uid w error_text lane _ _ _ _ _ _ _ Hm2). unfold stats_of, stats. rewrite checked_in by (unfold in_width; nia). done.
Qed.

(** All ranks broadcast the chunk; [K r] is what a rank does around it. *)
Lemma chunk_exchanged {B} (programs : nat -> program Error B) (K : nat -> program Error (RankState (T:=T) * CollectiveStats) -> program Error B) :
  (forall r x s y s', alone r x s y s' -> alone r (K r x) s (K r y) s') ->
  (forall r, (r < w)%nat -> programs r = K r (broadcast_at uid w error_text lane (coll r) (buf r) c len (Z.of_nat root) (st r))) ->
  exists l st' v', runs network_step l (mkNetwork (map programs (seq 0 w)) v)
      (mkNetwork (map (fun r => K r (Return (Ok (st' r, chunk_stats r)))) (seq 0 w)) v') /\
    ready uid w v' (S k) /\ in_transit v' = in_transit v /\ forall r, (r < w)%nat -> chunk_left r (st' r).
Proof using All.
  intros HK Hprograms. destruct (finite_choice_world uid w coll et k st v Hround _ broadcast_at_start) as [mem Hmem].
  destruct (direct_world uid w coll et k st v Hround) as [_ Hwb]. pose proof (direct_width _ _ _ _ _ _ _ Hround) as Hwidth. pose proof law_size as Hs.
  assert (Hl : length (sub c len (x root)) = len) by (rewrite length_sub; lia).
  destruct (chunk_frame et Hwidth (sub c len (x root)) ltac:(by rewrite Hl)) as (Hb & Hfits & _). unfold Zlen in Hfits. rewrite Hl in Hfits.
  assert (Hsmall : Z.of_nat (len * ELEMENT_SIZE) <= 2 ^ 30) by exact Hfit.
  destruct (direct_exchanged uid w error_text lane coll et k st v Hround Opcode.Broadcast (Z.of_nat root) (Z.of_nat len) (Z.of_nat c) chunk_data)
    with (programs := programs) (K := K) (mem := mem) (after := after_chunk) as (l & resp & v' & Hl1 & Hready & Htrans & Hpay).
  - unfold in_width. lia.
  - right. lia.
  - unfold in_width. nia.
  - unfold in_width. nia.
  - intros r Hr. unfold chunk_data. destruct (r =? root)%nat; [done|constructor].
  - intros r Hr. unfold chunk_data. destruct (r =? root)%nat; [done|by eapply no_payload].
  - cbv zeta. unfold routable. cbn [round_header set_tag set_flags collective opcode element_type element_count root_rank]. rewrite requests_length, Hwidth.
    split; [lia|]. split; [lia|]. apply root_carries. intros r Hr. unfold chunk_data. rewrite Nat2Z.id. destruct (r =? root)%nat; [|done].
    unfold Zlen. rewrite (proj1 (law_encode _)), Hl. lia.
  - done.
  - exact HK.
  - intros r Hr. rewrite Hprograms by done. f_equal. apply (proj2 (Hmem r Hr)).
  - assert (Hafter : forall r, (r < w)%nat -> exists s, chunk_left r s /\ after_chunk r (resp r) (after_exchange k (mem r) (st r)) = Return (Ok (s, chunk_stats r))).
    { intros r Hr. apply after_chunk_ok; [done|apply (Hmem r Hr)|]. rewrite (Hpay r Hr). unfold delivered. cbn [round_header set_tag set_flags collective opcode root_rank].
      rewrite data_at by done. unfold chunk_data. by rewrite Nat.eqb_refl. }
    destruct (finite_choice_world uid w coll et k st v Hround _ Hafter) as [st' Hst']. exists l, st', v'. split; [|split; [done|split; [done|intros r Hr; apply (Hst' r Hr)]]].
    rewrite (map_ext_in (fun r => K r (Return (Ok (st' r, chunk_stats r)))) (fun r => K r (after_chunk r (resp r) (after_exchange k (mem r) (st r))))); [exact Hl1|].
    intros r Hr%in_seq. by rewrite (proj2 (Hst' r ltac:(lia))).
Qed.
End chunk.

(** ** All chunks *)
Lemma next_round k st v st' v' : direct_round uid w coll et k st v -> ready uid w v' (S k) -> Z.of_nat (S k) < U64_MAX ->
  (forall r, (r < w)%nat -> sequence_number (st' r) = Z.of_nat (S k)) -> direct_round uid w coll et (S k) st' v'.
Proof using Type. intros [H1 H2 H3 H4 H5 H6 H7] Hready Hk Hs. by split. Qed.

(** The chunks that [a] elements take. *)
Definition chunks_of (a : nat) : nat := ((a + chunk_elements p - 1) / chunk_elements p)%nat.

Lemma chunks_of_next a : (0 < chunk_elements p)%nat -> (0 < a)%nat -> chunks_of a = S (chunks_of (a - chunk_elements p `min` a)).
Proof using Type.
  intros Hp Ha. unfold chunks_of. destruct (Nat.le_ge_cases (chunk_elements p) a) as [Hle|Hle].
  - rewrite Nat.min_l by done. replace (a + chunk_elements p - 1)%nat with (a - chunk_elements p + chunk_elements p - 1 + 1 * chunk_elements p)%nat by lia.
    rewrite Nat.div_add by lia. lia.
  - rewrite Nat.min_r by done. rewrite Nat.sub_diag, (Nat.div_small (0 + _ - 1)) by lia.
    replace (a + chunk_elements p - 1)%nat with (a - 1 + 1 * chunk_elements p)%nat by lia. rewrite Nat.div_add, Nat.div_small by lia. done.
Qed.

Lemma direct_step_bounds r : 0 <= direct_step (coll r) <= 1.
Proof using Type. unfold direct_step. destruct (1 <? _)%nat; lia. Qed.

Lemma lift_then {E A B} (a : A) (g : A -> program E B) : (lift (Ok a) ≫= g) = g a.
Proof using Type. done. Qed.

Lemma return_then {E A B} (a : A) (g : A -> program E B) : (Return (Ok a) ≫= g) = g a.
Proof using Type. done. Qed.

Section chunks.
Context (Hp : elements p = n) (Hp0 : (0 < chunk_elements p)%nat) (Hroot : (root < w)%nat).
Context (Hbuf : forall r, (r < w)%nat -> buffer_len (buf r) = n) (Hx : length (x root) = n) (Hfit : chunk_fits (T:=T) (chunk_elements p `min` n)).
Context (Hsize : Z.of_nat (n * ELEMENT_SIZE) < 2 ^ 63) (Hsteps : Z.of_nat n + Z.of_nat w < 2 ^ 32) (Hprogress : forall s, progress s = Ok tt).
Context (total : nat) (st0 : nat -> RankState (T:=T)).
Abbreviation progress_at c count := (mkProgress c n count total restored).
Abbreviation chunks fuel r c count := (broadcast_chunks uid w error_text lane (coll r) fuel (buf r) (Z.of_nat root) p progress (progress_at c count)).

(** A rank with [c] complete elements and statistics [s]. *)
Record at_chunk (c r : nat) (st : RankState (T:=T)) (s : CollectiveStats) : Prop := {
  at_held : exists y, holds (memory st) (exec r) (buf r) y /\ filled c r y;
  at_keeps : keeps_but (cell (buf r)) (memory (st0 r)) (memory st);
  at_steps : 0 <= Device.steps s <= Z.of_nat w + Z.of_nat c;
  at_bytes : 0 <= stats_bytes s <= 2 ^ 40 + Z.of_nat (c * ELEMENT_SIZE);
}.

(** One round of the loop. *)
Lemma chunk_round fuel k st v c count s : direct_round uid w coll et k st v -> (restored <= c < n)%nat -> Z.of_nat (count + 1) < 2 ^ 64 ->
  (forall r, (r < w)%nat -> at_chunk c r (st r) (s r)) ->
  exists l st' s' v', let c' := (c + chunk_elements p `min` (n - c))%nat in
    runs network_step l (mkNetwork (map (fun r => chunks (S fuel) r c count (s r) (st r)) (seq 0 w)) v)
      (mkNetwork (map (fun r => chunks fuel r c' (count + 1)%nat (s' r) (st' r)) (seq 0 w)) v') /\
    ready uid w v' (S k) /\ in_transit v' = in_transit v /\
    forall r, (r < w)%nat -> at_chunk c' r (st' r) (s' r) /\ sequence_number (st' r) = Z.of_nat (S k).
Proof using All.
  intros Hround Hc Hcount Hat. set (len := (chunk_elements p `min` (n - c))%nat). assert (Hlen : (0 < len /\ c + len <= n)%nat) by lia.
  assert (Hfit' : chunk_fits (T:=T) len) by (unfold chunk_fits in *; nia). pose proof law_size as Hs.
  set (s' := fun r => {| algorithm := algorithm (s r); transport := transport (s r); Device.steps := Device.steps (s r) + direct_step (coll r);
    stats_bytes := stats_bytes (s r) + Z.of_nat (len * ELEMENT_SIZE); reduction_kernel_launches := reduction_kernel_launches (s r) |}).
  destruct (chunk_exchanged k st v Hround c len ltac:(lia) ltac:(lia) Hroot Hbuf Hx Hfit' (fun r Hr => at_held _ _ _ _ (Hat r Hr)) Hsize
    (fun r => chunks (S fuel) r c count (s r) (st r))
    (fun r prog => (prog ≫= (fun a => (completed ← just (add_usize c len);
        done ← just (add_usize count 1);
        _ ← just (progress (progress_at completed done));
        steps ← just (ok_or (checked_add 32 (Device.steps (s r)) (Device.steps a.2)) (overflow "native broadcast step statistics"));
        bytes ← just (ok_or (checked_add 64 (stats_bytes (s r)) (stats_bytes a.2)) (overflow "native broadcast transfer statistics"));
        mret (progress_at completed done, {| algorithm := algorithm (s r); transport := transport (s r); Device.steps := steps; stats_bytes := bytes;
                reduction_kernel_launches := reduction_kernel_launches (s r) |})) a.1)) ≫=
      (fun b => broadcast_chunks uid w error_text lane (coll r) fuel (buf r) (Z.of_nat root) p progress b.2.1 b.2.2 b.1)))
    as (l & st' & v' & Hl & Hready & Htrans & Hleft).
  - intros r y1 t y2 t' Hy. by apply (alone_bind (M:=chunked_mail)), (alone_bind (M:=chunked_mail)).
  - intros r Hr. cbn [broadcast_chunks completed_elements]. rewrite (proj2 (Nat.leb_gt _ _)) by lia. unfold broadcast_chunk. cbn [completed_elements completed_chunks total_elements total_chunks DirectCollectives.restored_elements].
    rewrite sub_usize_ok by lia. rewrite Hp. reflexivity.
  - exists l, st', s', v'. split; [|split; [done|split; [done|]]].
    + erewrite (map_ext_in (fun r => chunks fuel r (c + len)%nat (count + 1)%nat (s' r) (st' r))); [exact Hl|]. intros r Hr%in_seq.
      destruct (Hat r ltac:(lia)) as [_ _ H4 H5]. pose proof (direct_step_bounds r). rewrite return_then. cbn [fst snd].
      rewrite (add_usize_ok c len) by (unfold fits_usize; nia). rewrite (add_usize_ok count 1) by (unfold fits_usize; lia).
      rewrite !(just_then uid w error_text lane), Hprogress, (just_then uid w error_text lane). cbn [chunk_stats Device.steps stats_bytes].
      unfold checked_add. rewrite (checked_in 32) by (unfold in_width; lia). rewrite (checked_in 64) by (unfold in_width; nia).
      cbn [ok_or]. rewrite !(just_then uid w error_text lane). done.
    + intros r Hr. destruct (Hleft r Hr) as [H1 H2 H3]. destruct (Hat r Hr) as [_ Hk H4 H5]. pose proof (direct_step_bounds r). split; [|done].
      split; [done| |cbn; lia|cbn [s' stats_bytes]; nia]. intros k' y Hne Hv. by apply H3, Hk.
Qed.

Lemma chunks_complete fuel k st v count s : direct_round uid w coll et k st v -> (forall r, (r < w)%nat -> at_chunk n r (st r) (s r)) ->
  exists l st' s' v', runs network_step l (mkNetwork (map (fun r => chunks fuel r n count (s r) (st r)) (seq 0 w)) v)
      (mkNetwork (map (fun r => Return (Ok (st' r, s' r))) (seq 0 w)) v') /\
    ready uid w v' (k + chunks_of (n - n))%nat /\ in_transit v' = in_transit v /\ forall r, (r < w)%nat -> at_chunk n r (st' r) (s' r).
Proof using All.
  intros Hround Hat. exists [], st, s, v. split; [|split; [|done]].
  - rewrite (map_ext (fun r => chunks fuel r n count (s r) (st r)) (fun r => Return (Ok (st r, s r)))); [constructor|].
    intros r. destruct fuel; cbn [broadcast_chunks completed_elements]; by rewrite Hp, Nat.leb_refl.
  - rewrite Nat.sub_diag. unfold chunks_of. rewrite Nat.div_small, Nat.add_0_r by lia. apply (direct_ready _ _ _ _ _ _ _ Hround).
Qed.

Lemma chunks_run fuel k st v c count s : (n - c <= fuel)%nat -> (restored <= c <= n)%nat -> (count <= c)%nat ->
  direct_round uid w coll et k st v -> Z.of_nat (k + (n - c)) < U64_MAX -> (forall r, (r < w)%nat -> at_chunk c r (st r) (s r)) ->
  exists l st' s' v', runs network_step l (mkNetwork (map (fun r => chunks fuel r c count (s r) (st r)) (seq 0 w)) v)
      (mkNetwork (map (fun r => Return (Ok (st' r, s' r))) (seq 0 w)) v') /\
    ready uid w v' (k + chunks_of (n - c))%nat /\ in_transit v' = in_transit v /\ forall r, (r < w)%nat -> at_chunk n r (st' r) (s' r).
Proof using All.
  revert k st v c count s. induction fuel as [|fuel IH]; intros k st v c count s Hfuel Hc Hcount Hround Hk Hat.
  { replace c with n in * by lia. by apply chunks_complete. }
  destruct (decide (c = n)) as [->|Hne]; [by apply chunks_complete|].
  destruct (chunk_round fuel k st v c count s Hround ltac:(lia) ltac:(lia) Hat) as (l1 & st1 & s1 & v1 & Hl1 & Hready1 & Htrans1 & Hat1).
  set (c' := (c + chunk_elements p `min` (n - c))%nat) in *. assert (Hc' : (c < c' <= n)%nat) by lia.
  destruct (IH (S k) st1 v1 c' (count + 1)%nat s1) as (l2 & st2 & s2 & v2 & Hl2 & Hready2 & Htrans2 & Hat2); [lia|lia|lia| |lia|intros r Hr; by apply Hat1|].
  { eapply next_round; [exact Hround|exact Hready1|lia|intros r Hr; by apply Hat1]. }
  exists (l1 ++ l2), st2, s2, v2. split; [eapply runs_app; [exact Hl1|exact Hl2]|]. split; [|split; [by rewrite Htrans2|done]].
  rewrite chunks_of_next by lia. replace (n - c - chunk_elements p `min` (n - c))%nat with (n - c')%nat by lia.
  replace (k + S (chunks_of (n - c')))%nat with (S k + chunks_of (n - c'))%nat by lia. exact Hready2.
Qed.
End chunks.

(** ** The agreement on the plan *)
Section agreement.
Context (k : nat) (st : nat -> RankState (T:=T)) (v : Wire) (Hround : direct_round uid w coll et k st v).
Context (Hbuf : forall r, (r < w)%nat -> buffer_len (buf r) = n) (Hframe : Z.of_nat w * 56 <= MAX_FRAME_PAYLOAD_BYTES).

(** The bytes that every rank gives. *)
Definition plan_bytes : list Z := concat (map (to_le 8) [Z.of_nat root; Z.of_nat n; Z.of_nat (elements p); Z.of_nat (element_bytes p); Z.of_nat (chunk_elements p);
  Z.of_nat restored; ElementType.element_code et]).

Lemma plan_bytes_ok : length plan_bytes = 56%nat /\ Forall is_byte plan_bytes.
Proof using Type.
  split; [unfold plan_bytes; cbn [map concat]; by rewrite !length_app, !length_to_le|]. unfold plan_bytes.
  apply Forall_concat, Forall_map, Forall_forall. intros z _. apply to_le_bytes.
Qed.

Lemma plans_equal : existsb (fun other => negb (bool_decide (other = plan_bytes))) (chunks_exact (length plan_bytes) (concat (map (fun _ => plan_bytes) (seq 0 w)))) = false.
Proof using Type.
  rewrite chunks_exact_concat; [|rewrite (proj1 plan_bytes_ok); lia|by apply Forall_map, Forall_forall].
  generalize (seq 0 w). intros l. induction l as [|a l IH]; [done|]. cbn [map existsb]. by rewrite bool_decide_eq_true_2, IH.
Qed.

Lemma plan_fields_ok r : (r < w)%nat -> concat (map (to_le 8) (plan_fields (coll r) (buf r) (Z.of_nat root) p restored)) = plan_bytes /\ Zlen (plan_fields (coll r) (buf r) (Z.of_nat root) p restored) = 7.
Proof using Hround Hbuf. intros Hr. unfold plan_fields. destruct (direct_rank _ _ _ _ _ _ _ Hround r Hr) as [_ ->]. by rewrite Hbuf. Qed.

Definition agreement_stats (r : nat) : CollectiveStats := {| algorithm := Direct; transport := session_transport (session (coll r));
  Device.steps := direct_steps (session (coll r)); stats_bytes := 56 + 56 * Z.of_nat w; reduction_kernel_launches := 0 |}.

(** The rest of [plan_agreement] after the exchange. *)
Definition after_agreement (r : nat) (response : program NetworkError (Z * Frame)) : program Error (RankState (T:=T) * CollectiveStats) :=
  '(next, (requests, s)) ← convert_error (from_rank (E:=Error)) ('(next, response) ← convert_error RankError.Network response;
     expected ← lift (ok_or (checked_mul usize_bits 56 (Z.of_nat (session_world (session (coll r))))) (RankError.Overflow "host all-gather response bytes"));
     _ ← lift (validate_host_reduction_response response.(payload) expected);
     bytes ← lift (ok_or (checked_add usize_bits 56 expected) (RankError.Overflow "host all-gather transferred bytes"));
     s ← lift (HostExchange.stats (session (coll r)) Direct (direct_steps (session (coll r))) bytes 0);
     mret (next, (response.(payload), s)));
  _ ← lift (fail_if (existsb (fun other => negb (bool_decide (other = plan_bytes))) (chunks_exact (length plan_bytes) requests))
             (network_error "native broadcast plans/ranges differ across ranks"));
  mret (mkState (memory (st r)) next (internal_sequence (st r)), s).

Lemma plan_agreement_start r : (r < w)%nat -> plan_agreement uid w error_text lane (coll r) (buf r) (Z.of_nat root) p restored (st r) =
  after_agreement r (exchange_with_options uid w error_text lane (session (coll r)) (Z.of_nat k) Opcode.AllGather ElementType.U64 (mkExchangeOptions ANY_RANK 7 0 0) plan_bytes).
Proof using Hround Hbuf.
  intros Hr. destruct (plan_fields_ok r Hr) as [Hd Hn]. unfold plan_agreement. rewrite Hd, Hn, (direct_state _ _ _ _ _ _ _ Hround) by done.
  unfold all_gather_host_staged.
  assert (Hv : validate_host_reduction_payload ElementType.U64 7 plan_bytes = Ok 56) by (unfold validate_host_reduction_payload, Zlen; by rewrite (proj1 plan_bytes_ok)).
  rewrite Hv. reflexivity.
Qed.

Lemma after_agreement_ok r f : (r < w)%nat -> payload f = concat (map (fun _ => plan_bytes) (seq 0 w)) ->
  after_agreement r (Return (Ok (Z.of_nat (S k), f))) = Return (Ok (mkState (memory (st r)) (Z.of_nat (S k)) (internal_sequence (st r)), agreement_stats r)).
Proof using All.
  intros Hr Hf. destruct (direct_rank _ _ _ _ _ _ _ Hround r Hr) as [[_ _ Hw] _]. change MAX_FRAME_PAYLOAD_BYTES with (2 ^ 30) in Hframe.
  assert (Hlen : Zlen (payload f) = 56 * Z.of_nat w).
  { rewrite Hf. unfold Zlen. rewrite length_concat, (map_length_const w r Hr 56), length_map, length_seq; [lia|].
    apply Forall_map, Forall_forall. intros i _. apply plan_bytes_ok. }
  unfold after_agreement. cbn [convert_error map_err]. rewrite return_then, Hw. unfold checked_mul.
  rewrite (checked_in _ (56 * _)) by (unfold in_width; lia). cbn [ok_or]. rewrite lift_then. unfold validate_host_reduction_response. rewrite Hlen, Z.eqb_refl.
  cbn [negb fail_if]. rewrite lift_then. unfold checked_add. rewrite (checked_in _ (56 + _)) by (unfold in_width; lia). cbn [ok_or]. rewrite lift_then.
  unfold HostExchange.stats. rewrite checked_in by (unfold in_width; lia). cbn [ok_or mbind outcome_bind]. rewrite lift_then. cbn [mret program_mret convert_error map_err].
  rewrite return_then, Hf, plans_equal. cbn [fail_if]. by rewrite lift_then.
Qed.

(** All ranks agree; [K r] is what follows. *)
Lemma agreement_exchanged {B} (programs : nat -> program Error B) (K : nat -> program Error (RankState (T:=T) * CollectiveStats) -> program Error B) :
  (forall r x s y s', alone r x s y s' -> alone r (K r x) s (K r y) s') ->
  (forall r, (r < w)%nat -> programs r = K r (plan_agreement uid w error_text lane (coll r) (buf r) (Z.of_nat root) p restored (st r))) ->
  exists l v', runs network_step l (mkNetwork (map programs (seq 0 w)) v)
      (mkNetwork (map (fun r => K r (Return (Ok (mkState (memory (st r)) (Z.of_nat (S k)) (internal_sequence (st r)), agreement_stats r)))) (seq 0 w)) v') /\
    ready uid w v' (S k) /\ in_transit v' = in_transit v.
Proof using All.
  intros HK Hprograms. pose proof (direct_session _ _ _ _ _ _ _ Hround) as Hok. pose proof (direct_next _ _ _ _ _ _ _ Hround) as Hk.
  change MAX_FRAME_PAYLOAD_BYTES with (2 ^ 30) in Hframe. destruct plan_bytes_ok as [Hlen Hbytes].
  assert (Hok' : session_ok uid (Z.of_nat k) w) by (destruct Hok as [H1 H2 _ H4]; split; [done|done|unfold in_width, U64_MAX in *; lia|done]).
  destruct (exchange_runs uid w error_text lane (fun r => session (coll r)) (fun r Hr => proj1 (direct_rank _ _ _ _ _ _ _ Hround r Hr)) k Hok' Hk
    Opcode.AllGather ElementType.U64 ANY_RANK 7 0 (fun _ => plan_bytes)) with (C := fun r prog => K r (after_agreement r prog)) (w := v)
    as (l & resp & v' & Hl & Hready & Htrans & Hans); try done.
  - by left.
  - unfold routable. cbv zeta. cbn [round_header set_tag set_flags collective opcode element_type element_count root_rank]. rewrite requests_length.
    split; [done|]. split; [|cbn; change MAX_FRAME_PAYLOAD_BYTES with (2 ^ 30); lia]. apply all_carry. intros r Hr. unfold Zlen. by rewrite Hlen.
  - apply (direct_ready _ _ _ _ _ _ _ Hround).
  - intros r y1 t y2 t' Hy. apply HK. unfold after_agreement. by apply (alone_bind (M:=chunked_mail)), (alone_convert (M:=chunked_mail)), (alone_bind (M:=chunked_mail)), (alone_convert (M:=chunked_mail)).
  - exists l, v'. split; [|done].
    rewrite (map_ext_in programs (fun r => K r (after_agreement r (exchange_with_options uid w error_text lane (session (coll r)) (Z.of_nat k) Opcode.AllGather ElementType.U64 (mkExchangeOptions ANY_RANK 7 0 0) plan_bytes))))
      by (intros r Hr%in_seq; rewrite Hprograms, plan_agreement_start by lia; done).
    rewrite (map_ext_in (fun r => K r (Return (Ok (mkState (memory (st r)) (Z.of_nat (S k)) (internal_sequence (st r)), agreement_stats r))))
      (fun r => K r (after_agreement r (Return (Ok (Z.of_nat (S k), resp r)))))); [exact Hl|].
    intros r Hr%in_seq. rewrite after_agreement_ok; [done|lia|].
    rewrite (answer_payload _ _ _ _ _ _ _ (Hans r ltac:(lia))). done.
Qed.
End agreement.

(** ** The whole broadcast *)
Definition all_chunks : nat := (n / chunk_elements p + Nat.b2n (negb (n mod chunk_elements p =? 0)))%nat.
Definition chunks_restored : nat := if (restored =? n)%nat then all_chunks else (restored / chunk_elements p)%nat.

Section whole.
Context (k : nat) (st : nat -> RankState (T:=T)) (v : Wire) (Hround : direct_round uid w coll et k st v) (Hin : chunked_inputs st).

Lemma buffer_bytes_small : Z.of_nat (n * ELEMENT_SIZE) < 2 ^ 63.
Proof using Hin L.
  pose proof (chunked_root _ Hin) as Hr. rewrite <- (chunked_length _ Hin root Hr). eapply law_fits, holds_usable, (chunked_held _ Hin root Hr).
Qed.

Lemma restored_small : (restored <= n)%nat.
Proof using Hin. destruct (chunked_restored _ Hin) as [->|[? _]]; lia. Qed.

Lemma chunks_restored_small : (chunks_restored <= restored)%nat.
Proof using Hin.
  destruct (chunked_plan _ Hin) as (_ & _ & Hp0). unfold chunks_restored, all_chunks. destruct (Nat.eqb_spec restored n) as [->|_].
  - pose proof (Nat.div_mod_eq n (chunk_elements p)) as Hd. destruct (Nat.eqb_spec (n mod chunk_elements p) 0); cbn [negb Nat.b2n]; nia.
  - apply Nat.Div0.div_le_upper_bound. nia.
Qed.

Lemma plan_progress_ok r : (r < w)%nat ->
  plan_progress (coll r) (buf r) (Z.of_nat root) p restored = Ok (mkProgress restored n chunks_restored all_chunks restored).
Proof using Hin Hround L.
  intros Hr. destruct (chunked_plan _ Hin) as (Hp & Hw & Hp0). pose proof law_size as Hs. pose proof buffer_bytes_small as Hb. pose proof restored_small as Hres.
  assert (Hv : plan_validate p = Ok tt).
  { unfold plan_validate. rewrite Hp, Hw. rewrite (proj2 (Nat.eqb_neq ELEMENT_SIZE 0)), (proj2 (Nat.eqb_neq (chunk_elements p) 0)) by lia. cbn [orb fail_if mbind outcome_bind].
    rewrite checked_mul_usize_Some by (unfold fits_usize; lia). cbn [ok_or mbind outcome_bind]. unfold ISIZE_MAX. rewrite (proj2 (Z.ltb_ge _ _)) by lia. done. }
  unfold plan_progress, plan_chunk_count. rewrite Hv, (root_ok uid w coll et k st v Hround) by (done || pose proof (chunked_root _ Hin); lia).
  cbn [rank_error map_err mbind outcome_bind]. rewrite Hp, Hw, (chunked_length _ Hin) by done. destruct (direct_rank _ _ _ _ _ _ _ Hround r Hr) as [_ ->].
  rewrite (direct_width _ _ _ _ _ _ _ Hround), !Nat.eqb_refl, Z.eqb_refl. cbn [negb orb fail_if mbind outcome_bind].
  rewrite (proj2 (Nat.ltb_ge _ _)) by done. unfold div_ceil_usize. rewrite (proj2 (Nat.eqb_neq (chunk_elements p) 0)) by lia. unfold chunks_restored, all_chunks.
  destruct (Nat.eqb_spec restored n) as [->|Hne]; [done|]. destruct (chunked_restored _ Hin) as [?|[_ Hm]]; [done|].
  assert (Hmul : is_multiple_of (Z.of_nat restored) (Z.of_nat (chunk_elements p)) = true).
  { unfold is_multiple_of. rewrite (proj2 (Z.eqb_neq (Z.of_nat (chunk_elements p)) 0)) by lia. rewrite <- Nat2Z.inj_mod, Hm. done. }
  rewrite Hmul. cbn [negb orb andb fail_if mbind outcome_bind map_err]. unfold div_usize. rewrite (proj2 (Nat.eqb_neq (chunk_elements p) 0)) by lia. done.
Qed.

Lemma filled_all r y : (r < w)%nat -> filled n r y -> y = take restored (x r) ++ drop restored (x root).
Proof using Hin.
  intros Hr [Hl Hy]. pose proof restored_small as Hres.
  assert (Hlen : forall q, (q < w)%nat -> length (x q) = n) by (intros q Hq; rewrite <- (chunked_length _ Hin q Hq); apply (holds_length _ _ _ _ (chunked_held _ Hin q Hq))).
  apply list_eq. intros i. rewrite Hy. destruct (decide (i < restored)%nat) as [Hi|Hi].
  - rewrite decide_False by lia. rewrite lookup_app_l by (rewrite length_take, Hlen by done; lia). by rewrite lookup_take_lt.
  - rewrite lookup_app_r by (rewrite length_take, Hlen by done; lia). rewrite length_take, Hlen, Nat.min_l, lookup_drop by done.
    replace (restored + (i - restored))%nat with i by lia. case_decide as Hn; [done|]. pose proof (chunked_root _ Hin). rewrite !lookup_ge_None_2 by (rewrite Hlen by done; lia). done.
Qed.

(** C19: When all ranks broadcast a buffer in chunks, every schedule ends, after
    one round of the coordinator in which they agree on the plan and one for
    every chunk that is left; every rank's buffer then holds its restored prefix
    and the root's elements behind it, and its other buffers are as before.  The
    loop needs no more rounds than there are elements. *)
Theorem broadcast_chunked_fills : Z.of_nat (S k + n) < U64_MAX ->
  exists v' res, ends_in (mkNetwork (map (fun r => broadcast_chunked_with_fallible_progress uid w error_text lane (coll r) (buf r) (Z.of_nat root) p restored progress (st r)) (seq 0 w)) v)
      (mkNetwork (map (fun r => Return (Ok (res r))) (seq 0 w)) v') /\
    ready uid w v' (S k + chunks_of (n - restored))%nat /\ in_transit v' = in_transit v /\
    forall r, (r < w)%nat -> holds (memory (res r).1) (exec r) (buf r) (take restored (x r) ++ drop restored (x root)) /\
      keeps_but (cell (buf r)) (memory (st r)) (memory (res r).1).
Proof using All.
  intros Hk. pose proof restored_small as Hres. pose proof chunks_restored_small as Hcr. pose proof (chunked_root _ Hin) as Hroot. destruct (chunked_plan _ Hin) as (Hp & _ & Hp0).
  pose proof (chunked_steps _ Hin) as Hsteps. pose proof (chunked_world _ Hin) as Hframe. change MAX_FRAME_PAYLOAD_BYTES with (2 ^ 30) in Hframe.
  assert (Hx : forall r, (r < w)%nat -> length (x r) = n) by (intros q Hq; rewrite <- (chunked_length _ Hin q Hq); apply (holds_length _ _ _ _ (chunked_held _ Hin q Hq))).
  destruct (agreement_exchanged k st v Hround (chunked_length _ Hin) (chunked_world _ Hin)
    (fun r => broadcast_chunked_with_fallible_progress uid w error_text lane (coll r) (buf r) (Z.of_nat root) p restored progress (st r))
    (fun r prog => prog ≫= (fun a => (state ← just (plan_progress (coll r) (buf r) (Z.of_nat root) p restored); _ ← just (progress state);
       broadcast_chunks uid w error_text lane (coll r) (elements p) (buf r) (Z.of_nat root) p progress state a.2) a.1)))
    as (l1 & v1 & Hl1 & Hready1 & Htrans1); [intros r y1 t y2 t' Hy; by apply (alone_bind (M:=chunked_mail))|intros r Hr; done|].
  set (st1 := fun r => mkState (memory (st r)) (Z.of_nat (S k)) (internal_sequence (st r))) in *.
  destruct (chunks_run Hp Hp0 Hroot (chunked_length _ Hin) (Hx root Hroot) (chunked_fits _ Hin) buffer_bytes_small Hsteps (chunked_progress _ Hin) all_chunks st
    n (S k) st1 v1 restored chunks_restored agreement_stats) as (l2 & st2 & s2 & v2 & Hl2 & Hready2 & Htrans2 & Hat); [lia|lia|done|eapply next_round; [exact Hround|exact Hready1|lia|done]|lia| |].
  { intros r Hr. split; [|by intros k' l _ Hv| |].
    - exists (x r). split; [by apply (chunked_held _ Hin)|]. split; [by apply Hx|]. intros i. by rewrite decide_False by lia.
    - cbn [agreement_stats Device.steps]. unfold direct_steps. destruct (direct_rank _ _ _ _ _ _ _ Hround r Hr) as [[_ _ ->] _]. unfold saturating_sub, saturate. lia.
    - cbn [agreement_stats stats_bytes]. lia. }
  exists v2, (fun r => (st2 r, s2 r)). split; [|split; [exact Hready2|split; [by rewrite Htrans2|]]].
  - eapply schedule_suffices; [|rewrite <- (map_map _ Return); apply returned_final]. eapply runs_app; [exact Hl1|].
    erewrite map_ext_in; [exact Hl2|]. intros r Hr%in_seq. rewrite return_then. cbn [fst snd].
    rewrite plan_progress_ok by lia. rewrite (just_then uid w error_text lane), (chunked_progress _ Hin), (just_then uid w error_text lane), Hp. done.
  - intros r Hr. destruct (Hat r Hr) as [(y & Hy & Hfill) Hkeep _ _]. split; [|exact Hkeep]. by rewrite <- (filled_all r y Hr Hfill).
Qed.
End whole.
End chunked.
