(* ===== verification/DirectExample.v ===== *)
(** * Three ranks that reduce and broadcast through the coordinator

    The theorems of [DirectTheorems] and [ChunkedBroadcast] at the tensors of
    bytes of [RingExample]. *)
From S2P Require Import Prelude Protocol Agreement Errors Layout Tags Payload Router Operation Comp Device Processes.
From S2P Require Import Topology Tuning Ring Session SessionRounds TensorDevice RankDevice TensorRank HostExchange DeviceCollective DeviceRing RingExample.
From S2P Require Import DirectCollectives DirectTheorems ChunkedBroadcast.

Module DirectWorld.
Import Crc32Ieee ByteWorld.

Lemma ranks_direct n : direct_round (T:=Byte.byte) uid 3 ranks ElementType.U8 0 (rank_state n) quiet.
Proof.
  split.
  - apply no_device_errors.
  - apply ranks_setting.
  - intros r Hr. split; [done|done].
  - done.
  - apply ready_start.
  - done.
  - done.
Qed.

Lemma ranks_inputs n : (n <= 100)%nat -> direct_inputs (T:=Byte.byte) 3 ranks (rank_state n) (rank_buffer n) n (rank_bytes n).
Proof.
  intros Hn. split; [done| |by apply small_fits]. intros r Hr.
  split; [split; [done|]|done|unfold rank_bytes; by rewrite length_map, length_seq].
  change (Z.of_nat n * 1 <= isize_max). unfold isize_max. lia.
Qed.

(** Five bytes in chunks of two, the first two of which every rank has restored. *)
Definition plan_of_five : ChunkedBroadcastPlan := mkBroadcastPlan 5 1 2.

Lemma five_inputs : chunked_inputs (T:=Byte.byte) 3 ranks 1 plan_of_five 2 (rank_buffer 5) 5 (rank_bytes 5) (fun _ => Ok tt) (rank_state 5).
Proof.
  split.
  - lia.
  - done.
  - apply (direct_held _ _ _ _ _ _ (ranks_inputs 5 ltac:(lia))).
  - split; [done|split; [done|cbn; lia]].
  - apply small_fits. cbn. lia.
  - right. split; [lia|done].
  - done.
  - done.
  - done.
Qed.
End DirectWorld.

Import Crc32Ieee ByteWorld DirectWorld.

Lemma all_reduce_direct_reduces_witness : exists res : nat -> RankState (T:=Byte.byte) * CollectiveStats,
  forall r, (r < 3)%nat -> holds (memory (res r).1) (execution (ranks r)) (rank_buffer 7 r) (reduced_in_order 3 add (rank_bytes 7)).
Proof.
  destruct (all_reduce_direct_reduces (T:=Byte.byte) uid 3 error_text (fun _ => 0%nat) ranks ElementType.U8 0 (rank_state 7) quiet (ranks_direct 7)
    (rank_buffer 7) 7 (rank_bytes 7) (ranks_inputs 7 ltac:(lia)) Sum (fun _ => Sum) add (fun r _ => rank_computes r) ltac:(vm_compute; discriminate)
    (fun r _ => rank_allocates r 7 ltac:(lia))) as (v' & res & _ & _ & _ & Hres).
  exists res. intros r Hr. exact (proj1 (Hres r Hr)).
Defined.

Lemma broadcast_chunked_fills_witness : exists (v' : Wire) (res : nat -> RankState (T:=Byte.byte) * CollectiveStats), ready uid 3 v' 3 /\
  forall r, (r < 3)%nat -> holds (memory (res r).1) (execution (ranks r)) (rank_buffer 5 r) (take 2 (rank_bytes 5 r) ++ drop 2 (rank_bytes 5 1)).
Proof.
  destruct (broadcast_chunked_fills (T:=Byte.byte) uid 3 error_text (fun _ => 0%nat) ranks ElementType.U8 1 plan_of_five 2 (rank_buffer 5) 5 (rank_bytes 5)
    (fun _ => Ok tt) 0 (rank_state 5) quiet (ranks_direct 5) five_inputs ltac:(vm_compute; reflexivity)) as (v' & res & _ & Hready & _ & Hres).
  exists v', res. split; [exact Hready|]. intros r Hr. exact (proj1 (Hres r Hr)).
Defined.
