(* ===== verification/Native.v ===== *)
(** * Native collectives of one process: src/src/in_process/native.rs

    The ranks of a communicator submit a tensor each; the last of a generation
    runs the ring for all of them on the devices, and every rank takes its own
    output.  The state is what the mutex guards and where the calls stand; a step
    is what a thread does between two points where another may go on.  The device
    executor is a parameter, a record of its operations, and may be another one
    at every step: nothing is assumed of it but in the section on the ring. *)
From stdpp Require Import countable.
From S2P Require Import Prelude Layout Ring CollectiveConfig Processes.

(** [catch_unwind(..).map_err(|_| panicked).and_then(|r| r.map_err(|e| e.to_string()))] *)
Definition caught {E A} (error_text : E -> string) (panicked : string) (m : outcome E A) : outcome string A :=
  match m with Ok a => Ok a | Err e => Err (error_text e) | Panic => Err panicked end.

(** The number of entries that are there. *)
Definition filled {A} (l : list (option A)) : nat := length (omap id l).
Arguments filled {A} l : simpl never.

Section native.
Context {DeviceId Tensor Prepared Work E : Type} `{Countable DeviceId} (error_text : E -> string).

(** [NativeCollectiveDevice]; an exchange that fails drops the work. *)
Record NativeCollectiveDevice := mkNative {
  prepare : Tensor -> DeviceId -> outcome E Prepared;
  begin_work : list DeviceId -> list Prepared -> outcome E Work;
  elements : Work -> nat;
  exchange_ranges : Work -> list (nat * nat) -> bool -> outcome E Work;
  finish : Work -> ReduceOperation -> outcome E (list Tensor);
}.

(** ** The ring *)

(** One loop over the steps; at step [step] rank [rank] sends chunk
    [(rank + shift + world - step) % world]. *)
Definition ring_phase (d : NativeCollectiveDevice) (chunks : list (nat * nat)) (world shift : nat) (reduce : bool) (work : Work) : outcome E Work :=
  foldM (fun work step =>
      ranges ← mapM (fun rank => index chunks ((rank + shift + world - step) mod world)) (seq 0 world);
      exchange_ranges d work ranges reduce)
    work (seq 0 (world - 1)).

Definition ring_all_reduce (d : NativeCollectiveDevice) (devices : list DeviceId) (inputs : list Prepared) (operation : ReduceOperation) : outcome E (list Tensor) :=
  work ← begin_work d devices inputs;
  let world := length devices in
  chunks ← balanced_ranges (elements d work) world;
  work ← ring_phase d chunks world 0 true work;
  work ← ring_phase d chunks world 1 false work;
  finish d work operation.

(** ** The communicator *)

(** A [NativeCollectiveError] is its text. *)
Record Submission := mkSubmission { operation : ReduceOperation; prepared : outcome string Prepared }.

Inductive NativeCall :=
  | Preparing (tensor : Tensor) (operation : ReduceOperation)
  | Submitting (submission : Submission)
  | InRound
  | Returned (result : outcome string Tensor).

Record NativeCommunicator := mkCommunicator {
  inputs : list (option Submission);
  outputs : list (option (outcome string Tensor));
  arrived : nat;
  departed : nat;
  ready : bool;
  state_poisoned : bool;
  native_calls : gmap nat (nat * NativeCall);
}.

Definition poisoned_text : string := "native collective state is poisoned".

(** [NativeCommunicator::new] *)
Definition communicator_new (devices : list DeviceId) : outcome string NativeCommunicator :=
  _ ← fail_if (bool_decide (devices = []) || existsb (fun x => bool_decide (x.2 ∈ take x.1 devices)) (imap pair devices))
        "native collective requires distinct devices and a nonempty world"%string;
  let world := length devices in
  Ok (mkCommunicator (replicate world None) (replicate world None) 0 0 false false ∅).

(** ** The registry of communicators *)

(** The communicators that are shared, in the order of their creation. *)
Record NativeCommunicators := mkRegistry { groups : gmap (list DeviceId) nat; communicators : list NativeCommunicator }.

(** [NativeCommunicators::communicator] *)
Definition communicator_for (r : NativeCommunicators) (devices : list DeviceId) : NativeCommunicators * outcome string nat :=
  match groups r !! devices with
  | Some group => (r, Ok group)
  | None =>
      match communicator_new devices with
      | Ok group => (mkRegistry (<[devices := length (communicators r)]> (groups r)) (communicators r ++ [group]), Ok (length (communicators r)))
      | Err error => (r, Err error)
      | Panic => (r, Panic)
      end
  end.

(** The same devices have the same communicator. *)
Lemma communicator_for_again r devices r' group : communicator_for r devices = (r', Ok group) -> communicator_for r' devices = (r', Ok group).
Proof using Type.
  unfold communicator_for. destruct (groups r !! devices) as [g|] eqn:Hg; [by intros [= <- <-]; rewrite Hg|].
  destruct (communicator_new devices) as [c|e|]; [|done..]. intros [= <- <-]. cbn. by rewrite lookup_insert_eq.
Qed.

Definition set_native_call (s : NativeCommunicator) (t rank : nat) (c : NativeCall) : NativeCommunicator :=
  mkCommunicator (inputs s) (outputs s) (arrived s) (departed s) (ready s) (state_poisoned s) (<[t := (rank, c)]> (native_calls s)).

(** A panic with the state locked. *)
Definition poison (s : NativeCommunicator) (t rank : nat) : NativeCommunicator :=
  mkCommunicator (inputs s) (outputs s) (arrived s) (departed s) (ready s) true (<[t := (rank, Returned Panic)]> (native_calls s)).

Context (devices : list DeviceId).
Abbreviation world := (length devices).

(** What the last rank to arrive makes of the submissions of all. *)
Definition run_collective (d : NativeCollectiveDevice) (submissions : list Submission) : outcome string (list Tensor) :=
  first ← index submissions 0;
  let agreed := operation first in
  _ ← fail_if (existsb (fun entry => negb (bool_decide (operation entry = agreed))) submissions)
        "native collective reduction modes differ between ranks"%string;
  inputs ← mapM prepared submissions;
  caught error_text "native collective executor panicked" (ring_all_reduce d devices inputs agreed).

Definition answers_of (result : outcome string (list Tensor)) : list (option (outcome string Tensor)) :=
  match result with
  | Ok outputs =>
      if (length outputs =? world)%nat then map (fun output => Some (Ok output)) outputs
      else replicate world (Some (Err "native collective returned {} outputs for {} ranks"%string))
  | Err error => replicate world (Some (Err error))
  | Panic => []
  end.

(** [state.outputs[rank].take()] to the end of [all_reduce]. *)
Definition take_output (s : NativeCommunicator) (t rank : nat) : NativeCommunicator :=
  match outputs s !! rank with
  | Some (Some output) =>
      let outputs := <[rank := None]> (outputs s) in
      let departed := S (departed s) in
      let calls := <[t := (rank, Returned output)]> (native_calls s) in
      if (departed =? world)%nat then mkCommunicator (inputs s) outputs 0 0 false (state_poisoned s) calls
      else mkCommunicator (inputs s) outputs (arrived s) departed (ready s) (state_poisoned s) calls
  | _ => poison s t rank
  end.

(** [state.inputs[rank] = Some(..)] to the second wait. *)
Definition submit_native (d : NativeCollectiveDevice) (s : NativeCommunicator) (t rank : nat) (submission : Submission) : NativeCommunicator :=
  let s := mkCommunicator (<[rank := Some submission]> (inputs s)) (outputs s) (S (arrived s)) (departed s) (ready s) (state_poisoned s) (native_calls s) in
  if (arrived s =? world)%nat then
    match mapM id (inputs s) with
    | Some submissions =>
        match run_collective d submissions with
        | Panic => poison s t rank
        | result =>
            take_output (mkCommunicator (map (fun _ => None) (inputs s)) (answers_of result) (arrived s) (departed s) true (state_poisoned s) (native_calls s)) t rank
        end
    | None => poison s t rank
    end
  else set_native_call s t rank InRound.

(** Whether a submission of a rank has to wait. *)
Definition occupied (s : NativeCommunicator) (rank : nat) : bool :=
  ready s || match inputs s !! rank with Some (Some _) => true | _ => false end.

Inductive NativeEvent :=
  | CallAllReduce (t rank : nat) (tensor : Tensor) (operation : ReduceOperation)
  | AdvanceNative (t : nat) (d : NativeCollectiveDevice).

Definition native_step (e : NativeEvent) (s : NativeCommunicator) : option NativeCommunicator :=
  match e with
  | CallAllReduce t rank tensor operation =>
      match native_calls s !! t with
      | Some _ => None
      | None =>
          Some (set_native_call s t rank
            (if (rank <? world)%nat then Preparing tensor operation
             else Returned (Err "native collective rank is outside the world"%string)))
      end
  | AdvanceNative t d =>
      match native_calls s !! t with
      | Some (rank, Preparing tensor operation) =>
          match devices !! rank with
          | Some device =>
              Some (set_native_call s t rank (Submitting (mkSubmission operation
                (caught error_text "native device preparation panicked" (prepare d tensor device)))))
          | None => None
          end
      | Some (rank, Submitting submission) =>
          if state_poisoned s then Some (set_native_call s t rank (Returned (Err poisoned_text)))
          else if occupied s rank then None
          else Some (submit_native d s t rank submission)
      | Some (rank, InRound) =>
          if state_poisoned s then Some (set_native_call s t rank (Returned (Err poisoned_text)))
          else if ready s then Some (take_output s t rank) else None
      | _ => None
      end
  end.


(** *** What happened, for the theorems

    The rounds that were run, with their submissions and answers, and the round
    and the submission of each call. *)
Record Rounds := mkRounds { rounds : list (list Submission * list (option (outcome string Tensor))); joined : gmap nat (nat * Submission) }.

Definition rounds_new : Rounds := mkRounds [] ∅.

Definition record_native (e : NativeEvent) (s : NativeCommunicator) (h : Rounds) : Rounds :=
  match e with
  | AdvanceNative t d =>
      match native_calls s !! t with
      | Some (rank, Submitting submission) =>
          if state_poisoned s || occupied s rank then h
          else
            mkRounds
              (match (S (arrived s) =? world)%nat, mapM id (<[rank := Some submission]> (inputs s)) with
               | true, Some submissions => rounds h ++ [(submissions, answers_of (run_collective d submissions))]
               | _, _ => rounds h
               end)
              (<[t := (length (rounds h), submission)]> (joined h))
      | _ => h
      end
  | _ => h
  end.

Definition recorded_native_step (e : NativeEvent) (s : NativeCommunicator * Rounds) : option (NativeCommunicator * Rounds) :=
  s' ← native_step e s.1; Some (s', record_native e s.1 s.2).
End native.

Arguments NativeCollectiveDevice : clear implicits.
Arguments NativeCommunicator : clear implicits.
Arguments NativeEvent : clear implicits.

(** ** Entries that are there *)
Section filled.
Context {A : Type}.
Implicit Types l : list (option A).

Lemma filled_cons x l : filled (x :: l) = (filled l + match x with Some _ => 1 | None => 0 end)%nat.
Proof. unfold filled. destruct x; cbn; lia. Qed.

Lemma filled_le l : (filled l <= length l)%nat.
Proof. induction l as [|x l IH]; [done|]. rewrite filled_cons. cbn. destruct x; lia. Qed.

Lemma filled_fill l r x : l !! r = Some None -> filled (<[r := Some x]> l) = S (filled l).
Proof.
  revert r. induction l as [|y l IH]; intros r; [done|]. destruct r as [|r].
  - intros [= ->]. change (<[0%nat := Some x]> (None :: l)) with (Some x :: l). rewrite !filled_cons. lia.
  - intros Hr. change (<[S r := Some x]> (y :: l)) with (y :: <[r := Some x]> l). rewrite !filled_cons, IH by done. lia.
Qed.

Lemma filled_take l r x : l !! r = Some (Some x) -> filled l = S (filled (<[r := None]> l)).
Proof.
  revert r. induction l as [|y l IH]; intros r; [done|]. destruct r as [|r].
  - intros [= ->]. change (<[0%nat := None]> (Some x :: l)) with (None :: l). rewrite !filled_cons. lia.
  - intros Hr. change (<[S r := None]> (y :: l)) with (y :: <[r := None]> l). rewrite !filled_cons, (IH r Hr). lia.
Qed.

Lemma filled_full l : filled l = length l -> exists xs, mapM id l = Some xs /\ l = map Some xs.
Proof.
  induction l as [|x l IH]; [by exists []|]. rewrite filled_cons. cbn [length]. pose proof (filled_le l). destruct x as [x|]; [|lia].
  intros Hl. destruct IH as (xs & Hxs & ->); [lia|]. exists (x :: xs). split; [|done]. cbn. by rewrite Hxs.
Qed.

Lemma filled_none l : filled l = 0%nat -> forall r x, l !! r <> Some (Some x).
Proof.
  intros Hl r x Hr. pose proof (filled_take l r x Hr). lia.
Qed.

Lemma filled_empty l : (filled l < length l)%nat -> exists r, l !! r = Some None.
Proof.
  induction l as [|[x|] l IH]; [unfold filled; cbn; lia| |by exists 0%nat]. rewrite filled_cons. cbn [length]. intros Hl.
  destruct IH as [r Hr]; [lia|]. by exists (S r).
Qed.

Lemma filled_some l : (0 < filled l)%nat -> exists r x, l !! r = Some (Some x).
Proof.
  induction l as [|[x|] l IH]; [unfold filled; cbn; lia|by exists 0%nat, x|]. rewrite filled_cons. intros Hl. destruct IH as (r & x & Hr); [lia|]. by exists (S r), x.
Qed.

Lemma filled_map (xs : list A) : filled (map Some xs) = length xs.
Proof. induction xs as [|x xs IH]; [done|]. cbn [map]. rewrite filled_cons, IH. cbn. lia. Qed.

Lemma filled_cleared {B} (l : list B) : filled (map (fun _ => None : option A) l) = 0%nat.
Proof. induction l as [|x l IH]; [done|]. cbn [map]. by rewrite filled_cons, IH. Qed.
End filled.

(** ** Generations *)
Section generations.
Context {DeviceId Tensor Prepared Work E : Type} `{Countable DeviceId} (error_text : E -> string) (devices : list DeviceId).
Abbreviation world := (length devices).
Abbreviation communicator := (NativeCommunicator Tensor Prepared).
Abbreviation device := (NativeCollectiveDevice DeviceId Tensor Prepared Work E).
Abbreviation step := (recorded_native_step (Work:=Work) error_text devices).
Abbreviation run_collective := (run_collective error_text devices).
Abbreviation answers := (list (option (outcome string Tensor))).
Implicit Types (s : communicator) (h : Rounds (Tensor:=Tensor) (Prepared:=Prepared)) (d : device).

(** The round in which the calls are that wait. *)
Definition current (s : communicator) (h : Rounds (Tensor:=Tensor) (Prepared:=Prepared)) : nat := if ready s then (length (rounds h) - 1)%nat else length (rounds h).

(** A rank has an input or an output in the current round. *)
Definition waits (s : communicator) (r : nat) : Prop :=
  if ready s then exists o, outputs s !! r = Some (Some o) else exists x, inputs s !! r = Some (Some x).

(** A round was run on the submissions of all ranks. *)
Definition run_on (x : list (Submission (Prepared:=Prepared)) * answers) : Prop :=
  length x.1 = world /\ exists d, x.2 = answers_of devices (run_collective d x.1).

Record native_inv s h : Prop := {
  inv_inputs : length (inputs s) = world;
  inv_sound : state_poisoned s = false;
  inv_open : ready s = false -> departed s = 0%nat /\ arrived s = filled (inputs s) /\ (arrived s < world)%nat;
  inv_ready : ready s = true -> filled (inputs s) = 0%nat /\ length (outputs s) = world /\ (departed s + filled (outputs s))%nat = world /\ (0 < filled (outputs s))%nat /\
    exists subs outs, last (rounds h) = Some (subs, outs) /\ forall r o, outputs s !! r = Some (Some o) -> outs !! r = Some (Some o);
  inv_waits r : waits s r <-> exists t, native_calls s !! t = Some (r, InRound);
  inv_one t t' r : native_calls s !! t = Some (r, InRound) -> native_calls s !! t' = Some (r, InRound) -> t = t';
  inv_joined t r : native_calls s !! t = Some (r, InRound) -> exists sub, joined h !! t = Some (current s h, sub) /\
    (ready s = false -> inputs s !! r = Some (Some sub)) /\ (ready s = true -> exists subs outs, last (rounds h) = Some (subs, outs) /\ subs !! r = Some sub);
  inv_returned t r res : native_calls s !! t = Some (r, Returned res) ->
    ((world <= r)%nat /\ res = Err "native collective rank is outside the world"%string) \/
    exists g sub subs outs, joined h !! t = Some (g, sub) /\ rounds h !! g = Some (subs, outs) /\ subs !! r = Some sub /\ outs !! r = Some (Some res);
  inv_calls t g sub : joined h !! t = Some (g, sub) -> (g <= current s h)%nat /\ exists r c, native_calls s !! t = Some (r, c) /\
    (c = InRound \/ (exists res, c = Returned res)) /\ (g = length (rounds h) -> c = InRound);
  inv_apart t t' g sub sub' r c c' : joined h !! t = Some (g, sub) -> joined h !! t' = Some (g, sub') ->
    native_calls s !! t = Some (r, c) -> native_calls s !! t' = Some (r, c') -> t = t';
  inv_rounds : Forall run_on (rounds h);
  inv_ranks t r c : native_calls s !! t = Some (r, c) -> (forall res, c <> Returned res) -> (r < world)%nat;
  inv_prepared t r sub : native_calls s !! t = Some (r, Submitting sub) -> no_panic (prepared sub);
  inv_inputs_prepared r sub : inputs s !! r = Some (Some sub) -> no_panic (prepared sub);
}.

Lemma start_inv s : communicator_new devices = Ok s -> native_inv s rounds_new.
Proof using Type.
  unfold communicator_new. intros (u & Hu%fail_if_Ok & [= <-])%bind_Ok. apply orb_false_elim in Hu as [Hne%bool_decide_eq_false _].
  assert (Hf : filled (replicate world (None : option (Submission (Prepared:=Prepared)))) = 0%nat) by (generalize world; intros n; induction n as [|n IH]; [done|cbn; by rewrite filled_cons, IH]).
  split; cbn; try done.
  - by rewrite length_replicate.
  - intros _. rewrite Hf. split_and!; [done|done|]. destruct devices; [done|cbn; lia].
  - intros r. unfold waits. cbn. split; [|intros [t Ht]; by rewrite lookup_empty in Ht]. intros [x Hx]. by apply (filled_none _ Hf) in Hx.
  - intros r sub Hr. by apply (filled_none _ Hf) in Hr.
Qed.

Lemma set_call_some s t r c t' x : native_calls (set_native_call s t r c) !! t' = Some x <-> (t = t' /\ (r, c) = x) \/ (t <> t' /\ native_calls s !! t' = Some x).
Proof using Type. apply lookup_insert_Some. Qed.

(** A call goes on that is in no round. *)
Lemma native_call_inv s h t r c : native_inv s h -> (forall r' c', native_calls s !! t = Some (r', c') -> c' <> InRound /\ (forall res, c' <> Returned res)) ->
  c <> InRound -> (forall res, c = Returned res -> (world <= r)%nat /\ res = Err "native collective rank is outside the world"%string) ->
  ((forall res, c <> Returned res) -> (r < world)%nat) -> (forall sub, c = Submitting sub -> no_panic (prepared sub)) -> native_inv (set_native_call s t r c) h.
Proof using Type.
  intros [H1 H2 H3 H4 H5 H6 H7 H8 H9 H10 H11 H12 H13 H14] Hold Hc Hres Hr Hsub.
  assert (Hin : forall t' r', native_calls (set_native_call s t r c) !! t' = Some (r', InRound) <-> native_calls s !! t' = Some (r', InRound)).
  { intros t' r'. cbn. destruct (decide (t' = t)) as [->|Hne]; [|by rewrite lookup_insert_ne]. rewrite lookup_insert_eq. split; [by intros [= _ ->]|].
    intros Ht. by destruct (Hold _ _ Ht). }
  split; try done.
  - intros r'. rewrite (H5 r'). split; intros [t' Ht']; exists t'; by apply Hin.
  - intros t1 t2 r' Ht1%Hin Ht2%Hin. by eapply H6.
  - intros t' r' Ht'%Hin. by apply H7.
  - intros t' r' res [[_ [= <- ->]]|[_ Ht']]%set_call_some; [left; by apply Hres|by eapply H8].
  - intros t' g sub Hj. destruct (H9 _ _ _ Hj) as (Hg & r' & c' & Ht' & Hk & Hl). split; [done|]. exists r', c'. split; [|done].
    cbn. rewrite lookup_insert_ne; [done|]. intros <-. destruct (Hold _ _ Ht') as [Hn1 Hn2]. destruct Hk as [->|[res ->]]; [done|by destruct (Hn2 res)].
  - intros t1 t2 g sub sub' r' c1 c2 Hj1 Hj2 Ht1 Ht2.
    assert (Hback : forall t' g' sub'' c'', joined h !! t' = Some (g', sub'') -> native_calls (set_native_call s t r c) !! t' = Some (r', c'') -> native_calls s !! t' = Some (r', c'')).
    { intros t' g' sub'' c'' Hj [[<- _]|[_ Ht']]%set_call_some; [|done]. destruct (H9 _ _ _ Hj) as (_ & r0 & c0 & Ht & Hk & _).
      destruct (Hold _ _ Ht) as [Hn1 Hn2]. destruct Hk as [->|[res ->]]; [done|by destruct (Hn2 res)]. }
    eapply H10; [exact Hj1|exact Hj2|by eapply Hback|by eapply Hback].
  - intros t' r' c' [[_ [= <- <-]]|[_ Ht']]%set_call_some; [done|by eapply H12].
  - intros t' r' sub [[_ [= _ ->]]|[_ Ht']]%set_call_some; [by apply Hsub|by eapply H13].
Qed.

Lemma last_lookup {A} (l : list A) x : last l = Some x -> (0 < length l)%nat /\ l !! (length l - 1)%nat = Some x.
Proof using Type. rewrite last_lookup. intros Hx. split; [destruct l; [done|cbn; lia]|]. by replace (length l - 1)%nat with (pred (length l)) by lia. Qed.

(** A call that leaves its round has the answer of its rank. *)
Lemma leaves_returned s h t r o : native_inv s h -> native_calls s !! t = Some (r, InRound) -> ready s = true -> outputs s !! r = Some (Some o) ->
  exists g sub subs outs, joined h !! t = Some (g, sub) /\ rounds h !! g = Some (subs, outs) /\ subs !! r = Some sub /\ outs !! r = Some (Some o).
Proof using Type.
  intros Hi Ht Hr Ho. destruct (inv_joined _ _ Hi t r Ht) as (sub & Hj & _ & Hsub). destruct (Hsub Hr) as (subs & outs & Hl & Hsr).
  destruct (inv_ready _ _ Hi Hr) as (_ & _ & _ & _ & subs' & outs' & Hl' & Hout). rewrite Hl in Hl'. injection Hl' as <- <-.
  unfold current in Hj. rewrite Hr in Hj. exists (length (rounds h) - 1)%nat, sub, subs, outs. split; [done|]. split; [by apply last_lookup|]. auto.
Qed.

(** What holds however the state changes, when one call leaves its round. *)
Section leaving.
Context (s s' : communicator) (h : Rounds (Tensor:=Tensor) (Prepared:=Prepared)) (t r : nat) (o : outcome string Tensor).
Context (Hi : native_inv s h) (Ht : native_calls s !! t = Some (r, InRound)) (Hr : ready s = true) (Ho : outputs s !! r = Some (Some o)).
Context (Hcalls : native_calls s' = <[t := (r, Returned o)]> (native_calls s)).

Lemma leaving_some t' x : native_calls s' !! t' = Some x <-> (t = t' /\ (r, Returned o) = x) \/ (t <> t' /\ native_calls s !! t' = Some x).
Proof using All. rewrite Hcalls. apply lookup_insert_Some. Qed.

Lemma leaving_in t' r' : native_calls s' !! t' = Some (r', InRound) <-> t' <> t /\ native_calls s !! t' = Some (r', InRound).
Proof using All. rewrite leaving_some. naive_solver. Qed.

Lemma leaving_returned t' r' res : native_calls s' !! t' = Some (r', Returned res) ->
  ((world <= r')%nat /\ res = Err "native collective rank is outside the world"%string) \/
  exists g sub subs outs, joined h !! t' = Some (g, sub) /\ rounds h !! g = Some (subs, outs) /\ subs !! r' = Some sub /\ outs !! r' = Some (Some res).
Proof using All.
  rewrite leaving_some. intros [[<- [= <- <-]]|[_ Ht']]; [right; by eapply leaves_returned|by eapply inv_returned].
Qed.

Lemma leaving_calls t' g sub : joined h !! t' = Some (g, sub) -> (g < length (rounds h))%nat /\ exists r' c, native_calls s' !! t' = Some (r', c) /\
  (c = InRound \/ exists res, c = Returned res).
Proof using All.
  intros Hj. destruct (inv_calls _ _ Hi _ _ _ Hj) as (Hg & r' & c & Hc & Hk & _).
  destruct (inv_ready _ _ Hi Hr) as (_ & _ & _ & _ & subs & outs & [Hpos _]%last_lookup & _). unfold current in Hg. rewrite Hr in Hg. split; [lia|].
  destruct (decide (t' = t)) as [->|Hne]; [exists r, (Returned o)|exists r', c]; rewrite leaving_some; naive_solver.
Qed.

Lemma leaving_apart t1 t2 g sub sub' r' c c' : joined h !! t1 = Some (g, sub) -> joined h !! t2 = Some (g, sub') ->
  native_calls s' !! t1 = Some (r', c) -> native_calls s' !! t2 = Some (r', c') -> t1 = t2.
Proof using All.
  intros Hj1 Hj2. rewrite !leaving_some. intros H1 H2.
  assert (Hb : forall t' c, (t = t' /\ (r, Returned o) = (r', c)) \/ (t <> t' /\ native_calls s !! t' = Some (r', c)) -> exists c', native_calls s !! t' = Some (r', c')).
  { intros t' c0 [[<- [= <- _]]|[_ Hc]]; eauto. }
  destruct (Hb _ _ H1) as [c1 Hc1], (Hb _ _ H2) as [c2 Hc2]. by eapply (inv_apart _ _ Hi).
Qed.

Lemma leaving_ranks t' r' c : native_calls s' !! t' = Some (r', c) -> (forall res, c <> Returned res) -> (r' < world)%nat.
Proof using All. rewrite leaving_some. intros [[_ [= <- <-]]|[_ Hc]] Hn; [by destruct (Hn o)|by eapply inv_ranks]. Qed.

Lemma leaving_prepared t' r' sub : native_calls s' !! t' = Some (r', Submitting sub) -> no_panic (prepared sub).
Proof using All. rewrite leaving_some. intros [[_ [=]]|[_ Hc]]. by eapply inv_prepared. Qed.
End leaving.

Lemma take_inv s h t r : native_inv s h -> native_calls s !! t = Some (r, InRound) -> ready s = true -> native_inv (take_output devices s t r) h.
Proof using All.
  intros Hi Ht Hr. assert (Hw : waits s r) by (apply (inv_waits _ _ Hi); eauto). unfold waits in Hw. rewrite Hr in Hw. destruct Hw as [o Ho].
  destruct (inv_ready _ _ Hi Hr) as (Hin0 & Hlen & Hsum & Hpos & subs & outs & Hlast & Hout). pose proof (filled_take _ _ _ Ho) as Hf.
  assert (Hother : forall t' r', t' <> t -> native_calls s !! t' = Some (r', InRound) -> exists o', <[r := None]> (outputs s) !! r' = Some (Some o')).
  { intros t' r' Hne Ht'. assert (Hw : waits s r') by (apply (inv_waits _ _ Hi); eauto). unfold waits in Hw. rewrite Hr in Hw. destruct Hw as [o' Ho'].
    exists o'. rewrite list_lookup_insert_ne; [done|]. intros <-. apply Hne. by eapply (inv_one _ _ Hi). }
  unfold take_output. rewrite Ho. destruct (Nat.eqb_spec (S (departed s)) world) as [Hd|Hd].
  - assert (Hz : filled (<[r := None]> (outputs s)) = 0%nat) by lia. pose proof (inv_inputs _ _ Hi) as Hli.
    match goal with |- native_inv ?x h => set (s' := x) end. assert (Hc : native_calls s' = <[t := (r, Returned o)]> (native_calls s)) by done.
    assert (Hnone : forall t' r', native_calls s' !! t' = Some (r', InRound) -> False).
    { intros t' r' [Hne Ht']%(leaving_in s s' h t r o Hi Ht Hr Ho Hc). destruct (Hother _ _ Hne Ht') as [o' Ho']. by apply (filled_none _ Hz) in Ho'. }
    split; try done.
    + apply (inv_sound _ _ Hi).
    + intros _. cbn. rewrite Hin0. destruct devices; [cbn in *; lia|cbn; lia].
    + intros r'. split; [|intros [t' Ht']; by apply Hnone in Ht']. intros [x Hx]. by apply (filled_none _ Hin0) in Hx.
    + intros t1 t2 r' H1. by apply Hnone in H1.
    + intros t' r' H1. by apply Hnone in H1.
    + by apply (leaving_returned s s' h t r o).
    + intros t' g sub Hj. destruct (leaving_calls s s' h t r o Hi Ht Hr Ho Hc t' g sub Hj) as (Hg & r' & c & Hk & Hl). unfold current. cbn.
      split; [lia|]. exists r', c. split; [done|]. split; [done|]. lia.
    + by apply (leaving_apart s s' h t r o).
    + apply (inv_rounds _ _ Hi).
    + by apply (leaving_ranks s s' h t r o).
    + by apply (leaving_prepared s s' h t r o).
    + apply (inv_inputs_prepared _ _ Hi).
  - match goal with |- native_inv ?x h => set (s' := x) end. assert (Hc : native_calls s' = <[t := (r, Returned o)]> (native_calls s)) by done.
    split.
    + apply (inv_inputs _ _ Hi).
    + apply (inv_sound _ _ Hi).
    + cbn. congruence.
    + intros _. cbn. rewrite length_insert. split_and!; [done|done|lia|lia|]. exists subs, outs. split; [done|].
      intros r' o'. destruct (decide (r' = r)) as [->|Hne]; [by rewrite list_lookup_insert_eq by (by eapply lookup_lt_Some)|].
      rewrite list_lookup_insert_ne by done. apply Hout.
    + intros r'. unfold waits. cbn. rewrite Hr. split.
      * intros [o' Ho']. destruct (decide (r' = r)) as [->|Hne]; [by rewrite list_lookup_insert_eq in Ho' by (by eapply lookup_lt_Some)|].
        rewrite list_lookup_insert_ne in Ho' by done. assert (Hw : waits s r') by (unfold waits; rewrite Hr; eauto). apply (inv_waits _ _ Hi) in Hw as [t' Ht'].
        exists t'. apply (leaving_in s s' h t r o Hi Ht Hr Ho Hc). split; [|done]. intros ->. congruence.
      * intros [t' [Hne Ht']%(leaving_in s s' h t r o Hi Ht Hr Ho Hc)]. by eapply Hother.
    + intros t1 t2 r' [_ H1]%(leaving_in s s' h t r o Hi Ht Hr Ho Hc) [_ H2]%(leaving_in s s' h t r o Hi Ht Hr Ho Hc). by eapply (inv_one _ _ Hi).
    + intros t' r' [_ Ht']%(leaving_in s s' h t r o Hi Ht Hr Ho Hc). apply (inv_joined _ _ Hi t' r' Ht').
    + by apply (leaving_returned s s' h t r o).
    + intros t' g sub Hj. destruct (leaving_calls s s' h t r o Hi Ht Hr Ho Hc t' g sub Hj) as (Hg & r' & c & Hk & Hl). unfold current. cbn. rewrite Hr.
      split; [lia|]. exists r', c. split; [done|]. split; [done|]. lia.
    + by apply (leaving_apart s s' h t r o).
    + apply (inv_rounds _ _ Hi).
    + by apply (leaving_ranks s s' h t r o).
    + by apply (leaving_prepared s s' h t r o).
    + apply (inv_inputs_prepared _ _ Hi).
Qed.

(** *** A submission *)

Lemma answers_filled (result : outcome string (list Tensor)) : no_panic result -> exists os, answers_of devices result = map Some os /\ length os = world.
Proof using Type.
  intros Hn. assert (Hrep : forall (x : outcome string Tensor), exists os, replicate world (Some x) = map Some os /\ length os = world).
  { intros x. exists (replicate world x). split; [|apply length_replicate]. generalize world. intros n. induction n as [|n IH]; [done|]. cbn. by rewrite IH. }
  destruct result as [outs|e|]; [|apply Hrep|done]. cbn. destruct (Nat.eqb_spec (length outs) world) as [Hl|]; [|apply Hrep].
  exists (map Ok outs). rewrite map_map, length_map. done.
Qed.

Lemma run_collective_no_panic d subs : (0 < length subs)%nat -> (forall sub, sub ∈ subs -> no_panic (prepared sub)) -> no_panic (run_collective d subs).
Proof using Type.
  intros Hl Hp. unfold Native.run_collective. apply bind_no_panic; [by apply index_no_panic|]. intros first _.
  apply bind_no_panic; [apply fail_if_no_panic|]. intros _ _. apply bind_no_panic.
  - apply mapM_no_panic, Forall_forall. intros sub Hin. by apply Hp.
  - intros inputs _. unfold caught. by destruct (ring_all_reduce _ _ _ _).
Qed.

(** The state with the submission of a call that waits for its round. *)
Definition joining (s : communicator) (t r : nat) (sub : Submission (Prepared:=Prepared)) : communicator :=
  mkCommunicator (<[r := Some sub]> (inputs s)) (outputs s) (S (arrived s)) (departed s) (ready s) (state_poisoned s) (<[t := (r, InRound)]> (native_calls s)).

Definition joins (h : Rounds (Tensor:=Tensor) (Prepared:=Prepared)) (t : nat) (sub : Submission (Prepared:=Prepared)) : Rounds :=
  mkRounds (rounds h) (<[t := (length (rounds h), sub)]> (joined h)).

Section joining.
Context (s : communicator) (h : Rounds (Tensor:=Tensor) (Prepared:=Prepared)) (t r : nat) (sub : Submission (Prepared:=Prepared)).
Context (Hi : native_inv s h) (Ht : native_calls s !! t = Some (r, Submitting sub)) (Hfree : occupied s r = false).

Lemma joining_open : ready s = false /\ inputs s !! r = Some None /\ (r < world)%nat /\ current s h = length (rounds h).
Proof using All.
  unfold occupied in Hfree. apply orb_false_elim in Hfree as [Hr Hs]. assert (Hlt : (r < world)%nat) by (by eapply (inv_ranks _ _ Hi)).
  split; [done|]. split; [|split; [done|unfold current; by rewrite Hr]].
  rewrite <- (inv_inputs _ _ Hi) in Hlt. apply lookup_lt_is_Some in Hlt as [[x|] Hx]; rewrite Hx in Hs |- *; done.
Qed.

Lemma joining_some t' x : native_calls (joining s t r sub) !! t' = Some x <-> (t = t' /\ (r, InRound) = x) \/ (t <> t' /\ native_calls s !! t' = Some x).
Proof using Type. apply lookup_insert_Some. Qed.

Lemma joined_some t' x : joined (joins h t sub) !! t' = Some x <-> (t = t' /\ (length (rounds h), sub) = x) \/ (t <> t' /\ joined h !! t' = Some x).
Proof using Type. apply lookup_insert_Some. Qed.

Lemma joining_not_joined : joined h !! t = None.
Proof using All.
  destruct (joined h !! t) as [[g x]|] eqn:Hj; [|done]. destruct (inv_calls _ _ Hi _ _ _ Hj) as (_ & r' & c & Hc & Hk & _). rewrite Ht in Hc.
  injection Hc as <- <-. destruct Hk as [|[? ?]]; done.
Qed.

Lemma joining_waits r' : (exists x, <[r := Some sub]> (inputs s) !! r' = Some (Some x)) <-> exists t', native_calls (joining s t r sub) !! t' = Some (r', InRound).
Proof using All.
  destruct joining_open as (Hr & Hs & Hlt & _). destruct (decide (r' = r)) as [->|Hne].
  - rewrite list_lookup_insert_eq by (by eapply lookup_lt_Some). split; [|eauto]. intros _. exists t. rewrite joining_some. by left.
  - rewrite list_lookup_insert_ne by done. pose proof (inv_waits _ _ Hi r') as Hw. unfold waits in Hw. rewrite Hr in Hw. rewrite Hw.
    split; intros [t' Ht']; exists t'; rewrite joining_some in *; [right; split; [congruence|done]|naive_solver].
Qed.

Lemma joining_in_old t' r' : native_calls (joining s t r sub) !! t' = Some (r', InRound) -> t' <> t -> native_calls s !! t' = Some (r', InRound) /\ r' <> r.
Proof using All.
  destruct joining_open as (Hr & Hs & Hlt & _). rewrite joining_some. intros [[-> _]|[_ Ht']] Hne; [done|]. split; [done|]. intros ->.
  assert (Hw : waits s r) by (apply (inv_waits _ _ Hi); eauto). unfold waits in Hw. rewrite Hr in Hw. destruct Hw as [x Hx]. congruence.
Qed.

Lemma joining_one t1 t2 r' : native_calls (joining s t r sub) !! t1 = Some (r', InRound) -> native_calls (joining s t r sub) !! t2 = Some (r', InRound) -> t1 = t2.
Proof using All.
  intros H1 H2. destruct (decide (t1 = t)) as [->|Hn1], (decide (t2 = t)) as [->|Hn2]; [done| | |].
  - destruct (joining_in_old _ _ H2 Hn2) as [_ Hr]. apply joining_some in H1 as [[_ [= ->]]|[? _]]; done.
  - destruct (joining_in_old _ _ H1 Hn1) as [_ Hr]. apply joining_some in H2 as [[_ [= ->]]|[? _]]; done.
  - apply joining_in_old in H1 as [H1 _]; [|done]. apply joining_in_old in H2 as [H2 _]; [|done]. by eapply (inv_one _ _ Hi).
Qed.

(** The submission of a call that waits. *)
Lemma joining_joined t' r' : native_calls (joining s t r sub) !! t' = Some (r', InRound) ->
  exists x, joined (joins h t sub) !! t' = Some (length (rounds h), x) /\ <[r := Some sub]> (inputs s) !! r' = Some (Some x).
Proof using All.
  destruct joining_open as (Hr & Hs & Hlt & Hcur). intros Ht'. destruct (decide (t' = t)) as [->|Hne].
  - apply joining_some in Ht' as [[_ [= <-]]|[? _]]; [|done]. exists sub. rewrite joined_some. split; [by left|].
    by rewrite list_lookup_insert_eq by (by eapply lookup_lt_Some).
  - destruct (joining_in_old _ _ Ht' Hne) as [Hold Hrr]. destruct (inv_joined _ _ Hi t' r' Hold) as (x & Hj & Hx & _). exists x.
    rewrite joined_some, list_lookup_insert_ne by done. rewrite Hcur in Hj. split; [right; split; [congruence|done]|by apply Hx].
Qed.

Lemma joining_calls t' g x : joined (joins h t sub) !! t' = Some (g, x) -> (g <= length (rounds h))%nat /\ exists r' c, native_calls (joining s t r sub) !! t' = Some (r', c) /\
  (c = InRound \/ exists res, c = Returned res) /\ (g = length (rounds h) -> c = InRound).
Proof using All.
  destruct joining_open as (_ & _ & _ & Hcur). rewrite joined_some. intros [[<- [= <- <-]]|[Hne Hj]].
  - split; [done|]. exists r, InRound. rewrite joining_some. split; [by left|]. split; [by left|done].
  - destruct (inv_calls _ _ Hi _ _ _ Hj) as (Hg & r' & c & Hc & Hk). rewrite Hcur in Hg. split; [done|]. exists r', c. rewrite joining_some. auto.
Qed.

Lemma joining_apart t1 t2 g x x' r' c c' : joined (joins h t sub) !! t1 = Some (g, x) -> joined (joins h t sub) !! t2 = Some (g, x') ->
  native_calls (joining s t r sub) !! t1 = Some (r', c) -> native_calls (joining s t r sub) !! t2 = Some (r', c') -> t1 = t2.
Proof using All.
  intros Hj1 Hj2 H1 H2. destruct (decide (g = length (rounds h))) as [->|Hg].
  - destruct (joining_calls _ _ _ Hj1) as (_ & ? & ? & Hc1 & _ & Hk1), (joining_calls _ _ _ Hj2) as (_ & ? & ? & Hc2 & _ & Hk2).
    rewrite H1 in Hc1. injection Hc1 as <- <-. rewrite H2 in Hc2. injection Hc2 as <- <-. rewrite (Hk1 eq_refl) in H1. rewrite (Hk2 eq_refl) in H2. by eapply joining_one.
  - apply joined_some in Hj1 as [[_ [= ? _]]|[Hn1 Hj1]]; [done|]. apply joined_some in Hj2 as [[_ [= ? _]]|[Hn2 Hj2]]; [done|].
    apply joining_some in H1 as [[? _]|[_ H1]]; [done|]. apply joining_some in H2 as [[? _]|[_ H2]]; [done|]. by eapply (inv_apart _ _ Hi).
Qed.

Lemma joining_returned t' r' res rs : native_calls (joining s t r sub) !! t' = Some (r', Returned res) ->
  ((world <= r')%nat /\ res = Err "native collective rank is outside the world"%string) \/
  exists g x subs outs, joined (joins h t sub) !! t' = Some (g, x) /\ (rounds h ++ rs) !! g = Some (subs, outs) /\ subs !! r' = Some x /\ outs !! r' = Some (Some res).
Proof using All.
  rewrite joining_some. intros [[_ [=]]|[Hne Ht']]. destruct (inv_returned _ _ Hi _ _ _ Ht') as [Hl|(g & x & subs & outs & Hj & Hg & Hrest)]; [by left|].
  right. exists g, x, subs, outs. rewrite joined_some, lookup_app_l by (by eapply lookup_lt_Some). auto.
Qed.

Lemma joining_ranks t' r' c : native_calls (joining s t r sub) !! t' = Some (r', c) -> (forall res, c <> Returned res) -> (r' < world)%nat.
Proof using All. destruct joining_open as (_ & _ & Hlt & _). rewrite joining_some. intros [[_ [= <- <-]]|[_ Hc]] Hn; [done|by eapply (inv_ranks _ _ Hi)]. Qed.

Lemma joining_prepared t' r' x : native_calls (joining s t r sub) !! t' = Some (r', Submitting x) -> no_panic (prepared x).
Proof using All. rewrite joining_some. intros [[_ [=]]|[_ Hc]]. by eapply (inv_prepared _ _ Hi). Qed.

Lemma joining_inputs_prepared r' x : <[r := Some sub]> (inputs s) !! r' = Some (Some x) -> no_panic (prepared x).
Proof using All.
  intros [[-> [[= <-] _]]|[_ Hx]]%list_lookup_insert_Some; [by eapply (inv_prepared _ _ Hi)|by eapply (inv_inputs_prepared _ _ Hi)].
Qed.

(** Others are still to come. *)
Lemma join_inv : S (arrived s) <> world -> native_inv (joining s t r sub) (joins h t sub).
Proof using All.
  intros Hn. destruct joining_open as (Hr & Hs & Hlt & Hcur). destruct (inv_open _ _ Hi Hr) as (Hd & Ha & Hw).
  assert (Hready : ready (joining s t r sub) = false) by done.
  split; unfold waits, current; rewrite ?Hready.
  - cbn. rewrite length_insert. apply (inv_inputs _ _ Hi).
  - apply (inv_sound _ _ Hi).
  - intros _. cbn. rewrite filled_fill by done. lia.
  - done.
  - apply joining_waits.
  - apply joining_one.
  - intros t' r' Ht'. destruct (joining_joined _ _ Ht') as (x & Hj & Hx). exists x. done.
  - intros t' r' res Ht'. destruct (joining_returned t' r' res [] Ht') as [?|Hx]; [by left|right]. by rewrite app_nil_r in Hx.
  - apply joining_calls.
  - apply joining_apart.
  - apply (inv_rounds _ _ Hi).
  - apply joining_ranks.
  - apply joining_prepared.
  - apply joining_inputs_prepared.
Qed.

(** The last of a round runs the collective. *)
Definition executed (subs : list (Submission (Prepared:=Prepared))) (os : list (outcome string Tensor)) : communicator :=
  mkCommunicator (map (fun _ => None) (<[r := Some sub]> (inputs s))) (map Some os) (S (arrived s)) (departed s) true (state_poisoned s)
    (native_calls (joining s t r sub)).

Lemma execute_inv subs os : S (arrived s) = world -> <[r := Some sub]> (inputs s) = map Some subs -> length os = world -> run_on (subs, map Some os) ->
  native_inv (executed subs os) (mkRounds (rounds h ++ [(subs, map Some os)]) (joined (joins h t sub))).
Proof using All.
  intros Hn Hsubs Hos Hrun. destruct joining_open as (Hr & Hs & Hlt & Hcur). destruct (inv_open _ _ Hi Hr) as (Hd & Ha & Hw).
  assert (Hls : length subs = world) by (apply (f_equal length) in Hsubs; rewrite length_insert, length_map, (inv_inputs _ _ Hi) in Hsubs; lia).
  assert (Hready : ready (executed subs os) = true) by done.
  assert (Hlast : last (rounds h ++ [(subs, map Some os)]) = Some (subs, map Some os)) by apply last_snoc.
  assert (Hcleared : forall r' x, inputs (executed subs os) !! r' <> Some (Some x)) by (apply filled_none, filled_cleared).
  assert (Hin : forall r', (exists x, <[r := Some sub]> (inputs s) !! r' = Some (Some x)) <-> exists o, map Some os !! r' = Some (Some o)).
  { intros r'. rewrite Hsubs, !list_lookup_fmap. split; intros [y Hy]; [destruct (subs !! r') eqn:E1; [|done]; apply lookup_lt_Some in E1|destruct (os !! r') eqn:E1; [|done]; apply lookup_lt_Some in E1].
    - destruct (lookup_lt_is_Some_2 os r') as [z Hz]; [lia|]. exists z. by rewrite Hz.
    - destruct (lookup_lt_is_Some_2 subs r') as [z Hz]; [lia|]. exists z. by rewrite Hz. }
  split; unfold waits, current; rewrite ?Hready; cbn [rounds joined].
  - cbn. rewrite length_map, length_insert. apply (inv_inputs _ _ Hi).
  - apply (inv_sound _ _ Hi).
  - done.
  - intros _. cbn. rewrite filled_cleared, filled_map, length_map. split_and!; [done|done|lia|lia|]. exists subs, (map Some os). done.
  - intros r'. cbn [outputs executed]. rewrite <- Hin. apply joining_waits.
  - apply joining_one.
  - intros t' r' Ht'. destruct (joining_joined _ _ Ht') as (x & Hj & Hx). exists x. rewrite length_app. cbn [length]. replace (length (rounds h) + 1 - 1)%nat with (length (rounds h)) by lia.
    split; [done|]. split; [done|]. intros _. exists subs, (map Some os). split; [done|]. rewrite Hsubs, list_lookup_fmap in Hx. destruct (subs !! r'); [|done]. by injection Hx as ->.
  - intros t' r' res Ht'. by apply joining_returned.
  - intros t' g x Hj. destruct (joining_calls _ _ _ Hj) as (Hg & r' & c & Hc & Hk & _). rewrite length_app. cbn [length]. split; [lia|].
    exists r', c. split; [done|]. split; [done|]. lia.
  - apply joining_apart.
  - apply Forall_app. split; [apply (inv_rounds _ _ Hi)|]. by constructor.
  - apply joining_ranks.
  - apply joining_prepared.
  - intros r' x Hx. by apply Hcleared in Hx.
Qed.

Lemma native_submit_inv d : native_inv (submit_native error_text devices d s t r sub) (record_native (Work:=Work) error_text devices (AdvanceNative t d) s h).
Proof using All.
  destruct joining_open as (Hr & Hs & Hlt & Hcur). destruct (inv_open _ _ Hi Hr) as (Hd & Ha & Hw). pose proof (inv_sound _ _ Hi) as Hp.
  cbn [record_native]. rewrite Ht, Hp, Hfree. cbn [orb]. unfold submit_native. cbn [arrived inputs]. destruct (Nat.eqb_spec (S (arrived s)) world) as [Hn|Hn]; [|by apply join_inv].
  destruct (filled_full (<[r := Some sub]> (inputs s))) as (subs & Hm & Hsubs).
  { rewrite filled_fill, length_insert, (inv_inputs _ _ Hi) by done. lia. }
  rewrite Hm. assert (Hls : length subs = world) by (apply (f_equal length) in Hsubs; rewrite length_insert, length_map, (inv_inputs _ _ Hi) in Hsubs; lia).
  assert (Hnp : no_panic (run_collective d subs)).
  { apply run_collective_no_panic; [lia|]. intros x [i Hx]%list_elem_of_lookup. apply (joining_inputs_prepared i). by rewrite Hsubs, list_lookup_fmap, Hx. }
  destruct (answers_filled _ Hnp) as (os & Hos & Hlo).
  assert (Hi' : native_inv (executed subs os) (mkRounds (rounds h ++ [(subs, answers_of devices (run_collective d subs))]) (joined (joins h t sub)))).
  { rewrite Hos. apply execute_inv; [done|done|done|]. split; [done|]. exists d. done. }
  assert (Htake : take_output devices (executed subs os) t r =
    take_output devices (mkCommunicator (map (fun _ => None) (<[r := Some sub]> (inputs s))) (map Some os) (S (arrived s)) (departed s) true (state_poisoned s) (native_calls s)) t r).
  { unfold take_output, poison, executed, joining. cbn. destruct (map Some os !! r) as [[o|]|]; rewrite ?insert_insert_eq; [|done..]. by case_match. }
  assert (Hin : native_calls (executed subs os) !! t = Some (r, InRound)) by (by apply lookup_insert_eq).
  pose proof (take_inv _ _ t r Hi' Hin eq_refl) as Hfin. rewrite Htake, <- Hos in Hfin.
  destruct (run_collective d subs); [exact Hfin|exact Hfin|done].
Qed.
End joining.

Lemma native_step_inv e s h s' : native_inv s h -> native_step (Work:=Work) error_text devices e s = Some s' -> native_inv s' (record_native error_text devices e s h).
Proof using All.
  intros Hi. pose proof (inv_sound _ _ Hi) as Hp. destruct e as [t r tensor op|t d]; cbn [native_step record_native].
  - destruct (native_calls s !! t) eqn:Ht; [done|]. intros [= <-]. destruct (Nat.ltb_spec r world); (apply native_call_inv; [done|congruence|done| | |]); try done.
    + by intros res [= <-].
    + intros Hn. by destruct (Hn (Err "native collective rank is outside the world"%string)).
  - destruct (native_calls s !! t) as [[r c]|] eqn:Ht; [|done]. destruct c as [tensor op|sub| |res]; [| | |done].
    + destruct (devices !! r) as [device|] eqn:Hd; [|done]. intros [= <-]. apply native_call_inv; [done| |done|done| |].
      * intros r' c' Hc. rewrite Ht in Hc. by injection Hc as <- <-.
      * intros _. by eapply lookup_lt_Some.
      * intros sub [= <-]. cbn. unfold caught. by destruct (prepare d tensor device).
    + rewrite Hp. cbn [orb]. destruct (occupied s r) eqn:Ho; [done|]. intros [= <-]. pose proof (native_submit_inv s h t r sub Hi Ht Ho d) as Hs.
      cbn [record_native] in Hs. by rewrite Ht, Hp, Ho in Hs.
    + rewrite Hp. destruct (ready s) eqn:Hr; [|done]. intros [= <-]. by apply take_inv.
Qed.

Lemma native_runs_inv l s h s' h' : runs step l (s, h) (s', h') -> native_inv s h -> native_inv s' h'.
Proof using All.
  revert s h. induction l as [|e l IH]; intros s h Hl Hi; inversion Hl as [|? ? ? [s1 h1] ? He Hrest]; subst; [done|].
  apply bind_Some in He as (s2 & He & [= <- <-]). eapply IH; [exact Hrest|]. by eapply native_step_inv.
Qed.

(** While every rank has a call that has not returned, a call can go on. *)
Lemma native_progress s h d : native_inv s h -> (forall r, (r < world)%nat -> exists t c, native_calls s !! t = Some (r, c) /\ forall res, c <> Returned res) ->
  exists t s', native_step error_text devices (AdvanceNative t d) s = Some s'.
Proof using Type.
  intros Hi Hall. pose proof (inv_sound _ _ Hi) as Hp. destruct (ready s) eqn:Hr.
  - destruct (inv_ready _ _ Hi Hr) as (_ & _ & _ & Hpos & _). destruct (filled_some _ Hpos) as (r & o & Ho).
    assert (Hw : waits s r) by (unfold waits; rewrite Hr; eauto). apply (inv_waits _ _ Hi) in Hw as [t Ht].
    exists t. cbn [native_step]. rewrite Ht, Hp, Hr. eauto.
  - destruct (inv_open _ _ Hi Hr) as (_ & Ha & Hlt). rewrite Ha, <- (inv_inputs _ _ Hi) in Hlt. destruct (filled_empty _ Hlt) as [r Hs].
    assert (Hrw : (r < world)%nat) by (rewrite <- (inv_inputs _ _ Hi); by eapply lookup_lt_Some). destruct (Hall r Hrw) as (t & c & Ht & Hc). exists t. cbn [native_step]. rewrite Ht.
    destruct c as [tensor op|sub| |res]; [| | |by destruct (Hc res)].
    + destruct (lookup_lt_is_Some_2 devices r Hrw) as [device ->]. eauto.
    + rewrite Hp. unfold occupied. rewrite Hr, Hs. cbn. eauto.
    + assert (Hw : waits s r) by (apply (inv_waits _ _ Hi); eauto). unfold waits in Hw. rewrite Hr in Hw. destruct Hw as [x Hx]. congruence.
Qed.

(** An error of a round is answered to all ranks alike. *)
Lemma error_for_all (result : outcome string (list Tensor)) r r' e : answers_of devices result !! r = Some (Some (Err e)) -> (r' < world)%nat ->
  answers_of devices result !! r' = Some (Some (Err e)).
Proof using Type.
  intros Hr Hlt. assert (Hrep : forall x, replicate world (Some (Err x : outcome string Tensor)) !! r = Some (Some (Err e)) -> replicate world (Some (Err x : outcome string Tensor)) !! r' = Some (Some (Err e))).
  { intros x [-> _]%lookup_replicate. by apply lookup_replicate. }
  destruct result as [outs|x|]; [|by apply Hrep|done]. cbn in *. destruct (length outs =? world)%nat; [|by apply Hrep].
  rewrite list_lookup_fmap in Hr. by destruct (outs !! r).
Qed.

(** C14: In every interleaving of the calls of any threads, on devices that may
    answer or fail or panic as they like at each step: the state is never
    poisoned and no call panics; a call for a rank of the communicator that has
    returned had its submission in one round, which was run once, on one
    submission of every rank, and its result is the answer of its own rank in
    that round; an error is the answer of all ranks of the round; no two calls
    for a rank share a round; and as long as every rank has a call that has not
    returned, a call can go on. *)
Theorem native_generations l s0 s h : communicator_new devices = Ok s0 -> runs step l (s0, rounds_new) (s, h) ->
  state_poisoned s = false /\
  (forall t r res, native_calls s !! t = Some (r, Returned res) ->
    ((world <= r)%nat /\ res = Err "native collective rank is outside the world"%string) \/
    exists g sub subs outs, joined h !! t = Some (g, sub) /\ rounds h !! g = Some (subs, outs) /\ subs !! r = Some sub /\ outs !! r = Some (Some res) /\ no_panic res) /\
  (forall g subs outs, rounds h !! g = Some (subs, outs) -> length subs = world /\ (exists d, outs = answers_of devices (run_collective d subs)) /\
    forall r r' e, outs !! r = Some (Some (Err e)) -> (r' < world)%nat -> outs !! r' = Some (Some (Err e))) /\
  (forall t t' g sub sub' r c c', joined h !! t = Some (g, sub) -> joined h !! t' = Some (g, sub') ->
    native_calls s !! t = Some (r, c) -> native_calls s !! t' = Some (r, c') -> t = t') /\
  (forall d, (forall r, (r < world)%nat -> exists t c, native_calls s !! t = Some (r, c) /\ forall res, c <> Returned res) ->
    exists t s', native_step error_text devices (AdvanceNative t d) s = Some s').
Proof using All.
  intros Hs0 Hl. assert (Hi : native_inv s h) by (eapply native_runs_inv; [exact Hl|by apply start_inv]).
  assert (Hrounds : forall g subs outs, rounds h !! g = Some (subs, outs) -> run_on (subs, outs)).
  { intros g subs outs Hg. eapply (Forall_lookup_1 _ _ _ _ (inv_rounds _ _ Hi) Hg). }
  split; [apply (inv_sound _ _ Hi)|]. split; [|split; [|split]].
  - intros t r res Ht. destruct (inv_returned _ _ Hi _ _ _ Ht) as [?|(g & sub & subs & outs & Hj & Hg & Hs & Ho)]; [by left|right].
    exists g, sub, subs, outs. split_and!; [done..|]. destruct (Hrounds _ _ _ Hg) as [_ [d Hd]]. cbn in Hd. subst outs.
    destruct (run_collective d subs) as [ts|e|]; cbn in Ho; [destruct (length ts =? world)%nat| |done].
    + rewrite list_lookup_fmap in Ho. destruct (ts !! r); [|done]. by injection Ho as <-.
    + by apply lookup_replicate in Ho as [[= ->] _].
    + by apply lookup_replicate in Ho as [[= ->] _].
  - intros g subs outs Hg. destruct (Hrounds _ _ _ Hg) as [Hlen [d Hd]]. cbn in Hlen, Hd. split; [done|]. split; [by exists d|].
    intros r r' e. rewrite Hd. apply error_for_all.
  - apply (inv_apart _ _ Hi).
  - intros d. by apply (native_progress s h).
Qed.
End generations.

(** ** The ring on devices that do what they promise *)
Section ring.
Context {DeviceId Tensor Prepared Work E V : Type} `{Countable DeviceId} (error_text : E -> string) (devices : list DeviceId).
Context (d : NativeCollectiveDevice DeviceId Tensor Prepared Work E).
Abbreviation w := (length devices).

(** What a tensor that was prepared, the working buffer of a rank and an output
    tensor hold; the sum of two elements, and the final scaling. *)
Context (value : Prepared -> list V) (contents : Work -> nat -> list V) (result_of : Tensor -> list V).
Context (add : V -> V -> V) (scale : ReduceOperation -> V -> V).

Definition merged (reduce : bool) (own incoming : list V) : list V := if reduce then zip_with add own incoming else incoming.

(** The documented behaviour of [NativeCollectiveDevice]: [begin] copies the
    inputs into the buffers, [exchange] transfers each rank's range to its
    successor and adds or overwrites there, all sends before all writes, and
    [finish] scales. *)
Class NativeLaws : Prop := {
  law_begin inputs n : length inputs = w -> (forall p, p ∈ inputs -> length (value p) = n) ->
    exists work, begin_work d devices inputs = Ok work /\ elements d work = n /\ forall r p, inputs !! r = Some p -> contents work r = value p;
  law_exchange work ranges reduce n : (forall r, (r < w)%nat -> length (contents work r) = n) -> length ranges = w ->
    (forall x, x ∈ ranges -> (x.1 <= x.2 <= n)%nat) ->
    exists work', exchange_ranges d work ranges reduce = Ok work' /\ forall r x, (r < w)%nat -> ranges !! predecessor w r = Some x ->
      contents work' r = put x.1 (merged reduce (sub x.1 (x.2 - x.1) (contents work r)) (sub x.1 (x.2 - x.1) (contents work (predecessor w r)))) (contents work r);
  law_finish work op : exists outs, finish d work op = Ok outs /\ length outs = w /\ forall r o, outs !! r = Some o -> result_of o = map (scale op) (contents work r);
}.

Context `{Hlaws : !NativeLaws}.

Lemma foldM_seq {S} (P : nat -> S -> Prop) (f : S -> nat -> outcome E S) m s : P 0%nat s ->
  (forall i s, (i < m)%nat -> P i s -> exists s', f s i = Ok s' /\ P (Datatypes.S i) s') -> exists s', foldM f s (seq 0 m) = Ok s' /\ P m s'.
Proof using Type.
  intros Hs. induction m as [|m IH]; intros Hf; [by exists s|]. destruct IH as (s1 & Hs1 & Hp); [intros i s' Hi; apply Hf; lia|].
  destruct (Hf m s1 ltac:(lia) Hp) as (s2 & Hs2 & Hp2). exists s2. split; [|done]. rewrite seq_S, foldM_app, Hs1. cbn. by rewrite Hs2.
Qed.

Section phases.
Context (n : nat) (Hw : (0 < w)%nat).
Abbreviation start := (part_start n w).
Abbreviation chunks := (map (fun k => (start k, start (S k))) (seq 0 w)).

(** What a rank receives at a step. *)
Definition receives (shift s r : nat) : nat := ((predecessor w r + shift + w - s) mod w)%nat.

Definition phase_state (shift : nat) (reduce : bool) (x : nat -> list V) (m : nat) (work : Work) : Prop :=
  forall r, (r < w)%nat -> length (contents work r) = n /\ forall c, (c < w)%nat ->
    part start c (contents work r) = ring_steps w (merged reduce) (receives shift) (fun r c => part start c (x r)) m r c.

Lemma native_receives_lt shift s r : (receives shift s r < w)%nat.
Proof using Hw. apply Nat.mod_upper_bound. lia. Qed.

Lemma length_merged reduce l l' : length l = length l' -> length (merged reduce l l') = length l.
Proof using Type. intros Hl. destruct reduce; [|done]. cbn. rewrite length_zip_with, Hl. apply Nat.min_id. Qed.

Lemma native_phase_step shift reduce x m work : phase_state shift reduce x m work -> exists work',
  (ranges ← mapM (fun rank => index chunks ((rank + shift + w - m) mod w)) (seq 0 w); exchange_ranges d work ranges reduce) = Ok work' /\
  phase_state shift reduce x (S m) work'.
Proof using All.
  intros Hp. set (sent := fun rank => ((rank + shift + w - m) mod w)%nat). assert (Hsent : forall r, (sent r < w)%nat) by (intros r; apply Nat.mod_upper_bound; lia).
  rewrite (mapM_pure _ (fun rank => (start (sent rank), start (S (sent rank))))).
  2:{ intros rank _. fold (sent rank). apply index_Ok. rewrite list_lookup_fmap, lookup_seq_lt by apply Hsent. done. }
  cbn [mbind outcome_bind].
  destruct (law_exchange work (map (fun rank => (start (sent rank), start (S (sent rank)))) (seq 0 w)) reduce n) as (work' & Hwork & Hc).
  { intros r Hr. by apply Hp. } { by rewrite length_map, length_seq. }
  { intros y (rank & -> & _)%list_elem_of_fmap. cbn. split; [apply part_start_mono; lia|]. by apply part_end_le. }
  exists work'. split; [done|]. intros r Hr. assert (Hpr : (predecessor w r < w)%nat) by (by apply predecessor_lt).
  specialize (Hc r (start (sent (predecessor w r)), start (S (sent (predecessor w r)))) Hr). rewrite Hc by (by rewrite list_lookup_fmap, lookup_seq_lt).
  clear Hc. cbn [fst snd]. change (sent (predecessor w r)) with (receives shift m r). fold (part_len start (receives shift m r)).
  pose proof (native_receives_lt shift m r) as Hrl. destruct (Hp r Hr) as [Hlr Hcr].
  assert (Hpart : forall r' k, (r' < w)%nat -> (k < w)%nat -> length (part start k (contents work r')) = part_len start k).
  { intros r' k Hr' Hk. apply (length_part _ w); [apply part_start_mono|done|]. rewrite part_start_all by done. destruct (Hp r' Hr') as [-> _]. done. }
  split.
  - rewrite length_put; [done|]. rewrite length_merged by (change (length (part start (receives shift m r) (contents work r)) = length (part start (receives shift m r) (contents work (predecessor w r)))); by rewrite !Hpart).
    change (start (receives shift m r) + length (part start (receives shift m r) (contents work r)) <= length (contents work r))%nat.
    rewrite Hpart, Hlr by done. apply (part_bound _ w); [apply part_start_mono|done|]. by rewrite part_start_all.
  - intros c Hcw. cbn [ring_steps].
    rewrite (ring_step_ext w Hw (merged reduce) (receives shift m) _ (fun r c => part start c (contents work r))); [|done|].
    + apply (part_ring_step start w (part_start_mono n w) (merged reduce) (receives shift m) (contents work)); [|apply length_merged|done|done|done].
      intros r' Hr'. rewrite part_start_all by done. destruct (Hp r' Hr') as [-> _]. done.
    + intros r' Hr'. symmetry. destruct (Hp r' Hr') as [_ Hx]. by apply Hx.
Qed.

Lemma native_phase_runs shift reduce work : (forall r, (r < w)%nat -> length (contents work r) = n) -> exists work',
  ring_phase d chunks w shift reduce work = Ok work' /\ phase_state shift reduce (contents work) (w - 1) work'.
Proof using All.
  intros Hl. unfold ring_phase. apply (foldM_seq (phase_state shift reduce (contents work))).
  - intros r Hr. split; [by apply Hl|done].
  - intros m work' _ Hp. by apply native_phase_step.
Qed.

Lemma receives_reduce s r : (s < w - 1)%nat -> (r < w)%nat -> receives 0 s r = ((r + w - s - 1) mod w)%nat.
Proof using Hw. intros Hs Hr. unfold receives. rewrite Nat.add_0_r. by apply send_gather. Qed.

Lemma follows_first : follows w 0 (receives 0).
Proof using Hw. intros s r c Hs Hr Hc. rewrite receives_reduce by done. by apply follows_gather. Qed.

Lemma follows_second : follows w (w - 1) (receives 1).
Proof using Hw.
  intros s r c Hs Hr Hc. unfold receives. rewrite age_eq by lia. rewrite predecessor_eq by done. cbv zeta.
  destruct (Nat.eqb_spec r 0); rewrite mod_twice by lia; repeat match goal with |- context [(?a <? ?b)%nat] => destruct (Nat.ltb_spec a b) end; lia.
Qed.

(** The rank before the one where a chunk starts has it last. *)
Lemma age_back c : (c < w)%nat -> age w 0 ((c + (w - 1)) mod w) c = (w - 1)%nat.
Proof using Hw.
  intros Hc. rewrite age_eq by (lia || (apply Nat.mod_upper_bound; lia)). cbv zeta. rewrite mod_once by lia.
  repeat match goal with |- context [(?a <? ?b)%nat] => destruct (Nat.ltb_spec a b) end; lia.
Qed.

Lemma gathered_ext (f : list V -> list V -> list V) (x y : nat -> nat -> list V) c a : (forall r, (r < w)%nat -> x r c = y r c) -> gathered w f 0 x c a = gathered w f 0 y c a.
Proof using Hw.
  intros Hxy. induction a as [|a IH]; cbn [gathered]; rewrite Hxy by (apply Nat.mod_upper_bound; lia); [done|]. by rewrite IH.
Qed.
End phases.

Lemma ring_all_reduce_ok inputs op n : (0 < w)%nat -> length inputs = w -> (forall p, p ∈ inputs -> length (value p) = n) ->
  exists outs result, ring_all_reduce d devices inputs op = Ok outs /\ length outs = w /\ length result = n /\
    reduces add (fun r => from_option value [] (inputs !! r)) w result /\ forall o, o ∈ outs -> result_of o = map (scale op) result.
Proof using All.
  intros Hw Hl Hn. unfold ring_all_reduce. destruct (law_begin inputs n Hl Hn) as (work & -> & Hel & Hc). cbn [mbind outcome_bind].
  rewrite balanced_ranges_Ok, Hel by done. cbn [mbind outcome_bind]. set (x := fun r => from_option value [] (inputs !! r)).
  assert (Hx : forall r, (r < w)%nat -> contents work r = x r /\ length (x r) = n).
  { intros r Hr. rewrite <- Hl in Hr. apply lookup_lt_is_Some in Hr as [p Hp]. unfold x. rewrite Hp. split; [by apply Hc|]. apply Hn. by eapply list_elem_of_lookup_2. }
  destruct (native_phase_runs n Hw 0 true work) as (w1 & -> & H1). { intros r Hr. destruct (Hx r Hr) as [-> ?]. done. } cbn [mbind outcome_bind].
  destruct (native_phase_runs n Hw 1 false w1) as (w2 & -> & H2). { intros r Hr. by apply H1. } cbn [mbind outcome_bind].
  destruct (law_finish w2 op) as (outs & -> & Hlo & Hout). exists outs, (reduced_parts (part_start n w) w 0 add x).
  destruct (parts_reduced (part_start n w) w 0 n add x) as [Hlr Hred]; [apply part_start_mono|done|by apply part_start_all|done|lia|by intros r Hr; apply Hx|].
  split; [done|]. split; [done|]. split; [done|]. split; [done|]. intros o [r Hr]%list_elem_of_lookup.
  rewrite (Hout r o Hr). f_equal. assert (Hrw : (r < w)%nat) by (rewrite <- Hlo; by eapply lookup_lt_Some). destruct (H2 r Hrw) as [Hlen Hparts].
  rewrite <- (concat_parts (part_start n w) w (part_start_mono n w) (contents w2 r) (part_start_0 n w)) by (by rewrite Hlen, part_start_all).
  unfold reduced_parts. f_equal. apply map_ext_in. intros c Hin%in_seq. assert (Hcw : (c < w)%nat) by lia. rewrite Hparts by done.
  rewrite (ring_copied w Hw (w - 1)) by (done || lia || by apply follows_second). set (r0 := ((c + (w - 1)) mod w)%nat).
  assert (Hr0 : (r0 < w)%nat) by (apply Nat.mod_upper_bound; lia). destruct (H1 r0 Hr0) as [_ Hp1]. rewrite Hp1 by done.
  rewrite (ring_reduced w Hw (merged true) 0 (receives 0)) by (done || lia || by apply follows_first || by apply age_back).
  apply gathered_ext; [done|]. intros r' Hr'. by destruct (Hx r' Hr') as [-> _].
Qed.

(** The elements of a submission. *)
Definition submitted_value (subs : list (Submission (Prepared:=Prepared))) (r : nat) : list V :=
  match subs !! r with Some (mkSubmission _ (Ok p)) => value p | _ => [] end.

(** C15: When the submissions of a round name one operation and are prepared
    tensors of one length, and the devices keep their promises, the ring ends and
    every rank is answered with the same elements: the sum of all ranks' elements,
    each in some order of the ranks, finally scaled for the operation. *)
Theorem native_ring_reduces subs op n : (0 < w)%nat -> length subs = w ->
  (forall sub, sub ∈ subs -> operation sub = op /\ exists p, prepared sub = Ok p /\ length (value p) = n) ->
  exists outs result, answers_of devices (run_collective error_text devices d subs) = map (fun o => Some (Ok o)) outs /\ length outs = w /\
    length result = n /\ reduces add (submitted_value subs) w result /\ forall o, o ∈ outs -> result_of o = map (scale op) result.
Proof using All.
  intros Hw Hl Hsubs.
  assert (Hin : exists inputs, mapM prepared subs = Ok inputs) by (apply mapM_total; intros sub Hsub; destruct (Hsubs sub Hsub) as (_ & p & Hp & _); eauto).
  destruct Hin as [inputs Hm]. apply mapM_Ok in Hm as Hf. assert (Hli : length inputs = w) by (rewrite <- Hl; symmetry; by eapply Forall2_length).
  destruct (ring_all_reduce_ok inputs op n Hw Hli) as (outs & result & Hrun & Hlo & Hlr & Hred & Hout).
  { intros p [i Hi]%list_elem_of_lookup. destruct (Forall2_lookup_r _ _ _ _ _ Hf Hi) as (sub & Hsub & Hp).
    destruct (Hsubs sub) as (_ & p' & Hp' & Hlen); [by eapply list_elem_of_lookup_2|]. rewrite Hp in Hp'. by injection Hp' as <-. }
  exists outs, result. assert (Hx : forall r, (r < w)%nat -> from_option value [] (inputs !! r) = submitted_value subs r).
  { intros r Hr. destruct (lookup_lt_is_Some_2 inputs r) as [p Hp]; [lia|]. destruct (Forall2_lookup_r _ _ _ _ _ Hf Hp) as ([o q] & Hsub & Hq).
    unfold submitted_value. rewrite Hp, Hsub. cbn in *. by rewrite Hq. }
  split.
  - unfold run_collective. destruct subs as [|first rest]; [cbn in Hl; lia|]. change (index (first :: rest) 0) with (Ok (E:=string) first). cbn [mbind outcome_bind].
    destruct (existsb _ _) eqn:Hex.
    + apply existsb_exists in Hex as (sub & Hsub%list_elem_of_In & Hne). destruct (Hsubs sub Hsub) as [H1 _], (Hsubs first ltac:(left)) as [H2 _]. by rewrite H1, H2, bool_decide_true in Hne.
    + cbn [fail_if mbind outcome_bind]. rewrite Hm. cbn [mbind outcome_bind]. destruct (Hsubs first ltac:(left)) as [H2 _]. rewrite H2, Hrun. cbn. by rewrite Hlo, Nat.eqb_refl.
  - split; [done|]. split; [done|]. split; [|done]. intros i Hi. destruct (Hred i Hi) as (order & Hperm & Hval). exists order. split; [done|]. rewrite Hval. f_equal.
    apply list_omap_ext, Forall2_same_length_lookup_2; [done|]. intros j r r' Hr Hr'. rewrite Hr in Hr'. injection Hr' as <-. rewrite Hx; [done|].
    apply list_elem_of_lookup_2 in Hr. rewrite Hperm in Hr. apply elem_of_seq in Hr. lia.
Qed.
End ring.

(** ** Two ranks with lists *)
Module NativeExample.

(** Buffers as functions of the rank, with their length and the world. *)
Record ListWork := mkListWork { work_length : nat; work_buffers : nat -> list Z }.

Definition list_device (world : nat) : NativeCollectiveDevice nat (list Z) (list Z) ListWork string :=
  mkNative (fun tensor _ => Ok tensor)
    (fun _ inputs => Ok (mkListWork (length (default [] (head inputs))) (fun r => default [] (inputs !! r))))
    work_length
    (fun work ranges reduce => Ok (mkListWork (work_length work) (fun r =>
       match ranges !! predecessor world r with
       | Some x => put x.1 (merged Z.add reduce (sub x.1 (x.2 - x.1) (work_buffers work r)) (sub x.1 (x.2 - x.1) (work_buffers work (predecessor world r)))) (work_buffers work r)
       | None => work_buffers work r
       end)))
    (fun work op => Ok (map (fun r => match op with Sum => work_buffers work r | Mean => map (fun v => v / Z.of_nat world) (work_buffers work r) end) (seq 0 world))).

Definition scaled (world : nat) (op : ReduceOperation) (v : Z) : Z := match op with Sum => v | Mean => v / Z.of_nat world end.

Lemma list_device_laws devices : devices <> [] ->
  NativeLaws devices (list_device (length devices)) (fun p => p) work_buffers (fun o => o) Z.add (scaled (length devices)).
Proof.
  intros Hne. split.
  - intros inputs n Hl Hn. eexists. split; [reflexivity|]. cbn. split; [|by intros r p ->].
    destruct inputs as [|p inputs]; [by destruct devices|]. apply Hn. by left.
  - intros work ranges reduce n _ _ _. eexists. split; [reflexivity|]. intros r x _ Hx. cbn. by rewrite Hx.
  - intros work op. eexists. split; [reflexivity|]. rewrite length_map, length_seq. split; [done|]. intros r o Ho.
    rewrite list_lookup_fmap in Ho. destruct (seq 0 (length devices) !! r) as [r'|] eqn:Hr; [|done]. apply lookup_seq in Hr as [-> _]. injection Ho as <-.
    destruct op; [symmetry; apply map_id|done].
Qed.

Definition two_devices : list nat := [7; 9]%nat.
Definition text (e : string) : string := e.
Abbreviation step := (recorded_native_step (Work:=ListWork) text two_devices).

(** Two rounds of two ranks; the first call of rank 0 comes before that of rank 1,
    its second before the first round is over. *)
Definition two_rounds : list (NativeEvent nat (list Z) (list Z) ListWork string) :=
  let advance t := AdvanceNative t (list_device 2) in
  [CallAllReduce 0 0 [1; 2; 3] Sum; advance 0%nat; advance 0%nat; CallAllReduce 1 1 [10; 20; 30] Sum; advance 1%nat;
   CallAllReduce 2 0 [4; 5; 6] Mean; advance 2%nat; advance 1%nat; advance 0%nat; advance 2%nat;
   CallAllReduce 3 1 [8; 7; 6] Mean; advance 3%nat; advance 3%nat; advance 2%nat; CallAllReduce 4 5 [] Sum].

Definition started : NativeCommunicator (list Z) (list Z) := mkCommunicator [None; None] [None; None] 0 0 false false ∅.

Lemma started_ok : communicator_new two_devices = Ok started.
Proof. vm_compute. reflexivity. Qed.

Lemma two_rounds_end : exists s h, replay step two_rounds (started, rounds_new) = Some (s, h) /\
  native_calls s !! 0%nat = Some (0%nat, Returned (Ok [11; 22; 33])) /\ native_calls s !! 3%nat = Some (1%nat, Returned (Ok [6; 6; 6])).
Proof. eexists _, _. split; [vm_compute; reflexivity|]. split; vm_compute; reflexivity. Qed.
End NativeExample.

Import NativeExample.

Lemma native_generations_witness : exists s h g sub subs outs, replay step two_rounds (started, rounds_new) = Some (s, h) /\
  joined h !! 3%nat = Some (g, sub) /\ rounds h !! g = Some (subs, outs) /\ outs !! 1%nat = Some (Some (Ok [6; 6; 6])).
Proof.
  destruct two_rounds_end as (s & h & Hrun & _ & Ht). exists s, h.
  destruct (native_generations text two_devices two_rounds started s h started_ok (replay_runs _ _ _ _ Hrun)) as (_ & Hret & _).
  destruct (Hret 3%nat 1%nat (Ok [6; 6; 6]) Ht) as [[Hle _]|(g & sub & subs & outs & Hj & Hg & _ & Ho & _)]; [exfalso; cbn in Hle; lia|].
  exists g, sub, subs, outs. split; [exact Hrun|]. split; [exact Hj|]. split; [exact Hg|exact Ho].
Defined.

Lemma native_ring_reduces_witness : exists outs result, answers_of two_devices (run_collective text two_devices (list_device 2) [mkSubmission Mean (Ok [1; 2; 3]); mkSubmission Mean (Ok [10; 20; 30])]) =
    map (fun o => Some (Ok o)) outs /\ length result = 3%nat /\ forall o, o ∈ outs -> o = map (scaled 2 Mean) result.
Proof.
  destruct (native_ring_reduces text two_devices (list_device 2) (fun p => p) work_buffers (fun o => o) Z.add (scaled 2)
    (Hlaws := list_device_laws two_devices ltac:(done)) [mkSubmission Mean (Ok [1; 2; 3]); mkSubmission Mean (Ok [10; 20; 30])] Mean 3)
    as (outs & result & Ha & _ & Hl & _ & Ho); [cbn; lia|reflexivity| |].
  - intros sub Hsub. apply elem_of_cons in Hsub as [->|Hsub]; [|apply list_elem_of_singleton in Hsub as ->]; (split; [reflexivity|eexists; split; reflexivity]).
  - exists outs, result. split; [exact Ha|]. split; [exact Hl|exact Ho].
Defined.
