(* ===== verification/WorkQueue.v ===== *)
(** * Work queues: src/src/rank/work.rs

    Tasks that callers submit to the worker of an [OrderedWorkQueue], tasks with
    a thread of their own ([CollectiveWork::spawn]), and the handles on their
    completions.  What a task does is its caller's code: a task ends with any
    result or with a panic.  A step is what one thread does between two points
    where another may go on.  All tasks of a queue have the result types [T] and
    [E] here.

    A wait on the condition variable of a completion, with the notify_all that
    ends it, is one step that is enabled once the result is there: the source
    looks at the result under the lock that the worker holds while it stores it
    and notifies, so no notification falls between the look and the wait.
    Nothing panics under that lock in the source: the branches for a poisoned
    lock are those of the code, but no step sets [lock_poisoned]. *)
From S2P Require Import Prelude Processes RankDevice.

Section work.
Context {T E : Type} (from_work : WorkError -> E).
Abbreviation result := (outcome E T).

(** The two fields of [WorkCompletion]; the lock of the first may be poisoned. *)
Record WorkCompletion := mkCompletion { completed : option result; lock_poisoned : bool }.

Definition completion_new : WorkCompletion := mkCompletion None false.

(** [catch_unwind(task).map_err(..).and_then(|result| result)] *)
Definition catch_unwind (task : result) : result :=
  match task with Panic => Err (from_work WorkerPanic) | r => r end.

(** What a worker does with the result of its task. *)
Definition complete (c : WorkCompletion) (task : result) : WorkCompletion :=
  if lock_poisoned c then c else mkCompletion (Some (catch_unwind task)) false.

Definition is_complete (c : WorkCompletion) : bool := lock_poisoned c || bool_decide (is_Some (completed c)).

(** [None] while the call still waits. *)
Definition wait_for_completion (c : WorkCompletion) (expired : bool) : option (outcome E bool) :=
  if lock_poisoned c then Some (Err (from_work Poisoned))
  else match completed c with
       | Some _ => Some (Ok true)
       | None => if expired then Some (Ok false) else None
       end.

(** [state.take()] at the end of the loop of [wait]; [None] while it waits. *)
Definition take_result (c : WorkCompletion) : option (result * WorkCompletion) :=
  if lock_poisoned c then Some (Err (from_work Poisoned), c)
  else match completed c with
       | Some r => Some (r, mkCompletion None false)
       | None => None
       end.

(** The worker of a queue, which owns the receiver of its channel. *)
Inductive Worker := Receiving | Working (id : nat) | Ended.

(** A handle, the two stages of a call of [wait], and what it returned. *)
Inductive Handle := Held | Waiting | Joining (r : result) | Returned (r : result).

(** The works have numbers in the order in which they start. [spawned] tells of
    each thread of [spawn] whether its closure still runs. *)
Record Works := mkWorks {
  senders : nat;
  tasks : list nat;
  worker : Worker;
  completions : gmap nat WorkCompletion;
  spawned : gmap nat bool;
  handles : gmap nat Handle;
  next_work : nat;
}.

Definition set_queue (s : Works) (n : nat) (l : list nat) (w : Worker) : Works :=
  mkWorks n l w (completions s) (spawned s) (handles s) (next_work s).
Definition set_completion (s : Works) (id : nat) (c : WorkCompletion) : Works :=
  mkWorks (senders s) (tasks s) (worker s) (<[id := c]> (completions s)) (spawned s) (handles s) (next_work s).
Definition set_spawned (s : Works) (id : nat) (b : bool) : Works :=
  mkWorks (senders s) (tasks s) (worker s) (completions s) (<[id := b]> (spawned s)) (handles s) (next_work s).
Definition set_handle (s : Works) (id : nat) (h : Handle) : Works :=
  mkWorks (senders s) (tasks s) (worker s) (completions s) (spawned s) (<[id := h]> (handles s)) (next_work s).

(** [OrderedWorkQueue::new], whose thread may not start. *)
Definition queue_new (start : option string) : outcome WorkError Works :=
  match start with
  | Some error => Err (WorkerStart error)
  | None => Ok (mkWorks 1 [] Receiving ∅ ∅ ∅ 0)
  end.

(** A completion and the handle on it. *)
Definition new_work (s : Works) : Works :=
  mkWorks (senders s) (tasks s) (worker s) (<[next_work s := completion_new]> (completions s)) (spawned s)
    (<[next_work s := Held]> (handles s)) (S (next_work s)).

(** [OrderedWorkQueue::submit]: sending fails when the receiver is gone. *)
Definition submit (s : Works) : Works * outcome E nat :=
  match worker s with
  | Ended => (s, Err (from_work WorkerQueueClosed))
  | w => (set_queue (new_work s) (senders s) (tasks s ++ [next_work s]) w, Ok (next_work s))
  end.

(** [CollectiveWork::spawn] *)
Definition spawn (s : Works) (start : option string) : Works * outcome E nat :=
  match start with
  | Some error => (s, Err (from_work (WorkerStart error)))
  | None => (set_spawned (new_work s) (next_work s) true, Ok (next_work s))
  end.

(** A worker stores the result of its task if the completion is there. *)
Definition store (s : Works) (id : nat) (task : result) : Works :=
  match completions s !! id with Some c => set_completion s id (complete c task) | None => s end.

(** [worker.join()] follows the take when the handle has a thread. *)
Definition after_take (s : Works) (id : nat) (r : result) : Handle :=
  match spawned s !! id with Some _ => Joining r | None => Returned r end.

Definition wait_step (s : Works) (id : nat) : option Works :=
  match completions s !! id with
  | Some c =>
      match take_result c with
      | Some (r, c') =>
          if lock_poisoned c then Some (set_handle s id (Returned r))
          else Some (set_handle (set_completion s id c') id (after_take s id r))
      | None => None
      end
  | None => None
  end.

Inductive WorkEvent :=
  | Submit
  | Spawn (start : option string)
  | CloneQueue
  | DropQueue
  | Receive
  | Finish (task : result)
  | FinishSpawned (id : nat) (task : result)
  | Wait (id : nat)
  | AdvanceWait (id : nat)
  | DropHandle (id : nat).

(** A handle of the queue is needed to submit, to clone and to drop it. *)
Definition work_step (e : WorkEvent) (s : Works) : option Works :=
  match e with
  | Submit => if (senders s =? 0)%nat then None else Some (submit s).1
  | Spawn start => Some (spawn s start).1
  | CloneQueue => if (senders s =? 0)%nat then None else Some (set_queue s (S (senders s)) (tasks s) (worker s))
  | DropQueue => if (senders s =? 0)%nat then None else Some (set_queue s (senders s - 1) (tasks s) (worker s))
  | Receive =>
      match worker s, tasks s with
      | Receiving, id :: rest => Some (set_queue s (senders s) rest (Working id))
      | Receiving, [] => if (senders s =? 0)%nat then Some (set_queue s 0 [] Ended) else None
      | _, _ => None
      end
  | Finish task =>
      match worker s with
      | Working id => Some (set_queue (store s id task) (senders s) (tasks s) Receiving)
      | _ => None
      end
  | FinishSpawned id task =>
      match spawned s !! id with
      | Some true => Some (set_spawned (store s id task) id false)
      | _ => None
      end
  | Wait id => match handles s !! id with Some Held => Some (set_handle s id Waiting) | _ => None end
  | AdvanceWait id =>
      match handles s !! id with
      | Some Waiting => wait_step s id
      | Some (Joining r) => match spawned s !! id with Some true => None | _ => Some (set_handle s id (Returned r)) end
      | _ => None
      end
  | DropHandle id =>
      match handles s !! id with
      | Some Held => Some (mkWorks (senders s) (tasks s) (worker s) (completions s) (spawned s) (delete id (handles s)) (next_work s))
      | _ => None
      end
  end.

(** *** What happened to the works, for the theorems *)
Record History := mkHistory {
  submitted_works : list nat;
  started_works : list nat;
  finished_works : list (nat * result);
  finished_spawned : list (nat * result);
}.

Definition history_new : History := mkHistory [] [] [] [].

Definition record (e : WorkEvent) (s : Works) (h : History) : History :=
  match e, worker s with
  | Submit, Receiving | Submit, Working _ =>
      mkHistory (submitted_works h ++ [next_work s]) (started_works h) (finished_works h) (finished_spawned h)
  | Receive, Receiving =>
      mkHistory (submitted_works h) (started_works h ++ take 1 (tasks s)) (finished_works h) (finished_spawned h)
  | Finish task, Working id =>
      mkHistory (submitted_works h) (started_works h) (finished_works h ++ [(id, catch_unwind task)]) (finished_spawned h)
  | FinishSpawned id task, _ =>
      mkHistory (submitted_works h) (started_works h) (finished_works h) (finished_spawned h ++ [(id, catch_unwind task)])
  | _, _ => h
  end.

Definition recorded_step (e : WorkEvent) (s : Works * History) : option (Works * History) :=
  s' ← work_step e s.1; Some (s', record e s.1 s.2).
End work.

(** ** Works run once, in order, and deliver their own results *)

Section invariant.
Context {T E : Type} (from_work : WorkError -> E).
Abbreviation result := (outcome E T).
Abbreviation Works := (@Works T E).
Abbreviation History := (@History T E).
Abbreviation step := (recorded_step (T:=T) from_work).

(** Work [id] ended, and [r] is what its handle gives. *)
Definition outcome_of (h : History) (id : nat) (r : result) : Prop :=
  (id, r) ∈ finished_works h \/ (id, r) ∈ finished_spawned h.

Definition running (s : Works) : list nat := match worker s with Working id => [id] | _ => [] end.

Definition delivered_to (x : option (@Handle T E)) (r : result) : Prop :=
  match x with Some (Joining r') | Some (Returned r') => r' = r | _ => False end.

Definition undelivered (x : option (@Handle T E)) : Prop :=
  match x with Some Held | Some Waiting => True | _ => False end.

Record works_inv (s : Works) (h : History) : Prop := {
  inv_queue : submitted_works h = started_works h ++ tasks s;
  inv_started : started_works h = (finished_works h).*1 ++ running s;
  inv_submitted : NoDup (submitted_works h) /\ forall id, id ∈ submitted_works h -> (id < next_work s)%nat /\ spawned s !! id = None /\ is_Some (completions s !! id);
  inv_known id : (is_Some (completions s !! id) -> (id < next_work s)%nat) /\ (is_Some (spawned s !! id) -> is_Some (completions s !! id)) /\
    (is_Some (handles s !! id) -> is_Some (completions s !! id));
  inv_threads : NoDup (finished_spawned h).*1 /\ forall id r, (id, r) ∈ finished_spawned h -> spawned s !! id = Some false;
  inv_completion id c : completions s !! id = Some c -> lock_poisoned c = false /\
    (forall r, completed c = Some r -> outcome_of h id r) /\
    (forall r, outcome_of h id r -> undelivered (handles s !! id) -> completed c = Some r);
  inv_handle id r : delivered_to (handles s !! id) r -> outcome_of h id r;
  inv_ended : worker s = Ended -> senders s = 0%nat /\ tasks s = [];
}.

Lemma works_start : works_inv (mkWorks 1 [] Receiving ∅ ∅ ∅ 0) (history_new (T:=T) (E:=E)).
Proof using Type.
  split; cbn; try done.
  - split; [constructor|]. by intros id ?%elem_of_nil.
  - intros id. split; [|split]; intros [? ?]; simplify_map_eq.
  - split; [constructor|]. by intros id r ?%elem_of_nil.
Qed.

(** A work has one outcome. *)
Lemma outcome_unique s h id r r' : works_inv s h -> outcome_of h id r -> outcome_of h id r' -> r = r'.
Proof using Type.
  intros Hinv. pose proof (inv_threads _ _ Hinv) as [Hnd Hsp]. pose proof (inv_submitted _ _ Hinv) as [Hsub Hknown].
  rewrite (inv_queue _ _ Hinv), (inv_started _ _ Hinv), <- app_assoc in Hsub. apply NoDup_app in Hsub as [Hfin _].
  assert (Hfun : forall (l : list (nat * result)), NoDup l.*1 -> (id, r) ∈ l -> (id, r') ∈ l -> r = r').
  { intros l Hl. induction l as [|[i x] l IH]; [by intros ?%elem_of_nil|]. cbn in Hl. apply NoDup_cons in Hl as [Hi Hl].
    assert (Hin : forall y, (i, y) ∈ l -> False) by (intros y Hy; apply Hi, list_elem_of_fmap; by exists (i, y)).
    intros [H1|H1]%elem_of_cons [H2|H2]%elem_of_cons; simplify_eq; try done; [by apply Hin in H2|by apply Hin in H1|by apply IH]. }
  assert (Hdisj : forall x y, (id, x) ∈ finished_works h -> (id, y) ∈ finished_spawned h -> False).
  { intros x y Hx Hy. destruct (Hknown id) as (_ & Hn & _); [|by rewrite (Hsp _ _ Hy) in Hn].
    rewrite (inv_queue _ _ Hinv), (inv_started _ _ Hinv). do 2 (apply elem_of_app; left). apply list_elem_of_fmap. by exists (id, x). }
  intros [H1|H1] [H2|H2]; [by apply (Hfun (finished_works h))|exfalso; by eapply Hdisj|exfalso; by eapply Hdisj|by apply (Hfun (finished_spawned h))].
Qed.

Lemma not_poisoned s h id c : works_inv s h -> completions s !! id = Some c -> lock_poisoned c = false.
Proof using Type. intros Hinv Hc. by apply (inv_completion _ _ Hinv) in Hc as []. Qed.

(** A running work has no outcome yet. *)
Lemma working_fresh s h id : works_inv s h -> worker s = Working id ->
  id ∈ submitted_works h /\ forall r, ~ outcome_of h id r.
Proof using Type.
  intros Hinv Hw. pose proof (inv_submitted _ _ Hinv) as [Hsub Hknown].
  assert (Hid : id ∈ submitted_works h).
  { rewrite (inv_queue _ _ Hinv), (inv_started _ _ Hinv). unfold running. rewrite Hw, !elem_of_app. left. right. by left. }
  split; [done|]. intros r [Hr|Hr].
  - rewrite (inv_queue _ _ Hinv), (inv_started _ _ Hinv), <- app_assoc in Hsub. apply NoDup_app in Hsub as (_ & Hd & _).
    apply (Hd id); [apply list_elem_of_fmap; by exists (id, r)|]. unfold running. rewrite Hw. by left.
  - destruct (Hknown id Hid) as (_ & Hn & _). by rewrite (proj2 (inv_threads _ _ Hinv) _ _ Hr) in Hn.
Qed.

Lemma spawned_fresh s h id : works_inv s h -> spawned s !! id = Some true -> forall r, ~ outcome_of h id r.
Proof using Type.
  intros Hinv Hs r [Hr|Hr]; [|by rewrite (proj2 (inv_threads _ _ Hinv) _ _ Hr) in Hs].
  destruct (proj2 (inv_submitted _ _ Hinv) id) as (_ & Hn & _); [|by rewrite Hn in Hs].
  rewrite (inv_queue _ _ Hinv), (inv_started _ _ Hinv). do 2 (apply elem_of_app; left). apply list_elem_of_fmap. by exists (id, r).
Qed.

(** *** The invariant is kept *)

(** A change of the queue only. *)
Lemma queue_inv s h n l w h' : works_inv s h ->
  submitted_works h' = started_works h' ++ l -> started_works h' = ((finished_works h').*1 ++ match w with Working id => [id] | _ => [] end) ->
  submitted_works h' = submitted_works h -> finished_works h' = finished_works h -> finished_spawned h' = finished_spawned h ->
  (w = Ended -> n = 0%nat /\ l = []) -> works_inv (set_queue s n l w) h'.
Proof using Type.
  intros [H1 H2 H3 H4 H5 H6 H7 H8] Hq Hs Hsub Hf Hfs He.
  assert (Ho : forall id r, outcome_of h' id r <-> outcome_of h id r) by (intros; unfold outcome_of; by rewrite Hf, Hfs).
  split; cbn; try done.
  - by rewrite Hsub.
  - by rewrite Hfs.
  - intros id c Hc. destruct (H6 id c Hc) as (? & Ha & Hb). split; [done|]. split; intros r Hr; [|intros]; [apply Ho|apply Hb; [apply Ho|]]; auto.
  - intros id r Hr. apply Ho. by apply H7.
Qed.

(** A new completion and its handle. *)
Lemma new_work_fresh s h : works_inv s h -> completions s !! next_work s = None /\ spawned s !! next_work s = None /\
  handles s !! next_work s = None /\ (next_work s ∉ submitted_works h) /\ forall r, ~ outcome_of h (next_work s) r.
Proof using Type.
  intros Hinv. destruct (inv_known _ _ Hinv (next_work s)) as (Hc & Hsp & Hh).
  assert (Hnone : completions s !! next_work s = None).
  { destruct (completions s !! next_work s); [|done]. specialize (Hc ltac:(by eexists)). lia. }
  rewrite Hnone in *.
  assert (Hs : spawned s !! next_work s = None).
  { destruct (spawned s !! next_work s); [|done]. by destruct (Hsp ltac:(by eexists)). }
  split; [done|]. split; [done|]. split.
  { destruct (handles s !! next_work s); [|done]. by destruct (Hh ltac:(by eexists)). }
  assert (Hn : next_work s ∉ submitted_works h).
  { intros Hin. destruct (proj2 (inv_submitted _ _ Hinv) _ Hin) as (? & _). lia. }
  split; [done|]. intros r [Hr|Hr].
  - apply Hn. rewrite (inv_queue _ _ Hinv), (inv_started _ _ Hinv). do 2 (apply elem_of_app; left). apply list_elem_of_fmap. by exists (next_work s, r).
  - by rewrite (proj2 (inv_threads _ _ Hinv) _ _ Hr) in Hs.
Qed.

Lemma new_work_inv s h : works_inv s h -> works_inv (new_work s) h.
Proof using Type.
  intros Hinv. destruct (new_work_fresh s h Hinv) as (Hc & Hs & Hh & Hn & Ho). destruct Hinv as [H1 H2 H3 H4 H5 H6 H7 H8].
  split; cbn; try done.
  - split; [apply H3|]. intros id Hid. destruct (proj2 H3 id Hid) as (Hlt & Hsp & Hcomp). split; [lia|]. split; [done|].
    rewrite lookup_insert_ne by (intros <-; lia). done.
  - intros id. destruct (H4 id) as (Ha & Hb & Hd). destruct (decide (id = next_work s)) as [->|Hne].
    + rewrite !lookup_insert_eq, Hs. split; [lia|]. split; by eexists.
    + rewrite !lookup_insert_ne by done. split; [|done]. intros Hx. specialize (Ha Hx). lia.
  - intros id c. destruct (decide (id = next_work s)) as [->|Hne].
    + rewrite lookup_insert_eq. intros [= <-]. split; [done|]. split; [done|]. intros r Hr. by destruct (Ho r).
    + rewrite !lookup_insert_ne by done. apply H6.
  - intros id r. destruct (decide (id = next_work s)) as [->|Hne]; [by rewrite lookup_insert_eq|].
    rewrite lookup_insert_ne by done. apply H7.
Qed.

(** A running work stores its result. *)
Lemma store_eq s h id task : works_inv s h -> is_Some (completions s !! id) ->
  store from_work s id task = set_completion s id (mkCompletion (Some (catch_unwind from_work task)) false).
Proof using Type.
  intros Hinv [c Hc]. unfold store, complete. by rewrite Hc, (not_poisoned s h id c).
Qed.

Lemma store_parts s h h' id task : works_inv s h -> is_Some (completions s !! id) -> (forall r, ~ outcome_of h id r) ->
  (forall i r, outcome_of h' i r <-> outcome_of h i r \/ i = id /\ r = catch_unwind from_work task) ->
  let s' := store from_work s id task in
  (forall i c, completions s' !! i = Some c -> lock_poisoned c = false /\ (forall r, completed c = Some r -> outcome_of h' i r) /\
    (forall r, outcome_of h' i r -> undelivered (handles s !! i) -> completed c = Some r)) /\
  (forall i r, delivered_to (handles s !! i) r -> outcome_of h' i r) /\
  (forall i, is_Some (completions s' !! i) <-> is_Some (completions s !! i)).
Proof using Type.
  intros Hinv Hc Hno Ho s'. unfold s'. rewrite (store_eq s h id task Hinv Hc). cbn. split; [|split].
  - intros i c. destruct (decide (i = id)) as [->|Hne].
    + rewrite lookup_insert_eq. intros [= <-]. split; [done|]. split; cbn; intros r; [intros [= <-]; apply Ho; by right|].
      intros [Hr|[_ ->]]%Ho _; [by destruct (Hno r)|done].
    + rewrite lookup_insert_ne by done. intros Hi. destruct (inv_completion _ _ Hinv i c Hi) as (? & Ha & Hb).
      split; [done|]. split; [intros r Hr; apply Ho; left; by apply Ha|].
      intros r [Hr|[-> _]]%Ho Hu; [by apply Hb|done].
  - intros i r Hr. apply Ho. left. by apply (inv_handle _ _ Hinv).
  - intros i. destruct (decide (i = id)) as [->|Hne]; [|by rewrite lookup_insert_ne].
    rewrite lookup_insert_eq. split; [done|by eexists].
Qed.

Lemma finish_inv s h task s' : works_inv s h -> work_step from_work (Finish task) s = Some s' -> works_inv s' (record from_work (Finish task) s h).
Proof using Type.
  intros Hinv Hs. cbn in Hs. destruct (worker s) as [|id|] eqn:Hw; try done. injection Hs as <-.
  destruct (working_fresh s h id Hinv Hw) as [Hid Hno]. pose proof (inv_submitted _ _ Hinv) as [Hnd Hsub].
  destruct (Hsub id Hid) as (_ & _ & Hc). set (h' := record from_work (Finish task) s h).
  assert (Hh' : h' = mkHistory (submitted_works h) (started_works h) (finished_works h ++ [(id, catch_unwind from_work task)]) (finished_spawned h)).
  { unfold h', record. by rewrite Hw. }
  destruct (store_parts s h h' id task Hinv Hc Hno) as (H6 & H7 & Hdom).
  { intros i r. rewrite Hh'. unfold outcome_of. cbn. rewrite elem_of_app, list_elem_of_singleton. naive_solver. }
  rewrite (store_eq s h id task Hinv Hc) in *. pose proof Hinv as [H1 H2 _ H4 H5 _ _ H8].
  split; rewrite ?Hh'; cbn; try done.
  - rewrite H2, fmap_app. unfold running. rewrite Hw. cbn. by rewrite app_nil_r.
  - split; [done|]. intros i Hi. destruct (Hsub i Hi) as (? & ? & ?). repeat split; try done. by apply (Hdom i).
  - intros i. destruct (H4 i) as (Ha & Hb & Hd). split; [intros ?%(Hdom i); by apply Ha|]. split; intros ?; apply (Hdom i); auto.
  - intros i c Hi. destruct (H6 i c Hi) as (? & ? & ?). by rewrite Hh' in *.
  - intros i r Hr. specialize (H7 i r Hr). by rewrite Hh' in H7.
Qed.

Lemma finish_spawned_inv s h id task s' : works_inv s h -> work_step from_work (FinishSpawned id task) s = Some s' ->
  works_inv s' (record from_work (FinishSpawned id task) s h).
Proof using Type.
  intros Hinv Hs. cbn in Hs. destruct (spawned s !! id) as [[|]|] eqn:Hsp; try done. injection Hs as <-.
  pose proof (spawned_fresh s h id Hinv Hsp) as Hno. pose proof Hinv as [H1 H2 [Hnd Hsub] H4 [Hnd5 H5] _ _ H8].
  assert (Hc : is_Some (completions s !! id)) by (destruct (H4 id) as (_ & Hb & _); apply Hb; by rewrite Hsp).
  set (h' := record from_work (FinishSpawned id task) s h).
  assert (Hh' : h' = mkHistory (submitted_works h) (started_works h) (finished_works h) (finished_spawned h ++ [(id, catch_unwind from_work task)])) by done.
  destruct (store_parts s h h' id task Hinv Hc Hno) as (H6 & H7 & Hdom).
  { intros i r. rewrite Hh'. unfold outcome_of. cbn. rewrite elem_of_app, list_elem_of_singleton. naive_solver. }
  rewrite (store_eq s h id task Hinv Hc) in *. clearbody h'. subst h'.
  split; cbn; try done.
  - split; [done|]. intros i Hi. destruct (Hsub i Hi) as (? & ? & ?). repeat split; [done| |by apply (Hdom i)].
    rewrite lookup_insert_ne; [done|]. intros <-. congruence.
  - intros i. destruct (H4 i) as (Ha & Hb & Hd). split; [intros ?%(Hdom i); by apply Ha|]. split; [|intros ?; apply (Hdom i); auto].
    intros Hi. apply (Hdom i), Hb. destruct (decide (i = id)) as [->|Hne]; [by rewrite Hsp|by rewrite lookup_insert_ne in Hi].
  - rewrite fmap_app. split.
    + apply NoDup_app. split; [done|]. split; [|cbn; apply NoDup_singleton]. cbn.
      intros i ([i' r] & -> & Hi)%list_elem_of_fmap Hid%list_elem_of_singleton. cbn in Hid. subst i'. apply (Hno r). by right.
    + intros i r [Hi|[= -> ->]%list_elem_of_singleton]%elem_of_app; [|apply lookup_insert_eq].
      rewrite lookup_insert_ne; [by eapply H5|]. intros <-. apply (Hno r). by right.
Qed.

(** A handle changes, and what it gives is the outcome of its work. *)
Lemma handle_inv s h id x : works_inv s h -> is_Some (handles s !! id) ->
  (forall r, delivered_to (Some x) r -> outcome_of h id r) -> (undelivered (Some x) -> undelivered (handles s !! id)) ->
  works_inv (set_handle s id x) h.
Proof using Type.
  intros [H1 H2 H3 H4 H5 H6 H7 H8] Hh Hd Hu. split; cbn; try done.
  - intros i. destruct (H4 i) as (Ha & Hb & Hc). split; [done|]. split; [done|].
    destruct (decide (i = id)) as [->|Hne]; [intros _; by apply Hc|by rewrite lookup_insert_ne].
  - intros i c Hi. destruct (H6 i c Hi) as (? & Ha & Hb). split; [done|]. split; [done|]. intros r Hr.
    destruct (decide (i = id)) as [->|Hne]; [rewrite lookup_insert_eq; auto|rewrite lookup_insert_ne by done; auto].
  - intros i r. destruct (decide (i = id)) as [->|Hne]; [rewrite lookup_insert_eq; auto|rewrite lookup_insert_ne by done; auto].
Qed.

Lemma drop_inv s h id : works_inv s h ->
  works_inv (mkWorks (senders s) (tasks s) (worker s) (completions s) (spawned s) (delete id (handles s)) (next_work s)) h.
Proof using Type.
  intros [H1 H2 H3 H4 H5 H6 H7 H8]. split; cbn; try done.
  - intros i. destruct (H4 i) as (Ha & Hb & Hc). split; [done|]. split; [done|]. intros [x [_ Hx]%lookup_delete_Some]. apply Hc. by eexists.
  - intros i c Hi. destruct (H6 i c Hi) as (? & Ha & Hb). split; [done|]. split; [done|]. intros r Hr.
    destruct (decide (i = id)) as [->|Hne]; [by rewrite lookup_delete_eq|rewrite lookup_delete_ne by done; auto].
  - intros i r. destruct (decide (i = id)) as [->|Hne]; [by rewrite lookup_delete_eq|rewrite lookup_delete_ne by done; auto].
Qed.

(** [wait] takes the result. *)
Lemma taken_inv s h id r x : works_inv s h -> completions s !! id = Some (mkCompletion (Some r) false) -> handles s !! id = Some Waiting ->
  x = Joining r \/ x = Returned r -> works_inv (set_handle (set_completion s id (mkCompletion None false)) id x) h.
Proof using Type.
  intros Hinv Hc Hh Hx. pose proof (inv_completion _ _ Hinv id _ Hc) as (_ & Hr & _). specialize (Hr r eq_refl).
  assert (Hdom : forall i, is_Some (<[id := mkCompletion (E:=E) (T:=T) None false]> (completions s) !! i) <-> is_Some (completions s !! i)).
  { intros i. destruct (decide (i = id)) as [->|Hne]; [rewrite lookup_insert_eq, Hc; split; by eexists|by rewrite lookup_insert_ne]. }
  destruct Hinv as [H1 H2 [Hnd H3] H4 H5 H6 H7 H8]. split; cbn; try done.
  - split; [done|]. intros i Hi. destruct (H3 i Hi) as (? & ? & ?). by rewrite Hdom.
  - intros i. rewrite Hdom. destruct (H4 i) as (Ha & Hb & Hd). split; [done|]. split; [done|].
    destruct (decide (i = id)) as [->|Hne]; [intros _; rewrite Hc; by eexists|by rewrite lookup_insert_ne].
  - intros i c. destruct (decide (i = id)) as [->|Hne].
    + rewrite !lookup_insert_eq. intros [= <-]. split; [done|]. split; [done|]. intros r' _ Hu. by destruct Hx as [-> | ->].
    + rewrite !lookup_insert_ne by done. apply H6.
  - intros i r'. destruct (decide (i = id)) as [->|Hne]; [|rewrite lookup_insert_ne by done; apply H7].
    rewrite lookup_insert_eq. by destruct Hx as [-> | ->]; intros <-.
Qed.

Lemma work_step_inv e s h s' : works_inv s h -> work_step from_work e s = Some s' -> works_inv s' (record from_work e s h).
Proof using Type.
  intros Hinv Hs. pose proof Hinv as [H1 H2 H3 H4 _ _ _ H8]. destruct e as [|start| | | |task|id task|id|id|id].
  - cbn in Hs. destruct (senders s =? 0)%nat eqn:Hn; [done|]. apply Nat.eqb_neq in Hn. injection Hs as <-.
    destruct (new_work_fresh s h Hinv) as (Hc & Hsp & _ & Hn' & _).
    unfold submit, record. destruct (worker s) as [|id|] eqn:Hw; [| |done]; cbn [fst].
    all: pose proof (new_work_inv s h Hinv) as [G1 G2 [G3 G3'] G4 G5 G6 G7 G8]; split; cbn in *; try done;
      [by rewrite G1, <- app_assoc|rewrite G2; unfold running; cbn; by rewrite Hw| ];
      (split; [apply NoDup_app; split; [done|]; split; [intros i Hi ->%list_elem_of_singleton; done|apply NoDup_singleton]|];
      intros i [Hi| ->%list_elem_of_singleton]%elem_of_app; [by apply G3'|split; [lia|split; [done|rewrite lookup_insert_eq; by eexists]]]).
  - cbn in Hs. injection Hs as <-. cbn. destruct start as [error|]; [done|]. cbn.
    destruct (new_work_fresh s h Hinv) as (Hc & Hsp & _ & Hn' & _).
    pose proof (new_work_inv s h Hinv) as [G1 G2 [G3 G3'] G4 [G5 G5'] G6 G7 G8]. split; cbn in *; try done.
    + split; [done|]. intros i Hi. rewrite lookup_insert_ne by (intros <-; done). by apply G3'.
    + intros i. destruct (G4 i) as (Ha & Hb & Hd). split; [done|]. split; [|done].
      destruct (decide (i = next_work s)) as [->|Hne]; [rewrite !lookup_insert_eq; intros _; by eexists|]. rewrite (lookup_insert_ne (spawned s)) by done. done.
    + split; [done|]. intros i r Hr. rewrite lookup_insert_ne; [by eapply G5'|]. intros <-. apply G5' in Hr. congruence.
  - cbn in Hs. destruct (senders s =? 0)%nat eqn:Hn; [done|]. apply Nat.eqb_neq in Hn. injection Hs as <-.
    apply (queue_inv s h); try done. intros Hw. by destruct (H8 Hw).
  - cbn in Hs. destruct (senders s =? 0)%nat eqn:Hn; [done|]. apply Nat.eqb_neq in Hn. injection Hs as <-.
    apply (queue_inv s h); try done. intros Hw. by destruct (H8 Hw).
  - cbn in Hs. unfold record. destruct (worker s) as [|id|] eqn:Hw; [|done|done]. destruct (tasks s) as [|id rest] eqn:Ht.
    + destruct (senders s =? 0)%nat; [|done]. injection Hs as <-. apply (queue_inv s h); cbn; try done.
      * by rewrite app_nil_r.
      * rewrite H2. unfold running. by rewrite Hw, !app_nil_r.
    + injection Hs as <-. apply (queue_inv s h); cbn; try done.
      * by rewrite H1, <- app_assoc.
      * rewrite H2. unfold running. by rewrite Hw, app_nil_r.
  - by apply finish_inv.
  - by eapply finish_spawned_inv.
  - cbn in Hs. destruct (handles s !! id) as [[]|] eqn:Hh; try done. injection Hs as <-. cbn.
    apply handle_inv; try done; by rewrite Hh.
  - cbn in Hs. change (works_inv s' h). destruct (handles s !! id) as [[| |r|r]|] eqn:Hh; try done.
    + unfold wait_step in Hs. destruct (completions s !! id) as [c|] eqn:Hc; [|done]. pose proof (not_poisoned s h id c Hinv Hc) as Hp.
      unfold take_result in Hs. rewrite Hp in Hs. destruct c as [[r|] p]; cbn in *; [|done]. subst p. injection Hs as <-.
      apply (taken_inv s h id r); try done. unfold after_take. cbn. destruct (spawned s !! id); [by left|by right].
    + assert (Hs' : set_handle s id (Returned r) = s') by (destruct (spawned s !! id) as [[|]|]; by simplify_eq). subst s'.
      apply handle_inv; [done|by rewrite Hh| |done]. cbn. intros r' <-. apply (inv_handle _ _ Hinv). by rewrite Hh.
  - cbn in Hs. destruct (handles s !! id) as [[]|] eqn:Hh; try done. injection Hs as <-. by apply drop_inv.
Qed.

Abbreviation start := (mkWorks (T:=T) (E:=E) 1 [] Receiving ∅ ∅ ∅ 0, history_new (T:=T) (E:=E)).

Lemma recorded_inv l x y : runs step l x y -> works_inv x.1 x.2 -> works_inv y.1 y.2.
Proof using Type.
  induction 1 as [|e l x1 x2 x3 He _ IH]; [done|]. intros Hinv. apply IH.
  apply bind_Some in He as (s' & Hs & [= <-]). by eapply work_step_inv.
Qed.

Lemma works_reachable l s h : runs step l start (s, h) -> works_inv s h.
Proof using Type. intros Hl. apply (recorded_inv l _ _ Hl), works_start. Qed.

(** *** No outcome is a panic *)
Lemma catch_unwind_caught (task : result) :
  catch_unwind from_work task <> Panic /\ (task = Panic -> catch_unwind from_work task = Err (from_work WorkerPanic)) /\
  (task <> Panic -> catch_unwind from_work task = task).
Proof using Type. by destruct task. Qed.

Lemma record_caught e s h : (forall id r, outcome_of h id r -> r <> Panic) -> forall id r, outcome_of (record from_work e s h) id r -> r <> Panic.
Proof using Type.
  intros Hh id r. unfold record, outcome_of in *. destruct e, (worker s); cbn; try apply Hh.
  all: try (intros [[Hin|Hin%list_elem_of_singleton]%elem_of_app|Hin]; [apply (Hh id r); by left| |apply (Hh id r); by right];
    injection Hin as -> ->; apply catch_unwind_caught).
  all: intros [Hin|[Hin|Hin%list_elem_of_singleton]%elem_of_app]; [apply (Hh id r); by left|apply (Hh id r); by right|];
    injection Hin as -> ->; apply catch_unwind_caught.
Qed.

Lemma outcomes_caught l x y : runs step l x y -> (forall id r, outcome_of x.2 id r -> r <> Panic) -> forall id r, outcome_of y.2 id r -> r <> Panic.
Proof using Type.
  induction 1 as [|e l x1 x2 x3 He _ IH]; [done|]. intros Hx. apply IH.
  apply bind_Some in He as (s' & _ & [= <-]). cbn [snd]. by apply record_caught.
Qed.

(** *** The worker goes on *)

(** The events with which a worker ends what is submitted, when task [id] ends with [out id]. *)
Definition work_off (s : Works) (out : nat -> result) : list (@WorkEvent T E) :=
  map (fun id => Finish (out id)) (running s) ++ flat_map (fun id => [Receive; Finish (out id)]) (tasks s).

Lemma store_frame s id r : let s' := store (T:=T) from_work s id r in
  handles s' = handles s /\ spawned s' = spawned s /\ tasks s' = tasks s /\ worker s' = worker s /\ senders s' = senders s.
Proof using Type. unfold store. by destruct (completions s !! id). Qed.

Lemma finish_runs s h id r : worker s = Working id -> exists s',
  runs step [Finish r] (s, h) (s', mkHistory (submitted_works h) (started_works h) (finished_works h ++ [(id, catch_unwind from_work r)]) (finished_spawned h)) /\
  worker s' = Receiving /\ tasks s' = tasks s /\ handles s' = handles s /\ spawned s' = spawned s.
Proof using Type.
  intros Hw. eexists. split.
  - apply runs_one. unfold recorded_step, record. cbn. rewrite Hw. done.
  - cbn. by destruct (store_frame s id r) as (-> & -> & _).
Qed.

Lemma worker_runs out l s h : worker s = Receiving -> tasks s = l -> exists s',
  runs step (flat_map (fun id => [Receive; Finish (out id)]) l) (s, h)
    (s', mkHistory (submitted_works h) (started_works h ++ l) (finished_works h ++ map (fun id => (id, catch_unwind from_work (out id))) l) (finished_spawned h)) /\
  worker s' = Receiving /\ tasks s' = [] /\ handles s' = handles s /\ spawned s' = spawned s.
Proof using Type.
  revert s h. induction l as [|id l IH]; intros s h Hw Ht.
  - exists s. cbn. rewrite !app_nil_r. destruct h. split; [constructor|done].
  - destruct (finish_runs (set_queue s (senders s) l (Working id)) (mkHistory (submitted_works h) (started_works h ++ [id]) (finished_works h) (finished_spawned h)) id (out id))
      as (s1 & Hs1 & Hw1 & Ht1 & Hh1 & Hsp1); [done|]. cbn [submitted_works started_works finished_works finished_spawned tasks handles spawned set_queue] in *.
    destruct (IH s1 (mkHistory (submitted_works h) (started_works h ++ [id]) (finished_works h ++ [(id, catch_unwind from_work (out id))]) (finished_spawned h)) Hw1 Ht1) as (s2 & Hs2 & Hw2 & Ht2 & Hh2 & Hsp2). exists s2. cbn [flat_map map].
    split; [|by rewrite Hh2, Hsp2, Hh1, Hsp1].
    cbn [submitted_works started_works finished_works finished_spawned] in Hs2. rewrite <- !app_assoc in Hs2.
    change ([Receive; Finish (out id)] ++ ?m) with ([Receive] ++ [Finish (out id)] ++ m).
    eapply runs_app; [|eapply runs_app; [exact Hs1|exact Hs2]].
    apply runs_one. unfold recorded_step, record. cbn. by rewrite Hw, Ht.
Qed.

(** C21: Whatever the order in which callers, the worker of a queue and the threads
    of spawned works go on, and whether tasks succeed, fail or panic: the worker
    starts the tasks in the order in which they were submitted, each once, the
    next one after the last one ended; a call of [wait] returns the outcome of its
    own work, which is never a panic; no completion is poisoned; and a submission
    through a handle of the queue succeeds. *)
Theorem works_in_order l s h : runs step l start (s, h) ->
  submitted_works h = started_works h ++ tasks s /\ NoDup (submitted_works h) /\
  started_works h = (finished_works h).*1 ++ running s /\
  (forall id r, handles s !! id = Some (Returned r) -> outcome_of h id r /\ forall r', outcome_of h id r' -> r' = r) /\
  (forall id r, outcome_of h id r -> r <> Panic) /\
  (forall id c, completions s !! id = Some c -> lock_poisoned c = false) /\
  (senders s <> 0%nat -> (submit from_work s).2 = Ok (next_work s) /\ (next_work s ∉ submitted_works h)).
Proof using Type.
  intros Hl. pose proof (works_reachable l s h Hl) as Hinv. split; [apply Hinv|]. split; [apply (inv_submitted _ _ Hinv)|].
  split; [apply Hinv|]. split; [|split; [|split; [intros id c; by apply (not_poisoned s h)|]]].
  - intros id r Hh. assert (Ho : outcome_of h id r) by (apply (inv_handle _ _ Hinv); by rewrite Hh).
    split; [done|]. intros r' Hr'. by apply (outcome_unique s h id).
  - apply (outcomes_caught _ _ _ Hl). intros id r [Hin|Hin]; by apply not_elem_of_nil in Hin.
  - intros Hn. destruct (new_work_fresh s h Hinv) as (_ & _ & _ & Hf & _). split; [|done].
    unfold submit. destruct (worker s) eqn:Hw; try done. by destruct (inv_ended _ _ Hinv Hw).
Qed.

(** C40: The worker ends all that is submitted, one task after another, also when all
    handles of the queue are dropped: every task that is waiting has its outcome
    then, which is what the task returned, or the error [WorkerPanic] if it
    panicked, and a call of [wait] returns it in its next step. *)
Theorem works_finish l s h out : runs step l start (s, h) ->
  exists s' h', runs step (work_off s out) (s, h) (s', h') /\ tasks s' = [] /\
    finished_works h' = finished_works h ++ map (fun id => (id, catch_unwind from_work (out id))) (running s ++ tasks s) /\
    (forall id, id ∈ running s ++ tasks s -> (id, match out id with Panic => Err (from_work WorkerPanic) | r => r end) ∈ finished_works h') /\
    (finished_works h').*1 = submitted_works h /\
    forall id, id ∈ submitted_works h -> handles s !! id = Some Waiting ->
      exists r s2, (id, r) ∈ finished_works h' /\ work_step from_work (AdvanceWait id) s' = Some s2 /\ handles s2 !! id = Some (Returned r).
Proof using Type.
  intros Hl. pose proof (works_reachable l s h Hl) as Hinv.
  assert (Hrun : exists s' h', runs step (work_off s out) (s, h) (s', h') /\ tasks s' = [] /\ handles s' = handles s /\ spawned s' = spawned s /\
    finished_works h' = finished_works h ++ map (fun id => (id, catch_unwind from_work (out id))) (running s ++ tasks s)).
  { unfold work_off, running. destruct (worker s) as [|id|] eqn:Hw.
    - destruct (worker_runs out (tasks s) s h Hw eq_refl) as (s' & Hs' & _ & ? & ? & ?). eexists _, _. by split; [exact Hs'|].
    - destruct (finish_runs s h id (out id) Hw) as (s1 & Hs1 & Hw1 & Ht1 & Hh1 & Hsp1).
      destruct (worker_runs out (tasks s) s1 (mkHistory (submitted_works h) (started_works h) (finished_works h ++ [(id, catch_unwind from_work (out id))]) (finished_spawned h)) Hw1 Ht1) as (s' & Hs' & _ & Ht' & Hh' & Hsp').
      eexists _, _. split; [eapply runs_app; [exact Hs1|exact Hs']|]. rewrite Hh', Hsp'. repeat split; try done. cbn. by rewrite <- app_assoc.
    - destruct (inv_ended _ _ Hinv Hw) as [_ ->]. exists s, h. cbn. rewrite app_nil_r. repeat split; try done; [constructor|]. by destruct (inv_ended _ _ Hinv Hw). }
  destruct Hrun as (s' & h' & Hs' & Ht & Hh & Hsp & Hf). exists s', h'. split; [done|]. split; [done|]. split; [done|].
  split; [intros id Hid; rewrite Hf; apply elem_of_app; right; apply list_elem_of_fmap; exists id; split; [by destruct (out id)|exact Hid]|].
  assert (Hall : (finished_works h').*1 = submitted_works h).
  { rewrite Hf, fmap_app. change (fmap fst (map ?f ?m)) with (map fst (map f m)). rewrite map_map. cbn. rewrite map_id.
    rewrite (inv_queue _ _ Hinv), (inv_started _ _ Hinv). by rewrite app_assoc. }
  split; [done|]. intros id Hid Hw. rewrite <- Hall in Hid. apply list_elem_of_fmap in Hid as ([id' r] & Hi & Hr). cbn in Hi. subst id'.
  pose proof (recorded_inv _ _ _ Hs' Hinv) as Hinv'. cbn in Hinv'.
  destruct (inv_known _ _ Hinv' id) as (_ & _ & Hc). destruct Hc as [c Hc]; [rewrite Hh, Hw; by eexists|].
  destruct (inv_completion _ _ Hinv' id c Hc) as (Hp & _ & Hcomp). specialize (Hcomp r (or_introl Hr)). rewrite Hh, Hw in Hcomp. specialize (Hcomp I).
  exists r. eexists. split; [done|]. split.
  - cbn. rewrite Hh, Hw. unfold wait_step, take_result. rewrite Hc, Hp, Hcomp. done.
  - cbn. rewrite lookup_insert_eq. unfold after_take. cbn. rewrite Hsp.
    destruct (inv_submitted _ _ Hinv) as [_ Hsub]. rewrite <- Hall in Hsub. destruct (Hsub id) as (_ & -> & _); [|done].
    apply list_elem_of_fmap. by exists (id, r).
Qed.
End invariant.

(** ** Traces of the tests *)
Module WorkExample.
Definition from_work (e : WorkError) : option WorkError := Some e.
Definition run (l : list (@WorkEvent nat (option WorkError))) : option (Works * History) :=
  replay (recorded_step from_work) l (mkWorks 1 [] Receiving ∅ ∅ ∅ 0, history_new).

Lemma run_runs l s h : run l = Some (s, h) -> runs (recorded_step from_work) l (mkWorks 1 [] Receiving ∅ ∅ ∅ 0, history_new) (s, h).
Proof. apply replay_runs. Qed.

(** operation_errors_and_panics_do_not_stop_later_queued_work *)
Definition errors_and_panics : list (@WorkEvent nat (option WorkError)) :=
  [Submit; Submit; Submit; Receive; Finish (Err None); DropQueue; Receive; Finish Panic; Receive; Finish (Ok 23%nat);
   Wait 0; AdvanceWait 0; Wait 1; AdvanceWait 1; Wait 2; AdvanceWait 2; Receive].

(** Two tasks are not done when the last handle of the queue is dropped. *)
Definition dropped : list (@WorkEvent nat (option WorkError)) := [Submit; Receive; Submit; Wait 1; DropHandle 0; DropQueue].

Lemma errors_and_panics_run : exists s h, run errors_and_panics = Some (s, h) /\ worker s = Ended /\
  handles s !! 1%nat = Some (Returned (Err (Some WorkerPanic))).
Proof. eexists _, _. split; [vm_compute; reflexivity|]. split; vm_compute; reflexivity. Qed.

Lemma dropped_run : exists s h, run dropped = Some (s, h) /\ senders s = 0%nat /\ tasks s = [1%nat] /\ submitted_works h = [0%nat; 1%nat].
Proof. eexists _, _. split; [vm_compute; reflexivity|]. split; [|split]; vm_compute; reflexivity. Qed.

Lemma works_in_order_witness : exists s h, run errors_and_panics = Some (s, h) /\ worker s = Ended /\ outcome_of h 1 (Err (Some WorkerPanic)).
Proof.
  destruct errors_and_panics_run as (s & h & Hs & Hw & H1). exists s, h. split; [exact Hs|]. split; [exact Hw|].
  destruct (works_in_order from_work errors_and_panics s h (run_runs _ _ _ Hs)) as (_ & _ & _ & Hr & _).
  exact (proj1 (Hr _ _ H1)).
Defined.

Lemma works_finish_witness : exists s h, run dropped = Some (s, h) /\ senders s = 0%nat /\ tasks s = [1%nat] /\
  exists h' : @History nat (option WorkError), (finished_works h').*1 = [0%nat; 1%nat].
Proof.
  destruct dropped_run as (s & h & Hs & H1 & H2 & H3). exists s, h. split; [exact Hs|]. split; [exact H1|]. split; [exact H2|].
  destruct (works_finish from_work dropped s h (fun id => Ok id) (run_runs _ _ _ Hs)) as (s' & h' & _ & _ & _ & _ & Hf & _).
  exists h'. rewrite <- H3. exact Hf.
Defined.
End WorkExample.
