(* ===== verification/Probe.v ===== *)
(** * Probing of the topology: src/src/rank/network.rs

    The links of a session are measured pair by pair, rail by rail and in both
    directions; the sender of a direction takes the time, and all ranks gather
    what it measured.  Time is a parameter: [elapsed] tells how many nanoseconds
    each sample takes. *)
From Stdlib Require Import String Sorting.Permutation.
From stdpp Require Import sorting.
From S2P Require Import Prelude Protocol Agreement Errors Layout Tags Payload Router Comp Device Processes Topology TopologyText Session.

#[export] Instance CollectiveTransport_eq_dec : EqDecision CollectiveTransport.
Proof. solve_decision. Defined.

(** ** Options *)
Record TopologyProbeOptions := mkProbeOptions {
  payload_bytes : Z;
  latency_iterations : nat;
  bandwidth_iterations : nat;
  warmup_iterations : nat;
}.

Definition probe_defaults : TopologyProbeOptions := mkProbeOptions (1024 * 1024) 16 3 1.

Definition validate_options (o : TopologyProbeOptions) : nresult unit :=
  _ ← fail_if ((payload_bytes o =? 0) || (MAX_FRAME_PAYLOAD_BYTES <? payload_bytes o))
        (InvalidConfiguration "topology probe payload {} is outside 1..={}");
  _ ← fail_if ((latency_iterations o =? 0)%nat || (bandwidth_iterations o =? 0)%nat)
        (InvalidConfiguration "topology probe latency and bandwidth iterations must be greater than zero");
  fail_if ((10000 <? Z.of_nat (latency_iterations o)) || (10000 <? Z.of_nat (bandwidth_iterations o)) || (10000 <? Z.of_nat (warmup_iterations o)))
    (InvalidConfiguration "topology probe iteration counts must not exceed 10000").

Definition parse_probe_usize (env : environment) (name : string) (default : Z) : nresult Z :=
  match env name with
  | Present value => ok_or (parse_unsigned usize_bits (trim value)) (InvalidConfiguration "{name} must be a non-negative integer, got {value:?}")
  | NotPresent => Ok default
  | NotUnicode _ => Err (InvalidConfiguration "{name} is not Unicode: {:?}")
  end.

Definition probe_options_from_environment (env : environment) : nresult TopologyProbeOptions :=
  bytes ← parse_probe_usize env "GX1_TOPOLOGY_PROBE_BYTES" (payload_bytes probe_defaults);
  latency ← parse_probe_usize env "GX1_TOPOLOGY_PROBE_LATENCY_ITERATIONS" (Z.of_nat (latency_iterations probe_defaults));
  bandwidth ← parse_probe_usize env "GX1_TOPOLOGY_PROBE_BANDWIDTH_ITERATIONS" (Z.of_nat (bandwidth_iterations probe_defaults));
  warmup ← parse_probe_usize env "GX1_TOPOLOGY_PROBE_WARMUP_ITERATIONS" (Z.of_nat (warmup_iterations probe_defaults));
  let options := mkProbeOptions bytes (Z.to_nat latency) (Z.to_nat bandwidth) (Z.to_nat warmup) in
  _ ← validate_options options;
  Ok options.

(** ** Samples *)
Record LinkProbe := mkProbe { probe_bandwidth : Z; probe_latency : Z }.

(** A duration is given in nanoseconds. *)
Definition duration_ns (nanos : Z) : Z := Z.max 1 (saturating_u64 nanos).

Definition median {E} (samples : list Z) : outcome E Z := index (merge_sort Z.le samples) (length samples / 2).

Definition leading_zeros (value : Z) : Z := if value =? 0 then 64 else 63 - Z.log2 value.

(** [exponent & !1] *)
Definition even_part (exponent : Z) : Z := Z.land exponent (2 ^ 32 - 2).

Definition conservative_probe_bandwidth_bucket (value : Z) : Z :=
  let exponent := saturating_sub 32 63 (leading_zeros (Z.max value 1)) in
  wrap 64 (Z.shiftl 1 (even_part exponent)).

Definition conservative_probe_latency_bucket (value : Z) : Z :=
  let exponent := saturating_sub 32 63 (leading_zeros (Z.max value 1)) in
  let upper_exponent := saturating_add 32 (even_part exponent) 2 in
  if 64 <=? upper_exponent then U64_MAX else wrap 64 (Z.shiftl 1 upper_exponent).

(** Megabytes per second of [bytes] in [nanos]. *)
Definition bandwidth_of (bytes nanos : Z) : Z :=
  let quotient := if nanos =? 0 then 0 else saturating_mul 128 bytes 1000 / nanos in
  Z.max 1 (saturating_u64 quotient).

(** What the sender of a direction makes of its samples. *)
Definition direction_probe {E} (o : TopologyProbeOptions) (latency_samples bandwidth_samples : list Z) : outcome E LinkProbe :=
  latency ← median latency_samples;
  let latency_ns := saturating_add 64 latency 1 / 2 in
  elapsed_ns ← median bandwidth_samples;
  let transfer_ns := Z.max 1 (saturating_sub 64 elapsed_ns (saturating_mul 64 latency_ns 2)) in
  Ok (mkProbe (bandwidth_of (payload_bytes o) transfer_ns) (Z.max 1 latency_ns)).

(** ** What a rank does *)
Section probe.
Context `{Crc32Hash} (uid : list Z) (world : nat) (error_text : NetworkError -> list Z) (lane : Z -> nat).
#[local] Existing Instance session_mail.
#[local] Instance probe_mail : Mail := session_mail uid world error_text lane.
Abbreviation session_program := (program NetworkError).

(** The nanoseconds of a sample: its sender and receiver, its rail (the number of
    rails, for a sample on all of them), its kind and its number. *)
Context (elapsed : nat -> nat -> nat -> Z -> nat -> Z).
Context (s : TcpRankSession).

Abbreviation send_on_rail := (send_on_rail uid world error_text lane s).
Abbreviation receive_on_rail := (receive_on_rail uid world error_text lane s).
Abbreviation exchange := (exchange uid world error_text lane s).
Abbreviation session_barrier := (session_barrier uid world error_text lane s).

Definition repeat_times (n : nat) (body : session_program unit) : session_program unit :=
  loop (fun _ _ => body) tt (seq 0 n).

Definition timed (n : nat) (body : session_program unit) (time : nat -> Z) : session_program (list Z) :=
  loop (fun samples i => _ ← body; mret (samples ++ [duration_ns (time i)])) [] (seq 0 n).

Definition received (rail sender : nat) (tag count : Z) : session_program unit :=
  _ ← receive_on_rail rail (Z.of_nat sender) tag ElementType.U8 count; mret tt.

Definition probe_tag (first second rail : nat) (direction kind : Z) : Z :=
  topology_probe_tag (Z.of_nat first) (Z.of_nat second) (Z.of_nat rail) direction kind.

Definition probe_direction (next : Z) (first second sender receiver rail : nat) (direction : Z) (o : TopologyProbeOptions)
    : session_program (Z * option LinkProbe) :=
  let latency_tag := probe_tag first second rail direction 0 in
  let bandwidth_tag := probe_tag first second rail direction 1 in
  let ping := send_on_rail rail (Z.of_nat receiver) latency_tag ElementType.U8 1 [0] in
  let probe_payload := replicate (Z.to_nat (payload_bytes o)) 0xa5 in
  let transfer := send_on_rail rail (Z.of_nat receiver) bandwidth_tag ElementType.U8 (payload_bytes o) probe_payload in
  samples ←
    (if (rank s =? sender)%nat then
       _ ← repeat_times (warmup_iterations o) ping;
       latency_samples ← timed (latency_iterations o) ping (elapsed sender receiver rail 0);
       _ ← repeat_times (warmup_iterations o) transfer;
       bandwidth_samples ← timed (bandwidth_iterations o) transfer (elapsed sender receiver rail 1);
       mret (latency_samples, bandwidth_samples)
     else if (rank s =? receiver)%nat then
       pings ← lift (add_usize (warmup_iterations o) (latency_iterations o));
       _ ← repeat_times pings (received rail sender latency_tag 1);
       transfers ← lift (add_usize (warmup_iterations o) (bandwidth_iterations o));
       _ ← repeat_times transfers (received rail sender bandwidth_tag (payload_bytes o));
       mret ([], [])
     else mret ([], []));
  next ← session_barrier next;
  if negb (rank s =? sender)%nat then mret (next, None)
  else probe ← lift (direction_probe o samples.1 samples.2); mret (next, Some probe).

(** The workers of the rails send at once and are joined in the order of the
    rails; each send ends when its message is under way, and sends on different
    rails commute.  The first error is kept and the other workers still run;
    the sends here fail only by themselves, so that the workers run in this order. *)
Definition send_concurrent_probe_sample (first second receiver : nat) (direction bytes : Z) (time : Z) : session_program Z :=
  let payload := replicate (Z.to_nat bytes) 0x5a in
  _ ← loop (fun _ rail => send_on_rail rail (Z.of_nat receiver) (probe_tag first second rail direction 2) ElementType.U8 bytes payload)
        tt (seq 0 (session_rails s));
  mret (duration_ns time).

Definition probe_concurrent_rails_direction (next : Z) (first second sender receiver : nat) (direction : Z) (o : TopologyProbeOptions)
    : session_program (Z * option Z) :=
  let rails := session_rails s in
  _ ← lift (fail_if (rails <=? 1)%nat (InvalidConfiguration "concurrent topology probing requires at least two P2P rails"));
  let samples := Z.to_nat (saturating_add usize_bits (Z.of_nat (warmup_iterations o)) (Z.of_nat (bandwidth_iterations o))) in
  bandwidth_samples ←
    (if (rank s =? sender)%nat then
       loop (fun bandwidth_samples sample =>
           elapsed_ns ← send_concurrent_probe_sample first second receiver direction (payload_bytes o) (elapsed sender receiver rails 2 sample);
           mret (if (warmup_iterations o <=? sample)%nat then bandwidth_samples ++ [elapsed_ns] else bandwidth_samples))
         [] (seq 0 samples)
     else if (rank s =? receiver)%nat then
       _ ← repeat_times samples
         (loop (fun _ rail => received rail sender (probe_tag first second rail direction 2) (payload_bytes o)) tt (seq 0 rails));
       mret []
     else mret []);
  next ← session_barrier next;
  if negb (rank s =? sender)%nat then mret (next, None)
  else
    elapsed ← lift (median bandwidth_samples);
    let total_bytes := saturating_mul 128 (payload_bytes o) (Z.of_nat rails) in
    mret (next, Some (bandwidth_of total_bytes (Z.max 1 elapsed))).

(** All ranks gather [count] numbers of each. *)
Definition gather_metrics (next : Z) (local : list Z) (short : string) : session_program (Z * list Z) :=
  '(next, gathered) ← exchange next Opcode.AllGather ElementType.U64 ANY_RANK (Zlen local) (count_words local);
  let values := map of_le (chunks_exact 8 gathered.(payload)) in
  _ ← lift (fail_if (negb (length values =? session_world s * length local)%nat) (InvalidConfiguration short));
  mret (next, values).

Record PairProbe := mkPair { pair_topology : CollectiveTopology; pair_bandwidth_mbps : Z; pair_latency_ns : Z; pair_rail_bandwidth_sum_mbps : Z }.

(** One rail of a pair. *)
Definition probe_rail (first second : nat) (o : TopologyProbeOptions) (state : Z * PairProbe) (rail : nat) : session_program (Z * PairProbe) :=
  let '(next, so_far) := state in
  '(next, forward) ← probe_direction next first second first second rail 0 o;
  '(next, reverse) ← probe_direction next first second second first rail 1 o;
  sent ← lift (if (rank s =? first)%nat then probe ← expect forward; Ok [probe_bandwidth probe; probe_latency probe] else Ok [0; 0]);
  answered ← lift (if (rank s =? second)%nat then probe ← expect reverse; Ok [probe_bandwidth probe; probe_latency probe] else Ok [0; 0]);
  '(next, values) ← gather_metrics next (sent ++ answered) "topology probe gathered {} metrics, expected {expected_values}";
  forward_bandwidth ← lift (index values (first * 4));
  forward_latency ← lift (index values (first * 4 + 1));
  reverse_bandwidth ← lift (index values (second * 4 + 2));
  reverse_latency ← lift (index values (second * 4 + 3));
  _ ← lift (fail_if ((forward_bandwidth =? 0) || (reverse_bandwidth =? 0))
        (InvalidConfiguration "topology probe for ranks {first_rank}-{second_rank} rail {rail} returned zero bandwidth"));
  let bandwidth := conservative_probe_bandwidth_bucket (Z.min forward_bandwidth reverse_bandwidth) in
  let latency := conservative_probe_latency_bucket (Z.max forward_latency reverse_latency) in
  topology ← lift (map_err (fun _ => InvalidConfiguration "cannot add probed topology rail link {rail}@{first_rank}-{second_rank}: {error}")
        (add_rail_link (pair_topology so_far) (mkRailLink rail first second bandwidth latency)));
  mret (next, mkPair topology (Z.min (pair_bandwidth_mbps so_far) bandwidth) (Z.max (pair_latency_ns so_far) latency)
                (saturating_add 64 (pair_rail_bandwidth_sum_mbps so_far) bandwidth)).

(** All rails of a pair at once. *)
Definition probe_aggregate (first second : nat) (o : TopologyProbeOptions) (state : Z * PairProbe) : session_program (Z * PairProbe) :=
  let '(next, so_far) := state in
  '(next, forward) ← probe_concurrent_rails_direction next first second first second 0 o;
  '(next, reverse) ← probe_concurrent_rails_direction next first second second first 1 o;
  sent ← lift (if (rank s =? first)%nat then expect forward else Ok 0);
  answered ← lift (if (rank s =? second)%nat then expect reverse else Ok 0);
  '(next, values) ← gather_metrics next [sent; answered] "topology aggregate probe gathered {} metrics, expected {expected_values}";
  forward ← lift (index values (first * 2));
  reverse ← lift (index values (second * 2 + 1));
  _ ← lift (fail_if ((forward =? 0) || (reverse =? 0))
        (InvalidConfiguration "topology aggregate probe for ranks {first_rank}-{second_rank} returned zero bandwidth"));
  let bandwidth := Z.max 1 (Z.min (conservative_probe_bandwidth_bucket (Z.min forward reverse)) (pair_rail_bandwidth_sum_mbps so_far)) in
  topology ← lift (map_err (fun _ => InvalidConfiguration "cannot add probed topology aggregate link {first_rank}-{second_rank}: {error}")
        (add_aggregate_link (pair_topology so_far) (mkAggregateLink first second bandwidth)));
  mret (next, mkPair topology (pair_bandwidth_mbps so_far) (pair_latency_ns so_far) (pair_rail_bandwidth_sum_mbps so_far)).

Definition probe_pair (o : TopologyProbeOptions) (state : Z * CollectiveTopology) (ranks : nat * nat) : session_program (Z * CollectiveTopology) :=
  let '(next, topology) := state in
  let '(first, second) := ranks in
  state ← loop (probe_rail first second o) (next, mkPair topology U64_MAX 0 0) (seq 0 (session_rails s));
  '(next, so_far) ← (if (1 <? session_rails s)%nat then probe_aggregate first second o state else mret state);
  topology ← lift (map_err (fun _ => InvalidConfiguration "cannot add probed topology link {first_rank}-{second_rank}: {error}")
        (add_link (pair_topology so_far) (mkLink first second (pair_bandwidth_mbps so_far) (pair_latency_ns so_far))));
  mret (next, topology).

Definition probe_topology (next : Z) (o : TopologyProbeOptions) : session_program (Z * CollectiveTopology) :=
  _ ← lift (validate_options o);
  _ ← lift (fail_if (negb (bool_decide (session_transport s = TcpPeer)))
        (InvalidConfiguration "automatic link probing requires GX1_COLLECTIVE_TRANSPORT=tcp_peer"));
  topology ← lift (map_err (fun _ => InvalidConfiguration "cannot create probed collective topology: {error}") (Topology.empty (session_world s)));
  next ← session_barrier next;
  loop (probe_pair o) (next, topology) (rank_pairs (session_world s)).

Definition probe_topology_from_environment (env : environment) (next : Z) : session_program (Z * CollectiveTopology) :=
  o ← lift (probe_options_from_environment env); probe_topology next o.
End probe.
