(* ===== verification/ProbeTheorems.v ===== *)
(** * What probing finds

    The buckets of bandwidths and latencies, what the ranks measure together in
    every schedule, and the topology in which they agree. *)
From Stdlib Require Import Sorting.Permutation.
From stdpp Require Import sorting.
From S2P Require Import Prelude Protocol Agreement Errors Layout Tags Payload Router Comp Device Topology TopologyText Processes Session.
From S2P Require Import SessionRounds Probe.

(** ** Buckets *)
Section buckets.

Lemma leading_zeros_exponent value : 0 < value < 2 ^ 64 -> saturating_sub 32 63 (leading_zeros value) = Z.log2 value.
Proof.
  intros Hv. unfold leading_zeros. destruct (Z.eqb_spec value 0); [lia|]. unfold saturating_sub.
  assert (0 <= Z.log2 value < 64) by (split; [apply Z.log2_nonneg|apply Z.log2_lt_pow2; lia]).
  rewrite saturate_in by (unfold in_width; lia). lia.
Qed.

Lemma even_part_spec e : 0 <= e < 64 -> even_part e = 2 * (e / 2).
Proof.
  intros He. assert (Hall : forallb (fun n => even_part (Z.of_nat n) =? 2 * (Z.of_nat n / 2)) (seq 0 64) = true) by (vm_compute; reflexivity).
  rewrite forallb_forall in Hall. specialize (Hall (Z.to_nat e)). rewrite Z2Nat.id in Hall by lia.
  apply Z.eqb_eq, Hall, in_seq. lia.
Qed.

Lemma log2_u64 value : 0 < value < 2 ^ 64 -> 0 <= Z.log2 value < 64 /\ 2 ^ Z.log2 value <= value < 2 ^ (Z.log2 value + 1).
Proof.
  intros Hv. split; [split; [apply Z.log2_nonneg|apply Z.log2_lt_pow2; lia]|]. apply Z.log2_spec. lia.
Qed.

(** A bucket is a power of four, at most the bandwidth, and above a quarter of it. *)
Lemma bandwidth_bucket_bounds value : 0 < value < 2 ^ 64 ->
  let bucket := conservative_probe_bandwidth_bucket value in
  bucket <= value < 4 * bucket /\ exists e, 0 <= e < 32 /\ bucket = 4 ^ e.
Proof.
  intros Hv bucket. destruct (log2_u64 value Hv) as [He Hlog]. set (e := Z.log2 value) in *.
  pose proof (Z.div_mod e 2 ltac:(lia)) as Hdiv. pose proof (Z.mod_pos_bound e 2 ltac:(lia)) as Hmod.
  assert (Hb : bucket = 4 ^ (e / 2)).
  { subst e. unfold bucket, conservative_probe_bandwidth_bucket. rewrite Z.max_l by lia. rewrite leading_zeros_exponent by lia. rewrite even_part_spec by lia.
    rewrite Z.shiftl_1_l. rewrite wrap_in; [|split; [apply Z.pow_nonneg; lia|apply Z.pow_lt_mono_r; lia]].
    by rewrite Z.pow_mul_r by lia. }
  assert (Hlow : 4 ^ (e / 2) <= 2 ^ e).
  { change 4 with (2 ^ 2). rewrite <- Z.pow_mul_r by lia. apply Z.pow_le_mono_r; lia. }
  assert (Hhigh : 2 ^ (e + 1) <= 4 * 4 ^ (e / 2)).
  { rewrite <- Z.pow_succ_r by lia. change 4 with (2 ^ 2). rewrite <- Z.pow_mul_r by lia. apply Z.pow_le_mono_r; lia. }
  rewrite Hb. split; [lia|]. exists (e / 2). split; [lia|done].
Qed.

(** A latency is at most its bucket, which is at most four times the latency. *)
Lemma latency_bucket_bounds value : 0 < value < 2 ^ 64 ->
  let bucket := conservative_probe_latency_bucket value in value <= bucket <= 4 * value /\ bucket < 2 ^ 64.
Proof.
  intros Hv bucket. destruct (log2_u64 value Hv) as [He Hlog]. set (e := Z.log2 value) in *.
  pose proof (Z.div_mod e 2 ltac:(lia)) as Hdiv. pose proof (Z.mod_pos_bound e 2 ltac:(lia)) as Hmod.
  assert (Hb : bucket = if 64 <=? 2 * (e / 2) + 2 then U64_MAX else 2 ^ (2 * (e / 2) + 2)).
  { subst e. unfold bucket, conservative_probe_latency_bucket. rewrite Z.max_l by lia. rewrite leading_zeros_exponent by lia. rewrite even_part_spec by lia.
    unfold saturating_add. rewrite saturate_in by (unfold in_width; lia). destruct (Z.leb_spec 64 (2 * (Z.log2 value / 2) + 2)); [done|].
    rewrite Z.shiftl_1_l. apply wrap_in. split; [apply Z.pow_nonneg; lia|apply Z.pow_lt_mono_r; lia]. }
  rewrite Hb. destruct (Z.leb_spec 64 (2 * (e / 2) + 2)) as [Hmax|Hsmall].
  - assert (2 ^ 62 <= 2 ^ e) by (apply Z.pow_le_mono_r; lia). unfold U64_MAX. lia.
  - assert (2 ^ (e + 1) <= 2 ^ (2 * (e / 2) + 2)) by (apply Z.pow_le_mono_r; lia).
    assert (2 ^ (2 * (e / 2) + 2) <= 2 ^ (e + 2)) by (apply Z.pow_le_mono_r; lia).
    assert (2 ^ (e + 2) = 4 * 2 ^ e) by (rewrite Z.pow_add_r by lia; lia).
    assert (2 ^ (2 * (e / 2) + 2) < 2 ^ 64) by (apply Z.pow_lt_mono_r; lia). lia.
Qed.

Lemma duration_ns_range nanos : 0 < duration_ns nanos < 2 ^ 64.
Proof.
  unfold duration_ns, saturating_u64. destruct (in_widthb 64 nanos) eqn:Hw; [apply in_widthb_spec in Hw; unfold in_width in Hw; lia|].
  unfold U64_MAX. lia.
Qed.

(** The median of samples is one of them. *)
Lemma median_ok {E} samples : samples <> [] -> exists m, median (E:=E) samples = Ok m /\ m ∈ samples.
Proof.
  intros Hs. unfold median. destruct (lookup_lt_is_Some_2 (merge_sort Z.le samples) (length samples / 2)) as [m Hm].
  { rewrite (Permutation_length (merge_sort_Permutation Z.le samples)). destruct samples; [done|]. apply Nat.div_lt; cbn; lia. }
  exists m. split; [by apply index_Ok|]. apply list_elem_of_lookup_2 in Hm. by rewrite (merge_sort_Permutation Z.le samples) in Hm.
Qed.

Lemma bandwidth_of_range bytes nanos : 0 < bandwidth_of bytes nanos < 2 ^ 64.
Proof.
  unfold bandwidth_of, saturating_u64. case_match; cbn; (destruct (in_widthb 64 _) eqn:Hw; [apply in_widthb_spec in Hw; unfold in_width in Hw; lia|]); unfold U64_MAX; lia.
Qed.

(** A direction has a measurement, and no measurement is zero. *)
Lemma direction_probe_ok {E} o latency bandwidth : latency <> [] -> bandwidth <> [] ->
  exists p, direction_probe (E:=E) o latency bandwidth = Ok p /\ 0 < probe_bandwidth p < 2 ^ 64 /\ 0 < probe_latency p < 2 ^ 64.
Proof.
  intros Hl Hb. unfold direction_probe.
  destruct (median_ok (E:=E) latency Hl) as (m & -> & _). destruct (median_ok (E:=E) bandwidth Hb) as (m' & -> & _). cbn [mbind outcome_bind].
  eexists. split; [done|]. cbn. split; [apply bandwidth_of_range|].
  pose proof (saturate_range 64 (m + 1) ltac:(lia)) as [H0 H1]. fold (saturating_add 64 m 1) in H0, H1.
  pose proof (Z.div_lt_upper_bound (saturating_add 64 m 1) 2 (2 ^ 64) ltac:(lia) ltac:(lia)). lia.
Qed.
End buckets.

(** ** The probes of all ranks together

    Under every schedule a measurement ends, all ranks gather the same numbers,
    and a session is ready for its next round with nothing under way. *)

Section world.
Context `{Crc32Hash} (uid : list Z) (world : nat) (error_text : NetworkError -> list Z).

(** All tags are used by the rank's own thread. *)
Definition one_lane (tag : Z) : nat := 0%nat.
#[local] Existing Instance session_mail.
#[local] Instance probing_mail : Mail := session_mail uid world error_text one_lane.
#[local] Instance probing_mail_laws : MailLaws probing_mail := session_mail_laws uid world error_text one_lane.
Abbreviation session_program := (program NetworkError).
Abbreviation ready := (ready uid world).

(** ** Programs of all ranks, one after another *)

(** From a session that is ready for round [k] to one that is ready for [k']. *)
Definition world_runs {A} (k k' : nat) (programs : nat -> session_program A) (res : nat -> A) : Prop :=
  forall w, ready w k -> in_transit w = ∅ -> exists l w',
    runs network_step l (mkNetwork (map programs (seq 0 world)) w) (mkNetwork (map (fun r => Return (Ok (res r))) (seq 0 world)) w') /\
    ready w' k' /\ in_transit w' = ∅.

Lemma world_ret {A} k (programs : nat -> session_program A) res :
  (forall r, (r < world)%nat -> programs r = Return (Ok (res r))) -> world_runs k k programs res.
Proof using Type.
  intros Hp w Hw Ht. exists [], w. split; [|done]. rewrite (map_ext_in programs (fun r => Return (Ok (res r)))); [constructor|].
  intros r Hr%in_seq. apply Hp. lia.
Qed.

Lemma world_ext {A} k k' (programs programs' : nat -> session_program A) res res' :
  (forall r, (r < world)%nat -> programs r = programs' r) -> (forall r, (r < world)%nat -> res r = res' r) ->
  world_runs k k' programs' res' -> world_runs k k' programs res.
Proof using Type.
  intros Hp Hr Hruns w Hw Ht. destruct (Hruns w Hw Ht) as (l & w' & Hl & Hw'). exists l, w'. split; [|done].
  rewrite (map_ext_in programs programs'), (map_ext_in (fun r => Return (Ok (res r))) (fun r => Return (Ok (res' r)))); [done| |];
    intros r Hin%in_seq; [rewrite Hr by lia; done|apply Hp; lia].
Qed.

Lemma world_bind {A B} k k1 k2 (m : nat -> session_program A) (a : nat -> A) (f : nat -> A -> session_program B) b :
  world_runs k k1 m a -> world_runs k1 k2 (fun r => f r (a r)) b -> world_runs k k2 (fun r => m r ≫= f r) b.
Proof using Type.
  intros Hm Hf w Hw Ht. destruct (Hm w Hw Ht) as (l1 & w1 & H1 & Hw1 & Ht1). destruct (Hf w1 Hw1 Ht1) as (l2 & w2 & H2 & Hw2 & Ht2).
  exists (l1 ++ l2), w2. split; [|done]. apply (runs_bind f) in H1. rewrite then_do_seq, (then_do_seq f (fun r => Return (Ok (a r)))) in H1. eapply runs_app; [exact H1|exact H2].
Qed.

Lemma world_lift {A} k (m : nat -> nresult A) a : (forall r, (r < world)%nat -> m r = Ok (a r)) -> world_runs k k (fun r => lift (m r)) a.
Proof using Type. intros Hm. apply world_ret. intros r Hr. unfold lift. by rewrite Hm. Qed.

(** A loop whose rounds take [c] rounds of the coordinator each. *)
Lemma world_loop {A S E} (c bound : nat) (f : nat -> Z * S -> A -> session_program (Z * S)) (F : S -> A -> outcome E S) (P : S -> Prop) l k s s' :
  (forall k s x s', x ∈ l -> (k + c <= bound)%nat -> P s -> F s x = Ok s' ->
    P s' /\ world_runs k (k + c) (fun r => f r (Z.of_nat k, s) x) (fun _ => (Z.of_nat (k + c), s'))) ->
  P s -> foldM F s l = Ok s' -> (k + c * length l <= bound)%nat ->
  world_runs k (k + c * length l) (fun r => loop (f r) (Z.of_nat k, s) l) (fun _ => (Z.of_nat (k + c * length l), s')).
Proof using Type.
  revert k s. induction l as [|x l IH]; intros k s Hstep Hs Hl Hb; cbn [length loop].
  - injection Hl as <-. rewrite Nat.mul_0_r, Nat.add_0_r. by apply world_ret.
  - cbn in Hl. apply bind_Ok in Hl as (s1 & H1 & Hl). change (length (x :: l)) with (Datatypes.S (length l)) in *. rewrite Nat.mul_succ_r in Hb |- *.
    destruct (Hstep k s x s1) as [Hs1 Hrun]; [left|lia|done|done|].
    replace (k + (c * length l + c))%nat with (k + c + c * length l)%nat in * by lia.
    apply (world_bind _ (k + c) _ _ (fun _ => (Z.of_nat (k + c), s1)) (fun r s => loop (f r) s l)); [done|].
    apply IH; [|done|done|lia]. intros. apply Hstep; [by right|done..].
Qed.

(** ** Exchanges *)
Context (sess : nat -> TcpRankSession) (Hsess : forall r, (r < world)%nat -> session_of uid world r (sess r)).
Context (Hok : session_ok uid 0 world).

Abbreviation exchanging k r := (exchange uid world error_text one_lane (sess r) (Z.of_nat k)).

Lemma world_pos : (0 < world)%nat /\ Z.of_nat world < 2 ^ 32.
Proof using Hok. apply (Router.session_world _ _ _ Hok). Qed.

Lemma world_exchange {B} k op et count (data : nat -> list Z) (f : nat -> Z * Frame -> session_program B) (res : nat -> B) :
  Z.of_nat k < U64_MAX -> in_width 64 count ->
  (forall r, (r < world)%nat -> Forall is_byte (data r)) -> (forall r, (r < world)%nat -> fits et count (data r)) ->
  routable (map (round_request uid world k op et ANY_RANK count 0 data) (seq 0 world)) (round_header uid world k op et ANY_RANK count 0 0) ->
  op <> Opcode.AllToAllV ->
  (forall r answer, (r < world)%nat -> opcode answer.(header) = op ->
    answer.(payload) = delivered (round_header uid world k op et ANY_RANK count 0 0) (map data (seq 0 world)) r ->
    f r (Z.of_nat (S k), answer) = Return (Ok (res r))) ->
  world_runs k (S k) (fun r => exchanging k r op et ANY_RANK count (data r) ≫= f r) res.
Proof using Hsess Hok.
  intros Hk Hcount Hbytes Hfits Hroute Hop Hf w Hw Ht.
  assert (Hok' : session_ok uid (Z.of_nat k) world) by (destruct Hok as [H1 H2 _ H4]; split; [done|done|unfold in_width, U64_MAX in *; lia|done]).
  destruct (exchange_runs uid world error_text one_lane sess Hsess k Hok' Hk op et ANY_RANK count 0 data any_rank_width (or_introl eq_refl)
    Hcount ltac:(unfold in_width; lia) Hbytes Hfits Hroute Hop (fun r x => x ≫= f r) w Hw) as (l & resp & w' & Hl & Hw' & Ht' & Hans).
  { intros r x s y s' Hx. by apply (alone_bind (M:=probing_mail)). }
  exists l, w'. split; [|rewrite Ht'; done].
  rewrite (map_ext_in (fun r => Return (Ok (res r))) (fun r => program_bind (M:=probing_mail) (f r) (Return (Ok (Z.of_nat (S k), resp r))))); [exact Hl|].
  intros r Hr%in_seq. cbn. symmetry. apply Hf; [lia|by eapply answer_opcode, Hans; lia|by eapply answer_payload, Hans; lia].
Qed.

Lemma world_barrier k : Z.of_nat k < U64_MAX ->
  world_runs k (S k) (fun r => session_barrier uid world error_text one_lane (sess r) (Z.of_nat k)) (fun _ => Z.of_nat (S k)).
Proof using Hsess Hok.
  intros Hk. apply (world_exchange k Opcode.Barrier ElementType.None 0 (fun _ => [])); try done.
  - split; [done|]. cbn. apply Forall_map, Forall_forall. intros r _. done.
  - intros r [h p] Hr Hop Hp. cbn in Hop, Hp. subst p. cbn. rewrite Hop. done.
Qed.

Lemma concat_count_words (l : list (list Z)) : concat (map count_words l) = count_words (concat l).
Proof using Type. induction l as [|x l IH]; [done|]. cbn [map concat]. rewrite IH. unfold count_words. by rewrite map_app, concat_app. Qed.

Lemma length_concat_same {A} n (l : list (list A)) : Forall (fun x => length x = n) l -> length (concat l) = (length l * n)%nat.
Proof using Type. induction 1 as [|x l Hx _ IH]; [done|]. cbn. rewrite length_app, Hx, IH. lia. Qed.

(** All ranks gather the numbers of all ranks. *)
Lemma world_gather k n (values : nat -> list Z) short : Z.of_nat k < U64_MAX ->
  (forall r, (r < world)%nat -> length (values r) = n /\ Forall (in_width 64) (values r)) ->
  Z.of_nat world * (8 * Z.of_nat n) <= MAX_FRAME_PAYLOAD_BYTES ->
  world_runs k (S k) (fun r => gather_metrics uid world error_text one_lane (sess r) (Z.of_nat k) (values r) short)
    (fun _ => (Z.of_nat (S k), concat (map values (seq 0 world)))).
Proof using Hsess Hok.
  intros Hk Hvalues Hsize. destruct world_pos as [Hpos Hw]. unfold gather_metrics.
  set (data := fun r => count_words (values r)).
  assert (Hlen : forall r, (r < world)%nat -> Zlen (data r) = 8 * Z.of_nat n).
  { intros r Hr. unfold data, Zlen. rewrite length_count_words. destruct (Hvalues r Hr) as [-> _]. lia. }
  apply (world_ext _ _ _ (fun r => exchanging k r Opcode.AllGather ElementType.U64 ANY_RANK (Z.of_nat n) (data r) ≫= fun '(next, gathered) =>
      _ ← lift (fail_if (negb (length (map of_le (chunks_exact 8 gathered.(payload))) =? session_world (sess r) * length (values r))%nat) (InvalidConfiguration short));
      mret (next, map of_le (chunks_exact 8 gathered.(payload)))) _ (fun _ => (Z.of_nat (S k), concat (map values (seq 0 world))))).
  { intros r Hr. destruct (Hvalues r Hr) as [Hl _]. unfold Zlen. by rewrite Hl. }
  { done. }
  apply (world_exchange k Opcode.AllGather ElementType.U64 (Z.of_nat n) data); try done.
  - change MAX_FRAME_PAYLOAD_BYTES with 1073741824 in *. unfold in_width. nia.
  - intros r Hr. apply count_words_bytes.
  - intros r Hr. unfold fits. rewrite Hlen by done. change MAX_FRAME_PAYLOAD_BYTES with 1073741824 in *. split; [nia|]. split; [done|]. intros _. cbn. lia.
  - unfold routable. cbn [round_header set_tag set_flags collective opcode element_count element_type byte_width]. rewrite length_map, length_seq.
    change MAX_FRAME_PAYLOAD_BYTES with 1073741824 in *. split; [nia|]. split; [|nia].
    apply Forall_map, Forall_forall. intros r Hr%elem_of_seq. cbn. rewrite Hlen by lia. lia.
  - intros r [h p] Hr _ Hp. cbn [payload] in *. subst p.
    assert (Hall : map of_le (chunks_exact 8 (concat (map data (seq 0 world)))) = concat (map values (seq 0 world))).
    { unfold data. rewrite <- (map_map values count_words), concat_count_words, chunks_count_words. apply of_to_words.
      apply Forall_concat, Forall_map, Forall_forall. intros r' Hr'%elem_of_seq. apply Hvalues. lia. }
    change (delivered _ _ r) with (concat (map data (seq 0 world))). rewrite Hall.
    destruct (Hsess r Hr) as [_ _ ->]. destruct (Hvalues r Hr) as [-> _].
    rewrite (length_concat_same n) by (apply Forall_map, Forall_forall; intros r' Hr'%elem_of_seq; apply Hvalues; lia).
    by rewrite length_map, length_seq, Nat.eqb_refl.
Qed.

(** ** Messages under way *)

(** A message of one rank to another, in its channel. *)
Definition message (rail sender receiver : nat) (tag count : Z) (data : list Z) : (nat * Z * Z * Z) * Frame :=
  (message_channel sender receiver rail tag, message_frame uid world sender receiver tag ElementType.U8 count data).

Definition queued (l : list ((nat * Z * Z * Z) * Frame)) : gmap (nat * Z * Z * Z) (list Frame) :=
  foldl (fun m x => push_message x.1 x.2 m) ∅ l.

Lemma queued_snoc l x : queued (l ++ [x]) = push_message x.1 x.2 (queued l).
Proof using Type. unfold queued. by rewrite foldl_snoc. Qed.

(** The messages of a channel arrive in the order in which they were sent. *)
Lemma pop_queued x l : pop_message x.1 (queued (x :: l)) = Some (x.2, queued l).
Proof using Type.
  induction l as [|y l IH] using rev_ind.
  - unfold queued, pop_message, push_message. cbn. rewrite lookup_empty. cbn. rewrite lookup_insert_eq. by rewrite delete_insert_eq.
  - change (x :: l ++ [y]) with ((x :: l) ++ [y]). rewrite !queued_snoc. by apply pop_push.
Qed.

Definition with_queue (w : Wire) (l : list ((nat * Z * Z * Z) * Frame)) : Wire := mkWire (queued l) (submitted w) (answered w).

(** The tags of probes have 64 bits. *)
Lemma probe_tag_width first second rail direction kind : in_width 64 (probe_tag first second rail direction kind).
Proof using Type.
  unfold probe_tag, topology_probe_tag. cbv zeta. change TOPOLOGY_PROBE_TAG_PREFIX with (0x475a * 2 ^ 48). apply hashed_tag. lia.
Qed.

(** *** Loops of one rank *)
Section queue.
Context (w : Wire) (p : nat).
Abbreviation queue := (with_queue w).
Abbreviation messages := (list ((nat * Z * Z * Z) * Frame)).

(** A loop that puts messages out, and one that takes them in. *)
Lemma sending_loop {A S} (f : S -> A -> session_program S) (F : S -> A -> S) (ms : A -> messages) l s sent :
  (forall s x sent, x ∈ l -> alone p (f s x) (queue sent) (Return (Ok (F s x))) (queue (sent ++ ms x))) ->
  alone p (loop f s l) (queue sent) (Return (Ok (foldl F s l))) (queue (sent ++ flat_map ms l)).
Proof using Type.
  revert s sent. induction l as [|x l IH]; intros s sent Hf; cbn [loop foldl flat_map].
  - rewrite app_nil_r. constructor.
  - eapply (alone_then (M:=probing_mail)); [apply Hf; left|]. rewrite app_assoc. apply IH. intros. apply Hf. by right.
Qed.

Lemma receiving_loop {A S} (f : S -> A -> session_program S) (F : S -> A -> S) (ms : A -> messages) l s rest :
  (forall s x rest, x ∈ l -> alone p (f s x) (queue (ms x ++ rest)) (Return (Ok (F s x))) (queue rest)) ->
  alone p (loop f s l) (queue (flat_map ms l ++ rest)) (Return (Ok (foldl F s l))) (queue rest).
Proof using Type.
  revert s. induction l as [|x l IH]; intros s Hf; cbn [loop foldl flat_map].
  - constructor.
  - rewrite <- app_assoc. eapply (alone_then (M:=probing_mail)); [apply Hf; left|]. apply IH. intros. apply Hf. by right.
Qed.

Lemma foldl_append {A B} (f : A -> B) l acc : foldl (fun acc x => acc ++ [f x]) acc l = acc ++ map f l.
Proof using Type. revert acc. induction l as [|x l IH]; intros acc; cbn; [by rewrite app_nil_r|]. by rewrite IH, <- app_assoc. Qed.

Lemma foldl_unit {A} (l : list A) u : foldl (fun u _ => u) u l = (u : unit).
Proof using Type. by induction l. Qed.

Lemma flat_map_const {B} (ms : list B) (i n : nat) : flat_map (fun _ => ms) (seq i n) = concat (replicate n ms).
Proof using Type. revert i. induction n as [|n IH]; intros i; cbn; [done|]. by rewrite IH. Qed.

Lemma sending_repeat n body ms sent :
  (forall sent, alone p body (queue sent) (Return (Ok tt)) (queue (sent ++ ms))) ->
  alone p (repeat_times uid world error_text one_lane n body) (queue sent) (Return (Ok tt)) (queue (sent ++ concat (replicate n ms))).
Proof using Type.
  intros Hbody. pose proof (sending_loop (fun _ _ => body) (fun u _ => u) (fun _ => ms) (seq 0 n) tt sent) as Hl.
  rewrite foldl_unit, flat_map_const in Hl. apply Hl. intros [] x sent' _. apply Hbody.
Qed.

Lemma receiving_repeat n body ms rest :
  (forall rest, alone p body (queue (ms ++ rest)) (Return (Ok tt)) (queue rest)) ->
  alone p (repeat_times uid world error_text one_lane n body) (queue (concat (replicate n ms) ++ rest)) (Return (Ok tt)) (queue rest).
Proof using Type.
  intros Hbody. pose proof (receiving_loop (fun _ _ => body) (fun u _ => u) (fun _ => ms) (seq 0 n) tt rest) as Hl.
  rewrite foldl_unit, flat_map_const in Hl. apply Hl. intros [] x rest' _. apply Hbody.
Qed.

Lemma sending_timed n body ms time sent :
  (forall sent, alone p body (queue sent) (Return (Ok tt)) (queue (sent ++ ms))) ->
  alone p (timed uid world error_text one_lane n body time) (queue sent) (Return (Ok (map (fun i => duration_ns (time i)) (seq 0 n))))
    (queue (sent ++ concat (replicate n ms))).
Proof using Type.
  intros Hbody. unfold timed.
  pose proof (sending_loop (fun samples i => _ ← body; mret (samples ++ [duration_ns (time i)])) (fun samples i => samples ++ [duration_ns (time i)])
    (fun _ => ms) (seq 0 n) [] sent) as Hl.
  rewrite foldl_append, flat_map_const in Hl. apply Hl. intros samples x sent' _. eapply (alone_then (M:=probing_mail)); [apply Hbody|constructor].
Qed.
End queue.

Context (rails : nat) (Hrails : forall r, (r < world)%nat -> session_rails (sess r) = rails).

(** What a sender and a receiver do. *)
Section between.
Context (sender receiver : nat) (Hs : (sender < world)%nat) (Hr : (receiver < world)%nat).
Context (rail : nat) (Hrail : (rail < rails)%nat) (tag : Z) (Htag : in_width 64 tag).
Context (count : Z) (data : list Z) (Hbytes : Forall is_byte data) (Hcount : Zlen data = count /\ count <= MAX_FRAME_PAYLOAD_BYTES).

Lemma data_fits : in_width 64 count /\ fits ElementType.U8 count data.
Proof using Hcount.
  clear - Hcount. destruct Hcount as [Hl Hm]. change MAX_FRAME_PAYLOAD_BYTES with 1073741824 in Hm. unfold fits, in_width.
  change MAX_FRAME_PAYLOAD_BYTES with 1073741824. cbn [byte_width]. pose proof (Zlen_nonneg data). split; [lia|]. split; [lia|]. split; [done|]. lia.
Qed.

Lemma send_queued w sent :
  alone sender (send_on_rail uid world error_text one_lane (sess sender) rail (Z.of_nat receiver) tag ElementType.U8 count data) (with_queue w sent)
    (Return (Ok tt)) (with_queue w (sent ++ [message rail sender receiver tag count data])).
Proof using All.
  destruct data_fits as [Hc Hf].
  pose proof (send_alone uid world error_text one_lane (sess sender) (sess receiver) sender receiver (Hsess _ Hs) Hs Hr Hok rail) as Hsend.
  rewrite !Hrails in Hsend by done. specialize (Hsend (conj Hrail Hrail) tag Htag ElementType.U8 count Hc data Hbytes Hf ltac:(done) (with_queue w sent)).
  unfold endpoint, one_lane in Hsend. cbn [Nat.mul Nat.add] in Hsend. rewrite Nat2Z.id in Hsend. unfold with_queue at 2. by rewrite queued_snoc.
Qed.

Lemma receive_queued w rest :
  alone receiver (received uid world error_text one_lane (sess receiver) rail sender tag count)
    (with_queue w ([message rail sender receiver tag count data] ++ rest)) (Return (Ok tt)) (with_queue w rest).
Proof using All.
  destruct data_fits as [Hc Hf].
  pose proof (receive_alone uid world error_text one_lane (sess sender) (sess receiver) sender receiver (Hsess _ Hr) Hs Hr Hok rail) as Hreceive.
  rewrite !Hrails in Hreceive by done. destruct (Hreceive (conj Hrail Hrail) tag Htag ElementType.U8 count Hc data Hbytes Hf
    (with_queue w ([message rail sender receiver tag count data] ++ rest)) (queued rest)) as (g & _ & Hg).
  { apply (pop_queued (message rail sender receiver tag count data)). }
  unfold endpoint, one_lane in Hg. cbn [Nat.mul Nat.add] in Hg. rewrite Nat2Z.id in Hg.
  unfold received. eapply (alone_then (M:=probing_mail)); [exact Hg|constructor].
Qed.
End between.

(** A sender and a receiver go on, and the other ranks have nothing to do. *)
Lemma world_transfer {A} k sender receiver (programs : nat -> session_program A) (res : nat -> A) ms :
  (sender < world)%nat -> (receiver < world)%nat -> sender <> receiver ->
  (forall r, (r < world)%nat -> r <> sender -> r <> receiver -> programs r = Return (Ok (res r))) ->
  (forall w, alone sender (programs sender) (with_queue w []) (Return (Ok (res sender))) (with_queue w ms)) ->
  (forall w, alone receiver (programs receiver) (with_queue w ms) (Return (Ok (res receiver))) (with_queue w [])) ->
  world_runs k k programs res.
Proof using Type.
  intros Hs Hr Hne Hother Hsend Hreceive w Hw Ht.
  assert (Hempty : with_queue w [] = w) by (destruct w; cbn in *; by subst).
  assert (L1 : map programs (seq 0 world) !! sender = Some (programs sender)) by by rewrite list_lookup_fmap, lookup_seq_lt.
  assert (L2 : (<[sender := Return (Ok (res sender))]> (map programs (seq 0 world))) !! receiver = Some (programs receiver))
    by by rewrite list_lookup_insert_ne, list_lookup_fmap, lookup_seq_lt.
  destruct (alone_runs _ _ _ _ _ _ L1 (Hsend w)) as [l1 H1]. destruct (alone_runs _ _ _ _ _ _ L2 (Hreceive w)) as [l2 H2].
  rewrite Hempty in *. exists (l1 ++ l2), w. split; [|done]. eapply runs_app; [exact H1|].
  assert (map (fun r => Return (Ok (res r))) (seq 0 world) = <[receiver := Return (Ok (res receiver))]> (<[sender := Return (Ok (res sender))]> (map programs (seq 0 world)))) as ->; [|exact H2].
  apply list_eq. intros r. destruct (decide (r = receiver)) as [->|Hr'].
  { rewrite list_lookup_insert_eq by (rewrite length_insert, length_map, length_seq; done). by rewrite list_lookup_fmap, lookup_seq_lt. }
  rewrite list_lookup_insert_ne by done. destruct (decide (r = sender)) as [->|Hs'].
  { rewrite list_lookup_insert_eq by (rewrite length_map, length_seq; done). by rewrite list_lookup_fmap, lookup_seq_lt. }
  rewrite list_lookup_insert_ne, !list_lookup_fmap by done. destruct (decide (r < world)%nat) as [Hlt|Hge].
  - rewrite lookup_seq_lt by done. cbn. by rewrite Hother.
  - by rewrite lookup_seq_ge by lia.
Qed.

(** ** One direction of a rail *)
Context (elapsed : nat -> nat -> nat -> Z -> nat -> Z) (o : TopologyProbeOptions) (Ho : validate_options o = Ok tt) (Hbytes0 : 0 <= payload_bytes o).

Lemma options_valid : 0 < payload_bytes o <= MAX_FRAME_PAYLOAD_BYTES /\ 0 < Z.of_nat (latency_iterations o) <= 10000 /\
  0 < Z.of_nat (bandwidth_iterations o) <= 10000 /\ Z.of_nat (warmup_iterations o) <= 10000.
Proof using Ho Hbytes0.
  clear - Ho Hbytes0. unfold validate_options in Ho. apply bind_Ok in Ho as (? & H1%fail_if_Ok & Ho). apply bind_Ok in Ho as (? & H2%fail_if_Ok & H3%fail_if_Ok).
  repeat match goal with H : _ || _ = false |- _ => apply orb_false_iff in H as [? ?] end.
  repeat match goal with H : (_ =? _)%nat = false |- _ => apply Nat.eqb_neq in H | H : (_ =? _) = false |- _ => apply Z.eqb_neq in H
    | H : (_ <? _) = false |- _ => apply Z.ltb_ge in H end. lia.
Qed.

Definition sampled (sender receiver rail : nat) (kind : Z) (n : nat) : list Z :=
  map (fun i => duration_ns (elapsed sender receiver rail kind i)) (seq 0 n).

(** What the sender of a direction finds. *)
Definition measured (sender receiver rail : nat) : LinkProbe :=
  match direction_probe (E:=NetworkError) o (sampled sender receiver rail 0 (latency_iterations o)) (sampled sender receiver rail 1 (bandwidth_iterations o)) with
  | Ok probe => probe
  | _ => mkProbe 1 1
  end.

Lemma sampled_nonempty sender receiver rail kind n : (0 < n)%nat -> sampled sender receiver rail kind n <> [].
Proof using Type. by destruct n; [lia|]. Qed.

Lemma measured_ok sender receiver rail :
  direction_probe (E:=NetworkError) o (sampled sender receiver rail 0 (latency_iterations o)) (sampled sender receiver rail 1 (bandwidth_iterations o)) = Ok (measured sender receiver rail) /\
  0 < probe_bandwidth (measured sender receiver rail) < 2 ^ 64 /\ 0 < probe_latency (measured sender receiver rail) < 2 ^ 64.
Proof using Ho Hbytes0.
  destruct options_valid as (_ & Hl & Hb & _).
  destruct (direction_probe_ok (E:=NetworkError) o (sampled sender receiver rail 0 (latency_iterations o)) (sampled sender receiver rail 1 (bandwidth_iterations o)))
    as (p & Hp & Hr); [apply sampled_nonempty; lia..|]. unfold measured. rewrite Hp. done.
Qed.

Lemma world_direction k first second sender receiver rail direction : Z.of_nat k < U64_MAX ->
  (sender < world)%nat -> (receiver < world)%nat -> sender <> receiver -> (rail < rails)%nat ->
  world_runs k (S k) (fun r => probe_direction uid world error_text one_lane elapsed (sess r) (Z.of_nat k) first second sender receiver rail direction o)
    (fun r => (Z.of_nat (S k), if (r =? sender)%nat then Some (measured sender receiver rail) else None)).
Proof using All.
  intros Hk Hs Hr Hne Hrail. destruct options_valid as (Hp & Hl & Hb & Hw). unfold probe_direction.
  set (lt := probe_tag _ _ _ _ 0). set (bt := probe_tag _ _ _ _ 1). set (big := replicate _ 0xa5).
  assert (Hbig : Forall is_byte big) by (apply Forall_replicate; unfold is_byte; lia).
  assert (Hlen : Zlen big = payload_bytes o /\ payload_bytes o <= MAX_FRAME_PAYLOAD_BYTES) by (unfold big, Zlen; rewrite length_replicate; lia).
  assert (Hone : Forall is_byte [0]) by (repeat constructor; unfold is_byte; lia).
  assert (Hlen1 : Zlen [0] = 1 /\ 1 <= MAX_FRAME_PAYLOAD_BYTES) by done.
  pose proof (probe_tag_width first second rail direction 0 : in_width 64 lt) as Hlt.
  pose proof (probe_tag_width first second rail direction 1 : in_width 64 bt) as Hbt.
  set (ping := message rail sender receiver lt 1 [0]). set (block := message rail sender receiver bt (payload_bytes o) big).
  pose proof (send_queued sender receiver Hs Hr rail Hrail lt Hlt 1 [0] Hone Hlen1) as Hsend1. fold ping in Hsend1.
  pose proof (send_queued sender receiver Hs Hr rail Hrail bt Hbt (payload_bytes o) big Hbig Hlen) as Hsend2. fold block in Hsend2.
  pose proof (receive_queued sender receiver Hs Hr rail Hrail lt Hlt 1 [0] Hone Hlen1) as Hreceive1. fold ping in Hreceive1.
  pose proof (receive_queued sender receiver Hs Hr rail Hrail bt Hbt (payload_bytes o) big Hbig Hlen) as Hreceive2. fold block in Hreceive2.
  clearbody lt bt big ping block.
  set (samples := fun r => if (r =? sender)%nat then (sampled sender receiver rail 0 (latency_iterations o), sampled sender receiver rail 1 (bandwidth_iterations o)) else ([], [])).
  eapply (world_bind k k (S k) _ samples).
  - apply (world_transfer k sender receiver _ _ (concat (replicate (warmup_iterations o + latency_iterations o) [ping]) ++
      concat (replicate (warmup_iterations o + bandwidth_iterations o) [block]) ++ [])); try done.
    + intros r Hrw H1 H2. destruct (Hsess r Hrw) as [_ -> _]. unfold samples. by rewrite (proj2 (Nat.eqb_neq r sender)), (proj2 (Nat.eqb_neq r receiver)).
    + intros w. destruct (Hsess sender Hs) as [_ -> _]. unfold samples. rewrite Nat.eqb_refl.
      rewrite !replicate_add, !concat_app, app_nil_r, <- !app_assoc.
      eapply (alone_then (M:=probing_mail)); [apply (sending_repeat w sender _ _ [ping]), Hsend1|]. cbn beta iota. rewrite app_nil_l.
      eapply (alone_then (M:=probing_mail)); [apply (sending_timed w sender _ _ [ping]), Hsend1|].
      eapply (alone_then (M:=probing_mail)); [apply (sending_repeat w sender _ _ [block]), Hsend2|].
      eapply (alone_then (M:=probing_mail)); [apply (sending_timed w sender _ _ [block]), Hsend2|].
      rewrite <- !app_assoc. constructor.
    + intros w. destruct (Hsess receiver Hr) as [_ -> _]. unfold samples. rewrite (proj2 (Nat.eqb_neq receiver sender)), Nat.eqb_refl by done.
      rewrite !add_usize_ok by (unfold fits_usize; lia).
      eapply (alone_then (M:=probing_mail)); [constructor|].
      eapply (alone_then (M:=probing_mail)); [apply (receiving_repeat w receiver _ _ [ping]), Hreceive1|].
      eapply (alone_then (M:=probing_mail)); [constructor|].
      eapply (alone_then (M:=probing_mail)); [apply (receiving_repeat w receiver _ _ [block]), Hreceive2|]. constructor.
  - eapply (world_bind k (S k) (S k)); [by apply world_barrier|]. apply world_ret. intros r Hrw.
    destruct (Hsess r Hrw) as [_ -> _]. unfold samples. destruct (Nat.eqb_spec r sender) as [->|Hn]; cbn [negb]; [|done].
    cbn [fst snd]. destruct (measured_ok sender receiver rail) as [-> _]. done.
Qed.

(** ** One direction of all rails at once *)
Definition sampled_together (sender receiver : nat) : list Z :=
  map (fun i => duration_ns (elapsed sender receiver rails 2 i)) (seq (warmup_iterations o) (bandwidth_iterations o)).

Definition measured_together (sender receiver : nat) : Z :=
  match median (E:=NetworkError) (sampled_together sender receiver) with
  | Ok elapsed => bandwidth_of (saturating_mul 128 (payload_bytes o) (Z.of_nat rails)) (Z.max 1 elapsed)
  | _ => 1
  end.

Lemma measured_together_ok sender receiver : 0 < measured_together sender receiver < 2 ^ 64 /\
  exists m, median (E:=NetworkError) (sampled_together sender receiver) = Ok m /\
    measured_together sender receiver = bandwidth_of (saturating_mul 128 (payload_bytes o) (Z.of_nat rails)) (Z.max 1 m).
Proof using Ho Hbytes0.
  destruct options_valid as (_ & _ & Hb & _). destruct (median_ok (E:=NetworkError) (sampled_together sender receiver)) as (m & Hm & _).
  { unfold sampled_together. by destruct (bandwidth_iterations o); [lia|]. }
  unfold measured_together. rewrite Hm. split; [apply bandwidth_of_range|by exists m].
Qed.

Lemma foldl_warm {A} (f : nat -> A) n l acc : (forall i, i ∈ l -> (i < n)%nat) ->
  foldl (fun acc i => if (n <=? i)%nat then acc ++ [f i] else acc) acc l = acc.
Proof using Type.
  intros Hl. induction l as [|x l IH]; [done|]. cbn. rewrite (proj2 (Nat.leb_gt _ _)) by (apply Hl; left). apply IH. intros. apply Hl. by right.
Qed.

Lemma foldl_sampled {A} (f : nat -> A) n l acc : (forall i, i ∈ l -> (n <= i)%nat) ->
  foldl (fun acc i => if (n <=? i)%nat then acc ++ [f i] else acc) acc l = acc ++ map f l.
Proof using Type.
  revert acc. induction l as [|x l IH]; intros acc Hl; cbn; [by rewrite app_nil_r|].
  rewrite (proj2 (Nat.leb_le _ _)) by (apply Hl; left). rewrite IH by (intros; apply Hl; by right). by rewrite <- app_assoc.
Qed.

Lemma world_concurrent k first second sender receiver direction : Z.of_nat k < U64_MAX ->
  (sender < world)%nat -> (receiver < world)%nat -> sender <> receiver -> (1 < rails)%nat ->
  world_runs k (S k) (fun r => probe_concurrent_rails_direction uid world error_text one_lane elapsed (sess r) (Z.of_nat k) first second sender receiver direction o)
    (fun r => (Z.of_nat (S k), if (r =? sender)%nat then Some (measured_together sender receiver) else None)).
Proof using All.
  intros Hk Hs Hr Hne Hmany. destruct options_valid as (Hp & Hl & Hb & Hw).
  remember (replicate (Z.to_nat (payload_bytes o)) 0x5a) as big eqn:Heq.
  assert (Hbig : Forall is_byte big) by (rewrite Heq; apply Forall_replicate; unfold is_byte; lia).
  assert (Hlen : Zlen big = payload_bytes o /\ payload_bytes o <= MAX_FRAME_PAYLOAD_BYTES) by (rewrite Heq; unfold Zlen; rewrite length_replicate; lia).
  set (part := fun rail => [message rail sender receiver (probe_tag first second rail direction 2) (payload_bytes o) big]).
  assert (Hsend : forall w sent, alone sender (loop (fun _ rail => send_on_rail uid world error_text one_lane (sess sender) rail (Z.of_nat receiver)
      (probe_tag first second rail direction 2) ElementType.U8 (payload_bytes o) big) tt (seq 0 rails)) (with_queue w sent)
      (Return (Ok tt)) (with_queue w (sent ++ flat_map part (seq 0 rails)))).
  { intros w sent. match goal with |- alone _ (loop ?f _ _) _ _ _ => pose proof (sending_loop w sender f (fun u _ => u) part (seq 0 rails) tt sent) as Hloop end.
    rewrite foldl_unit in Hloop. apply Hloop. intros [] rail sent' Hin%elem_of_seq.
    apply (send_queued sender receiver Hs Hr rail ltac:(lia) _ (probe_tag_width _ _ _ _ _) _ big Hbig Hlen). }
  assert (Hreceive : forall w rest, alone receiver (loop (fun _ rail => received uid world error_text one_lane (sess receiver) rail sender
      (probe_tag first second rail direction 2) (payload_bytes o)) tt (seq 0 rails)) (with_queue w (flat_map part (seq 0 rails) ++ rest))
      (Return (Ok tt)) (with_queue w rest)).
  { intros w rest. match goal with |- alone _ (loop ?f _ _) _ _ _ => pose proof (receiving_loop w receiver f (fun u _ => u) part (seq 0 rails) tt rest) as Hloop end.
    rewrite foldl_unit in Hloop. apply Hloop. intros [] rail rest' Hin%elem_of_seq.
    apply (receive_queued sender receiver Hs Hr rail ltac:(lia) _ (probe_tag_width _ _ _ _ _) _ big Hbig Hlen). }
  set (batch := flat_map part (seq 0 rails)) in *. clearbody batch.
  set (samples := fun r => if (r =? sender)%nat then sampled_together sender receiver else []).
  assert (Hcount : Z.to_nat (saturating_add usize_bits (Z.of_nat (warmup_iterations o)) (Z.of_nat (bandwidth_iterations o))) = (warmup_iterations o + bandwidth_iterations o)%nat).
  { unfold saturating_add. rewrite saturate_in by (unfold in_width; lia). lia. }
  unfold probe_concurrent_rails_direction.
  apply (world_bind k k (S k) _ (fun _ => tt)).
  { apply world_lift. intros r Hrw. by rewrite (Hrails r Hrw), (proj2 (Nat.leb_gt _ _)) by lia. }
  cbn beta. eapply (world_bind k k (S k) _ samples).
  - apply (world_transfer k sender receiver _ _ (concat (replicate (warmup_iterations o + bandwidth_iterations o) batch) ++ [])); try done.
    + intros r Hrw H1 H2. destruct (Hsess r Hrw) as [_ -> _]. unfold samples. by rewrite (proj2 (Nat.eqb_neq r sender)), (proj2 (Nat.eqb_neq r receiver)).
    + intros w. destruct (Hsess sender Hs) as [_ -> _]. unfold samples. rewrite Nat.eqb_refl, Hcount, (Hrails sender Hs), app_nil_r.
      pose proof (sending_loop w sender (fun samples sample =>
          elapsed_ns ← send_concurrent_probe_sample uid world error_text one_lane (sess sender) first second receiver direction (payload_bytes o) (elapsed sender receiver rails 2 sample);
          mret (if (warmup_iterations o <=? sample)%nat then samples ++ [elapsed_ns] else samples))
        (fun samples sample => if (warmup_iterations o <=? sample)%nat then samples ++ [duration_ns (elapsed sender receiver rails 2 sample)] else samples)
        (fun _ => batch) (seq 0 (warmup_iterations o + bandwidth_iterations o)) [] []) as Hloop.
      rewrite flat_map_const, seq_app, foldl_app, (foldl_warm _ _ (seq 0 _)), foldl_sampled in Hloop.
      2: { intros i Hi%elem_of_seq. lia. }
      2: { intros i Hi%elem_of_seq. lia. }
      rewrite seq_app. apply Hloop. intros acc sample sent _. eapply (alone_then (M:=probing_mail)).
      { unfold send_concurrent_probe_sample. rewrite (Hrails sender Hs), <- Heq. eapply (alone_then (M:=probing_mail)); [apply Hsend|constructor]. }
      constructor.
    + intros w. destruct (Hsess receiver Hr) as [_ -> _]. unfold samples.
      rewrite (proj2 (Nat.eqb_neq receiver sender)), Nat.eqb_refl, Hcount, (Hrails receiver Hr) by done.
      eapply (alone_then (M:=probing_mail)); [apply (receiving_repeat w receiver _ _ batch), Hreceive|constructor].
  - eapply (world_bind k (S k) (S k)); [by apply world_barrier|]. apply world_ret. intros r Hrw.
    destruct (Hsess r Hrw) as [_ -> _]. unfold samples. destruct (Nat.eqb_spec r sender) as [->|Hn]; cbn [negb]; [|done].
    destruct (measured_together_ok sender receiver) as (_ & m & -> & ->). by rewrite (Hrails sender Hs).
Qed.

(** ** One rail of a pair *)
Lemma metric_at (values : nat -> list Z) n r j x : (forall r, (r < world)%nat -> length (values r) = n) ->
  (r < world)%nat -> (j < n)%nat -> values r !! j = Some x -> index (E:=NetworkError) (concat (map values (seq 0 world))) (r * n + j) = Ok x.
Proof using Type.
  intros Hl Hr Hj Hx. apply index_Ok. pose proof (sub_concat n (map values (seq 0 world)) r (values r)) as Hsub.
  rewrite <- Hx, <- Hsub.
  - unfold sub. by rewrite lookup_take_lt, lookup_drop.
  - apply Forall_map, Forall_forall. intros r' Hr'%elem_of_seq. apply Hl. lia.
  - by rewrite list_lookup_fmap, lookup_seq_lt.
Qed.

Definition rail_bandwidth_found (first second rail : nat) : Z :=
  conservative_probe_bandwidth_bucket (Z.min (probe_bandwidth (measured first second rail)) (probe_bandwidth (measured second first rail))).
Definition rail_latency_found (first second rail : nat) : Z :=
  conservative_probe_latency_bucket (Z.max (probe_latency (measured first second rail)) (probe_latency (measured second first rail))).

(** What a rank that knows all measurements does with those of a rail. *)
Definition rail_step (first second : nat) (p : PairProbe) (rail : nat) : tresult PairProbe :=
  let bandwidth := rail_bandwidth_found first second rail in
  let latency := rail_latency_found first second rail in
  topology ← add_rail_link (pair_topology p) (mkRailLink rail first second bandwidth latency);
  Ok (mkPair topology (Z.min (pair_bandwidth_mbps p) bandwidth) (Z.max (pair_latency_ns p) latency)
        (saturating_add 64 (pair_rail_bandwidth_sum_mbps p) bandwidth)).

Definition rail_metrics (first second rail r : nat) : list Z :=
  (if (r =? first)%nat then [probe_bandwidth (measured first second rail); probe_latency (measured first second rail)] else [0; 0]) ++
  (if (r =? second)%nat then [probe_bandwidth (measured second first rail); probe_latency (measured second first rail)] else [0; 0]).

Context (Hsize : Z.of_nat world * 32 <= MAX_FRAME_PAYLOAD_BYTES).

Lemma rail_metrics_ok first second rail r : length (rail_metrics first second rail r) = 4%nat /\ Forall (in_width 64) (rail_metrics first second rail r).
Proof using Ho Hbytes0 world.
  destruct (measured_ok first second rail) as (_ & H1 & H2). destruct (measured_ok second first rail) as (_ & H3 & H4).
  unfold rail_metrics. destruct (r =? first)%nat, (r =? second)%nat; (split; [done|]); repeat constructor; unfold in_width; cbn in *; lia.
Qed.

Lemma world_rail k first second p rail p' : Z.of_nat (k + 3) <= U64_MAX -> (first < world)%nat -> (second < world)%nat -> first <> second -> (rail < rails)%nat ->
  rail_step first second p rail = Ok p' ->
  world_runs k (k + 3) (fun r => probe_rail uid world error_text one_lane elapsed (sess r) first second o (Z.of_nat k, p) rail) (fun _ => (Z.of_nat (k + 3), p')).
Proof using All.
  intros Hk Hf Hs Hne Hrail Hstep. unfold probe_rail.
  replace (k + 3)%nat with (S (S (S k))) by lia.
  eapply (world_bind k (S k)); [apply world_direction; try done; lia|]. cbn beta iota.
  eapply (world_bind (S k) (S (S k))); [apply world_direction; try done; lia|]. cbn beta iota.
  set (sent := fun r => if (r =? first)%nat then [probe_bandwidth (measured first second rail); probe_latency (measured first second rail)] else [0; 0]).
  set (answered := fun r => if (r =? second)%nat then [probe_bandwidth (measured second first rail); probe_latency (measured second first rail)] else [0; 0]).
  apply (world_bind _ (S (S k)) _ _ sent).
  { apply world_lift. intros r Hr. destruct (Hsess r Hr) as [_ -> _]. unfold sent. by destruct (r =? first)%nat. }
  apply (world_bind _ (S (S k)) _ _ answered).
  { apply world_lift. intros r Hr. destruct (Hsess r Hr) as [_ -> _]. unfold answered. by destruct (r =? second)%nat. }
  eapply (world_bind (S (S k)) (S (S (S k)))).
  { apply (world_gather (S (S k)) 4 (rail_metrics first second rail)); [lia|intros; apply rail_metrics_ok|lia]. }
  cbn beta iota. apply world_ret. intros r Hr.
  assert (Hat : forall q j x, (q < world)%nat -> (j < 4)%nat -> rail_metrics first second rail q !! j = Some x ->
    index (E:=NetworkError) (concat (map (rail_metrics first second rail) (seq 0 world))) (q * 4 + j) = Ok x).
  { intros q j x. apply metric_at. intros. apply rail_metrics_ok. }
  destruct (measured_ok first second rail) as (_ & H1 & H2). destruct (measured_ok second first rail) as (_ & H3 & H4).
  rewrite <- (Nat.add_0_r (first * 4)) at 1.
  rewrite (Hat first 0%nat (probe_bandwidth (measured first second rail))), (Hat first 1%nat (probe_latency (measured first second rail))),
    (Hat second 2%nat (probe_bandwidth (measured second first rail))), (Hat second 3%nat (probe_latency (measured second first rail)));
    try done; try lia; try (unfold rail_metrics; rewrite Nat.eqb_refl; by destruct (_ =? _)%nat).
  cbn [lift mbind program_mbind program_bind]. rewrite (proj2 (Z.eqb_neq _ _)), (proj2 (Z.eqb_neq _ _)) by lia. cbn [orb fail_if mbind program_mbind program_bind].
  unfold rail_step in Hstep. apply bind_Ok in Hstep as (t & Ht & [= <-]).
  unfold rail_bandwidth_found, rail_latency_found in *. rewrite Ht. done.
Qed.

(** ** A pair *)
Definition aggregate_found (first second : nat) (sum : Z) : Z :=
  Z.max 1 (Z.min (conservative_probe_bandwidth_bucket (Z.min (measured_together first second) (measured_together second first))) sum).

Definition aggregate_step (first second : nat) (p : PairProbe) : tresult PairProbe :=
  if (1 <? rails)%nat then
    topology ← add_aggregate_link (pair_topology p) (mkAggregateLink first second (aggregate_found first second (pair_rail_bandwidth_sum_mbps p)));
    Ok (mkPair topology (pair_bandwidth_mbps p) (pair_latency_ns p) (pair_rail_bandwidth_sum_mbps p))
  else Ok p.

Definition aggregate_metrics (first second r : nat) : list Z :=
  [if (r =? first)%nat then measured_together first second else 0; if (r =? second)%nat then measured_together second first else 0].

Lemma world_aggregate k first second p p' : Z.of_nat (k + 3) <= U64_MAX -> (first < world)%nat -> (second < world)%nat -> first <> second -> (1 < rails)%nat ->
  aggregate_step first second p = Ok p' ->
  world_runs k (k + 3) (fun r => probe_aggregate uid world error_text one_lane elapsed (sess r) first second o (Z.of_nat k, p)) (fun _ => (Z.of_nat (k + 3), p')).
Proof using All.
  intros Hk Hf Hs Hne Hmany Hstep. unfold probe_aggregate.
  replace (k + 3)%nat with (S (S (S k))) by lia.
  eapply (world_bind k (S k)); [apply world_concurrent; try done; lia|]. cbn beta iota.
  eapply (world_bind (S k) (S (S k))); [apply world_concurrent; try done; lia|]. cbn beta iota.
  apply (world_bind _ (S (S k)) _ _ (fun r => if (r =? first)%nat then measured_together first second else 0)).
  { apply world_lift. intros r Hr. destruct (Hsess r Hr) as [_ -> _]. by destruct (r =? first)%nat. }
  apply (world_bind _ (S (S k)) _ _ (fun r => if (r =? second)%nat then measured_together second first else 0)).
  { apply world_lift. intros r Hr. destruct (Hsess r Hr) as [_ -> _]. by destruct (r =? second)%nat. }
  destruct (measured_together_ok first second) as [H1 _]. destruct (measured_together_ok second first) as [H2 _].
  assert (Hmetrics : forall r, length (aggregate_metrics first second r) = 2%nat /\ Forall (in_width 64) (aggregate_metrics first second r)).
  { intros r. unfold aggregate_metrics. split; [done|]. repeat constructor; unfold in_width; destruct (_ =? _)%nat; lia. }
  eapply (world_bind (S (S k)) (S (S (S k)))).
  { apply (world_gather (S (S k)) 2 (aggregate_metrics first second)); [lia|intros; apply Hmetrics|lia]. }
  cbn beta iota. apply world_ret. intros r Hr.
  rewrite <- (Nat.add_0_r (first * 2)).
  rewrite (metric_at (aggregate_metrics first second) 2 first 0 (measured_together first second)), (metric_at (aggregate_metrics first second) 2 second 1 (measured_together second first));
    try done; try lia; try (intros; apply Hmetrics); try (unfold aggregate_metrics; by rewrite Nat.eqb_refl).
  cbn [lift mbind program_mbind program_bind]. rewrite (proj2 (Z.eqb_neq _ _)), (proj2 (Z.eqb_neq _ _)) by lia. cbn [orb fail_if mbind program_mbind program_bind].
  unfold aggregate_step in Hstep. rewrite (proj2 (Nat.ltb_lt _ _)) in Hstep by done. apply bind_Ok in Hstep as (t & Ht & [= <-]).
  unfold aggregate_found in Ht. rewrite Ht. done.
Qed.

(** The rounds of the coordinator that a pair takes. *)
Definition pair_rounds : nat := (3 * rails + if (1 <? rails)%nat then 3 else 0)%nat.

Definition pair_step (t : CollectiveTopology) (ranks : nat * nat) : tresult CollectiveTopology :=
  let '(first, second) := ranks in
  p ← foldM (rail_step first second) (mkPair t U64_MAX 0 0) (seq 0 rails);
  p ← aggregate_step first second p;
  add_link (pair_topology p) (mkLink first second (pair_bandwidth_mbps p) (pair_latency_ns p)).

Lemma world_pair k t first second t' : Z.of_nat (k + pair_rounds) <= U64_MAX -> (first < second < world)%nat ->
  pair_step t (first, second) = Ok t' ->
  world_runs k (k + pair_rounds) (fun r => probe_pair uid world error_text one_lane elapsed (sess r) o (Z.of_nat k, t) (first, second))
    (fun _ => (Z.of_nat (k + pair_rounds), t')).
Proof using All.
  intros Hk Hlt Hstep. unfold probe_pair. cbn in Hstep.
  apply bind_Ok in Hstep as (p & Hp & Hstep). apply bind_Ok in Hstep as (p' & Hp' & Hlink).
  unfold pair_rounds in *.
  assert (Hrails' : world_runs k (k + 3 * length (seq 0 rails)) (fun r => loop (probe_rail uid world error_text one_lane elapsed (sess r) first second o) (Z.of_nat k, mkPair t U64_MAX 0 0) (seq 0 rails))
    (fun _ => (Z.of_nat (k + 3 * length (seq 0 rails)), p))).
  { apply (world_loop 3 (k + 3 * rails) (fun r => probe_rail uid world error_text one_lane elapsed (sess r) first second o) (rail_step first second) (fun _ => True)); try done.
    - intros j q rail q' Hin%elem_of_seq Hj _ Hq. split; [done|]. apply world_rail; try done; lia.
    - by rewrite length_seq. }
  rewrite length_seq in Hrails'.
  apply (world_bind k (k + 3 * rails) _ _ (fun _ => (Z.of_nat (k + 3 * rails), p))).
  { eapply world_ext; [|done|exact Hrails']. intros r Hr. cbn. by rewrite (Hrails r Hr). }
  apply (world_bind _ (k + (3 * rails + if (1 <? rails)%nat then 3 else 0)) _ _ (fun _ => (Z.of_nat (k + (3 * rails + if (1 <? rails)%nat then 3 else 0)), p'))).
  - destruct (Nat.ltb_spec 1 rails) as [Hmany|Hone].
    + rewrite Nat.add_assoc. eapply world_ext; [|done|apply (world_aggregate (k + 3 * rails) first second p p'); try done; lia].
      intros r Hr. cbn beta. by rewrite (Hrails r Hr), (proj2 (Nat.ltb_lt _ _)) by done.
    + rewrite Nat.add_0_r. apply world_ret. intros r Hr. rewrite (Hrails r Hr), (proj2 (Nat.ltb_ge _ _)) by lia.
      unfold aggregate_step in Hp'. rewrite (proj2 (Nat.ltb_ge _ _)) in Hp' by lia. injection Hp' as <-. done.
  - apply world_ret. intros r Hr. cbn. by rewrite Hlink.
Qed.

(** ** All pairs *)
Context (Htransport : forall r, (r < world)%nat -> session_transport (sess r) = TcpPeer).

Definition all_pairs_step : tresult CollectiveTopology := t ← Topology.empty world; foldM pair_step t (rank_pairs world).

Lemma world_topology k t : Z.of_nat (k + 1 + pair_rounds * length (rank_pairs world)) <= U64_MAX -> all_pairs_step = Ok t ->
  world_runs k (k + 1 + pair_rounds * length (rank_pairs world))
    (fun r => probe_topology uid world error_text one_lane elapsed (sess r) (Z.of_nat k) o)
    (fun _ => (Z.of_nat (k + 1 + pair_rounds * length (rank_pairs world)), t)).
Proof using All.
  intros Hk Hall. unfold probe_topology. apply bind_Ok in Hall as (t0 & H0 & Hall). rewrite Ho.
  eapply (world_bind k k _ _ (fun _ => tt)); [by apply world_ret|].
  eapply (world_bind k k _ _ (fun _ => tt)).
  { apply world_lift. intros r Hr. rewrite (Htransport r Hr), bool_decide_eq_true_2 by done. done. }
  eapply (world_bind k k _ _ (fun _ => t0)).
  { apply world_lift. intros r Hr. destruct (Hsess r Hr) as [_ _ ->]. by rewrite H0. }
  rewrite Nat.add_1_r. eapply (world_bind k (S k)); [apply world_barrier; lia|]. cbn beta.
  eapply world_ext; [|done|]. { intros r Hr. destruct (Hsess r Hr) as [_ _ ->]. reflexivity. }
  apply (world_loop pair_rounds (S k + pair_rounds * length (rank_pairs world)) (fun r => probe_pair uid world error_text one_lane elapsed (sess r) o) pair_step (fun _ => True)); try done.
  intros j s [first second] s' Hin Hj _ Hs. split; [done|]. apply elem_of_rank_pairs in Hin. apply world_pair; try done; lia.
Qed.
End world.

(** ** The probed topology

    Every schedule of the probes of all ranks ends in the same complete topology. *)

(** A loop whose state says what it has done. *)
Lemma foldM_prefix {E A S} (P : list A -> S -> Prop) (f : S -> A -> outcome E S) s l : P [] s ->
  (forall done s x, P done s -> x ∈ l -> exists s', f s x = Ok s' /\ P (done ++ [x]) s') -> exists s', foldM f s l = Ok s' /\ P l s'.
Proof.
  intros Hs Hf. assert (Hgen : forall rest done s, P done s -> (forall x, x ∈ rest -> x ∈ l) -> exists s', foldM f s rest = Ok s' /\ P (done ++ rest) s').
  { induction rest as [|x rest IH]; intros done t Ht Hin; cbn [foldM].
    - exists t. by rewrite app_nil_r.
    - destruct (Hf done t x Ht) as (t' & -> & Ht'); [apply Hin; left|]. cbn [mbind outcome_bind].
      destruct (IH (done ++ [x]) t' Ht') as (u & Hu & HP); [intros; apply Hin; by right|]. exists u. by rewrite <- app_assoc in HP. }
  by apply (Hgen l [] s).
Qed.

(** ** Links that are added *)
Section added.
Implicit Types t : CollectiveTopology.

Lemma add_link_added t l : topology_ok t -> cost_ok (mkCost (link_bandwidth l) (link_latency l)) ->
  (first_rank l < world_size t)%nat -> (second_rank l < world_size t)%nat -> first_rank l <> second_rank l -> exists t', add_link t l = Ok t'.
Proof.
  intros Ht Hc Ha Hb Hne. unfold add_link. assert (check_link t (first_rank l) (second_rank l) (link_bandwidth l) = Ok tt) as ->.
  { apply check_link_Ok. destruct Hc as [Hc _]. cbn in Hc. split_and!; [done|done|done|lia]. }
  cbn [mbind outcome_bind]. destruct (set_both_ok (E:=TopologyError) cost_ok _ _ _ _ (mkCost (link_bandwidth l) (link_latency l)) (topology_matrix _ Ht) Ha Hb Hne Hc) as (m & -> & _).
  by eexists.
Qed.

Lemma add_aggregate_link_added t l : topology_ok t -> bandwidth_ok (aggregate_bandwidth l) ->
  (aggregate_first_rank l < world_size t)%nat -> (aggregate_second_rank l < world_size t)%nat -> aggregate_first_rank l <> aggregate_second_rank l ->
  exists t', add_aggregate_link t l = Ok t'.
Proof.
  intros Ht Hc Ha Hb Hne. unfold add_aggregate_link. assert (check_link t (aggregate_first_rank l) (aggregate_second_rank l) (aggregate_bandwidth l) = Ok tt) as ->.
  { apply check_link_Ok. unfold bandwidth_ok in Hc. split_and!; [done|done|done|lia]. }
  cbn [mbind outcome_bind]. destruct (set_both_ok (E:=TopologyError) bandwidth_ok _ _ _ _ (aggregate_bandwidth l) (topology_aggregate _ Ht) Ha Hb Hne Hc) as (m & -> & _).
  by eexists.
Qed.

Lemma add_rail_link_added t l : topology_ok t -> cost_ok (mkCost (rail_bandwidth l) (rail_latency l)) -> Z.of_nat (rail l) < MAX_P2P_RAILS ->
  (rail_first_rank l < world_size t)%nat -> (rail_second_rank l < world_size t)%nat -> rail_first_rank l <> rail_second_rank l ->
  exists t', add_rail_link t l = Ok t'.
Proof.
  intros Ht Hc Hr Ha Hb Hne. unfold add_rail_link, validate_p2p_rails. unfold MAX_P2P_RAILS in *.
  assert (Hs : saturating_add usize_bits (Z.of_nat (rail l)) 1 = Z.of_nat (rail l) + 1) by (apply saturate_in; unfold in_width; lia).
  rewrite Hs, (proj2 (Z.eqb_neq _ _)), (proj2 (Z.ltb_ge _ _)) by lia. cbn [orb fail_if mbind outcome_bind].
  assert (check_link t (rail_first_rank l) (rail_second_rank l) (rail_bandwidth l) = Ok tt) as ->.
  { apply check_link_Ok. destruct Hc as [Hc' _]. cbn in Hc'. split_and!; [done|done|done|lia]. }
  cbn [mbind outcome_bind]. set (rails := grow_rails _ _ _).
  assert (Hlen : (rail l < length rails)%nat) by (unfold rails, grow_rails; rewrite length_app, length_replicate; lia).
  assert (Hok : Forall (matrix_ok cost_ok (world_size t)) rails).
  { unfold rails, grow_rails. apply Forall_app. split; [apply topology_rails, Ht|]. apply Forall_replicate, blank_ok. }
  unfold index. destruct (lookup_lt_is_Some_2 rails (rail l) Hlen) as [m Hm]. rewrite Hm. cbn [expect mbind outcome_bind].
  destruct (set_both_ok (E:=TopologyError) cost_ok _ _ _ _ (mkCost (rail_bandwidth l) (rail_latency l)) (proj1 (Forall_lookup _ _) Hok _ _ Hm) Ha Hb Hne Hc) as (m' & -> & _).
  by eexists.
Qed.

Lemma linked_pair_ordered a b i j : (a < b)%nat -> (i < j)%nat -> linked_pair a b i j <-> (i, j) = (a, b).
Proof. unfold linked_pair. intros. split; [intros [[-> ->]|[-> ->]]; [done|lia]|intros [= -> ->]; by left]. Qed.
End added.

Section probed.
Context (world rails : nat) (elapsed : nat -> nat -> nat -> Z -> nat -> Z) (o : TopologyProbeOptions).
Context (Hworld : (0 < world)%nat /\ Z.of_nat world < 2 ^ 32) (Hrails : Z.of_nat rails <= MAX_P2P_RAILS).
Context (Ho : validate_options o = Ok tt) (Hbytes0 : 0 <= payload_bytes o).
Abbreviation bandwidth_found := (rail_bandwidth_found elapsed o).
Abbreviation latency_found := (rail_latency_found elapsed o).

Lemma found_ok first second rail : cost_ok (mkCost (bandwidth_found first second rail) (latency_found first second rail)).
Proof using All.
  destruct (measured_ok elapsed o Ho Hbytes0 first second rail) as (_ & H1 & H2).
  destruct (measured_ok elapsed o Ho Hbytes0 second first rail) as (_ & H3 & H4). unfold cost_ok, rail_bandwidth_found, rail_latency_found. cbn.
  split.
  - destruct (bandwidth_bucket_bounds (Z.min (probe_bandwidth (measured elapsed o first second rail)) (probe_bandwidth (measured elapsed o second first rail)))) as (Hb & e & He & Heq); [lia|].
    pose proof (Z.pow_pos_nonneg 4 e ltac:(lia) ltac:(lia)). lia.
  - destruct (latency_bucket_bounds (Z.max (probe_latency (measured elapsed o first second rail)) (probe_latency (measured elapsed o second first rail)))) as (Hl & Hu); lia.
Qed.

(** What is known of a pair after some of its rails. *)
Definition pair_bandwidth (i j : nat) (l : list nat) : Z := foldl (fun b rail => Z.min b (bandwidth_found i j rail)) U64_MAX l.
Definition pair_latency (i j : nat) (l : list nat) : Z := foldl (fun b rail => Z.max b (latency_found i j rail)) 0 l.
Definition pair_sum (i j : nat) (l : list nat) : Z := foldl (fun b rail => saturating_add 64 b (bandwidth_found i j rail)) 0 l.

Lemma pair_cost_ok i j l : cost_ok (mkCost (pair_bandwidth i j l) (pair_latency i j l)).
Proof using All.
  unfold cost_ok, pair_bandwidth, pair_latency. cbn. induction l as [|rail l IH] using rev_ind; [by vm_compute|].
  rewrite !foldl_snoc. destruct (found_ok i j rail) as [H1 H2]. cbn in H1, H2. lia.
Qed.

Definition rail_entry (t : CollectiveTopology) (rail i j : nat) : option LinkCost := entry (default [] (rail_links t !! rail)) i j.

Record rails_done (t : CollectiveTopology) (first second : nat) (l : list nat) (p : PairProbe) : Prop := {
  rails_ok : topology_ok (pair_topology p);
  rails_world : world_size (pair_topology p) = world;
  rails_links : links (pair_topology p) = links t;
  rails_aggregate : aggregate_links (pair_topology p) = aggregate_links t;
  rails_count : (length (rail_links (pair_topology p)) <= rails)%nat;
  rails_entry rail i j : (i < j)%nat -> rail_entry (pair_topology p) rail i j =
    if decide ((i, j) = (first, second) /\ rail ∈ l) then Some (mkCost (bandwidth_found i j rail) (latency_found i j rail)) else rail_entry t rail i j;
  rails_bandwidth : pair_bandwidth_mbps p = pair_bandwidth first second l;
  rails_latency : pair_latency_ns p = pair_latency first second l;
  rails_sum : pair_rail_bandwidth_sum_mbps p = pair_sum first second l;
}.

Lemma rails_probed t first second : topology_ok t -> world_size t = world -> (length (rail_links t) <= rails)%nat -> (first < second < world)%nat ->
  exists p, foldM (rail_step elapsed o first second) (mkPair t U64_MAX 0 0) (seq 0 rails) = Ok p /\ rails_done t first second (seq 0 rails) p.
Proof using All.
  intros Ht Hw Hl Hlt. apply (foldM_prefix (rails_done t first second)).
  - split; try done. cbn. intros rail i j _. rewrite decide_False; [done|]. by intros [_ ?%elem_of_nil].
  - intros l p rail Hp Hin%elem_of_seq. unfold rail_step. unfold MAX_P2P_RAILS in *.
    destruct Hp as [H1 H2 H3 H4 H5 H6 H7 H8 H9]. pose proof (found_ok first second rail) as Hcost.
    destruct (add_rail_link_added (pair_topology p) (mkRailLink rail first second (bandwidth_found first second rail) (latency_found first second rail)) H1 Hcost)
      as [t' Ht']; cbn; [unfold MAX_P2P_RAILS; lia|lia|lia|lia|]. cbn in Ht'. rewrite Ht'. cbn [mbind outcome_bind]. eexists. split; [done|].
    destruct (add_rail_link_spec _ (mkRailLink rail first second (bandwidth_found first second rail) (latency_found first second rail)) H1) as [_ Hspec].
    { destruct Hcost as [Hc1 Hc2]. unfold metrics_typed. cbn in *. lia. }
    destruct (Hspec t' Ht') as (G1 & G2 & G3 & G4 & _ & G5 & G6). cbn in G5, G6.
    split; cbn; try done.
    + by rewrite G2.
    + by rewrite G3.
    + by rewrite G4.
    + rewrite G5. lia.
    + intros q i j Hij. unfold rail_entry. destruct (decide (q < length (rail_links t'))%nat) as [Hq|Hq].
      * rewrite G6 by done. fold (rail_entry (pair_topology p) q i j). rewrite H6 by done.
        pose proof (linked_pair_ordered first second i j ltac:(lia) Hij) as Hpair.
        pose proof (elem_of_app l [rail] q) as Happ. rewrite list_elem_of_singleton in Happ. repeat case_decide; naive_solver.
      * assert (Hnone : rail_entry (pair_topology p) q i j = None) by (unfold rail_entry; by rewrite (lookup_ge_None_2 (rail_links (pair_topology p)) q) by lia).
        specialize (H6 q i j Hij). rewrite Hnone in H6. rewrite (lookup_ge_None_2 (rail_links t')) by lia. cbn.
        pose proof (elem_of_app l [rail] q) as Happ. rewrite list_elem_of_singleton in Happ. assert (q <> rail) by lia. repeat case_decide; naive_solver.
    + unfold pair_bandwidth. rewrite foldl_snoc. by rewrite H7.
    + unfold pair_latency. rewrite foldl_snoc. by rewrite H8.
    + unfold pair_sum. rewrite foldl_snoc. by rewrite H9.
Qed.

(** ** All pairs *)
Abbreviation all_rails := (seq 0 rails).

Definition aggregate_cost (i j : nat) : option Z :=
  if (1 <? rails)%nat then Some (aggregate_found rails elapsed o i j (pair_sum i j all_rails)) else None.

(** What a topology says of a pair that was probed. *)
Record pair_done (t : CollectiveTopology) (i j : nat) : Prop := {
  done_link : entry (links t) i j = Some (mkCost (pair_bandwidth i j all_rails) (pair_latency i j all_rails));
  done_rails rail : (rail < rails)%nat -> rail_entry t rail i j = Some (mkCost (bandwidth_found i j rail) (latency_found i j rail));
  done_aggregate : entry (aggregate_links t) i j = aggregate_cost i j;
}.

Record pairs_done (l : list (nat * nat)) (t : CollectiveTopology) : Prop := {
  pairs_ok : topology_ok t;
  pairs_world : world_size t = world;
  pairs_rails : (length (rail_links t) <= rails)%nat;
  pairs_single : (rails <= 1)%nat -> forall i j, entry (aggregate_links t) i j = None;
  pairs_all i j : (i < j)%nat -> (i, j) ∈ l -> pair_done t i j;
}.

Lemma aggregate_found_ok i j sum : bandwidth_ok (aggregate_found rails elapsed o i j sum).
Proof using All.
  destruct (measured_together_ok rails elapsed o Ho Hbytes0 i j) as [H1 _]. destruct (measured_together_ok rails elapsed o Ho Hbytes0 j i) as [H2 _].
  unfold aggregate_found, bandwidth_ok.
  destruct (bandwidth_bucket_bounds (Z.min (measured_together rails elapsed o i j) (measured_together rails elapsed o j i))) as (Hb & _); lia.
Qed.

Lemma aggregate_probed l p t first second : rails_done t first second l p -> (first < second < world)%nat ->
  (forall i j, (rails <= 1)%nat -> entry (aggregate_links t) i j = None) ->
  exists p', aggregate_step rails elapsed o first second p = Ok p' /\ topology_ok (pair_topology p') /\ world_size (pair_topology p') = world /\
    links (pair_topology p') = links t /\ rail_links (pair_topology p') = rail_links (pair_topology p) /\
    pair_bandwidth_mbps p' = pair_bandwidth_mbps p /\ pair_latency_ns p' = pair_latency_ns p /\
    forall i j, (i < j)%nat -> entry (aggregate_links (pair_topology p')) i j =
      if decide ((i, j) = (first, second)) then (if (1 <? rails)%nat then Some (aggregate_found rails elapsed o i j (pair_sum i j l)) else None)
      else entry (aggregate_links t) i j.
Proof using All.
  intros [H1 H2 H3 H4 H5 H6 H7 H8 H9] Hlt Hnone. unfold aggregate_step. destruct (Nat.ltb_spec 1 rails) as [Hmany|Hone].
  - destruct (add_aggregate_link_added (pair_topology p) (mkAggregateLink first second (aggregate_found rails elapsed o first second (pair_rail_bandwidth_sum_mbps p))) H1)
      as [t' Ht']; cbn; [apply aggregate_found_ok|lia|lia|lia|].
    rewrite Ht'. cbn [mbind outcome_bind]. eexists. split; [done|]. cbn.
    pose proof (aggregate_found_ok first second (pair_rail_bandwidth_sum_mbps p)) as Hb.
    destruct (add_aggregate_link_spec (pair_topology p) (mkAggregateLink first second (aggregate_found rails elapsed o first second (pair_rail_bandwidth_sum_mbps p))) H1)
      as [_ Hspec]; [unfold bandwidth_ok in Hb; cbn; lia|].
    destruct (Hspec t' Ht') as (G1 & G2 & G3 & G4 & G5). split_and!; try done; [by rewrite G2|by rewrite G3|].
    intros i j Hij. rewrite G5. cbn. pose proof (linked_pair_ordered first second i j ltac:(lia) Hij) as Hpair. rewrite H4, H9.
    repeat case_decide; naive_solver.
  - exists p. split; [done|]. split_and!; try done. intros i j Hij. rewrite H4. case_decide; [|done]. by apply Hnone.
Qed.

Lemma pair_probed l t first second : pairs_done l t -> (first < second < world)%nat ->
  exists t', pair_step rails elapsed o t (first, second) = Ok t' /\ pairs_done (l ++ [(first, second)]) t'.
Proof using All.
  intros [H1 H2 H3 H4 H5] Hlt. destruct (rails_probed t first second H1 H2 H3 Hlt) as (p & Hp & Hdone).
  destruct (aggregate_probed _ p t first second Hdone Hlt) as (p' & Hp' & A1 & A2 & A3 & A4 & A5 & A6 & A7); [by intros; apply H4|].
  pose proof Hdone as [R1 R2 R3 R4 R5 R6 R7 R8 R9]. pose proof (pair_cost_ok first second all_rails) as Hcost.
  set (l' := mkLink first second (pair_bandwidth_mbps p') (pair_latency_ns p')).
  assert (Hl' : cost_ok (mkCost (link_bandwidth l') (link_latency l'))) by (unfold l'; cbn; by rewrite A5, A6, R7, R8).
  destruct (add_link_added (pair_topology p') l' A1 Hl') as [t' Ht']; cbn; [lia..|].
  exists t'. split. { cbn. rewrite Hp. cbn [mbind outcome_bind]. rewrite Hp'. cbn [mbind outcome_bind]. exact Ht'. }
  destruct (add_link_spec (pair_topology p') l' A1) as [_ Hspec]. { destruct Hl' as [Hc1 Hc2]. unfold metrics_typed. cbn in *. lia. }
  destruct (Hspec t' Ht') as (G1 & G2 & G3 & G4 & G5). cbn in G5.
  split; [done|by rewrite G2|by rewrite G3, A4| |].
  - intros Hone i j. rewrite G4. destruct (decide (i < j)%nat) as [Hij|Hij]; [|destruct (decide (j < i)%nat) as [Hji|Hji]].
    + rewrite A7 by done. rewrite (proj2 (Nat.ltb_ge _ _)) by lia. case_decide; [done|by apply H4].
    + rewrite (matrix_symmetric _ _ _ (topology_aggregate _ A1)), A7 by done. rewrite (proj2 (Nat.ltb_ge _ _)) by lia. case_decide; [done|by apply H4].
    + replace j with i by lia. apply (matrix_diagonal _ _ _ (topology_aggregate _ A1)).
  - intros i j Hij Hin. pose proof (linked_pair_ordered first second i j ltac:(lia) Hij) as Hpair.
    destruct (decide ((i, j) = (first, second))) as [Heq|Hne].
    + injection Heq as -> ->. split.
      * rewrite G5, decide_True by (by apply Hpair). by rewrite A5, A6, R7, R8.
      * intros rail Hrail. unfold rail_entry. rewrite G3, A4. fold (rail_entry (pair_topology p) rail first second). rewrite R6 by lia. rewrite decide_True; [done|]. split; [done|]. apply elem_of_seq. lia.
      * rewrite G4, A7, decide_True by done. done.
    + apply elem_of_app in Hin as [Hin|?%list_elem_of_singleton]; [|done]. destruct (H5 i j Hij Hin) as [D1 D2 D3]. split.
      * rewrite G5, decide_False by (by intros ?%Hpair). by rewrite A3.
      * intros rail Hrail. unfold rail_entry. rewrite G3, A4. fold (rail_entry (pair_topology p) rail i j). rewrite R6 by lia. rewrite decide_False by (by intros []). by apply D2.
      * rewrite G4, A7, decide_False by done. done.
Qed.

Lemma topology_probed : exists t, all_pairs_step world rails elapsed o = Ok t /\ pairs_done (rank_pairs world) t.
Proof using All.
  unfold all_pairs_step. assert (Hempty : exists t, Topology.empty world = Ok t /\ pairs_done [] t).
  { destruct (Topology.empty world) as [t|e|] eqn:He; unfold Topology.empty in He; rewrite (proj2 (Nat.eqb_neq world 0)) in He by lia; cbn in He; try done.
    injection He as <-. eexists. split; [done|]. split; cbn; try done.
    - apply (empty_ok world); [lia|]. unfold Topology.empty. rewrite (proj2 (Nat.eqb_neq world 0)) by lia. done.
    - lia.
    - intros _ i j. apply entry_blank.
    - by intros i j _ ?%elem_of_nil. }
  destruct Hempty as (t & -> & Ht). cbn [mbind outcome_bind].
  destruct (foldM_prefix pairs_done (pair_step rails elapsed o) t (rank_pairs world) Ht) as (t' & Ht' & Hd).
  - intros l s [first second] Hs Hin%elem_of_rank_pairs. by apply pair_probed.
  - by exists t'.
Qed.
End probed.

(** ** All ranks together *)
Section ranks.
Context `{Crc32Hash} (uid : list Z) (world rails : nat) (error_text : NetworkError -> list Z).
#[local] Existing Instance session_mail.
#[local] Instance ranks_mail : Mail := session_mail uid world error_text one_lane.
#[local] Instance ranks_mail_laws : MailLaws ranks_mail := session_mail_laws uid world error_text one_lane.

(** C12: When the ranks of a peer-to-peer session probe their links at once, every
    schedule of their messages ends, after the same rounds of the coordinator,
    with nothing under way and one and the same topology at every rank: it is
    well formed and links every pair, on every rail and as a whole, with the
    bandwidth of the slowest rail and the latency of the slowest direction, and
    with an aggregate bandwidth when there are several rails; no bandwidth is
    more than the slower direction's measurement or less than a quarter of it,
    and no latency is less than the longer measurement or more than four times it. *)
Theorem probes_agree (sess : nat -> TcpRankSession) (elapsed : nat -> nat -> nat -> Z -> nat -> Z) (o : TopologyProbeOptions) (k : nat) (w : Wire) :
  (forall r, (r < world)%nat -> session_of uid world r (sess r) /\ session_rails (sess r) = rails /\ session_transport (sess r) = TcpPeer) ->
  session_ok uid 0 world -> Z.of_nat rails <= MAX_P2P_RAILS -> Z.of_nat world * 32 <= MAX_FRAME_PAYLOAD_BYTES ->
  validate_options o = Ok tt -> 0 <= payload_bytes o ->
  ready uid world w k -> in_transit w = ∅ ->
  let k' := (k + 1 + pair_rounds rails * length (rank_pairs world))%nat in Z.of_nat k' <= U64_MAX ->
  exists t w',
    ends_in (mkNetwork (map (fun r => probe_topology uid world error_text one_lane elapsed (sess r) (Z.of_nat k) o) (seq 0 world)) w)
      (mkNetwork (map (fun _ => Return (Ok (Z.of_nat k', t))) (seq 0 world)) w') /\
    ready uid world w' k' /\ in_transit w' = ∅ /\ topology_ok t /\ world_size t = world /\
    forall i j, (i < j < world)%nat -> pair_done rails elapsed o t i j /\
      forall rail, (rail < rails)%nat ->
        let slower := Z.min (probe_bandwidth (measured elapsed o i j rail)) (probe_bandwidth (measured elapsed o j i rail)) in
        let longer := Z.max (probe_latency (measured elapsed o i j rail)) (probe_latency (measured elapsed o j i rail)) in
        rail_bandwidth_found elapsed o i j rail <= slower < 4 * rail_bandwidth_found elapsed o i j rail /\
        longer <= rail_latency_found elapsed o i j rail <= 4 * longer.
Proof using Type.
  intros Hsess Hok Hrails Hsize Ho Hb Hw Ht k' Hk.
  destruct (topology_probed world rails elapsed o (Router.session_world _ _ _ Hok) Hrails Ho Hb) as (t & Hall & [D1 D2 _ _ D5]).
  destruct (world_topology uid world error_text sess (fun r Hr => proj1 (Hsess r Hr)) Hok rails (fun r Hr => proj1 (proj2 (Hsess r Hr))) elapsed o Ho Hb Hsize
    (fun r Hr => proj2 (proj2 (Hsess r Hr))) k t Hk Hall w Hw Ht) as (l & w' & Hl & Hw' & Ht').
  exists t, w'. split; [|split_and!; try done].
  - eapply schedule_suffices; [exact Hl|]. rewrite <- (map_map (fun _ => Ok (Z.of_nat k', t)) Return). apply returned_final.
  - intros i j Hij. split; [apply D5; [lia|by apply elem_of_rank_pairs]|]. intros rail Hrail slower longer.
    destruct (measured_ok elapsed o Ho Hb i j rail) as (_ & H1 & H2). destruct (measured_ok elapsed o Ho Hb j i rail) as (_ & H3 & H4).
    split; [apply bandwidth_bucket_bounds; unfold slower; lia|apply latency_bucket_bounds; unfold longer; lia].
Qed.
End ranks.

(** ** Two ranks with two rails *)
Module ProbeExample.
Import Crc32Ieee.
Definition uid : list Z := map Z.of_nat (seq 0 16).
Definition error_text (e : NetworkError) : list Z := [].
Definition session_at (r : nat) : TcpRankSession := mkSession uid r 2 TcpPeer 2.
Definition options : TopologyProbeOptions := mkProbeOptions 4096 3 1 0.

(** The second rail takes twice as long, and rank 1 sends more slowly. *)
Definition elapsed (sender receiver rail : nat) (kind : Z) (sample : nat) : Z :=
  Z.of_nat ((1 + sender) * (1 + rail)) * (if kind =? 0 then 400 + Z.of_nat sample else 20000).
End ProbeExample.

Import Crc32Ieee ProbeExample.

Lemma probes_agree_witness : exists t, topology_ok t /\
  entry (links t) 0 1 = Some (mkCost 16 1024) /\ rail_entry t 0 0 1 = Some (mkCost 64 1024) /\ entry (aggregate_links t) 0 1 = Some 64.
Proof.
  destruct (probes_agree uid 2 2 error_text session_at elapsed options 0 (mkWire ∅ ∅ ∅)) as (t & w' & _ & _ & _ & Hok & _ & Hpairs).
  - intros r Hr. split; [split; reflexivity|split; reflexivity].
  - split; [reflexivity|repeat constructor; unfold is_byte; cbn; lia|unfold in_width; lia|lia].
  - vm_compute. discriminate.
  - vm_compute. discriminate.
  - reflexivity.
  - cbn. lia.
  - apply ready_start.
  - reflexivity.
  - vm_compute. discriminate.
  - destruct (Hpairs 0%nat 1%nat ltac:(lia)) as [[H1 H2 H3] _].
    exists t. split; [exact Hok|]. split; [rewrite H1; vm_compute; reflexivity|]. split; [rewrite (H2 0%nat ltac:(lia)); vm_compute; reflexivity|].
    rewrite H3. vm_compute. reflexivity.
Defined.
